(* ===== verification/_CoqProject ===== *)
-Q . S2P
Prelude.v
AttemptLifecycle.v
Timestamps.v
Settlement.v
Decimals.v
Effects.v
Store.v
Utf16.v
JsonText.v
Parsing.v
LeaseItem.v
LeaseHealth.v
LeaseStore.v
LeaseSession.v
LeaseSafety.v
Journal.v
JournalSafety.v
JournalTx.v
Money.v
CurCsv.v
Safety.v
ControlItems.v
Acceptance.v
Provider.v
ProviderSafety.v
Controller.v
ControllerSafety.v
Protocol.v
BarrierLiveness.v
ProviderExchange.v
ExchangeCorrect.v
ProviderClient.v
ClientSafety.v
ClientCorrect.v
Evidence.v
Fidelity.v
FidelityCorrect.v
IngestionGates.v
Oracle.v
OracleCorrect.v
Ingestion.v
IngestionCorrect.v
Canonical.v
ArtifactReading.v
TrialMessage.v
RequestState.v
RequestSafety.v
VariantSafety.v
Conventional.v
ConventionalSafety.v
Durable.v
DurableSafety.v
Probe.v
Package.v
Amendments.v
AmendmentsCorrect.v
References.v
ReferencesCorrect.v
PackageVerifier.v
PackageVerifierCorrect.v
Comparison.v
ComparisonCorrect.v
StudyCompletion.v
StudyCompletionCorrect.v
Billing.v
BillingCorrect.v
Qualification.v
QualificationCorrect.v
Scope.v
ScopeSnapshot.v
ScopeCorrect.v
ScopeSnapshotCorrect.v
ScopeBindingCorrect.v
