(* ===== verification/Prelude.v ===== *)
(** * Study 1 of "Serverless Under Constraints": verification development

    ** The program

    Study 1 (src/study-1/src/) runs trials of a refund under an injected timeout and
    judges, from recorded evidence alone, whether the refund happened exactly once and
    was reported truthfully. Its parts, and the files that model them:

    - foundations: [Prelude] (results, reasons, lists, sorting, strings), [Timestamps]
      and [Decimals] (record-contract/timestamps.ts, identifiers.ts, digests.ts and the
      decimal texts), [Store] (durable-store/item-store-port.ts: JSON values, items,
      conditions, actions), [Utf16] (the code units of a text), [JsonText]
      (record-contract/json-text.ts, json-value.ts, canonical-json.ts), [Parsing] (record-contract/parsing.ts: strict UTF-8, JSON documents
      and JSON lines), [Effects] (the programs of the adapters as effect trees with
      stores that fail and other writers that interfere);
    - attempts and settlement: [AttemptLifecycle] (attempt-lifecycle/), [Settlement]
      (settlement/: policy, activity, evaluation of samples);
    - the coordination lease (coordination-lease/): [LeaseItem], [LeaseHealth],
      [LeaseStore], [LeaseSession], with [LeaseSafety] proving the protocol;
    - the event journal (event-journal/): [Journal] (keys, events, entries, the writer)
      with [JournalSafety] proving it over many writers and [JournalTx] over transactions;
    - money and safety: [Money] (billing-amendment/money-decimal.ts, safety/usd-amount.ts,
      cost-estimate.ts, record-contract/decimal.ts), [CurCsv] (billing-amendment/
      cur-csv.ts), [Safety] (safety/ limits, supervisor and status;
      billing-amendment/usage-window.ts), [Billing] (the rest of billing-amendment/: the
      attribution context, the columns, the attribution of each line, the billed-cost check
      and the import) with [BillingCorrect];
    - the refund provider (refund-provider/): [ControlItems] (configuration, payment and
      treatment items), [Acceptance] (the call guard and the acceptance rules),
      [Provider] (commit plan and execution, the treatment barrier, the whole handling of
      one call) with [ProviderSafety];
    - the treatment controller (treatment-controller/): [Controller] (partitions, control
      items, the reading of a caller timeout, the decision table, the handling of stream
      records, the environment) with [ControllerSafety];
    - the provider client (provider-client/): [ProviderExchange] (the call, the settlement of
      its transport, the reading of the answer, the records of an attempt) with
      [ExchangeCorrect]; [ProviderClient] (the attempt's row, the race against the deadline,
      the whole attempt) with [ClientSafety] (rely and guarantee) and [ClientCorrect] (its
      end under a clock, its timeout record);
    - trial messages (trial-message/): [TrialMessage] (the registration, the message, its
      check on delivery and before publication);
    - the callers: [RequestState] (conventional-variant/request-state/: the request's state,
      orphan attempts, the recorder) with [RequestSafety]; [Conventional]
      (conventional-variant/) with [ConventionalSafety]; [Durable] (durable-variant/) with
      [DurableSafety]; [VariantSafety] holds what the two proofs share;
    - provider and controller together: [Protocol] (the abstract study and the refinement
      of the whole system to it), [BarrierLiveness] (the provider's wait under a clock);
    - evidence ingestion (evidence-ingestion/): [Evidence] (references, the evidence
      model, gate assembly and the readers of treatment-fidelity/subject-artifacts.ts,
      subject-events.ts and trial-oracle/oracle-inputs.ts), [ArtifactReading] (step I1),
      [IngestionGates] (gates G2, G3
      and G8), [Ingestion] (steps I2 to I8 and their composition) with
      [IngestionCorrect];
    - treatment fidelity (treatment-fidelity/): [Fidelity] (the treatment view, conditions
      BR-RUA-010 to BR-RUA-015, gates G4a and G4b) with [FidelityCorrect];
    - the trial oracle (trial-oracle/): [Oracle] (gates G1, G5, G6 and G7, the business
      rules, validity, verdict, completion, the attempt projection, [evaluateTrial]) with
      [OracleCorrect];
    - the transport probe's caller (transport-probe-caller/): [Probe];
    - the evidence package (evidence-package/): [Package] (package-layout.ts,
      artifact-classification.ts, index-entries.ts, package-indexes.ts, package-integrity.ts),
      [Amendments] (amendments.ts, amendment-chain.ts, amendment-snapshots.ts,
      effective-operational-state.ts) with [AmendmentsCorrect], [References] (json-pointer.ts,
      line-prefix-digests.ts, package-references.ts) with [ReferencesCorrect],
      [PackageVerifier] (prefix checkpoints, nested indexes, package-verifier.ts) with
      [PackageVerifierCorrect]; [Canonical] proves the canonical form of JSON values that
      the journal, the package and the comparison share;
    - the study comparison (study-comparison/): [Comparison] (the terminal reason of a run, its
      evidence integrity, the equality sheets and their evaluation, eligibility, the
      assessment, the run summary; cleanup/leak-capability.ts) with [ComparisonCorrect];
      [StudyCompletion] (provenance, completion, the reader of a run package, the finalization
      of a run) with [StudyCompletionCorrect];
    - transport qualification (transport-qualification/verdict/): [Qualification] (the
      workload a probe ran, its ledger access, settlement and evidence integrity, its verdict
      and result, the usability of a stored probe package) with [QualificationCorrect];
    - the transport scope (transport-qualification/scope/): [Scope] (bundle inputs, lockfile,
      policy, template, the normalization of its values, configuration projections) with
      [ScopeCorrect], [ScopeSnapshot] (dependency closure, snapshot, drift, recomputation)
      with [ScopeSnapshotCorrect] on drift and [ScopeBindingCorrect] on what a snapshot binds.

    How they interact: the provider and the lease write conditional transactions through
    the item store; a variant's invocation reads its trial's registration, checks the message,
    accounts for orphan attempts, makes one attempt through the client, whose call the provider
    handles, and records the request's state; the controller reads the caller's recorded timeout from a stream and
    signals the treatment item the provider waits on; the journal writer appends events through the same store under dense
    sequences; ingestion reads the journals and snapshots these leave, and the oracle
    judges a trial from what ingestion delivers, re-deriving settlement from its samples. The
    files of an execution are frozen into a package whose index the verifier checks, with its
    amendments and references; the comparison reads the oracle results of a run's package and
    writes its assessment and summary, and completion judges the study from that summary, the
    verification and the provenance.

    ** What the theorems show

    - Lease: over every interleaving of sessions with distinct owners and every store
      fault, at most one session holds the lease, a released or recovery-required report
      is true of the row, a lease held by another is never taken over, and publication
      rests on a fresh confirmation.
    - Journal: over many writers, confirmed events occupy exactly the sequences below the
      next one, rows are never changed, and a stopped writer writes nothing.
    - Provider: a SUCCEEDED answer names a ledger row and a commit event this call wrote,
      the barrier reports only transitions that happened, and a call writes only its own
      rows; the call guard is the JSON schema, and the acceptance rules apply in order.
    - Controller: a caller timeout is accepted exactly when it is one, the decision table
      signals exactly the intended timeout, and a signal reported was made on the targeted
      attempt's waiting treatment and touched nothing else.
    - Provider and controller: from any reachable state of any number of calls and
      invocations, each effect makes at most one move of an abstract study (one refund with
      the consumption of its treatment, a signal, an observation, a release); a treatment item that was consumed names
      a recorded refund, every answer is true in every reachable state, and a committed
      call's wait ends within 305 turns of the barrier under a clock that advances.
    - Client: the report of an attempt is true of what was sent and answered, the client
      writes only its own rows and calls only while its row is dispatched, every attempt ends
      under a clock that fires an armed timer, its timeout record is one the controller accepts, and its
      call is one the provider accepts.
    - Messages: a consumer accepts exactly the messages of its active trial, and a message
      that passes the check before publication is accepted.
    - Variants: the states of a request are a history of recorded events whatever parties
      interfere, a reconciliation accounts for every attempt that has a row, a delivery or step
      attempt does what it returns or throws and sends one call at most, no call to the provider is ever forgotten, and
      the durable layers retry exactly while one of them can.
    - Settlement: the loop reports established exactly when the samples hold a quiet run
      of the required length, checked again before the freeze.
    - Ingestion: one entry per event id with the subject's copy preferred and conflicts
      exact, gaps and shared sequences exact, the ledger view exact about pagination and
      duplicates, structural equality decided by a terminating work list, and the
      well-formedness the oracle assumes delivered for every reading.
    - Fidelity and oracle: gate G4b is verified exactly on the intended history; a
      conclusive verdict is given on valid trials only and is decided by the ledger, the
      payment, the decision, the attempts and the recorded knowledge; the oracle never
      throws and refuses exactly when the execution or the trial is unknown; a gate is
      assembled from exactly its deciding causes.
    - Probe: a run of the probe makes one attempt and one call at most, and its report names
      the execution it started and tells what the attempt did.
    - Packages: the verifier always returns and finds a package eligible exactly when every
      part is intact; a package index detects every lost, added or altered file; an open
      journal's checkpoint holds exactly on its extensions; amendments are accepted exactly
      when they form one chain, and the effective state is the last one that chain records;
      references resolve exactly to indexed bytes.
    - Comparison: a run is eligible for comparison exactly when its evidence allows it (four
      valid trials, gates verified, no shared transaction, equal but for declared
      differences), its terminal reason is the first cause, and its summary reports each trial.
    - Completion: a study is complete exactly when every original status, check and reference
      says so; the run reader keeps exactly the correlated valid records; and a complete study
      over the summary a run was finalized with is a run nothing stopped, of four comparable
      trials.
    - Billing: a conclusive billed-cost check accounts for every line of the export, adds up
      exactly the lines of the run, and is breached exactly above the ceiling.
    - Qualification: a probe passes exactly when its six conditions pass, its workload ran
      once and its evidence is sound, fails exactly when a condition fails on untouched
      evidence, and may be selected exactly when its stored package shows it.
    - Scope: a computed snapshot binds exactly the sources, packages, projections, runtime
      properties and timing its policy names; two snapshots drift exactly when they differ, and
      the items name every difference; the normalization of a template value always ends with
      the value a recursive definition gives.
    - Bytes: strict UTF-8 is exactly Unicode's well-formed sequences, JSON lines lose no byte,
      and artifacts are read exactly from the accepted paths.
    - Canonical form: two values have one canonical text exactly when they are structurally
      equal, so both ways the code compares values agree.
    - Text and numbers: round trips and exactness of timestamps, item codecs, CSV, money
      and cost texts, the JSON writer and its bounded form.

    ** Modelling decisions

    - A JavaScript string is kept as the UTF-8 bytes of its characters, a surrogate without
      a partner as the three bytes of its unit. [Utf16] reads its code units back, and every
      length and cut of a text that may leave ASCII counts them, as does the order of the paths
      and keys of packages, scopes and canonical texts; identifiers, instants and codes, which
      are ASCII in the schemas, are compared by their bytes; [bigint] and safe integers are [Z]; other
      numbers keep their spelling ([JSOther]). A [UtcMillis] is the epoch millisecond
      where the code compares instants and the text where it compares texts; [Timestamps]
      proves the two agree. A JavaScript [Map] or [Set] is a list in insertion order.
    - A function that throws returns [Result _ js_error]; [ForeignError] is an error of
      code that is not modelled.
    - Reason details are kept as the texts the code builds.
    - The store answers applied, condition failed, ambiguous or throws; an ambiguous or
      thrown write has landed by the time it is answered or never lands. Clocks answer
      anything. A session, writer or invocation runs one operation at a time and every
      other participant may act before each of its effects (rely and guarantee). "Holding"
      is the phase held with no settlement event recorded. The UUIDs an invocation draws
      are fresh.
    - Event records in evidence are JSON objects; members are read with the types their
      record type declares, which the validator (third-party Ajv, an argument of the
      ingestion model) checks before. SHA-256 is an argument.
    - Fuel: the JSON writer's walk and the structural comparison take the size of the
      value and are proved never to run out; the CSV reader takes the length of the text,
      proved enough by its round trip; the barrier takes a number of turns and [None]
      means it is still waiting, so its safety theorems speak of every number of turns, and
      [BarrierLiveness] proves 305 turns enough when every poll advances the clock by its
      interval and no transaction of the wait fails outright. The client's waits take a number
      of callbacks and the reading of a partition a number of pages, with [None] for a wait
      that has not ended; [ClientCorrect] proves a number of callbacks enough.
      The walks of an amendment chain take one step per amendment plus one, the scan of a
      prefix the length of the journal and the collection of references the size of the value;
      each is proved enough. The normalization of a template value takes one turn per value,
      proved enough. The ports of a scope recomputation read one tree that does not change.
    - A record read back from a package is the JSON value the validator accepted, so a
      required member is there with its declared type and the readers of typed members never take
      their default: behind a validator laxer than the schemas the code would throw a TypeError
      where the model goes on with the default; the typed
      view the code casts it to is an argument ([RecordViews] and the views of [Package]).
    - [JSON.parse] is an argument; bytes are lists of byte values. A value a third-party port
      settles with is a [js_value] whose getters answer or throw.
    - The client's world is the tables and the log of calls sent; the timer and the transport
      are effects that call back in any order, or never ([NextCallback] answers [None] when
      nothing runs). Under the clock of [ClientCorrect] only a timer that was armed fires. The recorder reads pages of the partition at
      one time, by a cursor contract ([continues]), and a request's row is a key of no journal
      event.
    - The durable execution SDK is an argument: it runs step attempts and asks the strategy.
    - A stream record reaches the controller as the item its image holds.

    ** Not modelled

    AWS calls and their adapters (admission, evidence collection, cleanup beyond the capability
    of a leaked resource, deployment assembly, the DynamoDB codec, the Lambda client), handlers
    that bind them, command-line entry points, trial execution, variant validation and the
    execution lifecycle, which compose those adapters; the snapshot of a package's directory
    and the inventory of its assembly at packaging time, which reads bundles as JavaScript;
    the adapters of the transport scope (esbuild, git, node_modules); and of the lease the timer
    loop that calls the session. *)

From Stdlib Require Export ZArith Lia Bool.
From stdpp Require Export base list sorting strings gmap pretty.

(** ** Scope, hint database and tactics *)

Declare Scope rua_scope.
Delimit Scope rua_scope with rua.
Open Scope rua_scope.

Create HintDb rua.

(** Case analysis on the scrutinee of the first [match] found. *)
Ltac split_match :=
  match goal with
  | |- context [match ?x with _ => _ end] => destruct x eqn:?
  | H : context [match ?x with _ => _ end] |- _ => destruct x eqn:?
  end.

(** Exhaustive case analysis followed by the stdpp equality simplifier. *)
Ltac cases := repeat (split_match; simplify_eq/=); simplify_eq/=.

(** Turns boolean tests in the context into propositions. *)
Ltac boolp :=
  repeat match goal with
  | H : (_ && _) = true |- _ => apply andb_prop in H; destruct H
  | H : (_ || _) = false |- _ => apply orb_false_elim in H; destruct H
  | H : negb _ = true |- _ => apply negb_true_iff in H
  | H : negb _ = false |- _ => apply negb_false_iff in H
  | H : bool_decide _ = true |- _ => apply bool_decide_eq_true_1 in H
  | H : bool_decide _ = false |- _ => apply bool_decide_eq_false_1 in H
  | H : (_ =? _)%Z = true |- _ => apply Z.eqb_eq in H
  | H : (_ =? _)%Z = false |- _ => apply Z.eqb_neq in H
  | H : (_ <? _)%Z = true |- _ => apply Z.ltb_lt in H
  | H : (_ <? _)%Z = false |- _ => apply Z.ltb_ge in H
  | H : (_ <=? _)%Z = true |- _ => apply Z.leb_le in H
  | H : (_ <=? _)%Z = false |- _ => apply Z.leb_gt in H
  | H : (_ >=? _)%Z = true |- _ => rewrite Z.geb_leb in H; apply Z.leb_le in H
  | H : (_ >=? _)%Z = false |- _ => rewrite Z.geb_leb in H; apply Z.leb_gt in H
  | H : (_ >? _)%Z = true |- _ => rewrite Z.gtb_ltb in H; apply Z.ltb_lt in H
  | H : (_ >? _)%Z = false |- _ => rewrite Z.gtb_ltb in H; apply Z.ltb_ge in H
  end.

(** [lia] with division and modulo by constants. *)
Ltac dlia := Z.to_euclidean_division_equations; lia.

(** ** Results and errors

    [Result] is [Result<T, E>] of record-contract/primitives.ts. A function
    that can throw returns [Result T js_error]; the error keeps the class the
    code throws and its message. [ForeignError] is an error thrown by code that
    is not modelled (an SDK client, a broken adapter), known by its name only. *)

Inductive Result (T E : Type) : Type :=
| Ok (value : T)
| Err (error : E).
Arguments Ok {T E} value.
Arguments Err {T E} error.

Inductive js_error : Type :=
| RangeError (message : string)
| TypeError (message : string)
| PlainError (message : string)
| ForeignError (name : string).

Definition is_ok {T E} (r : Result T E) : bool :=
  match r with Ok _ => true | Err _ => false end.

Definition bind_result {T U E} (r : Result T E) (k : T -> Result U E) : Result U E :=
  match r with Ok v => k v | Err e => Err e end.

Notation "'let!' x ':=' r 'in' k" := (bind_result r (fun x => k))
  (at level 10, x pattern, r at level 100, k at level 200) : rua_scope.

Lemma bind_result_ok {T U E} (r : Result T E) (k : T -> Result U E) u :
  bind_result r k = Ok u -> exists v, r = Ok v /\ k v = Ok u.
Proof. destruct r; naive_solver. Qed.

Lemma is_ok_true {T E} (r : Result T E) : is_ok r = true <-> exists v, r = Ok v.
Proof. destruct r; naive_solver. Qed.

(** A machine-readable reason; [artifact_path] and [event_id] are the optional
    members of the source's interface. *)
Record StructuredReason : Type := MkReason {
  code : string;
  subject : string;
  artifact_path : option string;
  event_id : option string;
  detail : string;
}.

Definition reason (c s d : string) : StructuredReason := MkReason c s None None d.

#[export] Instance StructuredReason_eq_dec : EqDecision StructuredReason.
Proof. solve_decision. Defined.

(** ** Numbers

    A JavaScript number is kept as [Z] wherever the code only admits safe
    integers; [bigint] is [Z]. *)

Definition MAX_SAFE_INTEGER : Z := 9007199254740991.

Definition is_safe_integer (z : Z) : bool :=
  (- MAX_SAFE_INTEGER <=? z)%Z && (z <=? MAX_SAFE_INTEGER)%Z.

(** [String(n)] for an integral number below 1e21, and [bigint.toString()]. *)
Definition string_of_Z (z : Z) : string := pretty z.

(** ** Options *)

(** [a ?? b] *)
Definition nullish {A} (o : option A) (d : A) : A :=
  match o with Some a => a | None => d end.

(** ** Lists *)

Definition memb {A} `{EqDecision A} (x : A) (l : list A) : bool := bool_decide (x ∈ l).

Lemma memb_true {A} `{EqDecision A} (x : A) l : memb x l = true <-> x ∈ l.
Proof. apply bool_decide_eq_true. Qed.

Lemma memb_false {A} `{EqDecision A} (x : A) l : memb x l = false <-> x ∉ l.
Proof. apply bool_decide_eq_false. Qed.

(** [Array.prototype.find] *)
Fixpoint find_first {A} (p : A -> bool) (l : list A) : option A :=
  match l with
  | [] => None
  | x :: l' => if p x then Some x else find_first p l'
  end.

Lemma elem_of_filter_bool {A} (p : A -> bool) l x : x ∈ List.filter p l <-> x ∈ l /\ p x = true.
Proof. rewrite !list_elem_of_In. apply filter_In. Qed.

Lemma find_first_Some {A} (p : A -> bool) l x :
  find_first p l = Some x -> x ∈ l /\ p x = true.
Proof.
  induction l as [|y l IH]; simpl; [done|].
  destruct (p y) eqn:Hy; [intros [= ->]; set_solver|].
  intros [??]%IH; set_solver.
Qed.

Lemma find_first_None {A} (p : A -> bool) l :
  find_first p l = None <-> forall x, x ∈ l -> p x = false.
Proof.
  induction l as [|y l IH]; simpl.
  - split; [intros _ x Hx; by apply elem_of_nil in Hx|done].
  - destruct (p y) eqn:Hy.
    + split; [done|]. intros H. specialize (H y ltac:(left)). congruence.
    + rewrite IH. split; intros H x; [|by auto using elem_of_cons; intros; apply H; right].
      intros [->|Hx]%elem_of_cons; auto.
Qed.

(** [Array.prototype.at(-1)] *)
Definition last_opt {A} (l : list A) : option A := last l.

Lemma existsb_true {A} (p : A -> bool) l :
  existsb p l = true <-> exists x, x ∈ l /\ p x = true.
Proof. rewrite existsb_exists. by setoid_rewrite list_elem_of_In. Qed.

Lemma existsb_false {A} (p : A -> bool) l :
  existsb p l = false <-> forall x, x ∈ l -> p x = false.
Proof.
  split.
  - intros H x Hx. destruct (p x) eqn:E; [|done].
    enough (existsb p l = true) by congruence. apply existsb_true; eauto.
  - intros H. destruct (existsb p l) eqn:E; [|done].
    apply existsb_true in E as (x & Hx & Hp). rewrite H in Hp; done.
Qed.

Lemma sum_list_with_map {A B} (f : B -> nat) (g : A -> B) l :
  sum_list_with f (map g l) = sum_list_with (fun x => f (g x)) l.
Proof. induction l as [|x l IH]; simpl; congruence. Qed.

Lemma sum_list_with_imap {A B} (f : B -> nat) (g : nat -> A -> B) (h : A -> nat) l :
  (forall i x, f (g i x) = h x) -> sum_list_with f (imap g l) = sum_list_with h l.
Proof.
  intros H. revert g H. induction l as [|x l IH]; intros g H; simpl; [done|].
  rewrite H. f_equal. apply IH. intros; apply H.
Qed.

(** ** Stable sorting

    [Array.prototype.toSorted] and [sort] with a comparator: [le x y] is
    [compare(x, y) <= 0]; elements that compare equal keep their order. *)

Section isort.
Context {A : Type} (le : A -> A -> bool).

Fixpoint insert_by (x : A) (l : list A) : list A :=
  match l with
  | [] => [x]
  | y :: l' => if le x y then x :: y :: l' else y :: insert_by x l'
  end.

Definition isort (l : list A) : list A := foldr insert_by [] l.

Lemma insert_by_perm x l : insert_by x l ≡ₚ x :: l.
Proof.
  induction l as [|y l IH]; simpl; [done|]. destruct (le x y); [done|].
  rewrite IH. apply Permutation_swap.
Qed.

Lemma isort_perm l : isort l ≡ₚ l.
Proof. induction l as [|x l IH]; simpl; [done|]. by rewrite insert_by_perm, IH. Qed.

Lemma isort_elem x l : x ∈ isort l <-> x ∈ l.
Proof. by rewrite isort_perm. Qed.

Context (Htrans : forall x y z, le x y = true -> le y z = true -> le x z = true).
Context (Htotal : forall x y, le x y = true \/ le y x = true).

Lemma insert_by_sorted x l :
  StronglySorted (fun a b => le a b = true) l -> StronglySorted (fun a b => le a b = true) (insert_by x l).
Proof.
  induction 1 as [|y l Hs IH Hy]; simpl; [by repeat constructor|].
  destruct (le x y) eqn:E.
  - constructor; [by constructor|]. constructor; [done|].
    eapply Forall_impl; [exact Hy|]. simpl. eauto.
  - constructor; [done|]. rewrite insert_by_perm. constructor; [|done].
    destruct (Htotal x y); congruence.
Qed.

Lemma isort_sorted l : StronglySorted (fun a b => le a b = true) (isort l).
Proof. induction l as [|x l IH]; simpl; [constructor|]. by apply insert_by_sorted. Qed.
End isort.

(** Sorting commutes with a map that preserves the comparison. *)
Lemma isort_map {A B} (leA : A -> A -> bool) (leB : B -> B -> bool) (f : A -> B) l :
  (forall x y, leB (f x) (f y) = leA x y) -> isort leB (map f l) = map f (isort leA l).
Proof.
  intros Hf. induction l as [|x l IH]; simpl; [done|]. rewrite IH. clear IH.
  induction (isort leA l) as [|y k IH]; simpl; [done|]. rewrite Hf.
  destruct (leA x y); simpl; [done|]. by rewrite IH.
Qed.

(** [toSorted((a, b) => key(a) - key(b))] *)
Definition sort_on {A} (key : A -> Z) : list A -> list A := isort (fun x y => (key x <=? key y)%Z).

Lemma sort_on_elem {A} (key : A -> Z) x l : x ∈ sort_on key l <-> x ∈ l.
Proof. apply isort_elem. Qed.

Lemma sort_on_sorted {A} (key : A -> Z) l :
  StronglySorted (fun a b => (key a <= key b)%Z) (sort_on key l).
Proof.
  assert (H : StronglySorted (fun a b => (key a <=? key b)%Z = true) (sort_on key l)).
  { apply isort_sorted; intros; lia. }
  induction H as [|x k Hs IH Hx]; constructor; [done|].
  eapply Forall_impl; [exact Hx|]. simpl. lia.
Qed.

Lemma StronglySorted_filter {A} (R : relation A) (P : A -> Prop) `{forall x, Decision (P x)} l :
  StronglySorted R l -> StronglySorted R (filter P l).
Proof.
  induction 1 as [|x l Hs IH Hx]; [constructor|]. rewrite filter_cons. case_decide; [|done].
  constructor; [done|]. rewrite Forall_forall in Hx |- *. intros y [_ Hy]%list_elem_of_filter. auto.
Qed.

#[export] Hint Resolve sort_on_sorted StronglySorted_filter : rua.

(** ** Strings

    JavaScript strings are Rocq strings, a character per byte of their UTF-8
    form; [Utf16] has their code units. *)

Definition chars (s : string) : list Ascii.ascii := String.list_ascii_of_string s.
Definition text (l : list Ascii.ascii) : string := String.string_of_list_ascii l.

Lemma chars_text l : chars (text l) = l.
Proof. apply String.list_ascii_of_string_of_list_ascii. Qed.
Lemma text_chars s : text (chars s) = s.
Proof. apply String.string_of_list_ascii_of_string. Qed.

Lemma chars_inj a b : chars a = chars b -> a = b.
Proof. intros H. by rewrite <- (text_chars a), H, text_chars. Qed.

Lemma text_inj a b : text a = text b -> a = b.
Proof. intros H. by rewrite <- (chars_text a), H, chars_text. Qed.

Lemma chars_app a b : chars (a +:+ b) = chars a ++ chars b.
Proof. unfold String.app. induction a as [|c a IH]; simpl; [done|]. f_equal. apply IH. Qed.

Lemma text_app a b : text (a ++ b) = text a +:+ text b.
Proof. apply chars_inj. by rewrite chars_app, !chars_text. Qed.

Lemma length_chars s : length (chars s) = String.length s.
Proof. induction s; simpl; congruence. Qed.

Lemma string_app_assoc (a b c : string) : (a +:+ b) +:+ c = a +:+ (b +:+ c).
Proof. apply chars_inj. by rewrite !chars_app, (assoc_L (++)). Qed.

Lemma string_app_nil_r (a : string) : a +:+ "" = a.
Proof. apply chars_inj. by rewrite chars_app, app_nil_r. Qed.

(** The first [n] bytes; of an ASCII text [s.slice(0, n)]. *)
Definition str_take (n : nat) (s : string) : string := text (take n (chars s)).

(** [pieces.join('')] *)
Fixpoint str_concat (l : list string) : string :=
  match l with [] => "" | s :: l' => s +:+ str_concat l' end.

Lemma str_concat_app a b : str_concat (a ++ b) = str_concat a +:+ str_concat b.
Proof. induction a as [|x a IH]; simpl; [done|]. by rewrite IH, string_app_assoc. Qed.

(** [parts.join(sep)] *)
Fixpoint str_join (sep : string) (l : list string) : string :=
  match l with
  | [] => ""
  | [s] => s
  | s :: l' => s +:+ sep +:+ str_join sep l'
  end.

Definition quote_char : string := String (Ascii.ascii_of_nat 34) EmptyString.

#[export] Hint Resolve memb_true : rua.
