(* ===== verification/AttemptLifecycle.v ===== *)
(** * Attempt lifecycle (src/study-1/src/attempt-lifecycle)

    Dispatch classification (BR-RUA-021), outcome classes, the effect-knowledge
    table (BR-RUA-022, BR-RUA-004) and terminality across retry layers
    (BR-RUA-024). Every function is pure; the vocabularies are the closed
    tuples of record-contract/records/group-b/vocabulary.ts. *)

From S2P Require Import Prelude.
Open Scope Z_scope.

Module Attempt.

(** ** Vocabularies *)

Inductive AttemptOutcome := SUCCEEDED | REJECTED | TIMED_OUT | FAILED.
Inductive DispatchState := NOT_DISPATCHED | DISPATCHED | DISPATCH_UNKNOWN.
Inductive EffectKnowledge :=
| NOT_ATTEMPTED | NO_EFFECT_CONFIRMED | ONE_EFFECT_CONFIRMED
| MULTIPLE_EFFECTS_CONFIRMED | UNKNOWN.
Inductive OutcomeClass := PRE_DISPATCH_FAILURE | REJECTION | SUCCESS | AMBIGUOUS.

#[export] Instance AttemptOutcome_eq_dec : EqDecision AttemptOutcome.
Proof. solve_decision. Defined.
#[export] Instance DispatchState_eq_dec : EqDecision DispatchState.
Proof. solve_decision. Defined.
#[export] Instance EffectKnowledge_eq_dec : EqDecision EffectKnowledge.
Proof. solve_decision. Defined.
#[export] Instance OutcomeClass_eq_dec : EqDecision OutcomeClass.
Proof. solve_decision. Defined.

(** ** Dispatch classification *)

(** [boolean | 'unknown'] *)
Inductive tri := Present | Absent | Unknown.

#[export] Instance tri_eq_dec : EqDecision tri.
Proof. solve_decision. Defined.

Record DispatchEvidence := MkDispatchEvidence {
  pre_dispatch_registered : tri;
  not_dispatched_transition_recorded : tri;
  dispatch_started_recorded : tri;
}.

Definition classifyDispatch (e : DispatchEvidence) : DispatchState :=
  if bool_decide (dispatch_started_recorded e = Present) then DISPATCHED
  else if bool_decide (not_dispatched_transition_recorded e = Present)
          && negb (bool_decide (pre_dispatch_registered e = Absent))
       then NOT_DISPATCHED
  else DISPATCH_UNKNOWN.

(** ** Outcome classes *)

Definition outcome_text (o : AttemptOutcome) : string :=
  match o with
  | SUCCEEDED => "SUCCEEDED" | REJECTED => "REJECTED"
  | TIMED_OUT => "TIMED_OUT" | FAILED => "FAILED"
  end.

Definition OUTCOME_DISPATCH_CONTRADICTION : string := "OUTCOME_DISPATCH_CONTRADICTION".

(** The table has no [FAILED] entry; its type excludes that outcome. *)
Definition DISPATCHED_OUTCOME_CLASSES (o : AttemptOutcome) : option OutcomeClass :=
  match o with
  | SUCCEEDED => Some SUCCESS
  | REJECTED => Some REJECTION
  | TIMED_OUT => Some AMBIGUOUS
  | FAILED => None
  end.

Definition contradiction_reason (o : AttemptOutcome) : StructuredReason :=
  reason OUTCOME_DISPATCH_CONTRADICTION "BR-RUA-021"
    ("outcome " +:+ outcome_text o +:+
     " with dispatch state NOT_DISPATCHED; expected DISPATCHED or UNKNOWN, because SUCCEEDED, REJECTED and TIMED_OUT imply DISPATCHED").

Definition classifyOutcome (outcome : AttemptOutcome) (dispatch : DispatchState)
    : Result OutcomeClass StructuredReason :=
  match DISPATCHED_OUTCOME_CLASSES outcome with
  | None =>
      Ok (if bool_decide (dispatch = NOT_DISPATCHED) then PRE_DISPATCH_FAILURE else AMBIGUOUS)
  | Some cls =>
      if bool_decide (dispatch = NOT_DISPATCHED) then Err (contradiction_reason outcome)
      else Ok cls
  end.

(** ** Effect knowledge *)

(** The literal 5 x 4 table of the source. *)
Definition EFFECT_KNOWLEDGE_TABLE (from : EffectKnowledge) (cls : OutcomeClass) : EffectKnowledge :=
  match from with
  | NOT_ATTEMPTED =>
      match cls with
      | PRE_DISPATCH_FAILURE => NOT_ATTEMPTED
      | REJECTION => NO_EFFECT_CONFIRMED
      | SUCCESS => ONE_EFFECT_CONFIRMED
      | AMBIGUOUS => UNKNOWN
      end
  | NO_EFFECT_CONFIRMED =>
      match cls with
      | PRE_DISPATCH_FAILURE => NO_EFFECT_CONFIRMED
      | REJECTION => NO_EFFECT_CONFIRMED
      | SUCCESS => ONE_EFFECT_CONFIRMED
      | AMBIGUOUS => UNKNOWN
      end
  | ONE_EFFECT_CONFIRMED =>
      match cls with
      | PRE_DISPATCH_FAILURE => ONE_EFFECT_CONFIRMED
      | REJECTION => ONE_EFFECT_CONFIRMED
      | SUCCESS => MULTIPLE_EFFECTS_CONFIRMED
      | AMBIGUOUS => UNKNOWN
      end
  | MULTIPLE_EFFECTS_CONFIRMED =>
      match cls with
      | PRE_DISPATCH_FAILURE => MULTIPLE_EFFECTS_CONFIRMED
      | REJECTION => MULTIPLE_EFFECTS_CONFIRMED
      | SUCCESS => MULTIPLE_EFFECTS_CONFIRMED
      | AMBIGUOUS => UNKNOWN
      end
  | UNKNOWN =>
      match cls with
      | PRE_DISPATCH_FAILURE => UNKNOWN
      | REJECTION => UNKNOWN
      | SUCCESS => UNKNOWN
      | AMBIGUOUS => UNKNOWN
      end
  end.

Definition INITIAL_EFFECT_KNOWLEDGE : EffectKnowledge := NOT_ATTEMPTED.

Definition OUTCOME_CLASSES : list OutcomeClass := [PRE_DISPATCH_FAILURE; REJECTION; SUCCESS; AMBIGUOUS].

Definition nextEffectKnowledge (from : EffectKnowledge) (cls : OutcomeClass) : EffectKnowledge :=
  EFFECT_KNOWLEDGE_TABLE from cls.

Definition isPermittedKnowledgeTransition (from to : EffectKnowledge) : bool :=
  memb to (map (EFFECT_KNOWLEDGE_TABLE from) OUTCOME_CLASSES).

Definition foldEffectKnowledge (classes : list OutcomeClass) : EffectKnowledge :=
  fold_left nextEffectKnowledge classes INITIAL_EFFECT_KNOWLEDGE.

(** ** Terminality *)

Inductive RetryLayerFacts :=
| Conventional (receive_count max_receive_count : Z) (attempt_ambiguous_or_failed : bool)
| Durable (receive_count max_receive_count : Z) (inner_execution_exhausted : bool)
| Probe (attempt_ambiguous_or_failed : bool).

Inductive TerminalityDecision := STILL_RUNNING | RETRIES_EXHAUSTED.

Definition isPositiveSafeInteger (value : Z) : bool := is_safe_integer value && (value >=? 1).

(** [assertFailure] quotes the facts with [JSON.stringify]. *)
Definition bool_text (b : bool) : string := if b then "true" else "false".

Definition facts_text (facts : RetryLayerFacts) : string :=
  let key (k : string) := quote_char +:+ k +:+ quote_char +:+ ":" in
  let str (s : string) := quote_char +:+ s +:+ quote_char in
  match facts with
  | Conventional r m b =>
      "{" +:+ key "variant" +:+ str "conventional" +:+ "," +:+ key "receive_count" +:+ string_of_Z r
      +:+ "," +:+ key "max_receive_count" +:+ string_of_Z m +:+ ","
      +:+ key "attempt_ambiguous_or_failed" +:+ bool_text b +:+ "}"
  | Durable r m b =>
      "{" +:+ key "variant" +:+ str "durable" +:+ "," +:+ key "receive_count" +:+ string_of_Z r
      +:+ "," +:+ key "max_receive_count" +:+ string_of_Z m +:+ ","
      +:+ key "inner_execution_exhausted" +:+ bool_text b +:+ "}"
  | Probe b =>
      "{" +:+ key "variant" +:+ str "probe" +:+ "," +:+ key "attempt_ambiguous_or_failed"
      +:+ bool_text b +:+ "}"
  end.

Definition assertFailure (facts : RetryLayerFacts) (failed : bool) : Result unit js_error :=
  if failed then Ok tt
  else Err (RangeError ("retry-layer facts " +:+ facts_text facts
         +:+ " describe no failure; expected attempt_ambiguous_or_failed to be true")).

Definition assertReceiveCounts (receiveCount maxReceiveCount : Z) : Result unit js_error :=
  if negb (isPositiveSafeInteger receiveCount) || negb (isPositiveSafeInteger maxReceiveCount) then
    Err (RangeError ("receive_count " +:+ string_of_Z receiveCount +:+ " and max_receive_count "
           +:+ string_of_Z maxReceiveCount +:+ "; expected positive safe integers"))
  else if receiveCount >? maxReceiveCount then
    Err (RangeError ("receive_count " +:+ string_of_Z receiveCount +:+ " above max_receive_count "
           +:+ string_of_Z maxReceiveCount
           +:+ "; expected receive_count <= max_receive_count, because the redrive policy moves the message to the DLQ after the last receive"))
  else Ok tt.

Definition by_receive_count (receive_count max_receive_count : Z) : TerminalityDecision :=
  if receive_count <? max_receive_count then STILL_RUNNING else RETRIES_EXHAUSTED.

Definition decideTerminality (facts : RetryLayerFacts) : Result TerminalityDecision js_error :=
  match facts with
  | Probe failed =>
      let! _ := assertFailure facts failed in Ok RETRIES_EXHAUSTED
  | Durable receive_count max_receive_count inner_execution_exhausted =>
      let! _ := assertReceiveCounts receive_count max_receive_count in
      if negb inner_execution_exhausted then Ok STILL_RUNNING
      else Ok (by_receive_count receive_count max_receive_count)
  | Conventional receive_count max_receive_count failed =>
      let! _ := assertReceiveCounts receive_count max_receive_count in
      let! _ := assertFailure facts failed in
      Ok (by_receive_count receive_count max_receive_count)
  end.

(** ** Dispatch: what the classification rests on *)

Lemma classifyDispatch_spec e :
  match classifyDispatch e with
  | DISPATCHED => dispatch_started_recorded e = Present
  | NOT_DISPATCHED =>
      dispatch_started_recorded e <> Present
      /\ not_dispatched_transition_recorded e = Present /\ pre_dispatch_registered e <> Absent
  | DISPATCH_UNKNOWN =>
      dispatch_started_recorded e <> Present
      /\ (not_dispatched_transition_recorded e <> Present \/ pre_dispatch_registered e = Absent)
  end.
Proof. by destruct e as [[] [] []]; vm_compute; intuition congruence. Qed.

(** ** Knowledge: the abstract meaning of the table

    The abstract specification of the fold: an ambiguous attempt anywhere makes
    the request unknown for good; otherwise the knowledge counts confirmed
    effects (capped at "multiple") and remembers whether a rejection was seen. *)

Definition successes (classes : list OutcomeClass) : nat :=
  length (filter (fun c => c = SUCCESS) classes).

Definition knowledge_spec (classes : list OutcomeClass) : EffectKnowledge :=
  if memb AMBIGUOUS classes then UNKNOWN
  else match successes classes with
       | O => if memb REJECTION classes then NO_EFFECT_CONFIRMED else NOT_ATTEMPTED
       | 1%nat => ONE_EFFECT_CONFIRMED
       | _ => MULTIPLE_EFFECTS_CONFIRMED
       end.

Lemma successes_snoc cs c :
  successes (cs ++ [c]) = (successes cs + if bool_decide (c = SUCCESS) then 1 else 0)%nat.
Proof.
  unfold successes. rewrite filter_app, length_app.
  by destruct c.
Qed.

Lemma memb_snoc {A} `{EqDecision A} (x c : A) l :
  memb x (l ++ [c]) = memb x l || bool_decide (x = c).
Proof.
  apply eq_bool_prop_intro. unfold memb.
  rewrite orb_True, !bool_decide_spec. set_solver.
Qed.

Lemma knowledge_spec_snoc cs c :
  knowledge_spec (cs ++ [c]) = nextEffectKnowledge (knowledge_spec cs) c.
Proof.
  unfold knowledge_spec. rewrite !memb_snoc, successes_snoc.
  destruct (memb AMBIGUOUS cs); [by destruct c|].
  destruct (successes cs) as [|[|n]]; destruct (memb REJECTION cs); by destruct c.
Qed.

(** The aggregate effect knowledge of a request is exactly what its attempts
    establish, whatever their number and order: [UNKNOWN] as soon as one attempt
    was ambiguous, otherwise the number of confirmed effects (none, one,
    several), where "no effect confirmed" needs at least one authoritative
    rejection and "not attempted" means every attempt failed before dispatch. *)
Theorem fold_effect_knowledge_correct (cs : list OutcomeClass) :
  foldEffectKnowledge cs = knowledge_spec cs.
Proof.
  induction cs as [|c cs IH] using rev_ind; [done|].
  unfold foldEffectKnowledge in *. rewrite fold_left_app. simpl.
  by rewrite IH, knowledge_spec_snoc.
Qed.

(** ** Transitions as a relation *)

Definition knowledge_rank (k : EffectKnowledge) : nat :=
  match k with
  | NOT_ATTEMPTED => 0 | NO_EFFECT_CONFIRMED => 1 | ONE_EFFECT_CONFIRMED => 2
  | MULTIPLE_EFFECTS_CONFIRMED => 3 | UNKNOWN => 4
  end.

Lemma permitted_iff from to :
  isPermittedKnowledgeTransition from to = true <-> exists c, nextEffectKnowledge from c = to.
Proof.
  unfold isPermittedKnowledgeTransition. rewrite memb_true, list_elem_of_fmap.
  split; [intros (c & -> & _); eauto|intros [c <-]; exists c; split; [done|]].
  destruct c; set_solver.
Qed.

Definition all_knowledge : list EffectKnowledge :=
  [NOT_ATTEMPTED; NO_EFFECT_CONFIRMED; ONE_EFFECT_CONFIRMED; MULTIPLE_EFFECTS_CONFIRMED; UNKNOWN].

Definition step_knowledge (a b : EffectKnowledge) : Prop := isPermittedKnowledgeTransition a b = true.

Lemma step_knowledge_rank a b : step_knowledge a b -> (knowledge_rank a <= knowledge_rank b)%nat.
Proof. intros [c <-]%permitted_iff. destruct a, c; simpl; lia. Qed.

Lemma steps_knowledge_rank a b : rtc step_knowledge a b -> (knowledge_rank a <= knowledge_rank b)%nat.
Proof. induction 1 as [|??? H%step_knowledge_rank]; lia. Qed.

(** Knowledge never moves back: along any sequence of permitted transitions the rank
    (not attempted < none < one < several < unknown) never decreases, [UNKNOWN] is
    absorbing, and exactly 12 of the 25 (from, to) pairs are refused. *)
Theorem knowledge_transitions_monotone :
  (forall a b, rtc step_knowledge a b -> (knowledge_rank a <= knowledge_rank b)%nat)
  /\ (forall b, rtc step_knowledge UNKNOWN b -> b = UNKNOWN)
  /\ length (filter (fun p => isPermittedKnowledgeTransition p.1 p.2 = false)
               (list_prod all_knowledge all_knowledge)) = 12%nat.
Proof.
  split; [apply steps_knowledge_rank|]. split; [|by vm_compute].
  intros b H%steps_knowledge_rank. destruct b; simpl in *; lia || done.
Qed.

(** ** Evidence to knowledge *)

Lemma classifyOutcome_pre_dispatch o d :
  classifyOutcome o d = Ok PRE_DISPATCH_FAILURE <-> o = FAILED /\ d = NOT_DISPATCHED.
Proof. by destruct o, d; vm_compute; intuition congruence. Qed.

(** Absence of records never proves that an attempt was not dispatched: unless the
    conditional NOT_DISPATCHED transition is itself recorded, no attempt is classed as a
    pre-dispatch failure, a [FAILED] outcome is ambiguous, and the request's knowledge
    after it is [UNKNOWN] whatever came before; a recorded dispatch makes the same true
    even when the transition is recorded too. *)
Theorem absence_never_proves_non_dispatch (e : DispatchEvidence)
    (H : not_dispatched_transition_recorded e <> Present \/ dispatch_started_recorded e = Present) :
  (forall o, classifyOutcome o (classifyDispatch e) <> Ok PRE_DISPATCH_FAILURE)
  /\ classifyOutcome FAILED (classifyDispatch e) = Ok AMBIGUOUS
  /\ (forall before, foldEffectKnowledge (before ++ [AMBIGUOUS]) = UNKNOWN).
Proof.
  assert (Hd : classifyDispatch e <> NOT_DISPATCHED).
  { pose proof (classifyDispatch_spec e) as Hs. intros E. rewrite E in Hs. naive_solver. }
  split; [|split].
  - intros o [_ ?]%classifyOutcome_pre_dispatch. done.
  - by destruct (classifyDispatch e).
  - intros before. unfold foldEffectKnowledge. rewrite fold_left_app. simpl.
    by destruct (fold_left _ _ _).
Qed.

Lemma absence_never_proves_non_dispatch_witness :
  classifyOutcome FAILED (classifyDispatch (MkDispatchEvidence Present Absent Absent)) = Ok AMBIGUOUS.
Proof.
  apply (absence_never_proves_non_dispatch (MkDispatchEvidence Present Absent Absent)).
  left; discriminate.
Defined.

(** ** Terminality *)

Definition valid_counts (r m : Z) : Prop := 1 <= r <= m /\ m <= MAX_SAFE_INTEGER.

Definition valid_facts (facts : RetryLayerFacts) : Prop :=
  match facts with
  | Probe failed => failed = true
  | Durable r m _ => valid_counts r m
  | Conventional r m failed => valid_counts r m /\ failed = true
  end.

(** Whether some retry layer above or inside the failed one can still run. *)
Definition can_retry (facts : RetryLayerFacts) : Prop :=
  match facts with
  | Probe _ => False
  | Durable r m exhausted => exhausted = false \/ r < m
  | Conventional r m _ => r < m
  end.

Lemma assertReceiveCounts_ok r m : assertReceiveCounts r m = Ok tt <-> valid_counts r m.
Proof.
  unfold assertReceiveCounts, isPositiveSafeInteger, is_safe_integer, valid_counts, MAX_SAFE_INTEGER.
  destruct (_ || _) eqn:E1; [|destruct (_ >? _) eqn:E2]; split; try done; lia.
Qed.

Lemma assertReceiveCounts_cases r m :
  (assertReceiveCounts r m = Ok tt /\ valid_counts r m)
  \/ ((exists e, assertReceiveCounts r m = Err e) /\ ~ valid_counts r m).
Proof.
  rewrite <- assertReceiveCounts_ok. destruct (assertReceiveCounts r m) as [[]|e]; [by left|].
  right; split; [eauto|done].
Qed.

(** A failed retry layer ends request processing exactly when no layer can retry: on
    facts that describe a failure with counts [1 <= receive <= max] the decision is
    [RETRIES_EXHAUSTED] iff nothing can redeliver or retry (the probe, the last receive of
    the source queue with, for the durable variant, an exhausted execution) and
    [STILL_RUNNING] otherwise; all other facts throw. *)
Theorem decide_terminality_correct (facts : RetryLayerFacts) :
  (valid_facts facts -> can_retry facts -> decideTerminality facts = Ok STILL_RUNNING)
  /\ (valid_facts facts -> ~ can_retry facts -> decideTerminality facts = Ok RETRIES_EXHAUSTED)
  /\ (~ valid_facts facts -> exists e, decideTerminality facts = Err e).
Proof.
  unfold decideTerminality, by_receive_count.
  destruct facts as [r m f|r m x|f]; simpl.
  - destruct (assertReceiveCounts_cases r m) as [[-> Hv]|[[e ->] Hv]]; simpl.
    + destruct f; simpl; [|naive_solver].
      split; [|split]; intros; try (destruct (r <? m) eqn:E; boolp; done || lia); naive_solver.
    + naive_solver.
  - destruct (assertReceiveCounts_cases r m) as [[-> Hv]|[[e ->] Hv]]; simpl; [|naive_solver].
    destruct x; simpl.
    + split; [|split]; intros; try (destruct (r <? m) eqn:E; boolp; done || naive_solver lia); naive_solver.
    + naive_solver.
  - destruct f; naive_solver.
Qed.

Lemma decide_terminality_correct_witness :
  decideTerminality (Conventional 1 2 true) = Ok STILL_RUNNING
  /\ decideTerminality (Conventional 2 2 true) = Ok RETRIES_EXHAUSTED.
Proof.
  split.
  - apply (decide_terminality_correct (Conventional 1 2 true)); cbv; intuition congruence.
  - apply (decide_terminality_correct (Conventional 2 2 true)); cbv; intuition congruence.
Defined.

End Attempt.
