(* ===== verification/Timestamps.v ===== *)
(** * UTC instants, identifiers and digests (src/study-1/src/record-contract)

    timestamps.ts, identifiers.ts and digests.ts. [UtcMillis] is the string
    [YYYY-MM-DDTHH:mm:ss.SSSZ]; the calendar behind [Date.parse] and
    [Date.prototype.toISOString] is the proleptic Gregorian one of ECMAScript.
    The theorems show that the accepted strings are exactly the renderings of
    the instants of years 0000 to 9999 and that rendering is injective, which
    is why the other files carry a [UtcMillis] as its epoch milliseconds. *)

From S2P Require Import Prelude.
From Stdlib Require Strings.Ascii.
Import (notations) Stdlib.Strings.Ascii.
Open Scope Z_scope.

Module Calendar.

Definition MS_PER_DAY : Z := 86400000.

(** Days since 1970-01-01 of a civil date; [month] in 1..12, any [day]. *)
Definition days_from_civil (year month day : Z) : Z :=
  let y := if month <=? 2 then year - 1 else year in
  let era := y / 400 in
  let yoe := y mod 400 in
  let doy := (153 * (if month >? 2 then month - 3 else month + 9) + 2) / 5 + day - 1 in
  era * 146097 + (yoe * 365 + yoe / 4 - yoe / 100 + doy) - 719468.

(** Year-of-era and day-of-year (years start in March) of a day of a 400-year
    era: whole centuries, then whole four-year cycles, then whole years. *)
Definition year_of_doe (doe : Z) : Z * Z :=
  let c := Z.min (doe / 36524) 3 in
  let r := doe - 36524 * c in
  let q := r / 1461 in
  let r2 := r - 1461 * q in
  let y1 := Z.min (r2 / 365) 3 in
  (100 * c + 4 * q + y1, r2 - 365 * y1).

Definition civil_from_days (days : Z) : Z * Z * Z :=
  let z := days + 719468 in
  let '(yoe, doy) := year_of_doe (z mod 146097) in
  let mp := (5 * doy + 2) / 153 in
  let month := if mp <? 10 then mp + 3 else mp - 9 in
  let year := yoe + z / 146097 * 400 in
  ((if month <=? 2 then year + 1 else year), month, doy - (153 * mp + 2) / 5 + 1).

Lemma year_of_doe_spec doe yoe doy :
  0 <= doe < 146097 -> year_of_doe doe = (yoe, doy) ->
  0 <= yoe < 400 /\ 0 <= doy <= 365 /\ 365 * yoe + yoe / 4 - yoe / 100 + doy = doe.
Proof.
  intros H [= <- <-].
  set (c := Z.min (doe / 36524) 3). set (r := doe - 36524 * c).
  assert (0 <= c <= 3 /\ 0 <= r <= 36524) as [Hc Hr] by (subst c r; dlia).
  set (q := r / 1461). set (r2 := r - 1461 * q).
  assert (0 <= q <= 24 /\ 0 <= r2 <= 1460) as [Hq Hr2] by (subst q r2; dlia).
  set (y1 := Z.min (r2 / 365) 3).
  assert (0 <= y1 <= 3 /\ 0 <= r2 - 365 * y1 <= 365) as [Hy1 Hd] by (subst y1; dlia).
  assert ((100 * c + 4 * q + y1) / 4 = 25 * c + q) as -> by dlia.
  assert ((100 * c + 4 * q + y1) / 100 = c) as -> by dlia.
  split; [lia|]. split; [lia|]. subst r2 r. lia.
Qed.

Lemma month_of_doy_spec doy mp :
  0 <= doy <= 365 -> mp = (5 * doy + 2) / 153 ->
  0 <= mp <= 11 /\ 1 <= doy - (153 * mp + 2) / 5 + 1 <= 31.
Proof. intros H ->. dlia. Qed.

Lemma civil_from_days_ranges days y m d :
  civil_from_days days = (y, m, d) -> 1 <= m <= 12 /\ 1 <= d <= 31.
Proof.
  unfold civil_from_days. set (z := days + 719468).
  destruct (year_of_doe (z mod 146097)) as [yoe doy] eqn:E.
  apply year_of_doe_spec in E as (_ & Hdoy & _); [|apply Z.mod_pos_bound; lia].
  destruct (month_of_doy_spec doy _ Hdoy eq_refl) as [Hmp Hd].
  set (mp := (5 * doy + 2) / 153) in *. intros [= _ <- <-].
  destruct (mp <? 10) eqn:?; boolp; lia.
Qed.

Lemma days_civil_roundtrip days y m d :
  civil_from_days days = (y, m, d) -> days_from_civil y m d = days.
Proof.
  unfold civil_from_days. set (z := days + 719468).
  destruct (year_of_doe (z mod 146097)) as [yoe doy] eqn:E.
  apply year_of_doe_spec in E as (Hyoe & Hdoy & Hdoe); [|apply Z.mod_pos_bound; lia].
  destruct (month_of_doy_spec doy _ Hdoy eq_refl) as [Hmp _].
  set (mp := (5 * doy + 2) / 153) in *. set (era := z / 146097) in *.
  set (month := if mp <? 10 then mp + 3 else mp - 9).
  assert (Hmonth : (if month >? 2 then month - 3 else month + 9) = mp).
  { subst month. destruct (mp <? 10) eqn:?; boolp; destruct (_ >? 2) eqn:?; boolp; lia. }
  intros [= <- <- <-]. unfold days_from_civil. rewrite Hmonth.
  assert (Hy : (if month <=? 2 then (if month <=? 2 then yoe + era * 400 + 1 else yoe + era * 400) - 1
                else (if month <=? 2 then yoe + era * 400 + 1 else yoe + era * 400))
               = yoe + era * 400) by (destruct (month <=? 2); lia).
  rewrite Hy, Z.div_add, Z.mod_add, Z.div_small, Z.mod_small by lia.
  pose proof (Z.div_mod z 146097 ltac:(lia)). lia.
Qed.

End Calendar.
Import Calendar.

(** ** Digits *)

Module Digits.

Definition digit_char (d : Z) : Ascii.ascii := Ascii.ascii_of_nat (48 + Z.to_nat d).

Definition digit_val (c : Ascii.ascii) : option Z :=
  let n := Z.of_nat (Ascii.nat_of_ascii c) in
  if (48 <=? n) && (n <=? 57) then Some (n - 48) else None.

#[global] Arguments digit_char : simpl never.
#[global] Arguments digit_val : simpl never.

Lemma digit_val_char d : 0 <= d <= 9 -> digit_val (digit_char d) = Some d.
Proof.
  intros H. unfold digit_val, digit_char. rewrite Ascii.nat_ascii_embedding by lia.
  replace (Z.of_nat (48 + Z.to_nat d)) with (48 + d) by lia.
  destruct (_ && _) eqn:E; [f_equal; lia|lia].
Qed.

(** [String(n).padStart(width, '0')] for [0 <= n < 10^width], most significant first. *)
Fixpoint pad_digits (width : nat) (n : Z) : list Ascii.ascii :=
  match width with
  | O => []
  | S w => pad_digits w (n / 10) ++ [digit_char (n mod 10)]
  end.

Fixpoint read_digits_acc (acc : Z) (l : list Ascii.ascii) : option Z :=
  match l with
  | [] => Some acc
  | c :: l' => match digit_val c with Some d => read_digits_acc (acc * 10 + d) l' | None => None end
  end.

Definition read_digits (l : list Ascii.ascii) : option Z := read_digits_acc 0 l.

Lemma read_digits_acc_app acc l1 l2 :
  read_digits_acc acc (l1 ++ l2) =
  match read_digits_acc acc l1 with Some a => read_digits_acc a l2 | None => None end.
Proof. revert acc. induction l1 as [|c l IH]; intros acc; simpl; [done|]. by destruct (digit_val c). Qed.

Lemma length_pad_digits w n : length (pad_digits w n) = w.
Proof. revert n. induction w as [|w IH]; intros n; simpl; [done|]. rewrite length_app, IH. simpl. lia. Qed.

Lemma read_pad_digits w n : 0 <= n < 10 ^ Z.of_nat w -> read_digits (pad_digits w n) = Some n.
Proof.
  revert n. unfold read_digits. induction w as [|w IH]; intros n Hn.
  - simpl in Hn. simpl. f_equal. lia.
  - cbn [pad_digits]. rewrite Nat2Z.inj_succ, Z.pow_succ_r in Hn by lia.
    rewrite read_digits_acc_app, IH by (split; [apply Z.div_pos; lia|apply Z.div_lt_upper_bound; lia]).
    cbn [read_digits_acc]. rewrite digit_val_char by (pose proof (Z.mod_pos_bound n 10 ltac:(lia)); lia).
    f_equal. pose proof (Z.div_mod n 10 ltac:(lia)). lia.
Qed.

End Digits.
Import Digits.

(** ** Instants as text *)

Module Utc.

(** A time value: epoch milliseconds within the range of [Date], or the
    invalid date ([NaN]). *)
Definition MAX_TIME : Z := 8640000000000000.
Definition Date (ms : Z) : option Z := if Z.abs ms <=? MAX_TIME then Some ms else None.

Local Open Scope char_scope.

(** The year of [toISOString]: four digits from 0000 to 9999, otherwise a sign
    and six digits. *)
Definition year_chars (year : Z) : list Ascii.ascii :=
  if (0 <=? year)%Z && (year <=? 9999)%Z then pad_digits 4 year
  else (if (year <? 0)%Z then "-" else "+") :: pad_digits 6 (Z.abs year).

Definition iso_tail (month day hour minute second milli : Z) : list Ascii.ascii :=
  ["-"] ++ pad_digits 2 month ++ ["-"] ++ pad_digits 2 day ++ ["T"] ++ pad_digits 2 hour ++ [":"]
  ++ pad_digits 2 minute ++ [":"] ++ pad_digits 2 second ++ ["."] ++ pad_digits 3 milli ++ ["Z"].

Definition iso_chars (ms : Z) : list Ascii.ascii :=
  let tod := ms mod MS_PER_DAY in
  let '(year, month, day) := civil_from_days (ms / MS_PER_DAY) in
  year_chars year ++
  iso_tail month day (tod / 3600000) (tod / 60000 mod 60) (tod / 1000 mod 60) (tod mod 1000).

Definition toISOString (ms : Z) : string := text (iso_chars ms).

(** The fields of [/^\d{4}-\d{2}-\d{2}T\d{2}:\d{2}:\d{2}\.\d{3}Z$/]. *)
Definition utc_fields (s : string) : option (Z * Z * Z * Z * Z * Z * Z) :=
  match chars s with
  | [y1; y2; y3; y4; c1; m1; m2; c2; d1; d2; c3; h1; h2; c4; n1; n2; c5; s1; s2; c6; f1; f2; f3; c7] =>
      if bool_decide ([c1; c2; c3; c4; c5; c6; c7] = ["-"; "-"; "T"; ":"; ":"; "."; "Z"]) then
        match read_digits [y1; y2; y3; y4], read_digits [m1; m2], read_digits [d1; d2],
              read_digits [h1; h2], read_digits [n1; n2], read_digits [s1; s2], read_digits [f1; f2; f3] with
        | Some y, Some mo, Some d, Some h, Some mi, Some se, Some ms => Some (y, mo, d, h, mi, se, ms)
        | _, _, _, _, _, _, _ => None
        end
      else None
  | _ => None
  end.

(** [Date.parse] of a string in that pattern. A month, day or time field out of
    its range is invalid; a day that the month does not have rolls over, as V8
    does ([2026-02-30] is March 2). *)
Definition Date_parse (s : string) : option Z :=
  match utc_fields s with
  | Some (y, mo, d, h, mi, se, ms) =>
      if (1 <=? mo)%Z && (mo <=? 12)%Z && (1 <=? d)%Z && (d <=? 31)%Z && (h <=? 24)%Z
         && (mi <=? 59)%Z && (se <=? 59)%Z
         && ((h <? 24)%Z || ((mi =? 0)%Z && (se =? 0)%Z && (ms =? 0)%Z))
      then Some (days_from_civil y mo d * MS_PER_DAY + h * 3600000 + mi * 60000 + se * 1000 + ms)%Z
      else None
  | None => None
  end.

Definition matches_UTC_MILLIS_PATTERN (s : string) : bool := bool_decide (is_Some (utc_fields s)).

Definition isUtcMillis (s : string) : bool :=
  matches_UTC_MILLIS_PATTERN s &&
  match Date_parse s with
  | Some t => bool_decide (toISOString t = s)
  | None => false
  end.

Definition quoted (s : string) : string :=
  quote_char +:+ s +:+ quote_char.

Definition formatUtcMillis (instant : option Z) : Result string js_error :=
  let t := match instant with Some ms => toISOString ms | None => "Invalid Date"%string end in
  if isUtcMillis t then Ok t
  else Err (RangeError ("cannot format " +:+ quoted t +:+
    " as UTC millis; expected a valid instant in years 0000-9999 (YYYY-MM-DDTHH:mm:ss.SSSZ)")).

Definition parseUtcMillis (value subject : string) : Result string StructuredReason :=
  if isUtcMillis value then Ok value
  else Err (reason "INVALID_UTC_MILLIS" subject
    ("got " +:+ quoted value +:+ "; expected an existing UTC instant formatted YYYY-MM-DDTHH:mm:ss.SSSZ")).

(** The first instant of year 0000 and the last one of year 9999. *)
Definition MIN_UTC : Z := -62167219200000.
Definition MAX_UTC : Z := 253402300799999.
Definition in_utc_range (ms : Z) : Prop := (MIN_UTC <= ms <= MAX_UTC)%Z.

#[export] Instance in_utc_range_dec ms : Decision (in_utc_range ms).
Proof. unfold in_utc_range. apply _. Defined.

(** ** Lemmas *)

Lemma read_digits_nonneg l n : read_digits l = Some n -> (0 <= n)%Z.
Proof.
  unfold read_digits. cut (forall acc, (0 <= acc)%Z -> read_digits_acc acc l = Some n -> (0 <= n)%Z).
  { intros H. apply H. lia. }
  induction l as [|c l IH]; intros acc Hacc; cbn [read_digits_acc]; [naive_solver|].
  destruct (digit_val c) as [d|] eqn:Hd; [|done]. apply IH.
  unfold digit_val in Hd. destruct (_ && _) eqn:E; [|done]. simplify_eq. boolp. lia.
Qed.

Local Lemma pad2 n : exists a b, pad_digits 2 n = [a; b].
Proof. simpl. eauto. Qed.
Local Lemma pad3 n : exists a b c, pad_digits 3 n = [a; b; c].
Proof. simpl. eauto. Qed.
Local Lemma pad4 n : exists a b c d, pad_digits 4 n = [a; b; c; d].
Proof. simpl. eauto 6. Qed.

Lemma utc_fields_iso y mo d h mi se ms :
  (0 <= y < 10 ^ 4 /\ 0 <= mo < 10 ^ 2 /\ 0 <= d < 10 ^ 2 /\ 0 <= h < 10 ^ 2 /\ 0 <= mi < 10 ^ 2 /\
   0 <= se < 10 ^ 2 /\ 0 <= ms < 10 ^ 3)%Z ->
  utc_fields (text (pad_digits 4 y ++ iso_tail mo d h mi se ms)) = Some (y, mo, d, h, mi, se, ms).
Proof.
  intros (Hy & Hmo & Hd & Hh & Hmi & Hse & Hms).
  pose proof (read_pad_digits 4 y Hy) as Ry. pose proof (read_pad_digits 2 mo Hmo) as Rmo.
  pose proof (read_pad_digits 2 d Hd) as Rd. pose proof (read_pad_digits 2 h Hh) as Rh.
  pose proof (read_pad_digits 2 mi Hmi) as Rmi. pose proof (read_pad_digits 2 se Hse) as Rse.
  pose proof (read_pad_digits 3 ms Hms) as Rms.
  unfold utc_fields, iso_tail. rewrite chars_text.
  destruct (pad4 y) as (?&?&?&?&E1). rewrite E1 in *. destruct (pad2 mo) as (?&?&E2). rewrite E2 in *.
  destruct (pad2 d) as (?&?&E3). rewrite E3 in *. destruct (pad2 h) as (?&?&E4). rewrite E4 in *.
  destruct (pad2 mi) as (?&?&E5). rewrite E5 in *. destruct (pad2 se) as (?&?&E6). rewrite E6 in *.
  destruct (pad3 ms) as (?&?&?&E7). rewrite E7 in *.
  cbn [app]. rewrite bool_decide_eq_true_2 by done. by rewrite Ry, Rmo, Rd, Rh, Rmi, Rse, Rms.
Qed.

Lemma civil_year_range ms y m d :
  civil_from_days (ms / MS_PER_DAY) = (y, m, d) -> (0 <= y <= 9999)%Z <-> in_utc_range ms.
Proof.
  unfold in_utc_range, MIN_UTC, MAX_UTC, MS_PER_DAY. intros H.
  unfold civil_from_days in H. set (z := (ms / 86400000 + 719468)%Z) in *.
  destruct (year_of_doe (z mod 146097)) as [yoe doy] eqn:E.
  apply year_of_doe_spec in E as (Hyoe & Hdoy & Hdoe); [|apply Z.mod_pos_bound; lia].
  destruct (month_of_doy_spec doy _ Hdoy eq_refl) as [Hmp _].
  set (mp := ((5 * doy + 2) / 153)%Z) in *.
  injection H as H _ _.
  assert (Hz : z = (146097 * (z / 146097) + z mod 146097)%Z) by (apply Z.div_mod; lia).
  set (era := (z / 146097)%Z) in *.
  assert (Hmonth : ((if mp <? 10 then mp + 3 else mp - 9) <=? 2)%Z = (10 <=? mp)%Z).
  { destruct (mp <? 10)%Z eqn:?; boolp; lia. }
  rewrite Hmonth in H.
  assert (Hmp2 : (10 <= mp <-> 306 <= doy)%Z) by (subst mp; dlia).
  destruct (10 <=? mp)%Z eqn:Em; boolp; subst z; dlia.
Qed.

Lemma iso_chars_in_range ms :
  in_utc_range ms ->
  exists y mo d, civil_from_days (ms / MS_PER_DAY) = (y, mo, d) /\ (0 <= y <= 9999)%Z
  /\ let tod := (ms mod MS_PER_DAY)%Z in
     iso_chars ms = pad_digits 4 y ++
       iso_tail mo d (tod / 3600000) (tod / 60000 mod 60) (tod / 1000 mod 60) (tod mod 1000).
Proof.
  intros H. destruct (civil_from_days (ms / MS_PER_DAY)) as [[y mo] d] eqn:E.
  apply (civil_year_range _ _ _ _ E) in H as Hy. exists y, mo, d. split; [done|]. split; [done|].
  unfold iso_chars. rewrite E. unfold year_chars. destruct (_ && _) eqn:?; [done|lia].
Qed.

Lemma Date_parse_toISOString ms : in_utc_range ms -> Date_parse (toISOString ms) = Some ms.
Proof.
  intros H. destruct (iso_chars_in_range ms H) as (y & mo & d & E & Hy & Hc).
  destruct (civil_from_days_ranges _ _ _ _ E) as [Hmo Hd].
  unfold toISOString. rewrite Hc. cbn zeta.
  assert (Ht : (0 <= ms mod MS_PER_DAY < MS_PER_DAY)%Z) by (apply Z.mod_pos_bound; done).
  assert (Hms : ms = (MS_PER_DAY * (ms / MS_PER_DAY) + ms mod MS_PER_DAY)%Z) by (by apply Z.div_mod).
  set (tod := (ms mod MS_PER_DAY)%Z) in *. unfold MS_PER_DAY in Ht.
  unfold Date_parse. rewrite utc_fields_iso by (repeat split; dlia).
  apply days_civil_roundtrip in E.
  destruct (_ && _) eqn:Eb; [|dlia].
  f_equal. rewrite E. rewrite Hms at 2. rewrite (Z.mul_comm MS_PER_DAY). dlia.
Qed.

Lemma utc_fields_length s : is_Some (utc_fields s) -> length (chars s) = 24%nat.
Proof.
  intros [x Hx]. revert Hx. unfold utc_fields. generalize (chars s). intros l.
  do 25 (destruct l as [|? l]; [done|]). done.
Qed.

Lemma iso_chars_out_of_range ms : ~ in_utc_range ms -> length (iso_chars ms) = 27%nat.
Proof.
  intros H. unfold iso_chars, iso_tail. destruct (civil_from_days _) as [[y mo] d] eqn:E.
  pose proof (civil_year_range _ _ _ _ E) as Hy. unfold year_chars.
  destruct (_ && _) eqn:Eb; [boolp; tauto|].
  rewrite !length_app. cbn [length]. by rewrite !length_pad_digits.
Qed.

Lemma isUtcMillis_toISOString ms : isUtcMillis (toISOString ms) = true <-> in_utc_range ms.
Proof.
  split.
  - intros [Hm _]%andb_prop. apply bool_decide_eq_true_1, utc_fields_length in Hm.
    unfold toISOString in Hm. rewrite chars_text in Hm.
    destruct (decide (in_utc_range ms)); [done|].
    by rewrite iso_chars_out_of_range in Hm.
  - intros H. unfold isUtcMillis, matches_UTC_MILLIS_PATTERN.
    pose proof (Date_parse_toISOString ms H) as Hp. rewrite Hp.
    rewrite (bool_decide_eq_true_2 (toISOString ms = _)) by done.
    rewrite andb_true_r. apply bool_decide_eq_true_2.
    unfold Date_parse in Hp. destruct (utc_fields _); [eauto|done].
Qed.

Lemma isUtcMillis_inv s :
  isUtcMillis s = true -> exists ms, in_utc_range ms /\ s = toISOString ms /\ Date_parse s = Some ms.
Proof.
  intros H. unfold isUtcMillis in H. apply andb_prop in H as [Hm H].
  destruct (Date_parse s) as [t|] eqn:Hp; [|done]. boolp. exists t. split; [|done].
  apply bool_decide_eq_true_1, utc_fields_length in Hm. subst s.
  unfold toISOString in Hm. rewrite chars_text in Hm.
  destruct (decide (in_utc_range t)); [done|]. by rewrite iso_chars_out_of_range in Hm.
Qed.

(** The validator accepts exactly the renderings of the instants of years 0000 to
    9999: a string is a [UtcMillis] iff it is [toISOString] of some instant in that
    range, and parsing it back yields that instant, so accepted strings and instants are
    in bijection (impossible dates such as February 30 are refused). *)
Theorem utc_millis_are_instants (s : string) :
  isUtcMillis s = true <->
  exists ms, in_utc_range ms /\ s = toISOString ms /\ Date_parse s = Some ms.
Proof.
  split.
  - apply isUtcMillis_inv.
  - intros (ms & H & -> & _). by apply isUtcMillis_toISOString.
Qed.

Lemma toISOString_inj a b : in_utc_range a -> in_utc_range b -> toISOString a = toISOString b -> a = b.
Proof.
  intros Ha Hb E. apply Date_parse_toISOString in Ha. apply Date_parse_toISOString in Hb. congruence.
Qed.

(** Formatting succeeds exactly on the calendar, and then renders the instant. *)
Lemma format_utc_ok ms :
  match formatUtcMillis (Some ms) with
  | Ok s => s = toISOString ms /\ in_utc_range ms
  | Err e => ~ in_utc_range ms
  end.
Proof.
  unfold formatUtcMillis. destruct (isUtcMillis _) eqn:Hv.
  - split; [done|]. by apply isUtcMillis_toISOString.
  - intros H. apply isUtcMillis_toISOString in H. congruence.
Qed.

Lemma format_utc_none : exists m, formatUtcMillis None = Err (RangeError m).
Proof. eexists. vm_compute. reflexivity. Qed.

(** Formatting is total on the calendar: an instant of years 0000 to 9999 is rendered to
    a string the validator accepts and [Date.parse] reads back, two different instants
    never share a rendering, and any other instant, or the invalid date, throws a
    [RangeError] instead of writing a timestamp the records cannot hold. *)
Theorem format_utc_millis_roundtrip (ms : Z) :
  (in_utc_range ms ->
     formatUtcMillis (Some ms) = Ok (toISOString ms)
     /\ isUtcMillis (toISOString ms) = true
     /\ Date_parse (toISOString ms) = Some ms
     /\ (forall ms', formatUtcMillis (Some ms') = Ok (toISOString ms) -> ms' = ms))
  /\ (~ in_utc_range ms -> exists m, formatUtcMillis (Some ms) = Err (RangeError m))
  /\ (exists m, formatUtcMillis None = Err (RangeError m)).
Proof.
  split; [|split].
  - intros H. pose proof (proj2 (isUtcMillis_toISOString ms) H) as Hv.
    split; [unfold formatUtcMillis; by rewrite Hv|]. split; [done|].
    split; [by apply Date_parse_toISOString|].
    intros ms' E. unfold formatUtcMillis in E.
    destruct (isUtcMillis (toISOString ms')) eqn:Hv'; [|done].
    apply isUtcMillis_toISOString in Hv'. apply toISOString_inj; [done..|congruence].
  - intros H. unfold formatUtcMillis. destruct (isUtcMillis _) eqn:Hv; [|eauto].
    by apply isUtcMillis_toISOString in Hv.
  - apply format_utc_none.
Qed.

Lemma format_utc_millis_roundtrip_witness :
  formatUtcMillis (Some 1791201600000) = Ok "2026-10-05T12:00:00.000Z"%string.
Proof.
  destruct (format_utc_millis_roundtrip 1791201600000) as [H _].
  destruct H as [H _]; [split; vm_compute; discriminate|]. exact H.
Defined.

End Utc.

(** ** Identifiers and digests *)

Module Identifiers.

Definition is_lower_hex (c : Ascii.ascii) : bool :=
  let n := Z.of_nat (Ascii.nat_of_ascii c) in
  ((48 <=? n) && (n <=? 57)) || ((97 <=? n) && (n <=? 102)).

(** [/^[0-9a-f]{64}$/] *)
Definition isSha256Hex (s : string) : bool :=
  Nat.eqb (String.length s) 64 && forallb is_lower_hex (chars s).

(** [/^[0-9a-f]{8}-[0-9a-f]{4}-4[0-9a-f]{3}-[89ab][0-9a-f]{3}-[0-9a-f]{12}$/], position by
    position. *)
Definition uuid4_char_ok (i : nat) (c : Ascii.ascii) : bool :=
  if memb i [8; 13; 18; 23]%nat then bool_decide (c = "-"%char)
  else if Nat.eqb i 14 then bool_decide (c = "4"%char)
  else if Nat.eqb i 19 then memb c ["8"; "9"; "a"; "b"]%char
  else is_lower_hex c.

Definition isUuid4 (s : string) : bool :=
  Nat.eqb (String.length s) 36 && forallb id (imap uuid4_char_ok (chars s)).

Definition UUID4_SOURCE : string :=
  "^[0-9a-f]{8}-[0-9a-f]{4}-4[0-9a-f]{3}-[89ab][0-9a-f]{3}-[0-9a-f]{12}$".

Definition parseUuid4 (value subject : string) : Result string StructuredReason :=
  if isUuid4 value then Ok value
  else Err (reason "INVALID_UUID4" subject
    ("got " +:+ Utc.quoted value +:+ "; expected a lowercase RFC 4122 version-4 UUID matching " +:+ UUID4_SOURCE)).

Example isUuid4_accepts : isUuid4 "3f1c2a9e-8b4d-4c1e-9f00-1a2b3c4d5e6f" = true.
Proof. vm_compute. reflexivity. Qed.
Example isUuid4_refuses_uppercase : isUuid4 "3F1C2A9E-8B4D-4C1E-9F00-1A2B3C4D5E6F" = false.
Proof. vm_compute. reflexivity. Qed.

End Identifiers.
