(* ===== verification/Settlement.v ===== *)
(** * Settlement (src/study-1/src/settlement)

    The BR-RUA-032 settlement evaluator: which conditions one sample violates
    (settlement-activity.ts), the policies (settlement-policy.ts) and the fold
    over the samples (evaluate-settlement.ts). Instants are epoch milliseconds
    (see [Timestamps]); counters are integers. *)

From S2P Require Import Prelude Timestamps.
Open Scope Z_scope.

Module Settlement.

(** ** Data *)

Inductive RestartCause :=
| SOURCE_VISIBLE | SOURCE_IN_FLIGHT | SOURCE_DELAYED | NEW_CORRELATED_DLQ_MESSAGE
| UNCAPTURED_DLQ_MESSAGE | CORRELATED_JOURNAL_ACTIVITY | LEDGER_ACTIVITY | PROVIDER_ACTIVE
| PROCESSING_NOT_TERMINAL | INNER_EXECUTION_ACTIVE | TREATMENT_NOT_TERMINAL | QUEUE_UNAVAILABLE
| PRE_FREEZE_ACTIVITY.

#[export] Instance RestartCause_eq_dec : EqDecision RestartCause.
Proof. solve_decision. Defined.

Definition SETTLEMENT_RESTART_CAUSES : list RestartCause :=
  [SOURCE_VISIBLE; SOURCE_IN_FLIGHT; SOURCE_DELAYED; NEW_CORRELATED_DLQ_MESSAGE;
   UNCAPTURED_DLQ_MESSAGE; CORRELATED_JOURNAL_ACTIVITY; LEDGER_ACTIVITY; PROVIDER_ACTIVE;
   PROCESSING_NOT_TERMINAL; INNER_EXECUTION_ACTIVE; TREATMENT_NOT_TERMINAL; QUEUE_UNAVAILABLE;
   PRE_FREEZE_ACTIVITY].

Definition cause_text (c : RestartCause) : string :=
  match c with
  | SOURCE_VISIBLE => "SOURCE_VISIBLE" | SOURCE_IN_FLIGHT => "SOURCE_IN_FLIGHT"
  | SOURCE_DELAYED => "SOURCE_DELAYED" | NEW_CORRELATED_DLQ_MESSAGE => "NEW_CORRELATED_DLQ_MESSAGE"
  | UNCAPTURED_DLQ_MESSAGE => "UNCAPTURED_DLQ_MESSAGE"
  | CORRELATED_JOURNAL_ACTIVITY => "CORRELATED_JOURNAL_ACTIVITY"
  | LEDGER_ACTIVITY => "LEDGER_ACTIVITY" | PROVIDER_ACTIVE => "PROVIDER_ACTIVE"
  | PROCESSING_NOT_TERMINAL => "PROCESSING_NOT_TERMINAL"
  | INNER_EXECUTION_ACTIVE => "INNER_EXECUTION_ACTIVE"
  | TREATMENT_NOT_TERMINAL => "TREATMENT_NOT_TERMINAL" | QUEUE_UNAVAILABLE => "QUEUE_UNAVAILABLE"
  | PRE_FREEZE_ACTIVITY => "PRE_FREEZE_ACTIVITY"
  end.

Inductive SamplePhase := observation | pre_freeze_recheck.

#[export] Instance SamplePhase_eq_dec : EqDecision SamplePhase.
Proof. solve_decision. Defined.

(** [QueueCounters | 'not_applicable' | 'unavailable'] *)
Inductive Counters :=
| QueueCounters (visible in_flight delayed : Z)
| not_applicable
| unavailable.

#[export] Instance Counters_eq_dec : EqDecision Counters.
Proof. solve_decision. Defined.

(** [boolean | 'not_applicable'] is [option bool]. *)
Record SettlementSample := MkSample {
  observed_at : Z;
  phase : SamplePhase;
  publication_stopped : bool;
  processing_terminal : bool;
  inner_executions_terminal : option bool;
  provider_active_calls : Z;
  provider_held_barriers : Z;
  provider_pending_releases : Z;
  treatment_terminal : option bool;
  ledger_snapshot_possible : bool;
  source_queue : Counters;
  dlq : Counters;
  correlated_dlq_message_ids : list string;
  dlq_captured_message_ids : list string;
  correlated_event_watermark : Z;
  ledger_item_count : Z;
}.

Record SettlementPolicy := MkPolicy {
  stabilization_ms : Z;
  observation_deadline_ms : Z;
  poll_interval_ms : Z;
}.

Definition TRIAL_SETTLEMENT_POLICY : SettlementPolicy := MkPolicy 120000 600000 30000.
Definition PROBE_SETTLEMENT_POLICY : SettlementPolicy := MkPolicy 120000 600000 30000.

Record SettlementRestart := MkRestart { at_ : Z; cause : RestartCause }.

Inductive SettlementAssessment :=
| established (window_start established_at rechecked_at : Z) (restarts : list SettlementRestart)
| not_established (reasons : list StructuredReason) (restarts : list SettlementRestart).

(** ** Activity of one sample *)

(** [cond ? [c] : []], spread into an array literal. *)
Definition when (b : bool) (c : RestartCause) : list RestartCause := if b then [c] else [].

Definition sourceQueueCauses (counters : Counters) : list RestartCause :=
  match counters with
  | QueueCounters visible in_flight delayed =>
      when (visible >? 0) SOURCE_VISIBLE ++ when (in_flight >? 0) SOURCE_IN_FLIGHT
      ++ when (delayed >? 0) SOURCE_DELAYED
  | _ => []
  end.

Definition hasUncapturedDlqMessage (sample : SettlementSample) : bool :=
  let captured : gset string := list_to_set (dlq_captured_message_ids sample) in
  if existsb (fun id => negb (bool_decide (id ∈ captured))) (correlated_dlq_message_ids sample) then true
  else match dlq sample with
       | QueueCounters visible in_flight delayed => visible + in_flight + delayed >? Z.of_nat (size captured)
       | _ => false
       end.

Definition providerIdle (sample : SettlementSample) : bool :=
  (provider_active_calls sample =? 0) && (provider_held_barriers sample =? 0)
  && (provider_pending_releases sample =? 0).

Definition quietViolations (sample : SettlementSample) : list RestartCause :=
  sourceQueueCauses (source_queue sample)
  ++ when (hasUncapturedDlqMessage sample) UNCAPTURED_DLQ_MESSAGE
  ++ when (negb (ledger_snapshot_possible sample)) LEDGER_ACTIVITY
  ++ when (negb (providerIdle sample)) PROVIDER_ACTIVE
  ++ when (negb (processing_terminal sample && publication_stopped sample)) PROCESSING_NOT_TERMINAL
  ++ when (bool_decide (inner_executions_terminal sample = Some false)) INNER_EXECUTION_ACTIVE
  ++ when (bool_decide (treatment_terminal sample = Some false)) TREATMENT_NOT_TERMINAL
  ++ when (bool_decide (source_queue sample = unavailable) || bool_decide (dlq sample = unavailable))
       QUEUE_UNAVAILABLE.

Definition changesSince (sample : SettlementSample) (previous : option SettlementSample) : list RestartCause :=
  match previous with
  | None => []
  | Some previous =>
      let known : gset string := list_to_set (correlated_dlq_message_ids previous) in
      when (existsb (fun id => negb (bool_decide (id ∈ known))) (correlated_dlq_message_ids sample))
        NEW_CORRELATED_DLQ_MESSAGE
      ++ when (correlated_event_watermark sample >? correlated_event_watermark previous)
           CORRELATED_JOURNAL_ACTIVITY
      ++ when (negb (ledger_item_count sample =? ledger_item_count previous)) LEDGER_ACTIVITY
  end.

Definition activityCauses (sample : SettlementSample) (previous : option SettlementSample) : list RestartCause :=
  let active := quietViolations sample ++ changesSince sample previous in
  filter (fun c => c ∈ active) SETTLEMENT_RESTART_CAUSES.

(** ** The evaluator *)

Definition SUBJECT : string := "BR-RUA-032".

Definition inObservationOrder (samples : list SettlementSample) : list SettlementSample :=
  sort_on observed_at samples.

(** The loop's mutable variables. *)
Record LoopState := MkLoop {
  restarts : list SettlementRestart;
  previous : option SettlementSample;
  windowStart : option SettlementSample;
  quietUntil : option SettlementSample;
  last_active : option (list RestartCause * Z);
}.

Definition notEstablishedReasons (policy : SettlementPolicy) (publishedAt : Z)
    (last : option (list RestartCause * Z)) : list StructuredReason :=
  let window := "a quiet window of " +:+ string_of_Z (stabilization_ms policy)
    +:+ " ms and a quiet pre-freeze recheck within " +:+ string_of_Z (observation_deadline_ms policy)
    +:+ " ms of publication at " +:+ Utc.toISOString publishedAt in
  match last with
  | None => [reason "DEADLINE" SUBJECT ("no such window was observed; expected " +:+ window)]
  | Some (causes, at_) =>
      map (fun c => reason (cause_text c) SUBJECT
        ("the sample at " +:+ Utc.toISOString at_ +:+ " was not quiet (" +:+ cause_text c
         +:+ "); expected " +:+ window)) causes
  end.

(** One turn of the loop: the next state, or the assessment it returns. *)
Definition settle_step (policy : SettlementPolicy) (st : LoopState) (sample : SettlementSample)
    : LoopState + SettlementAssessment :=
  match activityCauses sample (previous st) with
  | firstCause :: rest =>
      let cause := if bool_decide (phase sample = pre_freeze_recheck) then PRE_FREEZE_ACTIVITY else firstCause in
      inl (MkLoop (restarts st ++ [MkRestart (observed_at sample) cause]) (Some sample) None None
             (Some (firstCause :: rest, observed_at sample)))
  | [] =>
      match phase sample, windowStart st, quietUntil st with
      | pre_freeze_recheck, Some w, Some q =>
          inr (established (observed_at w) (observed_at q) (observed_at sample) (restarts st))
      | _, _, _ =>
          let w := nullish (windowStart st) sample in
          let q := if bool_decide (phase sample = observation)
                      && (observed_at sample - observed_at w >=? stabilization_ms policy)
                   then Some sample else quietUntil st in
          inl (MkLoop (restarts st) (Some sample) (Some w) q (last_active st))
      end
  end.

Fixpoint settle_loop (policy : SettlementPolicy) (publishedAt : Z) (st : LoopState)
    (samples : list SettlementSample) : SettlementAssessment :=
  match samples with
  | [] => not_established (notEstablishedReasons policy publishedAt (last_active st)) (restarts st)
  | s :: rest =>
      match settle_step policy st s with
      | inl st' => settle_loop policy publishedAt st' rest
      | inr a => a
      end
  end.

Definition initial_loop : LoopState := MkLoop [] None None None None.

Definition considered (samples : list SettlementSample) (policy : SettlementPolicy) (publishedAt : Z)
    : list SettlementSample :=
  filter (fun s => observed_at s <= publishedAt + observation_deadline_ms policy) (inObservationOrder samples).

Definition evaluateSettlement (samples : list SettlementSample) (policy : SettlementPolicy)
    (publishedAt : Z) : SettlementAssessment :=
  settle_loop policy publishedAt initial_loop (considered samples policy publishedAt).

(** ** What a quiet sample is *)

(** The conditions of BR-RUA-032 as a proposition: nothing waits in the source
    queue, both queues were readable, every dead-lettered message is captured,
    the ledger can be snapshotted, the provider is idle and processing, inner
    executions and the treatment are terminal. *)
Definition quiet (s : SettlementSample) : Prop :=
  (match source_queue s with
   | QueueCounters v f d => v <= 0 /\ f <= 0 /\ d <= 0
   | not_applicable => True
   | unavailable => False
   end)
  /\ (forall id, id ∈ correlated_dlq_message_ids s -> id ∈ dlq_captured_message_ids s)
  /\ (match dlq s with
      | QueueCounters v f d =>
          v + f + d <= Z.of_nat (size (list_to_set (dlq_captured_message_ids s) : gset string))
      | not_applicable => True
      | unavailable => False
      end)
  /\ ledger_snapshot_possible s = true
  /\ provider_active_calls s = 0 /\ provider_held_barriers s = 0 /\ provider_pending_releases s = 0
  /\ processing_terminal s = true /\ publication_stopped s = true
  /\ inner_executions_terminal s <> Some false /\ treatment_terminal s <> Some false.

(** Nothing happened since the previous sample: no new correlated dead letter, no journal
    event, no change of the ledger. *)
Definition unchanged_since (s p : SettlementSample) : Prop :=
  (forall id, id ∈ correlated_dlq_message_ids s -> id ∈ correlated_dlq_message_ids p)
  /\ correlated_event_watermark s <= correlated_event_watermark p
  /\ ledger_item_count s = ledger_item_count p.

Lemma when_nil b c : when b c = [] <-> b = false.
Proof. by destruct b. Qed.

Lemma existsb_not_in (l : list string) (k : list string) :
  existsb (fun id => negb (bool_decide (id ∈ (list_to_set k : gset string)))) l = false <->
  forall id, id ∈ l -> id ∈ k.
Proof.
  rewrite existsb_false. split; intros H id Hid; specialize (H id Hid).
  - boolp. set_solver.
  - apply negb_false_iff, bool_decide_eq_true_2. set_solver.
Qed.

Lemma hasUncaptured_false s :
  hasUncapturedDlqMessage s = false <->
  (forall id, id ∈ correlated_dlq_message_ids s -> id ∈ dlq_captured_message_ids s)
  /\ match dlq s with
     | QueueCounters v f d =>
         v + f + d <= Z.of_nat (size (list_to_set (dlq_captured_message_ids s) : gset string))
     | _ => True
     end.
Proof.
  unfold hasUncapturedDlqMessage. rewrite <- existsb_not_in.
  destruct (existsb _ _); [naive_solver|].
  destruct (dlq s); [|naive_solver..].
  rewrite Z.gtb_ltb, Z.ltb_ge. naive_solver.
Qed.

Lemma filter_causes_nil (l : list RestartCause) :
  filter (fun c => c ∈ l) SETTLEMENT_RESTART_CAUSES = [] <-> l = [].
Proof.
  split; [|intros ->; by vm_compute].
  intros H. destruct l as [|c l]; [done|]. exfalso.
  assert (Hc : c ∈ filter (fun x => x ∈ c :: l) SETTLEMENT_RESTART_CAUSES).
  { apply list_elem_of_filter. split; [left|]. unfold SETTLEMENT_RESTART_CAUSES. destruct c; set_solver. }
  rewrite H in Hc. by apply elem_of_nil in Hc.
Qed.

Lemma quietViolations_nil s : quietViolations s = [] <-> quiet s.
Proof.
  unfold quietViolations, quiet, providerIdle.
  rewrite !app_nil, !when_nil, hasUncaptured_false, !negb_false_iff, !andb_true_iff, !Z.eqb_eq,
    orb_false_iff, !bool_decide_eq_false.
  unfold sourceQueueCauses.
  destruct (source_queue s) as [v f d| |]; [|destruct (dlq s); intuition congruence..].
  rewrite !app_nil, !when_nil, !Z.gtb_ltb, !Z.ltb_ge. destruct (dlq s); intuition congruence.
Qed.

Lemma changesSince_nil s p : changesSince s (Some p) = [] <-> unchanged_since s p.
Proof.
  unfold changesSince, unchanged_since.
  rewrite !app_nil, !when_nil, existsb_not_in, Z.gtb_ltb, Z.ltb_ge, negb_false_iff, Z.eqb_eq. tauto.
Qed.

(** A sample restarts the stabilization window exactly when a BR-RUA-032 condition is
    violated: no cause is reported iff the sample is quiet (queues, dead letters, ledger,
    provider, processing, inner executions, treatment) and nothing changed since the
    sample before it. *)
Theorem activity_causes_nil_iff (s : SettlementSample) (p : option SettlementSample) :
  activityCauses s p = [] <-> quiet s /\ (forall q, p = Some q -> unchanged_since s q).
Proof.
  unfold activityCauses. rewrite filter_causes_nil, app_nil, quietViolations_nil.
  destruct p as [p|]; [rewrite changesSince_nil|]; naive_solver.
Qed.

(** ** The stabilization pattern *)

(** Every sample of the list is quiet and unchanged since the one before it. *)
Fixpoint quiet_run (prev : option SettlementSample) (l : list SettlementSample) : Prop :=
  match l with
  | [] => True
  | s :: l' => activityCauses s prev = [] /\ quiet_run (Some s) l'
  end.

(** A contiguous quiet run of [l] from [w] to the recheck [r] in which the observation [q]
    comes at least [stabilization_ms] after [w]. *)
Definition settled_in (policy : SettlementPolicy) (l : list SettlementSample)
    (w q r : SettlementSample) : Prop :=
  exists pre run post,
    l = pre ++ (run ++ [r]) ++ post /\ quiet_run (last pre) (run ++ [r])
    /\ head run = Some w /\ q ∈ run /\ phase q = observation /\ phase r = pre_freeze_recheck
    /\ observed_at q - observed_at w >= stabilization_ms policy.

Lemma quiet_run_snoc prev l s :
  quiet_run prev (l ++ [s]) <->
  quiet_run prev l /\ activityCauses s (match last l with Some x => Some x | None => prev end) = [].
Proof.
  revert prev. induction l as [|a l IH]; intros prev; simpl; [tauto|].
  rewrite IH. destruct l as [|b l]; [simpl; tauto|].
  change (last (a :: b :: l)) with (last (b :: l)).
  destruct (last (b :: l)) eqn:E; [tauto|by apply last_None in E].
Qed.

Lemma last_app_or {A} (l k : list A) :
  last (l ++ k) = match last k with Some x => Some x | None => last l end.
Proof. rewrite last_app. by destruct (last k). Qed.

(** What the loop variables say about the samples [l] read so far. *)
Record sound_state (policy : SettlementPolicy) (l : list SettlementSample) (st : LoopState) : Prop := {
  sound_previous : previous st = last l;
  sound_quiet : forall q, quietUntil st = Some q -> is_Some (windowStart st);
  sound_window : forall w, windowStart st = Some w ->
    exists pre run, l = pre ++ run /\ quiet_run (last pre) run /\ head run = Some w
    /\ (forall q, quietUntil st = Some q ->
          q ∈ run /\ phase q = observation /\ observed_at q - observed_at w >= stabilization_ms policy);
}.

Lemma sound_initial policy : sound_state policy [] initial_loop.
Proof. split; naive_solver. Qed.

Lemma sound_step policy l st s st' :
  sound_state policy l st -> settle_step policy st s = inl st' -> sound_state policy (l ++ [s]) st'.
Proof.
  intros [Hp Hq Hw] H. unfold settle_step in H. rewrite Hp in H.
  destruct (activityCauses s (last l)) as [|c cs] eqn:Ha.
  2:{ simplify_eq. split; simpl; [by rewrite last_snoc|naive_solver..]. }
  assert (st' = MkLoop (restarts st) (Some s) (Some (nullish (windowStart st) s))
            (if bool_decide (phase s = observation)
                && (observed_at s - observed_at (nullish (windowStart st) s) >=? stabilization_ms policy)
             then Some s else quietUntil st) (last_active st)) as ->.
  { destruct (phase s), (windowStart st), (quietUntil st); by simplify_eq. }
  clear H. split; simpl; [by rewrite last_snoc|eauto|].
  intros w [= <-]. destruct (windowStart st) as [w|] eqn:Ew; simpl.
  - destruct (Hw w eq_refl) as (pre & run & -> & Hrun & Hhd & Hqs).
    assert (run <> []) by (by destruct run). rewrite last_app_or in Ha.
    destruct (last run) as [x|] eqn:El; [|by apply last_None in El].
    exists pre, (run ++ [s]). rewrite (assoc_L (++)). split; [done|].
    split; [apply quiet_run_snoc; by rewrite El|]. split; [by rewrite head_app, Hhd|].
    intros q. destruct (_ && _) eqn:Eb.
    + intros [= <-]. boolp. split; [set_solver|]. split; [done|lia].
    + intros (?&?&?)%Hqs. set_solver.
  - exists l, [s]. split; [done|]. split; [done|]. split; [done|].
    intros q. destruct (_ && _) eqn:Eb.
    + intros [= <-]. boolp. split; [set_solver|]. split; [done|lia].
    + intros Hqq. apply Hq in Hqq as [? ?]. done.
Qed.

Lemma settle_step_established policy l st s a :
  sound_state policy l st -> settle_step policy st s = inr a ->
  exists w q run pre, a = established (observed_at w) (observed_at q) (observed_at s) (restarts st)
    /\ l = pre ++ run /\ quiet_run (last pre) (run ++ [s]) /\ head run = Some w /\ q ∈ run
    /\ phase q = observation /\ phase s = pre_freeze_recheck
    /\ observed_at q - observed_at w >= stabilization_ms policy.
Proof.
  intros [Hp Hq Hw] H. unfold settle_step in H. rewrite Hp in H.
  destruct (activityCauses s (last l)) as [|c cs] eqn:Ha; [|done].
  destruct (phase s) eqn:Eph; [done|]. destruct (windowStart st) as [w|] eqn:Ew; [|done].
  destruct (quietUntil st) as [q|] eqn:Eq; [|done]. simplify_eq.
  destruct (Hw w eq_refl) as (pre & run & -> & Hrun & Hhd & Hqs).
  destruct (Hqs q eq_refl) as (Hin & Hob & Hst).
  exists w, q, run, pre. split; [done|]. split; [done|]. split; [|done].
  apply quiet_run_snoc. rewrite last_app_or in Ha. by destruct (last run).
Qed.

Lemma settle_loop_sound policy publishedAt l st rest ws es rs res :
  sound_state policy l st ->
  settle_loop policy publishedAt st rest = established ws es rs res ->
  exists w q r, settled_in policy (l ++ rest) w q r
    /\ ws = observed_at w /\ es = observed_at q /\ rs = observed_at r.
Proof.
  revert l st. induction rest as [|s rest IH]; intros l st Hs; simpl; [done|].
  destruct (settle_step policy st s) as [st'|a] eqn:E; intros H.
  - destruct (IH (l ++ [s]) st' (sound_step _ _ _ _ _ Hs E) H) as (w & q & r & Hset & ?).
    exists w, q, r. by rewrite <- (assoc_L (++)) in Hset.
  - destruct (settle_step_established _ _ _ _ _ Hs E) as (w & q & run & pre & -> & -> & ? & ? & ? & ? & ? & ?).
    simplify_eq. exists w, q, s. split; [|done]. exists pre, run, rest.
    split; [by rewrite <- !(assoc_L (++))|done].
Qed.

(** What a run of quiet samples at the end of [l] forces on the loop variables. *)
Record complete_state (policy : SettlementPolicy) (l : list SettlementSample) (st : LoopState) : Prop := {
  complete_previous : previous st = last l;
  complete_member : forall w, windowStart st = Some w -> w ∈ l;
  complete_run : forall pre run w', l = pre ++ run -> quiet_run (last pre) run -> head run = Some w' ->
    (exists w, windowStart st = Some w /\ observed_at w <= observed_at w')
    /\ (forall q, q ∈ run -> phase q = observation ->
          observed_at q - observed_at w' >= stabilization_ms policy -> is_Some (quietUntil st));
}.

Lemma complete_initial policy : complete_state policy [] initial_loop.
Proof.
  split; [done|done|]. intros pre run w' H _ Hh.
  symmetry in H. apply app_nil in H as [-> ->]. done.
Qed.

Lemma complete_step policy l st s st' :
  (forall x, x ∈ l -> observed_at x <= observed_at s) ->
  complete_state policy l st -> settle_step policy st s = inl st' -> complete_state policy (l ++ [s]) st'.
Proof.
  intros Hord [Hp Hm Hr] H. unfold settle_step in H. rewrite Hp in H.
  destruct (activityCauses s (last l)) as [|c cs] eqn:Ha.
  - assert (st' = MkLoop (restarts st) (Some s) (Some (nullish (windowStart st) s))
              (if bool_decide (phase s = observation)
                  && (observed_at s - observed_at (nullish (windowStart st) s) >=? stabilization_ms policy)
               then Some s else quietUntil st) (last_active st)) as ->.
    { destruct (phase s), (windowStart st), (quietUntil st); by simplify_eq. }
    clear H. split; simpl; [by rewrite last_snoc| |].
    { intros w [= <-]. destruct (windowStart st) as [w|] eqn:E; simpl; [specialize (Hm w eq_refl)|]; set_solver. }
    intros pre run w' Heq Hq Hh.
    destruct (exists_last (l := run)) as (run0 & s0 & Erun); [by destruct run|]. subst run.
    rewrite (assoc_L (++)) in Heq. apply app_inj_tail in Heq as [-> <-].
    apply quiet_run_snoc in Hq as [Hq _].
    destruct run0 as [|x run0].
    + simpl in Hh. simplify_eq. split.
      * eexists. split; [done|]. destruct (windowStart st) as [w|] eqn:E; simpl; [|lia].
        apply Hord. by apply Hm.
      * intros q ->%list_elem_of_singleton Hob Hge.
        rewrite bool_decide_eq_true_2 by done. simpl.
        destruct (_ >=? _) eqn:Eb; [eauto|]. boolp. exfalso.
        destruct (windowStart st) as [w|] eqn:E; simpl in *; [|lia].
        specialize (Hord w (Hm w eq_refl)). lia.
    + simpl in Hh. simplify_eq.
      destruct (Hr pre (w' :: run0) w' eq_refl Hq eq_refl) as [(w & Ew & Hw) Hqq]. rewrite Ew. simpl.
      split; [eauto|]. change (w' :: run0 ++ [s]) with ((w' :: run0) ++ [s]).
      intros q [Hin| ->%list_elem_of_singleton]%elem_of_app Hob Hge.
      * destruct (_ && _); eauto.
      * rewrite bool_decide_eq_true_2 by done. simpl.
        destruct (_ >=? _) eqn:Eb; [eauto|]. boolp. lia.
  - simplify_eq. split; simpl; [by rewrite last_snoc|done|].
    intros pre run w' Heq Hq Hh. exfalso.
    destruct (exists_last (l := run)) as (run0 & s0 & ->); [by destruct run|].
    rewrite (assoc_L (++)) in Heq. apply app_inj_tail in Heq as [-> <-].
    apply quiet_run_snoc in Hq as [_ Hq]. rewrite last_app_or in Ha. destruct (last run0); congruence.
Qed.

Definition is_established (a : SettlementAssessment) : Prop :=
  match a with established _ _ _ _ => True | not_established _ _ => False end.

Lemma settle_step_returns_established policy st s a : settle_step policy st s = inr a -> is_established a.
Proof. unfold settle_step. intros H. cases; done. Qed.

(** Reading on from a state that satisfies the completeness invariant, the loop either
    returns an establishment early or arrives at the recheck with a full window. *)
Lemma settle_loop_complete policy publishedAt rest : forall l st,
  StronglySorted (fun a b => observed_at a <= observed_at b) (l ++ rest) ->
  complete_state policy l st ->
  (exists w q r pre run post, rest <> [] /\ l ++ rest = pre ++ (run ++ [r]) ++ post
     /\ (length l <= length (pre ++ run))%nat
     /\ quiet_run (last pre) (run ++ [r]) /\ head run = Some w /\ q ∈ run /\ phase q = observation
     /\ phase r = pre_freeze_recheck /\ observed_at q - observed_at w >= stabilization_ms policy) ->
  is_established (settle_loop policy publishedAt st rest).
Proof.
  induction rest as [|s rest IH]; intros l st Hsort Hc (w & q & r & pre & run & post & Hne & Heq & Hlen & Hset).
  { done. }
  simpl. destruct (settle_step policy st s) as [st'|a] eqn:E;
    [|by eapply settle_step_returns_established].
  destruct (decide (length l = length (pre ++ run))) as [Hl|Hl].
  - exfalso. destruct Hset as (Hq & Hh & Hin & Hob & Hre & Hge).
    rewrite (assoc_L (++)), (assoc_L (++)), <- (assoc_L (++) (pre ++ run)) in Heq. simpl in Heq.
    apply app_inj_1 in Heq as [-> Heq]; [|done]. simplify_eq.
    apply quiet_run_snoc in Hq as [Hq Ha].
    destruct Hc as [Hp Hm Hr]. destruct (Hr pre run w eq_refl Hq Hh) as [(w0 & Ew & _) Hqq].
    destruct (Hqq q Hin Hob Hge) as [q0 Eq].
    unfold settle_step in E. rewrite Hp, last_app_or, Ew, Eq in E.
    destruct (last run) as [x|] eqn:El; [|apply last_None in El; by subst].
    by rewrite Ha, Hre in E.
  - apply (IH (l ++ [s]) st').
    + by rewrite <- (assoc_L (++)).
    + eapply complete_step; [|done..].
      intros x Hx. apply StronglySorted_app in Hsort as (Hall & _ & _). apply (Hall x s); [done|left].
    + exists w, q, r, pre, run, post. split.
      { intros ->. apply (f_equal length) in Heq. rewrite !length_app in *. simpl in *. lia. }
      split; [by rewrite <- (assoc_L (++))|]. split; [|done].
      rewrite !length_app in *. simpl. lia.
Qed.

Lemma considered_sorted samples policy publishedAt :
  StronglySorted (fun a b => observed_at a <= observed_at b) (considered samples policy publishedAt).
Proof. apply StronglySorted_filter, sort_on_sorted. Qed.

Lemma considered_elem samples policy publishedAt s :
  s ∈ considered samples policy publishedAt <->
  s ∈ samples /\ observed_at s <= publishedAt + observation_deadline_ms policy.
Proof.
  unfold considered, inObservationOrder. rewrite list_elem_of_filter, sort_on_elem. tauto.
Qed.

(** C27: The settlement evaluator is sound and complete for BR-RUA-032: over the samples
    before the deadline in observation order, it reports [established] exactly when they
    contain a contiguous run of quiet, unchanged samples from a window start [w] over an
    observation [q] at least [stabilization_ms] later to a pre-freeze recheck [r]; the
    instants it reports are those of such a window. *)
Theorem settlement_established_iff (samples : list SettlementSample) (policy : SettlementPolicy)
    (publishedAt : Z) :
  (is_established (evaluateSettlement samples policy publishedAt) <->
     exists w q r, settled_in policy (considered samples policy publishedAt) w q r)
  /\ (forall ws es rs res, evaluateSettlement samples policy publishedAt = established ws es rs res ->
        exists w q r, settled_in policy (considered samples policy publishedAt) w q r
          /\ ws = observed_at w /\ es = observed_at q /\ rs = observed_at r).
Proof.
  assert (Hsound : forall ws es rs res,
    evaluateSettlement samples policy publishedAt = established ws es rs res ->
    exists w q r, settled_in policy (considered samples policy publishedAt) w q r
      /\ ws = observed_at w /\ es = observed_at q /\ rs = observed_at r).
  { intros ws es rs res H. apply (settle_loop_sound _ _ [] _ _ _ _ _ _ (sound_initial policy) H). }
  split; [split|done].
  - destruct (evaluateSettlement _ _ _) eqn:E; [|done]. intros _.
    destruct (Hsound _ _ _ _ eq_refl) as (w & q & r & ? & _). eauto.
  - intros (w & q & r & pre & run & post & Heq & Hset).
    apply (settle_loop_complete _ _ _ [] _ (considered_sorted _ _ _) (complete_initial policy)).
    exists w, q, r, pre, run, post. split; [|split; [done|split; [simpl; lia|done]]].
    intros Hnil. rewrite Hnil in Heq. apply (f_equal length) in Heq.
    rewrite !length_app in Heq. simpl in Heq. lia.
Qed.

(** A trial that settles: quiet at 0 s and at 120 s, and still quiet at the recheck. *)
Definition quiet_sample (at_ms : Z) (ph : SamplePhase) : SettlementSample :=
  MkSample at_ms ph true true (Some true) 0 0 0 (Some true) true (QueueCounters 0 0 0) (QueueCounters 0 0 0)
    [] [] 7 1.

Example quiet_trial_settles :
  evaluateSettlement
    [quiet_sample 120000 observation; quiet_sample 125000 pre_freeze_recheck; quiet_sample 0 observation]
    TRIAL_SETTLEMENT_POLICY 0 = established 0 120000 125000 [].
Proof. vm_compute. reflexivity. Qed.

End Settlement.
