(* ===== verification/Decimals.v ===== *)
(** * Decimal spellings

    Facts on [String(n)] and [String.prototype.padStart] shared by the components
    that put integers into keys and amounts: a padded spelling is the fixed-width
    digit string, and fixed-width digit strings compare byte by byte as their
    integers do. *)

From Stdlib Require Strings.Ascii.
From S2P Require Import Prelude Timestamps.
Import (notations) Stdlib.Strings.Ascii.
Import Digits.
Open Scope Z_scope.

(** [String.prototype.padStart] with a one-character filler. *)
Definition padStart (s : string) (width : nat) (filler : Ascii.ascii) : string :=
  text (repeat filler (width - String.length s)) +:+ s.

(** ** Spelling *)

Lemma pretty_char_digit x : (x < 10)%N -> pretty_N_char x = digit_char (Z.of_N x).
Proof.
  intros H. assert (Hx : In x (map N.of_nat (seq 0 10))).
  { apply in_map_iff. exists (N.to_nat x). split; [lia|]. apply in_seq. lia. }
  simpl in Hx. destruct Hx as [<-|[<-|[<-|[<-|[<-|[<-|[<-|[<-|[<-|[<-|[]]]]]]]]]]]; reflexivity.
Qed.

Lemma pretty_go_app x s : pretty_N_go x s = pretty_N_go x "" +:+ s.
Proof.
  revert s. induction (N.lt_wf_0 x) as [x _ IH]. intros s.
  destruct (decide (x = 0%N)) as [->|Hx]; [by rewrite !pretty_N_go_0|].
  rewrite (pretty_N_go_step x s), (pretty_N_go_step x "") by lia.
  assert (Hlt : (x / 10 < x)%N) by (apply N.div_lt; lia).
  rewrite (IH _ Hlt (String _ s)), (IH _ Hlt (String _ "")). by rewrite string_app_assoc.
Qed.

Lemma pretty_go_step x : (0 < x)%N ->
  chars (pretty_N_go x "") = chars (pretty_N_go (x / 10) "") ++ [digit_char (Z.of_N x mod 10)].
Proof.
  intros Hx. rewrite pretty_N_go_step, pretty_go_app, chars_app by done. f_equal. cbn. f_equal.
  rewrite pretty_char_digit by (apply N.mod_lt; lia). by rewrite N2Z.inj_mod.
Qed.

(** Padding the spelling on the left with zeros gives the fixed-width digits. *)
Lemma pad_go w x : Z.of_N x < 10 ^ Z.of_nat w ->
  (length (chars (pretty_N_go x "")) <= w)%nat
  /\ repeat "0"%char (w - length (chars (pretty_N_go x ""))) ++ chars (pretty_N_go x "") = pad_digits w (Z.of_N x).
Proof.
  revert x. induction w as [|w IH]; intros x Hx.
  - simpl in Hx. assert (x = 0%N) as -> by lia. by rewrite pretty_N_go_0.
  - rewrite Nat2Z.inj_succ, Z.pow_succ_r in Hx by lia. cbn [pad_digits].
    destruct (decide (x = 0%N)) as [->|Hnz].
    + rewrite pretty_N_go_0. split; [simpl; lia|]. specialize (IH 0%N). rewrite pretty_N_go_0 in IH.
      destruct IH as [_ IH]; [simpl; lia|]. simpl in IH. rewrite Nat.sub_0_r, app_nil_r in IH.
      change (Z.of_N 0) with 0 in *. cbn [chars String.list_ascii_of_string length]. rewrite Nat.sub_0_r, app_nil_r.
      change (0 / 10) with 0. change (digit_char (0 mod 10)) with "0"%char.
      rewrite <-IH. change (repeat "0"%char (S w)) with ("0"%char :: repeat "0"%char w). apply repeat_cons.
    + rewrite pretty_go_step by lia.
      replace (Z.of_N x / 10) with (Z.of_N (x / 10)) by (by rewrite N2Z.inj_div).
      destruct (IH (x / 10)%N) as [Hl He]; [rewrite N2Z.inj_div; apply Z.div_lt_upper_bound; lia|].
      rewrite length_app. cbn [length]. split; [lia|]. rewrite app_assoc, <-He. f_equal. f_equal. f_equal. lia.
Qed.

Lemma padStart_digits w n : 1 <= n < 10 ^ Z.of_nat w ->
  padStart (string_of_Z n) w "0"%char = text (pad_digits w n).
Proof.
  intros Hn. assert (Hp : string_of_Z n = pretty_N_go (Z.to_N n) "").
  { unfold string_of_Z, pretty, pretty_Z. destruct n as [|p|p]; [lia| |lia]. reflexivity. }
  unfold padStart. rewrite Hp, <-length_chars. apply chars_inj. rewrite chars_app, !chars_text.
  destruct (pad_go w (Z.to_N n)) as [_ He]; [lia|]. rewrite He. f_equal. lia.
Qed.

(** ** Order *)

Lemma compare_prefix p a b : String.compare (p +:+ a) (p +:+ b) = String.compare a b.
Proof.
  induction p as [|c p IH]; [done|].
  change (match Ascii.compare c c with Eq => String.compare (p +:+ a) (p +:+ b) | x => x end = String.compare a b).
  assert (Ascii.compare c c = Eq) as -> by apply N.compare_refl. exact IH.
Qed.

Lemma compare_snoc x y a b : length x = length y ->
  String.compare (text (x ++ [a])) (text (y ++ [b]))
  = match String.compare (text x) (text y) with Eq => Ascii.compare a b | c => c end.
Proof.
  revert y. induction x as [|c x IH]; intros [|d y] H; try done.
  - change (match Ascii.compare a b with Eq => Eq | x => x end = Ascii.compare a b). by destruct (Ascii.compare a b).
  - change (match Ascii.compare c d with Eq => String.compare (text (x ++ [a])) (text (y ++ [b])) | r => r end
      = match match Ascii.compare c d with Eq => String.compare (text x) (text y) | r => r end with
        Eq => Ascii.compare a b | r => r end).
    destruct (Ascii.compare c d); [|done..]. apply IH. simpl in H. lia.
Qed.

Lemma digit_char_compare a b : 0 <= a < 10 -> 0 <= b < 10 ->
  Ascii.compare (digit_char a) (digit_char b) = Z.compare a b.
Proof.
  intros Ha Hb. unfold Ascii.compare, digit_char, Ascii.ascii_of_nat.
  rewrite !Ascii.N_ascii_embedding by lia.
  destruct (Z.compare_spec a b); [subst; apply N.compare_refl|apply N.compare_lt_iff|apply N.compare_gt_iff]; lia.
Qed.

(** Fixed-width digit strings compare as their integers. *)
Lemma pad_digits_compare w a b : 0 <= a < 10 ^ Z.of_nat w -> 0 <= b < 10 ^ Z.of_nat w ->
  String.compare (text (pad_digits w a)) (text (pad_digits w b)) = Z.compare a b.
Proof.
  revert a b. induction w as [|w IH]; intros a b Ha Hb.
  - simpl in *. assert (a = 0) as -> by lia. by assert (b = 0) as -> by lia.
  - rewrite Nat2Z.inj_succ, Z.pow_succ_r in Ha, Hb by lia. cbn [pad_digits].
    rewrite compare_snoc by (by rewrite !length_pad_digits).
    assert (Hd : forall n, 0 <= n < 10 * 10 ^ Z.of_nat w -> 0 <= n / 10 < 10 ^ Z.of_nat w).
    { intros n Hn. split; [apply Z.div_pos; lia|apply Z.div_lt_upper_bound; lia]. }
    rewrite IH by auto.
    pose proof (Z.mod_pos_bound a 10 ltac:(lia)). pose proof (Z.mod_pos_bound b 10 ltac:(lia)).
    rewrite digit_char_compare by lia.
    pose proof (Z.div_mod a 10 ltac:(lia)). pose proof (Z.div_mod b 10 ltac:(lia)).
    destruct (Z.compare_spec (a / 10) (b / 10)) as [E|E|E].
    + destruct (Z.compare_spec (a mod 10) (b mod 10)); symmetry;
        [apply Z.compare_eq_iff|apply Z.compare_lt_iff|apply Z.compare_gt_iff]; lia.
    + symmetry. apply Z.compare_lt_iff. lia.
    + symmetry. apply Z.compare_gt_iff. lia.
Qed.

(** ** Byte order of strings *)

Lemma compare_cons c s d t :
  String.compare (String c s) (String d t) = match Ascii.compare c d with Eq => String.compare s t | r => r end.
Proof. reflexivity. Qed.

Lemma leb_trans a b c : String.leb a b = true -> String.leb b c = true -> String.leb a c = true.
Proof.
  unfold String.leb. revert b c. induction a as [|x a IH]; intros [|y b] [|z c]; try done.
  rewrite !compare_cons. unfold Ascii.compare.
  destruct (N.compare_spec (Ascii.N_of_ascii x) (Ascii.N_of_ascii y)),
    (N.compare_spec (Ascii.N_of_ascii y) (Ascii.N_of_ascii z)),
    (N.compare_spec (Ascii.N_of_ascii x) (Ascii.N_of_ascii z)); try done; try lia. apply IH.
Qed.

Lemma leb_total a b : String.leb a b = true \/ String.leb b a = true.
Proof. unfold String.leb. rewrite (String.compare_antisym a b). destruct (String.compare b a); auto. Qed.

(** ** Values of digit strings *)

Definition is_digit (c : Ascii.ascii) : bool := bool_decide (is_Some (digit_val c)).

(** [BigInt(digits)]; the empty string is 0. *)
Definition digits_value (l : list Ascii.ascii) : Z :=
  fold_left (fun acc c => acc * 10 + default 0 (digit_val c)) l 0.

Lemma digit_val_range c d : digit_val c = Some d -> 0 <= d <= 9.
Proof. unfold digit_val. destruct (_ && _) eqn:E; [|done]. intros [= <-]. lia. Qed.

Lemma digits_value_acc acc l :
  fold_left (fun acc c => acc * 10 + default 0 (digit_val c)) l acc = acc * 10 ^ Z.of_nat (length l) + digits_value l.
Proof.
  unfold digits_value. revert acc. induction l as [|c l IH]; intros acc; [simpl; lia|].
  cbn [fold_left length]. rewrite IH, (IH (0 * 10 + _)), Nat2Z.inj_succ, Z.pow_succ_r by lia. lia.
Qed.

Lemma digits_value_app a b : digits_value (a ++ b) = digits_value a * 10 ^ Z.of_nat (length b) + digits_value b.
Proof. unfold digits_value at 1. rewrite fold_left_app. apply digits_value_acc. Qed.

Lemma digits_value_cons c l :
  digits_value (c :: l) = default 0 (digit_val c) * 10 ^ Z.of_nat (length l) + digits_value l.
Proof. unfold digits_value at 1. cbn [fold_left]. rewrite digits_value_acc. lia. Qed.

Lemma digits_value_range l : 0 <= digits_value l < 10 ^ Z.of_nat (length l).
Proof.
  induction l as [|c l IH]; [done|]. rewrite digits_value_cons. cbn [length].
  rewrite Nat2Z.inj_succ, Z.pow_succ_r by lia.
  assert (0 <= default 0 (digit_val c) <= 9).
  { destruct (digit_val c) eqn:E; simpl; [by eapply digit_val_range|lia]. }
  nia.
Qed.

Lemma digits_value_zeros n : digits_value (repeat "0"%char n) = 0.
Proof. induction n as [|n IH]; [done|]. cbn [repeat]. rewrite digits_value_cons, IH. reflexivity. Qed.

Lemma is_digit_char d : 0 <= d <= 9 -> is_digit (digit_char d) = true.
Proof. intros H. unfold is_digit. rewrite digit_val_char by done. by apply bool_decide_eq_true_2. Qed.

(** A canonical integer: a single zero, or no leading zero. *)
Definition canonical_integer (l : list Ascii.ascii) : bool :=
  match l with
  | [] => false
  | c :: r => if bool_decide (c = "0"%char) then bool_decide (r = []) else is_digit c && forallb is_digit r
  end.

Lemma canonical_digits l : canonical_integer l = true -> forallb is_digit l = true.
Proof.
  destruct l as [|c r]; [done|]. simpl. case_bool_decide; [|done]. subst. case_bool_decide; [subst|]; done.
Qed.

Lemma canonical_snoc l c :
  canonical_integer l = true -> l <> ["0"%char] -> is_digit c = true -> canonical_integer (l ++ [c]) = true.
Proof.
  destruct l as [|d r]; [done|]. simpl. case_bool_decide; [case_bool_decide; [by subst|done]|].
  intros [? ?]%andb_prop _ Hc. rewrite forallb_app. simpl. by rewrite H0, H1, Hc.
Qed.

Lemma go_spelling x : (0 < x)%N ->
  let l := chars (pretty_N_go x "") in
  canonical_integer l = true /\ l <> ["0"%char] /\ digits_value l = Z.of_N x.
Proof.
  induction (N.lt_wf_0 x) as [x _ IH]. intros Hx. cbn zeta.
  rewrite pretty_go_step by done. pose proof (Z.mod_pos_bound (Z.of_N x) 10 ltac:(lia)) as Hm.
  assert (Hdiv : Z.of_N x = 10 * Z.of_N (x / 10) + Z.of_N x mod 10).
  { rewrite N2Z.inj_div. apply Z.div_mod. lia. }
  assert (Hv : digits_value [digit_char (Z.of_N x mod 10)] = Z.of_N x mod 10).
  { unfold digits_value. cbn [fold_left]. rewrite digit_val_char by lia. done. }
  assert (Hd : is_digit (digit_char (Z.of_N x mod 10)) = true) by (apply is_digit_char; lia).
  destruct (decide (x / 10 = 0)%N) as [E|E].
  - rewrite E, pretty_N_go_0. change (chars "" ++ [digit_char (Z.of_N x mod 10)]) with [digit_char (Z.of_N x mod 10)].
    assert (digit_char (Z.of_N x mod 10) <> "0"%char) as Hne.
    { intros E'. rewrite E' in Hv. change (digits_value ["0"%char]) with 0 in Hv. rewrite E in Hdiv. lia. }
    split; [|split; [congruence|]; rewrite Hv; rewrite E in Hdiv; lia].
    unfold canonical_integer. rewrite bool_decide_eq_false_2 by exact Hne. rewrite Hd. reflexivity.
  - destruct (IH (x / 10)%N) as (Hc & Hn & Hval); [apply N.div_lt; lia|lia|]. split; [by apply canonical_snoc|].
    split.
    + intros E'. apply (f_equal length) in E'. rewrite length_app in E'. cbn [length] in E'.
      assert (Hl : length (chars (pretty_N_go (x / 10) "")) = 0%nat) by lia.
      apply length_zero_iff_nil in Hl. by rewrite Hl in Hc.
    + rewrite digits_value_app, Hval, Hv. cbn [length]. lia.
Qed.

(** [String(n)] spells a nonnegative integer canonically, and [BigInt] reads it back. *)
Lemma spelling n : 0 <= n ->
  canonical_integer (chars (string_of_Z n)) = true /\ digits_value (chars (string_of_Z n)) = n.
Proof.
  intros Hn. destruct n as [|p|p]; [done| |lia].
  destruct (go_spelling (N.pos p)) as (H1 & _ & H2); [lia|]. split; [exact H1|exact H2].
Qed.

(** [s.replace(/0+$/, '')] *)
Fixpoint strip_zeros (l : list Ascii.ascii) : list Ascii.ascii :=
  match l with
  | [] => []
  | c :: r =>
      match strip_zeros r with
      | [] => if bool_decide (c = "0"%char) then [] else [c]
      | r' => c :: r'
      end
  end.

Lemma strip_zeros_split l : exists n, l = strip_zeros l ++ repeat "0"%char n.
Proof.
  induction l as [|c l [n IH]]; [by exists 0%nat|]. simpl. destruct (strip_zeros l) as [|d r].
  - simpl in IH. case_bool_decide; [exists (S n)|exists n]; simpl; by subst.
  - exists n. simpl in *. by rewrite <-IH.
Qed.

Lemma strip_zeros_last l c : last (strip_zeros l) = Some c -> c <> "0"%char.
Proof.
  induction l as [|d l IH]; [done|]. simpl. destruct (strip_zeros l) as [|e r] eqn:E; [|done].
  case_bool_decide; [done|]. simpl. by intros [= <-].
Qed.
