(* ===== verification/Effects.v ===== *)
(** * Effectful code

    Asynchronous methods are trees of effects: [proc E A] performs effects of
    the signature [E] (store calls, clock readings, journal appends) and ends
    with an [A]. On top of it, [SE] threads an object's private fields and
    JavaScript exceptions: a throw keeps the fields as they were mutated so far.

    A tree is executed by a handler ([run]) or, against an environment whose
    answers are only constrained, by [exec]. For several objects that share a
    world, [rg] is a rely-guarantee condition on one tree and [system_invariant]
    the rule that composes them over every interleaving of their effects. *)

From S2P Require Import Prelude.
From stdpp Require Import functions.

Inductive proc (E : Type -> Type) (A : Type) : Type :=
| Ret (a : A)
| Vis {R : Type} (e : E R) (k : R -> proc E A).
Arguments Ret {E A} a.
Arguments Vis {E A R} e k.

Section proc_ops.
Context {E : Type -> Type}.

Fixpoint pbind {A B} (p : proc E A) (f : A -> proc E B) : proc E B :=
  match p with
  | Ret a => f a
  | Vis e k => Vis e (fun r => pbind (k r) f)
  end.

Definition perform {R} (e : E R) : proc E R := Vis e Ret.
End proc_ops.

(** ** State and exceptions *)

Section se.
Context {E : Type -> Type} {St X : Type}.

Definition SE (A : Type) : Type := St -> proc E (St * Result A X).

Definition se_ret {A} (a : A) : SE A := fun st => Ret (st, Ok a).
Definition se_throw {A} (x : X) : SE A := fun st => Ret (st, Err x).
Definition se_bind {A B} (m : SE A) (f : A -> SE B) : SE B :=
  fun st => pbind (m st) (fun '(st', r) =>
    match r with Ok a => f a st' | Err x => Ret (st', Err x) end).
Definition se_get : SE St := fun st => Ret (st, Ok st).
Definition se_modify (f : St -> St) : SE unit := fun st => Ret (f st, Ok tt).
Definition se_lift {A} (p : proc E A) : SE A := fun st => pbind p (fun a => Ret (st, Ok a)).
Definition se_perform {R} (e : E R) : SE R := se_lift (perform e).
(** [try { m } catch (x) { f(x) }] *)
Definition se_catch {A} (m : SE A) (f : X -> A) : SE A :=
  fun st => pbind (m st) (fun '(st', r) => Ret (st', Ok (match r with Ok a => a | Err x => f x end))).
(** A pure computation that may throw. *)
Definition se_of {A} (r : Result A X) : SE A := fun st => Ret (st, r).
End se.
Arguments SE : clear implicits.

Declare Scope se_scope.
Delimit Scope se_scope with se.
Notation "x <- m ;; k" := (se_bind m (fun x => k))
  (at level 100, m at next level, right associativity) : se_scope.
Notation "m ;;; k" := (se_bind m (fun _ => k))
  (at level 100, right associativity) : se_scope.

(** ** Execution *)

Section execution.
Context {E : Type -> Type} {W : Type}.

(** A handler answers every effect. *)
Fixpoint run {A} (h : forall R, E R -> W -> R * W) (p : proc E A) (w : W) : A * W :=
  match p with
  | Ret a => (a, w)
  | Vis e k => let '(r, w') := h _ e w in run h (k r) w'
  end.

Context (estep : forall R, E R -> W -> R -> W -> Prop).

(** [p] can run from [w] to the result [a] in [w'']. *)
Fixpoint exec {A} (p : proc E A) (w : W) (a : A) (w'' : W) : Prop :=
  match p with
  | Ret a' => a = a' /\ w = w''
  | Vis e k => exists r w', estep _ e w r w' /\ exec (k r) w' a w''
  end.

(** Every execution of [p] from [w] ends in [Q]. *)
Fixpoint wp {A} (p : proc E A) (Q : A -> W -> Prop) (w : W) : Prop :=
  match p with
  | Ret a => Q a w
  | Vis e k => forall r w', estep _ e w r w' -> wp (k r) Q w'
  end.

Lemma wp_sound {A} (p : proc E A) Q w : wp p Q w <-> forall a w', exec p w a w' -> Q a w'.
Proof.
  revert w. induction p as [a|R e k IH]; intros w; simpl; [naive_solver|].
  setoid_rewrite IH. naive_solver.
Qed.
End execution.

(** ** Rely-guarantee *)

Section rely_guarantee.
Context {E : Type -> Type} {W : Type} (estep : forall R, E R -> W -> R -> W -> Prop).
Context (rely guar : W -> W -> Prop) (keep : W -> Prop).

(** Started in [w], with others changing the world by [rely] before every effect,
    [p] changes it only by [guar], keeps [keep] after every effect and ends in [Q]. *)
Fixpoint rg {A} (p : proc E A) (Q : A -> W -> Prop) (w : W) : Prop :=
  match p with
  | Ret a => Q a w
  | Vis e k => forall w1, rely w w1 -> forall r w2, estep _ e w1 r w2 ->
      guar w1 w2 /\ keep w2 /\ rg (k r) Q w2
  end.

(** The condition without guarantees: every execution ends in [Q]. *)
Fixpoint wpr {A} (p : proc E A) (Q : A -> W -> Prop) (w : W) : Prop :=
  match p with
  | Ret a => Q a w
  | Vis e k => forall w1, rely w w1 -> forall r w2, estep _ e w1 r w2 -> wpr (k r) Q w2
  end.

Context `{!PreOrder rely}.

(** Two conditions on the same tree hold together. *)
Lemma rg_conj {A} (p : proc E A) (Q Q' : A -> W -> Prop) w :
  rg p Q w -> wpr p Q' w -> rg p (fun a w => Q a w /\ Q' a w) w.
Proof.
  revert w. induction p as [a|R e k IH]; intros w; simpl; [done|].
  intros H H' w1 Hr r w2 Hs. destruct (H w1 Hr r w2 Hs) as (?&?&?). eauto 10.
Qed.

Lemma rg_stable {A} (p : proc E A) (Q : A -> W -> Prop) w w' :
  (forall a w w', Q a w -> rely w w' -> Q a w') -> rg p Q w -> rely w w' -> rg p Q w'.
Proof.
  intros HQ. destruct p as [a|R e k]; simpl; intros H Hr; [by eapply HQ|].
  intros w1 Hr1. apply H. by etrans.
Qed.

Lemma rg_mono {A} (p : proc E A) (Q Q' : A -> W -> Prop) w :
  (forall a w, Q a w -> Q' a w) -> rg p Q w -> rg p Q' w.
Proof.
  intros HQ. revert w. induction p as [a|R e k IH]; intros w; simpl; [by eauto|].
  intros H w1 Hr r w2 Hs. destruct (H w1 Hr r w2 Hs) as (?&?&?). eauto.
Qed.

Lemma rg_bind {A B} (p : proc E A) (f : A -> proc E B) Q w :
  rg p (fun a w => rg (f a) Q w) w -> rg (pbind p f) Q w.
Proof.
  revert w. induction p as [a|R e k IH]; intros w; simpl; [done|].
  intros H w1 Hr r w2 Hs. destruct (H w1 Hr r w2 Hs) as (?&?&?). eauto.
Qed.

(** An execution in which others change the world by [rely] before every effect, with the
    world before and after each effect of [p]. *)
Fixpoint iexec {A} (p : proc E A) (w : W) (steps : list (W * W)) (a : A) (w'' : W) : Prop :=
  match p with
  | Ret a' => a = a' /\ w = w'' /\ steps = []
  | Vis e k => exists w1 r w2 rest, rely w w1 /\ estep _ e w1 r w2 /\ steps = (w1, w2) :: rest /\ iexec (k r) w2 rest a w''
  end.

Lemma rg_iexec {A} (p : proc E A) Q w steps a w' :
  rg p Q w -> iexec p w steps a w' -> Q a w' /\ Forall (fun s => guar s.1 s.2) steps.
Proof.
  revert w steps. induction p as [b|R e k IH]; simpl; intros w steps H.
  - intros (-> & <- & ->). split; [done|constructor].
  - intros (w1 & r & w2 & rest & Hr & Hs & -> & Hx). destruct (H w1 Hr r w2 Hs) as (Hg & _ & Hk).
    destruct (IH r w2 rest Hk Hx) as [HQ HF]. split; [done|]. by constructor.
Qed.

(** A handler whose answers the environment permits gives an execution without interference. *)
Lemma run_iexec (h : forall R, E R -> W -> R * W) {A} (p : proc E A) w :
  (forall w, rely w w) -> (forall R (e : E R) w, estep R e w (h R e w).1 (h R e w).2) ->
  exists steps, iexec p w steps (run h p w).1 (run h p w).2.
Proof.
  intros Hr Hh. revert w. induction p as [a|R e k IH]; intros w; simpl; [by exists []|].
  specialize (Hh R e w). destruct (h R e w) as [r w'] eqn:Eh. simpl in Hh.
  destruct (IH r w') as [steps Hs]. exists ((w, w') :: steps). by eauto 10.
Qed.

(** The same condition on a method with private fields and exceptions. *)
Definition rgs {St X A} (m : SE E St X A) (Q : St -> Result A X -> W -> Prop) (st : St) (w : W) : Prop :=
  rg (m st) (fun p w => Q p.1 p.2 w) w.

Lemma rgs_bind {St X A B} (m : SE E St X A) (f : A -> SE E St X B) (Q : St -> Result B X -> W -> Prop) st w :
  rgs m (fun st' r w' => match r with Ok a => rgs (f a) Q st' w' | Err x => Q st' (Err x) w' end) st w ->
  rgs (se_bind m f) Q st w.
Proof.
  intros H. unfold rgs, se_bind. apply rg_bind. eapply rg_mono; [|exact H].
  intros [st' [a|x]] w'; simpl; done.
Qed.

Lemma rgs_mono {St X A} (m : SE E St X A) (Q Q' : St -> Result A X -> W -> Prop) st w :
  (forall st r w, Q st r w -> Q' st r w) -> rgs m Q st w -> rgs m Q' st w.
Proof. intros HQ. apply rg_mono. intros [st' r] w'. apply HQ. Qed.

Lemma rgs_catch {St X A} (m : SE E St X A) (f : X -> A) (Q : St -> Result A X -> W -> Prop) st w :
  rgs m (fun st' r w' => Q st' (Ok (match r with Ok a => a | Err x => f x end)) w') st w ->
  rgs (se_catch m f) Q st w.
Proof.
  intros H. unfold rgs, se_catch. apply rg_bind. eapply rg_mono; [|exact H]. by intros [st' r] w'.
Qed.

Lemma rgs_perform {St X R} (e : E R) (Q : St -> Result R X -> W -> Prop) st w :
  (forall w1, rely w w1 -> forall r w2, estep _ e w1 r w2 -> guar w1 w2 /\ keep w2 /\ Q st (Ok r) w2) ->
  rgs (se_perform e) Q st w.
Proof. done. Qed.
End rely_guarantee.

(** ** Conditions without guarantees *)

Section wpr.
Context {E : Type -> Type} {W : Type} (estep : forall R, E R -> W -> R -> W -> Prop) (rely : W -> W -> Prop).

Lemma wpr_bind {A B} (p : proc E A) (f : A -> proc E B) Q w :
  wpr estep rely p (fun a w => wpr estep rely (f a) Q w) w -> wpr estep rely (pbind p f) Q w.
Proof. revert w. induction p as [a|R e k IH]; intros w; simpl; [done|]. intros H w1 Hr r w2 Hs. apply IH. by eapply H. Qed.

Lemma wpr_mono {A} (p : proc E A) (Q Q' : A -> W -> Prop) w :
  (forall a w, Q a w -> Q' a w) -> wpr estep rely p Q w -> wpr estep rely p Q' w.
Proof. intros HQ. revert w. induction p as [a|R e k IH]; intros w; simpl; [by eauto|]. intros H w1 Hr r w2 Hs. apply IH. by eapply H. Qed.

Lemma wpr_conj {A} (p : proc E A) (Q Q' : A -> W -> Prop) w :
  wpr estep rely p Q w -> wpr estep rely p Q' w -> wpr estep rely p (fun a w => Q a w /\ Q' a w) w.
Proof. revert w. induction p as [a|R e k IH]; intros w; simpl; [done|]. intros H H' w1 Hr r w2 Hs. apply IH; eauto. Qed.

Lemma wpr_iexec {A} (p : proc E A) Q w steps a w' : wpr estep rely p Q w -> iexec estep rely p w steps a w' -> Q a w'.
Proof.
  revert w steps. induction p as [b|R e k IH]; simpl; intros w steps H.
  - by intros (-> & <- & _).
  - intros (w1 & r & w2 & rest & Hr & Hs & _ & Hx). eauto.
Qed.

Lemma wprs_bind {St X A B} (m : SE E St X A) (f : A -> SE E St X B) Q (s : St) w :
  wpr estep rely (m s) (fun a w => match a.2 with Ok x => wpr estep rely (f x a.1) Q w | Err x => Q (a.1, Err x) w end) w ->
  wpr estep rely (se_bind m f s) Q w.
Proof. intros H. unfold se_bind. apply wpr_bind. eapply wpr_mono; [|exact H]. by intros [s' [a|x]] w'. Qed.
(** Fewer interferences and fewer answers. *)
Lemma wpr_weaken (estep' : forall R, E R -> W -> R -> W -> Prop) (rely' : W -> W -> Prop) {A} (p : proc E A) Q w :
  (forall R (e : E R) w r w', estep' R e w r w' -> estep R e w r w') -> (forall w w', rely' w w' -> rely w w') ->
  wpr estep rely p Q w -> wpr estep' rely' p Q w.
Proof. intros Hs Hr. revert w. induction p as [a|R e k IH]; intros w; simpl; [done|]. eauto. Qed.

(** A condition with an invariant of its rely and its guarantee. *)
Lemma rg_wpr (guar : W -> W -> Prop) (keep : W -> Prop) {A} (p : proc E A) Q (J : W -> Prop) w :
  (forall w w', J w -> rely w w' -> J w') -> (forall w w', J w -> guar w w' -> J w') -> J w ->
  rg estep rely guar keep p Q w -> wpr estep rely p (fun a w' => Q a w' /\ J w') w.
Proof.
  intros HR HG. revert w. induction p as [a|R e k IH]; intros w Hj; simpl; [done|]. intros H w1 Hr r w2 Hs.
  destruct (H w1 Hr r w2 Hs) as (Hg & _ & Hk). eauto.
Qed.

(** What every execution ends in, the condition may end in too. *)
Lemma rg_with_wpr (guar : W -> W -> Prop) (keep : W -> Prop) {A} (p : proc E A) (Q Q' : A -> W -> Prop) w :
  rg estep rely guar keep p Q w -> wpr estep rely p Q' w -> rg estep rely guar keep p Q' w.
Proof.
  revert w. induction p as [a|R e k IH]; intros w; simpl; [done|]. intros H H' w1 Hr r w2 Hs. destruct (H w1 Hr r w2 Hs) as (? & ? & ?). eauto.
Qed.

(** A weaker guarantee. *)
Lemma rg_guar (guar guar' : W -> W -> Prop) (keep : W -> Prop) {A} (p : proc E A) Q w :
  (forall w w', guar w w' -> guar' w w') -> rg estep rely guar keep p Q w -> rg estep rely guar' keep p Q w.
Proof.
  intros HG. revert w. induction p as [a|R e k IH]; intros w; simpl; [done|]. intros H w1 Hr r w2 Hs. destruct (H w1 Hr r w2 Hs) as (? & ? & ?). eauto.
Qed.
End wpr.

(** ** Objects that share a world *)

Section system.
Context {E : Type -> Type} {W I St Op : Type} `{EqDecision I}.
Context (estep : forall R, E R -> W -> R -> W -> Prop).
Context (prog : I -> Op -> St -> proc E St).

(** An object is idle with its fields, or runs an operation started with them. *)
Inductive thread : Type :=
| Idle (st : St)
| Running (op : Op) (st : St) (p : proc E St).

Inductive sys_step : (I -> thread) * W -> (I -> thread) * W -> Prop :=
| sys_start ths w i op st :
    ths i = Idle st -> sys_step (ths, w) (<[i := Running op st (prog i op st)]> ths, w)
| sys_effect ths w i op st R (e : E R) k r w' :
    ths i = Running op st (Vis e k) -> estep R e w r w' ->
    sys_step (ths, w) (<[i := Running op st (k r)]> ths, w')
| sys_finish ths w i op st st' :
    ths i = Running op st (Ret st') -> sys_step (ths, w) (<[i := Idle st']> ths, w).

(** A handler whose answers the environment permits runs an operation from start to end,
    the other objects standing still. *)
Lemma sys_run (h : forall R, E R -> W -> R * W) :
  (forall R (e : E R) w, estep R e w (h R e w).1 (h R e w).2) ->
  forall ths w i op st, ths i = Idle st ->
  exists ths', rtc sys_step (ths, w) (ths', (run h (prog i op st) w).2)
    /\ ths' i = Idle (run h (prog i op st) w).1 /\ forall j, j <> i -> ths' j = ths j.
Proof.
  intros Hh.
  assert (Hp : forall i op st p ths w, ths i = Running op st p ->
    exists ths', rtc sys_step (ths, w) (ths', (run h p w).2)
      /\ ths' i = Idle (run h p w).1 /\ forall j, j <> i -> ths' j = ths j).
  { intros i op st p. induction p as [a|R e k IH]; intros ths w Hi; simpl.
    - exists (<[i := Idle a]> ths). split; [apply rtc_once; by econstructor|].
      rewrite fn_lookup_insert. split; [done|]. intros j Hj. by rewrite fn_lookup_insert_ne.
    - specialize (Hh R e w) as Hs. destruct (h R e w) as [r w'] eqn:Eh. simpl in Hs.
      destruct (IH r (<[i := Running op st (k r)]> ths) w') as (ths' & Hr & Ht & Ho); [by rewrite fn_lookup_insert|].
      exists ths'. split; [eapply rtc_l; [by econstructor|done]|]. split; [done|].
      intros j Hj. rewrite Ho by done. by rewrite fn_lookup_insert_ne. }
  intros ths w i op st Hi.
  destruct (Hp i op st (prog i op st) (<[i := Running op st (prog i op st)]> ths) w) as (ths' & Hr & Ht & Ho);
    [by rewrite fn_lookup_insert|].
  exists ths'. split; [eapply rtc_l; [by econstructor|done]|]. split; [done|].
  intros j Hj. rewrite Ho by done. by rewrite fn_lookup_insert_ne.
Qed.

Context (rely guar : I -> W -> W -> Prop).
Context (inv : I -> St -> W -> Prop) (keep : I -> Op -> St -> W -> Prop).

Record rg_system : Prop := {
  rs_preorder i : PreOrder (rely i);
  rs_compatible i j w w' : i <> j -> guar i w w' -> rely j w w';
  rs_inv_stable i st w w' : inv i st w -> rely i w w' -> inv i st w';
  rs_keep_stable i op st w w' : keep i op st w -> rely i w w' -> keep i op st w';
  rs_op i op st w : inv i st w ->
    keep i op st w /\ rg estep (rely i) (guar i) (keep i op st) (prog i op st) (inv i) w;
}.

Definition thread_ok (i : I) (t : thread) (w : W) : Prop :=
  match t with
  | Idle st => inv i st w
  | Running op st p => keep i op st w /\ rg estep (rely i) (guar i) (keep i op st) p (inv i) w
  end.

Definition sys_ok (s : (I -> thread) * W) : Prop := forall i, thread_ok i (s.1 i) s.2.

Lemma thread_ok_stable (H : rg_system) i t w w' : thread_ok i t w -> rely i w w' -> thread_ok i t w'.
Proof.
  pose proof (rs_preorder H i). destruct t as [st|op st p]; simpl.
  - apply (rs_inv_stable H).
  - intros [Hk Hp] Hr. split; [by eapply (rs_keep_stable H)|].
  eapply rg_stable; [done|apply (rs_inv_stable H)|done..].
Qed.

Lemma sys_step_ok (H : rg_system) s s' : sys_ok s -> sys_step s s' -> sys_ok s'.
Proof.
  intros Hok Hstep j. destruct Hstep as [ths w i op st Hi|ths w i op st R e k r w' Hi Hs|ths w i op st st' Hi];
    pose proof (Hok i) as Hoi; simpl in *; rewrite Hi in Hoi; pose proof (rs_preorder H i) as Hpre;
    (destruct (decide (i = j)) as [<-|Hne];
      [rewrite fn_lookup_insert|rewrite fn_lookup_insert_ne by done]).
  - simpl. by apply (rs_op H).
  - apply (Hok j).
  - simpl in *. destruct Hoi as [_ Hoi]. destruct (Hoi w (reflexivity w) r w' Hs) as (_ & ? & ?). done.
  - simpl in *. destruct Hoi as [_ Hoi]. destruct (Hoi w (reflexivity w) r w' Hs) as (Hg & _ & _).
    eapply (thread_ok_stable H); [apply (Hok j)|]. by eapply (rs_compatible H).
  - simpl in *. destruct Hoi as [_ Hoi]. by apply Hoi.
  - apply (Hok j).
Qed.

(** A step changes the world only as some object guarantees, and moves only that object. *)
Lemma sys_step_guar (H : rg_system) ths w ths' w' :
  sys_ok (ths, w) -> sys_step (ths, w) (ths', w') ->
  exists i, (w' = w \/ guar i w w') /\ forall j, j <> i -> ths' j = ths j.
Proof.
  intros Hok Hstep. inversion Hstep as [? ? i op st Hi|? ? i op st R e k r ? Hi Hs|? ? i op st st' Hi]; subst; exists i.
  - split; [by left|]. intros j Hj. by rewrite fn_lookup_insert_ne.
  - split; [|intros j Hj; by rewrite fn_lookup_insert_ne]. right.
    pose proof (Hok i) as Hoi. simpl in Hoi. rewrite Hi in Hoi. destruct Hoi as [_ Hoi].
    pose proof (rs_preorder H i). by apply (Hoi w (reflexivity w) r w' Hs).
  - split; [by left|]. intros j Hj. by rewrite fn_lookup_insert_ne.
Qed.

(** Every state reachable from a state that satisfies the invariant satisfies it. *)
Lemma system_invariant (H : rg_system) s s' : sys_ok s -> rtc sys_step s s' -> sys_ok s'.
Proof. intros Hok. induction 1; eauto using sys_step_ok. Qed.
End system.
