(* ===== verification/Store.v ===== *)
(** * JSON values and the durable item store port

    JSON values (record-contract/primitives.ts) and the port of
    durable-store/item-store-port.ts: keys, conditions, write actions, outcomes
    and the behaviour the port documents. DynamoDB itself is not modelled: the
    port's contract is the step relation [write_step], which leaves every
    documented freedom open (a definitive failure at any time, an ambiguous
    write that took effect or not, a condition failure with or without the
    existing item). [write_now] is one deterministic store that satisfies it. *)

From S2P Require Import Prelude.
Open Scope Z_scope.
#[local] Set Warnings "-register-all".

(** ** JSON *)

Module Json.

(** A number is an integral one below 1e21 in magnitude, which JavaScript spells
    in decimal, or any other one (fractional, huge, non-finite) by its spelling. *)
Inductive jsnum := JSInt (z : Z) | JSOther (spelling : string).

#[export] Instance jsnum_eq_dec : EqDecision jsnum.
Proof. solve_decision. Defined.

(** Objects list their own members in property order; names are unique in a
    parsed object. *)
Inductive json :=
| JNull
| JBool (b : bool)
| JNum (n : jsnum)
| JStr (s : string)
| JArr (items : list json)
| JObj (members : list (string * json)).

(** Induction over nested values. *)
Section json_ind'.
Context (P : json -> Prop).
Context (Hnull : P JNull) (Hbool : forall b, P (JBool b)) (Hnum : forall n, P (JNum n)) (Hstr : forall s, P (JStr s)).
Context (Harr : forall items, Forall P items -> P (JArr items)).
Context (Hobj : forall ms, Forall (fun kv => P kv.2) ms -> P (JObj ms)).

Fixpoint json_ind' (v : json) : P v :=
  match v with
  | JNull => Hnull
  | JBool b => Hbool b
  | JNum n => Hnum n
  | JStr s => Hstr s
  | JArr items =>
      Harr items ((fix go l : Forall P l :=
        match l with [] => Forall_nil_2 _ | x :: l' => Forall_cons_2 P x l' (json_ind' x) (go l') end) items)
  | JObj ms =>
      Hobj ms ((fix go (l : list (string * json)) : Forall (fun kv => P kv.2) l :=
        match l with
        | [] => Forall_nil_2 _
        | (k, x) :: l' => Forall_cons_2 (fun kv => P kv.2) (k, x) l' (json_ind' x) (go l')
        end) ms)
  end.
End json_ind'.

(** Own member of an object; [None] is [undefined]. *)
Fixpoint member (name : string) (members : list (string * json)) : option json :=
  match members with
  | [] => None
  | (n, v) :: rest => if bool_decide (n = name) then Some v else member name rest
  end.

(** [{ ...members, [name]: value }]: an existing member keeps its position. *)
Fixpoint set_member (name : string) (value : json) (members : list (string * json)) : list (string * json) :=
  match members with
  | [] => [(name, value)]
  | (n, v) :: rest => if bool_decide (n = name) then (n, value) :: rest else (n, v) :: set_member name value rest
  end.

Definition set_members (set : list (string * json)) (members : list (string * json)) : list (string * json) :=
  fold_left (fun acc '(n, v) => set_member n v acc) set members.

Lemma member_set_member name name' v m :
  member name' (set_member name v m) = if bool_decide (name = name') then Some v else member name' m.
Proof.
  induction m as [|[n x] m IH]; simpl; [repeat case_bool_decide; done|].
  repeat (case_bool_decide; simpl; simplify_eq); try done; congruence.
Qed.

Definition as_string (v : option json) : option string :=
  match v with Some (JStr s) => Some s | _ => None end.

(** [Number.isSafeInteger(value)] on a JSON value, with the integer. *)
Definition as_safe_integer (v : option json) : option Z :=
  match v with
  | Some (JNum (JSInt z)) => if is_safe_integer z then Some z else None
  | _ => None
  end.

End Json.
Import Json.

(** ** The port *)

Module Store.

Inductive TableRole := ledger | experiment_journal | caller_journal | control | trial_registry | coordination.

#[export] Instance TableRole_eq_dec : EqDecision TableRole.
Proof. solve_decision. Defined.

Record ItemKey := MkKey { pk : string; sk : string }.

#[export] Instance ItemKey_eq_dec : EqDecision ItemKey.
Proof. solve_decision. Defined.

(** The key plus JSON-valued attributes, as own members. *)
Abbreviation StoredItem := (list (string * json)).

(** [string | number | boolean] operands; numbers are safe integers. *)
Inductive scalar := SStr (s : string) | SNum (z : Z) | SBool (b : bool).

Definition scalar_json (s : scalar) : json :=
  match s with SStr s => JStr s | SNum z => JNum (JSInt z) | SBool b => JBool b end.

(** The attribute has exactly this JSON type and value. *)
Definition scalar_matches (v : option json) (s : scalar) : bool :=
  match v, s with
  | Some (JStr a), SStr b => bool_decide (a = b)
  | Some (JNum (JSInt a)), SNum b => bool_decide (a = b)
  | Some (JBool a), SBool b => bool_decide (a = b)
  | _, _ => false
  end.

Inductive Condition :=
| item_absent
| attribute_equals (name : string) (value : scalar)
| attribute_in (name : string) (values : list string)
| all (conditions : list Condition).

(** A condition is evaluated against the item's state before the write. *)
Fixpoint condition_holds (item : option StoredItem) (c : Condition) : bool :=
  match c with
  | item_absent => bool_decide (item = None)
  | attribute_equals name value =>
      match item with Some m => scalar_matches (member name m) value | None => false end
  | attribute_in name values =>
      match item with
      | Some m => match as_string (member name m) with Some s => memb s values | None => false end
      | None => false
      end
  | all conditions => forallb (condition_holds item) conditions
  end.

Inductive WriteAction :=
| put (table : TableRole) (item : StoredItem) (condition : option Condition)
| update (table : TableRole) (key : ItemKey) (set : list (string * json)) (increment : list (string * Z))
         (condition : Condition)
| condition_check (table : TableRole) (key : ItemKey) (condition : Condition).

Definition action_condition (a : WriteAction) : option Condition :=
  match a with
  | put _ _ c => c
  | update _ _ _ _ c => Some c
  | condition_check _ _ c => Some c
  end.

Definition action_holds (item : option StoredItem) (a : WriteAction) : bool :=
  match action_condition a with Some c => condition_holds item c | None => true end.

(** [ADD]: a missing number attribute counts as zero. *)
Definition increment_member (name : string) (by_ : Z) (m : StoredItem) : StoredItem :=
  let old := match member name m with Some (JNum (JSInt z)) => z | _ => 0 end in
  set_member name (JNum (JSInt (old + by_))) m.

(** The item after the action, from the item before it. *)
Definition apply_action (item : option StoredItem) (a : WriteAction) : option StoredItem :=
  match a with
  | put _ new _ => Some new
  | update _ key set increment _ =>
      let base := match item with
                  | Some m => m
                  | None => [("pk", JStr (pk key)); ("sk", JStr (sk key))]
                  end in
      Some (fold_left (fun m '(n, z) => increment_member n z m) increment (set_members set base))
  | condition_check _ _ _ => item
  end.

Inductive WriteOutcome :=
| applied
| condition_failed (failed_action_index : Z) (existing : option StoredItem)
| definitive_failure (code : string)
| ambiguous (code : string).

(** *** The documented behaviour of one write to one item *)

Inductive write_step (item : option StoredItem) (a : WriteAction) : WriteOutcome -> option StoredItem -> Prop :=
| write_applied :
    action_holds item a = true -> write_step item a applied (apply_action item a)
| write_refused existing :
    action_holds item a = false -> (existing = None \/ existing = item) ->
    write_step item a (condition_failed 0 existing) item
| write_definitive code :
    write_step item a (definitive_failure code) item
| write_ambiguous_lost code :
    write_step item a (ambiguous code) item
| write_ambiguous_landed code :
    action_holds item a = true -> write_step item a (ambiguous code) (apply_action item a).

(** A strongly consistent read returns the item or fails. *)
Inductive read_step (item : option StoredItem) : Result (option StoredItem) string -> Prop :=
| read_ok : read_step item (Ok item)
| read_failed code : read_step item (Err code).

(** *** The store as a whole *)

Definition item_key (item : StoredItem) : option ItemKey :=
  match as_string (member "pk" item), as_string (member "sk" item) with
  | Some p, Some s => Some (MkKey p s)
  | _, _ => None
  end.

Definition action_target (a : WriteAction) : option (TableRole * ItemKey) :=
  match a with
  | put t item _ => option_map (pair t) (item_key item)
  | update t k _ _ _ => Some (t, k)
  | condition_check t k _ => Some (t, k)
  end.

Definition tables : Type := TableRole -> ItemKey -> option StoredItem.

Definition set_row (w : tables) (t : TableRole) (k : ItemKey) (v : option StoredItem) : tables :=
  fun t' k' => if bool_decide (t = t' /\ k = k') then v else w t' k'.

(** One call of [write]. The adapter may also throw, before or after the write took effect;
    an item without a key is refused. *)
Inductive store_write (w : tables) (a : WriteAction) : Result WriteOutcome js_error -> tables -> Prop :=
| store_write_ok t k o v :
    action_target a = Some (t, k) -> write_step (w t k) a o v -> store_write w a (Ok o) (set_row w t k v)
| store_write_invalid code :
    action_target a = None -> store_write w a (Ok (definitive_failure code)) w
| store_write_threw e : store_write w a (Err e) w
| store_write_threw_landed e t k :
    action_target a = Some (t, k) -> action_holds (w t k) a = true ->
    store_write w a (Err e) (set_row w t k (apply_action (w t k) a)).

Inductive store_get (w : tables) (t : TableRole) (k : ItemKey) :
  Result (Result (option StoredItem) string) js_error -> Prop :=
| store_get_ok r : read_step (w t k) r -> store_get w t k (Ok r)
| store_get_threw e : store_get w t k (Err e).

(** A transaction, seen from one of its actions at [index]: it applies as a whole or not at
    all, and names the action whose condition failed. *)
Inductive transact_one (w : tables) (a : WriteAction) (index : Z) : WriteOutcome -> tables -> Prop :=
| transact_applied t k :
    action_target a = Some (t, k) -> action_holds (w t k) a = true ->
    transact_one w a index applied (set_row w t k (apply_action (w t k) a))
| transact_refused_here t k existing :
    action_target a = Some (t, k) -> action_holds (w t k) a = false -> (existing = None \/ existing = w t k) ->
    transact_one w a index (condition_failed index existing) w
| transact_refused_elsewhere i existing : i <> index -> transact_one w a index (condition_failed i existing) w
| transact_definitive code : transact_one w a index (definitive_failure code) w
| transact_ambiguous_lost code : transact_one w a index (ambiguous code) w
| transact_ambiguous_landed code t k :
    action_target a = Some (t, k) -> action_holds (w t k) a = true ->
    transact_one w a index (ambiguous code) (set_row w t k (apply_action (w t k) a)).

(** A whole transaction on distinct items: all actions in order, or none; a failed condition
    names the first action whose condition did not hold. *)
Definition apply_row (w : tables) (a : WriteAction) : tables :=
  match action_target a with
  | Some (t, k) => set_row w t k (apply_action (w t k) a)
  | None => w
  end.

Definition apply_all (w : tables) (actions : list WriteAction) : tables := fold_left apply_row actions w.

Definition row_holds (w : tables) (a : WriteAction) : bool :=
  match action_target a with Some (t, k) => action_holds (w t k) a | None => false end.

Definition distinct_targets (actions : list WriteAction) : Prop := NoDup (map action_target actions).

Inductive transact_step (w : tables) (actions : list WriteAction) : WriteOutcome -> tables -> Prop :=
| tx_applied :
    distinct_targets actions -> forallb (row_holds w) actions = true ->
    transact_step w actions applied (apply_all w actions)
| tx_refused i a t k existing :
    actions !! i = Some a -> action_target a = Some (t, k) -> row_holds w a = false ->
    forallb (row_holds w) (take i actions) = true -> (existing = None \/ existing = w t k) ->
    transact_step w actions (condition_failed (Z.of_nat i) existing) w
| tx_definitive code : transact_step w actions (definitive_failure code) w
| tx_ambiguous_lost code : transact_step w actions (ambiguous code) w
| tx_ambiguous_landed code :
    distinct_targets actions -> forallb (row_holds w) actions = true ->
    transact_step w actions (ambiguous code) (apply_all w actions).

Lemma set_row_same w t k v : set_row w t k v t k = v.
Proof. unfold set_row. by rewrite bool_decide_eq_true_2. Qed.

Lemma set_row_other w t k v t' k' : (t, k) <> (t', k') -> set_row w t k v t' k' = w t' k'.
Proof. intros H. unfold set_row. rewrite bool_decide_eq_false_2; [done|]. intros [-> ->]. done. Qed.

(** Seen from the row it targets, a call is one write, a throw counting as ambiguous. *)
Lemma store_write_row w a r w' t k code :
  store_write w a r w' -> action_target a = Some (t, k) ->
  write_step (w t k) a (match r with Ok o => o | Err e => ambiguous (code e) end) (w' t k).
Proof.
  intros [t' k' o v Ht Hs|c Ht|e|e t' k' Ht Hh] Ht'; simplify_eq.
  - by rewrite set_row_same.
  - apply write_ambiguous_lost.
  - rewrite set_row_same. by apply write_ambiguous_landed.
Qed.

(** A store without faults. *)
Definition write_now (item : option StoredItem) (a : WriteAction) : WriteOutcome * option StoredItem :=
  if action_holds item a then (applied, apply_action item a) else (condition_failed 0 item, item).

Lemma write_now_step item a : write_step item a (write_now item a).1 (write_now item a).2.
Proof.
  unfold write_now. destruct (action_holds item a) eqn:E; simpl; [by constructor|].
  constructor; auto.
Qed.

End Store.
