(* ===== verification/Utf16.v ===== *)
(** * The code units of a text

    A JavaScript string is a sequence of 16-bit code units. The model keeps it as the bytes of its
    characters in UTF-8, a surrogate that has no partner being written like any other unit. This
    file reads the units back and cuts by them: [s.length] is [js_length], [s.slice(0, n)] is
    [slice], and [s.toWellFormed()] puts U+FFFD for every surrogate without a partner. *)

From S2P Require Import Prelude Decimals.
Import Decimals(leb_total, leb_trans).
From Stdlib Require Strings.Ascii.
Open Scope Z_scope.

Module Utf16.

(** ** Bytes *)

Definition byte_of (c : Ascii.ascii) : Z := Z.of_nat (Ascii.nat_of_ascii c).
Definition char_of (b : Z) : Ascii.ascii := Ascii.ascii_of_nat (Z.to_nat b).

Definition bytes_of (s : string) : list Z := map byte_of (chars s).
Definition text_of_bytes (bytes : list Z) : string := text (map char_of bytes).

Lemma byte_range c : 0 <= byte_of c < 256.
Proof. unfold byte_of. pose proof (Ascii.nat_ascii_bounded c). lia. Qed.
Lemma char_of_byte c : char_of (byte_of c) = c.
Proof. unfold char_of, byte_of. by rewrite Nat2Z.id, Ascii.ascii_nat_embedding. Qed.
Lemma byte_of_char b : 0 <= b < 256 -> byte_of (char_of b) = b.
Proof. intros H. unfold char_of, byte_of. rewrite Ascii.nat_ascii_embedding; lia. Qed.

Lemma bytes_of_app a b : bytes_of (a +:+ b) = bytes_of a ++ bytes_of b.
Proof. unfold bytes_of. by rewrite chars_app, map_app. Qed.
Lemma bytes_of_text bytes : Forall (fun b => 0 <= b < 256) bytes -> bytes_of (text_of_bytes bytes) = bytes.
Proof.
  unfold bytes_of, text_of_bytes. rewrite chars_text. induction 1 as [|b l Hb _ IH]; [done|]. cbn [map]. by rewrite IH, byte_of_char.
Qed.

(** The bytes of a code point. *)
Definition utf8_encode (cp : Z) : list Z :=
  if cp <? 0x80 then [cp]
  else if cp <? 0x800 then [0xc0 + cp / 64; 0x80 + cp mod 64]
  else if cp <? 0x10000 then [0xe0 + cp / 4096; 0x80 + cp / 64 mod 64; 0x80 + cp mod 64]
  else [0xf0 + cp / 262144; 0x80 + cp / 4096 mod 64; 0x80 + cp / 64 mod 64; 0x80 + cp mod 64].

(** ** Code units *)

(** The UTF-16 code units of a text, which the language's [length], [slice] and [<] read. *)
Fixpoint code_units (bytes : list Z) : list Z :=
  match bytes with
  | a :: rest =>
      if a <? 0x80 then a :: code_units rest
      else match rest with
      | b :: rest =>
          if a <? 0xe0 then ((a - 0xc0) * 64 + (b - 0x80)) :: code_units rest
          else match rest with
          | c :: rest =>
              if a <? 0xf0 then ((a - 0xe0) * 4096 + (b - 0x80) * 64 + (c - 0x80)) :: code_units rest
              else match rest with
              | d :: rest =>
                  let v := (a - 0xf0) * 262144 + (b - 0x80) * 4096 + (c - 0x80) * 64 + (d - 0x80) - 0x10000 in
                  (0xd800 + v / 1024) :: (0xdc00 + v mod 1024) :: code_units rest
              | [] => []
              end
          | [] => []
          end
      | [] => []
      end
  | [] => []
  end.

Definition code_unit (u : Z) : Prop := 0 <= u < 0x10000.
Definition is_high (u : Z) : bool := (0xd800 <=? u) && (u <=? 0xdbff).
Definition is_low (u : Z) : bool := (0xdc00 <=? u) && (u <=? 0xdfff).
Definition is_surrogate (u : Z) : bool := is_high u || is_low u.
Definition pair_point (high low : Z) : Z := 0x10000 + (high - 0xd800) * 1024 + (low - 0xdc00).

(** The bytes of code units: a surrogate pair is one code point. *)
Fixpoint encode_units (l : list Z) : list Z :=
  match l with
  | [] => []
  | u :: rest =>
      match rest with
      | v :: rest' => if is_high u && is_low v then utf8_encode (pair_point u v) ++ encode_units rest' else utf8_encode u ++ encode_units rest
      | [] => utf8_encode u
      end
  end.

Definition units (s : string) : list Z := code_units (bytes_of s).
Definition of_units (l : list Z) : string := text_of_bytes (encode_units l).

(** [s.length] and [s.slice(0, n)] *)
Definition js_length (s : string) : nat := length (units s).
Definition slice (n : nat) (s : string) : string := of_units (take n (units s)).

Definition REPLACEMENT : Z := 0xfffd.
Fixpoint replace_lone (l : list Z) : list Z :=
  match l with
  | [] => []
  | u :: rest =>
      let single := if is_surrogate u then REPLACEMENT else u in
      match rest with
      | v :: rest' => if is_high u && is_low v then u :: v :: replace_lone rest' else single :: replace_lone rest
      | [] => [single]
      end
  end.
(** [s.toWellFormed()] *)
Definition toWellFormed (s : string) : string := of_units (replace_lone (units s)).

#[global] Arguments units : simpl never.
#[global] Arguments of_units : simpl never.
#[global] Arguments js_length : simpl never.
#[global] Arguments slice : simpl never.
#[global] Arguments toWellFormed : simpl never.

(** A text that stands for a JavaScript string. *)
Definition js_text (s : string) : Prop := exists l, Forall code_unit l /\ s = of_units l.

(** ** Order *)

Fixpoint units_compare (a b : list Z) : comparison :=
  match a, b with
  | [], [] => Eq
  | [], _ => Lt
  | _, [] => Gt
  | x :: a', y :: b' => match x ?= y with Eq => units_compare a' b' | c => c end
  end.

(** [a <= b]: by code units, and by bytes where two texts that are no JavaScript strings have the same. *)
Definition text_le (a b : string) : bool :=
  match units_compare (units a) (units b) with Lt => true | Gt => false | Eq => String.leb a b end.

Lemma units_compare_antisym a b : units_compare b a = CompOpp (units_compare a b).
Proof.
  revert b. induction a as [|x a IH]; intros [|y b]; try done. cbn [units_compare]. rewrite (Z.compare_antisym x y). destruct (x ?= y); [apply IH|done..].
Qed.

Lemma units_compare_trans a b c o : units_compare a b = o -> units_compare b c = o -> units_compare a c = o.
Proof.
  revert b c. induction a as [|x a IH]; intros [|y b] [|z c]; cbn [units_compare]; try (by intros <-); try congruence.
  destruct (Z.compare_spec x y), (Z.compare_spec y z), (Z.compare_spec x z); subst; try lia; try congruence. apply IH.
Qed.

Lemma units_compare_eq a b c : units_compare a b = Eq -> units_compare a c = units_compare b c.
Proof.
  revert b c. induction a as [|x a IH]; intros [|y b] c; try done. destruct c as [|z c]; [done|]. cbn [units_compare].
  destruct (Z.compare_spec x y); try done. subst y. intros H. destruct (x ?= z); [by apply IH|done..].
Qed.

Lemma text_le_total a b : text_le a b = true \/ text_le b a = true.
Proof.
  unfold text_le. rewrite (units_compare_antisym (units a) (units b)). destruct (units_compare (units a) (units b)); simpl; auto. apply leb_total.
Qed.

Lemma text_le_antisym a b : text_le a b = true -> text_le b a = true -> a = b.
Proof.
  unfold text_le. rewrite (units_compare_antisym (units a) (units b)). destruct (units_compare (units a) (units b)); try done. apply String.leb_antisym.
Qed.

Lemma text_le_trans a b c : text_le a b = true -> text_le b c = true -> text_le a c = true.
Proof.
  unfold text_le. destruct (units_compare (units a) (units b)) eqn:E1; [|idtac|done].
  - rewrite (units_compare_eq _ _ (units c) E1). destruct (units_compare (units b) (units c)); try done. apply leb_trans.
  - destruct (units_compare (units b) (units c)) eqn:E2; [|by rewrite (units_compare_trans _ _ _ _ E1 E2)|done].
    rewrite (units_compare_antisym (units c) (units a)), <- (units_compare_eq _ _ (units a) E2), (units_compare_antisym (units a) (units b)), E1. done.
Qed.

(** ** Reading the units back *)

Lemma decode_unit u rest : code_unit u -> code_units (utf8_encode u ++ rest) = u :: code_units rest.
Proof.
  unfold code_unit. intros Hu. unfold utf8_encode. destruct (Z.ltb_spec u 0x80); [|destruct (Z.ltb_spec u 0x800); [|destruct (Z.ltb_spec u 0x10000)]];
    cbn [app code_units]; repeat (match goal with |- context [?a <? ?b] => destruct (Z.ltb_spec a b); try (exfalso; dlia) end).
  - done.
  - f_equal. dlia.
  - f_equal. dlia.
Qed.

Lemma is_high_iff u : is_high u = true <-> 0xd800 <= u <= 0xdbff.
Proof. unfold is_high. rewrite andb_true_iff. lia. Qed.
Lemma is_low_iff u : is_low u = true <-> 0xdc00 <= u <= 0xdfff.
Proof. unfold is_low. rewrite andb_true_iff. lia. Qed.

Lemma pair_range u v : is_high u && is_low v = true -> 0x10000 <= pair_point u v <= 0x10ffff.
Proof. rewrite andb_true_iff, is_high_iff, is_low_iff. unfold pair_point. lia. Qed.

Lemma decode_pair u v rest : is_high u && is_low v = true -> code_units (utf8_encode (pair_point u v) ++ rest) = u :: v :: code_units rest.
Proof.
  intros H. pose proof (pair_range u v H) as Hr. assert (Hv : pair_point u v - 0x10000 = (u - 0xd800) * 1024 + (v - 0xdc00)) by (unfold pair_point; lia).
  apply andb_prop in H as [Hh%is_high_iff Hl%is_low_iff]. set (cp := pair_point u v) in *. clearbody cp. unfold utf8_encode.
  repeat (match goal with |- context [cp <? ?b] => destruct (Z.ltb_spec cp b); [exfalso; lia|] end). cbn [app code_units].
  repeat (match goal with |- context [?a <? ?b] => destruct (Z.ltb_spec a b); [exfalso; dlia|] end).
  assert ((0xf0 + cp / 0x40000 - 0xf0) * 262144 + (0x80 + cp / 0x1000 mod 0x40 - 0x80) * 4096 + (0x80 + cp / 0x40 mod 0x40 - 0x80) * 64
          + (0x80 + cp mod 0x40 - 0x80) - 0x10000 = (u - 0xd800) * 1024 + (v - 0xdc00)) as -> by dlia.
  f_equal; [dlia|]. f_equal. dlia.
Qed.

(** Induction on a list one or two units at a time. *)
Lemma units_ind (P : list Z -> Prop) :
  P [] -> (forall u rest, (forall v rest', rest = v :: rest' -> P rest') -> P rest -> P (u :: rest)) -> forall l, P l.
Proof.
  intros H0 H1 l. enough (P l /\ forall v rest', l = v :: rest' -> P rest') by tauto.
  induction l as [|u l [IH IH2]]; [done|]. split; [by apply H1|]. by intros v rest' [= <- <-].
Qed.

Lemma decode_units l rest : Forall code_unit l -> code_units (encode_units l ++ rest) = l ++ code_units rest.
Proof.
  induction l as [|u l IH2 IH] using units_ind; [done|]. intros [Hu Hl]%Forall_cons. cbn [encode_units]. destruct l as [|v l].
  - by apply decode_unit.
  - destruct (is_high u && is_low v) eqn:E; rewrite <- (assoc_L (++)).
    + rewrite decode_pair by done. apply Forall_cons in Hl as [_ Hl]. by rewrite (IH2 v l eq_refl Hl).
    + by rewrite decode_unit, IH.
Qed.

Lemma utf8_bytes cp : 0 <= cp <= 0x10ffff -> Forall (fun b => 0 <= b < 256) (utf8_encode cp).
Proof. intros H. unfold utf8_encode. repeat case_match; repeat constructor; dlia. Qed.

Lemma encoded_range l : Forall code_unit l -> Forall (fun b => 0 <= b < 256) (encode_units l).
Proof.
  induction l as [|u l IH2 IH] using units_ind; [done|]. intros [Hu Hl]%Forall_cons. unfold code_unit in Hu. cbn [encode_units]. destruct l as [|v l].
  - apply utf8_bytes. lia.
  - destruct (is_high u && is_low v) eqn:E; apply Forall_app; (split; [apply utf8_bytes|]).
    + pose proof (pair_range u v E). lia.
    + apply Forall_cons in Hl as [_ Hl]. by apply (IH2 v l).
    + lia.
    + by apply IH.
Qed.

Lemma bytes_of_units l : Forall code_unit l -> bytes_of (of_units l) = encode_units l.
Proof. intros H. by apply bytes_of_text, encoded_range. Qed.

(** The text of units has these units. *)
Lemma units_of_units l : Forall code_unit l -> units (of_units l) = l.
Proof.
  intros H. unfold units. rewrite bytes_of_units by done. rewrite <- (app_nil_r (encode_units l)), decode_units by done. apply app_nil_r.
Qed.

Lemma js_text_units s : js_text s -> Forall code_unit (units s).
Proof. intros (l & Hl & ->). by rewrite units_of_units. Qed.

(** [slice] keeps the first units. *)
Lemma units_slice n s : Forall code_unit (units s) -> units (slice n s) = take n (units s).
Proof. intros H. unfold slice. apply units_of_units. by apply Forall_take. Qed.

Lemma js_text_slice n s : js_text s -> js_text (slice n s).
Proof. intros H%js_text_units. exists (take n (units s)). split; [by apply Forall_take|done]. Qed.

(** ** Texts that end with a character *)

(** The text reads as code units, and what is appended to it is read on its own. *)
Definition complete (s : string) : Prop := Forall code_unit (units s) /\ forall t, units (s +:+ t) = units s ++ units t.

Lemma complete_empty : complete "".
Proof. split; [constructor|done]. Qed.
Lemma complete_app a b : complete a -> complete b -> complete (a +:+ b).
Proof.
  intros [Ra Ha] [Rb Hb]. split; [rewrite Ha; by apply Forall_app|]. intros t. by rewrite string_app_assoc, !Ha, Hb, (assoc_L (++)).
Qed.
Lemma complete_bytes s l : Forall code_unit l -> (forall rest, code_units (bytes_of s ++ rest) = l ++ code_units rest) -> complete s /\ units s = l.
Proof.
  intros Hl H. assert (E : units s = l) by (unfold units; rewrite <- (app_nil_r (bytes_of s)), H; apply app_nil_r).
  split; [|done]. split; [by rewrite E|]. intros t. rewrite E. unfold units. by rewrite bytes_of_app, H.
Qed.
Lemma complete_js s : js_text s -> complete s.
Proof.
  intros (l & Hl & ->). apply (complete_bytes _ l); [done|]. intros rest. rewrite bytes_of_units by done. by apply decode_units.
Qed.

Definition is_ascii (c : Ascii.ascii) : Prop := byte_of c < 0x80.
Lemma decode_ascii l rest : Forall (fun b => b < 0x80) l -> code_units (l ++ rest) = l ++ code_units rest.
Proof. induction 1 as [|b l Hb _ IH]; [done|]. cbn [app code_units]. rewrite (proj2 (Z.ltb_lt _ _) Hb). by rewrite IH. Qed.
Lemma ascii_units l : Forall is_ascii l -> Forall code_unit (map byte_of l).
Proof. intros H. apply Forall_fmap. eapply Forall_impl; [exact H|]. intros c Hc. pose proof (byte_range c). unfold is_ascii in Hc. unfold code_unit. simpl. lia. Qed.
(** ASCII text has its bytes as units. *)
Lemma complete_ascii s : Forall is_ascii (chars s) -> complete s /\ units s = bytes_of s.
Proof. intros H. apply complete_bytes; [by apply ascii_units|]. intros rest. apply decode_ascii. by apply Forall_fmap. Qed.

Lemma complete_join sep l : complete sep -> Forall complete l -> complete (str_join sep l).
Proof.
  intros Hsep. induction 1 as [|s l Hs Hl IH]; [apply complete_empty|]. destruct l as [|t l]; [done|].
  change (complete (s +:+ sep +:+ str_join sep (t :: l))). by repeat apply complete_app.
Qed.

Lemma js_length_app a b : complete a -> js_length (a +:+ b) = (js_length a + js_length b)%nat.
Proof. intros [_ H]. unfold js_length. by rewrite H, length_app. Qed.

(** A cut between the surrogates of a pair leaves the first of them. *)
Example slice_splits_pair : units (slice 2 (of_units [0x61; 0xd83d; 0xde00; 0x62])) = [0x61; 0xd83d].
Proof. vm_compute. reflexivity. Qed.
End Utf16.
