(* ===== verification/JsonText.v ===== *)
(** * JSON text (src/study-1/src/record-contract)

    json-text.ts (the iterative writer with its own work stack), json-value.ts
    (bounded rendering of untrusted values) and canonical-json.ts (canonical
    serialization). The writer is modelled as the loop it is and proved equal to
    the obvious recursive rendering [json_text]. Lengths and cuts are in UTF-16 code units
    ([Utf16]), as the language's are. *)

From S2P Require Import Prelude Decimals Utf16 Store.
From Stdlib Require Strings.Ascii.
Import (notations) Stdlib.Strings.Ascii.
Import Utf16 Json.

Module JsonText.

(** ** [JSON.stringify] of a string *)

Definition hex_digit (n : nat) : Ascii.ascii :=
  Ascii.ascii_of_nat (if (n <? 10)%nat then 48 + n else 87 + n).

Definition backslash : Ascii.ascii := Ascii.ascii_of_nat 92.

Definition escape_char (c : Ascii.ascii) : list Ascii.ascii :=
  match Ascii.nat_of_ascii c with
  | 34 => [backslash; c]
  | 92 => [backslash; c]
  | 8 => [backslash; "b"%char]
  | 9 => [backslash; "t"%char]
  | 10 => [backslash; "n"%char]
  | 12 => [backslash; "f"%char]
  | 13 => [backslash; "r"%char]
  | n => if (n <? 32)%nat
         then [backslash; "u"%char; "0"%char; "0"%char; hex_digit (n / 16); hex_digit (n mod 16)]
         else [c]
  end%nat.

Definition dquote : Ascii.ascii := Ascii.ascii_of_nat 34.

(** The bytes of a surrogate, and the escape that stands for it. *)
Definition surrogate_bytes (a b c : Ascii.ascii) : bool :=
  let n := Ascii.nat_of_ascii in
  (n a =? 237)%nat && (160 <=? n b)%nat && (n b <=? 191)%nat && (128 <=? n c)%nat && (n c <=? 191)%nat.
Definition escape_surrogate (b c : Ascii.ascii) : list Ascii.ascii :=
  let n := ((Ascii.nat_of_ascii b - 128) * 64 + (Ascii.nat_of_ascii c - 128))%nat in
  [backslash; "u"%char; "d"%char; hex_digit (n / 256); hex_digit (n / 16 mod 16); hex_digit (n mod 16)].

(** A surrogate without a partner is escaped; a pair is one character of four bytes. *)
Fixpoint escape_text (l : list Ascii.ascii) : list Ascii.ascii :=
  match l with
  | [] => []
  | a :: l1 =>
      match l1 with
      | b :: c :: l2 => if surrogate_bytes a b c then escape_surrogate b c ++ escape_text l2 else escape_char a ++ escape_text l1
      | _ => escape_char a ++ escape_text l1
      end
  end.

Definition quote_json (s : string) : string :=
  text (dquote :: escape_text (chars s) ++ [dquote]).

(** ** The writer *)

(** How the writer spells leaves and keys and orders members. Parsed JSON holds plain
    objects only, so every object is walked. *)
Record JsonTextStyle := MkStyle {
  sortKeys : bool;
  leafText : json -> option string;
  keyText : string -> string;
}.

Inductive Position := PIndex (i : nat) | PKey (k : string).

Record ContainerFrame := MkFrame {
  close : string;
  pending : list (Position * json);
  position : option Position;
}.

Record JsonTextGap := MkGap { path : string; gap_value : json }.

Definition key_le (a b : string * json) : bool := text_le a.1 b.1.

(** Object members in the order the style writes them. *)
Definition ordered_members (style : JsonTextStyle) (ms : list (string * json)) : list (string * json) :=
  if sortKeys style then isort key_le ms else ms.

Definition openValue (style : JsonTextStyle) (value : json) : option (string * option ContainerFrame) :=
  match value with
  | JArr items => Some ("[", Some (MkFrame "]" (imap (fun i x => (PIndex i, x)) items) None))
  | JObj ms => Some ("{", Some (MkFrame "}" (map (fun '(k, v) => (PKey k, v)) (ordered_members style ms)) None))
  | leaf => match leafText style leaf with Some t => Some (t, None) | None => None end
  end.

(** [$], [$.a], [$.a[0]]: the stack is innermost first here. *)
Definition step_text (p : option Position) : string :=
  match p with
  | Some (PIndex i) => "[" +:+ pretty i +:+ "]"
  | Some (PKey k) => "." +:+ k
  | None => ".undefined"
  end.

Definition pathOf (stack : list ContainerFrame) : string :=
  "$" +:+ str_concat (map (fun f => step_text (position f)) (rev stack)).

(** Pieces yielded, the new stack, and the gap if the value has no text. *)
Definition writeValue (style : JsonTextStyle) (value : json) (stack : list ContainerFrame)
    : list string * list ContainerFrame * option JsonTextGap :=
  match openValue style value with
  | None => ([], stack, Some (MkGap (pathOf stack) value))
  | Some (opened, Some frame) => ([opened], frame :: stack, None)
  | Some (opened, None) => ([opened], stack, None)
  end.

(** One turn of the walk on the innermost frame. *)
Definition advance (style : JsonTextStyle) (frame : ContainerFrame) (rest : list ContainerFrame)
    : list string * list ContainerFrame * option json :=
  match pending frame with
  | [] => ([close frame], rest, None)
  | (p, child) :: more =>
      let separator := match position frame with None => "" | Some _ => "," end in
      let piece := match p with
                   | PIndex _ => separator
                   | PKey k => separator +:+ keyText style k +:+ ":"
                   end in
      ([piece], MkFrame (close frame) more (Some p) :: rest, Some child)
  end.

(** The loop: pieces in order and the first gap. [fuel] bounds the turns; [walk_fuel] is
    enough for any value. *)
Fixpoint walk_loop (fuel : nat) (style : JsonTextStyle) (stack : list ContainerFrame)
    : list string * option JsonTextGap :=
  match stack with
  | [] => ([], None)
  | frame :: rest =>
      match fuel with
      | O => ([], None)
      | S fuel' =>
          let '(pieces, stack', child) := advance style frame rest in
          match child with
          | None => let '(more, gap) := walk_loop fuel' style stack' in (pieces ++ more, gap)
          | Some value =>
              let '(written, stack'', gap) := writeValue style value stack' in
              match gap with
              | Some g => (pieces ++ written, Some g)
              | None => let '(more, gap') := walk_loop fuel' style stack'' in (pieces ++ written ++ more, gap')
              end
          end
      end
  end.

(** Turns the walk takes for the members of an opened value. *)
Fixpoint walk_fuel (v : json) : nat :=
  match v with
  | JArr items => S (sum_list_with (fun x => S (walk_fuel x)) items)
  | JObj ms => S (sum_list_with (fun kv => S (walk_fuel kv.2)) ms)
  | _ => O
  end.

Definition jsonTextPieces (value : json) (style : JsonTextStyle) : list string * option JsonTextGap :=
  let '(pieces, stack, gap) := writeValue style value [] in
  match gap with
  | Some g => (pieces, Some g)
  | None => let '(more, gap') := walk_loop (walk_fuel value) style stack in (pieces ++ more, gap')
  end.

(** ** The recursive rendering *)

Fixpoint option_all {A} (l : list (option A)) : option (list A) :=
  match l with
  | [] => Some []
  | o :: l' => match o, option_all l' with Some a, Some r => Some (a :: r) | _, _ => None end
  end.

Definition pair_le {A} (a b : string * A) : bool := text_le a.1 b.1.

Fixpoint json_text (style : JsonTextStyle) (v : json) : option string :=
  match v with
  | JArr items =>
      match option_all (map (json_text style) items) with
      | Some ts => Some ("[" +:+ str_join "," ts +:+ "]")
      | None => None
      end
  | JObj ms =>
      let named := map (fun '(k, x) => (k, json_text style x)) ms in
      let ordered := if sortKeys style then isort pair_le named else named in
      match option_all (map (fun '(k, t) => match t with Some t => Some (keyText style k +:+ ":" +:+ t) | None => None end) ordered) with
      | Some ts => Some ("{" +:+ str_join "," ts +:+ "}")
      | None => None
      end
  | leaf => leafText style leaf
  end.

(** ** The loop computes the recursive rendering *)

Section walk.
Context (style : JsonTextStyle).

Definition member_text (m : Position * json) : option string :=
  match m.1, json_text style m.2 with
  | PIndex _, t => t
  | PKey k, Some t => Some (keyText style k +:+ ":" +:+ t)
  | PKey _, None => None
  end.

(** What is still to write of a container: [started] says whether a member was written. *)
Fixpoint members_text (started : bool) (ms : list (Position * json)) : option string :=
  match ms with
  | [] => Some ""
  | m :: rest =>
      match member_text m, members_text true rest with
      | Some a, Some b => Some ((if started then "," else "") +:+ a +:+ b)
      | _, _ => None
      end
  end.

Definition frame_text (f : ContainerFrame) : option string :=
  match members_text (bool_decide (is_Some (position f))) (pending f) with
  | Some t => Some (t +:+ close f)
  | None => None
  end.

Fixpoint stack_text (stack : list ContainerFrame) : option string :=
  match stack with
  | [] => Some ""
  | f :: rest => match frame_text f, stack_text rest with Some a, Some b => Some (a +:+ b) | _, _ => None end
  end.

Definition frame_fuel (f : ContainerFrame) : nat := S (sum_list_with (fun m => S (walk_fuel m.2)) (pending f)).
Definition stack_fuel (stack : list ContainerFrame) : nat := sum_list_with frame_fuel stack.

Lemma stack_fuel_cons f rest : stack_fuel (f :: rest) = (frame_fuel f + stack_fuel rest)%nat.
Proof. done. Qed.

Lemma frame_fuel_cons cl p child more pos pos' :
  frame_fuel (MkFrame cl ((p, child) :: more) pos) = S (walk_fuel child + frame_fuel (MkFrame cl more pos')).
Proof. unfold frame_fuel. simpl. lia. Qed.

Lemma frame_fuel_pos f : (1 <= frame_fuel f)%nat.
Proof. unfold frame_fuel. lia. Qed.

Lemma members_text_join ms :
  members_text true ms = match option_all (map member_text ms) with
                         | Some ts => Some (str_concat (map (fun t => "," +:+ t) ts))
                         | None => None
                         end.
Proof.
  induction ms as [|m ms IH]; simpl; [done|]. rewrite IH.
  destruct (member_text m), (option_all _); simpl; try done.
Qed.

Lemma str_join_cons t ts : str_join "," (t :: ts) = t +:+ str_concat (map (fun t => "," +:+ t) ts).
Proof.
  revert t. induction ts as [|u ts IH]; intros t; [simpl; by rewrite string_app_nil_r|].
  change (str_join "," (t :: u :: ts)) with (t +:+ "," +:+ str_join "," (u :: ts)).
  rewrite IH. simpl. by rewrite !string_app_assoc.
Qed.

Lemma members_text_start ms :
  members_text false ms = match option_all (map member_text ms) with
                          | Some ts => Some (str_join "," ts)
                          | None => None
                          end.
Proof.
  destruct ms as [|m ms]; simpl; [done|]. rewrite members_text_join.
  destruct (member_text m), (option_all (map member_text ms)) as [ts|]; simpl; try done.
  rewrite <- str_join_cons. done.
Qed.

Lemma member_text_items items :
  map member_text (imap (fun i x => (PIndex i, x)) items) = map (json_text style) items.
Proof.
  change (map (json_text style) items) with (json_text style <$> items).
  change (map member_text ?l) with (member_text <$> l).
  rewrite fmap_imap. apply list_eq. intros i. rewrite list_lookup_imap, list_lookup_fmap. done.
Qed.

Lemma ordered_members_text ms :
  map (fun '(k, t) => match t with Some t => Some (keyText style k +:+ ":" +:+ t) | None => None end)
    (let named := map (fun '(k, x) => (k, json_text style x)) ms in
     if sortKeys style then isort pair_le named else named)
  = map member_text (map (fun '(k, v) => (PKey k, v)) (ordered_members style ms)).
Proof.
  unfold ordered_members. cbn zeta. destruct (sortKeys style).
  - rewrite (isort_map key_le) by (by intros [??] [??]).
    rewrite !map_map. apply map_ext. by intros [k v].
  - rewrite !map_map. apply map_ext. by intros [k v].
Qed.

(** Opening a value: its text is the opening piece followed by its frame's text. *)
Lemma openValue_text v :
  match openValue style v with
  | Some (o, Some f) =>
      position f = None /\ frame_fuel f = walk_fuel v
      /\ json_text style v = match frame_text f with Some t => Some (o +:+ t) | None => None end
  | Some (o, None) => json_text style v = Some o /\ walk_fuel v = O
  | None => json_text style v = None
  end.
Proof.
  destruct v as [|b|n|s|items|ms]; simpl; try (destruct (leafText style _); done).
  - split; [done|]. split.
    + unfold frame_fuel. simpl. f_equal. by apply sum_list_with_imap.
    + unfold frame_text. simpl. rewrite members_text_start, member_text_items.
      by destruct (option_all _).
  - split; [done|]. split.
    + unfold frame_fuel. simpl. f_equal. rewrite sum_list_with_map.
      assert (Hp : ordered_members style ms ≡ₚ ms).
      { unfold ordered_members. destruct (sortKeys style); [apply isort_perm|done]. }
      rewrite Hp. clear Hp. induction ms as [|[k v] ms IH]; simpl; congruence.
    + unfold frame_text. simpl. rewrite members_text_start, <- ordered_members_text.
      cbn zeta. by destruct (option_all _).
Qed.

Lemma walk_loop_text fuel stack :
  (stack_fuel stack <= fuel)%nat ->
  match stack_text stack with
  | Some t => exists ps, walk_loop fuel style stack = (ps, None) /\ str_concat ps = t
  | None => exists ps g, walk_loop fuel style stack = (ps, Some g)
  end.
Proof.
  revert stack. induction fuel as [|fuel IH]; intros [|[cl pend pos] rest] Hf; simpl.
  - by exists [].
  - rewrite stack_fuel_cons in Hf. pose proof (frame_fuel_pos (MkFrame cl pend pos)). lia.
  - by exists [].
  - rewrite stack_fuel_cons in Hf.
    unfold frame_text, advance. cbn [pending position close].
    destruct pend as [|[p child] more]; cbn [members_text]; cbv beta iota zeta.
    + pose proof (frame_fuel_pos (MkFrame cl [] pos)). specialize (IH rest ltac:(lia)).
      destruct (stack_text rest) as [b|]; simpl.
      * destruct IH as (ps & -> & <-). exists (cl :: ps). split; [done|].
        simpl. done.
      * destruct IH as (ps & g & ->). eauto.
    + rewrite (frame_fuel_cons _ _ _ _ _ (Some p)) in Hf. set (rest' := MkFrame cl more (Some p) :: rest).
      pose proof (openValue_text child) as Ho. unfold writeValue.
      assert (Hrest' : stack_text rest' = match members_text true more, stack_text rest with
                         | Some a, Some b => Some (a +:+ cl +:+ b) | _, _ => None end).
      { unfold rest'. simpl. unfold frame_text. simpl.
        destruct (members_text true more); [|done]. destruct (stack_text rest); [|done].
        by rewrite string_app_assoc. }
      destruct (openValue style child) as [[o [f|]]|].
      * destruct Ho as (Hpos & Hff & Ht).
        specialize (IH (f :: rest') ltac:(unfold rest'; rewrite !stack_fuel_cons; lia)).
        cbn [stack_text] in IH. rewrite Hrest' in IH. unfold member_text. simpl. rewrite Ht.
        destruct (frame_text f) as [ft|]; [|destruct IH as (ps & g & Hw); rewrite Hw; destruct p; eauto].
        destruct (members_text true more) as [mt|]; [|destruct IH as (ps & g & Hw); rewrite Hw; destruct p; eauto].
        destruct (stack_text rest) as [rt|]; [|destruct IH as (ps & g & Hw); rewrite Hw; destruct p; eauto].
        destruct IH as (ps & Hw & Hps). rewrite Hw.
        destruct p; (eexists; split; [done|]; simpl; rewrite Hps;
          destruct pos; simpl; rewrite ?string_app_assoc; done).
      * destruct Ho as (Ht & Hff).
        specialize (IH rest' ltac:(unfold rest'; rewrite !stack_fuel_cons; lia)).
        rewrite Hrest' in IH. unfold member_text. simpl. rewrite Ht.
        destruct (members_text true more) as [mt|]; [|destruct IH as (ps & g & Hw); rewrite Hw; destruct p; eauto].
        destruct (stack_text rest) as [rt|]; [|destruct IH as (ps & g & Hw); rewrite Hw; destruct p; eauto].
        destruct IH as (ps & Hw & Hps). rewrite Hw.
        destruct p; (eexists; split; [done|]; simpl; rewrite Hps;
          destruct pos; simpl; rewrite ?string_app_assoc; done).
      * unfold member_text. simpl. rewrite Ho. destruct p; eauto.
Qed.

Lemma jsonTextPieces_text (v : json) :
  match json_text style v with
  | Some t => exists ps, jsonTextPieces v style = (ps, None) /\ str_concat ps = t
  | None => exists ps g, jsonTextPieces v style = (ps, Some g)
  end.
Proof.
  unfold jsonTextPieces, writeValue. pose proof (openValue_text v) as Ho.
  destruct (openValue style v) as [[o [f|]]|].
  - destruct Ho as (_ & Hff & ->).
    pose proof (walk_loop_text (walk_fuel v) [f]) as Hw.
    rewrite stack_fuel_cons in Hw. cbn [stack_text] in Hw.
    specialize (Hw ltac:(change (stack_fuel []) with O; lia)).
    destruct (frame_text f) as [t|].
    + destruct Hw as (ps & -> & Hps). eexists. split; [done|]. simpl. by rewrite Hps, string_app_nil_r.
    + destruct Hw as (ps & g & ->). eauto.
  - destruct Ho as [-> ->]. simpl. eexists. split; [done|]. simpl. apply string_app_nil_r.
  - rewrite Ho. eauto.
Qed.
End walk.

(** ** Bounded rendering (json-value.ts) *)

Definition QUOTED_JSON_LIMIT : nat := 200.

Definition TRUNCATED : string := "…[truncated]".

Definition truncatedText (t : string) (limit : nat) : string := slice limit t +:+ TRUNCATED.

Definition boundedText (t : string) (limit : nat) : string :=
  if (limit <? js_length t)%nat then truncatedText t limit else t.

(** [JSON.stringify] of a leaf other than a string, and the spelling of a non-finite number. *)
Definition nonStringLeafText (leaf : json) : string :=
  match leaf with
  | JNull => "null"
  | JBool true => "true"
  | JBool false => "false"
  | JNum (JSInt z) => string_of_Z z
  | JNum (JSOther spelling) => spelling
  | _ => ""
  end.

(** Strings are cut before quoting. *)
Definition cut_quote (limit : nat) (t : string) : string :=
  quote_json (if (limit <? js_length t)%nat then slice (limit + 1) t else t).

Definition boundedStyle (limit : nat) : JsonTextStyle :=
  MkStyle false
    (fun leaf => match leaf with JStr t => Some (cut_quote limit t) | _ => Some (nonStringLeafText leaf) end)
    (cut_quote limit).

(** The loop over the pieces, stopped at the limit. *)
Fixpoint bounded_loop (limit : nat) (acc : string) (pieces : list string) : string :=
  match pieces with
  | [] => acc
  | piece :: rest =>
      let t := acc +:+ piece in
      if (limit <? js_length t)%nat then truncatedText t limit else bounded_loop limit t rest
  end.

Definition boundedJsonText (value : json) (limit : nat) : string :=
  bounded_loop limit "" (jsonTextPieces value (boundedStyle limit)).1.

Definition jsonTypeName (value : json) : string :=
  match value with
  | JNull => "null"
  | JArr _ => "array"
  | JBool _ => "boolean"
  | JNum _ => "number"
  | JStr _ => "string"
  | JObj _ => "object"
  end.

Definition describeJson (value : option json) : string :=
  match value with
  | None => "absent"
  | Some v => jsonTypeName v +:+ " " +:+ boundedJsonText v QUOTED_JSON_LIMIT
  end.

(** *** The bound is a plain truncation *)

(** The same rendering with whole strings: what [JSON.stringify] writes, with non-finite
    numbers spelled out. *)
Definition plainStyle : JsonTextStyle :=
  MkStyle false (fun leaf => match leaf with JStr t => Some (quote_json t) | _ => Some (nonStringLeafText leaf) end)
    quote_json.

(** Two texts agree up to [n] code units: equal, or both longer with the same first [n]. *)
Definition same_upto (n : nat) (a b : string) : Prop :=
  a = b \/ ((n < js_length a)%nat /\ (n < js_length b)%nat /\ take n (units a) = take n (units b)).

Lemma same_upto_app n a a' b b' : complete a -> complete a' ->
  same_upto n a a' -> same_upto n b b' -> same_upto n (a +:+ b) (a' +:+ b').
Proof.
  intros Ca Ca' Ha Hb. pose proof Ca as [_ Ea]. pose proof Ca' as [_ Ea']. destruct Ha as [->|(Hl & Hl' & Ht)].
  - destruct Hb as [->|(Hb & Hb' & Ht)]; [by left|right]. rewrite !js_length_app by done. split; [lia|]. split; [lia|].
    rewrite !Ea', !take_app. f_equal. apply (f_equal (take (n - length (units a')))) in Ht. rewrite !take_take in Ht. by rewrite Nat.min_l in Ht by lia.
  - right. rewrite !js_length_app by done. split; [lia|]. split; [lia|]. unfold js_length in *. by rewrite Ea, Ea', !take_app_le by lia.
Qed.

(** *** Quoting, by code units *)

Lemma escape_char_high c : 0x80 <= byte_of c -> escape_char c = [c].
Proof. destruct c as [[] [] [] [] [] [] [] []]; vm_compute; congruence. Qed.
Lemma escape_char_ascii c : byte_of c < 0x80 -> Forall is_ascii (escape_char c).
Proof.
  intros H. assert (Hb : forallb (fun d => byte_of d <? 0x80) (escape_char c) = true).
  { destruct c as [[] [] [] [] [] [] [] []]; vm_compute in H |- *; congruence. }
  apply Forall_forall. intros d Hd. rewrite forallb_forall in Hb. by apply Z.ltb_lt, Hb, list_elem_of_In.
Qed.
Lemma escape_char_length c : (1 <= length (escape_char c))%nat.
Proof. unfold escape_char. repeat (case_match; simpl; try lia). Qed.
Lemma hex_digit_ascii n : (n < 16)%nat -> is_ascii (hex_digit n).
Proof. intros H. do 16 (destruct n as [|n]; [by vm_compute|]). lia. Qed.
Lemma escape_surrogate_ascii b c : byte_of b <= 0xbf -> byte_of c <= 0xbf -> Forall is_ascii (escape_surrogate b c).
Proof.
  intros Hb Hc. unfold byte_of in Hb, Hc. unfold escape_surrogate. set (n := ((Ascii.nat_of_ascii b - 128) * 64 + (Ascii.nat_of_ascii c - 128))%nat).
  assert (Hn : (n < 16 * 256)%nat) by (unfold n; lia). clearbody n.
  repeat (apply Forall_cons; split; [by vm_compute|]). repeat (apply Forall_cons; split; [apply hex_digit_ascii|]); [| | |constructor].
  - apply Nat.Div0.div_lt_upper_bound. lia.
  - by apply Nat.mod_upper_bound.
  - by apply Nat.mod_upper_bound.
Qed.

Lemma surrogate_bytes_iff a b c : surrogate_bytes a b c = true <-> byte_of a = 0xed /\ 0xa0 <= byte_of b <= 0xbf /\ 0x80 <= byte_of c <= 0xbf.
Proof. unfold surrogate_bytes, byte_of. rewrite !andb_true_iff, Nat.eqb_eq, !Nat.leb_le. lia. Qed.

Lemma escape_plain c l : byte_of c <> 0xed -> escape_text (c :: l) = escape_char c ++ escape_text l.
Proof.
  intros Hc. cbn [escape_text]. destruct l as [|b [|d l]]; [done..|]. destruct (surrogate_bytes c b d) eqn:E; [|done].
  by apply surrogate_bytes_iff in E as [? _].
Qed.
Lemma escape_three a b c l : surrogate_bytes a b c = false -> escape_text (a :: b :: c :: l) = escape_char a ++ escape_text (b :: c :: l).
Proof. intros H. cbn [escape_text]. by rewrite H. Qed.

(** A character above ASCII that is no lone surrogate is kept. *)
Lemma escape_point cp l : 0x80 <= cp <= 0x10ffff -> is_surrogate cp = false ->
  escape_text (map char_of (utf8_encode cp) ++ l) = map char_of (utf8_encode cp) ++ escape_text l.
Proof.
  intros Hr Hs. unfold is_surrogate, is_high, is_low in Hs. unfold utf8_encode.
  assert (Hp : forall b r, 0x80 <= b < 256 -> b <> 0xed -> escape_text (char_of b :: r) = char_of b :: escape_text r).
  { intros b r Hb Hne. rewrite escape_plain, escape_char_high by (rewrite byte_of_char; lia). done. }
  destruct (Z.ltb_spec cp 0x80); [lia|]. destruct (Z.ltb_spec cp 0x800); [|destruct (Z.ltb_spec cp 0x10000)]; cbn [map app].
  - by rewrite !Hp by dlia.
  - rewrite escape_three, escape_char_high, !Hp; [done|dlia..|rewrite byte_of_char; dlia|].
    destruct (surrogate_bytes _ _ _) eqn:E; [|done]. exfalso. apply surrogate_bytes_iff in E. rewrite !byte_of_char in E by dlia. dlia.
  - by rewrite !Hp by dlia.
Qed.

(** The units [JSON.stringify] writes for one unit, and for a text's. *)
Definition escape_unit (u : Z) : list Z :=
  if is_surrogate u then map byte_of (escape_surrogate (char_of (0x80 + u / 64 mod 64)) (char_of (0x80 + u mod 64)))
  else if u <? 0x80 then map byte_of (escape_char (char_of u)) else [u].
Fixpoint escape_units (l : list Z) : list Z :=
  match l with
  | [] => []
  | u :: rest =>
      match rest with
      | v :: rest' => if is_high u && is_low v then u :: v :: escape_units rest' else escape_unit u ++ escape_units rest
      | [] => escape_unit u
      end
  end.

Lemma map_byte_char l : Forall (fun b => 0 <= b < 256) l -> map byte_of (map char_of l) = l.
Proof. induction 1 as [|b l Hb _ IH]; [done|]. cbn [map]. by rewrite IH, byte_of_char. Qed.

Lemma escape_unit_ok u l rest : code_unit u ->
  code_units (map byte_of (escape_text (map char_of (utf8_encode u) ++ l)) ++ rest) = escape_unit u ++ code_units (map byte_of (escape_text l) ++ rest).
Proof.
  intros Hu. pose proof Hu as Hr. unfold code_unit in Hr. unfold escape_unit. destruct (is_surrogate u) eqn:Es.
  - assert (Hs : 0xd800 <= u <= 0xdfff) by (unfold is_surrogate in Es; apply orb_true_iff in Es as [H%is_high_iff|H%is_low_iff]; lia).
    unfold utf8_encode. repeat (match goal with |- context [u <? ?b] => destruct (Z.ltb_spec u b); try lia end). cbn [map app].
    assert (E : surrogate_bytes (char_of (0xe0 + u / 4096)) (char_of (0x80 + u / 64 mod 64)) (char_of (0x80 + u mod 64)) = true).
    { apply surrogate_bytes_iff. rewrite !byte_of_char by dlia. dlia. }
    cbn [escape_text]. rewrite E, map_app, <- (assoc_L (++)). apply decode_ascii, Forall_fmap.
    apply escape_surrogate_ascii; rewrite byte_of_char; dlia.
  - destruct (Z.ltb_spec u 0x80).
    + unfold utf8_encode. rewrite (proj2 (Z.ltb_lt _ _)) by done. cbn [map app].
      rewrite escape_plain, map_app, <- (assoc_L (++)) by (rewrite byte_of_char; lia). apply decode_ascii, Forall_fmap, escape_char_ascii.
      rewrite byte_of_char; lia.
    + rewrite escape_point by (done || lia). rewrite map_app, map_byte_char, <- (assoc_L (++)) by (apply utf8_bytes; lia). by apply decode_unit.
Qed.

Lemma escape_units_ok l rest : Forall code_unit l ->
  code_units (map byte_of (escape_text (map char_of (encode_units l))) ++ rest) = escape_units l ++ code_units rest.
Proof.
  revert rest. induction l as [|u l IH2 IH] using units_ind; [done|]. intros rest [Hu Hl]%Forall_cons. cbn [encode_units escape_units]. destruct l as [|v l].
  - pose proof (escape_unit_ok u [] rest Hu) as E. by rewrite app_nil_r in E.
  - destruct (is_high u && is_low v) eqn:Ep; rewrite map_app.
    + pose proof (pair_range u v Ep) as Hp.
      rewrite escape_point by (unfold is_surrogate, is_high, is_low; lia).
      rewrite map_app, map_byte_char, <- (assoc_L (++)) by (apply utf8_bytes; lia). rewrite decode_pair by done.
      apply Forall_cons in Hl as [_ Hl]. by rewrite (IH2 v l eq_refl rest Hl).
    + rewrite escape_unit_ok, IH by done. by rewrite (assoc_L (++)).
Qed.

Lemma escape_unit_range u : code_unit u -> Forall code_unit (escape_unit u).
Proof.
  intros Hu. pose proof Hu as Hr. unfold code_unit in Hr. unfold escape_unit. destruct (is_surrogate u).
  - apply ascii_units, escape_surrogate_ascii; rewrite byte_of_char; dlia.
  - destruct (Z.ltb_spec u 0x80); [|by constructor]. apply ascii_units, escape_char_ascii. rewrite byte_of_char; lia.
Qed.
Lemma escape_units_range l : Forall code_unit l -> Forall code_unit (escape_units l).
Proof.
  induction l as [|u l IH2 IH] using units_ind; [done|]. intros [Hu Hl]%Forall_cons. pose proof (escape_unit_range u Hu) as Hs.
  cbn [escape_units]. destruct l as [|v l]; [done|]. destruct (is_high u && is_low v); [|apply Forall_app; auto].
  apply Forall_cons in Hl as [Hv Hl]. do 2 (constructor; [done|]). by apply (IH2 v l).
Qed.

(** The quoted text ends with a character, and holds the escaped units between quotes. *)
Lemma quote_units t : js_text t -> complete (quote_json t) /\ units (quote_json t) = byte_of dquote :: escape_units (units t) ++ [byte_of dquote].
Proof.
  intros (l & Hl & ->). rewrite units_of_units by done. apply complete_bytes.
  { constructor; [done|]. apply Forall_app. split; [by apply escape_units_range|by repeat constructor]. }
  intros rest. unfold bytes_of, quote_json, of_units, text_of_bytes.
  rewrite !chars_text. cbn [map]. rewrite map_app. change (byte_of dquote) with 34. cbn [app map code_units]. change (34 <? 0x80) with true. cbn iota.
  change (map byte_of [dquote]) with [34]. rewrite <- !(assoc_L (++)). cbn [app]. f_equal. by apply escape_units_ok.
Qed.

Lemma escape_unit_length u : (1 <= length (escape_unit u))%nat.
Proof. unfold escape_unit. destruct (is_surrogate u); [simpl; lia|]. destruct (u <? 0x80); [rewrite length_map; apply escape_char_length|simpl; lia]. Qed.

Lemma escape_units_length l : (length l <= length (escape_units l))%nat.
Proof.
  induction l as [|u l IH2 IH] using units_ind; [done|]. cbn [escape_units]. pose proof (escape_unit_length u). destruct l as [|v l]; [simpl in *; lia|].
  destruct (is_high u && is_low v); [specialize (IH2 v l eq_refl); simpl; lia|rewrite length_app; simpl in *; lia].
Qed.

Lemma escape_units_two u v l :
  escape_units (u :: v :: l) = if is_high u && is_low v then u :: v :: escape_units l else escape_unit u ++ escape_units (v :: l).
Proof. done. Qed.

(** Escaping the first [n + 1] units gives the first units of escaping all, at least [n] of them. *)
Lemma escape_prefix n l : (n < length l)%nat ->
  exists p x y, escape_units (take (S n) l) = p ++ x /\ escape_units l = p ++ y /\ (n <= length p)%nat.
Proof.
  revert n. induction l as [|u l IH2 IH] using units_ind; intros n Hn; [simpl in Hn; lia|].
  destruct n as [|n]; [by exists [], (escape_units (take 1 (u :: l))), (escape_units (u :: l))|].
  destruct l as [|v l]; [simpl in Hn; lia|]. rewrite !firstn_cons, !escape_units_two.
  destruct (is_high u && is_low v) eqn:E.
  - destruct n as [|n].
    + exists [u; v], (escape_units (take 0 l)), (escape_units l). simpl. by repeat split; lia || done.
    + destruct (IH2 v l eq_refl n) as (p & x & y & Hx & Hy & Hp); [simpl in Hn; lia|]. exists (u :: v :: p), x, y. rewrite Hx, Hy. simpl. split_and!; [done..|lia].
  - destruct (IH n) as (p & x & y & Hx & Hy & Hp); [simpl in *; lia|]. rewrite firstn_cons in Hx. exists (escape_unit u ++ p), x, y.
    rewrite Hx, Hy, length_app, !(assoc_L (++)). pose proof (escape_unit_length u). split_and!; [done..|lia].
Qed.

(** Cutting a string before quoting it changes nothing within the limit. *)
Lemma cut_quote_same limit t : js_text t -> complete (cut_quote limit t) /\ same_upto limit (cut_quote limit t) (quote_json t).
Proof.
  intros Ht. unfold cut_quote. destruct (limit <? js_length t)%nat eqn:E; [|split; [by apply quote_units|by left]].
  apply Nat.ltb_lt in E. pose proof (js_text_slice (limit + 1) t Ht) as Hs. destruct (quote_units _ Hs) as [Hc Hu], (quote_units t Ht) as [_ Hu'].
  split; [done|]. right. unfold js_length in *. rewrite Hu, Hu'. rewrite units_slice by by apply js_text_units.
  pose proof (escape_units_length (take (limit + 1) (units t))) as L1. pose proof (escape_units_length (units t)) as L2. rewrite length_take in L1.
  cbn [length]. rewrite !length_app. cbn [length]. split; [lia|]. split; [lia|]. destruct limit as [|limit]; [done|]. cbn [take]. f_equal.
  rewrite Nat.add_1_r. destruct (escape_prefix (S limit) (units t)) as (p & x & y & -> & -> & Hp); [lia|]. by rewrite <- !(assoc_L (++)), !take_app_le by lia.
Qed.

(** *** The values a runtime holds *)

(** Every string, member name and spelling of the value is a JavaScript string. *)
Fixpoint js_strings (v : json) : Prop :=
  match v with
  | JStr t => js_text t
  | JNum (JSOther spelling) => js_text spelling
  | JArr items => foldr (fun x P => js_strings x /\ P) True items
  | JObj ms => foldr (fun m P => (js_text m.1 /\ js_strings m.2) /\ P) True ms
  | _ => True
  end.

Lemma foldr_and_Forall {A} (P : A -> Prop) l : foldr (fun x Q => P x /\ Q) True l <-> Forall P l.
Proof. induction l as [|x l IH]; simpl; [by split|]. by rewrite IH, Forall_cons. Qed.
Lemma js_strings_items items : js_strings (JArr items) <-> Forall js_strings items.
Proof. apply foldr_and_Forall. Qed.
Lemma js_strings_members ms : js_strings (JObj ms) <-> Forall (fun m => js_text m.1 /\ js_strings m.2) ms.
Proof. apply (foldr_and_Forall (fun m => js_text m.1 /\ js_strings m.2)). Qed.

Lemma pretty_digits x : Forall is_ascii (chars (pretty_N_go x "")).
Proof.
  induction (N.lt_wf_0 x) as [x _ IH]. destruct (decide (x = 0%N)) as [->|Hx]; [by rewrite pretty_N_go_0|].
  rewrite Decimals.pretty_go_step by lia. apply Forall_app. split; [apply IH, N.div_lt; lia|]. apply Forall_singleton.
  pose proof (Z.mod_pos_bound (Z.of_N x) 10 ltac:(lia)) as Hm. destruct (_ `mod` 10)%Z as [|p|p]; [reflexivity| |lia].
  do 9 (destruct p as [p|p|]; try lia; try reflexivity).
Qed.

Lemma decimal_complete z : complete (string_of_Z z).
Proof.
  apply complete_ascii. destruct z as [|p|p]; [by repeat constructor|apply pretty_digits|].
  change (string_of_Z (Z.neg p)) with ("-" +:+ pretty_N_go (N.pos p) ""). rewrite chars_app. apply Forall_app. split; [by repeat constructor|apply pretty_digits].
Qed.

Lemma leaf_complete v : js_strings v -> complete (nonStringLeafText v).
Proof.
  destruct v as [|[]|[z|s]|t|items|ms]; cbn [nonStringLeafText]; intros H; try apply complete_empty.
  1-3: apply complete_ascii; by repeat constructor.
  - apply decimal_complete.
  - by apply complete_js.
Qed.

Lemma bounded_leaf_complete limit v t : js_strings v -> leafText (boundedStyle limit) v = Some t -> complete t.
Proof. intros Hv. pose proof (leaf_complete v Hv) as Hl. destruct v; cbn [leafText boundedStyle]; intros [= <-]; try exact Hl. by apply cut_quote_same. Qed.

(** *** Every piece ends with a character *)

Section pieces.
Context (style : JsonTextStyle).
Context (leaf_ok : forall v t, js_strings v -> leafText style v = Some t -> complete t) (key_ok : forall k, js_text k -> complete (keyText style k)).

Definition member_ok (m : Position * json) : Prop := match m.1 with PIndex _ => True | PKey k => js_text k end /\ js_strings m.2.
Definition frame_ok (f : ContainerFrame) : Prop := complete (close f) /\ Forall member_ok (pending f).

Lemma punctuation_complete s : s ∈ [""; "["; "]"; "{"; "}"; ","; ":"] -> complete s.
Proof. intros H. repeat (apply elem_of_cons in H as [->|H]; [apply complete_ascii; by repeat constructor|]). by apply not_elem_of_nil in H. Qed.

Lemma opened_ok v : js_strings v ->
  match openValue style v with Some (o, Some f) => complete o /\ frame_ok f | Some (o, None) => complete o | None => True end.
Proof.
  intros Hv. destruct v as [|b|n|t|items|ms]; cbn [openValue].
  1-4: destruct (leafText style _) eqn:E; [by eapply leaf_ok|done].
  - split; [by apply punctuation_complete; set_solver|]. split; [by apply punctuation_complete; set_solver|]. cbn [pending].
    apply js_strings_items in Hv. apply Forall_lookup. intros i m Hm. rewrite list_lookup_imap in Hm.
    destruct (items !! i) as [x|] eqn:Hx; [|done]. injection Hm as <-. split; [done|]. by eapply (Forall_lookup_1 _ _ _ _ Hv).
  - split; [by apply punctuation_complete; set_solver|]. split; [by apply punctuation_complete; set_solver|]. cbn [pending].
    apply js_strings_members in Hv. apply Forall_fmap.
    assert (Hp : ordered_members style ms ≡ₚ ms) by (unfold ordered_members; destruct (sortKeys style); [apply isort_perm|done]).
    rewrite Hp. eapply Forall_impl; [exact Hv|]. by intros [k x].
Qed.

Lemma walk_pieces fuel stack : Forall frame_ok stack -> Forall complete (walk_loop fuel style stack).1.
Proof.
  revert stack. induction fuel as [|fuel IH]; intros [|[cl pend pos] rest] Hs; try constructor.
  apply Forall_cons in Hs as [[Hc Hp] Hr]. cbn [close pending] in Hc, Hp. cbn [walk_loop]. unfold advance. cbn [pending close position].
  destruct pend as [|[p child] more].
  - specialize (IH rest Hr). destruct (walk_loop fuel style rest). by constructor.
  - apply Forall_cons in Hp as [[Hk Hv] Hm]. unfold writeValue. cbn [fst snd] in Hk, Hv.
    assert (Hsep : complete (match pos with None => "" | Some _ => "," end)) by (apply punctuation_complete; destruct pos; set_solver).
    assert (Hpiece : complete (match p with PIndex _ => match pos with None => "" | Some _ => "," end
                               | PKey k => match pos with None => "" | Some _ => "," end +:+ keyText style k +:+ ":" end)).
    { destruct p as [i|k]; [done|]. apply complete_app; [done|]. apply complete_app; [by apply key_ok|]. by apply punctuation_complete; set_solver. }
    assert (Hrest : Forall frame_ok (MkFrame cl more (Some p) :: rest)) by by constructor.
    pose proof (opened_ok child Hv) as Ho. destruct (openValue style child) as [[o [f|]]|].
    + destruct Ho as [Ho Hf]. specialize (IH (f :: MkFrame cl more (Some p) :: rest) ltac:(by constructor)).
      destruct (walk_loop fuel style _). constructor; [exact Hpiece|]. by constructor.
    + specialize (IH _ Hrest). destruct (walk_loop fuel style _). constructor; [exact Hpiece|]. by constructor.
    + constructor; [exact Hpiece|constructor].
Qed.

Lemma pieces_complete v : js_strings v -> Forall complete (jsonTextPieces v style).1.
Proof.
  intros Hv. unfold jsonTextPieces, writeValue. pose proof (opened_ok v Hv) as Ho. destruct (openValue style v) as [[o [f|]]|].
  - destruct Ho as [Ho Hf]. pose proof (walk_pieces (walk_fuel v) [f] ltac:(by constructor)) as Hw.
    destruct (walk_loop _ style _). by constructor.
  - pose proof (walk_pieces (walk_fuel v) [] ltac:(constructor)) as Hw. destruct (walk_loop _ style _). by constructor.
  - constructor.
Qed.
End pieces.

(** *** The renderings agree up to the limit *)

Definition agree (n : nat) (a b : string) : Prop := complete a /\ complete b /\ same_upto n a b.

Lemma agree_refl n a : complete a -> agree n a a.
Proof. intros H. split_and!; [done..|by left]. Qed.
Lemma agree_app n a a' b b' : agree n a a' -> agree n b b' -> agree n (a +:+ b) (a' +:+ b').
Proof. intros (Ca & Ca' & Ha) (Cb & Cb' & Hb). split_and!; [by apply complete_app..|by apply same_upto_app]. Qed.
Lemma agree_mark n s : s ∈ [""; "["; "]"; "{"; "}"; ","; ":"] -> agree n s s.
Proof. intros H. by apply agree_refl, punctuation_complete. Qed.

Lemma agree_join n l l' : Forall2 (agree n) l l' -> agree n (str_join "," l) (str_join "," l').
Proof.
  induction 1 as [|x y l l' Hxy Hl IH]; [by apply agree_mark; set_solver|].
  destruct Hl as [|x2 y2 l l' H2 Hl]; [done|].
  change (agree n (x +:+ "," +:+ str_join "," (x2 :: l)) (y +:+ "," +:+ str_join "," (y2 :: l'))).
  apply agree_app; [done|]. apply agree_app; [by apply agree_mark; set_solver|done].
Qed.

Lemma agree_all n {A} (f g : A -> option string) l :
  Forall (fun x => exists a b, f x = Some a /\ g x = Some b /\ agree n a b) l ->
  exists ts ts', option_all (map f l) = Some ts /\ option_all (map g l) = Some ts' /\ Forall2 (agree n) ts ts'.
Proof.
  induction 1 as [|x l (a & b & Ha & Hb & Hab) _ IH]; simpl.
  - exists [], []. done.
  - destruct IH as (ts & ts' & -> & -> & H). rewrite Ha, Hb. eexists _, _. by repeat (split; [done|]); constructor.
Qed.

Lemma cut_quote_agree limit t : js_text t -> agree limit (cut_quote limit t) (quote_json t).
Proof. intros Ht. destruct (cut_quote_same limit t Ht) as [Hc Hs]. split; [done|]. split; [by apply quote_units|done]. Qed.

(** Both renderings exist and agree up to the limit. *)
Lemma json_text_bounded limit v : js_strings v ->
  exists a b, json_text (boundedStyle limit) v = Some a /\ json_text plainStyle v = Some b /\ agree limit a b.
Proof.
  induction v as [|b|n|t|items IH|ms IH] using json_ind'; intros Hv; simpl.
  1-3: pose proof (leaf_complete _ Hv); eexists _, _; do 2 (split; [done|]); by apply agree_refl.
  - eexists _, _; do 2 (split; [done|]). by apply cut_quote_agree.
  - apply js_strings_items in Hv. 
    destruct (agree_all limit (json_text (boundedStyle limit)) (json_text plainStyle) items) as (ts & ts' & -> & -> & H).
    { apply Forall_forall. intros x Hx. rewrite Forall_forall in IH, Hv. auto. }
    eexists _, _; do 2 (split; [done|]).
    apply agree_app; [by apply agree_mark; set_solver|]. apply agree_app; [by apply agree_join|by apply agree_mark; set_solver].
  - apply js_strings_members in Hv. rewrite !map_map.
    destruct (agree_all limit (fun x => match (let '(k, x0) := x in (k, json_text (boundedStyle limit) x0)) with
                        | (k, t) => match t with Some t => Some (cut_quote limit k +:+ ":" +:+ t) | None => None end end)
                     (fun x => match (let '(k, x0) := x in (k, json_text plainStyle x0)) with
                        | (k, t) => match t with Some t => Some (quote_json k +:+ ":" +:+ t) | None => None end end) ms)
      as (ts & ts' & H1 & H2 & H).
    { apply Forall_forall. intros [k x] Hx. rewrite Forall_forall in IH, Hv. destruct (Hv _ Hx) as [Hk Hx']. destruct (IH _ Hx Hx') as (a & b & Ha & Hb & Hab).
      simpl in *. rewrite Ha, Hb. eexists _, _; do 2 (split; [done|]).
      apply agree_app; [by apply cut_quote_agree|]. apply agree_app; [by apply agree_mark; set_solver|done]. }
    rewrite H1, H2. eexists _, _; do 2 (split; [done|]).
    apply agree_app; [by apply agree_mark; set_solver|]. apply agree_app; [by apply agree_join|by apply agree_mark; set_solver].
Qed.

Lemma bounded_loop_text limit pieces : Forall complete pieces -> forall acc, complete acc -> (js_length acc <= limit)%nat ->
  bounded_loop limit acc pieces = boundedText (acc +:+ str_concat pieces) limit.
Proof.
  induction 1 as [|p ps Hp _ IH]; intros acc Hc Hacc; cbn [bounded_loop str_concat].
  - rewrite string_app_nil_r. unfold boundedText. by rewrite (proj2 (Nat.ltb_ge _ _) Hacc).
  - assert (Ha : complete (acc +:+ p)) by by apply complete_app.
    destruct (limit <? js_length (acc +:+ p))%nat eqn:E.
    + apply Nat.ltb_lt in E. unfold boundedText, truncatedText, slice. rewrite <- string_app_assoc, js_length_app by done.
      rewrite (proj2 (Nat.ltb_lt _ _)) by lia. destruct Ha as [_ Ha]. rewrite Ha, take_app_le by (unfold js_length in E; lia). done.
    + apply Nat.ltb_ge in E. rewrite IH by done. by rewrite string_app_assoc.
Qed.

Lemma same_upto_bounded limit a b : same_upto limit a b -> boundedText a limit = boundedText b limit.
Proof.
  intros [->|(Ha & Hb & Ht)]; [done|]. unfold boundedText, truncatedText, slice.
  apply Nat.ltb_lt in Ha as ->. apply Nat.ltb_lt in Hb as ->. by rewrite Ht.
Qed.

(** C32: The bounded renderer of untrusted values is a plain truncation in code units. Take any value of JavaScript strings and a
    limit. Although the renderer walks iteratively, stops at the limit and cuts long strings and keys before quoting them,
    its result is the whole text when that has at most [limit] UTF-16 code units, and otherwise exactly the
    text's first [limit] code units, were they to split a surrogate pair, and the marker. The text is [JSON.stringify]'s with
    the non-finite numbers spelled Infinity, -Infinity and NaN. So no detail exceeds the limit by more than the marker, however
    large or deep the value. *)
Theorem bounded_json_text_correct (v : json) (limit : nat) : js_strings v ->
  exists full, json_text plainStyle v = Some full
  /\ ((js_length full <= limit)%nat -> boundedJsonText v limit = full)
  /\ ((limit < js_length full)%nat -> units (boundedJsonText v limit) = take limit (units full) ++ units TRUNCATED)
  /\ (js_length (boundedJsonText v limit) <= limit + js_length TRUNCATED)%nat.
Proof.
  intros Hv. destruct (json_text_bounded limit v Hv) as (a & b & Ha & Hb & Hca & Hcb & Hab).
  pose proof (jsonTextPieces_text (boundedStyle limit) v) as Hp. rewrite Ha in Hp. destruct Hp as (ps & Hps & Hcat).
  pose proof (pieces_complete (boundedStyle limit) (bounded_leaf_complete limit) (fun k Hk => proj1 (cut_quote_same limit k Hk)) v Hv) as Hall.
  assert (Heq : boundedJsonText v limit = boundedText b limit).
  { unfold boundedJsonText. rewrite Hps in *. cbn [fst] in *. rewrite bounded_loop_text; [|done|apply complete_empty|apply Nat.le_0_l].
    rewrite Hcat. by apply same_upto_bounded. }
  assert (Hcut : (limit < js_length b)%nat -> units (boundedJsonText v limit) = take limit (units b) ++ units TRUNCATED).
  { intros Hl. rewrite Heq. unfold boundedText, truncatedText. rewrite (proj2 (Nat.ltb_lt _ _) Hl).
    unfold slice. destruct (complete_js (of_units (take limit (units b)))) as [_ ->]; [exists (take limit (units b)); split; [apply Forall_take, Hcb|done]|].
    by rewrite units_of_units by apply Forall_take, Hcb. }
  exists b. split; [done|]. split_and!.
  - intros Hl. rewrite Heq. unfold boundedText. by rewrite (proj2 (Nat.ltb_ge _ _) Hl).
  - exact Hcut.
  - destruct (decide (limit < js_length b)%nat) as [Hl|Hl].
    + unfold js_length at 1. rewrite (Hcut Hl), length_app, length_take. unfold js_length. lia.
    + rewrite Heq. unfold boundedText. rewrite (proj2 (Nat.ltb_ge _ _)) by lia. lia.
Qed.

(** A smile, cut in two by the limit. *)
Definition demo_smile : json := JArr [JStr (of_units [0x61; 0xd83d; 0xde00; 0x62])].

Lemma bounded_json_text_correct_witness :
  (exists full, json_text plainStyle demo_smile = Some full /\ js_length full = 8%nat
    /\ units (boundedJsonText demo_smile 4) = take 4 (units full) ++ units TRUNCATED)
  /\ units (boundedJsonText demo_smile 4) = [0x5b; 0x22; 0x61; 0xd83d] ++ units TRUNCATED.
Proof.
  split; [|vm_compute; reflexivity].
  destruct (bounded_json_text_correct demo_smile 4) as (full & Hf & _ & Hc & _).
  - split; [|exact I]. exists [0x61; 0xd83d; 0xde00; 0x62]. split; [|reflexivity]. repeat constructor; vm_compute; congruence.
  - assert (Hl : js_length full = 8%nat) by (vm_compute in Hf; injection Hf as <-; vm_compute; reflexivity).
    exists full. split; [exact Hf|]. split; [exact Hl|]. apply Hc. rewrite Hl. lia.
Defined.

(** A surrogate without a partner is quoted as an escape. *)
Example lone_surrogate_escaped : quote_json (of_units [0x61; 0xd83d]) = text (dquote :: chars "a\ud83d" ++ [dquote]).
Proof. vm_compute. reflexivity. Qed.

(** ** Canonical serialization (canonical-json.ts) *)

Definition canonicalLeafText (value : json) : option string :=
  match value with
  | JStr t => Some (quote_json t)
  | JNum (JSOther spelling) =>
      if memb spelling ["Infinity"; "-Infinity"; "NaN"] then None else Some spelling
  | JArr _ | JObj _ => None
  | leaf => Some (nonStringLeafText leaf)
  end.

Definition CANONICAL_STYLE : JsonTextStyle := MkStyle true canonicalLeafText quote_json.

(** The whole text, or the first value JSON cannot represent exactly. *)
Definition canonicalPieces (value : json) : string + JsonTextGap :=
  match jsonTextPieces value CANONICAL_STYLE with
  | (pieces, None) => inl (str_concat pieces)
  | (_, Some gap) => inr gap
  end.

Definition canonicalJsonIfRepresentable (value : json) : option string :=
  match canonicalPieces value with inl t => Some t | inr _ => None end.

(** The iterative writer, which keeps its own work stack instead of recursing, writes
    exactly the recursive rendering of the value: when every leaf has a text its pieces
    join to [json_text], in finitely many turns ([walk_fuel] of them suffice), and when
    some leaf has none it stops with a gap and never reports a complete text; so the
    canonical form exists exactly for the values JSON can represent. *)
Theorem json_writer_correct (style : JsonTextStyle) (v : json) :
  (match json_text style v with
   | Some t => exists ps, jsonTextPieces v style = (ps, None) /\ str_concat ps = t
   | None => exists ps g, jsonTextPieces v style = (ps, Some g)
   end)
  /\ canonicalJsonIfRepresentable v = json_text CANONICAL_STYLE v.
Proof.
  split; [apply jsonTextPieces_text|].
  pose proof (jsonTextPieces_text CANONICAL_STYLE v) as H.
  unfold canonicalJsonIfRepresentable, canonicalPieces.
  destruct (json_text CANONICAL_STYLE v).
  - destruct H as (ps & -> & <-). done.
  - destruct H as (ps & g & ->). done.
Qed.

Example canonical_example :
  canonicalJsonIfRepresentable (JObj [("b", JArr [JNum (JSInt 2); JNum (JSInt 1)]); ("a", JStr "x")])
  = json_text plainStyle (JObj [("a", JStr "x"); ("b", JArr [JNum (JSInt 2); JNum (JSInt 1)])]).
Proof. vm_compute. reflexivity. Qed.

End JsonText.
