(* ===== verification/Parsing.v ===== *)
(** * Total parsers of evidence bytes (src/study-1/src/record-contract/parsing.ts)

    Strict UTF-8 validation by a state machine over the bytes, JSON documents, and JSONL
    lines with their offsets. A [Uint8Array] is the list of its byte values; a decoded
    text is a string of the same bytes. [JSON.parse] is the runtime's and an argument. *)

From S2P Require Import Prelude Utf16 Store JsonText.
From Stdlib Require Strings.Ascii.
Import Json JsonText.
Open Scope Z_scope.

Module Parsing.

(** The bytes of a text, and [decoder.decode] of well-formed bytes. *)
Abbreviation bytes_of := Utf16.bytes_of.
Abbreviation text_of_bytes := Utf16.text_of_bytes.

Inductive JsonParseFailure := invalid_utf8 (byte_offset : Z) | invalid_json (detail : string).

(** ** UTF-8 *)

Record SequenceShape := MkShape { shape_length : Z; secondMin : Z; secondMax : Z }.
Record OpenSequence := MkOpen { shape : SequenceShape; start : Z; consumed : Z }.

Definition threeByteShape (lead : Z) : SequenceShape :=
  if lead =? 0xe0 then MkShape 3 0xa0 0xbf
  else if lead =? 0xed then MkShape 3 0x80 0x9f
  else MkShape 3 0x80 0xbf.

Definition fourByteShape (lead : Z) : SequenceShape :=
  if lead =? 0xf0 then MkShape 4 0x90 0xbf
  else if lead =? 0xf4 then MkShape 4 0x80 0x8f
  else MkShape 4 0x80 0xbf.

Definition sequenceShape (lead : Z) : option SequenceShape :=
  if (lead >=? 0xc2) && (lead <=? 0xdf) then Some (MkShape 2 0x80 0xbf)
  else if (lead >=? 0xe0) && (lead <=? 0xef) then Some (threeByteShape lead)
  else if (lead >=? 0xf0) && (lead <=? 0xf4) then Some (fourByteShape lead)
  else None.

Inductive Advance := closed | opened (o : OpenSequence) | invalid.

Definition startSequence (byte offset : Z) : Advance :=
  if byte <=? 0x7f then closed
  else match sequenceShape byte with
       | None => invalid
       | Some s => opened (MkOpen s offset 1)
       end.

Definition advanceSequence (open : option OpenSequence) (byte offset : Z) : Advance :=
  match open with
  | None => startSequence byte offset
  | Some o =>
      let second := consumed o =? 1 in
      let min := if second then secondMin (shape o) else 0x80 in
      let max := if second then secondMax (shape o) else 0xbf in
      if (byte <? min) || (byte >? max) then invalid
      else let consumed' := consumed o + 1 in
           if consumed' =? shape_length (shape o) then closed else opened (MkOpen (shape o) (start o) consumed')
  end.

(** The loop over [bytes.entries()], from [offset] on. *)
Fixpoint invalid_from (open : option OpenSequence) (offset : Z) (bytes : list Z) : Z :=
  match bytes with
  | [] => match open with None => -1 | Some o => start o end
  | byte :: rest =>
      match advanceSequence open byte offset with
      | invalid => match open with Some o => start o | None => offset end
      | closed => invalid_from None (offset + 1) rest
      | opened o => invalid_from (Some o) (offset + 1) rest
      end
  end.

Definition firstInvalidUtf8Offset (bytes : list Z) : Z := invalid_from None 0 bytes.

Definition decodeUtf8Strict (bytes : list Z) : Result string JsonParseFailure :=
  let invalidAt := firstInvalidUtf8Offset bytes in
  if negb (invalidAt =? -1) then Err (invalid_utf8 invalidAt) else Ok (text_of_bytes bytes).

(** ** Documents *)

Definition is_finite (n : jsnum) : bool :=
  match n with JSInt _ => true | JSOther spelling => negb (memb spelling ["Infinity"; "-Infinity"; "NaN"]) end.

(** [key.replaceAll('~', '~0').replaceAll('/', '~1')] *)
Definition escape_pointer (key : string) : string :=
  text (flat_map (fun c => match Ascii.nat_of_ascii c with
                           | 126 => chars "~0"
                           | 47 => chars "~1"
                           | _ => [c]
                           end%nat) (chars key)).

(** [Object.entries]: array indices are spelled in decimal. *)
Definition entries (container : json) : list (string * json) :=
  match container with
  | JArr items => imap (fun i v => (pretty i, v)) items
  | JObj ms => ms
  | _ => []
  end.

Definition children (container : json) (pointer : string) : list (json * string) :=
  map (fun '(key, v) => (v, pointer +:+ "/" +:+ escape_pointer key)) (entries container).

(** The work list, last pushed first. *)
Fixpoint non_finite_loop (fuel : nat) (pending : list (json * string)) : option string :=
  match fuel, pending with
  | O, _ | _, [] => None
  | S n, (v, pointer) :: rest =>
      if match v with JNum x => negb (is_finite x) | _ => false end then Some pointer
      else non_finite_loop n (rev (children v pointer) ++ rest)
  end.

Fixpoint json_size (v : json) : nat :=
  match v with
  | JArr items => S (sum_list_with json_size items)
  | JObj ms => S (sum_list_with (fun kv => json_size kv.2) ms)
  | _ => 1
  end.

Definition findNonFiniteNumber (root : json) : option string := non_finite_loop (json_size root) [(root, "")].

Section parser.
(** [JSON.parse] of the runtime: the value, or the message of the error it throws. *)
Context (JSON_parse : string -> Result json string).

Definition parseJsonText (t : string) : Result json JsonParseFailure :=
  match JSON_parse t with
  | Err message => Err (invalid_json message)
  | Ok v =>
      match findNonFiniteNumber v with
      | Some overflowAt =>
          Err (invalid_json ("number at JSON pointer " +:+ boundedJsonText (JStr overflowAt) QUOTED_JSON_LIMIT
                             +:+ " overflows a finite double"))
      | None => Ok v
      end
  end.

Definition parseJsonDocument (bytes : list Z) : Result json JsonParseFailure :=
  match decodeUtf8Strict bytes with Err e => Err e | Ok t => parseJsonText t end.

(** ** Lines *)

Record JsonlLine := MkLine { line_number : Z; line_parsed : Result json JsonParseFailure }.
Record JsonlParseReport := MkReport { lines : list JsonlLine; ends_with_newline : bool; decode_error : option Z }.
Record LineSegment := MkSegment { seg_start : Z; seg_bytes : list Z }.

Definition NEWLINE : Z := 0x0a.

(** [bytes.indexOf(NEWLINE)] *)
Fixpoint index_of (byte : Z) (bytes : list Z) : option nat :=
  match bytes with
  | [] => None
  | b :: rest => if b =? byte then Some 0%nat else option_map S (index_of byte rest)
  end.

(** The loop of [lineSegments]: [rest] is [bytes] from [from] on, and [limit] is counted from
    there. The last segment follows the loop. *)
Fixpoint segments_loop (fuel : nat) (from : Z) (rest : list Z) (limit : nat) : list LineSegment :=
  match fuel, index_of NEWLINE rest with
  | S n, Some i =>
      if (i <? limit)%nat
      then MkSegment from (take i rest) :: segments_loop n (from + Z.of_nat i + 1) (drop (S i) rest) (limit - S i)
      else [MkSegment from (take limit rest)]
  | _, _ => [MkSegment from (take limit rest)]
  end.

Definition lineSegments (bytes : list Z) (endsWithNewline : bool) : list LineSegment :=
  match bytes with
  | [] => []
  | _ => segments_loop (length bytes) 0 bytes (if endsWithNewline then length bytes - 1 else length bytes)%nat
  end.

Definition parseLine (segment : LineSegment) : Result json JsonParseFailure :=
  match parseJsonDocument (seg_bytes segment) with
  | Err (invalid_utf8 offset) => Err (invalid_utf8 (seg_start segment + offset))
  | r => r
  end.

Definition endsWithNewline (bytes : list Z) : bool := bool_decide (last bytes = Some NEWLINE).

Definition decode_failure (r : Result json JsonParseFailure) : option Z :=
  match r with Err (invalid_utf8 offset) => Some offset | _ => None end.

Definition parseJsonl (bytes : list Z) : JsonlParseReport :=
  let ends := endsWithNewline bytes in
  let ls := imap (fun i s => MkLine (Z.of_nat i + 1) (parseLine s)) (lineSegments bytes ends) in
  MkReport ls ends (head (omap (fun l => decode_failure (line_parsed l)) ls)).
End parser.

(** ** Well-formed UTF-8 *)

(** The Unicode scalar values and the bytes that encode one. *)
Definition scalar_value (cp : Z) : Prop := 0 <= cp <= 0x10ffff /\ ~ (0xd800 <= cp <= 0xdfff).

Abbreviation utf8_encode := Utf16.utf8_encode.

(** The bytes are the encodings of some scalar values. *)
Definition well_formed (bytes : list Z) : Prop := exists cps, Forall scalar_value cps /\ bytes = flat_map utf8_encode cps.

(** Some scalar value is encoded at the head of the bytes. *)
Definition starts_scalar (bytes : list Z) : Prop := exists cp rest, scalar_value cp /\ bytes = utf8_encode cp ++ rest.

Lemma encode_one cp : utf8_encode cp <> [] .
Proof. unfold utf8_encode. repeat destruct (_ <? _); done. Qed.

(** What the lead and the further bytes of an encoding are. *)
Lemma encoded_bytes cp : scalar_value cp ->
  (0 <= cp < 0x80 /\ utf8_encode cp = [cp])
  \/ exists lead second more s, utf8_encode cp = lead :: second :: more /\ 0x80 <= lead
     /\ sequenceShape lead = Some s /\ shape_length s = 2 + Z.of_nat (length more)
     /\ secondMin s <= second <= secondMax s /\ Forall (fun b => 0x80 <= b <= 0xbf) more.
Proof.
  intros [Hr Hs]. unfold utf8_encode. destruct (Z.ltb_spec cp 0x80); [left; split; [lia|done]|right].
  destruct (Z.ltb_spec cp 0x800).
  { do 4 eexists. split; [done|]. split; [dlia|]. unfold sequenceShape.
    rewrite (proj2 (andb_true_iff _ _)) by dlia. split; [done|]. cbn. split_and!; [done|dlia..|by constructor]. }
  destruct (Z.ltb_spec cp 0x10000).
  { do 3 eexists. exists (threeByteShape (0xe0 + cp / 4096)). split; [done|]. remember (0xe0 + cp / 4096) as lead eqn:El. split; [subst lead; dlia|]. unfold sequenceShape.
    rewrite (proj2 (andb_false_iff (lead >=? 0xc2) _)) by (subst lead; right; dlia).
    rewrite (proj2 (andb_true_iff (lead >=? 0xe0) _)) by (subst lead; dlia). split; [done|].
    unfold threeByteShape. destruct (Z.eqb_spec lead 0xe0); [|destruct (Z.eqb_spec lead 0xed)]; cbn;
      subst lead; (split_and!; [done|dlia..|repeat constructor; dlia]). }
  do 3 eexists. exists (fourByteShape (0xf0 + cp / 262144)). split; [done|]. remember (0xf0 + cp / 262144) as lead eqn:El. split; [subst lead; dlia|]. unfold sequenceShape.
  rewrite (proj2 (andb_false_iff (lead >=? 0xc2) _)) by (subst lead; right; dlia).
  rewrite (proj2 (andb_false_iff (lead >=? 0xe0) _)) by (subst lead; right; dlia).
  rewrite (proj2 (andb_true_iff (lead >=? 0xf0) _)) by (subst lead; dlia). split; [done|].
  unfold fourByteShape. destruct (Z.eqb_spec lead 0xf0); [|destruct (Z.eqb_spec lead 0xf4)]; cbn;
    subst lead; (split_and!; [done|dlia..|repeat constructor; dlia]).
Qed.

(** Continuation bytes close an open sequence. *)
Lemma continued s from more rest : forall n offset,
  2 <= n -> more <> [] -> shape_length s = n + Z.of_nat (length more) -> Forall (fun b => 0x80 <= b <= 0xbf) more ->
  invalid_from (Some (MkOpen s from n)) offset (more ++ rest) = invalid_from None (offset + Z.of_nat (length more)) rest.
Proof.
  induction more as [|b more IH]; intros n offset Hn Hne Hl Hf; [done|]. apply Forall_cons in Hf as [Hb Hf].
  cbn [app invalid_from advanceSequence shape consumed start]. cbn [length] in Hl.
  rewrite (proj2 (Z.eqb_neq n 1)) by lia. rewrite (proj2 (orb_false_iff _ _)) by lia.
  destruct (Z.eqb_spec (n + 1) (shape_length s)) as [E|E].
  - assert (more = []) as -> by (destruct more; [done|cbn [length] in *; lia]). cbn [length app]. f_equal.
  - rewrite IH; [cbn [length]; f_equal; lia|lia|intros ->; cbn [length] in *; lia|lia|done].
Qed.

(** The state machine reads one encoding. *)
Lemma read_encoded offset cp rest : scalar_value cp ->
  invalid_from None offset (utf8_encode cp ++ rest)
  = invalid_from None (offset + Z.of_nat (length (utf8_encode cp))) rest.
Proof.
  intros Hc. destruct (encoded_bytes cp Hc) as [[Hr ->]|(lead & second & more & s & -> & Hlead & Hs & Hl & H2 & Hm)].
  - cbn [app invalid_from advanceSequence length]. unfold startSequence. by rewrite (proj2 (Z.leb_le _ _)) by lia.
  - cbn [app invalid_from advanceSequence]. unfold startSequence. rewrite (proj2 (Z.leb_gt _ _)) by lia. rewrite Hs.
    cbn [shape consumed start]. rewrite Z.eqb_refl, (proj2 (orb_false_iff _ _)) by lia.
    destruct (Z.eqb_spec (1 + 1) (shape_length s)) as [E|E].
    + assert (more = []) as -> by (destruct more; [done|cbn [length] in *; lia]). cbn [length app]. f_equal. lia.
    + rewrite continued; [cbn [length]; f_equal; lia|lia|intros ->; cbn [length] in *; lia|lia|done].
Qed.

(** An answer is -1 or the start of a sequence not yet closed. *)
Lemma invalid_from_range bytes : forall open offset, 0 <= offset ->
  let r := invalid_from open offset bytes in
  r = -1 \/ match open with Some o => r = start o | None => False end \/ offset <= r.
Proof.
  induction bytes as [|b bytes IH]; intros open offset Ho; cbn; [destruct open; auto|].
  destruct (advanceSequence open b offset) as [|o|] eqn:E.
  - destruct (IH None (offset + 1)) as [H|[H|H]]; [lia|by left|done|]. right. right. lia.
  - assert (Hst : start o = match open with Some o' => start o' | None => offset end).
    { destruct open as [o'|]; cbn in E; [|unfold startSequence in E]; repeat case_match; by simplify_eq. }
    destruct (IH (Some o) (offset + 1)) as [H|[H|H]]; [lia|by left| |right; right; lia].
    rewrite Hst in H. right. destruct open; [by left|right; lia].
  - right. destruct open; [by left|right; lia].
Qed.

(** One comparison of the encoder. *)
Ltac case_ltb := match goal with |- context [?a <? ?b] => destruct (Z.ltb_spec a b) end.

(** Encodings are prefix-free: the lead byte fixes the length. *)
Lemma encode_prefix_free cp cp' x y : scalar_value cp -> scalar_value cp' -> utf8_encode cp ++ x = utf8_encode cp' ++ y -> cp = cp' /\ x = y.
Proof.
  intros [H1 _] [H2 _]. unfold utf8_encode. repeat case_ltb; cbn; intros E;
    simplify_list_eq; first [done | exfalso; dlia | split; [dlia|done]].
Qed.

(** A continuation byte closes the sequence, keeps it open, or refuses it at its start. *)
Lemma continue_open s from n offset bytes :
  2 <= n < shape_length s ->
  invalid_from (Some (MkOpen s from n)) offset bytes = from
  \/ exists b rest, bytes = b :: rest /\ 0x80 <= b <= 0xbf
     /\ invalid_from (Some (MkOpen s from n)) offset bytes
        = invalid_from (if n + 1 =? shape_length s then None else Some (MkOpen s from (n + 1))) (offset + 1) rest.
Proof.
  intros Hn. destruct bytes as [|b rest]; cbn; [by left|]. rewrite (proj2 (Z.eqb_neq n 1)) by lia.
  destruct ((b <? 0x80) || (b >? 0xbf)) eqn:E; [by left|]. right. exists b, rest. split; [done|]. split; [lia|].
  by destruct (_ =? _).
Qed.

(** The first two bytes of a longer sequence. *)
Lemma open_two offset lead s bytes :
  0x80 <= lead -> sequenceShape lead = Some s ->
  invalid_from None offset (lead :: bytes) = offset
  \/ exists b rest, bytes = b :: rest /\ secondMin s <= b <= secondMax s
     /\ invalid_from None offset (lead :: bytes)
        = invalid_from (if 2 =? shape_length s then None else Some (MkOpen s offset 2)) (offset + 2) rest.
Proof.
  intros Hl Hs. cbn [invalid_from advanceSequence]. unfold startSequence. rewrite (proj2 (Z.leb_gt _ _)) by lia. rewrite Hs.
  destruct bytes as [|b rest]; [by left|]. cbn [invalid_from advanceSequence shape start consumed]. rewrite Z.eqb_refl.
  destruct ((b <? secondMin s) || (b >? secondMax s)) eqn:E; [by left|]. right. exists b, rest. split; [done|]. split; [lia|].
  change (1 + 1) with 2. replace (offset + 1 + 1) with (offset + 2) by lia. by destruct (_ =? _).
Qed.

(** Bytes of these shapes encode a scalar value. *)
Lemma two_bytes lead b rest : 0xc2 <= lead <= 0xdf -> 0x80 <= b <= 0xbf -> starts_scalar (lead :: b :: rest).
Proof.
  intros Hl Hb. exists ((lead - 0xc0) * 64 + (b - 0x80)), rest. split; [unfold scalar_value; lia|]. unfold utf8_encode.
  rewrite (proj2 (Z.ltb_ge _ 0x80)), (proj2 (Z.ltb_lt _ 0x800)) by lia. cbn. repeat f_equal; dlia.
Qed.

Lemma three_bytes lead b c rest :
  0xe0 <= lead <= 0xef -> secondMin (threeByteShape lead) <= b <= secondMax (threeByteShape lead) -> 0x80 <= c <= 0xbf ->
  starts_scalar (lead :: b :: c :: rest).
Proof.
  intros Hl Hb Hc. exists ((lead - 0xe0) * 4096 + (b - 0x80) * 64 + (c - 0x80)), rest. unfold threeByteShape in Hb.
  destruct (Z.eqb_spec lead 0xe0), (Z.eqb_spec lead 0xed); cbn in Hb; (split; [unfold scalar_value; lia|]); unfold utf8_encode;
    (rewrite (proj2 (Z.ltb_ge _ 0x80)), (proj2 (Z.ltb_ge _ 0x800)), (proj2 (Z.ltb_lt _ 0x10000)) by lia);
    cbn; repeat f_equal; dlia.
Qed.

Lemma four_bytes lead b c d rest :
  0xf0 <= lead <= 0xf4 -> secondMin (fourByteShape lead) <= b <= secondMax (fourByteShape lead) ->
  0x80 <= c <= 0xbf -> 0x80 <= d <= 0xbf -> starts_scalar (lead :: b :: c :: d :: rest).
Proof.
  intros Hl Hb Hc Hd. exists ((lead - 0xf0) * 262144 + (b - 0x80) * 4096 + (c - 0x80) * 64 + (d - 0x80)), rest. unfold fourByteShape in Hb.
  destruct (Z.eqb_spec lead 0xf0), (Z.eqb_spec lead 0xf4); cbn in Hb; (split; [unfold scalar_value; lia|]); unfold utf8_encode;
    (rewrite (proj2 (Z.ltb_ge _ 0x80)), (proj2 (Z.ltb_ge _ 0x800)), (proj2 (Z.ltb_ge _ 0x10000)) by lia);
    cbn; repeat f_equal; dlia.
Qed.

(** Bytes that are not refused at once start with a scalar value. *)
Lemma read_or_refused offset bytes :
  0 <= offset -> Forall (fun b => 0 <= b) bytes -> bytes <> [] ->
  invalid_from None offset bytes = offset \/ starts_scalar bytes.
Proof.
  intros Ho Hf Hne. destruct bytes as [|lead bytes]; [done|]. apply Forall_cons in Hf as [Hlead _].
  destruct (Z.leb_spec lead 0x7f) as [Hl|Hl].
  { right. exists lead, bytes. split; [unfold scalar_value; lia|]. unfold utf8_encode. by rewrite (proj2 (Z.ltb_lt _ _)) by lia. }
  destruct (sequenceShape lead) as [s|] eqn:Es.
  2: { left. cbn. unfold startSequence. by rewrite (proj2 (Z.leb_gt _ _)), Es by lia. }
  destruct (open_two offset lead s bytes) as [H|(b & r1 & -> & Hb & ->)]; [lia|done|by left|].
  unfold sequenceShape in Es.
  destruct (_ && _) eqn:E2 in Es; [injection Es as <-; cbn in *; right; apply two_bytes; lia|].
  destruct (_ && _) eqn:E3 in Es.
  { injection Es as <-. assert (Hn : shape_length (threeByteShape lead) = 3) by (unfold threeByteShape; by repeat destruct (_ =? _)).
    rewrite Hn. destruct (continue_open (threeByteShape lead) offset 2 (offset + 2) r1) as [H|(c & r2 & -> & Hc & _)]; [lia|by left|].
    right. apply three_bytes; [lia|done|done]. }
  destruct (_ && _) eqn:E4 in Es; [|done]. injection Es as <-.
  assert (Hn : shape_length (fourByteShape lead) = 4) by (unfold fourByteShape; by repeat destruct (_ =? _)).
  rewrite Hn. destruct (continue_open (fourByteShape lead) offset 2 (offset + 2) r1) as [H|(c & r2 & -> & Hc & E)]; [lia|by left|].
  rewrite Hn in E. change (2 =? 4) with false. change (2 + 1 =? 4) with false in E. cbv iota in E |- *. rewrite E.
  destruct (continue_open (fourByteShape lead) offset (2 + 1) (offset + 2 + 1) r2) as [H|(d & r3 & -> & Hd & _)]; [lia|by left|].
  right. apply four_bytes; [lia|done..].
Qed.

Lemma starts_scalar_read offset bytes : 0 <= offset -> starts_scalar bytes -> invalid_from None offset bytes <> offset.
Proof.
  intros Ho (cp & rest & Hc & ->). rewrite read_encoded by done.
  assert (0 < Z.of_nat (length (utf8_encode cp))).
  { pose proof (encode_one cp). destruct (utf8_encode cp); cbn [length]; [done|lia]. }
  destruct (invalid_from_range rest None (offset + Z.of_nat (length (utf8_encode cp)))) as [H1|[H1|H1]]; [lia|lia|done|lia].
Qed.

(** What the answer of the loop means, from any offset. *)
Lemma invalid_from_correct : forall n bytes offset, (length bytes < n)%nat -> 0 <= offset -> Forall (fun b => 0 <= b) bytes ->
  let r := invalid_from None offset bytes in
  (r = -1 /\ well_formed bytes)
  \/ exists before after, bytes = before ++ after /\ r = offset + Z.of_nat (length before) /\ well_formed before
     /\ after <> [] /\ ~ starts_scalar after.
Proof.
  induction n as [|n IH]; intros bytes offset Hn Ho Hf; [lia|]. cbv zeta.
  destruct (decide (bytes = [])) as [->|Hne]; [left; split; [done|]; by exists []|].
  destruct (read_or_refused offset bytes Ho Hf Hne) as [E|(cp & rest & Hc & ->)].
  { right. exists [], bytes. cbn. rewrite E. split_and!; [done|lia|by exists []|done|].
    intros Hs. by apply (starts_scalar_read offset bytes). }
  rewrite read_encoded by done. rewrite length_app in Hn. apply Forall_app in Hf as [_ Hf].
  assert (Hl : (0 < length (utf8_encode cp))%nat) by (pose proof (encode_one cp); destruct (utf8_encode cp); cbn; [done|lia]).
  destruct (IH rest (offset + Z.of_nat (length (utf8_encode cp)))) as [[-> (cps & H1 & ->)]|(before & after & -> & -> & (cps & H1 & ->) & Ha & Hs)];
    [lia|lia|done|left|right].
  - split; [done|]. exists (cp :: cps). split; [by constructor|done].
  - exists (utf8_encode cp ++ flat_map utf8_encode cps), after. rewrite <-app_assoc, length_app. split_and!; [done|lia| |done..].
    exists (cp :: cps). split; [by constructor|done].
Qed.

(** Encodings are read off one by one. *)
Lemma encoding_prefix cps cps' after :
  Forall scalar_value cps -> Forall scalar_value cps' -> flat_map utf8_encode cps ++ after = flat_map utf8_encode cps' ->
  exists more, Forall scalar_value more /\ after = flat_map utf8_encode more.
Proof.
  revert cps'. induction cps as [|cp cps IH]; intros cps' Hc Hc' E; [by exists cps'|].
  apply Forall_cons in Hc as [Hc Hcs]. destruct cps' as [|cp' cps'].
  { cbn in E. pose proof (encode_one cp). destruct (utf8_encode cp); [done|discriminate E]. }
  apply Forall_cons in Hc' as [Hc' Hcs']. cbn in E. rewrite <-app_assoc in E.
  apply encode_prefix_free in E as [-> E]; [|done..]. by eapply IH.
Qed.

Lemma bytes_nonneg s : Forall (fun b => 0 <= b) (bytes_of s).
Proof. unfold bytes_of. apply Forall_fmap, Forall_forall. intros c _. apply Utf16.byte_range. Qed.

(** Decoding the bytes of a text gives it back. *)
Lemma text_of_bytes_of s : text_of_bytes (bytes_of s) = s.
Proof.
  unfold text_of_bytes, bytes_of. rewrite map_map. rewrite (map_ext _ id); [by rewrite map_id, text_chars|].
  apply Utf16.char_of_byte.
Qed.

Lemma utf8_decides (s : string) :
  (firstInvalidUtf8Offset (bytes_of s) = -1 <-> well_formed (bytes_of s))
  /\ (firstInvalidUtf8Offset (bytes_of s) <> -1 -> exists before after, bytes_of s = before ++ after
        /\ firstInvalidUtf8Offset (bytes_of s) = Z.of_nat (length before) /\ well_formed before /\ after <> [] /\ ~ starts_scalar after).
Proof.
  unfold firstInvalidUtf8Offset.
  destruct (invalid_from_correct (S (length (bytes_of s))) (bytes_of s) 0) as [[-> H]|(before & after & E & -> & H)];
    [lia|lia|apply bytes_nonneg|done|].
  split; [|by exists before, after]. split; [lia|]. intros (cps & Hc & E'). exfalso.
  destruct H as ((cps0 & Hc0 & ->) & Ha & Hs). rewrite E in E'. apply (encoding_prefix cps0 cps) in E'; try done.
  destruct E' as (more & Hm & ->). destruct more as [|cp more]; [done|]. apply Hs. exists cp, (flat_map utf8_encode more).
  split; [by inversion Hm|done].
Qed.

(** C29: The validator decides UTF-8. It answers -1 exactly when the bytes are the encodings of
    Unicode scalar values, and otherwise the offset at which a well-formed prefix ends and
    no scalar value's encoding follows: overlongs, surrogates, values above U+10FFFF and
    truncated sequences are all refused, and at their first byte. *)
Theorem utf8_validation_correct (s : string) :
  let bytes := bytes_of s in
  let r := firstInvalidUtf8Offset bytes in
  (r = -1 <-> well_formed bytes)
  /\ (r <> -1 -> exists before after, bytes = before ++ after /\ r = Z.of_nat (length before) /\ well_formed before
                 /\ after <> [] /\ ~ starts_scalar after).
Proof.
  apply utf8_decides.
Qed.
(** ** Lines *)

Fixpoint join_lines (ls : list (list Z)) : list Z :=
  match ls with
  | [] => []
  | [l] => l
  | l :: rest => l ++ (NEWLINE :: join_lines rest)
  end.

Lemma index_of_correct byte bytes :
  match index_of byte bytes with
  | Some i => exists rest, bytes = take i bytes ++ (byte :: rest) /\ drop (S i) bytes = rest /\ byte ∉ take i bytes /\ (i < length bytes)%nat
  | None => byte ∉ bytes
  end.
Proof.
  induction bytes as [|b bytes IH]; cbn [index_of]; [set_solver|]. destruct (Z.eqb_spec b byte) as [->|Hne].
  - exists bytes. cbn. split_and!; [done|done|set_solver|lia].
  - destruct (index_of byte bytes) as [i|]; cbn [option_map]; [|set_solver].
    destruct IH as (rest & E & Hd & Hn & Hl). exists rest. cbn [take drop app length]. split_and!; [by f_equal|done|set_solver|lia].
Qed.

Lemma take_not_in (byte : Z) n bytes : byte ∉ bytes -> byte ∉ take n bytes.
Proof. intros H Hin. apply H. eapply elem_of_take in Hin as (i & Hi & _). by eapply list_elem_of_lookup_2. Qed.

(** The loop cuts the bytes below its limit at their newlines. *)
Lemma segments_loop_correct : forall fuel from rest limit, (length rest <= fuel)%nat -> (limit <= length rest)%nat ->
  let segs := segments_loop fuel from rest limit in
  segs <> [] /\ join_lines (map seg_bytes segs) = take limit rest /\ Forall (fun s => NEWLINE ∉ seg_bytes s) segs
  /\ Forall (fun s => exists before after, rest = before ++ seg_bytes s ++ after /\ seg_start s = from + Z.of_nat (length before)) segs.
Proof.
  assert (Hlast : forall from rest limit, NEWLINE ∉ take limit rest ->
    let segs := [MkSegment from (take limit rest)] in
    segs <> [] /\ join_lines (map seg_bytes segs) = take limit rest /\ Forall (fun s => NEWLINE ∉ seg_bytes s) segs
    /\ Forall (fun s => exists before after, rest = before ++ seg_bytes s ++ after /\ seg_start s = from + Z.of_nat (length before)) segs).
  { intros from rest limit H. cbn. split_and!; [done|done|by repeat constructor|]. constructor; [|constructor].
    exists [], (drop limit rest). cbn. rewrite take_drop. split; [done|lia]. }
  induction fuel as [|fuel IH]; intros from rest limit Hf Hl.
  { destruct rest; [|cbn in Hf; lia]. apply Hlast. rewrite take_nil. set_solver. }
  cbn [segments_loop]. pose proof (index_of_correct NEWLINE rest) as Hi. destruct (index_of NEWLINE rest) as [i|].
  2: { apply Hlast. by apply take_not_in. }
  destruct Hi as (tail & E & Hd & Hn & Hlt). destruct (Nat.ltb_spec i limit) as [Hil|Hil].
  2: { apply Hlast. intros Hin. apply Hn. replace (take limit rest) with (take limit (take i rest)) in Hin by (rewrite take_take; f_equal; lia).
       eapply elem_of_take in Hin as (j & Hj & _). by eapply list_elem_of_lookup_2. }
  assert (Hlen : length (take i rest) = i) by (rewrite length_take; lia).
  assert (Htail : length rest = (i + S (length tail))%nat) by (rewrite E at 1; rewrite length_app, Hlen; done).
  rewrite Hd. destruct (IH (from + Z.of_nat i + 1) tail (limit - S i)%nat) as (Hne & Hj & HF & Hp); [lia|lia|].
  split_and!; [done| | |].
  - cbn [map join_lines seg_bytes]. destruct (segments_loop _ _ _ _) as [|s segs] eqn:Es; [done|]. cbn [map] in *.
    rewrite Hj. rewrite E at 2. rewrite take_app, Hlen. replace (limit - i)%nat with (S (limit - S i)) by lia. cbn [take].
    f_equal. by rewrite take_take, Nat.min_r by lia.
  - by constructor.
  - constructor.
    + exists [], (NEWLINE :: tail). cbn. split; [done|lia].
    + eapply Forall_impl; [exact Hp|]. intros s (before & after & -> & Hs). exists (take i rest ++ NEWLINE :: before), after.
      split; [rewrite <-app_assoc; exact E|]. rewrite length_app, Hlen. cbn [length]. lia.
Qed.

(** JSONL segmentation loses nothing. The segments of any bytes hold no newline, joined by
    newlines (and closed by one when the bytes end so) they are the bytes, and each starts
    at the offset it names; empty bytes have no line, and a final newline starts none. *)
Theorem jsonl_segments_lossless (bytes : list Z) :
  let segs := lineSegments bytes (endsWithNewline bytes) in
  join_lines (map seg_bytes segs) ++ (if endsWithNewline bytes then [NEWLINE] else []) = bytes
  /\ Forall (fun s => NEWLINE ∉ seg_bytes s) segs
  /\ Forall (fun s => exists before after, bytes = before ++ seg_bytes s ++ after /\ seg_start s = Z.of_nat (length before)) segs
  /\ (segs = [] <-> bytes = []).
Proof.
  cbv zeta. unfold lineSegments. destruct bytes as [|b rest] eqn:Eb; [by repeat constructor|]. rewrite <-Eb.
  set (limit := (if endsWithNewline bytes then length bytes - 1 else length bytes)%nat).
  destruct (segments_loop_correct (length bytes) 0 bytes limit) as (H1 & H2 & H3 & H4); [done|subst limit; destruct (endsWithNewline _); lia|].
  split_and!; [|done|exact H4|by split; [|subst bytes]].
  rewrite H2. subst limit. unfold endsWithNewline. case_bool_decide as E; [|by rewrite app_nil_r, firstn_all].
  apply last_Some in E as [before ->]. rewrite length_app. cbn [length]. replace (length before + 1 - 1)%nat with (length before) by lia.
  by rewrite take_app_length.
Qed.

(** ** Finite numbers *)

(** Every number in the value is finite. *)
Fixpoint all_finite (v : json) : bool :=
  match v with
  | JNum n => is_finite n
  | JArr items => forallb all_finite items
  | JObj ms => forallb (fun kv => all_finite kv.2) ms
  | _ => true
  end.

Lemma children_values v pointer : map fst (children v pointer) = map snd (entries v).
Proof. unfold children. rewrite map_map. apply map_ext. by intros [k x]. Qed.

Lemma entries_values v : map snd (entries v) = match v with JArr items => items | JObj ms => map snd ms | _ => [] end.
Proof. destruct v; try done. cbn.
  change (imap _ items) with (imap (fun i v => ((fun i : nat => pretty i) i, v)) items). generalize (fun i : nat => pretty i). induction items as [|x items IH]; intros f; cbn; [done|]. f_equal. exact (IH (fun i => f (S i))). Qed.

Lemma size_children v : json_size v = S (sum_list_with json_size (map snd (entries v))).
Proof. rewrite entries_values. destruct v as [| | | |items|ms]; try done. cbn. f_equal. induction ms as [|[k x] ms IH]; cbn; [done|]. by rewrite IH. Qed.

Lemma finite_children v : all_finite v = match v with JNum n => is_finite n | _ => forallb all_finite (map snd (entries v)) end.
Proof. rewrite entries_values. destruct v as [| | | |items|ms]; try done. cbn. induction ms as [|[k x] ms IH]; cbn; [done|]. by rewrite IH. Qed.

Lemma sum_map_fst (l : list (json * string)) : sum_list_with (fun p => json_size p.1) l = sum_list_with json_size (map fst l).
Proof. induction l as [|[v p] l IH]; cbn; [done|]. by rewrite IH. Qed.

Lemma forallb_perm {A} (f : A -> bool) l l' : Permutation l l' -> forallb f l = forallb f l'.
Proof. induction 1; cbn; try congruence. destruct (f x), (f y); done. Qed.

Lemma sum_perm {A} (f : A -> nat) l l' : Permutation l l' -> sum_list_with f l = sum_list_with f l'.
Proof. induction 1; cbn; lia. Qed.

Lemma non_finite_loop_correct : forall fuel pending, (sum_list_with (fun p => json_size p.1) pending <= fuel)%nat ->
  non_finite_loop fuel pending = None <-> forallb all_finite (map fst pending) = true.
Proof.
  induction fuel as [|fuel IH]; intros [|[v pointer] rest] Hf; try done.
  { exfalso. cbn in Hf. destruct v; cbn in Hf; lia. }
  cbn [non_finite_loop map fst forallb]. cbn [sum_list_with fst] in Hf.
  assert (Hkids : forallb all_finite (map fst (rev (children v pointer) ++ rest)) = forallb all_finite (map snd (entries v)) && forallb all_finite (map fst rest)).
  { rewrite map_app, forallb_app. f_equal. rewrite map_rev. rewrite (forallb_perm _ _ _ (Permutation_sym (Permutation_rev _))). by rewrite children_values. }
  assert (Hsize : (sum_list_with (fun p => json_size p.1) (rev (children v pointer) ++ rest) <= fuel)%nat).
  { rewrite sum_list_with_app, (sum_perm _ _ _ (Permutation_sym (Permutation_rev _))), sum_map_fst, children_values.
    rewrite size_children in Hf. lia. }
  rewrite finite_children. destruct v as [| |n| | |]; cbn [negb]; try (rewrite IH by done; by rewrite Hkids).
  destruct (is_finite n); cbn [negb andb]; [rewrite IH by done; by rewrite Hkids|done].
Qed.

(** What a parsed document is. *)
Lemma parseJsonDocument_ok JSON_parse (s : string) (v : json) :
  parseJsonDocument JSON_parse (bytes_of s) = Ok v <->
  well_formed (bytes_of s) /\ JSON_parse s = Ok v /\ all_finite v = true.
Proof.
  unfold parseJsonDocument, decodeUtf8Strict. pose proof (utf8_decides s) as Hu.
  destruct (Z.eqb_spec (firstInvalidUtf8Offset (bytes_of s)) (-1)) as [E|E]; cbn [negb].
  - rewrite text_of_bytes_of. unfold parseJsonText, findNonFiniteNumber.
    assert (Hw : well_formed (bytes_of s)) by tauto. destruct (JSON_parse s) as [x|e]; [|naive_solver].
    pose proof (non_finite_loop_correct (json_size x) [(x, "")]) as Hn. cbn in Hn. rewrite andb_true_r in Hn.
    destruct (non_finite_loop _ _); [|naive_solver lia].
    split; [done|]. intros (_ & [= ->] & Hf). apply Hn in Hf; [done|lia].
  - split; [done|]. intros (Hw & _). tauto.
Qed.

(** A parsed document is a finite JSON value. Whatever [JSON.parse] answers, the document
    parser gives a value only if the bytes are UTF-8, the runtime parses their text to that
    value and every number in it is finite at any depth; its work list ends within as many
    turns as the value has parts. *)
Theorem parsed_document_finite JSON_parse (s : string) (v : json) :
  parseJsonDocument JSON_parse (bytes_of s) = Ok v <->
  well_formed (bytes_of s) /\ JSON_parse s = Ok v /\ all_finite v = true.
Proof. apply parseJsonDocument_ok. Qed.

End Parsing.
