(* ===== verification/LeaseItem.v ===== *)
(** * The lease item (src/study-1/src/coordination-lease/lease-item.ts)

    The one lease item of a study: its typed form, the total decoder of the
    untrusted stored form, and the stored form of an acquisition. Instants are
    epoch milliseconds; their stored form is [Utc.toISOString]. *)

From S2P Require Import Prelude Timestamps Store JsonText.
Import Json Store Utc Identifiers JsonText.
Open Scope Z_scope.

Module LeaseItem.

Definition COORDINATION_SCHEMA_VERSION : Z := 1.
Definition LEASE_ITEM_KEY : ItemKey := MkKey "lease#study-1" "current".

Inductive LeaseItemStatus := HELD | RELEASED | RECOVERY_REQUIRED.
#[export] Instance LeaseItemStatus_eq_dec : EqDecision LeaseItemStatus.
Proof. solve_decision. Defined.

Inductive ExecutionKind := RUN | TRANSPORT_PROBE | VARIANT_VALIDATION.
#[export] Instance ExecutionKind_eq_dec : EqDecision ExecutionKind.
Proof. solve_decision. Defined.

Definition status_text (s : LeaseItemStatus) : string :=
  match s with HELD => "HELD" | RELEASED => "RELEASED" | RECOVERY_REQUIRED => "RECOVERY_REQUIRED" end.
Definition status_of (s : string) : option LeaseItemStatus :=
  find_first (fun x => bool_decide (status_text x = s)) [HELD; RELEASED; RECOVERY_REQUIRED].

Definition kind_text (k : ExecutionKind) : string :=
  match k with RUN => "RUN" | TRANSPORT_PROBE => "TRANSPORT_PROBE" | VARIANT_VALIDATION => "VARIANT_VALIDATION" end.
Definition kind_of (s : string) : option ExecutionKind :=
  find_first (fun x => bool_decide (kind_text x = s)) [RUN; TRANSPORT_PROBE; VARIANT_VALIDATION].

Definition LEASE_STALE_BOUNDARY_MS : Z := 300000.
Definition LEASE_RULE : string := "BR-RUA-045".

(** LEASE_REASON_CODES *)
Definition code_conflict : string := "LEASE_CONFLICT".
Definition code_itemAbsent : string := "LEASE_ITEM_ABSENT".
Definition code_itemUndecodable : string := "LEASE_ITEM_UNDECODABLE".
Definition code_readFailed : string := "LEASE_READ_FAILED".
Definition code_writeRejected : string := "LEASE_WRITE_REJECTED".
Definition code_writeAmbiguous : string := "LEASE_WRITE_AMBIGUOUS".
Definition code_ownershipMismatch : string := "LEASE_OWNERSHIP_MISMATCH".
Definition code_stale : string := "LEASE_STALE".

Record LeaseOwner := MkOwner {
  owner_kind : ExecutionKind;
  owner_id : string;
  owner_manifest_sha256 : string;
}.
#[export] Instance LeaseOwner_eq_dec : EqDecision LeaseOwner.
Proof. solve_decision. Defined.

(** The key and the schema version are constants of every decoded item. *)
Record LeaseItem := MkItem {
  item_owner : LeaseOwner;
  lease_status : LeaseItemStatus;
  lease_version : Z;
  acquired_at : Z;
  heartbeat_at : Z;
  expires_at : Z;
  updated_at : Z;
}.
#[export] Instance LeaseItem_eq_dec : EqDecision LeaseItem.
Proof. solve_decision. Defined.

Definition leaseReason (c d : string) : StructuredReason := reason c LEASE_RULE d.

(** ** Decoding *)

Definition is_str (p : string -> bool) (v : json) : bool := match v with JStr s => p s | _ => false end.

Definition is_positive_safe (v : json) : bool :=
  match v with JNum (JSInt z) => is_safe_integer z && (z >=? 1) | _ => false end.

Definition INSTANT_EXPECTATION : string := "a UTC instant YYYY-MM-DDTHH:mm:ss.SSSZ".

(** MEMBER_CHECKS and MEMBER_EXPECTATIONS, in member order. *)
Definition MEMBER_CHECKS : list (string * (json -> bool) * string) :=
  [ ("pk", is_str (fun s => bool_decide (s = pk LEASE_ITEM_KEY)), quoted (pk LEASE_ITEM_KEY));
    ("sk", is_str (fun s => bool_decide (s = sk LEASE_ITEM_KEY)), quoted (sk LEASE_ITEM_KEY));
    ("coordination_schema_version",
       (fun v => match v with JNum (JSInt z) => z =? COORDINATION_SCHEMA_VERSION | _ => false end),
       string_of_Z COORDINATION_SCHEMA_VERSION);
    ("lease_status", is_str (fun s => bool_decide (is_Some (status_of s))),
       "one of HELD, RELEASED, RECOVERY_REQUIRED");
    ("owner_kind", is_str (fun s => bool_decide (is_Some (kind_of s))),
       "one of RUN, TRANSPORT_PROBE, VARIANT_VALIDATION");
    ("owner_id", is_str isUuid4, "a lowercase UUIDv4");
    ("owner_manifest_sha256", is_str isSha256Hex, "64 lowercase hex digits");
    ("lease_version", is_positive_safe, "a positive safe integer");
    ("acquired_at", is_str isUtcMillis, INSTANT_EXPECTATION);
    ("heartbeat_at", is_str isUtcMillis, INSTANT_EXPECTATION);
    ("expires_at", is_str isUtcMillis, INSTANT_EXPECTATION);
    ("updated_at", is_str isUtcMillis, INSTANT_EXPECTATION) ].

Definition MEMBERS : list string := map (fun m => m.1.1) MEMBER_CHECKS.

Definition undecodable (d : string) : StructuredReason := leaseReason code_itemUndecodable ("lease item " +:+ d).

(** The loop over the members: the first defect, if any. *)
Fixpoint first_defect (item : StoredItem) (checks : list (string * (json -> bool) * string)) : option string :=
  match checks with
  | [] => None
  | (name, check, expectation) :: rest =>
      if match member name item with Some v => check v | None => false end
      then first_defect item rest
      else Some ("member " +:+ name +:+ " is " +:+ describeJson (member name item) +:+ "; expected " +:+ expectation)
  end.

(** [item as LeaseItem]: the typed reading of a checked item. *)
Definition instant (v : option json) : option Z :=
  match v with Some (JStr s) => Date_parse s | _ => None end.

Definition typed_item (item : StoredItem) : option LeaseItem :=
  match as_string (member "owner_kind" item) ≫= kind_of, as_string (member "owner_id" item),
        as_string (member "owner_manifest_sha256" item), as_string (member "lease_status" item) ≫= status_of,
        as_safe_integer (member "lease_version" item) with
  | Some k, Some id, Some sha, Some st, Some v =>
      match instant (member "acquired_at" item), instant (member "heartbeat_at" item),
            instant (member "expires_at" item), instant (member "updated_at" item) with
      | Some a, Some h, Some e, Some u => Some (MkItem (MkOwner k id sha) st v a h e u)
      | _, _, _, _ => None
      end
  | _, _, _, _, _ => None
  end.

Definition decodeLeaseItem (item : StoredItem) : Result LeaseItem StructuredReason :=
  match find_first (fun name => negb (memb name MEMBERS)) (map fst item) with
  | Some unknown =>
      Err (undecodable ("unknown member " +:+ describeJson (Some (JStr unknown))
                        +:+ "; expected only " +:+ str_join ", " MEMBERS))
  | None =>
      match first_defect item MEMBER_CHECKS with
      | Some defect => Err (undecodable defect)
      | None =>
          match typed_item item with
          | Some i => Ok i
          | None => Err (undecodable "checked item without a typed reading")
          end
      end
  end.

(** ** Ownership and construction *)

Definition isOwnedBy (item : LeaseItem) (owner : LeaseOwner) : bool :=
  bool_decide (owner_kind (item_owner item) = owner_kind owner)
  && bool_decide (owner_id (item_owner item) = owner_id owner)
  && bool_decide (owner_manifest_sha256 (item_owner item) = owner_manifest_sha256 owner).

Definition isLeaseAvailable (item : option LeaseItem) : bool :=
  match item with None => true | Some i => bool_decide (lease_status i = RELEASED) end.

(** [formatUtcMillis] of an instant, as the instant it renders. *)
Definition format_instant (ms : Z) : Result Z js_error :=
  match formatUtcMillis (Date ms) with Ok _ => Ok ms | Err e => Err e end.

Definition leaseExpiry (at_ : Z) : Result Z js_error := format_instant (at_ + LEASE_STALE_BOUNDARY_MS).

Definition acquiredLeaseItem (owner : LeaseOwner) (at_ : Z) : Result LeaseItem js_error :=
  let! expiry := leaseExpiry at_ in Ok (MkItem owner HELD 1 at_ at_ expiry at_).

Definition toStoredItem (i : LeaseItem) : StoredItem :=
  [ ("pk", JStr (pk LEASE_ITEM_KEY));
    ("sk", JStr (sk LEASE_ITEM_KEY));
    ("coordination_schema_version", JNum (JSInt COORDINATION_SCHEMA_VERSION));
    ("lease_status", JStr (status_text (lease_status i)));
    ("owner_kind", JStr (kind_text (owner_kind (item_owner i))));
    ("owner_id", JStr (owner_id (item_owner i)));
    ("owner_manifest_sha256", JStr (owner_manifest_sha256 (item_owner i)));
    ("lease_version", JNum (JSInt (lease_version i)));
    ("acquired_at", JStr (toISOString (acquired_at i)));
    ("heartbeat_at", JStr (toISOString (heartbeat_at i)));
    ("expires_at", JStr (toISOString (expires_at i)));
    ("updated_at", JStr (toISOString (updated_at i))) ].

Definition describeHolder (i : LeaseItem) : string :=
  kind_text (owner_kind (item_owner i)) +:+ " " +:+ owner_id (item_owner i) +:+ " (manifest "
  +:+ owner_manifest_sha256 (item_owner i) +:+ ") " +:+ status_text (lease_status i) +:+ " at version "
  +:+ string_of_Z (lease_version i) +:+ ", expires_at " +:+ toISOString (expires_at i).

(** ** Well-formed items *)

Definition wf_owner (o : LeaseOwner) : Prop :=
  isUuid4 (owner_id o) = true /\ isSha256Hex (owner_manifest_sha256 o) = true.

Definition wf_item (i : LeaseItem) : Prop :=
  wf_owner (item_owner i) /\ 1 <= lease_version i <= MAX_SAFE_INTEGER
  /\ in_utc_range (acquired_at i) /\ in_utc_range (heartbeat_at i)
  /\ in_utc_range (expires_at i) /\ in_utc_range (updated_at i).

Lemma status_of_text s : status_of (status_text s) = Some s.
Proof. by destruct s. Qed.
Lemma kind_of_text k : kind_of (kind_text k) = Some k.
Proof. by destruct k. Qed.

Lemma isOwnedBy_true i o : isOwnedBy i o = true <-> item_owner i = o.
Proof.
  unfold isOwnedBy. rewrite !andb_true_iff, !bool_decide_eq_true.
  destruct (item_owner i), o; simpl. naive_solver.
Qed.

Lemma format_instant_ok ms z : format_instant ms = Ok z <-> z = ms /\ in_utc_range ms.
Proof.
  unfold format_instant, Date. destruct (Z.abs ms <=? MAX_TIME) eqn:E.
  - pose proof (format_utc_ok ms) as Hf.
    destruct (formatUtcMillis (Some ms)); split; [intros [= <-]; tauto|by intros [-> _]|done|tauto].
  - destruct format_utc_none as [m ->].
    split; [done|]. intros [_ H]. unfold in_utc_range, MIN_UTC, MAX_UTC in H. unfold MAX_TIME in E. lia.
Qed.

Definition member_ok (item : StoredItem) (c : string * (json -> bool) * string) : bool :=
  match member c.1.1 item with Some v => c.1.2 v | None => false end.

Lemma first_defect_None item checks :
  first_defect item checks = None <-> forallb (member_ok item) checks = true.
Proof.
  induction checks as [|[[n c] e] checks IH]; [done|].
  cbn [first_defect forallb]. unfold member_ok at 1. cbn [fst snd].
  destruct (match member n item with Some v => c v | None => false end); simpl; [done|].
  split; done.
Qed.

Lemma positive_safe_ok z : 1 <= z <= MAX_SAFE_INTEGER -> is_positive_safe (JNum (JSInt z)) = true.
Proof. unfold is_positive_safe, is_safe_integer. lia. Qed.

(** The members of a stored item, read by name. *)
Lemma stored_members i :
  member "pk" (toStoredItem i) = Some (JStr (pk LEASE_ITEM_KEY))
  /\ member "sk" (toStoredItem i) = Some (JStr (sk LEASE_ITEM_KEY))
  /\ member "coordination_schema_version" (toStoredItem i) = Some (JNum (JSInt COORDINATION_SCHEMA_VERSION))
  /\ member "lease_status" (toStoredItem i) = Some (JStr (status_text (lease_status i)))
  /\ member "owner_kind" (toStoredItem i) = Some (JStr (kind_text (owner_kind (item_owner i))))
  /\ member "owner_id" (toStoredItem i) = Some (JStr (owner_id (item_owner i)))
  /\ member "owner_manifest_sha256" (toStoredItem i) = Some (JStr (owner_manifest_sha256 (item_owner i)))
  /\ member "lease_version" (toStoredItem i) = Some (JNum (JSInt (lease_version i)))
  /\ member "acquired_at" (toStoredItem i) = Some (JStr (toISOString (acquired_at i)))
  /\ member "heartbeat_at" (toStoredItem i) = Some (JStr (toISOString (heartbeat_at i)))
  /\ member "expires_at" (toStoredItem i) = Some (JStr (toISOString (expires_at i)))
  /\ member "updated_at" (toStoredItem i) = Some (JStr (toISOString (updated_at i))).
Proof. repeat split; reflexivity. Qed.

Ltac read_members i :=
  destruct (stored_members i) as (Mpk & Msk & Mver & Mst & Mk & Mid & Msha & Mlv & Ma & Mh & Me & Mu);
  rewrite ?Mpk, ?Msk, ?Mver, ?Mst, ?Mk, ?Mid, ?Msha, ?Mlv, ?Ma, ?Mh, ?Me, ?Mu.

Lemma first_defect_stored i : wf_item i -> first_defect (toStoredItem i) MEMBER_CHECKS = None.
Proof.
  intros ([Hid Hsha] & Hv & Ha & Hh & He & Hu). apply first_defect_None.
  apply isUtcMillis_toISOString in Ha, Hh, He, Hu. apply positive_safe_ok in Hv.
  unfold MEMBER_CHECKS. cbn [forallb]. unfold member_ok. cbn [fst snd]. read_members i.
  unfold is_str. rewrite Hid, Hsha, Hv, Ha, Hh, He, Hu, status_of_text, kind_of_text. done.
Qed.

Lemma typed_item_stored i : wf_item i -> typed_item (toStoredItem i) = Some i.
Proof.
  intros ([Hid Hsha] & Hv & Ha & Hh & He & Hu). unfold typed_item. read_members i.
  cbn [as_string mbind option_bind]. rewrite status_of_text, kind_of_text. unfold as_safe_integer, instant.
  rewrite !Date_parse_toISOString by done.
  assert (is_safe_integer (lease_version i) = true) as -> by (unfold is_safe_integer; lia).
  by destruct i as [[]].
Qed.

(** Every stored form of a well-formed item decodes to that item. *)
Lemma decode_toStoredItem i : wf_item i -> decodeLeaseItem (toStoredItem i) = Ok i.
Proof.
  intros H. unfold decodeLeaseItem.
  replace (find_first _ (map fst (toStoredItem i))) with (@None string) by reflexivity.
  by rewrite first_defect_stored, typed_item_stored.
Qed.

(** *** The converse *)

Lemma member_ok_inv m c : member_ok m c = true -> exists v, member c.1.1 m = Some v /\ c.1.2 v = true.
Proof. unfold member_ok. destruct (member c.1.1 m); [eauto|done]. Qed.

Lemma is_str_inv p v : is_str p v = true -> exists s, v = JStr s /\ p s = true.
Proof. destruct v; simpl; try done. eauto. Qed.

Lemma is_str_instant v : is_str isUtcMillis v = true ->
  exists ms, v = JStr (toISOString ms) /\ in_utc_range ms.
Proof. intros (s & -> & H)%is_str_inv. apply isUtcMillis_inv in H as (ms & ? & -> & _). eauto. Qed.

Lemma status_of_Some s x : status_of s = Some x -> s = status_text x.
Proof. unfold status_of. intros [_ H]%find_first_Some. by apply bool_decide_eq_true in H. Qed.
Lemma kind_of_Some s x : kind_of s = Some x -> s = kind_text x.
Proof. unfold kind_of. intros [_ H]%find_first_Some. by apply bool_decide_eq_true in H. Qed.

Lemma is_positive_safe_inv v : is_positive_safe v = true ->
  exists z, v = JNum (JSInt z) /\ 1 <= z <= MAX_SAFE_INTEGER.
Proof. destruct v as [| |[z|]| | |]; try done. simpl. unfold is_safe_integer. intros H. exists z. split; [done|lia]. Qed.

Lemma is_str_status v : is_str (fun s => bool_decide (is_Some (status_of s))) v = true ->
  exists x, v = JStr (status_text x).
Proof. intros (s & -> & [x H]%bool_decide_eq_true)%is_str_inv. apply status_of_Some in H as ->. eauto. Qed.
Lemma is_str_kind v : is_str (fun s => bool_decide (is_Some (kind_of s))) v = true ->
  exists x, v = JStr (kind_text x).
Proof. intros (s & -> & [x H]%bool_decide_eq_true)%is_str_inv. apply kind_of_Some in H as ->. eauto. Qed.
Lemma is_str_const s0 v : is_str (fun s => bool_decide (s = s0)) v = true -> v = JStr s0.
Proof. by intros (s & -> & ->%bool_decide_eq_true)%is_str_inv. Qed.
Lemma is_schema_version v :
  match v with JNum (JSInt z) => z =? COORDINATION_SCHEMA_VERSION | _ => false end = true ->
  v = JNum (JSInt COORDINATION_SCHEMA_VERSION).
Proof. destruct v as [| |[z|]| | |]; try done. intros ->%Z.eqb_eq. done. Qed.

(** An item whose members all pass their checks is the stored form of a well-formed item,
    member by member. *)
Lemma checked_item_typed m :
  forallb (member_ok m) MEMBER_CHECKS = true ->
  exists i, wf_item i /\ forall n, n ∈ MEMBERS -> member n m = member n (toStoredItem i).
Proof.
  intros H. unfold MEMBER_CHECKS in H. cbn [forallb] in H. rewrite !andb_true_iff in H.
  destruct H as (H1&H2&H3&H4&H5&H6&H7&H8&H9&H10&H11&H12&_).
  apply member_ok_inv in H1 as (v1&M1&->%is_str_const), H2 as (v2&M2&->%is_str_const),
    H3 as (v3&M3&->%is_schema_version), H4 as (v4&M4&(st&->)%is_str_status),
    H5 as (v5&M5&(k&->)%is_str_kind), H6 as (v6&M6&(id&->&Hid)%is_str_inv),
    H7 as (v7&M7&(sha&->&Hsha)%is_str_inv), H8 as (v8&M8&(lv&->&Hlv)%is_positive_safe_inv),
    H9 as (v9&M9&(a&->&Ha)%is_str_instant), H10 as (v10&M10&(h&->&Hh)%is_str_instant),
    H11 as (v11&M11&(e&->&He)%is_str_instant), H12 as (v12&M12&(u&->&Hu)%is_str_instant).
  exists (MkItem (MkOwner k id sha) st lv a h e u). split; [unfold wf_item, wf_owner; simpl; tauto|].
  unfold MEMBERS, MEMBER_CHECKS. cbn [map fst snd].
  intros n Hn. rewrite !elem_of_cons, elem_of_nil in Hn.
  destruct Hn as [->|[->|[->|[->|[->|[->|[->|[->|[->|[->|[->|[->|[]]]]]]]]]]]]]; assumption.
Qed.

Lemma typed_item_ext m m' : (forall n, n ∈ MEMBERS -> member n m = member n m') -> typed_item m = typed_item m'.
Proof.
  intros H. unfold typed_item.
  rewrite !H; [done|unfold MEMBERS, MEMBER_CHECKS; cbn [map fst snd]; rewrite !elem_of_cons; tauto..].
Qed.

Lemma member_None n m : member n m = None <-> n ∉ map fst m.
Proof.
  induction m as [|[k v] m IH]; cbn [member map fst]; [split; [intros _; apply not_elem_of_nil|done]|].
  rewrite not_elem_of_cons. case_bool_decide; subst; naive_solver.
Qed.

Lemma no_unknown_member m :
  find_first (fun name => negb (memb name MEMBERS)) (map fst m) = None <-> (forall n, n ∉ MEMBERS -> member n m = None).
Proof.
  rewrite find_first_None. setoid_rewrite member_None. split.
  - intros H n Hn Hin. specialize (H n Hin). unfold memb in H. by rewrite bool_decide_eq_false_2 in H.
  - intros H n Hn. unfold memb. destruct (decide (n ∈ MEMBERS)); [by rewrite bool_decide_eq_true_2|].
    by destruct (H n).
Qed.

Lemma decode_members m i :
  decodeLeaseItem m = Ok i <-> wf_item i /\ forall n, member n m = member n (toStoredItem i).
Proof.
  split.
  - unfold decodeLeaseItem. destruct (find_first _ _) eqn:Hu; [done|].
    destruct (first_defect _ _) eqn:Hd; [done|].
    apply first_defect_None, checked_item_typed in Hd as (i' & Hwf & Hm).
    rewrite (typed_item_ext _ _ Hm), typed_item_stored by done. intros [= <-]. split; [done|].
    intros n. destruct (decide (n ∈ MEMBERS)); [by apply Hm|].
    rewrite (proj1 (no_unknown_member m) Hu) by done. symmetry. by apply member_None.
  - intros [Hwf Hm]. pose proof (decode_toStoredItem i Hwf) as Hd. unfold decodeLeaseItem in *.
    rewrite (proj2 (no_unknown_member m)) by (intros n Hn; rewrite Hm; by apply member_None).
    replace (find_first _ (map fst (toStoredItem i))) with (@None string) in Hd by reflexivity.
    rewrite (typed_item_ext m (toStoredItem i)) by auto.
    assert (first_defect m MEMBER_CHECKS = None) as ->; [|by rewrite first_defect_stored in Hd].
    apply first_defect_None. rewrite <-(proj1 (first_defect_None _ _) (first_defect_stored i Hwf)).
    unfold MEMBER_CHECKS. cbn [forallb]. unfold member_ok. cbn [fst]. by rewrite !Hm.
Qed.

(** The decoder accepts exactly the stored forms of well-formed lease items, member by
    member, and never loses or invents a member: a stored item decodes to [i] iff [i] is
    well formed (owner, positive safe version, four UTC instants) and every member of the
    stored item is that of [toStoredItem i]. An unknown, missing or mistyped member makes
    it undecodable. *)
Theorem lease_item_codec (m : StoredItem) (i : LeaseItem) :
  decodeLeaseItem m = Ok i <-> wf_item i /\ forall n, member n m = member n (toStoredItem i).
Proof. apply decode_members. Qed.

End LeaseItem.
