(* ===== verification/LeaseHealth.v ===== *)
(** * Lease health and lease events

    The pure parts of src/study-1/src/coordination-lease/: the health state
    machine (lease-health.ts) and the journal body of a lease event
    (lease-event-body.ts). Monotonic readings are [bigint] nanoseconds. *)

From S2P Require Import Prelude Timestamps Store JsonText LeaseItem.
Import LeaseItem JsonText.
Open Scope Z_scope.

Module LeaseHealth.

Inductive LeaseHealth := CONFIRMED | UNCERTAIN | LOST_OWNERSHIP_MISMATCH | LOST_STALE.
#[export] Instance LeaseHealth_eq_dec : EqDecision LeaseHealth.
Proof. solve_decision. Defined.

Inductive LeaseEvent :=
| EvACQUIRED | EvACQUISITION_FAILED | EvHEARTBEAT_CONFIRMED | EvHEARTBEAT_FAILED | EvRECOVERED
| EvLOST_OWNERSHIP_MISMATCH | EvLOST_STALE | EvRELEASED | EvRELEASE_FAILED | EvRECOVERY_REQUIRED
| EvSTATE_UNVERIFIED.
#[export] Instance LeaseEvent_eq_dec : EqDecision LeaseEvent.
Proof. solve_decision. Defined.

Inductive LeaseStatus := released | recovery_required | unverified.
#[export] Instance LeaseStatus_eq_dec : EqDecision LeaseStatus.
Proof. solve_decision. Defined.

Definition LEASE_HEARTBEAT_INTERVAL_MS : Z := 30000.
Definition NS_PER_MS : Z := 1000000.
Definition LEASE_STALE_BOUNDARY_NS : Z := LEASE_STALE_BOUNDARY_MS * NS_PER_MS.

Record LeaseHealthState := MkHealth {
  health : LeaseHealth;
  st_version : Z;
  last_confirmed_ns : Z;
  last_confirmed_at : Z;
}.

Inductive LeaseObservation :=
| ob_confirmed (issued_ns observed_ns at_ version : Z)
| ob_failed (observed_ns : Z) (adopted_version : option Z)
| ob_mismatch (observed_ns : Z) (code : string)
| ob_clock (observed_ns : Z).

Definition observed_ns (o : LeaseObservation) : Z :=
  match o with
  | ob_confirmed _ t _ _ => t
  | ob_failed t _ => t
  | ob_mismatch t _ => t
  | ob_clock t => t
  end.

Definition isLost (h : LeaseHealth) : bool :=
  match h with LOST_OWNERSHIP_MISMATCH | LOST_STALE => true | _ => false end.

Definition with_health (s : LeaseHealthState) (h : LeaseHealth) : LeaseHealthState :=
  MkHealth h (st_version s) (last_confirmed_ns s) (last_confirmed_at s).

Definition with_version (s : LeaseHealthState) (v : Z) : LeaseHealthState :=
  MkHealth (health s) v (last_confirmed_ns s) (last_confirmed_at s).

Definition nextLeaseHealth (state : LeaseHealthState) (observation : LeaseObservation) : LeaseHealthState :=
  if isLost (health state) then state
  else if observed_ns observation - last_confirmed_ns state >=? LEASE_STALE_BOUNDARY_NS
  then with_health state LOST_STALE
  else match observation with
       | ob_confirmed issued _ at_ version => MkHealth CONFIRMED version issued at_
       | ob_failed _ adopted => with_health (with_version state (default (st_version state) adopted)) UNCERTAIN
       | ob_mismatch _ _ => with_health state LOST_OWNERSHIP_MISMATCH
       | ob_clock _ => state
       end.

Definition isPublicationAllowed (state : LeaseHealthState) (nowNs : Z) : bool :=
  bool_decide (health state = CONFIRMED) && (nowNs - last_confirmed_ns state <? LEASE_STALE_BOUNDARY_NS).

(** [bigint] division truncates toward zero ([Z.quot]). *)
Definition heartbeatDelayMs (state : LeaseHealthState) (nowNs : Z) : Z :=
  if bool_decide (health state <> UNCERTAIN) then LEASE_HEARTBEAT_INTERVAL_MS
  else
    let remainingNs := last_confirmed_ns state + LEASE_STALE_BOUNDARY_NS - nowNs in
    let remainingMs := Z.quot (remainingNs + NS_PER_MS - 1) NS_PER_MS in
    Z.max 0 (Z.min LEASE_HEARTBEAT_INTERVAL_MS remainingMs).

Definition FINAL_STATUS_OF_EVENT (e : LeaseEvent) : option LeaseStatus :=
  match e with
  | EvRELEASED => Some released
  | EvRECOVERY_REQUIRED => Some recovery_required
  | EvRELEASE_FAILED | EvSTATE_UNVERIFIED => Some unverified
  | _ => None
  end.

Definition deriveFinalLeaseStatus (events : list LeaseEvent) : LeaseStatus :=
  default unverified (last (omap FINAL_STATUS_OF_EVENT events)).

(** ** Lease events *)

Definition LEASE_EVENT_DETAIL_LIMIT : nat := 400.

Record LeaseEventFacts := MkFacts {
  f_event : LeaseEvent;
  f_owner : LeaseOwner;
  f_state : option LeaseHealthState;
  f_observed : option LeaseItem;
  f_detail : option string;
}.

(** The body: the state's three members come together, the foreign holder as a pair. *)
Record LeaseEventBody := MkBody {
  b_event : LeaseEvent;
  b_owner : LeaseOwner;
  b_state : option (Z * LeaseHealth * Z);
  b_holder : option (ExecutionKind * string);
  b_detail : option string;
}.

Definition leaseEventBody (facts : LeaseEventFacts) : LeaseEventBody :=
  let holder := match f_observed facts with
                | Some observed => if negb (isOwnedBy observed (f_owner facts)) then Some observed else None
                | None => None
                end in
  MkBody (f_event facts) (f_owner facts)
    (match f_state facts with
     | None => None
     | Some state => Some (st_version state, health state, last_confirmed_at state)
     end)
    (match holder with
     | None => None
     | Some h => Some (owner_kind (item_owner h), owner_id (item_owner h))
     end)
    (match f_detail facts with
     | None => None
     | Some detail => if bool_decide (detail = "") then None else Some (boundedText detail LEASE_EVENT_DETAIL_LIMIT)
     end).

(** ** Health over a history of observations *)

Definition track (s : LeaseHealthState) (obs : list LeaseObservation) : LeaseHealthState :=
  fold_left nextLeaseHealth obs s.

Definition is_clock (o : LeaseObservation) : Prop := exists t, o = ob_clock t.

(** The confirmation a state rests on: the acquisition, or the last conditional heartbeat
    that applied, with only looks at the clock after it. *)
Inductive rests_on (t0 : Z) (obs : list LeaseObservation) : Z -> Prop :=
| rests_on_acquisition : Forall is_clock obs -> rests_on t0 obs t0
| rests_on_heartbeat pre post issued observed at_ v :
    obs = pre ++ ob_confirmed issued observed at_ v :: post -> Forall is_clock post -> rests_on t0 obs issued.

Lemma track_app s obs o : track s (obs ++ [o]) = nextLeaseHealth (track s obs) o.
Proof. unfold track. by rewrite fold_left_app. Qed.

Lemma rests_on_snoc_clock t0 obs t o : rests_on t0 obs t -> is_clock o -> rests_on t0 (obs ++ [o]) t.
Proof.
  intros [H|pre post issued observed at_ v -> H] Ho.
  - apply rests_on_acquisition. by apply Forall_app_2, Forall_singleton.
  - eapply rests_on_heartbeat; [by rewrite <-app_assoc, <-app_comm_cons|].
    by apply Forall_app_2, Forall_singleton.
Qed.

Lemma track_lost s obs : isLost (health s) = true -> track s obs = s.
Proof.
  intros H. induction obs as [|o obs IH] using rev_ind; [done|].
  rewrite track_app, IH. unfold nextLeaseHealth. by rewrite H.
Qed.

Lemma track_confirmed v t0 a obs :
  let s := track (MkHealth CONFIRMED v t0 a) obs in
  health s = CONFIRMED -> rests_on t0 obs (last_confirmed_ns s).
Proof.
  induction obs as [|o obs IH] using rev_ind; cbn zeta in *; [by constructor|].
  rewrite track_app. set (s := track _ obs) in *. unfold nextLeaseHealth.
  destruct (isLost (health s)) eqn:El; [intros H; by rewrite H in El|].
  destruct (_ >=? _); [done|]. destruct o; simpl; intros H; try done.
  - eapply rests_on_heartbeat; [done|constructor].
  - apply rests_on_snoc_clock; [by apply IH|]. by eexists.
Qed.

Lemma track_stale s pre o post :
  observed_ns o - last_confirmed_ns (track s pre) >= LEASE_STALE_BOUNDARY_NS ->
  isLost (health (track s (pre ++ o :: post))) = true.
Proof.
  intros H. rewrite cons_middle, app_assoc. unfold track. rewrite fold_left_app.
  fold (track s (pre ++ [o])). assert (Hl : isLost (health (track s (pre ++ [o]))) = true).
  { rewrite track_app. unfold nextLeaseHealth. destruct (isLost (health (track s pre))) eqn:E; [done|].
    destruct (_ >=? _) eqn:E'; [done|]. boolp. lia. }
  fold (track (track s (pre ++ [o])) post). by rewrite (track_lost _ post Hl).
Qed.

Lemma publication_lost s now : isLost (health s) = true -> isPublicationAllowed s now = false.
Proof. unfold isPublicationAllowed. by destruct (health s). Qed.

(** New publication is allowed only on fresh, confirmed ownership. After an acquisition
    issued at [t0] and any history of observations: when publication is allowed at [now],
    the state rests on the acquisition or on a conditional heartbeat that applied, with
    nothing but looks at the clock since, and that write was issued less than 300 s before
    [now]; a loss is never left again; and once an observation comes 300 s or more after
    the confirmation in force, no later confirmation reopens publication. *)
Theorem publication_rests_on_fresh_confirmation (v t0 a : Z) (obs : list LeaseObservation) (now : Z) :
  let s := track (MkHealth CONFIRMED v t0 a) obs in
  (isPublicationAllowed s now = true ->
     exists t, rests_on t0 obs t /\ t = last_confirmed_ns s /\ now - t < LEASE_STALE_BOUNDARY_NS)
  /\ (isLost (health s) = true -> forall more, track s more = s)
  /\ (forall pre o post, obs = pre ++ o :: post ->
        observed_ns o - last_confirmed_ns (track (MkHealth CONFIRMED v t0 a) pre) >= LEASE_STALE_BOUNDARY_NS ->
        isPublicationAllowed s now = false).
Proof.
  cbn zeta. split; [|split].
  - unfold isPublicationAllowed. intros H. boolp. eexists. split; [by apply track_confirmed|]. done.
  - intros H more. by apply track_lost.
  - intros pre o post -> H. apply publication_lost. by apply track_stale.
Qed.

Lemma publication_rests_on_fresh_confirmation_witness :
  let obs := [ob_confirmed 30000000000 30100000000 0 2; ob_clock 31000000000] in
  exists t, rests_on 0 obs t /\ 60000000000 - t < LEASE_STALE_BOUNDARY_NS.
Proof.
  destruct (publication_rests_on_fresh_confirmation 1 0 0
    [ob_confirmed 30000000000 30100000000 0 2; ob_clock 31000000000] 60000000000) as [H _].
  destruct (H eq_refl) as (t & Ht & _ & Hlt). exists t. split; [exact Ht|exact Hlt].
Defined.

(** The delay to the next heartbeat lies within one interval, and while ownership is
    uncertain the beat falls due exactly when the stale boundary is reached (to the
    millisecond, never before it by less than an interval and never a whole millisecond
    after it); past the boundary it is due at once. *)
Theorem heartbeat_delay_meets_boundary (s : LeaseHealthState) (now : Z) :
  let d := heartbeatDelayMs s now in
  let boundary := last_confirmed_ns s + LEASE_STALE_BOUNDARY_NS in
  0 <= d <= LEASE_HEARTBEAT_INTERVAL_MS
  /\ (health s <> UNCERTAIN -> d = LEASE_HEARTBEAT_INTERVAL_MS)
  /\ (health s = UNCERTAIN -> now < boundary ->
        now + (d - 1) * NS_PER_MS < boundary
        /\ (d < LEASE_HEARTBEAT_INTERVAL_MS -> boundary <= now + d * NS_PER_MS))
  /\ (health s = UNCERTAIN -> boundary <= now -> d = 0).
Proof.
  cbn zeta. unfold heartbeatDelayMs, LEASE_STALE_BOUNDARY_NS, LEASE_HEARTBEAT_INTERVAL_MS, NS_PER_MS, LEASE_STALE_BOUNDARY_MS.
  case_bool_decide as Hu; [repeat split; try lia; tauto|].
  repeat split; try tauto; intros; dlia.
Qed.

Lemma heartbeat_delay_meets_boundary_witness :
  heartbeatDelayMs (MkHealth UNCERTAIN 4 0 0) 290000500000 = 10000
  /\ 290000500000 + (10000 - 1) * NS_PER_MS < 0 + LEASE_STALE_BOUNDARY_NS.
Proof.
  split; [reflexivity|].
  apply (heartbeat_delay_meets_boundary (MkHealth UNCERTAIN 4 0 0) 290000500000); reflexivity.
Defined.

End LeaseHealth.
