(* ===== verification/LeaseStore.v ===== *)
(** * The lease store

    src/study-1/src/coordination-lease/lease-store-port.ts (the port),
    durable-lease-store.ts (the port over the item store) and
    guarded-lease-store.ts (the port that never throws). *)

From S2P Require Import Prelude Timestamps Effects Store JsonText LeaseItem LeaseHealth.
Import Json Store Utc JsonText LeaseItem LeaseHealth.
Open Scope Z_scope.

Module LeaseStore.

(** ** Effects of the coordination lease *)

Inductive LeaseEff : Type -> Type :=
| StoreWrite (a : WriteAction) : LeaseEff (Result WriteOutcome js_error)
| StoreGet (t : TableRole) (k : ItemKey) : LeaseEff (Result (Result (option StoredItem) string) js_error)
| NowNs : LeaseEff Z
| WallNow : LeaseEff (option Z)
| JournalAppend (body : LeaseEventBody) : LeaseEff (Result unit js_error).

(** What an effect may answer, and how it changes the tables: clocks and the journal answer
    anything. *)
Definition lease_step (R : Type) (e : LeaseEff R) : tables -> R -> tables -> Prop :=
  match e in LeaseEff R return tables -> R -> tables -> Prop with
  | StoreWrite a => fun w r w' => store_write w a r w'
  | StoreGet t k => fun w r w' => store_get w t k r /\ w' = w
  | NowNs => fun w _ w' => w' = w
  | WallNow => fun w _ w' => w' = w
  | JournalAppend _ => fun w _ w' => w' = w
  end.

Record LeaseReadFailure := MkReadFailure { rf_code : string; rf_detail : string }.

(** The methods of the item store. *)
Definition store_write_call {St} (a : WriteAction) : SE LeaseEff St js_error WriteOutcome :=
  (r <- se_perform (StoreWrite a) ;; se_of r)%se.

Definition store_get_call {St} (t : TableRole) (k : ItemKey) :
  SE LeaseEff St js_error (Result (option StoredItem) string) :=
  (r <- se_perform (StoreGet t k) ;; se_of r)%se.

(** ** The port *)

Record LeaseStorePort {St : Type} := MkPort {
  acquire : LeaseOwner -> Z -> SE LeaseEff St js_error WriteOutcome;
  heartbeat : LeaseOwner -> Z -> Z -> SE LeaseEff St js_error WriteOutcome;
  release : LeaseOwner -> Z -> Z -> SE LeaseEff St js_error WriteOutcome;
  markRecoveryRequired : LeaseOwner -> Z -> Z -> SE LeaseEff St js_error WriteOutcome;
  read : SE LeaseEff St js_error (Result (option LeaseItem) LeaseReadFailure);
}.
Arguments LeaseStorePort : clear implicits.

(** ** The port over the item store *)

Definition TABLE : TableRole := coordination.

Definition releasedHolder (outcome : WriteOutcome) : option LeaseItem :=
  match outcome with
  | condition_failed _ (Some existing) =>
      match decodeLeaseItem existing with
      | Ok i => if isLeaseAvailable (Some i) then Some i else None
      | Err _ => None
      end
  | _ => None
  end.

Definition sameReleasedItem (old : LeaseItem) : Condition :=
  all [ attribute_equals "lease_status" (SStr "RELEASED");
        attribute_equals "lease_version" (SNum (lease_version old));
        attribute_equals "owner_id" (SStr (owner_id (item_owner old))) ].

Definition acquireLease {St} (owner : LeaseOwner) (at_ : Z) : SE LeaseEff St js_error WriteOutcome :=
  (acquired <- se_of (acquiredLeaseItem owner at_) ;;
   let item := toStoredItem acquired in
   first <- store_write_call (put TABLE item (Some item_absent)) ;;
   match releasedHolder first with
   | None => se_ret first
   | Some old => store_write_call (put TABLE item (Some (sameReleasedItem old)))
   end)%se.

Definition ownedAt (owner : LeaseOwner) (version : Z) (statuses : list LeaseItemStatus) : Condition :=
  all [ attribute_equals "owner_kind" (SStr (kind_text (owner_kind owner)));
        attribute_equals "owner_id" (SStr (owner_id owner));
        attribute_equals "owner_manifest_sha256" (SStr (owner_manifest_sha256 owner));
        attribute_equals "lease_version" (SNum version);
        attribute_in "lease_status" (map status_text statuses) ].

Definition owned_update (owner : LeaseOwner) (expectedVersion : Z) (statuses : list LeaseItemStatus)
    (set : list (string * json)) : WriteAction :=
  update TABLE LEASE_ITEM_KEY (set_member "lease_version" (JNum (JSInt (expectedVersion + 1))) set) []
    (ownedAt owner expectedVersion statuses).

Definition updateOwnedLease {St} (owner : LeaseOwner) (expectedVersion : Z) (statuses : list LeaseItemStatus)
    (set : list (string * json)) : SE LeaseEff St js_error WriteOutcome :=
  store_write_call (owned_update owner expectedVersion statuses set).

Definition readLease {St} : SE LeaseEff St js_error (Result (option LeaseItem) LeaseReadFailure) :=
  (r <- store_get_call TABLE LEASE_ITEM_KEY ;;
   se_ret match r with
          | Err c => Err (MkReadFailure code_readFailed ("consistent read failed with " +:+ c))
          | Ok None => Ok None
          | Ok (Some item) =>
              match decodeLeaseItem item with
              | Ok i => Ok (Some i)
              | Err e => Err (MkReadFailure (code e) (detail e))
              end
          end)%se.

Definition heartbeat_set (at_ expiry : Z) : list (string * json) :=
  [("heartbeat_at", JStr (toISOString at_)); ("expires_at", JStr (toISOString expiry));
   ("updated_at", JStr (toISOString at_))].

Definition status_set (status : LeaseItemStatus) (at_ : Z) : list (string * json) :=
  [("lease_status", JStr (status_text status)); ("updated_at", JStr (toISOString at_))].

Definition createDurableLeaseStore {St} : LeaseStorePort St := {|
  acquire := acquireLease;
  heartbeat owner expectedVersion at_ :=
    (expiry <- se_of (leaseExpiry at_) ;;
     updateOwnedLease owner expectedVersion [HELD] (heartbeat_set at_ expiry))%se;
  release owner expectedVersion at_ :=
    updateOwnedLease owner expectedVersion [HELD; RECOVERY_REQUIRED] (status_set RELEASED at_);
  markRecoveryRequired owner expectedVersion at_ :=
    updateOwnedLease owner expectedVersion [HELD] (status_set RECOVERY_REQUIRED at_);
  read := readLease;
|}.

(** ** The port that never throws *)

Definition LEASE_STORE_THREW : string := "LeaseStoreThrew".

(** [errorCode] of durable-store/dynamo-error-classification.ts on the errors of the model: a
    plain [Error] without a system code is named [Error]; a foreign error is known by the
    name this function gives it. *)
Definition errorCode (e : js_error) : string :=
  match e with
  | RangeError _ => "RangeError"
  | TypeError _ => "TypeError"
  | PlainError _ => "Error"
  | ForeignError name => name
  end.

Definition thrownName (e : js_error) : string := boundedText (errorCode e) QUOTED_JSON_LIMIT.

Definition threw_code (e : js_error) : string := LEASE_STORE_THREW +:+ ":" +:+ thrownName e.

Definition guardedWrite {St} (write : SE LeaseEff St js_error WriteOutcome) : SE LeaseEff St js_error WriteOutcome :=
  se_catch write (fun e => ambiguous (threw_code e)).

Definition guardedRead {St} (rd : SE LeaseEff St js_error (Result (option LeaseItem) LeaseReadFailure)) :
  SE LeaseEff St js_error (Result (option LeaseItem) LeaseReadFailure) :=
  se_catch rd (fun e => Err (MkReadFailure code_readFailed ("the consistent read threw " +:+ thrownName e))).

Definition guardLeaseStore {St} (store : LeaseStorePort St) : LeaseStorePort St := {|
  acquire owner at_ := guardedWrite (acquire store owner at_);
  heartbeat owner v at_ := guardedWrite (heartbeat store owner v at_);
  release owner v at_ := guardedWrite (release store owner v at_);
  markRecoveryRequired owner v at_ := guardedWrite (markRecoveryRequired store owner v at_);
  read := guardedRead (read store);
|}.

End LeaseStore.
