(* ===== verification/LeaseSession.v ===== *)
(** * The lease session

    src/study-1/src/coordination-lease/: what an acquisition write established
    (lease-acquisition.ts), what a heartbeat established (heartbeat-judgement.ts),
    finalization (lease-finalization.ts) and the session object
    (lease-session.ts). Operations of one session are serialized by its promise
    chain, so a session runs one operation at a time ([Effects.thread]). *)

From S2P Require Import Prelude Timestamps Effects Store JsonText LeaseItem LeaseHealth LeaseStore.
Import Json Store Utc JsonText LeaseItem LeaseHealth LeaseStore.
Open Scope Z_scope.

Module LeaseSession.

(** ** Acquisition *)

Inductive AcquisitionResolution :=
| ar_acquired (detail : string)
| ar_refused (holder : option LeaseItem) (why : StructuredReason)
| ar_unresolved (holder : option LeaseItem) (why : StructuredReason).

Definition refused (c d : string) : AcquisitionResolution := ar_refused None (leaseReason c d).

Definition conflict (holder : LeaseItem) (context : string) : AcquisitionResolution :=
  ar_refused (Some holder)
    (leaseReason code_conflict
      (context +:+ ": the item shows " +:+ describeHolder holder
       +:+ "; expected no item or a RELEASED one (an expiry never releases)")).

Definition acquisitionLanded (item : LeaseItem) (owner : LeaseOwner) (at_ : Z) : bool :=
  isOwnedBy item owner && bool_decide (lease_status item = HELD) && (lease_version item =? 1)
  && (acquired_at item =? at_).

Definition refusedByExisting (existing : option StoredItem) : AcquisitionResolution :=
  match existing with
  | None => refused code_conflict "a lease item exists but the store could not return it"
  | Some m =>
      match decodeLeaseItem m with
      | Err e => refused (code e) ("acquisition refused: " +:+ detail e)
      | Ok i => conflict i "acquisition refused"
      end
  end.

Definition resolveAmbiguousAcquisition {St} (store : LeaseStorePort St) (owner : LeaseOwner) (at_ : Z) (c : string) :
  SE LeaseEff St js_error AcquisitionResolution :=
  (r <- read store ;;
   let context := "ambiguous acquisition (" +:+ c +:+ ")" in
   se_ret match r with
   | Err e => ar_unresolved None (leaseReason code_writeAmbiguous
                (context +:+ "; the resolving read failed: " +:+ rf_detail e))
   | Ok None => refused code_writeAmbiguous (context +:+ "; the lease item is absent, so the put did not land")
   | Ok (Some item) =>
       if acquisitionLanded item owner at_ then ar_acquired (context +:+ " confirmed by a consistent read")
       else conflict item (context +:+ " did not land")
   end)%se.

Definition resolveAcquisition {St} (store : LeaseStorePort St) (owner : LeaseOwner) (at_ : Z) (outcome : WriteOutcome) :
  SE LeaseEff St js_error AcquisitionResolution :=
  match outcome with
  | applied => se_ret (ar_acquired "conditional acquisition applied")
  | definitive_failure c => se_ret (refused code_writeRejected ("acquisition rejected with " +:+ c +:+ "; nothing written"))
  | condition_failed _ existing => se_ret (refusedByExisting existing)
  | ambiguous c => resolveAmbiguousAcquisition store owner at_ c
  end.

(** ** Heartbeat judgement *)

Record HeartbeatAttempt := MkAttempt {
  a_owner : LeaseOwner;
  expected_version : Z;
  issued_ns : Z;
  a_at : Z;
}.

Record HeartbeatJudgement := MkJudgement {
  observation : LeaseObservation;
  observed : option LeaseItem;
  j_detail : string;
}.

Definition heartbeatLanded (item : LeaseItem) (attempt : HeartbeatAttempt) : bool :=
  isOwnedBy item (a_owner attempt) && bool_decide (lease_status item = HELD)
  && (lease_version item =? expected_version attempt + 1) && (heartbeat_at item =? a_at attempt).

Definition confirmed {St} (attempt : HeartbeatAttempt) (d : string) : SE LeaseEff St js_error HeartbeatJudgement :=
  (now <- se_perform NowNs ;;
   se_ret (MkJudgement (ob_confirmed (issued_ns attempt) now (a_at attempt) (expected_version attempt + 1)) None d))%se.

Definition failed {St} (d : string) : SE LeaseEff St js_error HeartbeatJudgement :=
  (now <- se_perform NowNs ;; se_ret (MkJudgement (ob_failed now None) None d))%se.

Definition mismatch {St} (c d : string) (seen : option LeaseItem) : SE LeaseEff St js_error HeartbeatJudgement :=
  (now <- se_perform NowNs ;; se_ret (MkJudgement (ob_mismatch now c) seen d))%se.

Definition judgeItem {St} (item : LeaseItem) (attempt : HeartbeatAttempt) (context : string) :
  SE LeaseEff St js_error HeartbeatJudgement :=
  if isOwnedBy item (a_owner attempt) && bool_decide (lease_status item = HELD) then
    (now <- se_perform NowNs ;;
     se_ret (MkJudgement (ob_failed now (Some (lease_version item))) (Some item)
       (context +:+ "; the item still names this owner, held at version " +:+ string_of_Z (lease_version item)
        +:+ " (expected " +:+ string_of_Z (expected_version attempt) +:+ ")")))%se
  else
    mismatch code_ownershipMismatch (context +:+ "; the item shows " +:+ describeHolder item) (Some item).

Definition judgeRead {St} (r : Result (option LeaseItem) LeaseReadFailure) (attempt : HeartbeatAttempt) (context : string) :
  SE LeaseEff St js_error HeartbeatJudgement :=
  match r with
  | Err e =>
      if bool_decide (rf_code e = code_itemUndecodable)
      then mismatch (rf_code e) (context +:+ ": " +:+ rf_detail e) None
      else failed (context +:+ "; ownership unresolved: " +:+ rf_detail e)
  | Ok None =>
      mismatch code_itemAbsent (context +:+ ": the lease item is absent; an absent item never proves release") None
  | Ok (Some item) => judgeItem item attempt context
  end.

Definition judgeConditionFailure {St} (store : LeaseStorePort St) (existing : option StoredItem)
    (attempt : HeartbeatAttempt) : SE LeaseEff St js_error HeartbeatJudgement :=
  match existing with
  | None => (r <- read store ;; judgeRead r attempt "heartbeat condition failed without the item")%se
  | Some m =>
      match decodeLeaseItem m with
      | Err e => mismatch code_itemUndecodable ("heartbeat condition failed: " +:+ detail e) None
      | Ok i => judgeItem i attempt "heartbeat condition failed"
      end
  end.

Definition judgeAmbiguous {St} (store : LeaseStorePort St) (c : string) (attempt : HeartbeatAttempt) :
  SE LeaseEff St js_error HeartbeatJudgement :=
  (r <- read store ;;
   if match r with Ok (Some item) => heartbeatLanded item attempt | _ => false end
   then confirmed attempt ("ambiguous heartbeat (" +:+ c +:+ ") confirmed by a consistent read")
   else judgeRead r attempt ("ambiguous heartbeat (" +:+ c +:+ ")"))%se.

Definition judgeHeartbeat {St} (store : LeaseStorePort St) (outcome : WriteOutcome) (attempt : HeartbeatAttempt) :
  SE LeaseEff St js_error HeartbeatJudgement :=
  match outcome with
  | applied => confirmed attempt "conditional heartbeat applied"
  | definitive_failure c => failed ("heartbeat rejected with " +:+ c)
  | ambiguous c => judgeAmbiguous store c attempt
  | condition_failed _ existing => judgeConditionFailure store existing attempt
  end.

(** ** Finalization *)

Inductive LeaseClosure := clean | unclean.
#[export] Instance LeaseClosure_eq_dec : EqDecision LeaseClosure.
Proof. solve_decision. Defined.

Record FinalizationVerdict := MkVerdict {
  v_event : LeaseEvent;
  v_version : option Z;
  v_observed : option LeaseItem;
  v_detail : string;
}.

(** The status a finalization writes, and the event of the same name. *)
Definition final_status (closure : LeaseClosure) : LeaseItemStatus :=
  match closure with clean => RELEASED | unclean => RECOVERY_REQUIRED end.
Definition final_event (closure : LeaseClosure) : LeaseEvent :=
  match closure with clean => EvRELEASED | unclean => EvRECOVERY_REQUIRED end.

Definition shown (item : option LeaseItem) : string :=
  match item with None => "the lease item is absent" | Some i => "the item shows " +:+ describeHolder i end.

Definition notOwned (held : bool) (item : option LeaseItem) : FinalizationVerdict :=
  if negb held then
    MkVerdict EvRELEASED None item
      ("the unresolved acquisition never landed (" +:+ shown item +:+ "); this owner holds nothing")
  else
    MkVerdict EvSTATE_UNVERIFIED None item
      (shown item +:+ "; release cannot be established (TTL expiry or absence never proves release)").

Definition writeFailure (closure : LeaseClosure) (d : string) (item : option LeaseItem) : FinalizationVerdict :=
  MkVerdict (match closure with clean => EvRELEASE_FAILED | unclean => EvSTATE_UNVERIFIED end) None item d.

Definition observedOf (outcome : WriteOutcome) : option LeaseItem :=
  match outcome with
  | condition_failed _ (Some existing) =>
      match decodeLeaseItem existing with Ok i => Some i | Err _ => None end
  | _ => None
  end.

(** [#now()] of the session. *)
Definition wall_now {St} : SE LeaseEff St js_error Z :=
  (d <- se_perform WallNow ;;
   se_of match d with
         | Some ms => format_instant ms
         | None => match formatUtcMillis None with Ok _ => Ok 0 | Err e => Err e end
         end)%se.

Definition resolveAmbiguousFinal {St} (store : LeaseStorePort St) (owner : LeaseOwner) (closure : LeaseClosure)
    (context : string) : SE LeaseEff St js_error FinalizationVerdict :=
  (r <- read store ;;
   se_ret match r with
   | Err e => MkVerdict EvSTATE_UNVERIFIED None None (context +:+ "; the resolving read failed: " +:+ rf_detail e)
   | Ok item =>
       match item with
       | Some i =>
           if isOwnedBy i owner && bool_decide (lease_status i = final_status closure)
           then MkVerdict (final_event closure) (Some (lease_version i)) (Some i)
                  (context +:+ "; a consistent read confirms it")
           else MkVerdict EvSTATE_UNVERIFIED None item (context +:+ "; " +:+ shown item)
       | None => MkVerdict EvSTATE_UNVERIFIED None None (context +:+ "; " +:+ shown item)
       end
   end)%se.

Definition writeFinal {St} (store : LeaseStorePort St) (owner : LeaseOwner) (closure : LeaseClosure)
    (version : Z) (context : string) : SE LeaseEff St js_error FinalizationVerdict :=
  (at_ <- wall_now ;;
   outcome <- match closure with
              | clean => release store owner version at_
              | unclean => markRecoveryRequired store owner version at_
              end ;;
   let written := context +:+ "; conditional " +:+ status_text (final_status closure)
                  +:+ " write at version " +:+ string_of_Z version in
   match outcome with
   | applied => se_ret (MkVerdict (final_event closure) (Some (version + 1)) None (written +:+ " applied"))
   | ambiguous c => resolveAmbiguousFinal store owner closure (written +:+ " was ambiguous (" +:+ c +:+ ")")
   | condition_failed _ _ =>
       se_ret (writeFailure closure (written +:+ " failed: the ownership condition did not hold") (observedOf outcome))
   | definitive_failure c => se_ret (writeFailure closure (written +:+ " failed: " +:+ c) (observedOf outcome))
   end)%se.

Definition finalizeLease {St} (store : LeaseStorePort St) (owner : LeaseOwner) (closure : LeaseClosure)
    (known_version : Z) (held : bool) : SE LeaseEff St js_error FinalizationVerdict :=
  (r <- read store ;;
   match r with
   | Err e => writeFinal store owner closure known_version ("the pre-finalization read failed: " +:+ rf_detail e)
   | Ok None => se_ret (notOwned held None)
   | Ok (Some item) =>
       if negb (isOwnedBy item owner) then se_ret (notOwned held (Some item))
       else if bool_decide (lease_status item = RELEASED) then
         se_ret (MkVerdict EvRELEASED (Some (lease_version item)) (Some item) "already released")
       else if bool_decide (lease_status item = RECOVERY_REQUIRED) && bool_decide (closure = unclean) then
         se_ret (MkVerdict EvRECOVERY_REQUIRED (Some (lease_version item)) (Some item) "already marked recovery required")
       else writeFinal store owner closure (lease_version item) ("the item shows " +:+ describeHolder item)
   end)%se.

(** ** The session object *)

Record LeaseLoss := MkLoss { loss_health : LeaseHealth; loss_reason : StructuredReason }.

Inductive SessionPhase :=
| ph_idle
| ph_refused (owner : LeaseOwner)
| ph_unresolved (owner : LeaseOwner)
| ph_held (owner : LeaseOwner) (state : LeaseHealthState)
| ph_finalized (status : LeaseStatus).

Record Session := MkSession {
  events : list LeaseEvent;
  phase : SessionPhase;
  loss : option LeaseLoss;
}.

Definition new_session : Session := MkSession [] ph_idle None.

Inductive LeaseAcquisition :=
| la_acquired
| la_refused (holder : option LeaseItem) (why : StructuredReason).

Definition phase_name (p : SessionPhase) : string :=
  match p with
  | ph_idle => "idle"
  | ph_refused _ => "refused"
  | ph_unresolved _ => "unresolved"
  | ph_held _ _ => "held"
  | ph_finalized _ => "finalized"
  end.

Abbreviation M := (SE LeaseEff Session js_error).

Definition set_phase (p : SessionPhase) : M unit :=
  se_modify (fun s => MkSession (events s) p (loss s)).
Definition set_loss (l : LeaseLoss) : M unit :=
  se_modify (fun s => MkSession (events s) (phase s) (Some l)).
Definition push_event (e : LeaseEvent) : M unit :=
  se_modify (fun s => MkSession (events s ++ [e]) (phase s) (loss s)).

Definition record (facts : LeaseEventFacts) : M unit :=
  (push_event (f_event facts) ;;;
   r <- se_perform (JournalAppend (leaseEventBody facts)) ;; se_of r)%se.

Section session.
Context (store : LeaseStorePort Session).

Definition session_acquire (owner : LeaseOwner) : M LeaseAcquisition :=
  (s <- se_get ;;
   match phase s with
   | ph_idle =>
       issuedNs <- se_perform NowNs ;;
       at_ <- wall_now ;;
       outcome <- acquire store owner at_ ;;
       resolution <- resolveAcquisition store owner at_ outcome ;;
       match resolution with
       | ar_acquired d =>
           let state := MkHealth CONFIRMED 1 issuedNs at_ in
           set_phase (ph_held owner state) ;;;
           record (MkFacts EvACQUIRED owner (Some state) None (Some d)) ;;;
           se_ret la_acquired
       | ar_refused holder why =>
           set_phase (ph_refused owner) ;;;
           record (MkFacts EvACQUISITION_FAILED owner None holder (Some (detail why))) ;;;
           se_ret (la_refused holder why)
       | ar_unresolved holder why =>
           set_phase (ph_unresolved owner) ;;;
           record (MkFacts EvACQUISITION_FAILED owner None holder (Some (detail why))) ;;;
           se_ret (la_refused holder why)
       end
   | p => se_throw (PlainError ("acquire() in phase " +:+ phase_name p
                                +:+ "; expected a session that has not acquired yet"))
   end)%se.

Definition staleDetail (state : LeaseHealthState) (observedNs : Z) : string :=
  let elapsedMs := Z.quot (observedNs - last_confirmed_ns state) 1000000 in
  "last confirmed heartbeat at " +:+ toISOString (last_confirmed_at state) +:+ ", " +:+ string_of_Z elapsedMs
  +:+ " ms ago; expected less than " +:+ string_of_Z (Z.quot LEASE_STALE_BOUNDARY_NS 1000000) +:+ " ms (stale boundary)".

Definition lossReasonOf (previous next : LeaseHealthState) (judged : HeartbeatJudgement) : option StructuredReason :=
  if bool_decide (health next = LOST_STALE) then
    Some (leaseReason code_stale (staleDetail previous (observed_ns (observation judged))))
  else match observation judged with
       | ob_mismatch _ c => Some (leaseReason c (j_detail judged))
       | _ => None
       end.

Definition beatEvent (previous next : LeaseHealth) : LeaseEvent :=
  match next with
  | CONFIRMED => if bool_decide (previous = UNCERTAIN) then EvRECOVERED else EvHEARTBEAT_CONFIRMED
  | UNCERTAIN => EvHEARTBEAT_FAILED
  | LOST_OWNERSHIP_MISMATCH => EvLOST_OWNERSHIP_MISMATCH
  | LOST_STALE => EvLOST_STALE
  end.

Definition settleBeat (owner : LeaseOwner) (previous next : LeaseHealthState) (lossReason : option StructuredReason)
    (d : string) (seen : option LeaseItem) : M LeaseHealth :=
  (set_phase (ph_held owner next) ;;;
   (match lossReason with
    | Some r => set_loss (MkLoss (health next) r)
    | None => se_ret tt
    end) ;;;
   record (MkFacts (beatEvent (health previous) (health next)) owner (Some next) seen (Some d)) ;;;
   se_ret (health next))%se.

Definition session_heartbeatOnce : M LeaseHealth :=
  (s <- se_get ;;
   match phase s with
   | ph_held owner state =>
       if isLost (health state) then se_ret (health state)
       else
         issuedNs <- se_perform NowNs ;;
         let beforeWrite := nextLeaseHealth state (ob_clock issuedNs) in
         if bool_decide (health beforeWrite = LOST_STALE) then
           let r := leaseReason code_stale (staleDetail state issuedNs) in
           settleBeat owner state beforeWrite (Some r) (detail r) None
         else
           at_ <- wall_now ;;
           outcome <- heartbeat store owner (st_version state) at_ ;;
           judged <- judgeHeartbeat store outcome (MkAttempt owner (st_version state) issuedNs at_) ;;
           let next := nextLeaseHealth state (observation judged) in
           let r := lossReasonOf state next judged in
           settleBeat owner state next r (match r with Some x => detail x | None => j_detail judged end) (observed judged)
   | p => se_throw (PlainError ("heartbeatOnce() in phase " +:+ phase_name p
                                +:+ "; expected a session that holds the lease"))
   end)%se.

Definition settleFinal : M LeaseStatus :=
  (s <- se_get ;;
   let status := deriveFinalLeaseStatus (events s) in
   set_phase (ph_finalized status) ;;;
   se_ret status)%se.

Definition finalizeOwned (owner : LeaseOwner) (state : option LeaseHealthState) (closure : LeaseClosure) : M unit :=
  (verdict <- finalizeLease store owner closure (match state with Some s => st_version s | None => 1 end)
                (match state with Some _ => true | None => false end) ;;
   let after := match state with
                | None => None
                | Some s => Some (with_version s (default (st_version s) (v_version verdict)))
                end in
   record (MkFacts (v_event verdict) owner after (v_observed verdict) (Some (v_detail verdict))))%se.

Definition closure_text (c : LeaseClosure) : string := match c with clean => "clean" | unclean => "unclean" end.

Definition session_finalize (closure : LeaseClosure) : M LeaseStatus :=
  (s <- se_get ;;
   match phase s with
   | ph_finalized status => se_ret status
   | ph_idle => se_throw (PlainError ("finalize(" +:+ closure_text closure
                  +:+ ") before acquire(); expected a session that tried to acquire"))
   | ph_refused owner =>
       record (MkFacts EvRELEASED owner None None (Some "the acquisition was refused; this owner holds nothing")) ;;;
       settleFinal
   | ph_unresolved owner => finalizeOwned owner None closure ;;; settleFinal
   | ph_held owner state => finalizeOwned owner (Some state) closure ;;; settleFinal
   end)%se.
End session.

(** The synchronous readings of a session. *)
Definition publicationAllowed (s : Session) (nowNs : Z) : bool :=
  match phase s with ph_held _ state => isPublicationAllowed state nowNs | _ => false end.

Definition nextHeartbeatDelayMs (s : Session) (nowNs : Z) : Z :=
  match phase s with ph_held _ state => heartbeatDelayMs state nowNs | _ => 0 end.

End LeaseSession.
