(* ===== verification/LeaseSafety.v ===== *)
(** * Safety of the coordination lease

    Sessions of different owners share one lease row. The contract of the guarded
    lease store towards a session ([LeaseStoreContract]) is a rely-guarantee
    specification of its five methods; the durable store discharges it, and the
    session's operations are proved against it. Composing them
    ([Effects.system_invariant]) gives the safety of the lease over every
    interleaving, with store faults, throws and ambiguous writes. *)

From S2P Require Import Prelude Timestamps Effects Store JsonText LeaseItem LeaseHealth LeaseStore LeaseSession.
From stdpp Require Import functions.
Import Json Store Utc JsonText LeaseItem LeaseHealth LeaseStore LeaseSession.
Open Scope Z_scope.

Module LeaseSafety.

(** ** The row *)

Definition row (w : tables) : option StoredItem := w TABLE LEASE_ITEM_KEY.

Definition names_owner (o : LeaseOwner) (m : StoredItem) : Prop :=
  member "owner_kind" m = Some (JStr (kind_text (owner_kind o)))
  /\ member "owner_id" m = Some (JStr (owner_id o))
  /\ member "owner_manifest_sha256" m = Some (JStr (owner_manifest_sha256 o)).

Definition status_is (s : LeaseItemStatus) (m : StoredItem) : Prop :=
  member "lease_status" m = Some (JStr (status_text s)).

(** The row is this owner's, with this status. *)
Definition mine (o : LeaseOwner) (s : LeaseItemStatus) (r : option StoredItem) : Prop :=
  exists m, r = Some m /\ names_owner o m /\ status_is s m.

(** The row is this owner's and not released. *)
Definition unreleased (o : LeaseOwner) (r : option StoredItem) : Prop :=
  exists m, r = Some m /\ names_owner o m /\ ~ status_is RELEASED m.

Lemma names_owner_inj o o' m : names_owner o m -> names_owner o' m -> o = o'.
Proof.
  intros (H1 & H2 & H3) (H1' & H2' & H3'). rewrite H1' in H1. rewrite H2' in H2. rewrite H3' in H3.
  destruct o as [k i s], o' as [k' i' s']; simpl in *. simplify_eq. f_equal. by destruct k, k'.
Qed.

Lemma status_is_inj s s' m : status_is s m -> status_is s' m -> s = s'.
Proof. unfold status_is. intros -> H. by destruct s, s'. Qed.

Lemma mine_unreleased o s r : s <> RELEASED -> mine o s r -> unreleased o r.
Proof. intros Hs (m & ? & ? & Hm). exists m. split_and!; [done..|]. intros Hx. by apply Hs, (status_is_inj _ _ m). Qed.

Lemma mine_released o r : mine o RELEASED r -> ~ unreleased o r.
Proof. intros (m & ? & ? & ?) (m' & ? & ? & ?). by simplify_eq. Qed.

Lemma decoded_members m i :
  decodeLeaseItem m = Ok i ->
  (forall o, names_owner o m <-> item_owner i = o) /\ (forall s, status_is s m <-> lease_status i = s).
Proof.
  intros [_ H]%decode_members. unfold names_owner, status_is. rewrite !H. read_members i.
  split; [|intros s; destruct (lease_status i), s; naive_solver].
  intros o. split; [|by intros <-].
  intros (Hk & Hi & Hs). destruct (item_owner i) as [k id sha], o as [k' id' sha']; simpl in *.
  simplify_eq. f_equal. by destruct k, k'.
Qed.

(** ** Rely and guarantee of one owner *)

(** Others leave this owner's unreleased row alone and never write a row in its name. *)
Definition rely (o : LeaseOwner) (w w' : tables) : Prop :=
  (unreleased o (row w) -> row w' = row w)
  /\ (forall m, row w' = Some m -> names_owner o m -> row w' = row w).

(** This owner writes only rows in its own name, over no row, a released row or its own. *)
Definition guar (o : LeaseOwner) (w w' : tables) : Prop :=
  row w' = row w
  \/ ((row w = None \/ exists m, row w = Some m /\ (status_is RELEASED m \/ names_owner o m))
      /\ exists m', row w' = Some m' /\ names_owner o m').

#[export] Instance rely_preorder o : PreOrder (rely o).
Proof.
  split; [by split|]. intros w1 w2 w3 [A1 B1] [A2 B2]. split.
  - intros H. pose proof (A1 H) as E. rewrite <-E. apply A2. by rewrite E.
  - intros m Hm Hn. pose proof (B2 m Hm Hn) as E. rewrite E. apply (B1 m); [by rewrite <-E|done].
Qed.

Lemma guar_rely o o' w w' : o <> o' -> guar o w w' -> rely o' w w'.
Proof.
  intros Hne [H|[Hold (m' & Hm' & Hn')]]; [by split|]. split.
  - intros (m & Hm & Hn & Hr). destruct Hold as [Hold|(m0 & Hm0 & [Hr0|Hn0])]; [by simplify_eq| |].
    + rewrite Hm in Hm0. by simplify_eq.
    + rewrite Hm in Hm0. simplify_eq. destruct Hne. eauto using names_owner_inj.
  - intros m Hm Hn. destruct Hne. rewrite Hm in Hm'. simplify_eq. eauto using names_owner_inj.
Qed.

Lemma mine_stable o s w w' : s <> RELEASED -> mine o s (row w) -> rely o w w' -> mine o s (row w').
Proof. intros Hs Hm [A _]. rewrite A; [done|]. by eapply mine_unreleased. Qed.

Lemma not_unreleased_stable o w w' : ~ unreleased o (row w) -> rely o w w' -> ~ unreleased o (row w').
Proof. intros Hn [_ B] (m & Hm & Ho & Hr). apply Hn. rewrite <-(B m Hm Ho). by exists m. Qed.

(** What a session keeps while it runs: when [kp] holds, the row is its held row. *)
Definition keep (o : LeaseOwner) (kp : Prop) (w : tables) : Prop := kp -> mine o HELD (row w).

Lemma keep_stable o kp w w' : keep o kp w -> rely o w w' -> keep o kp w'.
Proof. intros H Hr Hk. eapply mine_stable; eauto. Qed.

(** ** The contract of the store towards one session *)

Definition read_view (r : option StoredItem) (x : Result (option LeaseItem) LeaseReadFailure) : Prop :=
  match x with
  | Err _ => True
  | Ok None => r = None
  | Ok (Some i) => exists m, r = Some m /\ decodeLeaseItem m = Ok i
  end.

(** A conditional write of this owner: it landed (reported or not) on its own row in one of
    the permitted statuses, or it did not land and was not reported as applied. *)
Inductive row_update (o : LeaseOwner) (from : list LeaseItemStatus) (to : option LeaseItemStatus) :
  WriteOutcome -> option StoredItem -> option StoredItem -> Prop :=
| ru_landed out s m m' :
    (out = applied \/ exists c, out = ambiguous c) -> s ∈ from ->
    names_owner o m -> status_is s m -> names_owner o m' -> status_is (default s to) m' ->
    row_update o from to out (Some m) (Some m')
| ru_lost out r : out <> applied -> row_update o from to out r r.

Definition acquire_landed (o : LeaseOwner) (at_ : Z) (r : option StoredItem) : Prop :=
  exists i, acquiredLeaseItem o at_ = Ok i /\ r = Some (toStoredItem i).

Definition acquire_view (o : LeaseOwner) (at_ : Z) (out : WriteOutcome) (r : option StoredItem) : Prop :=
  match out with
  | applied => acquire_landed o at_ r
  | ambiguous _ => ~ unreleased o r \/ acquire_landed o at_ r
  | _ => ~ unreleased o r
  end.

Section contract.
Context (o : LeaseOwner) (kp : Prop).

Abbreviation spec := (rgs lease_step (rely o) (guar o) (keep o kp)).

(** The shape of a conditional update's specification. *)
Definition update_spec {St} (m : SE LeaseEff St js_error WriteOutcome) (from : list LeaseItemStatus)
    (to : option LeaseItemStatus) : Prop :=
  forall (Q : St -> Result WriteOutcome js_error -> tables -> Prop) st w, keep o kp w ->
    (forall w1 out w2, rely o w w1 -> keep o kp w2 -> row_update o from to out (row w1) (row w2) -> Q st (Ok out) w2) ->
    spec m Q st w.

Definition read_spec {St} (m : SE LeaseEff St js_error (Result (option LeaseItem) LeaseReadFailure)) : Prop :=
  forall (Q : St -> Result (Result (option LeaseItem) LeaseReadFailure) js_error -> tables -> Prop) st w, keep o kp w ->
    (forall w1 x, rely o w w1 -> keep o kp w1 -> read_view (row w1) x -> Q st (Ok x) w1) ->
    spec m Q st w.
End contract.

(** What the lease store promises to a session. *)
Class LeaseStoreContract {St} (store : LeaseStorePort St) : Prop := {
  contract_read o kp : read_spec o kp (read store);
  contract_heartbeat o kp v at_ : update_spec o kp (heartbeat store o v at_) [HELD] None;
  contract_release o v at_ : update_spec o False (release store o v at_) [HELD; RECOVERY_REQUIRED] (Some RELEASED);
  contract_mark o v at_ :
    update_spec o False (markRecoveryRequired store o v at_) [HELD] (Some RECOVERY_REQUIRED);
  contract_acquire o at_ (Q : St -> Result WriteOutcome js_error -> tables -> Prop) st w :
    ~ unreleased o (row w) ->
    (forall out w', acquire_view o at_ out (row w') -> Q st (Ok out) w') ->
    rgs lease_step (rely o) (guar o) (keep o False) (acquire store o at_) Q st w;
}.

(** ** Rules for the effects *)

Section rules.
Context (o : LeaseOwner) (kp : Prop) {St : Type}.
Abbreviation spec := (rgs lease_step (rely o) (guar o) (keep o kp)).

Lemma spec_quiet {R} (e : LeaseEff R) (Q : St -> Result R js_error -> tables -> Prop) st w :
  (forall w r w', lease_step R e w r w' -> w' = w) -> keep o kp w ->
  (forall w1 r, rely o w w1 -> keep o kp w1 -> Q st (Ok r) w1) ->
  spec (se_perform e) Q st w.
Proof.
  intros He Hk HQ. apply rgs_perform. intros w1 Hr r w2 Hs. apply He in Hs as ->.
  pose proof (keep_stable _ _ _ _ Hk Hr). split; [by left|]. auto.
Qed.

Lemma spec_wall_now (Q : St -> Result Z js_error -> tables -> Prop) st w :
  keep o kp w ->
  (forall w1 x, rely o w w1 -> keep o kp w1 ->
     match x with Ok ms => in_utc_range ms | Err _ => True end -> Q st x w1) ->
  spec wall_now Q st w.
Proof.
  intros Hk HQ. apply rgs_bind, spec_quiet; [done|done|]. intros w1 d Hr Hk1. unfold rgs, se_of. cbn [rg fst snd].
  apply HQ; [done..|]. destruct d as [ms|].
  - destruct (format_instant ms) as [z|] eqn:E; [|done]. apply format_instant_ok in E. naive_solver.
  - by destruct format_utc_none as [m ->].
Qed.

Lemma spec_store_get (Q : St -> Result (Result (option StoredItem) string) js_error -> tables -> Prop) st w :
  keep o kp w ->
  (forall w1 x, rely o w w1 -> keep o kp w1 ->
     match x with Ok (Ok r) => r = row w1 | _ => True end -> Q st x w1) ->
  spec (store_get_call TABLE LEASE_ITEM_KEY) Q st w.
Proof.
  intros Hk HQ. apply rgs_bind, rgs_perform. intros w1 Hr r w2 [Hs ->].
  pose proof (keep_stable _ _ _ _ Hk Hr). split; [by left|]. split; [done|].
  destruct Hs as [x Hs|e]; unfold rgs, se_of; simpl; apply HQ; try done. by destruct Hs.
Qed.
End rules.

(** ** The durable store satisfies the contract *)

Definition outcome_of (r : Result WriteOutcome js_error) : WriteOutcome :=
  match r with Ok out => out | Err e => ambiguous (threw_code e) end.

Lemma spec_store_write {St} o kp a (Q : St -> Result WriteOutcome js_error -> tables -> Prop) st w :
  action_target a = Some (TABLE, LEASE_ITEM_KEY) ->
  (forall w1 r w2, rely o w w1 -> write_step (row w1) a (outcome_of r) (row w2) ->
     guar o w1 w2 /\ keep o kp w2 /\ Q st r w2) ->
  rgs lease_step (rely o) (guar o) (keep o kp) (store_write_call a) Q st w.
Proof.
  intros Ht HQ. apply rgs_bind, rgs_perform. intros w1 Hr r w2 Hs. simpl in Hs.
  apply (fun H => store_write_row _ _ _ _ _ _ threw_code H Ht) in Hs.
  destruct (HQ w1 r w2 Hr Hs) as (? & ? & ?). split_and!; [done..|]. by destruct r.
Qed.

Lemma scalar_matches_str v s : scalar_matches v (SStr s) = true <-> v = Some (JStr s).
Proof.
  destruct v as [[| |[]| | |]|]; simpl; try (split; done). rewrite bool_decide_eq_true. naive_solver.
Qed.

Lemma ownedAt_holds o v from r :
  condition_holds r (ownedAt o v from) = true ->
  exists m s, r = Some m /\ names_owner o m /\ s ∈ from /\ status_is s m.
Proof.
  unfold ownedAt. simpl. destruct r as [m|]; [|done]. rewrite !andb_true_iff, !scalar_matches_str.
  intros (Hk & Hi & Hs & _ & Hst & _). destruct (as_string (member "lease_status" m)) as [t|] eqn:E; [|done].
  apply bool_decide_eq_true, list_elem_of_fmap in Hst as (s & -> & Hin).
  exists m, s. split_and!; [done..|]. unfold status_is. clear -E. destruct (member "lease_status" m) as [[]|]; by simplify_eq/=.
Qed.


Ltac read_set :=
  unfold set_members, heartbeat_set, status_set; cbn [set_member fold_left];
  repeat (first [rewrite bool_decide_eq_false_2 by discriminate | rewrite bool_decide_eq_true_2 by reflexivity];
          cbn [set_member fold_left]);
  rewrite !member_set_member;
  repeat first [rewrite bool_decide_eq_false_2 by discriminate | rewrite bool_decide_eq_true_2 by reflexivity].

Lemma heartbeat_update_members v at_ e o m :
  let m' := set_members (set_member "lease_version" (JNum (JSInt v)) (heartbeat_set at_ e)) m in
  (names_owner o m -> names_owner o m') /\ (forall s, status_is s m -> status_is s m').
Proof. cbn zeta. unfold names_owner, status_is. read_set. done. Qed.

Lemma status_update_members v at_ s' o m :
  let m' := set_members (set_member "lease_version" (JNum (JSInt v)) (status_set s' at_)) m in
  (names_owner o m -> names_owner o m') /\ status_is s' m'.
Proof. cbn zeta. unfold names_owner, status_is. read_set. done. Qed.

Lemma owned_update_row o v from to set out r r' :
  (forall m, names_owner o m -> names_owner o (set_members (set_member "lease_version" (JNum (JSInt (v + 1))) set) m)) ->
  (forall m s, status_is s m ->
     status_is (default s to) (set_members (set_member "lease_version" (JNum (JSInt (v + 1))) set) m)) ->
  write_step r (owned_update o v from set) out r' -> row_update o from to out r r'.
Proof.
  intros Hn Hs H.
  assert (Hl : (out = applied \/ exists c, out = ambiguous c) -> action_holds r (owned_update o v from set) = true ->
    row_update o from to out r (apply_action r (owned_update o v from set))).
  { intros Hout (m & s & -> & Ho & Hin & Hst)%ownedAt_holds. by eapply ru_landed; eauto. }
  destruct H; try (by apply ru_lost); apply Hl; eauto.
Qed.

Lemma guarded_update_spec {St} o kp v from to set :
  (forall m, names_owner o m -> names_owner o (set_members (set_member "lease_version" (JNum (JSInt (v + 1))) set) m)) ->
  (forall m s, status_is s m ->
     status_is (default s to) (set_members (set_member "lease_version" (JNum (JSInt (v + 1))) set) m)) ->
  (kp -> default HELD to = HELD) ->
  update_spec (St:=St) o kp (guardedWrite (updateOwnedLease o v from set)) from to.
Proof.
  intros Hn Hst Hkp Q st w Hk HQ. apply rgs_catch, spec_store_write; [done|].
  intros w1 r w2 Hr Hs. apply (owned_update_row _ _ _ to) in Hs; [|done..].
  assert (Hk1 : keep o kp w1) by (by eapply keep_stable).
  assert (Hk2 : keep o kp w2).
  { intros kph. specialize (Hk1 kph). specialize (Hkp kph). destruct Hk1 as (m & Hm & Ho & Hheld).
    rewrite Hm in Hs. inversion Hs as [out s m0 m' Hout Hin Ho0 Hs0 Ho' Hs' Heq Hm0 Hm'|]; subst; [|by exists m].
    assert (s = HELD) as -> by (by eapply status_is_inj). rewrite Hkp in Hs'. by exists m'. }
  split; [|split; [done|by eapply HQ]].
  destruct (row w1) as [m|] eqn:E1; inversion Hs as [out s m0 m' Hout Hin Ho0 Hs0 Ho' Hs' Heq Hm0 Hm'|]; subst.
  - right. split; [right; eauto|eauto].
  - left. congruence.
  - left. congruence.
Qed.

(** A put over no row or a released row. *)
Definition free_row (r : option StoredItem) : Prop :=
  r = None \/ exists m, r = Some m /\ status_is RELEASED m.

Lemma acquired_owner o at_ i : acquiredLeaseItem o at_ = Ok i -> item_owner i = o.
Proof. unfold acquiredLeaseItem. destruct (leaseExpiry at_); by intros [= <-]. Qed.

Lemma stored_names_owner i : names_owner (item_owner i) (toStoredItem i).
Proof. unfold names_owner. read_members i. done. Qed.

Lemma sameReleasedItem_free old r : condition_holds r (sameReleasedItem old) = true -> free_row r.
Proof.
  unfold sameReleasedItem. simpl. destruct r as [m|]; [|done].
  rewrite andb_true_iff, scalar_matches_str. intros [H _]. right. by exists m.
Qed.

Lemma put_acquired_row o at_ i c out w1 w2 :
  acquiredLeaseItem o at_ = Ok i -> ~ unreleased o (row w1) ->
  (condition_holds (row w1) c = true -> free_row (row w1)) ->
  write_step (row w1) (put TABLE (toStoredItem i) (Some c)) out (row w2) ->
  guar o w1 w2 /\ acquire_view o at_ out (row w2).
Proof.
  intros Hi Hn Hc H. pose proof (acquired_owner _ _ _ Hi) as Ho.
  assert (Hl : condition_holds (row w1) c = true -> row w2 = Some (toStoredItem i) -> guar o w1 w2).
  { intros Hh E. right. split.
    - destruct (Hc Hh) as [?|(m & ? & ?)]; eauto.
    - exists (toStoredItem i). split; [done|]. rewrite <-Ho. apply stored_names_owner. }
  remember (row w2) as r2 eqn:E2. destruct H as [Hh|ex Hh Hex|cd|cd|cd Hh]; simpl.
  - split; [by apply Hl|]. by exists i.
  - split; [by left|done].
  - split; [by left|done].
  - split; [by left|by left].
  - split; [by apply Hl|]. right. by exists i.
Qed.

Lemma guarded_acquire_spec {St} o at_ (Q : St -> Result WriteOutcome js_error -> tables -> Prop) st w :
  ~ unreleased o (row w) ->
  (forall out w', acquire_view o at_ out (row w') -> Q st (Ok out) w') ->
  rgs lease_step (rely o) (guar o) (keep o False) (guardedWrite (acquireLease o at_)) Q st w.
Proof.
  intros Hn HQ. apply rgs_catch, rgs_bind. unfold rgs at 1, se_of. simpl.
  destruct (acquiredLeaseItem o at_) as [i|e] eqn:Hi; [|apply HQ; by left].
  apply rgs_bind, spec_store_write; [done|]. intros w1 r w2 Hr Hs.
  apply (put_acquired_row _ _ _ _ _ _ _ Hi) in Hs as [Hg Hv];
    [|by eapply not_unreleased_stable|intros Hc; left; by apply bool_decide_eq_true in Hc].
  split_and!; [done|by intros []|]. destruct r as [out|e]; [|by apply HQ].
  destruct (releasedHolder out) as [old|] eqn:Eo; [|unfold rgs, se_ret; simpl; by apply HQ].
  assert (~ unreleased o (row w2)) by (destruct out; done).
  apply spec_store_write; [done|]. intros w3 r w4 Hr' Hs.
  apply (put_acquired_row _ _ _ _ _ _ _ Hi) in Hs as [Hg' Hv'];
    [|by eapply not_unreleased_stable|apply sameReleasedItem_free].
  split_and!; [done|by intros []|]. destruct r; by apply HQ.
Qed.

Lemma guarded_read_spec {St} o kp : read_spec (St:=St) o kp (guardedRead readLease).
Proof.
  intros Q st w Hk HQ. apply rgs_catch, rgs_bind, spec_store_get; [done|].
  intros w1 x Hr Hk1 Hx. destruct x as [[[m|]|c]|e]; unfold rgs, se_ret; simpl; apply HQ; try done.
  simpl. destruct (decodeLeaseItem m) eqn:E; simpl; eauto.
Qed.

#[export] Instance durable_store_contract {St} :
  LeaseStoreContract (St:=St) (guardLeaseStore createDurableLeaseStore).
Proof.
  split; simpl.
  - intros. apply guarded_read_spec.
  - intros o kp v at_ Q st w Hk HQ. destruct (leaseExpiry at_) as [e|e].
    + refine (guarded_update_spec o kp v [HELD] None (heartbeat_set at_ e) _ _ _ Q st w Hk HQ);
        [intros m|intros m s|done]; by apply heartbeat_update_members.
    + unfold rgs. simpl. by eapply HQ; [|done|constructor].
  - intros. apply guarded_update_spec; [intros m|intros m s _|done]; by apply status_update_members.
  - intros. apply guarded_update_spec; [intros m|intros m s _|done]; by apply status_update_members.
  - intros. by apply guarded_acquire_spec.
Qed.

(** ** The session against the contract *)

Definition no_final (es : list LeaseEvent) : Prop := Forall (fun e => FINAL_STATUS_OF_EVENT e = None) es.

(** The session holds the lease and has not tried to settle it. *)
Definition holding (st : Session) : Prop :=
  (exists o s, phase st = ph_held o s) /\ no_final (events st).

Definition final_view (o : LeaseOwner) (s : LeaseStatus) (r : option StoredItem) : Prop :=
  match s with
  | released => ~ unreleased o r
  | recovery_required => mine o RECOVERY_REQUIRED r
  | unverified => True
  end.

(** The invariant of one session between its operations. *)
Definition session_inv (o : LeaseOwner) (st : Session) (w : tables) : Prop :=
  match phase st with
  | ph_idle => ~ unreleased o (row w)
  | ph_refused o' => o' = o /\ ~ unreleased o (row w)
  | ph_unresolved o' => o' = o
  | ph_held o' _ => o' = o /\ (no_final (events st) -> mine o HELD (row w))
  | ph_finalized s => final_view o s (row w)
  end.

Lemma final_view_stable o s w w' : final_view o s (row w) -> rely o w w' -> final_view o s (row w').
Proof. destruct s; simpl; [apply not_unreleased_stable|by apply mine_stable|done]. Qed.

Lemma session_inv_stable o st w w' : session_inv o st w -> rely o w w' -> session_inv o st w'.
Proof.
  unfold session_inv. destruct (phase st); try done.
  - apply not_unreleased_stable.
  - intros [? H] Hr. split; [done|]. by eapply not_unreleased_stable.
  - intros [? H] Hr. split; [done|]. intros Hf. eapply mine_stable; eauto.
  - apply final_view_stable.
Qed.

Lemma derive_snoc es e s : FINAL_STATUS_OF_EVENT e = Some s -> deriveFinalLeaseStatus (es ++ [e]) = s.
Proof.
  intros H. unfold deriveFinalLeaseStatus. rewrite omap_app. simpl. by rewrite H, last_snoc.
Qed.

Section session_safety.
Context (store : LeaseStorePort Session) `{!LeaseStoreContract store} (o : LeaseOwner).

Lemma spec_record kp facts (Q : Session -> Result unit js_error -> tables -> Prop) st w :
  keep o kp w ->
  (forall w1 x, rely o w w1 -> keep o kp w1 ->
     Q (MkSession (events st ++ [f_event facts]) (phase st) (loss st)) x w1) ->
  rgs lease_step (rely o) (guar o) (keep o kp) (record facts) Q st w.
Proof.
  intros Hk HQ. apply rgs_bind. unfold rgs at 1. simpl. apply rgs_bind, spec_quiet; [done|done|].
  intros w1 r Hr Hk1. unfold rgs, se_of. simpl. by apply HQ.
Qed.

(** *** Acquisition *)

Definition resolution_view (res : AcquisitionResolution) (r : option StoredItem) : Prop :=
  match res with
  | ar_acquired _ => mine o HELD r
  | ar_refused _ _ => ~ unreleased o r
  | ar_unresolved _ _ => True
  end.

Lemma acquired_item_wf at_ i : wf_owner o -> in_utc_range at_ -> acquiredLeaseItem o at_ = Ok i ->
  wf_item i /\ acquisitionLanded i o at_ = true.
Proof.
  intros Ho Ha H. unfold acquiredLeaseItem, leaseExpiry in H.
  destruct (format_instant _) as [e|] eqn:E; [|done]. apply format_instant_ok in E as [-> He]. injection H as <-.
  split; [unfold wf_item; simpl; unfold MAX_SAFE_INTEGER; split_and!; done || lia|].
  unfold acquisitionLanded. rewrite (proj2 (isOwnedBy_true _ _)) by done. simpl. by rewrite Z.eqb_refl.
Qed.

Lemma acquire_landed_mine at_ r : acquire_landed o at_ r -> mine o HELD r.
Proof.
  intros (i & Hi & ->). exists (toStoredItem i). split; [done|].
  rewrite <-(acquired_owner _ _ _ Hi) at 1. split; [apply stored_names_owner|].
  unfold status_is. read_members i. unfold acquiredLeaseItem in Hi. by destruct (leaseExpiry at_); simplify_eq/=.
Qed.

Lemma conflict_not_landed at_ m i w w1 :
  wf_owner o -> in_utc_range at_ -> ~ unreleased o (row w) \/ acquire_landed o at_ (row w) -> rely o w w1 ->
  row w1 = Some m -> decodeLeaseItem m = Ok i -> acquisitionLanded i o at_ = false -> ~ unreleased o (row w1).
Proof.
  intros Ho Ha [Hn|Hl] Hr Hm Hd Hf; [by eapply not_unreleased_stable|].
  pose proof (acquire_landed_mine _ _ Hl) as Hmine. destruct Hl as (i0 & Hi0 & Hrow).
  destruct (acquired_item_wf _ _ Ho Ha Hi0) as [Hwf Hland].
  rewrite (proj1 Hr) in Hm by (by apply (mine_unreleased o HELD)). rewrite Hrow in Hm. simplify_eq.
  rewrite decode_toStoredItem in Hd by done. congruence.
Qed.

Lemma resolveAcquisition_spec at_ out (Q : Session -> Result AcquisitionResolution js_error -> tables -> Prop) st w :
  wf_owner o -> in_utc_range at_ -> acquire_view o at_ out (row w) ->
  (forall res w', resolution_view res (row w') -> Q st (Ok res) w') ->
  rgs lease_step (rely o) (guar o) (keep o False) (resolveAcquisition store o at_ out) Q st w.
Proof.
  intros Ho Ha Hv HQ. destruct out as [|n ex|c|c]; simpl in *.
  - apply HQ. simpl. by eapply acquire_landed_mine.
  - apply HQ. destruct ex as [m|]; simpl; [|done]. by destruct (decodeLeaseItem m).
  - by apply HQ.
  - apply rgs_bind, contract_read; [by intros []|]. intros w1 x Hr _ Hx. apply HQ.
    destruct x as [[i|]|]; simpl in *; [|intros (? & ? & _); congruence|done].
    destruct Hx as (m & Hm & Hd). destruct (acquisitionLanded i o at_) eqn:E; simpl.
    + unfold acquisitionLanded in E. boolp. apply decoded_members in Hd as [Hn Hst].
      exists m. split; [done|]. rewrite Hn, Hst. split; [by apply isOwnedBy_true|done].
    + by eapply conflict_not_landed.
Qed.

(** After the phase is set and the event recorded, the session's invariant holds. *)
Lemma set_phase_record_spec {A} kp (p : SessionPhase) facts (a : A) st w :
  keep o kp w ->
  (forall w1, rely o w w1 -> keep o kp w1 ->
     session_inv o (MkSession (events st ++ [f_event facts]) p (loss st)) w1) ->
  rgs lease_step (rely o) (guar o) (keep o kp)
    (set_phase p ;;; record facts ;;; se_ret a)%se (fun st' _ w' => session_inv o st' w') st w.
Proof.
  intros Hk HQ. apply rgs_bind. unfold rgs at 1. simpl. apply rgs_bind, spec_record; [done|].
  intros w1 x Hr Hk1. destruct x; [unfold rgs; simpl|]; by apply HQ.
Qed.

Lemma session_acquire_spec st w :
  wf_owner o -> session_inv o st w ->
  rgs lease_step (rely o) (guar o) (keep o False) (session_acquire store o)
    (fun st' _ w' => session_inv o st' w') st w.
Proof.
  intros Ho Hinv. apply rgs_bind. unfold rgs at 1. simpl.
  destruct (phase st) eqn:Ep; [|exact Hinv..]. unfold session_inv in Hinv. rewrite Ep in Hinv.
  apply rgs_bind, spec_quiet; [done|by intros []|]. intros w1 issued Hr1 _.
  apply rgs_bind, spec_wall_now; [by intros []|]. intros w2 [at_|e] Hr2 _ Hat.
  2: { unfold session_inv. rewrite Ep. eauto using not_unreleased_stable. }
  apply rgs_bind, contract_acquire; [eauto using not_unreleased_stable|]. intros out w3 Hv.
  apply rgs_bind, resolveAcquisition_spec; [done..|]. intros res w4 Hres.
  destruct res; (apply set_phase_record_spec; [by intros []|]); intros w5 Hr5 _; unfold session_inv; simpl in *; [|eauto using not_unreleased_stable|done].
  split; [done|]. intros _. by eapply mine_stable.
Qed.

(** *** Heartbeat *)

(** A heartbeat's judgement reads; it keeps what the session keeps and may say anything. *)
Definition judges (kp : Prop) (m : SE LeaseEff Session js_error HeartbeatJudgement) : Prop :=
  forall (Q : Session -> Result HeartbeatJudgement js_error -> tables -> Prop) st w,
    keep o kp w -> (forall w1 j, keep o kp w1 -> Q st (Ok j) w1) ->
    rgs lease_step (rely o) (guar o) (keep o kp) m Q st w.

Lemma now_judges kp (g : Z -> HeartbeatJudgement) : judges kp (now <- se_perform NowNs ;; se_ret (g now))%se.
Proof.
  intros Q st w Hk HQ. apply rgs_bind, spec_quiet; [done|done|]. intros w1 r _ Hk1. unfold rgs. simpl. by apply HQ.
Qed.

Lemma judgeItem_judges kp i attempt context : judges kp (judgeItem i attempt context).
Proof. unfold judgeItem. destruct (_ && _); apply now_judges. Qed.

Lemma judgeRead_judges kp r attempt context : judges kp (judgeRead r attempt context).
Proof.
  unfold judgeRead. destruct r as [[i|]|e]; [apply judgeItem_judges|apply now_judges|].
  destruct (bool_decide _); apply now_judges.
Qed.

Lemma read_then_judges kp (k : Result (option LeaseItem) LeaseReadFailure -> SE LeaseEff Session js_error HeartbeatJudgement) :
  (forall r, judges kp (k r)) -> judges kp (r <- read store ;; k r)%se.
Proof.
  intros Hj Q st w Hk HQ. apply rgs_bind, contract_read; [done|]. intros w1 x _ Hk1 _. by apply Hj.
Qed.

Lemma judgeHeartbeat_judges kp out attempt : judges kp (judgeHeartbeat store out attempt).
Proof.
  destruct out as [|n ex|c|c]; simpl.
  - apply now_judges.
  - destruct ex as [m|]; simpl; [destruct (decodeLeaseItem m); [apply judgeItem_judges|apply now_judges]|].
    apply read_then_judges. intros r. apply judgeRead_judges.
  - apply now_judges.
  - apply read_then_judges. intros r. destruct (match r with Ok (Some _) => _ | _ => _ end);
      [apply now_judges|apply judgeRead_judges].
Qed.

Lemma beatEvent_not_final a b : FINAL_STATUS_OF_EVENT (beatEvent a b) = None.
Proof. unfold beatEvent. by destruct b; [destruct (bool_decide _)|..]. Qed.

Lemma settleBeat_spec kp previous next r d seen st w :
  (no_final (events st) -> kp) -> keep o kp w ->
  rgs lease_step (rely o) (guar o) (keep o kp) (settleBeat o previous next r d seen)
    (fun st' _ w' => session_inv o st' w') st w.
Proof.
  intros Hkp Hk. apply rgs_bind. unfold rgs at 1. simpl. apply rgs_bind.
  assert (Hrec : forall l, rgs lease_step (rely o) (guar o) (keep o kp)
    (record (MkFacts (beatEvent (health previous) (health next)) o (Some next) seen (Some d)) ;;; se_ret (health next))%se
    (fun st' _ w' => session_inv o st' w') (MkSession (events st) (ph_held o next) l) w).
  { intros l. apply rgs_bind, spec_record; [done|]. intros w1 x Hr Hk1.
    assert (session_inv o (MkSession (events st ++ [beatEvent (health previous) (health next)]) (ph_held o next) l) w1).
    { split; [done|]. intros [Hf _]%Forall_app. auto. }
    by destruct x. }
  destruct r; unfold rgs at 1; simpl; apply Hrec.
Qed.

Lemma session_heartbeat_spec st w :
  session_inv o st w ->
  rgs lease_step (rely o) (guar o) (keep o (holding st)) (session_heartbeatOnce store)
    (fun st' _ w' => session_inv o st' w') st w.
Proof.
  intros Hinv. apply rgs_bind. unfold rgs at 1. simpl.
  destruct (phase st) as [| | |o' s|] eqn:Ep; try exact Hinv.
  destruct (isLost (health s)); [exact Hinv|]. unfold session_inv in Hinv. rewrite Ep in Hinv. destruct Hinv as [-> Hm].
  assert (Hk : keep o (holding st) w) by (intros [_ Hf]; auto).
  assert (Hkp : no_final (events st) -> holding st) by (intros Hf; split; eauto).
  apply rgs_bind, spec_quiet; [done|done|]. intros w1 issued Hr1 Hk1.
  case_bool_decide; [by apply settleBeat_spec|].
  apply rgs_bind, spec_wall_now; [done|]. intros w2 [at_|e] Hr2 Hk2 _.
  2: { unfold session_inv. rewrite Ep. split; [done|]. intros Hf. apply Hk2. auto. }
  apply rgs_bind, contract_heartbeat; [done|]. intros w3 out w4 Hr3 Hk4 _.
  apply rgs_bind, judgeHeartbeat_judges; [done|]. intros w5 j Hk5. by apply settleBeat_spec.
Qed.

(** *** Finalization *)

Definition verdict_view (v : FinalizationVerdict) (r : option StoredItem) : Prop :=
  match FINAL_STATUS_OF_EVENT (v_event v) with Some s => final_view o s r | None => False end.

(** A finalization either throws before writing anything or reaches a true verdict. *)
Definition finalizes (m : SE LeaseEff Session js_error FinalizationVerdict) : Prop :=
  forall (Q : Session -> Result FinalizationVerdict js_error -> tables -> Prop) st w,
    (forall w1 v, verdict_view v (row w1) -> Q st (Ok v) w1) ->
    (forall w1 e, rely o w w1 -> Q st (Err e) w1) ->
    rgs lease_step (rely o) (guar o) (keep o False) m Q st w.

Lemma final_event_view closure r v :
  mine o (final_status closure) r -> v_event v = final_event closure -> verdict_view v r.
Proof.
  intros Hm Hv. unfold verdict_view. rewrite Hv. destruct closure; simpl in *; [by apply mine_released|done].
Qed.

Lemma decoded_mine m i r s :
  r = Some m -> decodeLeaseItem m = Ok i -> isOwnedBy i o = true -> lease_status i = s -> mine o s r.
Proof.
  intros -> Hd Ho Hs. apply decoded_members in Hd as [Hn Hst]. exists m. rewrite Hn, Hst.
  split_and!; [done| |done]. by apply isOwnedBy_true.
Qed.

Lemma resolveAmbiguousFinal_spec closure context (Q : Session -> Result FinalizationVerdict js_error -> tables -> Prop) st w :
  (forall w1 v, verdict_view v (row w1) -> Q st (Ok v) w1) ->
  rgs lease_step (rely o) (guar o) (keep o False) (resolveAmbiguousFinal store o closure context) Q st w.
Proof.
  intros HQ. apply rgs_bind, contract_read; [by intros []|]. intros w1 x _ _ Hx. apply HQ.
  destruct x as [[i|]|e]; [|done..]. destruct Hx as (m & Hm & Hd).
  destruct (_ && _) eqn:E; [|done]. boolp. eapply final_event_view; [|done]. by eapply decoded_mine.
Qed.

Lemma final_write_spec closure v at_ :
  update_spec o False (match closure with clean => release store o v at_ | unclean => markRecoveryRequired store o v at_ end)
    (match closure with clean => [HELD; RECOVERY_REQUIRED] | unclean => [HELD] end) (Some (final_status closure)).
Proof. destruct closure; [apply contract_release|apply contract_mark]. Qed.

Lemma writeFinal_spec closure version context : finalizes (writeFinal store o closure version context).
Proof.
  intros Q st w HQ HE. apply rgs_bind, spec_wall_now; [by intros []|]. intros w1 [at_|e] Hr1 _ _; [|by apply HE].
  apply rgs_bind, final_write_spec; [by intros []|]. intros w2 out w3 Hr2 _ Hu.
  destruct out as [|n ex|c|c].
  - apply HQ. eapply final_event_view; [|done].
    inversion Hu as [out s m m' Hout Hin Hn Hs Hn' Hs' E1 E2 E3|]; [by exists m'|done].
  - apply HQ. by destruct closure.
  - apply HQ. by destruct closure.
  - by apply resolveAmbiguousFinal_spec.
Qed.

Lemma finalizeLease_spec closure known held : finalizes (finalizeLease store o closure known held).
Proof.
  intros Q st w HQ HE. apply rgs_bind, contract_read; [by intros []|]. intros w1 x Hr1 _ Hx.
  assert (HE1 : forall w2 e, rely o w1 w2 -> Q st (Err e) w2) by (intros; apply HE; by etrans).
  assert (Hno : forall i, ~ unreleased o (row w1) -> verdict_view (notOwned held i) (row w1)).
  { intros i Hn. unfold notOwned. by destruct held. }
  destruct x as [[i|]|e]; [| |by apply writeFinal_spec].
  - destruct Hx as (m & Hm & Hd). destruct (isOwnedBy i o) eqn:Eo; simpl.
    + case_bool_decide as Hr; [|case_bool_decide as Hrr; simpl; [case_bool_decide|]];
        try (by apply writeFinal_spec); apply HQ; unfold verdict_view; simpl.
      * apply mine_released. by eapply decoded_mine.
      * by eapply decoded_mine.
    + apply HQ, Hno. intros (m' & Hm' & Hn & _). apply decoded_members in Hd as [Hd _].
      rewrite Hm in Hm'. simplify_eq. apply Hd, isOwnedBy_true in Hn. congruence.
  - apply HQ, Hno. intros (m & Hm & _). congruence.
Qed.

Lemma settleFinal_spec kp e s st w :
  FINAL_STATUS_OF_EVENT e = Some s -> final_view o s (row w) ->
  rgs lease_step (rely o) (guar o) (keep o kp) settleFinal (fun st' _ w' => session_inv o st' w')
    (MkSession (events st ++ [e]) (phase st) (loss st)) w.
Proof.
  intros He Hv. unfold rgs, settleFinal. simpl. unfold session_inv. simpl. by rewrite (derive_snoc _ _ _ He).
Qed.

Lemma finalizeOwned_spec state closure st w :
  session_inv o st w -> (exists s, phase st = ph_held o s) \/ phase st = ph_unresolved o ->
  rgs lease_step (rely o) (guar o) (keep o False) (finalizeOwned store o state closure ;;; settleFinal)%se
    (fun st' _ w' => session_inv o st' w') st w.
Proof.
  intros Hinv Hph. apply rgs_bind, rgs_bind, finalizeLease_spec.
  2: { intros w1 e Hr. by eapply session_inv_stable. }
  intros w1 v Hv. apply spec_record; [by intros []|]. intros w2 x Hr2 _. unfold verdict_view in Hv. simpl.
  destruct (FINAL_STATUS_OF_EVENT (v_event v)) as [s|] eqn:Es; [|done].
  destruct x; [eapply settleFinal_spec; [done|by eapply final_view_stable]|].
  unfold session_inv. simpl. destruct Hph as [[s' ->]| ->]; [|done].
  split; [done|]. intros [_ Hf]%Forall_app. inversion Hf. congruence.
Qed.

Lemma session_finalize_spec closure st w :
  session_inv o st w ->
  rgs lease_step (rely o) (guar o) (keep o False) (session_finalize store closure)
    (fun st' _ w' => session_inv o st' w') st w.
Proof.
  intros Hinv. apply rgs_bind. unfold rgs at 1. simpl. pose proof Hinv as Hi. unfold session_inv in Hi.
  destruct (phase st) as [|o'|o'|o' s|] eqn:Ep; try exact Hinv.
  - destruct Hi as [-> Hi]. apply rgs_bind, spec_record; [by intros []|]. intros w1 x Hr _.
    apply (not_unreleased_stable _ _ _ Hi) in Hr. destruct x; [by eapply settleFinal_spec|].
    unfold session_inv. simpl. by rewrite Ep.
  - subst o'. apply finalizeOwned_spec; eauto.
  - destruct Hi as [-> Hi]. apply finalizeOwned_spec; eauto.
Qed.
End session_safety.

(** ** Sessions of different owners over one row *)

Inductive lease_op := OpAcquire | OpHeartbeat | OpFinalize (closure : LeaseClosure).

(** The fields of the session after an operation, whatever it returned or threw. *)
Definition fields_of {A} (m : M A) (st : Session) : proc LeaseEff Session :=
  pbind (m st) (fun p => Ret p.1).

(** The operations of a session over the guarded durable store. *)
Definition session_op (owner : LeaseOwner) (op : lease_op) (st : Session) : proc LeaseEff Session :=
  let store := guardLeaseStore createDurableLeaseStore in
  match op with
  | OpAcquire => fields_of (session_acquire store owner) st
  | OpHeartbeat => fields_of (session_heartbeatOnce store) st
  | OpFinalize closure => fields_of (session_finalize store closure) st
  end.

Definition keep_op (o : LeaseOwner) (op : lease_op) (st : Session) (w : tables) : Prop :=
  keep o (match op with OpHeartbeat => holding st | _ => False end) w.

Lemma fields_of_rg {A} o kp (m : M A) st w :
  rgs lease_step (rely o) (guar o) (keep o kp) m (fun st' _ w' => session_inv o st' w') st w ->
  rg lease_step (rely o) (guar o) (keep o kp) (fields_of m st) (session_inv o) w.
Proof. intros H. apply rg_bind. exact H. Qed.

Section system.
Context {I : Type} `{!EqDecision I} (owner : I -> LeaseOwner).

Abbreviation lease_system_step := (sys_step lease_step (fun i => session_op (owner i))).

Lemma lease_rg_system :
  Inj (=) (=) owner -> (forall i, wf_owner (owner i)) ->
  rg_system lease_step (fun i => session_op (owner i)) (fun i => rely (owner i)) (fun i => guar (owner i))
    (fun i => session_inv (owner i)) (fun i => keep_op (owner i)).
Proof.
  intros Hinj Hwf. split.
  - intros i. apply _.
  - intros i j w w' Hij. apply guar_rely. by intros ?%Hinj.
  - intros i. apply session_inv_stable.
  - intros i op st w w'. apply keep_stable.
  - intros i op st w Hinv. destruct op as [| |c].
    + split; [by intros []|]. by apply fields_of_rg, session_acquire_spec; [apply _|..].
    + split; [|apply fields_of_rg, session_heartbeat_spec; [apply _|done]].
      intros [(o & s & Hp) Hf]. unfold session_inv in Hinv. rewrite Hp in Hinv. naive_solver.
    + split; [by intros []|]. by apply fields_of_rg, session_finalize_spec; [apply _|].
Qed.

Definition lease_start (w : tables) : (I -> thread (E:=LeaseEff) (St:=Session) (Op:=lease_op)) * tables :=
  (fun _ => Idle new_session, w).

(** A thread holds the lease: its session does, and it is not settling it. *)
Definition holds_lease (t : thread (E:=LeaseEff) (St:=Session) (Op:=lease_op)) : Prop :=
  match t with
  | Idle st => holding st
  | Running OpHeartbeat st _ => holding st
  | Running _ _ _ => False
  end.

Lemma lease_reachable_ok w0 s :
  Inj (=) (=) owner -> (forall i, wf_owner (owner i)) -> (forall i, ~ unreleased (owner i) (row w0)) ->
  rtc lease_system_step (lease_start w0) s ->
  sys_ok lease_step (fun i => rely (owner i)) (fun i => guar (owner i)) (fun i => session_inv (owner i))
    (fun i => keep_op (owner i)) s.
Proof.
  intros Hinj Hwf H0. apply system_invariant; [by apply lease_rg_system|]. intros i. apply H0.
Qed.

Lemma holds_lease_row i ths w :
  thread_ok lease_step (fun i => rely (owner i)) (fun i => guar (owner i)) (fun i => session_inv (owner i))
    (fun i => keep_op (owner i)) i (ths i) w ->
  holds_lease (ths i) -> mine (owner i) HELD (row w).
Proof.
  destruct (ths i) as [st|[| |c] st p]; simpl; [|done| |done].
  - unfold session_inv. intros H [(o & s & Hp) Hf]. rewrite Hp in H. naive_solver.
  - intros [Hk _]. exact Hk.
Qed.

(** C1: Mutual exclusion. Sessions of distinct, well-formed owners start idle over a lease row
    none of them holds and interleave their acquisitions, heartbeats and finalizations in
    any order, while every store call may be refused, fail, throw, or be ambiguous and land or
    not. In every reachable state a session that holds the lease (acquired, not settling
    it) finds the stored row in its own name and [HELD], so no two sessions hold it. *)
Theorem lease_mutual_exclusion (w0 : tables) ths (w : tables) :
  Inj (=) (=) owner -> (forall i, wf_owner (owner i)) -> (forall i, ~ unreleased (owner i) (row w0)) ->
  rtc lease_system_step (lease_start w0) (ths, w) ->
  forall i, holds_lease (ths i) ->
    mine (owner i) HELD (row w) /\ forall j, holds_lease (ths j) -> j = i.
Proof.
  intros Hinj Hwf H0 Hreach i Hi. pose proof (lease_reachable_ok _ _ Hinj Hwf H0 Hreach) as Hok.
  pose proof (holds_lease_row i ths w (Hok i) Hi) as Hm. split; [done|]. intros j Hj.
  pose proof (holds_lease_row j ths w (Hok j) Hj) as Hm'.
  destruct Hm as (m & E & Hn & _), Hm' as (m' & E' & Hn' & _). rewrite E in E'. simplify_eq.
  by apply Hinj, (names_owner_inj _ _ m').
Qed.

(** The final lease status is truthful under every interleaving: a session finalized as
    [released] holds nothing (the row is absent, another owner's, or its own released
    row) and one finalized as [recovery_required] left its own row marked
    [RECOVERY_REQUIRED]; being true of every reachable state, both stay true afterwards. *)
Theorem lease_final_status_truthful (w0 : tables) ths (w : tables) i st :
  Inj (=) (=) owner -> (forall i, wf_owner (owner i)) -> (forall i, ~ unreleased (owner i) (row w0)) ->
  rtc lease_system_step (lease_start w0) (ths, w) -> ths i = Idle st ->
  (phase st = ph_finalized released -> ~ unreleased (owner i) (row w))
  /\ (phase st = ph_finalized recovery_required -> mine (owner i) RECOVERY_REQUIRED (row w)).
Proof.
  intros Hinj Hwf H0 Hreach Hi. pose proof (lease_reachable_ok _ _ Hinj Hwf H0 Hreach i) as Hok.
  simpl in Hok. rewrite Hi in Hok. simpl in Hok. unfold session_inv in Hok.
  split; intros Hp; by rewrite Hp in Hok.
Qed.

(** A lease that is not released is never taken over: whatever step the system takes, only
    the session of the row's owner can change the row. An expired [expires_at] changes
    nothing. *)
Theorem lease_never_taken_over (w0 : tables) ths (w : tables) ths' (w' : tables) :
  Inj (=) (=) owner -> (forall i, wf_owner (owner i)) -> (forall i, ~ unreleased (owner i) (row w0)) ->
  rtc lease_system_step (lease_start w0) (ths, w) -> lease_system_step (ths, w) (ths', w') ->
  exists i, forall j, j <> i -> ths' j = ths j /\ (unreleased (owner j) (row w) -> row w' = row w).
Proof.
  intros Hinj Hwf H0 Hreach Hstep. pose proof (lease_reachable_ok _ _ Hinj Hwf H0 Hreach) as Hok.
  pose proof (lease_rg_system Hinj Hwf) as Hsys.
  destruct (sys_step_guar _ _ _ _ _ _ Hsys _ _ _ _ Hok Hstep) as (i & Hg & Ho). exists i. intros j Hj.
  split; [by apply Ho|]. intros Hu. destruct Hg as [->|Hg]; [done|].
  apply (guar_rely _ (owner j)) in Hg as [A _]; [by apply A|]. intros ?%Hinj. congruence.
Qed.
End system.

(** ** A run without faults *)

(** Clocks at one instant, a journal that accepts, a store without faults. *)
Definition calm (R : Type) (e : LeaseEff R) : tables -> R * tables :=
  match e in LeaseEff R return tables -> R * tables with
  | StoreWrite a => fun w =>
      match action_target a with
      | Some (t, k) => (Ok (write_now (w t k) a).1, set_row w t k (write_now (w t k) a).2)
      | None => (Ok (definitive_failure "ValidationException"), w)
      end
  | StoreGet t k => fun w => (Ok (Ok (w t k)), w)
  | NowNs => fun w => (0, w)
  | WallNow => fun w => (Some 1791201600000, w)
  | JournalAppend _ => fun w => (Ok tt, w)
  end.

Lemma calm_step R (e : LeaseEff R) w : lease_step R e w (calm R e w).1 (calm R e w).2.
Proof.
  destruct e as [a|t k| | |b]; simpl; try done.
  - destruct (action_target a) as [[t k]|] eqn:E; simpl; [|by constructor].
    eapply store_write_ok; [done|]. apply write_now_step.
  - split; [|done]. constructor. constructor.
Qed.

Definition demo_owner (b : bool) : LeaseOwner :=
  MkOwner RUN (if b then "3f1c2a9e-8b4d-4c1e-9f00-1a2b3c4d5e6f" else "00000000-0000-4000-8000-000000000000")
    "0000000000000000000000000000000000000000000000000000000000000000".

Definition no_rows : tables := fun _ _ => None.

Definition after (ops : list lease_op) (o : LeaseOwner) (w : tables) : Session * tables :=
  fold_left (fun '(st, w) op => run calm (session_op o op st) w) ops (new_session, w).

Example calm_session_released :
  let r := after [OpAcquire; OpHeartbeat; OpFinalize clean] (demo_owner true) no_rows in
  phase r.1 = ph_finalized released
  /\ events r.1 = [EvACQUIRED; EvHEARTBEAT_CONFIRMED; EvRELEASED].
Proof. vm_compute. split; reflexivity. Qed.

#[export] Instance demo_owner_inj : Inj (=) (=) demo_owner.
Proof. intros [] []; vm_compute; congruence. Qed.

Lemma demo_owner_wf b : wf_owner (demo_owner b).
Proof. destruct b; split; vm_compute; reflexivity. Qed.

Lemma demo_reachable op1 op2 :
  let r1 := run calm (session_op (demo_owner true) op1 new_session) no_rows in
  let r2 := run calm (session_op (demo_owner true) op2 r1.1) r1.2 in
  exists ths, rtc (sys_step lease_step (fun i => session_op (demo_owner i))) (lease_start no_rows) (ths, r2.2)
    /\ ths true = Idle r2.1.
Proof.
  cbn zeta.
  destruct (sys_run lease_step (fun i => session_op (demo_owner i)) calm calm_step
    (fun _ => Idle new_session) no_rows true op1 new_session eq_refl) as (t1 & H1 & E1 & _).
  destruct (sys_run lease_step (fun i => session_op (demo_owner i)) calm calm_step _
    (run calm (session_op (demo_owner true) op1 new_session) no_rows).2 true op2 _ E1) as (t2 & H2 & E2 & _).
  exists t2. split; [by etrans|done].
Qed.

Lemma lease_mutual_exclusion_witness :
  exists ths w, holds_lease (ths true) /\ mine (demo_owner true) HELD (row w)
    /\ forall j, holds_lease (ths j) -> j = true.
Proof.
  destruct (demo_reachable OpAcquire OpHeartbeat) as (ths & Hr & Ht).
  assert (Hh : holds_lease (ths true)).
  { rewrite Ht. split; [do 2 eexists; vm_compute; reflexivity|]. vm_compute. repeat constructor. }
  eexists ths, _. split; [exact Hh|].
  refine (lease_mutual_exclusion demo_owner no_rows ths _ _ demo_owner_wf _ Hr true Hh).
  intros i (m & Hm & _). discriminate.
Defined.

Lemma lease_final_status_truthful_witness :
  exists (w : tables), row w <> None /\ ~ unreleased (demo_owner true) (row w).
Proof.
  destruct (demo_reachable OpAcquire (OpFinalize clean)) as (ths & Hr & Ht).
  eexists. split; [|refine (proj1 (lease_final_status_truthful demo_owner no_rows ths _ true _ _ demo_owner_wf _ Hr Ht) _)].
  - vm_compute. discriminate.
  - intros i (m & Hm & _). discriminate.
  - vm_compute. reflexivity.
Defined.

Lemma lease_never_taken_over_witness :
  exists (ths ths' : bool -> thread (E:=LeaseEff) (St:=Session) (Op:=lease_op)) (w w' : tables),
  exists i : bool, forall j, j <> i ->
    ths' j = ths j /\ (unreleased (demo_owner j) (row w) -> row w' = row w).
Proof.
  destruct (demo_reachable OpAcquire OpHeartbeat) as (ths & Hr & Ht).
  do 4 eexists.
  refine (lease_never_taken_over demo_owner no_rows ths _ _ _ _ demo_owner_wf _ Hr _).
  - intros i (m & Hm & _). discriminate.
  - eapply (sys_start _ _ ths _ true OpHeartbeat), Ht.
Defined.

End LeaseSafety.
