(* ===== verification/Journal.v ===== *)
(** * The event journal (src/study-1/src/event-journal/)

    Scopes and item keys (journal-scope.ts), events (journal-event.ts), entries
    (journal-entry.ts), the reading of a store outcome (journal-append-port.ts),
    the journal-table port (durable-journal-port.ts) and the writer of one source
    instance (journal-writer.ts).

    The writer compares puts by object identity, so a prepared put carries the
    number of its allocation. The pending part of [append] (its place in the
    promise chain) is the counter of appends in flight; appends then run one at a
    time. *)

From Stdlib Require Import Ascii.
From S2P Require Import Prelude Timestamps Decimals Effects Store JsonText.
Import Json Store Utc Identifiers JsonText.
Open Scope Z_scope.

Module Journal.

(** ** Scopes and keys *)

Inductive ExecutionIdentity :=
| id_run (run_id : string)
| id_transport_probe (transport_probe_id : string)
| id_variant_validation (variant_validation_id : string).

Inductive JournalPartition :=
| pt_trial (trial_id trial_manifest_sha256 : string)
| pt_probe
| pt_canary
| pt_warmup
| pt_provider
| pt_execution.

Record JournalScope := MkScope {
  execution : ExecutionIdentity;
  execution_manifest_sha256 : string;
  partition : JournalPartition;
}.

Definition SEQUENCE_DIGITS : nat := 12.
Definition MAX_SOURCE_SEQUENCE : Z := 999999999999.

Definition executionIdOf (identity : ExecutionIdentity) : string :=
  match identity with
  | id_run i => i
  | id_transport_probe i => i
  | id_variant_validation i => i
  end.

Definition partition_suffix (p : JournalPartition) : string :=
  match p with
  | pt_trial trial_id _ => trial_id
  | pt_probe => "probe"
  | pt_canary => "canary"
  | pt_warmup => "warmup"
  | pt_provider => "provider"
  | pt_execution => "execution"
  end.

Definition journalPartitionKey (scope : JournalScope) : string :=
  executionIdOf (execution scope) +:+ "#" +:+ partition_suffix (partition scope).

Definition isSourceSequence (sequence : Z) : bool := (1 <=? sequence) && (sequence <=? MAX_SOURCE_SEQUENCE).

Definition assertSourceSequence (sequence : Z) (subject : string) : Result unit js_error :=
  if isSourceSequence sequence then Ok tt
  else Err (RangeError ("source_sequence " +:+ string_of_Z sequence +:+ " of " +:+ subject
              +:+ "; expected an integer from 1 to " +:+ string_of_Z MAX_SOURCE_SEQUENCE)).

Definition sort_key (source instance : string) (sequence : Z) : string :=
  source +:+ "#" +:+ instance +:+ "#" +:+ padStart (string_of_Z sequence) SEQUENCE_DIGITS "0"%char.

Definition journalItemKey (scope : JournalScope) (source instance : string) (sequence : Z) : Result ItemKey js_error :=
  let! _ := assertSourceSequence sequence ("the item key of " +:+ source) in
  Ok (MkKey (journalPartitionKey scope) (sort_key source instance sequence)).

(** ** Events *)

Abbreviation JournalEvent := (list (string * json)).

Definition ENVELOPE_FIELDS : list string :=
  ["schema_version"; "record_type"; "event_id"; "run_id"; "variant_validation_id"; "transport_probe_id";
   "execution_manifest_sha256"; "trial_id"; "trial_manifest_sha256"; "occurred_at"; "source";
   "source_instance_id"; "source_sequence"; "causation_event_ids"].

Definition executionIdentityFields (identity : ExecutionIdentity) : list (string * json) :=
  match identity with
  | id_run i => [("run_id", JStr i)]
  | id_transport_probe i => [("transport_probe_id", JStr i)]
  | id_variant_validation i => [("variant_validation_id", JStr i)]
  end.

(** [new Set(ids)]: first occurrences, in order. *)
Fixpoint unique (l : list string) : list string :=
  match l with
  | [] => []
  | x :: l' => x :: List.filter (fun y => negb (bool_decide (y = x))) (unique l')
  end.

Definition causationIds (ids : list string) : option (list string) :=
  match ids with [] => None | _ => Some (isort String.leb (unique ids)) end.

Record EventEnvelopeInput := MkEnvelope {
  e_scope : JournalScope;
  e_source : string;
  e_source_instance_id : string;
  e_source_sequence : Z;
  e_event_id : string;
  e_occurred_at : string;
  e_causation : list string;
}.

Definition recordSpecificFields (body : list (string * json)) : list (string * json) :=
  List.filter (fun kv => negb (memb kv.1 ENVELOPE_FIELDS)) body.

Definition trialFields (p : JournalPartition) : list (string * json) :=
  match p with
  | pt_trial t sha => [("trial_id", JStr t); ("trial_manifest_sha256", JStr sha)]
  | _ => []
  end.

Definition envelope_members (type : string) (input : EventEnvelopeInput) : list (string * json) :=
  [("schema_version", JNum (JSInt 1)); ("record_type", JStr type); ("event_id", JStr (e_event_id input))]
  ++ executionIdentityFields (execution (e_scope input))
  ++ [("execution_manifest_sha256", JStr (execution_manifest_sha256 (e_scope input)))]
  ++ trialFields (partition (e_scope input))
  ++ [("occurred_at", JStr (e_occurred_at input)); ("source", JStr (e_source input));
      ("source_instance_id", JStr (e_source_instance_id input));
      ("source_sequence", JNum (JSInt (e_source_sequence input)))]
  ++ match causationIds (e_causation input) with
     | None => []
     | Some ids => [("causation_event_ids", JArr (map JStr ids))]
     end.

Definition buildJournalEvent (type : string) (body : list (string * json)) (input : EventEnvelopeInput) :
  Result JournalEvent js_error :=
  let! _ := assertSourceSequence (e_source_sequence input) type in
  Ok (set_members (envelope_members type input) (recordSpecificFields body)).

(** ** Entries *)

Record JournalEntry := MkEntry {
  key : ItemKey;
  event : JournalEvent;
  item : StoredItem;
}.

Definition toJournalEntry (k : ItemKey) (e : JournalEvent) : JournalEntry :=
  MkEntry k e (set_members [("pk", JStr (pk k)); ("sk", JStr (sk k))] e).

Definition journalPutAction (table : TableRole) (entry : JournalEntry) : WriteAction :=
  put table (item entry) (Some item_absent).

(** [append] of the journal-table port: the action its store call writes. *)
Definition createDurableJournalPort (table : TableRole) (entry : JournalEntry) : WriteAction :=
  journalPutAction table entry.

Definition canonicalJson (value : json) : Result string js_error :=
  match canonicalPieces value with
  | inl t => Ok t
  | inr gap => Err (TypeError ("number at " +:+ path gap +:+ " is " +:+ nonStringLeafText (gap_value gap)
                               +:+ "; expected a finite JSON number"))
  end.

Definition structurallyEqual (a b : json) : Result bool js_error :=
  let! ta := canonicalJson a in
  let! tb := canonicalJson b in
  Ok (bool_decide (ta = tb)).

Definition isSameStoredEntry (existing : StoredItem) (entry : JournalEntry) : Result bool js_error :=
  structurallyEqual (JObj existing) (JObj (item entry)).

(** ** Reading an outcome *)

Inductive JournalStopReason := AMBIGUOUS_APPEND | DEFINITIVE_RETRIES_EXHAUSTED | SEQUENCE_CONFLICT | INSTANCE_ALREADY_STOPPED.
#[export] Instance JournalStopReason_eq_dec : EqDecision JournalStopReason.
Proof. solve_decision. Defined.

Record JournalStopped := MkStopped { stop_reason : JournalStopReason; stop_detail : string }.

Inductive AppendResult := ap_appended (e : JournalEvent) | ap_stopped (s : JournalStopped).
Inductive ConfirmResult := cf_result (r : AppendResult) | cf_not_applied (e : JournalEvent) (outcome : WriteOutcome).

Inductive JournalOutcomeClass := oc_applied | oc_not_applied | oc_ambiguous | oc_sequence_conflict.
#[export] Instance JournalOutcomeClass_eq_dec : EqDecision JournalOutcomeClass.
Proof. solve_decision. Defined.

Definition classifyConditionFailure (failedActionIndex : Z) (existing : option StoredItem) (entry : JournalEntry)
    (journalActionIndex : Z) : Result JournalOutcomeClass js_error :=
  if negb (failedActionIndex =? journalActionIndex) then Ok oc_not_applied
  else match existing with
       | None => Ok oc_sequence_conflict
       | Some m =>
           let! same := isSameStoredEntry m entry in
           Ok (if same : bool then oc_applied else oc_sequence_conflict)
       end.

Definition classifyJournalOutcome (outcome : WriteOutcome) (entry : JournalEntry) (journalActionIndex : Z) :
  Result JournalOutcomeClass js_error :=
  match outcome with
  | applied => Ok oc_applied
  | ambiguous _ => Ok oc_ambiguous
  | definitive_failure _ => Ok oc_not_applied
  | condition_failed i existing => classifyConditionFailure i existing entry journalActionIndex
  end.

(** ** The writer of one source instance *)

(** The writer's effects, and the transaction in which its caller writes a prepared put at an
    action index. *)
Inductive JournalEff : Type -> Type :=
| PortAppend (entry : JournalEntry) : JournalEff (Result WriteOutcome js_error)
| ClockNow : JournalEff (option Z)
| NextId : JournalEff string
| CallerTransact (entry : JournalEntry) (index : Z) : JournalEff WriteOutcome.

Record JournalWriterDeps := MkDeps {
  d_source : string;
  d_instanceId : string;
  d_scope : JournalScope;
  d_maxDefinitiveRetries : Z;
}.

(** A put reserved for a caller-owned transaction, with its object identity. *)
Record PreparedJournalPut := MkPut { put_id : nat; put_entry : JournalEntry }.

Record JournalWriter := MkWriter {
  nextSequence : Z;
  stopped : option JournalStopped;
  reservation : option PreparedJournalPut;
  retryable : option PreparedJournalPut;
  appendsInFlight : Z;
  allocated : nat;
}.

Definition new_JournalWriter (deps : JournalWriterDeps) : Result JournalWriter js_error :=
  if negb (is_safe_integer (d_maxDefinitiveRetries deps)) || (d_maxDefinitiveRetries deps <? 0)
  then Err (RangeError ("maxDefinitiveRetries " +:+ string_of_Z (d_maxDefinitiveRetries deps)
                        +:+ "; expected a nonnegative safe integer"))
  else Ok (MkWriter 1 None None None 0 0).

Abbreviation JM := (SE JournalEff JournalWriter js_error).

Definition set_reservation (p : option PreparedJournalPut) (s : JournalWriter) : JournalWriter :=
  MkWriter (nextSequence s) (stopped s) p (retryable s) (appendsInFlight s) (allocated s).
Definition set_retryable (p : option PreparedJournalPut) (s : JournalWriter) : JournalWriter :=
  MkWriter (nextSequence s) (stopped s) (reservation s) p (appendsInFlight s) (allocated s).
Definition add_in_flight (d : Z) (s : JournalWriter) : JournalWriter :=
  MkWriter (nextSequence s) (stopped s) (reservation s) (retryable s) (appendsInFlight s + d) (allocated s).
Definition advance_sequence (s : JournalWriter) : JournalWriter :=
  MkWriter (nextSequence s + 1) (stopped s) (reservation s) (retryable s) (appendsInFlight s) (allocated s).
Definition set_stopped (x : JournalStopped) (s : JournalWriter) : JournalWriter :=
  MkWriter (nextSequence s) (Some x) (reservation s) (retryable s) (appendsInFlight s) (allocated s).
Definition allocate (s : JournalWriter) : JournalWriter :=
  MkWriter (nextSequence s) (stopped s) (reservation s) (retryable s) (appendsInFlight s) (S (allocated s)).

Definition same_put (a b : option PreparedJournalPut) : bool :=
  match a, b with
  | Some a, Some b => Nat.eqb (put_id a) (put_id b)
  | None, None => true
  | _, _ => false
  end.

Definition put_name (p : option PreparedJournalPut) : string :=
  match p with Some p => sk (key (put_entry p)) | None => "none" end.

Definition stop_text (r : JournalStopReason) : string :=
  match r with
  | AMBIGUOUS_APPEND => "AMBIGUOUS_APPEND"
  | DEFINITIVE_RETRIES_EXHAUSTED => "DEFINITIVE_RETRIES_EXHAUSTED"
  | SEQUENCE_CONFLICT => "SEQUENCE_CONFLICT"
  | INSTANCE_ALREADY_STOPPED => "INSTANCE_ALREADY_STOPPED"
  end.

Definition alreadyStopped (first : JournalStopped) : JournalStopped :=
  MkStopped INSTANCE_ALREADY_STOPPED
    ("stopped earlier by " +:+ stop_text (stop_reason first) +:+ ": " +:+ stop_detail first).

Definition describeOutcome (outcome : WriteOutcome) : string :=
  match outcome with
  | applied => "applied"
  | condition_failed i existing =>
      "condition_failed at action " +:+ string_of_Z i
      +:+ match existing with None => " without a decodable existing item" | Some _ => "" end
  | definitive_failure c => "definitive_failure " +:+ c
  | ambiguous c => "ambiguous " +:+ c
  end.

Definition describeError (e : js_error) : string :=
  match e with
  | RangeError m => "RangeError: " +:+ m
  | TypeError m => "TypeError: " +:+ m
  | PlainError m => "Error: " +:+ m
  | ForeignError n => n
  end.

Record WriteVerdict := MkWriteVerdict { verdict : JournalOutcomeClass; observed : string }.

Definition stop (r : JournalStopReason) (d : string) : JM AppendResult :=
  (se_modify (set_stopped (MkStopped r d)) ;;; se_ret (ap_stopped (MkStopped r d)))%se.

Definition settle (result : WriteVerdict) (entry : JournalEntry) : JM AppendResult :=
  match verdict result with
  | oc_ambiguous =>
      stop AMBIGUOUS_APPEND (sk (key entry) +:+ ": " +:+ observed result +:+ "; the event may or may not be stored")
  | oc_sequence_conflict =>
      stop SEQUENCE_CONFLICT (sk (key entry) +:+ ": " +:+ observed result +:+ "; other content occupies this sequence")
  | _ => (se_modify advance_sequence ;;; se_ret (ap_appended (event entry)))%se
  end.

(** [#write]: a port or a classification that throws counts as ambiguous. *)
Definition write (entry : JournalEntry) : JM WriteVerdict :=
  (r <- se_perform (PortAppend entry) ;;
   se_ret match (let! outcome := r in
                 let! v := classifyJournalOutcome outcome entry 0 in
                 Ok (MkWriteVerdict v (describeOutcome outcome))) with
          | Ok v => v
          | Err e => MkWriteVerdict oc_ambiguous ("port threw " +:+ describeError e)
          end)%se.

(** The retries after a definitive failure. *)
Fixpoint retry_loop (retries : nat) (entry : JournalEntry) (last : WriteVerdict) : JM WriteVerdict :=
  match retries with
  | O => se_ret last
  | S n =>
      if bool_decide (verdict last = oc_not_applied)
      then (last' <- write entry ;; retry_loop n entry last')%se
      else se_ret last
  end.

Section writer.
Context (deps : JournalWriterDeps).

Definition nextEntry (type : string) (body : list (string * json)) (causation : list string) : JM PreparedJournalPut :=
  (s <- se_get ;;
   let sequence := nextSequence s in
   se_modify (set_retryable None) ;;;
   eid <- se_perform NextId ;;
   now <- se_perform ClockNow ;;
   at_ <- se_of (formatUtcMillis now) ;;
   e <- se_of (buildJournalEvent type body
                 (MkEnvelope (d_scope deps) (d_source deps) (d_instanceId deps) sequence eid at_ causation)) ;;
   k <- se_of (journalItemKey (d_scope deps) (d_source deps) (d_instanceId deps) sequence) ;;
   se_modify allocate ;;;
   se_ret (MkPut (allocated s) (toJournalEntry k e)))%se.

Definition assertIdle (operation : string) : JM unit :=
  (s <- se_get ;;
   if bool_decide (reservation s <> None) || (appendsInFlight s >? 0)
   then se_throw (PlainError (operation +:+ " with " +:+ string_of_Z (appendsInFlight s)
          +:+ " pending append(s) and reservation " +:+ put_name (reservation s) +:+ "; expected an idle writer"))
   else se_ret tt)%se.

Definition reserve (p : PreparedJournalPut) : JM (PreparedJournalPut + JournalStopped) :=
  (se_modify (fun s => set_retryable None (set_reservation (Some p) s)) ;;; se_ret (inl p))%se.

Definition prepare (type : string) (body : list (string * json)) (causation : list string) :
  JM (PreparedJournalPut + JournalStopped) :=
  (s <- se_get ;;
   match stopped s with
   | Some x => se_ret (inr (alreadyStopped x))
   | None =>
       assertIdle ("prepare(" +:+ type +:+ ")") ;;;
       p <- nextEntry type body causation ;;
       reserve p
   end)%se.

Definition prepareRetry (p : PreparedJournalPut) : JM (PreparedJournalPut + JournalStopped) :=
  (s <- se_get ;;
   match stopped s with
   | Some x => se_ret (inr (alreadyStopped x))
   | None =>
       assertIdle ("prepareRetry(" +:+ put_name (Some p) +:+ ")") ;;;
       if negb (same_put (Some p) (retryable s))
       then se_throw (PlainError ("prepareRetry() for " +:+ put_name (Some p) +:+ " (retryable: "
              +:+ put_name (retryable s)
              +:+ "); expected the last put that confirm() reported not_applied, before any other event"))
       else reserve p
   end)%se.

Definition confirm (prepared : PreparedJournalPut) (outcome : WriteOutcome) (journalActionIndex : Z) : JM ConfirmResult :=
  (s <- se_get ;;
   if negb (same_put (Some prepared) (reservation s))
   then se_throw (PlainError ("confirm() for " +:+ put_name (Some prepared) +:+ " without its reservation (outstanding: "
          +:+ put_name (reservation s) +:+ "); expected the put returned by the last prepare()"))
   else
     se_modify (set_reservation None) ;;;
     v <- se_of (classifyJournalOutcome outcome (put_entry prepared) journalActionIndex) ;;
     if bool_decide (v = oc_not_applied) then
       se_modify (set_retryable (Some prepared)) ;;;
       se_ret (cf_not_applied (event (put_entry prepared)) outcome)
     else
       r <- settle (MkWriteVerdict v (describeOutcome outcome)) (put_entry prepared) ;;
       se_ret (cf_result r))%se.

Definition appendInOrder (type : string) (body : list (string * json)) (causation : list string) : JM AppendResult :=
  (s <- se_get ;;
   match stopped s with
   | Some x => se_ret (ap_stopped (alreadyStopped x))
   | None =>
       match reservation s with
       | Some p => se_throw (PlainError ("append(" +:+ type +:+ ") while the put " +:+ put_name (Some p)
                     +:+ " is reserved; expected confirm() before the next append"))
       | None =>
           p <- nextEntry type body causation ;;
           let entry := put_entry p in
           first <- write entry ;;
           last <- retry_loop (Z.to_nat (d_maxDefinitiveRetries deps)) entry first ;;
           if negb (bool_decide (verdict last = oc_not_applied)) then settle last entry
           else stop DEFINITIVE_RETRIES_EXHAUSTED
                  (sk (key entry) +:+ ": " +:+ string_of_Z (d_maxDefinitiveRetries deps + 1)
                   +:+ " identical attempt(s) failed definitively; last outcome " +:+ observed last)
       end
   end)%se.

(** The two ends of [append]: the call joins the promise chain, and when its turn has run,
    whatever it returned or threw, [finally] leaves it. *)
Definition append_called (s : JournalWriter) : JournalWriter := add_in_flight 1 s.

Definition append_run (type : string) (body : list (string * json)) (causation : list string) :
  JournalWriter -> proc JournalEff (JournalWriter * Result AppendResult js_error) :=
  fun s => pbind (appendInOrder type body causation s) (fun '(s', r) => Ret (add_in_flight (-1) s', r)).
End writer.

(** ** Keys *)

Lemma isSourceSequence_range k : isSourceSequence k = true <-> 1 <= k <= MAX_SOURCE_SEQUENCE.
Proof. unfold isSourceSequence. lia. Qed.

Lemma padded_sequence k : isSourceSequence k = true ->
  padStart (string_of_Z k) SEQUENCE_DIGITS "0"%char = text (Digits.pad_digits SEQUENCE_DIGITS k).
Proof.
  intros H%isSourceSequence_range. apply padStart_digits. unfold MAX_SOURCE_SEQUENCE in H.
  change (10 ^ Z.of_nat SEQUENCE_DIGITS) with 1000000000000. lia.
Qed.

Lemma sort_key_compare source instance a b :
  isSourceSequence a = true -> isSourceSequence b = true ->
  String.compare (sort_key source instance a) (sort_key source instance b) = Z.compare a b.
Proof.
  intros Ha Hb. unfold sort_key. rewrite !compare_prefix, !padded_sequence by done.
  apply isSourceSequence_range in Ha, Hb. unfold MAX_SOURCE_SEQUENCE in *.
  apply pad_digits_compare; change (10 ^ Z.of_nat SEQUENCE_DIGITS) with 1000000000000; lia.
Qed.

Lemma sort_key_inj source instance a b :
  isSourceSequence a = true -> isSourceSequence b = true ->
  sort_key source instance a = sort_key source instance b -> a = b.
Proof.
  intros Ha Hb E. apply Z.compare_eq_iff. rewrite <-(sort_key_compare source instance) by done. rewrite E.
  destruct (String.compare _ _) eqn:Ec; [done|..];
    pose proof (String.compare_antisym (sort_key source instance b) (sort_key source instance b)) as H;
    rewrite Ec in H; discriminate.
Qed.

(** Item keys exist exactly for sequences 1 to 999,999,999,999, keep one instance's
    events in one partition, and order them byte by byte exactly as their sequences, so a
    sort-key query returns an instance's events densely and in order. *)
Theorem journal_keys_follow_sequence (scope : JournalScope) (source instance : string) (a b : Z) :
  (isSourceSequence a = true <-> 1 <= a <= 999999999999)
  /\ (isSourceSequence a = false -> exists m, journalItemKey scope source instance a = Err (RangeError m))
  /\ (isSourceSequence a = true -> isSourceSequence b = true ->
      exists ka kb, journalItemKey scope source instance a = Ok ka /\ journalItemKey scope source instance b = Ok kb
        /\ pk ka = journalPartitionKey scope /\ pk ka = pk kb /\ String.compare (sk ka) (sk kb) = Z.compare a b).
Proof.
  split; [apply isSourceSequence_range|]. split.
  - intros H. unfold journalItemKey, assertSourceSequence. rewrite H. simpl. eauto.
  - intros Ha Hb. unfold journalItemKey, assertSourceSequence. rewrite Ha, Hb. simpl.
    do 2 eexists. split_and!; [done..|]. simpl. by apply sort_key_compare.
Qed.

Lemma journal_keys_follow_sequence_witness :
  let scope := MkScope (id_run "r") "0" pt_execution in
  exists ka kb, journalItemKey scope "runner" "i" 9 = Ok ka /\ journalItemKey scope "runner" "i" 10 = Ok kb
    /\ String.compare (sk ka) (sk kb) = Lt.
Proof.
  destruct (journal_keys_follow_sequence (MkScope (id_run "r") "0" pt_execution) "runner" "i" 9 10) as (_ & _ & H).
  destruct (H eq_refl eq_refl) as (ka & kb & Ha & Hb & _ & _ & Hc). exists ka, kb. split_and!; [exact Ha|exact Hb|exact Hc].
Defined.

(** ** Envelopes *)

Lemma member_set_members n set m :
  NoDup (map fst set) ->
  member n (set_members set m) = match member n set with Some v => Some v | None => member n m end.
Proof.
  unfold set_members. revert m. induction set as [|[k v] set IH]; intros m Hnd; [done|].
  cbn [map fst] in Hnd. apply NoDup_cons in Hnd as [Hk Hnd]. cbn [fold_left].
  rewrite IH, member_set_member by done. cbn [member]. case_bool_decide as E; [subst n|done].
  destruct (member k set) eqn:Em; [|done]. exfalso. apply Hk. clear -Em.
  induction set as [|[k' v'] set IH]; [done|]. cbn [member] in Em. cbn [map fst]. apply elem_of_cons.
  case_bool_decide; [by left|right; auto].
Qed.

Lemma member_recordSpecificFields n body :
  member n (recordSpecificFields body) = if memb n ENVELOPE_FIELDS then None else member n body.
Proof.
  unfold recordSpecificFields. induction body as [|[k v] body IH]; [by destruct (memb n _)|].
  cbn [List.filter fst]. destruct (memb k ENVELOPE_FIELDS) eqn:Ek; cbn [negb member].
  - rewrite IH. case_bool_decide; [subst|done]. by rewrite Ek.
  - rewrite IH. case_bool_decide; [subst; by rewrite Ek|done].
Qed.

Lemma envelope_members_names type input :
  NoDup (map fst (envelope_members type input))
  /\ forall n, n ∈ map fst (envelope_members type input) -> n ∈ ENVELOPE_FIELDS.
Proof.
  unfold envelope_members. destruct (execution (e_scope input)), (partition (e_scope input)),
    (causationIds (e_causation input)); cbn [executionIdentityFields trialFields app map fst];
    (split; [apply (bool_decide_unpack _); vm_compute; exact I|]);
    unfold ENVELOPE_FIELDS; intros n Hn; rewrite !elem_of_cons in *; tauto.
Qed.

Lemma member_not_in n (m : list (string * json)) : n ∉ map fst m -> member n m = None.
Proof.
  induction m as [|[k v] m IH]; [done|]. cbn [map fst member]. intros [Hn Hm]%not_elem_of_cons.
  rewrite bool_decide_eq_false_2 by congruence. auto.
Qed.

Lemma unique_elem x l : x ∈ unique l <-> x ∈ l.
Proof.
  induction l as [|y l IH]; [done|]. cbn [unique]. rewrite !elem_of_cons, <-IH.
  destruct (decide (x = y)) as [->|Hne]; [tauto|]. rewrite !list_elem_of_In, filter_In.
  rewrite bool_decide_eq_false_2 by done. simpl. tauto.
Qed.

Lemma unique_NoDup l : NoDup (unique l).
Proof.
  induction l as [|y l IH]; [constructor|]. cbn [unique]. apply NoDup_cons. split.
  - rewrite list_elem_of_In, filter_In. intros [_ H]. by rewrite bool_decide_eq_true_2 in H.
  - apply NoDup_ListNoDup, List.NoDup_filter, NoDup_ListNoDup, IH.
Qed.

(** Envelope fields are the envelope's, all others the body's. *)
Lemma built_event_members type body input e :
  buildJournalEvent type body input = Ok e ->
  (forall n, n ∈ ENVELOPE_FIELDS -> member n e = member n (envelope_members type input))
  /\ (forall n, n ∉ ENVELOPE_FIELDS -> member n e = member n body).
Proof.
  unfold buildJournalEvent. destruct (assertSourceSequence _ _); cbn [bind_result]; [|done]. intros Hok.
  assert (e = set_members (envelope_members type input) (recordSpecificFields body)) as -> by congruence. clear Hok.
  destruct (envelope_members_names type input) as [Hnd Hin]. split; intros n Hn;
    rewrite (member_set_members _ _ _ Hnd), member_recordSpecificFields; unfold memb.
  - rewrite bool_decide_eq_true_2 by exact Hn. by destruct (member n _).
  - rewrite (member_not_in n (envelope_members _ _)) by auto. by rewrite bool_decide_eq_false_2.
Qed.

(** The writer owns the envelope: whatever members a body carries, every envelope field of
    the built event is the envelope's own (absent when the envelope leaves it unset, so a
    body adds no second execution identity, trial field or causation), every other member
    is the body's, and the causation list is free of duplicates and sorted. *)
Theorem journal_event_envelope (type : string) (body : list (string * json)) (input : EventEnvelopeInput) (e : JournalEvent) :
  buildJournalEvent type body input = Ok e ->
  (forall n, n ∈ ENVELOPE_FIELDS -> member n e = member n (envelope_members type input))
  /\ (forall n, n ∉ ENVELOPE_FIELDS -> member n e = member n body)
  /\ (forall ids, causationIds (e_causation input) = Some ids ->
        StronglySorted (fun a b => String.leb a b = true) ids /\ NoDup ids
        /\ forall x, x ∈ ids <-> x ∈ e_causation input).
Proof.
  intros Hok. destruct (built_event_members _ _ _ _ Hok) as [He Hb]. split; [exact He|]. split; [exact Hb|].
  intros ids Hids. unfold causationIds in Hids.
  assert (ids = isort String.leb (unique (e_causation input))) as -> by (destruct (e_causation input); by simplify_eq).
  split; [apply isort_sorted; [apply leb_trans|apply leb_total]|].
  split; [rewrite isort_perm; apply unique_NoDup|].
  intros x. rewrite isort_elem. apply unique_elem.
Qed.

Lemma journal_event_envelope_witness :
  let input := MkEnvelope (MkScope (id_run "r") "0" pt_execution) "runner" "i" 1 "e" "t" ["b"; "a"; "b"] in
  exists e, buildJournalEvent "x" [("trial_id", JStr "forged"); ("n", JNull)] input = Ok e
    /\ member "trial_id" e = None /\ member "n" e = Some JNull.
Proof.
  pose (input := MkEnvelope (MkScope (id_run "r") "0" pt_execution) "runner" "i" 1 "e" "t" ["b"; "a"; "b"]).
  cbn zeta. destruct (buildJournalEvent "x" [("trial_id", JStr "forged"); ("n", JNull)] input) as [e|x] eqn:E; [|discriminate].
  exists e. destruct (journal_event_envelope _ _ _ _ E) as (He & Hb & _). split; [exact E|]. split.
  - rewrite He; [reflexivity|apply (bool_decide_unpack _); vm_compute; exact I].
  - rewrite Hb; [reflexivity|apply (bool_decide_unpack _); vm_compute; exact I].
Defined.

End Journal.
