(* ===== verification/JournalSafety.v ===== *)
(** * Safety of the event journal

    Writers of different source instances append to one journal table. Whatever
    the table answers, and in every interleaving of appends, prepared puts and
    their transactions, each instance's stored events occupy a dense range of
    sequences, no stored event is ever changed, and a stopped writer never writes
    again. *)

From Stdlib Require Strings.Ascii.
From S2P Require Import Prelude Timestamps Decimals Effects Store JsonText Journal.
From stdpp Require Import functions.
Import (notations) Stdlib.Strings.Ascii.
Import Json Store Identifiers Journal.
Open Scope Z_scope.

Module JournalSafety.

(** ** Rows of one instance *)

Definition jkey (d : JournalWriterDeps) (k : Z) : ItemKey :=
  MkKey (journalPartitionKey (d_scope d)) (sort_key (d_source d) (d_instanceId d) k).

Definition jrow (t : TableRole) (d : JournalWriterDeps) (w : tables) (k : Z) : option StoredItem := w t (jkey d k).

(** The item is the event of sequence [k] of this instance. *)
Definition event_at (d : JournalWriterDeps) (k : Z) (m : StoredItem) : Prop :=
  member "source_sequence" m = Some (JNum (JSInt k)) /\ member "source_instance_id" m = Some (JStr (d_instanceId d)).

Definition entry_at (d : JournalWriterDeps) (k : Z) (e : JournalEntry) : Prop :=
  isSourceSequence k = true /\ key e = jkey d k /\ item_key (item e) = Some (jkey d k) /\ event_at d k (item e).

(** Sequences below [n] are stored, those above it are free. *)
Definition dense (t : TableRole) (d : JournalWriterDeps) (n : Z) (w : tables) : Prop :=
  forall k, isSourceSequence k = true ->
    (k < n -> exists m, jrow t d w k = Some m /\ event_at d k m) /\ (n < k -> jrow t d w k = None).

Definition jrely (t : TableRole) (d : JournalWriterDeps) (w w' : tables) : Prop :=
  forall k, isSourceSequence k = true -> jrow t d w' k = jrow t d w k.

(** A writer only adds rows of its own instance, each where none was. *)
Definition jguar (t : TableRole) (d : JournalWriterDeps) (w w' : tables) : Prop :=
  forall t' key, w' t' key = w t' key
    \/ (t' = t /\ w t' key = None /\ exists k, isSourceSequence k = true /\ key = jkey d k).

#[export] Instance jrely_preorder t d : PreOrder (jrely t d).
Proof. split; [done|]. intros w1 w2 w3 H1 H2 k Hk. by rewrite H2, H1. Qed.

Lemma dense_stable t d n w w' : dense t d n w -> jrely t d w w' -> dense t d n w'.
Proof. intros H Hr k Hk. unfold jrow. pose proof (Hr k Hk) as E. unfold jrow in E. rewrite E. by apply H. Qed.

Lemma jkey_inj d a b : isSourceSequence a = true -> isSourceSequence b = true -> jkey d a = jkey d b -> a = b.
Proof. intros Ha Hb [= E]. by eapply sort_key_inj. Qed.

Lemma app_inj_suffix (a b c d : string) :
  String.length c = String.length d -> a +:+ c = b +:+ d -> a = b /\ c = d.
Proof.
  intros Hl E. apply (f_equal chars) in E. rewrite !chars_app in E.
  assert (length (chars c) = length (chars d)) as Hl' by (by rewrite !length_chars).
  apply app_inj_2 in E as [Ea Ec]; [|done]. split; by apply chars_inj.
Qed.

Lemma length_padded k : isSourceSequence k = true ->
  String.length (padStart (string_of_Z k) SEQUENCE_DIGITS "0"%char) = SEQUENCE_DIGITS.
Proof.
  intros Hk. rewrite padded_sequence by done.
  by rewrite <-length_chars, chars_text, Digits.length_pad_digits.
Qed.

(** Keys of different instances never meet. *)
Lemma jkey_instances d d' a b :
  isUuid4 (d_instanceId d) = true -> isUuid4 (d_instanceId d') = true ->
  isSourceSequence a = true -> isSourceSequence b = true ->
  jkey d a = jkey d' b -> d_instanceId d = d_instanceId d'.
Proof.
  intros Hd Hd' Ha Hb [= _ E]. unfold sort_key in E. rewrite <-!string_app_assoc in E.
  apply app_inj_suffix in E as [E _]; [|by rewrite !length_padded].
  apply app_inj_suffix in E as [E _]; [|done]. apply app_inj_suffix in E as [_ E]; [done|].
  apply andb_prop in Hd as [Hd%Nat.eqb_eq _], Hd' as [Hd'%Nat.eqb_eq _]. congruence.
Qed.

Lemma jguar_jrely t d d' w w' :
  isUuid4 (d_instanceId d) = true -> isUuid4 (d_instanceId d') = true -> d_instanceId d <> d_instanceId d' ->
  jguar t d w w' -> jrely t d' w w'.
Proof.
  intros Hd Hd' Hne Hg k Hk. destruct (Hg t (jkey d' k)) as [E|(_ & _ & k' & Hk' & E)]; [done|].
  destruct Hne. symmetry. exact (jkey_instances d' d k k' Hd' Hd Hk Hk' E).
Qed.

(** ** Effects *)

Definition journal_step (t : TableRole) (R : Type) (e : JournalEff R) : tables -> R -> tables -> Prop :=
  match e in JournalEff R return tables -> R -> tables -> Prop with
  | PortAppend entry => fun w r w' => store_write w (createDurableJournalPort t entry) r w'
  | ClockNow => fun w _ w' => w' = w
  | NextId => fun w _ w' => w' = w
  | CallerTransact entry index => fun w r w' => transact_one w (journalPutAction t entry) index r w'
  end.

(** Putting an entry at a free sequence: it landed or nothing changed. *)
Inductive put_effect (t : TableRole) (d : JournalWriterDeps) (n : Z) (e : JournalEntry) (w : tables) : bool -> tables -> Prop :=
| put_landed : put_effect t d n e w true (set_row w t (jkey d n) (Some (item e)))
| put_lost w' : (forall t' k', w' t' k' = w t' k') -> put_effect t d n e w false w'.

Lemma put_effect_facts t d n e w landed w' :
  entry_at d n e -> jrow t d w n = None -> dense t d n w -> put_effect t d n e w landed w' ->
  jguar t d w w' /\ dense t d n w' /\ jrow t d w' n = (if landed : bool then Some (item e) else None).
Proof.
  intros (Hn & Hk & Hik & Hev) Hrow Hd [|w'' Hw].
  2: { split; [intros ??; by left|]. split; [|unfold jrow; by rewrite Hw].
       eapply dense_stable; [done|]. intros k _. apply Hw. }
  split; [|split].
  - intros t' key. destruct (decide ((t, jkey d n) = (t', key))) as [E|E].
    + injection E as <- <-. right. split; [done|]. split; [done|]. by exists n.
    + left. by apply set_row_other.
  - intros k Hk'. unfold jrow. destruct (decide (k = n)) as [->|Hne].
    + split; lia.
    + rewrite set_row_other; [by apply Hd|]. intros [= E]. apply sort_key_inj in E; [|done..]. congruence.
  - unfold jrow. apply set_row_same.
Qed.

Lemma put_target t d n e : entry_at d n e -> action_target (journalPutAction t e) = Some (t, jkey d n).
Proof. intros (_ & _ & H & _). simpl. by rewrite H. Qed.

(** What the writer's reading of a store answer tells of the row. *)
Definition class_view (c : JournalOutcomeClass) (landed : bool) : Prop :=
  match c with
  | oc_applied => landed = true
  | oc_not_applied => landed = false
  | oc_ambiguous => True
  | oc_sequence_conflict => False
  end.

Lemma set_row_id w t k v : w t k = v -> forall t' k', set_row w t k v t' k' = w t' k'.
Proof. intros <- t' k'. unfold set_row. case_bool_decide as H; [by destruct H as [-> ->]|done]. Qed.

Lemma append_effect t d n e w r w' :
  entry_at d n e -> jrow t d w n = None -> store_write w (createDurableJournalPort t e) r w' ->
  exists landed, put_effect t d n e w landed w'
    /\ match r with
       | Ok out => exists c, classifyJournalOutcome out e 0 = Ok c /\ class_view c landed
       | Err _ => True
       end.
Proof.
  intros He Hrow H. pose proof (put_target t d n e He) as Ht. unfold createDurableJournalPort in H.
  unfold jrow in Hrow. destruct H as [t' k' o v Ht' Hs|c Ht'|x|x t' k' Ht' Hh]; try (rewrite Ht in Ht'; simplify_eq).
  - rewrite Hrow in Hs. destruct Hs as [Hh|ex Hh Hex|c|c|c Hh].
    + exists true. split; [constructor|]. by exists oc_applied.
    + done.
    + exists false. split; [|by exists oc_not_applied]. constructor. by apply set_row_id.
    + exists false. split; [|by exists oc_ambiguous]. constructor. by apply set_row_id.
    + exists true. split; [constructor|]. by exists oc_ambiguous.
  - exists false. split; [by constructor|done].
  - exists true. split; [constructor|done].
Qed.

Lemma transact_effect t d n e index w out w' :
  entry_at d n e -> jrow t d w n = None -> transact_one w (journalPutAction t e) index out w' ->
  exists landed, put_effect t d n e w landed w'
    /\ exists c, classifyJournalOutcome out e index = Ok c /\ class_view c landed.
Proof.
  intros He Hrow H. pose proof (put_target t d n e He) as Ht. unfold jrow in Hrow.
  destruct H as [t' k' Ht' Hh|t' k' ex Ht' Hh Hex|i ex Hi|c|c|c t' k' Ht' Hh]; try (rewrite Ht in Ht'; simplify_eq).
  - exists true. split; [constructor|]. by exists oc_applied.
  - by rewrite Hrow in Hh.
  - exists false. split; [by constructor|]. exists oc_not_applied. split; [|done].
    simpl. unfold classifyConditionFailure. apply Z.eqb_neq in Hi as ->. done.
  - exists false. split; [by constructor|]. by exists oc_not_applied.
  - exists false. split; [by constructor|]. by exists oc_ambiguous.
  - exists true. split; [constructor|]. by exists oc_ambiguous.
Qed.

(** ** Built entries *)

(** The entry records the type and the body under some envelope. *)
Definition built (type : string) (body : list (string * json)) (entry : JournalEntry) : Prop :=
  exists input k e, buildJournalEvent type body input = Ok e /\ entry = toJournalEntry k e.

(** What a stored record shows of the type and the body. *)
Lemma built_item type body entry :
  built type body entry ->
  member "record_type" (item entry) = Some (JStr type)
  /\ member "event_id" (item entry) = Some (JStr (nullish (as_string (member "event_id" (event entry))) ""))
  /\ forall n, n ∉ "pk" :: "sk" :: ENVELOPE_FIELDS -> member n (item entry) = member n body.
Proof.
  intros (input & k & e & Hb & ->). destruct (built_event_members _ _ _ _ Hb) as [He Hn]. cbn [item event toJournalEntry].
  assert (Hm : forall n, n <> "pk" -> n <> "sk" -> member n (set_members [("pk", JStr (pk k)); ("sk", JStr (sk k))] e) = member n e).
  { intros n H1 H2. unfold set_members. cbn [fold_left]. rewrite !member_set_member, !bool_decide_eq_false_2 by congruence. done. }
  assert (Hid : member "event_id" e = Some (JStr (e_event_id input))) by (rewrite He; [done|unfold ENVELOPE_FIELDS; set_solver]).
  split_and!.
  - rewrite Hm by done. rewrite He; [done|unfold ENVELOPE_FIELDS; set_solver].
  - rewrite Hm by done. by rewrite Hid.
  - intros n [H1 [H2 H3]%not_elem_of_cons]%not_elem_of_cons. rewrite Hm by done. by apply Hn.
Qed.

(** ** The writer *)

Definition jinv (t : TableRole) (d : JournalWriterDeps) (st : JournalWriter) (w : tables) : Prop :=
  1 <= nextSequence st
  /\ dense t d (nextSequence st) w
  /\ (stopped st = None -> isSourceSequence (nextSequence st) = true -> jrow t d w (nextSequence st) = None)
  /\ (stopped st <> None -> reservation st = None)
  /\ (reservation st <> None -> retryable st = None)
  /\ (forall p, reservation st = Some p \/ retryable st = Some p -> entry_at d (nextSequence st) (put_entry p)).

Lemma jinv_stable t d st w w' : jinv t d st w -> jrely t d w w' -> jinv t d st w'.
Proof.
  intros (H1 & H2 & H3 & H4 & H4' & H5) Hr. split_and!; [done|by eapply dense_stable| |done..].
  intros Hs Hk. rewrite Hr by done. auto.
Qed.

Section writer_safety.
Context (t : TableRole) (d : JournalWriterDeps).

Abbreviation spec n := (rgs (journal_step t) (jrely t d) (jguar t d) (dense t d n)).

Lemma jspec_quiet n {R} (e : JournalEff R) (Q : JournalWriter -> Result R js_error -> tables -> Prop) st w :
  (forall w r w', journal_step t R e w r w' -> w' = w) -> dense t d n w ->
  (forall w1 r, jrely t d w w1 -> Q st (Ok r) w1) -> spec n (se_perform e) Q st w.
Proof.
  intros He Hk HQ. apply rgs_perform. intros w1 Hr r w2 Hs. apply He in Hs as ->.
  split; [intros ??; by left|]. split; [by eapply dense_stable|]. by apply HQ.
Qed.

Lemma entry_built n type body eid at_ causation e k :
  buildJournalEvent type body (MkEnvelope (d_scope d) (d_source d) (d_instanceId d) n eid at_ causation) = Ok e ->
  journalItemKey (d_scope d) (d_source d) (d_instanceId d) n = Ok k ->
  entry_at d n (toJournalEntry k e).
Proof.
  intros He Hk. unfold journalItemKey, assertSourceSequence in Hk.
  destruct (isSourceSequence n) eqn:En; [|done]. simpl in Hk. injection Hk as <-.
  unfold buildJournalEvent, assertSourceSequence in He. cbn [e_source_sequence] in He. rewrite En in He. cbn [bind_result] in He.
  assert (e = set_members (envelope_members type (MkEnvelope (d_scope d) (d_source d) (d_instanceId d) n eid at_ causation))
                (recordSpecificFields body)) as -> by congruence.
  set (input := MkEnvelope _ _ _ _ _ _ _). destruct (envelope_members_names type input) as [Hnd _].
  assert (Hm : forall x v, x <> "pk" -> x <> "sk" -> member x (envelope_members type input) = Some v ->
    member x (item (toJournalEntry (jkey d n) (set_members (envelope_members type input) (recordSpecificFields body)))) = Some v).
  { intros x v Hp Hs Hv. cbn [toJournalEntry item]. rewrite member_set_members by (apply (bool_decide_unpack _); vm_compute; exact I).
    cbn [member]. rewrite !bool_decide_eq_false_2 by congruence. by rewrite member_set_members, Hv. }
  split; [done|]. split; [done|]. split; [|split].
  - cbn [toJournalEntry item]. unfold item_key.
    rewrite (member_set_members "pk"), (member_set_members "sk") by (apply (bool_decide_unpack _); vm_compute; exact I).
    reflexivity.
  - apply Hm; [done..|]. unfold envelope_members. destruct (execution (e_scope input)), (partition (e_scope input)); reflexivity.
  - apply Hm; [done..|]. unfold envelope_members. destruct (execution (e_scope input)), (partition (e_scope input)); reflexivity.
Qed.

Lemma nextEntry_spec type body causation (Q : JournalWriter -> Result PreparedJournalPut js_error -> tables -> Prop) st w :
  dense t d (nextSequence st) w ->
  (forall w1 e, jrely t d w w1 -> Q (set_retryable None st) (Err e) w1) ->
  (forall w1 p, jrely t d w w1 -> entry_at d (nextSequence st) (put_entry p) ->
     built type body (put_entry p) -> Q (allocate (set_retryable None st)) (Ok p) w1) ->
  spec (nextSequence st) (nextEntry d type body causation) Q st w.
Proof.
  intros Hd HE HO. apply rgs_bind. unfold rgs at 1. simpl. apply rgs_bind. unfold rgs at 1. simpl.
  apply rgs_bind, jspec_quiet; [done|done|]. intros w1 eid Hr1.
  apply rgs_bind, jspec_quiet; [done|by eapply dense_stable|]. intros w2 now Hr2.
  assert (Hr : jrely t d w w2) by (by etrans). apply rgs_bind. unfold rgs at 1, se_of. cbn [rg fst snd].
  destruct (Utc.formatUtcMillis now) as [at_|x]; [|by apply HE].
  apply rgs_bind. unfold rgs at 1, se_of. cbn [rg fst snd].
  destruct (buildJournalEvent _ _ _) as [e|x] eqn:Ee; [|by apply HE].
  apply rgs_bind. unfold rgs at 1, se_of. cbn [rg fst snd].
  destruct (journalItemKey _ _ _ _) as [k|x] eqn:Ek; [|by apply HE].
  unfold rgs. simpl. apply HO; [done|by eapply entry_built|]. by eexists _, k, e.
Qed.

(** One write of an entry at the free sequence [n]. *)
Definition write_view (n : Z) (entry : JournalEntry) (v : WriteVerdict) (w : tables) : Prop :=
  dense t d n w /\ exists landed, jrow t d w n = (if landed : bool then Some (item entry) else None)
                                /\ class_view (verdict v) landed.

Lemma write_spec n entry (Q : JournalWriter -> Result WriteVerdict js_error -> tables -> Prop) st w :
  entry_at d n entry -> dense t d n w -> jrow t d w n = None ->
  (forall w1 v, write_view n entry v w1 -> Q st (Ok v) w1) -> spec n (write entry) Q st w.
Proof.
  intros He Hd Hrow HQ. apply rgs_bind, rgs_perform. intros w1 Hr r w2 Hs.
  assert (Hrow1 : jrow t d w1 n = None) by (destruct He; by rewrite Hr).
  destruct (append_effect _ _ _ _ _ _ _ He Hrow1 Hs) as (landed & Hp & Hc).
  destruct (put_effect_facts _ _ _ _ _ _ _ He Hrow1 (dense_stable _ _ _ _ _ Hd Hr) Hp) as (Hg & Hd2 & Hrow2).
  split_and!; [done..|]. unfold rgs. simpl. apply HQ. split; [done|]. exists landed. split; [done|].
  destruct r as [out|x]; simpl; [|done]. destruct Hc as (c & -> & Hc). done.
Qed.

Lemma retry_spec n entry retries (Q : JournalWriter -> Result WriteVerdict js_error -> tables -> Prop) st w last :
  entry_at d n entry -> write_view n entry last w ->
  (forall w1 v, write_view n entry v w1 -> Q st (Ok v) w1) -> spec n (retry_loop retries entry last) Q st w.
Proof.
  intros He. revert w last. induction retries as [|r IH]; intros w last Hv HQ; [by apply HQ|].
  cbn [retry_loop]. case_bool_decide as E; [|by apply HQ].
  destruct Hv as (Hd & landed & Hrow & Hc). rewrite E in Hc. simpl in Hc. subst landed.
  apply rgs_bind, write_spec; [done..|]. intros w1 v Hv. by apply IH.
Qed.

(** Settling a judged write of the entry at the writer's next sequence. *)
Lemma settle_inv n v entry st w st' r :
  settle v entry st = Ret (st', r) ->
  write_view n entry v w -> entry_at d n entry -> 1 <= n -> nextSequence st = n -> reservation st = None ->
  retryable st = None -> stopped st = None -> verdict v <> oc_not_applied -> jinv t d st' w.
Proof.
  intros Hs (Hd & landed & Hrow & Hc) He Hn <- Hres Hret Hst Hv.
  destruct v as [[] o]; simpl in *; try done; injection Hs as <- <-; unfold jinv; simpl.
  - subst landed. split_and!; [lia| | |done|done|].
    + intros k Hk. destruct (Hd k Hk) as [Hlt Hgt]. split; [|intros; apply Hgt; lia].
      intros Hkn. destruct (decide (k = nextSequence st)) as [->|]; [|apply Hlt; lia].
      exists (item entry). split; [done|]. apply He.
    + intros _ Hk. apply (Hd _ Hk). lia.
    + rewrite Hres, Hret. naive_solver.
  - split_and!; [done|done|done|done|done|]. rewrite Hres, Hret. naive_solver.
Qed.

Lemma stopped_inv x st w n :
  1 <= n -> dense t d n w -> nextSequence st = n -> reservation st = None -> retryable st = None ->
  jinv t d (set_stopped x st) w.
Proof. intros Hn Hd <- Hres Hret. unfold jinv. simpl. split_and!; try done. rewrite Hres, Hret. naive_solver. Qed.

Lemma cleared_inv st w : jinv t d st w -> jinv t d (set_retryable None st) w.
Proof. intros (H1 & H2 & H3 & H4 & H4' & H5). unfold jinv. simpl. split_and!; try done. intros p [Hp|Hp]; [auto|done]. Qed.

(** The event is stored under one of this instance's sequences, with this type and body. *)
Definition stored (type : string) (body : list (string * json)) (e : JournalEvent) (w : tables) : Prop :=
  exists n entry, isSourceSequence n = true /\ built type body entry /\ event entry = e /\ jrow t d w n = Some (item entry).

Lemma stored_stable type body e w w' : stored type body e w -> jrely t d w w' -> stored type body e w'.
Proof. intros (n & entry & Hn & Hb & He & Hr) Hrel. exists n, entry. by rewrite Hrel. Qed.

(** Settling an entry as appended says that its row holds it. *)
Lemma settle_appended n v entry st st' e w :
  settle v entry st = Ret (st', Ok (ap_appended e)) -> write_view n entry v w -> verdict v <> oc_not_applied ->
  e = event entry /\ jrow t d w n = Some (item entry).
Proof.
  intros Hs (_ & landed & Hrow & Hc) Hv. destruct v as [[] o]; cbn in *; try done. subst landed. by injection Hs as _ <-.
Qed.

Lemma append_stored_spec type body causation st w :
  jinv t d st w ->
  spec (nextSequence st) (appendInOrder d type body causation)
    (fun st' r w' => jinv t d st' w' /\ forall e, r = Ok (ap_appended e) -> stored type body e w') st w.
Proof.
  intros Hinv. pose proof Hinv as (Hn & Hd & Hfree & Hres & Hrr & Hput). apply rgs_bind. unfold rgs at 1. simpl.
  destruct (stopped st) eqn:Est; [by split|]. destruct (reservation st) eqn:Eres; [by split|].
  apply rgs_bind, nextEntry_spec; [done|intros w1 e Hr; split; [|done]; apply cleared_inv; by eapply jinv_stable|].
  intros w1 p Hr He Hb. assert (Hd1 : dense t d (nextSequence st) w1) by (by eapply dense_stable).
  apply rgs_bind, write_spec; [done|done|rewrite Hr; [apply Hfree; [done|apply He]|apply He]|].
  intros w2 v Hv. apply rgs_bind, retry_spec; [done|done|]. clear v Hv. intros w3 v Hv.
  case_bool_decide as E; cbn [negb].
  - unfold rgs. simpl. split; [|done]. apply (stopped_inv _ _ _ (nextSequence st)); [done|apply Hv|done..].
  - unfold rgs. destruct (settle v (put_entry p) (allocate (set_retryable None st))) as [[st' r]|] eqn:Es.
    + simpl. split; [by eapply settle_inv|]. intros e ->. destruct (settle_appended _ _ _ _ _ _ _ Es Hv E) as [-> Hrow].
      exists (nextSequence st), (put_entry p). by split_and!; [apply He|..].
    + destruct v as [[] o]; discriminate.
Qed.

Lemma append_spec type body causation st w :
  jinv t d st w ->
  spec (nextSequence st) (appendInOrder d type body causation) (fun st' _ w' => jinv t d st' w') st w.
Proof. intros H. eapply rgs_mono; [|by apply append_stored_spec]. by intros st' r w' [? _]. Qed.

Lemma assertIdle_spec op (Q : JournalWriter -> Result unit js_error -> tables -> Prop) n st w :
  (forall e, Q st (Err e) w) -> (reservation st = None -> Q st (Ok tt) w) -> spec n (assertIdle op) Q st w.
Proof.
  intros HE HO. apply rgs_bind. unfold rgs at 1. cbn [se_get rg fst snd]. destruct (reservation st) eqn:E.
  - rewrite bool_decide_eq_true_2 by done. apply HE.
  - rewrite bool_decide_eq_false_2 by tauto. cbn [orb]. destruct (_ >? 0); [apply HE|by apply HO].
Qed.

Lemma reserve_inv p st w :
  jinv t d st w -> stopped st = None -> entry_at d (nextSequence st) (put_entry p) ->
  jinv t d (set_retryable None (set_reservation (Some p) st)) w.
Proof.
  intros (H1 & H2 & H3 & H4 & H4' & H5) Hs He. unfold jinv. simpl. split_and!; try done.
  intros q [Hq|Hq]; by simplify_eq.
Qed.

Lemma prepare_spec type body causation st w :
  jinv t d st w ->
  spec (nextSequence st) (prepare d type body causation) (fun st' _ w' => jinv t d st' w') st w.
Proof.
  intros Hinv. apply rgs_bind. unfold rgs at 1. simpl. destruct (stopped st) eqn:Est; [exact Hinv|].
  apply rgs_bind, assertIdle_spec; [done|]. intros Hres.
  apply rgs_bind, nextEntry_spec; [apply Hinv|intros w1 e Hr; apply cleared_inv; by eapply jinv_stable|].
  intros w1 p Hr He _. unfold rgs. simpl.
  apply (reserve_inv p (allocate (set_retryable None st))); [|done|done].
  apply (cleared_inv (allocate st)). by apply (jinv_stable _ _ st w).
Qed.

Lemma prepareRetry_spec p st w :
  jinv t d st w -> (retryable st = Some p \/ same_put (Some p) (retryable st) = false) ->
  spec (nextSequence st) (prepareRetry p) (fun st' _ w' => jinv t d st' w') st w.
Proof.
  intros Hinv Hp. apply rgs_bind. unfold rgs at 1. cbn [se_get rg fst snd]. destruct (stopped st) eqn:Est; [exact Hinv|].
  apply rgs_bind, assertIdle_spec; [done|]. intros Hres.
  destruct (same_put (Some p) (retryable st)) eqn:Es; cbn [negb]; [|exact Hinv].
  destruct Hp as [Hp|Hp]; [|done]. unfold rgs. simpl. apply reserve_inv; [done|done|]. apply Hinv. by right.
Qed.

(** A reserved put is written by the caller's transaction and settled. *)
Lemma confirm_spec p index st w :
  jinv t d st w -> reservation st = Some p ->
  spec (nextSequence st) (out <- se_perform (CallerTransact (put_entry p) index) ;; confirm p out index)%se
    (fun st' _ w' => jinv t d st' w') st w.
Proof.
  intros Hinv Hp. pose proof Hinv as (Hn & Hd & Hfree & Hres & Hrr & Hput).
  assert (Hs : stopped st = None).
  { destruct (stopped st) eqn:E; [|done]. rewrite Hres in Hp by done. done. }
  assert (He : entry_at d (nextSequence st) (put_entry p)) by auto.
  apply rgs_bind, rgs_perform. intros w1 Hr out w2 Ht.
  assert (Hrow1 : jrow t d w1 (nextSequence st) = None) by (rewrite Hr; [apply Hfree; [done|apply He]|apply He]).
  destruct (transact_effect _ _ _ _ _ _ _ _ He Hrow1 Ht) as (landed & Hpe & c & Hc & Hcv).
  destruct (put_effect_facts _ _ _ _ _ _ _ He Hrow1 (dense_stable _ _ _ _ _ Hd Hr) Hpe) as (Hg & Hd2 & Hrow2).
  split_and!; [done..|]. apply rgs_bind. unfold rgs at 1. cbn [se_get rg fst snd]. rewrite Hp. cbn [same_put].
  rewrite Nat.eqb_refl. cbn [negb]. apply rgs_bind. unfold rgs at 1. cbn [se_modify rg fst snd].
  apply rgs_bind. unfold rgs at 1, se_of. cbn [rg fst snd]. rewrite Hc.
  case_bool_decide as E.
  - subst c. simpl in Hcv. subst landed. unfold rgs. simpl. unfold jinv. simpl. split_and!; try done.
    intros q [Hq|Hq]; by simplify_eq.
  - apply rgs_bind. unfold rgs at 1.
    destruct (settle _ _ _) as [[st' r]|] eqn:Es; [|destruct c; discriminate].
    assert (jinv t d st' w2).
    { eapply settle_inv; [exact Es| |done..| |done|done]; [split; [done|]; by exists landed|]. apply Hrr. by rewrite Hp. }
    cbn [rg fst snd]. by destruct r.
Qed.
End writer_safety.

(** ** Writers of different instances over one journal table *)

Inductive journal_op :=
| JAppendCall
| JAppend (type : string) (body : list (string * json)) (causation : list string)
| JPrepare (type : string) (body : list (string * json)) (causation : list string)
| JPrepareRetry (put : nat)
| JTransact (put : nat) (index : Z).

(** The object a caller holds under an identity: the writer's outstanding or retryable put,
    or some put of another writer or time. *)
Definition put_object (known : option PreparedJournalPut) (identity : nat) : PreparedJournalPut :=
  match known with
  | Some p => if Nat.eqb (put_id p) identity then p else MkPut identity (MkEntry (MkKey "" "") [] [])
  | None => MkPut identity (MkEntry (MkKey "" "") [] [])
  end.

Definition jfields {A} (m : JM A) (st : JournalWriter) : proc JournalEff JournalWriter :=
  pbind (m st) (fun p => Ret p.1).

(** A caller writes a prepared put in its transaction only while the writer has it reserved,
    and confirms it with the transaction's outcome; confirming any other put throws. *)
Definition writer_op (d : JournalWriterDeps) (op : journal_op) (st : JournalWriter) : proc JournalEff JournalWriter :=
  match op with
  | JAppendCall => Ret (append_called st)
  | JAppend type body causation => pbind (append_run d type body causation st) (fun p => Ret p.1)
  | JPrepare type body causation => jfields (prepare d type body causation) st
  | JPrepareRetry i => jfields (prepareRetry (put_object (retryable st) i)) st
  | JTransact i index =>
      let p := put_object (reservation st) i in
      if same_put (Some p) (reservation st)
      then jfields (out <- se_perform (CallerTransact (put_entry p) index) ;; confirm p out index)%se st
      else jfields (confirm p applied index) st
  end.

Lemma jfields_rg {A} t d n (m : JM A) st w :
  rgs (journal_step t) (jrely t d) (jguar t d) (dense t d n) m (fun st' _ w' => jinv t d st' w') st w ->
  rg (journal_step t) (jrely t d) (jguar t d) (dense t d n) (jfields m st) (jinv t d) w.
Proof. intros H. apply rg_bind. exact H. Qed.

Lemma put_object_known known i :
  same_put (Some (put_object known i)) known = true -> known = Some (put_object known i).
Proof.
  unfold put_object. destruct known as [p|]; [|done]. destruct (Nat.eqb (put_id p) i) eqn:E; [done|].
  simpl. rewrite Nat.eqb_sym. congruence.
Qed.

Lemma writer_op_rg t d op st w : jinv t d st w ->
  rg (journal_step t) (jrely t d) (jguar t d) (dense t d (nextSequence st)) (writer_op d op st) (jinv t d) w.
Proof.
  intros Hinv. destruct op as [|ty b c|ty b c|i|i index]; cbn [writer_op].
  - exact Hinv.
  - apply rg_bind, rg_bind. eapply rg_mono; [|apply append_spec, Hinv]. intros [st' r] w'. done.
  - by apply jfields_rg, prepare_spec.
  - apply jfields_rg, prepareRetry_spec; [done|].
    destruct (same_put _ _) eqn:E; [left; by apply put_object_known|by right].
  - destruct (same_put _ _) eqn:E.
    + apply jfields_rg, confirm_spec; [done|]. by apply put_object_known.
    + apply jfields_rg, rgs_bind. unfold rgs at 1. cbn [se_get rg fst snd]. rewrite E. exact Hinv.
Qed.

Section system.
Context {I : Type} `{!EqDecision I} (t : TableRole) (deps : I -> JournalWriterDeps).

Abbreviation journal_system_step := (sys_step (journal_step t) (fun i => writer_op (deps i))).

Lemma journal_rg_system :
  (forall i j, d_instanceId (deps i) = d_instanceId (deps j) -> i = j) ->
  (forall i, isUuid4 (d_instanceId (deps i)) = true) ->
  rg_system (journal_step t) (fun i => writer_op (deps i)) (fun i => jrely t (deps i)) (fun i => jguar t (deps i))
    (fun i => jinv t (deps i)) (fun i _ st => dense t (deps i) (nextSequence st)).
Proof.
  intros Hinj Hid. split.
  - intros i. apply _.
  - intros i j w w' Hij. apply jguar_jrely; [done..|]. intros E. by apply Hij, Hinj.
  - intros i. apply jinv_stable.
  - intros i op st w w'. apply dense_stable.
  - intros i op st w Hinv. split; [apply Hinv|]. by apply writer_op_rg.
Qed.

Definition journal_start (w : tables) : (I -> thread (E:=JournalEff) (St:=JournalWriter) (Op:=journal_op)) * tables :=
  (fun _ => Idle (MkWriter 1 None None None 0 0), w).

Lemma journal_reachable_ok w0 s :
  (forall i j, d_instanceId (deps i) = d_instanceId (deps j) -> i = j) ->
  (forall i, isUuid4 (d_instanceId (deps i)) = true) ->
  (forall i k, jrow t (deps i) w0 k = None) ->
  rtc journal_system_step (journal_start w0) s ->
  sys_ok (journal_step t) (fun i => jrely t (deps i)) (fun i => jguar t (deps i)) (fun i => jinv t (deps i))
    (fun i _ st => dense t (deps i) (nextSequence st)) s.
Proof.
  intros Hinj Hid H0. apply system_invariant; [by apply journal_rg_system|].
  intros i. unfold jinv. simpl. split_and!; [done| |intros; apply H0|done..|naive_solver].
  intros k Hk%isSourceSequence_range. split; [lia|]. intros _. apply H0.
Qed.

(** The writer's next sequence, between operations or at the start of the running one. *)
Definition next_of (th : thread (E:=JournalEff) (St:=JournalWriter) (Op:=journal_op)) : Z :=
  match th with Idle st => nextSequence st | Running _ st _ => nextSequence st end.

(** C2: Dense sequences. Writers of distinct source instances share a journal table that may
    refuse, fail, throw, or answer ambiguously and land or not, and interleave appends,
    prepared puts, retries and caller transactions in any order. In every reachable state
    the stored events of each instance are exactly the sequences below its next one (each
    under its own key and carrying that sequence and instance), possibly with the next
    itself, and none above it. *)
Theorem journal_sequences_dense (w0 : tables) ths (w : tables) :
  (forall i j, d_instanceId (deps i) = d_instanceId (deps j) -> i = j) ->
  (forall i, isUuid4 (d_instanceId (deps i)) = true) ->
  (forall i k, jrow t (deps i) w0 k = None) ->
  rtc journal_system_step (journal_start w0) (ths, w) ->
  forall i k, 1 <= k <= MAX_SOURCE_SEQUENCE ->
    (k < next_of (ths i) -> exists m, jrow t (deps i) w k = Some m
       /\ member "source_sequence" m = Some (JNum (JSInt k))
       /\ member "source_instance_id" m = Some (JStr (d_instanceId (deps i))))
    /\ (next_of (ths i) < k -> jrow t (deps i) w k = None).
Proof.
  intros Hinj Hid H0 Hreach i k Hk. pose proof (journal_reachable_ok _ _ Hinj Hid H0 Hreach i) as Hok.
  apply isSourceSequence_range in Hk. simpl in Hok.
  destruct (ths i) as [st|op st p]; simpl in *; [apply Hok|apply Hok]; done.
Qed.

(** Append only. No step of any writer, whatever the store answers, changes or removes a
    stored item of any table: an item that exists is the same afterwards. *)
Theorem journal_append_only (w0 : tables) ths (w : tables) ths' (w' : tables) :
  (forall i j, d_instanceId (deps i) = d_instanceId (deps j) -> i = j) ->
  (forall i, isUuid4 (d_instanceId (deps i)) = true) ->
  (forall i k, jrow t (deps i) w0 k = None) ->
  rtc journal_system_step (journal_start w0) (ths, w) -> journal_system_step (ths, w) (ths', w') ->
  forall t' key m, w t' key = Some m -> w' t' key = Some m.
Proof.
  intros Hinj Hid H0 Hreach Hstep t' key m Hm. pose proof (journal_reachable_ok _ _ Hinj Hid H0 Hreach) as Hok.
  destruct (sys_step_guar _ _ _ _ _ _ (journal_rg_system Hinj Hid) _ _ _ _ Hok Hstep) as (i & [->|Hg] & _); [done|].
  destruct (Hg t' key) as [->|(_ & E & _)]; [done|congruence].
Qed.

(** A stopped writer is silent for good: in every reachable state, whatever operation is
    called on a stopped writer, it performs no effect at all (no append, no transaction) and
    leaves it stopped for the same first reason. *)
Theorem stopped_writer_is_silent (w0 : tables) ths (w : tables) i st x (op : journal_op) :
  (forall i j, d_instanceId (deps i) = d_instanceId (deps j) -> i = j) ->
  (forall i, isUuid4 (d_instanceId (deps i)) = true) ->
  (forall i k, jrow t (deps i) w0 k = None) ->
  rtc journal_system_step (journal_start w0) (ths, w) -> ths i = Idle st -> stopped st = Some x ->
  exists st', writer_op (deps i) op st = Ret st' /\ stopped st' = Some x /\ nextSequence st' = nextSequence st.
Proof.
  intros Hinj Hid H0 Hreach Hi Hs. pose proof (journal_reachable_ok _ _ Hinj Hid H0 Hreach i) as Hok.
  simpl in Hok. rewrite Hi in Hok. destruct Hok as (_ & _ & _ & Hres & _). rewrite Hs in Hres.
  destruct op; cbn [writer_op]; unfold append_run, jfields, prepare, prepareRetry, confirm, appendInOrder, se_bind; simpl;
    rewrite ?Hs, ?Hres by done; simpl; rewrite ?Hs, ?Hres by done; eexists; (split; [reflexivity|]); simpl; auto.
Qed.
End system.

(** ** A run *)

(** A table that answers ambiguously from sequence [bad] on, without storing. *)
Definition flaky (bad : Z) (R : Type) (e : JournalEff R) : tables -> R * tables :=
  match e in JournalEff R return tables -> R * tables with
  | PortAppend entry => fun w =>
      let a := createDurableJournalPort caller_journal entry in
      match action_target a with
      | Some (t, k) =>
          match member "source_sequence" (item entry) with
          | Some (JNum (JSInt n)) =>
              if n <? bad then (Ok (write_now (w t k) a).1, set_row w t k (write_now (w t k) a).2)
              else (Err (ForeignError "TimeoutError"), w)
          | _ => (Err (ForeignError "TimeoutError"), w)
          end
      | None => (Ok (definitive_failure "ValidationException"), w)
      end
  | ClockNow => fun w => (Some 1791201600000, w)
  | NextId => fun w => ("3f1c2a9e-8b4d-4c1e-9f00-1a2b3c4d5e6f", w)
  | CallerTransact entry _ => fun w => (definitive_failure "ThrottlingException", w)
  end.

Lemma flaky_step bad R (e : JournalEff R) w : journal_step caller_journal R e w (flaky bad R e w).1 (flaky bad R e w).2.
Proof.
  destruct e as [entry| | |entry index]; simpl; try done; [|constructor].
  destruct (option_map _ _) as [[t k]|] eqn:E; simpl; [|by constructor].
  destruct (member _ _) as [[| |[n|]| | |]|]; try (by constructor).
  destruct (n <? bad); simpl; [|constructor]. eapply store_write_ok; [done|]. apply write_now_step.
Qed.

Definition demo_deps (b : bool) : JournalWriterDeps :=
  MkDeps "runner" (if b then "3f1c2a9e-8b4d-4c1e-9f00-1a2b3c4d5e6f" else "00000000-0000-4000-8000-000000000000")
    (MkScope (id_run "r") "0" pt_probe) 1.

Definition no_rows : tables := fun _ _ => None.

Definition demo_run (op : journal_op) (r : JournalWriter * tables) : JournalWriter * tables :=
  run (flaky 2) (writer_op (demo_deps true) op r.1) r.2.

(** One append that is stored, and one that stays ambiguous and stops the writer. *)
Definition demo_state : JournalWriter * tables :=
  demo_run (JAppend "x" [] []) (demo_run (JAppend "x" [] []) (MkWriter 1 None None None 0 0, no_rows)).

Lemma journal_demo_reachable : exists ths,
  rtc (sys_step (journal_step caller_journal) (fun i => writer_op (demo_deps i))) (journal_start no_rows) (ths, demo_state.2)
  /\ ths true = Idle demo_state.1.
Proof.
  destruct (sys_run (journal_step caller_journal) (fun i => writer_op (demo_deps i)) (flaky 2) (flaky_step 2)
    (fun _ => Idle (MkWriter 1 None None None 0 0)) no_rows true (JAppend "x" [] []) _ eq_refl) as (t1 & H1 & E1 & _).
  destruct (sys_run (journal_step caller_journal) (fun i => writer_op (demo_deps i)) (flaky 2) (flaky_step 2) t1
    (demo_run (JAppend "x" [] []) (MkWriter 1 None None None 0 0, no_rows)).2 true (JAppend "x" [] []) _ E1) as (t2 & H2 & E2 & _).
  exists t2. split; [etrans; [exact H1|exact H2]|exact E2].
Qed.

Lemma demo_instances i j : d_instanceId (demo_deps i) = d_instanceId (demo_deps j) -> i = j.
Proof. destruct i, j; done. Qed.

Lemma demo_uuids i : isUuid4 (d_instanceId (demo_deps i)) = true.
Proof. by destruct i. Qed.

Lemma journal_sequences_dense_witness :
  exists m, jrow caller_journal (demo_deps true) demo_state.2 1 = Some m
    /\ member "source_sequence" m = Some (JNum (JSInt 1)).
Proof.
  destruct journal_demo_reachable as (ths & Hr & Ht).
  destruct (journal_sequences_dense caller_journal demo_deps no_rows ths _ demo_instances demo_uuids (fun _ _ => eq_refl) Hr true 1)
    as [H _]; [split; vm_compute; discriminate|].
  destruct H as (m & Hm & Hs & _); [rewrite Ht; vm_compute; reflexivity|]. exists m. split; [exact Hm|exact Hs].
Defined.

Lemma journal_append_only_witness :
  exists ths ths' m, sys_step (journal_step caller_journal) (fun i => writer_op (demo_deps i))
      (ths, demo_state.2) (ths', demo_state.2)
    /\ jrow caller_journal (demo_deps true) demo_state.2 1 = Some m
    /\ demo_state.2 caller_journal (jkey (demo_deps true) 1) = Some m.
Proof.
  destruct journal_demo_reachable as (ths & Hr & Ht).
  assert (Hs : sys_step (journal_step caller_journal) (fun i => writer_op (demo_deps i)) (ths, demo_state.2)
    (<[true := Running JAppendCall demo_state.1 (writer_op (demo_deps true) JAppendCall demo_state.1)]> ths, demo_state.2))
    by (constructor; exact Ht).
  do 2 eexists. destruct (jrow caller_journal (demo_deps true) demo_state.2 1) as [m|] eqn:Em; [|vm_compute in Em; discriminate].
  exists m. split; [exact Hs|]. split; [reflexivity|].
  refine (journal_append_only caller_journal demo_deps no_rows ths _ _ _ demo_instances demo_uuids (fun _ _ => eq_refl) Hr Hs
    caller_journal (jkey (demo_deps true) 1) m Em).
Defined.

Lemma stopped_writer_is_silent_witness :
  exists st', writer_op (demo_deps true) (JAppend "y" [] []) demo_state.1 = Ret st' /\ stopped st' <> None.
Proof.
  destruct journal_demo_reachable as (ths & Hr & Ht).
  destruct (stopped demo_state.1) as [x|] eqn:Ex; [|vm_compute in Ex; discriminate].
  destruct (stopped_writer_is_silent caller_journal demo_deps no_rows ths _ true _ x (JAppend "y" [] []) demo_instances
    demo_uuids (fun _ _ => eq_refl) Hr Ht Ex) as (st' & H1 & H2 & _).
  exists st'. split; [exact H1|]. rewrite H2. discriminate.
Defined.

End JournalSafety.
