(* ===== verification/JournalTx.v ===== *)
(** * Journal events in transactions

    A writer's caller reserves an event, writes it together with other actions in one
    transaction and confirms the reservation with the transaction's outcome. What the
    reservation, the row and the outcome say of each other, for any journal table; the
    provider, the controller and the caller's client share it. *)

From S2P Require Import Prelude Timestamps Effects Store JsonText Journal JournalSafety.
Import Json Store Identifiers Journal JournalSafety.
Open Scope Z_scope.

Module JournalTx.
Section tx.
Context (t0 : TableRole).

(** Reserving the put of the next event. *)
Lemma prepare_reserves d type body causation st w :
  jinv t0 d st w ->
  rgs (journal_step t0) (jrely t0 d) (jguar t0 d)
    (dense t0 d (nextSequence st)) (prepare d type body causation)
    (fun st' r w' => jinv t0 d st' w' /\ forall p, r = Ok (inl p) -> reservation st' = Some p /\ built type body (put_entry p)) st w.
Proof.
  intros Hinv. apply rgs_bind. unfold rgs at 1. simpl. destruct (stopped st) eqn:Est; [by split|].
  apply rgs_bind, assertIdle_spec; [by split|]. intros Hres.
  apply rgs_bind, nextEntry_spec; [apply Hinv|intros w1 e Hr; split; [|done]; apply cleared_inv; by eapply jinv_stable|].
  intros w1 p Hr He Hb. unfold rgs. simpl. split; [|by intros ? [= <-]].
  apply (reserve_inv _ _ p (allocate (set_retryable None st))); [|done|done].
  apply (cleared_inv _ _ (allocate st)). by apply (jinv_stable _ _ st w).
Qed.

(** *** A reserved put between its transaction and its confirmation *)

Definition pending (d : JournalWriterDeps) (st : JournalWriter) (p : PreparedJournalPut) (landed : bool) (w : tables) : Prop :=
  stopped st = None /\ reservation st = Some p /\ 1 <= nextSequence st /\ retryable st = None
  /\ entry_at d (nextSequence st) (put_entry p) /\ dense t0 d (nextSequence st) w
  /\ jrow t0 d w (nextSequence st) = if landed then Some (item (put_entry p)) else None.

Lemma reserved_pending d st p w :
  jinv t0 d st w -> reservation st = Some p -> pending d st p false w.
Proof.
  intros (Hn & Hd & Hfree & Hres & Hrr & Hput) Hp.
  assert (Hs : stopped st = None). { destruct (stopped st) eqn:E; [|done]. rewrite Hres in Hp by done. done. }
  assert (He : entry_at d (nextSequence st) (put_entry p)) by auto.
  split_and!; try done; [apply Hrr; by rewrite Hp|]. apply Hfree; [done|apply He].
Qed.

Lemma pending_stable d st p landed w w' :
  pending d st p landed w -> jrely t0 d w w' -> pending d st p landed w'.
Proof.
  intros (H1 & H2 & H3 & H4 & H5 & H6 & H7) Hr. split_and!; try done; [by eapply dense_stable|].
  rewrite Hr by apply H5. done.
Qed.

Definition confirm_view (r : ConfirmResult) (landed : bool) : Prop :=
  match r with
  | cf_result (ap_appended _) => landed = true
  | cf_result (ap_stopped _) => True
  | cf_not_applied _ _ => landed = false
  end.

Lemma confirm_pending d st p landed w out index c :
  pending d st p landed w -> classifyJournalOutcome out (put_entry p) index = Ok c -> class_view c landed ->
  exists st' r, confirm p out index st = Ret (st', Ok r) /\ jinv t0 d st' w /\ confirm_view r landed.
Proof.
  intros (H1 & H2 & H3 & H4 & H5 & H6 & H7) Hc Hv. unfold confirm, se_bind, se_get, se_modify, se_of. cbn [pbind].
  rewrite H2. cbn [same_put]. rewrite Nat.eqb_refl. cbn [negb pbind]. rewrite Hc. cbn [pbind].
  destruct c; cbn in Hv; try done; [subst landed..|].
  - do 2 eexists. split; [reflexivity|]. split; [|done].
    eapply (settle_inv _ _ (nextSequence st) (MkWriteVerdict oc_applied (describeOutcome out)) (put_entry p) (set_reservation None st));
      [reflexivity| |done..]. split; [done|]. by exists true.
  - do 2 eexists. split; [reflexivity|]. split; [|done]. unfold jinv. cbn. split_and!; try done.
    intros q [Hq|Hq]; by simplify_eq.
  - do 2 eexists. split; [reflexivity|]. split; [|done].
    eapply (settle_inv _ _ (nextSequence st) (MkWriteVerdict oc_ambiguous (describeOutcome out)) (put_entry p) (set_reservation None st));
      [reflexivity| |done..]. split; [done|]. by exists landed.
Qed.

(** A confirmed put is retryable when it did not apply, and is the event reported when it did. *)
Lemma confirm_event p out index st st' r :
  confirm p out index st = Ret (st', Ok r) ->
  match r with
  | cf_result (ap_appended e) => e = event (put_entry p)
  | cf_result (ap_stopped _) => True
  | cf_not_applied _ _ => retryable st' = Some p
  end.
Proof.
  unfold confirm, se_bind, se_get, se_modify, se_of. cbn [pbind]. destruct (negb _); [done|]. cbn [pbind].
  destruct (classifyJournalOutcome _ _ _) as [c|]; [|done]. cbn [pbind]. destruct c; cbn; by intros [= <- <-].
Qed.

(** Reserving a put again after it did not apply. *)
Lemma retry_reserves d p st w :
  jinv t0 d st w -> retryable st = Some p ->
  rgs (journal_step t0) (jrely t0 d) (jguar t0 d) (dense t0 d (nextSequence st)) (prepareRetry p)
    (fun st' r w' => jinv t0 d st' w' /\ forall q, r = Ok (inl q) -> q = p /\ reservation st' = Some p) st w.
Proof.
  intros Hinv Hp. apply rgs_bind. unfold rgs at 1. cbn [se_get rg fst snd]. destruct (stopped st) eqn:Est; [by split|].
  apply rgs_bind, assertIdle_spec; [by split|]. intros Hres.
  destruct (same_put (Some p) (retryable st)) eqn:Es; cbn [negb]; [|by split].
  unfold rgs. simpl. split; [|by intros ? [= <-]]. apply reserve_inv; [done|done|]. apply Hinv. by right.
Qed.

(** A landed put is the row of the writer's next sequence. *)
Lemma pending_stored d st p type body w :
  pending d st p true w -> built type body (put_entry p) -> stored t0 d type body (event (put_entry p)) w.
Proof. intros (_ & _ & _ & _ & He & _ & Hrow) Hb. exists (nextSequence st), (put_entry p). by split_and!; [apply He|..]. Qed.

(** *** Transactions *)

Lemma apply_row_other w a t k : action_target a <> Some (t, k) -> apply_row w a t k = w t k.
Proof.
  intros H. unfold apply_row. destruct (action_target a) as [[t' k']|]; [|done]. apply set_row_other. congruence.
Qed.

Lemma apply_all_other w actions t k :
  Forall (fun a => action_target a <> Some (t, k)) actions -> apply_all w actions t k = w t k.
Proof.
  revert w. induction actions as [|a l IH]; intros w; [done|]. rewrite Forall_cons. intros [Ha Hl].
  unfold apply_all. cbn [fold_left]. fold (apply_all (apply_row w a) l). rewrite IH by done. by apply apply_row_other.
Qed.

Lemma apply_all_row w actions a t k :
  distinct_targets actions -> a ∈ actions -> action_target a = Some (t, k) ->
  apply_all w actions t k = apply_action (w t k) a.
Proof.
  unfold distinct_targets. revert w. induction actions as [|b l IH]; intros w Hd Ha Ht; [by apply elem_of_nil in Ha|].
  cbn [map] in Hd. apply NoDup_cons in Hd as [Hn Hd]. unfold apply_all. cbn [fold_left]. fold (apply_all (apply_row w b) l).
  apply elem_of_cons in Ha as [<-|Ha].
  - rewrite apply_all_other; [unfold apply_row; rewrite Ht; apply set_row_same|].
    apply Forall_forall. intros c Hc E. apply Hn. rewrite Ht, <-E. apply list_elem_of_fmap. eauto.
  - rewrite IH by done. f_equal. apply apply_row_other. intros E. apply Hn. rewrite E, <-Ht. apply list_elem_of_fmap. eauto.
Qed.

(** What holds of each row a transaction writes, and of every row left as it was, holds of all. *)
Lemma apply_all_each (R : TableRole -> ItemKey -> option StoredItem -> option StoredItem -> Prop) w actions :
  (forall t k v, R t k v v) -> distinct_targets actions -> forallb (row_holds w) actions = true ->
  Forall (fun a => forall t k, action_target a = Some (t, k) -> row_holds w a = true ->
                   R t k (w t k) (apply_action (w t k) a)) actions ->
  forall t k, R t k (w t k) (apply_all w actions t k).
Proof.
  intros Hrefl Hd Hh HF t k. destruct (decide (Exists (fun a => action_target a = Some (t, k)) actions)) as [He|He].
  - apply Exists_exists in He as (a & Ha & Ht). rewrite (apply_all_row w actions a t k) by done.
    rewrite Forall_forall in HF. apply HF; [done..|]. rewrite forallb_forall in Hh. apply Hh. by apply list_elem_of_In.
  - rewrite apply_all_other; [apply Hrefl|]. by apply not_Exists_Forall in He; [|apply _].
Qed.

(** A transaction whose action [index] writes the reserved put. *)
Definition tx_view (actions : list WriteAction) (w : tables) (out : WriteOutcome) (landed : bool) (w' : tables) : Prop :=
  if landed then w' = apply_all w actions /\ distinct_targets actions /\ forallb (row_holds w) actions = true
  else w' = w /\ forall i existing, out = condition_failed i existing ->
    exists n a t k, i = Z.of_nat n /\ actions !! n = Some a /\ action_target a = Some (t, k) /\ row_holds w a = false
      /\ (existing = None \/ existing = w t k).

(** The only action of a transaction on the rows of this instance is the put. *)
Definition own_journal_put (d : JournalWriterDeps) (actions : list WriteAction) (entry : JournalEntry) : Prop :=
  Forall (fun a => forall k, isSourceSequence k = true -> action_target a = Some (t0, jkey d k) -> a = journalPutAction t0 entry) actions.

(** The only action on the journal table is the put. *)
Definition one_journal_put (actions : list WriteAction) (entry : JournalEntry) : Prop :=
  Forall (fun a => forall k, action_target a = Some (t0, k) -> a = journalPutAction t0 entry) actions.

Lemma one_is_own d actions entry : one_journal_put actions entry -> own_journal_put d actions entry.
Proof. intros H. eapply Forall_impl; [exact H|]. intros a Ha k _. apply Ha. Qed.

Lemma transact_pending d st p actions index w out w' :
  pending d st p false w -> transact_step w actions out w' ->
  actions !! index = Some (journalPutAction t0 (put_entry p)) -> own_journal_put d actions (put_entry p) ->
  exists landed c, tx_view actions w out landed w' /\ pending d st p landed w'
    /\ classifyJournalOutcome out (put_entry p) (Z.of_nat index) = Ok c /\ class_view c landed.
Proof.
  intros Hp Hs Hi Hone. pose proof Hp as (H1 & H2 & H3 & H4 & He & H6 & H7).
  pose proof (put_target t0 d (nextSequence st) (put_entry p) He) as Ht.
  assert (Hland : distinct_targets actions -> pending d st p true (apply_all w actions)).
  { intros Hd. pose proof (apply_all_row w actions _ _ _ Hd (list_elem_of_lookup_2 _ _ _ Hi) Ht) as Hrow.
    split_and!; try done. intros k Hk. destruct (decide (k = nextSequence st)) as [->|Hne]; [split; lia|].
    assert (E : jrow t0 d (apply_all w actions) k = jrow t0 d w k); [|rewrite E; by apply H6].
    apply apply_all_other. eapply Forall_impl; [exact Hone|]. intros a Ha E. pose proof (Ha _ Hk E) as ->.
    rewrite Ht in E. injection E as E. apply Hne. symmetry. eapply sort_key_inj; [apply He|done|done]. }
  destruct Hs as [Hd Hh|i a t k existing Ha Hta Hf Hb Hex|code|code|code Hd Hh].
  - exists true, oc_applied. split; [done|]. split; [by apply Hland|done].
  - exists false, oc_not_applied. split; [|split; [done|split; [|done]]].
    + split; [done|]. intros j e [= <- <-]. by exists i, a, t, k.
    + cbn. unfold classifyConditionFailure. destruct (Z.eqb_spec (Z.of_nat i) (Z.of_nat index)) as [E|]; [|done].
      apply Nat2Z.inj in E as ->. rewrite Hi in Ha. injection Ha as <-. unfold row_holds in Hf. rewrite Ht in Hf.
      unfold jrow in H7. rewrite H7 in Hf. done.
  - exists false, oc_not_applied. split; [by split|done].
  - exists false, oc_ambiguous. split; [by split|done].
  - exists true, oc_ambiguous. split; [done|]. split; [by apply Hland|done].
Qed.
End tx.
End JournalTx.
