(* ===== verification/Money.v ===== *)
(** * Exact money arithmetic

    src/study-1/src/billing-amendment/money-decimal.ts (billed amounts),
    src/study-1/src/safety/usd-amount.ts and cost-estimate.ts (the admission
    estimate) and the sums of src/study-1/src/record-contract/decimal.ts. Amounts
    are decimal strings; every sum, comparison and conversion runs on integers. *)

From Stdlib Require Strings.Ascii.
From S2P Require Import Prelude Timestamps Decimals Store JsonText.
Import (notations) Stdlib.Strings.Ascii.
Import Digits Json JsonText.
Open Scope Z_scope.

Module Money.

(** ** Money decimals *)

Definition MONEY_DECIMAL_SOURCE : string := "^(0|[1-9][0-9]*)(\.[0-9]+)?$".

(** The text before the first point and, when there is one, after it. *)
Fixpoint span_point (l : list Ascii.ascii) : list Ascii.ascii * option (list Ascii.ascii) :=
  match l with
  | [] => ([], None)
  | c :: r =>
      if bool_decide (c = "."%char) then ([], Some r)
      else let '(a, b) := span_point r in (c :: a, b)
  end.

(** [MONEY_DECIMAL_PATTERN.test(value)] *)
Definition isMoneyDecimal (value : string) : bool :=
  let '(integer, fraction) := span_point (chars value) in
  canonical_integer integer
  && match fraction with
     | None => true
     | Some f => bool_decide (f <> []) && forallb is_digit f
     end.

Record ScaledAmount := MkScaled { units : Z; scale : Z }.

Definition toScaled (amount : string) : Result ScaledAmount js_error :=
  if negb (isMoneyDecimal amount) then
    Err (RangeError ("money amount " +:+ boundedJsonText (JStr amount) QUOTED_JSON_LIMIT
                     +:+ " is not a money decimal; expected " +:+ MONEY_DECIMAL_SOURCE))
  else
    let '(integer, fraction) := span_point (chars amount) in
    let f := default [] fraction in
    Ok (MkScaled (digits_value (integer ++ f)) (Z.of_nat (length f))).

Definition rescale (amount : ScaledAmount) (s : Z) : Z := units amount * 10 ^ (s - scale amount).

(** [formatScaled]; [slice(0, length - scale)] and [slice(length - scale)] split the digits. *)
Definition formatScaled (amount : ScaledAmount) : string :=
  if scale amount <=? 0 then string_of_Z (units amount * 10 ^ (- scale amount))
  else
    let width := Z.to_nat (scale amount) in
    let digits := chars (padStart (string_of_Z (units amount)) (S width) "0"%char) in
    let integer := take (length digits - width) digits in
    let fraction := strip_zeros (drop (length digits - width) digits) in
    match fraction with
    | [] => text integer
    | _ => text (integer ++ ["."%char] ++ fraction)
    end.

Fixpoint all_scaled (amounts : list string) : Result (list ScaledAmount) js_error :=
  match amounts with
  | [] => Ok []
  | a :: rest =>
      let! x := toScaled a in
      let! xs := all_scaled rest in
      Ok (x :: xs)
  end.

Definition widest (l : list ScaledAmount) : Z := fold_left (fun w a => Z.max w (scale a)) l 0.

Definition sumMoney (amounts : list string) : Result string js_error :=
  let! scaled := all_scaled amounts in
  let s := widest scaled in
  Ok (formatScaled (MkScaled (fold_left (fun total a => total + rescale a s) scaled 0) s)).

Definition compareMoney (a b : string) : Result Z js_error :=
  let! l := toScaled a in
  let! r := toScaled b in
  let s := Z.max (scale l) (scale r) in
  let difference := rescale l s - rescale r s in
  Ok (if difference =? 0 then 0 else if difference <? 0 then -1 else 1).

(** ** Cost cells of an export *)

Definition COST_TEXT_MAX_LENGTH : nat := 64.
Definition COST_EXPONENT_MAX : Z := 64.

(** The text before the first [e] or [E] and after it. *)
Fixpoint span_exponent (l : list Ascii.ascii) : list Ascii.ascii * option (list Ascii.ascii) :=
  match l with
  | [] => ([], None)
  | c :: r =>
      if bool_decide (c = "e"%char) || bool_decide (c = "E"%char) then ([], Some r)
      else let '(a, b) := span_exponent r in (c :: a, b)
  end.

(** [[+-]?[0-9]+] with its number. *)
Definition exponent_value (l : list Ascii.ascii) : option Z :=
  let digits (d : list Ascii.ascii) := if bool_decide (d <> []) && forallb is_digit d then Some (digits_value d) else None in
  match l with
  | c :: r =>
      if bool_decide (c = "+"%char) then digits r
      else if bool_decide (c = "-"%char) then option_map Z.opp (digits r)
      else digits l
  | [] => None
  end.

(** [COST_TEXT_PATTERN] with the parts [parseCurCost] cuts: integer digits, fraction digits
    and exponent; [None] when the text does not match. *)
Definition cost_parts (text : string) : option (list Ascii.ascii * list Ascii.ascii * Z) :=
  let '(mantissa, exponent) := span_exponent (chars text) in
  let '(integer, fraction) := span_point mantissa in
  let f := default [] fraction in
  if forallb is_digit integer && forallb is_digit f then
    match exponent with
    | None => Some (integer, f, 0)
    | Some e => option_map (fun z => (integer, f, z)) (exponent_value e)
    end
  else None.

Definition parseCurCost (text : string) : option string :=
  if (COST_TEXT_MAX_LENGTH <? String.length text)%nat then None
  else if isMoneyDecimal text then Some text
  else match cost_parts text with
       | None => None
       | Some (integer, fraction, exponent) =>
           if Nat.eqb (length integer + length fraction) 0 || (Z.abs exponent >? COST_EXPONENT_MAX) then None
           else Some (formatScaled (MkScaled (digits_value (integer ++ fraction))
                                             (Z.of_nat (length fraction) - exponent)))
       end.

(** ** USD amounts of the admission estimate *)

Definition USD_SCALE_DIGITS : nat := 12.
Definition SCALE : Z := 1000000000000.
Definition SCALE_PER_CENT : Z := 10000000000.

Definition scaledUsd (t : string) : option Z :=
  if negb (isMoneyDecimal t) then None
  else
    let '(whole, fraction) := span_point (chars t) in
    let f := default [] fraction in
    if (USD_SCALE_DIGITS <? length f)%nat then None
    else Some (digits_value whole * SCALE + digits_value (f ++ repeat "0"%char (USD_SCALE_DIGITS - length f))).

Definition centsCeiling (scaled : Z) : string :=
  let cents := Z.quot (scaled + SCALE_PER_CENT - 1) SCALE_PER_CENT in
  string_of_Z (Z.quot cents 100) +:+ "." +:+ padStart (string_of_Z (Z.rem cents 100)) 2 "0"%char.

Definition exactUsd (scaled : Z) : string :=
  let whole := string_of_Z (Z.quot scaled SCALE) in
  let fraction := strip_zeros (chars (padStart (string_of_Z (Z.rem scaled SCALE)) USD_SCALE_DIGITS "0"%char)) in
  match fraction with [] => whole | _ => whole +:+ "." +:+ text fraction end.

(** *** The estimate *)

Record PriceCeiling := MkPrice { p_meter : string; usd_per_unit : string }.
Record PlannedUsage := MkUsage { u_meter : string; quantity : Z }.
Record CostLine := MkLine { l_meter : string; l_quantity : Z; l_usd_per_unit : string; cost_usd : string }.
Record CostEstimate := MkEstimate { estimated_cost_usd : string; lines : list CostLine }.

Definition costReason (c d : string) : StructuredReason := reason c "BR-RUA-046" d.

Definition priceLine (meter : string) (q : Z) (prices : list PriceCeiling) : Result (CostLine * Z) StructuredReason :=
  let matching := List.filter (fun p => bool_decide (p_meter p = meter)) prices in
  match matching with
  | [price] =>
      match scaledUsd (usd_per_unit price) with
      | None => Err (costReason "PRICE_CEILING_INVALID"
          ("meter " +:+ meter +:+ " is priced " +:+ boundedJsonText (JStr (usd_per_unit price)) QUOTED_JSON_LIMIT
           +:+ "; expected a nonnegative decimal with at most 12 fraction digits"))
      | Some unitPrice =>
          if negb (is_safe_integer q) || (q <? 0) then
            Err (costReason "PLANNED_QUANTITY_INVALID"
              ("meter " +:+ meter +:+ " plans " +:+ string_of_Z q +:+ "; expected a nonnegative safe integer"))
          else
            let scaled := unitPrice * q in
            Ok (MkLine meter q (usd_per_unit price) (exactUsd scaled), scaled)
      end
  | _ => Err (costReason "PRICE_CEILING_MISSING"
      ("meter " +:+ meter +:+ " has " +:+ string_of_Z (Z.of_nat (length matching))
       +:+ " price ceilings; expected exactly one committed ceiling"))
  end.

(** One turn of the loop over the planned usage: total, lines and reasons so far. *)
Definition estimate_step (prices : list PriceCeiling) (acc : Z * list CostLine * list StructuredReason) (usage : PlannedUsage) :
  Z * list CostLine * list StructuredReason :=
  let '(total, ls, reasons) := acc in
  match priceLine (u_meter usage) (quantity usage) prices with
  | Err e => (total, ls, reasons ++ [e])
  | Ok (line, scaled) => (total + scaled, ls ++ [line], reasons)
  end.

Definition estimateAttributableCost (plan : list PlannedUsage) (prices : list PriceCeiling) :
  Result CostEstimate (list StructuredReason) :=
  let '(total, ls, reasons) := fold_left (estimate_step prices) plan (0, [], []) in
  match reasons with
  | [] => Ok (MkEstimate (centsCeiling total) ls)
  | _ => Err reasons
  end.

Definition estimateWithinCeiling (estimate ceiling : string) : bool :=
  match scaledUsd ceiling, scaledUsd estimate with
  | Some limit, Some value => value <=? limit
  | _, _ => false
  end.

(** ** Minor units *)

Fixpoint sum_minor (total : Z) (amounts : list Z) : Result Z js_error :=
  match amounts with
  | [] => Ok total
  | a :: rest =>
      if negb (is_safe_integer a) || (a <? 0)
      then Err (RangeError ("amount " +:+ string_of_Z a
             +:+ " is not a nonnegative safe integer; expected 0..9007199254740991"))
      else sum_minor (total + a) rest
  end.

Definition sumMinorUnits (amounts : list Z) : Result string js_error :=
  let! total := sum_minor 0 amounts in Ok (string_of_Z total).

Definition isDecimalString (value : string) : bool := canonical_integer (chars value).

Definition toBigInt (value : string) : Result Z js_error :=
  if negb (isDecimalString value)
  then Err (RangeError (boundedJsonText (JStr value) QUOTED_JSON_LIMIT
         +:+ " is not a decimal string; expected ^(0|[1-9][0-9]*)$"))
  else Ok (digits_value (chars value)).

Definition compareDecimal (a b : string) : Result Z js_error :=
  let! l := toBigInt a in
  let! r := toBigInt b in
  Ok (if l =? r then 0 else if l <? r then -1 else 1).

Definition elapsedNs (origin now : Z) : Result string js_error :=
  if now <? origin
  then Err (RangeError ("monotonic reading " +:+ string_of_Z now +:+ " precedes origin " +:+ string_of_Z origin
         +:+ "; expected now >= origin"))
  else Ok (string_of_Z (now - origin)).

(** ** Reading what was written *)

Lemma is_digit_not_point c : is_digit c = true -> c <> "."%char.
Proof. intros H ->. by vm_compute in H. Qed.

Lemma span_point_digits l : forallb is_digit l = true -> span_point l = (l, None).
Proof.
  induction l as [|c l IH]; [done|]. cbn [forallb span_point]. intros [Hc Hl]%andb_prop.
  rewrite bool_decide_eq_false_2 by (by apply is_digit_not_point). by rewrite IH.
Qed.

Lemma span_point_app l f : forallb is_digit l = true -> span_point (l ++ "."%char :: f) = (l, Some f).
Proof.
  induction l as [|c l IH]; cbn [forallb span_point app]; [by intros _; rewrite bool_decide_eq_true_2|].
  intros [Hc Hl]%andb_prop. rewrite bool_decide_eq_false_2 by (by apply is_digit_not_point). by rewrite IH.
Qed.

(** The text of a canonical integer part and a digit string, with the point omitted before an
    empty fraction. *)
Definition money_text (i f : list Ascii.ascii) : string :=
  match f with [] => text i | _ => text (i ++ ["."%char] ++ f) end.

Lemma money_text_parts i f :
  canonical_integer i = true -> forallb is_digit f = true ->
  isMoneyDecimal (money_text i f) = true
  /\ exists fr, span_point (chars (money_text i f)) = (i, fr) /\ default [] fr = f.
Proof.
  intros Hi Hf. pose proof (canonical_digits _ Hi) as Hd. unfold isMoneyDecimal, money_text.
  destruct f as [|c f]; rewrite chars_text.
  - rewrite span_point_digits, Hi by done. split; [done|]. by exists None.
  - cbn [app]. rewrite span_point_app, Hi by done. split; [|by exists (Some (c :: f))].
    rewrite bool_decide_eq_true_2 by done. exact Hf.
Qed.

Lemma toScaled_money_text i f :
  canonical_integer i = true -> forallb is_digit f = true ->
  toScaled (money_text i f) = Ok (MkScaled (digits_value (i ++ f)) (Z.of_nat (length f))).
Proof.
  intros Hi Hf. destruct (money_text_parts i f Hi Hf) as (Hm & fr & Hs & Hfr).
  unfold toScaled. rewrite Hm, Hs, Hfr. done.
Qed.

(** ** Formatting *)

(** Equal as rational numbers. *)
Definition same_value (a b : ScaledAmount) : Prop :=
  exists s, scale a <= s /\ scale b <= s /\ rescale a s = rescale b s.

(** Padded to one digit more than the fraction, a spelling splits into a canonical integer
    part and a fraction of exactly that width. *)
Lemma padded_split u w : 0 <= u ->
  let l := chars (padStart (string_of_Z u) (S w) "0"%char) in
  digits_value l = u /\ forallb is_digit l = true /\ (w < length l)%nat
  /\ canonical_integer (take (length l - w) l) = true.
Proof.
  intros Hu. destruct (spelling u Hu) as [Hc Hv]. cbn zeta. unfold padStart.
  rewrite chars_app, chars_text, <-length_chars. remember (chars (string_of_Z u)) as d eqn:Ed. clear Ed.
  pose proof (canonical_digits _ Hc) as Hd. rewrite digits_value_app, digits_value_zeros, forallb_app, length_app, repeat_length.
  split; [lia|]. split.
  { rewrite Hd, andb_true_r. apply forallb_forall. intros x Hx%repeat_spec. by subst. }
  assert (Hd0 : (0 < length d)%nat) by (destruct d; [done|simpl; lia]). split; [lia|].
  destruct (decide (S w - length d = 0)%nat) as [E|E].
  - rewrite E. cbn [repeat app Nat.add]. destruct (decide (length d - w = 0)%nat) as [E'|E']; [lia|].
    clear -Hc E'. destruct d as [|c r]; [done|]. remember (length (c :: r) - w)%nat as k. destruct k as [|k]; [done|].
    cbn [take canonical_integer] in *. case_bool_decide; [case_bool_decide; [|done]; subst; by rewrite take_nil|].
    apply andb_prop in Hc as [-> Hr]. rewrite <-(take_drop k r), forallb_app in Hr. by apply andb_prop in Hr as [-> _].
  - replace (S w - length d + length d - w)%nat with 1%nat by lia.
    destruct (S w - length d)%nat as [|k] eqn:Ek; [done|]. cbn [repeat app take]. by rewrite take_0.
Qed.

Lemma formatScaled_spec u s : 0 <= u ->
  exists a, toScaled (formatScaled (MkScaled u s)) = Ok a /\ same_value a (MkScaled u s).
Proof.
  intros Hu. unfold formatScaled. cbn [scale units]. destruct (s <=? 0) eqn:Es; boolp.
  - assert (Hn : 0 <= u * 10 ^ (- s)) by (apply Z.mul_nonneg_nonneg; [done|apply Z.pow_nonneg; lia]).
    destruct (spelling _ Hn) as [Hc Hv].
    pose proof (toScaled_money_text _ [] Hc eq_refl) as H. unfold money_text in H. rewrite text_chars in H.
    rewrite H, app_nil_r, Hv. eexists. split; [done|]. exists 0. unfold rescale. cbn [units scale length].
    split; [done|]. split; [done|].
    replace (0 - s) with (- s) by lia. change (10 ^ (0 - Z.of_nat 0)) with 1. apply Z.mul_1_r.
  - destruct (padded_split u (Z.to_nat s) Hu) as (Hv & Hd & Hl & Hc). cbn zeta in *.
    set (l := chars _) in *. set (k := (length l - Z.to_nat s)%nat) in *.
    assert (Hlf : length (drop k l) = Z.to_nat s) by (rewrite length_drop; unfold k; lia).
    destruct (strip_zeros_split (drop k l)) as [n Hn].
    assert (Hdf : forallb is_digit (strip_zeros (drop k l)) = true).
    { rewrite <-(take_drop k l), forallb_app in Hd. apply andb_prop in Hd as [_ Hd].
      rewrite Hn, forallb_app in Hd. by apply andb_prop in Hd as [Hd _]. }
    fold (money_text (take k l) (strip_zeros (drop k l))). rewrite toScaled_money_text by done.
    eexists. split; [done|]. set (fr := strip_zeros (drop k l)) in *.
    assert (Hlen : (length fr + n = Z.to_nat s)%nat) by (rewrite <-Hlf, Hn, length_app, repeat_length; done).
    exists s. unfold rescale. cbn [units scale]. split; [lia|]. split; [lia|].
    rewrite Z.sub_diag, Z.mul_1_r.
    rewrite <-(take_drop k l), Hn, app_assoc, digits_value_app, digits_value_zeros, repeat_length, Z.add_0_r in Hv.
    rewrite <-Hv. f_equal. f_equal. lia.
Qed.

Lemma toScaled_nonneg t a : toScaled t = Ok a -> 0 <= units a /\ 0 <= scale a.
Proof.
  unfold toScaled. destruct (negb _); [done|]. destruct (span_point _) as [i f]. intros [= <-]. simpl.
  split; [apply digits_value_range|lia].
Qed.

Lemma toScaled_ok t : isMoneyDecimal t = true <-> exists a, toScaled t = Ok a.
Proof.
  unfold toScaled. destruct (isMoneyDecimal t); simpl; [|naive_solver].
  destruct (span_point _) as [i f]. split; eauto.
Qed.

(** ** Sums and comparisons *)

Lemma rescale_up a s s' : scale a <= s -> s <= s' -> rescale a s' = rescale a s * 10 ^ (s' - s).
Proof.
  intros H H'. unfold rescale. rewrite <-Z.mul_assoc, <-Z.pow_add_r by lia. f_equal. f_equal. lia.
Qed.

Lemma same_value_at a b s : same_value a b -> scale a <= s -> scale b <= s -> rescale a s = rescale b s.
Proof.
  intros (s0 & Ha & Hb & E) Has Hbs.
  assert (Hm : rescale a (Z.max s s0) = rescale b (Z.max s s0)).
  { rewrite (rescale_up a s0), (rescale_up b s0) by lia. by rewrite E. }
  rewrite (rescale_up a s), (rescale_up b s) in Hm by lia.
  apply Z.mul_reg_r in Hm; [done|]. apply Z.pow_nonzero; lia.
Qed.

Lemma widest_ge l : 0 <= widest l /\ forall a, a ∈ l -> scale a <= widest l.
Proof.
  unfold widest. assert (H : forall l w, w <= fold_left (fun w a => Z.max w (scale a)) l w
    /\ forall a, a ∈ l -> scale a <= fold_left (fun w a => Z.max w (scale a)) l w).
  { clear l. induction l as [|b l IH]; intros w; cbn [fold_left].
    - split; [lia|]. intros a Ha. by apply elem_of_nil in Ha.
    - destruct (IH (Z.max w (scale b))) as [H1 H2]. split; [lia|].
      intros a [->|Ha]%elem_of_cons; [lia|auto]. }
  apply H.
Qed.

Lemma fold_rescale l s t :
  fold_left (fun total a => total + rescale a s) l t = t + foldr (fun a acc => rescale a s + acc) 0 l.
Proof. revert t. induction l as [|a l IH]; intros t; cbn [fold_left foldr]; [lia|]. rewrite IH. lia. Qed.

Lemma sum_rescale_up l s s' : (forall a, a ∈ l -> scale a <= s) -> s <= s' ->
  foldr (fun a acc => rescale a s' + acc) 0 l = foldr (fun a acc => rescale a s + acc) 0 l * 10 ^ (s' - s).
Proof.
  intros Hl Hs. induction l as [|a l IH]; cbn [foldr]; [lia|].
  rewrite IH by (intros b Hb; apply Hl; by right). rewrite (rescale_up a s s') by (done || apply Hl; by left). lia.
Qed.

Lemma all_scaled_nonneg l xs : all_scaled l = Ok xs -> forall a, a ∈ xs -> 0 <= units a /\ 0 <= scale a.
Proof.
  revert xs. induction l as [|t l IH]; intros xs; simpl; [intros [= <-] a Ha; by apply elem_of_nil in Ha|].
  destruct (toScaled t) as [x|] eqn:Et; [|done]. destruct (all_scaled l) as [ys|]; [|done]. intros [= <-] a.
  intros [->|Ha]%elem_of_cons; [by eapply toScaled_nonneg|by eapply IH].
Qed.

(** Sums of billed amounts are exact: summing any list of money decimals succeeds, the
    result is a money decimal, and at every common scale its integer value is the sum of the
    amounts' integer values (no amount is rounded, whatever their numbers of fraction
    digits); a list with one malformed amount throws. *)
Theorem sum_money_exact (amounts : list string) (xs : list ScaledAmount) :
  all_scaled amounts = Ok xs ->
  exists r a, sumMoney amounts = Ok r /\ isMoneyDecimal r = true /\ toScaled r = Ok a
    /\ forall s, widest xs <= s -> scale a <= s ->
        rescale a s = foldr (fun x acc => rescale x s + acc) 0 xs.
Proof.
  intros Hx. destruct (widest_ge xs) as [Hw0 Hw]. unfold sumMoney. rewrite Hx. cbn [bind_result].
  rewrite fold_rescale, Z.add_0_l. set (total := foldr _ 0 xs).
  assert (Ht : 0 <= total).
  { subst total. pose proof (all_scaled_nonneg _ _ Hx) as Hn. clear -Hn. generalize (widest xs). intros s.
    induction xs as [|a l IH]; cbn [foldr]; [lia|].
    assert (0 <= rescale a s) by (apply Z.mul_nonneg_nonneg; [apply Hn; by left|apply Z.pow_nonneg; lia]).
    assert (0 <= foldr (fun a acc => rescale a s + acc) 0 l) by (apply IH; intros; apply Hn; by right). lia. }
  destruct (formatScaled_spec total (widest xs) Ht) as (a & Ha & Hsv). exists (formatScaled (MkScaled total (widest xs))), a.
  split; [done|]. split; [apply toScaled_ok; eauto|]. split; [done|]. intros s Hs Has.
  rewrite (same_value_at _ _ s Hsv) by done. rewrite (sum_rescale_up xs (widest xs) s) by done.
  unfold rescale. cbn [units scale]. done.
Qed.

Lemma sum_money_exact_witness :
  exists r, sumMoney ["1.25"; "0.0000002"] = Ok r /\ isMoneyDecimal r = true /\ r = "1.2500002".
Proof.
  destruct (sum_money_exact ["1.25"; "0.0000002"] _ eq_refl) as (r & a & Hr & Hm & _).
  exists r. split; [exact Hr|]. split; [exact Hm|]. vm_compute in Hr. congruence.
Defined.

(** Comparison is numeric: on two money decimals the result is the sign of the difference
    of their integer values at any common scale, so amounts that differ only in trailing
    zeros are equal; a malformed amount throws. *)
Theorem compare_money_exact (a b : string) (x y : ScaledAmount) :
  toScaled a = Ok x -> toScaled b = Ok y ->
  exists c, compareMoney a b = Ok c
    /\ forall s, scale x <= s -> scale y <= s -> c = Z.sgn (rescale x s - rescale y s).
Proof.
  intros Hx Hy. unfold compareMoney. rewrite Hx, Hy. cbn [bind_result]. eexists. split; [done|]. intros s Hxs Hys.
  set (m := Z.max (scale x) (scale y)). rewrite (rescale_up x m s), (rescale_up y m s) by lia.
  rewrite <-Z.mul_sub_distr_r, Z.sgn_mul. assert (0 < 10 ^ (s - m)) by (apply Z.pow_pos_nonneg; lia).
  rewrite (Z.sgn_pos (10 ^ (s - m))), Z.mul_1_r by done. generalize (rescale x m - rescale y m). intros d.
  destruct (d =? 0) eqn:E; [boolp; by subst|]. destruct (d <? 0) eqn:E'; boolp;
    [by rewrite Z.sgn_neg|rewrite Z.sgn_pos; [done|lia]].
Qed.

Lemma compare_money_exact_witness : compareMoney "5.00" "5" = Ok 0.
Proof.
  destruct (compare_money_exact "5.00" "5" _ _ eq_refl eq_refl) as (c & Hc & Hs).
  rewrite Hc. f_equal. rewrite (Hs 2); [reflexivity| |]; vm_compute; discriminate.
Defined.

(** ** Cost cells *)

Lemma is_digit_not_e c : is_digit c = true -> c <> "e"%char /\ c <> "E"%char.
Proof. intros H. split; intros ->; by vm_compute in H. Qed.

Lemma span_exponent_none l :
  (forall c, c ∈ l -> c <> "e"%char /\ c <> "E"%char) -> span_exponent l = (l, None).
Proof.
  induction l as [|c l IH]; [done|]. intros H. cbn [span_exponent].
  destruct (H c) as [H1 H2]; [by left|]. rewrite !bool_decide_eq_false_2 by done. cbn [orb].
  rewrite IH; [done|]. intros d Hd. apply H. by right.
Qed.

Lemma span_point_join l i f : span_point l = (i, f) ->
  l = match f with None => i | Some f => i ++ "."%char :: f end.
Proof.
  revert i f. induction l as [|c l IH]; intros i f; cbn [span_point]; [by intros [= <- <-]|].
  case_bool_decide; [intros [= <- <-]; by subst|]. destruct (span_point l) as [a b]. intros [= <- <-].
  rewrite (IH a b eq_refl). by destruct b.
Qed.

Lemma forallb_elem {A} (p : A -> bool) l x : forallb p l = true -> x ∈ l -> p x = true.
Proof. intros H Hx. rewrite forallb_forall in H. apply H. by apply list_elem_of_In. Qed.

Lemma cost_parts_money t : isMoneyDecimal t = true ->
  exists i f, cost_parts t = Some (i, f, 0) /\ toScaled t = Ok (MkScaled (digits_value (i ++ f)) (Z.of_nat (length f)))
    /\ i <> [].
Proof.
  intros Hm. unfold toScaled. rewrite Hm. cbn [negb]. unfold isMoneyDecimal in Hm. unfold cost_parts.
  destruct (span_point (chars t)) as [i fr] eqn:Es. apply andb_prop in Hm as [Hi Hf].
  pose proof (canonical_digits _ Hi) as Hd. assert (Hfd : forallb is_digit (default [] fr) = true).
  { destruct fr as [f|]; [|done]. by apply andb_prop in Hf as [_ Hf]. }
  rewrite span_exponent_none.
  - rewrite Es, Hd, Hfd. exists i, (default [] fr). split_and!; [done..|]. by destruct i.
  - apply span_point_join in Es. intros c. rewrite Es. destruct fr as [f|].
    + rewrite elem_of_app, elem_of_cons. intros [Hc|[->|Hc]]; [|done|]; apply is_digit_not_e; (eapply forallb_elem; [|exact Hc]; done).
    + intros Hc. apply is_digit_not_e. (eapply forallb_elem; [|exact Hc]; done).
Qed.

(** Cost cells are read exactly or refused: a text yields an amount exactly when it is at
    most 64 characters, matches the cost pattern, has at least one digit and an exponent
    of magnitude at most 64 (so negative, non-finite or oversized text is refused); the
    amount is then a money decimal with exactly the value the digits and the exponent
    denote, and text that already is a money decimal is kept verbatim. *)
Theorem parse_cur_cost_exact (t : string) :
  match parseCurCost t with
  | Some m => exists i f e a, cost_parts t = Some (i, f, e) /\ i ++ f <> [] /\ Z.abs e <= COST_EXPONENT_MAX
      /\ (String.length t <= COST_TEXT_MAX_LENGTH)%nat /\ isMoneyDecimal m = true /\ toScaled m = Ok a
      /\ same_value a (MkScaled (digits_value (i ++ f)) (Z.of_nat (length f) - e))
      /\ (isMoneyDecimal t = true -> m = t)
  | None => (COST_TEXT_MAX_LENGTH < String.length t)%nat \/ cost_parts t = None
      \/ exists i f e, cost_parts t = Some (i, f, e) /\ (i ++ f = [] \/ Z.abs e > COST_EXPONENT_MAX)
  end.
Proof.
  unfold parseCurCost. destruct (COST_TEXT_MAX_LENGTH <? String.length t)%nat eqn:El.
  { left. by apply Nat.ltb_lt. }
  apply Nat.ltb_ge in El. destruct (isMoneyDecimal t) eqn:Em.
  - destruct (cost_parts_money t Em) as (i & f & Hp & Ht & Hi). exists i, f, 0.
    eexists. split_and!; [done| |done|done|done|done| |done].
    + by destruct i.
    + rewrite Z.sub_0_r. by exists (Z.of_nat (length f)).
  - destruct (cost_parts t) as [[[i f] e]|] eqn:Ep; [|auto].
    destruct (Nat.eqb (length i + length f) 0 || (Z.abs e >? COST_EXPONENT_MAX)) eqn:Eb.
    + right; right. exists i, f, e. split; [done|]. apply orb_prop in Eb as [Eb|Eb].
      * left. apply length_zero_iff_nil. rewrite length_app. by apply Nat.eqb_eq.
      * right. boolp. lia.
    + apply orb_false_elim in Eb as [E1 E2]. boolp.
      destruct (formatScaled_spec (digits_value (i ++ f)) (Z.of_nat (length f) - e)) as (a & Ha & Hv);
        [apply digits_value_range|].
      exists i, f, e, a. split_and!; [done| |lia|done|apply toScaled_ok; eauto|done|done|done].
      intros E. apply (f_equal length) in E. rewrite length_app in E. apply Nat.eqb_neq in E1. simpl in E. lia.
Qed.

Example parse_cur_cost_examples :
  parseCurCost "3.10" = Some "3.10" /\ parseCurCost "1.25E-5" = Some "0.0000125" /\ parseCurCost "-0.01" = None
  /\ parseCurCost "1e999999999" = None.
Proof. vm_compute. split_and!; reflexivity. Qed.

(** ** USD amounts *)

Lemma digits_value_pad w n : 0 <= n < 10 ^ Z.of_nat w -> digits_value (pad_digits w n) = n.
Proof.
  revert n. induction w as [|w IH]; intros n Hn; [simpl in *; change (digits_value []) with 0; lia|].
  rewrite Nat2Z.inj_succ, Z.pow_succ_r in Hn by lia. cbn [pad_digits].
  pose proof (Z.mod_pos_bound n 10 ltac:(lia)). pose proof (Z.div_mod n 10 ltac:(lia)).
  rewrite digits_value_app, IH by (split; [apply Z.div_pos; lia|apply Z.div_lt_upper_bound; lia]).
  rewrite digits_value_cons, digit_val_char by lia. cbn [length]. change (digits_value []) with 0. simpl default. lia.
Qed.

Lemma pad_digits_digits w n : forallb is_digit (pad_digits w n) = true.
Proof.
  revert n. induction w as [|w IH]; intros n; [done|]. cbn [pad_digits]. rewrite forallb_app, IH. cbn [forallb].
  pose proof (Z.mod_pos_bound n 10 ltac:(lia)). by rewrite is_digit_char by lia.
Qed.

Lemma padStart_pad w n : (0 < w)%nat -> 0 <= n < 10 ^ Z.of_nat w ->
  chars (padStart (string_of_Z n) w "0"%char) = pad_digits w n.
Proof.
  intros Hw Hn. destruct (decide (n = 0)) as [->|Hne].
  - unfold padStart. rewrite chars_app, chars_text. destruct (pad_go w 0) as [_ He]; [simpl; lia|].
    rewrite pretty_N_go_0 in He. cbn [chars String.list_ascii_of_string length] in He.
    rewrite Nat.sub_0_r, app_nil_r in He. change (Z.of_N 0) with 0 in He. rewrite <-He.
    change (chars (string_of_Z 0)) with ["0"%char]. change (String.length (string_of_Z 0)) with 1%nat.
    destruct w as [|w]; [lia|]. rewrite Nat.sub_succ, Nat.sub_0_r. symmetry. apply repeat_cons.
  - rewrite padStart_digits by lia. apply chars_text.
Qed.

Lemma scaledUsd_money_text i f :
  canonical_integer i = true -> forallb is_digit f = true -> (length f <= USD_SCALE_DIGITS)%nat ->
  scaledUsd (money_text i f)
  = Some (digits_value i * SCALE + digits_value f * 10 ^ Z.of_nat (USD_SCALE_DIGITS - length f)).
Proof.
  intros Hi Hf Hl. destruct (money_text_parts i f Hi Hf) as (Hm & fr & Hs & Hfr).
  unfold scaledUsd. rewrite Hm, Hs, Hfr. cbn [negb].
  destruct (USD_SCALE_DIGITS <? length f)%nat eqn:E; [apply Nat.ltb_lt in E; lia|].
  by rewrite digits_value_app, digits_value_zeros, repeat_length, Z.add_0_r.
Qed.

Lemma quot_rem_range n d : 0 <= n -> 0 < d -> 0 <= Z.quot n d /\ 0 <= Z.rem n d < d /\ n = d * Z.quot n d + Z.rem n d.
Proof.
  intros Hn Hd. split; [by apply Z.quot_pos|]. split; [by apply Z.rem_bound_pos|]. by apply Z.quot_rem'.
Qed.

Lemma exactUsd_roundtrip n : 0 <= n -> scaledUsd (exactUsd n) = Some n.
Proof.
  intros Hn. destruct (quot_rem_range n SCALE Hn ltac:(done)) as (Hq & Hr & E). unfold exactUsd.
  rewrite (padStart_pad USD_SCALE_DIGITS _ (Nat.lt_0_succ 11) Hr). destruct (spelling _ Hq) as [Hc Hv].
  set (p := pad_digits USD_SCALE_DIGITS (Z.rem n SCALE)) in *.
  assert (Hlp : length p = USD_SCALE_DIGITS) by apply length_pad_digits.
  destruct (strip_zeros_split p) as [k Hk]. pose proof (pad_digits_digits USD_SCALE_DIGITS (Z.rem n SCALE)) as Hd.
  fold p in Hd. assert (Hvp : digits_value p = Z.rem n SCALE) by (apply digits_value_pad, Hr).
  rewrite Hk, forallb_app in Hd. apply andb_prop in Hd as [Hd _].
  assert (Hl : (length (strip_zeros p) + k = USD_SCALE_DIGITS)%nat).
  { rewrite <-Hlp. rewrite Hk at 2. by rewrite length_app, repeat_length. }
  rewrite Hk, digits_value_app, digits_value_zeros, repeat_length, Z.add_0_r in Hvp.
  pose proof (scaledUsd_money_text _ _ Hc Hd ltac:(lia)) as Hs. rewrite Hv in Hs.
  replace (USD_SCALE_DIGITS - length (strip_zeros p))%nat with k in Hs by lia. rewrite Hvp in Hs.
  unfold money_text in Hs. destruct (strip_zeros p) as [|c f].
  - rewrite text_chars in Hs. rewrite Hs. f_equal. lia.
  - rewrite !text_app, text_chars in Hs. change (text ["."%char]) with "." in Hs. rewrite Hs. f_equal. lia.
Qed.

Lemma centsCeiling_value n : 0 <= n ->
  scaledUsd (centsCeiling n) = Some (SCALE_PER_CENT * Z.quot (n + SCALE_PER_CENT - 1) SCALE_PER_CENT).
Proof.
  intros Hn. unfold centsCeiling. cbn zeta. set (cents := Z.quot (n + SCALE_PER_CENT - 1) SCALE_PER_CENT).
  assert (Hcents : 0 <= cents) by (unfold cents, SCALE_PER_CENT; apply Z.quot_pos; lia).
  destruct (quot_rem_range cents 100 Hcents ltac:(done)) as (Hq & Hr & E).
  destruct (spelling _ Hq) as [Hc Hv].
  pose proof (padStart_pad 2 (Z.rem cents 100) ltac:(lia) Hr) as Hp.
  pose proof (scaledUsd_money_text _ (pad_digits 2 (Z.rem cents 100)) Hc (pad_digits_digits _ _)) as Hs.
  rewrite length_pad_digits, Hv, digits_value_pad in Hs by exact Hr. specialize (Hs ltac:(unfold USD_SCALE_DIGITS; lia)).
  rewrite <-Hp in Hs. unfold money_text in Hs.
  destruct (chars (padStart _ 2 _)) as [|c f] eqn:Ec; [by rewrite Hp in Ec; apply (f_equal length) in Ec; rewrite length_pad_digits in Ec|].
  rewrite <-Ec, !text_app, !text_chars in Hs. change (text ["."%char]) with "." in Hs. rewrite Hs. f_equal.
  unfold SCALE, SCALE_PER_CENT, USD_SCALE_DIGITS. change (10 ^ Z.of_nat (12 - 2)) with 10000000000. lia.
Qed.

(** The exact cost of a plan, when every line is priced. *)
Fixpoint planned_total (plan : list PlannedUsage) (prices : list PriceCeiling) : option Z :=
  match plan with
  | [] => Some 0
  | u :: rest =>
      match priceLine (u_meter u) (quantity u) prices, planned_total rest prices with
      | Ok (_, scaled), Some t => Some (scaled + t)
      | _, _ => None
      end
  end.

Lemma estimate_fold prices plan t ls rs :
  exists t' ls' rs', fold_left (estimate_step prices) plan (t, ls, rs) = (t', ls ++ ls', rs ++ rs')
    /\ match planned_total plan prices with Some p => t' = t + p /\ rs' = [] | None => rs' <> [] end.
Proof.
  revert t ls rs. induction plan as [|u plan IH]; intros t ls rs; cbn [fold_left planned_total].
  - exists t, [], []. rewrite !app_nil_r. split; [done|]. split; [lia|done].
  - unfold estimate_step at 2. destruct (priceLine (u_meter u) (quantity u) prices) as [[line scaled]|e].
    + destruct (IH (t + scaled) (ls ++ [line]) rs) as (t' & ls' & rs' & E & Hp).
      exists t', (line :: ls'), rs'. rewrite <-(assoc_L (++)) in E. split; [done|].
      destruct (planned_total plan prices); [|done]. destruct Hp as [-> ->]. split; [lia|done].
    + destruct (IH t ls (rs ++ [e])) as (t' & ls' & rs' & E & _).
      exists t', ls', (e :: rs'). rewrite <-(assoc_L (++)) in E. done.
Qed.

(** The admission estimate never understates: it is refused exactly when some planned
    line cannot be priced, and otherwise its amount, read back, is the exact sum of
    quantity times unit price rounded up by less than one cent; so an estimate within a
    readable ceiling means the exact cost is within it too. *)
Theorem cost_estimate_conservative (plan : list PlannedUsage) (prices : list PriceCeiling) (total : Z) :
  planned_total plan prices = Some total -> 0 <= total ->
  (forall plan', planned_total plan' prices = None -> exists rs, rs <> [] /\ estimateAttributableCost plan' prices = Err rs)
  /\ exists e c, estimateAttributableCost plan prices = Ok e
    /\ scaledUsd (estimated_cost_usd e) = Some c /\ total <= c < total + SCALE_PER_CENT
    /\ forall ceiling limit, scaledUsd ceiling = Some limit ->
         estimateWithinCeiling (estimated_cost_usd e) ceiling = true -> total <= limit.
Proof.
  intros Hp Ht. destruct (estimate_fold prices plan 0 [] []) as (t' & ls & rs & E & Hpt). rewrite Hp in Hpt.
  destruct Hpt as [-> ->]. split.
  { intros plan' Hn. destruct (estimate_fold prices plan' 0 [] []) as (t & ls' & rs & E' & Hr). rewrite Hn in Hr.
    exists rs. split; [done|]. unfold estimateAttributableCost. rewrite E'. by destruct rs. }
  unfold estimateAttributableCost. rewrite E. cbn [app]. do 2 eexists. split; [done|]. cbn [estimated_cost_usd].
  rewrite Z.add_0_l. pose proof (centsCeiling_value total Ht) as Hc. split; [exact Hc|].
  assert (Hr : total <= SCALE_PER_CENT * Z.quot (total + SCALE_PER_CENT - 1) SCALE_PER_CENT < total + SCALE_PER_CENT)
    by (unfold SCALE_PER_CENT; dlia).
  split; [done|]. intros ceiling limit Hl. unfold estimateWithinCeiling. rewrite Hl, Hc. intros H. boolp. lia.
Qed.

Lemma cost_estimate_conservative_witness :
  let plan := [MkUsage "lambda_gb_second" 30000] in
  let prices := [MkPrice "lambda_gb_second" "0.0000166667"] in
  exists e c, estimateAttributableCost plan prices = Ok e /\ scaledUsd (estimated_cost_usd e) = Some c
    /\ 500001000000 <= c < 500001000000 + SCALE_PER_CENT.
Proof.
  destruct (cost_estimate_conservative [MkUsage "lambda_gb_second" 30000] [MkPrice "lambda_gb_second" "0.0000166667"]
    500001000000) as (_ & e & c & He & Hc & Hr & _); [vm_compute; reflexivity|vm_compute; discriminate|].
  exists e, c. split; [exact He|]. split; [exact Hc|exact Hr].
Defined.

(** The exact rendering of a scaled USD amount reads back as the same amount. *)
Theorem exact_usd_roundtrip (n : Z) : 0 <= n -> scaledUsd (exactUsd n) = Some n.
Proof. apply exactUsd_roundtrip. Qed.

Lemma exact_usd_roundtrip_witness : exactUsd 16666700 = "0.0000166667" /\ scaledUsd (exactUsd 16666700) = Some 16666700.
Proof. split; [vm_compute; reflexivity|]. apply (exact_usd_roundtrip 16666700). vm_compute. discriminate. Defined.

End Money.
