(* ===== verification/CurCsv.v ===== *)
(** * The billing export reader (src/study-1/src/billing-amendment/cur-csv.ts)

    The RFC 4180 reader from the decoded text on: records, header and table.
    Decompression and UTF-8 decoding are in [Billing]. The parser's cursor holds
    its index and the text from that index on; character codes are bytes. *)

From Stdlib Require Strings.Ascii.
From S2P Require Import Prelude Timestamps Store JsonText.
Import (notations) Stdlib.Strings.Ascii.
Import Json JsonText.
Open Scope nat_scope.

Module CurCsv.

Definition QUOTE : Ascii.ascii := Ascii.ascii_of_nat 34.
Definition COMMA : Ascii.ascii := Ascii.ascii_of_nat 44.
Definition CR : Ascii.ascii := Ascii.ascii_of_nat 13.
Definition LF : Ascii.ascii := Ascii.ascii_of_nat 10.

(** The three bytes of the byte order mark. *)
Definition BYTE_ORDER_MARK : list Ascii.ascii :=
  [Ascii.ascii_of_nat 239; Ascii.ascii_of_nat 187; Ascii.ascii_of_nat 191].

Record CurTable := MkTable { columns : list string; rows : list (list string) }.

Record ParseCursor := MkCursor {
  index : nat;
  rest : list Ascii.ascii;
  record : list string;
  records : list (list string);
}.

Definition nat_text (n : nat) : string := string_of_Z (Z.of_nat n).

Definition malformed (d : string) : StructuredReason := reason "CUR_EXPORT_MALFORMED" "BR-RUA-047" d.

Definition isSeparator (c : Ascii.ascii) : bool :=
  bool_decide (c = COMMA) || bool_decide (c = LF) || bool_decide (c = CR).

(** [readPlainField] from an index: the field, the index after it and the text there. *)
Fixpoint readPlainField (i : nat) (l : list Ascii.ascii) : Result (list Ascii.ascii * nat * list Ascii.ascii) string :=
  match l with
  | [] => Ok ([], i, [])
  | c :: r =>
      if isSeparator c then Ok ([], i, l)
      else if bool_decide (c = QUOTE) then
        Err ("quote inside an unquoted field at character " +:+ nat_text i +:+ "; expected the field quoted")
      else let! (f, j, r') := readPlainField (S i) r in Ok (c :: f, j, r')
  end.

(** [readQuotedField] after its opening quote: a doubled quote is one character. *)
Fixpoint readQuotedField (opening i : nat) (l : list Ascii.ascii) : Result (list Ascii.ascii * nat * list Ascii.ascii) string :=
  match l with
  | [] => Err ("quote opened at character " +:+ nat_text opening +:+ " is never closed; expected a closing quote")
  | c :: r =>
      if bool_decide (c = QUOTE) then
        match r with
        | d :: r' =>
            if bool_decide (d = QUOTE)
            then let! (f, j, r'') := readQuotedField opening (S (S i)) r' in Ok (QUOTE :: f, j, r'')
            else Ok ([], S i, r)
        | [] => Ok ([], S i, [])
        end
      else let! (f, j, r') := readQuotedField opening (S i) r in Ok (c :: f, j, r')
  end.

Definition closeRecord (c : ParseCursor) : ParseCursor :=
  MkCursor (index c) (rest c) [] (records c ++ [record c]).

Definition push_field (f : string) (c : ParseCursor) : ParseCursor :=
  MkCursor (index c) (rest c) (record c ++ [f]) (records c).

Definition closeTrailingEmptyField (c : ParseCursor) : ParseCursor := closeRecord (push_field "" c).

(** The text after a line terminator, with the terminator's length. *)
Definition lineTerminator (l : list Ascii.ascii) : option (nat * list Ascii.ascii) :=
  match l with
  | c :: r =>
      if bool_decide (c = LF) then Some (1, r)
      else if bool_decide (c = CR) then
        match r with d :: r' => if bool_decide (d = LF) then Some (2, r') else None | [] => None end
      else None
  | [] => None
  end.

Definition readSeparator (c : ParseCursor) : Result ParseCursor string :=
  match rest c with
  | [] => Ok (closeRecord c)
  | x :: r =>
      if bool_decide (x = COMMA) then
        let c' := MkCursor (S (index c)) r (record c) (records c) in
        Ok (match r with [] => closeTrailingEmptyField c' | _ => c' end)
      else
        match lineTerminator (rest c) with
        | None => Err ("unexpected " +:+ boundedJsonText (JStr (text [x])) QUOTED_JSON_LIMIT +:+ " at character "
                       +:+ nat_text (index c) +:+ "; expected a comma, CRLF or LF after the field")
        | Some (n, r') => Ok (closeRecord (MkCursor (index c + n) r' (record c) (records c)))
        end
  end.

Definition readField (c : ParseCursor) : Result ParseCursor string :=
  let! (f, j, r) :=
    match rest c with
    | x :: l => if bool_decide (x = QUOTE) then readQuotedField (index c) (S (index c)) l
                else readPlainField (index c) (rest c)
    | [] => readPlainField (index c) []
    end in
  readSeparator (MkCursor j r (record c ++ [text f]) (records c)).

(** The loop of [parseRecords]; every turn consumes text, so its length is enough fuel. *)
Fixpoint parse_loop (fuel : nat) (c : ParseCursor) : option (Result (list (list string)) StructuredReason) :=
  match rest c with
  | [] => Some (Ok (records c))
  | _ =>
      match fuel with
      | O => None
      | S n =>
          match readField c with
          | Err failure => Some (Err (malformed ("record " +:+ nat_text (length (records c) + 1) +:+ ": " +:+ failure)))
          | Ok c' => parse_loop n c'
          end
      end
  end.

Definition parseRecords (l : list Ascii.ascii) : option (Result (list (list string)) StructuredReason) :=
  parse_loop (length l) (MkCursor 0 l [] []).

(** *** The table *)

Fixpoint find_index {A} (p : A -> bool) (l : list A) : option nat :=
  match l with
  | [] => None
  | x :: r => if p x then Some 0 else option_map S (find_index p r)
  end.

Fixpoint first_repeat (seen l : list string) : option string :=
  match l with
  | [] => None
  | x :: r => if memb x seen then Some x else first_repeat (x :: seen) r
  end.

Definition headerFailure (header : list string) : option string :=
  match find_index (fun name => bool_decide (name = "")) header with
  | Some blank => Some ("header column " +:+ nat_text (blank + 1) +:+ " is empty; expected a column name")
  | None =>
      match first_repeat [] header with
      | Some name => Some ("header column " +:+ boundedJsonText (JStr name) QUOTED_JSON_LIMIT
                           +:+ " appears twice; expected unique column names")
      | None => None
      end
  end.

Fixpoint row_failure (i width : nat) (l : list (list string)) : option string :=
  match l with
  | [] => None
  | row :: r =>
      if negb (Nat.eqb (length row) width)
      then Some ("record " +:+ nat_text (i + 2) +:+ " has " +:+ nat_text (length row) +:+ " field(s); expected "
                 +:+ nat_text width +:+ ", one per header column")
      else row_failure (S i) width r
  end.

Definition tableOf (rs : list (list string)) : Result CurTable StructuredReason :=
  match rs with
  | [] => Err (malformed "the export is empty; expected a header record of column names")
  | header :: body =>
      match headerFailure header with
      | Some problem => Err (malformed problem)
      | None =>
          match row_failure 0 (length header) body with
          | Some problem => Err (malformed problem)
          | None => Ok (MkTable header body)
          end
      end
  end.

(** [parseCurCsv] from the decoded text: a leading byte order mark is dropped. *)
Definition parseCurText (t : list Ascii.ascii) : option (Result CurTable StructuredReason) :=
  let body := match t with
              | a :: b :: c :: r => if bool_decide ([a; b; c] = BYTE_ORDER_MARK) then r else t
              | _ => t
              end in
  match parseRecords body with
  | None => None
  | Some (Err e) => Some (Err e)
  | Some (Ok rs) => Some (tableOf rs)
  end.

(** ** Progress *)

Lemma readPlainField_length i l f j r :
  readPlainField i l = Ok (f, j, r) -> length r + length f = length l.
Proof.
  revert i f j r. induction l as [|c l IH]; intros i f j r; cbn [readPlainField].
  - intros [= <- <- <-]. done.
  - destruct (isSeparator c); [intros [= <- <- <-]; simpl; lia|]. case_bool_decide; [done|].
    destruct (readPlainField (S i) l) as [[[f' j'] r']|] eqn:E; cbn [bind_result]; [|done].
    intros [= <- <- <-]. apply IH in E. simpl. lia.
Qed.

Lemma readQuotedField_length n : forall o i l f j r, length l <= n ->
  readQuotedField o i l = Ok (f, j, r) -> length r < length l.
Proof.
  induction n as [|n IH]; intros o i [|c l] f j r Hn; cbn [readQuotedField]; simpl in Hn; try done; [lia|].
  case_bool_decide.
  - destruct l as [|d l]; [intros [= <- <- <-]; simpl; lia|]. case_bool_decide; [|intros [= <- <- <-]; simpl; lia].
    destruct (readQuotedField o (S (S i)) l) as [[[f' j'] r']|] eqn:E; cbn [bind_result]; [|done].
    intros [= <- <- <-]. apply IH in E; simpl in *; lia.
  - destruct (readQuotedField o (S i) l) as [[[f' j'] r']|] eqn:E; cbn [bind_result]; [|done].
    intros [= <- <- <-]. apply IH in E; simpl in *; lia.
Qed.

Lemma readSeparator_length c c' : readSeparator c = Ok c' ->
  length (rest c') <= length (rest c) /\ (rest c <> [] -> length (rest c') < length (rest c)).
Proof.
  unfold readSeparator, lineTerminator. destruct (rest c) as [|x r] eqn:E.
  - intros [= <-]. simpl. rewrite E. done.
  - case_bool_decide; [intros [= <-]; destruct r; simpl; split; lia|].
    case_bool_decide; [intros [= <-]; simpl; split; lia|]. case_bool_decide; [|done].
    destruct r as [|d r]; [done|]. case_bool_decide; [|done]. intros [= <-]. simpl. split; lia.
Qed.

Lemma readField_length c c' : rest c <> [] -> readField c = Ok c' -> length (rest c') < length (rest c).
Proof.
  intros Hne. unfold readField. destruct (rest c) as [|x l] eqn:E; [done|]. case_bool_decide as Eq.
  - destruct (readQuotedField _ _ l) as [[[f j] r]|] eqn:Er; cbn [bind_result]; [|done]. intros Hs.
    apply readSeparator_length in Hs as [Hs _]. eapply readQuotedField_length in Er; [|done]. simpl in *. lia.
  - destruct (readPlainField _ (x :: l)) as [[[f j] r]|] eqn:Er; cbn [bind_result]; [|done]. intros Hs.
    apply readSeparator_length in Hs as [Hle Hlt]. pose proof (readPlainField_length _ _ _ _ _ Er) as Hl. simpl in *.
    destruct f as [|y f]; [|simpl in *; lia]. destruct r as [|z r]; simpl in *; [lia|]. specialize (Hlt ltac:(done)). lia.
Qed.

Lemma parse_loop_fuel n m c : length (rest c) <= n -> length (rest c) <= m -> parse_loop n c = parse_loop m c.
Proof.
  revert m c. induction n as [|n IH]; intros m c Hn Hm.
  - destruct m; cbn [parse_loop]; (destruct (rest c); [done|simpl in Hn; lia]).
  - destruct m as [|m]; cbn [parse_loop]; (destruct (rest c) as [|x l] eqn:E; [done|]); [simpl in Hm; lia|].
    destruct (readField c) as [c'|] eqn:Er; [|done]. apply readField_length in Er; [|by rewrite E].
    rewrite E in Er. simpl in *. apply IH; lia.
Qed.

(** The loop as an equation, its fuel being the text's length. *)
Lemma parse_loop_step c :
  parse_loop (length (rest c)) c =
  match rest c with
  | [] => Some (Ok (records c))
  | _ => match readField c with
         | Err failure => Some (Err (malformed ("record " +:+ nat_text (length (records c) + 1) +:+ ": " +:+ failure)))
         | Ok c' => parse_loop (length (rest c')) c'
         end
  end.
Proof.
  destruct (rest c) as [|x l] eqn:E; cbn [length parse_loop]; rewrite E; [done|].
  destruct (readField c) as [c'|] eqn:Er; [|done]. apply readField_length in Er; [|by rewrite E].
  rewrite E in Er. simpl in Er. apply parse_loop_fuel; lia.
Qed.

Lemma parse_loop_at i l rec recs :
  parse_loop (length l) (MkCursor i l rec recs) =
  match l with
  | [] => Some (Ok recs)
  | _ => match readField (MkCursor i l rec recs) with
         | Err failure => Some (Err (malformed ("record " +:+ nat_text (length recs + 1) +:+ ": " +:+ failure)))
         | Ok c' => parse_loop (length (rest c')) c'
         end
  end.
Proof. apply (parse_loop_step (MkCursor i l rec recs)). Qed.

Lemma parse_loop_total fuel c : length (rest c) <= fuel -> exists r, parse_loop fuel c = Some r.
Proof.
  revert c. induction fuel as [|n IH]; intros c Hf; cbn [parse_loop].
  - destruct (rest c); [eauto|simpl in Hf; lia].
  - destruct (rest c) as [|x l] eqn:E; [eauto|]. destruct (readField c) as [c'|] eqn:Er; [|eauto].
    apply readField_length in Er; [|by rewrite E]. rewrite E in Er. simpl in *. apply IH. lia.
Qed.

(** ** Renderings *)

Definition plain_char (c : Ascii.ascii) : Prop := isSeparator c = false /\ c <> QUOTE.

Fixpoint escape (l : list Ascii.ascii) : list Ascii.ascii :=
  match l with
  | [] => []
  | c :: r => if bool_decide (c = QUOTE) then QUOTE :: QUOTE :: escape r else c :: escape r
  end.

(** How RFC 4180 may write a field: plain when it needs no quoting, or quoted. *)
Inductive renders_field (f : string) : list Ascii.ascii -> Prop :=
| rf_plain : Forall plain_char (chars f) -> renders_field f (chars f)
| rf_quoted : renders_field f (QUOTE :: escape (chars f) ++ [QUOTE]).

Inductive renders_record : list string -> list Ascii.ascii -> Prop :=
| rr_one f l : renders_field f l -> renders_record [f] l
| rr_cons f l fs r : renders_field f l -> renders_record fs r -> renders_record (f :: fs) (l ++ COMMA :: r).

Inductive terminator : list Ascii.ascii -> Prop :=
| term_lf : terminator [LF]
| term_crlf : terminator [CR; LF].

(** Records each ended by LF or CRLF, the last terminator optional (but a last record that is
    one empty plain field needs it). *)
Inductive renders_text : list (list string) -> list Ascii.ascii -> Prop :=
| rt_nil : renders_text [] []
| rt_last fs l : renders_record fs l -> l <> [] -> renders_text [fs] l
| rt_cons fs l t rs r : renders_record fs l -> terminator t -> renders_text rs r -> renders_text (fs :: rs) (l ++ t ++ r).

(** What may follow a field. *)
Definition follows (l : list Ascii.ascii) : Prop :=
  match l with [] => True | c :: _ => isSeparator c = true end.

Lemma separator_not_quote c : isSeparator c = true -> c <> QUOTE.
Proof. intros H ->. by vm_compute in H. Qed.

Lemma read_plain i l tail : Forall plain_char l -> follows tail ->
  readPlainField i (l ++ tail) = Ok (l, i + length l, tail).
Proof.
  intros Hl Ht. revert i. induction Hl as [|c l [Hs Hq] Hl IH]; intros i.
  - cbn [app length]. rewrite Nat.add_0_r. destruct tail as [|c r]; [done|]. cbn [readPlainField]. simpl in Ht. by rewrite Ht.
  - cbn [app readPlainField]. rewrite Hs, bool_decide_eq_false_2, IH by done. cbn [bind_result length]. do 3 f_equal. lia.
Qed.

Lemma read_quoted o i l tail : follows tail ->
  exists j, readQuotedField o i (escape l ++ QUOTE :: tail) = Ok (l, j, tail).
Proof.
  intros Ht. revert i. induction l as [|c l IH]; intros i; cbn [escape app].
  - cbn [readQuotedField]. rewrite bool_decide_eq_true_2 by done.
    destruct tail as [|d r]; [eauto|]. simpl in Ht. apply separator_not_quote in Ht.
    rewrite bool_decide_eq_false_2 by done. eauto.
  - case_bool_decide as E; cbn [app readQuotedField].
    + subst c. rewrite !bool_decide_eq_true_2 by done. destruct (IH (S (S i))) as [j ->]. cbn [bind_result]. eauto.
    + rewrite bool_decide_eq_false_2 by done. destruct (IH (S i)) as [j ->]. cbn [bind_result]. eauto.
Qed.

Lemma read_field f l tail i rec recs :
  renders_field f l -> follows tail -> l ++ tail <> [] ->
  exists j, readField (MkCursor i (l ++ tail) rec recs) = readSeparator (MkCursor j tail (rec ++ [f]) recs).
Proof.
  intros Hf Ht Hne. unfold readField. cbn [rest index record records]. destruct Hf as [Hp|].
  - destruct (chars f ++ tail) as [|x r] eqn:E; [done|].
    assert (Hx : x <> QUOTE).
    { destruct (chars f) as [|y t]; simpl in E.
      - subst tail. by apply separator_not_quote.
      - injection E as <- _. by apply Forall_cons in Hp as [[_ ?] _]. }
    rewrite bool_decide_eq_false_2 by done. rewrite <-E, read_plain by done. cbn [bind_result]. rewrite text_chars. eauto.
  - cbn [app]. rewrite bool_decide_eq_true_2 by done. rewrite <-app_assoc. cbn [app].
    destruct (read_quoted i (S i) (chars f) tail Ht) as [j ->]. cbn [bind_result]. rewrite text_chars. eauto.
Qed.

(** ** Reading a rendering back *)

Lemma renders_record_nonempty fs l : renders_record fs l -> fs <> [].
Proof. by destruct 1. Qed.

Lemma terminator_follows t r : terminator t -> follows (t ++ r).
Proof. by destruct 1. Qed.

Lemma read_terminator t r j rec recs : terminator t ->
  exists k, readSeparator (MkCursor j (t ++ r) rec recs) = Ok (MkCursor k r [] (recs ++ [rec])).
Proof. destruct 1; unfold readSeparator; cbn; eauto. Qed.

(** A rendered record followed by a terminator: the loop closes exactly that record. *)
Lemma parse_record fs l t r i rec recs :
  renders_record fs l -> terminator t ->
  exists k, parse_loop (length (l ++ t ++ r)) (MkCursor i (l ++ t ++ r) rec recs)
            = parse_loop (length r) (MkCursor k r [] (recs ++ [rec ++ fs])).
Proof.
  intros Hr Ht. revert i rec. induction Hr as [f l Hf|f l fs q Hf Hr IH]; intros i rec.
  - rewrite parse_loop_at.
    assert (Hne : l ++ t ++ r <> []) by (destruct Ht, l; done).
    destruct (read_field f l (t ++ r) i rec recs Hf (terminator_follows _ _ Ht) Hne) as [j Hj].
    destruct (read_terminator t r j (rec ++ [f]) recs Ht) as [k Hk].
    rewrite Hj, Hk. destruct (l ++ t ++ r); [done|]. eauto.
  - rewrite <-app_assoc. cbn [app]. rewrite parse_loop_at.
    destruct (read_field f l (COMMA :: q ++ t ++ r) i rec recs Hf) as [j Hj]; [done|by destruct l|].
    rewrite Hj. destruct (l ++ COMMA :: q ++ t ++ r) eqn:E; [by destruct l|].
    unfold readSeparator. cbn [rest index record records]. rewrite bool_decide_eq_true_2 by done.
    destruct (q ++ t ++ r) as [|y z] eqn:Eq; [destruct Ht, q; done|]. cbn [rest].
    destruct (IH (S j) (rec ++ [f])) as [k Hk]. exists k. rewrite Hk. by rewrite <-app_assoc.
Qed.

(** A last record without a terminator. *)
Lemma parse_last fs l i rec recs :
  renders_record fs l -> l <> [] ->
  parse_loop (length l) (MkCursor i l rec recs) = Some (Ok (recs ++ [rec ++ fs])).
Proof.
  intros Hr. revert i rec. induction Hr as [f l Hf|f l fs q Hf Hr IH]; intros i rec Hne.
  - rewrite parse_loop_at.
    destruct (read_field f l [] i rec recs Hf) as [j Hj]; [done|by rewrite app_nil_r|].
    rewrite app_nil_r in Hj. rewrite Hj. destruct l as [|x l]; [done|]. reflexivity.
  - rewrite parse_loop_at.
    destruct (read_field f l (COMMA :: q) i rec recs Hf) as [j Hj]; [done|by destruct l|]. rewrite Hj.
    destruct (l ++ COMMA :: q) eqn:E; [by destruct l|].
    unfold readSeparator. cbn [rest index record records]. rewrite bool_decide_eq_true_2 by done.
    destruct q as [|y q].
    + assert (fs = [""]) as ->.
      { inversion Hr as [f' l' Hf' E1 E2|f' l' fs' r' Hf' Hr' E1 E2]; subst; [|by destruct l'].
        inversion Hf' as [Hp E3|E3]; subst. f_equal. apply chars_inj. by rewrite E3. }
      cbn. by rewrite <-app_assoc.
    + cbn [rest]. rewrite (IH (S j) (rec ++ [f])) by done. by rewrite <-app_assoc.
Qed.

Lemma parse_rendering rs l i recs :
  renders_text rs l -> parse_loop (length l) (MkCursor i l [] recs) = Some (Ok (recs ++ rs)).
Proof.
  intros H. revert i recs. induction H as [|fs l Hr Hne|fs l t rs r Hr Ht H IH]; intros i recs.
  - cbn. by rewrite app_nil_r.
  - by rewrite (parse_last fs).
  - destruct (parse_record fs l t r i [] recs Hr Ht) as [k ->]. rewrite IH. cbn [app]. by rewrite <-app_assoc.
Qed.

(** ** Tables *)

Lemma find_index_None {A} (p : A -> bool) l : find_index p l = None <-> Forall (fun x => p x = false) l.
Proof.
  induction l as [|x l IH]; cbn [find_index]; [by split|]. rewrite Forall_cons, <-IH.
  destruct (p x); [split; [done|naive_solver]|]. destruct (find_index p l); naive_solver.
Qed.

Lemma first_repeat_None seen l : first_repeat seen l = None <-> NoDup l /\ Forall (fun x => x ∉ seen) l.
Proof.
  revert seen. induction l as [|x l IH]; intros seen; cbn [first_repeat].
  - split; [split; constructor|done].
  - unfold memb. case_bool_decide as E.
    + split; [done|]. intros [_ [? _]%Forall_cons]. done.
    + rewrite IH, NoDup_cons, Forall_cons, !Forall_forall. set_solver.
Qed.

Lemma row_failure_None i n l : row_failure i n l = None <-> Forall (fun r => length r = n) l.
Proof.
  revert i. induction l as [|r l IH]; intros i; cbn [row_failure]; [by split|]. rewrite Forall_cons, <-(IH (S i)).
  destruct (Nat.eqb (length r) n) eqn:E; cbn [negb]; [apply Nat.eqb_eq in E|apply Nat.eqb_neq in E]; naive_solver.
Qed.

(** A header of unique, non-empty names and rows of its width. *)
Definition well_formed (t : CurTable) : Prop :=
  NoDup (columns t) /\ Forall (fun c => c <> "") (columns t) /\ Forall (fun r => length r = length (columns t)) (rows t).

Lemma tableOf_ok rs t : tableOf rs = Ok t <-> rs = columns t :: rows t /\ well_formed t.
Proof.
  unfold tableOf, well_formed. destruct rs as [|h b]; [split; [done|by intros [? _]]|].
  assert (Hh : headerFailure h = None <-> NoDup h /\ Forall (fun c => c <> "") h).
  { unfold headerFailure. assert (Hb : find_index (fun name => bool_decide (name = "")) h = None <-> Forall (fun c => c <> "") h).
    { rewrite find_index_None. apply Forall_proper; [|done]. intros x. by rewrite bool_decide_eq_false. }
    destruct (find_index _ h); [split; [done|]; intros [_ ?%Hb]; done|].
    pose proof (first_repeat_None [] h) as Hr. destruct (first_repeat [] h).
    - split; [done|]. intros [Hn _]. assert (Some s = None) by (apply Hr; split; [done|]; apply Forall_true; by intros ? ?%elem_of_nil). done.
    - split; [intros _|done]. split; [by apply Hr|by apply Hb]. }
  pose proof (row_failure_None 0 (length h) b) as Hb.
  destruct (headerFailure h); [split; [done|]; intros [[= -> ->] (Hn & Hc & _)]; discriminate (proj2 Hh (conj Hn Hc))|].
  destruct (row_failure 0 (length h) b).
  - split; [done|]. intros [[= -> ->] (_ & _ & Hw)]. discriminate (proj2 Hb Hw).
  - split; [intros [= <-]; simpl; naive_solver|]. intros [[= -> ->] _]. by destruct t.
Qed.

(** C33: The reader is total (its loop always ends within its fuel) and inverts every RFC 4180
    rendering: any text that writes the header and rows of a well-formed table, each field
    plain or quoted (with inner quotes doubled, and separators and line breaks inside), each
    record ended by LF or CRLF, the last terminator optional, parses to exactly that table;
    and whatever parses is a well-formed table of the records read. *)
Theorem cur_csv_roundtrip (l : list Ascii.ascii) :
  (exists r, parseRecords l = Some r)
  /\ (forall t, renders_text (columns t :: rows t) l -> well_formed t ->
        exists rs, parseRecords l = Some (Ok rs) /\ tableOf rs = Ok t)
  /\ (forall rs t, parseRecords l = Some (Ok rs) -> tableOf rs = Ok t -> rs = columns t :: rows t /\ well_formed t).
Proof.
  split; [apply parse_loop_total; simpl; lia|]. split.
  - intros t Hr Hw. exists (columns t :: rows t). split; [exact (parse_rendering _ l 0 [] Hr)|]. by apply tableOf_ok.
  - intros rs t _. apply tableOf_ok.
Qed.

Lemma cur_csv_roundtrip_witness :
  let l := chars "a,b" ++ [CR; LF; QUOTE] ++ chars "x," ++ [QUOTE; QUOTE; QUOTE; COMMA; LF] in
  exists rs, parseRecords l = Some (Ok rs) /\ tableOf rs = Ok (MkTable ["a"; "b"] [[text (chars "x," ++ [QUOTE]); ""]]).
Proof.
  cbn zeta. refine (proj1 (proj2 (cur_csv_roundtrip _)) _ _ _).
  - apply (rt_cons ["a"; "b"] (chars "a,b") [CR; LF] _ _); [|constructor|].
    + apply (rr_cons "a" ["a"%char] ["b"] ["b"%char]); [|apply rr_one]; apply rf_plain; repeat constructor; discriminate.
    + apply (rt_cons [_; ""] (QUOTE :: chars "x," ++ [QUOTE; QUOTE; QUOTE; COMMA]) [LF] [] []); [|constructor|constructor].
      apply (rr_cons _ (QUOTE :: chars "x," ++ [QUOTE; QUOTE; QUOTE]) [""] []);
        [apply (rf_quoted (text (chars "x," ++ [QUOTE])))|apply rr_one, rf_plain; constructor].
  - split; [apply (bool_decide_unpack _); vm_compute; exact I|]. split; repeat constructor; discriminate.
Defined.

End CurCsv.
