(* ===== verification/Safety.v ===== *)
(** * Safety supervision and usage windows

    src/study-1/src/safety/safety-limits.ts, safety-supervisor.ts and
    safety-status.ts (the durations of one execution), and
    src/study-1/src/billing-amendment/usage-window.ts (the billing intervals).
    Instants are epoch milliseconds; monotonic readings are nanoseconds. *)

From Stdlib Require Ascii.
From S2P Require Import Prelude Timestamps LeaseItem.
Import Digits Utc LeaseItem.
Open Scope Z_scope.

Module Safety.

(** ** Limits *)

Definition SAFETY_REGION : string := "us-east-1".

Record SafetyLimits :=
  MkLimits { active_ms : Z; cleanup_ms : Z; total_ms : Z; ceiling_usd : string; region : string }.

Definition RUN_SAFETY : SafetyLimits := MkLimits 4500000 900000 5400000 "5.00" SAFETY_REGION.
Definition PROBE_SAFETY : SafetyLimits := MkLimits 600000 600000 1200000 "1.00" SAFETY_REGION.
Definition VALIDATION_SAFETY : SafetyLimits := RUN_SAFETY.

Definition safetyLimitsFor (kind : ExecutionKind) : SafetyLimits :=
  match kind with
  | RUN => RUN_SAFETY
  | TRANSPORT_PROBE => PROBE_SAFETY
  | VARIANT_VALIDATION => VALIDATION_SAFETY
  end.

(** ** The supervisor *)

Inductive SafetyResult := within_limits | breached | unverified.
#[export] Instance SafetyResult_eq_dec : EqDecision SafetyResult.
Proof. solve_decision. Defined.

Record SafetyCheck :=
  MkCheck { boundary : string; declared_limit : string; observed : string; result : SafetyResult;
            evidence_refs : list string; checked_at : string }.

Definition NS_PER_MS : Z := 1000000.

Record SafetySupervisor := MkSupervisor { limits : SafetyLimits; startedNs : Z; activeEndedMs : option Z }.

(** Every method takes the reading its one call of the monotonic clock returns. *)
Definition elapsedMs (s : SafetySupervisor) (nowNs : Z) : Z :=
  let elapsedNs := nowNs - startedNs s in
  if elapsedNs <? 0 then 0 else Z.quot elapsedNs NS_PER_MS.

Definition activeDeadlineReached (s : SafetySupervisor) (nowNs : Z) : bool := elapsedMs s nowNs >=? active_ms (limits s).

Definition mayStartTrial (s : SafetySupervisor) (nowNs : Z) : bool :=
  bool_decide (activeEndedMs s = None) && negb (activeDeadlineReached s nowNs).

Definition totalTargetExceeded (s : SafetySupervisor) (nowNs : Z) : bool := elapsedMs s nowNs >? total_ms (limits s).

Definition markActiveEnded (s : SafetySupervisor) (nowNs : Z) : SafetySupervisor :=
  MkSupervisor (limits s) (startedNs s)
    (match activeEndedMs s with Some ms => Some ms | None => Some (elapsedMs s nowNs) end).

Definition durationCheck (b : string) (limitMs observedMs : Z) (at_ : string) : SafetyCheck :=
  MkCheck b (string_of_Z limitMs +:+ " ms") (string_of_Z observedMs +:+ " ms")
    (if observedMs >? limitMs then breached else within_limits) [] at_.

Definition checks (s : SafetySupervisor) (nowNs : Z) (wall : option Z) : Result (SafetyCheck * SafetyCheck) js_error :=
  let elapsed := elapsedMs s nowNs in
  let! checkedAt := formatUtcMillis wall in
  let active := match activeEndedMs s with Some ms => ms | None => elapsed end in
  Ok (durationCheck "ACTIVE_TIME" (active_ms (limits s)) active checkedAt,
      durationCheck "TOTAL_TIME" (total_ms (limits s)) elapsed checkedAt).

Definition deriveSafetyStatus (results : list SafetyResult) : SafetyResult :=
  if existsb (fun r => bool_decide (r = breached)) results then breached
  else if Nat.eqb (length results) 0 || existsb (fun r => bool_decide (r = unverified)) results then unverified
  else within_limits.

(** ** Usage windows *)

(** A CUR cell [YYYY-MM-DDTHH:mm:ssZ] is read through its millisecond form, any other text
    as it is. *)
Definition matches_CUR_SECONDS_PATTERN (s : string) : bool :=
  match chars s with
  | [y1; y2; y3; y4; c1; m1; m2; c2; d1; d2; c3; h1; h2; c4; n1; n2; c5; s1; s2; c7] =>
      bool_decide ([c1; c2; c3; c4; c5; c7] = chars "--T::Z")
      && forallb (fun c => bool_decide (is_Some (digit_val c))) [y1; y2; y3; y4; m1; m2; d1; d2; h1; h2; n1; n2; s1; s2]
  | _ => false
  end.

Definition parseCurTimestamp (t : string) : option string :=
  let millis := if matches_CUR_SECONDS_PATTERN t then text (take 19 (chars t)) +:+ ".000Z" else t in
  if isUtcMillis millis then Some millis else None.

Record UsageInterval := MkInterval { start : Z; end_ : Z }.

Definition parseCurInterval (startText endText : string) : option UsageInterval :=
  match parseCurTimestamp startText, parseCurTimestamp endText with
  | Some s, Some e =>
      match Date_parse s, Date_parse e with
      | Some a, Some b => if b <=? a then None else Some (MkInterval a b)
      | _, _ => None
      end
  | _, _ => None
  end.

Definition HOUR_MS : Z := 3600000.

(** [Math.floor(ms / HOUR_MS) * HOUR_MS] and [Math.ceil(ms / HOUR_MS) * HOUR_MS]. *)
Definition floor_hour (ms : Z) : Z := ms / HOUR_MS * HOUR_MS.
Definition ceil_hour (ms : Z) : Z := - ((- ms) / HOUR_MS) * HOUR_MS.

Definition attributionWindow (firstMutationAt cleanupTerminalAt : Z) : Result UsageInterval js_error :=
  let! s := format_instant (floor_hour firstMutationAt) in
  let! e := format_instant (ceil_hour cleanupTerminalAt) in
  Ok (MkInterval s e).

Definition isContained (inner outer : UsageInterval) : bool :=
  (start inner >=? start outer) && (end_ inner <=? end_ outer).

Definition isDisjoint (a b : UsageInterval) : bool := (end_ a <=? start b) || (end_ b <=? start a).

(** An instant lies in a half-open interval. *)
Definition in_interval (t : Z) (i : UsageInterval) : Prop := start i <= t < end_ i.

(** ** Properties *)

Lemma elapsedMs_mono s a b : a <= b -> elapsedMs s a <= elapsedMs s b.
Proof.
  intros H. unfold elapsedMs, NS_PER_MS.
  destruct (a - startedNs s <? 0) eqn:Ea, (b - startedNs s <? 0) eqn:Eb; boolp; dlia.
Qed.

(** The seconds spelling of an instant. *)
Definition cur_seconds (ms : Z) : string := text (take 19 (chars (toISOString ms))) +:+ "Z".

Lemma pad_digits_are_digits w n :
  0 <= n -> Forall (fun c => bool_decide (is_Some (digit_val c)) = true) (pad_digits w n).
Proof.
  revert n. induction w as [|w IH]; intros n Hn; [constructor|]. cbn [pad_digits].
  apply Forall_app. split; [apply IH; dlia|]. constructor; [|constructor].
  apply bool_decide_eq_true_2. rewrite digit_val_char by dlia. eauto.
Qed.

Lemma cur_seconds_matches a :
  in_utc_range a ->
  matches_CUR_SECONDS_PATTERN (cur_seconds a) = true
  /\ matches_CUR_SECONDS_PATTERN (toISOString a) = false
  /\ (a mod 1000 = 0 -> text (take 19 (chars (cur_seconds a))) +:+ ".000Z" = toISOString a).
Proof.
  intros H. destruct (iso_chars_in_range a H) as (y & mo & d & E & Hy & Hc).
  destruct (Calendar.civil_from_days_ranges _ _ _ _ E) as [Hmo Hd].
  assert (Ht : 0 <= a mod Calendar.MS_PER_DAY) by (apply Z.mod_pos_bound; done).
  unfold cur_seconds, toISOString. rewrite Hc. cbn zeta. set (tod := a mod Calendar.MS_PER_DAY) in *.
  assert (Hms : a mod 1000 = 0 -> tod mod 1000 = 0).
  { intros Hz. subst tod. rewrite Z.mod_mod_divide; [done|]. by exists 86400. }
  set (h := tod / 3600000). set (mi := tod / 60000 mod 60). set (se := tod / 1000 mod 60).
  assert (0 <= h /\ 0 <= mi /\ 0 <= se) as (Hh & Hmi & Hse) by (subst h mi se; split_and!; dlia).
  pose proof (pad_digits_are_digits 4 y ltac:(lia)) as Fy. pose proof (pad_digits_are_digits 2 mo ltac:(lia)) as Fmo.
  pose proof (pad_digits_are_digits 2 d ltac:(lia)) as Fd. pose proof (pad_digits_are_digits 2 h Hh) as Fh.
  pose proof (pad_digits_are_digits 2 mi Hmi) as Fmi. pose proof (pad_digits_are_digits 2 se Hse) as Fse.
  unfold iso_tail. clearbody h mi se. unfold matches_CUR_SECONDS_PATTERN. rewrite !chars_app, !chars_text.
  cbn [pad_digits app take] in *. rewrite ?Forall_cons in *.
  change (chars "Z") with [Ascii.ascii_of_nat 90]. cbn [app take]. split_and!.
  - rewrite bool_decide_eq_true_2 by done. cbn [forallb andb]. destruct_and!. by repeat (rewrite andb_true_iff; split).
  - done.
  - intros Hz. rewrite (Hms Hz). apply chars_inj. rewrite chars_app, !chars_text. reflexivity.
Qed.

Lemma cur_timestamp_reads a x :
  in_utc_range a -> x = toISOString a \/ a mod 1000 = 0 /\ x = cur_seconds a -> parseCurTimestamp x = Some (toISOString a).
Proof.
  intros Ha Hx. destruct (cur_seconds_matches a Ha) as (H1 & H2 & H3). unfold parseCurTimestamp.
  assert (Hi : isUtcMillis (toISOString a) = true) by (by apply isUtcMillis_toISOString).
  destruct Hx as [->|[Hm ->]]; [rewrite H2|rewrite H1, (H3 Hm)]; by rewrite Hi.
Qed.

Lemma existsb_decide {A} `{EqDecision A} (x : A) l :
  existsb (fun r => bool_decide (r = x)) l = true <-> x ∈ l.
Proof.
  rewrite existsb_exists. setoid_rewrite bool_decide_eq_true. rewrite list_elem_of_In. naive_solver.
Qed.

(** A trial starts only inside the active time, and never again once it has passed: while
    active work has not ended, starting is allowed exactly while fewer whole milliseconds
    than the active maximum have elapsed, so whenever a reading refuses, every later
    reading refuses too; ending active work freezes its duration for good; and the two
    duration checks report a breach exactly when the (frozen) active or the elapsed time
    exceeds its maximum. *)
Theorem safety_supervision (s : SafetySupervisor) (now later : Z) (wall : Z) :
  now <= later -> in_utc_range wall ->
  (mayStartTrial s now = true <-> activeEndedMs s = None /\ elapsedMs s now < active_ms (limits s))
  /\ (mayStartTrial s now = false -> mayStartTrial s later = false)
  /\ mayStartTrial (markActiveEnded s now) later = false
  /\ markActiveEnded (markActiveEnded s now) later = markActiveEnded s now
  /\ exists a t, checks (markActiveEnded s now) later (Some wall) = Ok (a, t)
      /\ (result a = breached <-> default (elapsedMs s now) (activeEndedMs s) > active_ms (limits s))
      /\ (result t = breached <-> totalTargetExceeded s later = true).
Proof.
  intros Hle Hw. pose proof (elapsedMs_mono s _ _ Hle) as Hm. split; [|split; [|split; [|split]]].
  - unfold mayStartTrial, activeDeadlineReached. rewrite andb_true_iff, bool_decide_eq_true, negb_true_iff, Z.geb_leb, Z.leb_gt. done.
  - unfold mayStartTrial, activeDeadlineReached. case_bool_decide; [|done]. cbn [andb]. rewrite !negb_false_iff, !Z.geb_leb, !Z.leb_le. lia.
  - unfold mayStartTrial, markActiveEnded. cbn [activeEndedMs]. by destruct (activeEndedMs s); rewrite bool_decide_eq_false_2.
  - unfold markActiveEnded. cbn [activeEndedMs limits startedNs]. by destruct (activeEndedMs s).
  - unfold checks. pose proof (format_utc_ok wall) as Hf. destruct (formatUtcMillis (Some wall)); [|done].
    cbn [bind_result]. do 2 eexists. split; [done|]. unfold durationCheck, totalTargetExceeded. cbn [result].
    assert (elapsedMs (markActiveEnded s now) later = elapsedMs s later) as -> by done.
    split.
    + unfold markActiveEnded. cbn [activeEndedMs limits]. destruct (activeEndedMs s); simpl default;
        (match goal with |- context [?a >? ?b] => destruct (Z.gtb_spec a b) end; split; intros; (lia || done)).
    + cbn [markActiveEnded limits]. by destruct (elapsedMs s later >? total_ms (limits s)).
Qed.

Lemma safety_supervision_witness :
  mayStartTrial (MkSupervisor RUN_SAFETY 0 None) 4499999999999 = true
  /\ mayStartTrial (MkSupervisor RUN_SAFETY 0 None) 4500000000000 = false
  /\ mayStartTrial (MkSupervisor RUN_SAFETY 0 None) 9000000000000 = false.
Proof.
  split; [reflexivity|]. split; [reflexivity|].
  destruct (safety_supervision (MkSupervisor RUN_SAFETY 0 None) 4500000000000 9000000000000 0) as (_ & H & _);
    [vm_compute; discriminate|split; vm_compute; discriminate|]. apply H. reflexivity.
Defined.

(** The safety status is the worst check: breached when some check is, else unverified
    when some check is or there is none, and within limits only when there is at least one
    check and every check is. *)
Theorem safety_status_precedence (results : list SafetyResult) :
  (deriveSafetyStatus results = breached <-> breached ∈ results)
  /\ (deriveSafetyStatus results = within_limits <-> results <> [] /\ Forall (fun r => r = within_limits) results).
Proof.
  unfold deriveSafetyStatus. pose proof (existsb_decide breached results) as Hb.
  pose proof (existsb_decide unverified results) as Hu. rewrite Forall_forall.
  destruct (existsb (fun r => bool_decide (r = breached)) results) eqn:Eb.
  - split; [naive_solver|]. split; [done|]. intros [_ H]. destruct Hb as [Hb _]. specialize (H breached (Hb eq_refl)). done.
  - assert (Hnb : breached ∉ results) by (rewrite <-Hb; done).
    destruct results as [|r rs]; [simpl; naive_solver|]. cbn [length Nat.eqb orb].
    destruct (existsb (fun r => bool_decide (r = unverified)) (r :: rs)) eqn:Eu.
    + split; [naive_solver|]. split; [done|]. intros [_ H]. destruct Hu as [Hu _]. specialize (H unverified (Hu eq_refl)). done.
    + assert (Hnu : unverified ∉ r :: rs) by (rewrite <-Hu; done).
      split; [naive_solver|]. split; [|done]. intros _. split; [done|]. intros [] Hx; done.
Qed.

(** A usage interval is read exactly from two cells that each write an existing UTC instant,
    in seconds or in milliseconds, with the end after the start; both spellings of an
    instant read as that instant. *)
Theorem cur_interval_readable (a b : Z) (x y : string) :
  in_utc_range a -> in_utc_range b -> a < b ->
  (x = toISOString a \/ a mod 1000 = 0 /\ x = cur_seconds a) ->
  (y = toISOString b \/ b mod 1000 = 0 /\ y = cur_seconds b) ->
  parseCurInterval x y = Some (MkInterval a b) /\ parseCurInterval y x = None /\ parseCurInterval x x = None.
Proof.
  intros Ha Hb Hlt Hx Hy. unfold parseCurInterval. rewrite (cur_timestamp_reads a x Ha Hx), (cur_timestamp_reads b y Hb Hy).
  rewrite !Date_parse_toISOString by done. split_and!.
  - destruct (Z.leb_spec b a); [lia|done].
  - destruct (Z.leb_spec a b); [done|lia].
  - by rewrite Z.leb_refl.
Qed.

Lemma cur_interval_readable_witness :
  parseCurInterval "2026-10-05T10:00:00Z" "2026-10-05T11:00:00.000Z" = Some (MkInterval 1791194400000 1791198000000).
Proof.
  apply (cur_interval_readable 1791194400000 1791198000000);
    [by vm_compute|by vm_compute|lia|right; by vm_compute|left; by vm_compute].
Defined.

(** The attribution window is the least span of whole hours around the run: it is made of
    whole hours, contains every instant from the first mutation to the terminal cleanup,
    and any other whole-hour interval that contains them contains the window; a usage
    interval contained in it has all its instants in it, and disjoint intervals share
    none. *)
Theorem attribution_window_least (first terminal : Z) (w : UsageInterval) :
  attributionWindow first terminal = Ok w ->
  start w mod HOUR_MS = 0 /\ end_ w mod HOUR_MS = 0 /\ start w <= first /\ terminal <= end_ w
  /\ (forall a b, a mod HOUR_MS = 0 -> b mod HOUR_MS = 0 -> a <= first -> terminal <= b -> a <= start w /\ end_ w <= b)
  /\ (forall i t, isContained i w = true -> in_interval t i -> in_interval t w)
  /\ (forall i j t, isDisjoint i j = true -> ~ (in_interval t i /\ in_interval t j)).
Proof.
  unfold attributionWindow. destruct (format_instant (floor_hour first)) as [s|] eqn:Es; [|done].
  destruct (format_instant (ceil_hour terminal)) as [e|] eqn:Ee; [|done]. cbn [bind_result]. intros [= <-].
  apply format_instant_ok in Es as [-> _], Ee as [-> _]. cbn [start end_].
  unfold floor_hour, ceil_hour, HOUR_MS, isContained, isDisjoint, in_interval. cbn [start end_].
  split_and!; [by apply Z.mod_mul|by apply Z.mod_mul|dlia|dlia| | |].
  - intros a b Ha Hb H1 H2. split; dlia.
  - intros i t H. boolp. lia.
  - intros i j t H. apply orb_prop in H as [H|H]; boolp; lia.
Qed.

Lemma attribution_window_least_witness :
  attributionWindow 1791195423120 1791198120000 = Ok (MkInterval 1791194400000 1791201600000)
  /\ 1791194400000 mod HOUR_MS = 0.
Proof.
  split; [vm_compute; reflexivity|].
  apply (attribution_window_least 1791195423120 1791198120000 (MkInterval 1791194400000 1791201600000)).
  vm_compute. reflexivity.
Defined.

End Safety.
