(* ===== verification/ControlItems.v ===== *)
(** * Control items of the refund provider (src/study-1/src/refund-provider/)

    The bounded descriptions of untrusted values (untrusted-json.ts), the execution
    identity of a payload (execution-identity-fields.ts), the barrier timing
    (barrier-timing.ts) and the readers of the control-table items
    (control-items.ts): configuration, execution configuration, payment and
    treatment. Identities keep their text; an absent attribute is [None]. *)

From S2P Require Import Prelude Timestamps Utf16 Effects Store JsonText LeaseItem Journal.
Import Utf16(toWellFormed).
Import Json Store Identifiers JsonText LeaseItem Journal.
Open Scope Z_scope.

Module ControlItems.

(** ** Untrusted values *)

(** A cut may have split a surrogate pair, so the text is made well formed. *)
Definition describeUntrusted (value : option json) : string :=
  match value with
  | Some (JNum (JSOther s)) =>
      if memb s ["Infinity"; "-Infinity"; "NaN"] then "number " +:+ s else toWellFormed (describeJson value)
  | _ => toWellFormed (describeJson value)
  end.

Definition excerptUntrusted (value : json) : string := toWellFormed (boundedJsonText value QUOTED_JSON_LIMIT).

(** A write outcome as the JSON object the port returns. *)
Definition outcome_json (outcome : WriteOutcome) : json :=
  match outcome with
  | applied => JObj [("kind", JStr "applied")]
  | condition_failed i existing =>
      JObj ([("kind", JStr "condition_failed"); ("failed_action_index", JNum (JSInt i))]
            ++ match existing with Some m => [("existing", JObj m)] | None => [] end)
  | definitive_failure c => JObj [("kind", JStr "definitive_failure"); ("code", JStr c)]
  | ambiguous c => JObj [("kind", JStr "ambiguous"); ("code", JStr c)]
  end.

Definition describeWriteOutcome (outcome : WriteOutcome) : string := excerptUntrusted (outcome_json outcome).

(** [isUuid4] and [isSha256Hex] of an unknown value, with the string they prove. *)
Definition uuid4_of (v : option json) : option string :=
  match v with Some (JStr s) => if isUuid4 s then Some s else None | _ => None end.
Definition sha256_of (v : option json) : option string :=
  match v with Some (JStr s) => if isSha256Hex s then Some s else None | _ => None end.

(** [Object.hasOwn(o, name)] *)
Definition hasOwn (m : list (string * json)) (name : string) : bool := bool_decide (is_Some (member name m)).

(** ** Execution identities *)

Definition EXECUTION_IDENTITY_FIELDS : list (string * ExecutionKind) :=
  [("run_id", RUN); ("variant_validation_id", VARIANT_VALIDATION); ("transport_probe_id", TRANSPORT_PROBE)].

Definition execution_kind (e : ExecutionIdentity) : ExecutionKind :=
  match e with
  | id_run _ => RUN
  | id_transport_probe _ => TRANSPORT_PROBE
  | id_variant_validation _ => VARIANT_VALIDATION
  end.

Definition executionIdentityOf (kind : ExecutionKind) (id : string) : ExecutionIdentity :=
  match kind with
  | RUN => id_run id
  | VARIANT_VALIDATION => id_variant_validation id
  | TRANSPORT_PROBE => id_transport_probe id
  end.

Definition UUID4_EXPECTATION : string := "; expected a lowercase RFC 4122 version-4 UUID".

Definition parseExecutionIdentityFields (payload : list (string * json)) : Result ExecutionIdentity string :=
  let present := List.filter (fun f => hasOwn payload f.1) EXECUTION_IDENTITY_FIELDS in
  match present with
  | [(field, kind)] =>
      let v := member field payload in
      match uuid4_of v with
      | Some id => Ok (executionIdentityOf kind id)
      | None => Err (field +:+ " is " +:+ describeUntrusted v +:+ UUID4_EXPECTATION)
      end
  | _ =>
      Err ("execution identity fields [" +:+ str_join ", " (map fst present)
           +:+ "]; expected exactly one of run_id, variant_validation_id, transport_probe_id")
  end.

Definition sameExecution (a b : ExecutionIdentity) : bool :=
  bool_decide (execution_kind a = execution_kind b) && bool_decide (executionIdOf a = executionIdOf b).

Definition describeExecution (e : ExecutionIdentity) : string :=
  kind_text (execution_kind e) +:+ " " +:+ executionIdOf e.

(** ** The items *)

(** BARRIER_TIMING *)
Definition poll_interval_ms : Z := 250.
Definition safety_release_ms : Z := 15000.

Definition CONFIG_SORT_KEY : string := "config".
Definition TREATMENT_SORT_KEY : string := "treatment".
Definition PAYMENT_SORT_KEY_PREFIX : string := "payment#".
Definition EXECUTION_PARTITION_SUFFIX : string := "execution".

Inductive ProviderCallerId := conventional | durable | probe.
#[export] Instance ProviderCallerId_eq_dec : EqDecision ProviderCallerId.
Proof. solve_decision. Defined.
Definition PROVIDER_CALLER_IDS : list ProviderCallerId := [conventional; durable; probe].
Definition caller_text (c : ProviderCallerId) : string :=
  match c with conventional => "conventional" | durable => "durable" | probe => "probe" end.

Inductive Scenario := CONTROL | COMMIT_THEN_TIMEOUT.
#[export] Instance Scenario_eq_dec : EqDecision Scenario.
Proof. solve_decision. Defined.
Definition SCENARIOS : list Scenario := [CONTROL; COMMIT_THEN_TIMEOUT].
Definition scenario_text (s : Scenario) : string :=
  match s with CONTROL => "CONTROL" | COMMIT_THEN_TIMEOUT => "COMMIT_THEN_TIMEOUT" end.

Inductive TreatmentState :=
  ARMED | COMMITTED_WAITING | TIMEOUT_SIGNALLED | TIMEOUT_OBSERVED | RESPONSE_RELEASED | SAFETY_RELEASED.
#[export] Instance TreatmentState_eq_dec : EqDecision TreatmentState.
Proof. solve_decision. Defined.
Definition TREATMENT_STATES : list TreatmentState :=
  [ARMED; COMMITTED_WAITING; TIMEOUT_SIGNALLED; TIMEOUT_OBSERVED; RESPONSE_RELEASED; SAFETY_RELEASED].
Definition state_text (s : TreatmentState) : string :=
  match s with
  | ARMED => "ARMED"
  | COMMITTED_WAITING => "COMMITTED_WAITING"
  | TIMEOUT_SIGNALLED => "TIMEOUT_SIGNALLED"
  | TIMEOUT_OBSERVED => "TIMEOUT_OBSERVED"
  | RESPONSE_RELEASED => "RESPONSE_RELEASED"
  | SAFETY_RELEASED => "SAFETY_RELEASED"
  end.

Inductive SafetyReleaseCause := SAFETY_DEADLINE | CLEANUP_REQUEST.
#[export] Instance SafetyReleaseCause_eq_dec : EqDecision SafetyReleaseCause.
Proof. solve_decision. Defined.
Definition SAFETY_RELEASE_CAUSES : list SafetyReleaseCause := [SAFETY_DEADLINE; CLEANUP_REQUEST].
Definition cause_text (c : SafetyReleaseCause) : string :=
  match c with SAFETY_DEADLINE => "SAFETY_DEADLINE" | CLEANUP_REQUEST => "CLEANUP_REQUEST" end.

(** [isOneOf]: the listed value a JSON value spells. *)
Definition isOneOf {T} (values : list T) (spell : T -> string) (v : option json) : option T :=
  match v with Some (JStr s) => find_first (fun x => bool_decide (spell x = s)) values | _ => None end.

Record CallTrial := MkTrial { trial_id : string; trial_manifest_sha256 : string }.
#[export] Instance CallTrial_eq_dec : EqDecision CallTrial.
Proof. solve_decision. Defined.

Record ProviderConfigView := MkConfig {
  c_execution_manifest_sha256 : string;
  registered_caller_id : ProviderCallerId;
  scenario : Scenario;
  c_payment_id : string;
  c_trial : option CallTrial;
}.

(** The one member of [ProviderExecutionConfigView] is the manifest digest. *)
Record ProviderExecutionConfigView := MkExecutionConfig { x_execution_manifest_sha256 : string }.

Record PaymentView := MkPayment { p_payment_id : string; p_currency : string }.

Definition paymentSortKey (paymentId : string) : string := PAYMENT_SORT_KEY_PREFIX +:+ paymentId.

Definition executionConfigPartition (deployment : ExecutionIdentity) : string :=
  executionIdOf deployment +:+ "#" +:+ EXECUTION_PARTITION_SUFFIX.

(** A stored item carries string keys. *)
Definition key_text (name : string) (item : StoredItem) : string := nullish (as_string (member name item)) "".

Definition refuse {T} (item : StoredItem) (problem : string) : Result T string :=
  Err ("control item " +:+ key_text "pk" item +:+ "/" +:+ key_text "sk" item +:+ ": " +:+ problem).

(** [a ?? b] of two problems. *)
Definition or_else {A} (a b : option A) : option A := match a with Some x => Some x | None => b end.

Definition DIGEST_EXPECTATION : string := "; expected 64 lowercase hex digits".

Definition configScopeProblem (item : StoredItem) (partitionTrial : option string) : option string :=
  match partitionTrial with
  | None =>
      match find_first (hasOwn item) ["trial_id"; "trial_manifest_sha256"] with
      | None => None
      | Some f => Some (f +:+ " present on a transport-probe configuration; expected none")
      end
  | Some trial =>
      if negb (bool_decide (as_string (member "trial_id" item) = Some trial)) then
        Some ("trial_id " +:+ describeUntrusted (member "trial_id" item)
              +:+ "; expected the partition trial " +:+ trial)
      else match sha256_of (member "trial_manifest_sha256" item) with
           | Some _ => None
           | None => Some ("trial_manifest_sha256 " +:+ describeUntrusted (member "trial_manifest_sha256" item)
                           +:+ DIGEST_EXPECTATION)
           end
  end.

Definition configTimingProblem (item : StoredItem) : option string :=
  match find_first (fun '(field, coded) => negb (scalar_matches (member field item) (SNum coded)))
          [("safety_release_ms", safety_release_ms); ("treatment_poll_interval_ms", poll_interval_ms)] with
  | None => None
  | Some (field, coded) =>
      Some (field +:+ " " +:+ describeUntrusted (member field item) +:+ "; expected " +:+ string_of_Z coded
            +:+ ", the provider's coded OR-RUA-002 value")
  end.

(** [trialOf]: the digest was proved by [configScopeProblem]. *)
Definition config_trialOf (item : StoredItem) (partitionTrial : string) : CallTrial :=
  MkTrial partitionTrial (key_text "trial_manifest_sha256" item).

Definition decodeConfigItem (item : StoredItem) (partitionTrial : option string) : Result ProviderConfigView string :=
  match or_else (configScopeProblem item partitionTrial) (configTimingProblem item) with
  | Some scope => refuse item scope
  | None =>
      match sha256_of (member "execution_manifest_sha256" item) with
      | None => refuse item ("execution_manifest_sha256 " +:+ describeUntrusted (member "execution_manifest_sha256" item)
                             +:+ DIGEST_EXPECTATION)
      | Some digest =>
      match isOneOf PROVIDER_CALLER_IDS caller_text (member "registered_caller_id" item) with
      | None => refuse item ("registered_caller_id " +:+ describeUntrusted (member "registered_caller_id" item)
                             +:+ "; expected one of " +:+ str_join ", " (map caller_text PROVIDER_CALLER_IDS))
      | Some caller =>
      match isOneOf SCENARIOS scenario_text (member "scenario" item) with
      | None => refuse item ("scenario " +:+ describeUntrusted (member "scenario" item)
                             +:+ "; expected one of " +:+ str_join ", " (map scenario_text SCENARIOS))
      | Some sc =>
      match as_string (member "payment_id" item) with
      | None => refuse item ("payment_id " +:+ describeUntrusted (member "payment_id" item) +:+ "; expected a string")
      | Some paymentId =>
          Ok (MkConfig digest caller sc paymentId (option_map (config_trialOf item) partitionTrial))
      end end end end
  end.

Definition decodeExecutionConfigItem (item : StoredItem) (deployment : ExecutionIdentity) :
  Result ProviderExecutionConfigView string :=
  match parseExecutionIdentityFields item with
  | Err e => refuse item e
  | Ok identity =>
      let kind := member "execution_kind" item in
      if negb (bool_decide (as_string kind = Some (kind_text (execution_kind identity))))
         || negb (sameExecution identity deployment)
      then refuse item ("execution_kind " +:+ describeUntrusted kind +:+ " with " +:+ describeExecution identity
                        +:+ "; expected the deployment execution " +:+ describeExecution deployment)
      else match sha256_of (member "execution_manifest_sha256" item) with
           | None => refuse item ("execution_manifest_sha256 "
                       +:+ describeUntrusted (member "execution_manifest_sha256" item) +:+ DIGEST_EXPECTATION)
           | Some digest => Ok (MkExecutionConfig digest)
           end
  end.

Definition decodePaymentItem (item : StoredItem) : Result PaymentView string :=
  match as_string (member "payment_id" item) with
  | Some paymentId =>
      if bool_decide (key_text "sk" item = paymentSortKey paymentId) then
        match as_string (member "currency" item) with
        | Some currency => Ok (MkPayment paymentId currency)
        | None => refuse item ("currency " +:+ describeUntrusted (member "currency" item) +:+ "; expected a string")
        end
      else refuse item ("payment_id " +:+ describeUntrusted (member "payment_id" item)
                        +:+ "; expected the string that names the item key")
  | None => refuse item ("payment_id " +:+ describeUntrusted (member "payment_id" item)
                         +:+ "; expected the string that names the item key")
  end.

(** *** The treatment item *)

Record TreatmentItem := MkTreatment {
  t_state : TreatmentState;
  t_version : Z;
  t_targeted_attempt_id : option string;
  t_provider_request_id : option string;
  t_provider_call_id : option string;
  t_provider_commit_id : option string;
  t_provider_transaction_id : option string;
  t_commit_event_id : option string;
  t_signal_event_id : option string;
  t_signal_caller_event_id : option string;
  t_observed_event_id : option string;
  t_release_event_id : option string;
  t_safety_release_cause : option SafetyReleaseCause;
}.
#[export] Instance TreatmentItem_eq_dec : EqDecision TreatmentItem.
Proof. solve_decision. Defined.

Definition TREATMENT_ID_FIELDS : list string :=
  ["targeted_attempt_id"; "provider_request_id"; "provider_call_id"; "provider_commit_id"; "provider_transaction_id";
   "commit_event_id"; "signal_event_id"; "signal_caller_event_id"; "observed_event_id"; "release_event_id"].

Definition treatmentOf (state : TreatmentState) (version : Z) (item : StoredItem) (cause : option SafetyReleaseCause) :
  TreatmentItem :=
  let id field := uuid4_of (member field item) in
  MkTreatment state version (id "targeted_attempt_id") (id "provider_request_id") (id "provider_call_id")
    (id "provider_commit_id") (id "provider_transaction_id") (id "commit_event_id") (id "signal_event_id")
    (id "signal_caller_event_id") (id "observed_event_id") (id "release_event_id") cause.

Definition decodeTreatmentItem (item : StoredItem) : Result TreatmentItem string :=
  match isOneOf TREATMENT_STATES state_text (member "state" item) with
  | None => refuse item ("state " +:+ describeUntrusted (member "state" item)
                         +:+ "; expected one of " +:+ str_join ", " (map state_text TREATMENT_STATES))
  | Some state =>
  match (match as_safe_integer (member "version" item) with Some z => if z <? 1 then None else Some z | None => None end) with
  | None => refuse item ("version " +:+ describeUntrusted (member "version" item) +:+ "; expected a safe integer >= 1")
  | Some version =>
  match find_first (fun f => hasOwn item f && negb (bool_decide (is_Some (uuid4_of (member f item))))) TREATMENT_ID_FIELDS with
  | Some malformed => refuse item (malformed +:+ " " +:+ describeUntrusted (member malformed item) +:+ UUID4_EXPECTATION)
  | None =>
  match member "safety_release_cause" item with
  | None => Ok (treatmentOf state version item None)
  | Some _ =>
      match isOneOf SAFETY_RELEASE_CAUSES cause_text (member "safety_release_cause" item) with
      | None => refuse item ("safety_release_cause " +:+ describeUntrusted (member "safety_release_cause" item)
                             +:+ "; expected one of " +:+ str_join ", " (map cause_text SAFETY_RELEASE_CAUSES))
      | Some cause => Ok (treatmentOf state version item (Some cause))
      end
  end end end end.

(** ** Properties *)

Lemma isOneOf_iff {T} (values : list T) (spell : T -> string) v x :
  (forall a, a ∈ values) -> (forall a b, spell a = spell b -> a = b) ->
  isOneOf values spell v = Some x <-> v = Some (JStr (spell x)).
Proof.
  intros Hall Hinj. unfold isOneOf. destruct v as [[| | |s| |]|]; try (split; congruence). split.
  - intros H. apply find_first_Some in H as [_ E]. apply bool_decide_eq_true in E. by subst.
  - intros [= ->]. destruct (find_first _ values) as [y|] eqn:E.
    + apply find_first_Some in E as [_ E]. apply bool_decide_eq_true in E. f_equal. by apply Hinj.
    + pose proof (proj1 (find_first_None _ _) E x (Hall x)) as Hx. simpl in Hx. by apply bool_decide_eq_false in Hx.
Qed.

Lemma state_one_of v x : isOneOf TREATMENT_STATES state_text v = Some x <-> v = Some (JStr (state_text x)).
Proof. apply isOneOf_iff; [intros []; set_solver|by intros [] []]. Qed.
Lemma cause_one_of v x : isOneOf SAFETY_RELEASE_CAUSES cause_text v = Some x <-> v = Some (JStr (cause_text x)).
Proof. apply isOneOf_iff; [intros []; set_solver|by intros [] []]. Qed.
Lemma caller_one_of v x : isOneOf PROVIDER_CALLER_IDS caller_text v = Some x <-> v = Some (JStr (caller_text x)).
Proof. apply isOneOf_iff; [intros []; set_solver|by intros [] []]. Qed.
Lemma scenario_one_of v x : isOneOf SCENARIOS scenario_text v = Some x <-> v = Some (JStr (scenario_text x)).
Proof. apply isOneOf_iff; [intros []; set_solver|by intros [] []]. Qed.

Lemma uuid4_of_iff v s : uuid4_of v = Some s <-> v = Some (JStr s) /\ isUuid4 s = true.
Proof. unfold uuid4_of. destruct v as [[| | |t| |]|]; try (split; [done|by intros [? ?]]). destruct (isUuid4 t) eqn:E; (split; [congruence|intros [? ?]; congruence]) || (split; [intros [= <-]; auto|intros [[= <-] _]; auto]). Qed.
Lemma sha256_of_iff v s : sha256_of v = Some s <-> v = Some (JStr s) /\ isSha256Hex s = true.
Proof. unfold sha256_of. destruct v as [[| | |t| |]|]; try (split; [done|by intros [? ?]]). destruct (isSha256Hex t) eqn:E; (split; [congruence|intros [? ?]; congruence]) || (split; [intros [= <-]; auto|intros [[= <-] _]; auto]). Qed.
Lemma as_string_iff v s : as_string v = Some s <-> v = Some (JStr s).
Proof. unfold as_string. destruct v as [[]|]; split; intros; simplify_eq; auto. Qed.
Lemma as_safe_integer_iff v z : as_safe_integer v = Some z <-> v = Some (JNum (JSInt z)) /\ is_safe_integer z = true.
Proof.
  unfold as_safe_integer. destruct v as [[| |[x|x]| | |]|]; try (split; [done|by intros [? ?]]).
  destruct (is_safe_integer x) eqn:E; (split; [congruence|intros [? ?]; congruence]) || (split; [intros [= <-]; auto|intros [[= <-] _]; auto]).
Qed.

(** The identities of a treatment item by their attribute names. *)
Definition treatment_ids (t : TreatmentItem) : list (string * option string) :=
  zip TREATMENT_ID_FIELDS
    [t_targeted_attempt_id t; t_provider_request_id t; t_provider_call_id t; t_provider_commit_id t;
     t_provider_transaction_id t; t_commit_event_id t; t_signal_event_id t; t_signal_caller_event_id t;
     t_observed_event_id t; t_release_event_id t].

(** The attribute is absent, or is the identity, which is then a UUIDv4. *)
Definition is_identity (item : StoredItem) (f : string * option string) : Prop :=
  member f.1 item = option_map JStr f.2 /\ forall s, f.2 = Some s -> isUuid4 s = true.

Definition is_treatment (item : StoredItem) (t : TreatmentItem) : Prop :=
  member "state" item = Some (JStr (state_text (t_state t)))
  /\ member "version" item = Some (JNum (JSInt (t_version t))) /\ 1 <= t_version t <= MAX_SAFE_INTEGER
  /\ Forall (is_identity item) (treatment_ids t)
  /\ member "safety_release_cause" item = option_map (fun c => JStr (cause_text c)) (t_safety_release_cause t).

Lemma identity_read item f v : is_identity item (f, v) -> uuid4_of (member f item) = v.
Proof.
  intros [H1 H2]. cbn [fst snd] in *. destruct v as [s|]; cbn [option_map] in H1; [by apply uuid4_of_iff; auto|].
  by rewrite H1.
Qed.

Lemma identity_readable item f v :
  is_identity item (f, v) -> hasOwn item f && negb (bool_decide (is_Some (uuid4_of (member f item)))) = false.
Proof.
  intros H. unfold hasOwn. rewrite (identity_read _ _ _ H). destruct H as [H _]. cbn [fst snd] in H. rewrite H.
  by destruct v.
Qed.

Lemma readable_identity item f :
  hasOwn item f && negb (bool_decide (is_Some (uuid4_of (member f item)))) = false ->
  is_identity item (f, uuid4_of (member f item)).
Proof.
  unfold hasOwn, is_identity. cbn [fst snd]. destruct (uuid4_of (member f item)) as [s|] eqn:E; cbn [option_map].
  - apply uuid4_of_iff in E as [E1 E2]. intros _. split; [done|]. by intros ? [= <-].
  - destruct (member f item) as [v|]; [|by split]. intros H. by vm_compute in H.
Qed.

Lemma treatment_item_decodes (item : StoredItem) (t : TreatmentItem) :
  decodeTreatmentItem item = Ok t <-> is_treatment item t.
Proof.
  unfold decodeTreatmentItem, is_treatment. split.
  - intros H. destruct (isOneOf TREATMENT_STATES _ _) as [st|] eqn:Es; [|done]. apply state_one_of in Es.
    destruct (as_safe_integer _) as [z|] eqn:Ev; [|done]. destruct (Z.ltb_spec z 1) as [|Hz]; [done|].
    apply as_safe_integer_iff in Ev as [Ev Hs]. apply andb_prop in Hs as [_ Hs%Z.leb_le].
    destruct (find_first _ TREATMENT_ID_FIELDS) as [|] eqn:Ef; [done|].
    assert (Hid : Forall (fun f => is_identity item (f, uuid4_of (member f item))) TREATMENT_ID_FIELDS).
    { apply Forall_forall. intros f Hf. apply readable_identity. by apply (proj1 (find_first_None _ _) Ef). }
    assert (exists c, t = treatmentOf st z item c
              /\ member "safety_release_cause" item = option_map (fun c => JStr (cause_text c)) c) as (c & -> & Hc).
    { destruct (member "safety_release_cause" item) as [v|] eqn:Ec; [|injection H as <-; by exists None].
      destruct (isOneOf SAFETY_RELEASE_CAUSES _ _) as [c|] eqn:Ei; [|done]. injection H as <-.
      apply cause_one_of in Ei. by exists (Some c). }
    split_and!; [done|done|cbn; lia|cbn; lia| |done].
    unfold TREATMENT_ID_FIELDS in Hid. rewrite !Forall_cons in Hid. unfold treatment_ids, treatmentOf. simpl.
    rewrite !Forall_cons. split_and!; try apply Hid. constructor.
  - intros (Hs & Hv & Hr & Hid & Hc). rewrite (proj2 (state_one_of _ _) Hs).
    assert (Hsafe : is_safe_integer (t_version t) = true) by (unfold is_safe_integer, MAX_SAFE_INTEGER in *; lia).
    rewrite (proj2 (as_safe_integer_iff _ _) (conj Hv Hsafe)).
    destruct (Z.ltb_spec (t_version t) 1); [lia|]. unfold treatment_ids, TREATMENT_ID_FIELDS in *.
    cbn [zip zip_with] in Hid. rewrite !Forall_cons in Hid. destruct Hid as (I1&I2&I3&I4&I5&I6&I7&I8&I9&I10&_).
    cbn [find_first]. rewrite (identity_readable _ _ _ I1), (identity_readable _ _ _ I2), (identity_readable _ _ _ I3),
      (identity_readable _ _ _ I4), (identity_readable _ _ _ I5), (identity_readable _ _ _ I6), (identity_readable _ _ _ I7),
      (identity_readable _ _ _ I8), (identity_readable _ _ _ I9), (identity_readable _ _ _ I10).
    apply identity_read in I1, I2, I3, I4, I5, I6, I7, I8, I9, I10.
    assert (Ht : forall c, treatmentOf (t_state t) (t_version t) item c =
      MkTreatment (t_state t) (t_version t) (t_targeted_attempt_id t) (t_provider_request_id t) (t_provider_call_id t)
       (t_provider_commit_id t) (t_provider_transaction_id t) (t_commit_event_id t) (t_signal_event_id t)
       (t_signal_caller_event_id t) (t_observed_event_id t) (t_release_event_id t) c) by (intros c; unfold treatmentOf; congruence).
    destruct (t_safety_release_cause t) as [c|] eqn:Ec; cbn [option_map] in Hc; rewrite Hc.
    + rewrite (proj2 (cause_one_of _ c) eq_refl), Ht. by destruct t; simplify_eq/=.
    + rewrite Ht. by destruct t; simplify_eq/=.
Qed.

(** C31: The treatment reader accepts exactly the well-formed treatment items: it returns [t]
    iff the stored attributes spell [t]'s state, a positive safe version, each identity as a
    lowercase UUIDv4 or not at all, and the release cause where there is one; nothing is
    lost, invented or defaulted. *)
Theorem treatment_item_codec (item : StoredItem) (t : TreatmentItem) :
  decodeTreatmentItem item = Ok t <-> is_treatment item t.
Proof. apply treatment_item_decodes. Qed.


(** A configuration item of the partition's trial (none for the transport probe). *)
Definition is_configuration (item : StoredItem) (partitionTrial : option string) (v : ProviderConfigView) : Prop :=
  member "safety_release_ms" item = Some (JNum (JSInt safety_release_ms))
  /\ member "treatment_poll_interval_ms" item = Some (JNum (JSInt poll_interval_ms))
  /\ member "execution_manifest_sha256" item = Some (JStr (c_execution_manifest_sha256 v))
  /\ isSha256Hex (c_execution_manifest_sha256 v) = true
  /\ member "registered_caller_id" item = Some (JStr (caller_text (registered_caller_id v)))
  /\ member "scenario" item = Some (JStr (scenario_text (scenario v)))
  /\ member "payment_id" item = Some (JStr (c_payment_id v))
  /\ match partitionTrial, c_trial v with
     | None, None => member "trial_id" item = None /\ member "trial_manifest_sha256" item = None
     | Some tr, Some c =>
         trial_id c = tr /\ member "trial_id" item = Some (JStr tr)
         /\ member "trial_manifest_sha256" item = Some (JStr (trial_manifest_sha256 c))
         /\ isSha256Hex (trial_manifest_sha256 c) = true
     | _, _ => False
     end.

Lemma scalar_num_iff v z : scalar_matches v (SNum z) = true <-> v = Some (JNum (JSInt z)).
Proof.
  unfold scalar_matches. destruct v as [[| |[x|x]| | |]|]; try (split; congruence).
  rewrite bool_decide_eq_true. split; congruence.
Qed.

Lemma configTimingProblem_None item :
  configTimingProblem item = None <->
  member "safety_release_ms" item = Some (JNum (JSInt safety_release_ms))
  /\ member "treatment_poll_interval_ms" item = Some (JNum (JSInt poll_interval_ms)).
Proof.
  unfold configTimingProblem. cbn [find_first]. rewrite <-!scalar_num_iff.
  destruct (scalar_matches (member "safety_release_ms" item) _); simpl; [|naive_solver].
  destruct (scalar_matches (member "treatment_poll_interval_ms" item) _); simpl; naive_solver.
Qed.

Lemma configScopeProblem_None item partitionTrial :
  configScopeProblem item partitionTrial = None <->
  match partitionTrial with
  | None => member "trial_id" item = None /\ member "trial_manifest_sha256" item = None
  | Some tr => member "trial_id" item = Some (JStr tr)
      /\ exists s, member "trial_manifest_sha256" item = Some (JStr s) /\ isSha256Hex s = true
  end.
Proof.
  unfold configScopeProblem. destruct partitionTrial as [tr|].
  - case_bool_decide as E; rewrite as_string_iff in E; cbn [negb]; [|split; [done|tauto]].
    destruct (sha256_of _) as [s|] eqn:Es.
    + apply sha256_of_iff in Es. split; [|done]. intros _. split; [done|]. by exists s.
    + split; [done|]. intros (_ & s & Hs). apply sha256_of_iff in Hs. congruence.
  - cbn [find_first]. unfold hasOwn.
    destruct (member "trial_id" item); [split; [done|by intros [? ?]]|].
    destruct (member "trial_manifest_sha256" item); [split; [done|by intros [? ?]]|]. split; by auto.
Qed.

(** The configuration reader accepts exactly the frozen configuration of its partition: it
    returns [v] iff the item declares the coded barrier timing, a manifest digest, a
    registered caller, a scenario and a payment, and names exactly the partition's trial
    with its manifest digest (or no trial at all for the transport probe). *)
Theorem config_item_codec (item : StoredItem) (partitionTrial : option string) (v : ProviderConfigView) :
  decodeConfigItem item partitionTrial = Ok v <-> is_configuration item partitionTrial v.
Proof.
  unfold decodeConfigItem, is_configuration. split.
  - intros H. destruct (configScopeProblem item partitionTrial) eqn:E1; [done|]. apply configScopeProblem_None in E1.
    destruct (configTimingProblem item) eqn:E2; [done|]. apply configTimingProblem_None in E2 as [T1 T2]. cbn [or_else] in H.
    destruct (sha256_of (member "execution_manifest_sha256" item)) as [dg|] eqn:E3; [|done]. apply sha256_of_iff in E3 as [E3 S3].
    destruct (isOneOf PROVIDER_CALLER_IDS _ _) as [c|] eqn:E4; [|done]. apply caller_one_of in E4.
    destruct (isOneOf SCENARIOS _ _) as [sc|] eqn:E5; [|done]. apply scenario_one_of in E5.
    destruct (as_string _) as [p|] eqn:E6; [|done]. apply as_string_iff in E6. injection H as <-. cbn.
    split_and!; [done..|]. destruct partitionTrial as [tr|]; cbn; [|done].
    destruct E1 as (? & s & Hs & ?). unfold key_text. by rewrite Hs.
  - intros (T1 & T2 & E3 & S3 & E4 & E5 & E6 & E1). destruct v as [dg c sc p tr]. cbn in *.
    assert (configScopeProblem item partitionTrial = None) as ->.
    { apply configScopeProblem_None. destruct partitionTrial, tr; try done. destruct E1 as (_ & ? & ? & ?). eauto. }
    rewrite (proj2 (configTimingProblem_None item) (conj T1 T2)). cbn [or_else].
    rewrite (proj2 (sha256_of_iff _ _) (conj E3 S3)), (proj2 (caller_one_of _ _) E4), (proj2 (scenario_one_of _ _) E5),
      (proj2 (as_string_iff _ _) E6). f_equal. f_equal. destruct partitionTrial as [pt|], tr as [[a b]|]; try done.
    cbn in *. destruct E1 as (-> & _ & E1 & _). unfold config_trialOf, key_text. by rewrite E1.
Qed.

End ControlItems.
