(* ===== verification/Acceptance.v ===== *)
(** * Acceptance of a refund call (src/study-1/src/refund-provider/)

    The partition of a call (provider-partition.ts), the guard of its structure
    (refund-call-shape.ts), the ordered acceptance checks (acceptance.ts) and the
    response to a rejected call (rejected-response.ts). The reference is the JSON
    Schema of the call (record-contract/schemas/group-a/provider_refund_call.schema.json),
    transcribed over a small semantics of the keywords it uses. *)

From Stdlib Require Ascii.
From S2P Require Import Prelude Timestamps Effects Store JsonText LeaseItem Journal ControlItems.
Import Json Store Identifiers JsonText LeaseItem Journal ControlItems.
Open Scope Z_scope.
#[local] Set Warnings "-register-all".

Module Acceptance.

(** ** Partitions *)

Record CallPartition := MkPartition { cp_key : string; cp_trial_id : option string }.

Definition call_member (raw : json) (name : string) : option json :=
  match raw with JObj m => member name m | _ => None end.

Definition resolveCallPartition (deployment : ExecutionIdentity) (raw : json) : option CallPartition :=
  let executionId := executionIdOf deployment in
  match execution_kind deployment with
  | TRANSPORT_PROBE => Some (MkPartition (executionId +:+ "#probe") None)
  | _ =>
      match uuid4_of (call_member raw "trial_id") with
      | Some t => Some (MkPartition (executionId +:+ "#" +:+ t) (Some t))
      | None => None
      end
  end.

Definition callJournalScope (deployment : ExecutionIdentity) (config : ProviderConfigView) : JournalScope :=
  MkScope deployment (c_execution_manifest_sha256 config)
    match c_trial config with
    | None => pt_probe
    | Some t => pt_trial (trial_id t) (trial_manifest_sha256 t)
    end.

Definition warmupJournalScope (deployment : ExecutionIdentity) (manifestSha256 : string) : JournalScope :=
  MkScope deployment manifestSha256 pt_warmup.

Definition unattributedJournalScope (deployment : ExecutionIdentity) (manifestSha256 : string) : JournalScope :=
  MkScope deployment manifestSha256 pt_provider.

(** ** The structure of a call *)

Definition REFUND_CALL_PROPERTIES : list string :=
  ["schema_version"; "record_type"; "caller_id"; "run_id"; "variant_validation_id"; "transport_probe_id";
   "execution_manifest_sha256"; "trial_id"; "trial_manifest_sha256"; "attempt_id"; "provider_request_id";
   "refund_request_id"; "payment_id"; "amount_minor"; "currency"].

(** [/^[A-Z]{3}$/u] *)
Definition CURRENCY_PATTERN (s : string) : bool :=
  Nat.eqb (String.length s) 3
  && forallb (fun c => (65 <=? Ascii.nat_of_ascii c)%nat && (Ascii.nat_of_ascii c <=? 90)%nat) (chars s).

(** [/^\S(.*\S)?$/u] over UTF-8 text: the whitespace characters of [\s] and the line
    terminators [.] excludes, by their bytes. *)
Definition WHITESPACE : list (list nat) :=
  [[9]; [10]; [11]; [12]; [13]; [32]; [194; 160]; [225; 154; 128]; [226; 128; 128]; [226; 128; 129]; [226; 128; 130];
   [226; 128; 131]; [226; 128; 132]; [226; 128; 133]; [226; 128; 134]; [226; 128; 135]; [226; 128; 136]; [226; 128; 137];
   [226; 128; 138]; [226; 128; 168]; [226; 128; 169]; [226; 128; 175]; [226; 129; 159]; [227; 128; 128]; [239; 187; 191]]%nat.
Definition LINE_TERMINATORS : list (list nat) := [[10]; [13]; [226; 128; 168]; [226; 128; 169]]%nat.

Definition starts_with (l p : list nat) : bool := bool_decide (take (length p) l = p).
Definition ends_with (l p : list nat) : bool := starts_with (reverse l) (reverse p).
Fixpoint contains (l p : list nat) : bool :=
  starts_with l p || match l with [] => false | _ :: r => contains r p end.

Definition NONEMPTY_TRIMMED_PATTERN (s : string) : bool :=
  let bytes := map Ascii.nat_of_ascii (chars s) in
  negb (bool_decide (bytes = [])) && negb (existsb (starts_with bytes) WHITESPACE)
  && negb (existsb (ends_with bytes) WHITESPACE) && negb (existsb (contains bytes) LINE_TERMINATORS).

Definition STRING_FIELDS : list string := ["attempt_id"; "provider_request_id"; "refund_request_id"; "payment_id"].

Record RefundCallShape := MkShape {
  s_caller_id : ProviderCallerId;
  s_execution : ExecutionIdentity;
  s_execution_manifest_sha256 : string;
  s_trial : option CallTrial;
  s_attempt_id : string;
  s_provider_request_id : string;
  s_refund_request_id : string;
  s_payment_id : string;
  s_amount_minor : jsnum;
  s_currency : string;
}.

Definition is_string (v : option json) : bool := match v with Some (JStr _) => true | _ => false end.

Definition envelopeProblem (raw : list (string * json)) : option string :=
  match find_first (fun k => negb (memb k REFUND_CALL_PROPERTIES)) (map fst raw) with
  | Some unknown =>
      Some ("property " +:+ excerptUntrusted (JStr unknown) +:+ " is not part of provider_refund_call; expected only "
            +:+ str_join ", " REFUND_CALL_PROPERTIES)
  | None =>
  if negb (scalar_matches (member "schema_version" raw) (SNum 1)) then
    Some ("schema_version is " +:+ describeUntrusted (member "schema_version" raw) +:+ "; expected the number 1")
  else if negb (scalar_matches (member "record_type" raw) (SStr "provider_refund_call")) then
    Some ("record_type is " +:+ describeUntrusted (member "record_type" raw) +:+ "; expected " +:+ quote_json "provider_refund_call")
  else match isOneOf PROVIDER_CALLER_IDS caller_text (member "caller_id" raw) with
  | None => Some ("caller_id is " +:+ describeUntrusted (member "caller_id" raw) +:+ "; expected one of "
                  +:+ str_join ", " (map caller_text PROVIDER_CALLER_IDS))
  | Some _ =>
  match sha256_of (member "execution_manifest_sha256" raw) with
  | None => Some ("execution_manifest_sha256 is " +:+ describeUntrusted (member "execution_manifest_sha256" raw)
                  +:+ DIGEST_EXPECTATION)
  | Some _ => None
  end end end.

Definition businessFieldProblem (raw : list (string * json)) : option string :=
  match find_first (fun f => negb (is_string (member f raw))) STRING_FIELDS with
  | Some missing => Some (missing +:+ " is " +:+ describeUntrusted (member missing raw) +:+ "; expected a string")
  | None =>
  match member "amount_minor" raw with
  | Some (JNum _) =>
      match member "currency" raw with
      | Some (JStr c) =>
          if CURRENCY_PATTERN c then None
          else Some ("currency is " +:+ describeUntrusted (member "currency" raw) +:+ "; expected three uppercase ASCII letters")
      | v => Some ("currency is " +:+ describeUntrusted v +:+ "; expected three uppercase ASCII letters")
      end
  | v => Some ("amount_minor is " +:+ describeUntrusted v +:+ "; expected a JSON number")
  end end.

Definition probeBranch (raw : list (string * json)) : Result (option CallTrial) string :=
  if negb (scalar_matches (member "caller_id" raw) (SStr "probe")) then
    Err ("caller_id is " +:+ describeUntrusted (member "caller_id" raw)
         +:+ " on a transport-probe call; expected " +:+ quote_json "probe")
  else match find_first (hasOwn raw) ["trial_id"; "trial_manifest_sha256"] with
       | Some f => Err (f +:+ " is present on a transport-probe call; expected no trial identity (D-06)")
       | None => Ok None
       end.

Definition trialOf (raw : list (string * json)) (execution : ExecutionIdentity) : Result (option CallTrial) string :=
  if bool_decide (execution_kind execution = TRANSPORT_PROBE) then probeBranch raw
  else if scalar_matches (member "caller_id" raw) (SStr "probe") then
    Err ("caller_id " +:+ quote_json "probe" +:+ " on a " +:+ kind_text (execution_kind execution)
         +:+ " call; expected conventional or durable")
  else match uuid4_of (member "trial_id" raw) with
  | None => Err ("trial_id is " +:+ describeUntrusted (member "trial_id" raw) +:+ UUID4_EXPECTATION)
  | Some t =>
  match sha256_of (member "trial_manifest_sha256" raw) with
  | None => Err ("trial_manifest_sha256 is " +:+ describeUntrusted (member "trial_manifest_sha256" raw) +:+ DIGEST_EXPECTATION)
  | Some digest => Ok (Some (MkTrial t digest))
  end end.

(** The guards proved every type; a cast of a value reads it back. *)
Definition text_of (raw : list (string * json)) (name : string) : string := nullish (as_string (member name raw)) "".
Definition number_of (raw : list (string * json)) (name : string) : jsnum :=
  match member name raw with Some (JNum n) => n | _ => JSOther "NaN" end.

Definition shapeOf (raw : list (string * json)) (execution : ExecutionIdentity) (trial : option CallTrial) : RefundCallShape :=
  MkShape (nullish (isOneOf PROVIDER_CALLER_IDS caller_text (member "caller_id" raw)) probe) execution
    (text_of raw "execution_manifest_sha256") trial (text_of raw "attempt_id") (text_of raw "provider_request_id")
    (text_of raw "refund_request_id") (text_of raw "payment_id") (number_of raw "amount_minor") (text_of raw "currency").

Definition guardRefundCallShape (raw : json) : Result RefundCallShape string :=
  match raw with
  | JObj m =>
      match or_else (envelopeProblem m) (businessFieldProblem m) with
      | Some problem => Err problem
      | None =>
          let! execution := parseExecutionIdentityFields m in
          let! trial := trialOf m execution in
          Ok (shapeOf m execution trial)
      end
  | _ => Err ("call is " +:+ describeUntrusted (Some raw) +:+ "; expected a provider_refund_call JSON object")
  end.

Definition identityStructureViolation (shape : RefundCallShape) : option string :=
  match find_first (fun '(_, v) => negb (isUuid4 v))
          [("attempt_id", s_attempt_id shape); ("provider_request_id", s_provider_request_id shape)] with
  | Some (field, v) => Some (field +:+ " " +:+ excerptUntrusted (JStr v) +:+ UUID4_EXPECTATION)
  | None =>
  match find_first (fun '(_, v) => negb (NONEMPTY_TRIMMED_PATTERN v))
          [("refund_request_id", s_refund_request_id shape); ("payment_id", s_payment_id shape)] with
  | Some (field, v) =>
      Some (field +:+ " " +:+ excerptUntrusted (JStr v) +:+ "; expected a string that is non-empty after trimming")
  | None => None
  end end.

Definition number_text (n : jsnum) : string := match n with JSInt z => string_of_Z z | JSOther s => s end.

Definition amountViolation (shape : RefundCallShape) : option string :=
  if match s_amount_minor shape with JSInt z => is_safe_integer z && (z >=? 1) | JSOther _ => false end then None
  else Some ("amount_minor " +:+ number_text (s_amount_minor shape) +:+ "; expected a safe integer >= 1 (at most "
             +:+ string_of_Z MAX_SAFE_INTEGER +:+ ")").

(** ** Acceptance *)

Record AcceptanceContext := MkContext {
  deployment_execution : ExecutionIdentity;
  trial_configuration : ProviderConfigView;
  payment : option PaymentView;
}.

Record AcceptedCall := MkCall {
  a_caller_id : ProviderCallerId;
  a_attempt_id : string;
  a_provider_request_id : string;
  a_refund_request_id : string;
  a_payment_id : string;
  a_amount_minor : jsnum;
  a_currency : string;
}.

Inductive ProviderRejectionReason :=
  AUTHORIZATION_FAILED | SCHEMA_INVALID | EXECUTION_IDENTITY_MISMATCH | IDENTITY_STRUCTURE_INVALID
| PAYMENT_NOT_FOUND | AMOUNT_INVALID | CURRENCY_MISMATCH.
#[export] Instance ProviderRejectionReason_eq_dec : EqDecision ProviderRejectionReason.
Proof. solve_decision. Defined.

Definition rejection_text (r : ProviderRejectionReason) : string :=
  match r with
  | AUTHORIZATION_FAILED => "AUTHORIZATION_FAILED"
  | SCHEMA_INVALID => "SCHEMA_INVALID"
  | EXECUTION_IDENTITY_MISMATCH => "EXECUTION_IDENTITY_MISMATCH"
  | IDENTITY_STRUCTURE_INVALID => "IDENTITY_STRUCTURE_INVALID"
  | PAYMENT_NOT_FOUND => "PAYMENT_NOT_FOUND"
  | AMOUNT_INVALID => "AMOUNT_INVALID"
  | CURRENCY_MISMATCH => "CURRENCY_MISMATCH"
  end.

Record AcceptanceRejection := reject { r_reason : ProviderRejectionReason; r_detail : string }.
Inductive AcceptanceDecision := accepted (call : AcceptedCall) | rejected (rejection : AcceptanceRejection).

Definition describeTrial (trial : option CallTrial) : string :=
  match trial with
  | None => "none"
  | Some t => trial_id t +:+ " (manifest " +:+ trial_manifest_sha256 t +:+ ")"
  end.

Definition executionOrDigestMismatch (shape : RefundCallShape) (active : ExecutionIdentity) (digest : string) : option string :=
  if negb (sameExecution (s_execution shape) active) then
    Some ("execution " +:+ describeExecution (s_execution shape) +:+ "; expected the active execution " +:+ describeExecution active)
  else if negb (bool_decide (s_execution_manifest_sha256 shape = digest)) then
    Some ("execution_manifest_sha256 " +:+ s_execution_manifest_sha256 shape +:+ "; expected the frozen manifest " +:+ digest)
  else None.

Definition trialMismatch (call configured : option CallTrial) : option string :=
  if bool_decide (option_map trial_id call = option_map trial_id configured)
     && bool_decide (option_map trial_manifest_sha256 call = option_map trial_manifest_sha256 configured)
  then None
  else Some ("trial " +:+ describeTrial call +:+ "; expected the configured trial " +:+ describeTrial configured).

Definition executionMismatch (shape : RefundCallShape) (ctx : AcceptanceContext) : option string :=
  let configuration := trial_configuration ctx in
  or_else (executionOrDigestMismatch shape (deployment_execution ctx) (c_execution_manifest_sha256 configuration))
          (trialMismatch (s_trial shape) (c_trial configuration)).

Definition acceptedCallOf (shape : RefundCallShape) : AcceptedCall :=
  MkCall (s_caller_id shape) (s_attempt_id shape) (s_provider_request_id shape) (s_refund_request_id shape)
    (s_payment_id shape) (s_amount_minor shape) (s_currency shape).

Definition judgeShape (shape : RefundCallShape) (ctx : AcceptanceContext) : AcceptanceDecision :=
  match executionMismatch shape ctx with
  | Some identity => rejected (reject EXECUTION_IDENTITY_MISMATCH identity)
  | None =>
  match identityStructureViolation shape with
  | Some structure => rejected (reject IDENTITY_STRUCTURE_INVALID structure)
  | None =>
      let not_found := rejected (reject PAYMENT_NOT_FOUND
        ("payment_id " +:+ excerptUntrusted (JStr (s_payment_id shape))
         +:+ "; expected a payment that exists in the trial partition")) in
      match payment ctx with
      | None => not_found
      | Some p =>
          if negb (bool_decide (p_payment_id p = s_payment_id shape)) then not_found
          else match amountViolation shape with
          | Some amount => rejected (reject AMOUNT_INVALID amount)
          | None =>
              if negb (bool_decide (s_currency shape = p_currency p)) then
                rejected (reject CURRENCY_MISMATCH
                  ("currency " +:+ quote_json (s_currency shape) +:+ "; expected the payment currency "
                   +:+ excerptUntrusted (JStr (p_currency p))))
              else accepted (acceptedCallOf shape)
          end
      end
  end end.

Definition evaluateAcceptance (raw : json) (ctx : AcceptanceContext) : AcceptanceDecision :=
  let registered := caller_text (registered_caller_id (trial_configuration ctx)) in
  let caller := call_member raw "caller_id" in
  if negb (bool_decide (as_string caller = Some registered)) then
    rejected (reject AUTHORIZATION_FAILED
      ("caller_id " +:+ describeUntrusted caller +:+ "; expected the registered caller " +:+ quote_json registered))
  else match guardRefundCallShape raw with
  | Err e => rejected (reject SCHEMA_INVALID e)
  | Ok shape => judgeShape shape ctx
  end.

Definition judgeUnattributedCall (raw : json) (active : ExecutionIdentity) (digest : string) : AcceptanceRejection :=
  match guardRefundCallShape raw with
  | Err e => reject SCHEMA_INVALID e
  | Ok shape =>
      reject EXECUTION_IDENTITY_MISMATCH
        (nullish (executionOrDigestMismatch shape active digest)
           ("trial " +:+ describeTrial (s_trial shape) +:+ "; expected a trial configured in the active execution "
            +:+ describeExecution active))
  end.

(** ** The response to a rejected call *)

Definition echoedIdentities (raw : json) : list (string * json) :=
  (match uuid4_of (call_member raw "attempt_id") with Some i => [("attempt_id", JStr i)] | None => [] end)
  ++ (match uuid4_of (call_member raw "provider_request_id") with Some i => [("provider_request_id", JStr i)] | None => [] end).

Definition rejectedResponse (providerCallId : string) (raw : json) (r : ProviderRejectionReason) : list (string * json) :=
  [("schema_version", JNum (JSInt 1)); ("record_type", JStr "provider_refund_response"); ("outcome", JStr "REJECTED");
   ("provider_call_id", JStr providerCallId)] ++ echoedIdentities raw ++ [("rejection_reason", JStr (rejection_text r))].

(** ** The JSON Schema of a call *)

(** The keywords the schema uses, with the meaning JSON Schema 2020-12 gives them: a keyword
    constrains only values of its type. A number that is not integral below 1e21 in
    magnitude is outside every integer range used here. *)
Inductive schema : Type :=
| sc_false
| sc_const (v : scalar)
| sc_enum (values : list string)
| sc_text (pattern : string -> bool)
| sc_integer (minimum maximum : Z)
| sc_object
| sc_properties (properties : list (string * schema))
| sc_required (names : list string)
| sc_closed (names : list string)
| sc_all (schemas : list schema)
| sc_oneOf (schemas : list schema)
| sc_if (condition consequent alternative : schema).

Fixpoint valid (s : schema) (v : json) : bool :=
  match s with
  | sc_false => false
  | sc_const c => scalar_matches (Some v) c
  | sc_enum values => match v with JStr t => memb t values | _ => false end
  | sc_text pattern => match v with JStr t => pattern t | _ => false end
  | sc_integer lo hi => match v with JNum (JSInt z) => (lo <=? z) && (z <=? hi) | _ => false end
  | sc_object => match v with JObj _ => true | _ => false end
  | sc_properties properties =>
      match v with
      | JObj m => forallb (fun '(name, p) => match member name m with Some x => valid p x | None => true end) properties
      | _ => true
      end
  | sc_required names => match v with JObj m => forallb (hasOwn m) names | _ => true end
  | sc_closed names => match v with JObj m => forallb (fun k => memb k names) (map fst m) | _ => true end
  | sc_all schemas => forallb (fun p => valid p v) schemas
  | sc_oneOf schemas => Nat.eqb (length (List.filter (fun p => valid p v) schemas)) 1
  | sc_if c a b => if valid c v then valid a v else valid b v
  end.

Definition sc_uuid4 : schema := sc_text isUuid4.
Definition sc_sha256 : schema := sc_text isSha256Hex.
Definition sc_nonempty_trimmed : schema := sc_text NONEMPTY_TRIMMED_PATTERN.
Definition sc_names (field : string) : schema := sc_all [sc_properties [(field, sc_uuid4)]; sc_required [field]].

Definition provider_refund_call_schema : schema :=
  sc_all
    [ sc_object;
      sc_properties
        [("schema_version", sc_const (SNum 1)); ("record_type", sc_const (SStr "provider_refund_call"));
         ("caller_id", sc_enum ["conventional"; "durable"; "probe"]); ("run_id", sc_uuid4);
         ("variant_validation_id", sc_uuid4); ("transport_probe_id", sc_uuid4); ("execution_manifest_sha256", sc_sha256);
         ("trial_id", sc_uuid4); ("trial_manifest_sha256", sc_sha256); ("attempt_id", sc_uuid4);
         ("provider_request_id", sc_uuid4); ("refund_request_id", sc_nonempty_trimmed);
         ("payment_id", sc_nonempty_trimmed); ("amount_minor", sc_integer 1 9007199254740991);
         ("currency", sc_text CURRENCY_PATTERN)];
      sc_required
        ["schema_version"; "record_type"; "caller_id"; "execution_manifest_sha256"; "attempt_id"; "provider_request_id";
         "refund_request_id"; "payment_id"; "amount_minor"; "currency"];
      sc_oneOf [sc_names "run_id"; sc_names "variant_validation_id"; sc_names "transport_probe_id"];
      sc_if (sc_names "transport_probe_id")
        (sc_properties [("caller_id", sc_const (SStr "probe")); ("trial_id", sc_false); ("trial_manifest_sha256", sc_false)])
        (sc_all [sc_properties [("caller_id", sc_enum ["conventional"; "durable"]); ("trial_id", sc_uuid4);
                                ("trial_manifest_sha256", sc_sha256)];
                 sc_required ["trial_id"; "trial_manifest_sha256"]]);
      sc_closed REFUND_CALL_PROPERTIES ].

(** ** What a well-formed call is *)

(** The member spells a string that satisfies the pattern. *)
Definition spells (m : list (string * json)) (name : string) (p : string -> bool) : Prop :=
  exists s, member name m = Some (JStr s) /\ p s = true.

Definition no_member (m : list (string * json)) (name : string) : Prop := member name m = None.

(** Exactly one execution identity, and the branch of its kind. *)
Definition well_identified (m : list (string * json)) : Prop :=
  (no_member m "run_id" /\ no_member m "variant_validation_id" /\ spells m "transport_probe_id" isUuid4
   /\ member "caller_id" m = Some (JStr "probe") /\ no_member m "trial_id" /\ no_member m "trial_manifest_sha256")
  \/ (no_member m "transport_probe_id"
      /\ (spells m "run_id" isUuid4 /\ no_member m "variant_validation_id"
          \/ no_member m "run_id" /\ spells m "variant_validation_id" isUuid4)
      /\ (member "caller_id" m = Some (JStr "conventional") \/ member "caller_id" m = Some (JStr "durable"))
      /\ spells m "trial_id" isUuid4 /\ spells m "trial_manifest_sha256" isSha256Hex).

Definition well_structured (m : list (string * json)) : Prop :=
  Forall (fun k => k ∈ REFUND_CALL_PROPERTIES) (map fst m)
  /\ member "schema_version" m = Some (JNum (JSInt 1)) /\ member "record_type" m = Some (JStr "provider_refund_call")
  /\ spells m "execution_manifest_sha256" isSha256Hex /\ well_identified m
  /\ Forall (fun f => is_Some (as_string (member f m))) STRING_FIELDS
  /\ (exists n, member "amount_minor" m = Some (JNum n)) /\ spells m "currency" CURRENCY_PATTERN.

Definition well_valued (m : list (string * json)) : Prop :=
  spells m "attempt_id" isUuid4 /\ spells m "provider_request_id" isUuid4
  /\ spells m "refund_request_id" NONEMPTY_TRIMMED_PATTERN /\ spells m "payment_id" NONEMPTY_TRIMMED_PATTERN
  /\ exists z, member "amount_minor" m = Some (JNum (JSInt z)) /\ 1 <= z <= MAX_SAFE_INTEGER.

(** ** Lemmas *)

Lemma hasOwn_false m f : hasOwn m f = false <-> no_member m f.
Proof. unfold hasOwn, no_member. rewrite bool_decide_eq_false, <-eq_None_not_Some. done. Qed.

Lemma scalar_str_iff v t : scalar_matches v (SStr t) = true <-> v = Some (JStr t).
Proof.
  unfold scalar_matches. destruct v as [[| |[]|x| |]|]; try (split; congruence).
  rewrite bool_decide_eq_true. split; congruence.
Qed.

Lemma spells_uuid4 m f : spells m f isUuid4 <-> is_Some (uuid4_of (member f m)).
Proof. unfold spells, is_Some. by setoid_rewrite uuid4_of_iff. Qed.
Lemma spells_sha256 m f : spells m f isSha256Hex <-> is_Some (sha256_of (member f m)).
Proof. unfold spells, is_Some. by setoid_rewrite sha256_of_iff. Qed.

Lemma envelopeProblem_None m :
  envelopeProblem m = None <->
  Forall (fun k => k ∈ REFUND_CALL_PROPERTIES) (map fst m)
  /\ member "schema_version" m = Some (JNum (JSInt 1)) /\ member "record_type" m = Some (JStr "provider_refund_call")
  /\ (exists c, member "caller_id" m = Some (JStr (caller_text c))) /\ spells m "execution_manifest_sha256" isSha256Hex.
Proof.
  unfold envelopeProblem. rewrite <-scalar_num_iff, <-scalar_str_iff, spells_sha256. setoid_rewrite <-caller_one_of.
  destruct (find_first _ (map fst m)) as [k|] eqn:Ek.
  - apply find_first_Some in Ek as [Hk Hn]. split; [done|]. intros (H & _). rewrite Forall_forall in H.
    apply negb_true_iff, memb_false in Hn. by destruct Hn; apply H.
  - assert (Forall (fun k => k ∈ REFUND_CALL_PROPERTIES) (map fst m)) as Hall.
    { apply Forall_forall. intros k Hk. pose proof (proj1 (find_first_None _ _) Ek k Hk) as Hb.
      apply negb_false_iff, memb_true in Hb. done. }
    destruct (scalar_matches (member "schema_version" m) _); simpl; [|naive_solver].
    destruct (scalar_matches (member "record_type" m) _); simpl; [|naive_solver].
    destruct (isOneOf _ _ _) as [c|]; [|split; [done|by intros (_ & _ & _ & [? ?] & _)]].
    destruct (sha256_of _); [|split; [done|by intros (_ & _ & _ & _ & [? ?])]]. split; [|done]. by eauto 10.
Qed.

Lemma is_string_iff v : is_string v = true <-> is_Some (as_string v).
Proof. destruct v as [[]|]; simpl; split; intros H; try done; by destruct H. Qed.

Lemma businessFieldProblem_None m :
  businessFieldProblem m = None <->
  Forall (fun f => is_Some (as_string (member f m))) STRING_FIELDS
  /\ (exists n, member "amount_minor" m = Some (JNum n)) /\ spells m "currency" CURRENCY_PATTERN.
Proof.
  unfold businessFieldProblem. destruct (find_first _ STRING_FIELDS) as [f|] eqn:Ef.
  - apply find_first_Some in Ef as [Hf Hn]. split; [done|]. intros (H & _). rewrite Forall_forall in H.
    apply negb_true_iff in Hn. apply H, is_string_iff in Hf. congruence.
  - assert (Forall (fun f => is_Some (as_string (member f m))) STRING_FIELDS) as Hall.
    { apply Forall_forall. intros f Hf. pose proof (proj1 (find_first_None _ _) Ef f Hf) as Hb.
      by apply negb_false_iff, is_string_iff in Hb. }
    unfold spells. destruct (member "amount_minor" m) as [[| |n| | |]|]; try (split; [done|by intros (_ & [? ?] & _)]).
    destruct (member "currency" m) as [[| | |c| |]|]; try (split; [done|by intros (_ & _ & ? & ? & _)]).
    destruct (CURRENCY_PATTERN c) eqn:Ec.
    + split; [|done]. intros _. split; [done|]. split; [by exists n|]. by exists c.
    + split; [done|]. intros (_ & _ & s & [= <-] & Hs). congruence.
Qed.

(** The member is this UUIDv4. *)
Definition names (m : list (string * json)) (f i : string) : Prop := member f m = Some (JStr i) /\ isUuid4 i = true.

Definition only_identity (m : list (string * json)) (e : ExecutionIdentity) : Prop :=
  match e with
  | id_run i => names m "run_id" i /\ no_member m "variant_validation_id" /\ no_member m "transport_probe_id"
  | id_variant_validation i => names m "variant_validation_id" i /\ no_member m "run_id" /\ no_member m "transport_probe_id"
  | id_transport_probe i => names m "transport_probe_id" i /\ no_member m "run_id" /\ no_member m "variant_validation_id"
  end.

Lemma parse_identity_iff m e : parseExecutionIdentityFields m = Ok e <-> only_identity m e.
Proof.
  unfold parseExecutionIdentityFields, EXECUTION_IDENTITY_FIELDS. cbn [List.filter fst].
  assert (Hn : forall f i, names m f i <-> uuid4_of (member f m) = Some i) by (intros; symmetry; apply uuid4_of_iff).
  assert (Hp : forall f i, names m f i -> hasOwn m f = true) by (intros f i [H _]; unfold hasOwn; by rewrite H).
  unfold only_identity. destruct (hasOwn m "run_id") eqn:E1, (hasOwn m "variant_validation_id") eqn:E2,
    (hasOwn m "transport_probe_id") eqn:E3; cbn [map fst];
    try (match goal with |- context [uuid4_of ?v] => destruct (uuid4_of v) as [id|] eqn:Eu end);
    (split; [intros H; first [discriminate H|injection H as <-; cbn [executionIdentityOf]]; rewrite <-!hasOwn_false, Hn; done|]);
    destruct e as [i|i|i]; rewrite <-!hasOwn_false; intros (Hi & Ha & Hb);
    pose proof (Hp _ _ Hi); rewrite ?Hn in Hi; cbn [executionIdentityOf]; congruence.
Qed.

(** The trial of a call of this execution kind. *)
Definition call_trial (m : list (string * json)) (e : ExecutionIdentity) (t : option CallTrial) : Prop :=
  if bool_decide (execution_kind e = TRANSPORT_PROBE) then
    t = None /\ member "caller_id" m = Some (JStr "probe") /\ no_member m "trial_id" /\ no_member m "trial_manifest_sha256"
  else member "caller_id" m <> Some (JStr "probe")
    /\ exists c, t = Some c /\ names m "trial_id" (trial_id c)
         /\ member "trial_manifest_sha256" m = Some (JStr (trial_manifest_sha256 c))
         /\ isSha256Hex (trial_manifest_sha256 c) = true.

Lemma trialOf_iff m e t : trialOf m e = Ok t <-> call_trial m e t.
Proof.
  unfold trialOf, call_trial. case_bool_decide.
  - unfold probeBranch. cbn [find_first]. rewrite <-scalar_str_iff, <-!hasOwn_false.
    destruct (scalar_matches _ _); cbn [negb]; [|naive_solver].
    destruct (hasOwn m "trial_id"); [naive_solver|]. destruct (hasOwn m "trial_manifest_sha256"); naive_solver.
  - rewrite <-scalar_str_iff. destruct (scalar_matches _ _); [split; [done|by intros [[] _]]|].
    destruct (uuid4_of (member "trial_id" m)) as [i|] eqn:Ei.
    + destruct (sha256_of (member "trial_manifest_sha256" m)) as [d|] eqn:Ed.
      * apply uuid4_of_iff in Ei. apply sha256_of_iff in Ed as [Ed Hd]. split.
        -- intros [= <-]. split; [done|]. by exists (MkTrial i d).
        -- intros (_ & [ti td] & -> & [Hi _] & Hd' & _). cbn in *. destruct Ei as [Ei _]. congruence.
      * split; [done|]. intros (_ & c & _ & _ & Hc). apply sha256_of_iff in Hc. congruence.
    + split; [done|]. intros (_ & c & _ & Hc & _). apply uuid4_of_iff in Hc. congruence.
Qed.

Lemma guard_iff raw shape :
  guardRefundCallShape raw = Ok shape <->
  exists m e t, raw = JObj m /\ envelopeProblem m = None /\ businessFieldProblem m = None
    /\ only_identity m e /\ call_trial m e t /\ shape = shapeOf m e t.
Proof.
  destruct raw as [| | | | |m]; try (split; [done|by intros (? & ? & ? & ? & _)]).
  cbn [guardRefundCallShape]. split.
  - intros H. destruct (envelopeProblem m) eqn:E1; [done|]. destruct (businessFieldProblem m) eqn:E2; [done|].
    cbn [or_else] in H. apply bind_result_ok in H as (e & He & H). apply bind_result_ok in H as (t & Ht & H).
    injection H as <-. exists m, e, t. by rewrite <-parse_identity_iff, <-trialOf_iff.
  - intros (? & e & t & [= <-] & -> & -> & He & Ht & ->). apply parse_identity_iff in He. apply trialOf_iff in Ht.
    cbn [or_else]. by rewrite He; cbn [bind_result]; rewrite Ht.
Qed.

Lemma identified_iff m :
  well_identified m <->
  (exists c, member "caller_id" m = Some (JStr (caller_text c))) /\ exists e t, only_identity m e /\ call_trial m e t.
Proof.
  unfold well_identified, call_trial, spells. split.
  - intros [(H1 & H2 & (i & H3 & H3') & H4 & H5 & H6)|(H1 & H2 & H3 & (tr & H4 & H4') & (d & H5 & H5'))].
    + split; [by exists probe|]. by exists (id_transport_probe i), None.
    + split; [destruct H3; [by exists conventional|by exists durable]|].
      assert (Hc : member "caller_id" m <> Some (JStr "probe")) by (destruct H3 as [->| ->]; done).
      destruct H2 as [[(i & H2 & H2') Hn]|[Hn (i & H2 & H2')]];
        [exists (id_run i), (Some (MkTrial tr d))|exists (id_variant_validation i), (Some (MkTrial tr d))];
        (split; [done|split; [done|by exists (MkTrial tr d)]]).
  - intros ((c & Hc) & e & t & He & Ht). destruct e as [i|i|i]; cbn in He; destruct He as ([Hi Hu] & H1 & H2).
    + destruct Ht as (Hp & tr & -> & [Ht Htu] & Hd & Hs). right. split_and!; [done|left; eauto| |eauto..].
      rewrite Hc in *. destruct c; auto. done.
    + destruct Ht as (-> & Hp & Ht & Hd). left. split_and!; eauto.
    + destruct Ht as (Hp & tr & -> & [Ht Htu] & Hd & Hs). right. split_and!; [done|right; eauto| |eauto..].
      rewrite Hc in *. destruct c; auto. done.
Qed.

Lemma well_structured_iff m :
  well_structured m <-> exists shape, guardRefundCallShape (JObj m) = Ok shape.
Proof.
  setoid_rewrite guard_iff. unfold well_structured. rewrite identified_iff. split.
  - intros (H1 & H2 & H3 & H4 & (H5 & e & t & He & Ht) & H6 & H7 & H8). exists (shapeOf m e t), m, e, t.
    by rewrite envelopeProblem_None, businessFieldProblem_None.
  - intros (shape & ? & e & t & [= <-] & (H1 & H2 & H3 & H4 & H5)%envelopeProblem_None &
      (H6 & H7 & H8)%businessFieldProblem_None & He & Ht & _). by eauto 15.
Qed.

Lemma spells_text m f p : (exists s, member f m = Some (JStr s)) -> spells m f p <-> p (text_of m f) = true.
Proof.
  intros [s Hs]. unfold spells, text_of. rewrite Hs. cbn. split; [by intros (? & [= <-] & ?)|eauto].
Qed.

Lemma well_valued_iff m e t :
  well_structured m ->
  well_valued m <-> identityStructureViolation (shapeOf m e t) = None /\ amountViolation (shapeOf m e t) = None.
Proof.
  intros (_ & _ & _ & _ & _ & Hs & [n Hn] & _). unfold STRING_FIELDS in Hs. rewrite !Forall_cons in Hs.
  destruct Hs as ([s1 H1%as_string_iff] & [s2 H2%as_string_iff] & [s3 H3%as_string_iff] & [s4 H4%as_string_iff] & _).
  unfold well_valued. rewrite !spells_text by eauto.
  unfold identityStructureViolation, amountViolation, shapeOf, number_of. cbn. rewrite Hn.
  destruct (isUuid4 (text_of m "attempt_id")); cbn; [|naive_solver].
  destruct (isUuid4 (text_of m "provider_request_id")); cbn; [|naive_solver].
  destruct (NONEMPTY_TRIMMED_PATTERN (text_of m "refund_request_id")); cbn; [|naive_solver].
  destruct (NONEMPTY_TRIMMED_PATTERN (text_of m "payment_id")); cbn; [|naive_solver].
  destruct n as [z|z].
  - destruct (is_safe_integer z && (z >=? 1)) eqn:E; unfold is_safe_integer in E.
    + split; [done|]. intros _. split_and!; [done..|]. exists z. split; [done|]. lia.
    + split; [|by intros [_ ?]]. intros (_ & _ & _ & _ & z' & [= <-] & Hz). unfold MAX_SAFE_INTEGER in *. lia.
  - split; [|by intros [_ ?]]. by intros (_ & _ & _ & _ & z' & ? & _).
Qed.

(** *** The schema *)

Definition optional (m : list (string * json)) (f : string) (s : schema) : bool :=
  match member f m with Some x => valid s x | None => true end.

Lemma optional_required m f s :
  optional m f s = true /\ hasOwn m f = true <-> exists x, member f m = Some x /\ valid s x = true.
Proof.
  unfold optional, hasOwn. rewrite bool_decide_eq_true. destruct (member f m) as [x|].
  - split; [intros [? _]; eauto|by intros (? & [= <-] & ?)].
  - split; [by intros [_ [? ?]]|by intros (? & ? & _)].
Qed.

Lemma required_text m f p : (exists x, member f m = Some x /\ valid (sc_text p) x = true) <-> spells m f p.
Proof.
  unfold spells. split; [|intros (s & Hs & Hp); by exists (JStr s)].
  intros (x & Hx & Hv). destruct x; try done. eauto.
Qed.

Lemma required_const m f c : (exists x, member f m = Some x /\ valid (sc_const c) x = true) <-> scalar_matches (member f m) c = true.
Proof. split; [by intros (x & -> & H)|]. destruct (member f m) as [x|]; [eauto|by destruct c]. Qed.

Lemma required_integer m f lo hi :
  (exists x, member f m = Some x /\ valid (sc_integer lo hi) x = true)
  <-> exists z, member f m = Some (JNum (JSInt z)) /\ lo <= z <= hi.
Proof.
  split.
  - intros (x & Hx & Hv). destruct x as [| |[z|]| | |]; try done. cbn in Hv. exists z. split; [done|lia].
  - intros (z & Hz & H). exists (JNum (JSInt z)). split; [done|]. cbn. lia.
Qed.

Lemma optional_text m f p : optional m f (sc_text p) = true <-> no_member m f \/ spells m f p.
Proof.
  unfold optional, no_member, spells. destruct (member f m) as [x|]; [|naive_solver].
  split; [|intros [?|(s & [= ->] & ?)]; done]. intros H. right. destruct x; try done. eauto.
Qed.

Lemma optional_false m f : optional m f sc_false = true <-> no_member m f.
Proof. unfold optional, no_member. by destruct (member f m). Qed.

Lemma valid_names m f : valid (sc_names f) (JObj m) = true <-> spells m f isUuid4.
Proof.
  rewrite <-required_text, <-optional_required. unfold sc_names. cbn [valid forallb].
  change (match member f m with Some x => valid sc_uuid4 x | None => true end) with (optional m f sc_uuid4).
  rewrite !andb_true_r, andb_true_iff. done.
Qed.

Lemma one_of_three a b c (x y z : bool) :
  (x = true <-> a) -> (y = true <-> b) -> (z = true <-> c) ->
  Nat.eqb (length ((if x then [tt] else []) ++ (if y then [tt] else []) ++ if z then [tt] else [])) 1 = true
  <-> (a /\ ~ b /\ ~ c \/ ~ a /\ b /\ ~ c \/ ~ a /\ ~ b /\ c).
Proof. intros <- <- <-. destruct x, y, z; cbn; naive_solver. Qed.

Lemma caller_member m : 
  (exists x, member "caller_id" m = Some x /\ valid (sc_enum ["conventional"; "durable"; "probe"]) x = true)
  <-> exists c, member "caller_id" m = Some (JStr (caller_text c)).
Proof.
  split.
  - intros (x & Hx & Hv). destruct x as [| | |t| |]; try done. apply memb_true in Hv.
    rewrite !elem_of_cons in Hv. destruct Hv as [->|[->|[->|Hv]]]; [by exists conventional|by exists durable|by exists probe|].
    by apply elem_of_nil in Hv.
  - intros (c & Hc). eexists. split; [done|]. by destruct c.
Qed.

Lemma valid_all l v : valid (sc_all l) v = forallb (fun p => valid p v) l.
Proof. done. Qed.
Lemma valid_properties l m : valid (sc_properties l) (JObj m) = forallb (fun f => optional m f.1 f.2) l.
Proof. cbn [valid]. induction l as [|[f p] l IH]; [done|]. cbn [forallb]. by rewrite IH. Qed.
Lemma valid_required l m : valid (sc_required l) (JObj m) = forallb (hasOwn m) l.
Proof. done. Qed.
Lemma valid_closed l m : valid (sc_closed l) (JObj m) = true <-> Forall (fun k => k ∈ l) (map fst m).
Proof.
  cbn [valid]. rewrite forallb_forall, Forall_forall. setoid_rewrite memb_true. by setoid_rewrite list_elem_of_In.
Qed.

Lemma valid_oneOf m :
  valid (sc_oneOf [sc_names "run_id"; sc_names "variant_validation_id"; sc_names "transport_probe_id"]) (JObj m) = true <->
  let r := spells m "run_id" isUuid4 in let v := spells m "variant_validation_id" isUuid4 in
  let p := spells m "transport_probe_id" isUuid4 in
  (r /\ ~ v /\ ~ p \/ ~ r /\ v /\ ~ p \/ ~ r /\ ~ v /\ p).
Proof.
  cbn zeta. rewrite <-(one_of_three _ _ _ _ _ _ (valid_names m "run_id") (valid_names m "variant_validation_id")
    (valid_names m "transport_probe_id")).
  remember (sc_names "run_id") as a. remember (sc_names "variant_validation_id") as b. remember (sc_names "transport_probe_id") as c.
  cbn [valid List.filter]. by destruct (valid a _), (valid b _), (valid c _).
Qed.

Lemma spells_absent m f p : spells m f p -> no_member m f -> False.
Proof. intros (s & H & _) H'. unfold no_member in H'. congruence. Qed.

(** The identity part of the schema. *)
Lemma schema_identity m :
  (exists c, member "caller_id" m = Some (JStr (caller_text c))) ->
  (no_member m "run_id" \/ spells m "run_id" isUuid4) ->
  (no_member m "variant_validation_id" \/ spells m "variant_validation_id" isUuid4) ->
  (no_member m "transport_probe_id" \/ spells m "transport_probe_id" isUuid4) ->
  (valid (sc_oneOf [sc_names "run_id"; sc_names "variant_validation_id"; sc_names "transport_probe_id"]) (JObj m) = true
   /\ valid (sc_if (sc_names "transport_probe_id")
        (sc_properties [("caller_id", sc_const (SStr "probe")); ("trial_id", sc_false); ("trial_manifest_sha256", sc_false)])
        (sc_all [sc_properties [("caller_id", sc_enum ["conventional"; "durable"]); ("trial_id", sc_uuid4);
                                ("trial_manifest_sha256", sc_sha256)];
                 sc_required ["trial_id"; "trial_manifest_sha256"]])) (JObj m) = true)
  <-> well_identified m.
Proof.
  intros [c Hc] Hr Hv Hp. rewrite valid_oneOf. cbn zeta.
  assert (Hown : hasOwn m "caller_id" = true) by (unfold hasOwn; by rewrite Hc).
  assert (Habs : forall f q, spells m f q -> no_member m f -> False) by apply spells_absent.
  assert (Hif : forall a b, valid (sc_if (sc_names "transport_probe_id") a b) (JObj m) = true <->
    (spells m "transport_probe_id" isUuid4 /\ valid a (JObj m) = true
     \/ no_member m "transport_probe_id" /\ valid b (JObj m) = true)).
  { intros a b. remember (sc_names "transport_probe_id") as s eqn:Es. cbn [valid]. subst s.
    pose proof (valid_names m "transport_probe_id") as Hn. destruct (valid (sc_names _) _); naive_solver. }
  rewrite Hif, valid_all. cbn [forallb]. rewrite !valid_properties, valid_required. cbn [forallb fst snd].
  rewrite !andb_true_r, !andb_true_iff, !optional_false.
  assert (optional m "caller_id" (sc_const (SStr "probe")) = true <-> member "caller_id" m = Some (JStr "probe")) as ->.
  { unfold optional. rewrite Hc. cbn. rewrite bool_decide_eq_true. split; congruence. }
  assert (optional m "caller_id" (sc_enum ["conventional"; "durable"]) = true
    <-> member "caller_id" m = Some (JStr "conventional") \/ member "caller_id" m = Some (JStr "durable")) as ->.
  { unfold optional. rewrite Hc. destruct c; cbn; split; auto; try done. by intros [?|?]. }
  pose proof (required_text m "trial_id" isUuid4) as Ht. rewrite <-optional_required in Ht.
  pose proof (required_text m "trial_manifest_sha256" isSha256Hex) as Hd. rewrite <-optional_required in Hd.
  unfold well_identified, sc_uuid4, sc_sha256 in *. split.
  - intros [H1 [(H2 & H3 & H4 & H5)|(H2 & (H3 & H4 & H5) & H6 & H7)]].
    + left. destruct H1 as [(_ & _ & H)|[(_ & _ & H)|(H & H' & _)]]; [by destruct H..|].
      destruct Hr as [Hr|]; [|by destruct H]. destruct Hv as [Hv|]; [|by destruct H']. auto 10.
    + right. split; [done|]. split.
      { destruct H1 as [(H & H' & _)|[(H & H' & _)|(_ & _ & H)]]; [left|right|by destruct (Habs _ _ H)].
        - destruct Hv as [Hv|]; [auto|by destruct H'].
        - destruct Hr as [Hr|]; [auto|by destruct H]. }
      split; [done|]. split; [by apply Ht|by apply Hd].
  - intros [(H1 & H2 & H3 & H4 & H5 & H6)|(H1 & H2 & H3 & H4%Ht & H5%Hd)].
    + split; [|left; auto 10]. right. right. split; [|split]; eauto.
    + split; [|right; destruct H4, H5; auto 10]. destruct H2 as [[H2 H2']|[H2 H2']]; [left|right; left]; split_and!; eauto.
Qed.

Definition needs (m : list (string * json)) (f : string) (s : schema) : Prop :=
  exists x, member f m = Some x /\ valid s x = true.

(** The schema without its identity part, member by member. *)
Lemma schema_members m :
  valid provider_refund_call_schema (JObj m) = true <->
  Forall (fun k => k ∈ REFUND_CALL_PROPERTIES) (map fst m)
  /\ needs m "schema_version" (sc_const (SNum 1)) /\ needs m "record_type" (sc_const (SStr "provider_refund_call"))
  /\ (exists c, member "caller_id" m = Some (JStr (caller_text c))) /\ spells m "execution_manifest_sha256" isSha256Hex
  /\ well_identified m /\ spells m "attempt_id" isUuid4 /\ spells m "provider_request_id" isUuid4
  /\ spells m "refund_request_id" NONEMPTY_TRIMMED_PATTERN /\ spells m "payment_id" NONEMPTY_TRIMMED_PATTERN
  /\ needs m "amount_minor" (sc_integer 1 9007199254740991) /\ spells m "currency" CURRENCY_PATTERN.
Proof.
  unfold provider_refund_call_schema. rewrite valid_all. cbn [forallb].
  rewrite valid_properties, valid_required. cbn [forallb fst snd]. rewrite !andb_true_iff, valid_closed.
  rewrite <-!required_text, <-caller_member. unfold needs. setoid_rewrite <-optional_required. split.
  - intros (_ & (P1 & P2 & P3 & P4 & P5 & P6 & P7 & P8 & P9 & P10 & P11 & P12 & P13 & P14 & P15 & _)
      & (R1 & R2 & R3 & R4 & R5 & R6 & R7 & R8 & R9 & R10 & _) & Ho & Hi & Hcl & _).
    assert (well_identified m); [|by auto 20].
    apply schema_identity; [|by apply optional_text..|by split]. apply caller_member, optional_required. by split.
  - intros (Hcl & [P1 R1] & [P2 R2] & [P3 R3] & [P7 R4] & Hid & [P10 R5] & [P11 R6] & [P12 R7] & [P13 R8] & [P14 R9] & [P15 R10]).
    assert (Hopt : forall f q, no_member m f \/ spells m f q -> optional m f (sc_text q) = true) by (intros; by apply optional_text).
    assert (Ho : (no_member m "run_id" \/ spells m "run_id" isUuid4) /\
      (no_member m "variant_validation_id" \/ spells m "variant_validation_id" isUuid4) /\
      (no_member m "transport_probe_id" \/ spells m "transport_probe_id" isUuid4) /\
      (no_member m "trial_id" \/ spells m "trial_id" isUuid4) /\
      (no_member m "trial_manifest_sha256" \/ spells m "trial_manifest_sha256" isSha256Hex)).
    { destruct Hid as [(? & ? & ? & ? & ? & ?)|(? & [[? ?]|[? ?]] & ? & ? & ?)]; auto 10. }
    destruct Ho as (Hr & Hv & Hp & Ht & Hd).
    assert (Hc : exists c, member "caller_id" m = Some (JStr (caller_text c))) by (by apply caller_member, optional_required).
    apply (schema_identity m Hc Hr Hv Hp) in Hid as [Ho Hi].
    split_and!; try done; apply Hopt; done.
Qed.

Lemma spells_some m f p : spells m f p -> is_Some (as_string (member f m)).
Proof. intros (s & -> & _). by exists s. Qed.

Lemma schema_iff m : valid provider_refund_call_schema (JObj m) = true <-> well_structured m /\ well_valued m.
Proof.
  rewrite schema_members. unfold needs, well_structured, well_valued.
  rewrite !required_const, scalar_num_iff, scalar_str_iff, required_integer. split.
  - intros (H1 & H2 & H3 & H4 & H5 & H6 & H7 & H8 & H9 & H10 & (z & Hz & Hr) & H12).
    split; [|by eauto 10]. split_and!; [done..| |by eauto|done].
    unfold STRING_FIELDS. rewrite !Forall_cons. split_and!; eauto using spells_some.
  - intros [(H1 & H2 & H3 & H4 & H5 & _ & _ & H8) (H9 & H10 & H11 & H12 & H13)].
    pose proof (proj1 (identified_iff m) H5) as [Hc _]. by split_and!.
Qed.

(** The hand-written guard accepts exactly what the JSON Schema of a refund call accepts:
    the structure check together with the identity check and the amount check pass on a
    payload iff it is valid against the schema, whatever JSON value the payload is. *)
Theorem refund_call_guard_is_schema (raw : json) :
  valid provider_refund_call_schema raw = true <->
  exists shape, guardRefundCallShape raw = Ok shape
    /\ identityStructureViolation shape = None /\ amountViolation shape = None.
Proof.
  destruct raw as [| | | | |m]; try (split; [done|by intros (? & ? & _)]).
  rewrite schema_iff. split.
  - intros [Hs Hv]. pose proof Hs as Hs'. apply well_structured_iff in Hs' as [shape H]. exists shape. split; [done|].
    apply guard_iff in H as (? & e & t & [= <-] & _ & _ & _ & _ & ->). by apply well_valued_iff.
  - intros (shape & H & Hv). assert (Hs : well_structured m) by (apply well_structured_iff; eauto). split; [done|].
    apply guard_iff in H as (? & e & t & [= <-] & _ & _ & _ & _ & ->). by eapply well_valued_iff.
Qed.

(** ** The ordered checks *)

(** What each check of design 9.10 demands of the payload and of what the provider knows. *)
Definition check (ctx : AcceptanceContext) (raw : json) (r : ProviderRejectionReason) : Prop :=
  let cfg := trial_configuration ctx in
  match r with
  | AUTHORIZATION_FAILED => call_member raw "caller_id" = Some (JStr (caller_text (registered_caller_id cfg)))
  | SCHEMA_INVALID => exists m, raw = JObj m /\ well_structured m
  | EXECUTION_IDENTITY_MISMATCH =>
      exists m, raw = JObj m /\ only_identity m (deployment_execution ctx)
        /\ member "execution_manifest_sha256" m = Some (JStr (c_execution_manifest_sha256 cfg))
        /\ call_trial m (deployment_execution ctx) (c_trial cfg)
  | IDENTITY_STRUCTURE_INVALID =>
      exists m, raw = JObj m /\ spells m "attempt_id" isUuid4 /\ spells m "provider_request_id" isUuid4
        /\ spells m "refund_request_id" NONEMPTY_TRIMMED_PATTERN /\ spells m "payment_id" NONEMPTY_TRIMMED_PATTERN
  | PAYMENT_NOT_FOUND =>
      exists p, payment ctx = Some p /\ call_member raw "payment_id" = Some (JStr (p_payment_id p))
  | AMOUNT_INVALID =>
      exists z, call_member raw "amount_minor" = Some (JNum (JSInt z)) /\ 1 <= z <= MAX_SAFE_INTEGER
  | CURRENCY_MISMATCH =>
      exists p, payment ctx = Some p /\ call_member raw "currency" = Some (JStr (p_currency p))
  end.

Definition rank (r : ProviderRejectionReason) : nat :=
  match r with
  | AUTHORIZATION_FAILED => 1
  | SCHEMA_INVALID => 2
  | EXECUTION_IDENTITY_MISMATCH => 3
  | IDENTITY_STRUCTURE_INVALID => 4
  | PAYMENT_NOT_FOUND => 5
  | AMOUNT_INVALID => 6
  | CURRENCY_MISMATCH => 7
  end.

(** The accepted call carries the payload's own values. *)
Definition is_call (raw : json) (c : AcceptedCall) : Prop :=
  call_member raw "caller_id" = Some (JStr (caller_text (a_caller_id c)))
  /\ call_member raw "attempt_id" = Some (JStr (a_attempt_id c))
  /\ call_member raw "provider_request_id" = Some (JStr (a_provider_request_id c))
  /\ call_member raw "refund_request_id" = Some (JStr (a_refund_request_id c))
  /\ call_member raw "payment_id" = Some (JStr (a_payment_id c))
  /\ call_member raw "amount_minor" = Some (JNum (a_amount_minor c))
  /\ call_member raw "currency" = Some (JStr (a_currency c)).

Lemma sameExecution_iff a b : sameExecution a b = true <-> a = b.
Proof.
  unfold sameExecution. rewrite andb_true_iff, !bool_decide_eq_true. split; [|by intros ->].
  destruct a, b; cbn; intros [H1 H2]; congruence.
Qed.

Lemma trialMismatch_None a b : trialMismatch a b = None <-> a = b.
Proof.
  unfold trialMismatch. destruct (_ && _) eqn:E.
  - split; [|done]. intros _. apply andb_prop in E as [E1%bool_decide_eq_true E2%bool_decide_eq_true].
    destruct a as [[]|], b as [[]|]; cbn in *; congruence.
  - split; [done|]. intros ->. rewrite !bool_decide_eq_true_2 in E by done. done.
Qed.

Lemma text_of_iff m f s : is_Some (as_string (member f m)) -> text_of m f = s <-> member f m = Some (JStr s).
Proof.
  intros [t Ht]. unfold text_of. rewrite Ht. apply as_string_iff in Ht. rewrite Ht. cbn. split; congruence.
Qed.

Lemma only_identity_inj m a b : only_identity m a -> only_identity m b -> a = b.
Proof.
  unfold only_identity, names, no_member. destruct a, b; intros ([? ?] & ? & ?) ([? ?] & ? & ?); congruence.
Qed.

Lemma call_trial_inj m e a b : call_trial m e a -> call_trial m e b -> a = b.
Proof.
  unfold call_trial, names. case_bool_decide; [intros [-> _] [-> _]; done|].
  intros (_ & [] & -> & [H1 _] & H2 & _) (_ & [] & -> & [H3 _] & H4 & _). cbn in *. congruence.
Qed.

(** The execution check on a well-structured call. *)
Lemma executionMismatch_None m e t ctx :
  well_structured m -> only_identity m e -> call_trial m e t ->
  executionMismatch (shapeOf m e t) ctx = None <-> check ctx (JObj m) EXECUTION_IDENTITY_MISMATCH.
Proof.
  intros (_ & _ & _ & Hd%spells_some & _) He Ht. unfold executionMismatch, executionOrDigestMismatch. cbn.
  pose proof (text_of_iff m _ (c_execution_manifest_sha256 (trial_configuration ctx)) Hd) as Hdt.
  pose proof (sameExecution_iff e (deployment_execution ctx)) as Hse.
  pose proof (trialMismatch_None t (c_trial (trial_configuration ctx))) as Htm.
  assert (Hx : check ctx (JObj m) EXECUTION_IDENTITY_MISMATCH <->
    e = deployment_execution ctx /\ text_of m "execution_manifest_sha256" = c_execution_manifest_sha256 (trial_configuration ctx)
    /\ t = c_trial (trial_configuration ctx)).
  { cbn. rewrite Hdt. split.
    - intros (? & [= <-] & H1 & H2 & H3). assert (e = deployment_execution ctx) as -> by (by eapply only_identity_inj).
      split_and!; [done..|by eapply call_trial_inj].
    - intros (<- & H2 & <-). eauto. }
  rewrite <-Hse, <-Htm in Hx. cbn in Hx. rewrite Hx. destruct (sameExecution e _); cbn; [|by split; [|intros [? _]]].
  case_bool_decide; cbn; [tauto|]. split; [done|tauto].
Qed.

(** The checks on values of a well-structured call. *)
Lemma identity_check_iff m e t ctx :
  well_structured m ->
  identityStructureViolation (shapeOf m e t) = None <-> check ctx (JObj m) IDENTITY_STRUCTURE_INVALID.
Proof.
  intros (_ & _ & _ & _ & _ & Hs & _). unfold STRING_FIELDS in Hs. rewrite !Forall_cons in Hs.
  destruct Hs as ([s1 H1%as_string_iff] & [s2 H2%as_string_iff] & [s3 H3%as_string_iff] & [s4 H4%as_string_iff] & _).
  transitivity (spells m "attempt_id" isUuid4 /\ spells m "provider_request_id" isUuid4
    /\ spells m "refund_request_id" NONEMPTY_TRIMMED_PATTERN /\ spells m "payment_id" NONEMPTY_TRIMMED_PATTERN).
  - rewrite !spells_text by eauto. unfold identityStructureViolation, shapeOf. cbn.
    destruct (isUuid4 (text_of m "attempt_id")); cbn; [|naive_solver].
    destruct (isUuid4 (text_of m "provider_request_id")); cbn; [|naive_solver].
    destruct (NONEMPTY_TRIMMED_PATTERN (text_of m "refund_request_id")); cbn; [|naive_solver].
    destruct (NONEMPTY_TRIMMED_PATTERN (text_of m "payment_id")); cbn; naive_solver.
  - cbn. split; [by eauto 10|]. by intros (? & [= <-] & ?).
Qed.

Lemma amount_check_iff m e t ctx :
  well_structured m -> amountViolation (shapeOf m e t) = None <-> check ctx (JObj m) AMOUNT_INVALID.
Proof.
  intros (_ & _ & _ & _ & _ & _ & [n Hn] & _). unfold amountViolation, shapeOf, number_of. cbn. rewrite Hn.
  destruct n as [z|z]; [|split; [done|by intros (? & ? & _)]].
  destruct (is_safe_integer z && (z >=? 1)) eqn:E; unfold is_safe_integer in E.
  - split; [|done]. intros _. exists z. split; [done|]. lia.
  - split; [done|]. intros (z' & [= <-] & Hz). unfold MAX_SAFE_INTEGER in *. lia.
Qed.

Lemma shape_is_call m e t c :
  well_structured m -> member "caller_id" m = Some (JStr (caller_text c)) ->
  is_call (JObj m) (acceptedCallOf (shapeOf m e t)).
Proof.
  intros (_ & _ & _ & _ & _ & Hs & [n Hn] & Hcur%spells_some) Hc. unfold STRING_FIELDS in Hs. rewrite !Forall_cons in Hs.
  destruct Hs as (H1 & H2 & H3 & H4 & _). unfold is_call, shapeOf, acceptedCallOf, number_of. cbn. rewrite Hn.
  rewrite (proj2 (caller_one_of _ _) Hc). cbn. split_and!; [done|..|done|]; by apply text_of_iff.
Qed.

(** The judgement of a structured call that passed the first two checks. *)
Definition judged (ctx : AcceptanceContext) (raw : json) (d : AcceptanceDecision) : Prop :=
  match d with
  | accepted call => (forall r, check ctx raw r) /\ is_call raw call
  | rejected rej => ~ check ctx raw (r_reason rej) /\ forall r, (rank r < rank (r_reason rej))%nat -> check ctx raw r
  end.

Lemma judgeShape_judged m e t ctx :
  check ctx (JObj m) AUTHORIZATION_FAILED -> well_structured m -> only_identity m e -> call_trial m e t ->
  judged ctx (JObj m) (judgeShape (shapeOf m e t) ctx).
Proof.
  intros C1 Hs He Ht. assert (C2 : check ctx (JObj m) SCHEMA_INVALID) by (cbn; eauto).
  pose proof (executionMismatch_None m e t ctx Hs He Ht) as Q3. pose proof (identity_check_iff m e t ctx Hs) as Q4.
  pose proof (amount_check_iff m e t ctx Hs) as Q6. unfold judgeShape.
  destruct (executionMismatch _ _) as [x|].
  { split; [intros H; by apply Q3 in H|]. intros [] Hr; cbn in Hr; first [done|lia]. }
  pose proof (proj1 Q3 eq_refl) as C3. destruct (identityStructureViolation _) as [x|].
  { split; [intros H; by apply Q4 in H|]. intros [] Hr; cbn in Hr; first [done|lia]. }
  pose proof (proj1 Q4 eq_refl) as C4.
  assert (Hpay : is_Some (as_string (member "payment_id" m))).
  { destruct Hs as (_ & _ & _ & _ & _ & Hs & _). rewrite Forall_forall in Hs. apply Hs. unfold STRING_FIELDS. set_solver. }
  destruct (payment ctx) as [p|] eqn:Ep.
  2: { split; [cbn; rewrite Ep; by intros (? & ? & _)|]. intros [] Hr; cbn in Hr; first [done|lia]. }
  pose proof (text_of_iff m _ (p_payment_id p) Hpay) as Qp. cbn [s_payment_id shapeOf].
  case_bool_decide as Hp; cbn [negb].
  2: { split; [cbn; rewrite Ep; intros (? & [= <-] & Hc); by apply Qp in Hc|]. intros [] Hr; cbn in Hr; first [done|lia]. }
  assert (C5 : check ctx (JObj m) PAYMENT_NOT_FOUND) by (cbn; rewrite Ep; exists p; split; [done|by apply Qp]).
  destruct (amountViolation _) as [x|].
  { split; [intros H; by apply Q6 in H|]. intros [] Hr; cbn in Hr; first [done|lia]. }
  pose proof (proj1 Q6 eq_refl) as C6.
  assert (Hcur : is_Some (as_string (member "currency" m))) by (destruct Hs as (_ & _ & _ & _ & _ & _ & _ & Hs); by eapply spells_some).
  pose proof (text_of_iff m _ (p_currency p) Hcur) as Qc. cbn [s_currency shapeOf].
  case_bool_decide as Hc; cbn [negb].
  2: { split; [cbn; rewrite Ep; intros (? & [= <-] & Hx); by apply Qc in Hx|]. intros [] Hr; cbn in Hr; first [done|lia]. }
  split; [|by eapply shape_is_call].
  intros []; try done. cbn. rewrite Ep. exists p. split; [done|]. by apply Qc.
Qed.

(** Acceptance is the ordered list of seven checks. A call is accepted exactly when every
    check holds of the payload, the configuration and the payment, and then carries the
    payload's own identities and amount; a rejection names the first check that fails, every
    earlier one holding. Nothing else (no approved refund, no limit, no deduplication)
    decides. *)
Theorem acceptance_ordered (raw : json) (ctx : AcceptanceContext) :
  match evaluateAcceptance raw ctx with
  | accepted call => (forall r, check ctx raw r) /\ is_call raw call
  | rejected rej => ~ check ctx raw (r_reason rej) /\ forall r, (rank r < rank (r_reason rej))%nat -> check ctx raw r
  end.
Proof.
  unfold evaluateAcceptance. case_bool_decide as Hc; cbn [negb].
  2: { rewrite as_string_iff in Hc. split; [done|]. intros []; cbn; lia. }
  apply as_string_iff in Hc. destruct (guardRefundCallShape raw) as [shape|x] eqn:Eg.
  - assert (Hg := Eg). apply guard_iff in Hg as (m & e & t & -> & _ & _ & He & Ht & ->).
    apply judgeShape_judged; [done|by apply well_structured_iff; eauto|done..].
  - split; [|intros [] Hr; cbn in Hr; first [done|lia]].
    cbn. intros (m & -> & [shape Hs]%well_structured_iff). congruence.
Qed.

End Acceptance.
