(* ===== verification/Provider.v ===== *)
(** * The controlled refund provider (src/study-1/src/refund-provider/)

    The state port over the durable store (provider-state-port.ts), the commit plan
    and its execution (commit-plan.ts, commit-execution.ts), the treatment barrier
    (barrier-decision.ts, treatment-barrier.ts), the rejection of a call without a
    trial (unattributed-call.ts) and the handling of one call (refund-provider.ts),
    composed as provider-composition.ts does.

    One invocation owns one journal writer; its fields and the barrier's wait state
    are the private state [ProvState]. The barrier's [for (;;)] takes a number of
    turns; [None] means the wait has not ended within them. SHA-256 is a parameter. *)

From S2P Require Import Prelude Timestamps Effects Store JsonText LeaseItem Journal Money ControlItems Acceptance.
Import Json Store Utc JsonText LeaseItem Journal ControlItems Acceptance.
Open Scope Z_scope.

Module Provider.

(** ** Effects, faults and state *)

Inductive OwnEff : Type -> Type :=
| GetControl (k : ItemKey) : OwnEff (Result (option StoredItem) string)
| Transact (actions : list WriteAction) (token : string) : OwnEff WriteOutcome
| NextUuid : OwnEff string
| WallNow : OwnEff (option Z)
| NowNs : OwnEff Z
| Sleep (ms : Z) : OwnEff unit
| Log (provider_call_id code detail : string) : OwnEff unit.

Definition ProvEff (R : Type) : Type := (JournalEff R + OwnEff R)%type.

Inductive ProviderFaultCode :=
  UNATTRIBUTABLE_CALL | CONFIGURATION_MISSING | STATE_UNREADABLE | JOURNAL_STOPPED | COMMIT_FAILED | COMMIT_AMBIGUOUS
| TREATMENT_UNEXPECTED | TRANSITION_AMBIGUOUS | WARMUP_REQUEST_INVALID.
Inductive FaultPhase := before_commit | commit_unknown | after_commit.

Record ProviderFault := MkFault {
  f_code : ProviderFaultCode;
  f_phase : FaultPhase;
  f_call_id : string;
  f_detail : string;
}.

(** What an invocation may throw: a fault of the provider, or an error of the code it calls. *)
Inductive thrown := fault (f : ProviderFault) | other (e : js_error).

Inductive CommittedWaitState := cw_waiting | cw_signalled | cw_observed.
#[export] Instance CommittedWaitState_eq_dec : EqDecision CommittedWaitState.
Proof. solve_decision. Defined.
Definition wait_of (s : CommittedWaitState) : TreatmentState :=
  match s with cw_waiting => COMMITTED_WAITING | cw_signalled => TIMEOUT_SIGNALLED | cw_observed => TIMEOUT_OBSERVED end.

Record ProvState := MkProv {
  deps : JournalWriterDeps;
  journal : JournalWriter;
  waitState : CommittedWaitState;
}.

Abbreviation PM := (SE ProvEff ProvState thrown).

Definition own {R} (e : OwnEff R) : PM R := se_perform (inr e : ProvEff R).
Definition throw_fault {A} (c : ProviderFaultCode) (p : FaultPhase) (callId d : string) : PM A :=
  se_throw (fault (MkFault c p callId d)).
(** A pure step that may throw. *)
Definition pure_step {A} (r : Result A js_error) : PM A :=
  match r with Ok a => se_ret a | Err e => se_throw (other e) end.

Fixpoint lift {A} (p : proc JournalEff A) : proc ProvEff A :=
  match p with
  | Ret a => Ret a
  | Vis e k => Vis (inl e : ProvEff _) (fun r => lift (k r))
  end.

Definition set_journal (j : JournalWriter) (s : ProvState) : ProvState := MkProv (deps s) j (waitState s).
Definition set_wait (c : CommittedWaitState) (s : ProvState) : ProvState := MkProv (deps s) (journal s) c.

(** A method of the journal writer of this invocation. *)
Definition on_journal {A} (m : JournalWriterDeps -> JM A) : PM A :=
  fun s => pbind (lift (m (deps s) (journal s))) (fun '(j, r) =>
    Ret (set_journal j s, match r with Ok a => Ok a | Err e => Err (other e) end)).

Definition journal_append (type : string) (body : list (string * json)) (causation : list string) : PM AppendResult :=
  on_journal (fun d s => append_run d type body causation (append_called s)).
Definition journal_prepare (type : string) (body : list (string * json)) (causation : list string) :
  PM (PreparedJournalPut + JournalStopped) :=
  on_journal (fun d => prepare d type body causation).
Definition journal_confirm (p : PreparedJournalPut) (outcome : WriteOutcome) (index : Z) : PM ConfirmResult :=
  on_journal (fun _ => confirm p outcome index).

Definition eventId (e : JournalEvent) : string := text_of e "event_id".

(** ** The state port *)

Definition TRANSITION_JOURNAL_ACTION_INDEX : Z := 1.

Record ProviderStateReadFailure := MkReadFailure { rf_code : string; rf_detail : string }.

Definition readControl {T} (pk sk : string) (decode : StoredItem -> Result T string) :
  PM (Result (option T) ProviderStateReadFailure) :=
  (read <- own (GetControl (MkKey pk sk)) ;;
   se_ret match read with
          | Err code => Err (MkReadFailure code ("control read " +:+ pk +:+ "/" +:+ sk +:+ " failed: " +:+ code))
          | Ok None => Ok None
          | Ok (Some item) =>
              match decode item with
              | Ok v => Ok (Some v)
              | Err e => Err (MkReadFailure "UndecodableItem" e)
              end
          end)%se.

Definition loadTrialConfiguration (p : CallPartition) := readControl (cp_key p) CONFIG_SORT_KEY (fun i => decodeConfigItem i (cp_trial_id p)).
Definition loadExecutionConfiguration (d : ExecutionIdentity) :=
  readControl (executionConfigPartition d) CONFIG_SORT_KEY (fun i => decodeExecutionConfigItem i d).
Definition loadPayment (partition paymentId : string) := readControl partition (paymentSortKey paymentId) decodePaymentItem.
Definition loadTreatment (partition : string) := readControl partition TREATMENT_SORT_KEY decodeTreatmentItem.

(** The transaction of one conditional treatment transition with its provider event. *)
Definition transition_actions (partition : string) (from to : TreatmentState) (set : list (string * json))
    (event : PreparedJournalPut) : list WriteAction :=
  [update control (MkKey partition TREATMENT_SORT_KEY) (set ++ [("state", JStr (state_text to))]) [("version", 1)]
     (attribute_equals "state" (SStr (state_text from)));
   journalPutAction experiment_journal (put_entry event)].

(** ** The commit plan *)

Definition LEDGER_SORT_KEY_PREFIX : string := "tx#".
Definition COMMIT_JOURNAL_ACTION_INDEX : Z := 1.

Inductive CommitKind := targeted | untargeted.
#[export] Instance CommitKind_eq_dec : EqDecision CommitKind.
Proof. solve_decision. Defined.

Record CommitIdentities := MkIdentities { provider_commit_id : string; provider_transaction_id : string }.
Record CommitIds := MkIds { identities : CommitIdentities; commit_event_id : string }.

Record CommitPlan := MkPlan {
  plan_kind : CommitKind;
  plan_ids : CommitIds;
  plan_call_id : string;
  plan_requested_at : string;
  plan_actions : list WriteAction;
  treatment_action_index : option Z;
}.

Definition drawCommitIdentities : PM CommitIdentities :=
  (c <- own NextUuid ;; t <- own NextUuid ;; se_ret (MkIdentities c t))%se.

Definition commitEventBody (call : AcceptedCall) (providerCallId : string) (ids : CommitIdentities) (is_targeted : bool)
    (requestedAt : string) : list (string * json) :=
  [("provider_commit_id", JStr (provider_commit_id ids)); ("provider_transaction_id", JStr (provider_transaction_id ids));
   ("provider_call_id", JStr providerCallId); ("attempt_id", JStr (a_attempt_id call));
   ("provider_request_id", JStr (a_provider_request_id call)); ("refund_request_id", JStr (a_refund_request_id call));
   ("payment_id", JStr (a_payment_id call)); ("amount_minor", JNum (a_amount_minor call)); ("currency", JStr (a_currency call));
   ("targeted", JBool is_targeted); ("commit_requested_at", JStr requestedAt)].

Definition ledgerSortKey (providerTransactionId : string) : string := LEDGER_SORT_KEY_PREFIX +:+ providerTransactionId.

Definition ledgerTransactionOf (call : AcceptedCall) (providerCallId : string) (ids : CommitIdentities) (requestedAt : string) :
  list (string * json) :=
  [("provider_transaction_id", JStr (provider_transaction_id ids)); ("provider_commit_id", JStr (provider_commit_id ids));
   ("provider_call_id", JStr providerCallId); ("attempt_id", JStr (a_attempt_id call));
   ("provider_request_id", JStr (a_provider_request_id call)); ("refund_request_id", JStr (a_refund_request_id call));
   ("payment_id", JStr (a_payment_id call)); ("amount_minor", JNum (a_amount_minor call)); ("currency", JStr (a_currency call));
   ("status", JStr "SUCCEEDED"); ("commit_requested_at", JStr requestedAt)].

Definition ledgerItem (partition : string) (call : AcceptedCall) (providerCallId : string) (ids : CommitIdentities)
    (requestedAt : string) : StoredItem :=
  [("pk", JStr partition); ("sk", JStr (ledgerSortKey (provider_transaction_id ids)))]
  ++ ledgerTransactionOf call providerCallId ids requestedAt.

Definition consumeTreatment (partition : string) (call : AcceptedCall) (providerCallId : string) (ids : CommitIds) : WriteAction :=
  update control (MkKey partition TREATMENT_SORT_KEY)
    [("state", JStr "COMMITTED_WAITING"); ("targeted_attempt_id", JStr (a_attempt_id call));
     ("provider_request_id", JStr (a_provider_request_id call)); ("provider_call_id", JStr providerCallId);
     ("provider_commit_id", JStr (provider_commit_id (identities ids)));
     ("provider_transaction_id", JStr (provider_transaction_id (identities ids)));
     ("commit_event_id", JStr (commit_event_id ids))]
    [("version", 1)] (attribute_equals "state" (SStr "ARMED")).

Definition planCommit (kind : CommitKind) (partition : string) (call : AcceptedCall) (providerCallId : string)
    (ids : CommitIdentities) (requestedAt : string) (commit_event : PreparedJournalPut) : CommitPlan :=
  let all_ids := MkIds ids (eventId (event (put_entry commit_event))) in
  let shared :=
    [put ledger (ledgerItem partition call providerCallId ids requestedAt) (Some item_absent);
     journalPutAction experiment_journal (put_entry commit_event)] in
  match kind with
  | untargeted => MkPlan kind all_ids providerCallId requestedAt shared None
  | targeted => MkPlan kind all_ids providerCallId requestedAt
                  (shared ++ [consumeTreatment partition call providerCallId all_ids]) (Some (Z.of_nat (length shared)))
  end.

Definition commitToken (plan : CommitPlan) : string := provider_commit_id (identities (plan_ids plan)).

Definition state_commit (plan : CommitPlan) : PM WriteOutcome := own (Transact (plan_actions plan) (commitToken plan)).

(** ** Executing the commit *)

Record CommitRequest := MkRequest {
  cr_partition : string;
  cr_call : AcceptedCall;
  cr_call_id : string;
  accepted_event_id : string;
  cr_kind : CommitKind;
}.

Record CommittedPlan := MkCommitted { cm_plan : CommitPlan; ack_ns : Z; ack_wall : option Z }.
Record ConfirmedCommit := MkConfirmed { cc_plan : CommitPlan; commit_ack_ns : Z; confirmed_event_id : string }.

Definition ids_of (plan : CommitPlan) : CommitIdentities := identities (plan_ids plan).
Definition is_kind_targeted (k : CommitKind) : bool := bool_decide (k = targeted).

Definition recordCommitFailure (request : CommitRequest) (plan : CommitPlan) (outcome : WriteOutcome) : PM CommittedPlan :=
  let errorCode := match outcome with definitive_failure c => c | _ => "TransactionConditionFailed" end in
  let detail := "commit " +:+ provider_commit_id (ids_of plan) +:+ " not applied: " +:+ describeWriteOutcome outcome
                +:+ "; expected applied" in
  (failed <- journal_append "provider_commit_failed"
     [("provider_commit_id", JStr (provider_commit_id (ids_of plan)));
      ("provider_transaction_id", JStr (provider_transaction_id (ids_of plan)));
      ("provider_call_id", JStr (cr_call_id request)); ("targeted", JBool (is_kind_targeted (plan_kind plan)));
      ("error_code", JStr errorCode); ("detail", JStr detail)]
     [accepted_event_id request] ;;
   match failed with
   | ap_stopped s =>
       throw_fault JOURNAL_STOPPED before_commit (cr_call_id request)
         ("provider_commit_failed not recorded (" +:+ stop_text (stop_reason s) +:+ "); " +:+ detail)
   | ap_appended _ => throw_fault COMMIT_FAILED before_commit (cr_call_id request) detail
   end)%se.

(** One plan and its transaction, and what follows from its outcome; [again] is the
    untargeted plan after a lost treatment race. *)
Definition attempt_once (request : CommitRequest) (kind : CommitKind) (again : PM CommittedPlan) : PM CommittedPlan :=
  (ids <- drawCommitIdentities ;;
   now <- own WallNow ;;
   requestedAt <- pure_step (formatUtcMillis now) ;;
   prepared <- journal_prepare "provider_transaction_committed"
     (commitEventBody (cr_call request) (cr_call_id request) ids (is_kind_targeted kind) requestedAt) [accepted_event_id request] ;;
   match prepared with
   | inr s =>
       throw_fault JOURNAL_STOPPED before_commit (cr_call_id request)
         ("provider_transaction_committed not prepared (" +:+ stop_text (stop_reason s) +:+ "); expected a writable source instance")
   | inl p =>
       let plan := planCommit kind (cr_partition request) (cr_call request) (cr_call_id request) ids requestedAt p in
       outcome <- state_commit plan ;;
       ackNs <- own NowNs ;;
       ackWall <- own WallNow ;;
       confirmed <- journal_confirm p outcome COMMIT_JOURNAL_ACTION_INDEX ;;
       match confirmed with
       | cf_result (ap_appended _) => se_ret (MkCommitted plan ackNs ackWall)
       | cf_result (ap_stopped s) =>
           throw_fault (if bool_decide (stop_reason s = AMBIGUOUS_APPEND) then COMMIT_AMBIGUOUS else JOURNAL_STOPPED)
             commit_unknown (cr_call_id request)
             ("commit " +:+ provider_commit_id ids +:+ " outcome " +:+ describeWriteOutcome outcome
              +:+ " stopped the instance (" +:+ stop_text (stop_reason s) +:+ "); expected applied or definitively not applied")
       | cf_not_applied _ _ =>
           match outcome with
           | condition_failed i _ =>
               if bool_decide (treatment_action_index plan = Some i) then again
               else recordCommitFailure request plan outcome
           | _ => recordCommitFailure request plan outcome
           end
       end
   end)%se.

(** An untargeted plan has no treatment action, so it never plans again. *)
Lemma untargeted_plans_once request again again' :
  attempt_once request untargeted again = attempt_once request untargeted again'.
Proof. reflexivity. Qed.

(** [attemptCommit] calls itself at most once: what an untargeted attempt would plan again is
    immaterial ([untargeted_plans_once]). *)
Definition attemptCommit (request : CommitRequest) (kind : CommitKind) : PM CommittedPlan :=
  let last := attempt_once request untargeted (se_throw (other (PlainError ""))) in
  match kind with
  | untargeted => last
  | targeted => attempt_once request targeted last
  end.

Definition executeCommit (request : CommitRequest) : PM ConfirmedCommit :=
  (attempt <- attemptCommit request (cr_kind request) ;;
   let plan := cm_plan attempt in
   committedAt <- pure_step (formatUtcMillis (ack_wall attempt)) ;;
   confirmed <- journal_append "provider_commit_confirmed"
     [("provider_commit_id", JStr (provider_commit_id (ids_of plan)));
      ("provider_transaction_id", JStr (provider_transaction_id (ids_of plan)));
      ("provider_call_id", JStr (cr_call_id request)); ("committed_at", JStr committedAt)]
     [commit_event_id (plan_ids plan)] ;;
   match confirmed with
   | ap_stopped s =>
       throw_fault JOURNAL_STOPPED after_commit (cr_call_id request)
         ("provider_commit_confirmed not recorded (" +:+ stop_text (stop_reason s) +:+ "); expected a writable source instance")
   | ap_appended e => se_ret (MkConfirmed plan (ack_ns attempt) (eventId e))
   end)%se.

(** ** The treatment barrier *)

Inductive BarrierStep :=
| observe (signal_event_id : string)
| release (observed_event_id : string)
| safety_release (from_state : CommittedWaitState)
| externally_released (cause : SafetyReleaseCause)
| keep_waiting
| unexpected_state (detail : string).

Definition unexpected (t : TreatmentItem) (ownCommitId : string) : BarrierStep :=
  unexpected_state ("treatment " +:+ state_text (t_state t) +:+ " for commit " +:+ nullish (t_provider_commit_id t) "none"
    +:+ "; expected a wait owned by commit " +:+ ownCommitId
    +:+ " in COMMITTED_WAITING, TIMEOUT_SIGNALLED, TIMEOUT_OBSERVED or SAFETY_RELEASED").

Definition signalledStep (t : TreatmentItem) (deadlinePassed : bool) : BarrierStep :=
  match t_signal_event_id t with
  | Some id => observe id
  | None => if deadlinePassed then safety_release cw_signalled else keep_waiting
  end.

Definition observedStep (t : TreatmentItem) (ownCommitId : string) : BarrierStep :=
  match t_observed_event_id t with
  | None => unexpected t ownCommitId
  | Some id => release id
  end.

Definition decideBarrierStep (treatment : option TreatmentItem) (ownCommitId : string)
    (elapsedSinceCommitNs safetyReleaseNs : Z) : BarrierStep :=
  let deadlinePassed := elapsedSinceCommitNs >=? safetyReleaseNs in
  match treatment with
  | None => if deadlinePassed then safety_release cw_waiting else keep_waiting
  | Some t =>
      if negb (bool_decide (t_provider_commit_id t = Some ownCommitId)) then unexpected t ownCommitId
      else match t_state t with
           | TIMEOUT_SIGNALLED => signalledStep t deadlinePassed
           | TIMEOUT_OBSERVED => observedStep t ownCommitId
           | COMMITTED_WAITING => if deadlinePassed then safety_release cw_waiting else keep_waiting
           | SAFETY_RELEASED => externally_released (nullish (t_safety_release_cause t) CLEANUP_REQUEST)
           | ARMED | RESPONSE_RELEASED => unexpected t ownCommitId
           end
  end.

(** [isCommittedWaitState], with the wait state it proves. *)
Definition isCommittedWaitState (s : option TreatmentState) : option CommittedWaitState :=
  match s with
  | Some COMMITTED_WAITING => Some cw_waiting
  | Some TIMEOUT_SIGNALLED => Some cw_signalled
  | Some TIMEOUT_OBSERVED => Some cw_observed
  | _ => None
  end.

Definition latestWaitState (s : option TreatmentState) (previous : CommittedWaitState) : CommittedWaitState :=
  nullish (isCommittedWaitState s) previous.

Record BarrierCommit := MkBarrierCommit {
  bc_partition : string;
  bc_commit_id : string;
  bc_call_id : string;
  bc_attempt_id : string;
  bc_commit_event_id : string;
  bc_ack_ns : Z;
}.

Inductive BarrierOutcome := bo_released | bo_safety_released | bo_externally_released (cause : SafetyReleaseCause).
Inductive TransitionResult := tr_applied (event_id : string) | tr_superseded (current : TreatmentItem) | tr_not_applied.
Inductive NextRead := next_read | next_decide (treatment : TreatmentItem).

Definition commitRefs (c : BarrierCommit) : list (string * json) :=
  [("provider_commit_id", JStr (bc_commit_id c)); ("provider_call_id", JStr (bc_call_id c)); ("attempt_id", JStr (bc_attempt_id c))].

Definition stoppedFault {A} (c : BarrierCommit) (d : string) : PM A :=
  throw_fault JOURNAL_STOPPED after_commit (bc_call_id c) (d +:+ "; expected a writable source instance").

Definition readTreatment (c : BarrierCommit) : PM (option TreatmentItem) :=
  (read <- loadTreatment (bc_partition c) ;;
   match read with
   | Ok v => se_ret v
   | Err e => own (Log (bc_call_id c) (rf_code e) (rf_detail e)) ;;; se_ret None
   end)%se.

Definition notAppliedResult (c : BarrierCommit) (from to : TreatmentState) (outcome : WriteOutcome) : PM TransitionResult :=
  match outcome with
  | condition_failed _ None =>
      throw_fault TREATMENT_UNEXPECTED after_commit (bc_call_id c)
        (state_text from +:+ " -> " +:+ state_text to +:+ " found no treatment item; expected the item of commit " +:+ bc_commit_id c)
  | condition_failed _ (Some existing) =>
      match decodeTreatmentItem existing with
      | Err e => throw_fault STATE_UNREADABLE after_commit (bc_call_id c)
          (state_text from +:+ " -> " +:+ state_text to +:+ " was superseded by an undecodable treatment item (" +:+ e
           +:+ "); expected a decodable wait state")
      | Ok current => se_ret (tr_superseded current)
      end
  | _ => se_ret tr_not_applied
  end.

Definition transition (c : BarrierCommit) (from to : TreatmentState) (eventIdAttribute : option string)
    (type : string) (body : list (string * json)) (causation : list string) : PM TransitionResult :=
  (prepared <- journal_prepare type body causation ;;
   match prepared with
   | inr s => stoppedFault c (type +:+ " not prepared (" +:+ stop_text (stop_reason s) +:+ ")")
   | inl p =>
       let eid := eventId (event (put_entry p)) in
       let set := if bool_decide (to = SAFETY_RELEASED) then [("safety_release_cause", JStr "SAFETY_DEADLINE")] else [] in
       let set' := set ++ match eventIdAttribute with Some a => [(a, JStr eid)] | None => [] end in
       token <- own NextUuid ;;
       outcome <- own (Transact (transition_actions (bc_partition c) from to set' p) token) ;;
       confirmed <- journal_confirm p outcome TRANSITION_JOURNAL_ACTION_INDEX ;;
       match confirmed with
       | cf_result (ap_stopped _) =>
           throw_fault TRANSITION_AMBIGUOUS after_commit (bc_call_id c)
             (state_text from +:+ " -> " +:+ state_text to +:+ " outcome " +:+ describeWriteOutcome outcome
              +:+ "; expected applied or definitively not applied")
       | cf_result (ap_appended _) =>
           se_modify (fun s => set_wait (latestWaitState (Some to) (waitState s)) s) ;;;
           se_ret (tr_applied eid)
       | cf_not_applied _ _ => notAppliedResult c from to outcome
       end
   end)%se.

Definition waitOnePoll : PM NextRead := (own (Sleep poll_interval_ms) ;;; se_ret next_read)%se.

(** [#continueAfter] of a transition that did not apply. *)
Definition continueAfter (r : TransitionResult) : PM NextRead :=
  match r with
  | tr_superseded current => se_ret (next_decide current)
  | _ => waitOnePoll
  end.

Definition inner_next (m : PM NextRead) : PM (BarrierOutcome + NextRead) := (n <- m ;; se_ret (inr n))%se.

Definition perform_release (c : BarrierCommit) (observedEventId : string) : PM (BarrierOutcome + NextRead) :=
  (released <- transition c TIMEOUT_OBSERVED RESPONSE_RELEASED (Some "release_event_id")
     "treatment_response_released" (commitRefs c) [observedEventId] ;;
   match released with
   | tr_applied _ => se_ret (inl bo_released)
   | r => inner_next (continueAfter r)
   end)%se.

Definition perform_observe (c : BarrierCommit) (signalEventId : string) : PM (BarrierOutcome + NextRead) :=
  (observed <- transition c TIMEOUT_SIGNALLED TIMEOUT_OBSERVED (Some "observed_event_id")
     "treatment_timeout_observed" (commitRefs c ++ [("signal_event_id", JStr signalEventId)]) [signalEventId] ;;
   match observed with
   | tr_applied eid => perform_release c eid
   | r => inner_next (continueAfter r)
   end)%se.

Definition safetyReleaseBody (c : BarrierCommit) (cause : SafetyReleaseCause) (from : CommittedWaitState) : PM (list (string * json)) :=
  (now <- own NowNs ;;
   elapsed <- pure_step (Money.elapsedNs (bc_ack_ns c) now) ;;
   se_ret ([("cause", JStr (cause_text cause)); ("from_state", JStr (state_text (wait_of from)))] ++ commitRefs c
           ++ [("elapsed_since_commit_ns", JStr elapsed)]))%se.

Definition perform_safetyRelease (c : BarrierCommit) (from : CommittedWaitState) : PM (BarrierOutcome + NextRead) :=
  (body <- safetyReleaseBody c SAFETY_DEADLINE from ;;
   released <- transition c (wait_of from) SAFETY_RELEASED None "treatment_safety_released" body [bc_commit_event_id c] ;;
   match released with
   | tr_applied _ => se_ret (inl bo_safety_released)
   | r => inner_next (continueAfter r)
   end)%se.

Definition recordExternalRelease (c : BarrierCommit) (cause : SafetyReleaseCause) : PM (BarrierOutcome + NextRead) :=
  (s <- se_get ;;
   body <- safetyReleaseBody c cause (waitState s) ;;
   appended <- journal_append "treatment_safety_released" body [bc_commit_event_id c] ;;
   match appended with
   | ap_stopped x => stoppedFault c ("treatment_safety_released not recorded (" +:+ stop_text (stop_reason x) +:+ ")")
   | ap_appended _ => se_ret (inl (bo_externally_released cause))
   end)%se.

Definition perform_step (step : BarrierStep) (c : BarrierCommit) : PM (BarrierOutcome + NextRead) :=
  match step with
  | keep_waiting => inner_next waitOnePoll
  | observe id => perform_observe c id
  | release id => perform_release c id
  | safety_release from => perform_safetyRelease c from
  | externally_released cause => recordExternalRelease c cause
  | unexpected_state d => throw_fault TREATMENT_UNEXPECTED after_commit (bc_call_id c) d
  end.

Definition NS_PER_MS : Z := 1000000.

(** One turn of the loop. *)
Definition barrier_turn (c : BarrierCommit) (next : NextRead) : PM (BarrierOutcome + NextRead) :=
  (treatment <- match next with next_decide t => se_ret (Some t) | next_read => readTreatment c end ;;
   se_modify (fun s => set_wait (latestWaitState (option_map t_state treatment) (waitState s)) s) ;;;
   now <- own NowNs ;;
   perform_step (decideBarrierStep treatment (bc_commit_id c) (now - bc_ack_ns c) (safety_release_ms * NS_PER_MS)) c)%se.

Fixpoint barrier_loop (turns : nat) (c : BarrierCommit) (next : NextRead) : PM (option BarrierOutcome) :=
  match turns with
  | O => se_ret None
  | S n =>
      (performed <- barrier_turn c next ;;
       match performed with
       | inl outcome => se_ret (Some outcome)
       | inr next' => barrier_loop n c next'
       end)%se
  end.

Definition awaitRelease (turns : nat) (c : BarrierCommit) : PM (option BarrierOutcome) :=
  (se_modify (set_wait cw_waiting) ;;; barrier_loop turns c next_read)%se.

(** ** One call *)

Definition PROVIDER_JOURNAL_DEFINITIVE_RETRIES : Z := 2.

Section provider.
Context (sha256Hex : string -> string) (deployment : ExecutionIdentity).

(** [openJournal]: a writer with a new source instance (composeRefundProvider). *)
Definition openJournal (scope : JournalScope) : PM unit :=
  (instanceId <- own NextUuid ;;
   let d := MkDeps "refund_provider" instanceId scope PROVIDER_JOURNAL_DEFINITIVE_RETRIES in
   writer <- pure_step (new_JournalWriter d) ;;
   se_modify (fun s => MkProv d writer (waitState s)))%se.

Definition DIGEST_STYLE : JsonTextStyle :=
  MkStyle true (fun leaf => match leaf with JStr t => Some (quote_json t) | _ => Some (nonStringLeafText leaf) end) quote_json.

Definition requestDigest (raw : json) : string := sha256Hex (str_concat (jsonTextPieces raw DIGEST_STYLE).1).

Definition RECEIVED_COPY_FIELDS : list string :=
  ["caller_id"; "attempt_id"; "provider_request_id"; "refund_request_id"; "payment_id"].

Definition receivedBody (raw : json) (providerCallId : string) : list (string * json) :=
  [("provider_call_id", JStr providerCallId); ("raw_request_sha256", JStr (requestDigest raw))]
  ++ flat_map (fun f => match call_member raw f with Some (JStr v) => [(f, JStr v)] | _ => [] end) RECEIVED_COPY_FIELDS.

Definition acceptedBody (providerCallId : string) (call : AcceptedCall) : list (string * json) :=
  [("provider_call_id", JStr providerCallId); ("caller_id", JStr (caller_text (a_caller_id call)));
   ("attempt_id", JStr (a_attempt_id call)); ("provider_request_id", JStr (a_provider_request_id call));
   ("refund_request_id", JStr (a_refund_request_id call)); ("payment_id", JStr (a_payment_id call));
   ("amount_minor", JNum (a_amount_minor call)); ("currency", JStr (a_currency call))].

Definition journalStopped {A} (providerCallId type : string) (s : JournalStopped) (phase : FaultPhase) : PM A :=
  throw_fault JOURNAL_STOPPED phase providerCallId
    (type +:+ " not recorded (" +:+ stop_text (stop_reason s) +:+ "); expected a writable source instance").

Definition readOrFault {T} (read : Result (option T) ProviderStateReadFailure) (providerCallId : string) : PM (option T) :=
  match read with
  | Ok v => se_ret v
  | Err e => throw_fault STATE_UNREADABLE before_commit providerCallId
               (rf_detail e +:+ "; expected a consistent read of the control item")
  end.

Record CallSession := MkSession {
  sn_call_id : string;
  sn_partition : CallPartition;
  sn_context : AcceptanceContext;
  sn_scenario : Scenario;
  sn_treatment : option TreatmentItem;
  sn_received_event_id : string;
}.

Definition appendOrFault (callId type : string) (body : list (string * json)) (phase : FaultPhase) (causation : list string) :
  PM string :=
  (appended <- journal_append type body causation ;;
   match appended with
   | ap_stopped s => journalStopped callId type s phase
   | ap_appended e => se_ret (eventId e)
   end)%se.

Definition UnattributedCause : Type := ProviderFaultCode * string.
Inductive Attribution := attributed (partition : CallPartition) (config : ProviderConfigView) | unattributed (cause : UnattributedCause).

Definition attribute (raw : json) (providerCallId : string) : PM Attribution :=
  match resolveCallPartition deployment raw with
  | None =>
      let named := match raw with
                   | JObj m => "trial_id " +:+ describeUntrusted (member "trial_id" m)
                   | _ => "payload " +:+ describeUntrusted (Some raw)
                   end in
      se_ret (unattributed (UNATTRIBUTABLE_CALL, "call names no trial partition (" +:+ named
        +:+ "); expected a call object with a lowercase UUIDv4 trial_id"))
  | Some partition =>
      (read <- loadTrialConfiguration partition ;;
       config <- readOrFault read providerCallId ;;
       se_ret match config with
              | None => unattributed (CONFIGURATION_MISSING, "no provider configuration in partition " +:+ cp_key partition
                          +:+ "; expected the frozen config item")
              | Some c => attributed partition c
              end)%se
  end.

Definition openSession (raw : json) (providerCallId : string) (partition : CallPartition) (config : ProviderConfigView) :
  PM CallSession :=
  (paymentRead <- loadPayment (cp_key partition) (c_payment_id config) ;;
   pay <- readOrFault paymentRead providerCallId ;;
   treatmentRead <- loadTreatment (cp_key partition) ;;
   treatment <- readOrFault treatmentRead providerCallId ;;
   openJournal (callJournalScope deployment config) ;;;
   received <- journal_append "provider_call_received" (receivedBody raw providerCallId) [] ;;
   match received with
   | ap_stopped s => journalStopped providerCallId "provider_call_received" s before_commit
   | ap_appended e =>
       se_ret (MkSession providerCallId partition (MkContext deployment config pay) (scenario config) treatment (eventId e))
   end)%se.

Definition reject_call (session : CallSession) (raw : json) (decision : AcceptanceRejection) : PM (list (string * json)) :=
  (appendOrFault (sn_call_id session) "provider_call_rejected"
     [("provider_call_id", JStr (sn_call_id session)); ("reason", JStr (rejection_text (r_reason decision)));
      ("detail", JStr (r_detail decision))] before_commit [sn_received_event_id session] ;;;
   se_ret (rejectedResponse (sn_call_id session) raw (r_reason decision)))%se.

(** [#finish]; [None] when the barrier has not ended within its turns. *)
Definition finish (turns : nat) (session : CallSession) (call : AcceptedCall) (commit : ConfirmedCommit) : PM (option unit) :=
  let ids := ids_of (cc_plan commit) in
  match plan_kind (cc_plan commit) with
  | untargeted =>
      (appendOrFault (sn_call_id session) "provider_response_returned"
         [("provider_commit_id", JStr (provider_commit_id ids)); ("provider_transaction_id", JStr (provider_transaction_id ids));
          ("provider_call_id", JStr (sn_call_id session)); ("attempt_id", JStr (a_attempt_id call));
          ("provider_request_id", JStr (a_provider_request_id call))] after_commit [confirmed_event_id commit] ;;;
       se_ret (Some tt))%se
  | targeted =>
      (outcome <- awaitRelease turns
         (MkBarrierCommit (cp_key (sn_partition session)) (provider_commit_id ids) (sn_call_id session) (a_attempt_id call)
            (commit_event_id (plan_ids (cc_plan commit))) (commit_ack_ns commit)) ;;
       se_ret (option_map (fun _ => tt) outcome))%se
  end.

(** [rejectUnattributedCall] *)
Definition rejectUnattributedCall (raw : json) (providerCallId : string) (cause : UnattributedCause) : PM (list (string * json)) :=
  (read <- loadExecutionConfiguration deployment ;;
   match read with
   | Err e => throw_fault STATE_UNREADABLE before_commit providerCallId
                (rf_detail e +:+ "; expected a consistent read of the execution configuration")
   | Ok None =>
       throw_fault cause.1 before_commit providerCallId
         (cause.2 +:+ "; no execution configuration at control " +:+ executionConfigPartition deployment +:+ "/" +:+ CONFIG_SORT_KEY
          +:+ ", so the rejection cannot be journaled (A-09)")
   | Ok (Some view) =>
       let digest := x_execution_manifest_sha256 view in
       let decision := judgeUnattributedCall raw deployment digest in
       openJournal (unattributedJournalScope deployment digest) ;;;
       appended <- journal_append "provider_call_rejected"
         [("provider_call_id", JStr providerCallId); ("reason", JStr (rejection_text (r_reason decision)));
          ("detail", JStr (r_detail decision))] [] ;;
       match appended with
       | ap_stopped s => journalStopped providerCallId "provider_call_rejected" s before_commit
       | ap_appended _ => se_ret (rejectedResponse providerCallId raw (r_reason decision))
       end
   end)%se.

Definition succeededResponse (callId : string) (call : AcceptedCall) (transactionId : string) : list (string * json) :=
  [("schema_version", JNum (JSInt 1)); ("record_type", JStr "provider_refund_response"); ("outcome", JStr "SUCCEEDED");
   ("provider_call_id", JStr callId); ("attempt_id", JStr (a_attempt_id call));
   ("provider_request_id", JStr (a_provider_request_id call)); ("provider_transaction_id", JStr transactionId)].

(** The part of [handleCall] after the decision to accept. *)
Definition commit_call (turns : nat) (session : CallSession) (call : AcceptedCall) : PM (option (list (string * json))) :=
  (acceptedId <- appendOrFault (sn_call_id session) "provider_call_accepted" (acceptedBody (sn_call_id session) call)
     before_commit [sn_received_event_id session] ;;
   let is_targeted := bool_decide (sn_scenario session = COMMIT_THEN_TIMEOUT)
                      && bool_decide (option_map t_state (sn_treatment session) = Some ARMED) in
   commit <- executeCommit (MkRequest (cp_key (sn_partition session)) call (sn_call_id session) acceptedId
                              (if is_targeted then targeted else untargeted)) ;;
   finished <- finish turns session call commit ;;
   se_ret (option_map (fun _ => succeededResponse (sn_call_id session) call
                                  (provider_transaction_id (ids_of (cc_plan commit)))) finished))%se.

Definition handleCall (turns : nat) (raw : json) : PM (option (list (string * json))) :=
  (providerCallId <- own NextUuid ;;
   attribution <- attribute raw providerCallId ;;
   match attribution with
   | unattributed cause => r <- rejectUnattributedCall raw providerCallId cause ;; se_ret (Some r)
   | attributed partition config =>
       session <- openSession raw providerCallId partition config ;;
       match evaluateAcceptance raw (sn_context session) with
       | rejected decision => r <- reject_call session raw decision ;; se_ret (Some r)
       | accepted call => commit_call turns session call
       end
   end)%se.
End provider.

End Provider.
