(* ===== verification/ProviderSafety.v ===== *)
(** * Safety of the refund provider

    One invocation of the provider beside other invocations, the treatment
    controller and cleanup, over a store with faults. The other parties may do
    anything that leaves the invocation's own ledger and journal rows alone and
    moves a treatment item only along the edges of its state machine ([rely]); the
    invocation itself does no more than that ([guar]), so invocations compose.
    [mine] is the set of UUIDs the source hands to this invocation. *)

From S2P Require Import Prelude Timestamps Effects Store JsonText LeaseItem Journal JournalSafety JournalTx.
From S2P Require Import ControlItems Acceptance Provider.
Import Json Store Identifiers Journal JournalSafety JournalTx(apply_row_other, apply_all_other, apply_all_row, apply_all_each, tx_view, confirm_view).
Import ControlItems Acceptance Provider.
Open Scope Z_scope.

Module ProviderSafety.

(** ** The treatment state machine *)

Inductive edge : TreatmentState -> TreatmentState -> Prop :=
| edge_commit : edge ARMED COMMITTED_WAITING
| edge_signal : edge COMMITTED_WAITING TIMEOUT_SIGNALLED
| edge_observe : edge TIMEOUT_SIGNALLED TIMEOUT_OBSERVED
| edge_release : edge TIMEOUT_OBSERVED RESPONSE_RELEASED
| edge_safety s : s <> RESPONSE_RELEASED -> s <> SAFETY_RELEASED -> edge s SAFETY_RELEASED.

(** Edges climb. *)
Definition rank (s : TreatmentState) : Z :=
  match s with
  | ARMED => 0 | COMMITTED_WAITING => 1 | TIMEOUT_SIGNALLED => 2 | TIMEOUT_OBSERVED => 3 | RESPONSE_RELEASED => 4 | SAFETY_RELEASED => 4
  end.

Lemma edge_rank a b : edge a b -> rank a < rank b.
Proof. intros []; cbn; try lia. by destruct s. Qed.

Lemma edges_rank a b : rtc edge a b -> a = b \/ rank a < rank b.
Proof.
  induction 1 as [a|a b x He _ IH]; [by left|]. right. apply edge_rank in He. destruct IH as [->|]; lia.
Qed.

Lemma waiting_reaches s : s <> ARMED -> rtc edge COMMITTED_WAITING s.
Proof.
  intros Hs. pose proof edge_signal as E1. pose proof edge_observe as E2. pose proof edge_release as E3.
  assert (H2 : rtc edge COMMITTED_WAITING TIMEOUT_OBSERVED) by eauto using rtc_once, rtc_r.
  destruct s; [done|apply rtc_refl|by apply rtc_once|done|by eapply rtc_r|apply rtc_once; by constructor].
Qed.

Definition has_state (m : StoredItem) (s : TreatmentState) : Prop := member "state" m = Some (JStr (state_text s)).

(** The attributes of a commit and of a signal. *)
Definition COMMIT_FIELDS : list string := ["provider_commit_id"; "targeted_attempt_id"; "commit_event_id"].
Definition SIGNAL_FIELDS : list string := ["signal_event_id"; "signal_caller_event_id"].

Definition kept (fields : list string) (m m' : StoredItem) : Prop := Forall (fun f => member f m' = member f m) fields.
Definition unset (fields : list string) (set : list (string * json)) : Prop := Forall (fun f => member f set = None) fields.

(** One write of a treatment item: an edge, the version counted, the commit and the signal
    kept once made. *)
Definition tmove (m m' : StoredItem) : Prop :=
  exists s s', has_state m s /\ has_state m' s' /\ edge s s'
    /\ (s <> ARMED -> kept COMMIT_FIELDS m m')
    /\ (s <> ARMED -> s <> COMMITTED_WAITING -> kept SIGNAL_FIELDS m m')
    /\ (forall v, member "version" m = Some (JNum (JSInt v)) -> member "version" m' = Some (JNum (JSInt (v + 1)))).

(** A row evolves by moves; a missing item may be created. *)
Inductive row_step : option StoredItem -> option StoredItem -> Prop :=
| row_created m : row_step None (Some m)
| row_moved m m' : tmove m m' -> row_step (Some m) (Some m').

Definition is_treatment_key (k : ItemKey) : Prop := sk k = TREATMENT_SORT_KEY.

Definition tkey (partition : string) : ItemKey := MkKey partition TREATMENT_SORT_KEY.

(** ** The protocol of the ledger and the treatment items *)

Definition same_ledger (w w' : tables) : Prop := forall k, w' ledger k = w ledger k.
Definition same_treatments (w w' : tables) : Prop := forall p, w' control (tkey p) = w control (tkey p).

Definition ledger_gains (w w' : tables) (k : ItemKey) (m : StoredItem) : Prop :=
  w ledger k = None /\ w' ledger k = Some m /\ forall k', k' <> k -> w' ledger k' = w ledger k'.
Definition treatment_moves (w w' : tables) (p : string) (t t' : StoredItem) : Prop :=
  w control (tkey p) = Some t /\ w' control (tkey p) = Some t' /\ tmove t t'
  /\ forall p', p' <> p -> w' control (tkey p') = w control (tkey p').

(** What one effect does to them: nothing; one more transaction; one more transaction
    together with the treatment it consumes; or one move of a consumed treatment. *)
Inductive protocol_step (w w' : tables) : Prop :=
| proto_quiet : same_ledger w w' -> same_treatments w w' -> protocol_step w w'
| proto_refund k m c :
    ledger_gains w w' k m -> member "provider_commit_id" m = Some (JStr c) -> same_treatments w w' -> protocol_step w w'
| proto_consume k m c t t' :
    ledger_gains w w' k m -> member "provider_commit_id" m = Some (JStr c) ->
    treatment_moves w w' (pk k) t t' -> has_state t ARMED -> has_state t' COMMITTED_WAITING ->
    member "provider_commit_id" t' = Some (JStr c) ->
    member "targeted_attempt_id" t' = member "attempt_id" m -> protocol_step w w'
| proto_advance p t t' :
    same_ledger w w' -> treatment_moves w w' p t t' -> ~ has_state t ARMED -> protocol_step w w'.

(** ** Transactions on the experiment journal *)

Abbreviation pending := (JournalTx.pending experiment_journal).
Abbreviation one_journal_put := (JournalTx.one_journal_put experiment_journal).
Abbreviation prepare_reserves := (JournalTx.prepare_reserves experiment_journal).
Abbreviation reserved_pending := (JournalTx.reserved_pending experiment_journal).
Abbreviation pending_stable := (JournalTx.pending_stable experiment_journal).
Abbreviation confirm_pending := (JournalTx.confirm_pending experiment_journal).

Section invocation.
Context (mine : string -> Prop).

(** ** Rely and guarantee *)

Definition mine_row (m : StoredItem) : Prop := exists c, member "provider_call_id" m = Some (JStr c) /\ mine c.

Record rely (w w' : tables) : Prop := {
  rely_ledger k m : mine_row m -> w ledger k = Some m <-> w' ledger k = Some m;
  rely_journal d k : mine (d_instanceId d) -> isSourceSequence k = true ->
    jrow experiment_journal d w' k = jrow experiment_journal d w k;
  rely_treatment k : is_treatment_key k -> rtc row_step (w control k) (w' control k);
}.

Inductive own_change (t : TableRole) (k : ItemKey) (v v' : option StoredItem) : Prop :=
| change_none : v' = v -> own_change t k v v'
| change_ledger m : t = ledger -> v = None -> v' = Some m -> mine_row m -> own_change t k v v'
| change_journal d n : t = experiment_journal -> v = None -> mine (d_instanceId d) -> isSourceSequence n = true ->
    k = jkey d n -> own_change t k v v'
| change_treatment m m' : t = control -> is_treatment_key k -> v = Some m -> v' = Some m' -> tmove m m' -> own_change t k v v'.

Definition changes_own (w w' : tables) : Prop := forall t k, own_change t k (w t k) (w' t k).

Definition guar (w w' : tables) : Prop := changes_own w w' /\ protocol_step w w'.

#[export] Instance rely_preorder : PreOrder rely.
Proof.
  split.
  - intros w. split; [done|done|]. intros k _. reflexivity.
  - intros w1 w2 w3 H1 H2. split.
    + intros k m Hm. by rewrite (rely_ledger _ _ H1 k m Hm), (rely_ledger _ _ H2 k m Hm).
    + intros d k Hd Hk. by rewrite (rely_journal _ _ H2 d k Hd Hk), (rely_journal _ _ H1 d k Hd Hk).
    + intros k Hk. etrans; [by apply (rely_treatment _ _ H1)|by apply (rely_treatment _ _ H2)].
Qed.

Lemma guar_refl w : guar w w.
Proof. split; [intros t k; by apply change_none|]. by apply proto_quiet. Qed.

Lemma rely_jrely d w w' : mine (d_instanceId d) -> rely w w' -> jrely experiment_journal d w w'.
Proof. intros Hd H k Hk. by apply (rely_journal _ _ H). Qed.

Lemma jguar_guar d w w' : mine (d_instanceId d) -> jguar experiment_journal d w w' -> guar w w'.
Proof.
  intros Hd H. split.
  - intros t k. destruct (H t k) as [E|(-> & E & n & Hn & ->)]; [by apply change_none|]. by eapply change_journal.
  - apply proto_quiet; intros k; [destruct (H ledger k) as [E|(E & _)]|destruct (H control (tkey k)) as [E|(E & _)]]; done.
Qed.

(** ** Effects *)

Definition own_step (R : Type) (e : OwnEff R) : tables -> R -> tables -> Prop :=
  match e in OwnEff R return tables -> R -> tables -> Prop with
  | GetControl k => fun w r w' => read_step (w control k) r /\ w' = w
  | Transact actions _ => fun w r w' => transact_step w actions r w'
  | NextUuid => fun w r w' => mine r /\ w' = w
  | WallNow => fun w _ w' => w' = w
  | NowNs => fun w _ w' => w' = w
  | Sleep _ => fun w _ w' => w' = w
  | Log _ _ _ => fun w _ w' => w' = w
  end.

Definition prov_step (R : Type) (e : ProvEff R) : tables -> R -> tables -> Prop :=
  match e with inl j => journal_step experiment_journal R j | inr o => own_step R o end.

Definition always (w : tables) : Prop := True.

Abbreviation spec := (rgs prov_step rely guar always).

(** An assertion about the ledger and the treatment items that no one can break. *)
Record stable (P : tables -> Prop) : Prop := {
  stable_rely w w' : P w -> rely w w' -> P w';
  stable_journal w w' : P w -> (forall t k, t <> experiment_journal -> w' t k = w t k) -> P w';
}.

Lemma stable_and P Q : stable P -> stable Q -> stable (fun w => P w /\ Q w).
Proof. intros [A B] [C D]. split; intros w w' [? ?] ?; split; eauto. Qed.

Lemma stable_or P Q : stable P -> stable Q -> stable (fun w => P w \/ Q w).
Proof. intros [A B] [C D]. split; intros w w' [?|?] ?; eauto. Qed.

Lemma lift_rg {A} (p : proc JournalEff A) d keep (Q : A -> tables -> Prop) P w :
  mine (d_instanceId d) -> stable P -> P w ->
  rg (journal_step experiment_journal) (jrely experiment_journal d) (jguar experiment_journal d) keep p Q w ->
  rg prov_step rely guar always (lift p) (fun a w => Q a w /\ P w) w.
Proof.
  intros Hd HP. revert w. induction p as [a|R e k IH]; intros w Hw H; [done|].
  cbn [lift rg]. intros w1 Hr r w2 Hs. destruct (H w1 (rely_jrely _ _ _ Hd Hr) r w2 Hs) as (Hg & _ & Hk).
  split; [by eapply jguar_guar|]. split; [done|]. apply IH; [|done].
  eapply (stable_journal P HP); [by eapply (stable_rely P HP)|].
  intros t key Ht. destruct (Hg t key) as [E|(-> & _)]; done.
Qed.

(** ** The writer of the invocation *)

Definition writer_ok (s : ProvState) (w : tables) : Prop :=
  mine (d_instanceId (deps s)) /\ jinv experiment_journal (deps s) (journal s) w.

Lemma writer_ok_stable s w w' : writer_ok s w -> rely w w' -> writer_ok s w'.
Proof. intros [Hm Hj] Hr. split; [done|]. eapply jinv_stable; [done|]. by apply rely_jrely. Qed.

(** What a journal call throws, the invocation throws. *)
Definition lifted {A} (r : Result A js_error) : Result A thrown := match r with Ok a => Ok a | Err e => Err (other e) end.

(** What a journal call leaves: the other private fields and every stable assertion. *)
Lemma on_journal_spec {A} (m : JournalWriterDeps -> JM A) P R s w (Q : ProvState -> Result A thrown -> tables -> Prop) n :
  writer_ok s w -> stable P -> P w ->
  rgs (journal_step experiment_journal) (jrely experiment_journal (deps s)) (jguar experiment_journal (deps s))
    (dense experiment_journal (deps s) n) (m (deps s)) (fun j r w => jinv experiment_journal (deps s) j w /\ R j r) (journal s) w ->
  (forall j r w', writer_ok (set_journal j s) w' -> P w' -> R j r ->
     Q (set_journal j s) (lifted r) w') ->
  spec (on_journal m) Q s w.
Proof.
  intros [Hm Hj] HP Hw H HQ. unfold rgs, on_journal. apply rg_bind.
  eapply rg_mono; [|eapply (lift_rg _ _ _ _ P); [exact Hm|done|done|exact H]].
  intros [j r] w' [[Hj' HR] HP']. cbn [rg fst snd] in *. by apply HQ.
Qed.

Lemma append_spec_P P type body causation s w (Q : ProvState -> Result AppendResult thrown -> tables -> Prop) :
  writer_ok s w -> stable P -> P w ->
  (forall j r w', writer_ok (set_journal j s) w' -> P w' -> Q (set_journal j s) (lifted r) w') ->
  spec (journal_append type body causation) Q s w.
Proof.
  intros Hs HP Hw HQ. eapply (on_journal_spec _ P (fun _ _ => True)); [done|done|done| |by intros j r w' H1 H2 _; apply HQ].
  unfold rgs, append_run. apply rg_bind.
  eapply rg_mono; [|apply (append_spec experiment_journal (deps s) type body causation (append_called (journal s)) w); apply Hs].
  intros [j r] w' H. cbn [rg fst snd] in *. split; [exact H|done].
Qed.

Lemma prepare_spec_P P type body causation s w (Q : ProvState -> Result (PreparedJournalPut + JournalStopped) thrown -> tables -> Prop) :
  writer_ok s w -> stable P -> P w ->
  (forall j r w', writer_ok (set_journal j s) w' -> P w' -> (forall p, r = Ok (inl p) -> reservation j = Some p) ->
     Q (set_journal j s) (lifted r) w') ->
  spec (journal_prepare type body causation) Q s w.
Proof.
  intros Hs HP Hw HQ. eapply (on_journal_spec _ P (fun j r => forall p, r = Ok (inl p) -> reservation j = Some p));
    [done|done|done| |intros j r w' H1 H2 H3; by apply HQ].
  eapply rgs_mono; [|apply prepare_reserves, Hs]. intros j r w' [Hj Hp]. split; [done|]. intros p Er. by apply Hp.
Qed.

Lemma apply_all_guar w actions :
  distinct_targets actions -> forallb (row_holds w) actions = true ->
  Forall (fun a => forall t k, action_target a = Some (t, k) -> row_holds w a = true ->
                   own_change t k (w t k) (apply_action (w t k) a)) actions ->
  changes_own w (apply_all w actions).
Proof. intros Hd Hh HF t k. apply (apply_all_each own_change); [|done..]. intros ???. by apply change_none. Qed.

(** Quiet effects leave the world as it is. *)
Lemma quiet_spec {R} (e : OwnEff R) s w (Q : ProvState -> Result R thrown -> tables -> Prop) :
  (forall w r w', own_step R e w r w' -> w' = w) ->
  (forall w1 r, rely w w1 -> own_step R e w1 r w1 -> Q s (Ok r) w1) -> spec (own e) Q s w.
Proof.
  intros He HQ. apply rgs_perform. intros w1 Hr r w2 Hs. pose proof Hs as Hs'. apply He in Hs' as ->.
  split; [apply guar_refl|]. split; [done|]. by apply HQ.
Qed.

Lemma confirm_spec_P p out index landed c s w (Q : ProvState -> Result ConfirmResult thrown -> tables -> Prop) :
  mine (d_instanceId (deps s)) -> pending (deps s) (journal s) p landed w ->
  classifyJournalOutcome out (put_entry p) index = Ok c -> class_view c landed ->
  (forall j r, writer_ok (set_journal j s) w -> confirm_view r landed -> Q (set_journal j s) (Ok r) w) ->
  spec (journal_confirm p out index) Q s w.
Proof.
  intros Hm Hp Hc Hv HQ. destruct (confirm_pending _ _ _ _ _ _ _ _ Hp Hc Hv) as (j & r & E & Hj & Hr).
  unfold rgs, journal_confirm, on_journal. rewrite E. cbn. by apply HQ.
Qed.

(** ** The ledger *)

Definition ledger_none (w : tables) : Prop := forall k m, w ledger k = Some m -> ~ mine_row m.
Definition ledger_one (k0 : ItemKey) (m0 : StoredItem) (w : tables) : Prop :=
  w ledger k0 = Some m0 /\ mine_row m0 /\ forall k m, w ledger k = Some m -> mine_row m -> k = k0 /\ m = m0.

Lemma ledger_none_stable : stable ledger_none.
Proof.
  split; intros w w' H Hr k m Hk Hm.
  - apply (rely_ledger _ _ Hr _ _ Hm) in Hk. by apply (H k m).
  - rewrite Hr in Hk by done. by apply (H k m).
Qed.

Lemma ledger_one_stable k0 m0 : stable (ledger_one k0 m0).
Proof.
  split; intros w w' (H1 & H2 & H3) Hr.
  - split; [by apply (rely_ledger _ _ Hr)|]. split; [done|]. intros k m Hk Hm.
    apply H3; [by apply (rely_ledger _ _ Hr)|done].
  - split; [by rewrite Hr|]. split; [done|]. intros k m Hk Hm. rewrite Hr in Hk by done. by apply H3.
Qed.

(** ** Treatment rows *)

Lemma state_text_inj a b : state_text a = state_text b -> a = b.
Proof. by destruct a, b. Qed.

Lemma has_state_inj m a b : has_state m a -> has_state m b -> a = b.
Proof. unfold has_state. intros H1 H2. apply state_text_inj. congruence. Qed.

(** The item is committed to [c], in one of the states [S], which moves do not leave. *)
Definition treated (partition c : string) (S : TreatmentState -> Prop) (w : tables) : Prop :=
  exists m s, w control (tkey partition) = Some m /\ has_state m s /\ S s
    /\ member "provider_commit_id" m = Some (JStr c).

Definition closed_states (S : TreatmentState -> Prop) : Prop :=
  forall s s', S s -> s <> ARMED /\ (edge s s' -> S s').

Lemma treated_stable partition c S : closed_states S -> stable (treated partition c S).
Proof.
  intros HS. split.
  - intros w w' (m & s & Hm & Hs & Hin & Hc) Hr.
    pose proof (rely_treatment _ _ Hr (tkey partition) eq_refl) as Hsteps. rewrite Hm in Hsteps.
    remember (Some m) as r eqn:E. revert m s E Hs Hin Hc. clear Hm. unfold treated.
    induction Hsteps as [|r1 r2 r3 Hstep _ IH]; intros m s -> Hs Hin Hc; [by eauto 10|].
    inversion Hstep as [|? m' (a & b & Ha & Hb & He & Hcom & _)]; subst.
    pose proof (has_state_inj _ _ _ Hs Ha) as <-. destruct (HS s b Hin) as [Hne Hb'].
    eapply (IH m' b); [done|exact Hb|by apply Hb'|]. destruct (Forall_cons_1 _ _ _ (Hcom Hne)) as [E _]. by rewrite E.
  - intros w w' (m & s & Hm & H) Hr. exists m, s. by rewrite Hr.
Qed.

Lemma not_armed_closed : closed_states (fun s => s <> ARMED).
Proof. intros s s' H. split; [done|]. by inversion 1; subst. Qed.
Lemma released_closed : closed_states (fun s => s = RESPONSE_RELEASED).
Proof. intros s s' ->. split; [done|]. by inversion 1; subst. Qed.
Lemma safety_released_closed : closed_states (fun s => s = SAFETY_RELEASED).
Proof. intros s s' ->. split; [done|]. by inversion 1; subst. Qed.

(** An update that counts the version. *)
Lemma updated_members t k set c m :
  NoDup (map fst set) -> member "version" set = None ->
  exists m', apply_action (Some m) (update t k set [("version", 1)] c) = Some m'
    /\ (forall n, n <> "version" -> member n m' = match member n set with Some v => Some v | None => member n m end)
    /\ (forall v, member "version" m = Some (JNum (JSInt v)) -> member "version" m' = Some (JNum (JSInt (v + 1)))).
Proof.
  intros Hnd Hv. eexists. split; [reflexivity|]. cbn [fold_left]. unfold increment_member. split.
  - intros n Hn. rewrite member_set_member, bool_decide_eq_false_2 by done. by apply member_set_members.
  - intros v Hm. rewrite member_set_member, bool_decide_eq_true_2 by done.
    rewrite (member_set_members "version") by done. by rewrite Hv, Hm.
Qed.

Lemma unset_kept fields set m m' :
  (forall n, n <> "version" -> member n m' = match member n set with Some v => Some v | None => member n m end) ->
  "version" ∉ fields -> unset fields set -> kept fields m m'.
Proof.
  intros Hm Hv Hu. apply Forall_forall. intros f Hf. rewrite Hm by (by intros ->).
  by rewrite (proj1 (Forall_forall _ _) Hu f Hf).
Qed.

Lemma update_tmove t k set c from to m :
  NoDup (map fst set) -> member "version" set = None -> member "state" set = Some (JStr (state_text to)) -> edge from to ->
  (from <> ARMED -> unset COMMIT_FIELDS set) -> (from <> ARMED -> from <> COMMITTED_WAITING -> unset SIGNAL_FIELDS set) ->
  has_state m from ->
  exists m', apply_action (Some m) (update t k set [("version", 1)] c) = Some m'
    /\ tmove m m' /\ has_state m' to
    /\ forall n, n <> "version" -> member n m' = match member n set with Some v => Some v | None => member n m end.
Proof.
  intros Hnd Hv Hst He Hc Hsg Hh. destruct (updated_members t k set c m Hnd Hv) as (m' & E & Hm & Hver).
  exists m'. assert (Hs' : has_state m' to) by (unfold has_state; by rewrite Hm, Hst).
  split_and!; try done. exists from, to. split_and!; try done.
  - intros Hne. apply (unset_kept _ set); [done| |by apply Hc]. unfold COMMIT_FIELDS. set_solver.
  - intros Hne Hne'. apply (unset_kept _ set); [done| |by apply Hsg]. unfold SIGNAL_FIELDS. set_solver.
Qed.

Lemma update_moves t k set from to m :
  NoDup (map fst set) -> member "version" set = None -> member "state" set = Some (JStr (state_text to)) -> edge from to ->
  (from <> ARMED -> unset COMMIT_FIELDS set) -> (from <> ARMED -> from <> COMMITTED_WAITING -> unset SIGNAL_FIELDS set) ->
  action_holds (Some m) (update t k set [("version", 1)] (attribute_equals "state" (SStr (state_text from)))) = true ->
  exists m', apply_action (Some m) (update t k set [("version", 1)] (attribute_equals "state" (SStr (state_text from)))) = Some m'
    /\ tmove m m' /\ has_state m from /\ has_state m' to
    /\ forall n, n <> "version" -> member n m' = match member n set with Some v => Some v | None => member n m end.
Proof.
  intros Hnd Hv Hst He Hc Hsg Hh. apply scalar_str_iff in Hh.
  destruct (update_tmove t k set (attribute_equals "state" (SStr (state_text from))) from to m) as (m' & ? & ? & ? & ?); eauto 10.
Qed.

(** ** The commit *)

Definition has_one (w : tables) : Prop := exists k m, ledger_one k m w.
Definition maybe_one (w : tables) : Prop := ledger_none w \/ has_one w.

Lemma has_one_stable : stable has_one.
Proof.
  split; intros w w' (k & m & H) Hr; exists k, m.
  - by eapply (stable_rely _ (ledger_one_stable k m)).
  - by eapply (stable_journal _ (ledger_one_stable k m)).
Qed.
Lemma maybe_one_stable : stable maybe_one.
Proof. apply stable_or; [apply ledger_none_stable|apply has_one_stable]. Qed.

(** Whether the ledger transaction exists when the fault happens. *)
Definition phase_view (p : FaultPhase) (w : tables) : Prop :=
  match p with before_commit => ledger_none w | commit_unknown => maybe_one w | after_commit => has_one w end.
Definition error_view (x : thrown) (w : tables) : Prop :=
  match x with fault f => phase_view (f_phase f) w | other _ => maybe_one w end.

Definition commit_key (request : CommitRequest) (plan : CommitPlan) : ItemKey :=
  MkKey (cr_partition request) (ledgerSortKey (provider_transaction_id (ids_of plan))).
Definition commit_item (request : CommitRequest) (plan : CommitPlan) : StoredItem :=
  ledgerItem (cr_partition request) (cr_call request) (cr_call_id request) (ids_of plan) (plan_requested_at plan).

Definition committed (request : CommitRequest) (plan : CommitPlan) (w : tables) : Prop :=
  ledger_one (commit_key request plan) (commit_item request plan) w
  /\ (plan_kind plan = targeted ->
      treated (cr_partition request) (provider_commit_id (ids_of plan)) (fun s => s <> ARMED) w).

Lemma committed_stable request plan : stable (committed request plan).
Proof.
  split; intros w w' [H1 H2] Hr.
  - split; [by eapply (stable_rely _ (ledger_one_stable _ _))|]. intros Hk.
    eapply (stable_rely _ (treated_stable _ _ _ not_armed_closed)); [by apply H2|done].
  - split; [by eapply (stable_journal _ (ledger_one_stable _ _))|]. intros Hk.
    eapply (stable_journal _ (treated_stable _ _ _ not_armed_closed)); [by apply H2|done].
Qed.

Section one_commit.
Context (request : CommitRequest) (kind : CommitKind) (ids : CommitIdentities) (at_ : string) (p : PreparedJournalPut).
Let plan := planCommit kind (cr_partition request) (cr_call request) (cr_call_id request) ids at_ p.

Lemma plan_journal_put :
  plan_actions plan !! 1%nat = Some (journalPutAction experiment_journal (put_entry p))
  /\ one_journal_put (plan_actions plan) (put_entry p).
Proof.
  subst plan. unfold JournalTx.one_journal_put, planCommit. split; [by destruct kind|].
  destruct kind; cbn [plan_actions app]; rewrite ?Forall_cons; split_and!; try done; by constructor.
Qed.

Lemma ledger_target :
  action_target (put ledger (commit_item request plan) (Some item_absent)) = Some (ledger, commit_key request plan).
Proof. subst plan. by destruct kind. Qed.

Section landed.
Context (d : JournalWriterDeps) (st : JournalWriter) (w : tables).
Context (Hp : pending d st p false w) (Hdist : distinct_targets (plan_actions plan)).
Context (Hh : forallb (row_holds w) (plan_actions plan) = true).

Lemma plan_row_holds a : a ∈ plan_actions plan -> row_holds w a = true.
Proof. intros Ha. apply (proj1 (forallb_forall _ _) Hh). by apply list_elem_of_In. Qed.

Lemma plan_targets t k : (t, k) <> (ledger, commit_key request plan) -> t <> experiment_journal ->
  (kind = targeted -> (t, k) <> (control, tkey (cr_partition request))) ->
  apply_all w (plan_actions plan) t k = w t k.
Proof.
  intros Hl Hj Hc. apply apply_all_other. destruct Hp as (_ & _ & _ & _ & He & _ & _).
  pose proof (put_target experiment_journal d (nextSequence st) (put_entry p) He) as Hjt. pose proof ledger_target as Hlt.
  assert (HL : action_target (put ledger (commit_item request plan) (Some item_absent)) <> Some (t, k)) by congruence.
  assert (HJ : action_target (journalPutAction experiment_journal (put_entry p)) <> Some (t, k)) by congruence.
  apply Forall_forall. intros b Hb. subst plan. destruct kind; cbn [plan_actions planCommit app] in Hb; rewrite !elem_of_cons in Hb.
  - destruct Hb as [->|[->|[->|Hb]]]; [exact HL|exact HJ| |by apply elem_of_nil in Hb]. intros [= <- <-]. by apply Hc.
  - destruct Hb as [->|[->|Hb]]; [exact HL|exact HJ|by apply elem_of_nil in Hb].
Qed.

Lemma plan_gains : ledger_gains w (apply_all w (plan_actions plan)) (commit_key request plan) (commit_item request plan).
Proof.
  assert (Hin : put ledger (commit_item request plan) (Some item_absent) ∈ plan_actions plan) by (subst plan; destruct kind; left).
  pose proof (plan_row_holds _ Hin) as Hr. unfold row_holds in Hr. rewrite ledger_target in Hr. split_and!.
  - by apply bool_decide_eq_true in Hr.
  - by rewrite (apply_all_row w _ _ _ _ Hdist Hin ledger_target).
  - intros k Hk. apply plan_targets; [congruence|done|done].
Qed.

Lemma plan_consumes : kind = targeted -> exists m m',
  treatment_moves w (apply_all w (plan_actions plan)) (cr_partition request) m m' /\ has_state m ARMED /\ has_state m' COMMITTED_WAITING
  /\ member "provider_commit_id" m' = Some (JStr (provider_commit_id ids))
  /\ member "targeted_attempt_id" m' = Some (JStr (a_attempt_id (cr_call request))).
Proof.
  intros Hk.
  set (a := consumeTreatment (cr_partition request) (cr_call request) (cr_call_id request) (MkIds ids (eventId (event (put_entry p))))).
  assert (Hin : a ∈ plan_actions plan) by (subst plan a; rewrite Hk; cbn; set_solver).
  pose proof (plan_row_holds _ Hin) as Hrow. unfold row_holds in Hrow. cbn [action_target consumeTreatment a] in Hrow.
  destruct (w control (MkKey (cr_partition request) TREATMENT_SORT_KEY)) as [m|] eqn:Em; [|done].
  eapply (update_moves _ _ _ ARMED COMMITTED_WAITING) in Hrow as (m' & E & Hmv & Hs & Hs' & Hmem);
    [|apply (bool_decide_unpack _); vm_compute; exact I|done|done|constructor|done|done].
  exists m, m'. split; [split_and!; [done| |done|]|split_and!; [done|done|by rewrite Hmem..]].
  - rewrite (apply_all_row w _ a control (tkey (cr_partition request)) Hdist Hin eq_refl). unfold tkey. rewrite Em. exact E.
  - intros p' Hp'. apply plan_targets; [done|done|]. intros _ [= ?]. done.
Qed.

Lemma plan_protocol : protocol_step w (apply_all w (plan_actions plan)).
Proof.
  destruct (decide (kind = targeted)) as [Ek|Ek].
  - destruct (plan_consumes Ek) as (m & m' & Hmv & Hs & Hs' & Hc & Ht).
    eapply (proto_consume _ _ _ _ (provider_commit_id ids)); [exact plan_gains| |exact Hmv|done|done|exact Hc|rewrite Ht];
      subst plan; by destruct kind.
  - eapply (proto_refund _ _ _ _ (provider_commit_id ids)); [exact plan_gains|subst plan; by destruct kind|].
    intros p'. by apply plan_targets.
Qed.

Lemma plan_guar : mine (cr_call_id request) -> mine (d_instanceId d) -> guar w (apply_all w (plan_actions plan)).
Proof.
  intros Hc Hd. split; [|apply plan_protocol]. intros t k.
  destruct (decide ((t, k) = (ledger, commit_key request plan))) as [[= -> ->]|Hl].
  { destruct plan_gains as (E & E' & _). eapply change_ledger; [done|exact E|exact E'|].
    exists (cr_call_id request). split; [|done]. subst plan. by destruct kind. }
  destruct (decide (t = experiment_journal)) as [->|Hj].
  - destruct plan_journal_put as [Hput Hone]. destruct Hp as (_ & _ & _ & _ & He & _ & Hfree).
    destruct (decide (k = jkey d (nextSequence st))) as [->|Hk].
    + eapply (change_journal _ _ _ _ d (nextSequence st)); try done; apply He.
    + apply change_none, apply_all_other. eapply Forall_impl; [exact Hone|]. intros a Ha Ht. pose proof (Ha _ Ht) as ->.
      rewrite (put_target experiment_journal d (nextSequence st) (put_entry p) He) in Ht. congruence.
  - destruct (decide (kind = targeted /\ (t, k) = (control, tkey (cr_partition request)))) as [[Hk [= -> ->]]|Ht].
    + destruct (plan_consumes Hk) as (m & m' & (E & E' & Hmv & _) & _). by eapply change_treatment.
    + apply change_none, plan_targets; [done|done|]. intros Hk E. by destruct Ht.
Qed.

Lemma plan_lands : mine (cr_call_id request) -> ledger_none w -> committed request plan (apply_all w (plan_actions plan)).
Proof.
  intros Hc Hn. destruct plan_gains as (E & E' & Ho). split.
  - split; [exact E'|]. split; [exists (cr_call_id request); split; [subst plan; by destruct kind|done]|].
    intros k m Hk Hm. destruct (decide (k = commit_key request plan)) as [->|Hne]; [by rewrite E' in Hk; injection Hk as <-|].
    rewrite Ho in Hk by done. by destruct (Hn k m Hk).
  - intros Hk. assert (Hkind : kind = targeted) by (subst plan; by destruct kind).
    destruct (plan_consumes Hkind) as (m & m' & (_ & Hm' & _) & _ & Hs & Hcm & _).
    exists m', COMMITTED_WAITING. split_and!; [done..|]. rewrite Hcm. subst plan. by destruct kind.
Qed.
End landed.
End one_commit.

Definition commit_post (request : CommitRequest) (s : ProvState) (r : Result CommittedPlan thrown) (w : tables) : Prop :=
  match r with
  | Ok cm => writer_ok s w /\ committed request (cm_plan cm) w
  | Err x => error_view x w
  end.

Lemma recordCommitFailure_spec request plan out s w :
  writer_ok s w -> ledger_none w -> spec (recordCommitFailure request plan out) (commit_post request) s w.
Proof.
  intros Hs Hn. apply rgs_bind, (append_spec_P ledger_none); [done|apply ledger_none_stable|done|].
  intros j [[e|x]|x] w' Hs' Hn'; unfold rgs; cbn; [done|done|by left].
Qed.

Lemma attempt_once_spec request kind again s w :
  mine (cr_call_id request) -> writer_ok s w -> ledger_none w ->
  (forall s' w', writer_ok s' w' -> ledger_none w' -> spec again (commit_post request) s' w') ->
  spec (attempt_once request kind again) (commit_post request) s w.
Proof.
  intros Hc Hs Hn Hagain. unfold attempt_once. apply rgs_bind. unfold drawCommitIdentities.
  apply rgs_bind, quiet_spec; [by intros ? ? ? [_ ->]|]. intros w1 c Hr1 _.
  apply rgs_bind, quiet_spec; [by intros ? ? ? [_ ->]|]. intros w2 tx Hr2 _. unfold rgs at 1. cbn [se_ret rg fst snd].
  apply rgs_bind, quiet_spec; [by intros ? ? ? ->|]. intros w3 now Hr3 _.
  assert (Hr : rely w w3) by (etrans; [done|]; by etrans).
  assert (Hs3 : writer_ok s w3) by (by eapply writer_ok_stable).
  assert (Hn3 : ledger_none w3) by (by eapply (stable_rely _ ledger_none_stable)).
  apply rgs_bind. unfold rgs at 1, pure_step. destruct (Utc.formatUtcMillis now) as [at_|x]; cbn [se_ret se_throw rg fst snd]; [|by left].
  apply rgs_bind, (prepare_spec_P ledger_none); [done|apply ledger_none_stable|done|].
  intros j r w4 Hs4 Hn4 Hres. destruct r as [[p|x]|x]; [|done|by left].
  specialize (Hres p eq_refl). set (s4 := set_journal j s) in *. destruct Hs4 as [Hm4 Hj4].
  pose proof (reserved_pending _ _ _ _ Hj4 Hres) as Hp.
  cbn [lifted].
  set (ids := MkIdentities c tx).
  set (plan := planCommit kind (cr_partition request) (cr_call request) (cr_call_id request) ids at_ p).
  destruct (plan_journal_put request kind ids at_ p) as [Hput Hone].
  apply rgs_bind, rgs_perform. intros w5 Hr5 out w6 Htx.
  assert (Hp5 : pending (deps s4) (journal s4) p false w5) by (eapply pending_stable; [done|by apply rely_jrely]).
  assert (Hn5 : ledger_none w5) by (by eapply (stable_rely _ ledger_none_stable)).
  destruct (JournalTx.transact_pending _ _ _ _ _ _ _ _ _ Hp5 Htx Hput (JournalTx.one_is_own _ _ _ _ Hone)) as (landed & cl & Hv & Hp6 & Hcl & Hcv).
  set (P := fun w => if landed then committed request plan w else ledger_none w).
  assert (HP : stable P) by (destruct landed; [apply committed_stable|apply ledger_none_stable]).
  assert (Hg : guar w5 w6 /\ P w6).
  { destruct landed; cbn in Hv; [|destruct Hv as [-> _]; split; [apply guar_refl|done]].
    destruct Hv as (-> & Hd & Hh). split; [by eapply plan_guar|by eapply plan_lands]. }
  destruct Hg as [Hg HP6]. split; [done|]. split; [done|].
  apply rgs_bind, quiet_spec; [by intros ? ? ? ->|]. intros w7 ackNs Hr7 _.
  apply rgs_bind, quiet_spec; [by intros ? ? ? ->|]. intros w8 ackWall Hr8 _.
  assert (Hr68 : rely w6 w8) by (by etrans).
  assert (HP8 : P w8) by (by eapply (stable_rely _ HP)).
  assert (Hp8 : pending (deps s4) (journal s4) p landed w8) by (eapply pending_stable; [done|by apply rely_jrely]).
  apply rgs_bind, (confirm_spec_P p out _ landed cl); [done|done|exact Hcl|done|].
  intros j' r Hs8 Hview. destruct r as [[e|x]|e o]; cbn in Hview.
  - subst landed. done.
  - unfold rgs. cbn. subst P. cbn in HP8. destruct landed; [right; by do 2 eexists; apply HP8|by left].
  - subst landed. destruct out; try (by apply recordCommitFailure_spec).
    case_bool_decide; [by apply Hagain|by apply recordCommitFailure_spec].
Qed.

Lemma attemptCommit_spec request kind s w :
  mine (cr_call_id request) -> writer_ok s w -> ledger_none w -> spec (attemptCommit request kind) (commit_post request) s w.
Proof.
  intros Hc Hs Hn. unfold attemptCommit.
  assert (Hlast : forall s w, writer_ok s w -> ledger_none w ->
    spec (attempt_once request untargeted (se_throw (other (PlainError "")))) (commit_post request) s w).
  { intros s' w' Hs' Hn'. apply attempt_once_spec; [done..|]. intros s2 w2 _ Hn2. unfold rgs. cbn. by left. }
  destruct kind; [by apply attempt_once_spec|by apply Hlast].
Qed.

Definition confirmed_post (request : CommitRequest) (s : ProvState) (r : Result ConfirmedCommit thrown) (w : tables) : Prop :=
  match r with
  | Ok cc => writer_ok s w /\ committed request (cc_plan cc) w
  | Err x => error_view x w
  end.

Lemma committed_one request plan w : committed request plan w -> has_one w.
Proof. intros [H _]. by do 2 eexists. Qed.

Lemma executeCommit_spec request s w :
  mine (cr_call_id request) -> writer_ok s w -> ledger_none w -> spec (executeCommit request) (confirmed_post request) s w.
Proof.
  intros Hc Hs Hn. apply rgs_bind. eapply rgs_mono; [|by apply attemptCommit_spec].
  intros s' [cm|x] w' H; [|exact H]. destruct H as [Hs' Hcm].
  apply rgs_bind. unfold rgs at 1, pure_step.
  destruct (Utc.formatUtcMillis _) as [at_|x]; cbn [se_ret se_throw rg fst snd]; [|right; by eapply committed_one].
  apply rgs_bind, (append_spec_P (committed request (cm_plan cm))); [done|apply committed_stable|done|].
  intros j r w2 Hs2 Hcm2. destruct r as [[e|x]|x]; unfold rgs; cbn; [done|by eapply committed_one|].
  right. by eapply committed_one.
Qed.

(** ** The barrier *)

Section barrier.
Context (c : BarrierCommit) (k0 : ItemKey) (m0 : StoredItem).

Definition in_states (S : TreatmentState -> Prop) : tables -> Prop := treated (bc_partition c) (bc_commit_id c) S.

(** The commit stands and its treatment item is past ARMED. *)
Definition waiting (w : tables) : Prop := ledger_one k0 m0 w /\ in_states (fun s => s <> ARMED) w.

Lemma waiting_stable : stable waiting.
Proof. apply stable_and; [apply ledger_one_stable|apply treated_stable, not_armed_closed]. Qed.

Lemma waiting_one w : waiting w -> has_one w.
Proof. intros [H _]. by exists k0, m0. Qed.

(** The item is at [lo] or past it. *)
Definition past (lo s : TreatmentState) : Prop := s <> ARMED /\ rtc edge lo s.

Lemma past_closed lo : closed_states (past lo).
Proof.
  intros s s' [Hs Hr]. split; [done|]. intros He. split; [by inversion He; subst|]. by eapply rtc_r.
Qed.

Definition waiting_at (lo : TreatmentState) (w : tables) : Prop := waiting w /\ in_states (past lo) w.

Lemma waiting_at_stable lo : stable (waiting_at lo).
Proof. apply stable_and; [apply waiting_stable|apply treated_stable, past_closed]. Qed.

Lemma waiting_at_wait w : waiting w -> waiting_at COMMITTED_WAITING w.
Proof.
  intros H. split; [done|]. destruct H as [_ (m & s & Hm & Hs & Hne & Hc)]. exists m, s. split_and!; try done.
  split; [done|by apply waiting_reaches].
Qed.

(** The item has reached what a decoded image of it shows. *)
Definition image_ok (t : TreatmentItem) (w : tables) : Prop :=
  t_provider_commit_id t = Some (bc_commit_id c) -> in_states (past (t_state t)) w.

Lemma image_ok_stable t : stable (image_ok t).
Proof.
  split; intros w w' H Hr H1.
  - eapply (stable_rely _ (treated_stable _ _ _ (past_closed _))); [by apply H|done].
  - eapply (stable_journal _ (treated_stable _ _ _ (past_closed _))); [by apply H|done].
Qed.

Lemma row_image m t w :
  waiting w -> w control (tkey (bc_partition c)) = Some m -> decodeTreatmentItem m = Ok t ->
  image_ok t w /\ has_state m (t_state t).
Proof.
  intros [_ (m1 & s & Hm1 & Hs & Hne & _)] Hm Hd. rewrite Hm in Hm1. injection Hm1 as <-.
  apply treatment_item_decodes in Hd as (H1 & _ & _ & Hids & _). split; [|done]. intros Hc.
  pose proof (has_state_inj _ _ _ H1 Hs) as <-. exists m, (t_state t). split_and!; [done..| ].
  unfold treatment_ids, TREATMENT_ID_FIELDS in Hids. cbn [zip zip_with] in Hids. rewrite !Forall_cons in Hids.
  destruct Hids as (_ & _ & _ & [H4 _] & _). cbn in H4. by rewrite Hc in H4.
Qed.

Definition next_ok (n : NextRead) (w : tables) : Prop :=
  match n with next_read => True | next_decide t => image_ok t w end.

Definition outcome_view (o : BarrierOutcome) (w : tables) : Prop :=
  match o with
  | bo_released => in_states (fun s => s = RESPONSE_RELEASED) w
  | bo_safety_released => in_states (fun s => s = SAFETY_RELEASED) w
  | bo_externally_released _ => in_states (fun s => s = SAFETY_RELEASED) w
  end.

(** The image the next turn decides on shows the item further than [lo]. *)
Definition further (lo : TreatmentState) (n : NextRead) : Prop :=
  match n with next_read => True | next_decide t => rank lo < rank (t_state t) end.

Definition turn_post (lo : TreatmentState) (s : ProvState) (r : Result (BarrierOutcome + NextRead) thrown) (w : tables) : Prop :=
  match r with
  | Ok (inl o) => writer_ok s w /\ waiting w /\ outcome_view o w
  | Ok (inr n) => writer_ok s w /\ waiting w /\ next_ok n w /\ further lo n
  | Err x => error_view x w
  end.

Lemma turn_post_mono lo lo' s r w : rank lo' <= rank lo -> turn_post lo s r w -> turn_post lo' s r w.
Proof. intros Hl. destruct r as [[o|[|t]]|x]; cbn; try done. intros (? & ? & ? & ?). split_and!; try done. lia. Qed.

Definition transition_view (from to : TreatmentState) (r : TransitionResult) (w : tables) : Prop :=
  match r with
  | tr_applied _ => in_states (past to) w /\ (closed_states (fun s => s = to) -> in_states (fun s => s = to) w)
  | tr_superseded t => image_ok t w /\ rank from < rank (t_state t)
  | tr_not_applied => True
  end.

Definition transition_post (from to : TreatmentState) (s : ProvState) (r : Result TransitionResult thrown) (w : tables) : Prop :=
  match r with
  | Ok x => writer_ok s w /\ waiting w /\ transition_view from to x w
  | Err x => error_view x w
  end.

(** The attributes a transition of the barrier sets. *)
Definition transition_set (to : TreatmentState) (attr : option string) (eid : string) : list (string * json) :=
  (if bool_decide (to = SAFETY_RELEASED) then [("safety_release_cause", JStr "SAFETY_DEADLINE")] else [])
  ++ match attr with Some a => [(a, JStr eid)] | None => [] end.

Definition barrier_attribute (attr : option string) : Prop :=
  attr = None \/ attr = Some "observed_event_id" \/ attr = Some "release_event_id".

Lemma transition_set_ok to attr eid :
  barrier_attribute attr ->
  let set := transition_set to attr eid ++ [("state", JStr (state_text to))] in
  NoDup (map fst set) /\ member "version" set = None /\ member "state" set = Some (JStr (state_text to))
  /\ unset COMMIT_FIELDS set /\ unset SIGNAL_FIELDS set.
Proof.
  intros [->|[->| ->]]; destruct to; cbn; (split; [apply (bool_decide_unpack _); vm_compute; exact I|]);
    (split; [done|]); (split; [done|]); split; by repeat constructor.
Qed.

Lemma transition_effect from to attr eid p d st w out w' :
  edge from to -> from <> ARMED -> barrier_attribute attr ->
  waiting_at from w -> mine (d_instanceId d) -> pending d st p false w ->
  transact_step w (transition_actions (bc_partition c) from to (transition_set to attr eid) p) out w' ->
  exists landed cl, guar w w' /\ waiting w' /\ pending d st p landed w'
    /\ classifyJournalOutcome out (put_entry p) TRANSITION_JOURNAL_ACTION_INDEX = Ok cl /\ class_view cl landed
    /\ (landed = true -> in_states (fun s => s = to) w')
    /\ (landed = false -> forall i m t, out = condition_failed i (Some m) -> decodeTreatmentItem m = Ok t ->
          image_ok t w' /\ rank from < rank (t_state t)).
Proof.
  intros He Hne Hattr [[Hone (m & s & Hm & Hms & Hs & Hc)] Hpast] Hmine Hp Htx.
  set (actions := transition_actions _ _ _ _ _) in *.
  destruct (transition_set_ok to attr eid Hattr) as (Hnd & Hv & Hst & Hcm & Hsg).
  assert (Hjt := put_target experiment_journal d (nextSequence st) (put_entry p) ltac:(apply Hp)).
  destruct (JournalTx.transact_pending experiment_journal d st p actions 1 w out w' Hp Htx eq_refl) as (landed & cl & Hview & Hp' & Hcl & Hcv).
  { apply JournalTx.one_is_own. unfold JournalTx.one_journal_put, actions, transition_actions. rewrite !Forall_cons. by split_and!. }
  exists landed, cl. destruct landed.
  - destruct Hview as (-> & Hd & Hh). assert (Hrow := Hh). cbn [actions transition_actions forallb] in Hrow.
    apply andb_prop in Hrow as [Hrow _]. unfold row_holds in Hrow. cbn [action_target] in Hrow.
    change (MkKey (bc_partition c) TREATMENT_SORT_KEY) with (tkey (bc_partition c)) in Hrow. rewrite Hm in Hrow.
    apply (update_moves _ _ _ from to) in Hrow as (m' & E & Hmv & Hfrom & Hto & Hmem); [|done..].
    assert (Hrow' : apply_all w actions control (tkey (bc_partition c)) = Some m').
    { erewrite (apply_all_row w actions _ control (tkey (bc_partition c)) Hd); [rewrite Hm; exact E|left|done]. }
    assert (Hin : in_states (fun s => s = to) (apply_all w actions)).
    { exists m', to. split_and!; [done..|]. destruct (Forall_cons_1 _ _ _ Hcm) as [Ecm _]. by rewrite Hmem, Ecm. }
    assert (Hled : forall k, apply_all w actions ledger k = w ledger k).
    { intros k. apply apply_all_other. unfold actions, transition_actions. rewrite !Forall_cons, Hjt. by split_and!. }
    split; [|split; [split|by split_and!]].
    + split; [apply apply_all_guar; [done..|]; unfold actions, transition_actions; rewrite !Forall_cons; split_and!; [..|by constructor]|].
      * intros t k [= <- <-] _. change (MkKey (bc_partition c) TREATMENT_SORT_KEY) with (tkey (bc_partition c)). rewrite Hm.
        eapply change_treatment; [done|done|done|exact E|done].
      * intros t k Ht _. rewrite Hjt in Ht. injection Ht as <- <-.
        eapply (change_journal _ _ _ _ d (nextSequence st)); try done; apply Hp.
      * apply (proto_advance _ _ (bc_partition c) m m'); [exact Hled| |intros Ha; by rewrite (has_state_inj _ _ _ Ha Hfrom) in Hne].
        split_and!; [done..|]. intros p' Hne'. apply apply_all_other. unfold actions, transition_actions.
        rewrite !Forall_cons, Hjt. split_and!; [|done|done]. intros [= E0]. by destruct Hne'.
    + destruct Hone as (O1 & O2 & O3). split; [by rewrite Hled|]. split; [done|]. intros k x. rewrite Hled. apply O3.
    + destruct Hin as (x & y & Hx & Hy & -> & Hz). exists x, to. split_and!; [done..| |done]. by inversion He; subst.
  - destruct Hview as [-> Hcf]. split_and!; [apply guar_refl|split; [done|by exists m, s]|done..|].
    intros _ i x t Hout Hdec. destruct (Hcf _ _ Hout) as (n & a & t' & k' & -> & Ha & Hta & Hf & Hex).
    destruct Hex as [|Hex]; [done|]. destruct n as [|[|n]]; cbn in Ha; [|..|done].
    + injection Ha as <-. injection Hta as <- <-. change (MkKey (bc_partition c) TREATMENT_SORT_KEY) with (tkey (bc_partition c)) in Hex.
      destruct (row_image x t w) as [Himg Hst']; [split; [done|by exists m, s]|done|done|]. split; [done|].
      destruct Hpast as (m1 & s1 & Hm1 & Hs1 & [_ Hr1] & _). rewrite Hm1 in Hex. injection Hex as ->.
      rewrite (has_state_inj _ _ _ Hst' Hs1). apply edges_rank in Hr1 as [<-|]; [|done]. unfold row_holds in Hf. cbn [action_target] in Hf.
      change (MkKey (bc_partition c) TREATMENT_SORT_KEY) with (tkey (bc_partition c)) in Hf. rewrite Hm1 in Hf.
      apply (proj2 (scalar_str_iff _ _)) in Hs1. cbn in Hf. congruence.
    + injection Ha as <-. unfold row_holds in Hf. rewrite Hjt in Hf. destruct Hp as (_ & _ & _ & _ & _ & _ & Hrow).
      unfold jrow in Hrow. by rewrite Hrow in Hf.
Qed.

Lemma after_commit_error x w : has_one w -> (exists e, x = other e) \/ (exists f, x = fault f /\ f_phase f = after_commit) ->
  error_view x w.
Proof. intros H [[e ->]|(f & -> & Hf)]; cbn; [by right|]. by rewrite Hf. Qed.

Lemma notAppliedResult_spec to from out s w :
  writer_ok s w -> waiting w ->
  (forall i m t, out = condition_failed i (Some m) -> decodeTreatmentItem m = Ok t -> image_ok t w /\ rank from < rank (t_state t)) ->
  spec (notAppliedResult c from to out) (transition_post from to) s w.
Proof.
  intros Hs Hw Himg. pose proof (waiting_one _ Hw) as H1. unfold notAppliedResult.
  destruct out as [|i [m|]|x|x]; try (unfold rgs; by cbn).
  destruct (decodeTreatmentItem m) as [t|e] eqn:Ed; unfold rgs; cbn; [|done]. split; [done|]. split; [done|]. by eapply Himg.
Qed.

Lemma transition_spec from to attr type body causation s w :
  edge from to -> from <> ARMED -> barrier_attribute attr -> writer_ok s w -> waiting_at from w ->
  spec (transition c from to attr type body causation) (transition_post from to) s w.
Proof.
  intros He Hne Hattr Hs Hw. apply rgs_bind, (prepare_spec_P (waiting_at from)); [done|apply waiting_at_stable|done|].
  intros j r w1 Hs1 Hw1 Hres. destruct r as [[p|x]|x]; cbn [lifted].
  2: { unfold rgs. cbn. apply waiting_one, Hw1. }
  2: { right. apply waiting_one, Hw1. }
  specialize (Hres p eq_refl). set (s1 := set_journal j s) in *. destruct Hs1 as [Hm1 Hj1].
  pose proof (reserved_pending _ _ _ _ Hj1 Hres) as Hp1.
  apply rgs_bind, quiet_spec; [by intros ? ? ? [_ ->]|]. intros w2 token Hr2 _.
  apply rgs_bind, rgs_perform. intros w3 Hr3 out w4 Htx.
  assert (Hr13 : rely w1 w3) by (by etrans).
  assert (Hw3 : waiting_at from w3) by (by eapply (stable_rely _ (waiting_at_stable from))).
  assert (Hp3 : pending (deps s1) (journal s1) p false w3) by (eapply pending_stable; [done|by apply rely_jrely]).
  destruct (transition_effect from to attr _ p (deps s1) (journal s1) w3 out w4 He Hne Hattr Hw3 Hm1 Hp3 Htx)
    as (landed & cl & Hg & Hw4 & Hp4 & Hcl & Hcv & Hland & Hlost).
  split; [done|]. split; [done|].
  apply rgs_bind, (confirm_spec_P p out _ landed cl); [done..|].
  intros j' r Hs4 Hview. destruct r as [[e|x]|e o]; cbn in Hview.
  - unfold rgs. cbn. split_and!; [done..| |by intros _; apply Hland].
    destruct (Hland Hview) as (m & s' & Hm & Hst & -> & Hcm). exists m, to. split_and!; [done|done|split; [by inversion He; subst|apply rtc_refl]|done].
  - unfold rgs. cbn. by apply waiting_one.
  - by apply notAppliedResult_spec; [..|apply Hlost].
Qed.

Lemma waitOnePoll_spec s w : writer_ok s w -> waiting w -> forall lo, spec (inner_next waitOnePoll) (turn_post lo) s w.
Proof.
  intros Hs Hw lo. apply rgs_bind. unfold waitOnePoll. apply rgs_bind, quiet_spec; [by intros ? ? ? ->|].
  intros w1 _ Hr _. unfold rgs. cbn. split_and!; [by eapply writer_ok_stable|by eapply (stable_rely _ waiting_stable)|done|done].
Qed.

(** What the barrier does after a transition. *)
Lemma after_transition from to (r : Result TransitionResult thrown) (k : string -> PM (BarrierOutcome + NextRead)) s w :
  transition_post from to s r w ->
  (forall eid, writer_ok s w -> waiting w -> transition_view from to (tr_applied eid) w -> spec (k eid) (turn_post from) s w) ->
  match r with
  | Ok a => spec (match a with tr_applied eid => k eid | x => inner_next (continueAfter x) end) (turn_post from) s w
  | Err x => turn_post from s (Err x) w
  end.
Proof.
  intros H Hk. destruct r as [[eid|t|]|x]; [..|exact H]; destruct H as (Hs & Hw & Hv).
  - by apply Hk.
  - unfold rgs. by cbn.
  - by apply waitOnePoll_spec.
Qed.

Lemma perform_release_spec id s w :
  writer_ok s w -> waiting_at TIMEOUT_OBSERVED w -> spec (perform_release c id) (turn_post TIMEOUT_OBSERVED) s w.
Proof.
  intros Hs Hw. apply rgs_bind.
  eapply rgs_mono; [|apply (transition_spec TIMEOUT_OBSERVED RESPONSE_RELEASED); [constructor|done|by right; right|done|done]].
  intros s' r w' H. apply (after_transition _ _ _ (fun _ => se_ret (inl bo_released)) _ _ H).
  intros eid Hs' Hw' Hv. unfold rgs. cbn. split_and!; [done..|]. apply Hv, released_closed.
Qed.

Lemma perform_observe_spec id s w :
  writer_ok s w -> waiting_at TIMEOUT_SIGNALLED w -> spec (perform_observe c id) (turn_post TIMEOUT_SIGNALLED) s w.
Proof.
  intros Hs Hw. apply rgs_bind.
  eapply rgs_mono; [|apply (transition_spec TIMEOUT_SIGNALLED TIMEOUT_OBSERVED); [constructor|done|by right; left|done|done]].
  intros s' r w' H. apply (after_transition _ _ _ (perform_release c) _ _ H). intros eid Hs' Hw' [Hp _].
  eapply rgs_mono; [|by apply perform_release_spec]. intros s2 r2 w2. by apply turn_post_mono.
Qed.

Lemma safetyReleaseBody_spec cause from s w (Q : ProvState -> Result (list (string * json)) thrown -> tables -> Prop) :
  writer_ok s w -> waiting w ->
  (forall b w', rely w w' -> Q s (Ok b) w') -> (forall e w', waiting w' -> Q s (Err (other e)) w') ->
  spec (safetyReleaseBody c cause from) Q s w.
Proof.
  intros Hs Hw HQ HE. apply rgs_bind, quiet_spec; [by intros ? ? ? ->|]. intros w1 now Hr _.
  apply rgs_bind. unfold rgs at 1, pure_step.
  destruct (Money.Money.elapsedNs _ _); cbn [se_ret se_throw rg fst snd];
    [by apply HQ|apply HE; by eapply (stable_rely _ waiting_stable)].
Qed.

Lemma perform_safetyRelease_spec from s w :
  writer_ok s w -> waiting_at (wait_of from) w -> spec (perform_safetyRelease c from) (turn_post (wait_of from)) s w.
Proof.
  intros Hs Hw. apply rgs_bind, safetyReleaseBody_spec; [done|apply Hw| |intros e w' Hw'; right; by apply waiting_one].
  intros b w' Hr. apply rgs_bind.
  eapply rgs_mono; [|apply (transition_spec (wait_of from) SAFETY_RELEASED);
    [constructor; by destruct from|by destruct from|by left|by eapply writer_ok_stable|by eapply (stable_rely _ (waiting_at_stable _))]].
  intros s' r w2 H. apply (after_transition _ _ _ (fun _ => se_ret (inl bo_safety_released)) _ _ H).
  intros eid Hs' Hw' Hv. unfold rgs. cbn. split_and!; [done..|]. apply Hv, safety_released_closed.
Qed.

Lemma recordExternalRelease_spec cause s w :
  writer_ok s w -> waiting w -> in_states (fun s => s = SAFETY_RELEASED) w ->
  forall lo, spec (recordExternalRelease c cause) (turn_post lo) s w.
Proof.
  intros Hs Hw Hrel lo. apply rgs_bind. unfold rgs at 1. cbn [se_get rg fst snd].
  apply rgs_bind, safetyReleaseBody_spec; [done|done| |intros e w' Hw'; right; by apply waiting_one].
  intros b w' Hr.
  apply rgs_bind, (append_spec_P (fun w => waiting w /\ in_states (fun s => s = SAFETY_RELEASED) w)).
  - by eapply writer_ok_stable.
  - apply stable_and; [apply waiting_stable|apply treated_stable, safety_released_closed].
  - split; [by eapply (stable_rely _ waiting_stable)|by eapply (stable_rely _ (treated_stable _ _ _ safety_released_closed))].
  - intros j r w2 Hs2 [Hw2 Hrel2]. destruct r as [[e|x]|x]; unfold rgs; cbn; [done|by apply waiting_one|].
    right. by apply waiting_one.
Qed.

(** The step decided from an image of the item. *)
Definition image_state (t : option TreatmentItem) : TreatmentState :=
  match t with Some t => t_state t | None => COMMITTED_WAITING end.

Lemma perform_step_spec t elapsed limit s w :
  writer_ok s w -> waiting w -> (forall x, t = Some x -> image_ok x w) ->
  spec (perform_step (decideBarrierStep t (bc_commit_id c) elapsed limit) c) (turn_post (image_state t)) s w.
Proof.
  intros Hs Hw Himg.
  assert (Hun : forall d lo, spec (perform_step (unexpected_state d) c) (turn_post lo) s w).
  { intros d lo. unfold rgs. cbn. by apply waiting_one. }
  unfold decideBarrierStep. destruct t as [t|]; cbn [image_state].
  2: { destruct (_ >=? _); [apply (perform_safetyRelease_spec cw_waiting); [done|by apply waiting_at_wait]|by apply waitOnePoll_spec]. }
  case_bool_decide as Hc; cbn [negb]; [|apply Hun]. pose proof (Himg t eq_refl Hc) as Hp.
  destruct (t_state t) eqn:Est; try apply Hun.
  - destruct (_ >=? _); [by apply (perform_safetyRelease_spec cw_waiting)|by apply waitOnePoll_spec].
  - unfold signalledStep. destruct (t_signal_event_id t); [by apply perform_observe_spec|].
    destruct (_ >=? _); [by apply (perform_safetyRelease_spec cw_signalled)|by apply waitOnePoll_spec].
  - unfold observedStep. destruct (t_observed_event_id t); [by apply perform_release_spec|apply Hun].
  - apply recordExternalRelease_spec; [done..|]. destruct Hp as (m & s' & Hm & Hs' & [_ Hr] & Hcm). exists m, s'. split_and!; try done.
    inversion Hr as [|? y ? He]; subst; [done|inversion He; by subst].
Qed.

Lemma readTreatment_spec s w (Q : ProvState -> Result (option TreatmentItem) thrown -> tables -> Prop) :
  writer_ok s w -> waiting w ->
  (forall t w', writer_ok s w' -> waiting w' -> (forall x, t = Some x -> image_ok x w') -> Q s (Ok t) w') ->
  spec (readTreatment c) Q s w.
Proof.
  intros Hs Hw HQ. apply rgs_bind. unfold loadTreatment, readControl.
  apply rgs_bind, quiet_spec; [by intros ? ? ? [_ ->]|]. intros w1 r Hr Hstep. unfold rgs at 1. cbn [se_ret rg fst snd].
  assert (Hs1 : writer_ok s w1) by (by eapply writer_ok_stable).
  assert (Hw1 : waiting w1) by (by eapply (stable_rely _ waiting_stable)).
  assert (Hlog : forall e, spec (own (Log (bc_call_id c) (rf_code e) (rf_detail e)) ;;; se_ret None)%se Q s w1).
  { intros e. apply rgs_bind, quiet_spec; [by intros ? ? ? ->|]. intros w2 _ Hr2 _. unfold rgs. cbn.
    apply HQ; [by eapply writer_ok_stable|by eapply (stable_rely _ waiting_stable)|done]. }
  destruct Hstep as [Hstep _]. inversion Hstep as [E|code E]; subst r; [|apply Hlog].
  destruct (w1 control _) as [m|] eqn:Em.
  - destruct (decodeTreatmentItem m) as [t|e] eqn:Ed; [|apply Hlog]. unfold rgs. cbn. apply HQ; [done..|].
    intros x [= <-]. by apply (row_image m).
  - unfold rgs. cbn. by apply HQ.
Qed.

Definition next_state (n : NextRead) : TreatmentState := match n with next_read => ARMED | next_decide t => t_state t end.

Lemma barrier_turn_spec next s w :
  writer_ok s w -> waiting w -> next_ok next w -> spec (barrier_turn c next) (turn_post (next_state next)) s w.
Proof.
  intros Hs Hw Hn. apply rgs_bind.
  assert (Hk : forall t w', writer_ok s w' -> waiting w' -> (forall x, t = Some x -> image_ok x w') ->
    spec (se_modify (fun s => set_wait (latestWaitState (option_map t_state t) (waitState s)) s) ;;;
          now <- own NowNs ;;
          perform_step (decideBarrierStep t (bc_commit_id c) (now - bc_ack_ns c) (safety_release_ms * NS_PER_MS)) c)%se
      (turn_post (image_state t)) s w').
  { intros t w' Hs' Hw' Himg. apply rgs_bind. unfold rgs at 1. cbn [se_modify rg fst snd].
    apply rgs_bind, quiet_spec; [by intros ? ? ? ->|]. intros w1 now Hr _.
    apply perform_step_spec; [by eapply writer_ok_stable|by eapply (stable_rely _ waiting_stable)|].
    intros x Hx. eapply (stable_rely _ (image_ok_stable x)); [by apply Himg|done]. }
  destruct next as [|t].
  - apply readTreatment_spec; [done..|]. intros t w' Hs' Hw' Himg. eapply rgs_mono; [|by apply Hk].
    intros s2 r2 w2. apply turn_post_mono. by destruct (image_state t).
  - unfold rgs at 1. cbn [se_ret rg fst snd]. apply Hk; [done..|]. by intros x [= <-].
Qed.

Definition barrier_post (s : ProvState) (r : Result (option BarrierOutcome) thrown) (w : tables) : Prop :=
  match r with
  | Ok o => writer_ok s w /\ waiting w /\ (forall x, o = Some x -> outcome_view x w)
  | Err x => error_view x w
  end.

Lemma awaitRelease_spec turns s w : writer_ok s w -> waiting w -> spec (awaitRelease turns c) barrier_post s w.
Proof.
  intros Hs Hw. apply rgs_bind. unfold rgs at 1. cbn [se_modify rg fst snd].
  assert (Hl : forall next s w, writer_ok s w -> waiting w -> next_ok next w -> spec (barrier_loop turns c next) barrier_post s w).
  { induction turns as [|n IH]; intros next s1 w1 H1 H2 H3; [by unfold rgs; cbn|].
    cbn [barrier_loop]. apply rgs_bind. eapply rgs_mono; [|by apply barrier_turn_spec].
    intros s2 [[o|nx]|x] w2 H; [..|exact H].
    - destruct H as (Ha & Hb & Hd). unfold rgs. cbn. split_and!; [done..|]. by intros x [= <-].
    - destruct H as (Ha & Hb & Hd & _). by apply IH. }
  by apply Hl.
Qed.
End barrier.

(** ** One call *)

(** Nothing of this invocation is stored yet. *)
Definition no_journal (w : tables) : Prop :=
  forall d k, mine (d_instanceId d) -> isSourceSequence k = true -> jrow experiment_journal d w k = None.
Definition untouched (w : tables) : Prop := ledger_none w /\ no_journal w.

Lemma untouched_rely w w' : untouched w -> rely w w' -> untouched w'.
Proof.
  intros [H1 H2] Hr. split; [by eapply (stable_rely _ ledger_none_stable)|].
  intros d k Hd Hk. rewrite (rely_journal _ _ Hr d k Hd Hk). by apply H2.
Qed.

(** A response that agrees with a ledger transaction on its identities. *)
Definition answers (resp m : list (string * json)) : Prop :=
  member "outcome" resp = Some (JStr "SUCCEEDED") /\ member "status" m = Some (JStr "SUCCEEDED")
  /\ Forall (fun f => member f resp = member f m)
       ["provider_transaction_id"; "provider_call_id"; "attempt_id"; "provider_request_id"].

Definition call_view (r : Result (option (list (string * json))) thrown) (w : tables) : Prop :=
  match r with
  | Ok (Some resp) =>
      (member "outcome" resp = Some (JStr "REJECTED") /\ ledger_none w)
      \/ exists k m, ledger_one k m w /\ answers resp m
  | Ok None => has_one w
  | Err x => error_view x w
  end.

Definition call_post (_ : ProvState) (r : Result (option (list (string * json))) thrown) (w : tables) : Prop := call_view r w.

Lemma readControl_spec {T} pk sk (decode : StoredItem -> Result T string) s w
    (Q : ProvState -> Result (Result (option T) ProviderStateReadFailure) thrown -> tables -> Prop) :
  (forall r w', rely w w' -> Q s (Ok r) w') -> spec (readControl pk sk decode) Q s w.
Proof.
  intros HQ. apply rgs_bind, quiet_spec; [by intros ? ? ? [_ ->]|]. intros w1 r Hr _. unfold rgs. cbn. by apply HQ.
Qed.

Lemma readOrFault_spec {T} (r : Result (option T) ProviderStateReadFailure) id s w
    (Q : ProvState -> Result (option T) thrown -> tables -> Prop) :
  (forall v, Q s (Ok v) w) -> (forall f, f_phase f = before_commit -> Q s (Err (fault f)) w) -> spec (readOrFault r id) Q s w.
Proof. intros H1 H2. destruct r; unfold rgs; cbn; auto. Qed.

Lemma openJournal_spec scope s w (Q : ProvState -> Result unit thrown -> tables -> Prop) :
  untouched w -> (forall s' w', writer_ok s' w' -> ledger_none w' -> Q s' (Ok tt) w') -> spec (openJournal scope) Q s w.
Proof.
  intros Hu HQ. apply rgs_bind, quiet_spec; [by intros ? ? ? [_ ->]|]. intros w1 id Hr [Hid _].
  unfold rgs. cbn. destruct (untouched_rely _ _ Hu Hr) as [Hn Hj]. apply HQ; [|done]. split; [done|].
  unfold jinv. cbn. split_and!; [done| |intros _ Hk; by apply Hj|done..|naive_solver].
  intros k Hk. split; [apply isSourceSequence_range in Hk; lia|]. intros _. by apply Hj.
Qed.

Lemma appendOrFault_spec P id type body phase causation s w (Q : ProvState -> Result string thrown -> tables -> Prop) :
  writer_ok s w -> stable P -> P w ->
  (forall j e w', writer_ok (set_journal j s) w' -> P w' -> Q (set_journal j s) (Ok e) w') ->
  (forall j x w', P w' -> (exists e, x = other e) \/ (exists f, x = fault f /\ f_phase f = phase) -> Q (set_journal j s) (Err x) w') ->
  spec (appendOrFault id type body phase causation) Q s w.
Proof.
  intros Hs HP Hw HQ HE. apply rgs_bind, (append_spec_P P); [done..|].
  intros j r w' Hs' HP'. destruct r as [[e|x]|x]; unfold rgs; cbn; [by apply HQ|apply HE; [done|right; by eexists]|].
  apply HE; [done|left; by eexists].
Qed.

Lemma before_error x w : ledger_none w -> (exists e, x = other e) \/ (exists f, x = fault f /\ f_phase f = before_commit) -> error_view x w.
Proof. intros H [[e ->]|(f & -> & Hf)]; cbn; [by left|]. by rewrite Hf. Qed.

Context (sha256Hex : string -> string) (deployment : ExecutionIdentity).

Lemma rejectUnattributedCall_spec raw id cause s w :
  untouched w ->
  spec (r <- rejectUnattributedCall deployment raw id cause ;; se_ret (Some r))%se call_post s w.
Proof.
  intros Hu. apply rgs_bind. unfold rejectUnattributedCall. apply rgs_bind, readControl_spec. intros r w1 Hr.
  assert (Hu1 : untouched w1) by (by eapply untouched_rely).
  destruct r as [[v|]|e]; [|unfold rgs; cbn; apply Hu1..].
  apply rgs_bind, openJournal_spec; [done|]. intros s2 w2 Hs2 Hn2.
  apply rgs_bind, (append_spec_P ledger_none); [done|apply ledger_none_stable|done|].
  intros j r w3 Hs3 Hn3. destruct r as [[e|x]|x]; unfold rgs; cbn; [|done|by left]. left. by split.
Qed.

Lemma openSession_spec raw id partition config s w :
  untouched w ->
  spec (openSession sha256Hex deployment raw id partition config)
    (fun s' r w' => match r with
       | Ok sn => writer_ok s' w' /\ ledger_none w' /\ sn_call_id sn = id
       | Err x => error_view x w'
       end) s w.
Proof.
  intros Hu. apply rgs_bind, readControl_spec. intros r1 w1 Hr1. apply rgs_bind, readOrFault_spec;
    [|intros f Hf; cbn; rewrite Hf; by eapply untouched_rely]. intros pay.
  apply rgs_bind, readControl_spec. intros r2 w2 Hr2.
  assert (Hu2 : untouched w2) by (by do 2 (eapply untouched_rely; [|done])).
  apply rgs_bind, readOrFault_spec; [|intros f Hf; cbn; rewrite Hf; apply Hu2]. intros t.
  apply rgs_bind, openJournal_spec; [done|]. intros s3 w3 Hs3 Hn3.
  apply rgs_bind, (append_spec_P ledger_none); [done|apply ledger_none_stable|done|].
  intros j r w4 Hs4 Hn4. destruct r as [[e|x]|x]; unfold rgs; cbn; [done|done|by left].
Qed.

Lemma reject_call_spec sn raw d s w :
  writer_ok s w -> ledger_none w -> spec (r <- reject_call sn raw d ;; se_ret (Some r))%se call_post s w.
Proof.
  intros Hs Hn. apply rgs_bind. apply rgs_bind, (appendOrFault_spec ledger_none); [done|apply ledger_none_stable|done|..].
  - intros j e w' _ Hn'. unfold rgs. cbn. left. by split.
  - intros j x w' Hn' Hx. by apply before_error.
Qed.

Lemma commit_answers request plan :
  answers (succeededResponse (cr_call_id request) (cr_call request) (provider_transaction_id (ids_of plan))) (commit_item request plan).
Proof. split; [done|]. split; [done|]. rewrite !Forall_cons. by split_and!. Qed.

Lemma finish_spec turns sn call request cc s w :
  cr_partition request = cp_key (sn_partition sn) -> writer_ok s w -> committed request (cc_plan cc) w ->
  spec (finish turns sn call cc)
    (fun _ r w' => match r with
       | Ok _ => ledger_one (commit_key request (cc_plan cc)) (commit_item request (cc_plan cc)) w'
       | Err x => error_view x w'
       end) s w.
Proof.
  intros Hpart Hs Hcm. unfold finish. destruct (plan_kind (cc_plan cc)) eqn:Ek.
  - apply rgs_bind. set (bc := MkBarrierCommit _ _ _ _ _ _).
    eapply rgs_mono; [|apply (awaitRelease_spec bc (commit_key request (cc_plan cc)) (commit_item request (cc_plan cc)))].
    + intros s' [o|x] w' H; [|exact H]. destruct H as (_ & [H _] & _). unfold rgs. by cbn.
    + done.
    + destruct Hcm as [H1 H2]. split; [done|]. unfold in_states. subst bc. cbn. rewrite <-Hpart. by apply H2.
  - apply rgs_bind, (appendOrFault_spec (committed request (cc_plan cc))); [done|apply committed_stable|done|..].
    + intros j e w' _ [H _]. unfold rgs. by cbn.
    + intros j x w' H Hx. eapply after_commit_error; [by eapply committed_one|done].
Qed.

Lemma commit_call_spec turns sn call s w :
  mine (sn_call_id sn) -> writer_ok s w -> ledger_none w -> spec (commit_call turns sn call) call_post s w.
Proof.
  intros Hid Hs Hn. apply rgs_bind, (appendOrFault_spec ledger_none); [done|apply ledger_none_stable|done|..].
  2: { intros j x w' Hn' Hx. by apply before_error. }
  intros j acceptedId w1 Hs1 Hn1. cbv zeta beta. match goal with |- context [executeCommit ?r] => set (request := r) end.
  apply rgs_bind. eapply rgs_mono; [|by apply executeCommit_spec].
  intros s2 [cc|x] w2 H; [|exact H]. destruct H as [Hs2 Hcm].
  apply rgs_bind. eapply rgs_mono; [|by apply (finish_spec turns sn call request cc)].
  intros s3 [o|x] w3 H; [|exact H]. unfold rgs. cbn. destruct o; cbn; [right|]; do 2 eexists; [|exact H].
  split; [exact H|]. apply (commit_answers request).
Qed.

Lemma handleCall_spec turns raw s w : untouched w -> spec (handleCall sha256Hex deployment turns raw) call_post s w.
Proof.
  intros Hu. apply rgs_bind, quiet_spec; [by intros ? ? ? [_ ->]|]. intros w1 id Hr1 [Hid _].
  assert (Hu1 : untouched w1) by (by eapply untouched_rely).
  apply rgs_bind.
  assert (Hk : forall a w2, untouched w2 ->
    spec (match a with
          | unattributed cause => r <- rejectUnattributedCall deployment raw id cause ;; se_ret (Some r)
          | attributed partition config =>
              session <- openSession sha256Hex deployment raw id partition config ;;
              match evaluateAcceptance raw (sn_context session) with
              | rejected decision => r <- reject_call session raw decision ;; se_ret (Some r)
              | accepted call => commit_call turns session call
              end
          end)%se call_post s w2).
  { intros [partition config|cause] w2 Hu2; [|by apply rejectUnattributedCall_spec].
    apply rgs_bind. eapply rgs_mono; [|by apply openSession_spec].
    intros s3 [sn|x] w3 H; [|exact H]. destruct H as (Hs3 & Hn3 & Hsn).
    destruct (evaluateAcceptance _ _); [apply commit_call_spec; [by rewrite Hsn|done..]|by apply reject_call_spec]. }
  unfold attribute. destruct (resolveCallPartition deployment raw) as [partition|].
  - apply rgs_bind, readControl_spec. intros r w2 Hr2. assert (Hu2 : untouched w2) by (by eapply untouched_rely).
    apply rgs_bind, readOrFault_spec; [|intros f Hf; cbn; rewrite Hf; apply Hu2].
    intros v. unfold rgs at 1. cbn [se_ret rg fst snd]. 
    destruct v as [cfg|]; [exact (Hk (attributed partition cfg) _ Hu2)|exact (Hk (unattributed _) _ Hu2)].
  - unfold rgs at 1. cbn [se_ret rg fst snd]. exact (Hk (unattributed _) _ Hu1).
Qed.
End invocation.

(** ** Calls beside each other *)

Lemma provider_guar_rely (mine others : string -> Prop) w w' :
  (forall x, mine x -> others x -> False) -> (forall x, mine x \/ others x -> isUuid4 x = true) ->
  guar mine w w' -> rely others w w'.
Proof.
  intros Hdis Hu [Hg _]. split.
  - intros k m (x & Hx & Ho). destruct (Hg ledger k) as [E|m' _ E1 E2 (y & Hy & Hm)|d n ? _|m1 m2 ? _]; try done.
    + by rewrite E.
    + rewrite E1, E2. split; [done|]. intros [= ->]. rewrite Hx in Hy. injection Hy as ->. by destruct (Hdis y).
  - intros d k Hd Hk. unfold jrow.
    destruct (Hg experiment_journal (jkey d k)) as [E|m' ?|d' n _ E Hd' Hn Hkey|m1 m2 ? _]; try done.
    destruct (Hdis (d_instanceId d')); [done|]. rewrite <-(jkey_instances d d' k n); auto.
  - intros k Hk. destruct (Hg control k) as [E|m' ?|d' n ? _|m1 m2 _ _ E1 E2 Hmv]; try done.
    + by rewrite E.
    + rewrite E1, E2. apply rtc_once. by constructor.
Qed.

(** ** Theorems *)

(** C3: The ledger tells the truth about every call. Run one call beside any other parties that
    leave its own rows alone and move treatment items along their state machine, over a store
    that may refuse, fail or answer ambiguously at any step. If the call answers REJECTED, it
    created no ledger transaction; if it answers SUCCEEDED, exactly one transaction of the
    call exists and carries the identities of the answer; while it waits at the barrier
    exactly one exists; and the phase of a fault says whether one exists: before the commit
    none, after it exactly one, unknown at most one. *)
Theorem provider_call_truthful (mine : string -> Prop) sha256Hex deployment turns raw s0 w0 steps s r w :
  untouched mine w0 ->
  iexec (prov_step mine) (rely mine) (handleCall sha256Hex deployment turns raw s0) w0 steps (s, r) w ->
  call_view mine r w.
Proof.
  intros Hu Hx. by destruct (rg_iexec _ _ _ _ _ _ _ _ _ _ (handleCall_spec mine sha256Hex deployment turns raw s0 w0 Hu) Hx).
Qed.

(** A call writes nothing but its own. Every effect of a call leaves each stored item as it
    was, except that it may create a ledger transaction or a journal event of its own where
    none was, or move a treatment item along one edge of its state machine, counting the
    version and keeping the commit once made; and since that is all the other parties are
    assumed to do, calls with disjoint identities run beside each other in any interleaving. *)
Theorem provider_writes_only_its_own (mine others : string -> Prop) sha256Hex deployment turns raw s0 w0 steps s r w :
  untouched mine w0 -> (forall x, mine x -> others x -> False) ->
  (forall x, mine x \/ others x -> isUuid4 x = true) ->
  iexec (prov_step mine) (rely mine) (handleCall sha256Hex deployment turns raw s0) w0 steps (s, r) w ->
  Forall (fun p => guar mine p.1 p.2 /\ rely others p.1 p.2) steps.
Proof.
  intros Hu Hdis Huuid Hx.
  destruct (rg_iexec _ _ _ _ _ _ _ _ _ _ (handleCall_spec mine sha256Hex deployment turns raw s0 w0 Hu) Hx) as [_ HF].
  eapply Forall_impl; [exact HF|]. intros [w1 w2] Hg. split; [done|]. cbn in *. by eapply provider_guar_rely.
Qed.

(** C21: The barrier's outcome is the treatment's. Whatever the other parties do and whatever the
    store answers, when the wait of a committed call ends as released its treatment item is
    in RESPONSE_RELEASED, and when it ends as safety-released (by the deadline or by another
    writer) it is in SAFETY_RELEASED, still under the call's own commit; the response never
    leaves while the treatment is in a wait state. *)
Theorem barrier_outcome_truthful (mine : string -> Prop) turns c k0 m0 s0 w0 steps s o w :
  writer_ok mine s0 w0 -> waiting mine c k0 m0 w0 ->
  iexec (prov_step mine) (rely mine) (awaitRelease turns c s0) w0 steps (s, Ok (Some o)) w ->
  treated (bc_partition c) (bc_commit_id c)
    (fun st => st = match o with bo_released => RESPONSE_RELEASED | _ => SAFETY_RELEASED end) w
  /\ ledger_one mine k0 m0 w.
Proof.
  intros Hs Hw Hx.
  destruct (rg_iexec _ _ _ _ _ _ _ _ _ _ (awaitRelease_spec mine c k0 m0 turns s0 w0 Hs Hw) Hx) as [(_ & [H1 _] & Ho) _].
  specialize (Ho o eq_refl). split; [|exact H1]. by destruct o.
Qed.

(** ** A run *)

(** A store without faults; the source hands out one UUID. *)
Definition demo_id : string := "3f1c2a9e-8b4d-4c1e-9f00-1a2b3c4d5e6f".
Definition demo_mine (x : string) : Prop := x = demo_id.

Definition calm_transact (actions : list WriteAction) (w : tables) : WriteOutcome * tables :=
  if bool_decide (distinct_targets actions) && forallb (row_holds w) actions then (applied, apply_all w actions)
  else (definitive_failure "TransactionCanceledException", w).

Definition calm (R : Type) (e : ProvEff R) : tables -> R * tables :=
  match e with
  | inl j =>
      match j in JournalEff R return tables -> R * tables with
      | PortAppend entry => fun w =>
          let a := createDurableJournalPort experiment_journal entry in
          if row_holds w a then (Ok applied, apply_row w a) else (Err (ForeignError "ValidationException"), w)
      | ClockNow => fun w => (Some 1791201600000, w)
      | NextId => fun w => (demo_id, w)
      | CallerTransact _ _ => fun w => (definitive_failure "ValidationException", w)
      end
  | inr o =>
      match o in OwnEff R return tables -> R * tables with
      | GetControl k => fun w => (Ok (w control k), w)
      | Transact actions _ => calm_transact actions
      | NextUuid => fun w => (demo_id, w)
      | WallNow => fun w => (Some 1791201600000, w)
      | NowNs => fun w => (0, w)
      | Sleep _ => fun w => (tt, w)
      | Log _ _ _ => fun w => (tt, w)
      end
  end.

#[export] Instance distinct_targets_dec actions : Decision (distinct_targets actions).
Proof. unfold distinct_targets. apply _. Defined.

Lemma provider_calm_step R (e : ProvEff R) w : prov_step demo_mine R e w (calm R e w).1 (calm R e w).2.
Proof.
  destruct e as [[entry| | |entry index]|[k|actions token| | | |ms|a b c]]; cbn; try done; [|constructor|by split; [constructor|]|].
  - set (a := createDurableJournalPort experiment_journal entry). destruct (row_holds w a) eqn:Eh; cbn; [|constructor].
    unfold row_holds, apply_row in *. destruct (action_target a) as [[t k]|] eqn:Et; [|done].
    eapply store_write_ok; [exact Et|]. by constructor.
  - unfold calm_transact. case_bool_decide as Hd; cbn; [|constructor].
    destruct (forallb (row_holds w) actions) eqn:Eh; cbn; [by constructor|constructor].
Qed.

Definition demo_trial : string := "00000000-0000-4000-8000-000000000000".
Definition demo_digest : string := "0123456789abcdef0123456789abcdef0123456789abcdef0123456789abcdef".
Definition demo_partition : string := demo_id +:+ "#" +:+ demo_trial.

Definition demo_config : StoredItem :=
  [("pk", JStr demo_partition); ("sk", JStr "config"); ("execution_manifest_sha256", JStr demo_digest);
   ("registered_caller_id", JStr "conventional"); ("scenario", JStr "COMMIT_THEN_TIMEOUT"); ("payment_id", JStr "pay-1");
   ("trial_id", JStr demo_trial); ("trial_manifest_sha256", JStr demo_digest);
   ("safety_release_ms", JNum (JSInt 15000)); ("treatment_poll_interval_ms", JNum (JSInt 250))].
Definition demo_payment : StoredItem :=
  [("pk", JStr demo_partition); ("sk", JStr "payment#pay-1"); ("payment_id", JStr "pay-1"); ("currency", JStr "BRL")].
Definition demo_treatment (state : TreatmentState) (more : list (string * json)) : StoredItem :=
  [("pk", JStr demo_partition); ("sk", JStr "treatment"); ("state", JStr (state_text state)); ("version", JNum (JSInt 1))] ++ more.

Definition demo_tables (treatment : option StoredItem) (ledger_row : option StoredItem) : tables := fun t k =>
  match t with
  | control =>
      if bool_decide (k = MkKey demo_partition "config") then Some demo_config
      else if bool_decide (k = MkKey demo_partition "payment#pay-1") then Some demo_payment
      else if bool_decide (k = MkKey demo_partition "treatment") then treatment else None
  | ledger => if bool_decide (k = MkKey demo_partition (ledgerSortKey demo_id)) then ledger_row else None
  | _ => None
  end.

Definition demo_call : json :=
  JObj [("schema_version", JNum (JSInt 1)); ("record_type", JStr "provider_refund_call"); ("caller_id", JStr "conventional");
        ("run_id", JStr demo_id); ("execution_manifest_sha256", JStr demo_digest); ("trial_id", JStr demo_trial);
        ("trial_manifest_sha256", JStr demo_digest); ("attempt_id", JStr demo_id); ("provider_request_id", JStr demo_id);
        ("refund_request_id", JStr "refund-1"); ("payment_id", JStr "pay-1"); ("amount_minor", JNum (JSInt 1250)); ("currency", JStr "BRL")].

Definition demo_prov : ProvState :=
  MkProv (MkDeps "refund_provider" demo_id (MkScope (id_run demo_id) demo_digest (pt_trial demo_trial demo_digest)) 2)
    (MkWriter 1 None None None 0 0) cw_waiting.

(** The call of a trial without treatment. *)
Definition demo_run := run calm (handleCall (fun _ => demo_digest) (id_run demo_id) 1 demo_call demo_prov) (demo_tables None None).

Lemma demo_untouched treatment : untouched demo_mine (demo_tables treatment None).
Proof. split; [|done]. intros k m. cbn. by case_bool_decide. Qed.

Lemma provider_call_truthful_witness :
  exists k m resp, demo_run.1.2 = Ok (Some resp) /\ ledger_one demo_mine k m demo_run.2 /\ answers resp m.
Proof.
  destruct (run_iexec (prov_step demo_mine) (rely demo_mine) calm
    (handleCall (fun _ => demo_digest) (id_run demo_id) 1 demo_call demo_prov) (demo_tables None None)) as [steps Hx];
    [intros w; reflexivity|apply provider_calm_step|]. fold demo_run in Hx.
  destruct demo_run.1 as [s r] eqn:E. cbn [fst snd].
  pose proof (provider_call_truthful demo_mine (fun _ => demo_digest) (id_run demo_id) 1 demo_call demo_prov
    (demo_tables None None) steps s r demo_run.2 (demo_untouched None) Hx) as H.
  assert (Er : exists resp, r = Ok (Some resp) /\ member "outcome" resp = Some (JStr "SUCCEEDED")).
  { assert (E2 : r = demo_run.1.2) by (rewrite E; reflexivity). rewrite E2. eexists. split; [vm_compute; reflexivity|]. reflexivity. }
  destruct Er as (resp & -> & Ho). destruct H as [[Hr _]|(k & m & H1 & H2)]; [rewrite Ho in Hr; discriminate Hr|].
  exists k, m, resp. split; [reflexivity|]. split; [exact H1|exact H2].
Defined.

Lemma provider_writes_only_its_own_witness :
  exists steps, Forall (fun p => guar demo_mine p.1 p.2 /\ rely (fun x => x = demo_trial) p.1 p.2) steps /\ steps <> [].
Proof.
  destruct (run_iexec (prov_step demo_mine) (rely demo_mine) calm
    (handleCall (fun _ => demo_digest) (id_run demo_id) 1 demo_call demo_prov) (demo_tables None None)) as [steps Hx];
    [intros w; reflexivity|apply provider_calm_step|].
  exists steps. split.
  - destruct (run calm _ _).1 as [s r] eqn:E.
    eapply (provider_writes_only_its_own demo_mine (fun x => x = demo_trial) (fun _ => demo_digest) (id_run demo_id) 1 demo_call demo_prov);
      [apply (demo_untouched None)|intros x -> E'; discriminate E'|intros x [->| ->]; vm_compute; reflexivity|exact Hx].
  - intros ->. destruct Hx as (w1 & r & w2 & rest & _ & _ & E & _). discriminate E.
Defined.

Definition demo_commit : BarrierCommit := MkBarrierCommit demo_partition demo_id demo_id demo_id demo_id 0.
Definition demo_signalled : StoredItem :=
  demo_treatment TIMEOUT_SIGNALLED [("provider_commit_id", JStr demo_id); ("signal_event_id", JStr demo_trial)].
Definition demo_row : StoredItem := [("provider_call_id", JStr demo_id)].
Definition demo_wait := run calm (awaitRelease 1 demo_commit demo_prov) (demo_tables (Some demo_signalled) (Some demo_row)).

Lemma demo_waiting :
  writer_ok demo_mine demo_prov (demo_tables (Some demo_signalled) (Some demo_row))
  /\ waiting demo_mine demo_commit (MkKey demo_partition (ledgerSortKey demo_id)) demo_row (demo_tables (Some demo_signalled) (Some demo_row)).
Proof.
  split; [split; [done|]|split; [split; [done|split]|]].
  - unfold jinv. cbn. split_and!; [done| |done..|naive_solver]. intros k Hk. apply isSourceSequence_range in Hk. split; [lia|done].
  - by exists demo_id.
  - intros k m. cbn. case_bool_decide as E; [|done]. intros [= <-] _. by split.
  - exists demo_signalled, TIMEOUT_SIGNALLED. by vm_compute.
Qed.

Lemma barrier_outcome_truthful_witness :
  treated demo_partition demo_id (fun st => st = RESPONSE_RELEASED) demo_wait.2.
Proof.
  destruct (run_iexec (prov_step demo_mine) (rely demo_mine) calm (awaitRelease 1 demo_commit demo_prov)
    (demo_tables (Some demo_signalled) (Some demo_row))) as [steps Hx]; [intros w; reflexivity|apply provider_calm_step|].
  fold demo_wait in Hx. destruct demo_wait.1 as [s r] eqn:E.
  assert (Er : r = Ok (Some bo_released)).
  { assert (E2 : r = demo_wait.1.2) by (rewrite E; reflexivity). rewrite E2. vm_compute. reflexivity. }
  subst r. destruct demo_waiting as [H1 H2].
  exact (proj1 (barrier_outcome_truthful demo_mine 1 demo_commit _ _ demo_prov _ steps s bo_released demo_wait.2 H1 H2 Hx)).
Defined.

End ProviderSafety.
