(* ===== verification/Controller.v ===== *)
(** * The treatment controller (src/study-1/src/treatment-controller/)

    The partition a stream record belongs to (controller-partition.ts), the control
    items (controller-control-items.ts), the validation of a caller timeout
    (caller-timeout-event.ts), the decision table (signal-decision.ts), the journal
    record of each decision (controller-records.ts), the state port
    (controller-state-port.ts), the handling of one record (treatment-controller.ts,
    controller-fault.ts), its composition (controller-composition.ts), the stream
    consumer (stream-consumer.ts) and the environment (controller-environment.ts).

    The effects of an invocation are those of the other functions: consistent reads,
    transactions, UUIDs and the journal's. Log lines are kept in order in the state.
    A stream record arrives as [unmarshallStreamRecord] read it. *)

From S2P Require Import Prelude Timestamps Effects Store JsonText LeaseItem Journal Money ControlItems Acceptance Provider.
Import Json Store Identifiers JsonText LeaseItem Journal ControlItems Acceptance.
Import Provider(ProvEff, OwnEff, GetControl, Transact, NextUuid, lift, eventId).
Open Scope Z_scope.

Module Controller.

(** ** Partitions *)

Inductive ExperimentPartition := pa_trial (key trial : string) | pa_probe (key : string).
Inductive ControllerPartition := pa_experiment (p : ExperimentPartition) | pa_canary (key : string).

Definition experiment_key (p : ExperimentPartition) : string :=
  match p with pa_trial k _ => k | pa_probe k => k end.
Definition partition_key (p : ControllerPartition) : string :=
  match p with pa_experiment e => experiment_key e | pa_canary k => k end.

(** [pk.startsWith(prefix) ? pk.slice(prefix.length) : undefined] *)
Fixpoint after_prefix (prefix s : string) : option string :=
  match prefix, s with
  | EmptyString, _ => Some s
  | String a p, String b r => if Ascii.eqb a b then after_prefix p r else None
  | String _ _, EmptyString => None
  end.

Definition CANARY_SUFFIX : string := "canary".
Definition PROBE_SUFFIX : string := "probe".

Definition resolveControllerPartition (deployment : ExecutionIdentity) (pk : option json) : option ControllerPartition :=
  match pk with
  | Some (JStr key) =>
      match after_prefix (executionIdOf deployment +:+ "#") key with
      | None => None
      | Some suffix =>
          if bool_decide (suffix = CANARY_SUFFIX) then Some (pa_canary key)
          else match execution_kind deployment with
               | TRANSPORT_PROBE => if bool_decide (suffix = PROBE_SUFFIX) then Some (pa_experiment (pa_probe key)) else None
               | _ => if isUuid4 suffix then Some (pa_experiment (pa_trial key suffix)) else None
               end
      end
  | _ => None
  end.

(** ** Control items *)

(** [CallTrial] has the members of [ConfiguredTrial]. *)
Record ControllerConfigView := MkView {
  v_execution_manifest_sha256 : string;
  v_registered_caller_id : ProviderCallerId;
  v_scenario : Scenario;
  v_trial : option CallTrial;
}.

Record TreatmentCommit := MkCommit {
  targeted_attempt_id : string;
  tc_provider_commit_id : string;
  tc_commit_event_id : string;
}.

Inductive SignalledTreatmentState := sg_signalled | sg_observed | sg_released.
Definition signalled_state (s : SignalledTreatmentState) : TreatmentState :=
  match s with sg_signalled => TIMEOUT_SIGNALLED | sg_observed => TIMEOUT_OBSERVED | sg_released => RESPONSE_RELEASED end.

Inductive ControllerTreatment :=
| ct_armed
| ct_waiting (commit : TreatmentCommit)
| ct_signalled (state : SignalledTreatmentState) (commit : TreatmentCommit) (signal_caller_event_id : string)
| ct_safety_released.

Definition treatment_state (t : ControllerTreatment) : TreatmentState :=
  match t with
  | ct_armed => ARMED
  | ct_waiting _ => COMMITTED_WAITING
  | ct_signalled s _ _ => signalled_state s
  | ct_safety_released => SAFETY_RELEASED
  end.

Definition configuredTrial (item : StoredItem) (partitionTrial : string) : Result CallTrial string :=
  if negb (scalar_matches (member "trial_id" item) (SStr partitionTrial))
  then refuse item ("trial_id " +:+ describeJson (member "trial_id" item) +:+ "; expected the partition trial " +:+ partitionTrial)
  else match sha256_of (member "trial_manifest_sha256" item) with
       | None => refuse item ("trial_manifest_sha256 " +:+ describeJson (member "trial_manifest_sha256" item)
                              +:+ "; expected 64 lowercase hex digits")
       | Some digest => Ok (MkTrial partitionTrial digest)
       end.

Definition decodeControllerConfig (item : StoredItem) (partition : ExperimentPartition) : Result ControllerConfigView string :=
  match sha256_of (member "execution_manifest_sha256" item) with
  | None => refuse item ("execution_manifest_sha256 " +:+ describeJson (member "execution_manifest_sha256" item)
                         +:+ "; expected 64 lowercase hex digits")
  | Some digest =>
  match isOneOf PROVIDER_CALLER_IDS caller_text (member "registered_caller_id" item) with
  | None => refuse item ("registered_caller_id " +:+ describeJson (member "registered_caller_id" item)
                         +:+ "; expected one of " +:+ str_join ", " (map caller_text PROVIDER_CALLER_IDS))
  | Some caller =>
  match isOneOf SCENARIOS scenario_text (member "scenario" item) with
  | None => refuse item ("scenario " +:+ describeJson (member "scenario" item)
                         +:+ "; expected one of " +:+ str_join ", " (map scenario_text SCENARIOS))
  | Some sc =>
      match partition with
      | pa_probe _ =>
          match find_first (hasOwn item) ["trial_id"; "trial_manifest_sha256"] with
          | None => Ok (MkView digest caller sc None)
          | Some f => refuse item (f +:+ " present on a transport-probe configuration; expected none")
          end
      | pa_trial _ trial =>
          match configuredTrial item trial with
          | Ok t => Ok (MkView digest caller sc (Some t))
          | Err e => Err e
          end
      end
  end end end.

Definition requiredId (item : StoredItem) (field : string) (state : TreatmentState) : Result string string :=
  match uuid4_of (member field item) with
  | Some id => Ok id
  | None => refuse item (field +:+ " " +:+ describeJson (member field item) +:+ " in state " +:+ state_text state
                         +:+ "; expected a lowercase RFC 4122 version-4 UUID")
  end.

Definition treatmentCommit (item : StoredItem) (state : TreatmentState) : Result TreatmentCommit string :=
  let! targeted := requiredId item "targeted_attempt_id" state in
  let! commitId := requiredId item "provider_commit_id" state in
  let! commitEvent := requiredId item "commit_event_id" state in
  Ok (MkCommit targeted commitId commitEvent).

Definition decodeSignalled (item : StoredItem) (state : TreatmentState) (as_ : SignalledTreatmentState) :
  Result ControllerTreatment string :=
  let! commit := treatmentCommit item state in
  let! signal := requiredId item "signal_caller_event_id" state in
  Ok (ct_signalled as_ commit signal).

Definition decodeControllerTreatment (item : StoredItem) : Result ControllerTreatment string :=
  match isOneOf TREATMENT_STATES state_text (member "state" item) with
  | None => refuse item ("state " +:+ describeJson (member "state" item) +:+ "; expected one of "
                         +:+ str_join ", " (map state_text TREATMENT_STATES))
  | Some state =>
      if match as_safe_integer (member "version" item) with Some z => z <? 1 | None => true end
      then refuse item ("version " +:+ describeJson (member "version" item) +:+ "; expected a safe integer >= 1")
      else match state with
           | ARMED => Ok ct_armed
           | SAFETY_RELEASED => Ok ct_safety_released
           | COMMITTED_WAITING => let! commit := treatmentCommit item state in Ok (ct_waiting commit)
           | TIMEOUT_SIGNALLED => decodeSignalled item state sg_signalled
           | TIMEOUT_OBSERVED => decodeSignalled item state sg_observed
           | RESPONSE_RELEASED => decodeSignalled item state sg_released
           end
  end.

(** ** The caller timeout *)

Record CallerEventRefs := MkRefs { caller_timeout_event_id : string; attempt_id : string }.

Record InvalidCallerTimeout := MkInvalid {
  i_detail : string;
  i_caller_timeout_event_id : option string;
  i_attempt_id : option string;
}.

Record CallerTimeoutExpectation := MkExpectation {
  x_deployment : ExecutionIdentity;
  x_manifest : option string;
  x_trial : option CallTrial;
  x_source : string;
}.

Definition experimentExpectation (deployment : ExecutionIdentity) (config : ControllerConfigView) : CallerTimeoutExpectation :=
  MkExpectation deployment (Some (v_execution_manifest_sha256 config)) (v_trial config)
    (caller_text (v_registered_caller_id config) +:+ "_caller").

Definition canaryExpectation (deployment : ExecutionIdentity) : CallerTimeoutExpectation :=
  MkExpectation deployment None None "runner".

Definition IDENTITY_FIELDS : list string := ["run_id"; "variant_validation_id"; "transport_probe_id"].
Definition RECORD_TYPE : string := "caller_timeout_recorded".
Definition UUID_SHAPE : string := "a lowercase RFC 4122 version-4 UUID".
Definition UTC_SHAPE : string := "a UTC timestamp YYYY-MM-DDTHH:mm:ss.SSSZ".

Definition text_that (p : string -> bool) (v : option json) : bool := match v with Some (JStr s) => p s | _ => false end.

Definition isSourceSequence (v : option json) : bool :=
  match as_safe_integer v with Some z => 1 <=? z | None => false end.

(** [isCanonicalCausation]: strings, each above the one before, at least one. *)
Fixpoint ascending_from (previous : option string) (ids : list json) : bool :=
  match ids with
  | [] => bool_decide (is_Some previous)
  | JStr id :: rest =>
      match previous with
      | Some p => if String.leb id p then false else ascending_from (Some id) rest
      | None => ascending_from (Some id) rest
      end
  | _ :: _ => false
  end.
Definition isCanonicalCausation (ids : list json) : bool := ascending_from None ids.

Definition isCausationList (v : option json) : bool :=
  match v with
  | Some (JArr ids) => forallb (fun id => text_that isUuid4 (Some id)) ids && isCanonicalCausation ids
  | _ => false
  end.

Definition RECORD_FIELD_CHECKS : list (string * (option json -> bool) * string) :=
  [("occurred_at", text_that Utc.isUtcMillis, UTC_SHAPE);
   ("source_instance_id", text_that isUuid4, UUID_SHAPE);
   ("source_sequence", isSourceSequence, "a safe integer >= 1");
   ("causation_event_ids", isCausationList, "a non-empty ascending list of distinct lowercase UUIDv4s");
   ("provider_request_id", text_that isUuid4, UUID_SHAPE);
   ("refund_request_id", text_that NONEMPTY_TRIMMED_PATTERN, "a non-empty string without edge whitespace");
   ("elapsed_ns", text_that Money.isDecimalString, "a decimal string of nanoseconds without leading zeros");
   ("monotonic_origin_event_id", text_that isUuid4, UUID_SHAPE);
   ("dispatch_at", text_that Utc.isUtcMillis, UTC_SHAPE);
   ("deadline_at", text_that Utc.isUtcMillis, UTC_SHAPE);
   ("timer_fired_at", text_that Utc.isUtcMillis, UTC_SHAPE);
   ("abort_requested_at", text_that Utc.isUtcMillis, UTC_SHAPE);
   ("recorded_at", text_that Utc.isUtcMillis, UTC_SHAPE);
   ("arbiter_winner", text_that (fun s => memb s ["TIMER"; "TRANSPORT"]), "TIMER or TRANSPORT");
   ("transport_settled_at_claim", fun v => match v with Some (JBool _) => true | _ => false end, "a boolean")].

Definition DECLARED_PROPERTIES : list string :=
  ["pk"; "sk"; "schema_version"; "record_type"; "event_id"] ++ IDENTITY_FIELDS
  ++ ["execution_manifest_sha256"; "trial_id"; "trial_manifest_sha256"; "source"; "attempt_id"]
  ++ map (fun c => c.1.1) RECORD_FIELD_CHECKS.

Definition identity_field (deployment : ExecutionIdentity) : string * string :=
  match deployment with
  | id_run i => ("run_id", i)
  | id_transport_probe i => ("transport_probe_id", i)
  | id_variant_validation i => ("variant_validation_id", i)
  end.

Definition executionProblem (image : list (string * json)) (deployment : ExecutionIdentity) : option string :=
  let '(field, id) := identity_field deployment in
  let others := List.filter (fun name => negb (bool_decide (name = field)) && hasOwn image name) IDENTITY_FIELDS in
  if scalar_matches (member field image) (SStr id) && bool_decide (others = []) then None
  else
    let declared := map (fun name => name +:+ "=" +:+ describeJson (member name image)) (List.filter (hasOwn image) IDENTITY_FIELDS) in
    Some ("execution identity [" +:+ str_join ", " declared +:+ "]; expected only " +:+ field +:+ "=" +:+ id).

Definition manifestProblem (image : list (string * json)) (expected : option string) : option string :=
  let digest := member "execution_manifest_sha256" image in
  if match expected with None => text_that isSha256Hex digest | Some e => scalar_matches digest (SStr e) end then None
  else Some ("execution_manifest_sha256 " +:+ describeJson digest +:+ "; expected " +:+ nullish expected "64 lowercase hex digits").

Definition trialProblem (image : list (string * json)) (trial : option CallTrial) : option string :=
  let trialId := member "trial_id" image in
  let trialDigest := member "trial_manifest_sha256" image in
  let named := "trial_id " +:+ describeJson trialId +:+ " trial_manifest_sha256 " +:+ describeJson trialDigest in
  match trial with
  | None =>
      match trialId, trialDigest with
      | None, None => None
      | _, _ => Some (named +:+ "; expected no trial identity")
      end
  | Some t =>
      if scalar_matches trialId (SStr (trial_id t)) && scalar_matches trialDigest (SStr (trial_manifest_sha256 t)) then None
      else Some (named +:+ "; expected trial " +:+ trial_id t +:+ " with manifest " +:+ trial_manifest_sha256 t)
  end.

Definition sourceProblem (image : list (string * json)) (source : string) : option string :=
  if scalar_matches (member "source" image) (SStr source) then None
  else Some ("source " +:+ describeJson (member "source" image) +:+ "; expected " +:+ source).

Definition firstProblem (image : list (string * json)) (expected : CallerTimeoutExpectation) : option string :=
  if negb (scalar_matches (member "record_type" image) (SStr RECORD_TYPE)) || negb (scalar_matches (member "schema_version" image) (SNum 1))
  then Some ("record_type " +:+ describeJson (member "record_type" image) +:+ " schema_version "
             +:+ describeJson (member "schema_version" image) +:+ "; expected " +:+ RECORD_TYPE +:+ " version 1")
  else or_else (executionProblem image (x_deployment expected))
         (or_else (manifestProblem image (x_manifest expected))
            (or_else (trialProblem image (x_trial expected)) (sourceProblem image (x_source expected)))).

Definition recordShapeProblem (image : list (string * json)) : option string :=
  match find_first (fun name => negb (memb name DECLARED_PROPERTIES)) (map fst image) with
  | Some undeclared =>
      Some ("property " +:+ boundedJsonText (JStr undeclared) QUOTED_JSON_LIMIT +:+ " is not declared by " +:+ RECORD_TYPE
            +:+ "; expected only its schema properties")
  | None =>
      match find_first (fun c => negb (c.1.2 (member c.1.1 image))) RECORD_FIELD_CHECKS with
      | None => None
      | Some (field, _, shape) => Some (field +:+ " " +:+ describeJson (member field image) +:+ "; expected " +:+ shape)
      end
  end.

Definition invalid (d : string) (image : option (list (string * json))) : InvalidCallerTimeout :=
  let read name := match image with Some m => uuid4_of (member name m) | None => None end in
  MkInvalid d (read "event_id") (read "attempt_id").

Definition readOwnCallerTimeout (image : list (string * json)) (expected : CallerTimeoutExpectation) :
  Result CallerEventRefs InvalidCallerTimeout :=
  match firstProblem image expected with
  | Some problem => Err (invalid problem (Some image))
  | None =>
      match uuid4_of (member "event_id" image), uuid4_of (member "attempt_id" image) with
      | Some eventId, Some attemptId =>
          match recordShapeProblem image with
          | Some malformed => Err (invalid malformed (Some image))
          | None => Ok (MkRefs eventId attemptId)
          end
      | _, _ =>
          Err (invalid ("event_id " +:+ describeJson (member "event_id" image) +:+ " and attempt_id "
                 +:+ describeJson (member "attempt_id" image) +:+ "; expected lowercase RFC 4122 version-4 UUIDs") (Some image))
      end
  end.

Definition readCallerTimeout (image : json) (expected : CallerTimeoutExpectation) : Result CallerEventRefs InvalidCallerTimeout :=
  match image with
  | JObj m => readOwnCallerTimeout m expected
  | _ => Err (invalid ("stream image is " +:+ describeJson (Some image) +:+ "; expected a JSON object") None)
  end.

(** ** The decision table *)

(** A decision answered by an ordinary append. *)
Inductive AppendedDecision :=
| duplicate_ignored (refs : CallerEventRefs) (state : SignalledTreatmentState)
| conflict (refs : CallerEventRefs) (existing_caller_event_id : string) (state : SignalledTreatmentState)
| late_rejected (refs : CallerEventRefs)
| before_commit_rejected (refs : CallerEventRefs) (detail : string)
| not_targeted_rejected (refs : CallerEventRefs) (detail : string)
| control_trial_rejected (refs : CallerEventRefs) (detail : string)
| invalid_event_rejected (invalid : InvalidCallerTimeout) (state : option TreatmentState)
| canary_acknowledged (canary_event_id : string).

Record SignalOnlyDecision := MkSignal {
  sd_refs : CallerEventRefs;
  sd_causation : string * string;
  sd_provider_commit_id : string;
  sd_commit_event_id : string;
}.

Inductive SignalDecision := signal (d : SignalOnlyDecision) | appended (d : AppendedDecision).

Inductive SignalContext :=
| ctx_canary (deployment : ExecutionIdentity)
| ctx_experiment (deployment : ExecutionIdentity) (configuration : ControllerConfigView).

Definition sortedPair (a b : string) : string * string := if String.leb a b then (a, b) else (b, a).

Definition decideCommittedWait (refs : CallerEventRefs) (commit : TreatmentCommit) : SignalDecision :=
  if negb (bool_decide (attempt_id refs = targeted_attempt_id commit)) then
    appended (not_targeted_rejected refs ("attempt_id " +:+ attempt_id refs +:+ "; expected the targeted attempt "
                                          +:+ targeted_attempt_id commit))
  else signal (MkSignal refs (sortedPair (tc_commit_event_id commit) (caller_timeout_event_id refs))
                 (tc_provider_commit_id commit) (tc_commit_event_id commit)).

Definition decideSignalled (refs : CallerEventRefs) (state : SignalledTreatmentState) (signal_caller_event_id : string) :
  SignalDecision :=
  if bool_decide (signal_caller_event_id = caller_timeout_event_id refs) then appended (duplicate_ignored refs state)
  else appended (conflict refs signal_caller_event_id state).

Definition decideOnTreatment (refs : CallerEventRefs) (treatment : ControllerTreatment) : SignalDecision :=
  match treatment with
  | ct_armed => appended (before_commit_rejected refs "treatment ARMED; the targeted commit has not happened")
  | ct_safety_released => appended (late_rejected refs)
  | ct_waiting commit => decideCommittedWait refs commit
  | ct_signalled state _ signal_caller_event_id => decideSignalled refs state signal_caller_event_id
  end.

Definition decideSignal (event : json) (context : SignalContext) (treatment : option ControllerTreatment) : SignalDecision :=
  match context with
  | ctx_canary deployment =>
      match readCallerTimeout event (canaryExpectation deployment) with
      | Ok canary => appended (canary_acknowledged (caller_timeout_event_id canary))
      | Err e => appended (invalid_event_rejected e None)
      end
  | ctx_experiment deployment configuration =>
      match readCallerTimeout event (experimentExpectation deployment configuration) with
      | Err e => appended (invalid_event_rejected e (option_map treatment_state treatment))
      | Ok refs =>
          if bool_decide (v_scenario configuration = CONTROL) then
            appended (control_trial_rejected refs "scenario CONTROL arms no treatment; nothing to signal")
          else match treatment with
               | None =>
                   appended (invalid_event_rejected
                     (MkInvalid "no treatment item in a COMMIT_THEN_TIMEOUT partition; expected one armed before publication"
                        (Some (caller_timeout_event_id refs)) (Some (attempt_id refs))) None)
               | Some t => decideOnTreatment refs t
               end
      end
  end.

Definition appended_kind (d : AppendedDecision) : string :=
  match d with
  | duplicate_ignored _ _ => "duplicate_ignored"
  | conflict _ _ _ => "conflict"
  | late_rejected _ => "late_rejected"
  | before_commit_rejected _ _ => "before_commit_rejected"
  | not_targeted_rejected _ _ => "not_targeted_rejected"
  | control_trial_rejected _ _ => "control_trial_rejected"
  | invalid_event_rejected _ _ => "invalid_event_rejected"
  | canary_acknowledged _ => "canary_acknowledged"
  end.

(** ** The invocation *)

Inductive ControllerFaultCode := STATE_UNREADABLE | JOURNAL_STOPPED | SIGNAL_AMBIGUOUS | SIGNAL_FAILED | SIGNAL_REDECIDED_TO_SIGNAL.
#[export] Instance ControllerFaultCode_eq_dec : EqDecision ControllerFaultCode.
Proof. solve_decision. Defined.
Definition fault_text (c : ControllerFaultCode) : string :=
  match c with
  | STATE_UNREADABLE => "STATE_UNREADABLE"
  | JOURNAL_STOPPED => "JOURNAL_STOPPED"
  | SIGNAL_AMBIGUOUS => "SIGNAL_AMBIGUOUS"
  | SIGNAL_FAILED => "SIGNAL_FAILED"
  | SIGNAL_REDECIDED_TO_SIGNAL => "SIGNAL_REDECIDED_TO_SIGNAL"
  end.

Record ControllerFault := MkFault { fault_code : ControllerFaultCode; fault_partition : string; fault_detail : string }.

(** [message] of the error. *)
Definition fault_message (f : ControllerFault) : string := fault_text (fault_code f) +:+ ": " +:+ fault_detail f.

Inductive thrown := fault (f : ControllerFault) | other (e : js_error).

Record ControllerOutcome := MkOutcome { outcome_kind : string; outcome_partition : option string; outcome_detail : string }.

Inductive ControllerLogLine :=
| controller_record_handled (sequence_number : string) (outcome : ControllerOutcome)
| stream_record_unreadable (code detail : string)
| stream_event_unreadable (detail : string)
| controller_fault (code : ControllerFaultCode) (partition_key detail : string)
| controller_error (detail : string).

Record CtlState := MkCtl { deps : JournalWriterDeps; journal : JournalWriter; logged : list ControllerLogLine }.

Abbreviation CM := (SE ProvEff CtlState thrown).

Definition own {R} (e : OwnEff R) : CM R := se_perform (inr e : ProvEff R).
Definition throw_fault {A} (c : ControllerFaultCode) (partitionKey d : string) : CM A :=
  se_throw (fault (MkFault c partitionKey d)).
Definition log (line : ControllerLogLine) : CM unit :=
  se_modify (fun s => MkCtl (deps s) (journal s) (logged s ++ [line])).

Definition set_journal (j : JournalWriter) (s : CtlState) : CtlState := MkCtl (deps s) j (logged s).

(** A method of the journal writer of this invocation. *)
Definition on_journal {A} (m : JournalWriterDeps -> JM A) : CM A :=
  fun s => pbind (lift (m (deps s) (journal s))) (fun '(j, r) =>
    Ret (set_journal j s, match r with Ok a => Ok a | Err e => Err (other e) end)).

Definition journal_append (type : string) (body : list (string * json)) (causation : list string) : CM AppendResult :=
  on_journal (fun d s => append_run d type body causation (append_called s)).
Definition journal_prepare (type : string) (body : list (string * json)) (causation : list string) :
  CM (PreparedJournalPut + JournalStopped) :=
  on_journal (fun d => prepare d type body causation).
Definition journal_confirm (p : PreparedJournalPut) (outcome : WriteOutcome) (index : Z) : CM ConfirmResult :=
  on_journal (fun _ => confirm p outcome index).

(** ** Journal records of decisions *)

Definition signalBody (d : SignalOnlyDecision) : list (string * json) :=
  [("provider_commit_id", JStr (sd_provider_commit_id d)); ("attempt_id", JStr (attempt_id (sd_refs d)));
   ("caller_timeout_event_id", JStr (caller_timeout_event_id (sd_refs d)));
   ("provider_commit_event_id", JStr (sd_commit_event_id d))].

Definition prepareSignalRecord (d : SignalOnlyDecision) : CM (PreparedJournalPut + JournalStopped) :=
  journal_prepare "timeout_signal_recorded" (signalBody d) [(sd_causation d).1; (sd_causation d).2].

Definition refs_members (refs : CallerEventRefs) : list (string * json) :=
  [("caller_timeout_event_id", JStr (caller_timeout_event_id refs)); ("attempt_id", JStr (attempt_id refs))].
Definition present_member (name : string) (v : option string) : list (string * json) :=
  match v with Some s => [(name, JStr s)] | None => [] end.
Definition state_member (s : TreatmentState) : string * json := ("treatment_state", JStr (state_text s)).

(** The record type, the body and the causation each decision appends. *)
Definition appendCallerAnswer (refs : CallerEventRefs) (type : string) (before after : list (string * json)) : CM AppendResult :=
  journal_append type (before ++ refs_members refs ++ after) [caller_timeout_event_id refs].

Definition appendDecisionRecord (decision : AppendedDecision) : CM AppendResult :=
  match decision with
  | canary_acknowledged id => journal_append "controller_canary_acknowledged" [("canary_event_id", JStr id)] [id]
  | invalid_event_rejected e state =>
      journal_append "caller_timeout_rejected"
        ([("reason", JStr "INVALID_EVENT"); ("detail", JStr (i_detail e))]
         ++ present_member "caller_timeout_event_id" (i_caller_timeout_event_id e)
         ++ present_member "attempt_id" (i_attempt_id e)
         ++ present_member "treatment_state" (option_map state_text state)) []
  | control_trial_rejected refs d =>
      appendCallerAnswer refs "caller_timeout_rejected" [("reason", JStr "CONTROL_TRIAL"); ("detail", JStr d)] []
  | before_commit_rejected refs d =>
      appendCallerAnswer refs "caller_timeout_rejected" [("reason", JStr "BEFORE_COMMIT"); ("detail", JStr d)] [state_member ARMED]
  | not_targeted_rejected refs d =>
      appendCallerAnswer refs "caller_timeout_rejected" [("reason", JStr "NOT_TARGETED"); ("detail", JStr d)] [state_member COMMITTED_WAITING]
  | late_rejected refs => appendCallerAnswer refs "late_timeout_signal_rejected" [] [state_member SAFETY_RELEASED]
  | duplicate_ignored refs s => appendCallerAnswer refs "timeout_signal_duplicate_observed" [] [state_member (signalled_state s)]
  | conflict refs existing s =>
      appendCallerAnswer refs "timeout_signal_conflict_recorded" []
        [("existing_caller_event_id", JStr existing); state_member (signalled_state s)]
  end.

(** ** The state port *)

Definition SIGNAL_JOURNAL_ACTION_INDEX : Z := 1.

Record ControllerReadFailure := MkReadFailure { rf_code : string; rf_detail : string }.

Definition decodeOrFail {T} (item : StoredItem) (decode : StoredItem -> Result T string) : Result (option T) ControllerReadFailure :=
  match decode item with Ok v => Ok (Some v) | Err e => Err (MkReadFailure "UndecodableItem" e) end.

Definition readControl {T} (pk sk : string) (decode : StoredItem -> Result T string) :
  CM (Result (option T) ControllerReadFailure) :=
  (read <- own (GetControl (MkKey pk sk)) ;;
   se_ret match read with
          | Err code => Err (MkReadFailure code ("control read " +:+ pk +:+ "/" +:+ sk +:+ " failed: " +:+ code))
          | Ok None => Ok None
          | Ok (Some item) => decodeOrFail item decode
          end)%se.

Definition loadConfiguration (p : ExperimentPartition) :=
  readControl (experiment_key p) CONFIG_SORT_KEY (fun item => decodeControllerConfig item p).
Definition loadTreatment (p : ExperimentPartition) := readControl (experiment_key p) TREATMENT_SORT_KEY decodeControllerTreatment.

(** The transaction of the signal transition. *)
Definition signal_actions (partition attempt callerEvent : string) (event_put : PreparedJournalPut) : list WriteAction :=
  [update control (MkKey partition TREATMENT_SORT_KEY)
     [("state", JStr "TIMEOUT_SIGNALLED"); ("signal_event_id", JStr (eventId (event (put_entry event_put))));
      ("signal_caller_event_id", JStr callerEvent)]
     [("version", 1)]
     (all [attribute_equals "state" (SStr "COMMITTED_WAITING"); attribute_equals "targeted_attempt_id" (SStr attempt)]);
   journalPutAction experiment_journal (put_entry event_put)].

Definition decodeTreatmentAfterConflict (existing : option StoredItem) : Result (option ControllerTreatment) ControllerReadFailure :=
  match existing with None => Ok None | Some item => decodeOrFail item decodeControllerTreatment end.

(** ** One stream record *)

Record StreamInsertRecord := MkRecord { event_name : string; new_image : StoredItem; sequence_number : string }.

Definition isConsumableInsert (record : StreamInsertRecord) : bool :=
  bool_decide (event_name record = "INSERT") && scalar_matches (member "record_type" (new_image record)) (SStr "caller_timeout_recorded").

Definition ignored (partitionKey : option string) (d : string) : ControllerOutcome := MkOutcome "record_ignored" partitionKey d.

Record DecisionInScope := MkPlanned {
  pl_image : json;
  pl_decision : SignalDecision;
  pl_scope : JournalScope;
  pl_context : SignalContext;
}.

Definition CONTROLLER_JOURNAL_DEFINITIVE_RETRIES : Z := 2.

Definition experimentScope (deployment : ExecutionIdentity) (configuration : ControllerConfigView) : JournalScope :=
  MkScope deployment (v_execution_manifest_sha256 configuration)
    match v_trial configuration with
    | None => pt_probe
    | Some t => pt_trial (trial_id t) (trial_manifest_sha256 t)
    end.

Definition required {T} (read : Result (option T) ControllerReadFailure) (partitionKey : string) : CM (option T) :=
  match read with
  | Ok v => se_ret v
  | Err e => throw_fault STATE_UNREADABLE partitionKey (rf_code e +:+ ": " +:+ rf_detail e)
  end.

Definition appendOrFail (decision : AppendedDecision) (partitionKey : string) : CM ControllerOutcome :=
  (result <- appendDecisionRecord decision ;;
   match result with
   | ap_stopped s => throw_fault JOURNAL_STOPPED partitionKey (appended_kind decision +:+ " record not written: " +:+ stop_text (stop_reason s))
   | ap_appended e => se_ret (MkOutcome (appended_kind decision) (Some partitionKey) ("recorded " +:+ text_of e "record_type"))
   end)%se.

Definition redecide (planned : DecisionInScope) (treatment : option ControllerTreatment) (partitionKey : string) : CM ControllerOutcome :=
  match decideSignal (pl_image planned) (pl_context planned) treatment with
  | signal d =>
      throw_fault SIGNAL_REDECIDED_TO_SIGNAL partitionKey
        ("treatment condition failed but ALL_OLD still admits the signal for " +:+ caller_timeout_event_id (sd_refs d)
         +:+ "; expected a changed treatment")
  | appended d => appendOrFail d partitionKey
  end.

(** [#signal] *)
Definition signal_run (d : SignalOnlyDecision) (planned : DecisionInScope) (partitionKey : string) : CM ControllerOutcome :=
  (prepared <- prepareSignalRecord d ;;
   match prepared with
   | inr s => throw_fault JOURNAL_STOPPED partitionKey ("signal record not prepared: " +:+ stop_text (stop_reason s))
   | inl p =>
       token <- own NextUuid ;;
       outcome <- own (Transact (signal_actions partitionKey (attempt_id (sd_refs d)) (caller_timeout_event_id (sd_refs d)) p) token) ;;
       confirmed <- journal_confirm p outcome SIGNAL_JOURNAL_ACTION_INDEX ;;
       match confirmed with
       | cf_result (ap_appended _) =>
           se_ret (MkOutcome "signal" (Some partitionKey) ("signalled by " +:+ caller_timeout_event_id (sd_refs d)))
       | cf_result (ap_stopped s) =>
           throw_fault (if bool_decide (stop_reason s = AMBIGUOUS_APPEND) then SIGNAL_AMBIGUOUS else JOURNAL_STOPPED) partitionKey
             ("signal transaction " +:+ stop_text (stop_reason s) +:+ "; expected applied")
       | cf_not_applied _ _ =>
           match outcome with
           | condition_failed i existing =>
               if negb (i =? 0) then
                 throw_fault SIGNAL_FAILED partitionKey ("signal transaction " +:+ describeWriteOutcome outcome
                   +:+ "; expected applied or a failed treatment condition")
               else match decodeTreatmentAfterConflict existing with
                    | Err e => throw_fault STATE_UNREADABLE partitionKey (rf_detail e)
                    | Ok treatment => redecide planned treatment partitionKey
                    end
           | _ => throw_fault SIGNAL_FAILED partitionKey ("signal transaction " +:+ describeWriteOutcome outcome
                    +:+ "; expected applied or a failed treatment condition")
           end
       end
   end)%se.

Section controller.
Context (deployment : ExecutionIdentity).

(** [openJournal] of composeTreatmentController: a new source instance per handled record. *)
Definition openJournal (scope : JournalScope) : CM unit :=
  (instanceId <- own NextUuid ;;
   let d := MkDeps "treatment_controller" instanceId scope CONTROLLER_JOURNAL_DEFINITIVE_RETRIES in
   match new_JournalWriter d with
   | Ok writer => se_modify (fun s => MkCtl d writer (logged s))
   | Err e => se_throw (other e)
   end)%se.

(** [#plan] *)
Definition plan (record : StreamInsertRecord) (partition : ControllerPartition) : CM (option DecisionInScope) :=
  let image := JObj (new_image record) in
  match partition with
  | pa_canary _ =>
      match sha256_of (member "execution_manifest_sha256" (new_image record)) with
      | None => se_ret None
      | Some digest =>
          let context := ctx_canary deployment in
          se_ret (Some (MkPlanned image (decideSignal image context None) (MkScope deployment digest pt_canary) context))
      end
  | pa_experiment p =>
      (configurationRead <- loadConfiguration p ;;
       configuration <- required configurationRead (experiment_key p) ;;
       match configuration with
       | None => se_ret None
       | Some config =>
           treatmentRead <- loadTreatment p ;;
           treatment <- required treatmentRead (experiment_key p) ;;
           let context := ctx_experiment deployment config in
           se_ret (Some (MkPlanned image (decideSignal image context treatment) (experimentScope deployment config) context))
       end)%se
  end.

(** [#execute] *)
Definition execute (planned : DecisionInScope) (partitionKey : string) : CM ControllerOutcome :=
  (openJournal (pl_scope planned) ;;;
   match pl_decision planned with
   | appended d => appendOrFail d partitionKey
   | signal d => signal_run d planned partitionKey
   end)%se.

Definition handle (record : StreamInsertRecord) : CM ControllerOutcome :=
  if negb (isConsumableInsert record) then
    se_ret (ignored None (event_name record +:+ " of " +:+ describeJson (member "record_type" (new_image record))
                          +:+ "; expected an INSERT of caller_timeout_recorded"))
  else match resolveControllerPartition deployment (member "pk" (new_image record)) with
       | None => se_ret (ignored (as_string (member "pk" (new_image record))) "partition not served by this deployment")
       | Some partition =>
           (planned <- plan record partition ;;
            match planned with
            | None => se_ret (ignored (Some (partition_key partition)) "no journal scope: canary digest unusable or configuration absent")
            | Some p => execute p (partition_key partition)
            end)%se
       end.

(** ** The stream consumer *)

Definition thrown_log (x : thrown) : ControllerLogLine :=
  match x with
  | fault f => controller_fault (fault_code f) (fault_partition f) (fault_message f)
  | other e => controller_error (describeError e)
  end.

(** [try { m } catch (error) { log; throw error }] *)
Definition logging_throws {A} (m : CM A) : CM A :=
  fun s => pbind (m s) (fun '(s', r) =>
    match r with Ok a => Ret (s', Ok a) | Err x => (log (thrown_log x) ;;; se_throw x)%se s' end).

Definition consumeRecord (record : Result StreamInsertRecord StructuredReason) : CM unit :=
  match record with
  | Err e => log (stream_record_unreadable (code e) (detail e))
  | Ok r => logging_throws (outcome <- handle r ;; log (controller_record_handled (sequence_number r) outcome))%se
  end.

Fixpoint consume_records (records : list (Result StreamInsertRecord StructuredReason)) : CM unit :=
  match records with
  | [] => se_ret tt
  | r :: rest => (consumeRecord r ;;; consume_records rest)%se
  end.

(** The event's records, or why it has none. *)
Definition consumeStreamEvent (records : Result (list (Result StreamInsertRecord StructuredReason)) string) : CM unit :=
  match records with
  | Err e => log (stream_event_unreadable e)
  | Ok rs => consume_records rs
  end.
End controller.

(** ** The environment *)

Definition EXECUTION_KINDS : list ExecutionKind := [RUN; TRANSPORT_PROBE; VARIANT_VALIDATION].

Record ControllerEnvironment := MkEnvironment {
  env_deployment : ExecutionIdentity;
  env_experiment_journal : string;
  env_control : string;
}.

(** [value.trim() !== '']: some character is not whitespace. *)
Fixpoint all_whitespace (fuel : nat) (bytes : list nat) : bool :=
  match bytes, fuel with
  | [], _ => true
  | _, O => false
  | _, S n =>
      match find_first (starts_with bytes) WHITESPACE with
      | Some w => all_whitespace n (drop (length w) bytes)
      | None => false
      end
  end.
Definition isTableName (value : string) : bool :=
  let bytes := map Ascii.nat_of_ascii (chars value) in negb (all_whitespace (length bytes) bytes).

Definition readControllerVariable (env : string -> option string) (name : string) (accepts : string -> bool) (shape : string) :
  Result string string :=
  match env name with
  | Some value => if accepts value then Ok value else Err (name +:+ "=" +:+ quote_json value +:+ "; expected " +:+ shape)
  | None => Err (name +:+ "=undefined; expected " +:+ shape)
  end.

Definition error_of {T} (r : Result T string) : list string := match r with Ok _ => [] | Err e => [e] end.

Definition parseControllerEnvironment (env : string -> option string) : Result ControllerEnvironment string :=
  let kind := readControllerVariable env "SUC_EXECUTION_KIND" (fun s => bool_decide (is_Some (kind_of s)))
                ("one of " +:+ str_join ", " (map kind_text EXECUTION_KINDS)) in
  let id := readControllerVariable env "SUC_EXECUTION_ID" isUuid4 "a lowercase RFC 4122 version-4 UUID" in
  let jrnl := readControllerVariable env "SUC_TABLE_EXPERIMENT_JOURNAL" isTableName "a non-empty table name" in
  let ctl := readControllerVariable env "SUC_TABLE_CONTROL" isTableName "a non-empty table name" in
  match kind, id, jrnl, ctl with
  | Ok k, Ok i, Ok j, Ok c =>
      Ok (MkEnvironment (executionIdentityOf (nullish (kind_of k) RUN) i) j c)
  | _, _, _, _ =>
      Err ("controller environment invalid: " +:+ str_join "; " (error_of kind ++ error_of id ++ error_of jrnl ++ error_of ctl))
  end.

End Controller.
