(* ===== verification/ControllerSafety.v ===== *)
(** * Safety of the treatment controller

    One stream record handled beside provider calls and other controller invocations,
    over a store with faults. The reading of a caller timeout and the decision table are
    characterised exactly; an invocation moves no treatment but the one of its record's
    partition, from COMMITTED_WAITING to TIMEOUT_SIGNALLED, for the targeted attempt and
    together with the journal event the treatment then names. *)

From S2P Require Import Prelude Timestamps Effects Store JsonText LeaseItem Journal JournalSafety JournalTx ControlItems Acceptance.
From S2P Require Import Provider ProviderSafety Controller.
Import Json Store Identifiers Journal JournalSafety ControlItems Acceptance.
Import Provider(ProvEff, OwnEff, GetControl, Transact, NextUuid, lift, eventId).
Import JournalTx(apply_row_other, apply_all_other, apply_all_row, tx_view, confirm_view).
Import ProviderSafety Controller.
Open Scope Z_scope.

Module ControllerSafety.

(** ** The caller timeout *)

Lemma text_that_iff p v : text_that p v = true <-> exists s, v = Some (JStr s) /\ p s = true.
Proof. unfold text_that. destruct v as [[]|]; try (split; [done|by intros (? & ? & ?)]). split; [by eauto|]. by intros (? & [= ->] & ?). Qed.

(** The image names only this execution. *)
Definition names_execution (image : list (string * json)) (deployment : ExecutionIdentity) : Prop :=
  member (identity_field deployment).1 image = Some (JStr (identity_field deployment).2)
  /\ forall f, f ∈ IDENTITY_FIELDS -> f <> (identity_field deployment).1 -> member f image = None.

(** A well-formed caller timeout of the partition: its identities and every field of its record. *)
Record valid_caller_timeout (image : list (string * json)) (expected : CallerTimeoutExpectation) (refs : CallerEventRefs) : Prop := {
  vt_type : member "record_type" image = Some (JStr "caller_timeout_recorded");
  vt_version : member "schema_version" image = Some (JNum (JSInt 1));
  vt_execution : names_execution image (x_deployment expected);
  vt_manifest : exists d, member "execution_manifest_sha256" image = Some (JStr d)
    /\ match x_manifest expected with None => isSha256Hex d = true | Some e => d = e end;
  vt_trial : member "trial_id" image = option_map (fun t => JStr (trial_id t)) (x_trial expected)
    /\ member "trial_manifest_sha256" image = option_map (fun t => JStr (trial_manifest_sha256 t)) (x_trial expected);
  vt_source : member "source" image = Some (JStr (x_source expected));
  vt_event : member "event_id" image = Some (JStr (caller_timeout_event_id refs)) /\ isUuid4 (caller_timeout_event_id refs) = true;
  vt_attempt : member "attempt_id" image = Some (JStr (attempt_id refs)) /\ isUuid4 (attempt_id refs) = true;
  vt_declared : forall name, name ∈ map fst image -> name ∈ DECLARED_PROPERTIES;
  vt_fields : forall field holds shape, (field, holds, shape) ∈ RECORD_FIELD_CHECKS -> holds (member field image) = true;
}.

Lemma or_else_None {A} (a b : option A) : or_else a b = None <-> a = None /\ b = None.
Proof. destruct a; cbn; naive_solver. Qed.

Lemma if_None {A} (b : bool) (x : A) : (if b then None else Some x) = None <-> b = true.
Proof. by destruct b. Qed.

Lemma executionProblem_None image deployment : executionProblem image deployment = None <-> names_execution image deployment.
Proof.
  unfold executionProblem, names_execution. destruct (identity_field deployment) as [field id]. cbn [fst snd].
  rewrite if_None, andb_true_iff, scalar_str_iff, bool_decide_eq_true. apply and_iff_compat_l. split.
  - intros Hnil f Hf Hne. apply hasOwn_false. destruct (hasOwn image f) eqn:E; [|done].
    assert (Hin : f ∈ List.filter (fun name => negb (bool_decide (name = field)) && hasOwn image name) IDENTITY_FIELDS).
    { apply elem_of_filter_bool. split; [done|]. by rewrite bool_decide_eq_false_2, E. }
    rewrite Hnil in Hin. by apply elem_of_nil in Hin.
  - intros H. destruct (List.filter _ _) as [|f l] eqn:E; [done|].
    assert (Hin : f ∈ List.filter (fun name => negb (bool_decide (name = field)) && hasOwn image name) IDENTITY_FIELDS) by (rewrite E; left).
    apply elem_of_filter_bool in Hin as [Hin [Hne%negb_true_iff Ho]%andb_true_iff]. apply bool_decide_eq_false in Hne.
    pose proof (H f Hin Hne) as Hn. apply hasOwn_false in Hn. congruence.
Qed.

Lemma manifestProblem_None image expected : manifestProblem image expected = None <->
  exists d, member "execution_manifest_sha256" image = Some (JStr d)
    /\ match expected with None => isSha256Hex d = true | Some e => d = e end.
Proof.
  unfold manifestProblem. rewrite if_None. destruct expected as [e|]; [rewrite scalar_str_iff|rewrite text_that_iff]; naive_solver.
Qed.

Lemma trialProblem_None image trial : trialProblem image trial = None <->
  member "trial_id" image = option_map (fun t => JStr (trial_id t)) trial
  /\ member "trial_manifest_sha256" image = option_map (fun t => JStr (trial_manifest_sha256 t)) trial.
Proof.
  unfold trialProblem. destruct trial as [t|]; cbn [option_map].
  - by rewrite if_None, andb_true_iff, !scalar_str_iff.
  - destruct (member "trial_id" image), (member "trial_manifest_sha256" image); naive_solver.
Qed.

Lemma recordShapeProblem_None image : recordShapeProblem image = None <->
  (forall name, name ∈ map fst image -> name ∈ DECLARED_PROPERTIES)
  /\ (forall field holds shape, (field, holds, shape) ∈ RECORD_FIELD_CHECKS -> holds (member field image) = true).
Proof.
  unfold recordShapeProblem. destruct (find_first _ (map fst image)) as [u|] eqn:E.
  - split; [done|]. intros [H _]. apply find_first_Some in E as [Hin E]. apply negb_true_iff, memb_false in E. by destruct E; apply H.
  - pose proof (proj1 (find_first_None _ _) E) as Hall.
    assert (Hdecl : forall name, name ∈ map fst image -> name ∈ DECLARED_PROPERTIES).
    { intros name Hn. apply memb_true. apply negb_false_iff. by apply Hall. }
    destruct (find_first _ RECORD_FIELD_CHECKS) as [[[f h] sh]|] eqn:Ef.
    + split; [done|]. intros [_ H]. apply find_first_Some in Ef as [Hin Ef]. cbn in Ef. by rewrite (H f h sh Hin) in Ef.
    + split; [intros _|done]. split; [done|]. intros field holds shape Hin.
      pose proof (proj1 (find_first_None _ _) Ef _ Hin) as Hc. cbn in Hc. by apply negb_false_iff.
Qed.

Lemma firstProblem_None image expected : firstProblem image expected = None <->
  member "record_type" image = Some (JStr "caller_timeout_recorded") /\ member "schema_version" image = Some (JNum (JSInt 1))
  /\ executionProblem image (x_deployment expected) = None /\ manifestProblem image (x_manifest expected) = None
  /\ trialProblem image (x_trial expected) = None /\ member "source" image = Some (JStr (x_source expected)).
Proof.
  unfold firstProblem. assert (Hs : forall src, sourceProblem image src = None <-> member "source" image = Some (JStr src)).
  { intros src. unfold sourceProblem. by rewrite if_None, scalar_str_iff. }
  destruct (scalar_matches (member "record_type" image) _) eqn:E1; cbn [negb orb].
  - apply scalar_str_iff in E1. destruct (scalar_matches (member "schema_version" image) _) eqn:E2; cbn [negb].
    + apply scalar_num_iff in E2. rewrite !or_else_None, Hs. naive_solver.
    + split; [done|]. intros (_ & H & _). apply scalar_num_iff in H. congruence.
  - split; [done|]. intros (H & _). apply scalar_str_iff in H. unfold RECORD_TYPE in E1. congruence.
Qed.

Lemma caller_timeout_read image expected refs :
  readCallerTimeout (JObj image) expected = Ok refs <-> valid_caller_timeout image expected refs.
Proof.
  cbn [readCallerTimeout]. unfold readOwnCallerTimeout. split.
  - intros H. destruct (firstProblem image expected) eqn:Ef; [done|]. apply firstProblem_None in Ef as (H1 & H2 & H3 & H4 & H5 & H6).
    destruct (uuid4_of (member "event_id" image)) as [ev|] eqn:Ee; [|done].
    destruct (uuid4_of (member "attempt_id" image)) as [at_|] eqn:Ea; [|done].
    destruct (recordShapeProblem image) eqn:Er; [done|]. apply recordShapeProblem_None in Er as [Hd Hc]. injection H as <-.
    apply uuid4_of_iff in Ee, Ea. split; try done; [by apply executionProblem_None|by apply manifestProblem_None|by apply trialProblem_None].
  - intros V. rewrite (proj2 (firstProblem_None image expected)).
    2: { split_and!; [apply V|apply V|apply executionProblem_None, V|apply manifestProblem_None, V|apply trialProblem_None, V|apply V]. }
    rewrite (proj2 (uuid4_of_iff _ _) (vt_event _ _ _ V)), (proj2 (uuid4_of_iff _ _) (vt_attempt _ _ _ V)).
    rewrite (proj2 (recordShapeProblem_None image)); [by destruct refs|]. split; apply V.
Qed.

(** ** The signal *)

Lemma signal_decision image context treatment d :
  decideSignal (JObj image) context treatment = signal d ->
  exists deployment configuration commit,
    context = ctx_experiment deployment configuration
    /\ valid_caller_timeout image (experimentExpectation deployment configuration) (sd_refs d)
    /\ v_scenario configuration = COMMIT_THEN_TIMEOUT /\ treatment = Some (ct_waiting commit)
    /\ attempt_id (sd_refs d) = targeted_attempt_id commit
    /\ d = MkSignal (sd_refs d) (sortedPair (tc_commit_event_id commit) (caller_timeout_event_id (sd_refs d)))
             (tc_provider_commit_id commit) (tc_commit_event_id commit).
Proof.
  destruct context as [dep|dep cfg]; cbn -[readCallerTimeout]; [by destruct (readCallerTimeout _ _)|].
  destruct (readCallerTimeout _ _) as [refs|e] eqn:Er; [|done]. case_bool_decide as Hsc; [done|].
  destruct treatment as [[|commit|s c0 ev|]|]; cbn; try done.
  - unfold decideCommittedWait. case_bool_decide as Ha; cbn; [|done]. intros [= <-]. cbn [sd_refs].
    exists dep, cfg, commit. apply caller_timeout_read in Er. split_and!; [done..| |done|done|done]. by destruct (v_scenario cfg).
  - unfold decideSignalled. by case_bool_decide.
Qed.

Lemma resolved_key deployment pk p : resolveControllerPartition deployment pk = Some p -> pk = Some (JStr (partition_key p)).
Proof.
  unfold resolveControllerPartition. destruct pk as [[| | |key| |]|]; try done.
  destruct (after_prefix _ key); [|done]. case_bool_decide; [by intros [= <-]|].
  destruct (execution_kind deployment); [destruct (isUuid4 _)|case_bool_decide|destruct (isUuid4 _)]; try done; by intros [= <-].
Qed.

Section invocation.
Context (mine : string -> Prop) (record : StreamInsertRecord).

Definition image_names (name value : string) : Prop := member name (new_image record) = Some (JStr value).

(** A treatment changes only by the signal of this record: the item of the record's
    partition, waiting under the attempt the record names, becomes signalled by the record's
    event, and the signal event it names is stored with it. *)
Record signal_step (w w' : tables) (k : ItemKey) (m m' : StoredItem) (a c : string) : Prop := {
  ss_before : w control k = Some m;
  ss_after : w' control k = Some m';
  ss_waiting : has_state m COMMITTED_WAITING;
  ss_signalled : has_state m' TIMEOUT_SIGNALLED;
  ss_partition : image_names "pk" (pk k);
  ss_attempt : image_names "attempt_id" a /\ member "targeted_attempt_id" m = Some (JStr a);
  ss_caller : image_names "event_id" c /\ member "signal_caller_event_id" m' = Some (JStr c);
  ss_recorded : exists j x, w experiment_journal j = None /\ w' experiment_journal j = Some x
    /\ member "record_type" x = Some (JStr "timeout_signal_recorded")
    /\ member "event_id" x = member "signal_event_id" m'
    /\ member "caller_timeout_event_id" x = Some (JStr c) /\ member "attempt_id" x = Some (JStr a);
}.

Definition signals_only (w w' : tables) : Prop :=
  forall k, w' control k = w control k \/ exists m m' a c, signal_step w w' k m m' a c.

Definition cguar (w w' : tables) : Prop := guar mine w w' /\ signals_only w w'.

Abbreviation spec := (rgs (prov_step mine) (rely mine) cguar always).

Lemma cguar_refl w : cguar w w.
Proof. split; [apply guar_refl|]. by left. Qed.

Lemma jguar_cguar d w w' : mine (d_instanceId d) -> jguar experiment_journal d w w' -> cguar w w'.
Proof.
  intros Hd Hg. split; [by eapply jguar_guar|]. intros k. left. by destruct (Hg control k) as [E|(E & _)].
Qed.

Lemma clift_rg {A} (p : proc JournalEff A) d keep (Q : A -> tables -> Prop) w :
  mine (d_instanceId d) ->
  rg (journal_step experiment_journal) (jrely experiment_journal d) (jguar experiment_journal d) keep p Q w ->
  rg (prov_step mine) (rely mine) cguar always (lift p) Q w.
Proof.
  intros Hd. revert w. induction p as [a|R e k IH]; intros w H; [done|].
  cbn [lift rg]. intros w1 Hr r w2 Hs. destruct (H w1 (rely_jrely _ _ _ _ Hd Hr) r w2 Hs) as (Hg & _ & Hk).
  split; [by eapply jguar_cguar|]. split; [done|]. by apply IH.
Qed.

Definition cwriter_ok (s : CtlState) (w : tables) : Prop :=
  mine (d_instanceId (deps s)) /\ jinv experiment_journal (deps s) (journal s) w.

Definition lifted {A} (r : Result A js_error) : Result A thrown := match r with Ok a => Ok a | Err e => Err (other e) end.

Lemma on_journal_cspec {A} (m : JournalWriterDeps -> JM A) R s w (Q : CtlState -> Result A thrown -> tables -> Prop) n :
  cwriter_ok s w ->
  rgs (journal_step experiment_journal) (jrely experiment_journal (deps s)) (jguar experiment_journal (deps s))
    (dense experiment_journal (deps s) n) (m (deps s)) (fun j r w => jinv experiment_journal (deps s) j w /\ R j r) (journal s) w ->
  (forall j r w', cwriter_ok (set_journal j s) w' -> R j r -> Q (set_journal j s) (lifted r) w') ->
  spec (on_journal m) Q s w.
Proof.
  intros [Hm Hj] H HQ. unfold rgs, on_journal. apply rg_bind.
  eapply rg_mono; [|eapply clift_rg; [exact Hm|exact H]].
  intros [j r] w' [Hj' HR]. cbn [rg fst snd] in *. by apply HQ.
Qed.

Lemma append_cspec type body causation s w (Q : CtlState -> Result AppendResult thrown -> tables -> Prop) :
  cwriter_ok s w -> (forall j r w', Q (set_journal j s) (lifted r) w') -> spec (journal_append type body causation) Q s w.
Proof.
  intros Hs HQ. eapply (on_journal_cspec _ (fun _ _ => True)); [done| |by intros j r w' _ _; apply HQ].
  unfold rgs, append_run. apply rg_bind.
  eapply rg_mono; [|apply (append_spec experiment_journal (deps s) type body causation (append_called (journal s)) w); apply Hs].
  intros [j r] w' H. cbn [rg fst snd] in *. split; [exact H|done].
Qed.

Lemma prepare_cspec type body causation s w (Q : CtlState -> Result (PreparedJournalPut + JournalStopped) thrown -> tables -> Prop) :
  cwriter_ok s w ->
  (forall j r w', cwriter_ok (set_journal j s) w' ->
     (forall p, r = Ok (inl p) -> reservation j = Some p /\ built type body (put_entry p)) -> Q (set_journal j s) (lifted r) w') ->
  spec (journal_prepare type body causation) Q s w.
Proof.
  intros Hs HQ. eapply (on_journal_cspec _ (fun j r => forall p, r = Ok (inl p) -> reservation j = Some p /\ built type body (put_entry p)));
    [done| |exact HQ].
  apply prepare_reserves, Hs.
Qed.

Lemma quiet_cspec {R} (e : OwnEff R) s w (Q : CtlState -> Result R thrown -> tables -> Prop) :
  (forall w r w', own_step mine R e w r w' -> w' = w) ->
  (forall w1 r, rely mine w w1 -> own_step mine R e w1 r w1 -> Q s (Ok r) w1) -> spec (own e) Q s w.
Proof.
  intros He HQ. apply rgs_perform. intros w1 Hr r w2 Hs. pose proof Hs as Hs'. apply He in Hs' as ->.
  split; [apply cguar_refl|]. split; [done|]. by apply HQ.
Qed.

(** ** A signalled treatment stays signalled *)

Definition signalled (w : tables) : Prop := exists k m s d n x a c,
  image_names "pk" (pk k) /\ k = tkey (pk k) /\ w control k = Some m /\ has_state m s /\ s <> ARMED /\ s <> COMMITTED_WAITING
  /\ image_names "attempt_id" a /\ member "targeted_attempt_id" m = Some (JStr a)
  /\ image_names "event_id" c /\ member "signal_caller_event_id" m = Some (JStr c)
  /\ mine (d_instanceId d) /\ Journal.isSourceSequence n = true /\ jrow experiment_journal d w n = Some x
  /\ member "record_type" x = Some (JStr "timeout_signal_recorded") /\ member "event_id" x = member "signal_event_id" m.

Lemma rows_keep_signal m r s :
  rtc row_step (Some m) r -> has_state m s -> s <> ARMED -> s <> COMMITTED_WAITING ->
  exists m' s', r = Some m' /\ has_state m' s' /\ s' <> ARMED /\ s' <> COMMITTED_WAITING
    /\ kept (COMMIT_FIELDS ++ SIGNAL_FIELDS) m m'.
Proof.
  intros H. remember (Some m) as r0 eqn:E. revert m s E. induction H as [|r0 r1 r2 Hstep _ IH]; intros m s -> Hs Ha Hc.
  - exists m, s. split_and!; try done. by apply Forall_forall.
  - inversion Hstep as [|? m1 (s0 & s1 & Hs0 & Hs1 & He & Hkc & Hks & _)]; subst.
    pose proof (has_state_inj _ _ _ Hs Hs0) as <-.
    destruct (IH m1 s1 eq_refl Hs1) as (m' & s' & -> & Hs' & Ha' & Hc' & Hk); [by inversion He; subst|by inversion He; subst|].
    exists m', s'. split_and!; try done. apply Forall_forall. intros f Hf.
    rewrite (proj1 (Forall_forall _ _) Hk f Hf). apply elem_of_app in Hf as [Hf|Hf].
    + apply (proj1 (Forall_forall _ _) (Hkc Ha) f Hf).
    + apply (proj1 (Forall_forall _ _) (Hks Ha Hc) f Hf).
Qed.

Lemma signalled_stable w w' : signalled w -> rely mine w w' -> signalled w'.
Proof.
  intros (k & m & s & d & n & x & a & c & Hpk & Hk & Hm & Hs & Ha & Hw & Hia & Hta & Hic & Hsc & Hd & Hn & Hx & Hrt & Hev) Hr.
  assert (Htk : is_treatment_key k) by (by rewrite Hk).
  pose proof (rely_treatment _ _ _ Hr k Htk) as Hrow. rewrite Hm in Hrow.
  destruct (rows_keep_signal m _ s Hrow Hs Ha Hw) as (m' & s' & Hm' & Hs' & Ha' & Hw' & Hkept).
  assert (Hf : forall f, f ∈ COMMIT_FIELDS ++ SIGNAL_FIELDS -> member f m' = member f m) by (by apply Forall_forall).
  exists k, m', s', d, n, x, a, c. split_and!; try done.
  - rewrite Hf; [done|unfold COMMIT_FIELDS; set_solver].
  - rewrite Hf; [done|unfold COMMIT_FIELDS, SIGNAL_FIELDS; set_solver].
  - by rewrite (rely_journal _ _ _ Hr d n Hd Hn).
  - rewrite Hf; [done|unfold COMMIT_FIELDS, SIGNAL_FIELDS; set_solver].
Qed.

(** ** The signal transaction *)

Section signal_transaction.
Context (dd : SignalOnlyDecision) (key : string) (p : PreparedJournalPut) (d : JournalWriterDeps) (st : JournalWriter) (w : tables).
Let a := attempt_id (sd_refs dd).
Let c := caller_timeout_event_id (sd_refs dd).
Let actions := signal_actions key a c p.
Context (Hkey : image_names "pk" key) (Ha : image_names "attempt_id" a) (Hc : image_names "event_id" c).
Context (Hbuilt : built "timeout_signal_recorded" (signalBody dd) (put_entry p)).
Context (Hmine : mine (d_instanceId d)) (Hp : pending d st p false w).

Lemma signal_put_target :
  action_target (journalPutAction experiment_journal (put_entry p)) = Some (experiment_journal, jkey d (nextSequence st)).
Proof. destruct Hp as (_ & _ & _ & _ & He & _ & _). by apply (put_target experiment_journal). Qed.

Lemma signal_others t k : t <> experiment_journal -> (t, k) <> (control, tkey key) -> apply_all w actions t k = w t k.
Proof.
  intros Ht Hne. apply apply_all_other. unfold actions, signal_actions. rewrite !Forall_cons, signal_put_target. split_and!; [|congruence|done].
  intros [= <- <-]. by destruct Hne.
Qed.

Lemma signal_lands : distinct_targets actions -> forallb (row_holds w) actions = true ->
  exists m m', signal_step w (apply_all w actions) (tkey key) m m' a c /\ tmove m m'
    /\ jrow experiment_journal d (apply_all w actions) (nextSequence st) = Some (item (put_entry p))
    /\ member "targeted_attempt_id" m' = Some (JStr a)
    /\ member "event_id" (item (put_entry p)) = member "signal_event_id" m'.
Proof.
  intros Hd Hh. pose proof Hp as (_ & _ & _ & _ & He & _ & Hfree). assert (Hrow := Hh).
  cbn [actions signal_actions forallb] in Hrow. apply andb_prop in Hrow as [Hrow _]. unfold row_holds in Hrow. cbn [action_target] in Hrow.
  change (MkKey key TREATMENT_SORT_KEY) with (tkey key) in Hrow. destruct (w control (tkey key)) as [m|] eqn:Hm; [|done].
  cbn [action_holds action_condition condition_holds forallb] in Hrow. apply andb_prop in Hrow as [Hs [Hta _]%andb_prop].
  apply scalar_str_iff in Hs, Hta.
  destruct (update_tmove control (tkey key)
    [("state", JStr "TIMEOUT_SIGNALLED"); ("signal_event_id", JStr (eventId (event (put_entry p)))); ("signal_caller_event_id", JStr c)]
    (all [attribute_equals "state" (SStr "COMMITTED_WAITING"); attribute_equals "targeted_attempt_id" (SStr a)])
    COMMITTED_WAITING TIMEOUT_SIGNALLED m) as (m' & E & Hmv & Hto & Hmem);
    [apply (bool_decide_unpack _); vm_compute; exact I|done|done|constructor|intros _; by repeat constructor|done|done|].
  destruct (built_item _ _ _ Hbuilt) as (Hrt & Hid & Hbody).
  assert (Hj : jrow experiment_journal d (apply_all w actions) (nextSequence st) = Some (item (put_entry p))).
  { unfold jrow. rewrite (apply_all_row w actions _ _ _ Hd (list_elem_of_further _ _ _ (list_elem_of_here _ _)) signal_put_target). done. }
  assert (Hrow' : apply_all w actions control (tkey key) = Some m').
  { erewrite (apply_all_row w actions _ control (tkey key) Hd); [rewrite Hm; exact E|left|done]. }
  exists m, m'. split_and!; [|done|done|by rewrite Hmem|by rewrite Hid, Hmem]. split; try done.
  - split; [done|]. by rewrite Hmem.
  - exists (jkey d (nextSequence st)), (item (put_entry p)). split_and!; [exact Hfree|exact Hj|done|by rewrite Hid, Hmem|..];
      (rewrite Hbody; [done|unfold ENVELOPE_FIELDS; set_solver]).
Qed.

Lemma signal_guar : distinct_targets actions -> forallb (row_holds w) actions = true -> cguar w (apply_all w actions).
Proof.
  intros Hd Hh. destruct (signal_lands Hd Hh) as (m & m' & Hss & Hmv & _). pose proof Hp as (_ & _ & _ & _ & He & _ & Hfree). split.
  - split.
    + intros t k. destruct (decide (t = experiment_journal)) as [->|Ht].
      * destruct (decide (k = jkey d (nextSequence st))) as [->|Hk]; [eapply (change_journal _ _ _ _ _ d (nextSequence st)); try done; apply He|].
        apply change_none, apply_all_other. unfold actions, signal_actions. rewrite !Forall_cons, signal_put_target. split_and!; [done|congruence|done].
      * destruct (decide ((t, k) = (control, tkey key))) as [[= -> ->]|Hne]; [|by apply change_none, signal_others].
        eapply change_treatment; [done|done|apply Hss|apply Hss|done].
    + apply (proto_advance _ _ key m m').
      * intros k. by apply signal_others.
      * split_and!; [apply Hss|apply Hss|done|]. intros p' Hp'. apply signal_others; [done|]. intros [= ?]. done.
      * intros Harm. by pose proof (has_state_inj _ _ _ Harm (ss_waiting _ _ _ _ _ _ _ Hss)).
  - intros k. destruct (decide (k = tkey key)) as [->|Hne]; [right; by exists m, m', a, c|]. left. apply signal_others; [done|congruence].
Qed.

Lemma signal_signalled : distinct_targets actions -> forallb (row_holds w) actions = true -> signalled (apply_all w actions).
Proof.
  intros Hd Hh. destruct (signal_lands Hd Hh) as (m & m' & Hss & _ & Hj & Hta & Hev). pose proof Hp as (_ & _ & _ & _ & He & _ & _).
  exists (tkey key), m', TIMEOUT_SIGNALLED, d, (nextSequence st), (item (put_entry p)), a, c.
  destruct (built_item _ _ _ Hbuilt) as (Hrt & _). split_and!; try done; [apply Hss..|apply He].
Qed.

Lemma signal_effect out w' :
  transact_step w actions out w' ->
  exists landed cl, cguar w w' /\ pending d st p landed w'
    /\ classifyJournalOutcome out (put_entry p) SIGNAL_JOURNAL_ACTION_INDEX = Ok cl /\ class_view cl landed
    /\ (landed = true -> signalled w').
Proof.
  intros Htx. destruct (JournalTx.transact_pending experiment_journal d st p actions 1 w out w' Hp Htx eq_refl) as (landed & cl & Hview & Hp' & Hcl & Hcv).
  { apply JournalTx.one_is_own. unfold JournalTx.one_journal_put, actions, signal_actions. rewrite !Forall_cons. by split_and!. }
  exists landed, cl. destruct landed.
  - destruct Hview as (-> & Hd & Hh). split_and!; [by apply signal_guar|done|done|done|]. intros _. by apply signal_signalled.
  - destruct Hview as [-> _]. split_and!; [apply cguar_refl|done|done|done|done].
Qed.
End signal_transaction.

(** ** The handling of a record *)

Definition handled (_ : CtlState) (r : Result ControllerOutcome thrown) (w : tables) : Prop :=
  match r with Ok o => outcome_kind o = "signal" -> signalled w | Err _ => True end.

Lemma appendOrFail_cspec decision key s w : cwriter_ok s w -> spec (appendOrFail decision key) handled s w.
Proof.
  intros Hs. apply rgs_bind.
  assert (Happ : forall type body causation, spec (journal_append type body causation)
    (fun st' r w' => match r with
       | Ok x => spec (match x with
                  | ap_appended e => se_ret (MkOutcome (appended_kind decision) (Some key) ("recorded " +:+ text_of e "record_type"))
                  | ap_stopped z => throw_fault JOURNAL_STOPPED key (appended_kind decision +:+ " record not written: " +:+ stop_text (stop_reason z))
                  end) handled st' w'
       | Err x => handled st' (Err x) w' end) s w).
  { intros type body causation. apply append_cspec; [done|]. intros j r w'. destruct r as [[e|x]|x]; unfold rgs; cbn; [|done|done].
    by destruct decision. }
  destruct decision; apply Happ.
Qed.

Lemma confirm_cspec p out index landed c s w (Q : CtlState -> Result ConfirmResult thrown -> tables -> Prop) :
  mine (d_instanceId (deps s)) -> pending (deps s) (journal s) p landed w ->
  classifyJournalOutcome out (put_entry p) index = Ok c -> class_view c landed ->
  (forall j r, cwriter_ok (set_journal j s) w -> confirm_view r landed -> Q (set_journal j s) (Ok r) w) ->
  spec (journal_confirm p out index) Q s w.
Proof.
  intros Hm Hp Hc Hv HQ. destruct (confirm_pending _ _ _ _ _ _ _ _ Hp Hc Hv) as (j & r & E & Hj & Hr).
  unfold rgs, journal_confirm, on_journal. rewrite E. cbn. by apply HQ.
Qed.

Lemma redecide_cspec planned treatment key s w : cwriter_ok s w -> spec (redecide planned treatment key) handled s w.
Proof. intros Hs. unfold redecide. destruct (decideSignal _ _ _); [unfold rgs; by cbn|by apply appendOrFail_cspec]. Qed.

Lemma signal_run_cspec d planned key s w :
  image_names "pk" key -> image_names "attempt_id" (attempt_id (sd_refs d)) -> image_names "event_id" (caller_timeout_event_id (sd_refs d)) ->
  cwriter_ok s w -> spec (signal_run d planned key) handled s w.
Proof.
  intros Hkey Ha Hc Hs. unfold signal_run, prepareSignalRecord. apply rgs_bind, prepare_cspec; [done|]. intros j r w1 Hs1 Hres.
  destruct r as [[p|x]|x]; cbn [lifted]; [|unfold rgs; by cbn|done].
  destruct (Hres p eq_refl) as [Hr Hb]. clear Hres. set (s1 := set_journal j s) in *. destruct Hs1 as [Hm1 Hj1].
  pose proof (reserved_pending _ _ _ _ Hj1 Hr) as Hp1.
  apply rgs_bind, quiet_cspec; [by intros ? ? ? [_ ->]|]. intros w2 token Hr2 _.
  apply rgs_bind, rgs_perform. intros w3 Hr3 out w4 Htx.
  assert (Hp3 : pending (deps s1) (journal s1) p false w3) by (eapply pending_stable; [done|apply (rely_jrely mine); [done|by etrans]]).
  destruct (signal_effect d key p (deps s1) (journal s1) w3 Hkey Ha Hc Hb Hm1 Hp3 out w4 Htx) as (landed & cl & Hg & Hp4 & Hcl & Hcv & Hsig).
  split; [done|]. split; [done|].
  apply rgs_bind, (confirm_cspec p out _ landed cl); [done..|]. intros j' r Hs4 Hview.
  destruct r as [[e|x]|e o]; cbn in Hview; [unfold rgs; cbn; intros _; by apply Hsig|unfold rgs; by cbn|].
  destruct out as [|i existing|x|x]; try (unfold rgs; by cbn). destruct (negb _); [unfold rgs; by cbn|].
  destruct (decodeTreatmentAfterConflict existing); [by apply redecide_cspec|unfold rgs; by cbn].
Qed.

Section handle.
Context (deployment : ExecutionIdentity).

Lemma openJournal_cspec scope s w (Q : CtlState -> Result unit thrown -> tables -> Prop) :
  untouched mine w -> (forall s' w', cwriter_ok s' w' -> Q s' (Ok tt) w') -> spec (openJournal scope) Q s w.
Proof.
  intros Hu HQ. apply rgs_bind, quiet_cspec; [by intros ? ? ? [_ ->]|]. intros w1 id Hr [Hid _].
  unfold rgs. cbn. destruct (untouched_rely _ _ _ Hu Hr) as [Hn Hj]. apply HQ. split; [done|].
  unfold jinv. cbn. split_and!; [done| |intros _ Hk; by apply Hj|done..|naive_solver].
  intros k Hk. split; [apply isSourceSequence_range in Hk; lia|]. intros _. by apply Hj.
Qed.

(** A planned decision is the table's. *)
Definition planned_ok (planned : DecisionInScope) : Prop :=
  exists treatment, pl_decision planned = decideSignal (JObj (new_image record)) (pl_context planned) treatment.

Lemma plan_cspec partition s w (Q : CtlState -> Result (option DecisionInScope) thrown -> tables -> Prop) :
  (forall w', rely mine w w' -> Q s (Ok None) w') -> (forall w' x, Q s (Err x) w') ->
  (forall w' pl, rely mine w w' -> planned_ok pl -> Q s (Ok (Some pl)) w') -> spec (plan deployment record partition) Q s w.
Proof.
  intros HN HE HS. assert (Hrr : forall w, rely mine w w) by (intros w0; reflexivity). destruct partition as [p|key]; cbn [plan].
  - apply rgs_bind. unfold loadConfiguration, readControl. apply rgs_bind, quiet_cspec; [by intros ? ? ? [_ ->]|]. intros w1 r1 Hr1 _.
    unfold rgs at 1. cbn [se_ret rg fst snd]. apply rgs_bind. unfold required. destruct (match r1 with Ok _ => _ | Err _ => _ end) as [v|e];
      unfold rgs at 1; cbn [se_ret se_throw throw_fault rg fst snd]; [|apply HE].
    destruct v as [cfg|]; [|unfold rgs; cbn; by apply HN].
    apply rgs_bind. unfold loadTreatment, readControl. apply rgs_bind, quiet_cspec; [by intros ? ? ? [_ ->]|]. intros w2 r2 Hr2 _.
    unfold rgs at 1. cbn [se_ret rg fst snd]. apply rgs_bind. destruct (match r2 with Ok _ => _ | Err _ => _ end) as [v2|e];
      unfold rgs at 1; cbn [se_ret se_throw throw_fault rg fst snd]; [|apply HE].
    unfold rgs. cbn. apply HS; [by etrans|]. by exists v2.
  - destruct (sha256_of _); unfold rgs; cbn; [apply HS; [done|by exists None]|by apply HN].
Qed.

Lemma handle_cspec s w : untouched mine w -> spec (handle deployment record) handled s w.
Proof.
  intros Hu. unfold handle. destruct (isConsumableInsert record); cbn [negb]; [|unfold rgs; by cbn].
  destruct (resolveControllerPartition _ _) as [partition|] eqn:Ep; [|unfold rgs; by cbn]. apply resolved_key in Ep.
  apply rgs_bind, plan_cspec; [intros w' _; unfold rgs; by cbn|done|]. intros w1 pl Hr1 (treatment & Hpl).
  apply rgs_bind, openJournal_cspec; [by eapply untouched_rely|]. intros s2 w2 Hs2.
  destruct (pl_decision pl) as [d|d] eqn:Ed; [|by apply appendOrFail_cspec].
  symmetry in Hpl. apply signal_decision in Hpl as (dep & cfg & commit & _ & V & _).
  apply signal_run_cspec; [done|apply V|apply V|done].
Qed.
End handle.
End invocation.

(** ** Theorems *)

(** A caller timeout is accepted exactly when it is one. The controller reads a stream
    image as the timeout [refs] of a partition iff the image is a version 1
    caller_timeout_recorded that names this execution and no other, the frozen manifest,
    exactly the partition's trial and the expected source, identifies its event and attempt
    by UUIDv4, carries every field of the record in its shape and no property the record
    does not declare. *)
Theorem caller_timeout_accepted_iff image expected refs :
  readCallerTimeout (JObj image) expected = Ok refs <-> valid_caller_timeout image expected refs.
Proof. apply caller_timeout_read. Qed.

(** The controller signals exactly the intended timeout. The decision table answers signal
    iff the event is a valid timeout of the partition's registered caller, the trial is
    treated, its treatment item waits after the commit and the event's attempt is the
    targeted one; the signal then carries the commit of that item and is caused by the
    commit event and the caller's event, in sorted order. *)
Theorem signal_decided_iff image deployment configuration treatment d :
  decideSignal (JObj image) (ctx_experiment deployment configuration) treatment = signal d <->
  valid_caller_timeout image (experimentExpectation deployment configuration) (sd_refs d)
  /\ v_scenario configuration = COMMIT_THEN_TIMEOUT
  /\ exists commit, treatment = Some (ct_waiting commit) /\ targeted_attempt_id commit = attempt_id (sd_refs d)
     /\ sd_provider_commit_id d = tc_provider_commit_id commit /\ sd_commit_event_id d = tc_commit_event_id commit
     /\ sd_causation d = sortedPair (tc_commit_event_id commit) (caller_timeout_event_id (sd_refs d)).
Proof.
  split.
  - intros H. apply signal_decision in H as (dep & cfg & commit & Hctx & V & Hs & Ht & Ha & Hd).
    injection Hctx as <- <-. split; [exact V|]. split; [exact Hs|].
    exists commit. destruct d as [refs cau pc ce]. cbn in *. injection Hd as -> -> ->. by split_and!.
  - intros (V & Hs & commit & -> & Ha & H1 & H2 & H3). cbn -[readCallerTimeout]. rewrite (proj2 (caller_timeout_read _ _ _) V), Hs.
    rewrite (bool_decide_eq_false_2 (COMMIT_THEN_TIMEOUT = CONTROL)) by done. unfold decideCommittedWait.
    rewrite (bool_decide_eq_true_2 (attempt_id _ = _)) by done. cbn. destruct d. cbn in *. by subst.
Qed.

(** C19: A signal is truthful and touches nothing else. Handle one stream record beside provider
    calls and other controllers, over a store that may refuse, fail or answer ambiguously.
    Every effect changes only journal rows of this invocation and at most the treatment item
    of the record's partition, and that item only from COMMITTED_WAITING under the record's
    attempt to TIMEOUT_SIGNALLED by the record's event, in one step with the
    timeout_signal_recorded event it names. If the outcome is signal, the item names the
    record's event and the stored signal event, now and ever after. *)
Theorem controller_signal_truthful (mine : string -> Prop) deployment record s0 w0 steps s r w :
  untouched mine w0 ->
  iexec (prov_step mine) (rely mine) (handle deployment record s0) w0 steps (s, r) w ->
  Forall (fun p => guar mine p.1 p.2 /\ signals_only record p.1 p.2) steps
  /\ forall o, r = Ok o -> outcome_kind o = "signal" -> forall w', rely mine w w' -> signalled mine record w'.
Proof.
  intros Hu Hx. destruct (rg_iexec _ _ _ _ _ _ _ _ _ _ (handle_cspec mine record deployment s0 w0 Hu) Hx) as [HQ HF].
  split; [exact HF|]. intros o -> Ho w' Hr. eapply signalled_stable; [|exact Hr]. by apply HQ.
Qed.

(** ** A run *)

Definition demo_event : string := "11111111-1111-4111-8111-111111111111".
Definition demo_time : string := "2026-10-05T12:00:00.000Z".

Definition demo_image : StoredItem :=
  [("pk", JStr demo_partition); ("sk", JStr "conventional_caller#i#1"); ("schema_version", JNum (JSInt 1));
   ("record_type", JStr "caller_timeout_recorded"); ("event_id", JStr demo_event); ("run_id", JStr demo_id);
   ("execution_manifest_sha256", JStr demo_digest); ("trial_id", JStr demo_trial); ("trial_manifest_sha256", JStr demo_digest);
   ("occurred_at", JStr demo_time); ("source", JStr "conventional_caller"); ("source_instance_id", JStr demo_id);
   ("source_sequence", JNum (JSInt 4)); ("causation_event_ids", JArr [JStr demo_id]); ("attempt_id", JStr demo_id);
   ("provider_request_id", JStr demo_id); ("refund_request_id", JStr "refund-1"); ("elapsed_ns", JStr "3000000000");
   ("monotonic_origin_event_id", JStr demo_id); ("dispatch_at", JStr demo_time); ("deadline_at", JStr demo_time);
   ("timer_fired_at", JStr demo_time); ("abort_requested_at", JStr demo_time); ("recorded_at", JStr demo_time);
   ("arbiter_winner", JStr "TIMER"); ("transport_settled_at_claim", JBool false)].

Definition demo_record : StreamInsertRecord := MkRecord "INSERT" demo_image "1".

Definition demo_waiting_item : StoredItem :=
  demo_treatment COMMITTED_WAITING
    [("targeted_attempt_id", JStr demo_id); ("provider_commit_id", JStr demo_id); ("commit_event_id", JStr demo_trial)].

Definition demo_ctl : CtlState := MkCtl (Provider.deps demo_prov) (Provider.journal demo_prov) [].

Definition demo_handled := run calm (handle (id_run demo_id) demo_record demo_ctl) (demo_tables (Some demo_waiting_item) None).

Lemma controller_signal_truthful_witness :
  outcome_kind <$> (match demo_handled.1.2 with Ok o => Some o | Err _ => None end) = Some "signal" /\ signalled demo_mine demo_record demo_handled.2.
Proof.
  destruct (run_iexec (prov_step demo_mine) (rely demo_mine) calm (handle (id_run demo_id) demo_record demo_ctl)
    (demo_tables (Some demo_waiting_item) None)) as [steps Hx]; [intros w; reflexivity|apply provider_calm_step|].
  fold demo_handled in Hx. destruct demo_handled.1 as [s r] eqn:E. cbn [snd].
  assert (Er : exists o, r = Ok o /\ outcome_kind o = "signal").
  { assert (E2 : r = demo_handled.1.2) by (rewrite E; reflexivity). rewrite E2. eexists. split; vm_compute; reflexivity. }
  destruct Er as (o & -> & Ho). split; [cbn; by rewrite Ho|].
  refine (proj2 (controller_signal_truthful demo_mine (id_run demo_id) demo_record demo_ctl _ steps s (Ok o) demo_handled.2
    (demo_untouched (Some demo_waiting_item)) Hx) o eq_refl Ho demo_handled.2 _). reflexivity.
Defined.

End ControllerSafety.
