(* ===== verification/Protocol.v ===== *)
(** * Provider calls and controllers together

    Many provider calls and controller invocations over one store, in every interleaving
    of their effects and with every store fault. The system refines an abstract machine
    whose state is the treatment of each partition and the refunds made, each with its ledger
    key, and whose steps are the ones the study allows: one refund, one refund that consumes the
    armed treatment, an advance of a consumed treatment. Every effect is at most one step. *)

From S2P Require Import Prelude Timestamps Effects Store JsonText LeaseItem Journal JournalSafety ControlItems Acceptance.
From S2P Require Import Provider ProviderSafety Controller ControllerSafety.
From stdpp Require Import functions.
Import Json Store Identifiers Journal JournalSafety ControlItems Acceptance.
Import Provider(ProvEff, ProvState, handleCall) ProviderSafety.
Import Controller(StreamInsertRecord, CtlState, ControllerOutcome, outcome_kind, handle) ControllerSafety.
Open Scope Z_scope.

Module Protocol.

(** ** The abstract machine *)

(** The commit of the refund at each ledger key. *)
Record Study := MkStudy {
  treatment_of : string -> option (TreatmentState * option string);
  refund_at : ItemKey -> option string;
}.

Inductive study_event :=
| ev_refund (at_ : ItemKey) (commit : string)
| ev_consume (at_ : ItemKey) (commit : string)
| ev_advance (partition : string) (from to : TreatmentState).

Definition others_same (p : string) (a a' : Study) : Prop := forall q, q <> p -> treatment_of a' q = treatment_of a q.
(** One refund more. *)
Definition refund_added (k : ItemKey) (c : string) (a a' : Study) : Prop :=
  refund_at a k = None /\ refund_at a' k = Some c /\ forall k', k' <> k -> refund_at a' k' = refund_at a k'.
Definition refunds_same (a a' : Study) : Prop := forall k, refund_at a' k = refund_at a k.

Inductive study_step (a : Study) : study_event -> Study -> Prop :=
| step_refund k c a' :
    refund_added k c a a' -> (forall q, treatment_of a' q = treatment_of a q) -> study_step a (ev_refund k c) a'
| step_consume k c a' old :
    treatment_of a (pk k) = Some (ARMED, old) -> treatment_of a' (pk k) = Some (COMMITTED_WAITING, Some c) ->
    others_same (pk k) a a' -> refund_added k c a a' -> study_step a (ev_consume k c) a'
| step_advance p s s' c a' :
    treatment_of a p = Some (s, c) -> treatment_of a' p = Some (s', c) -> s <> ARMED -> edge s s' ->
    others_same p a a' -> refunds_same a a' -> study_step a (ev_advance p s s') a'.

(** The study stands still or makes one step. *)
Inductive study_moves (a a' : Study) : Prop :=
| study_still : (forall q, treatment_of a' q = treatment_of a q) -> refunds_same a a' -> study_moves a a'
| study_moved e : study_step a e a' -> study_moves a a'.

(** A treatment that is no longer armed belongs to a refund of its partition. *)
Definition consumed_refunded (a : Study) : Prop :=
  forall p s c, treatment_of a p = Some (s, c) -> s <> ARMED -> exists k d, c = Some d /\ pk k = p /\ refund_at a k = Some d.

Lemma refund_added_keeps k c a a' k' d : refund_added k c a a' -> refund_at a k' = Some d -> refund_at a' k' = Some d.
Proof. intros (Hn & _ & Ho) H. rewrite Ho; [done|]. intros ->. congruence. Qed.

Lemma study_moves_consumed a a' : consumed_refunded a -> study_moves a a' -> consumed_refunded a'.
Proof.
  intros Ha Hm. assert (Hold : forall b q t x, (forall k d, refund_at a k = Some d -> refund_at b k = Some d) ->
    treatment_of a q = Some (t, x) -> t <> ARMED -> exists k d, x = Some d /\ pk k = q /\ refund_at b k = Some d).
  { intros b q t x Hk Hq Hnot. destruct (Ha q t x Hq Hnot) as (k & d & -> & Hp & Hd). exists k, d. auto. }
  destruct Hm as [Ht Hr|e [k c a2 Hadd Hsame|k c a2 old Hp Hp' Ho Hadd|p s s' c a2 Hp Hp' Hne He Ho Hr]]; intros q t x Hq Hnot.
  - rewrite Ht in Hq. apply (Hold _ q t); auto. intros k d. by rewrite Hr.
  - rewrite Hsame in Hq. apply (Hold _ q t); auto. intros k' d. by apply (refund_added_keeps k c).
  - destruct (decide (q = pk k)) as [->|Hne].
    + rewrite Hp' in Hq. injection Hq as <- <-. exists k, c. split; [done|]. split; [done|]. apply Hadd.
    + rewrite Ho in Hq by done. apply (Hold _ q t); auto. intros k' d. by apply (refund_added_keeps k c).
  - assert (Hk : forall k d, refund_at a k = Some d -> refund_at a2 k = Some d) by (intros k d; by rewrite Hr).
    destruct (decide (q = p)) as [->|Hne'].
    + rewrite Hp' in Hq. injection Hq as <- <-. by apply (Hold _ p s).
    + rewrite Ho in Hq by done. by apply (Hold _ q t).
Qed.

(** ** The abstraction *)

Definition treatment_view (m : StoredItem) : option (TreatmentState * option string) :=
  option_map (fun s => (s, as_string (member "provider_commit_id" m))) (isOneOf TREATMENT_STATES state_text (member "state" m)).

Definition abstraction (w : tables) : Study :=
  MkStudy (fun p => match w control (tkey p) with Some m => treatment_view m | None => None end)
    (fun k => match w ledger k with Some m => as_string (member "provider_commit_id" m) | None => None end).

Lemma treatment_view_state m s : has_state m s -> treatment_view m = Some (s, as_string (member "provider_commit_id" m)).
Proof. intros H. unfold treatment_view. by rewrite (proj2 (state_one_of _ _) H). Qed.

Lemma same_treatments_view w w' : same_treatments w w' -> forall q, treatment_of (abstraction w') q = treatment_of (abstraction w) q.
Proof. intros H q. cbn. by rewrite H. Qed.

Lemma same_ledger_refunds w w' : same_ledger w w' -> refunds_same (abstraction w) (abstraction w').
Proof. intros H k. cbn. unfold same_ledger in H. by rewrite H. Qed.

Lemma ledger_gains_refund w w' k m c :
  ledger_gains w w' k m -> member "provider_commit_id" m = Some (JStr c) -> refund_added k c (abstraction w) (abstraction w').
Proof.
  intros (E & E' & Ho) Hc. unfold refund_added. cbn. rewrite E, E', Hc. split; [done|]. split; [done|]. intros k' Hne. by rewrite Ho.
Qed.

Lemma moves_others w w' p t t' : treatment_moves w w' p t t' -> others_same p (abstraction w) (abstraction w').
Proof. intros (_ & _ & _ & Ho) q Hq. cbn. by rewrite Ho. Qed.

(** One effect of the protocol is at most one step of the study. *)
Lemma protocol_step_abstract w w' : protocol_step w w' -> study_moves (abstraction w) (abstraction w').
Proof.
  intros [Hl Ht|k m c Hg Hc Ht|k m c t t' Hg Hc Hmv Ha Hw Hcm _|p t t' Hl Hmv Hna].
  - apply study_still; [by apply same_treatments_view|by apply same_ledger_refunds].
  - eapply study_moved, step_refund; [by eapply ledger_gains_refund|by apply same_treatments_view].
  - eapply study_moved, (step_consume _ k c); [| |by eapply moves_others|by eapply ledger_gains_refund].
    + destruct Hmv as (E & _). cbn. rewrite E. by apply treatment_view_state.
    + destruct Hmv as (_ & E & _). cbn. rewrite E. by rewrite (treatment_view_state _ _ Hw), Hcm.
  - destruct Hmv as (E & E' & (s & s' & Hs & Hs' & He & Hkc & _) & Ho).
    assert (Hne : s <> ARMED) by (by intros ->).
    eapply study_moved, (step_advance _ p s s' (as_string (member "provider_commit_id" t))); [..|by apply same_ledger_refunds].
    + cbn. rewrite E. by apply treatment_view_state.
    + cbn. rewrite E', (treatment_view_state _ _ Hs'). destruct (Forall_cons_1 _ _ _ (Hkc Hne)) as [Ec _]. by rewrite Ec.
    + done.
    + done.
    + intros q Hq. cbn. by rewrite Ho.
Qed.

(** ** The system *)

Section system.
Context {I : Type} `{EqDecision I} (mine : I -> string -> Prop).
Context (sha256Hex : string -> string) (deployment : ExecutionIdentity) (prov0 : ProvState) (ctl0 : CtlState).

(** An invocation is fresh, or is over with what it was and what it gave. *)
Inductive invocation :=
| fresh
| called (r : Result (option (list (string * json))) Provider.thrown)
| consumed (record : StreamInsertRecord) (r : Result ControllerOutcome Controller.thrown).

Inductive trigger := on_call (turns : nat) (raw : json) | on_record (record : StreamInsertRecord).

(** Effects carry their invocation, whose UUIDs are its own. *)
Definition TEff (R : Type) : Type := I * ProvEff R.
Definition tstep (R : Type) (e : TEff R) : tables -> R -> tables -> Prop := prov_step (mine e.1) R e.2.

Fixpoint tag {A} (i : I) (p : proc ProvEff A) : proc TEff A :=
  match p with
  | Ret a => Ret a
  | Vis e k => Vis ((i, e) : TEff _) (fun r => tag i (k r))
  end.

(** Each invocation handles one trigger. *)
Definition invoke (i : I) (t : trigger) (st : invocation) : proc TEff invocation :=
  match st, t with
  | fresh, on_call turns raw => pbind (tag i (handleCall sha256Hex deployment turns raw prov0)) (fun x => Ret (called x.2))
  | fresh, on_record record => pbind (tag i (handle deployment record ctl0)) (fun x => Ret (consumed record x.2))
  | _, _ => Ret st
  end.

Abbreviation system_step := (sys_step tstep invoke).
Definition system_start (w : tables) : (I -> thread (E:=TEff) (St:=invocation) (Op:=trigger)) * tables := (fun _ => Idle fresh, w).

Definition system_inv (i : I) (st : invocation) (w : tables) : Prop :=
  match st with
  | fresh => untouched (mine i) w
  | called r => call_view (mine i) r w
  | consumed record r => forall o, r = Ok o -> outcome_kind o = "signal" -> signalled (mine i) record w
  end.

Lemma tag_rg {A} i (p : proc ProvEff A) rely guar guar' keep (Q : A -> tables -> Prop) w :
  (forall w w', guar w w' -> guar' w w' : Prop) ->
  rg (prov_step (mine i)) rely guar keep p Q w -> rg tstep rely guar' keep (tag i p) Q w.
Proof.
  intros Hg. revert w. induction p as [a|R e k IH]; intros w; cbn [tag rg]; [done|].
  intros H w1 Hr r w2 Hs. destruct (H w1 Hr r w2 Hs) as (H1 & H2 & H3). split; [by apply Hg|]. split; [done|]. by apply IH.
Qed.

Lemma call_view_stable i r w w' : call_view (mine i) r w -> rely (mine i) w w' -> call_view (mine i) r w'.
Proof.
  intros H Hr. destruct r as [[resp|]|[f|e]]; cbn in *.
  - destruct H as [[H1 H2]|(k & m & H1 & H2)]; [left; split; [done|by eapply (stable_rely _ _ (ledger_none_stable _))]|right].
    exists k, m. split; [by eapply (stable_rely _ _ (ledger_one_stable _ k m))|done].
  - by eapply (stable_rely _ _ (has_one_stable _)).
  - destruct (Provider.f_phase f); cbn in *;
      [by eapply (stable_rely _ _ (ledger_none_stable _))|by eapply (stable_rely _ _ (maybe_one_stable _))|by eapply (stable_rely _ _ (has_one_stable _))].
  - by eapply (stable_rely _ _ (maybe_one_stable _)).
Qed.

Context (disjoint : forall i j x, mine i x -> mine j x -> i = j) (uuids : forall i x, mine i x -> isUuid4 x = true).

Lemma invocations_rg :
  rg_system tstep invoke (fun i => rely (mine i)) (fun i => guar (mine i)) system_inv (fun _ _ _ => always).
Proof.
  split.
  - intros i. apply rely_preorder.
  - intros i j w w' Hij Hg. apply (provider_guar_rely (mine i)); [|intros x [H|H]; by eapply uuids|done].
    intros x Hi Hj. apply Hij. by eapply disjoint.
  - intros i [|r|record r] w w' H Hr; cbn in *; [by eapply untouched_rely|by eapply call_view_stable|].
    intros o Ho Hk. eapply signalled_stable; [by eapply H|done].
  - done.
  - intros i t [|r|record r] w H; (split; [done|]); [|by destruct t..]. destruct t as [turns raw|record]; apply rg_bind.
    + eapply rg_mono; [|eapply (tag_rg i _ _ (guar (mine i))); [done|apply (handleCall_spec (mine i) sha256Hex deployment turns raw prov0 w H)]].
      by intros [s r] w' Hv.
    + eapply rg_mono; [|eapply (tag_rg i _ _ (cguar (mine i) record)); [by intros ? ? [? _]|apply (handle_cspec (mine i) record deployment ctl0 w H)]].
      intros [s r] w' Hv. cbn in *. intros o -> Ho. by apply Hv.
Qed.

Lemma start_ok w0 : (forall i, untouched (mine i) w0) ->
  sys_ok tstep (fun i => rely (mine i)) (fun i => guar (mine i)) system_inv (fun _ _ _ => always) (system_start w0).
Proof. intros H i. apply H. Qed.

Lemma system_moves s s' :
  sys_ok tstep (fun i => rely (mine i)) (fun i => guar (mine i)) system_inv (fun _ _ _ => always) s ->
  system_step s s' -> study_moves (abstraction s.2) (abstraction s'.2).
Proof.
  destruct s as [ths w], s' as [ths' w']. intros Hok Hs. cbn.
  destruct (sys_step_guar _ _ _ _ _ _ invocations_rg _ _ _ _ Hok Hs) as (i & [->|[_ Hp]] & _).
  - by apply study_still.
  - by apply protocol_step_abstract.
Qed.

Lemma system_simulated s s' :
  sys_ok tstep (fun i => rely (mine i)) (fun i => guar (mine i)) system_inv (fun _ _ _ => always) s ->
  rtc system_step s s' -> rtc study_moves (abstraction s.2) (abstraction s'.2).
Proof.
  intros Hok H. induction H as [s|s s1 s2 Hs _ IH]; [apply rtc_refl|].
  eapply rtc_l; [by apply system_moves|]. apply IH. by eapply (sys_step_ok _ _ _ _ _ _ invocations_rg).
Qed.
End system.

(** ** Theorems *)

(** C4: The system refines the study, effect by effect. Over any number of provider calls and
    controller invocations with UUIDs of their own, every interleaving of their effects and
    every store fault, take any reachable state and any next effect. Seen as the study, the
    effect leaves the treatments and the refunds as they were, or is one step: it adds one
    refund, adds the one refund that consumes an armed treatment, which then waits under that
    commit, or advances one consumed treatment along its state machine under the same commit. So
    a run is a run of the study, one step or none for each effect. *)
Theorem protocol_refined {I : Type} `{EqDecision I} (mine : I -> string -> Prop) sha256Hex deployment prov0 ctl0 w0 ths w :
  (forall i j x, mine i x -> mine j x -> i = j) -> (forall i x, mine i x -> isUuid4 x = true) -> (forall i, untouched (mine i) w0) ->
  rtc (sys_step (tstep mine) (invoke sha256Hex deployment prov0 ctl0)) (system_start w0) (ths, w) ->
  (forall ths' w', sys_step (tstep mine) (invoke sha256Hex deployment prov0 ctl0) (ths, w) (ths', w') ->
     study_moves (abstraction w) (abstraction w'))
  /\ rtc study_moves (abstraction w0) (abstraction w).
Proof.
  intros Hd Hu H0 Hr. pose proof (start_ok mine w0 H0) as Hok. split; [|exact (system_simulated mine sha256Hex deployment prov0 ctl0 Hd Hu _ _ Hok Hr)].
  intros ths' w' Hs. refine (system_moves mine sha256Hex deployment prov0 ctl0 Hd Hu _ (ths', w') _ Hs).
  exact (system_invariant _ _ _ _ _ _ (invocations_rg mine sha256Hex deployment prov0 ctl0 Hd Hu) _ _ Hok Hr).
Qed.

(** C22: A treatment is consumed only by a refund. Start the system where every treatment item
    is armed; in every reachable state, under every interleaving and store fault, a
    treatment item past ARMED names a commit whose ledger transaction exists in its
    partition. A targeted timeout is never staged around a refund that was not made. *)
Theorem treated_trial_was_refunded {I : Type} `{EqDecision I} (mine : I -> string -> Prop) sha256Hex deployment prov0 ctl0 w0 ths w :
  (forall i j x, mine i x -> mine j x -> i = j) -> (forall i x, mine i x -> isUuid4 x = true) -> (forall i, untouched (mine i) w0) ->
  (forall p m s, w0 control (tkey p) = Some m -> has_state m s -> s = ARMED) ->
  rtc (sys_step (tstep mine) (invoke sha256Hex deployment prov0 ctl0)) (system_start w0) (ths, w) ->
  forall p m s, w control (tkey p) = Some m -> has_state m s -> s <> ARMED ->
  exists c k row, member "provider_commit_id" m = Some (JStr c) /\ w ledger k = Some row /\ pk k = p
    /\ member "provider_commit_id" row = Some (JStr c).
Proof.
  intros Hd Hu H0 Harm Hr p m s Hm Hs Hne.
  assert (Hinit : consumed_refunded (abstraction w0)).
  { intros q t x Hq Hn. cbn in Hq. destruct (w0 control (tkey q)) as [m0|] eqn:E; [|done]. unfold treatment_view in Hq.
    destruct (isOneOf _ _ _) as [s0|] eqn:Es; [|done]. apply state_one_of in Es. injection Hq as <- <-.
    destruct Hn. by eapply Harm. }
  pose proof (system_simulated mine sha256Hex deployment prov0 ctl0 Hd Hu _ _ (start_ok mine w0 H0) Hr) as Hsim. cbn in Hsim.
  assert (Hfin : consumed_refunded (abstraction w)).
  { clear -Hinit Hsim. induction Hsim as [|a b c Hab _ IH]; [done|]. apply IH. by eapply study_moves_consumed. }
  destruct (Hfin p s (as_string (member "provider_commit_id" m))) as (k & c & Hc & Hp & Hrow); [|done|].
  - cbn. rewrite Hm. by apply treatment_view_state.
  - cbn in Hrow. destruct (w ledger k) as [row|] eqn:Hk; [|done]. apply as_string_iff in Hc, Hrow. by exists c, k, row.
Qed.

(** Every answer of the system is true. In every reachable state of any number of calls and
    controllers, a finished call's answer agrees with the ledger as it stands (none of its
    transactions after a rejection, exactly the one it names after a success, what its
    fault's phase says otherwise), and a finished signal is in the treatment item and in the
    journal. *)
Theorem system_answers_truthful {I : Type} `{EqDecision I} (mine : I -> string -> Prop) sha256Hex deployment prov0 ctl0 w0 ths w :
  (forall i j x, mine i x -> mine j x -> i = j) -> (forall i x, mine i x -> isUuid4 x = true) -> (forall i, untouched (mine i) w0) ->
  rtc (sys_step (tstep mine) (invoke sha256Hex deployment prov0 ctl0)) (system_start w0) (ths, w) ->
  forall i, match ths i with
            | Idle (called r) => call_view (mine i) r w
            | Idle (consumed record (Ok o)) => outcome_kind o = "signal" -> signalled (mine i) record w
            | _ => True
            end.
Proof.
  intros Hd Hu H0 Hr i.
  pose proof (system_invariant _ _ _ _ _ _ (invocations_rg mine sha256Hex deployment prov0 ctl0 Hd Hu) _ _ (start_ok mine w0 H0) Hr i) as Hok.
  cbn in Hok. destruct (ths i) as [[|r|record [o|x]]|]; cbn in Hok; [done|done| |done|done]. by apply Hok.
Qed.

(** ** A run: a call consumes the treatment, then a controller signals it *)

Definition other_id : string := "22222222-2222-4222-8222-222222222222".
Definition run_mine (i : bool) (x : string) : Prop := x = if i then demo_id else other_id.

Definition tcalm (R : Type) (e : TEff (I:=bool) R) (w : tables) : R * tables :=
  match e.2 with
  | inr o => match o in Provider.OwnEff R return tables -> R * tables with
             | Provider.NextUuid => fun w => (if e.1 then demo_id else other_id, w)
             | o' => fun w => calm _ (inr o') w
             end w
  | inl j => calm _ (inl j) w
  end.

Lemma tcalm_step R (e : TEff R) w : tstep run_mine R e w (tcalm R e w).1 (tcalm R e w).2.
Proof.
  destruct e as [i e]. unfold tstep. cbn [fst snd].
  destruct e as [j|o]; [pose proof (provider_calm_step R (inl j) w) as H; exact H|].
  destruct o; try (match goal with |- prov_step _ _ (inr ?o) _ _ _ => pose proof (provider_calm_step _ (inr o) w) as H; exact H end).
  by destruct i.
Qed.

Definition demo_armed : tables := demo_tables (Some (demo_treatment ARMED [])) None.
Definition demo_invoke := invoke (I:=bool) (fun _ => demo_digest) (id_run demo_id) demo_prov demo_ctl.
Definition after_call := run tcalm (demo_invoke true (on_call 1 demo_call) fresh) demo_armed.
Definition after_signal := run tcalm (demo_invoke false (on_record demo_record) fresh) after_call.2.

Lemma demo_system : exists ths, rtc (sys_step (tstep run_mine) demo_invoke) (system_start demo_armed) (ths, after_signal.2)
  /\ ths false = Idle after_signal.1.
Proof.
  destruct (sys_run (tstep run_mine) demo_invoke tcalm tcalm_step (fun _ => Idle fresh) demo_armed true (on_call 1 demo_call) fresh eq_refl)
    as (ths1 & H1 & _ & Ho1).
  destruct (sys_run (tstep run_mine) demo_invoke tcalm tcalm_step ths1 after_call.2 false (on_record demo_record) fresh) as (ths2 & H2 & Hf & _);
    [by apply Ho1|].
  exists ths2. split; [by etrans|done].
Qed.

Lemma run_mine_disjoint i j x : run_mine i x -> run_mine j x -> i = j.
Proof. unfold run_mine. destruct i, j; by intros ->. Qed.
Lemma run_mine_uuids i x : run_mine i x -> isUuid4 x = true.
Proof. unfold run_mine. destruct i; by intros ->. Qed.
Lemma run_untouched i : untouched (run_mine i) demo_armed.
Proof. split; [|done]. intros k m. cbn. by case_bool_decide. Qed.

Lemma protocol_refined_witness :
  (exists ths, rtc (sys_step (tstep run_mine) demo_invoke) (system_start demo_armed) (ths, after_signal.2)
     /\ forall ths' w', sys_step (tstep run_mine) demo_invoke (ths, after_signal.2) (ths', w') -> study_moves (abstraction after_signal.2) (abstraction w'))
  /\ rtc study_moves (abstraction demo_armed) (abstraction after_signal.2)
  /\ treatment_of (abstraction demo_armed) demo_partition = Some (ARMED, None)
  /\ treatment_of (abstraction after_signal.2) demo_partition = Some (TIMEOUT_SIGNALLED, Some demo_id).
Proof.
  destruct demo_system as (ths & Hr & _).
  pose proof (protocol_refined run_mine (fun _ => demo_digest) (id_run demo_id) demo_prov demo_ctl demo_armed ths after_signal.2
    run_mine_disjoint run_mine_uuids run_untouched Hr) as [Hstep Hrun].
  split; [exists ths; split; [exact Hr|exact Hstep]|]. split; [exact Hrun|]. split; vm_compute; reflexivity.
Defined.

Lemma treated_trial_was_refunded_witness : exists c k row, after_signal.2 ledger k = Some row /\ pk k = demo_partition
  /\ member "provider_commit_id" row = Some (JStr c).
Proof.
  destruct demo_system as (ths & Hr & _).
  destruct (treated_trial_was_refunded run_mine (fun _ => demo_digest) (id_run demo_id) demo_prov demo_ctl demo_armed ths after_signal.2
    run_mine_disjoint run_mine_uuids run_untouched) with (p := demo_partition) (m := nullish (after_signal.2 control (tkey demo_partition)) [])
    (s := TIMEOUT_SIGNALLED) as (c & k & row & _ & H).
  - intros p m s. unfold demo_armed, demo_tables. repeat case_bool_decide; intros [= <-] Hs; [discriminate Hs|discriminate Hs|].
    by apply (has_state_inj _ _ _ Hs).
  - exact Hr.
  - vm_compute. reflexivity.
  - vm_compute. reflexivity.
  - discriminate.
  - by exists c, k, row.
Defined.

Lemma system_answers_truthful_witness : signalled (run_mine false) demo_record after_signal.2.
Proof.
  destruct demo_system as (ths & Hr & Hf).
  pose proof (system_answers_truthful run_mine (fun _ => demo_digest) (id_run demo_id) demo_prov demo_ctl demo_armed ths after_signal.2
    run_mine_disjoint run_mine_uuids run_untouched Hr false) as H. rewrite Hf in H.
  assert (E : exists o, after_signal.1 = consumed demo_record (Ok o) /\ outcome_kind o = "signal") by (eexists; split; vm_compute; reflexivity).
  destruct E as (o & E & Ho). rewrite E in H. exact (H Ho).
Defined.

End Protocol.
