(* ===== verification/BarrierLiveness.v ===== *)
(** * The treatment barrier ends

    The wait of a committed call on a clock: readings and polls move time forward, reads may
    fail and transactions may be refused or answered ambiguously, but a transaction does not
    fail outright. Whatever the other parties do, the barrier has ended within a fixed number
    of turns: sixty polls of 250 ms reach the safety deadline, and between two polls the
    treatment item is seen further along its state machine each turn. *)

From S2P Require Import Prelude Timestamps Effects Store JsonText LeaseItem Journal JournalSafety ControlItems Acceptance.
From S2P Require Import Provider ProviderSafety.
Import Json Store Identifiers Journal JournalSafety ControlItems Acceptance Provider ProviderSafety.
Open Scope Z_scope.

Module BarrierLiveness.

(** ** Executions in time *)

Section timed.
Context (mine : string -> Prop).

(** What the runtime promises of time, and the store of transactions. *)
Definition timely (R : Type) (e : OwnEff R) : Z -> R -> Z -> Prop :=
  match e in OwnEff R return Z -> R -> Z -> Prop with
  | NowNs => fun t r t' => t <= r <= t'
  | Sleep ms => fun t _ t' => t + ms * NS_PER_MS <= t'
  | Transact _ _ => fun _ r _ => forall code, r <> definitive_failure code
  | _ => fun _ _ _ => True
  end.

Definition timed_step (R : Type) (e : ProvEff R) (w : tables * Z) (r : R) (w' : tables * Z) : Prop :=
  prov_step mine R e w.1 r w'.1 /\ w.2 <= w'.2 /\ match e with inl _ => True | inr o => timely R o w.2 r w'.2 end.

Definition timed_rely (w w' : tables * Z) : Prop := rely mine w.1 w'.1 /\ w.2 <= w'.2.

Abbreviation timed := (wpr timed_step timed_rely).

(** A condition on the tables holds on the clock too. *)
Lemma rg_timed {A} guar keep (p : proc ProvEff A) Q w t :
  rg (prov_step mine) (rely mine) guar keep p Q w -> timed p (fun a w => Q a w.1) (w, t).
Proof.
  revert w t. induction p as [a|R e k IH]; intros w t; simpl; [done|]. intros H [w1 t1] [Hr _] r [w2 t2] [Hs _]. cbn in *.
  apply IH. by destruct (H w1 Hr r w2 Hs) as (_ & _ & ?).
Qed.

Lemma time_passes {A} (p : proc ProvEff A) w t0 : t0 <= w.2 -> timed p (fun _ w' => t0 <= w'.2) w.
Proof.
  revert w. induction p as [a|R e k IH]; intros w Ht; simpl; [done|]. intros w1 [_ H1] r w2 (_ & H2 & _). apply IH. lia.
Qed.

(** ** A turn *)

Lemma confirm_returns p out index st : exists st' r, confirm p out index st = Ret (st', r)
  /\ forall e o, r = Ok (cf_not_applied e o) -> (exists code, out = definitive_failure code) \/ exists i x, out = condition_failed i x.
Proof.
  unfold confirm, settle, stop, se_bind, se_get, se_modify, se_of, se_throw, se_ret. cbn [pbind].
  destruct (negb _); [by do 2 eexists|]. cbn [pbind]. destruct (classifyJournalOutcome _ _ _) as [v|x] eqn:Ev; cbn [pbind]; [|by do 2 eexists].
  case_bool_decide as Hv; cbn [pbind].
  - do 2 eexists. split; [done|]. intros e o _. subst v. destruct out as [|i x|code|code]; cbn in Ev; try done; eauto.
  - destruct v; cbn [verdict pbind]; do 2 eexists; (split; [reflexivity|]); by intros e o [=].
Qed.

(** A transition is applied, superseded or ends the wait with a fault. *)
Lemma transition_decides c from to attr type body causation s w :
  timed (transition c from to attr type body causation s) (fun a _ => a.2 <> Ok tr_not_applied) w.
Proof.
  unfold transition. apply wprs_bind. eapply wpr_mono; [|by apply (time_passes _ _ w.2)].
  intros [s1 [[p|x]|x]] w1 _; cbn [fst snd]; [|done|done].
  apply wprs_bind. intros w2 _ token w3 _. cbn [pbind wpr fst snd].
  apply wprs_bind. intros w4 _ out w5 (_ & _ & Hout). cbn [pbind wpr fst snd]. cbn in Hout.
  apply wprs_bind. unfold journal_confirm, on_journal.
  destruct (confirm_returns p out TRANSITION_JOURNAL_ACTION_INDEX (journal s1)) as (j & r & -> & Hr). cbn [lift pbind wpr fst snd].
  destruct r as [[[e|x]|e o]|x]; cbn [fst snd]; [done|done| |done].
  destruct (Hr e o eq_refl) as [[code Hc]|(i & x & ->)]; [by destruct (Hout code)|]. unfold notAppliedResult.
  destruct x as [m|]; [destruct (decodeTreatmentItem m)|]; done.
Qed.

Definition reads_again (a : ProvState * Result (BarrierOutcome + NextRead) thrown) : Prop := a.2 = Ok (inr next_read).

Lemma after_transition_decides (m : PM TransitionResult) (k : string -> PM (BarrierOutcome + NextRead)) s w :
  timed (m s) (fun a _ => a.2 <> Ok tr_not_applied) w ->
  (forall eid s w, timed (k eid s) (fun a _ => ~ reads_again a) w) ->
  timed (se_bind m (fun r => match r with tr_applied eid => k eid | x => inner_next (continueAfter x) end) s) (fun a _ => ~ reads_again a) w.
Proof.
  intros Hm Hk. apply wprs_bind. eapply wpr_mono; [|exact Hm]. intros [s' [[eid|t|]|x]] w'; cbn [fst snd]; [by intros _; apply Hk|by intros _ [=]|done|by intros _ [=]].
Qed.

Lemma release_decides c id s w : timed (perform_release c id s) (fun a _ => ~ reads_again a) w.
Proof.
  apply (after_transition_decides (transition c TIMEOUT_OBSERVED RESPONSE_RELEASED _ _ _ _) (fun _ => se_ret (inl bo_released)));
    [apply transition_decides|]. by intros eid s' w' [=].
Qed.

Lemma observe_decides c id s w : timed (perform_observe c id s) (fun a _ => ~ reads_again a) w.
Proof.
  apply (after_transition_decides (transition c TIMEOUT_SIGNALLED TIMEOUT_OBSERVED _ _ _ _) (perform_release c));
    [apply transition_decides|]. intros eid s' w'. apply release_decides.
Qed.

Lemma safety_release_decides c from s w : timed (perform_safetyRelease c from s) (fun a _ => ~ reads_again a) w.
Proof.
  unfold perform_safetyRelease. apply wprs_bind. eapply wpr_mono; [|by apply (time_passes _ _ w.2)].
  intros [s1 [body|x]] w1 _; cbn [fst snd]; [|by intros [=]].
  apply (after_transition_decides (transition c (wait_of from) SAFETY_RELEASED _ _ _ _) (fun _ => se_ret (inl bo_safety_released)));
    [apply transition_decides|]. by intros eid s' w' [=].
Qed.

Lemma external_release_decides c cause s w : timed (recordExternalRelease c cause s) (fun a _ => ~ reads_again a) w.
Proof.
  unfold recordExternalRelease. apply wprs_bind. cbn [se_get wpr fst snd]. apply wprs_bind.
  eapply wpr_mono; [|by apply (time_passes _ _ w.2)]. intros [s1 [body|x]] w1 _; cbn [fst snd]; [|by intros [=]].
  apply wprs_bind. eapply wpr_mono; [|by apply (time_passes _ _ w1.2)]. intros [s2 [[e|x]|x]] w2 _; cbn [fst snd]; by intros [=].
Qed.

(** The instant of the safety deadline. *)
Definition deadline (c : BarrierCommit) : Z := bc_ack_ns c + safety_release_ms * NS_PER_MS.

(** Only a turn that began before the deadline reads again, one poll later. *)
Definition polled (c : BarrierCommit) (t : Z) (a : ProvState * Result (BarrierOutcome + NextRead) thrown) (w : tables * Z) : Prop :=
  reads_again a -> t < deadline c /\ t + poll_interval_ms * NS_PER_MS <= w.2.

Lemma keep_waiting_decided t own elapsed limit : decideBarrierStep t own elapsed limit = keep_waiting -> elapsed < limit.
Proof.
  unfold decideBarrierStep, signalledStep, observedStep, unexpected. destruct (Z.geb_spec elapsed limit) as [|Hlt]; [|by intros _].
  destruct t as [t|]; [|done]. destruct (negb _); [done|].
  destruct (t_state t); try done; [by destruct (t_signal_event_id t)|by destruct (t_observed_event_id t)].
Qed.

Lemma barrier_turn_polls c next s w : timed (barrier_turn c next s) (polled c w.2) w.
Proof.
  unfold barrier_turn. apply wprs_bind. eapply wpr_mono; [|by apply (time_passes _ _ w.2)].
  intros [s1 [treatment|x]] w1 Ht1; cbn [fst snd]; [|by intros [=]].
  apply wprs_bind. cbn [se_modify wpr fst snd]. apply wprs_bind. intros w2 [_ Ht2] now w3 (_ & Ht3 & Hnow). cbn [pbind wpr fst snd]. cbn in Hnow.
  set (s2 := set_wait _ _).
  destruct (decideBarrierStep _ _ _ _) as [id|id|from|cause| |d] eqn:Hd; cbn [perform_step];
    [eapply wpr_mono; [|apply observe_decides]; by intros a w' H ?
    |eapply wpr_mono; [|apply release_decides]; by intros a w' H ?
    |eapply wpr_mono; [|apply safety_release_decides]; by intros a w' H ?
    |eapply wpr_mono; [|apply external_release_decides]; by intros a w' H ?| |by intros [=]].
  apply keep_waiting_decided in Hd. intros w4 [_ Ht4] [] w5 (_ & _ & Hsleep). cbn in *. intros _. unfold deadline. lia.
Qed.

(** ** The loop *)

(** How many polls are left before the deadline. *)
Definition polls_left (c : BarrierCommit) (t : Z) : Z :=
  Z.max 0 ((deadline c - t + poll_interval_ms * NS_PER_MS - 1) / (poll_interval_ms * NS_PER_MS)).

Lemma polls_left_mono c t t' : t <= t' -> polls_left c t' <= polls_left c t.
Proof. intros H. unfold polls_left. apply Z.max_le_compat_l. apply Z.div_le_mono; [done|]. lia. Qed.

Lemma polls_left_poll c t t' :
  t < deadline c -> t + poll_interval_ms * NS_PER_MS <= t' -> polls_left c t' <= polls_left c t - 1 /\ 1 <= polls_left c t.
Proof.
  intros Hd Ht. set (q := poll_interval_ms * NS_PER_MS) in *. assert (Hq : 0 < q) by done.
  assert (Hone : 1 <= (deadline c - t + q - 1) / q) by (apply Z.div_le_lower_bound; lia).
  assert (Hstep : (deadline c - t' + q - 1) / q <= (deadline c - t + q - 1) / q - 1).
  { replace ((deadline c - t + q - 1) / q - 1) with ((deadline c - t + q - 1 + (-1) * q) / q) by (rewrite Z.div_add; lia).
    apply Z.div_le_mono; lia. }
  unfold polls_left. fold q. lia.
Qed.

Lemma rank_range s : 0 <= rank s <= 4.
Proof. destruct s; cbn; lia. Qed.

(** Turns that are enough from here on. *)
Definition turns_left (c : BarrierCommit) (next : NextRead) (t : Z) : Z := 5 * polls_left c t + 5 - rank (next_state next).

Section loop.
Context (c : BarrierCommit) (k0 : ItemKey) (m0 : StoredItem).

Lemma turn_progress next s w t :
  writer_ok mine s w -> waiting mine c k0 m0 w -> next_ok c next w ->
  timed (barrier_turn c next s)
    (fun a w' => match a.2 with
       | Ok (inr next') => writer_ok mine a.1 w'.1 /\ waiting mine c k0 m0 w'.1 /\ next_ok c next' w'.1
                           /\ turns_left c next' w'.2 <= turns_left c next t - 1
       | _ => True
       end) (w, t).
Proof.
  intros Hs Hw Hn.
  pose proof (rg_timed _ _ _ _ w t (barrier_turn_spec mine c k0 m0 next s w Hs Hw Hn)) as H1.
  pose proof (barrier_turn_polls c next s (w, t)) as H2.
  pose proof (time_passes (barrier_turn c next s) (w, t) t ltac:(done)) as H3.
  eapply wpr_mono; [|exact (wpr_conj _ _ _ _ _ _ H1 (wpr_conj _ _ _ _ _ _ H2 H3))].
  intros [s' [[o|next']|x]] [w' t'] (Hp & Hpoll & Ht); cbn in *; [done| |done].
  destruct Hp as (Hs' & Hw' & Hn' & Hf). split_and!; [done..|]. unfold turns_left.
  pose proof (rank_range (next_state next)). pose proof (rank_range (next_state next')). pose proof (polls_left_mono c t t' Ht).
  destruct next' as [|t2]; cbn in *; [|lia].
  destruct (Hpoll eq_refl) as [Hd Hq]. destruct (polls_left_poll c t t' Hd Hq). lia.
Qed.

Lemma barrier_loop_ends turns : forall next s w t,
  writer_ok mine s w -> waiting mine c k0 m0 w -> next_ok c next w -> turns_left c next t <= Z.of_nat turns ->
  timed (barrier_loop turns c next s) (fun a _ => a.2 <> Ok None) (w, t).
Proof.
  induction turns as [|n IH]; intros next s w t Hs Hw Hn Ht.
  { exfalso. unfold turns_left in Ht. pose proof (rank_range (next_state next)). assert (0 <= polls_left c t) by (unfold polls_left; lia). lia. }
  cbn [barrier_loop]. apply wprs_bind. eapply wpr_mono; [|apply turn_progress; [exact Hs|exact Hw|exact Hn]].
  intros [s' [[o|next']|x]] [w' t'] H; cbn in *; [done| |done]. destruct H as (Hs' & Hw' & Hn' & Hl). apply IH; [done..|]. lia.
Qed.
End loop.
End timed.

(** Sixty polls to the deadline, at most five turns each, and five more. *)
Definition BARRIER_TURNS : nat := 305.

(** C20: The wait always ends. From a committed call's acknowledgement on, with a clock that
    advances by each poll and a store that refuses, loses reads or answers ambiguously but
    does not fail a transaction outright, and whatever the other parties do to the treatment
    item within its state machine, the barrier has released the response, released it for
    safety, found it released or thrown a fault after at most 305 turns. *)
Theorem barrier_ends (mine : string -> Prop) c k0 m0 turns s0 w0 t0 steps s r w :
  writer_ok mine s0 w0 -> waiting mine c k0 m0 w0 -> bc_ack_ns c <= t0 -> (BARRIER_TURNS <= turns)%nat ->
  iexec (timed_step mine) (timed_rely mine) (awaitRelease turns c s0) (w0, t0) steps (s, r) w ->
  r <> Ok None.
Proof.
  intros Hs Hw Ht Hturns Hx.
  assert (H : wpr (timed_step mine) (timed_rely mine) (awaitRelease turns c s0) (fun a _ => a.2 <> Ok None) (w0, t0)).
  { unfold awaitRelease. apply wprs_bind. cbn [se_modify wpr fst snd].
    apply (barrier_loop_ends mine c k0 m0); [exact Hs|done|done|].
    assert (polls_left c t0 <= 60).
    { transitivity (polls_left c (bc_ack_ns c)); [by apply polls_left_mono|]. unfold polls_left, deadline.
      replace (bc_ack_ns c + safety_release_ms * NS_PER_MS - bc_ack_ns c) with (safety_release_ms * NS_PER_MS) by lia. by vm_compute. }
    unfold turns_left. cbn [next_state rank]. unfold BARRIER_TURNS in Hturns. lia. }
  exact (wpr_iexec _ _ _ _ _ _ _ _ H Hx).
Qed.

(** ** A wait that runs into the deadline *)

Definition timed_calm (R : Type) (e : ProvEff R) : tables * Z -> R * (tables * Z) :=
  match e with
  | inl j => fun w => let '(r, w') := calm R (inl j) w.1 in (r, (w', w.2))
  | inr o =>
      match o in OwnEff R return tables * Z -> R * (tables * Z) with
      | NowNs => fun w => (w.2, w)
      | Sleep ms => fun w => (tt, (w.1, w.2 + Z.max 0 ms * NS_PER_MS))
      | Transact actions _ => fun w =>
          if bool_decide (distinct_targets actions) && forallb (row_holds w.1) actions then (applied, (apply_all w.1 actions, w.2))
          else (ambiguous "TransactionInProgressException", w)
      | o' => fun w => let '(r, w') := calm _ (inr o') w.1 in (r, (w', w.2))
      end
  end.

Lemma timed_calm_step R (e : ProvEff R) w : timed_step demo_mine R e w (timed_calm R e w).1 (timed_calm R e w).2.
Proof.
  destruct w as [w t]. destruct e as [j|o].
  - pose proof (provider_calm_step R (inl j) w) as H. unfold timed_calm. cbn [fst snd].
    destruct (calm R (inl j) w) as [r w']. split; [exact H|]. cbn. split; [lia|done].
  - destruct o as [k|actions token| | | |ms|a b d]; cbn.
    + split; [split; [constructor|done]|split; [cbn; lia|done]].
    + case_bool_decide as Hd; cbn; [destruct (forallb _ _) eqn:Hh; cbn|].
      * split; [by constructor|]. split; [cbn; lia|by intros code].
      * split; [constructor|]. split; [cbn; lia|by intros code].
      * split; [constructor|]. split; [cbn; lia|by intros code].
    + split; [by split|split; [cbn; lia|done]].
    + split; [done|split; [cbn; lia|done]].
    + split; [done|]. cbn. lia.
    + split; [done|]. cbn. unfold NS_PER_MS. lia.
    + split; [done|split; [cbn; lia|done]].
Qed.

Definition unsignalled : StoredItem := demo_treatment COMMITTED_WAITING [("provider_commit_id", JStr demo_id)].
Definition unsignalled_tables : tables := demo_tables (Some unsignalled) (Some demo_row).
Definition unsignalled_wait := run timed_calm (awaitRelease BARRIER_TURNS demo_commit demo_prov) (unsignalled_tables, 0).

Lemma unsignalled_waiting :
  writer_ok demo_mine demo_prov unsignalled_tables
  /\ waiting demo_mine demo_commit (MkKey demo_partition (ledgerSortKey demo_id)) demo_row unsignalled_tables.
Proof.
  split; [split; [done|]|split; [split; [done|split]|]].
  - unfold jinv. cbn. split_and!; [done| |done..|naive_solver]. intros k Hk. apply isSourceSequence_range in Hk. split; [lia|done].
  - by exists demo_id.
  - intros k m. cbn. case_bool_decide as E; [|done]. intros [= <-] _. by split.
  - exists unsignalled, COMMITTED_WAITING. by vm_compute.
Qed.

(** Nobody signals: after sixty polls the barrier releases for safety. *)
Lemma barrier_ends_witness :
  unsignalled_wait.1.2 <> Ok None /\ unsignalled_wait.1.2 = Ok (Some bo_safety_released) /\ unsignalled_wait.2.2 = 15000000000.
Proof.
  split; [|split; vm_compute; reflexivity].
  destruct (run_iexec (timed_step demo_mine) (timed_rely demo_mine) timed_calm (awaitRelease BARRIER_TURNS demo_commit demo_prov)
    (unsignalled_tables, 0)) as [steps Hx]; [intros [w t]; split; [reflexivity|cbn; lia]|apply timed_calm_step|].
  fold unsignalled_wait in Hx. destruct unsignalled_wait.1 as [s r] eqn:E. destruct unsignalled_waiting as [H1 H2].
  exact (barrier_ends demo_mine demo_commit _ _ BARRIER_TURNS demo_prov unsignalled_tables 0 steps s r unsignalled_wait.2 H1 H2
    ltac:(vm_compute; discriminate) ltac:(constructor) Hx).
Defined.

End BarrierLiveness.
