(* ===== verification/ProviderExchange.v ===== *)
(** * What a caller sends the provider and reads back (src/study-1/src/provider-client/)

    The input check (attempt-input.ts), the call built from it (provider-call.ts), the
    settlement of the transport port from whatever it resolved or threw
    (provider-invocation-port.ts), the guard of the response (provider-response-guard.ts),
    the classification of a settlement (provider-response.ts) and the resolution and
    report of an attempt (attempt-resolution.ts). *)

From S2P Require Import Prelude AttemptLifecycle Timestamps Utf16 Store JsonText Parsing LeaseItem Journal ControlItems Acceptance Provider.
From Stdlib Require Strings.Ascii.
Import Attempt Json Store Identifiers JsonText LeaseItem Journal ControlItems Acceptance.
Import Utf16(units, js_length, slice, is_high).
Import Provider(succeededResponse).
Import Parsing(JsonParseFailure, invalid_utf8, invalid_json, parseJsonDocument).
Open Scope Z_scope.

#[local] Set Warnings "-register-all".

Module ProviderExchange.

(** ** The input *)

Record AttemptInput := MkInput {
  in_caller_id : ProviderCallerId;
  in_refund_request_id : string;
  in_payment_id : string;
  in_amount_minor : jsnum;
  in_currency : string;
  in_provider_qualifier : string;
  in_causation_event_ids : list string;
}.

(** [/^[1-9][0-9]*$/u] *)
Definition PROVIDER_VERSION_PATTERN (s : string) : bool :=
  match map Ascii.nat_of_ascii (chars s) with
  | [] => false
  | first :: rest => (49 <=? first)%nat && (first <=? 57)%nat && forallb (fun c => (48 <=? c)%nat && (c <=? 57)%nat) rest
  end.

Definition is_positive_safe (n : jsnum) : bool := match n with JSInt z => is_safe_integer z && (z >=? 1) | JSOther _ => false end.

Definition quoted (s : string) : string := boundedJsonText (JStr s) QUOTED_JSON_LIMIT.

Definition firstViolation (input : AttemptInput) : option string :=
  match find_first (fun '(_, v) => negb (NONEMPTY_TRIMMED_PATTERN v))
          [("refund_request_id", in_refund_request_id input); ("payment_id", in_payment_id input)] with
  | Some (field, v) =>
      Some (field +:+ " " +:+ quoted v +:+ "; expected a string without leading or trailing whitespace and at least one character")
  | None =>
  if negb (is_positive_safe (in_amount_minor input))
  then Some ("amount_minor " +:+ number_text (in_amount_minor input) +:+ "; expected a safe integer >= 1")
  else if negb (PROVIDER_VERSION_PATTERN (in_provider_qualifier input))
  then Some ("provider_qualifier " +:+ quoted (in_provider_qualifier input) +:+ "; expected a Lambda version number such as " +:+ quote_json "7")
  else match find_first (fun id => negb (isUuid4 id)) (in_causation_event_ids input) with
       | Some bad => Some ("causation event id " +:+ quoted bad +:+ "; expected a lowercase UUIDv4")
       | None => None
       end
  end.

Definition assertValidAttemptInput (input : AttemptInput) : Result unit js_error :=
  match firstViolation input with
  | Some violation => Err (RangeError ("invalid attempt input: " +:+ violation))
  | None => Ok tt
  end.

(** ** The call *)

Record AttemptIds := MkIds { ai_attempt_id : string; ai_provider_request_id : string }.

Definition partition_kind_text (p : JournalPartition) : string :=
  match p with
  | pt_trial _ _ => "trial" | pt_probe => "probe" | pt_canary => "canary" | pt_warmup => "warmup"
  | pt_provider => "provider" | pt_execution => "execution"
  end.

Definition buildFailure (callerId : ProviderCallerId) (scope : JournalScope) (expected : string) : StructuredReason :=
  reason "CALL_BUILD_FAILED" "BR-RUA-021"
    ("caller " +:+ caller_text callerId +:+ " in a " +:+ kind_text (execution_kind (execution scope)) +:+ " execution with partition "
     +:+ partition_kind_text (partition scope) +:+ "; expected " +:+ expected).

Definition callScopeFor (callerId : ProviderCallerId) (scope : JournalScope) : Result (list (string * json)) StructuredReason :=
  match callerId with
  | probe =>
      match execution scope, partition scope with
      | id_transport_probe i, pt_probe => Ok [("caller_id", JStr "probe"); ("transport_probe_id", JStr i)]
      | _, _ => Err (buildFailure callerId scope "a TRANSPORT_PROBE execution in the probe partition")
      end
  | _ =>
      let trial t sha := [("trial_id", JStr t); ("trial_manifest_sha256", JStr sha)] in
      match execution scope, partition scope with
      | id_run i, pt_trial t sha => Ok ([("caller_id", JStr (caller_text callerId)); ("run_id", JStr i)] ++ trial t sha)
      | id_variant_validation i, pt_trial t sha =>
          Ok ([("caller_id", JStr (caller_text callerId)); ("variant_validation_id", JStr i)] ++ trial t sha)
      | _, _ => Err (buildFailure callerId scope "a RUN or VARIANT_VALIDATION execution in a trial partition")
      end
  end.

Definition buildProviderCall (input : AttemptInput) (ids : AttemptIds) (scope : JournalScope) :
  Result (list (string * json)) StructuredReason :=
  match callScopeFor (in_caller_id input) scope with
  | Err e => Err e
  | Ok callScope =>
      Ok (callScope ++
          [("schema_version", JNum (JSInt 1)); ("record_type", JStr "provider_refund_call");
           ("execution_manifest_sha256", JStr (Journal.execution_manifest_sha256 scope));
           ("attempt_id", JStr (ai_attempt_id ids)); ("provider_request_id", JStr (ai_provider_request_id ids));
           ("refund_request_id", JStr (in_refund_request_id input)); ("payment_id", JStr (in_payment_id input));
           ("amount_minor", JNum (in_amount_minor input)); ("currency", JStr (in_currency input))])
  end.

(** ** The settlement of the port *)

(** What the port resolves: any JavaScript value. [get] reads a property, [None] when its
    getter throws; [bytes] are those of a [Uint8Array]; [UOther] has no typed field the code
    reads. *)
Inductive js_value :=
| UUndefined
| UNull
| UNumber (n : jsnum)
| UString (s : string)
| UOther (typeof : string)
| UObject (bytes : option (list Z)) (get : string -> option js_value).

(** What the port throws. A text is [None] when reading or converting it throws. *)
Record Thrown := MkThrown {
  is_error : bool;
  thrown_name : option string;
  thrown_message : option string;
  thrown_text : option string;
}.

Record ProviderResponseSettlement := MkResponse {
  status_code : jsnum;
  executed_version : option string;
  function_error : option string;
  payload : list Z;
}.
Record ProviderTransportError := MkTransportError {
  error_name : string;
  te_message : string;
  http_status : option jsnum;
}.
Inductive ProviderTransportResult := response (r : ProviderResponseSettlement) | transport_error (e : ProviderTransportError).

Definition ABORT_ERROR_NAME : string := "AbortError".
Definition UNREPRESENTABLE_THROWN_NAME : string := "UnrepresentableThrown".
Definition MALFORMED_PORT_RESULT_NAME : string := "MalformedPortResult".

Definition transportErrorFromThrown (thrown : Thrown) : ProviderTransportError :=
  match (if is_error thrown
         then match thrown_name thrown, thrown_message thrown with Some n, Some m => Some (n, m) | _, _ => None end
         else option_map (fun t => ("NonErrorThrown", t)) (thrown_text thrown)) with
  | Some (n, m) => MkTransportError n m None
  | None => MkTransportError UNREPRESENTABLE_THROWN_NAME "the thrown value has no readable name or string form" None
  end.

Definition typeNameOf (value : js_value) : string :=
  match value with
  | UUndefined => "undefined" | UNull => "null" | UNumber _ => "number" | UString _ => "string" | UOther t => t | UObject _ _ => "object"
  end.

(** [isOptionalString], with the string. *)
Definition optional_string (value : js_value) : option (option string) :=
  match value with UUndefined => Some None | UString s => Some (Some s) | _ => None end.

(** [None]: a getter threw; [Some None]: [undefined]. *)
Definition responseSettlementOf (value : js_value) : option (option ProviderTransportResult) :=
  match value with
  | UObject _ get =>
      match get "kind", get "status_code", get "executed_version", get "function_error", get "payload" with
      | Some kind, Some status, Some version, Some ferror, Some body =>
          Some match kind, status, optional_string version, optional_string ferror, body with
               | UString "response", UNumber n, Some v, Some f, UObject (Some bytes) _ => Some (response (MkResponse n v f bytes))
               | _, _, _, _, _ => None
               end
      | _, _, _, _, _ => None
      end
  | _ => Some None
  end.

Definition transportErrorOf (value : js_value) : option (option ProviderTransportResult) :=
  match value with
  | UObject _ get =>
      match get "kind", get "error_name", get "message", get "http_status" with
      | Some kind, Some name, Some message, Some status =>
          Some match kind, name, message with
               | UString "transport_error", UString n, UString m =>
                   match status with
                   | UUndefined => Some (transport_error (MkTransportError n m None))
                   | UNumber s => Some (transport_error (MkTransportError n m (Some s)))
                   | _ => None
                   end
               | _, _, _ => None
               end
      | _, _, _, _ => None
      end
  | _ => Some None
  end.

Definition transportResultOf (value : js_value) : ProviderTransportResult :=
  let malformed :=
    transport_error (MkTransportError MALFORMED_PORT_RESULT_NAME
      ("the provider invocation port resolved " +:+ typeNameOf value +:+ "; expected a ProviderTransportResult (kind "
       +:+ quote_json "response" +:+ " or " +:+ quote_json "transport_error" +:+ " with typed fields)") None) in
  match responseSettlementOf value with
  | Some (Some result) => result
  | Some None => match transportErrorOf value with Some (Some result) => result | _ => malformed end
  | None => malformed
  end.

(** A port's answer: it resolved a value, or it threw or rejected. *)
Definition settled_result (answer : Result js_value Thrown) : ProviderTransportResult :=
  match answer with Ok v => transportResultOf v | Err t => transport_error (transportErrorFromThrown t) end.

(** ** The guard of a response *)

Definition RESPONSE_PROPERTIES : list string :=
  ["schema_version"; "record_type"; "outcome"; "provider_call_id"; "attempt_id"; "provider_request_id";
   "provider_transaction_id"; "rejection_reason"].
Definition OPTIONAL_UUID_PROPERTIES : list string := ["attempt_id"; "provider_request_id"; "provider_transaction_id"].
Definition PROVIDER_REJECTION_REASONS : list ProviderRejectionReason :=
  [AUTHORIZATION_FAILED; SCHEMA_INVALID; EXECUTION_IDENTITY_MISMATCH; IDENTITY_STRUCTURE_INVALID; PAYMENT_NOT_FOUND;
   AMOUNT_INVALID; CURRENCY_MISMATCH].

Definition is_uuid (v : option json) : bool := match v with Some (JStr s) => isUuid4 s | _ => false end.

Definition responseEnvelopeProblem (value : list (string * json)) : option string :=
  match find_first (fun name => negb (memb name RESPONSE_PROPERTIES)) (map fst value) with
  | Some unknown =>
      Some ("property " +:+ describeJson (Some (JStr unknown)) +:+ "; expected only " +:+ str_join ", " RESPONSE_PROPERTIES)
  | None =>
  if negb (scalar_matches (member "schema_version" value) (SNum 1))
  then Some ("schema_version " +:+ describeJson (member "schema_version" value) +:+ "; expected 1")
  else if negb (scalar_matches (member "record_type" value) (SStr "provider_refund_response"))
  then Some ("record_type " +:+ describeJson (member "record_type" value) +:+ "; expected " +:+ quote_json "provider_refund_response")
  else if negb (is_uuid (member "provider_call_id" value))
  then Some ("provider_call_id " +:+ describeJson (member "provider_call_id" value) +:+ "; expected a lowercase UUIDv4")
  else match find_first (fun name => hasOwn value name && negb (is_uuid (member name value))) OPTIONAL_UUID_PROPERTIES with
       | None => None
       | Some bad => Some (bad +:+ " " +:+ describeJson (member bad value) +:+ "; expected a lowercase UUIDv4")
       end
  end.

Definition outcomeProblem (value : list (string * json)) : option string :=
  let outcome := member "outcome" value in
  if scalar_matches outcome (SStr "SUCCEEDED") then
    match find_first (fun name => negb (hasOwn value name)) OPTIONAL_UUID_PROPERTIES with
    | Some missing =>
        Some ("SUCCEEDED response without " +:+ missing +:+ "; expected attempt_id, provider_request_id and provider_transaction_id")
    | None => if hasOwn value "rejection_reason" then Some "SUCCEEDED response with rejection_reason; expected none" else None
    end
  else if negb (scalar_matches outcome (SStr "REJECTED"))
  then Some ("outcome " +:+ describeJson outcome +:+ "; expected " +:+ quote_json "SUCCEEDED" +:+ " or " +:+ quote_json "REJECTED")
  else if hasOwn value "provider_transaction_id"
  then Some "REJECTED response with provider_transaction_id; expected none, because a rejection creates no transaction"
  else match isOneOf PROVIDER_REJECTION_REASONS rejection_text (member "rejection_reason" value) with
       | Some _ => None
       | None => Some ("rejection_reason " +:+ describeJson (member "rejection_reason" value) +:+ "; expected one of "
                       +:+ str_join ", " (map rejection_text PROVIDER_REJECTION_REASONS))
       end.

Definition readProviderRefundResponse (value : json) : Result (list (string * json)) string :=
  match value with
  | JObj m => match or_else (responseEnvelopeProblem m) (outcomeProblem m) with Some problem => Err problem | None => Ok m end
  | _ => Err ("payload " +:+ describeJson (Some value) +:+ "; expected a JSON object")
  end.

(** ** The classification of a settlement *)

Definition REQUEST_RESPONSE_STATUS : Z := 200.
Definition RESPONSE_DIAGNOSTIC_MAX_CHARS : nat := 1024.

Record ExpectedProviderResponse := MkExpectedResponse {
  qualifier : string;
  e_attempt_id : string;
  e_provider_request_id : string;
}.

Record ResponseDiagnostics := MkDiagnostics { rd_executed_version : option string; rd_function_error : option string }.
Definition no_diagnostics : ResponseDiagnostics := MkDiagnostics None None.

Inductive ParsedKind :=
| succeeded (provider_call_id provider_transaction_id : string)
| rejected_by (provider_call_id : string) (rejection_reason : ProviderRejectionReason)
| failed (failure : StructuredReason).
Record ParsedProviderResponse := MkParsedResponse { diagnostics : ResponseDiagnostics; parsed_kind : ParsedKind }.

Definition failed_with (c subject d : string) (diag : ResponseDiagnostics) : ParsedProviderResponse :=
  MkParsedResponse diag (failed (reason c subject d)).
Definition malformed (d : string) (diag : ResponseDiagnostics) : ParsedProviderResponse :=
  failed_with "MALFORMED_RESPONSE" "BR-RUA-018" d diag.

(** The cut keeps one code unit fewer when it would split a surrogate pair. *)
Definition boundedDiagnostic (value : string) : string :=
  if (js_length value <=? RESPONSE_DIAGNOSTIC_MAX_CHARS)%nat then value
  else
    let lastKept := nth (RESPONSE_DIAGNOSTIC_MAX_CHARS - 1) (units value) 0 in
    let end_ := if is_high lastKept then (RESPONSE_DIAGNOSTIC_MAX_CHARS - 1)%nat else RESPONSE_DIAGNOSTIC_MAX_CHARS in
    slice end_ value +:+ "…[truncated from " +:+ pretty (js_length value) +:+ " chars]".

Definition nonempty (v : option string) : option string := match v with Some "" => None | x => x end.

Definition diagnosticsOf (r : ProviderResponseSettlement) : ResponseDiagnostics :=
  MkDiagnostics (option_map boundedDiagnostic (nonempty (executed_version r))) (option_map boundedDiagnostic (nonempty (function_error r))).

Definition describe_optional (v : option string) : string := describeJson (option_map JStr v).

Definition classifyTransportError (e : ProviderTransportError) : ParsedProviderResponse :=
  if bool_decide (error_name e = ABORT_ERROR_NAME) then
    failed_with "ABORTED_WITHOUT_DEADLINE" "BR-RUA-023"
      ("transport aborted (" +:+ quoted (te_message e) +:+ ") without a deadline timer win; expected an abort only after the timer won") no_diagnostics
  else
    let status := match http_status e with None => "" | Some n => " (HTTP " +:+ number_text n +:+ ")" end in
    failed_with "TRANSPORT_ERROR" "BR-RUA-053"
      ("transport_error:" +:+ quoted (error_name e) +:+ status +:+ ": " +:+ quoted (te_message e) +:+ "; expected a provider response") no_diagnostics.

Definition echoMismatch (m : list (string * json)) (expected : ExpectedProviderResponse) : option string :=
  match find_first (fun '(field, id) => negb (scalar_matches (member field m) (SStr id)))
          [("attempt_id", e_attempt_id expected); ("provider_request_id", e_provider_request_id expected)] with
  | None => None
  | Some (field, id) => Some (field +:+ " " +:+ describeJson (member field m) +:+ "; expected the request's " +:+ id)
  end.

Definition describeParseFailure (failure : JsonParseFailure) : string :=
  match failure with
  | invalid_utf8 offset => "invalid UTF-8 at byte " +:+ string_of_Z offset
  | invalid_json d => "invalid JSON: " +:+ quoted d
  end.

(** The result of a response that passed the guard and echoes the call. *)
Definition response_kind (m : list (string * json)) : ParsedKind :=
  if scalar_matches (member "outcome" m) (SStr "SUCCEEDED")
  then succeeded (text_of m "provider_call_id") (text_of m "provider_transaction_id")
  else rejected_by (text_of m "provider_call_id")
         (nullish (isOneOf PROVIDER_REJECTION_REASONS rejection_text (member "rejection_reason" m)) SCHEMA_INVALID).

Section classification.
Context (JSON_parse : string -> Result json string).

Definition classifyPayload (r : ProviderResponseSettlement) (expected : ExpectedProviderResponse) (diag : ResponseDiagnostics) :
  ParsedProviderResponse :=
  if negb (bool_decide (status_code r = JSInt REQUEST_RESPONSE_STATUS)) then
    malformed ("status " +:+ number_text (status_code r) +:+ "; expected " +:+ string_of_Z REQUEST_RESPONSE_STATUS) diag
  else match parseJsonDocument JSON_parse (payload r) with
  | Err e => malformed ("payload is not a JSON document (" +:+ describeParseFailure e +:+ ")") diag
  | Ok v =>
  match readProviderRefundResponse v with
  | Err problem => malformed problem diag
  | Ok m =>
  match echoMismatch m expected with
  | Some problem => malformed problem diag
  | None => MkParsedResponse diag (response_kind m)
  end end end.

Definition parseProviderResponse (result : ProviderTransportResult) (expected : ExpectedProviderResponse) : ParsedProviderResponse :=
  match result with
  | transport_error e => classifyTransportError e
  | response r =>
      let diag := diagnosticsOf r in
      match nonempty (function_error r) with
      | Some _ =>
          failed_with "FUNCTION_ERROR" "BR-RUA-053" ("function error " +:+ describe_optional (function_error r) +:+ "; expected none") diag
      | None =>
          if negb (bool_decide (executed_version r = Some (qualifier expected))) then
            failed_with "VERSION_MISMATCH" "BR-RUA-053"
              ("executed version " +:+ describe_optional (executed_version r) +:+ "; expected the invoked version "
               +:+ describeJson (Some (JStr (qualifier expected)))) diag
          else classifyPayload r expected diag
      end
  end.
End classification.

(** ** Resolutions and reports *)

Inductive ResolvedOutcome :=
| ro_succeeded (provider_call_id provider_transaction_id : string)
| ro_rejected (provider_call_id : string) (rejection_reason : ProviderRejectionReason)
| ro_timed_out
| ro_failed (dispatch : DispatchState) (failure : StructuredReason).

Record AttemptResolution := MkResolution {
  rs_diagnostics : ResponseDiagnostics;
  rs_dispatch_to_settlement_ns : option string;
  resolved : ResolvedOutcome;
}.

Definition rs_outcome (r : AttemptResolution) : AttemptOutcome :=
  match resolved r with
  | ro_succeeded _ _ => SUCCEEDED | ro_rejected _ _ => REJECTED | ro_timed_out => TIMED_OUT | ro_failed _ _ => FAILED
  end.
Definition rs_dispatch_state (r : AttemptResolution) : DispatchState :=
  match resolved r with ro_failed d _ => d | _ => DISPATCHED end.

Definition resolutionFromResponse (p : ParsedProviderResponse) (dispatchToSettlementNs : string) : AttemptResolution :=
  MkResolution (diagnostics p) (Some dispatchToSettlementNs)
    match parsed_kind p with
    | succeeded c t => ro_succeeded c t
    | rejected_by c r => ro_rejected c r
    | failed f => ro_failed DISPATCHED f
    end.

Definition dispatch_text (d : DispatchState) : string :=
  match d with NOT_DISPATCHED => "NOT_DISPATCHED" | DISPATCHED => "DISPATCHED" | DISPATCH_UNKNOWN => "UNKNOWN" end.

Record AttemptCorrelation := MkCorrelation { ac_attempt_id : string; ac_provider_request_id : string; ac_refund_request_id : string }.

Definition correlation_members (c : AttemptCorrelation) : list (string * json) :=
  [("attempt_id", JStr (ac_attempt_id c)); ("provider_request_id", JStr (ac_provider_request_id c));
   ("refund_request_id", JStr (ac_refund_request_id c))].

Definition optional_member (name : string) (v : option string) : list (string * json) :=
  match v with Some s => [(name, JStr s)] | None => [] end.

Definition failure_json (f : StructuredReason) : json :=
  JObj [("code", JStr (code f)); ("subject", JStr (subject f)); ("detail", JStr (detail f))].

(** [outcomeRecordBody]; the order of members is not observable in a stored item. *)
Definition outcomeRecordBody (c : AttemptCorrelation) (r : AttemptResolution) : list (string * json) :=
  correlation_members c
  ++ optional_member "executed_version" (rd_executed_version (rs_diagnostics r))
  ++ optional_member "function_error" (rd_function_error (rs_diagnostics r))
  ++ match resolved r with
     | ro_succeeded call tx => [("provider_call_id", JStr call); ("provider_transaction_id", JStr tx)]
     | ro_rejected call why => [("provider_call_id", JStr call); ("rejection_reason", JStr (rejection_text why))]
     | ro_timed_out => []
     | ro_failed _ f => [("failure", failure_json f)]
     end
  ++ optional_member "dispatch_to_settlement_ns" (rs_dispatch_to_settlement_ns r)
  ++ [("outcome", JStr (outcome_text (rs_outcome r))); ("dispatch_state", JStr (dispatch_text (rs_dispatch_state r)))].

(** The report keeps the resolution without its diagnostics. *)
Record AttemptReport := MkReport {
  rp_ids : AttemptIds;
  rp_resolved : ResolvedOutcome;
  rp_outcome : AttemptOutcome;
  rp_dispatch_state : DispatchState;
  rp_outcome_class : OutcomeClass;
  rp_dispatch_to_settlement_ns : option string;
  rp_outcome_event_id : option string;
}.

Definition toAttemptReport (ids : AttemptIds) (r : AttemptResolution) (outcomeEventId : option string) : Result AttemptReport js_error :=
  match classifyOutcome (rs_outcome r) (rs_dispatch_state r) with
  | Err e => Err (PlainError ("attempt " +:+ ai_attempt_id ids +:+ " resolved inconsistently: " +:+ detail e))
  | Ok c => Ok (MkReport ids (resolved r) (rs_outcome r) (rs_dispatch_state r) c (rs_dispatch_to_settlement_ns r) outcomeEventId)
  end.
End ProviderExchange.
