(* ===== verification/ExchangeCorrect.v ===== *)
(** * The exchange between caller and provider

    A call a caller builds is one the provider accepts, every settlement of the transport is
    classified exactly, and what the provider answers is what the caller reads. *)

From S2P Require Import Prelude AttemptLifecycle Timestamps Store JsonText Parsing LeaseItem Journal ControlItems Acceptance Provider.
From S2P Require Import ProviderExchange.
From Stdlib Require Strings.Ascii.
Import Attempt Json Store Identifiers JsonText LeaseItem Journal ControlItems Acceptance ProviderExchange.
Import Provider(succeededResponse).
Import Parsing(parseJsonDocument, bytes_of, well_formed).
Open Scope Z_scope.

Module ExchangeCorrect.

(** ** Calls *)

Definition trial_of_partition (p : JournalPartition) : option CallTrial :=
  match p with pt_trial t sha => Some (MkTrial t sha) | _ => None end.

(** The identities and digests of a scope are what their types say. *)
Definition scope_ok (scope : JournalScope) : Prop :=
  isUuid4 (executionIdOf (execution scope)) = true /\ isSha256Hex (Journal.execution_manifest_sha256 scope) = true
  /\ match partition scope with pt_trial t sha => isUuid4 t = true /\ isSha256Hex sha = true | _ => True end.

Definition ids_ok (ids : AttemptIds) : Prop := isUuid4 (ai_attempt_id ids) = true /\ isUuid4 (ai_provider_request_id ids) = true.

(** The provider runs in the caller's execution and trial, for its caller and payment. *)
Definition knows (ctx : AcceptanceContext) (input : AttemptInput) (scope : JournalScope) : Prop :=
  let cfg := trial_configuration ctx in
  registered_caller_id cfg = in_caller_id input /\ deployment_execution ctx = execution scope
  /\ c_execution_manifest_sha256 cfg = Journal.execution_manifest_sha256 scope /\ c_trial cfg = trial_of_partition (partition scope)
  /\ exists p, payment ctx = Some p /\ p_payment_id p = in_payment_id input /\ p_currency p = in_currency input.

Lemma valid_input input : assertValidAttemptInput input = Ok tt ->
  NONEMPTY_TRIMMED_PATTERN (in_refund_request_id input) = true /\ NONEMPTY_TRIMMED_PATTERN (in_payment_id input) = true
  /\ (exists z, in_amount_minor input = JSInt z /\ 1 <= z <= MAX_SAFE_INTEGER)
  /\ PROVIDER_VERSION_PATTERN (in_provider_qualifier input) = true
  /\ Forall (fun i => isUuid4 i = true) (in_causation_event_ids input).
Proof.
  unfold assertValidAttemptInput, firstViolation. cbn [find_first].
  destruct (NONEMPTY_TRIMMED_PATTERN (in_refund_request_id input)); cbn [negb]; [|done].
  destruct (NONEMPTY_TRIMMED_PATTERN (in_payment_id input)); cbn [negb]; [|done].
  destruct (in_amount_minor input) as [z|z]; cbn [is_positive_safe]; [|done].
  destruct (is_safe_integer z && (z >=? 1)) eqn:Ez; cbn [negb]; [|done].
  destruct (PROVIDER_VERSION_PATTERN _); cbn [negb]; [|done].
  destruct (find_first _ (in_causation_event_ids input)) eqn:Ef; [done|]. intros _. unfold is_safe_integer in Ez.
  split_and!; [done|done| |done|].
  - exists z. split; [done|]. lia.
  - apply Forall_forall. intros i Hi. pose proof (proj1 (find_first_None _ _) Ef i Hi) as H. by apply negb_false_iff in H.
Qed.

(** The forms a built call can have. *)
Lemma built_call input ids scope call : buildProviderCall input ids scope = Ok call ->
  exists callScope, callScopeFor (in_caller_id input) scope = Ok callScope
    /\ call = callScope ++
          [("schema_version", JNum (JSInt 1)); ("record_type", JStr "provider_refund_call");
           ("execution_manifest_sha256", JStr (Journal.execution_manifest_sha256 scope));
           ("attempt_id", JStr (ai_attempt_id ids)); ("provider_request_id", JStr (ai_provider_request_id ids));
           ("refund_request_id", JStr (in_refund_request_id input)); ("payment_id", JStr (in_payment_id input));
           ("amount_minor", JNum (in_amount_minor input)); ("currency", JStr (in_currency input))]
    /\ match execution scope, partition scope with
       | id_transport_probe i, pt_probe =>
           in_caller_id input = probe /\ callScope = [("caller_id", JStr "probe"); ("transport_probe_id", JStr i)]
       | id_run i, pt_trial t sha =>
           in_caller_id input <> probe /\ callScope = [("caller_id", JStr (caller_text (in_caller_id input))); ("run_id", JStr i);
             ("trial_id", JStr t); ("trial_manifest_sha256", JStr sha)]
       | id_variant_validation i, pt_trial t sha =>
           in_caller_id input <> probe /\ callScope = [("caller_id", JStr (caller_text (in_caller_id input))); ("variant_validation_id", JStr i);
             ("trial_id", JStr t); ("trial_manifest_sha256", JStr sha)]
       | _, _ => False
       end.
Proof.
  unfold buildProviderCall. destruct (callScopeFor _ _) as [cs|e] eqn:Ecs; [|done]. intros [= <-].
  exists cs. split; [done|]. split; [done|]. unfold callScopeFor in Ecs.
  destruct (in_caller_id input), (execution scope), (partition scope); simplify_eq/=; done.
Qed.

(** The members every built call has. *)
Lemma built_members input ids scope call : buildProviderCall input ids scope = Ok call ->
  member "caller_id" call = Some (JStr (caller_text (in_caller_id input)))
  /\ member "execution_manifest_sha256" call = Some (JStr (Journal.execution_manifest_sha256 scope))
  /\ member "attempt_id" call = Some (JStr (ai_attempt_id ids))
  /\ member "provider_request_id" call = Some (JStr (ai_provider_request_id ids))
  /\ member "refund_request_id" call = Some (JStr (in_refund_request_id input))
  /\ member "payment_id" call = Some (JStr (in_payment_id input))
  /\ member "amount_minor" call = Some (JNum (in_amount_minor input))
  /\ member "currency" call = Some (JStr (in_currency input)).
Proof.
  intros (cs & _ & -> & H)%built_call. destruct (execution scope), (partition scope); try done; destruct H as [H ->]; try (rewrite H); by split_and!.
Qed.

Lemma built_call_shape input ids scope call :
  assertValidAttemptInput input = Ok tt -> in_currency input = "BRL" -> scope_ok scope -> ids_ok ids ->
  buildProviderCall input ids scope = Ok call ->
  well_structured call /\ well_valued call /\ only_identity call (execution scope)
  /\ call_trial call (execution scope) (trial_of_partition (partition scope))
  /\ member "caller_id" call = Some (JStr (caller_text (in_caller_id input))).
Proof.
  intros (Hr & Hp & (z & Hz & Hzr) & _ & _)%valid_input Hcur (He & Hm & Ht) [Ha Hq] Hb.
  apply built_call in Hb as (cs & _ & -> & Hcs). rewrite Hz, Hcur.
  destruct (execution scope) as [i|i|i], (partition scope) as [t sha| | | | |]; try done; destruct Hcs as [Hc ->]; cbn in He; cbn [trial_of_partition].
  2: { rewrite Hc. split_and!; [|by split_and!; eexists|done|done|done].
       split_and!; try done; [apply (bool_decide_unpack _); by vm_compute|by eexists| |by repeat constructor|by eexists|by eexists].
       left. split_and!; try done. by eexists. }
  all: destruct Ht as [Ht Hs]; split_and!; [|by split_and!; eexists|done| |done].
  all: try (split_and!; try done; [apply (bool_decide_unpack _); by vm_compute|by eexists|right|by repeat constructor|by eexists|by eexists]).
  all: try (unfold call_trial; rewrite bool_decide_eq_false_2 by done; split; [by destruct (in_caller_id input)|by eexists]).
  all: split; [done|]; destruct (in_caller_id input); try done; (split_and!; [|by (left + right)|by eexists|by eexists]).
  1,2: left; split; [by eexists|done].
  all: right; split; [done|by eexists].
Qed.

(** C25: Every call the caller builds is a call the provider takes. For an input that passes the
    client's own check, the call built in a well-formed scope is valid against the JSON Schema
    of provider_refund_call; and a provider of the same execution, trial, caller and payment
    accepts it, with the caller's own identities, payment and amount. *)
Theorem built_call_accepted input ids scope call :
  assertValidAttemptInput input = Ok tt -> in_currency input = "BRL" -> scope_ok scope -> ids_ok ids ->
  buildProviderCall input ids scope = Ok call ->
  valid provider_refund_call_schema (JObj call) = true
  /\ forall ctx, knows ctx input scope ->
     evaluateAcceptance (JObj call) ctx
     = accepted (MkCall (in_caller_id input) (ai_attempt_id ids) (ai_provider_request_id ids) (in_refund_request_id input)
                   (in_payment_id input) (in_amount_minor input) (in_currency input)).
Proof.
  intros Hin Hcur Hs Hids Hb. destruct (built_call_shape _ _ _ _ Hin Hcur Hs Hids Hb) as (Hw & Hv & He & Ht & Hc).
  split; [by apply schema_iff|]. intros ctx (K1 & K2 & K3 & K4 & p & K5 & K6 & K7).
  assert (Hall : forall r, check ctx (JObj call) r).
  { apply built_members in Hb as (M1 & M2 & M3 & M4 & M5 & M6 & M7 & M8). apply valid_input in Hin as (_ & _ & (z & Hz & Hzr) & _).
    destruct Hv as (V1 & V2 & V3 & V4 & _). intros []; cbn.
    - by rewrite K1.
    - by exists call.
    - exists call. rewrite K2, K3, K4. by split_and!.
    - by exists call.
    - exists p. by rewrite K6.
    - exists z. rewrite M7, Hz. done.
    - exists p. by rewrite K7. }
  unfold evaluateAcceptance. cbn [call_member]. rewrite Hc, K1. cbn [as_string]. rewrite bool_decide_eq_true_2 by done. cbn [negb].
  assert (Hg : guardRefundCallShape (JObj call) = Ok (shapeOf call (execution scope) (trial_of_partition (partition scope)))).
  { apply guard_iff. apply well_structured_iff in Hw as (shape & Hg). pose proof Hg as Hg'.
    apply guard_iff in Hg as (m & e & t & [= <-] & E1 & E2 & _ & _ & _). by eexists call, _, _. }
  rewrite Hg. pose proof (judgeShape_judged call (execution scope) (trial_of_partition (partition scope)) ctx) as Hj.
  specialize (Hj (Hall AUTHORIZATION_FAILED) Hw He Ht). destruct (judgeShape _ _) as [c|rej]; cbn in Hj; [|destruct (proj1 Hj); apply Hall].
  destruct Hj as [_ (J1 & J2 & J3 & J4 & J5 & J6 & J7)]. cbn [call_member] in *.
  apply built_members in Hb as (M1 & M2 & M3 & M4 & M5 & M6 & M7 & M8). f_equal. destruct c as [c1 c2 c3 c4 c5 c6 c7]. cbn in *.
  assert (c1 = in_caller_id input) as -> by (rewrite Hc in J1; destruct c1, (in_caller_id input); done). congruence.
Qed.

(** ** Responses *)

(** A provider_refund_response with this result, as its schema has it. *)
Definition is_response (m : list (string * json)) (k : ParsedKind) : Prop :=
  Forall (fun name => name ∈ RESPONSE_PROPERTIES) (map fst m)
  /\ member "schema_version" m = Some (JNum (JSInt 1)) /\ member "record_type" m = Some (JStr "provider_refund_response")
  /\ match k with
     | succeeded call tx =>
         member "outcome" m = Some (JStr "SUCCEEDED") /\ names m "provider_call_id" call /\ spells m "attempt_id" isUuid4
         /\ spells m "provider_request_id" isUuid4 /\ names m "provider_transaction_id" tx /\ no_member m "rejection_reason"
     | rejected_by call why =>
         member "outcome" m = Some (JStr "REJECTED") /\ names m "provider_call_id" call
         /\ (no_member m "attempt_id" \/ spells m "attempt_id" isUuid4)
         /\ (no_member m "provider_request_id" \/ spells m "provider_request_id" isUuid4)
         /\ no_member m "provider_transaction_id" /\ member "rejection_reason" m = Some (JStr (rejection_text why))
     | failed _ => False
     end.

Lemma is_uuid_iff v : is_uuid v = true <-> exists s, v = Some (JStr s) /\ isUuid4 s = true.
Proof. destruct v as [[]|]; cbn; try (split; [done|by intros (? & ? & ?)]). split; [eauto|by intros (? & [= ->] & ?)]. Qed.

Lemma names_spells m f : (exists i, names m f i) <-> spells m f isUuid4.
Proof. done. Qed.

Lemma reason_one_of v why : isOneOf PROVIDER_REJECTION_REASONS rejection_text v = Some why <-> v = Some (JStr (rejection_text why)).
Proof.
  unfold isOneOf. destruct v as [[| | |s| |]|]; try done. split.
  - intros H. apply find_first_Some in H as [_ H]. apply bool_decide_eq_true in H. congruence.
  - intros [= ->]. by destruct why; vm_compute.
Qed.

(** A member that is absent or a UUID. *)
Lemma optional_uuid m f : hasOwn m f && negb (is_uuid (member f m)) = false <-> no_member m f \/ spells m f isUuid4.
Proof.
  rewrite <-hasOwn_false. unfold spells. setoid_rewrite <-is_uuid_iff. destruct (hasOwn m f) eqn:E, (is_uuid (member f m)) eqn:E2; cbn; naive_solver.
Qed.

Lemma responseEnvelopeProblem_None m : responseEnvelopeProblem m = None <->
  Forall (fun name => name ∈ RESPONSE_PROPERTIES) (map fst m)
  /\ member "schema_version" m = Some (JNum (JSInt 1)) /\ member "record_type" m = Some (JStr "provider_refund_response")
  /\ spells m "provider_call_id" isUuid4 /\ Forall (fun f => no_member m f \/ spells m f isUuid4) OPTIONAL_UUID_PROPERTIES.
Proof.
  unfold responseEnvelopeProblem. rewrite <-scalar_num_iff, <-scalar_str_iff.
  assert (Hc : spells m "provider_call_id" isUuid4 <-> is_uuid (member "provider_call_id" m) = true) by (symmetry; apply is_uuid_iff).
  destruct (find_first _ (map fst m)) as [k|] eqn:Ek.
  { apply find_first_Some in Ek as [Hk Hn%negb_true_iff%memb_false]. split; [done|]. intros (H & _). rewrite Forall_forall in H. by destruct Hn; apply H. }
  assert (Hall : Forall (fun name => name ∈ RESPONSE_PROPERTIES) (map fst m)).
  { apply Forall_forall. intros k Hk. pose proof (proj1 (find_first_None _ _) Ek k Hk) as Hb. by apply negb_false_iff, memb_true in Hb. }
  rewrite Hc. destruct (scalar_matches (member "schema_version" m) _); cbn [negb]; [|naive_solver].
  destruct (scalar_matches (member "record_type" m) _); cbn [negb]; [|naive_solver].
  destruct (is_uuid (member "provider_call_id" m)); cbn [negb]; [|naive_solver].
  destruct (find_first _ OPTIONAL_UUID_PROPERTIES) as [bad|] eqn:Ef.
  - apply find_first_Some in Ef as [Hb Hn]. split; [done|]. intros (_ & _ & _ & _ & H). rewrite Forall_forall in H.
    apply H, optional_uuid in Hb. congruence.
  - split; [|done]. intros _. split_and!; try done. apply Forall_forall. intros f Hf. apply optional_uuid.
    by apply (proj1 (find_first_None _ _) Ef).
Qed.

(** The guard and the reading of its fields together read exactly the responses. *)
Lemma response_read m k :
  is_response m k <-> readProviderRefundResponse (JObj m) = Ok m /\ response_kind m = k /\ forall f, k <> failed f.
Proof.
  assert (Hread : readProviderRefundResponse (JObj m) = Ok m <-> responseEnvelopeProblem m = None /\ outcomeProblem m = None).
  { cbn. unfold or_else. destruct (responseEnvelopeProblem m), (outcomeProblem m); naive_solver. }
  rewrite Hread, responseEnvelopeProblem_None. unfold OPTIONAL_UUID_PROPERTIES. rewrite !Forall_cons.
  unfold is_response, outcomeProblem, response_kind. cbn [find_first OPTIONAL_UUID_PROPERTIES].
  assert (Hown : forall f, hasOwn m f = true <-> ~ no_member m f).
  { intros f. rewrite <-hasOwn_false. by destruct (hasOwn m f). }
  split.
  - intros (HF & Hv & Ht & H). destruct k as [c t|c why|f]; [| |done].
    + destruct H as (Ho & Hc & Ha & Hp & Htx & Hr). rewrite Ho. cbn.
      assert (Hn : forall f, spells m f isUuid4 -> hasOwn m f = true) by (intros f (x & Hx & _); unfold hasOwn; by rewrite Hx).
      rewrite (Hn _ Ha), (Hn _ Hp), (Hn _ (ex_intro _ _ Htx)), (proj2 (hasOwn_false _ _) Hr). destruct Hc as [Hc Hcu], Htx as [Htx Htu].
      unfold text_of. rewrite Hc, Htx. split_and!; try done; first [by eexists|by right|right; by eexists|by constructor].
    + destruct H as (Ho & Hc & Ha & Hp & Htx & Hr). rewrite Ho. cbn. rewrite (proj2 (hasOwn_false _ _) Htx), (proj2 (reason_one_of _ _) Hr).
      destruct Hc as [Hc Hcu]. unfold text_of. rewrite Hc. split_and!; try done; first [by eexists|by left|by constructor].
  - intros (((HF & Hv & Ht & (c & Hc & Hcu) & Ha & Hp & Htx & _) & Ho) & <- & Hk). split_and!; [done..|].
    destruct (scalar_matches (member "outcome" m) (SStr "SUCCEEDED")) eqn:Es.
    + apply scalar_str_iff in Es. destruct (hasOwn m "attempt_id") eqn:E1; [|done]. destruct (hasOwn m "provider_request_id") eqn:E2; [|done].
      destruct (hasOwn m "provider_transaction_id") eqn:E3; [|done]. destruct (hasOwn m "rejection_reason") eqn:E4; [done|].
      apply Hown in E1, E2, E3. apply hasOwn_false in E4. destruct Ha as [|Ha]; [done|]. destruct Hp as [|Hp]; [done|]. destruct Htx as [|(t & Htx & Htu)]; [done|].
      unfold text_of. rewrite Hc, Htx. by split_and!.
    + destruct (scalar_matches (member "outcome" m) (SStr "REJECTED")) eqn:Er; cbn [negb] in Ho; [|done]. apply scalar_str_iff in Er.
      destruct (hasOwn m "provider_transaction_id") eqn:E3; [done|]. apply hasOwn_false in E3.
      destruct (isOneOf _ _ _) as [why|] eqn:Ew; [|done]. apply reason_one_of in Ew. unfold text_of. rewrite Hc. by split_and!.
Qed.

(** The settlement carries this result for the expected call. *)
Definition carries JSON_parse (result : ProviderTransportResult) (expected : ExpectedProviderResponse) (k : ParsedKind) : Prop :=
  exists r m, result = response r /\ (function_error r = None \/ function_error r = Some "")
    /\ executed_version r = Some (qualifier expected) /\ status_code r = JSInt 200
    /\ parseJsonDocument JSON_parse (payload r) = Ok (JObj m) /\ is_response m k
    /\ member "attempt_id" m = Some (JStr (e_attempt_id expected))
    /\ member "provider_request_id" m = Some (JStr (e_provider_request_id expected)).

Lemma nonempty_None v : nonempty v = None <-> v = None \/ v = Some "".
Proof. destruct v as [[|c s]|]; cbn; naive_solver. Qed.

(** A settlement is a success or a rejection exactly when it is one. Whatever the transport
    port resolved or threw, the classification ends in succeeded or rejected iff the port
    gave a response of status 200, without a function error, from the invoked version, whose
    payload is a UTF-8 JSON document that is valid as a provider_refund_response with that
    result and echoes both identities of the call; every other settlement is a failure. *)
Theorem settlement_classified_iff JSON_parse answer expected k :
  (forall f, k <> failed f) ->
  parsed_kind (parseProviderResponse JSON_parse (settled_result answer) expected) = k
  <-> carries JSON_parse (settled_result answer) expected k.
Proof.
  intros Hk. generalize (settled_result answer). intros result. unfold carries. destruct result as [r|e].
  2: { split; [|by intros (? & ? & ? & _)]. cbn. unfold classifyTransportError. case_bool_decide; cbn; intros <-; by eelim Hk. }
  cbn [parseProviderResponse]. setoid_rewrite <-nonempty_None. destruct (nonempty (function_error r)) as [fe|] eqn:Ef.
  { split; [cbn; intros <-; by eelim Hk|]. intros (r' & m & [= <-] & H & _). congruence. }
  case_bool_decide as Ev; cbn [negb].
  2: { split; [cbn; intros <-; by eelim Hk|]. by intros (r' & m & [= <-] & _ & H & _). }
  unfold classifyPayload. case_bool_decide as Es; cbn [negb].
  2: { split; [cbn; intros <-; by eelim Hk|]. by intros (r' & m & [= <-] & _ & _ & H & _). }
  destruct (parseJsonDocument JSON_parse (payload r)) as [v|x] eqn:Ep.
  2: { split; [cbn; intros <-; by eelim Hk|]. intros (r' & m & [= <-] & _ & _ & _ & H & _). congruence. }
  destruct (readProviderRefundResponse v) as [m|x] eqn:Er.
  2: { split; [cbn; intros <-; by eelim Hk|]. intros (r' & m & [= <-] & _ & _ & _ & H & [Hm _]%response_read & _).
       assert (v = JObj m) as -> by congruence. congruence. }
  assert (v = JObj m) as ->.
  { destruct v; try done. unfold readProviderRefundResponse in Er. destruct (or_else _ _); [done|]. congruence. }
  unfold echoMismatch. cbn [find_first].
  destruct (scalar_matches (member "attempt_id" m) _) eqn:E1; cbn [negb].
  2: { split; [cbn; intros <-; by eelim Hk|]. intros (r' & m' & [= <-] & _ & _ & _ & Hp & _ & H & _).
       assert (m' = m) as -> by congruence. apply scalar_str_iff in H. congruence. }
  destruct (scalar_matches (member "provider_request_id" m) _) eqn:E2; cbn [negb].
  2: { split; [cbn; intros <-; by eelim Hk|]. intros (r' & m' & [= <-] & _ & _ & _ & Hp & _ & _ & H).
       assert (m' = m) as -> by congruence. apply scalar_str_iff in H. congruence. }
  apply scalar_str_iff in E1, E2. cbn [parsed_kind]. split.
  - intros <-. exists r, m. split_and!; try done. by apply response_read.
  - intros (r' & m' & [= <-] & _ & _ & _ & Hp & [_ [H _]]%response_read & _). assert (m' = m) as -> by congruence. done.
Qed.
(** ** Answers *)

(** What the provider answers this call with, and what it says. *)
Inductive answers (ids : AttemptIds) (call : list (string * json)) (callId : string) : list (string * json) -> ParsedKind -> Prop :=
| answer_succeeded c tx :
    a_attempt_id c = ai_attempt_id ids -> a_provider_request_id c = ai_provider_request_id ids -> isUuid4 tx = true ->
    answers ids call callId (succeededResponse callId c tx) (succeeded callId tx)
| answer_rejected why : answers ids call callId (rejectedResponse callId (JObj call) why) (rejected_by callId why).

Lemma answer_is_response input ids scope call callId m k :
  buildProviderCall input ids scope = Ok call -> ids_ok ids -> isUuid4 callId = true -> answers ids call callId m k ->
  is_response m k /\ Parsing.all_finite (JObj m) = true
  /\ member "attempt_id" m = Some (JStr (ai_attempt_id ids)) /\ member "provider_request_id" m = Some (JStr (ai_provider_request_id ids)).
Proof.
  intros (_ & _ & Ha & Hp & _)%built_members [Ia Ip] Hc [c tx Ea Ep Ht|why].
  - unfold succeededResponse. rewrite Ea, Ep. split_and!; [|done..].
    split_and!; try done; [apply (bool_decide_unpack _); by vm_compute|by eexists|by eexists].
  - unfold rejectedResponse, echoedIdentities. cbn [call_member]. rewrite Ha, Hp. cbn [uuid4_of]. rewrite Ia, Ip.
    split_and!; [|done..]. split_and!; try done; [apply (bool_decide_unpack _); by vm_compute|right; by eexists|right; by eexists].
Qed.

(** What the provider answers is what the caller reads. For a call the caller built, take any
    answer the provider gives it, a success or a rejection for any reason; delivered as the
    payload of a response of the invoked version, and parsed back by the runtime from the
    text it was written as, it is classified as exactly that success or rejection, with the
    provider's call id, transaction and reason. *)
Theorem answer_read_back JSON_parse input ids scope call callId m k version body :
  buildProviderCall input ids scope = Ok call -> ids_ok ids -> isUuid4 callId = true -> answers ids call callId m k ->
  JSON_parse body = Ok (JObj m) -> well_formed (bytes_of body) ->
  parsed_kind (parseProviderResponse JSON_parse (response (MkResponse (JSInt 200) (Some version) None (bytes_of body)))
                 (MkExpectedResponse version (ai_attempt_id ids) (ai_provider_request_id ids))) = k.
Proof.
  intros Hb Hids Hc Hans Hj Hw. destruct (answer_is_response _ _ _ _ _ _ _ Hb Hids Hc Hans) as (Hr & Hf & Ha & Hp).
  cbn [parseProviderResponse function_error nonempty executed_version qualifier]. rewrite bool_decide_eq_true_2 by done. cbn [negb].
  unfold classifyPayload. cbn [status_code payload]. rewrite bool_decide_eq_true_2 by done. cbn [negb].
  rewrite (proj2 (Parsing.parseJsonDocument_ok JSON_parse body (JObj m)) (conj Hw (conj Hj Hf))).
  apply response_read in Hr as (-> & Hk & _). unfold echoMismatch. cbn [find_first e_attempt_id e_provider_request_id].
  rewrite Ha, Hp. cbn [scalar_matches]. rewrite !bool_decide_eq_true_2 by done. cbn [negb parsed_kind]. exact Hk.
Qed.

(** *** Witnesses *)

Definition demo_input : AttemptInput := MkInput conventional "ref-poc-001" "pay-poc-001" (JSInt 10000) "BRL" "7" [].
Definition demo_uuid : string := "3f1c2a9e-8b4d-4c1e-9f00-1a2b3c4d5e6f".
Definition demo_sha : string := "0000000000000000000000000000000000000000000000000000000000000000".
Definition demo_ids : AttemptIds := MkIds demo_uuid demo_uuid.
Definition demo_scope : JournalScope := MkScope (id_run demo_uuid) demo_sha (pt_trial demo_uuid demo_sha).
Definition demo_call : list (string * json) :=
  match buildProviderCall demo_input demo_ids demo_scope with Ok c => c | Err _ => [] end.
Definition demo_context : AcceptanceContext :=
  MkContext (id_run demo_uuid) (MkConfig demo_sha conventional CONTROL "pay-poc-001" (Some (MkTrial demo_uuid demo_sha)))
    (Some (MkPayment "pay-poc-001" "BRL")).

Lemma built_call_accepted_witness :
  evaluateAcceptance (JObj demo_call) demo_context
  = accepted (MkCall conventional demo_uuid demo_uuid "ref-poc-001" "pay-poc-001" (JSInt 10000) "BRL").
Proof.
  refine (proj2 (built_call_accepted demo_input demo_ids demo_scope demo_call _ _ _ _ _) demo_context _); try by vm_compute.
  split_and!; try done. by eexists.
Defined.

(** A runtime that parses one text. *)
Definition parses (body : string) (v : json) (t : string) : Result json string := if bool_decide (t = body) then Ok v else Err "Unexpected token".

Definition demo_answer : list (string * json) := rejectedResponse demo_uuid (JObj demo_call) PAYMENT_NOT_FOUND.

Lemma settlement_classified_iff_witness :
  parsed_kind (parseProviderResponse (parses "{}" JNull) (settled_result (Err (MkThrown true (Some "TimeoutError") (Some "hang up") None)))
                 (MkExpectedResponse "7" demo_uuid demo_uuid)) <> rejected_by demo_uuid PAYMENT_NOT_FOUND.
Proof.
  intros H. apply (settlement_classified_iff (parses "{}" JNull) (Err (MkThrown true (Some "TimeoutError") (Some "hang up") None))
    (MkExpectedResponse "7" demo_uuid demo_uuid) (rejected_by demo_uuid PAYMENT_NOT_FOUND)) in H; [|by intros f].
  destruct H as (r & m & H & _). vm_compute in H. discriminate H.
Defined.

Lemma answer_read_back_witness :
  parsed_kind (parseProviderResponse (parses "{...}" (JObj demo_answer)) (response (MkResponse (JSInt 200) (Some "7") None (bytes_of "{...}")))
                 (MkExpectedResponse "7" demo_uuid demo_uuid)) = rejected_by demo_uuid PAYMENT_NOT_FOUND.
Proof.
  apply (answer_read_back (parses "{...}" (JObj demo_answer)) demo_input demo_ids demo_scope demo_call demo_uuid demo_answer
    (rejected_by demo_uuid PAYMENT_NOT_FOUND) "7" "{...}");
    [by vm_compute|split; by vm_compute|by vm_compute|constructor|by vm_compute|].
  apply (proj1 (Parsing.utf8_decides "{...}")). by vm_compute.
Defined.
End ExchangeCorrect.
