(* ===== verification/ProviderClient.v ===== *)
(** * The shared provider client (src/study-1/src/provider-client/)

    The deadline timer (deadline-timer.ts), the race of one invocation against it under one
    arbiter (settlement-arbiter.ts, transport-race.ts, transport-options.ts), the durable
    attempt state (attempt-state-port.ts, durable-attempt-state-port.ts), a durable
    transition with its journal event (durable-transition.ts) and the whole of one attempt
    (provider-client.ts).

    Callbacks are the effect [NextCallback]: the event loop runs one callback at a time, and
    the client waits for the next one, or for ever when the world has none to run, as when no
    timer is armed and the transport never settles. A wait takes a number of callbacks; [None]
    means that it has not ended within them, or never will. A throw inside a callback leaves its promise unsettled and
    ends the process as an unhandled error; it is a throw of the client. *)

From S2P Require Import Prelude AttemptLifecycle Timestamps Effects Store JsonText LeaseItem Journal Money ControlItems Acceptance.
From S2P Require Import Provider ProviderExchange.
Import Attempt Json Store Utc JsonText Journal ControlItems ProviderExchange.
Import Provider(eventId).
Open Scope Z_scope.

Module ProviderClient.

(** ** Effects and state *)

Inductive Callback :=
| TimerFired
| TransportSettled (answer : Result js_value Thrown).

Inductive CallerEff : Type -> Type :=
| TransactWrite (actions : list WriteAction) (token : string) : CallerEff (Result WriteOutcome Thrown)
| NextUuid : CallerEff string
| WallNow : CallerEff (option Z)
| NowNs : CallerEff Z
| Schedule (ms : Z) : CallerEff unit
| CancelTimer : CallerEff unit
| Invoke (call : list (string * json)) : CallerEff (option Thrown)
| Abort : CallerEff unit
| NextCallback : CallerEff (option Callback).

Definition ClientEff (R : Type) : Type := (JournalEff R + CallerEff R)%type.

Inductive TransitionFailure := tf_rejected | tf_condition_failed | tf_ambiguous.

(** What an attempt may throw: [AttemptNotRegisteredError], or an error of the code it calls. *)
Inductive thrown := not_registered (attempt_id : string) (registration : TransitionFailure) | other (e : js_error).

Record ClientState := MkClient { deps : JournalWriterDeps; journal : JournalWriter }.

Abbreviation CM := (SE ClientEff ClientState thrown).

Definition own {R} (e : CallerEff R) : CM R := se_perform (inr e : ClientEff R).
Definition pure_step {A} (r : Result A js_error) : CM A :=
  match r with Ok a => se_ret a | Err e => se_throw (other e) end.

Fixpoint lift {A} (p : proc JournalEff A) : proc ClientEff A :=
  match p with
  | Ret a => Ret a
  | Vis e k => Vis (inl e : ClientEff _) (fun r => lift (k r))
  end.

Definition set_journal (j : JournalWriter) (s : ClientState) : ClientState := MkClient (deps s) j.

Definition on_journal {A} (m : JournalWriterDeps -> JM A) : CM A :=
  fun s => pbind (lift (m (deps s) (journal s))) (fun '(j, r) =>
    Ret (set_journal j s, match r with Ok a => Ok a | Err e => Err (other e) end)).

Definition journal_append (type : string) (body : list (string * json)) (causation : list string) : CM AppendResult :=
  on_journal (fun d s => append_run d type body causation (append_called s)).
Definition journal_prepare (type : string) (body : list (string * json)) (causation : list string) :
  CM (PreparedJournalPut + JournalStopped) :=
  on_journal (fun d => prepare d type body causation).
Definition journal_prepare_retry (p : PreparedJournalPut) : CM (PreparedJournalPut + JournalStopped) :=
  on_journal (fun _ => prepareRetry p).
Definition journal_confirm (p : PreparedJournalPut) (outcome : WriteOutcome) (index : Z) : CM ConfirmResult :=
  on_journal (fun _ => confirm p outcome index).

(** ** The deadline timer *)

Definition NS_PER_MS : Z := 1000000.

Definition delayMsFor (remainingNs : Z) : Z :=
  if remainingNs <=? 0 then 0 else (remainingNs + NS_PER_MS - 1) / NS_PER_MS.

(** [DeadlineTimer.start]: the first arming. *)
Definition timer_start (originNs deadlineNs : Z) : CM unit :=
  if deadlineNs <? 0
  then se_throw (other (RangeError ("deadline " +:+ string_of_Z deadlineNs +:+ " ns; expected a nonnegative number of nanoseconds")))
  else (now <- own NowNs ;; own (Schedule (delayMsFor (deadlineNs - (now - originNs)))))%se.

(** [check], run by each firing: the elapsed time when the deadline is reached. *)
Definition timer_check (originNs deadlineNs : Z) : CM (option Z) :=
  (now <- own NowNs ;;
   let elapsedNs := now - originNs in
   if elapsedNs <? deadlineNs
   then own (Schedule (delayMsFor (deadlineNs - elapsedNs))) ;;; se_ret None
   else se_ret (Some elapsedNs))%se.

(** ** The arbiter *)

Inductive ArbiterWinner := TIMER | TRANSPORT.
#[export] Instance ArbiterWinner_eq_dec : EqDecision ArbiterWinner.
Proof. solve_decision. Defined.

(** [claim]: whether the claim won, and the winner after it. *)
Definition claim (winner : option ArbiterWinner) (claimant : ArbiterWinner) : bool * option ArbiterWinner :=
  match winner with Some w => (false, Some w) | None => (true, Some claimant) end.

(** ** The race *)

Definition deadline_ns : Z := 3000000000.
Definition late_settlement_grace_ns : Z := 2000000000.

Record TimerWin := MkTimerWin {
  elapsed_ns : string;
  timer_fired_at : string;
  abort_requested_at : string;
}.

Inductive RaceDecision :=
| won_transport (result : ProviderTransportResult) (settled_after_ns : string)
| won_timer (w : TimerWin).

Inductive TransportSettlementKind := aborted | resolved_late | rejected_late.
Definition settlement_kind_text (k : TransportSettlementKind) : string :=
  match k with aborted => "aborted" | resolved_late => "resolved" | rejected_late => "rejected" end.

Definition lateSettlementKind (result : ProviderTransportResult) : TransportSettlementKind :=
  match result with
  | response _ => resolved_late
  | transport_error e => if bool_decide (error_name e = ABORT_ERROR_NAME) then aborted else rejected_late
  end.

Record LateSettlement := MkLate { settlement_kind : TransportSettlementKind; observed_after_elapsed_ns : string }.

(** The race between its callbacks: the arbiter, and the decision it has resolved to. *)
Record Race := MkRace { origin : Z; arbiter : option ArbiterWinner; decision : option RaceDecision }.

(** A claim decides the race when it is the first. *)
Definition decide_race (race : Race) (claimant : ArbiterWinner) (decide_ : CM RaceDecision) : CM Race :=
  let '(won, arbiter') := claim (arbiter race) claimant in
  if won : bool
  then (d <- decide_ ;; se_ret (MkRace (origin race) arbiter' (Some d)))%se
  else se_ret (MkRace (origin race) arbiter' (decision race)).

Definition on_deadline (race : Race) (elapsed : Z) : CM Race :=
  decide_race race TIMER
    (fired <- own WallNow ;;
     timerFiredAt <- pure_step (formatUtcMillis fired) ;;
     own Abort ;;;
     requested <- own WallNow ;;
     abortRequestedAt <- pure_step (formatUtcMillis requested) ;;
     se_ret (won_timer (MkTimerWin (string_of_Z elapsed) timerFiredAt abortRequestedAt)))%se.

Definition on_timer (deadlineNs : Z) (race : Race) : CM Race :=
  (fired <- timer_check (origin race) deadlineNs ;;
   match fired with None => se_ret race | Some elapsed => on_deadline race elapsed end)%se.

Definition on_settled (race : Race) (result : ProviderTransportResult) : CM Race :=
  (at_ns <- own NowNs ;;
   decide_race race TRANSPORT
     (own CancelTimer ;;;
      after <- pure_step (Money.elapsedNs (origin race) at_ns) ;;
      se_ret (won_transport result after)))%se.

(** The callbacks of the race, until it is decided. *)
Fixpoint race_loop (callbacks : nat) (deadlineNs : Z) (race : Race) : CM (option RaceDecision) :=
  match decision race, callbacks with
  | Some d, _ => se_ret (Some d)
  | None, O => se_ret None
  | None, S n =>
      (next <- own NextCallback ;;
       match next with
       | None => se_ret None
       | Some callback =>
           race' <- match callback with
                    | TimerFired => on_timer deadlineNs race
                    | TransportSettled answer => on_settled race (settled_result answer)
                    end ;;
           race_loop n deadlineNs race'
       end)%se
  end.

(** The origin is returned with the decision: the late settlement is measured from it. A port
    that throws synchronously settles before any timer can fire. *)
Definition raceTransportAgainstDeadline (callbacks : nat) (call : list (string * json)) (deadlineNs : Z) :
  CM (option (Z * RaceDecision)) :=
  (originNs <- own NowNs ;;
   timer_start originNs deadlineNs ;;;
   threw <- own (Invoke call) ;;
   let race := MkRace originNs None None in
   decided <- match threw with
              | Some t => race' <- on_settled race (transport_error (transportErrorFromThrown t)) ;; se_ret (decision race')
              | None => race_loop callbacks deadlineNs race
              end ;;
   se_ret (option_map (fun d => (originNs, d)) decided))%se.

(** The grace after a durable timeout. The outer option is the wait, the inner one the answer. *)
Fixpoint late_loop (callbacks : nat) (graceOriginNs graceNs originNs : Z) : CM (option (option LateSettlement)) :=
  match callbacks with
  | O => se_ret None
  | S n =>
      (next <- own NextCallback ;;
       match next with
       | None => se_ret None
       | Some TimerFired =>
           fired <- timer_check graceOriginNs graceNs ;;
           match fired with None => late_loop n graceOriginNs graceNs originNs | Some _ => se_ret (Some None) end
       | Some (TransportSettled answer) =>
           at_ns <- own NowNs ;;
           observed <- pure_step (Money.elapsedNs originNs at_ns) ;;
           own CancelTimer ;;;
           se_ret (Some (Some (MkLate (lateSettlementKind (settled_result answer)) observed)))
       end)%se
  end.

Definition lateSettlementWithin (callbacks : nat) (originNs graceNs : Z) : CM (option (option LateSettlement)) :=
  (graceOrigin <- own NowNs ;;
   timer_start graceOrigin graceNs ;;;
   late_loop callbacks graceOrigin graceNs originNs)%se.

(** ** The durable attempt state *)

Inductive AttemptPhase := PRE_DISPATCH | PHASE_NOT_DISPATCHED | PHASE_DISPATCHED.
#[export] Instance AttemptPhase_eq_dec : EqDecision AttemptPhase.
Proof. solve_decision. Defined.
Definition phase_text (p : AttemptPhase) : string :=
  match p with PRE_DISPATCH => "PRE_DISPATCH" | PHASE_NOT_DISPATCHED => "NOT_DISPATCHED" | PHASE_DISPATCHED => "DISPATCHED" end.

Definition ATTEMPT_JOURNAL_ACTION_INDEX : Z := 0.
Definition ATTEMPT_STATE_SK_PREFIX : string := "state#attempt#".
Definition attemptStateSortKey (attemptId : string) : string := ATTEMPT_STATE_SK_PREFIX +:+ attemptId.
Definition ATTEMPT_STATE_TABLE : TableRole := caller_journal.

Definition registrationPut (registration : AttemptCorrelation) (event : PreparedJournalPut) : WriteAction :=
  put ATTEMPT_STATE_TABLE
    ([("pk", JStr (pk (key (put_entry event)))); ("sk", JStr (attemptStateSortKey (ac_attempt_id registration)))]
     ++ correlation_members registration ++ [("phase", JStr (phase_text PRE_DISPATCH))])
    (Some item_absent).

Definition registerPreDispatch (registration : AttemptCorrelation) (event : PreparedJournalPut) : list WriteAction :=
  [journalPutAction ATTEMPT_STATE_TABLE (put_entry event); registrationPut registration event].

Definition transition (attemptId : string) (event : PreparedJournalPut) (to : AttemptPhase) : list WriteAction :=
  [journalPutAction ATTEMPT_STATE_TABLE (put_entry event);
   update ATTEMPT_STATE_TABLE (MkKey (pk (key (put_entry event))) (attemptStateSortKey attemptId))
     [("phase", JStr (phase_text to))] [] (attribute_equals "phase" (SStr (phase_text PRE_DISPATCH)))].

(** What a transition writes with its event. *)
Inductive StateWrite := sw_register (registration : AttemptCorrelation) | sw_transition (attemptId : string) (to : AttemptPhase).
Definition state_actions (w : StateWrite) (event : PreparedJournalPut) : list WriteAction :=
  match w with
  | sw_register registration => registerPreDispatch registration event
  | sw_transition attemptId to => transition attemptId event to
  end.

(** ** A durable transition *)

Inductive TransitionResult := tr_applied (event : JournalEvent) | tr_failed (kind : TransitionFailure).

Definition PORT_THREW_CODE : string := "ATTEMPT_STATE_PORT_THREW".

Definition writeOrAmbiguous (write : StateWrite) (p : PreparedJournalPut) : CM WriteOutcome :=
  (answer <- own (TransactWrite (state_actions write p) (eventId (event (put_entry p)))) ;;
   se_ret match answer with
          | Ok outcome => outcome
          | Err t =>
              let e := transportErrorFromThrown t in
              ambiguous (PORT_THREW_CODE +:+ ": " +:+ quoted (error_name e) +:+ " " +:+ quoted (te_message e))
          end)%se.

Definition isDefinitiveFailure (confirmed : ConfirmResult) : bool :=
  match confirmed with cf_not_applied _ (definitive_failure _) => true | _ => false end.

Definition transitionResultOf (confirmed : ConfirmResult) : TransitionResult :=
  match confirmed with
  | cf_result (ap_appended e) => tr_applied e
  | cf_not_applied _ (definitive_failure _) => tr_failed tf_rejected
  | cf_not_applied _ _ => tr_failed tf_condition_failed
  | cf_result (ap_stopped s) => tr_failed (if bool_decide (stop_reason s = SEQUENCE_CONFLICT) then tf_condition_failed else tf_ambiguous)
  end.

(** The loop, with the retries left. *)
Fixpoint transition_loop (retries : nat) (write : StateWrite) (prepared : PreparedJournalPut + JournalStopped) : CM TransitionResult :=
  match prepared with
  | inr _ => se_ret (tr_failed tf_ambiguous)
  | inl p =>
      (outcome <- writeOrAmbiguous write p ;;
       confirmed <- journal_confirm p outcome ATTEMPT_JOURNAL_ACTION_INDEX ;;
       match retries with
       | O => se_ret (transitionResultOf confirmed)
       | S n =>
           if negb (isDefinitiveFailure confirmed) then se_ret (transitionResultOf confirmed)
           else (next <- journal_prepare_retry p ;; transition_loop n write next)
       end)%se
  end.

Definition runDurableTransition (maxDefinitiveRetries : Z) (type : string) (body : list (string * json)) (causation : list string)
    (write : StateWrite) : CM TransitionResult :=
  (prepared <- journal_prepare type body causation ;;
   transition_loop (Z.to_nat maxDefinitiveRetries) write prepared)%se.

(** ** One attempt *)

Record ResolvedAttempt := MkResolved { ra_resolution : AttemptResolution; cause : JournalEvent }.

Definition ids_of (c : AttemptCorrelation) : AttemptIds := MkIds (ac_attempt_id c) (ac_provider_request_id c).

Section client.
Context (JSON_parse : string -> Result json string) (scope : JournalScope) (maxDefinitiveRetries : Z) (callbacks : nat).

Definition register (input : AttemptInput) (c : AttemptCorrelation) : CM JournalEvent :=
  (result <- runDurableTransition maxDefinitiveRetries "attempt_registered"
     (correlation_members c ++
      [("payment_id", JStr (in_payment_id input)); ("amount_minor", JNum (in_amount_minor input));
       ("currency", JStr (in_currency input)); ("provider_qualifier", JStr (in_provider_qualifier input))])
     (in_causation_event_ids input) (sw_register c) ;;
   match result with
   | tr_applied e => se_ret e
   | tr_failed kind => se_throw (not_registered (ac_attempt_id c) kind)
   end)%se.

Definition unresolved (dispatch : DispatchState) (failure : StructuredReason) : AttemptResolution :=
  MkResolution no_diagnostics None (ro_failed dispatch failure).

Definition recordNotDispatched (c : AttemptCorrelation) (registered : JournalEvent) (failure : StructuredReason) : CM ResolvedAttempt :=
  (result <- runDurableTransition maxDefinitiveRetries "attempt_not_dispatched"
     (correlation_members c ++ [("failure", failure_json failure)]) [eventId registered]
     (sw_transition (ac_attempt_id c) PHASE_NOT_DISPATCHED) ;;
   se_ret match result with
          | tr_applied e => MkResolved (unresolved NOT_DISPATCHED failure) e
          | tr_failed _ => MkResolved (unresolved DISPATCH_UNKNOWN failure) registered
          end)%se.

Definition undispatchedUnknown (registered : JournalEvent) (is_ambiguous : bool) : ResolvedAttempt :=
  MkResolved
    (unresolved DISPATCH_UNKNOWN
       (reason (if is_ambiguous then "DISPATCH_TRANSITION_AMBIGUOUS" else "DISPATCH_TRANSITION_CONDITION_FAILED") "BR-RUA-021"
          ("the dispatch_started transition ended " +:+ (if is_ambiguous then "ambiguous" else "condition_failed")
           +:+ "; expected applied before any transport call, so the transport was not invoked")))
    registered.

Record DispatchInstants := MkDispatch { dispatch_at : string; deadline_at : string }.

Definition timeout_members (c : AttemptCorrelation) (origin_event : string) (at_ : DispatchInstants) (w : TimerWin) (recorded_at : string) :
  list (string * json) :=
  correlation_members c ++
  [("elapsed_ns", JStr (elapsed_ns w)); ("monotonic_origin_event_id", JStr origin_event); ("dispatch_at", JStr (dispatch_at at_));
   ("deadline_at", JStr (deadline_at at_)); ("timer_fired_at", JStr (timer_fired_at w));
   ("abort_requested_at", JStr (abort_requested_at w)); ("recorded_at", JStr recorded_at); ("arbiter_winner", JStr "TIMER");
   ("transport_settled_at_claim", JBool false)].

(** [None]: the grace has not ended within the callbacks. *)
Definition recordLateSettlement (c : AttemptCorrelation) (dispatchStarted : JournalEvent) (originNs : Z) : CM (option unit) :=
  (waited <- lateSettlementWithin callbacks originNs late_settlement_grace_ns ;;
   match waited with
   | None => se_ret None
   | Some None => se_ret (Some tt)
   | Some (Some late) =>
       journal_append "transport_settled_after_timeout"
         (correlation_members c ++ [("settlement_kind", JStr (settlement_kind_text (settlement_kind late)));
                                    ("observed_after_elapsed_ns", JStr (observed_after_elapsed_ns late))])
         [eventId dispatchStarted] ;;;
       se_ret (Some tt)
   end)%se.

Definition recordTimeout (c : AttemptCorrelation) (dispatchStarted : JournalEvent) (at_ : DispatchInstants) (originNs : Z) (w : TimerWin) :
  CM (option ResolvedAttempt) :=
  (now <- own WallNow ;;
   recordedAt <- pure_step (formatUtcMillis now) ;;
   timeout <- journal_append "caller_timeout_recorded" (timeout_members c (eventId dispatchStarted) at_ w recordedAt) [eventId dispatchStarted] ;;
   match timeout with
   | ap_appended e =>
       waited <- recordLateSettlement c dispatchStarted originNs ;;
       se_ret (option_map (fun _ => MkResolved (MkResolution no_diagnostics (Some (elapsed_ns w)) ro_timed_out) e) waited)
   | ap_stopped s =>
       se_ret (Some (MkResolved
         (MkResolution no_diagnostics (Some (elapsed_ns w))
            (ro_failed DISPATCHED (reason "TIMEOUT_RECORD_NOT_DURABLE" "BR-RUA-023"
               ("caller_timeout_recorded of attempt " +:+ ac_attempt_id c +:+ " was not durably appended (" +:+ stop_text (stop_reason s)
                +:+ "); expected an appended timeout record before TIMED_OUT"))))
         dispatchStarted))
   end)%se.

(** The attempt after its durable dispatch. *)
Definition dispatch (input : AttemptInput) (c : AttemptCorrelation) (dispatchStarted : JournalEvent) (at_ : DispatchInstants)
    (call : list (string * json)) : CM (option ResolvedAttempt) :=
  (decided <- raceTransportAgainstDeadline callbacks call deadline_ns ;;
   match decided with
   | None => se_ret None
   | Some (_, won_transport result after) =>
       let parsed := parseProviderResponse JSON_parse result
                       (MkExpectedResponse (in_provider_qualifier input) (ac_attempt_id c) (ac_provider_request_id c)) in
       se_ret (Some (MkResolved (resolutionFromResponse parsed after) dispatchStarted))
   | Some (originNs, won_timer w) => recordTimeout c dispatchStarted at_ originNs w
   end)%se.

(** [#resolve] *)
Definition resolve (input : AttemptInput) (c : AttemptCorrelation) (registered : JournalEvent) : CM (option ResolvedAttempt) :=
  match buildProviderCall input (ids_of c) scope with
  | Err failure => (r <- recordNotDispatched c registered failure ;; se_ret (Some r))%se
  | Ok call =>
      (dispatchAt <- own WallNow ;;
       at_ <- pure_step (formatUtcMillis dispatchAt) ;;
       deadline <- pure_step (formatUtcMillis (option_map (fun t => t + deadline_ns / NS_PER_MS) dispatchAt)) ;;
       dispatched <- runDurableTransition maxDefinitiveRetries "dispatch_started"
         (correlation_members c ++ [("dispatch_at", JStr at_); ("deadline_at", JStr deadline); ("deadline_ns", JStr (string_of_Z deadline_ns))])
         [eventId registered] (sw_transition (ac_attempt_id c) PHASE_DISPATCHED) ;;
       match dispatched with
       | tr_failed tf_rejected =>
           r <- recordNotDispatched c registered
             (reason "DISPATCH_TRANSITION_REJECTED" "BR-RUA-021"
                ("the dispatch_started transition of attempt " +:+ ac_attempt_id c
                 +:+ " was definitively rejected by the store; expected it to apply before any transport call")) ;;
           se_ret (Some r)
       | tr_failed tf_condition_failed => se_ret (Some (undispatchedUnknown registered false))
       | tr_failed tf_ambiguous => se_ret (Some (undispatchedUnknown registered true))
       | tr_applied e => dispatch input c e (MkDispatch at_ deadline) call
       end)%se
  end.

(** [None] when a wait has not ended within its callbacks. *)
Definition performAttempt (input : AttemptInput) : CM (option AttemptReport) :=
  (pure_step (assertValidAttemptInput input) ;;;
   attemptId <- own NextUuid ;;
   providerRequestId <- own NextUuid ;;
   let c := MkCorrelation attemptId providerRequestId (in_refund_request_id input) in
   registered <- register input c ;;
   resolved <- resolve input c registered ;;
   match resolved with
   | None => se_ret None
   | Some r =>
       outcome <- journal_append "attempt_outcome_recorded" (outcomeRecordBody c (ra_resolution r)) [eventId (cause r)] ;;
       report <- pure_step (toAttemptReport (ids_of c) (ra_resolution r)
                              (match outcome with ap_appended e => Some (eventId e) | ap_stopped _ => None end)) ;;
       se_ret (Some report)
   end)%se.
End client.

(** The constructor. *)
Definition new_ProviderClient (d : JournalWriterDeps) (writer : JournalWriter) (maxDefinitiveRetries : Z) : Result ClientState js_error :=
  if negb (is_safe_integer maxDefinitiveRetries) || (maxDefinitiveRetries <? 0)
  then Err (RangeError ("maxDefinitiveRetries " +:+ string_of_Z maxDefinitiveRetries +:+ "; expected a nonnegative safe integer"))
  else Ok (MkClient d writer).
End ProviderClient.
