(* ===== verification/ClientSafety.v ===== *)
(** * Safety of the provider client

    One attempt of the shared client beside any other parties, over a store that may refuse,
    fail, throw or answer ambiguously. The world is the tables and the log of the transport
    calls, each with the tables it was sent over. The other parties leave the rows of this
    client's instance and attempts alone ([rely]); the client itself writes nothing else,
    moves an attempt's row only out of PRE_DISPATCH, and calls the transport only while the row
    of the call's attempt is DISPATCHED ([guar]). [mine] is the set of UUIDs the source hands
    to this client, [attempts] those it may use as ids of attempts, [delivered] the settlements the transport may deliver to it. *)

From S2P Require Import Prelude AttemptLifecycle Timestamps Effects Store JsonText Parsing LeaseItem Journal JournalSafety JournalTx.
From S2P Require Import Money ControlItems Acceptance Provider ProviderExchange ExchangeCorrect ProviderClient.
Import Attempt Json Store Utc Identifiers JsonText Journal JournalSafety ControlItems ProviderExchange ProviderClient.
Import Provider(eventId) ExchangeCorrect(built_members).
Import (notations) Stdlib.Strings.Ascii.
Open Scope Z_scope.

Module ClientSafety.

(** ** Keys *)

Definition state_key (partition attempt : string) : ItemKey := MkKey partition (attemptStateSortKey attempt).

(** An event's key never is a state key: thirteen characters from its end stands '#', in a
    UUID '-'. *)
Lemma journal_key_not_state d k p a : isUuid4 a = true -> isSourceSequence k = true -> jkey d k <> state_key p a.
Proof.
  intros [Hl Hc]%andb_prop Hk [= _ E]. apply Nat.eqb_eq in Hl. apply (f_equal chars) in E. unfold sort_key, attemptStateSortKey in E.
  rewrite <-!string_app_assoc, !chars_app in E. pose proof (length_padded k Hk) as Hp. rewrite <-length_chars in Hl, Hp.
  set (x := (chars (d_source d) ++ chars "#") ++ chars (d_instanceId d)) in E. set (y := chars ATTEMPT_STATE_SK_PREFIX) in E.
  match type of Hp with length ?l = _ => set (z := l) in * end. assert (Hxy : length x = (length y + 23)%nat).
  { apply (f_equal length) in E. rewrite !length_app, Hl, Hp in E. change (length (chars "#")) with 1%nat in E. unfold SEQUENCE_DIGITS in E. lia. }
  clearbody x y z.
  apply (f_equal (fun l => l !! (length y + 23)%nat)) in E. rewrite (lookup_app_r y) in E by lia.
  rewrite (lookup_app_l (x ++ _)) in E by (rewrite length_app; cbn; lia). rewrite lookup_app_r in E by lia.
  replace (length y + 23 - length x)%nat with 0%nat in E by lia. replace (length y + 23 - length y)%nat with 23%nat in E by lia.
  cbn in E. symmetry in E. rewrite forallb_forall in Hc.
  assert (H : uuid4_char_ok 23 "#"%char = true); [|discriminate H].
  apply (Hc _). apply list_elem_of_In, list_elem_of_lookup. exists 23%nat. by rewrite list_lookup_imap, E.
Qed.

Lemma state_key_inj p q a b : state_key p a = state_key q b -> a = b.
Proof. intros [= _ E]. done. Qed.

(** ** The world *)

Abbreviation call := (list (string * json)).
Record world := MkWorld { store : tables; calls : list (call * tables) }.
Definition set_store (s : tables) (w : world) : world := MkWorld s (calls w).

(** The row of an attempt in a phase. *)
Definition in_phase (p : string) (a : string) (ph : AttemptPhase) (s : tables) : Prop :=
  exists m, s caller_journal (state_key p a) = Some m /\ member "phase" m = Some (JStr (phase_text ph)).

Section client.
Context (mine attempts requests : string -> Prop) (home : string) (delivered : ProviderTransportResult -> Prop).
Hypothesis mine_uuids : forall x, mine x -> isUuid4 x = true.
Hypothesis attempts_mine : forall x, attempts x -> mine x.

Definition own_call (c : call) : Prop := exists a, member "attempt_id" c = Some (JStr a) /\ mine a.

(** ** Rely and guarantee *)

Record rely (w w' : world) : Prop := {
  rely_journal d k : mine (d_instanceId d) -> isSourceSequence k = true ->
    jrow caller_journal d (store w') k = jrow caller_journal d (store w) k;
  rely_state p a : mine a -> store w' caller_journal (state_key p a) = store w caller_journal (state_key p a);
  rely_calls : exists more, calls w' = calls w ++ more /\ Forall (fun c => ~ own_call c.1) more;
}.

(** The row names its attempt, and a request this client acts for. *)
Definition registered_members (a : string) (m : StoredItem) : Prop :=
  member "sk" m = Some (JStr (attemptStateSortKey a)) /\ member "attempt_id" m = Some (JStr a)
  /\ exists r, requests r /\ member "refund_request_id" m = Some (JStr r).

Inductive own_change (t : TableRole) (k : ItemKey) (v v' : option StoredItem) : Prop :=
| change_none : v' = v -> own_change t k v v'
| change_event d n : t = caller_journal -> v = None -> mine (d_instanceId d) -> isSourceSequence n = true ->
    k = jkey d n -> own_change t k v v'
| change_registered p a m : t = caller_journal -> k = state_key p a -> attempts a -> v = None -> v' = Some m ->
    member "phase" m = Some (JStr (phase_text PRE_DISPATCH)) -> registered_members a m -> own_change t k v v'
| change_phase p a m m' to : t = caller_journal -> k = state_key p a -> attempts a -> v = Some m -> v' = Some m' ->
    member "phase" m = Some (JStr (phase_text PRE_DISPATCH)) -> to <> PRE_DISPATCH ->
    member "phase" m' = Some (JStr (phase_text to)) -> (forall n, n <> "phase" -> member n m' = member n m) -> own_change t k v v'.

Definition changes_own (s s' : tables) : Prop := forall t k, own_change t k (s t k) (s' t k).

Inductive calls_own (w w' : world) : Prop :=
| calls_same : calls w' = calls w -> calls_own w w'
| calls_one_more c a : calls w' = calls w ++ [(c, store w)] -> member "attempt_id" c = Some (JStr a) -> mine a ->
    in_phase home a PHASE_DISPATCHED (store w) -> calls_own w w'.

Definition guar (w w' : world) : Prop := changes_own (store w) (store w') /\ calls_own w w'.

#[export] Instance rely_preorder : PreOrder rely.
Proof.
  split.
  - intros w. split; [done..|]. exists []. by rewrite app_nil_r.
  - intros w1 w2 w3 H1 H2. split.
    + intros d k Hd Hk. by rewrite (rely_journal _ _ H2 d k Hd Hk), (rely_journal _ _ H1 d k Hd Hk).
    + intros p a Ha. by rewrite (rely_state _ _ H2 p a Ha), (rely_state _ _ H1 p a Ha).
    + destruct (rely_calls _ _ H1) as (m1 & E1 & F1), (rely_calls _ _ H2) as (m2 & E2 & F2).
      exists (m1 ++ m2). rewrite E2, E1, (assoc_L (++)). split; [done|]. by apply Forall_app.
Qed.

Lemma client_guar_refl w : guar w w.
Proof. split; [intros t k; by apply change_none|by apply calls_same]. Qed.

Lemma client_rely_jrely d w w' : mine (d_instanceId d) -> rely w w' -> jrely caller_journal d (store w) (store w').
Proof. intros Hd H k Hk. by apply (rely_journal _ _ H). Qed.

Lemma jguar_changes d s s' : mine (d_instanceId d) -> jguar caller_journal d s s' -> changes_own s s'.
Proof.
  intros Hd H t k. destruct (H t k) as [E|(-> & E & n & Hn & ->)]; [by apply change_none|]. by eapply change_event.
Qed.

(** ** Effects *)

Definition own_step (R : Type) (e : CallerEff R) : world -> R -> world -> Prop :=
  match e in CallerEff R return world -> R -> world -> Prop with
  | TransactWrite actions _ => fun w r w' =>
      (exists out, transact_step (store w) actions out (store w') /\ (r = Ok out \/ exists t, r = Err t)) /\ calls w' = calls w
  | NextUuid => fun w r w' => mine r /\ w' = w
  | WallNow => fun w _ w' => w' = w
  | NowNs => fun w _ w' => w' = w
  | Schedule _ => fun w _ w' => w' = w
  | CancelTimer => fun w _ w' => w' = w
  | Invoke c => fun w r w' =>
      w' = MkWorld (store w) (calls w ++ [(c, store w)])
      /\ match r with Some t => delivered (transport_error (transportErrorFromThrown t)) | None => True end
  | Abort => fun w _ w' => w' = w
  | NextCallback => fun w r w' => w' = w /\ match r with Some (TransportSettled a) => delivered (settled_result a) | _ => True end
  end.

Definition client_step (R : Type) (e : ClientEff R) : world -> R -> world -> Prop :=
  match e with
  | inl j => fun w r w' => journal_step caller_journal R j (store w) r (store w') /\ calls w' = calls w
  | inr o => own_step R o
  end.

Definition always (w : world) : Prop := True.
Abbreviation spec := (rgs client_step rely guar always).

(** An assertion that neither the other parties nor the client's own writes break. *)
Record stable (P : world -> Prop) : Prop := {
  stable_rely w w' : P w -> rely w w' -> P w';
  stable_own w w' : P w -> changes_own (store w) (store w') -> calls w' = calls w -> P w';
}.

Lemma client_stable_and P Q : stable P -> stable Q -> stable (fun w => P w /\ Q w).
Proof. intros [A B] [C D]. split; intros w w' [? ?] ?; [split; eauto|]. intros ?. split; eauto. Qed.

Lemma stable_pure (P : Prop) : stable (fun _ => P).
Proof. by split. Qed.

Lemma stable_exists {A} (P : A -> world -> Prop) : (forall a, stable (P a)) -> stable (fun w => exists a, P a w).
Proof.
  intros H. split; intros w w' [a Ha] ?; [|intros ?]; exists a; [by eapply (stable_rely _ (H a))|by eapply (stable_own _ (H a))].
Qed.

(** *** What is stable *)

Definition uncalled (w : world) : Prop := Forall (fun c => ~ own_call c.1) (calls w).
Definition called_once (c : call) (s : tables) (w : world) : Prop :=
  own_call c /\ exists before after, calls w = before ++ (c, s) :: after
    /\ Forall (fun c => ~ own_call c.1) before /\ Forall (fun c => ~ own_call c.1) after.

Lemma uncalled_stable : stable uncalled.
Proof.
  split; unfold uncalled; intros w w' H Hr.
  - destruct (rely_calls _ _ Hr) as (more & -> & Hm). by apply Forall_app.
  - by intros ->.
Qed.

Lemma called_once_stable c s : stable (called_once c s).
Proof.
  split; unfold called_once; intros w w' (Ho & b & a & E & Hb & Ha) Hr.
  - destruct (rely_calls _ _ Hr) as (more & -> & Hm). split; [done|]. exists b, (a ++ more).
    rewrite E, <-(assoc_L (++)). split_and!; [done..|]. by apply Forall_app.
  - intros ->. split; [done|]. by exists b, a.
Qed.

Lemma phase_text_inj a b : phase_text a = phase_text b -> a = b.
Proof. by destruct a, b. Qed.

Lemma in_phase_stable p a ph : mine a -> ph <> PRE_DISPATCH -> stable (fun w => in_phase p a ph (store w)).
Proof.
  intros Ha Hph. split; intros w w' (m & Hm & Hp) Hr.
  - exists m. by rewrite (rely_state _ _ Hr).
  - intros _. pose proof (Hr caller_journal (state_key p a)) as Hc. rewrite Hm in Hc.
    destruct Hc as [E|? ? ? [=]|? ? ? ? ? ? [=]|? ? m1 m2 to _ _ _ [= <-] _ Hpre]; [by exists m|].
    destruct Hph. apply phase_text_inj. congruence.
Qed.

Lemma stored_stable_own d ty body e : mine (d_instanceId d) -> stable (fun w => stored caller_journal d ty body e (store w)).
Proof.
  intros Hd. split; intros w w' H Hr.
  - eapply stored_stable; [done|]. by apply client_rely_jrely.
  - intros _. destruct H as (n & entry & Hn & Hb & He & Hrow). exists n, entry. split_and!; [done..|].
    unfold jrow in *. pose proof (Hr caller_journal (jkey d n)) as Hc. rewrite Hrow in Hc.
    destruct Hc as [E|? ? ? [=]|? ? ? ? ? ? [=]|? a ? ? ? _ Hk Ha]; [done|].
    destruct (journal_key_not_state d n p a); auto.
Qed.

(** ** The writer *)

Definition writer_ok (s : ClientState) (w : world) : Prop :=
  mine (d_instanceId (deps s)) /\ jinv caller_journal (deps s) (journal s) (store w).

Lemma client_writer_stable s w w' : writer_ok s w -> rely w w' -> writer_ok s w'.
Proof. intros [Hm Hj] Hr. split; [done|]. eapply jinv_stable; [done|]. by apply client_rely_jrely. Qed.

Lemma client_lift_rg {A} (p : proc JournalEff A) d keep (Q : A -> tables -> Prop) P w :
  mine (d_instanceId d) -> stable P -> P w ->
  rg (journal_step caller_journal) (jrely caller_journal d) (jguar caller_journal d) keep p Q (store w) ->
  rg client_step rely guar always (lift p) (fun a w => Q a (store w) /\ P w) w.
Proof.
  intros Hd HP. revert w. induction p as [a|R e k IH]; intros w Hw H; [done|].
  cbn [lift rg]. intros w1 Hr r w2 [Hs Hc]. destruct (H (store w1) (client_rely_jrely _ _ _ Hd Hr) r (store w2) Hs) as (Hg & _ & Hk).
  pose proof (jguar_changes _ _ _ Hd Hg) as Hch. split; [split; [done|by apply calls_same]|]. split; [done|]. apply IH; [|done].
  eapply (stable_own P HP); [by eapply (stable_rely P HP)|done..].
Qed.

Definition lifted {A} (r : Result A js_error) : Result A thrown := match r with Ok a => Ok a | Err e => Err (other e) end.

Lemma client_journal_spec {A} (m : JournalWriterDeps -> JM A) P R s w (Q : ClientState -> Result A thrown -> world -> Prop) n :
  writer_ok s w -> stable P -> P w ->
  rgs (journal_step caller_journal) (jrely caller_journal (deps s)) (jguar caller_journal (deps s))
    (dense caller_journal (deps s) n) (m (deps s)) (fun j r s' => jinv caller_journal (deps s) j s' /\ R j r s') (journal s) (store w) ->
  (forall j r w', writer_ok (set_journal j s) w' -> P w' -> R j r (store w') -> Q (set_journal j s) (lifted r) w') ->
  spec (on_journal m) Q s w.
Proof.
  intros [Hm Hj] HP Hw H HQ. unfold rgs, on_journal. apply rg_bind.
  eapply rg_mono; [|eapply (client_lift_rg _ _ _ _ P); [exact Hm|done|done|exact H]].
  intros [j r] w' [[Hj' HR] HP']. cbn [rg fst snd] in *. by apply HQ.
Qed.

Lemma client_append_spec P type body causation s w (Q : ClientState -> Result AppendResult thrown -> world -> Prop) :
  writer_ok s w -> stable P -> P w ->
  (forall j r w', writer_ok (set_journal j s) w' -> P w' ->
     (forall e, r = Ok (ap_appended e) -> stored caller_journal (deps s) type body e (store w')) -> Q (set_journal j s) (lifted r) w') ->
  spec (journal_append type body causation) Q s w.
Proof.
  intros Hs HP Hw HQ.
  apply (client_journal_spec _ P (fun _ r s' => forall e, r = Ok (ap_appended e) -> stored caller_journal (deps s) type body e s') s w Q
    (nextSequence (journal s))); [done..| |exact HQ]. unfold rgs, append_run. apply rg_bind.
  eapply rg_mono; [|apply (append_stored_spec caller_journal (deps s) type body causation (append_called (journal s)) (store w)); apply Hs].
  intros [j r] w' H. exact H.
Qed.

(** Quiet effects leave the world as it is. *)
Lemma client_quiet_spec {R} (e : CallerEff R) s w (Q : ClientState -> Result R thrown -> world -> Prop) :
  (forall w r w', own_step R e w r w' -> w' = w) ->
  (forall w1 r, rely w w1 -> own_step R e w1 r w1 -> Q s (Ok r) w1) -> spec (own e) Q s w.
Proof.
  intros He HQ. apply rgs_perform. intros w1 Hr r w2 Hs. pose proof Hs as Hs'. apply He in Hs' as ->.
  split; [apply client_guar_refl|]. split; [done|]. by apply HQ.
Qed.

(** ** Durable transitions *)

Definition write_attempt (write : StateWrite) : string :=
  match write with sw_register c => ac_attempt_id c | sw_transition a _ => a end.
Definition write_phase (write : StateWrite) : AttemptPhase :=
  match write with sw_register _ => PRE_DISPATCH | sw_transition _ to => to end.
Definition leaves_pre_dispatch (write : StateWrite) : Prop :=
  match write with sw_register c => requests (ac_refund_request_id c) | sw_transition _ to => to <> PRE_DISPATCH end.
Definition partition_of (s : ClientState) : string := journalPartitionKey (d_scope (deps s)).

Definition state_action (write : StateWrite) (p : PreparedJournalPut) : WriteAction :=
  match write with
  | sw_register c => registrationPut c p
  | sw_transition a to =>
      update ATTEMPT_STATE_TABLE (MkKey (pk (key (put_entry p))) (attemptStateSortKey a))
        [("phase", JStr (phase_text to))] [] (attribute_equals "phase" (SStr (phase_text PRE_DISPATCH)))
  end.

Lemma state_actions_eq write p : state_actions write p = [journalPutAction caller_journal (put_entry p); state_action write p].
Proof. by destruct write. Qed.

Lemma state_target write p :
  action_target (state_action write p) = Some (caller_journal, state_key (pk (key (put_entry p))) (write_attempt write)).
Proof. by destruct write. Qed.

(** What the state action does to its row when its condition holds. *)
Lemma state_action_effect write p k v :
  attempts (write_attempt write) -> leaves_pre_dispatch write -> k = state_key (pk (key (put_entry p))) (write_attempt write) ->
  action_holds v (state_action write p) = true ->
  own_change caller_journal k v (apply_action v (state_action write p))
  /\ exists m, apply_action v (state_action write p) = Some m /\ member "phase" m = Some (JStr (phase_text (write_phase write))).
Proof.
  intros Hm Hl -> Hh. destruct write as [c|a to]; cbn in Hh, Hm, Hl.
  - apply bool_decide_eq_true in Hh as ->. split; [|by eexists]. eapply change_registered; [done..|]. split; [done|]. split; [done|]. by exists (ac_refund_request_id c).
  - destruct v as [m|]; [|done]. apply Acceptance.scalar_str_iff in Hh as Ep.
    assert (Hp : member "phase" (set_member "phase" (JStr (phase_text to)) m) = Some (JStr (phase_text to)))
      by by rewrite member_set_member, bool_decide_eq_true_2.
    split; [|by eexists]. eapply change_phase; [done|done|done|done|reflexivity|exact Ep|exact Hl|exact Hp|].
    intros n Hn. cbn. by rewrite member_set_member, bool_decide_eq_false_2.
Qed.

Lemma state_own_put d write p : attempts (write_attempt write) ->
  JournalTx.own_journal_put caller_journal d (state_actions write p) (put_entry p).
Proof.
  intros Hm. rewrite state_actions_eq. apply Forall_cons; split; [done|]. apply Forall_singleton. intros k Hk E. rewrite state_target in E. injection E as E.
  destruct (journal_key_not_state d k (pk (key (put_entry p))) (write_attempt write)); [auto..|].
  unfold state_key. unfold jkey. congruence.
Qed.

(** A landed transition changes only its own rows, and leaves the attempt in its phase. *)
Lemma state_landed s write p w n :
  mine (d_instanceId (deps s)) -> attempts (write_attempt write) -> leaves_pre_dispatch write -> entry_at (deps s) n (put_entry p) ->
  jrow caller_journal (deps s) w n = None ->
  distinct_targets (state_actions write p) -> forallb (row_holds w) (state_actions write p) = true ->
  changes_own w (apply_all w (state_actions write p))
  /\ in_phase (partition_of s) (write_attempt write) (write_phase write) (apply_all w (state_actions write p)).
Proof.
  intros Hi Hm Hl He Hfree Hd Hh. pose proof (put_target caller_journal (deps s) n (put_entry p) He) as Hput.
  pose proof He as (Hn & Hkey & _).
  assert (Hst : forall v, row_holds w (state_action write p) = true -> v = w caller_journal (state_key (pk (key (put_entry p))) (write_attempt write)) ->
    action_holds v (state_action write p) = true).
  { intros v Hr ->. unfold row_holds in Hr. by rewrite state_target in Hr. }
  split.
  - intros t k. apply (JournalTx.apply_all_each own_change); [intros ???; by apply change_none|done..|].
    rewrite state_actions_eq. apply Forall_cons; split; [|apply Forall_singleton]; intros t' k' Ht Hr.
    + rewrite Hput in Ht. injection Ht as <- <-. eapply change_event; [done|exact Hfree|done..].
    + rewrite state_target in Ht. injection Ht as <- <-. eapply state_action_effect; [done..|]. by apply Hst.
  - unfold in_phase, state_key, partition_of.
    rewrite (JournalTx.apply_all_row w (state_actions write p) (state_action write p) caller_journal
      (MkKey (journalPartitionKey (d_scope (deps s))) (attemptStateSortKey (write_attempt write)))); [|done| |].
    + assert (Hr : row_holds w (state_action write p) = true).
      { rewrite forallb_forall in Hh. apply Hh. rewrite state_actions_eq. right. by left. }
      eapply state_action_effect; [done..|]. apply Hst; [done|]. by rewrite Hkey.
    + rewrite state_actions_eq. apply list_elem_of_In. right. by left.
    + rewrite state_target, Hkey. done.
Qed.

(** The put is written, or not, together with its state row. *)
Lemma client_write_spec P write p s w (Q : ClientState -> Result WriteOutcome thrown -> world -> Prop) :
  mine (d_instanceId (deps s)) -> attempts (write_attempt write) -> leaves_pre_dispatch write -> stable P -> P w ->
  JournalTx.pending caller_journal (deps s) (journal s) p false (store w) ->
  (forall landed c out w', P w' -> JournalTx.pending caller_journal (deps s) (journal s) p landed (store w') ->
     classifyJournalOutcome out (put_entry p) ATTEMPT_JOURNAL_ACTION_INDEX = Ok c -> class_view c landed ->
     (landed = true -> in_phase (partition_of s) (write_attempt write) (write_phase write) (store w')) -> Q s (Ok out) w') ->
  spec (writeOrAmbiguous write p) Q s w.
Proof.
  intros Hi Hm Hl HP Hw Hp HQ. apply rgs_bind, rgs_perform. intros w1 Hr answer w2 [(out & Ht & Ha) Hc].
  pose proof (JournalTx.pending_stable _ _ _ _ _ _ _ Hp (client_rely_jrely _ _ _ Hi Hr)) as Hp1.
  assert (Hact : state_actions write p !! 0%nat = Some (journalPutAction caller_journal (put_entry p))) by by destruct write.
  destruct (JournalTx.transact_pending caller_journal (deps s) (journal s) p _ 0%nat _ _ _ Hp1 Ht Hact (state_own_put (deps s) write p Hm))
    as (landed & c & Hv & Hp2 & Hcl & Hcv).
  assert (Hch : changes_own (store w1) (store w2)
    /\ (landed = true -> in_phase (partition_of s) (write_attempt write) (write_phase write) (store w2))).
  { destruct landed.
    - destruct Hv as (Ew & Hd & Hh). destruct Hp1 as (_ & _ & _ & _ & He & _ & Hfree).
      destruct (state_landed s write p (store w1) _ Hi Hm Hl He Hfree Hd Hh) as [H1 H2]. rewrite <-Ew in H1, H2. by split.
    - destruct Hv as [-> _]. split; [|done]. intros t k. by apply change_none. }
  destruct Hch as [Hch Hph]. split; [split; [done|by apply calls_same]|]. split; [done|].
  assert (HP2 : P w2) by (eapply (stable_own P HP); [by eapply (stable_rely P HP)|done..]).
  unfold rgs. cbn [rg se_ret fst snd]. destruct Ha as [->|[t ->]]; [by eapply HQ|].
  eapply (HQ landed oc_ambiguous); [done|done|reflexivity|done|done].
Qed.

(** What a transition leaves. *)
Definition transition_post (P : world -> Prop) type body write s : ClientState -> Result TransitionResult thrown -> world -> Prop :=
  fun s' r w' => exists j, s' = set_journal j s /\ writer_ok s' w' /\ P w'
    /\ match r with
       | Ok (tr_applied e) =>
           stored caller_journal (deps s) type body e (store w')
           /\ in_phase (partition_of s) (write_attempt write) (write_phase write) (store w')
       | Ok (tr_failed _) => True
       | Err x => exists e, x = other e
       end.

Lemma transition_loop_spec P type body write retries prepared s w :
  attempts (write_attempt write) -> leaves_pre_dispatch write -> stable P -> P w -> writer_ok s w ->
  (forall p, prepared = inl p -> reservation (journal s) = Some p /\ built type body (put_entry p)) ->
  spec (transition_loop retries write prepared) (transition_post P type body write s) s w.
Proof.
  intros Hm Hl HP. revert prepared s w. induction retries as [|n IH]; intros prepared s w Hw Hs Hres; cbn [transition_loop].
  all: destruct prepared as [p|st]; [|exists (journal s); by destruct s].
  all: destruct (Hres p eq_refl) as [Hp Hb]; pose proof Hs as [Hi Hj].
  all: apply rgs_bind, (client_write_spec P); [done|done|done|done|done|by apply JournalTx.reserved_pending|].
  all: intros landed c out w2 Hw2 Hpend Hc Hv Hph.
  all: destruct (JournalTx.confirm_pending _ _ _ _ _ _ _ _ _ Hpend Hc Hv) as (j & r & E & Hj' & Hr).
  all: pose proof (JournalTx.confirm_event _ _ _ _ _ _ E) as Hev; apply rgs_bind.
  all: unfold rgs at 1, journal_confirm, on_journal; rewrite E; cbn [lift pbind rg fst snd].
  all: assert (Hdone : transition_post P type body write s (set_journal j s) (Ok (transitionResultOf r)) w2).
  1,3: exists j; split; [done|]; split; [by split|]; split; [done|].
  1,2: destruct r as [[e|x]|e o]; cbn in Hr, Hev |- *; [subst landed; rewrite Hev; split; [by eapply JournalTx.pending_stored|auto]|done|by destruct o].
  1: exact Hdone.
  destruct (negb (isDefinitiveFailure r)) eqn:Ed; [exact Hdone|]. destruct r as [|e o]; [done|]. cbn in Hev.
  apply rgs_bind, (client_journal_spec _ P (fun j' r _ => forall q, r = Ok (inl q) -> q = p /\ reservation j' = Some p) _ _ _
    (nextSequence j)); [by split|done|done|by apply JournalTx.retry_reserves|].
  intros j2 r w3 Hs3 Hw3 Hq. cbn [set_journal deps journal] in *. destruct r as [next|x]; cbn [lifted].
  - eapply rgs_mono; [|apply (IH next (set_journal j2 s) w3 Hw3 Hs3)].
    + intros s' r' w' (j' & -> & H). by exists j'.
    + intros q ->. destruct (Hq q eq_refl) as [-> Hq']. by split.
  - exists j2. split; [done|]. split; [done|]. split; [done|]. by exists x.
Qed.

Lemma client_transition_spec P maxRetries type body causation write s w :
  attempts (write_attempt write) -> leaves_pre_dispatch write -> stable P -> P w -> writer_ok s w ->
  spec (runDurableTransition maxRetries type body causation write) (transition_post P type body write s) s w.
Proof.
  intros Hm Hl HP Hw Hs. apply rgs_bind.
  apply (client_journal_spec _ P (fun j r _ => forall p, r = Ok (inl p) -> reservation j = Some p /\ built type body (put_entry p)) _ _ _
    (nextSequence (journal s))); [done|done|done|apply JournalTx.prepare_reserves, Hs|].
  intros j r w2 Hs2 Hw2 Hp. destruct r as [prepared|x]; cbn [lifted].
  - eapply rgs_mono; [|apply (transition_loop_spec P type body write _ prepared (set_journal j s) w2 Hm Hl HP Hw2 Hs2)].
    + intros s' r' w' (j' & -> & H). by exists j'.
    + intros p ->. by apply Hp.
  - exists j. split; [done|]. split; [done|]. split; [done|]. by exists x.
Qed.

(** ** Steps that leave the client's fields and rows alone *)

Definition quiet_post {A} (P : world -> Prop) (R : A -> Prop) (s : ClientState) : ClientState -> Result A thrown -> world -> Prop :=
  fun s' r w' => s' = s /\ P w' /\ match r with Ok a => R a | Err x => exists e, x = other e end.

Section quiet.
Context (P : world -> Prop) (HP : forall w w', P w -> rely w w' -> P w').

Lemma quiet_ret {A} (R : A -> Prop) a s w : P w -> R a -> spec (se_ret a) (quiet_post P R s) s w.
Proof. by split. Qed.

Lemma quiet_pure {A} (R : A -> Prop) (r : Result A js_error) s w :
  P w -> (forall a, r = Ok a -> R a) -> spec (pure_step r) (quiet_post P R s) s w.
Proof. intros Hw HR. destruct r as [a|e]; (split; [done|]; split; [done|]); [by apply HR|by exists e]. Qed.

Lemma quiet_throw {A} (R : A -> Prop) e s w : P w -> spec (se_throw (other e)) (quiet_post (A:=A) P R s) s w.
Proof. intros Hw. split; [done|]. split; [done|by exists e]. Qed.

Lemma quiet_own {T} (R : T -> Prop) (e : CallerEff T) s w :
  P w -> (forall w r w', own_step T e w r w' -> w' = w /\ R r) -> spec (own e) (quiet_post P R s) s w.
Proof.
  intros Hw He. apply client_quiet_spec; [intros ??? H; by apply He in H as [-> _]|]. intros w1 r Hr Hs.
  split; [done|]. split; [by eapply HP|]. by apply He in Hs as [_ ?].
Qed.

Lemma quiet_bind {A B} (R : A -> Prop) (R' : B -> Prop) (m : CM A) (f : A -> CM B) s w :
  spec m (quiet_post P R s) s w -> (forall a w', P w' -> R a -> spec (f a) (quiet_post P R' s) s w') ->
  spec (se_bind m f) (quiet_post P R' s) s w.
Proof.
  intros Hm Hf. apply rgs_bind. eapply rgs_mono; [|exact Hm]. intros s' [a|x] w' (-> & Hw & HR); [by apply Hf|by split].
Qed.

Lemma quiet_mono {A} (R R' : A -> Prop) m s w :
  (forall a, R a -> R' a) -> spec m (quiet_post P R s) s w -> spec m (quiet_post P R' s) s w.
Proof. intros H. apply rgs_mono. intros s' [a|x] w' (-> & Hw & HR); split; auto. Qed.

Abbreviation anything := (fun _ => True).

Lemma any_clock s w : P w -> spec (own NowNs) (quiet_post P anything s) s w.
Proof. intros Hw. by apply quiet_own; [|intros ??? ->]. Qed.
Lemma any_wall s w : P w -> spec (own WallNow) (quiet_post P anything s) s w.
Proof. intros Hw. by apply quiet_own; [|intros ??? ->]. Qed.
Lemma any_text {A} (r : Result A js_error) s w : P w -> spec (pure_step r) (quiet_post P anything s) s w.
Proof. intros Hw. by apply quiet_pure. Qed.

Lemma timer_start_spec origin deadline s w : P w -> spec (timer_start origin deadline) (quiet_post P anything s) s w.
Proof.
  intros Hw. unfold timer_start. destruct (_ <? 0); [by apply quiet_throw|].
  eapply quiet_bind; [by apply any_clock|]. intros now w1 Hw1 _. by apply quiet_own; [|intros ??? ->].
Qed.

(** The timer never fires early. *)
Lemma timer_check_spec origin deadline s w : P w ->
  spec (timer_check origin deadline) (quiet_post P (fun r => forall n, r = Some n -> deadline <= n) s) s w.
Proof.
  intros Hw. eapply quiet_bind; [by apply any_clock|]. intros now w1 Hw1 _. cbn zeta.
  destruct (Z.ltb_spec (now - origin) deadline) as [Hlt|Hge].
  - eapply (quiet_bind anything); [by apply quiet_own; [|intros ??? ->]|]. intros u w2 Hw2 _. by apply quiet_ret.
  - apply quiet_ret; [done|]. by intros n [= <-].
Qed.

(** A decision of the race: an answer of the transport, or a deadline that has passed. *)
Definition decision_ok (deadline : Z) (d : RaceDecision) : Prop :=
  match d with
  | won_transport result _ => delivered result
  | won_timer t => exists n, elapsed_ns t = string_of_Z n /\ deadline <= n
  end.
Definition race_ok (deadline : Z) (race : Race) : Prop := forall d, decision race = Some d -> decision_ok deadline d.

Lemma decide_race_spec deadline race claimant m s w :
  P w -> race_ok deadline race -> (forall w, P w -> spec m (quiet_post P (decision_ok deadline) s) s w) ->
  spec (decide_race race claimant m) (quiet_post P (race_ok deadline) s) s w.
Proof.
  intros Hw Hr Hm. unfold decide_race. destruct (claim _ _) as [[] a].
  - eapply quiet_bind; [by apply Hm|]. intros d w1 Hw1 Hd. apply quiet_ret; [done|]. by intros d' [= <-].
  - apply quiet_ret; [done|]. intros d Hd. by apply Hr.
Qed.

Lemma on_settled_spec deadline race result s w :
  P w -> race_ok deadline race -> delivered result -> spec (on_settled race result) (quiet_post P (race_ok deadline) s) s w.
Proof.
  intros Hw Hr Hd. eapply quiet_bind; [by apply any_clock|]. intros at_ w1 Hw1 _. apply decide_race_spec; [done|done|].
  intros w2 Hw2. eapply (quiet_bind anything); [by apply quiet_own; [|intros ??? ->]|]. intros u w3 Hw3 _.
  eapply quiet_bind; [by apply any_text|]. intros after w4 Hw4 _. by apply quiet_ret.
Qed.

Lemma on_timer_spec deadline race s w :
  P w -> race_ok deadline race -> spec (on_timer deadline race) (quiet_post P (race_ok deadline) s) s w.
Proof.
  intros Hw Hr. eapply quiet_bind; [by apply timer_check_spec|]. intros fired w1 Hw1 Hf.
  destruct fired as [n|]; [|by apply quiet_ret]. specialize (Hf n eq_refl). apply decide_race_spec; [done|done|].
  intros w2 Hw2. eapply quiet_bind; [by apply any_wall|]. intros t1 w3 Hw3 _. eapply quiet_bind; [by apply any_text|]. intros x1 w4 Hw4 _.
  eapply (quiet_bind anything); [by apply quiet_own; [|intros ??? ->]|]. intros u w5 Hw5 _.
  eapply quiet_bind; [by apply any_wall|]. intros t2 w6 Hw6 _. eapply quiet_bind; [by apply any_text|]. intros x2 w7 Hw7 _.
  apply quiet_ret; [done|]. by exists n.
Qed.

Lemma next_callback_spec s w : P w ->
  spec (own NextCallback)
    (quiet_post P (fun r => match r with Some (TransportSettled a) => delivered (settled_result a) | _ => True end) s) s w.
Proof. intros Hw. by apply quiet_own; [|intros ??? [-> ?]]. Qed.

Lemma race_loop_spec n deadline race s w :
  P w -> race_ok deadline race ->
  spec (race_loop n deadline race) (quiet_post P (fun r => forall d, r = Some d -> decision_ok deadline d) s) s w.
Proof.
  revert race w. induction n as [|n IH]; intros race w Hw Hr; cbn [race_loop].
  all: destruct (decision race) as [d|] eqn:Ed; [apply quiet_ret; [done|]; intros ? [= <-]; by apply Hr|].
  - by apply quiet_ret.
  - eapply quiet_bind; [by apply next_callback_spec|]. intros next w1 Hw1 Hn.
    destruct next as [next|]; [|by apply quiet_ret].
    eapply (quiet_bind (race_ok deadline)); [destruct next; [by apply on_timer_spec|by apply on_settled_spec]|].
    intros race' w2 Hw2 Hr'. by apply IH.
Qed.

Lemma late_spec n g gn o s w : P w -> spec (late_loop n g gn o) (quiet_post P anything s) s w.
Proof.
  revert w. induction n as [|n IH]; intros w Hw; cbn [late_loop]; [by apply quiet_ret|].
  eapply quiet_bind; [by apply next_callback_spec|]. intros [[|a]|] w1 Hw1 _; [| |by apply quiet_ret].
  - eapply quiet_bind; [by apply timer_check_spec|]. intros [x|] w2 Hw2 _; [by apply quiet_ret|by apply IH].
  - eapply quiet_bind; [by apply any_clock|]. intros t w2 Hw2 _. eapply quiet_bind; [by apply any_text|]. intros x w3 Hw3 _.
    eapply (quiet_bind anything); [by apply quiet_own; [|intros ??? ->]|]. intros u w4 Hw4 _. by apply quiet_ret.
Qed.
End quiet.

(** ** One attempt *)

Section attempt.
Context (JSON_parse : string -> Result json string) (scope : JournalScope) (maxDefinitiveRetries : Z) (callbacks : nat).
Context (input : AttemptInput) (d : JournalWriterDeps).

Hypothesis at_home : journalPartitionKey (d_scope d) = home.

Definition state_phase (c : AttemptCorrelation) (ph : AttemptPhase) : tables -> Prop :=
  in_phase (journalPartitionKey (d_scope d)) (ac_attempt_id c) ph.

(** The transport was called for the attempt once, with the built call, over a store in which
    the dispatch was durable. *)
Definition called (c : AttemptCorrelation) (w : world) : Prop :=
  exists sent s, buildProviderCall input (ids_of c) scope = Ok sent /\ called_once sent s w /\ state_phase c PHASE_DISPATCHED s.

Lemma called_stable c : stable (called c).
Proof.
  apply stable_exists. intros sent. apply stable_exists. intros s.
  apply client_stable_and; [apply stable_pure|apply client_stable_and; [apply called_once_stable|apply stable_pure]].
Qed.

Definition called_at_most_once (c : AttemptCorrelation) (w : world) : Prop := uncalled w \/ called c w.

Lemma called_at_most_once_stable c : stable (called_at_most_once c).
Proof.
  destruct uncalled_stable as [U1 U2], (called_stable c) as [C1 C2].
  split; intros w w' [H|H] ?; [left|right|intros ?; left|intros ?; right]; eauto.
Qed.

Definition answered (c : AttemptCorrelation) (r : AttemptResolution) : Prop :=
  exists result after, delivered result
    /\ r = resolutionFromResponse (parseProviderResponse JSON_parse result
             (MkExpectedResponse (in_provider_qualifier input) (ac_attempt_id c) (ac_provider_request_id c))) after.

Definition deadline_passed (r : AttemptResolution) : Prop :=
  exists n, rs_dispatch_to_settlement_ns r = Some (string_of_Z n) /\ deadline_ns <= n.

Definition timeout_recorded (c : AttemptCorrelation) (r : AttemptResolution) (w : world) : Prop :=
  exists e origin at_ fired recorded, rs_dispatch_to_settlement_ns r = Some (elapsed_ns fired)
    /\ stored caller_journal d "caller_timeout_recorded" (timeout_members c origin at_ fired recorded) e (store w).

(** What a resolution says of the world. *)
Definition resolution_view (c : AttemptCorrelation) (r : AttemptResolution) (w : world) : Prop :=
  match resolved r with
  | ro_succeeded _ _ | ro_rejected _ _ => called c w /\ answered c r
  | ro_timed_out => called c w /\ deadline_passed r /\ timeout_recorded c r w
  | ro_failed DISPATCHED _ => called c w /\ (answered c r \/ deadline_passed r)
  | ro_failed DISPATCH_UNKNOWN _ => uncalled w
  | ro_failed NOT_DISPATCHED _ => uncalled w /\ state_phase c PHASE_NOT_DISPATCHED (store w)
  end.

Lemma resolution_view_stable c r : mine (d_instanceId d) -> mine (ac_attempt_id c) -> stable (resolution_view c r).
Proof.
  intros Hi Ha. unfold resolution_view. pose proof (called_stable c) as Hc. destruct (resolved r) as [? ?|? ?| |[] ?].
  1,2,5: apply client_stable_and; [done|apply stable_pure].
  - apply client_stable_and; [done|]. apply client_stable_and; [apply stable_pure|]. unfold timeout_recorded.
    do 5 (apply stable_exists; intros ?). apply client_stable_and; [apply stable_pure|by apply stored_stable_own].
  - apply client_stable_and; [apply uncalled_stable|by apply in_phase_stable].
  - apply uncalled_stable.
Qed.

Lemma resolution_view_calls c r w : resolution_view c r w -> called_at_most_once c w.
Proof. unfold resolution_view, called_at_most_once. destruct (resolved r) as [? ?|? ?| |[] ?]; tauto. Qed.

Lemma invoke_spec c sent s w :
  mine (ac_attempt_id c) -> buildProviderCall input (ids_of c) scope = Ok sent -> uncalled w -> state_phase c PHASE_DISPATCHED (store w) ->
  spec (own (Invoke sent)) (quiet_post (called c)
    (fun r => match r with Some t => delivered (transport_error (transportErrorFromThrown t)) | None => True end) s) s w.
Proof.
  intros Hm Hb Hu Hp. apply rgs_perform. intros w1 Hr r w2 [-> Ht].
  destruct (built_members _ _ _ _ Hb) as (_ & _ & Hid & _).
  assert (Hp1 : state_phase c PHASE_DISPATCHED (store w1)) by (by eapply (stable_rely _ (in_phase_stable _ _ PHASE_DISPATCHED Hm ltac:(done)))).
  assert (Hu1 : uncalled w1) by (by eapply (stable_rely _ uncalled_stable)).
  split; [split; [intros t k; by apply change_none|eapply calls_one_more; [done|done|done|by rewrite <-at_home]]|].
  split; [done|]. split; [done|]. split; [|done].
  exists sent, (store w1). split; [done|]. split; [|done]. split; [by exists (ac_attempt_id c)|]. by exists (calls w1), [].
Qed.

(** What the steps after the durable dispatch leave. *)
Definition attempt_post {A} (c : AttemptCorrelation) (R : A -> world -> Prop) (s : ClientState) :
  ClientState -> Result A thrown -> world -> Prop :=
  fun s' r w' => exists j, s' = set_journal j s /\ writer_ok s' w'
    /\ match r with Ok a => R a w' | Err x => (exists e, x = other e) /\ called_at_most_once c w' end.

Lemma set_journal_same s : s = set_journal (journal s) s.
Proof. by destruct s. Qed.

(** A quiet step of the attempt. *)
Lemma attempt_quiet {A B} (P : world -> Prop) c (R : A -> Prop) (R' : B -> world -> Prop) (m : CM A) (f : A -> CM B) s w :
  (forall w, P w -> writer_ok s w /\ called_at_most_once c w) -> spec m (quiet_post P R s) s w ->
  (forall a w', P w' -> R a -> spec (f a) (attempt_post c R' s) s w') -> spec (se_bind m f) (attempt_post c R' s) s w.
Proof.
  intros HP Hm Hf. apply rgs_bind. eapply rgs_mono; [|exact Hm]. intros s' [a|x] w' (-> & Hw & HR); [by apply Hf|].
  destruct (HP _ Hw) as [Hs Hc]. exists (journal s). split; [apply set_journal_same|]. done.
Qed.

Lemma attempt_ret {A} c (R : A -> world -> Prop) a s w : writer_ok s w -> R a w -> spec (se_ret a) (attempt_post c R s) s w.
Proof. intros Hs HR. exists (journal s). by rewrite <-set_journal_same. Qed.

Lemma attempt_bind {A B} c (R : A -> world -> Prop) (R' : B -> world -> Prop) (m : CM A) (f : A -> CM B) s w :
  spec m (attempt_post c R s) s w ->
  (forall j a w', writer_ok (set_journal j s) w' -> R a w' -> spec (f a) (attempt_post c R' (set_journal j s)) (set_journal j s) w') ->
  spec (se_bind m f) (attempt_post c R' s) s w.
Proof.
  intros Hm Hf. apply rgs_bind. eapply rgs_mono; [|exact Hm]. intros s' [a|x] w' (j & -> & Hs & HR).
  - eapply rgs_mono; [|by apply Hf]. intros s' r w2 (j' & -> & H). by exists j'.
  - by exists j.
Qed.

Lemma attempt_mono {A} c (R R' : A -> world -> Prop) m s w :
  (forall a w, R a w -> R' a w) -> spec m (attempt_post c R s) s w -> spec m (attempt_post c R' s) s w.
Proof. intros H. apply rgs_mono. intros s' [a|x] w' (j & -> & Hs & HR); exists j; auto. Qed.

Lemma attempt_append P c type body causation s w (HP : stable P) :
  (forall w, P w -> called_at_most_once c w) -> deps s = d -> writer_ok s w -> P w ->
  spec (journal_append type body causation)
    (attempt_post c (fun r w' => P w' /\ forall e, r = ap_appended e -> stored caller_journal d type body e (store w')) s) s w.
Proof.
  intros Hc Hd Hs Hw. apply (client_append_spec P); [done..|]. intros j r w' Hs' Hw' He. exists j. split; [done|]. split; [done|].
  destruct r as [r|x]; cbn [lifted]; [|split; [by exists x|auto]]. split; [done|]. rewrite <-Hd. intros e ->. by apply He.
Qed.

(** A transition of the attempt's row. *)
Lemma attempt_transition P c type body causation to s w (HP : stable P) :
  attempts (ac_attempt_id c) -> to <> PRE_DISPATCH -> (forall w, P w -> called_at_most_once c w) -> deps s = d -> writer_ok s w -> P w ->
  spec (runDurableTransition maxDefinitiveRetries type body causation (sw_transition (ac_attempt_id c) to))
    (attempt_post c (fun r w' => P w' /\ forall e, r = tr_applied e -> state_phase c to (store w')) s) s w.
Proof.
  intros Hm Hto Hc Hd Hs Hw. eapply rgs_mono; [|by apply (client_transition_spec P)].
  intros s' r w' (j & -> & Hs' & Hw' & Hr). exists j. split; [done|]. split; [done|].
  destruct r as [r|x]; [|split; [done|auto]]. split; [done|]. intros e ->. unfold state_phase. rewrite <-Hd. apply Hr.
Qed.

Definition before_call (c : AttemptCorrelation) (w : world) : Prop := uncalled w /\ state_phase c PHASE_DISPATCHED (store w).

Lemma before_call_rely c s w w' : mine (ac_attempt_id c) ->
  writer_ok s w /\ before_call c w -> rely w w' -> writer_ok s w' /\ before_call c w'.
Proof.
  intros Hm [Hs [Hu Hp]] Hr. split; [by eapply client_writer_stable|]. split; [by eapply (stable_rely _ uncalled_stable)|].
  by eapply (stable_rely _ (in_phase_stable _ _ PHASE_DISPATCHED Hm ltac:(done))).
Qed.

Lemma called_rely c s w w' : writer_ok s w /\ called c w -> rely w w' -> writer_ok s w' /\ called c w'.
Proof. intros [Hs Hc] Hr. split; [by eapply client_writer_stable|]. by eapply (stable_rely _ (called_stable c)). Qed.

Lemma quiet_attempt {A} c s (R : A -> Prop) (m : CM A) w :
  spec m (quiet_post (fun w => writer_ok s w /\ called c w) R s) s w ->
  spec m (attempt_post c (fun a w' => called c w' /\ R a) s) s w.
Proof.
  apply rgs_mono. intros s' r w' (-> & [Hs Hc] & HR). exists (journal s). rewrite <-set_journal_same. split; [done|]. split; [done|].
  destruct r; [done|]. split; [done|by right].
Qed.

Lemma race_spec c sent s w :
  mine (ac_attempt_id c) -> buildProviderCall input (ids_of c) scope = Ok sent -> writer_ok s w -> before_call c w ->
  spec (raceTransportAgainstDeadline callbacks sent deadline_ns)
    (attempt_post c (fun o w' => called c w' /\ forall og r, o = Some (og, r) -> decision_ok deadline_ns r) s) s w.
Proof.
  intros Hm Hb Hs Hw. pose (P := fun w => writer_ok s w /\ before_call c w).
  assert (HP : forall w w', P w -> rely w w' -> P w') by (intros ??; by apply before_call_rely).
  assert (HPc : forall w, P w -> writer_ok s w /\ called_at_most_once c w) by (intros ? [? [? _]]; split; [done|by left]).
  eapply (attempt_quiet P); [done|by apply any_clock|]. intros origin w1 Hw1 _.
  eapply (attempt_quiet P); [done|by apply timer_start_spec|]. intros u w2 [Hs2 [Hu2 Hp2]] _.
  pose (P' := fun w => writer_ok s w /\ called c w).
  assert (HP' : forall w w', P' w -> rely w w' -> P' w') by (intros ??; apply called_rely).
  apply rgs_bind. apply rgs_perform. intros w3 Hr threw w4 Hst.
  destruct (invoke_spec c sent s w2 Hm Hb Hu2 Hp2 w3 Hr threw w4 Hst) as (Hg & _ & Hq).
  split; [exact Hg|]. split; [done|]. cbn [rg] in Hq. destruct Hq as (_ & Hc4 & Ht).
  assert (Hw4 : P' w4).
  { split; [|done]. destruct Hst as [-> _]. pose proof (client_writer_stable _ _ _ Hs2 Hr) as Hs4. exact Hs4. }
  clear Hg Hst. apply (quiet_attempt c s (fun o => forall og r, o = Some (og, r) -> decision_ok deadline_ns r)).
  eapply (quiet_bind P' (fun o => forall r, o = Some r -> decision_ok deadline_ns r)).
  - destruct threw as [t|].
    + eapply (quiet_bind P' (race_ok deadline_ns)); [by apply on_settled_spec|].
      intros race w5 Hw5 Hrace. by apply quiet_ret.
    + by apply race_loop_spec.
  - intros decided w5 Hw5 Hd. apply quiet_ret; [done|]. intros og r E. destruct decided as [x|]; [|done].
    injection E as _ <-. by apply Hd.
Qed.

Lemma lateSettlementWithin_spec c origin grace s w :
  writer_ok s w -> called c w ->
  spec (lateSettlementWithin callbacks origin grace) (attempt_post c (fun _ w' => called c w' /\ True) s) s w.
Proof.
  intros Hs Hc. pose (P := fun w => writer_ok s w /\ called c w).
  assert (HP : forall w w', P w -> rely w w' -> P w') by (intros ??; apply called_rely).
  apply (quiet_attempt c s (fun _ => True)). eapply (quiet_bind P); [by apply any_clock|]. intros t w1 Hw1 _.
  eapply (quiet_bind P); [by apply timer_start_spec|]. intros u w2 Hw2 _. by apply late_spec.
Qed.

Lemma recordLateSettlement_spec P c e origin s w (HP : stable P) :
  (forall w, P w -> called c w) -> deps s = d -> writer_ok s w -> P w ->
  spec (recordLateSettlement callbacks c e origin) (attempt_post c (fun _ w' => P w') s) s w.
Proof.
  intros HPc Hd Hs Hw. pose (P' := fun w => writer_ok s w /\ P w).
  assert (HP' : forall w w', P' w -> rely w w' -> P' w').
  { intros w1 w2 [? ?] ?. split; [by eapply client_writer_stable|by eapply (stable_rely _ HP)]. }
  assert (HPc' : forall w, P' w -> writer_ok s w /\ called_at_most_once c w) by (intros ? [? ?]; split; [done|right; auto]).
  assert (Hlate : spec (lateSettlementWithin callbacks origin late_settlement_grace_ns) (quiet_post P' (fun _ => True) s) s w).
  { eapply (quiet_bind P'); [by apply any_clock|]. intros t w1 Hw1 _.
    eapply (quiet_bind P'); [by apply timer_start_spec|]. intros u w2 Hw2 _. by apply late_spec. }
  eapply (attempt_quiet P'); [done|exact Hlate|]. intros [[late|]|] w1 [Hs1 Hw1] _; [|by apply attempt_ret..].
  eapply attempt_bind; [by apply (attempt_append P); [|intros ? ?; right; auto|..]|].
  intros j r w2 Hs2 [Hw2 _]. by apply attempt_ret.
Qed.

Definition resolved_view (c : AttemptCorrelation) (o : option ResolvedAttempt) (w : world) : Prop :=
  match o with None => called c w | Some r => resolution_view c (ra_resolution r) w end.

Lemma recordTimeout_spec c started at_ origin fired s w :
  mine (d_instanceId d) -> deps s = d -> writer_ok s w -> called c w -> decision_ok deadline_ns (won_timer fired) ->
  spec (recordTimeout callbacks c started at_ origin fired) (attempt_post c (resolved_view c) s) s w.
Proof.
  intros Hi Hd Hs Hc (n & Hn & Hge). pose (P := fun w => writer_ok s w /\ called c w).
  assert (HP : forall w w', P w -> rely w w' -> P w') by (intros ??; apply called_rely).
  assert (HPc : forall w, P w -> writer_ok s w /\ called_at_most_once c w) by (intros ? [? ?]; split; [done|by right]).
  eapply (attempt_quiet P); [done|by apply any_wall|]. intros now w1 Hw1 _.
  eapply (attempt_quiet P); [done|by apply any_text|]. intros recorded w2 [Hs2 Hc2] _.
  eapply attempt_bind; [apply (attempt_append (called c)); [apply called_stable|by right|done..]|].
  intros j r w3 Hs3 [Hc3 He]. destruct r as [e|x].
  - specialize (He e eq_refl). pose (T := fun w => called c w /\
      stored caller_journal d "caller_timeout_recorded" (timeout_members c (eventId started) at_ fired recorded) e (store w)).
    eapply attempt_bind; [apply (recordLateSettlement_spec T c)|].
    + apply client_stable_and; [apply called_stable|by apply stored_stable_own].
    + by intros ? [? _].
    + done.
    + done.
    + by split.
    + intros j' waited w4 Hs4 [Hc4 He4]. apply attempt_ret; [done|]. destruct waited; [|done]. cbn. unfold resolution_view. cbn.
      split; [done|]. split; [exists n; cbn; by rewrite Hn|]. by exists e, (eventId started), at_, fired, recorded.
  - apply attempt_ret; [done|]. unfold resolved_view, resolution_view. cbn. split; [done|]. right. exists n. cbn. by rewrite Hn.
Qed.

Lemma dispatch_spec c started at_ sent s w :
  mine (d_instanceId d) -> mine (ac_attempt_id c) -> deps s = d -> buildProviderCall input (ids_of c) scope = Ok sent ->
  writer_ok s w -> before_call c w ->
  spec (dispatch JSON_parse callbacks input c started at_ sent) (attempt_post c (resolved_view c) s) s w.
Proof.
  intros Hi Hm Hd Hb Hs Hw. eapply attempt_bind; [by apply race_spec|]. intros j o w1 Hs1 [Hc1 Ho].
  destruct o as [[og [result after|fired]]|].
  - apply attempt_ret; [done|]. specialize (Ho _ _ eq_refl). cbn in Ho. unfold resolved_view, resolution_view. cbn [ra_resolution].
    assert (Ha : answered c (resolutionFromResponse (parseProviderResponse JSON_parse result
      (MkExpectedResponse (in_provider_qualifier input) (ac_attempt_id c) (ac_provider_request_id c))) after)) by (by exists result, after).
    revert Ha. unfold resolutionFromResponse at 2. cbn [resolved]. destruct (parsed_kind _); [by split..|]. split; [done|by left].
  - apply recordTimeout_spec; [done|done|done|done|]. by apply (Ho og).
  - by apply attempt_ret.
Qed.

Lemma recordNotDispatched_spec c registered failure s w :
  attempts (ac_attempt_id c) -> deps s = d -> writer_ok s w -> uncalled w ->
  spec (recordNotDispatched maxDefinitiveRetries c registered failure)
    (attempt_post c (fun r w' => resolution_view c (ra_resolution r) w') s) s w.
Proof.
  intros Hm Hd Hs Hw. eapply attempt_bind; [by apply (attempt_transition uncalled); [apply uncalled_stable|..|by left|done|done|]|].
  intros j r w1 Hs1 [Hu1 Hr]. apply attempt_ret; [done|]. destruct r as [e|k]; [|done].
  unfold resolution_view. cbn. split; [done|]. by apply (Hr e).
Qed.

Lemma resolve_spec c registered s w :
  mine (d_instanceId d) -> attempts (ac_attempt_id c) -> deps s = d -> writer_ok s w -> uncalled w ->
  spec (resolve JSON_parse scope maxDefinitiveRetries callbacks input c registered) (attempt_post c (resolved_view c) s) s w.
Proof.
  intros Hi Hm Hd Hs Hw. pose proof (attempts_mine _ Hm) as Hmine. unfold resolve. destruct (buildProviderCall input (ids_of c) scope) as [sent|failure] eqn:Eb.
  2: { eapply attempt_bind; [by apply recordNotDispatched_spec|]. intros j r w1 Hs1 Hr. by apply attempt_ret. }
  pose (P := fun w => writer_ok s w /\ uncalled w).
  assert (HP : forall w w', P w -> rely w w' -> P w').
  { intros w1 w2 [? ?] ?. split; [by eapply client_writer_stable|by eapply (stable_rely _ uncalled_stable)]. }
  assert (HPc : forall w, P w -> writer_ok s w /\ called_at_most_once c w) by (intros ? [? ?]; split; [done|by left]).
  eapply (attempt_quiet P); [done|by apply any_wall|]. intros at_ w1 Hw1 _.
  eapply (attempt_quiet P); [done|by apply any_text|]. intros dispatch_at w2 Hw2 _.
  eapply (attempt_quiet P); [done|by apply any_text|]. intros deadline w3 [Hs3 Hw3] _.
  eapply attempt_bind; [by apply (attempt_transition uncalled); [apply uncalled_stable|..|by left|done|done|]|].
  intros j r w4 Hs4 [Hu4 Hr]. destruct r as [e|[]].
  - apply dispatch_spec; [done..|]. split; [done|]. by apply (Hr e).
  - eapply attempt_bind; [by apply recordNotDispatched_spec|]. intros j' r w5 Hs5 Hr5. by apply attempt_ret.
  - by apply attempt_ret.
  - by apply attempt_ret.
Qed.

Lemma register_spec c s w :
  attempts (ac_attempt_id c) -> requests (ac_refund_request_id c) -> deps s = d -> writer_ok s w -> uncalled w ->
  spec (register maxDefinitiveRetries input c)
    (fun s' r w' => exists j, s' = set_journal j s /\ writer_ok s' w' /\ uncalled w'
       /\ forall a k, r = Err (not_registered a k) -> a = ac_attempt_id c) s w.
Proof.
  intros Hm Hq Hd Hs Hw. apply rgs_bind. eapply rgs_mono; [|by apply (client_transition_spec uncalled); [| |apply uncalled_stable|..]].
  intros s' r w' (j & -> & Hs' & Hw' & Hr). destruct r as [[e|k]|x]; exists j; (split; [done|]; split; [done|]; split; [done|]).
  - done.
  - by intros ?? [= <- _].
  - by destruct Hr as [e ->].
Qed.

(** What an attempt reports, or throws, is true of the world. *)
Definition report_view (c : AttemptCorrelation) (rep : AttemptReport) (w : world) : Prop :=
  exists r, toAttemptReport (ids_of c) r (rp_outcome_event_id rep) = Ok rep /\ resolution_view c r w
    /\ forall id, rp_outcome_event_id rep = Some id -> exists e, eventId e = id
         /\ stored caller_journal d "attempt_outcome_recorded" (outcomeRecordBody c r) e (store w).

Definition drawn (c : AttemptCorrelation) : Prop :=
  mine (ac_attempt_id c) /\ mine (ac_provider_request_id c) /\ ac_refund_request_id c = in_refund_request_id input.

Definition attempt_view (r : Result (option AttemptReport) thrown) (w : world) : Prop :=
  match r with
  | Ok (Some rep) => exists c, drawn c /\ report_view c rep w
  | Ok None => exists c, drawn c /\ called c w
  | Err (not_registered a _) => mine a /\ uncalled w
  | Err (other _) => uncalled w \/ exists c, drawn c /\ called c w
  end.

Lemma toAttemptReport_event ids r o rep : toAttemptReport ids r o = Ok rep -> rp_outcome_event_id rep = o.
Proof. unfold toAttemptReport. destruct (classifyOutcome _ _); [|done]. by intros [= <-]. Qed.

(** A reported attempt leaves its writer ready for more. *)
Definition attempt_end (s s' : ClientState) (r : Result (option AttemptReport) thrown) (w : world) : Prop :=
  attempt_view r w /\ match r with Ok (Some _) => exists j, s' = set_journal j s /\ writer_ok s' w | _ => True end.

(** What follows once the attempt has its ids. *)
Definition registered_attempt (c : AttemptCorrelation) : CM (option AttemptReport) :=
  (registered <- register maxDefinitiveRetries input c ;;
   resolved <- resolve JSON_parse scope maxDefinitiveRetries callbacks input c registered ;;
   match resolved with
   | None => se_ret None
   | Some r =>
       outcome <- journal_append "attempt_outcome_recorded" (outcomeRecordBody c (ra_resolution r)) [eventId (cause r)] ;;
       report <- pure_step (toAttemptReport (ids_of c) (ra_resolution r)
                              (match outcome with ap_appended e => Some (eventId e) | ap_stopped _ => None end)) ;;
       se_ret (Some report)
   end)%se.

Lemma registered_attempt_spec c s w :
  mine (d_instanceId d) -> attempts (ac_attempt_id c) -> requests (in_refund_request_id input) -> drawn c -> deps s = d -> writer_ok s w -> uncalled w ->
  spec (registered_attempt c) (attempt_end s) s w.
Proof.
  intros Hi Ha Hreq Hdr Hd Hs Hw. destruct Hdr as (Hm & Hq & Hr0). assert (Hdr : drawn c) by done. rewrite <-Hr0 in Hreq.
  apply rgs_bind. eapply rgs_mono; [|by apply (register_spec c)]. intros s4 r w4 (j & -> & Hs4 & Hw4 & Hr).
  destruct r as [registered|[a' k|x]]; [|rewrite (Hr a' k eq_refl); by split; [split|]|by split; [left|]].
  apply rgs_bind. eapply rgs_mono; [|by apply (resolve_spec c registered (set_journal j s))].
  intros s5 r5 w5 (j5 & -> & Hs5 & Hr5). destruct r5 as [[res|]|x].
  3: { destruct Hr5 as [[e ->] [?|?]]; (split; [|done]); [by left|right; by exists c]. }
  2: { split; [|done]. by exists c. }
  cbn in Hr5. pose proof (resolution_view_stable c (ra_resolution res) Hi Hm) as HV.
  apply rgs_bind, (client_append_spec (resolution_view c (ra_resolution res))); [done..|].
  intros j6 r6 w6 Hs6 Hv6 He6. destruct r6 as [o|x]; cbn [lifted].
  2: { split; [|done]. destruct (resolution_view_calls _ _ _ Hv6); [by left|right; by exists c]. }
  assert (Heq : forall id, match o with ap_appended e => Some (eventId e) | ap_stopped _ => None end = Some id -> exists e, eventId e = id
         /\ stored caller_journal d "attempt_outcome_recorded" (outcomeRecordBody c (ra_resolution res)) e (store w6)).
  { destruct o as [e|]; [|done]. intros id [= <-]. exists e. split; [done|]. rewrite <-Hd. by apply He6. }
  apply rgs_bind. unfold rgs at 1, pure_step. destruct (toAttemptReport _ _ _) as [rep|x] eqn:Er; (split; [|first [done|by exists j6]]); cbn.
  - exists c. split; [done|]. exists (ra_resolution res). rewrite (toAttemptReport_event _ _ _ _ Er). by split_and!.
  - destruct (resolution_view_calls _ _ _ Hv6); [by left|right; by exists c].
Qed.

(** An attempt is what follows its ids, once they are drawn. *)
Lemma performAttempt_drawn (Q : ClientState -> Result (option AttemptReport) thrown -> world -> Prop) s w :
  writer_ok s w -> uncalled w -> (forall x w', rely w w' -> writer_ok s w' -> uncalled w' -> Q s (Err (other x)) w') ->
  (forall c w', rely w w' -> writer_ok s w' -> uncalled w' -> drawn c -> spec (registered_attempt c) Q s w') ->
  spec (performAttempt JSON_parse scope maxDefinitiveRetries callbacks input) Q s w.
Proof.
  intros Hs Hw Hx Hf. pose (P := fun w' => rely w w' /\ writer_ok s w' /\ uncalled w').
  assert (HP : forall w1 w2, P w1 -> rely w1 w2 -> P w2).
  { intros w1 w2 (? & ? & ?) ?. split; [by etrans|]. split; [by eapply client_writer_stable|by eapply (stable_rely _ uncalled_stable)]. }
  assert (HP0 : P w) by done. 
  assert (Huuid : forall w, P w -> spec (own NextUuid) (quiet_post P mine s) s w).
  { intros w' Hw'. apply quiet_own; [done..|]. by intros ??? [? ->]. }
  assert (Hstep : forall A (R : A -> Prop) (m : CM A) (f : A -> CM (option AttemptReport)) w1,
    P w1 -> spec m (quiet_post P R s) s w1 -> (forall a w', P w' -> R a -> spec (f a) Q s w') -> spec (se_bind m f) Q s w1).
  { intros A R m f w' Hw' Hm Hg. apply rgs_bind. eapply rgs_mono; [|exact Hm].
    intros s' [a|x] w2 (-> & Hw2 & HR); [by apply Hg|]. destruct HR as [e ->]. apply Hx; apply Hw2. }
  apply (Hstep _ (fun _ => True)); [done|by apply quiet_pure|]. intros u w1 Hw1 _.
  apply (Hstep _ mine); [done|by apply Huuid|]. intros a w2 Hw2 Ha.
  apply (Hstep _ mine); [done|by apply Huuid|]. intros q w3 (Hr3 & Hs3 & Hw3) Hq.
  by apply (Hf (MkCorrelation a q (in_refund_request_id input))).
Qed.

Lemma performAttempt_spec s w : (forall x, mine x -> attempts x) ->
  mine (d_instanceId d) -> requests (in_refund_request_id input) -> deps s = d -> writer_ok s w -> uncalled w ->
  spec (performAttempt JSON_parse scope maxDefinitiveRetries callbacks input) (attempt_end s) s w.
Proof.
  intros Hall Hi Hreq Hd Hs Hw. apply performAttempt_drawn; [done..|by intros x w' _ _ Hu; split; [left|]|].
  intros c w' _ Hs' Hw' Hdr. apply registered_attempt_spec; [done| |done..]. apply Hall, Hdr.
Qed.
End attempt.
End client.

(** ** An attempt is one attempt *)

Section once.
Context (mine requests : string -> Prop) (home : string) (delivered : ProviderTransportResult -> Prop).
Hypothesis mine_uuids : forall x, mine x -> isUuid4 x = true.

(** Of the client's own attempt rows, only that of [a] has changed. *)
Definition only_row (a : string) (w w' : world) : Prop :=
  forall p b, mine b -> b <> a -> store w' caller_journal (state_key p b) = store w caller_journal (state_key p b).
(** Of the client's own rows one has changed at most, and it has made one call at most. *)
Definition at_most_one (w w' : world) : Prop :=
  (exists a, only_row a w w') /\ (uncalled mine w' \/ exists c s, called_once mine c s w').

Lemma only_row_rely a w w1 w2 : only_row a w w1 -> rely mine w1 w2 -> only_row a w w2.
Proof. intros H Hr p b Hb Hne. rewrite (rely_state _ _ _ Hr p b Hb). by apply H. Qed.

Lemma only_row_changes a (attempts : string -> Prop) w w1 w2 : (forall b, attempts b -> b = a) -> only_row a w w1 ->
  changes_own mine attempts requests (store w1) (store w2) -> only_row a w w2.
Proof.
  intros Ha H Hc p b Hb Hne. rewrite <- (H p b Hb Hne).
  destruct (Hc caller_journal (state_key p b)) as [E|d n _ _ Hd Hn E|q b' m _ E Hb'|q b' m m' to _ E Hb']; [done| | |].
  - symmetry in E. destruct (journal_key_not_state d n p b); auto.
  - apply state_key_inj in E as ->. by destruct Hne; apply Ha.
  - apply state_key_inj in E as ->. by destruct Hne; apply Ha.
Qed.

Section attempt.
Context (JSON_parse : string -> Result json string) (scope : JournalScope) (maxDefinitiveRetries : Z) (callbacks : nat).
Context (input : AttemptInput) (d : JournalWriterDeps).
Hypothesis at_home : journalPartitionKey (d_scope d) = home.

Lemma called_called_once c w : called mine scope input d c w -> exists sent s, called_once mine sent s w.
Proof. intros (sent & s & _ & H & _). by exists sent, s. Qed.

Lemma attempt_view_once r w : attempt_view mine delivered JSON_parse scope input d r w -> uncalled mine w \/ exists c s, called_once mine c s w.
Proof.
  destruct r as [[rep|]|[a k|e]]; cbn.
  - intros (c & _ & res & _ & [H|H%called_called_once]%resolution_view_calls & _); auto.
  - intros (c & _ & H%called_called_once). by right.
  - intros [_ H]. by left.
  - intros [H|(c & _ & H%called_called_once)]; auto.
Qed.

Lemma performAttempt_once s w :
  mine (d_instanceId d) -> requests (in_refund_request_id input) -> deps s = d -> writer_ok mine s w -> uncalled mine w ->
  wpr (client_step mine delivered) (rely mine) (performAttempt JSON_parse scope maxDefinitiveRetries callbacks input s) (fun _ w' => at_most_one w w') w.
Proof.
  intros Hi Hreq Hd Hs Hw. pose (J := fun _ : world => True).
  enough (H : rg (client_step mine delivered) (rely mine) (guar mine mine requests home) always
    (performAttempt JSON_parse scope maxDefinitiveRetries callbacks input s) (fun _ w' => at_most_one w w') w).
  { apply (rg_wpr _ _ _ _ _ _ J) in H; [|done..]. eapply wpr_mono; [|exact H]. by intros ?? [? _]. }
  apply (performAttempt_drawn mine mine requests home delivered JSON_parse scope maxDefinitiveRetries callbacks input (fun _ _ w' => at_most_one w w')); [done|done| |].
  - intros x w' Hr _ Hu. split; [|by left]. exists "". intros p b Hb _. by apply (rely_state _ _ _ Hr).
  - intros c w1 Hr Hs1 Hw1 Hdr. set (a := ac_attempt_id c).
    assert (Hsub : forall x, a = x -> mine x) by (intros x <-; apply Hdr).
    pose proof (registered_attempt_spec mine (eq a) requests home delivered mine_uuids Hsub JSON_parse scope maxDefinitiveRetries callbacks input d at_home c s w1
      Hi eq_refl Hreq Hdr Hd Hs1 Hw1) as Hspec.
    assert (Hrow : only_row a w w1) by (intros p b Hb _; by apply (rely_state _ _ _ Hr)).
    eapply rg_guar; [|eapply rg_with_wpr; [exact Hspec|]].
    + intros w2 w3 [Hc Hcall]. split; [|done]. intros t k. destruct (Hc t k) as [E|dd n ? ? ? ? ?|p b m ? ? Hb|p b m m' to ? ? Hb]; [by apply change_none|by eapply change_event|..].
      * subst b. eapply change_registered; eauto.
      * subst b. eapply change_phase; eauto.
    + apply (rg_wpr _ _ _ _ _ _ (only_row a w)) in Hspec; [|by intros ????; eapply only_row_rely| |exact Hrow].
      * eapply wpr_mono; [|exact Hspec]. intros [s' r] w' [[Hv _] Hrow']. split; [by exists a|]. by eapply attempt_view_once.
      * intros w2 w3 H [Hc _]. eapply only_row_changes; [|exact H|exact Hc]. by intros b <-.
Qed.
End attempt.
End once.

(** ** Clients beside each other *)

Lemma client_guar_rely (mine others requests : string -> Prop) home w w' :
  (forall x, mine x -> others x -> False) -> (forall x, mine x \/ others x -> isUuid4 x = true) ->
  guar mine mine requests home w w' -> rely others w w'.
Proof.
  intros Hdis Hu [Hg Hc]. split.
  - intros d k Hd Hk. unfold jrow.
    destruct (Hg caller_journal (jkey d k)) as [E|d' n _ E Hd' Hn Hkey|p a m _ Hkey Ha|p a m m' to _ Hkey Ha]; [done| | |].
    + destruct (Hdis (d_instanceId d')); [done|]. rewrite <-(jkey_instances d d' k n); auto.
    + destruct (journal_key_not_state d k p a); auto.
    + destruct (journal_key_not_state d k p a); auto.
  - intros p a Ho.
    destruct (Hg caller_journal (state_key p a)) as [E|d' n _ E Hd' Hn Hkey|q b m _ Hkey Hb|q b m m' to _ Hkey Hb]; [done| | |].
    + symmetry in Hkey. destruct (journal_key_not_state d' n p a); auto.
    + apply state_key_inj in Hkey as <-. by destruct (Hdis a).
    + apply state_key_inj in Hkey as <-. by destruct (Hdis a).
  - destruct Hc as [E|c a E Hid Ha Hp]; [exists []; by rewrite E, app_nil_r|].
    exists [(c, store w)]. split; [done|]. apply Forall_singleton. intros (b & Hb & Ho). cbn in Hb. rewrite Hid in Hb. injection Hb as <-.
    by apply (Hdis a).
Qed.

(** ** Theorems *)

(** C23: An attempt's report is true. Run one attempt of the client beside other parties that
    leave its own rows alone, over a store that may refuse, fail, throw or answer ambiguously
    at any step and a transport and clocks that answer anything. A reported success or
    rejection comes from an answer the transport delivered to the one call it was sent, over
    a store in which the attempt's dispatch was durable; TIMED_OUT means that the deadline of
    3 s had passed since the call and that the timeout event is stored; NOT_DISPATCHED means
    that the transport was never called and the row of the attempt says so; UNKNOWN that it
    was never called; and a reported outcome event is stored. An attempt that throws has
    called the transport at most once, and not at all if it could not register. *)
Theorem attempt_report_truthful (mine requests : string -> Prop) delivered JSON_parse scope maxDefinitiveRetries callbacks input s0 w0 steps s r w :
  (forall x, mine x -> isUuid4 x = true) -> requests (in_refund_request_id input) -> writer_ok mine s0 w0 -> uncalled mine w0 ->
  iexec (client_step mine delivered) (rely mine) (performAttempt JSON_parse scope maxDefinitiveRetries callbacks input s0) w0 steps (s, r) w ->
  attempt_view mine delivered JSON_parse scope input (deps s0) r w.
Proof.
  intros Hu Hreq Hs Hw Hx. pose proof Hs as [Hi _].
  by destruct (rg_iexec _ _ _ _ _ _ _ _ _ _
    (performAttempt_spec mine mine requests (journalPartitionKey (d_scope (deps s0))) delivered Hu (fun x H => H) JSON_parse scope maxDefinitiveRetries callbacks input (deps s0) eq_refl s0 w0 (fun x H => H) Hi Hreq eq_refl Hs Hw) Hx) as [[? _] _].
Qed.

(** The client writes only its own rows, in order, and never calls undispatched. Every effect
    of an attempt leaves each stored item as it was, except that it may add an event of the
    client's own instance where none was, register one of its own attempts, under its id and for
    the request it acts for, in PRE_DISPATCH where no row was, or move such a row from PRE_DISPATCH to another phase, changing nothing
    else of it; it sends a call only while the row of the call's attempt, in the client's own partition, is
    DISPATCHED; and
    clients with disjoint identities run beside each other in any interleaving. *)
Theorem client_writes_only_its_own (mine others requests : string -> Prop) delivered JSON_parse scope maxDefinitiveRetries callbacks input s0 w0 steps s r w :
  (forall x, mine x -> others x -> False) -> (forall x, mine x \/ others x -> isUuid4 x = true) ->
  requests (in_refund_request_id input) -> writer_ok mine s0 w0 -> uncalled mine w0 ->
  iexec (client_step mine delivered) (rely mine) (performAttempt JSON_parse scope maxDefinitiveRetries callbacks input s0) w0 steps (s, r) w ->
  Forall (fun p => guar mine mine requests (journalPartitionKey (d_scope (deps s0))) p.1 p.2 /\ rely others p.1 p.2) steps.
Proof.
  intros Hdis Huuid Hreq Hs Hw Hx. pose proof Hs as [Hi _]. assert (Hu : forall x, mine x -> isUuid4 x = true) by auto.
  destruct (rg_iexec _ _ _ _ _ _ _ _ _ _
    (performAttempt_spec mine mine requests (journalPartitionKey (d_scope (deps s0))) delivered Hu (fun x H => H) JSON_parse scope maxDefinitiveRetries callbacks input (deps s0) eq_refl s0 w0 (fun x H => H) Hi Hreq eq_refl Hs Hw) Hx) as [_ HF].
  eapply Forall_impl; [exact HF|]. intros [w1 w2] Hg. split; [done|]. cbn in *. by eapply client_guar_rely.
Qed.

(** ** A run *)

Definition demo_id : string := ExchangeCorrect.demo_uuid.
Definition demo_mine (x : string) : Prop := x = demo_id.

(** The provider's answer to the call, as the port settles with it. *)
Definition demo_settlement : js_value :=
  UObject None (fun f =>
    if bool_decide (f = "kind") then Some (UString "response") else
    if bool_decide (f = "status_code") then Some (UNumber (JSInt 200)) else
    if bool_decide (f = "executed_version") then Some (UString "7") else
    if bool_decide (f = "payload") then Some (UObject (Some (Parsing.bytes_of "{...}")) (fun _ => Some UUndefined)) else Some UUndefined).

(** A store without faults, a clock that stands still and a transport that answers at once. *)
Definition calm (R : Type) (e : ClientEff R) : world -> R * world :=
  match e with
  | inl j =>
      match j in JournalEff R return world -> R * world with
      | PortAppend entry => fun w =>
          let a := createDurableJournalPort caller_journal entry in
          if row_holds (store w) a then (Ok applied, set_store (apply_row (store w) a) w) else (Err (ForeignError "ValidationException"), w)
      | ClockNow => fun w => (Some 1791201600000, w)
      | NextId => fun w => (demo_id, w)
      | CallerTransact _ _ => fun w => (definitive_failure "ValidationException", w)
      end
  | inr o =>
      match o in CallerEff R return world -> R * world with
      | TransactWrite actions _ => fun w =>
          if bool_decide (distinct_targets actions) && forallb (row_holds (store w)) actions
          then (Ok applied, set_store (apply_all (store w) actions) w) else (Ok (definitive_failure "TransactionCanceledException"), w)
      | NextUuid => fun w => (demo_id, w)
      | WallNow => fun w => (Some 1791201600000, w)
      | NowNs => fun w => (0, w)
      | Schedule _ => fun w => (tt, w)
      | CancelTimer => fun w => (tt, w)
      | Invoke c => fun w => (None, MkWorld (store w) (calls w ++ [(c, store w)]))
      | Abort => fun w => (tt, w)
      | NextCallback => fun w => (Some (TransportSettled (Ok demo_settlement)), w)
      end
  end.

Definition demo_delivered (r : ProviderTransportResult) : Prop := r = settled_result (Ok demo_settlement).

Lemma client_calm_step R (e : ClientEff R) w : client_step demo_mine demo_delivered R e w (calm R e w).1 (calm R e w).2.
Proof.
  destruct e as [[entry| | |entry index]|[actions token| | | |ms| |c| |]]; cbn; try done; [|by split; [constructor|]|].
  - set (a := createDurableJournalPort caller_journal entry). destruct (row_holds (store w) a) eqn:Eh; cbn; (split; [|done]); [|constructor].
    unfold row_holds, apply_row in *. destruct (action_target a) as [[t k]|] eqn:Et; [|done].
    eapply store_write_ok; [exact Et|]. by constructor.
  - case_bool_decide as Hd; cbn; [destruct (forallb (row_holds (store w)) actions) eqn:Eh; cbn|]; (split; [|done]).
    + exists applied. split; [by constructor|by left].
    + exists (definitive_failure "TransactionCanceledException"). split; [constructor|by left].
    + exists (definitive_failure "TransactionCanceledException"). split; [constructor|by left].
Qed.

Definition demo_client : ClientState :=
  MkClient (MkDeps "conventional" demo_id ExchangeCorrect.demo_scope 2) (MkWriter 1 None None None 0 0).
Definition demo_world : world := MkWorld (fun _ _ => None) [].
Definition demo_attempt (input : AttemptInput) :=
  run calm (performAttempt (ExchangeCorrect.parses "{...}" (JObj ExchangeCorrect.demo_answer)) ExchangeCorrect.demo_scope 2 1
    input demo_client) demo_world.

Lemma demo_ready : writer_ok demo_mine demo_client demo_world /\ uncalled demo_mine demo_world.
Proof.
  split; [|constructor]. split; [done|]. unfold jinv. cbn. split_and!; [done| |done..|naive_solver].
  intros k Hk. apply isSourceSequence_range in Hk. split; [lia|done].
Qed.

(** The attempt of the example is answered with a rejection, by its one call. *)
Lemma attempt_report_truthful_witness :
  exists rep, (demo_attempt ExchangeCorrect.demo_input).1.2 = Ok (Some rep) /\ rp_outcome rep = REJECTED
    /\ exists c, report_view demo_mine demo_delivered (ExchangeCorrect.parses "{...}" (JObj ExchangeCorrect.demo_answer))
         ExchangeCorrect.demo_scope ExchangeCorrect.demo_input (deps demo_client) c rep (demo_attempt ExchangeCorrect.demo_input).2.
Proof.
  destruct (run_iexec (client_step demo_mine demo_delivered) (rely demo_mine) calm
    (performAttempt (ExchangeCorrect.parses "{...}" (JObj ExchangeCorrect.demo_answer)) ExchangeCorrect.demo_scope 2 1
       ExchangeCorrect.demo_input demo_client) demo_world) as [steps Hx]; [intros w; reflexivity|apply client_calm_step|].
  fold (demo_attempt ExchangeCorrect.demo_input) in Hx.
  destruct (demo_attempt ExchangeCorrect.demo_input).1 as [s r] eqn:E. cbn [fst snd].
  assert (Hu : forall x, demo_mine x -> isUuid4 x = true) by (intros x ->; vm_compute; reflexivity).
  pose proof (attempt_report_truthful demo_mine (eq "ref-poc-001") demo_delivered _ _ _ _ _ _ _ _ _ _ _ Hu (eq_refl : "ref-poc-001" = in_refund_request_id ExchangeCorrect.demo_input) (proj1 demo_ready) (proj2 demo_ready) Hx) as H.
  assert (Er : exists rep, r = Ok (Some rep) /\ rp_outcome rep = REJECTED).
  { assert (E2 : r = (demo_attempt ExchangeCorrect.demo_input).1.2) by (rewrite E; reflexivity). rewrite E2. eexists.
    split; [vm_compute; reflexivity|reflexivity]. }
  destruct Er as (rep & -> & Ho). exists rep. split; [reflexivity|]. split; [exact Ho|].
  destruct H as (c & _ & Hc). exists c. exact Hc.
Defined.

Lemma client_writes_only_its_own_witness :
  exists steps, Forall (fun p => guar demo_mine demo_mine (eq "ref-poc-001") (journalPartitionKey (d_scope (deps demo_client))) p.1 p.2 /\ rely (fun x => x = "3f1c2a9e-8b4d-4c1e-9f00-000000000000") p.1 p.2) steps /\ steps <> [].
Proof.
  destruct (run_iexec (client_step demo_mine demo_delivered) (rely demo_mine) calm
    (performAttempt (ExchangeCorrect.parses "{...}" (JObj ExchangeCorrect.demo_answer)) ExchangeCorrect.demo_scope 2 1
       ExchangeCorrect.demo_input demo_client) demo_world) as [steps Hx]; [intros w; reflexivity|apply client_calm_step|].
  exists steps. split.
  - destruct (run calm _ _).1 as [s r] eqn:E.
    eapply (client_writes_only_its_own demo_mine (fun x => x = "3f1c2a9e-8b4d-4c1e-9f00-000000000000") (eq "ref-poc-001"));
      [..|exact Hx]; [intros x -> E'; discriminate E'|intros x [->| ->]; vm_compute; reflexivity|reflexivity|apply demo_ready..].
  - intros ->. destruct Hx as (w1 & r & w2 & rest & _ & _ & E & _). discriminate E.
Defined.
End ClientSafety.
