(* ===== verification/ClientCorrect.v ===== *)
(** * The provider client's parts

    The deadline timer against a clock, that every attempt ends, and that the controller reads
    the timeout events the client records. *)

From S2P Require Import Prelude AttemptLifecycle Timestamps Effects Store JsonText LeaseItem Journal Money ControlItems Acceptance.
From S2P Require Import Provider Controller ControllerSafety ProviderExchange ExchangeCorrect ProviderClient.
Import Json Store Utc Identifiers Journal ControlItems Acceptance ProviderExchange ProviderClient.
Import Provider(eventId) ControllerSafety(caller_timeout_read).
Import Controller(readCallerTimeout, experimentExpectation, MkRefs, RECORD_FIELD_CHECKS, v_execution_manifest_sha256, v_trial, v_registered_caller_id,
  x_deployment, x_manifest, x_trial, x_source).
Open Scope Z_scope.

Module ClientCorrect.

(** ** The timer *)

(** A timer is armed for the deadline and not a millisecond more. The delay is 0 only when
    nothing remains; otherwise it is the least whole number of milliseconds that covers what
    remains, so a timer that is not early fires on or after the deadline and less than 1 ms of
    its delay is past it. *)
Theorem delay_covers_remaining remaining :
  (delayMsFor remaining = 0 <-> remaining <= 0)
  /\ (0 < remaining -> remaining <= delayMsFor remaining * NS_PER_MS < remaining + NS_PER_MS
                       /\ forall ms, remaining <= ms * NS_PER_MS -> delayMsFor remaining <= ms).
Proof.
  unfold delayMsFor, NS_PER_MS. pose proof (Z.div_mod (remaining + 1000000 - 1) 1000000 ltac:(done)) as H.
  pose proof (Z.mod_pos_bound (remaining + 1000000 - 1) 1000000 ltac:(done)) as Hm.
  destruct (Z.leb_spec remaining 0); split; [by split|lia|split; lia|]. intros _. split; [lia|]. intros ms Hms. nia.
Qed.

(** ** The record of a timeout *)

(** What the client puts into the record of a timeout: identities it drew, instants it
    formatted, a monotonic difference it measured and the input it checked. *)
Record recorded_by_client (c : AttemptCorrelation) (origin : string) (at_ : DispatchInstants) (fired : TimerWin)
    (recorded_at : string) : Prop := {
  rc_attempt : isUuid4 (ac_attempt_id c) = true;
  rc_request : isUuid4 (ac_provider_request_id c) = true;
  rc_refund : NONEMPTY_TRIMMED_PATTERN (ac_refund_request_id c) = true;
  rc_origin : isUuid4 origin = true;
  rc_elapsed : exists n, elapsed_ns fired = string_of_Z n /\ 0 <= n;
  rc_instants : Forall (fun s => isUtcMillis s = true)
    [dispatch_at at_; deadline_at at_; timer_fired_at fired; abort_requested_at fired; recorded_at];
}.

(** The controller reads the timeouts the client records. Take the stored item of a
    caller_timeout_recorded event of the client, written in an execution for a trial by the
    writer of a caller, with the members the client gives it. The controller that expects a
    timeout of this execution, manifest, trial and caller accepts the item and reads from it
    the event's own id and the id of the attempt. *)
Theorem timeout_record_accepted c origin at_ fired recorded_at execution manifest trial digest source instance sequence event_id
    occurred_at entry_key e config :
  recorded_by_client c origin at_ fired recorded_at ->
  isUuid4 instance = true -> isUuid4 event_id = true -> isUtcMillis occurred_at = true ->
  v_execution_manifest_sha256 config = manifest -> v_trial config = Some (MkTrial trial digest) ->
  source = caller_text (v_registered_caller_id config) +:+ "_caller" ->
  buildJournalEvent "caller_timeout_recorded" (timeout_members c origin at_ fired recorded_at)
    (MkEnvelope (MkScope execution manifest (pt_trial trial digest)) source instance sequence event_id occurred_at [origin]) = Ok e ->
  readCallerTimeout (JObj (item (toJournalEntry entry_key e))) (experimentExpectation execution config)
  = Ok (MkRefs event_id (ac_attempt_id c)).
Proof.
  intros R Hi He Ho <- Ht -> Hb. destruct R as [Ra Rq Rr Rg (n & Rn & Hn) Rt]. rewrite !Forall_cons in Rt.
  destruct Rt as (T1 & T2 & T3 & T4 & T5 & _). unfold buildJournalEvent, assertSourceSequence in Hb. cbn [e_source_sequence] in Hb.
  destruct (isSourceSequence sequence) eqn:Es; [|done]. cbn [bind_result] in Hb. apply isSourceSequence_range in Es.
  match type of Hb with Ok ?x = Ok e => assert (e = x) as -> by congruence end. clear Hb.
  apply caller_timeout_read. unfold experimentExpectation. rewrite Ht.
  split; [| | |eexists| | | | | |]; cbn [x_deployment x_manifest x_trial x_source].
  1,2: by destruct execution.
  - split; [by destruct execution|]. intros f Hf Hne. apply member_not_in.
    destruct execution; unfold Controller.IDENTITY_FIELDS in Hf; rewrite !elem_of_cons in Hf; vm_compute in Hne;
      repeat destruct Hf as [->|Hf]; try done; try (by apply elem_of_nil in Hf);
      apply (bool_decide_unpack _); vm_compute; exact I.
  - split; [by destruct execution|done].
  - by destruct execution.
  - by destruct execution.
  - split; [by destruct execution|done].
  - split; [by destruct execution|done].
  - apply Forall_forall. destruct execution; apply (bool_decide_unpack _); vm_compute; exact I.
  - intros field holds shape Hin. assert (Hd : Money.isDecimalString (elapsed_ns fired) = true).
    { rewrite Rn. by apply Decimals.spelling. }
    unfold RECORD_FIELD_CHECKS in Hin. rewrite !elem_of_cons in Hin.
    repeat destruct Hin as [[= -> -> ->]|Hin]; try (by apply elem_of_nil in Hin).
    all: try (by destruct execution).
    + assert (Hs : Controller.isSourceSequence (Some (JNum (JSInt sequence))) = true); [|by destruct execution].
      unfold Controller.isSourceSequence. cbn. unfold MAX_SOURCE_SEQUENCE in Es.
      assert (is_safe_integer sequence = true) as -> by (unfold is_safe_integer, MAX_SAFE_INTEGER; lia). lia.
    + assert (Hs : Controller.isCausationList (Some (JArr [JStr origin])) = true); [|by destruct execution].
      cbn. by rewrite Rg.
Qed.

Definition demo_instants : DispatchInstants := MkDispatch "2026-10-05T12:00:00.000Z" "2026-10-05T12:00:03.000Z".
Definition demo_fired : TimerWin := MkTimerWin "3000000001" "2026-10-05T12:00:03.001Z" "2026-10-05T12:00:03.001Z".
Definition demo_correlation : AttemptCorrelation := MkCorrelation ExchangeCorrect.demo_uuid ExchangeCorrect.demo_uuid "ref-poc-001".

Lemma timeout_record_accepted_witness : exists e,
  readCallerTimeout (JObj (item (toJournalEntry (MkKey "p" "s") e)))
    (experimentExpectation (id_run ExchangeCorrect.demo_uuid)
       (Controller.MkView ExchangeCorrect.demo_sha conventional COMMIT_THEN_TIMEOUT (Some (MkTrial ExchangeCorrect.demo_uuid ExchangeCorrect.demo_sha))))
  = Ok (MkRefs ExchangeCorrect.demo_uuid ExchangeCorrect.demo_uuid).
Proof.
  eexists. eapply (timeout_record_accepted demo_correlation ExchangeCorrect.demo_uuid demo_instants demo_fired "2026-10-05T12:00:03.002Z"
    (id_run ExchangeCorrect.demo_uuid) ExchangeCorrect.demo_sha ExchangeCorrect.demo_uuid ExchangeCorrect.demo_sha "conventional_caller"
    ExchangeCorrect.demo_uuid 4 ExchangeCorrect.demo_uuid "2026-10-05T12:00:03.002Z" (MkKey "p" "s")).
  - split; [vm_compute; reflexivity|vm_compute; reflexivity|vm_compute; reflexivity|vm_compute; reflexivity| |].
    + exists 3000000001. split; [vm_compute; reflexivity|vm_compute; discriminate].
    + repeat constructor; vm_compute; reflexivity.
  - vm_compute. reflexivity.
  - vm_compute. reflexivity.
  - vm_compute. reflexivity.
  - reflexivity.
  - reflexivity.
  - reflexivity.
  - reflexivity.
Defined.

(** ** Every attempt ends *)

(** The event loop: the monotonic clock, whether the timer is armed, and whether the transport
    has a call that has not settled. *)
Record loop := MkLoop { clock : Z; armed : bool; in_flight : bool }.

Section clock.
(** The clock never goes back, and the loop takes at least [tick] nanoseconds from one callback
    to the next. Scheduling arms the timer, and only an armed timer fires, which disarms it; it
    may fire early. A call settles once, at any time or never. The loop runs no callback, and the
    client waits for ever, only when no timer is armed. Every other effect answers anything. *)
Context (tick : Z).

Definition passes (l l' : loop) : Prop := clock l <= clock l' /\ armed l' = armed l /\ in_flight l' = in_flight l.

Definition clock_step (R : Type) (e : ClientEff R) : loop -> R -> loop -> Prop :=
  match e with
  | inl _ => fun l _ l' => passes l l'
  | inr o =>
      match o in CallerEff R return loop -> R -> loop -> Prop with
      | NowNs => fun l r l' => passes l l' /\ r = clock l'
      | Schedule _ => fun l _ l' => clock l <= clock l' /\ armed l' = true /\ in_flight l' = in_flight l
      | CancelTimer => fun l _ l' => clock l <= clock l' /\ armed l' = false /\ in_flight l' = in_flight l
      | Invoke _ => fun l r l' => clock l <= clock l' /\ armed l' = armed l
          /\ in_flight l' = match r with None => true | Some _ => in_flight l end
      | NextCallback => fun l r l' =>
          match r with
          | Some TimerFired => armed l = true /\ clock l + tick <= clock l' /\ armed l' = false /\ in_flight l' = in_flight l
          | Some (TransportSettled _) => in_flight l = true /\ clock l + tick <= clock l' /\ armed l' = armed l /\ in_flight l' = false
          | None => armed l = false /\ l' = l
          end
      | _ => fun l _ l' => passes l l'
      end
  end.

Definition returns {A} (m : CM A) (Q : A -> loop -> Prop) (s : ClientState) (l : loop) : Prop :=
  wp clock_step (m s) (fun p l' => match p.2 with Ok a => Q a l' | Err _ => True end) l.

Context (tick_pos : 0 < tick).

Lemma step_forward R (e : ClientEff R) l : forall r l', clock_step R e l r l' -> clock l <= clock l'.
Proof. destruct e as [j|[]]; cbn; unfold passes; intros r l' H; try lia. destruct r as [[|]|]; [lia..|]. by destruct H as [_ ->]. Qed.

Lemma wp_bind {A B} (p : proc ClientEff A) (f : A -> proc ClientEff B) Q l :
  wp clock_step p (fun a l' => wp clock_step (f a) Q l') l -> wp clock_step (pbind p f) Q l.
Proof. revert l. induction p as [a|R e k IH]; intros l; cbn; [done|]. eauto. Qed.

Lemma wp_mono {A} (p : proc ClientEff A) (Q Q' : A -> loop -> Prop) l :
  (forall a l', Q a l' -> Q' a l') -> wp clock_step p Q l -> wp clock_step p Q' l.
Proof. intros HQ. revert l. induction p as [a|R e k IH]; intros l; cbn; eauto. Qed.

Lemma returns_bind {A B} (R : A -> loop -> Prop) (Q : B -> loop -> Prop) (m : CM A) (f : A -> CM B) s l :
  returns m R s l -> (forall s' a l', R a l' -> returns (f a) Q s' l') -> returns (se_bind m f) Q s l.
Proof.
  intros Hm Hf. apply wp_bind. eapply wp_mono; [|exact Hm]. intros [s' [a|x]] l' H; cbn in *; [by apply Hf|done].
Qed.

(** Whatever a method does, the clock does not go back. *)
Lemma returns_any {A} (m : CM A) s l : returns m (fun _ l' => clock l <= clock l') s l.
Proof.
  unfold returns. assert (H : forall (p : proc ClientEff (ClientState * Result A thrown)) l0, clock l <= clock l0 ->
    wp clock_step p (fun a l' => match a.2 with Ok _ => clock l <= clock l' | Err _ => True end) l0).
  { induction p as [a|R e k IH]; intros l0 Hl; cbn; [by destruct a.2|]. intros r l' Hs. apply IH.
    apply step_forward in Hs. lia. }
  by apply H.
Qed.

Lemma returns_then {A B} (Q : B -> loop -> Prop) (m : CM A) (f : A -> CM B) s l :
  (forall s' a l', clock l <= clock l' -> returns (f a) Q s' l') -> returns (se_bind m f) Q s l.
Proof. intros H. eapply returns_bind; [apply returns_any|exact H]. Qed.

Lemma returns_ret {A} (Q : A -> loop -> Prop) a s l : Q a l -> returns (se_ret a) Q s l.
Proof. done. Qed.

(** One effect. *)
Lemma returns_own {R} (e : CallerEff R) (Q : R -> loop -> Prop) s l :
  (forall r l', clock_step R (inr e) l r l' -> Q r l') -> returns (own e) Q s l.
Proof. intros H r l' Hs. by apply H. Qed.

Lemma returns_clock (Q : Z -> loop -> Prop) s l : (forall l', passes l l' -> Q (clock l') l') -> returns (own NowNs) Q s l.
Proof. intros H. apply returns_own. intros r l' [Hl ->]. by apply H. Qed.

(** A started timer is armed. *)
Lemma returns_start origin deadline s l : returns (timer_start origin deadline) (fun _ l' => clock l <= clock l' /\ armed l' = true) s l.
Proof.
  unfold timer_start. destruct (deadline <? 0); [done|]. apply returns_then. intros s1 now l1 Hl1.
  apply returns_own. intros u l' (Hl & Ha & _). split; [lia|done].
Qed.

(** A firing reports the elapsed time, or leaves the deadline ahead and the timer armed again. *)
Definition checked (origin deadline : Z) (l : loop) (r : option Z) (l' : loop) : Prop :=
  r = None -> armed l' = true /\ exists now, clock l <= now <= clock l' /\ now - origin < deadline.

Lemma returns_check origin deadline s l : returns (timer_check origin deadline) (checked origin deadline l) s l.
Proof.
  eapply returns_bind; [apply (returns_clock (fun r l' => clock l <= clock l' /\ r = clock l')); by intros l' [? _]|]. intros s' now l1 [Hl1 ->]. cbn zeta.
  destruct (Z.ltb_spec (clock l1 - origin) deadline); [|by apply returns_ret].
  eapply (returns_bind (fun _ l' => clock l1 <= clock l' /\ armed l' = true)); [apply returns_own; by intros u l' (? & ? & _)|].
  intros s2 u l2 [Hl2 Ha]. apply returns_ret. intros _. split; [done|]. by exists (clock l1).
Qed.

(** The timer is armed, and with [n] callbacks left of which all but one cover what remains, one
    more is at hand after each that finds the deadline ahead. *)
Definition covered (n : nat) (origin deadline : Z) (l : loop) : Prop :=
  armed l = true /\ (1 <= n)%nat /\ deadline - (clock l - origin) <= (Z.of_nat n - 1) * tick.

Lemma covered_next n origin deadline l l1 l2 :
  covered (S n) origin deadline l -> clock l + tick <= clock l1 -> checked origin deadline l1 None l2 -> covered n origin deadline l2.
Proof.
  intros (_ & H1 & H2) Hl1 Hc. destruct (Hc eq_refl) as (Ha & now & Hnow & Hlt). split; [done|]. split; [destruct n; [nia|lia]|nia].
Qed.

(** While the timer is armed the loop runs a callback. *)
Lemma returns_callback s l : armed l = true -> returns (own NextCallback) (fun r l' => r <> None /\ clock l + tick <= clock l') s l.
Proof. intros Ha. apply returns_own. intros [[|a]|] l' H; cbn in H; [split; [done|lia]..|]. destruct H. congruence. Qed.

Lemma decide_ends race claimant m s l : arbiter race = None -> returns (decide_race race claimant m) (fun race' _ => decision race' <> None) s l.
Proof. intros Ha. unfold decide_race. rewrite Ha. cbn [claim]. apply returns_then. intros. by apply returns_ret. Qed.

Lemma race_loop_ends n deadline race s l :
  (decision race = None -> arbiter race = None) -> covered n (origin race) deadline l ->
  returns (race_loop n deadline race) (fun r _ => r <> None) s l.
Proof.
  revert race s l. induction n as [|n IH]; intros race s l Ha Hc; [by destruct Hc as (_ & ? & _); lia|]. cbn [race_loop].
  destruct (decision race) as [d|] eqn:Ed; [by apply returns_ret|]. specialize (Ha eq_refl).
  eapply returns_bind; [apply returns_callback, Hc|]. intros s1 [next|] l1 [Hn Hl1]; [clear Hn|done].
  apply (returns_bind (fun race' l' => decision race' <> None \/ (race' = race /\ covered n (origin race) deadline l'))).
  - destruct next as [|answer].
    + eapply returns_bind; [apply returns_check|]. intros s2 [e|] l2 Hf.
      * eapply wp_mono; [|by apply decide_ends]. intros [? []] ?; [|done]. by left.
      * apply returns_ret. right. split; [done|]. by eapply covered_next.
    + eapply wp_mono; [|apply returns_then; intros; by apply decide_ends]. intros [? []] ?; [|done]. by left.
  - intros s2 race' l2 [Hd|[-> Hc2]]; [|by apply IH]. destruct (decision race') eqn:E; [|done].
    destruct n; cbn [race_loop]; rewrite E; by apply returns_ret.
Qed.

Lemma late_loop_ends n graceOrigin grace origin s l :
  covered n graceOrigin grace l -> returns (late_loop n graceOrigin grace origin) (fun r _ => r <> None) s l.
Proof.
  revert s l. induction n as [|n IH]; intros s l Hc; [by destruct Hc as (_ & ? & _); lia|]. cbn [late_loop].
  eapply returns_bind; [apply returns_callback, Hc|]. intros s1 [[|answer]|] l1 [Hn Hl1]; [clear Hn..|done].
  - eapply returns_bind; [apply returns_check|]. intros s2 [e|] l2 Hf; [by apply returns_ret|].
    apply IH. by eapply covered_next.
  - repeat (apply returns_then; intros). by apply returns_ret.
Qed.

Section attempt.
Context (JSON_parse : string -> Result json string) (scope : JournalScope) (maxDefinitiveRetries : Z) (callbacks : nat).
Context (Hdeadline : deadline_ns <= (Z.of_nat callbacks - 1) * tick).

Lemma callbacks_cover origin deadline l : deadline <= deadline_ns -> 0 < deadline_ns -> origin <= clock l -> armed l = true ->
  covered callbacks origin deadline l.
Proof. intros H1 H2 H3 Ha. split; [done|]. split; [destruct callbacks; nia|nia]. Qed.

Lemma race_ends call s l : returns (raceTransportAgainstDeadline callbacks call deadline_ns) (fun r _ => r <> None) s l.
Proof.
  eapply returns_bind; [apply (returns_clock (fun r l' => r = clock l')); auto|]. intros s1 origin l1 ->.
  eapply returns_bind; [apply returns_start|]. intros s2 u l2 [Hl2 Ha2].
  eapply (returns_bind (fun _ l' => clock l2 <= clock l' /\ armed l' = armed l2)); [apply returns_own; by intros r l' (? & ? & _)|].
  intros s3 threw l3 [Hl3 Ha3]. cbn zeta.
  apply (returns_bind (fun r _ => r <> None)); [|intros s4 [d|] l4 Hd; [by apply returns_ret|done]].
  destruct threw as [x|].
  - apply (returns_bind (fun race' _ => decision race' <> None)); [|intros; by apply returns_ret].
    apply returns_then. intros. by apply decide_ends.
  - apply race_loop_ends; [done|]. apply callbacks_cover; [lia|done|cbn; lia|congruence].
Qed.

Lemma late_ends origin s l : returns (lateSettlementWithin callbacks origin late_settlement_grace_ns) (fun r _ => r <> None) s l.
Proof.
  eapply returns_bind; [apply (returns_clock (fun r l' => r = clock l')); auto|]. intros s1 g l1 ->.
  eapply returns_bind; [apply returns_start|]. intros s2 u l2 [Hl2 Ha2]. apply late_loop_ends, callbacks_cover; [done..|lia|done].
Qed.

Lemma dispatch_ends input c started at_ call s t :
  returns (dispatch JSON_parse callbacks input c started at_ call) (fun r _ => r <> None) s t.
Proof.
  eapply returns_bind; [apply race_ends|]. intros s1 [[og [result after|w]]|] t1 H; [by apply returns_ret| |done].
  apply returns_then. intros s2 now t2 _. apply returns_then. intros s3 rec t3 _. apply returns_then. intros s4 [e|x] t4 _; [|by apply returns_ret].
  apply (returns_bind (fun r _ => r <> None)); [|intros s5 [] t5 Hr; [by apply returns_ret|done]].
  eapply returns_bind; [apply late_ends|]. intros s6 [[late|]|] t6 Hl; [|by apply returns_ret|done].
  apply returns_then. intros. by apply returns_ret.
Qed.

Lemma resolve_ends input c registered s t :
  returns (resolve JSON_parse scope maxDefinitiveRetries callbacks input c registered) (fun r _ => r <> None) s t.
Proof.
  unfold resolve. destruct (buildProviderCall _ _ _) as [call|f]; [|apply returns_then; intros; by apply returns_ret].
  do 3 (apply returns_then; intros). apply returns_then. intros s1 [e|[]] t1 _; [apply dispatch_ends| |by apply returns_ret..].
  apply returns_then. intros. by apply returns_ret.
Qed.

(** C24: Every attempt ends. Let the clock never go back and the event loop take at least [tick] ns
    from one callback to the next; let only an armed timer fire, as early as it likes, and let the
    loop run no further callback when no timer is armed and the transport does not settle. Then,
    whatever the store, the transport and the rest of the world answer, and even if the transport
    never settles, the attempt is reported or throws within as many callbacks as ticks fit into the
    deadline, and one more: a timer is armed whenever it waits, so it is never left waiting for the
    transport, the deadline or the grace after it. *)
Theorem attempt_ends input s l s' r l' :
  exec clock_step (performAttempt JSON_parse scope maxDefinitiveRetries callbacks input s) l (s', r) l' -> r <> Ok None.
Proof.
  intros Hx. assert (H : returns (performAttempt JSON_parse scope maxDefinitiveRetries callbacks input) (fun r _ => r <> None) s l).
  { do 3 (apply returns_then; intros). cbn zeta. apply returns_then. intros s1 registered t1 _.
    eapply returns_bind; [apply resolve_ends|]. intros s2 [res|] t2 Hr; [|done].
    do 2 (apply returns_then; intros). by apply returns_ret. }
  apply (proj1 (wp_sound _ _ _ _) H) in Hx. cbn in Hx. destruct r; [|done]. congruence.
Qed.
End attempt.
End clock.

Lemma run_exec (estep : forall R, ClientEff R -> loop -> R -> loop -> Prop) (h : forall R, ClientEff R -> loop -> R * loop) :
  (forall R (e : ClientEff R) t, estep R e t (h R e t).1 (h R e t).2) ->
  forall A (p : proc ClientEff A) t, exec estep p t (run h p t).1 (run h p t).2.
Proof.
  intros Hh A p. induction p as [a|R e k IH]; intros t; cbn; [done|]. specialize (Hh R e t). destruct (h R e t) as [r t'].
  exists r, t'. split; [exact Hh|apply IH].
Qed.

(** A transport that never settles, a store that applies everything, one second from one
    callback to the next. *)
Definition silent (R : Type) (e : ClientEff R) : loop -> R * loop :=
  match e with
  | inl j =>
      match j in JournalEff R return loop -> R * loop with
      | PortAppend _ => fun l => (Ok applied, l)
      | ClockNow => fun l => (Some 1791201600000, l)
      | NextId => fun l => (ExchangeCorrect.demo_uuid, l)
      | CallerTransact _ _ => fun l => (applied, l)
      end
  | inr o =>
      match o in CallerEff R return loop -> R * loop with
      | TransactWrite _ _ => fun l => (Ok applied, l)
      | NextUuid => fun l => (ExchangeCorrect.demo_uuid, l)
      | WallNow => fun l => (Some 1791201600000, l)
      | NowNs => fun l => (clock l, l)
      | Schedule _ => fun l => (tt, MkLoop (clock l) true (in_flight l))
      | CancelTimer => fun l => (tt, MkLoop (clock l) false (in_flight l))
      | Invoke _ => fun l => (None, MkLoop (clock l) (armed l) true)
      | Abort => fun l => (tt, l)
      | NextCallback => fun l => if armed l then (Some TimerFired, MkLoop (clock l + 1000000000) false (in_flight l)) else (None, l)
      end
  end.

Lemma silent_step R (e : ClientEff R) l : clock_step 1000000000 R e l (silent R e l).1 (silent R e l).2.
Proof.
  destruct e as [[]|o]; [by split_and!..|]. destruct o; cbn; try by repeat split.
  destruct (armed l) eqn:Ea; cbn; split_and!; (done || lia).
Qed.

Definition demo_attempt :=
  run silent (performAttempt (ExchangeCorrect.parses "" JNull) ExchangeCorrect.demo_scope 2 4 ExchangeCorrect.demo_input
    (MkClient (MkDeps "conventional_caller" ExchangeCorrect.demo_uuid ExchangeCorrect.demo_scope 2) (MkWriter 1 None None None 0 0))) (MkLoop 0 false false).

(** The attempt times out: it is reported after three callbacks. *)
Lemma attempt_ends_witness : demo_attempt.1.2 <> Ok None /\ clock demo_attempt.2 = 5000000000.
Proof.
  split; [|vm_compute; reflexivity]. destruct demo_attempt.1 as [s r] eqn:E.
  apply (attempt_ends 1000000000 ltac:(lia) (ExchangeCorrect.parses "" JNull) ExchangeCorrect.demo_scope 2 4
    ltac:(vm_compute; discriminate) ExchangeCorrect.demo_input
    (MkClient (MkDeps "conventional_caller" ExchangeCorrect.demo_uuid ExchangeCorrect.demo_scope 2) (MkWriter 1 None None None 0 0)) (MkLoop 0 false false) s r demo_attempt.2).
  rewrite <-E. apply run_exec, silent_step.
Defined.
End ClientCorrect.
