(* ===== verification/Evidence.v ===== *)
(** * Evidence (src/study-1/src/evidence-ingestion/ and its readers)

    The evidence references of record-contract/evidence-refs.ts with their canonical
    order, the evidence model of evidence-ingestion/ingestion-model.ts as the oracle
    receives it, the assembly of a gate from its causes (gate-assessment.ts), the
    findings (ingestion-findings.ts), and the readers of subject artifacts and events
    (treatment-fidelity/subject-artifacts.ts, subject-events.ts,
    trial-oracle/oracle-inputs.ts).

    An event record is the JSON object ingestion read; a member the record type
    declares as a string, boolean or integer is read as one. Maps keep insertion
    order, as JavaScript's do. *)

From Stdlib Require Strings.Ascii.
From S2P Require Import Prelude Timestamps Decimals Store JsonText LeaseItem Journal Settlement ControlItems Acceptance.
Import (notations) Stdlib.Strings.Ascii.
Import Json JsonText.
Open Scope Z_scope.
#[local] Set Warnings "-register-all".

Module Evidence.

(** ** Evidence references *)

Record EvidenceRef := MkRef {
  ref_path : string;
  ref_sha256 : string;
  ref_event : option string;
  ref_pointer : option string;
  ref_index : option string;
}.

#[export] Instance EvidenceRef_eq_dec : EqDecision EvidenceRef.
Proof. solve_decision. Defined.

(** A comparator's negative, zero or positive number. *)
Definition compareOptional (a b : option string) : comparison :=
  match a, b with
  | None, None => Eq
  | None, Some _ => Lt
  | Some _, None => Gt
  | Some x, Some y => if bool_decide (x = y) then Eq else if String.ltb x y then Lt else Gt
  end.

(** The members in the order of [ORDER_KEYS]. *)
Definition ORDER_KEYS (r : EvidenceRef) : list (option string) :=
  [Some (ref_path r); Some (ref_sha256 r); ref_event r; ref_pointer r; ref_index r].

Fixpoint compare_keys (a b : list (option string)) : comparison :=
  match a, b with
  | x :: a', y :: b' => match compareOptional x y with Eq => compare_keys a' b' | c => c end
  | _, _ => Eq
  end.

Definition compareEvidenceRefs (a b : EvidenceRef) : comparison := compare_keys (ORDER_KEYS a) (ORDER_KEYS b).

Definition ref_le (a b : EvidenceRef) : bool := match compareEvidenceRefs a b with Gt => false | _ => true end.

Definition sortEvidenceRefs (refs : list EvidenceRef) : list EvidenceRef := isort ref_le refs.

(** One turn of the loop that keeps a reference unless it repeats the last one kept. *)
Definition push_unique (unique : list EvidenceRef) (r : EvidenceRef) : list EvidenceRef :=
  match last unique with
  | None => unique ++ [r]
  | Some previous => match compareEvidenceRefs previous r with Eq => unique | _ => unique ++ [r] end
  end.

Definition canonicalRefs (refs : list EvidenceRef) : list EvidenceRef :=
  fold_left push_unique (sortEvidenceRefs refs) [].

(** *** The rules of a result's references *)

Definition MISSING_EVIDENCE_REASON_CODES : list string :=
  ["ARTIFACT_MISSING"; "CAUSAL_PREDECESSOR_MISSING"; "INPUT_MISSING"].

Definition isMissingEvidenceReason (r : StructuredReason) : bool :=
  memb (code r) MISSING_EVIDENCE_REASON_CODES
  && (bool_decide (is_Some (artifact_path r)) || bool_decide (is_Some (event_id r))).

Inductive PreservationVerdict := v_pass | v_fail | v_indeterminate.

Definition validateResultReferences (result : PreservationVerdict) (refs : list EvidenceRef) (reasons : list StructuredReason) :
  list string :=
  match refs with
  | _ :: _ => []
  | [] =>
      match result with
      | v_indeterminate =>
          if (0 <? length reasons)%nat && forallb isMissingEvidenceReason reasons then []
          else ["EMPTY_WITHOUT_MISSING_EVIDENCE_REASON"]
      | _ => ["MISSING_REFERENCE_FOR_CONCLUSIVE_RESULT"]
      end
  end.

(** *** Artifact paths *)

Inductive PathViolation := ABSOLUTE_PATH | PARENT_TRAVERSAL | NON_NORMALIZED_PATH.

Definition is_letter (c : Ascii.ascii) : bool :=
  let n := Ascii.nat_of_ascii c in
  ((65 <=? n)%nat && (n <=? 90)%nat) || ((97 <=? n)%nat && (n <=? 122)%nat).

(** [/^[A-Za-z]:[/\\]/] *)
Definition WINDOWS_DRIVE_PATTERN (path : string) : bool :=
  match chars path with
  | l :: colon :: slash :: _ =>
      is_letter l && bool_decide (colon = ":"%char) && (bool_decide (slash = "/"%char) || bool_decide (slash = backslash))
  | _ => false
  end.

(** [path.split('/')] *)
Fixpoint split_slash (l : list Ascii.ascii) : list string :=
  match l with
  | [] => [""]
  | c :: l' =>
      if bool_decide (c = "/"%char) then "" :: split_slash l'
      else match split_slash l' with
           | s :: rest => String c s :: rest
           | [] => [String c ""]
           end
  end.

(** [/^\s|\s$/u] *)
Definition EDGE_WHITESPACE_PATTERN (s : string) : bool :=
  let bytes := map Ascii.nat_of_ascii (chars s) in
  existsb (Acceptance.starts_with bytes) Acceptance.WHITESPACE || existsb (Acceptance.ends_with bytes) Acceptance.WHITESPACE.

Definition isNonNormalized (path : string) (segments : list string) : bool :=
  memb backslash (chars path) || memb (Ascii.ascii_of_nat 0) (chars path) || EDGE_WHITESPACE_PATTERN path
  || existsb (fun s => bool_decide (s = "") || bool_decide (s = ".")) segments.

Definition classifyArtifactPath (path : string) : option PathViolation :=
  if bool_decide (head (chars path) = Some "/"%char) || WINDOWS_DRIVE_PATTERN path then Some ABSOLUTE_PATH
  else
    let segments := split_slash (chars path) in
    if memb ".." segments then Some PARENT_TRAVERSAL
    else if isNonNormalized path segments then Some NON_NORMALIZED_PATH
    else None.

(** ** Vocabularies *)

Inductive GateId :=
| independent_oracle | traceability | identity_integrity | control_integrity | treatment_fidelity
| ledger_access | settlement | rule_evidence | evidence_integrity.

#[export] Instance GateId_eq_dec : EqDecision GateId.
Proof. solve_decision. Defined.

Definition gate_text (g : GateId) : string :=
  match g with
  | independent_oracle => "independent_oracle" | traceability => "traceability"
  | identity_integrity => "identity_integrity" | control_integrity => "control_integrity"
  | treatment_fidelity => "treatment_fidelity" | ledger_access => "ledger_access"
  | settlement => "settlement" | rule_evidence => "rule_evidence" | evidence_integrity => "evidence_integrity"
  end.

Inductive GateValue := verified | invalid | unverified | not_applicable.

#[export] Instance GateValue_eq_dec : EqDecision GateValue.
Proof. solve_decision. Defined.

Definition value_text (v : GateValue) : string :=
  match v with
  | verified => "verified" | invalid => "invalid" | unverified => "unverified" | not_applicable => "not_applicable"
  end.

Inductive RuleOutcome := pass | fail | indeterminate | rule_not_applicable.

#[export] Instance RuleOutcome_eq_dec : EqDecision RuleOutcome.
Proof. solve_decision. Defined.

Inductive IngestionFindingCode :=
| EQUIVALENT_DUPLICATE_COLLAPSED | CONFLICTING_EVENT_CONTENT | CONFLICTING_SOURCE_SEQUENCE | SOURCE_SEQUENCE_GAP
| CAUSAL_PREDECESSOR_MISSING | DUPLICATE_LEDGER_TRANSACTION_ID | LEDGER_PAGINATION_INCOMPLETE
| CORE_FILE_DIGEST_MISMATCH | ARTIFACT_MISSING | ARTIFACT_UNPARSEABLE | RECORD_SCHEMA_INVALID
| CORRELATION_MISSING | LEDGER_LARGER_THAN_EXPECTED.

#[export] Instance IngestionFindingCode_eq_dec : EqDecision IngestionFindingCode.
Proof. solve_decision. Defined.

Definition finding_code_text (c : IngestionFindingCode) : string :=
  match c with
  | EQUIVALENT_DUPLICATE_COLLAPSED => "EQUIVALENT_DUPLICATE_COLLAPSED"
  | CONFLICTING_EVENT_CONTENT => "CONFLICTING_EVENT_CONTENT"
  | CONFLICTING_SOURCE_SEQUENCE => "CONFLICTING_SOURCE_SEQUENCE"
  | SOURCE_SEQUENCE_GAP => "SOURCE_SEQUENCE_GAP"
  | CAUSAL_PREDECESSOR_MISSING => "CAUSAL_PREDECESSOR_MISSING"
  | DUPLICATE_LEDGER_TRANSACTION_ID => "DUPLICATE_LEDGER_TRANSACTION_ID"
  | LEDGER_PAGINATION_INCOMPLETE => "LEDGER_PAGINATION_INCOMPLETE"
  | CORE_FILE_DIGEST_MISMATCH => "CORE_FILE_DIGEST_MISMATCH"
  | ARTIFACT_MISSING => "ARTIFACT_MISSING"
  | ARTIFACT_UNPARSEABLE => "ARTIFACT_UNPARSEABLE"
  | RECORD_SCHEMA_INVALID => "RECORD_SCHEMA_INVALID"
  | CORRELATION_MISSING => "CORRELATION_MISSING"
  | LEDGER_LARGER_THAN_EXPECTED => "LEDGER_LARGER_THAN_EXPECTED"
  end.

(** ** Ingested evidence *)

Inductive ArtifactOrigin := subject_origin | supplementary | execution_scope.
Inductive RecordValidity := valid_record | schema_invalid | correlation_missing.
Inductive ParseStatus := parsed | unparseable.
Inductive ArtifactRequirement := required | conditional | optional_artifact.

#[export] Instance ArtifactOrigin_eq_dec : EqDecision ArtifactOrigin.
Proof. solve_decision. Defined.
#[export] Instance RecordValidity_eq_dec : EqDecision RecordValidity.
Proof. solve_decision. Defined.
#[export] Instance ParseStatus_eq_dec : EqDecision ParseStatus.
Proof. solve_decision. Defined.
#[export] Instance ArtifactRequirement_eq_dec : EqDecision ArtifactRequirement.
Proof. solve_decision. Defined.

Record ExpectedArtifact := MkExpected {
  x_path : string;
  x_class : string;
  x_requirement : ArtifactRequirement;
}.

Record IngestedRecord := MkIngestedRecord {
  ir_line : option Z;
  ir_value : json;
  ir_validity : RecordValidity;
}.

Record IngestedArtifact := MkArtifact {
  a_path : string;
  a_sha256 : string;
  a_origin : ArtifactOrigin;
  a_class : option string;
  a_requirement : option ArtifactRequirement;
  a_parse_status : ParseStatus;
  a_records : list IngestedRecord;
}.

Record IngestionFinding := MkFinding {
  f_code : IngestionFindingCode;
  f_subject : string;
  f_path : option string;
  f_event : option string;
  f_instance : option string;
  f_detail : string;
  f_occurrences : Z;
}.

Record LocatedRecord (T : Type) := MkLocated {
  l_record : T;
  l_path : string;
  l_sha256 : string;
}.
Arguments MkLocated {T} _ _ _.
Arguments l_record {T} _.
Arguments l_path {T} _.
Arguments l_sha256 {T} _.

Record IndexedEvent := MkEvent {
  ev_record : list (string * json);
  ev_path : string;
  ev_sha256 : string;
  ev_line : option Z;
  ev_origin : ArtifactOrigin;
  ev_partition : string;
  ev_copies : Z;
}.

Record SourceInstanceView := MkInstance {
  si_key : string;
  si_source : string;
  si_source_instance_id : string;
  si_max_sequence : Z;
  si_missing_sequences : Z;
  si_conflicting_sequences : Z;
  si_gapped : bool;
}.

Record EventIndex := MkIndex {
  i_by_id : list (string * IndexedEvent);
  i_instances : list (string * SourceInstanceView);
  i_conflicting_event_ids : list string;
  i_subject : list IndexedEvent;
  i_unresolved_causation : list (string * list string);
}.

Record LedgerTransaction := MkTransaction {
  tx_provider_transaction_id : string;
  tx_provider_commit_id : string;
  tx_provider_call_id : string;
  tx_attempt_id : string;
  tx_provider_request_id : string;
  tx_refund_request_id : string;
  tx_payment_id : string;
  tx_amount_minor : Z;
  tx_currency : string;
  tx_status : string;
}.

Record LedgerPage := MkPage {
  pg_number : Z;
  pg_start_cursor : option string;
  pg_next_cursor : option string;
  pg_item_count : Z;
}.

Record LedgerSnapshot := MkSnapshot {
  ls_writer : string;
  ls_consistent_read : bool;
  ls_captured_at : string;
  ls_complete : bool;
  ls_pages : list LedgerPage;
  ls_transactions : list LedgerTransaction;
}.

Inductive LedgerStatus := ledger_present | ledger_missing | ledger_unusable.

#[export] Instance LedgerStatus_eq_dec : EqDecision LedgerStatus.
Proof. solve_decision. Defined.

Record LedgerView := MkLedgerView {
  lv_status : LedgerStatus;
  lv_snapshot : option (LocatedRecord LedgerSnapshot);
  lv_transactions : list LedgerTransaction;
  lv_duplicate_transaction_ids : list string;
  lv_pagination_complete : bool;
  lv_pagination_problems : list string;
}.

Record Payment := MkPaymentDocument { pay_payment_id : string; pay_captured_amount_minor : Z; pay_currency : string }.

Record ApprovedDecision := MkDecision {
  dec_refund_request_id : string;
  dec_payment_id : string;
  dec_approved_amount_minor : Z;
  dec_currency : string;
}.

(** [item_present: false] is [None]. *)
Record TreatmentStateSnapshot := MkTreatmentSnapshot {
  ts_consistent_read : bool;
  ts_treatment : option ControlItems.TreatmentItem;
}.

Record DlqMessage := MkDlqMessage { dm_message_id : string; dm_body_sha256 : string }.
Record DurableExecution := MkDurableExecution { de_arn : string; de_status : string }.

Record ObservationView := MkObservations {
  o_payment : option (LocatedRecord Payment);
  o_approved_decision : option (LocatedRecord ApprovedDecision);
  o_provider_configuration : option (LocatedRecord ControlItems.Scenario);
  o_treatment_snapshot : option (LocatedRecord TreatmentStateSnapshot);
  o_dlq_snapshot : option (LocatedRecord (list DlqMessage));
  o_durable_executions : option (LocatedRecord (list DurableExecution));
  o_settlement_samples : list (LocatedRecord Settlement.SettlementSample);
}.

Record SubjectTrial := MkSubjectTrial {
  st_trial_id : string;
  st_trial_manifest_sha256 : string;
  st_variant_id : string;
  st_scenario : ControlItems.Scenario;
}.

Inductive SubjectKind := trial_subject | probe_subject.

#[export] Instance SubjectKind_eq_dec : EqDecision SubjectKind.
Proof. solve_decision. Defined.

Record EvidenceScope := MkEvidenceScope {
  sc_subject_kind : SubjectKind;
  sc_execution : option Journal.ExecutionIdentity;
  sc_execution_manifest_sha256 : option string;
  sc_trial : option SubjectTrial;
  sc_reevaluation : bool;
}.

Record IdentityCollision := MkCollision {
  ic_kind : string;
  ic_id : string;
  ic_origin_event_ids : list string;
  ic_partitions : list string;
  ic_refs : list EvidenceRef;
}.

Record IdentityRegistry := MkRegistry {
  ri_caller_collisions : list IdentityCollision;
  ri_provider_collisions : list IdentityCollision;
  ri_unregistered_attempts : list (string * EvidenceRef);
}.

Record IngestedEvidence := MkEvidence {
  scope : EvidenceScope;
  expected : list ExpectedArtifact;
  artifacts : list (string * IngestedArtifact);
  events : EventIndex;
  ledger : LedgerView;
  observations : ObservationView;
  identities : IdentityRegistry;
  findings : list IngestionFinding;
  indexed_digests : option (list (string * string));
}.

(** [map.get(key)] *)
Fixpoint map_get {V} (key : string) (m : list (string * V)) : option V :=
  match m with
  | [] => None
  | (k, v) :: m' => if bool_decide (k = key) then Some v else map_get key m'
  end.

(** [[...evidence.artifacts.values()]] *)
Definition artifact_values (e : IngestedEvidence) : list IngestedArtifact := map snd (artifacts e).

(** ** Findings *)

Definition AGGREGATED_FIRST_LIMIT : nat := 150.

Definition aggregatedDetail (first : string) (occurrences : Z) : string :=
  let described := boundedText first AGGREGATED_FIRST_LIMIT in
  if occurrences >? 1 then described +:+ " (and " +:+ string_of_Z (occurrences - 1) +:+ " more)" else described.

Definition FINDING_SUBJECTS (c : IngestionFindingCode) : string :=
  match c with
  | ARTIFACT_MISSING => "BR-RUA-037"
  | ARTIFACT_UNPARSEABLE | RECORD_SCHEMA_INVALID => "BR-RUA-033"
  | CORRELATION_MISSING => "BR-RUA-008"
  | _ => "BR-RUA-034"
  end.

Definition ingestionFinding (c : IngestionFindingCode) (d : string) (path event instance : option string)
    (occurrences : Z) : IngestionFinding :=
  MkFinding c (FINDING_SUBJECTS c)
    match path with
    | Some p => if negb (bool_decide (p = "")) && bool_decide (classifyArtifactPath p = None) then Some p else None
    | None => None
    end
    match event with Some i => if Identifiers.isUuid4 i then Some i else None | None => None end
    instance (boundedText d QUOTED_JSON_LIMIT) occurrences.

Definition findingReason (f : IngestionFinding) : StructuredReason :=
  MkReason (finding_code_text (f_code f)) (f_subject f) (f_path f) (f_event f) (f_detail f).

(** ** Gates *)

Inductive CauseValue := cause_invalid | cause_unverified.

#[export] Instance CauseValue_eq_dec : EqDecision CauseValue.
Proof. solve_decision. Defined.

Definition gate_value (c : CauseValue) : GateValue :=
  match c with cause_invalid => invalid | cause_unverified => unverified end.

Record GateCause := MkCause {
  cause_value : CauseValue;
  cause_reason : StructuredReason;
  cause_refs : list EvidenceRef;
}.

(** [GateAssessment] of the ingestion model and [ValidityGate] of the oracle result. *)
Record GateAssessment := MkGate {
  gate : GateId;
  value : GateValue;
  reasons : list StructuredReason;
  gate_refs : list EvidenceRef;
}.

Definition artifactRef (a : IngestedArtifact) : EvidenceRef := MkRef (a_path a) (a_sha256 a) None None None.

Definition eventString (e : IndexedEvent) (field : string) : option string := as_string (member field (ev_record e)).

(** The [event_id] every event record carries. *)
Definition event_id_of (e : IndexedEvent) : string := nullish (eventString e "event_id") "".

Definition eventRef (e : IndexedEvent) : EvidenceRef :=
  MkRef (ev_path e) (ev_sha256 e) (Some (event_id_of e)) None None.

Definition ownString (v : json) (field : string) : option string :=
  match v with JObj m => as_string (member field m) | _ => None end.

Definition recordRef (a : IngestedArtifact) (r : IngestedRecord) : EvidenceRef :=
  match ownString (ir_value r) "event_id" with
  | Some i => if Identifiers.isUuid4 i then MkRef (a_path a) (a_sha256 a) (Some i) None None else artifactRef a
  | None => artifactRef a
  end.

Definition reasonAt (s c d : string) (ref : option EvidenceRef) : StructuredReason :=
  MkReason c s (match ref with Some r => Some (ref_path r) | None => None end)
    (match ref with Some r => ref_event r | None => None end) d.

Definition uniqueRefs (refs : list EvidenceRef) : list EvidenceRef :=
  fold_left push_unique (sortEvidenceRefs refs) [].

(** The merge key [JSON.stringify([reason.code, reason.artifact_path ?? ''])] as the
    pair it spells. *)
Definition merge_key (r : StructuredReason) : string * string := (code r, nullish (artifact_path r) "").

Fixpoint add_to_group (r : StructuredReason) (groups : list (StructuredReason * Z)) : list (StructuredReason * Z) :=
  match groups with
  | [] => [(r, 1)]
  | (head, count) :: rest =>
      if bool_decide (merge_key head = merge_key r) then (head, count + 1) :: rest
      else (head, count) :: add_to_group r rest
  end.

Definition NUL : string := String (Ascii.ascii_of_nat 0) "".

Definition reason_key (r : StructuredReason) : string :=
  str_join NUL [code r; nullish (artifact_path r) ""; nullish (event_id r) ""; detail r].

(** [compareReasons(a, b) < 0] or equal keys; merged reasons differ in code or path. *)
Definition compareReasons (a b : StructuredReason) : bool := String.leb (reason_key a) (reason_key b).

Definition set_detail (d : string) (r : StructuredReason) : StructuredReason :=
  MkReason (code r) (subject r) (artifact_path r) (event_id r) d.

Definition mergeReasons (rs : list StructuredReason) : list StructuredReason :=
  let groups := fold_left (fun acc r => add_to_group r acc) rs [] in
  isort compareReasons
    (map (fun '(head, count) => if count =? 1 then head else set_detail (aggregatedDetail (detail head) count) head) groups).

Definition is_invalid_cause (c : GateCause) : bool := bool_decide (cause_value c = cause_invalid).

Definition assembleGate (g : GateId) (causes : list GateCause) (verifiedRefs : list EvidenceRef) : GateAssessment :=
  let invalids := List.filter is_invalid_cause causes in
  let deciding := match invalids with [] => causes | _ => invalids end in
  match deciding with
  | [] => MkGate g verified [] (uniqueRefs verifiedRefs)
  | first :: _ =>
      MkGate g (gate_value (cause_value first)) (mergeReasons (map cause_reason deciding))
        (uniqueRefs (flat_map cause_refs deciding))
  end.

(** ** Subject events *)

Definition EXECUTION_PARTITION : string := "execution".

Definition CALLER_EVENT_SOURCES : list string := ["conventional_caller"; "durable_caller"; "probe_caller"].

Definition subjectPartition (e : IngestedEvidence) : string :=
  match sc_trial (scope e) with Some t => st_trial_id t | None => EXECUTION_PARTITION end.

Definition partitionEvents (e : IngestedEvidence) : list IndexedEvent :=
  List.filter (fun ev => bool_decide (ev_partition ev = subjectPartition e)) (i_subject (events e)).

Definition eventsOfType (evs : list IndexedEvent) (type : string) : list IndexedEvent :=
  List.filter (fun ev => bool_decide (eventString ev "record_type" = Some type)) evs.

Definition isCallerEvent (ev : IndexedEvent) : bool :=
  match eventString ev "source" with Some s => memb s CALLER_EVENT_SOURCES | None => false end.

(** The strings of a member the record type declares as an array of strings. *)
Definition eventStrings (ev : IndexedEvent) (field : string) : list string :=
  match member field (ev_record ev) with Some (JArr items) => omap (fun v => as_string (Some v)) items | _ => [] end.

Definition eventInt (ev : IndexedEvent) (field : string) : Z :=
  nullish (as_safe_integer (member field (ev_record ev))) 0.

Definition eventBool (ev : IndexedEvent) (field : string) : bool :=
  bool_decide (match member field (ev_record ev) with Some (JBool b) => Some b | _ => None end = Some true).

Definition causedBy (later earlier : IndexedEvent) : bool :=
  memb (event_id_of earlier) (eventStrings later "causation_event_ids").

(** ** Subject artifacts *)

Definition unitDirectory (trial : option SubjectTrial) : string :=
  match trial with Some t => "trials/" +:+ st_trial_id t | None => "probe" end.

Definition UNIT_PATHS (artifact_class : string) : option string :=
  map_get artifact_class
    [("caller_journal", "journals/caller-journal.jsonl"); ("provider_journal", "journals/provider-journal.jsonl");
     ("controller_journal", "journals/controller-journal.jsonl"); ("ledger_snapshot", "ledger/ledger-snapshot.json");
     ("settlement_samples", "settlement/settlement-samples.jsonl");
     ("provider_trial_configuration", "state/provider-trial-configuration.json");
     ("treatment_state_snapshot", "state/treatment-state-snapshot.json");
     ("payment", "inputs/payment.json"); ("approved_decision", "inputs/approved-decision.json")].

Definition RUNNER_JOURNAL : string := "runner/runner-journal.jsonl".

Definition expectedPath (e : IngestedEvidence) (artifactClass : string) : string :=
  match find_first (fun x => bool_decide (x_class x = artifactClass)) (expected e) with
  | Some x => x_path x
  | None =>
      match UNIT_PATHS artifactClass with
      | None => RUNNER_JOURNAL
      | Some file => unitDirectory (sc_trial (scope e)) +:+ "/" +:+ file
      end
  end.

Record SubjectArtifactState := MkState {
  as_class : string;
  as_path : string;
  as_ref : option EvidenceRef;
  complete : bool;
}.

Definition BENIGN_CODES : list IngestionFindingCode := [EQUIVALENT_DUPLICATE_COLLAPSED; LEDGER_LARGER_THAN_EXPECTED].

Definition hasIncompletenessFinding (fs : list IngestionFinding) (a : IngestedArtifact) : bool :=
  existsb (fun f => bool_decide (f_path f = Some (a_path a)) && negb (memb (f_code f) BENIGN_CODES)
                    && negb (bool_decide (f_code f = CAUSAL_PREDECESSOR_MISSING))) fs.

Definition is_subject_class (artifactClass : string) (a : IngestedArtifact) : bool :=
  bool_decide (a_origin a = subject_origin) && bool_decide (a_class a = Some artifactClass).

Definition subjectArtifactState (e : IngestedEvidence) (artifactClass : string) : SubjectArtifactState :=
  match find_first (is_subject_class artifactClass) (artifact_values e) with
  | None => MkState artifactClass (expectedPath e artifactClass) None false
  | Some a =>
      MkState artifactClass (a_path a) (Some (artifactRef a))
        (bool_decide (a_parse_status a = parsed) && negb (hasIncompletenessFinding (findings e) a))
  end.

Definition incompleteArtifactReason (state : SubjectArtifactState) (s : string) : StructuredReason :=
  match as_ref state with
  | None => MkReason "ARTIFACT_MISSING" s (Some (as_path state)) None
              (as_path state +:+ " is absent; expected the " +:+ as_class state +:+ " of the evaluated subject")
  | Some _ => MkReason "ARTIFACT_INCOMPLETE" s (Some (as_path state)) None
                (as_path state +:+ " is gapped, conflicting or unreadable; expected a complete " +:+ as_class state)
  end.

Definition affectingFindings (fs : list IngestionFinding) (refs : list EvidenceRef) : list IngestionFinding :=
  List.filter (fun f =>
    if memb (f_code f) BENIGN_CODES then false
    else match f_event f with
         | None => match f_path f with Some p => memb p (map ref_path refs) | None => false end
         | Some i => memb i (omap ref_event refs)
         end) fs.

(** ** Business inputs *)

Record BusinessInputState (T : Type) := MkInput {
  in_class : string;
  in_path : string;
  in_ref : option EvidenceRef;
  in_record : option T;
}.
Arguments MkInput {T} _ _ _ _.
Arguments in_class {T} _.
Arguments in_path {T} _.
Arguments in_ref {T} _.
Arguments in_record {T} _.

Definition inputState {T} (e : IngestedEvidence) (artifactClass : string) (record : option T) : BusinessInputState T :=
  let artifact := find_first (is_subject_class artifactClass) (artifact_values e) in
  MkInput artifactClass
    (match artifact with Some a => a_path a | None => expectedPath e artifactClass end)
    (option_map artifactRef artifact) record.

Record BusinessInputs := MkInputs {
  in_payment : BusinessInputState Payment;
  in_decision : BusinessInputState ApprovedDecision;
}.

Definition businessInputs (e : IngestedEvidence) : BusinessInputs :=
  MkInputs (inputState e "payment" (option_map l_record (o_payment (observations e))))
           (inputState e "approved_decision" (option_map l_record (o_approved_decision (observations e)))).

Definition inputMissingReason {T} (state : BusinessInputState T) (s : string) : StructuredReason :=
  MkReason "INPUT_MISSING" s (Some (in_path state)) None
    (in_path state +:+ " has no usable " +:+ in_class state +:+ "; expected the trial's " +:+ in_class state +:+ " document").

(** [cond === undefined ? [] : [cond]] *)
Definition opt_list {A} (o : option A) : list A := match o with Some a => [a] | None => [] end.

(** JSON values of optional parts: [x ?? null]. *)
Definition opt_json (o : option string) : json := match o with Some s => JStr s | None => JNull end.
Definition raw_json (o : option json) : json := nullish o JNull.
Definition int_json (z : Z) : json := JNum (JSInt z).
Definition count_json {A} (l : list A) : json := int_json (Z.of_nat (length l)).
Definition read (o : option IndexedEvent) (field : string) : option json :=
  match o with Some ev => member field (ev_record ev) | None => None end.

(** ** The canonical order *)

Lemma string_compare_trans a b c :
  String.compare a b <> Gt -> String.compare b c <> Gt -> String.compare a c <> Gt.
Proof.
  assert (H : forall x y, String.compare x y <> Gt <-> String.leb x y = true).
  { intros x y. unfold String.leb. destruct (String.compare x y); naive_solver. }
  rewrite !H. apply leb_trans.
Qed.

Lemma string_compare_refl a : String.compare a a = Eq.
Proof. pose proof (String.compare_antisym a a) as H. by destruct (String.compare a a). Qed.

Lemma compareOptional_alt a b :
  compareOptional a b = match a, b with
                        | None, None => Eq | None, Some _ => Lt | Some _, None => Gt
                        | Some x, Some y => String.compare x y
                        end.
Proof.
  destruct a as [x|], b as [y|]; simpl; try done. case_bool_decide as E.
  - subst. by rewrite string_compare_refl.
  - unfold String.ltb. destruct (String.compare x y) eqn:Hc; [|done|done].
    by apply String.compare_eq_iff in Hc.
Qed.

Lemma compareOptional_eq a b : compareOptional a b = Eq <-> a = b.
Proof.
  rewrite compareOptional_alt. destruct a, b; try (split; congruence).
  split; [by intros ->%String.compare_eq_iff|]. intros [= ->]. apply string_compare_refl.
Qed.

Lemma compareOptional_opp a b : compareOptional b a = CompOpp (compareOptional a b).
Proof. rewrite !compareOptional_alt. destruct a, b; try done. apply String.compare_antisym. Qed.

Lemma compareOptional_trans a b c :
  compareOptional a b <> Gt -> compareOptional b c <> Gt -> compareOptional a c <> Gt.
Proof. rewrite !compareOptional_alt. destruct a, b, c; try done. apply string_compare_trans. Qed.

Lemma compare_keys_eq a b : length a = length b -> compare_keys a b = Eq <-> a = b.
Proof.
  revert b. induction a as [|x a IH]; intros [|y b]; simpl; try done; intros [= Hl].
  destruct (compareOptional x y) eqn:E.
  - apply compareOptional_eq in E as ->. rewrite (IH _ Hl). split; congruence.
  - split; [done|]. intros [= -> ->]. by rewrite (proj2 (compareOptional_eq y y) eq_refl) in E.
  - split; [done|]. intros [= -> ->]. by rewrite (proj2 (compareOptional_eq y y) eq_refl) in E.
Qed.

Lemma compare_keys_opp a b : compare_keys b a = CompOpp (compare_keys a b).
Proof.
  revert b. induction a as [|x a IH]; intros [|y b]; simpl; try done.
  rewrite compareOptional_opp. destruct (compareOptional x y); simpl; done.
Qed.

Lemma compare_keys_trans a b c : length a = length b -> length b = length c ->
  compare_keys a b <> Gt -> compare_keys b c <> Gt -> compare_keys a c <> Gt.
Proof.
  revert b c. induction a as [|x a IH]; intros [|y b] [|z c]; simpl; try done. intros [= H1] [= H2] Ha Hb.
  pose proof (compareOptional_trans x y z) as Ht.
  destruct (compareOptional x y) eqn:E1; [|clear Ha|done].
  - apply compareOptional_eq in E1 as ->. destruct (compareOptional y z) eqn:E2; try done. eauto.
  - destruct (compareOptional y z) eqn:E2; [|clear Hb|done].
    + apply compareOptional_eq in E2 as ->. by rewrite E1.
    + destruct (compareOptional x z) eqn:E3; [|done|]; [|by exfalso; apply Ht].
      apply compareOptional_eq in E3 as ->. rewrite compareOptional_opp, E2 in E1. done.
Qed.

Lemma compare_refs_eq a b : compareEvidenceRefs a b = Eq <-> a = b.
Proof.
  unfold compareEvidenceRefs. rewrite compare_keys_eq by done.
  destruct a, b; unfold ORDER_KEYS; simpl; split; congruence.
Qed.

Definition ref_lt (a b : EvidenceRef) : Prop := compareEvidenceRefs a b = Lt.

Lemma ref_le_trans a b c : ref_le a b = true -> ref_le b c = true -> ref_le a c = true.
Proof.
  assert (H : forall x y, ref_le x y = true <-> compareEvidenceRefs x y <> Gt).
  { intros x y. unfold ref_le. destruct (compareEvidenceRefs x y); naive_solver. }
  rewrite !H. by apply compare_keys_trans.
Qed.

Lemma ref_le_total a b : ref_le a b = true \/ ref_le b a = true.
Proof.
  unfold ref_le, compareEvidenceRefs. rewrite (compare_keys_opp (ORDER_KEYS a)).
  destruct (compare_keys (ORDER_KEYS a) (ORDER_KEYS b)); simpl; auto.
Qed.

Lemma ref_le_cases a b : ref_le a b = true -> a = b \/ ref_lt a b.
Proof.
  unfold ref_le, ref_lt. destruct (compareEvidenceRefs a b) eqn:E; try done; [|auto].
  apply compare_refs_eq in E. auto.
Qed.

Lemma ref_lt_le a b c : ref_lt a b -> ref_le b c = true -> ref_lt a c.
Proof.
  intros H1 H2. destruct (ref_le_cases a c) as [->|]; [|subst|done].
  - apply ref_le_trans with b; [|done]. unfold ref_le. by rewrite H1.
  - unfold ref_lt in H1. unfold ref_le, compareEvidenceRefs in H2.
    unfold compareEvidenceRefs in H1. by rewrite (compare_keys_opp (ORDER_KEYS c)), H1 in H2.
Qed.

Lemma push_unique_fold l : forall acc,
  StronglySorted ref_lt acc -> StronglySorted (fun a b => ref_le a b = true) l ->
  (forall x y, x ∈ acc -> y ∈ l -> ref_le x y = true) ->
  StronglySorted ref_lt (fold_left push_unique l acc)
  /\ (forall r, r ∈ fold_left push_unique l acc <-> r ∈ acc \/ r ∈ l).
Proof.
  induction l as [|r l IH]; intros acc Hacc Hl Hle; simpl; [split; [done|set_solver]|].
  apply StronglySorted_inv in Hl as [Hl Hr]. rewrite Forall_forall in Hr.
  assert (Happ : (forall x, x ∈ acc -> ref_lt x r) ->
    StronglySorted ref_lt (fold_left push_unique l (acc ++ [r]))
    /\ (forall x, x ∈ fold_left push_unique l (acc ++ [r]) <-> x ∈ acc \/ x ∈ r :: l)).
  { intros Hx. destruct (IH (acc ++ [r])) as [Hs He]; [| done | set_solver |].
    - clear -Hacc Hx. induction Hacc as [|a acc Hs IH Ha]; simpl; [repeat constructor|].
      constructor; [apply IH; set_solver|]. rewrite Forall_app. split; [done|].
      constructor; [apply Hx; left|constructor].
    - split; [done|]. intros x. rewrite He. set_solver. }
  unfold push_unique at 2 4. destruct (last acc) as [p|] eqn:Hlast.
  - apply last_Some in Hlast as [acc' ->].
    destruct (ref_le_cases p r) as [->|Hlt]; [apply Hle; set_solver| |].
    + rewrite (proj2 (compare_refs_eq r r) eq_refl).
      destruct (IH (acc' ++ [r])) as [Hs He]; [done|done|set_solver|]. split; [done|]. intros x. rewrite He. set_solver.
    + rewrite Hlt. apply Happ. intros x [Hx| ->%list_elem_of_singleton]%elem_of_app; [|done].
      apply ref_lt_le with p; [|by unfold ref_le; rewrite Hlt].
      clear -Hacc Hx. induction acc' as [|a acc' IH]; [set_solver|]. simpl in Hacc.
      apply StronglySorted_inv in Hacc as [Hs Ha]. rewrite Forall_app in Ha.
      apply elem_of_cons in Hx as [->|Hx]; [by inversion_clear Ha as [? [Hp]%Forall_cons]|auto].
  - apply last_None in Hlast as ->. apply Happ. set_solver.
Qed.

(** Canonical references are strictly sorted, so without repeats, and are the given ones. *)
Lemma canonical_refs refs :
  StronglySorted ref_lt (canonicalRefs refs) /\ (forall r, r ∈ canonicalRefs refs <-> r ∈ refs).
Proof.
  destruct (push_unique_fold (sortEvidenceRefs refs) []) as [Hs He]; [constructor| |set_solver|].
  - apply isort_sorted; eauto using ref_le_trans, ref_le_total.
  - split; [done|]. intros r. rewrite (He r). unfold sortEvidenceRefs. rewrite isort_elem. set_solver.
Qed.

Lemma canonicalRefs_nil refs : canonicalRefs refs = [] <-> refs = [].
Proof.
  destruct (canonical_refs refs) as [_ H]. split.
  - intros E. rewrite E in H. destruct refs as [|r refs]; [done|]. specialize (H r). set_solver.
  - intros ->. destruct (canonicalRefs []) as [|r l]; [done|]. specialize (H r). set_solver.
Qed.

Lemma uniqueRefs_canonical refs : uniqueRefs refs = canonicalRefs refs.
Proof. done. Qed.

(** ** Merged reasons *)

Lemma add_to_group_keys r groups :
  NoDup (map (merge_key ∘ fst) groups) ->
  NoDup (map (merge_key ∘ fst) (add_to_group r groups))
  /\ (forall k, k ∈ map (merge_key ∘ fst) (add_to_group r groups) <-> k = merge_key r \/ k ∈ map (merge_key ∘ fst) groups).
Proof.
  induction groups as [|[h n] groups IH]; simpl; intros Hn.
  { split; [apply NoDup_singleton|set_solver]. }
  apply NoDup_cons in Hn as [Hh Hn]. destruct (IH Hn) as [Hn' Hk]. clear IH.
  case_bool_decide as E; simpl.
  - split; [by apply NoDup_cons|]. intros k. rewrite <- E. set_solver.
  - split; [|intros k; rewrite !elem_of_cons, (Hk k); tauto].
    apply NoDup_cons. split; [|done]. rewrite Hk. intros [?|?]; done.
Qed.

Lemma groups_keys rs : forall groups, NoDup (map (merge_key ∘ fst) groups) ->
  let merged := fold_left (fun acc r => add_to_group r acc) rs groups in
  NoDup (map (merge_key ∘ fst) merged)
  /\ (forall k, k ∈ map (merge_key ∘ fst) merged <-> k ∈ map (merge_key ∘ fst) groups \/ k ∈ map merge_key rs).
Proof.
  induction rs as [|r rs IH]; intros groups Hn; simpl; [split; [done|set_solver]|].
  destruct (add_to_group_keys r groups Hn) as [Hn' Hk]. destruct (IH _ Hn') as [H1 H2]. split; [done|].
  intros k. rewrite H2, Hk. set_solver.
Qed.

(** One reason per code and artifact of the given reasons. *)
Lemma merged_reasons rs :
  NoDup (map merge_key (mergeReasons rs))
  /\ (forall k, k ∈ map merge_key (mergeReasons rs) <-> k ∈ map merge_key rs).
Proof.
  unfold mergeReasons. destruct (groups_keys rs [] NoDup_nil_2) as [Hn Hk].
  set (groups := fold_left _ rs []) in *.
  assert (Hm : map merge_key (isort compareReasons (map (fun '(h, c) =>
      if c =? 1 then h else set_detail (aggregatedDetail (detail h) c) h) groups)) ≡ₚ map (merge_key ∘ fst) groups).
  { rewrite isort_perm, map_map. apply reflexive_eq. apply map_ext. intros [h c]. simpl. by destruct (c =? 1). }
  split.
  - by rewrite Hm.
  - intros k. rewrite Hm, Hk. set_solver.
Qed.

Lemma mergeReasons_nil rs : mergeReasons rs = [] <-> rs = [].
Proof.
  destruct (merged_reasons rs) as [_ H]. split; [|by intros ->]. intros E. rewrite E in H.
  destruct rs as [|r rs]; [done|]. specialize (H (merge_key r)). set_solver.
Qed.

(** ** Assembled gates *)

Definition deciding (causes : list GateCause) : list GateCause :=
  if existsb is_invalid_cause causes then List.filter is_invalid_cause causes else causes.

Lemma filter_bool_nil {A} (p : A -> bool) l : List.filter p l = [] <-> existsb p l = false.
Proof. induction l as [|x l IH]; simpl; [done|]. destruct (p x); simpl; [split; discriminate|apply IH]. Qed.

Lemma assembleGate_id g causes refs : gate (assembleGate g causes refs) = g.
Proof. unfold assembleGate. by destruct (List.filter _ _) as [|? ?]; [destruct causes|]. Qed.

Lemma assembleGate_verified g causes refs : value (assembleGate g causes refs) = verified <-> causes = [].
Proof.
  unfold assembleGate. destruct causes as [|c causes]; [done|]. split; [|done].
  destruct (List.filter _ _) as [|d ds]; simpl; by destruct (cause_value _).
Qed.

Lemma assembleGate_applicable g causes refs : value (assembleGate g causes refs) <> not_applicable.
Proof.
  unfold assembleGate. destruct (List.filter _ _) as [|d ds]; [destruct causes|]; simpl; try done;
    by destruct (cause_value _).
Qed.

(** A gate is invalid exactly when some cause is, unverified exactly when it has
    causes and none is invalid, verified exactly when it has no cause, and never not
    applicable. It carries exactly one reason per code and artifact of the deciding
    causes (the invalid ones, or all of them when none is), and its references are
    exactly those causes' references, or the verified ones, strictly in canonical order
    and so without repeats. *)
Theorem gate_assembly g causes verifiedRefs :
  let a := assembleGate g causes verifiedRefs in
  gate a = g
  /\ (value a = invalid <-> exists c, c ∈ causes /\ cause_value c = cause_invalid)
  /\ (value a = verified <-> causes = [])
  /\ value a <> not_applicable
  /\ NoDup (map merge_key (reasons a))
  /\ (forall k, k ∈ map merge_key (reasons a) <-> exists c, c ∈ deciding causes /\ k = merge_key (cause_reason c))
  /\ StronglySorted ref_lt (gate_refs a)
  /\ (forall r, r ∈ gate_refs a <-> match causes with
                                     | [] => r ∈ verifiedRefs
                                     | _ => exists c, c ∈ deciding causes /\ r ∈ cause_refs c
                                     end).
Proof.
  assert (Hinv : existsb is_invalid_cause causes = true <-> exists c, c ∈ causes /\ cause_value c = cause_invalid).
  { rewrite existsb_true. unfold is_invalid_cause. by setoid_rewrite bool_decide_eq_true. }
  unfold assembleGate, deciding. destruct causes as [|c0 causes0]; [simpl|].
  { destruct (canonical_refs verifiedRefs) as [Hs He]. rewrite uniqueRefs_canonical.
    split_and!; try done; try set_solver; try (by apply NoDup_nil_2); naive_solver. }
  set (causes := c0 :: causes0) in *.
  set (dec := match List.filter is_invalid_cause causes with [] => causes | _ :: _ => List.filter is_invalid_cause causes end).
  assert (Hdec : (if existsb is_invalid_cause causes then List.filter is_invalid_cause causes else causes) = dec).
  { unfold dec. destruct (existsb is_invalid_cause causes) eqn:E.
    - destruct (List.filter is_invalid_cause causes) eqn:F; [|done]. apply filter_bool_nil in F. congruence.
    - by rewrite (proj2 (filter_bool_nil _ _) E). }
  rewrite Hdec. destruct dec as [|d dec'] eqn:Ed; [by destruct (existsb is_invalid_cause causes) eqn:E; [apply filter_bool_nil in Hdec; congruence|]|].
  simpl. rewrite uniqueRefs_canonical.
  destruct (canonical_refs (flat_map cause_refs (d :: dec'))) as [Hs He].
  destruct (merged_reasons (map cause_reason (d :: dec'))) as [Hn Hk].
  assert (Hd : cause_value d = cause_invalid <-> existsb is_invalid_cause causes = true).
  { destruct (existsb is_invalid_cause causes) eqn:E.
    - assert (Hin : d ∈ List.filter is_invalid_cause causes) by (rewrite Hdec; left).
      apply elem_of_filter_bool in Hin as [_ Hin]. unfold is_invalid_cause in Hin. by apply bool_decide_eq_true in Hin.
    - split; [|done]. intros Hv. rewrite existsb_false in E. specialize (E d ltac:(rewrite Hdec; left)).
      unfold is_invalid_cause in E. apply bool_decide_eq_false in E. done. }
  split_and!; try done.
  - rewrite <- Hinv, <- Hd. destruct (cause_value d); simpl; naive_solver.
  - destruct (cause_value d); done.
  - destruct (cause_value d); done.
  - intros k. rewrite (Hk k), map_map, list_elem_of_fmap. naive_solver.
  - intros r. rewrite (He r), !list_elem_of_In, in_flat_map. setoid_rewrite <- list_elem_of_In. naive_solver.
Qed.

End Evidence.
