(* ===== verification/Fidelity.v ===== *)
(** * Treatment fidelity and control integrity (src/study-1/src/treatment-fidelity/)

    The treatment view (treatment-view.ts), the six conditions BR-RUA-010 to
    BR-RUA-015 (commit-before-timer.ts, application-timeout.ts,
    continued-execution.ts, causal-join.ts, controlled-release.ts,
    no-caller-success.ts) finished by condition-result.ts, the binding of the
    targeted commit (commit-binding.ts), gate G4b (treatment-fidelity.ts) and gate
    G4a (control-integrity.ts). *)

From S2P Require Import Prelude Timestamps Decimals Store JsonText Journal Money ControlItems Evidence.
Import Json JsonText ControlItems Evidence.
Open Scope Z_scope.
#[local] Set Warnings "-register-all".

Module Fidelity.

(** [x === undefined] *)
Definition absent {A} (o : option A) : bool := match o with None => true | Some _ => false end.

(** ** Condition results *)

Record ConditionResult := MkCondition {
  condition_id : string;
  c_result : PreservationVerdict;
  c_expected : json;
  c_observed : json;
  c_refs : list EvidenceRef;
  c_reasons : list StructuredReason;
  affected_by : list string;
}.

Record ConditionDraft := MkDraft {
  d_result : PreservationVerdict;
  d_expected : json;
  d_observed : json;
  d_refs : list (option EvidenceRef);
  d_reasons : list StructuredReason;
}.

(** The members [JSON.stringify] spells, [undefined] as the empty text. *)
Definition reason_fields (r : StructuredReason) : list string :=
  [code r; subject r; nullish (artifact_path r) ""; nullish (event_id r) ""; detail r].

Definition keep_fresh (acc : list StructuredReason) (r : StructuredReason) : list StructuredReason :=
  if memb (reason_fields r) (map reason_fields acc) then acc else acc ++ [r].

Definition uniqueReasons (rs : list StructuredReason) : list StructuredReason := fold_left keep_fresh rs [].

Definition is_indeterminate (v : PreservationVerdict) : bool := match v with v_indeterminate => true | _ => false end.

Definition finishCondition (conditionId : string) (draft : ConditionDraft) (fs : list IngestionFinding) : ConditionResult :=
  let refs := canonicalRefs (omap id (d_refs draft)) in
  let affecting := affectingFindings fs refs in
  let result := match affecting with [] => d_result draft | _ => v_indeterminate end in
  MkCondition conditionId result (d_expected draft) (d_observed draft) refs
    (if is_indeterminate result then uniqueReasons (d_reasons draft ++ map findingReason affecting) else [])
    (isort String.leb (Journal.unique (map (fun f => finding_code_text (f_code f)) affecting))).

Definition refOf (ev : option IndexedEvent) : option EvidenceRef := option_map eventRef ev.
Definition refOf_some (ev : IndexedEvent) : option EvidenceRef := refOf (Some ev).

Definition idOf (ev : option IndexedEvent) : option string := option_map event_id_of ev.
Definition id_json (ev : option IndexedEvent) : json := opt_json (idOf ev).
Definition id_text (ev : option IndexedEvent) : string := nullish (idOf ev) "(none)".

(** A string member in a template, where the record type declares one. *)
Definition text_in (ev : IndexedEvent) (field : string) : string := nullish (eventString ev field) "undefined".

Definition with_refs (refs : list (option EvidenceRef)) (d : ConditionDraft) : ConditionDraft :=
  MkDraft (d_result d) (d_expected d) (d_observed d) refs (d_reasons d).

(** ** The treatment view *)

Record UnitJournals := MkJournals {
  j_caller : SubjectArtifactState;
  j_provider : SubjectArtifactState;
  j_controller : SubjectArtifactState;
}.

Record TreatmentView := MkView {
  journals : UnitJournals;
  configuration_state : SubjectArtifactState;
  configuration : option (LocatedRecord Scenario);
  snapshot_state : SubjectArtifactState;
  snapshot : option (LocatedRecord TreatmentStateSnapshot);
  ledger_state : SubjectArtifactState;
  view_ledger : LedgerView;
  targeted_commits : list IndexedEvent;
  commit : option IndexedEvent;
  confirmation : option IndexedEvent;
  targeted_attempt_id : option string;
  dispatch : option IndexedEvent;
  caller_timeout : option IndexedEvent;
  outcome : option IndexedEvent;
  attempt_events : list IndexedEvent;
  late_settlements : list IndexedEvent;
  signal : option IndexedEvent;
  observation : option IndexedEvent;
  release : option IndexedEvent;
  safety_releases : list IndexedEvent;
  conflicts : list IndexedEvent;
  commits : list IndexedEvent;
  accepted_calls : list IndexedEvent;
  view_findings : list IngestionFinding;
}.

Definition scenarioRefusal (e : IngestedEvidence) : option StructuredReason :=
  match sc_subject_kind (scope e) with
  | probe_subject => None
  | trial_subject =>
      match option_map st_scenario (sc_trial (scope e)) with
      | Some COMMIT_THEN_TIMEOUT => None
      | None => Some (reason "TREATMENT_NOT_APPLICABLE" "BR-RUA-025"
          "the trial scenario is unknown (no usable trial manifest); expected COMMIT_THEN_TIMEOUT")
      | Some s => Some (reason "TREATMENT_NOT_APPLICABLE" "BR-RUA-025"
          ("the trial scenario is " +:+ scenario_text s
           +:+ "; expected COMMIT_THEN_TIMEOUT (a CONTROL trial is judged by control integrity)"))
      end
  end.

Definition snapshot_item (s : option (LocatedRecord TreatmentStateSnapshot)) : option TreatmentItem :=
  match s with Some l => ts_treatment (l_record l) | None => None end.

Definition targetedAttempt (evs : list IndexedEvent) (commit : option IndexedEvent)
    (snapshot : option (LocatedRecord TreatmentStateSnapshot)) : option string :=
  match commit with
  | Some k => eventString k "attempt_id"
  | None =>
      match snapshot_item snapshot ≫= t_targeted_attempt_id with
      | Some a => Some a
      | None =>
          match Journal.unique (omap (fun ev => eventString ev "attempt_id") (eventsOfType evs "attempt_registered")) with
          | [only] => Some only
          | _ => None
          end
      end
  end.

Definition confirmationOf (evs : list IndexedEvent) (commit : IndexedEvent) : option IndexedEvent :=
  let confirmations := eventsOfType evs "provider_commit_confirmed" in
  match find_first (fun ev => causedBy ev commit) confirmations with
  | Some ev => Some ev
  | None => find_first (fun ev => bool_decide (eventString ev "provider_transaction_id"
                                               = eventString commit "provider_transaction_id")) confirmations
  end.

Definition commitScoped (evs : list IndexedEvent) (type : string) (commit : option IndexedEvent)
    (attemptId : option string) : option IndexedEvent :=
  let candidates := eventsOfType evs type in
  match commit with
  | Some k => find_first (fun ev => bool_decide (eventString ev "provider_commit_id" = eventString k "provider_commit_id")) candidates
  | None =>
      match attemptId with
      | None => None
      | Some a => find_first (fun ev => bool_decide (eventString ev "attempt_id" = Some a)) candidates
      end
  end.

Definition buildTreatmentView (e : IngestedEvidence) : Result TreatmentView (list StructuredReason) :=
  match scenarioRefusal e with
  | Some r => Err [r]
  | None =>
      let evs := partitionEvents e in
      let targeted := List.filter (fun ev => eventBool ev "targeted") (eventsOfType evs "provider_transaction_committed") in
      let commit := match targeted with [k] => Some k | _ => None end in
      let snap := o_treatment_snapshot (observations e) in
      let attemptId := targetedAttempt evs commit snap in
      let callerEvents :=
        match attemptId with
        | None => []
        | Some a => List.filter (fun ev => isCallerEvent ev && bool_decide (eventString ev "attempt_id" = Some a)) evs
        end in
      Ok (MkView
        (MkJournals (subjectArtifactState e "caller_journal") (subjectArtifactState e "provider_journal")
                    (subjectArtifactState e "controller_journal"))
        (subjectArtifactState e "provider_trial_configuration") (o_provider_configuration (observations e))
        (subjectArtifactState e "treatment_state_snapshot") snap
        (subjectArtifactState e "ledger_snapshot") (ledger e)
        targeted commit (commit ≫= confirmationOf evs) attemptId
        (head (eventsOfType callerEvents "dispatch_started"))
        (head (eventsOfType callerEvents "caller_timeout_recorded"))
        (head (eventsOfType callerEvents "attempt_outcome_recorded"))
        callerEvents (eventsOfType callerEvents "transport_settled_after_timeout")
        (commitScoped evs "timeout_signal_recorded" commit attemptId)
        (commitScoped evs "treatment_timeout_observed" commit attemptId)
        (commitScoped evs "treatment_response_released" commit attemptId)
        (eventsOfType evs "treatment_safety_released")
        (eventsOfType evs "timeout_signal_conflict_recorded")
        (eventsOfType evs "provider_transaction_committed")
        (eventsOfType evs "provider_call_accepted")
        (findings e))
  end.

(** ** BR-RUA-010 commit before timer *)

Definition string_of_json_list (o : option json) : string :=
  match o with Some (JArr items) => str_join ", " (omap (fun v => as_string (Some v)) items) | _ => "" end.

(** [signedDifferenceMs(later, earlier)] *)
Definition signedDifferenceMs (later earlier : string) : string :=
  string_of_Z (nullish (Utc.Date_parse later) 0 - nullish (Utc.Date_parse earlier) 0).

Definition differenceMs (later earlier : option string) : option string :=
  match later, earlier with
  | Some l, Some r => if Utc.isUtcMillis l && Utc.isUtcMillis r then Some (signedDifferenceMs l r) else None
  | _, _ => None
  end.

Definition opt_text (ev : option IndexedEvent) (field : string) : option string := ev ≫= fun e => eventString e field.

Definition COMMIT_BEFORE_TIMER_EXPECTED : json :=
  JObj [("relation", JStr "provider_commit_confirmed.committed_at < caller_timeout_recorded.timer_fired_at");
        ("ordering_basis", JStr "cross_source_wall_clock"); ("clock_assumption_refs", JArr [JStr "CA-1"])].

Definition commitBeforeTimer_observedOf (view : TreatmentView) : json :=
  let committedAt := opt_text (confirmation view) "committed_at" in
  let requestedAt := opt_text (commit view) "commit_requested_at" in
  let timerFiredAt := opt_text (caller_timeout view) "timer_fired_at" in
  JObj [("committed_at", opt_json committedAt); ("commit_requested_at", opt_json requestedAt);
        ("timer_fired_at", opt_json timerFiredAt);
        ("timer_minus_committed_ms", opt_json (differenceMs timerFiredAt committedAt));
        ("timer_minus_commit_requested_ms", opt_json (differenceMs timerFiredAt requestedAt));
        ("commit_event_id", id_json (commit view)); ("confirmation_event_id", id_json (confirmation view));
        ("caller_timeout_event_id", id_json (caller_timeout view)); ("targeted_commit_count", count_json (targeted_commits view))].

Definition provenNoCommit (view : TreatmentView) : bool :=
  match targeted_attempt_id view with
  | None => false
  | Some a =>
      if (0 <? length (targeted_commits view))%nat || negb (complete (j_provider (journals view))) then false
      else
        let l := view_ledger view in
        bool_decide (lv_status l = ledger_present) && lv_pagination_complete l
        && bool_decide (lv_duplicate_transaction_ids l = [])
        && negb (existsb (fun ev => bool_decide (eventString ev "attempt_id" = Some a)) (commits view))
        && negb (existsb (fun t => bool_decide (tx_attempt_id t = a)) (lv_transactions l))
  end.

Definition commitBeforeTimer_missingReasons (view : TreatmentView) : list StructuredReason :=
  let provider := j_provider (journals view) in
  let caller := j_caller (journals view) in
  (match confirmation view with
   | Some _ => []
   | None =>
       [match as_ref provider with
        | None => incompleteArtifactReason provider "BR-RUA-010"
        | Some _ =>
            reasonAt "BR-RUA-010" (if (1 <? length (targeted_commits view))%nat then "TARGETED_COMMIT_AMBIGUOUS" else "EVENT_MISSING")
              (string_of_Z (Z.of_nat (length (targeted_commits view)))
               +:+ " targeted commit(s) and no provider_commit_confirmed for the targeted commit; expected exactly one confirmed targeted commit")
              (as_ref provider)
        end]
   end)
  ++ (match caller_timeout view with
      | Some _ => []
      | None =>
          [match as_ref caller with
           | None => incompleteArtifactReason caller "BR-RUA-010"
           | Some _ =>
               reasonAt "BR-RUA-010" "EVENT_MISSING"
                 ("no caller_timeout_recorded for targeted attempt " +:+ nullish (targeted_attempt_id view) "(unknown)"
                  +:+ "; expected the timer's event") (as_ref caller)
           end]
      end).

Definition starts_minus (s : string) : bool := bool_decide (head (chars s) = Some (Ascii.ascii_of_nat 45)).

Definition orderingDraft (timerMinusCommit : string) (observed : json) (refs : list (option EvidenceRef)) : ConditionDraft :=
  if bool_decide (timerMinusCommit = "0") then
    MkDraft v_indeterminate COMMIT_BEFORE_TIMER_EXPECTED observed refs
      [reasonAt "BR-RUA-010" "EQUAL_TIMESTAMPS"
         "committed_at equals timer_fired_at; expected committed_at < timer_fired_at" (nullish (refs !! 1%nat) None)]
  else MkDraft (if starts_minus timerMinusCommit then v_fail else v_pass) COMMIT_BEFORE_TIMER_EXPECTED observed refs [].

Definition commitBeforeTimer_draftOf (view : TreatmentView) : ConditionDraft :=
  let difference := differenceMs (opt_text (caller_timeout view) "timer_fired_at") (opt_text (confirmation view) "committed_at") in
  let observed := commitBeforeTimer_observedOf view in
  let refs := [refOf (commit view); refOf (confirmation view); refOf (caller_timeout view)] in
  match difference with
  | Some d => orderingDraft d observed refs
  | None =>
      if negb (absent (caller_timeout view)) && provenNoCommit view then
        MkDraft v_fail COMMIT_BEFORE_TIMER_EXPECTED observed
          (refs ++ [as_ref (j_provider (journals view)); as_ref (ledger_state view)]) []
      else MkDraft v_indeterminate COMMIT_BEFORE_TIMER_EXPECTED observed
             (refs ++ [as_ref (j_provider (journals view)); as_ref (j_caller (journals view))])
             (commitBeforeTimer_missingReasons view)
  end.

Definition evaluateCommitBeforeTimer (view : TreatmentView) : ConditionResult :=
  finishCondition "BR-RUA-010" (commitBeforeTimer_draftOf view) (view_findings view).

(** ** BR-RUA-011 application timeout *)

Definition APPLICATION_DEADLINE_NS : string := "3000000000".

Definition APPLICATION_TIMEOUT_EXPECTED : json :=
  JObj [("elapsed_ns_at_least", JStr APPLICATION_DEADLINE_NS); ("arbiter_winner", JStr "TIMER");
        ("transport_settled_at_claim", JBool false); ("abort_requested_at_not_after_recorded_at", JBool true);
        ("caused_by_dispatch", JBool true); ("outcome", JStr "TIMED_OUT")].

Definition applicationTimeout_observedOf (view : TreatmentView) : json :=
  let record := read (caller_timeout view) in
  JObj [("caller_timeout_event_id", id_json (caller_timeout view)); ("elapsed_ns", raw_json (record "elapsed_ns"));
        ("arbiter_winner", raw_json (record "arbiter_winner"));
        ("transport_settled_at_claim", raw_json (record "transport_settled_at_claim"));
        ("abort_requested_at", raw_json (record "abort_requested_at")); ("recorded_at", raw_json (record "recorded_at"));
        ("causation_event_ids", raw_json (record "causation_event_ids"));
        ("monotonic_origin_event_id", raw_json (record "monotonic_origin_event_id"));
        ("dispatch_event_id", id_json (dispatch view)); ("outcome", raw_json (read (outcome view) "outcome"))].

(** A missing text is not a decimal string. *)
Definition violatesTimerContract (timeout : IndexedEvent) : bool :=
  let elapsed := nullish (eventString timeout "elapsed_ns") "" in
  negb (Money.isDecimalString elapsed)
  || match Money.compareDecimal elapsed APPLICATION_DEADLINE_NS with Ok c => c <? 0 | Err _ => false end
  || negb (bool_decide (eventString timeout "arbiter_winner" = Some "TIMER"))
  || eventBool timeout "transport_settled_at_claim"
  || String.ltb (nullish (eventString timeout "recorded_at") "") (nullish (eventString timeout "abort_requested_at") "").

Definition correlationReason (view : TreatmentView) (timeout : IndexedEvent) : option StructuredReason :=
  match dispatch view with
  | None =>
      Some (reasonAt "BR-RUA-011" "EVENT_MISSING"
        ("no dispatch_started for targeted attempt " +:+ text_in timeout "attempt_id" +:+ "; expected the timeout's cause")
        (as_ref (j_caller (journals view))))
  | Some d =>
      if negb (causedBy timeout d) || negb (bool_decide (eventString timeout "monotonic_origin_event_id" = Some (event_id_of d))) then
        Some (reasonAt "BR-RUA-011" "TIMEOUT_NOT_CORRELATED"
          ("caller_timeout_recorded names causation " +:+ string_of_json_list (member "causation_event_ids" (ev_record timeout))
           +:+ " and monotonic origin " +:+ text_in timeout "monotonic_origin_event_id" +:+ "; expected dispatch_started "
           +:+ event_id_of d +:+ " for both") (Some (eventRef timeout)))
      else
        let o := opt_text (outcome view) "outcome" in
        if bool_decide (o = Some "TIMED_OUT") then None
        else Some (reasonAt "BR-RUA-011" (match o with None => "EVENT_MISSING" | Some _ => "OUTCOME_NOT_TIMED_OUT" end)
               ("targeted attempt " +:+ text_in timeout "attempt_id" +:+ " has outcome " +:+ nullish o "(none)" +:+ "; expected TIMED_OUT")
               (as_ref (j_caller (journals view))))
  end.

Definition withoutTimeout (view : TreatmentView) (draft : PreservationVerdict -> list StructuredReason -> ConditionDraft) :
  ConditionDraft :=
  let caller := j_caller (journals view) in
  if negb (absent (outcome view)) && negb (bool_decide (opt_text (outcome view) "outcome" = Some "TIMED_OUT")) && complete caller
  then draft v_fail []
  else match as_ref caller with
       | None => draft v_indeterminate [incompleteArtifactReason caller "BR-RUA-011"]
       | Some _ => draft v_indeterminate
           [reasonAt "BR-RUA-011" "EVENT_MISSING"
              ("no caller_timeout_recorded for targeted attempt " +:+ nullish (targeted_attempt_id view) "(unknown)"
               +:+ "; expected the timer's durable event") (as_ref caller)]
       end.

Definition applicationTimeout_draftOf (view : TreatmentView) : ConditionDraft :=
  let refs := [refOf (caller_timeout view); refOf (dispatch view); refOf (outcome view); as_ref (j_caller (journals view))] in
  let draft := fun result rs => MkDraft result APPLICATION_TIMEOUT_EXPECTED (applicationTimeout_observedOf view) refs rs in
  match caller_timeout view with
  | None => withoutTimeout view draft
  | Some timeout =>
      if violatesTimerContract timeout then draft v_fail []
      else match correlationReason view timeout with
           | None => draft v_pass []
           | Some r => draft v_indeterminate [r]
           end
  end.

Definition evaluateApplicationTimeout (view : TreatmentView) : ConditionResult :=
  finishCondition "BR-RUA-011" (applicationTimeout_draftOf view) (view_findings view).

(** ** BR-RUA-012 continued provider execution *)

Definition STOPPED_STATES : list TreatmentState := [COMMITTED_WAITING; TIMEOUT_SIGNALLED].

Definition CONTINUED_EXECUTION_EXPECTED : json :=
  JObj [("timeout_observed", JBool true); ("response_released", JBool true);
        ("chain", JStr "treatment_response_released -> treatment_timeout_observed -> timeout_signal_recorded -> caller_timeout_recorded")].

Definition chainResolves (view : TreatmentView) : bool :=
  match release view, observation view, signal view, caller_timeout view with
  | Some r, Some o, Some s, Some t => causedBy r o && causedBy o s && causedBy s t
  | _, _, _, _ => false
  end.

Definition chainReason (view : TreatmentView) (release observation : IndexedEvent) : StructuredReason :=
  reasonAt "BR-RUA-012" "CAUSAL_CHAIN_UNRESOLVED"
    ("the chain from release " +:+ event_id_of release +:+ " through observation " +:+ event_id_of observation +:+ ", signal "
     +:+ id_text (signal view) +:+ " and caller timeout " +:+ id_text (caller_timeout view)
     +:+ " does not resolve; expected each to name the next as its cause") (Some (eventRef release)).

Definition providerStopped (view : TreatmentView) : bool :=
  absent (observation view) && absent (release view)
  && Nat.eqb (length (safety_releases view)) 0 && complete (j_provider (journals view))
  && match snapshot view with
     | Some l =>
         ts_consistent_read (l_record l)
         && match ts_treatment (l_record l) with Some item => memb (t_state item) STOPPED_STATES | None => false end
     | None => false
     end.

Definition count_text {A} (l : list A) : string := string_of_Z (Z.of_nat (length l)).

Definition continuedExecution_missingReasons (view : TreatmentView) : list StructuredReason :=
  let provider := j_provider (journals view) in
  match as_ref provider with
  | None => [incompleteArtifactReason provider "BR-RUA-012"]
  | Some _ =>
      match safety_releases view with
      | first :: _ =>
          [reasonAt "BR-RUA-012" "SAFETY_RELEASED"
             (count_text (safety_releases view) +:+ " treatment_safety_released event(s); expected the barrier released only by the observed signal")
             (Some (eventRef first))]
      | [] =>
          [reasonAt "BR-RUA-012" "EVENT_MISSING"
             ("observation " +:+ id_text (observation view) +:+ " and release " +:+ id_text (release view)
              +:+ ", and no consistent snapshot of a waiting barrier; expected both events, or a complete journal and snapshot showing the provider stopped")
             (as_ref provider)]
      end
  end.

Definition continuedExecution_observedOf (view : TreatmentView) : json :=
  JObj [("release_event_id", id_json (release view)); ("observation_event_id", id_json (observation view));
        ("signal_event_id", id_json (signal view)); ("caller_timeout_event_id", id_json (caller_timeout view));
        ("chain_resolves", JBool (chainResolves view)); ("safety_release_count", count_json (safety_releases view));
        ("treatment_state", opt_json (option_map (fun i => state_text (t_state i)) (snapshot_item (snapshot view))))].

Definition continuedExecution_draftOf (view : TreatmentView) : ConditionDraft :=
  let refs := [refOf (release view); refOf (observation view); refOf (signal view); refOf (caller_timeout view)]
              ++ map refOf_some (safety_releases view) in
  let draft := fun result rs => MkDraft result CONTINUED_EXECUTION_EXPECTED (continuedExecution_observedOf view) refs rs in
  let absent :=
    if providerStopped view then with_refs (refs ++ [as_ref (j_provider (journals view)); as_ref (snapshot_state view)]) (draft v_fail [])
    else with_refs (refs ++ [as_ref (j_provider (journals view))]) (draft v_indeterminate (continuedExecution_missingReasons view)) in
  match observation view, release view with
  | Some o, Some r => if chainResolves view then draft v_pass [] else draft v_indeterminate [chainReason view r o]
  | _, _ => absent
  end.

Definition evaluateContinuedExecution (view : TreatmentView) : ConditionResult :=
  finishCondition "BR-RUA-012" (continuedExecution_draftOf view) (view_findings view).

(** ** BR-RUA-013 causal join and observation *)

Definition expectedCausation (commit timeout : IndexedEvent) : list string :=
  isort String.leb [event_id_of commit; event_id_of timeout].

Definition joinMatches (signal commit timeout : IndexedEvent) : bool :=
  bool_decide (eventStrings signal "causation_event_ids" = expectedCausation commit timeout)
  && bool_decide (eventString signal "attempt_id" = eventString timeout "attempt_id")
  && bool_decide (eventString signal "caller_timeout_event_id" = Some (event_id_of timeout))
  && bool_decide (eventString signal "provider_commit_event_id" = Some (event_id_of commit)).

Definition causalJoin_missingReason (view : TreatmentView) : StructuredReason :=
  let controller := j_controller (journals view) in
  if absent (signal view) && absent (as_ref controller)
  then incompleteArtifactReason controller "BR-RUA-013"
  else
    let missing :=
      (match signal view with None => ["timeout_signal_recorded"] | Some _ => [] end)
      ++ (match commit view with None => ["the unique targeted provider_transaction_committed"] | Some _ => [] end)
      ++ (match caller_timeout view with None => ["caller_timeout_recorded of the targeted attempt"] | Some _ => [] end) in
    reasonAt "BR-RUA-013" "EVENT_MISSING" (str_join ", " missing +:+ " absent; expected the signal and both its causes")
      (match signal view with None => as_ref controller | Some s => Some (eventRef s) end).

Definition causalJoin_expectedOf (view : TreatmentView) : json :=
  JObj [("signal_causation_event_ids",
          match commit view, caller_timeout view with
          | Some k, Some t => JArr (map JStr (expectedCausation k t))
          | _, _ => JNull
          end);
        ("signal_attempt_id", opt_json (targeted_attempt_id view)); ("observation_caused_by_signal", JBool true);
        ("conflict_count", int_json 0)].

Definition causalJoin_observedOf (view : TreatmentView) : json :=
  let s := read (signal view) in
  JObj [("signal_event_id", raw_json (s "event_id")); ("signal_causation_event_ids", raw_json (s "causation_event_ids"));
        ("signal_attempt_id", raw_json (s "attempt_id"));
        ("signal_caller_timeout_event_id", raw_json (s "caller_timeout_event_id"));
        ("signal_provider_commit_event_id", raw_json (s "provider_commit_event_id"));
        ("observation_event_id", id_json (observation view));
        ("observation_causation_event_ids", raw_json (read (observation view) "causation_event_ids"));
        ("conflict_count", count_json (conflicts view))].

Definition causalJoin_draftOf (view : TreatmentView) : ConditionDraft :=
  let refs := [refOf (signal view); refOf (commit view); refOf (caller_timeout view); refOf (observation view)]
              ++ map refOf_some (conflicts view) in
  let draft := fun result rs => MkDraft result (causalJoin_expectedOf view) (causalJoin_observedOf view) refs rs in
  if (0 <? length (conflicts view))%nat then draft v_fail []
  else match signal view, commit view, caller_timeout view with
  | Some s, Some k, Some t =>
      if negb (joinMatches s k t) then draft v_fail []
      else match observation view with
           | None =>
               with_refs (refs ++ [as_ref (j_provider (journals view))])
                 (draft v_indeterminate
                    [reasonAt "BR-RUA-013" "EVENT_MISSING"
                       ("no treatment_timeout_observed for signal " +:+ event_id_of s +:+ "; expected the provider to observe it")
                       (as_ref (j_provider (journals view)))])
           | Some o =>
               draft (if causedBy o s && bool_decide (eventString o "signal_event_id" = Some (event_id_of s)) then v_pass else v_fail) []
           end
  | _, _, _ =>
      with_refs (refs ++ [as_ref (j_controller (journals view))]) (draft v_indeterminate [causalJoin_missingReason view])
  end.

Definition evaluateCausalJoin (view : TreatmentView) : ConditionResult :=
  finishCondition "BR-RUA-013" (causalJoin_draftOf view) (view_findings view).

(** ** BR-RUA-014 controlled release *)

Definition CONTROLLED_RELEASE_EXPECTED : json :=
  JObj [("release_caused_by_observation", JBool true); ("release_after_observation_in_same_instance", JBool true);
        ("safety_release_count", int_json 0)].

Definition controlledRelease_observedOf (view : TreatmentView) : json :=
  JObj [("release_event_id", id_json (release view)); ("observation_event_id", id_json (observation view));
        ("release_causation_event_ids", raw_json (read (release view) "causation_event_ids"));
        ("release_source_sequence", raw_json (read (release view) "source_sequence"));
        ("observation_source_sequence", raw_json (read (observation view) "source_sequence"));
        ("same_source_instance",
          match release view, observation view with
          | Some r, Some o => JBool (bool_decide (eventString r "source_instance_id" = eventString o "source_instance_id"))
          | _, _ => JNull
          end);
        ("safety_release_count", count_json (safety_releases view))].

Definition releaseMissingReason (view : TreatmentView) : StructuredReason :=
  let provider := j_provider (journals view) in
  match as_ref provider with
  | None => incompleteArtifactReason provider "BR-RUA-014"
  | Some _ => reasonAt "BR-RUA-014" "EVENT_MISSING"
                "no treatment_response_released for the targeted commit; expected the controlled release" (as_ref provider)
  end.

Definition controlledRelease_draftOf (view : TreatmentView) : ConditionDraft :=
  let provider := j_provider (journals view) in
  let refs := [refOf (release view); refOf (observation view)] ++ map refOf_some (safety_releases view) in
  let draft := fun result rs => MkDraft result CONTROLLED_RELEASE_EXPECTED (controlledRelease_observedOf view) refs rs in
  match safety_releases view with
  | first :: _ =>
      draft v_indeterminate [reasonAt "BR-RUA-014" "SAFETY_RELEASED"
        (count_text (safety_releases view) +:+ " treatment_safety_released event(s); expected none") (Some (eventRef first))]
  | [] =>
  match release view with
  | None => with_refs (refs ++ [as_ref provider]) (draft v_indeterminate [releaseMissingReason view])
  | Some r =>
  match observation view with
  | None =>
      if complete provider then with_refs (refs ++ [as_ref provider]) (draft v_fail [])
      else draft v_indeterminate [reasonAt "BR-RUA-014" "EVENT_MISSING"
             ("release " +:+ event_id_of r +:+ " has no treatment_timeout_observed in an incomplete provider journal; expected the observation")
             (as_ref provider)]
  | Some o =>
      if negb (causedBy r o) then draft v_fail []
      else if negb (bool_decide (eventString r "source_instance_id" = eventString o "source_instance_id")) then
        draft v_indeterminate [reasonAt "BR-RUA-014" "SOURCE_INSTANCE_MISMATCH"
          ("release instance " +:+ text_in r "source_instance_id" +:+ " differs from observation instance "
           +:+ text_in o "source_instance_id" +:+ "; expected one provider instance to order them") (Some (eventRef r))]
      else draft (if eventInt r "source_sequence" >? eventInt o "source_sequence" then v_pass else v_fail) []
  end end end.

Definition evaluateControlledRelease (view : TreatmentView) : ConditionResult :=
  finishCondition "BR-RUA-014" (controlledRelease_draftOf view) (view_findings view).

(** ** BR-RUA-015 no caller-observed success *)

Definition carryingEvents (view : TreatmentView) : list IndexedEvent :=
  match opt_text (commit view) "provider_transaction_id" with
  | None => []
  | Some id => List.filter (fun ev => bool_decide (eventString ev "provider_transaction_id" = Some id)) (attempt_events view)
  end.

Definition outcomeReason (view : TreatmentView) : StructuredReason :=
  let caller := j_caller (journals view) in
  match as_ref caller with
  | None => incompleteArtifactReason caller "BR-RUA-015"
  | Some _ =>
      let o := opt_text (outcome view) "outcome" in
      reasonAt "BR-RUA-015" (match o with None => "EVENT_MISSING" | Some _ => "OUTCOME_NOT_TIMED_OUT" end)
        ("targeted attempt " +:+ nullish (targeted_attempt_id view) "(unknown)" +:+ " has outcome " +:+ nullish o "(none)"
         +:+ "; expected TIMED_OUT") (as_ref caller)
  end.

Definition noCallerSuccess_expectedOf (view : TreatmentView) : json :=
  JObj [("outcome", JStr "TIMED_OUT"); ("caller_events_carrying_provider_transaction_id", JArr []);
        ("provider_transaction_id", raw_json (read (commit view) "provider_transaction_id"))].

Definition noCallerSuccess_observedOf (view : TreatmentView) (carrying : list IndexedEvent) : json :=
  JObj [("targeted_attempt_id", opt_json (targeted_attempt_id view)); ("outcome", raw_json (read (outcome view) "outcome"));
        ("caller_events_carrying_provider_transaction_id", JArr (map (fun ev => JStr (event_id_of ev)) carrying));
        ("late_transport_settlements", JArr (map (fun ev => raw_json (member "settlement_kind" (ev_record ev))) (late_settlements view)))].

Definition noCallerSuccess_draftOf (view : TreatmentView) : ConditionDraft :=
  let carrying := carryingEvents view in
  let refs := [refOf (outcome view)] ++ map refOf_some carrying ++ map refOf_some (late_settlements view) in
  let draft := fun result rs => MkDraft result (noCallerSuccess_expectedOf view) (noCallerSuccess_observedOf view carrying) refs rs in
  let o := opt_text (outcome view) "outcome" in
  if bool_decide (o = Some "SUCCEEDED") || (0 <? length carrying)%nat then draft v_fail []
  else if bool_decide (o = Some "TIMED_OUT") then draft v_pass []
  else with_refs (refs ++ [as_ref (j_caller (journals view))]) (draft v_indeterminate [outcomeReason view]).

Definition evaluateNoCallerSuccess (view : TreatmentView) : ConditionResult :=
  finishCondition "BR-RUA-015" (noCallerSuccess_draftOf view) (view_findings view).

Definition evaluateTreatmentConditions (view : TreatmentView) : list ConditionResult :=
  [evaluateCommitBeforeTimer view; evaluateApplicationTimeout view; evaluateContinuedExecution view;
   evaluateCausalJoin view; evaluateControlledRelease view; evaluateNoCallerSuccess view].

(** ** How the targeted commit binds to the other evidence *)

Definition TRIPLE_FIELDS : list string := ["provider_commit_id"; "provider_transaction_id"; "provider_call_id"].

(** The members a source records, in order. *)
Abbreviation PartialTriple := (list (string * string)).

Record TripleSource := MkTripleSource { src_name : string; src_triple : PartialTriple; src_ref : option EvidenceRef }.

Definition tripleOf (field : string -> option string) : PartialTriple :=
  omap (fun f => option_map (fun v => (f, v)) (field f)) TRIPLE_FIELDS.

Definition transaction_field (t : LedgerTransaction) (field : string) : option string :=
  map_get field [("provider_commit_id", tx_provider_commit_id t); ("provider_transaction_id", tx_provider_transaction_id t);
                 ("provider_call_id", tx_provider_call_id t)].

Definition item_field (i : TreatmentItem) (field : string) : option string :=
  nullish (map_get field [("provider_commit_id", t_provider_commit_id i); ("provider_transaction_id", t_provider_transaction_id i);
                          ("provider_call_id", t_provider_call_id i)]) None.

Definition differs (recorded expected : option string) : bool :=
  match recorded with None => false | Some _ => negb (bool_decide (recorded = expected)) end.

Definition ledger_transaction (view : TreatmentView) (commit : IndexedEvent) : option LedgerTransaction :=
  find_first (fun t => bool_decide (Some (tx_provider_transaction_id t) = eventString commit "provider_transaction_id"))
    (lv_transactions (view_ledger view)).

Definition tripleSources (view : TreatmentView) (commit : IndexedEvent) : list TripleSource :=
  match confirmation view with
  | Some c => [MkTripleSource "provider_commit_confirmed" (tripleOf (eventString c)) (Some (eventRef c))]
  | None => []
  end
  ++ match ledger_transaction view commit with
     | Some t => [MkTripleSource "the ledger transaction" (tripleOf (transaction_field t)) (as_ref (ledger_state view))]
     | None => []
     end
  ++ match snapshot_item (snapshot view) with
     | Some i => [MkTripleSource "the treatment item" (tripleOf (item_field i)) (as_ref (snapshot_state view))]
     | None => []
     end.

(** [JSON.stringify] of a triple. *)
Definition triple_text (t : PartialTriple) : string :=
  nullish (json_text plainStyle (JObj (map (fun '(f, v) => (f, JStr v)) t))) "".

Definition refsOf (refs : list (option EvidenceRef)) : list EvidenceRef := omap id refs.

Definition mismatched (commit : IndexedEvent) (source : TripleSource) : bool :=
  existsb (fun f => differs (map_get f (src_triple source)) (eventString commit f)) TRIPLE_FIELDS.

Definition commitTripleCauses (view : TreatmentView) : list GateCause :=
  match commit view with
  | None => []
  | Some k =>
      map (fun source =>
        MkCause cause_invalid
          (reasonAt "BR-RUA-025" "COMMIT_TRIPLE_MISMATCH"
             (src_name source +:+ " records commit triple " +:+ triple_text (src_triple source) +:+ "; expected "
              +:+ triple_text (tripleOf (eventString k)) +:+ " as provider_transaction_committed " +:+ event_id_of k) (src_ref source))
          (refsOf [src_ref source; Some (eventRef k)]))
        (List.filter (mismatched k) (tripleSources view k))
      ++ (if bool_decide (lv_status (view_ledger view) = ledger_present) && absent (ledger_transaction view k) then
            [MkCause cause_unverified
               (reasonAt "BR-RUA-025" "LEDGER_TRANSACTION_MISSING"
                  ("the ledger holds no transaction " +:+ text_in k "provider_transaction_id"
                   +:+ "; expected the targeted commit's transaction") (as_ref (ledger_state view)))
               (refsOf [as_ref (ledger_state view); Some (eventRef k)])]
          else [])
  end.

Definition occurred_at (ev : IndexedEvent) : string := nullish (eventString ev "occurred_at") "".

Definition earliest (calls : list IndexedEvent) : option IndexedEvent :=
  fold_left (fun first call =>
    match first with
    | None => Some call
    | Some f => if String.ltb (occurred_at call) (occurred_at f) then Some call else first
    end) calls None.

Definition firstAcceptedCallCauses (view : TreatmentView) : list GateCause :=
  match earliest (accepted_calls view) with
  | None =>
      let ref := as_ref (j_provider (journals view)) in
      [MkCause cause_unverified
         (reasonAt "BR-RUA-025" "ACCEPTED_CALL_MISSING"
            "no provider_call_accepted in the partition; expected the targeted call to be the first accepted" ref)
         (refsOf [ref])]
  | Some first =>
      match commit view with
      | None => []
      | Some k =>
          if bool_decide (eventString first "provider_call_id" = eventString k "provider_call_id") then []
          else [MkCause cause_invalid
                  (reasonAt "BR-RUA-025" "FIRST_ACCEPTED_CALL_UNTARGETED"
                     ("the first accepted call is " +:+ text_in first "provider_call_id" +:+ "; expected the targeted call "
                      +:+ text_in k "provider_call_id") (Some (eventRef first)))
                  (refsOf [Some (eventRef first); Some (eventRef k)])]
      end
  end.

(** ** Gate G4b *)

Record FidelityAssessment := MkFidelity {
  fa_value : GateValue;
  fa_basis : string;
  fa_clock_assumption_refs : list string;
  fa_reasons : list StructuredReason;
  fa_refs : list EvidenceRef;
}.

Definition TREATMENT_FIDELITY_BASIS : string := "causal_plus_cross_source_clock_assumption".
Definition TREATMENT_CLOCK_ASSUMPTION_REFS : list string := ["CA-1"].

Definition assembleApplicableGate (g : GateId) (causes : list GateCause) (verifiedRefs : list EvidenceRef) : GateAssessment :=
  let assembled := assembleGate g causes verifiedRefs in
  MkGate g (if existsb is_invalid_cause causes then invalid else match causes with [] => verified | _ => unverified end)
    (reasons assembled) (gate_refs assembled).

Definition verdict_text (v : PreservationVerdict) : string :=
  match v with v_pass => "pass" | v_fail => "fail" | v_indeterminate => "indeterminate" end.

Definition conditionCauses (c : ConditionResult) : list GateCause :=
  let refs := c_refs c in
  let indeterminate_cause :=
    [MkCause cause_unverified
       (reasonAt (condition_id c) "CONDITION_INDETERMINATE"
          (condition_id c +:+ " is " +:+ verdict_text (c_result c) +:+ " ("
           +:+ str_join ", " (Journal.unique (affected_by c ++ map code (c_reasons c))) +:+ "); expected pass") (head refs))
       refs] in
  match c_result c with
  | v_pass => []
  | v_fail =>
      match affected_by c with
      | [] => [MkCause cause_invalid
                 (reasonAt (condition_id c) "CONDITION_FAILED"
                    (condition_id c +:+ " fails on unaffected evidence; expected pass") (head refs)) refs]
      | _ => indeterminate_cause
      end
  | v_indeterminate => indeterminate_cause
  end.

Definition conflictCauses (view : TreatmentView) : list GateCause :=
  map (fun conflict =>
    MkCause cause_invalid
      (reasonAt "BR-RUA-025" "TIMEOUT_SIGNAL_CONFLICT"
         ("timeout_signal_conflict_recorded for caller event " +:+ text_in conflict "caller_timeout_event_id" +:+ " against "
          +:+ text_in conflict "existing_caller_event_id" +:+ "; expected no conflicting control evidence") (Some (eventRef conflict)))
      [eventRef conflict]) (conflicts view).

Definition missingCause (state : SubjectArtifactState) : GateCause :=
  MkCause cause_unverified (incompleteArtifactReason state "BR-RUA-025") (opt_list (as_ref state)).

Definition configurationCauses (view : TreatmentView) : list GateCause :=
  match configuration view with
  | None => [missingCause (configuration_state view)]
  | Some l =>
      match l_record l with
      | COMMIT_THEN_TIMEOUT => []
      | s => [MkCause cause_invalid
                (reasonAt "BR-RUA-025" "SCENARIO_MISMATCH"
                   ("provider configuration declares scenario " +:+ scenario_text s +:+ "; expected COMMIT_THEN_TIMEOUT")
                   (as_ref (configuration_state view)))
                (opt_list (as_ref (configuration_state view)))]
      end
  end.

Definition snapshotReleased (view : TreatmentView) : bool :=
  match snapshot_item (snapshot view) with
  | Some i => bool_decide (t_state i = SAFETY_RELEASED)
  | None => false
  end.

Definition safetyCauses (view : TreatmentView) : list GateCause :=
  if Nat.eqb (length (safety_releases view)) 0 && negb (snapshotReleased view) then []
  else
    let refs := refsOf (map refOf_some (safety_releases view)
                        ++ [if snapshotReleased view then as_ref (snapshot_state view) else None]) in
    [MkCause cause_unverified
       (reasonAt "BR-RUA-025" "SAFETY_RELEASED"
          (count_text (safety_releases view) +:+ " treatment_safety_released event(s), treatment state "
           +:+ (if snapshotReleased view then "SAFETY_RELEASED" else "not released") +:+ "; expected no safety release") (head refs))
       refs].

Definition missingRecordCauses (view : TreatmentView) : list GateCause :=
  (match snapshot view with None => [missingCause (snapshot_state view)] | Some _ => [] end)
  ++ match commit view with
     | Some _ => []
     | None =>
         [MkCause cause_unverified
            (reasonAt "BR-RUA-025" "TARGETED_COMMIT_NOT_UNIQUE"
               (count_text (targeted_commits view) +:+ " targeted provider_transaction_committed event(s); expected exactly one")
               (as_ref (j_provider (journals view))))
            (opt_list (as_ref (j_provider (journals view))))]
     end.

Definition fidelity_causes (conditions : list ConditionResult) (view : TreatmentView) : list GateCause :=
  flat_map conditionCauses conditions ++ conflictCauses view ++ configurationCauses view ++ commitTripleCauses view
  ++ firstAcceptedCallCauses view ++ safetyCauses view ++ missingRecordCauses view.

Definition deriveTreatmentFidelity (conditions : list ConditionResult) (view : TreatmentView) : FidelityAssessment :=
  let verifiedRefs := flat_map c_refs conditions
                      ++ refsOf [as_ref (configuration_state view); as_ref (snapshot_state view)] in
  let g := assembleApplicableGate treatment_fidelity (fidelity_causes conditions view) verifiedRefs in
  MkFidelity (value g) TREATMENT_FIDELITY_BASIS TREATMENT_CLOCK_ASSUMPTION_REFS (reasons g) (gate_refs g).

(** ** Gate G4a *)

Definition TREATMENT_EVENT_TYPES : list string :=
  ["treatment_armed"; "timeout_signal_recorded"; "timeout_signal_conflict_recorded"; "treatment_timeout_observed";
   "treatment_response_released"; "treatment_safety_released"].

Definition invalidAt (c d : string) (state : SubjectArtifactState) : GateCause :=
  MkCause cause_invalid (reasonAt "BR-RUA-025" c d (as_ref state)) (opt_list (as_ref state)).

Definition eventCause (c d : string) (ev : IndexedEvent) : GateCause :=
  MkCause cause_invalid (reasonAt "BR-RUA-025" c d (Some (eventRef ev))) [eventRef ev].

Definition unknownScenarioCauses (e : IngestedEvidence) : list GateCause :=
  match sc_trial (scope e) with
  | Some _ => []
  | None =>
      [MkCause cause_unverified
         (reasonAt "BR-RUA-025" "TRIAL_SCENARIO_UNKNOWN"
            "the trial scenario is unknown (no usable trial manifest); expected a CONTROL trial manifest" None) []]
  end.

Definition controlConfigurationCauses (e : IngestedEvidence) (state : SubjectArtifactState) : list GateCause :=
  match option_map l_record (o_provider_configuration (observations e)) with
  | None => [missingCause state]
  | Some CONTROL => []
  | Some s => [invalidAt "CONTROL_SCENARIO_MISMATCH"
                 ("provider configuration declares scenario " +:+ scenario_text s +:+ "; expected CONTROL") state]
  end.

Definition snapshotCauses (e : IngestedEvidence) (state : SubjectArtifactState) : list GateCause :=
  match option_map l_record (o_treatment_snapshot (observations e)) with
  | None => [missingCause state]
  | Some s =>
      match ts_treatment s with
      | Some i => [invalidAt "TREATMENT_ITEM_PRESENT"
                     ("the partition holds a treatment item in state " +:+ state_text (t_state i) +:+ "; expected no treatment item") state]
      | None =>
          if ts_consistent_read s then []
          else [MkCause cause_unverified
                  (reasonAt "BR-RUA-025" "SNAPSHOT_NOT_CONSISTENT"
                     "the treatment snapshot declares consistent_read false; expected a consistent read to prove absence" (as_ref state))
                  (opt_list (as_ref state))]
      end
  end.

Definition treatmentEventCauses (evs : list IndexedEvent) : list GateCause :=
  let targeted := List.filter (fun ev => eventBool ev "targeted") (eventsOfType evs "provider_transaction_committed") in
  let treatment := List.filter (fun ev => match eventString ev "record_type" with Some t => memb t TREATMENT_EVENT_TYPES | None => false end) evs in
  map (fun ev => eventCause "TREATMENT_ACTIVITY"
         (text_in ev "record_type" +:+ " " +:+ event_id_of ev
          +:+ " in a control partition; expected no treatment arming, consumption or transition") ev)
    (targeted ++ treatment).

Definition timeoutCauses (evs : list IndexedEvent) : list GateCause :=
  let timeouts := List.filter isCallerEvent (eventsOfType evs "caller_timeout_recorded") in
  let timedOut := List.filter (fun ev => bool_decide (eventString ev "outcome" = Some "TIMED_OUT"))
                    (eventsOfType evs "attempt_outcome_recorded") in
  map (fun ev => eventCause "UNCONTROLLED_TIMEOUT"
         (text_in ev "record_type" +:+ " " +:+ event_id_of ev +:+ " for attempt " +:+ text_in ev "attempt_id"
          +:+ "; expected every accepted call to return before its deadline") ev)
    (timeouts ++ timedOut).

Definition call_outcome (outcomes : list IndexedEvent) (call : IndexedEvent) : option string :=
  find_first (fun c => bool_decide (eventString c "attempt_id" = eventString call "attempt_id")) outcomes
    ≫= fun c => eventString c "outcome".

Definition acceptedCallCauses (evs : list IndexedEvent) : list GateCause :=
  let outcomes := eventsOfType evs "attempt_outcome_recorded" in
  flat_map (fun call =>
    let o := call_outcome outcomes call in
    if bool_decide (o = Some "SUCCEEDED") || bool_decide (o = Some "REJECTED") || bool_decide (o = Some "TIMED_OUT") then []
    else [MkCause cause_unverified
            (reasonAt "BR-RUA-025" "CALLER_OUTCOME_NOT_CONCLUSIVE"
               ("accepted call " +:+ text_in call "provider_call_id" +:+ " of attempt " +:+ text_in call "attempt_id"
                +:+ " has caller outcome " +:+ nullish o "(none)" +:+ "; expected SUCCEEDED or REJECTED") (Some (eventRef call)))
            [eventRef call]])
    (eventsOfType evs "provider_call_accepted").

Definition control_causes (e : IngestedEvidence) : list GateCause :=
  let evs := partitionEvents e in
  unknownScenarioCauses e
  ++ controlConfigurationCauses e (subjectArtifactState e "provider_trial_configuration")
  ++ snapshotCauses e (subjectArtifactState e "treatment_state_snapshot")
  ++ treatmentEventCauses evs ++ timeoutCauses evs
  ++ map missingCause (List.filter (fun s => negb (complete s))
       [subjectArtifactState e "caller_journal"; subjectArtifactState e "provider_journal"])
  ++ acceptedCallCauses evs.

Definition deriveControlIntegrity (e : IngestedEvidence) : GateAssessment :=
  if bool_decide (sc_subject_kind (scope e) = probe_subject)
     || bool_decide (option_map st_scenario (sc_trial (scope e)) = Some COMMIT_THEN_TIMEOUT)
  then MkGate control_integrity not_applicable [] []
  else assembleGate control_integrity (control_causes e)
         (refsOf [as_ref (subjectArtifactState e "provider_trial_configuration");
                  as_ref (subjectArtifactState e "treatment_state_snapshot");
                  as_ref (subjectArtifactState e "caller_journal"); as_ref (subjectArtifactState e "provider_journal")]).

End Fidelity.
