(* ===== verification/FidelityCorrect.v ===== *)
(** * Correctness of treatment fidelity (gate G4b)

    When the gate is verified, stated over the recorded events: the causal chain from the
    targeted commit through the caller's timer, the controller's signal and the provider's
    observation to the controlled release, with its wall-clock order, its identities and
    evidence no finding touches. *)

From S2P Require Import Prelude Timestamps Decimals Store JsonText Journal Money ControlItems Evidence Fidelity.
Import Json JsonText ControlItems Evidence Fidelity.
Open Scope Z_scope.
#[local] Set Warnings "-register-all".

Module FidelityCorrect.

(** ** Signed decimal texts *)

Lemma text_of_negative n : n < 0 -> head (chars (string_of_Z n)) = Some (Ascii.ascii_of_nat 45).
Proof. intros Hn. destruct n as [|p|p]; try lia. reflexivity. Qed.

Lemma starts_minus_text n : starts_minus (string_of_Z n) = true <-> n < 0.
Proof.
  unfold starts_minus. rewrite bool_decide_eq_true. split; [|apply text_of_negative].
  intros H. destruct (Z.lt_ge_cases n 0) as [|Hn]; [done|exfalso].
  destruct (spelling n Hn) as [Hc _]. apply canonical_digits in Hc.
  destruct (chars (string_of_Z n)) as [|c l]; [done|]. injection H as ->. by vm_compute in Hc.
Qed.

Lemma zero_text n : string_of_Z n = "0" <-> n = 0.
Proof.
  split; [|by intros ->]. intros H. destruct (Z.lt_ge_cases n 0) as [Hn|Hn].
  - pose proof (text_of_negative n Hn) as Hm. by rewrite H in Hm.
  - destruct (spelling n Hn) as [_ Hv]. rewrite H in Hv. by vm_compute in Hv.
Qed.

(** ** Findings that touch cited evidence *)

(** A finding that names an event touches its references; one that names only an artifact
    touches every reference into it. *)
Definition touches (f : IngestionFinding) (refs : list EvidenceRef) : Prop :=
  (f_code f ∉ BENIGN_CODES)
  /\ match f_event f with
     | Some i => exists r, r ∈ refs /\ ref_event r = Some i
     | None => exists r, r ∈ refs /\ f_path f = Some (ref_path r)
     end.

Lemma all_iff {A} (l : list A) (P Q : A -> Prop) : (forall x, P x <-> Q x) -> (forall x, x ∈ l -> P x) <-> (forall x, x ∈ l -> Q x).
Proof. naive_solver. Qed.

Lemma affecting_nil fs refs : affectingFindings fs refs = [] <-> forall f, f ∈ fs -> ~ touches f refs.
Proof.
  unfold affectingFindings. rewrite filter_bool_nil, existsb_false. apply all_iff. intros f.
  unfold touches. destruct (memb (f_code f) BENIGN_CODES) eqn:Hb.
  - apply memb_true in Hb. naive_solver.
  - apply memb_false in Hb. destruct (f_event f) as [i|].
    + rewrite memb_false, list_elem_of_omap. naive_solver.
    + destruct (f_path f) as [p|]; [rewrite memb_false, list_elem_of_fmap; naive_solver|naive_solver].
Qed.

Lemma touches_app f a b : touches f (a ++ b) <-> touches f a \/ touches f b.
Proof. unfold touches. destruct (f_event f); setoid_rewrite elem_of_app; naive_solver. Qed.

Lemma touches_proper f a b : (forall r, r ∈ a <-> r ∈ b) -> touches f a <-> touches f b.
Proof. intros H. unfold touches. destruct (f_event f); by setoid_rewrite H. Qed.

(** ** Passed conditions *)

Definition untouched (view : TreatmentView) (refs : list (option EvidenceRef)) : Prop :=
  forall f, f ∈ view_findings view -> ~ touches f (omap id refs).

Lemma finished_pass view id_ draft : c_result (finishCondition id_ draft (view_findings view)) = v_pass <->
  d_result draft = v_pass /\ untouched view (d_refs draft).
Proof.
  unfold finishCondition. cbn [c_result]. unfold untouched.
  assert (Hr : affectingFindings (view_findings view) (canonicalRefs (omap id (d_refs draft))) = []
    <-> forall f, f ∈ view_findings view -> ~ touches f (omap id (d_refs draft))).
  { rewrite affecting_nil. apply all_iff. intros f. apply not_iff_compat, touches_proper.
    apply canonical_refs. }
  rewrite <- Hr. destruct (affectingFindings _ _); naive_solver.
Qed.

(** BR-RUA-010: the commit was confirmed before the caller's timer fired. *)
Definition committed_before_timer (confirmed timeout : IndexedEvent) : Prop :=
  exists c t, eventString confirmed "committed_at" = Some c /\ eventString timeout "timer_fired_at" = Some t
  /\ Utc.isUtcMillis c = true /\ Utc.isUtcMillis t = true /\ nullish (Utc.Date_parse c) 0 < nullish (Utc.Date_parse t) 0.

Lemma differenceMs_Some l r d : differenceMs l r = Some d <->
  exists t c, l = Some t /\ r = Some c /\ Utc.isUtcMillis t = true /\ Utc.isUtcMillis c = true
  /\ d = string_of_Z (nullish (Utc.Date_parse t) 0 - nullish (Utc.Date_parse c) 0).
Proof.
  unfold differenceMs, signedDifferenceMs. split.
  - destruct l as [t|]; [|done]. destruct r as [c|]; [|done]. intros H. exists t, c.
    destruct (Utc.isUtcMillis t); [|done]. destruct (Utc.isUtcMillis c); [|done]. by injection H as <-.
  - by intros (t & c & -> & -> & -> & -> & ->).
Qed.

Lemma ordering_pass z observed refs : d_result (orderingDraft (string_of_Z z) observed refs) = v_pass <-> 0 < z.
Proof.
  unfold orderingDraft. case_bool_decide as H0; [apply zero_text in H0; cbn; split; [done|lia]|].
  rewrite zero_text in H0. cbn. destruct (starts_minus _) eqn:Hs.
  - apply starts_minus_text in Hs. split; [done|lia].
  - split; [|done]. intros _. destruct (Z.lt_ge_cases z 0) as [Hz|]; [|lia].
    apply starts_minus_text in Hz. congruence.
Qed.

Lemma commit_before_timer_pass view : d_result (commitBeforeTimer_draftOf view) = v_pass <->
  exists c t, confirmation view = Some c /\ caller_timeout view = Some t /\ committed_before_timer c t.
Proof.
  unfold commitBeforeTimer_draftOf, committed_before_timer.
  destruct (differenceMs _ _) as [d|] eqn:Hd.
  - apply differenceMs_Some in Hd as (t & c & Ht & Hc & Vt & Vc & ->). rewrite ordering_pass.
    unfold opt_text in Ht, Hc. destruct (caller_timeout view) as [et|]; [|done]. destruct (confirmation view) as [ec|]; [|done].
    cbn in Ht, Hc. split.
    + intros H. exists ec, et. split_and!; [done|done|]. exists c, t. split_and!; try done. lia.
    + intros (? & ? & [= <-] & [= <-] & c' & t' & Hc' & Ht' & _ & _ & H). assert (c' = c) by congruence. assert (t' = t) by congruence.
      subst. lia.
  - split; [by destruct (_ && _)|]. intros (ec & et & Hec & Het & c & t & Hc & Ht & Vc & Vt & _).
    rewrite Hec, Het in Hd. unfold opt_text in Hd. cbn in Hd. rewrite Hc, Ht in Hd. unfold differenceMs in Hd. by rewrite Vc, Vt in Hd.
Qed.

(** BR-RUA-011: the application timer won at or after three seconds on an unsettled transport
    and aborted before it recorded. *)
Record timer_contract (timeout : IndexedEvent) : Prop := TimerContract {
  tc_elapsed : exists ns, eventString timeout "elapsed_ns" = Some ns /\ Money.isDecimalString ns = true
                          /\ 3000000000 <= digits_value (chars ns);
  tc_winner : eventString timeout "arbiter_winner" = Some "TIMER";
  tc_unsettled : eventBool timeout "transport_settled_at_claim" = false;
  tc_aborted : String.ltb (nullish (eventString timeout "recorded_at") "") (nullish (eventString timeout "abort_requested_at") "") = false;
}.

Lemma compare_deadline ns : Money.isDecimalString ns = true ->
  match Money.compareDecimal ns APPLICATION_DEADLINE_NS with Ok c => c <? 0 | Err _ => false end
  = (digits_value (chars ns) <? 3000000000).
Proof.
  intros Hd. unfold Money.compareDecimal, Money.toBigInt. rewrite Hd.
  change (Money.isDecimalString APPLICATION_DEADLINE_NS) with true.
  change (digits_value (chars APPLICATION_DEADLINE_NS)) with 3000000000. cbn [negb bind_result].
  destruct (_ =? _) eqn:E1; [apply Z.eqb_eq in E1; by rewrite E1|]. by destruct (digits_value (chars ns) <? 3000000000).
Qed.

Lemma timer_contract_kept timeout : violatesTimerContract timeout = false <-> timer_contract timeout.
Proof.
  unfold violatesTimerContract. rewrite !orb_false_iff, !negb_false_iff, bool_decide_eq_true. split.
  - intros [[[[H1 H2] H3] H4] H5]. split; [|done..]. rewrite compare_deadline in H2 by done.
    destruct (eventString timeout "elapsed_ns") as [ns|]; [|done]. exists ns. split_and!; [done|done|]. by apply Z.ltb_ge.
  - intros [(ns & Hns & Hd & He) H3 H4 H5]. rewrite Hns. cbn [nullish]. rewrite compare_deadline, Hd by done.
    split_and!; try done. by apply Z.ltb_ge.
Qed.

(** The timeout is caused by the attempt's dispatch, and the attempt timed out. *)
Definition timeout_correlated (view : TreatmentView) (timeout : IndexedEvent) : Prop :=
  exists d o, dispatch view = Some d /\ outcome view = Some o /\ causedBy timeout d = true
  /\ eventString timeout "monotonic_origin_event_id" = Some (event_id_of d) /\ eventString o "outcome" = Some "TIMED_OUT".

Lemma correlated_iff view timeout : correlationReason view timeout = None <-> timeout_correlated view timeout.
Proof.
  unfold correlationReason, timeout_correlated. destruct (dispatch view) as [d|]; [|split; [done|naive_solver]].
  destruct (causedBy timeout d) eqn:Hc; cbn [negb orb].
  2:{ split; [done|]. intros (? & ? & [= <-] & _ & H & _). congruence. }
  case_bool_decide as Hm; cbn [negb].
  2:{ split; [done|]. intros (? & ? & [= <-] & _ & _ & H & _). congruence. }
  case_bool_decide as Ho.
  - split; [|done]. intros _. unfold opt_text in Ho. destruct (outcome view) as [o|]; [|done]. exists d, o. by split_and!.
  - split; [done|]. intros (d' & o & _ & Hov & _ & _ & H). destruct Ho. unfold opt_text. by rewrite Hov.
Qed.

Lemma application_timeout_pass view : d_result (applicationTimeout_draftOf view) = v_pass <->
  exists t, caller_timeout view = Some t /\ timer_contract t /\ timeout_correlated view t.
Proof.
  unfold applicationTimeout_draftOf. destruct (caller_timeout view) as [t|].
  - pose proof (timer_contract_kept t) as H1. pose proof (correlated_iff view t) as H2.
    destruct (violatesTimerContract t); [|destruct (correlationReason view t)]; cbn [d_result]; naive_solver.
  - split; [|naive_solver]. unfold withoutTimeout. destruct (_ && _); [done|]. by destruct (as_ref _).
Qed.

(** BR-RUA-012: release, observation, signal and timeout name each other as causes. *)
Lemma continued_execution_pass view : d_result (continuedExecution_draftOf view) = v_pass <->
  exists r o s t, release view = Some r /\ observation view = Some o /\ signal view = Some s /\ caller_timeout view = Some t
  /\ causedBy r o = true /\ causedBy o s = true /\ causedBy s t = true.
Proof.
  unfold continuedExecution_draftOf, chainResolves.
  destruct (observation view) as [o|], (release view) as [r|]; [|destruct (providerStopped view); cbn; naive_solver..].
  destruct (signal view) as [s|]; [|cbn; naive_solver]. destruct (caller_timeout view) as [t|]; [|cbn; naive_solver].
  destruct (causedBy r o && causedBy o s && causedBy s t) eqn:H; cbn [d_result].
  - apply andb_true_iff in H as [[H1 H2]%andb_true_iff H3]. split; [|done]. intros _. exists r, o, s, t. by split_and!.
  - split; [done|]. intros (? & ? & ? & ? & [= <-] & [= <-] & [= <-] & [= <-] & H1 & H2 & H3). by rewrite H1, H2, H3 in H.
Qed.

(** BR-RUA-013: the signal joins exactly the commit and the timeout, and the provider
    observed that signal. *)
Record causal_join (s k t o : IndexedEvent) : Prop := CausalJoin {
  cj_causes : eventStrings s "causation_event_ids" = expectedCausation k t;
  cj_attempt : eventString s "attempt_id" = eventString t "attempt_id";
  cj_timeout : eventString s "caller_timeout_event_id" = Some (event_id_of t);
  cj_commit : eventString s "provider_commit_event_id" = Some (event_id_of k);
  cj_observed : causedBy o s = true;
  cj_observed_signal : eventString o "signal_event_id" = Some (event_id_of s);
}.

Lemma causal_join_pass view : d_result (causalJoin_draftOf view) = v_pass <->
  conflicts view = [] /\ exists s k t o, signal view = Some s /\ commit view = Some k /\ caller_timeout view = Some t
  /\ observation view = Some o /\ causal_join s k t o.
Proof.
  unfold causalJoin_draftOf. destruct (conflicts view) as [|c cs]; [|cbn; naive_solver]. cbn [length Nat.ltb Nat.leb].
  destruct (signal view) as [s|]; [|cbn; naive_solver]. destruct (commit view) as [k|]; [|cbn; naive_solver].
  destruct (caller_timeout view) as [t|]; [|cbn; naive_solver].
  assert (Hj : joinMatches s k t = true <-> eventStrings s "causation_event_ids" = expectedCausation k t
    /\ eventString s "attempt_id" = eventString t "attempt_id" /\ eventString s "caller_timeout_event_id" = Some (event_id_of t)
    /\ eventString s "provider_commit_event_id" = Some (event_id_of k)).
  { unfold joinMatches. rewrite !andb_true_iff, !bool_decide_eq_true. tauto. }
  destruct (joinMatches s k t); cbn [negb].
  2:{ split; [done|]. intros (_ & ? & ? & ? & ? & [= <-] & [= <-] & [= <-] & _ & []). exfalso. by discriminate (proj2 Hj ltac:(done)). }
  destruct (proj1 Hj eq_refl) as (J1 & J2 & J3 & J4).
  destruct (observation view) as [o|]; [|cbn; naive_solver]. cbn [d_result].
  destruct (causedBy o s) eqn:Hc; cbn [andb].
  - case_bool_decide as Hs.
    { split; [|done]. intros _. split; [done|]. exists s, k, t, o. by split_and!. }
    split; [done|]. intros (_ & ? & ? & ? & ? & [= <-] & _ & _ & [= <-] & []). done.
  - split; [done|]. intros (_ & ? & ? & ? & ? & [= <-] & _ & _ & [= <-] & []). congruence.
Qed.

(** BR-RUA-014: the release follows the observation in one provider instance. *)
Definition controlled_release (r o : IndexedEvent) : Prop :=
  causedBy r o = true /\ eventString r "source_instance_id" = eventString o "source_instance_id"
  /\ eventInt o "source_sequence" < eventInt r "source_sequence".

Lemma controlled_release_pass view : d_result (controlledRelease_draftOf view) = v_pass <->
  safety_releases view = [] /\ exists r o, release view = Some r /\ observation view = Some o /\ controlled_release r o.
Proof.
  unfold controlledRelease_draftOf, controlled_release. destruct (safety_releases view); [|cbn; naive_solver].
  destruct (release view) as [r|]; [|cbn; naive_solver].
  destruct (observation view) as [o|]; [|destruct (complete _); cbn; naive_solver].
  destruct (causedBy r o) eqn:Hc; cbn [negb].
  2:{ split; [done|]. intros (_ & ? & ? & [= <-] & [= <-] & H & _). congruence. }
  case_bool_decide as Hi; cbn [negb d_result].
  2:{ split; [done|]. by intros (_ & ? & ? & [= <-] & [= <-] & _ & H & _). }
  destruct (_ >? _) eqn:Hs; rewrite Z.gtb_ltb in Hs.
  { apply Z.ltb_lt in Hs. split; [|done]. intros _. split; [done|]. exists r, o. by split_and!. }
  apply Z.ltb_ge in Hs. split; [done|]. intros (_ & ? & ? & [= <-] & [= <-] & _ & _ & H). lia.
Qed.

(** BR-RUA-015: the caller saw neither success nor the transaction. *)
Lemma no_caller_success_pass view : d_result (noCallerSuccess_draftOf view) = v_pass <->
  carryingEvents view = [] /\ opt_text (outcome view) "outcome" = Some "TIMED_OUT".
Proof.
  unfold noCallerSuccess_draftOf. destruct (carryingEvents view) as [|c cs].
  - cbn [length Nat.ltb Nat.leb]. rewrite orb_false_r. case_bool_decide as H1; [cbn; naive_solver|].
    case_bool_decide; cbn; naive_solver.
  - rewrite orb_true_r. cbn. naive_solver.
Qed.

(** ** The other causes *)

Lemma condition_cause_nil c : conditionCauses c = [] <-> c_result c = v_pass.
Proof. unfold conditionCauses. destruct (c_result c); [done| |done]. by destruct (affected_by c). Qed.

(** Every identity a source records of the commit is the commit's own. *)
Definition triple_agrees (k : IndexedEvent) (source : TripleSource) : Prop :=
  forall f v, f ∈ TRIPLE_FIELDS -> map_get f (src_triple source) = Some v -> eventString k f = Some v.

Lemma mismatched_false k source : mismatched k source = false <-> triple_agrees k source.
Proof.
  unfold mismatched, triple_agrees. rewrite existsb_false. split.
  - intros H f v Hf Hv. specialize (H f Hf). rewrite Hv in H. apply negb_false_iff, bool_decide_eq_true in H. done.
  - intros H f Hf. specialize (H f). unfold differs. destruct (map_get f _) as [v|]; [|done].
    rewrite (H v Hf eq_refl). by rewrite bool_decide_eq_true_2.
Qed.

Definition commit_bound (view : TreatmentView) (k : IndexedEvent) : Prop :=
  (forall source, source ∈ tripleSources view k -> triple_agrees k source)
  /\ (lv_status (view_ledger view) = ledger_present -> ledger_transaction view k <> None)
  /\ exists first, earliest (accepted_calls view) = Some first
     /\ eventString first "provider_call_id" = eventString k "provider_call_id".

Lemma binding_causes_nil view k : commit view = Some k ->
  commitTripleCauses view = [] /\ firstAcceptedCallCauses view = [] <-> commit_bound view k.
Proof.
  intros Hk. unfold commitTripleCauses, firstAcceptedCallCauses, commit_bound. rewrite Hk, app_nil.
  assert (H1 : forall B (g : TripleSource -> B), map g (List.filter (mismatched k) (tripleSources view k)) = []
    <-> forall source, source ∈ tripleSources view k -> triple_agrees k source).
  { intros B g. setoid_rewrite <- mismatched_false. rewrite <- existsb_false, <- filter_bool_nil.
    split; [apply map_eq_nil|by intros ->]. }
  rewrite H1. case_bool_decide as Hp; cbn [andb].
  all: destruct (ledger_transaction view k); cbn [absent]; destruct (earliest (accepted_calls view)) as [first|];
    try case_bool_decide; naive_solver.
Qed.

Definition recorded_scenario (view : TreatmentView) : option Scenario := option_map l_record (configuration view).

Lemma other_causes_nil view k : commit view = Some k ->
  conflictCauses view ++ configurationCauses view ++ commitTripleCauses view ++ firstAcceptedCallCauses view
    ++ safetyCauses view ++ missingRecordCauses view = []
  <-> conflicts view = [] /\ recorded_scenario view = Some COMMIT_THEN_TIMEOUT /\ commit_bound view k
      /\ safety_releases view = [] /\ snapshotReleased view = false /\ snapshot view <> None.
Proof.
  intros Hk. rewrite <- (binding_causes_nil view k Hk), !app_nil.
  assert (H1 : conflictCauses view = [] <-> conflicts view = []).
  { unfold conflictCauses. split; [apply map_eq_nil|by intros ->]. }
  assert (H2 : configurationCauses view = [] <-> recorded_scenario view = Some COMMIT_THEN_TIMEOUT).
  { unfold configurationCauses, recorded_scenario. destruct (configuration view) as [l|]; cbn; [|done]. destruct (l_record l); naive_solver. }
  assert (H3 : safetyCauses view = [] <-> safety_releases view = [] /\ snapshotReleased view = false).
  { unfold safetyCauses. destruct (safety_releases view), (snapshotReleased view); cbn; naive_solver. }
  assert (H4 : missingRecordCauses view = [] <-> snapshot view <> None).
  { unfold missingRecordCauses. rewrite Hk. destruct (snapshot view); naive_solver. }
  rewrite H1, H2, H3, H4. tauto.
Qed.

(** ** Faithful treatments *)

(** The references of the events and the journal a verified gate rests on. *)
Definition cited (view : TreatmentView) : list (option EvidenceRef) :=
  [refOf (commit view); refOf (confirmation view); refOf (caller_timeout view); refOf (dispatch view); refOf (outcome view);
   as_ref (j_caller (journals view)); refOf (signal view); refOf (observation view); refOf (release view)]
  ++ map refOf_some (late_settlements view).

Definition faithful (view : TreatmentView) : Prop :=
  exists k c t s w r,
    (commit view = Some k /\ confirmation view = Some c /\ caller_timeout view = Some t
     /\ signal view = Some s /\ observation view = Some w /\ release view = Some r)
    /\ committed_before_timer c t /\ timer_contract t /\ timeout_correlated view t
    /\ causal_join s k t w /\ controlled_release r w /\ carryingEvents view = []
    /\ (conflicts view = [] /\ recorded_scenario view = Some COMMIT_THEN_TIMEOUT /\ commit_bound view k
        /\ safety_releases view = [] /\ snapshotReleased view = false /\ snapshot view <> None)
    /\ untouched view (cited view).

Lemma join_causes s k t w : causal_join s k t w -> causedBy s t = true.
Proof.
  intros [H _ _ _ _ _]. unfold causedBy. rewrite H. apply memb_true. unfold expectedCausation. apply isort_elem. set_solver.
Qed.

Lemma untouched_sub view a b : (forall r, r ∈ a -> r ∈ b) -> untouched view b -> untouched view a.
Proof.
  intros H Hb f Hf [Hc Ht]. apply (Hb f Hf). split; [done|].
  destruct (f_event f); destruct Ht as (r & Hr & He); exists r; (split; [|done]);
    apply list_elem_of_omap in Hr as (x & Hx & Hi); apply list_elem_of_omap; eauto.
Qed.

Lemma untouched_app view a b : untouched view (a ++ b) <-> untouched view a /\ untouched view b.
Proof.
  unfold untouched. rewrite omap_app. setoid_rewrite touches_app. naive_solver.
Qed.

(** Inclusions of reference lists spelled out. *)
Ltac cited_refs :=
  intros ?; unfold cited; cbn [map app]; rewrite ?elem_of_app, ?elem_of_cons, ?elem_of_nil; tauto.

(** The references of each passed condition. *)
Lemma passed_refs view :
  (d_result (commitBeforeTimer_draftOf view) = v_pass ->
     d_refs (commitBeforeTimer_draftOf view) = [refOf (commit view); refOf (confirmation view); refOf (caller_timeout view)])
  /\ (d_result (applicationTimeout_draftOf view) = v_pass ->
     d_refs (applicationTimeout_draftOf view)
     = [refOf (caller_timeout view); refOf (dispatch view); refOf (outcome view); as_ref (j_caller (journals view))])
  /\ (d_result (continuedExecution_draftOf view) = v_pass ->
     d_refs (continuedExecution_draftOf view)
     = [refOf (release view); refOf (observation view); refOf (signal view); refOf (caller_timeout view)] ++ map refOf_some (safety_releases view))
  /\ (d_result (causalJoin_draftOf view) = v_pass ->
     d_refs (causalJoin_draftOf view)
     = [refOf (signal view); refOf (commit view); refOf (caller_timeout view); refOf (observation view)] ++ map refOf_some (conflicts view))
  /\ (d_result (controlledRelease_draftOf view) = v_pass ->
     d_refs (controlledRelease_draftOf view) = [refOf (release view); refOf (observation view)] ++ map refOf_some (safety_releases view))
  /\ (d_result (noCallerSuccess_draftOf view) = v_pass ->
     d_refs (noCallerSuccess_draftOf view)
     = [refOf (outcome view)] ++ map refOf_some (carryingEvents view) ++ map refOf_some (late_settlements view)).
Proof.
  split_and!.
  - unfold commitBeforeTimer_draftOf. destruct (differenceMs _ _); [|by destruct (_ && _)].
    unfold orderingDraft. by case_bool_decide.
  - unfold applicationTimeout_draftOf. destruct (caller_timeout view) as [t|].
    + destruct (violatesTimerContract t); [done|]. by destruct (correlationReason view t).
    + unfold withoutTimeout. destruct (_ && _); [done|]. by destruct (as_ref _).
  - unfold continuedExecution_draftOf. destruct (observation view), (release view); [|by destruct (providerStopped view)..].
    by destruct (chainResolves view).
  - unfold causalJoin_draftOf. destruct (_ <? _)%nat; [done|]. destruct (signal view), (commit view), (caller_timeout view); try done.
    destruct (negb _); [done|]. by destruct (observation view).
  - unfold controlledRelease_draftOf. destruct (safety_releases view); [|done]. destruct (release view); [|done].
    destruct (observation view); [|by destruct (complete _)]. by repeat destruct (negb _).
  - unfold noCallerSuccess_draftOf. destruct (_ || _); [done|]. by case_bool_decide.
Qed.

Lemma fidelity_verified_causes view :
  fa_value (deriveTreatmentFidelity (evaluateTreatmentConditions view) view) = verified
  <-> fidelity_causes (evaluateTreatmentConditions view) view = [].
Proof.
  unfold deriveTreatmentFidelity, assembleApplicableGate. cbn [fa_value value].
  destruct (fidelity_causes _ _) as [|c cs]; [done|]. by destruct (existsb _ _).
Qed.

Lemma conditions_nil view : flat_map conditionCauses (evaluateTreatmentConditions view) = [] <->
  (d_result (commitBeforeTimer_draftOf view) = v_pass /\ untouched view (d_refs (commitBeforeTimer_draftOf view)))
  /\ (d_result (applicationTimeout_draftOf view) = v_pass /\ untouched view (d_refs (applicationTimeout_draftOf view)))
  /\ (d_result (continuedExecution_draftOf view) = v_pass /\ untouched view (d_refs (continuedExecution_draftOf view)))
  /\ (d_result (causalJoin_draftOf view) = v_pass /\ untouched view (d_refs (causalJoin_draftOf view)))
  /\ (d_result (controlledRelease_draftOf view) = v_pass /\ untouched view (d_refs (controlledRelease_draftOf view)))
  /\ (d_result (noCallerSuccess_draftOf view) = v_pass /\ untouched view (d_refs (noCallerSuccess_draftOf view))).
Proof.
  unfold evaluateTreatmentConditions. cbn [flat_map]. rewrite !app_nil, !condition_cause_nil.
  unfold evaluateCommitBeforeTimer, evaluateApplicationTimeout, evaluateContinuedExecution, evaluateCausalJoin,
    evaluateControlledRelease, evaluateNoCallerSuccess. rewrite !finished_pass. tauto.
Qed.

(** The gate is verified exactly on faithful views. *)
Lemma fidelity_verified_iff view :
  fa_value (deriveTreatmentFidelity (evaluateTreatmentConditions view) view) = verified <-> faithful view.
Proof.
  rewrite fidelity_verified_causes. unfold fidelity_causes. rewrite app_nil, conditions_nil.
  destruct (passed_refs view) as (R1 & R2 & R3 & R4 & R5 & R6). split.
  - intros [([P1 U1] & [P2 U2] & [P3 U3] & [P4 U4] & [P5 U5] & [P6 U6]) Hother].
    rewrite R1 in U1 by done. rewrite R2 in U2 by done. rewrite R3 in U3 by done. rewrite R6 in U6 by done. clear R1 R2 R3 R4 R5 R6.
    apply commit_before_timer_pass in P1 as (c & t & Hc & Ht & P1).
    apply application_timeout_pass in P2 as (t' & Ht' & P2 & P2'). assert (t' = t) as -> by congruence.
    apply causal_join_pass in P4 as (Hcf & s & k & t' & w & Hs & Hk & Ht'' & Hw & P4). assert (t' = t) as -> by congruence.
    apply controlled_release_pass in P5 as (_ & r & w' & Hr & Hw' & P5). assert (w' = w) as -> by congruence.
    apply no_caller_success_pass in P6 as [P6 _]. apply (other_causes_nil view k Hk) in Hother.
    exists k, c, t, s, w, r. split_and!; try done; try apply Hother.
    apply untouched_app in U3 as [U3 _]. apply untouched_app in U6 as [_ U6]. apply untouched_app in U6 as [_ U6].
    unfold cited. apply untouched_app. split; [|done].
    eapply untouched_sub; [|apply untouched_app; split; [exact U1|apply untouched_app; split; [exact U2|exact U3]]]. cited_refs.
  - intros (k & c & t & s & w & r & (Hk & Hc & Ht & Hs & Hw & Hr) & H1 & H2 & H3 & H4 & H5 & H6 & H7 & U).
    rewrite (other_causes_nil view k Hk). split; [|done]. destruct H7 as (Hcf & _ & _ & Hsr & _).
    assert (P1 : d_result (commitBeforeTimer_draftOf view) = v_pass) by (apply commit_before_timer_pass; eauto).
    assert (P2 : d_result (applicationTimeout_draftOf view) = v_pass) by (apply application_timeout_pass; eauto).
    assert (P3 : d_result (continuedExecution_draftOf view) = v_pass).
    { apply continued_execution_pass. exists r, w, s, t. split_and!; try done; [apply H5|apply H4|by eapply join_causes]. }
    assert (P4 : d_result (causalJoin_draftOf view) = v_pass) by (apply causal_join_pass; split; [done|]; by exists s, k, t, w).
    assert (P5 : d_result (controlledRelease_draftOf view) = v_pass) by (apply controlled_release_pass; split; [done|]; by exists r, w).
    assert (P6 : d_result (noCallerSuccess_draftOf view) = v_pass).
    { apply no_caller_success_pass. split; [done|]. destruct H3 as (d & o & _ & Ho & _ & _ & Hto). unfold opt_text. by rewrite Ho. }
    rewrite (R1 P1), (R2 P2), (R3 P3), (R4 P4), (R5 P5), (R6 P6), Hcf, Hsr, H6.
    split_and!; try done; (eapply untouched_sub; [|exact U]); cited_refs.
Qed.

Lemma ltb_leb a b : String.ltb a b = false <-> String.leb b a = true.
Proof.
  unfold String.ltb, String.leb. rewrite (String.compare_antisym b a). destruct (String.compare a b); simpl; naive_solver.
Qed.

(** The earliest call is one of the calls, and none occurred before it. *)
Lemma earliest_least calls first : earliest calls = Some first ->
  first ∈ calls /\ forall c, c ∈ calls -> String.leb (occurred_at first) (occurred_at c) = true.
Proof.
  unfold earliest. set (pick := fun f call => _).
  assert (H : forall l acc, fold_left pick l acc = Some first ->
    (first ∈ l \/ acc = Some first) /\ forall c, c ∈ l \/ acc = Some c -> String.leb (occurred_at first) (occurred_at c) = true).
  { induction l as [|x l IH]; intros acc Hf; cbn [fold_left] in Hf.
    - split; [by right|]. intros c [Hc|Hc]; [set_solver|]. assert (c = first) as -> by congruence. apply ltb_leb.
      unfold String.ltb. by rewrite string_compare_refl.
    - destruct (IH _ Hf) as [Hin Hle]. unfold pick in Hin, Hle. destruct acc as [f|].
      + destruct (String.ltb (occurred_at x) (occurred_at f)) eqn:E.
        * split; [set_solver|]. intros c [[->|Hc]%elem_of_cons|[= <-]]; [by apply Hle; right|by apply Hle; left|].
          assert (Hx : String.leb (occurred_at first) (occurred_at x) = true) by (by apply Hle; right).
          apply leb_trans with (occurred_at x); [done|]. destruct (leb_total (occurred_at x) (occurred_at f)) as [|Hn]; [done|].
          apply ltb_leb in Hn. congruence.
        * split; [set_solver|]. apply ltb_leb in E.
          intros c [[->|Hc]%elem_of_cons|[= <-]]; [|by apply Hle; left|by apply Hle; right].
          apply leb_trans with (occurred_at f); [|done]. by apply Hle; right.
      + split; [set_solver|]. intros c [[->|Hc]%elem_of_cons|?]; [by apply Hle; right|by apply Hle; left|done]. }
  intros Hf. destruct (H calls None Hf) as [[?|?] Hle]; [|done]. split; [done|]. intros c Hc. apply Hle. by left.
Qed.

(** C18: Treatment fidelity. For a trial that must have been treated, gate G4b is verified
    exactly when the recorded history is the intended one: one targeted commit, confirmed
    strictly before the caller's timer fired; the application timer won at three seconds
    or later on an unsettled transport, caused by the attempt's dispatch, and the attempt
    timed out; the controller's signal names exactly the commit and the timeout as its
    causes; the provider observed that signal and released the response after it in the
    same instance; no caller event carries the transaction; no safety release and no
    conflict is recorded; the configuration declares the treatment; the confirmation, the
    ledger and the treatment item agree with the commit's identities; the first accepted
    call is the targeted one; and no finding touches any of the evidence cited. *)
Theorem treatment_fidelity_verified_iff e view : buildTreatmentView e = Ok view ->
  (fa_value (deriveTreatmentFidelity (evaluateTreatmentConditions view) view) = verified <-> faithful view)
  /\ (forall k, commit view = Some k <-> targeted_commits view = [k])
  /\ (forall first, earliest (accepted_calls view) = Some first ->
        forall c, c ∈ accepted_calls view -> String.leb (occurred_at first) (occurred_at c) = true).
Proof.
  intros Hv. split; [apply fidelity_verified_iff|]. split.
  - intros k. unfold buildTreatmentView in Hv. destruct (scenarioRefusal e); [done|]. injection Hv as <-. cbn [commit targeted_commits].
    destruct (List.filter _ _) as [|k1 [|k2 l]]; naive_solver.
  - intros first Hf. by apply earliest_least.
Qed.

Definition at_second (n : Z) : string := Utc.toISOString (1767225600000 + n * 1000).

Definition journalled (path : string) (n : Z) (id type source : string) (members : list (string * json)) : IndexedEvent :=
  MkEvent ([("event_id", JStr id); ("record_type", JStr type); ("source", JStr source); ("occurred_at", JStr (at_second n));
            ("source_instance_id", JStr source)] ++ members) path "sha" None subject_origin "t1" 1.

Definition found (class : string) : string * IngestedArtifact :=
  (class, MkArtifact class "sha" subject_origin (Some class) (Some required) parsed []).

(** A treated trial: committed at second 2, timed out at second 4, signalled, observed and
    released. *)
Definition treated_trial : IngestedEvidence :=
  let ids := [("attempt_id", JStr "a1"); ("provider_commit_id", JStr "k1"); ("provider_transaction_id", JStr "tx1"); ("provider_call_id", JStr "c1")] in
  let causes l := ("causation_event_ids", JArr (map JStr l)) in
  MkEvidence
    (MkEvidenceScope trial_subject (Some (Journal.id_run "run")) (Some "manifest") (Some (MkSubjectTrial "t1" "m" "v1" COMMIT_THEN_TIMEOUT)) false)
    [] (map found ["caller_journal"; "provider_journal"; "controller_journal"; "provider_trial_configuration"; "treatment_state_snapshot"; "ledger_snapshot"])
    (MkIndex [] [] []
       [journalled "caller_journal" 1 "e1" "dispatch_started" "conventional_caller" [("attempt_id", JStr "a1")];
        journalled "provider_journal" 1 "e2" "provider_call_accepted" "refund_provider" ids;
        journalled "provider_journal" 2 "e3" "provider_transaction_committed" "refund_provider" (ids ++ [("targeted", JBool true)]);
        journalled "provider_journal" 2 "e4" "provider_commit_confirmed" "refund_provider" (ids ++ [("committed_at", JStr (at_second 2)); causes ["e3"]]);
        journalled "caller_journal" 4 "e5" "caller_timeout_recorded" "conventional_caller"
          [("attempt_id", JStr "a1"); ("timer_fired_at", JStr (at_second 4)); ("elapsed_ns", JStr "3000000000"); ("arbiter_winner", JStr "TIMER");
           ("transport_settled_at_claim", JBool false); ("abort_requested_at", JStr (at_second 4)); ("recorded_at", JStr (at_second 4));
           ("monotonic_origin_event_id", JStr "e1"); causes ["e1"]];
        journalled "caller_journal" 4 "e6" "attempt_outcome_recorded" "conventional_caller" [("attempt_id", JStr "a1"); ("outcome", JStr "TIMED_OUT")];
        journalled "controller_journal" 5 "e7" "timeout_signal_recorded" "treatment_controller"
          (ids ++ [("caller_timeout_event_id", JStr "e5"); ("provider_commit_event_id", JStr "e3"); causes ["e3"; "e5"]]);
        journalled "provider_journal" 6 "e8" "treatment_timeout_observed" "refund_provider"
          (ids ++ [("signal_event_id", JStr "e7"); ("source_sequence", JNum (JSInt 4)); causes ["e7"]]);
        journalled "provider_journal" 7 "e9" "treatment_response_released" "refund_provider" (ids ++ [("source_sequence", JNum (JSInt 5)); causes ["e8"]])]
       [])
    (let tx := MkTransaction "tx1" "k1" "c1" "a1" "pr1" "rr" "pay" 1250 "BRL" "SUCCEEDED" in
     MkLedgerView ledger_present (Some (MkLocated (MkSnapshot "evidence_collector" true (at_second 150) true [MkPage 1 None None 1] [tx]) "ledger_snapshot" "sha"))
       [tx] [] true [])
    (MkObservations None None (Some (MkLocated COMMIT_THEN_TIMEOUT "provider_trial_configuration" "sha"))
       (Some (MkLocated (MkTreatmentSnapshot true None) "treatment_state_snapshot" "sha")) None None [])
    (MkRegistry [] [] []) [] None.

Lemma treatment_fidelity_verified_iff_witness : exists view, buildTreatmentView treated_trial = Ok view /\ faithful view.
Proof.
  destruct (buildTreatmentView treated_trial) as [view|] eqn:Hv; [|vm_compute in Hv; discriminate Hv].
  exists view. split; [reflexivity|]. apply (treatment_fidelity_verified_iff treated_trial view Hv).
  assert (H : match buildTreatmentView treated_trial with
              | Ok v => fa_value (deriveTreatmentFidelity (evaluateTreatmentConditions v) v) = verified
              | Err _ => False
              end) by (vm_compute; reflexivity).
  rewrite Hv in H. exact H.
Defined.

End FidelityCorrect.
