(* ===== verification/IngestionGates.v ===== *)
(** * The gates ingestion owns (src/study-1/src/evidence-ingestion/)

    Correlation members (record-correlation.ts), file roles (artifact-roles.ts), the
    digests that bind the core files (core-digests.ts), and the gates G2
    (traceability-gate.ts), G3 (identity-integrity-gate.ts) and G8
    (evidence-integrity-gate.ts). *)

From S2P Require Import Prelude Timestamps Store JsonText LeaseItem Journal ControlItems Evidence.
Import Json JsonText Evidence.
Open Scope Z_scope.
#[local] Set Warnings "-register-all".

Module IngestionGates.

(** ** Correlation *)

Definition EXECUTION_ID_FIELDS : list string := ["run_id"; "variant_validation_id"; "transport_probe_id"].

Definition executionIdField (identity : Journal.ExecutionIdentity) : string :=
  match identity with
  | Journal.id_run _ => "run_id"
  | Journal.id_transport_probe _ => "transport_probe_id"
  | Journal.id_variant_validation _ => "variant_validation_id"
  end.

Definition executionIdValue (identity : Journal.ExecutionIdentity) : string :=
  match identity with
  | Journal.id_run i => i
  | Journal.id_transport_probe i => i
  | Journal.id_variant_validation i => i
  end.

Definition otherExecutionField (v : json) (active : Journal.ExecutionIdentity) : option string :=
  find_first (fun field =>
    match ownString v field with
    | None => false
    | Some named => negb (bool_decide (field = executionIdField active)) || negb (bool_decide (named = executionIdValue active))
    end) EXECUTION_ID_FIELDS.

Definition partitionOf (v : json) : string := nullish (ownString v "trial_id") EXECUTION_PARTITION.

Definition EXECUTION_LEVEL_CLASSES : list string := ["execution_manifest"; "resource_manifest"; "runner_journal"].

Definition isUnitFile (a : IngestedArtifact) : bool :=
  bool_decide (a_origin a = subject_origin)
  && match a_class a with Some c => negb (memb c EXECUTION_LEVEL_CLASSES) | None => false end.

(** ** Core digests *)

Record DigestReference := MkDigestReference {
  dr_member : string;
  dr_expectation : string;
  dr_actual : string;
  dr_binds : json -> bool;
}.

Definition TRIAL_MANIFEST_PINS : list (string * string) :=
  [("resource_manifest_sha256", "resource_manifest"); ("payment_sha256", "payment");
   ("approved_decision_sha256", "approved_decision")].

Definition digestReferences (s : EvidenceScope) : list DigestReference :=
  match sc_execution s, sc_execution_manifest_sha256 s with
  | Some execution, Some digest =>
      [MkDigestReference "execution_manifest_sha256" "the execution manifest digest" digest
         (fun v => bool_decide (ownString v (executionIdField execution) = Some (executionIdValue execution)))]
  | _, _ => []
  end
  ++ match sc_trial s with
     | Some t =>
         [MkDigestReference "trial_manifest_sha256" "the trial manifest digest" (st_trial_manifest_sha256 t)
            (fun v => bool_decide (ownString v "trial_id" = Some (st_trial_id t)))]
     | None => []
     end.

Definition usableRecords (a : IngestedArtifact) : list IngestedRecord :=
  List.filter (fun r => negb (bool_decide (ir_validity r = schema_invalid))) (a_records a).

Definition mismatchFinding (path : string) (reference : DigestReference) (mismatched : list (IngestedRecord * string)) :
  list IngestionFinding :=
  match mismatched with
  | [] => []
  | (first, claimed) :: _ =>
      let where_ := match ir_line first with None => "document" | Some n => "line " +:+ string_of_Z n end in
      let n := Z.of_nat (length mismatched) in
      [ingestionFinding CORE_FILE_DIGEST_MISMATCH
         (aggregatedDetail (where_ +:+ ": " +:+ dr_member reference +:+ " names " +:+ boundedJsonText (JStr claimed) QUOTED_JSON_LIMIT
                            +:+ "; expected " +:+ dr_expectation reference) n)
         (Some path) (ownString (ir_value first) "event_id") None n]
  end.

Definition claims_other (reference : DigestReference) (r : IngestedRecord) : list (IngestedRecord * string) :=
  match ownString (ir_value r) (dr_member reference) with
  | Some claimed =>
      if dr_binds reference (ir_value r) && negb (bool_decide (claimed = dr_actual reference)) then [(r, claimed)] else []
  | None => []
  end.

Definition referenceMismatches (a : IngestedArtifact) (references : list DigestReference) : list IngestionFinding :=
  flat_map (fun reference => mismatchFinding (a_path a) reference (flat_map (claims_other reference) (usableRecords a))) references.

Definition of_class (c : string) (a : IngestedArtifact) : bool := bool_decide (a_class a = Some c).

Definition trialManifestPins (artifacts : list IngestedArtifact) : list IngestionFinding :=
  match find_first (of_class "trial_manifest") artifacts with
  | None => []
  | Some manifest =>
      match a_records manifest with
      | record :: _ =>
          if bool_decide (ir_validity record = valid_record) then
            flat_map (fun '(pin_member, pin_class) =>
              match find_first (of_class pin_class) artifacts with
              | None => []
              | Some pinned =>
                  let claimed := ownString (ir_value record) pin_member in
                  if bool_decide (claimed = Some (a_sha256 pinned)) then []
                  else [ingestionFinding CORE_FILE_DIGEST_MISMATCH
                          (pin_member +:+ " names " +:+ nullish claimed "undefined" +:+ "; expected the digest of " +:+ a_path pinned)
                          (Some (a_path manifest)) None None 1]
              end) TRIAL_MANIFEST_PINS
          else []
      | [] => []
      end
  end.

Definition indexMismatch (a : IngestedArtifact) (indexed : option (list (string * string))) : list IngestionFinding :=
  match indexed ≫= map_get (a_path a) with
  | None => []
  | Some digest =>
      if bool_decide (digest = a_sha256 a) then []
      else [ingestionFinding CORE_FILE_DIGEST_MISMATCH
              ("bytes digest to " +:+ a_sha256 a +:+ "; expected the evidence index digest " +:+ digest) (Some (a_path a)) None None 1]
  end.

Definition checkCoreDigests (artifacts : list IngestedArtifact) (s : EvidenceScope) (indexed : option (list (string * string))) :
  list IngestionFinding :=
  let examined := List.filter (fun a => negb (bool_decide (a_origin a = execution_scope))) artifacts in
  trialManifestPins examined
  ++ flat_map (fun a => referenceMismatches a (digestReferences s)) examined
  ++ flat_map (fun a => indexMismatch a indexed) examined.

(** ** Gate G2 *)

Definition MISMATCH_REJECTIONS : list string := ["EXECUTION_IDENTITY_MISMATCH"; "TRIAL_MANIFEST_DIGEST_MISMATCH"].
Definition MANIFEST_CLASSES : list string := ["execution_manifest"; "trial_manifest"].

Definition namesOtherTrial (a : IngestedArtifact) (v : json) (s : EvidenceScope) : bool :=
  match ownString v "trial_id" with
  | None => false
  | Some named =>
      isUnitFile a
      && (bool_decide (sc_subject_kind s = probe_subject)
          || match sc_trial s with Some t => negb (bool_decide (named = st_trial_id t)) | None => false end)
  end.

Definition foreignRecordCauses (s : EvidenceScope) (a : IngestedArtifact) : list GateCause :=
  flat_map (fun r =>
    let executionField := sc_execution s ≫= otherExecutionField (ir_value r) in
    match ControlItems.or_else executionField (if namesOtherTrial a (ir_value r) s then Some "trial_id" else None) with
    | None => []
    | Some field =>
        let ref := recordRef a r in
        let foreign_execution := match executionField with Some _ => true | None => false end in
        [MkCause cause_invalid
           (reasonAt "BR-RUA-008" (if foreign_execution then "EXECUTION_IDENTITY_MISMATCH" else "TRIAL_IDENTITY_MISMATCH")
              ("expected the active " +:+ (if foreign_execution then "execution" else "trial") +:+ " identity; a record of "
               +:+ a_path a +:+ " names " +:+ field +:+ " "
               +:+ boundedText (nullish (ownString (ir_value r) field) "undefined") QUOTED_JSON_LIMIT) (Some ref))
           [ref]]
    end) (usableRecords a).

Definition digestCauses (subject : list IngestedArtifact) (s : EvidenceScope) : list GateCause :=
  map (fun f =>
    MkCause cause_invalid (findingReason f)
      (map artifactRef (List.filter (fun a => bool_decide (Some (a_path a) = f_path f)) subject)))
    (checkCoreDigests subject s None).

Definition rejectionCauses (e : IngestedEvidence) : list GateCause :=
  flat_map (fun ev =>
    let rejection := eventString ev "reason" in
    let mismatch := match rejection with Some r => memb r MISMATCH_REJECTIONS | None => false end in
    if negb mismatch && negb (bool_decide (rejection = Some "CORRELATION_MISSING")) then []
    else [MkCause (if mismatch then cause_invalid else cause_unverified)
            (reasonAt "BR-RUA-008" "TRIAL_MESSAGE_REJECTED"
               ("expected the trial message to be accepted; the consumer rejected it with " +:+ nullish rejection "undefined")
               (Some (eventRef ev)))
            [eventRef ev]])
    (eventsOfType (i_subject (events e)) "trial_message_rejected").

Definition correlationCauses (e : IngestedEvidence) (subject : list IngestedArtifact) : list GateCause :=
  flat_map (fun a =>
    map (fun f => MkCause cause_unverified (findingReason f) [artifactRef a])
      (List.filter (fun f => bool_decide (f_code f = CORRELATION_MISSING) && bool_decide (f_path f = Some (a_path a))) (findings e)))
    subject.

Definition unresolvedCauses (e : IngestedEvidence) : list GateCause :=
  flat_map (fun ev =>
    match map_get (event_id_of ev) (i_unresolved_causation (events e)) with
    | None => []
    | Some missing =>
        [MkCause cause_unverified
           (reasonAt "BR-RUA-008" "CAUSAL_PREDECESSOR_MISSING"
              ("expected every causal predecessor of " +:+ nullish (eventString ev "record_type") "undefined" +:+ " to resolve; absent "
               +:+ boundedText (str_join ", " missing) QUOTED_JSON_LIMIT) (Some (eventRef ev)))
           [eventRef ev]]
    end) (i_subject (events e)).

(** A reference that carries a path alone. *)
Definition path_ref (path : string) : EvidenceRef := MkRef path "" None None None.

Definition manifestCauses (e : IngestedEvidence) (subject : list IngestedArtifact) : list GateCause :=
  let s := scope e in
  let unresolved :=
    (match sc_execution s with None => ["execution_manifest"] | Some _ => [] end)
    ++ (if bool_decide (sc_subject_kind s = trial_subject) then
          match sc_trial s with None => ["trial_manifest"] | Some _ => [] end
        else []) in
  map (fun x =>
    match find_first (fun a => bool_decide (a_path a = x_path x)) subject with
    | None =>
        MkCause cause_unverified
          (reasonAt "BR-RUA-008" "ARTIFACT_MISSING"
             ("expected the " +:+ x_class x +:+ " to correlate records against; it is absent") (Some (path_ref (x_path x)))) []
    | Some a =>
        MkCause cause_unverified
          (reasonAt "BR-RUA-008" "MANIFEST_UNUSABLE"
             ("expected a schema-valid " +:+ x_class x +:+ "; " +:+ a_path a +:+ " is unusable") (Some (artifactRef a)))
          [artifactRef a]
    end) (List.filter (fun x => memb (x_class x) unresolved) (expected e)).

Definition referenceCause (a : IngestedArtifact) (r : IngestedRecord) (indexed : option (list (string * string))) (entry : json) :
  list GateCause :=
  match ownString entry "artifact_path", ownString entry "artifact_sha256", ownString entry "package_index_sha256" with
  | Some path, Some digest, None =>
      let indexedDigest := indexed ≫= map_get path in
      let ref := recordRef a r in
      let quoted := boundedText path QUOTED_JSON_LIMIT in
      match indexedDigest with
      | None => [MkCause cause_unverified
                   (reasonAt "BR-RUA-008" "EVIDENCE_REF_UNRESOLVED"
                      ("expected every evidence reference to name indexed bytes; " +:+ quoted +:+ " is not in the evidence index")
                      (Some ref)) [ref]]
      | Some d =>
          if bool_decide (d = digest) then []
          else [MkCause cause_invalid
                  (reasonAt "BR-RUA-008" "EVIDENCE_REF_DIGEST_MISMATCH"
                     ("expected " +:+ quoted +:+ " at the indexed digest " +:+ d +:+ "; the reference names "
                      +:+ boundedText digest QUOTED_JSON_LIMIT) (Some ref)) [ref]]
      end
  | _, _, _ => []
  end.

Definition referenceCauses (indexed : option (list (string * string))) (a : IngestedArtifact) : list GateCause :=
  flat_map (fun r =>
    match ir_value r with
    | JObj m => match member "evidence_refs" m with Some (JArr entries) => flat_map (referenceCause a r indexed) entries | _ => [] end
    | _ => []
    end) (usableRecords a).

Definition subject_artifacts (e : IngestedEvidence) : list IngestedArtifact :=
  List.filter (fun a => bool_decide (a_origin a = subject_origin)) (artifact_values e).

Definition assessTraceability (e : IngestedEvidence) : GateAssessment :=
  let subject := subject_artifacts e in
  let causes :=
    flat_map (foreignRecordCauses (scope e)) subject ++ digestCauses subject (scope e) ++ rejectionCauses e
    ++ correlationCauses e subject ++ unresolvedCauses e ++ manifestCauses e subject
    ++ (if sc_reevaluation (scope e) then flat_map (referenceCauses (indexed_digests e)) subject else []) in
  let manifests := List.filter (fun a => existsb (fun name => of_class name a) MANIFEST_CLASSES) subject in
  assembleGate traceability causes (map artifactRef manifests).

(** ** Gate G3 *)

Definition reuseCauses (e : IngestedEvidence) : list GateCause :=
  map (fun c =>
    MkCause cause_invalid
      (reasonAt "INV-RUA-001" "CALLER_IDENTITY_REUSED"
         ("expected " +:+ ic_kind c +:+ " " +:+ boundedText (ic_id c) QUOTED_JSON_LIMIT
          +:+ " to be unique in the execution scope; created by " +:+ string_of_Z (Z.of_nat (length (ic_origin_event_ids c)))
          +:+ " events across partitions " +:+ boundedText (str_join ", " (ic_partitions c)) QUOTED_JSON_LIMIT) (head (ic_refs c)))
      (ic_refs c)) (ri_caller_collisions (identities e)).

Definition unregisteredCauses (e : IngestedEvidence) : list GateCause :=
  map (fun '(attempt, ref) =>
    MkCause cause_unverified
      (reasonAt "INV-RUA-001" "ATTEMPT_UNREGISTERED"
         ("expected attempt " +:+ boundedText attempt QUOTED_JSON_LIMIT +:+ " to have an attempt_registered event; none was read") (Some ref))
      [ref]) (ri_unregistered_attempts (identities e)).

Definition callerJournalCauses (e : IngestedEvidence) (callerJournal : option IngestedArtifact) : list GateCause :=
  match find_first (fun x => bool_decide (x_class x = "caller_journal")) (expected e) with
  | None => []
  | Some x =>
      match callerJournal with
      | None =>
          [MkCause cause_unverified
             (reasonAt "INV-RUA-001" "ARTIFACT_MISSING"
                ("expected the caller journal to hold every attempt registration; " +:+ x_path x +:+ " is absent") (Some (path_ref (x_path x))))
             []]
      | Some a =>
          map (fun f => MkCause cause_unverified (findingReason f) [artifactRef a])
            (List.filter (fun f => bool_decide (f_path f = Some (a_path a))
                                   && (bool_decide (f_code f = ARTIFACT_UNPARSEABLE) || bool_decide (f_code f = SOURCE_SEQUENCE_GAP)))
               (findings e))
      end
  end.

Definition scopeCauses (a : IngestedArtifact) : list GateCause :=
  let readable := bool_decide (a_parse_status a = parsed)
                  && forallb (fun r => negb (bool_decide (ir_validity r = schema_invalid))) (a_records a) in
  if negb (bool_decide (a_origin a = execution_scope)) || readable then []
  else [MkCause cause_unverified
          (reasonAt "INV-RUA-001" "IDENTITY_SCOPE_INCOMPLETE"
             ("expected the execution scope's earlier evidence to be readable; " +:+ a_path a +:+ " has unreadable records")
             (Some (artifactRef a)))
          [artifactRef a]].

Definition assessIdentityIntegrity (e : IngestedEvidence) : GateAssessment :=
  let callerJournal := find_first (is_subject_class "caller_journal") (artifact_values e) in
  let causes := reuseCauses e ++ unregisteredCauses e ++ callerJournalCauses e callerJournal
                ++ flat_map scopeCauses (artifact_values e) in
  assembleGate identity_integrity causes (map artifactRef (opt_list callerJournal)).

(** ** Gate G8 *)

Definition INVALIDATING_CODES : list IngestionFindingCode :=
  [CONFLICTING_EVENT_CONTENT; CONFLICTING_SOURCE_SEQUENCE; CORE_FILE_DIGEST_MISMATCH].
Definition UNREADABLE_CODES : list IngestionFindingCode := [ARTIFACT_UNPARSEABLE; RECORD_SCHEMA_INVALID].

Definition isRequiredEvidence (a : IngestedArtifact) : bool :=
  bool_decide (a_origin a = subject_origin)
  && (bool_decide (a_requirement a = Some required) || bool_decide (a_requirement a = Some conditional)).

Definition isJudgedEvidence (e : IngestedEvidence) (a : IngestedArtifact) : bool :=
  bool_decide (a_origin a = subject_origin)
  || match indexed_digests e with Some m => match map_get (a_path a) m with Some _ => true | None => false end | None => false end.

Definition findingCauses (e : IngestedEvidence) (f : IngestionFinding) : list GateCause :=
  match f_path f ≫= fun p => map_get p (artifacts e) with
  | None => []
  | Some a =>
      if (memb (f_code f) INVALIDATING_CODES && isJudgedEvidence e a) || (memb (f_code f) UNREADABLE_CODES && isRequiredEvidence a)
      then [MkCause cause_invalid (findingReason f) [MkRef (a_path a) (a_sha256 a) (f_event f) None None]]
      else []
  end.

Definition collisionCauses (e : IngestedEvidence) : list GateCause :=
  map (fun c =>
    MkCause cause_invalid
      (reasonAt "INV-RUA-001" "PROVIDER_IDENTITY_COLLISION"
         ("expected provider-generated " +:+ ic_kind c +:+ " " +:+ boundedText (ic_id c) QUOTED_JSON_LIMIT
          +:+ " to be unique; created by " +:+ string_of_Z (Z.of_nat (length (ic_origin_event_ids c)))
          +:+ " events across partitions " +:+ boundedText (str_join ", " (ic_partitions c)) QUOTED_JSON_LIMIT) (head (ic_refs c)))
      (ic_refs c)) (ri_provider_collisions (identities e)).

Definition indexCauses (e : IngestedEvidence) : list GateCause :=
  match indexed_digests e with
  | Some [] =>
      [MkCause cause_unverified
         (reasonAt "BR-RUA-034" "EVIDENCE_INDEX_MISSING"
            "expected the evidence index of the frozen package to re-evaluate against; none was given" None) []]
  | _ => []
  end.

Definition assessEvidenceIntegrity (e : IngestedEvidence) : GateAssessment :=
  let integral := List.filter isRequiredEvidence (artifact_values e) in
  assembleGate evidence_integrity (flat_map (findingCauses e) (findings e) ++ collisionCauses e ++ indexCauses e)
    (map artifactRef integral).

End IngestionGates.
