(* ===== verification/Oracle.v ===== *)
(** * The trial oracle (src/study-1/src/trial-oracle/)

    Attempt facts (attempt-facts.ts), the settlement facts and gates G1, G5, G6 and G7
    (trial-settlement.ts, independent-oracle-gate.ts, ledger-access-gate.ts,
    settlement-gate.ts, rule-evidence-gate.ts), the processing terminal reason
    (processing-terminal-reason.ts), the monetary basis and rules (monetary-basis.ts,
    monetary-rules.ts), the identity and unknown-outcome rules
    (logical-identity-rule.ts, unknown-outcome-rule.ts), the mirrors (mirror-rules.ts),
    validity, verdict and completion (trial-validity.ts, preservation-verdict.ts) and
    [evaluateTrial] (business-rules.ts, validity-gates.ts, oracle-result-assembly.ts,
    evaluate-trial.ts). [sumMinorUnits] and [compareDecimal] throw outside their
    domain, so the functions over them return [Result _ js_error]. *)

From S2P Require Import Prelude AttemptLifecycle Timestamps Settlement Decimals Store.
From S2P Require Import JsonText Journal Money ControlItems Evidence Fidelity IngestionGates.
Import Attempt Json JsonText ControlItems Evidence Fidelity IngestionGates.
Open Scope Z_scope.
#[local] Set Warnings "-register-all".

Module Oracle.

(** ** Attempts *)

Record AttemptFacts := MkAttemptFacts {
  registered : IndexedEvent;
  invocation : option IndexedEvent;
  dispatch_state : Attempt.DispatchState;
  attempt_outcome : option IndexedEvent;
  outcome_class : Attempt.OutcomeClass;
  contradiction : option StructuredReason;
}.

Definition compareOccurrence (a b : IndexedEvent) : bool := String.leb (occurred_at a) (occurred_at b).

Definition recorded (evs : list IndexedEvent) (type : string) : Attempt.tri :=
  match eventsOfType evs type with [] => Attempt.Absent | _ => Attempt.Present end.

(** The outcome an [attempt_outcome_recorded] carries. *)
Definition outcome_of (ev : IndexedEvent) : option Attempt.AttemptOutcome :=
  find_first (fun o => bool_decide (eventString ev "outcome" = Some (Attempt.outcome_text o)))
    [Attempt.SUCCEEDED; Attempt.REJECTED; Attempt.TIMED_OUT; Attempt.FAILED].

Definition impliesDispatch (o : option IndexedEvent) : bool :=
  match o with None => false | Some ev => negb (bool_decide (eventString ev "outcome" = Some "FAILED")) end.

Definition attemptFacts (callerEvents : list IndexedEvent) (reg : IndexedEvent) : AttemptFacts :=
  let ofAttempt := List.filter (fun ev => bool_decide (eventString ev "attempt_id" = eventString reg "attempt_id")) callerEvents in
  let o := head (eventsOfType ofAttempt "attempt_outcome_recorded") in
  let recordedDispatch := Attempt.classifyDispatch
    (Attempt.MkDispatchEvidence Attempt.Present (recorded ofAttempt "attempt_not_dispatched") (recorded ofAttempt "dispatch_started")) in
  let dispatchState :=
    if impliesDispatch o && bool_decide (recordedDispatch = Attempt.DISPATCH_UNKNOWN) then Attempt.DISPATCHED else recordedDispatch in
  let inv := find_first (fun ev => bool_decide (eventString ev "source_instance_id" = eventString reg "source_instance_id"))
               (eventsOfType callerEvents "caller_invocation_started") in
  match o ≫= outcome_of with
  | None => MkAttemptFacts reg inv dispatchState o
              (if bool_decide (dispatchState = Attempt.NOT_DISPATCHED) then Attempt.PRE_DISPATCH_FAILURE else Attempt.AMBIGUOUS) None
  | Some oc =>
      match Attempt.classifyOutcome oc dispatchState with
      | Ok cls => MkAttemptFacts reg inv dispatchState o cls None
      | Err c => MkAttemptFacts reg inv dispatchState o Attempt.AMBIGUOUS (Some c)
      end
  end.

Definition readAttempts (e : IngestedEvidence) : list AttemptFacts :=
  let callerEvents := List.filter isCallerEvent (partitionEvents e) in
  map (attemptFacts callerEvents) (isort compareOccurrence (eventsOfType callerEvents "attempt_registered")).

Definition attempt_refund (a : AttemptFacts) : option string := eventString (registered a) "refund_request_id".
Definition attempt_id_of (a : AttemptFacts) : option string := eventString (registered a) "attempt_id".

(** ** Settlement facts *)

Record TrialSettlement := MkTrialSettlement {
  ts_samples : SubjectArtifactState;
  ts_runner_journal : SubjectArtifactState;
  ts_published : option IndexedEvent;
  ts_assessed : option IndexedEvent;
  ts_derived : option Settlement.SettlementAssessment;
}.

(** [Date.parse] of a recorded instant. *)
Definition instant (s : string) : Z := nullish (Utc.Date_parse s) 0.

Definition readTrialSettlement (e : IngestedEvidence) : TrialSettlement :=
  let evs := partitionEvents e in
  let samples := subjectArtifactState e "settlement_samples" in
  let published := last (eventsOfType evs "trial_message_published") in
  MkTrialSettlement samples (subjectArtifactState e "runner_journal") published
    (last (eventsOfType evs "settlement_assessed"))
    (match published with
     | Some p =>
         if complete samples then
           Some (Settlement.evaluateSettlement (map l_record (o_settlement_samples (observations e)))
                   Settlement.TRIAL_SETTLEMENT_POLICY (instant (occurred_at p)))
         else None
     | None => None
     end).

(** ** Gate G1 *)

Definition COLLECTOR : string := "evidence_collector".

Definition captureCauses (capturedAt : string) (s : TrialSettlement) (ledgerRef : option EvidenceRef) (refs : list EvidenceRef) :
  list GateCause :=
  match ts_derived s with
  | Some (Settlement.established _ est rech _) =>
      let captured := instant capturedAt in
      if (captured >=? est) && (captured <=? rech) then []
      else [MkCause cause_unverified
              (reasonAt "BR-RUA-005" "LEDGER_CAPTURED_OUTSIDE_SETTLED_WINDOW"
                 ("the ledger snapshot was captured at " +:+ capturedAt +:+ "; expected an instant in [" +:+ Utc.toISOString est
                  +:+ ", " +:+ Utc.toISOString rech +:+ "]") ledgerRef) refs]
  | _ => [MkCause cause_unverified
            (reasonAt "BR-RUA-005" "SETTLEMENT_NOT_ESTABLISHED"
               ("the ledger snapshot captured at " +:+ capturedAt
                +:+ " has no settled window to lie in; expected a capture after settlement was established") ledgerRef) refs]
  end.

Definition ledger_record (e : IngestedEvidence) : option LedgerSnapshot := option_map l_record (lv_snapshot (ledger e)).

Definition assessIndependentOracle (e : IngestedEvidence) (s : TrialSettlement) : GateAssessment :=
  let state := subjectArtifactState e "ledger_snapshot" in
  let refs := opt_list (as_ref state) in
  match ledger_record e with
  | None => assembleGate independent_oracle [MkCause cause_unverified (incompleteArtifactReason state "BR-RUA-005") refs] []
  | Some snap =>
      let causes :=
        (if ls_consistent_read snap then []
         else [MkCause cause_invalid (reasonAt "BR-RUA-005" "LEDGER_READ_NOT_CONSISTENT"
                 "the ledger snapshot declares consistent_read false; expected a strongly consistent read" (as_ref state)) refs])
        ++ (if bool_decide (ls_writer snap = COLLECTOR) then []
            else [MkCause cause_invalid (reasonAt "BR-RUA-005" "LEDGER_NOT_INDEPENDENT"
                    ("the ledger snapshot was written by " +:+ ls_writer snap +:+ "; expected " +:+ COLLECTOR) (as_ref state)) refs])
        ++ captureCauses (ls_captured_at snap) s (as_ref state) refs in
      assembleGate independent_oracle causes refs
  end.

(** ** Gate G5 *)

Definition assessLedgerAccess (e : IngestedEvidence) : GateAssessment :=
  let state := subjectArtifactState e "ledger_snapshot" in
  let refs := opt_list (as_ref state) in
  let l := ledger e in
  match ledger_record e with
  | None => assembleGate ledger_access [MkCause cause_unverified (incompleteArtifactReason state "BR-RUA-034") refs] []
  | Some snap =>
      let causes :=
        match lv_duplicate_transaction_ids l with
        | [] => []
        | duplicate :: _ =>
            [MkCause cause_invalid (reasonAt "BR-RUA-034" "DUPLICATE_LEDGER_TRANSACTION_ID"
               (aggregatedDetail ("provider_transaction_id " +:+ duplicate +:+ " appears more than once; expected unique ids")
                  (Z.of_nat (length (lv_duplicate_transaction_ids l)))) (as_ref state)) refs]
        end
        ++ match lv_pagination_problems l with
           | [] => []
           | problem :: _ =>
               [MkCause cause_unverified (reasonAt "BR-RUA-034" "LEDGER_PAGINATION_INCOMPLETE"
                  (aggregatedDetail ("pagination is incomplete (" +:+ problem +:+ "); expected every page read")
                     (Z.of_nat (length (lv_pagination_problems l)))) (as_ref state)) refs]
           end
        ++ (if ls_consistent_read snap then []
            else [MkCause cause_unverified (reasonAt "BR-RUA-034" "LEDGER_READ_NOT_CONSISTENT"
                    "the ledger snapshot declares consistent_read false; expected a consistent read" (as_ref state)) refs]) in
      assembleGate ledger_access causes refs
  end.

(** ** The processing terminal reason *)

Definition MAX_RECEIVE_COUNT : Z := 2.

(** [ProcessingTerminalReason], by its text. *)
Abbreviation TerminalReason := string.

Record TerminalReasonDerivation := MkTerminal {
  tr_reason : option TerminalReason;
  tr_reasons : list StructuredReason;
  tr_refs : list EvidenceRef;
}.

Definition INTERRUPTION_REASONS (cause : string) : TerminalReason :=
  if bool_decide (cause = "SAFETY_DEADLINE") then "SAFETY_DEADLINE" else "INTERRUPTED".

Definition version_of (ev : IndexedEvent) : Z := eventInt ev "version".

Definition request_states (e : IngestedEvidence) : list IndexedEvent :=
  sort_on version_of (List.filter isCallerEvent (eventsOfType (partitionEvents e) "request_state_recorded")).

(** The FINISHED states; filtering before the stable sort, as the code does. *)
Definition finished_states (e : IngestedEvidence) : list IndexedEvent :=
  sort_on version_of
    (List.filter (fun ev => bool_decide (eventString ev "processing_state" = Some "FINISHED"))
       (List.filter isCallerEvent (eventsOfType (partitionEvents e) "request_state_recorded"))).

Definition find_index {A} (p : A -> bool) (l : list A) : option nat :=
  (fix go i l := match l with [] => None | x :: l' => if p x then Some i else go (S i) l' end) 0%nat l.

Definition dlqMessageRef (e : IngestedEvidence) (evs : list IndexedEvent) : option EvidenceRef :=
  match o_dlq_snapshot (observations e), last (eventsOfType evs "trial_message_published") with
  | Some snap, Some published =>
      match find_index (fun m => bool_decide (Some (dm_message_id m) = eventString published "message_id")
                                 || bool_decide (Some (dm_body_sha256 m) = eventString published "message_body_sha256")) (l_record snap) with
      | Some i => Some (MkRef (l_path snap) (l_sha256 snap) None (Some ("/messages/" +:+ string_of_Z (Z.of_nat i))) None)
      | None => None
      end
  | _, _ => None
  end.

Definition conflict (d : string) (at_ : IndexedEvent) (refs : list EvidenceRef) : TerminalReasonDerivation :=
  MkTerminal None [reasonAt "BR-RUA-030" "PROCESSING_TERMINAL_CONFLICT" d (Some (eventRef at_))] refs.

Definition decidingInvocation (evs : list IndexedEvent) (state : IndexedEvent) : option IndexedEvent :=
  find_first (fun ev =>
    negb (bool_decide (eventString ev "source" = Some "probe_caller"))
    && bool_decide (eventString ev "source" = eventString state "source")
    && bool_decide (eventString ev "source_instance_id" = eventString state "source_instance_id"))
    (eventsOfType evs "caller_invocation_started").

Definition terminal_of (ev : IndexedEvent) : option string := eventString ev "processing_terminal_reason".

Definition fromFinishedState (evs finished : list IndexedEvent) (last_ : IndexedEvent) (dlqRef : option EvidenceRef) :
  TerminalReasonDerivation :=
  let claimed := nullish (terminal_of last_) "" in
  let refs := eventRef last_ :: opt_list dlqRef in
  match find_first (fun s => negb (bool_decide (terminal_of s = terminal_of last_))) finished with
  | Some d =>
      conflict ("FINISHED states " +:+ event_id_of d +:+ " (" +:+ text_in d "processing_terminal_reason" +:+ ") and "
                +:+ event_id_of last_ +:+ " (" +:+ claimed +:+ ") disagree; expected one terminal reason") last_ (refs ++ [eventRef d])
  | None =>
      let exhausted := bool_decide (claimed = "RETRIES_EXHAUSTED") in
      match dlqRef with
      | Some _ =>
          if exhausted then MkTerminal (Some claimed) [] refs
          else conflict ("the DLQ holds the trial message but the request state finished " +:+ claimed +:+ "; expected RETRIES_EXHAUSTED") last_ refs
      | None =>
          if negb exhausted then MkTerminal (Some claimed) [] refs
          else
            let inv := decidingInvocation evs last_ in
            let receiveCount := inv ≫= fun ev => as_safe_integer (member "approximate_receive_count" (ev_record ev)) in
            match inv, receiveCount with
            | Some i, Some n =>
                if n >=? MAX_RECEIVE_COUNT then MkTerminal (Some claimed) [] (refs ++ [eventRef i])
                else MkTerminal None
                  [reasonAt "BR-RUA-024" "TERMINALITY_BEFORE_LAST_LAYER"
                     ("RETRIES_EXHAUSTED was recorded by an invocation with receive count " +:+ string_of_Z n +:+ "; expected the last receive ("
                      +:+ string_of_Z MAX_RECEIVE_COUNT +:+ ") before the request finishes") (Some (eventRef last_))]
                  (refs ++ [eventRef i])
            | _, _ =>
                MkTerminal None
                  [reasonAt "BR-RUA-024" "TERMINALITY_BEFORE_LAST_LAYER"
                     ("RETRIES_EXHAUSTED was recorded by an invocation with receive count (unknown); expected the last receive ("
                      +:+ string_of_Z MAX_RECEIVE_COUNT +:+ ") before the request finishes") (Some (eventRef last_))]
                  (match inv with None => refs | Some i => refs ++ [eventRef i] end)
            end
      end
  end.

Definition unknownTerminal (e : IngestedEvidence) : TerminalReasonDerivation :=
  let caller := subjectArtifactState e "caller_journal" in
  match as_ref caller with
  | None => MkTerminal None [incompleteArtifactReason caller "BR-RUA-030"] []
  | Some ref =>
      MkTerminal None
        [reasonAt "BR-RUA-030" "PROCESSING_NOT_TERMINAL"
           "no FINISHED request state, DLQ capture of the trial message or trial interruption is recorded; expected a terminal processing state"
           (Some ref)] [ref]
  end.

Definition deriveProcessingTerminalReason (e : IngestedEvidence) : TerminalReasonDerivation :=
  let evs := partitionEvents e in
  let finished := finished_states e in
  let dlqRef := dlqMessageRef e evs in
  match last finished with
  | Some l => fromFinishedState evs finished l dlqRef
  | None =>
      match dlqRef with
      | Some r => MkTerminal (Some "RETRIES_EXHAUSTED") [] [r]
      | None =>
          match last (eventsOfType evs "trial_interrupted") with
          | Some i => MkTerminal (Some (INTERRUPTION_REASONS (nullish (eventString i "cause") ""))) [] [eventRef i]
          | None => unknownTerminal e
          end
      end
  end.

(** ** Gate G6 *)

Definition incompleteCause (s : string) (state : SubjectArtifactState) : GateCause :=
  MkCause cause_unverified (incompleteArtifactReason state s) (opt_list (as_ref state)).

Definition runnerCause (runner : SubjectArtifactState) (c recordType : string) : GateCause :=
  match as_ref runner with
  | None => incompleteCause "BR-RUA-032" runner
  | Some ref =>
      MkCause cause_unverified
        (reasonAt "BR-RUA-032" c ("the runner journal has no " +:+ recordType +:+ " for the trial; expected the runner's record") (Some ref))
        [ref]
  end.

Definition missingCauses (s : TrialSettlement) : list GateCause :=
  (if complete (ts_samples s) then [] else [incompleteCause "BR-RUA-032" (ts_samples s)])
  ++ (match ts_published s with None => [runnerCause (ts_runner_journal s) "PUBLICATION_NOT_RECORDED" "trial_message_published"] | _ => [] end)
  ++ (match ts_assessed s with None => [runnerCause (ts_runner_journal s) "SETTLEMENT_NOT_ASSESSED" "settlement_assessed"] | _ => [] end).

Definition agrees (assessed : IndexedEvent) (w est rech : Z) : bool :=
  bool_decide (eventString assessed "window_start" = Some (Utc.toISOString w))
  && bool_decide (eventString assessed "established_at" = Some (Utc.toISOString est))
  && bool_decide (eventString assessed "rechecked_at" = Some (Utc.toISOString rech)).

Definition judgementCauses (derived : Settlement.SettlementAssessment) (assessed : IndexedEvent) (refs : list EvidenceRef) : list GateCause :=
  let at_ := Some (eventRef assessed) in
  if bool_decide (eventString assessed "status" = Some "established") then
    let mismatch rederived :=
      [MkCause cause_invalid
         (reasonAt "BR-RUA-032" "SETTLEMENT_REDERIVATION_MISMATCH"
            ("the runner assessed established " +:+ text_in assessed "window_start" +:+ ".." +:+ text_in assessed "established_at"
             +:+ ", rechecked " +:+ text_in assessed "rechecked_at" +:+ "; the frozen samples re-derive " +:+ rederived
             +:+ "; expected the same judgement") at_) refs] in
    match derived with
    | Settlement.established w est rech _ =>
        if agrees assessed w est rech then []
        else mismatch ("established " +:+ Utc.toISOString w +:+ ".." +:+ Utc.toISOString est +:+ ", rechecked " +:+ Utc.toISOString rech)
    | Settlement.not_established _ _ => mismatch "not established"
    end
  else
    match derived with
    | Settlement.established _ est _ _ =>
        [MkCause cause_unverified
           (reasonAt "BR-RUA-032" "SETTLEMENT_NOT_ESTABLISHED"
              ("the runner assessed not_established although the samples re-derive established at " +:+ Utc.toISOString est
               +:+ "; expected an established assessment") at_) refs]
    | Settlement.not_established rs _ =>
        map (fun r => MkCause cause_unverified (reasonAt (subject r) (code r) (detail r) at_) refs) rs
    end.

Definition assessSettlementGate (s : TrialSettlement) (terminal : TerminalReasonDerivation) : GateAssessment :=
  let terminalCauses := map (fun r => MkCause cause_unverified r (tr_refs terminal)) (tr_reasons terminal) in
  match ts_derived s, ts_published s, ts_assessed s with
  | Some derived, Some published, Some assessed =>
      let refs := opt_list (as_ref (ts_samples s)) ++ [eventRef published; eventRef assessed] in
      assembleGate settlement (judgementCauses derived assessed refs ++ terminalCauses) (refs ++ tr_refs terminal)
  | _, _, _ => assembleGate settlement (missingCauses s ++ terminalCauses) []
  end.

(** ** Gate G7 *)

Definition artifactCauses (state : SubjectArtifactState) (usable : bool) : list GateCause :=
  if usable then [] else [incompleteCause "BR-RUA-029" state].

Definition inputCauses {T} (state : BusinessInputState T) : list GateCause :=
  match in_record state with
  | Some _ => []
  | None => [MkCause cause_unverified (inputMissingReason state "BR-RUA-029") (opt_list (in_ref state))]
  end.

Definition assessRuleEvidence (e : IngestedEvidence) : GateAssessment :=
  let caller := subjectArtifactState e "caller_journal" in
  let led := subjectArtifactState e "ledger_snapshot" in
  let inputs := businessInputs e in
  let causes := artifactCauses caller (complete caller) ++ artifactCauses led (negb (absent (lv_snapshot (ledger e))))
                ++ inputCauses (in_payment inputs) ++ inputCauses (in_decision inputs) in
  assembleGate rule_evidence causes (refsOf [as_ref caller; as_ref led; in_ref (in_payment inputs); in_ref (in_decision inputs)]).

(** ** The monetary basis *)

Record MonetaryInput := MkMonetaryInput { mi_given : bool; mi_present : bool; mi_path : string }.
Record MonetaryInputs := MkMonetaryInputs { mi_ledger : MonetaryInput; mi_payment : MonetaryInput; mi_decision : MonetaryInput }.

(** [None] is conclusive; [Some reasons] is not. *)
Abbreviation MonetaryBasis := (option (list StructuredReason)).

Definition GATE_REASONS : list (GateId * string * string) :=
  [(independent_oracle, "LEDGER_NOT_INDEPENDENT", "the ledger snapshot is not proven independent (G1)");
   (ledger_access, "LEDGER_INCOMPLETE", "the ledger snapshot is not proven complete (G5)");
   (settlement, "SETTLEMENT_NOT_ESTABLISHED", "settlement is not established (G6)")].

Definition missingReason (c path input : string) : StructuredReason :=
  MkReason c "BR-RUA-005" (Some path) None (path +:+ " gives no usable " +:+ input +:+ "; expected it for the monetary rules").

Definition ledgerCode (l : MonetaryInput) : string := if mi_given l then "ARTIFACT_INCOMPLETE" else "ARTIFACT_MISSING".

(** [gates.get(gate)] of the map built from the nine gates; a later entry wins, and each
    gate occurs once. *)
Definition gate_of (gates : list GateAssessment) (g : GateId) : option GateValue :=
  option_map value (find_first (fun a => bool_decide (gate a = g)) gates).

Definition deriveMonetaryBasis (gates : list GateAssessment) (inputs : MonetaryInputs) : MonetaryBasis :=
  let missing :=
    (if mi_present (mi_ledger inputs) then [] else [missingReason (ledgerCode (mi_ledger inputs)) (mi_path (mi_ledger inputs)) "ledger snapshot"])
    ++ (if mi_present (mi_payment inputs) then [] else [missingReason "INPUT_MISSING" (mi_path (mi_payment inputs)) "payment"])
    ++ (if mi_present (mi_decision inputs) then [] else [missingReason "INPUT_MISSING" (mi_path (mi_decision inputs)) "approved decision"]) in
  let gateReasons :=
    if mi_present (mi_ledger inputs) then
      map (fun '(g, c, d) =>
        MkReason c "BR-RUA-005" (Some (mi_path (mi_ledger inputs))) None
          (d +:+ ": the gate is " +:+ match gate_of gates g with Some v => value_text v | None => "absent" end +:+ "; expected verified"))
        (List.filter (fun '(g, _, _) => negb (bool_decide (gate_of gates g = Some verified))) GATE_REASONS)
    else [] in
  match gateReasons ++ missing with [] => None | rs => Some rs end.

Definition monetaryInputs (e : IngestedEvidence) (inputs : BusinessInputs) : MonetaryInputs :=
  let l := subjectArtifactState e "ledger_snapshot" in
  MkMonetaryInputs
    (MkMonetaryInput (negb (absent (as_ref l))) (negb (absent (lv_snapshot (ledger e)))) (as_path l))
    (MkMonetaryInput (negb (absent (in_ref (in_payment inputs)))) (negb (absent (in_record (in_payment inputs)))) (in_path (in_payment inputs)))
    (MkMonetaryInput (negb (absent (in_ref (in_decision inputs)))) (negb (absent (in_record (in_decision inputs)))) (in_path (in_decision inputs))).

(** ** The monetary rules *)

Record RuleResult := MkRule {
  rule_id : string;
  r_result : RuleOutcome;
  r_expected : json;
  r_observed : json;
  r_refs : list EvidenceRef;
  r_reasons : list StructuredReason;
}.

Record MonetaryObservations := MkMonetaryObservations {
  mo_count : Z;
  mo_total : string;
  mo_ids : list string;
  mo_complete : bool;
}.

Record MonetaryRuleResults := MkMonetary {
  one_effect : RuleResult;
  payment_limit : RuleResult;
  exact_effect : RuleResult;
  mr_observations : MonetaryObservations;
}.

Record CitedTransaction := MkCited { transaction : LedgerTransaction; ct_ref : EvidenceRef }.

(** [status] is always SUCCEEDED. *)
Record AuthorizedEffect := MkEffect {
  eff_refund_request_id : option string;
  eff_payment_id : option string;
  eff_amount_minor : option Z;
  eff_currency : option string;
}.

Definition TUPLE_FIELDS : list string := ["refund_request_id"; "payment_id"; "amount_minor"; "currency"; "status"].

Definition field_mismatch {A} `{EqDecision A} (expected : option A) (actual : A) : bool :=
  match expected with None => false | Some v => negb (bool_decide (actual = v)) end.

Definition mismatch_of (t : LedgerTransaction) (effect : AuthorizedEffect) (field : string) : bool :=
  nullish (map_get field
    [("refund_request_id", field_mismatch (eff_refund_request_id effect) (tx_refund_request_id t));
     ("payment_id", field_mismatch (eff_payment_id effect) (tx_payment_id t));
     ("amount_minor", field_mismatch (eff_amount_minor effect) (tx_amount_minor t));
     ("currency", field_mismatch (eff_currency effect) (tx_currency t));
     ("status", field_mismatch (Some "SUCCEEDED") (tx_status t))]) false.

Definition mismatchesOf (t : LedgerTransaction) (effect : AuthorizedEffect) : list string :=
  List.filter (mismatch_of t effect) TUPLE_FIELDS.

Definition transactionObservation (t : LedgerTransaction) (mismatches : list string) : json :=
  JObj [("provider_transaction_id", JStr (tx_provider_transaction_id t)); ("refund_request_id", JStr (tx_refund_request_id t));
        ("payment_id", JStr (tx_payment_id t)); ("amount_minor", int_json (tx_amount_minor t)); ("currency", JStr (tx_currency t));
        ("status", JStr (tx_status t)); ("mismatches", JArr (map JStr mismatches))].

Definition citedTransactions (transactions : list LedgerTransaction) (ledgerRef : option EvidenceRef) : list CitedTransaction :=
  match ledgerRef with
  | None => []
  | Some r => imap (fun i t => MkCited t (MkRef (ref_path r) (ref_sha256 r) (ref_event r)
                                            (Some ("/transactions/" +:+ string_of_Z (Z.of_nat i))) (ref_index r))) transactions
  end.

Definition set_subject (s : string) (r : StructuredReason) : StructuredReason :=
  MkReason (code r) s (artifact_path r) (event_id r) (detail r).

Definition ruleResult (ruleId : string) (basis : MonetaryBasis) (holds : bool) (expected observed : json) (refs : list EvidenceRef) :
  RuleResult :=
  match basis with
  | Some rs => MkRule ruleId indeterminate expected observed (canonicalRefs refs) (map (set_subject ruleId) rs)
  | None => MkRule ruleId (if holds then pass else fail) expected observed (canonicalRefs refs) []
  end.

Definition monetaryObservations (e : IngestedEvidence) : Result MonetaryObservations js_error :=
  let successful := lv_transactions (ledger e) in
  let! total := Money.sumMinorUnits (map tx_amount_minor successful) in
  Ok (MkMonetaryObservations (Z.of_nat (length successful)) total (map tx_provider_transaction_id successful)
        (lv_pagination_complete (ledger e))).

Definition opt_int (o : option Z) : json := match o with Some z => int_json z | None => JNull end.

Definition effect_of (inputs : BusinessInputs) : AuthorizedEffect :=
  let decision := in_record (in_decision inputs) in
  MkEffect (option_map dec_refund_request_id decision) (option_map pay_payment_id (in_record (in_payment inputs)))
    (option_map dec_approved_amount_minor decision) (option_map dec_currency decision).

Definition evaluateMonetaryRules (e : IngestedEvidence) (inputs : BusinessInputs) (basis : MonetaryBasis) :
  Result MonetaryRuleResults js_error :=
  let ledgerRef := as_ref (subjectArtifactState e "ledger_snapshot") in
  let cited := citedTransactions (match ledger_record e with Some s => ls_transactions s | None => [] end) ledgerRef in
  let sourceRefs := refsOf [ledgerRef; in_ref (in_decision inputs); in_ref (in_payment inputs)] in
  let effect := effect_of inputs in
  let judge ruleId holds expected observed counted :=
    ruleResult ruleId basis holds expected observed (sourceRefs ++ map ct_ref counted) in
  let forRequest := List.filter (fun c => bool_decide (Some (tx_refund_request_id (transaction c)) = eff_refund_request_id effect)) cited in
  let forPayment := List.filter (fun c => match eff_payment_id effect with
                                          | None => true
                                          | Some p => bool_decide (tx_payment_id (transaction c) = p)
                                          end) cited in
  let! paid := Money.sumMinorUnits (map (fun c => tx_amount_minor (transaction c)) forPayment) in
  let cap := option_map pay_captured_amount_minor (in_record (in_payment inputs)) in
  let exact := map (fun c => (c, mismatchesOf (transaction c) effect)) cited in
  let! within := match cap with
                 | None => Ok false
                 | Some c => let! order := Money.compareDecimal paid (string_of_Z c) in Ok (order <=? 0)
                 end in
  let! observations := monetaryObservations e in
  Ok (MkMonetary
    (judge "BR-RUA-001" (Nat.eqb (length forRequest) 1)
       (JObj [("count", int_json 1); ("refund_request_id", opt_json (eff_refund_request_id effect))])
       (JObj [("count", match eff_refund_request_id effect with None => JNull | Some _ => count_json forRequest end);
              ("provider_transaction_ids", JArr (map (fun c => JStr (tx_provider_transaction_id (transaction c))) forRequest))])
       forRequest)
    (judge "BR-RUA-002" within
       (JObj [("max_total_minor", opt_int cap); ("payment_id", opt_json (eff_payment_id effect))])
       (JObj [("total_minor", JStr paid); ("transaction_count", count_json forPayment)]) forPayment)
    (judge "BR-RUA-009" (Nat.eqb (length exact) 1 && forallb (fun x => bool_decide (x.2 = [])) exact)
       (JArr [JObj [("refund_request_id", opt_json (eff_refund_request_id effect)); ("payment_id", opt_json (eff_payment_id effect));
                    ("amount_minor", opt_int (eff_amount_minor effect)); ("currency", opt_json (eff_currency effect));
                    ("status", JStr "SUCCEEDED")]])
       (JObj [("transactions", JArr (map (fun '(c, ms) => transactionObservation (transaction c) ms) exact))]) cited)
    observations).

(** ** BR-RUA-003 stable logical identity *)

Definition withCaller (refs : list EvidenceRef) (callerRef : option EvidenceRef) : list EvidenceRef :=
  match callerRef with None => refs | Some r => canonicalRefs (refs ++ [r]) end.

Definition evaluateLogicalIdentity (e : IngestedEvidence) (attempts : list AttemptFacts) (inputs : BusinessInputs)
    (identityIntegrity : GateValue) : RuleResult :=
  let expectedId := option_map dec_refund_request_id (in_record (in_decision inputs)) in
  let ids := isort String.leb (Journal.unique (omap attempt_refund attempts)) in
  let expected := JObj [("refund_request_ids", JArr [opt_json expectedId])] in
  let observed := JObj [("refund_request_ids", JArr (map JStr ids))] in
  let refs := canonicalRefs (map (fun a => eventRef (registered a)) attempts ++ opt_list (in_ref (in_decision inputs))) in
  let caller := subjectArtifactState e "caller_journal" in
  let rule result seen refs rs := MkRule "BR-RUA-003" result expected seen refs rs in
  if negb (complete caller) then
    rule indeterminate observed (withCaller refs (as_ref caller)) [incompleteArtifactReason caller "BR-RUA-003"]
  else match attempts with
  | [] => rule rule_not_applicable (JObj [("code", JStr "NO_ATTEMPTS"); ("refund_request_ids", JArr [])]) refs []
  | _ =>
      match expectedId with
      | None => rule indeterminate observed refs [inputMissingReason (in_decision inputs) "BR-RUA-003"]
      | Some id =>
          if existsb (fun a => negb (bool_decide (attempt_refund a = Some id))) attempts then rule fail observed refs []
          else if bool_decide (identityIntegrity = unverified) then
            rule indeterminate observed refs
              [reasonAt "BR-RUA-003" "IDENTITY_EVIDENCE_UNVERIFIED"
                 "identity integrity (G3) is unverified, so an unregistered attempt may carry another refund_request_id; expected verified identity evidence"
                 (as_ref caller)]
          else rule pass observed refs []
      end
  end.

(** ** BR-RUA-004 unknown outcome *)

Definition attemptRef (a : AttemptFacts) : EvidenceRef := eventRef (nullish (attempt_outcome a) (registered a)).

Definition dispatch_text (d : DispatchState) : string :=
  match d with NOT_DISPATCHED => "NOT_DISPATCHED" | DISPATCHED => "DISPATCHED" | DISPATCH_UNKNOWN => "UNKNOWN" end.

Definition uncheckableAttemptReasons (ambiguous : list AttemptFacts) : list StructuredReason :=
  flat_map (fun a =>
    match contradiction a with
    | Some c => [reasonAt "BR-RUA-004" (code c) (detail c) (Some (attemptRef a))]
    | None =>
        match attempt_outcome a with
        | Some _ => []
        | None => [reasonAt "BR-RUA-004" "OUTCOME_MISSING"
                     ("attempt " +:+ nullish (attempt_id_of a) "undefined" +:+ " has dispatch state " +:+ dispatch_text (dispatch_state a)
                      +:+ " and no recorded outcome; expected an outcome whose recording can be checked") (Some (eventRef (registered a)))]
        end
    end) ambiguous.

Definition dense_versions (versions : list Z) : bool := bool_decide (versions = imap (fun i _ => Z.of_nat i + 1) versions).

Definition stateReasons (states covered : list IndexedEvent) (callerRef : option EvidenceRef) : list StructuredReason :=
  let versions := map version_of states in
  (if dense_versions versions then []
   else [reasonAt "BR-RUA-004" "REQUEST_STATE_VERSIONS_NOT_DENSE"
           ("request-state versions are " +:+ boundedText (str_join ", " (map string_of_Z versions)) QUOTED_JSON_LIMIT
            +:+ "; expected 1.." +:+ count_text versions +:+ " without gaps or repeats") callerRef])
  ++ match covered with
     | _ :: _ => []
     | [] => [reasonAt "BR-RUA-004" "REQUEST_STATE_NOT_RECORDED"
                "no request state names an ambiguous attempt; expected the knowledge recorded after the first ambiguous outcome" callerRef]
     end.

Definition is_ambiguous (a : AttemptFacts) : bool := bool_decide (outcome_class a = AMBIGUOUS).

Definition names_ambiguous (ambiguous : list AttemptFacts) (state : IndexedEvent) : bool :=
  existsb (fun id => memb id (omap attempt_id_of ambiguous)) (eventStrings state "attempt_ids").

(** The first state that names an ambiguous attempt and every state of a later version. *)
Definition covered_states (states : list IndexedEvent) (ambiguous : list AttemptFacts) : list IndexedEvent :=
  match find_first (names_ambiguous ambiguous) states with
  | None => []
  | Some first => List.filter (fun s => version_of s >=? version_of first) states
  end.

Definition says_unknown (state : IndexedEvent) : bool := bool_decide (eventString state "effect_knowledge" = Some "UNKNOWN").

Definition evaluateUnknownOutcome (e : IngestedEvidence) (attempts : list AttemptFacts) : RuleResult :=
  let caller := subjectArtifactState e "caller_journal" in
  let ambiguous := List.filter is_ambiguous attempts in
  let states := request_states e in
  let covered := covered_states states ambiguous in
  let expected := JObj [("first_ambiguous_attempt_id", opt_json (head ambiguous ≫= attempt_id_of)); ("effect_knowledge", JStr "UNKNOWN")] in
  let observed := JObj [("recorded", JArr (map (fun s => JObj [("version", raw_json (member "version" (ev_record s)));
                                                              ("effect_knowledge", raw_json (member "effect_knowledge" (ev_record s)))]) covered))] in
  let refs := canonicalRefs (map attemptRef ambiguous ++ map eventRef covered) in
  let rule result rs := MkRule "BR-RUA-004" result expected observed refs rs in
  if negb (complete caller) then
    MkRule "BR-RUA-004" indeterminate expected observed (withCaller refs (as_ref caller)) [incompleteArtifactReason caller "BR-RUA-004"]
  else match ambiguous with
  | [] => MkRule "BR-RUA-004" rule_not_applicable expected (JObj [("code", JStr "NO_AMBIGUOUS_OUTCOME"); ("recorded", JArr [])]) refs []
  | _ =>
      if existsb (fun s => negb (says_unknown s)) covered then rule fail []
      else match uncheckableAttemptReasons ambiguous ++ stateReasons states covered (as_ref caller) with
           | [] => rule pass []
           | rs => rule indeterminate rs
           end
  end.

(** ** Mirrors and the ten rules *)

Definition mirrorRule (ruleId : string) (g : GateAssessment) : RuleResult :=
  let expected := JObj [("gate", JStr (gate_text (gate g))); ("value", JStr "verified")] in
  let observed := JObj [("gate", JStr (gate_text (gate g))); ("value", JStr (value_text (value g)))] in
  match value g with
  | verified => MkRule ruleId pass expected observed (gate_refs g) []
  | invalid => MkRule ruleId fail expected observed (gate_refs g) []
  | _ => MkRule ruleId indeterminate expected observed (gate_refs g) (reasons g)
  end.

Definition equalTreatmentRule : RuleResult :=
  MkRule "BR-RUA-007" rule_not_applicable (JObj [("evaluated_in", JStr "comparison")]) (JObj [("code", JStr "EVALUATED_IN_COMPARISON")]) [] [].

(** The nine gates, by name. *)
Record NineGates := MkGates {
  g_oracle : GateAssessment;
  g_traceability : GateAssessment;
  g_identity : GateAssessment;
  g_control : GateAssessment;
  g_fidelity : GateAssessment;
  g_ledger : GateAssessment;
  g_settlement : GateAssessment;
  g_evidence : GateAssessment;
  g_integrity : GateAssessment;
}.

Definition gate_list (g : NineGates) : list GateAssessment :=
  [g_oracle g; g_traceability g; g_identity g; g_control g; g_fidelity g; g_ledger g; g_settlement g; g_evidence g; g_integrity g].

Definition evaluateBusinessRules (e : IngestedEvidence) (basis : MonetaryBasis) (g : NineGates) (inputs : BusinessInputs)
    (attempts : list AttemptFacts) : Result (list RuleResult * MonetaryObservations) js_error :=
  let! monetary := evaluateMonetaryRules e inputs basis in
  let scenarioGate := match value (g_control g) with not_applicable => g_fidelity g | _ => g_control g end in
  Ok ([one_effect monetary; payment_limit monetary; evaluateLogicalIdentity e attempts inputs (value (g_identity g));
       evaluateUnknownOutcome e attempts; mirrorRule "BR-RUA-005" (g_oracle g); equalTreatmentRule;
       mirrorRule "BR-RUA-008" (g_traceability g); exact_effect monetary; mirrorRule "INV-RUA-001" (g_identity g);
       mirrorRule "BR-RUA-025" scenarioGate], mr_observations monetary).

(** ** Validity, verdict and completion *)

Inductive TrialValidity := trial_valid | trial_invalid | trial_indeterminate.

#[export] Instance TrialValidity_eq_dec : EqDecision TrialValidity.
Proof. solve_decision. Defined.

Definition has_value (v : GateValue) (g : GateAssessment) : bool := bool_decide (value g = v).

Definition deriveTrialValidity (gates : list GateAssessment) : TrialValidity :=
  let applicable := List.filter (fun g => negb (has_value not_applicable g)) gates in
  if existsb (has_value invalid) applicable then trial_invalid
  else if existsb (has_value unverified) applicable then trial_indeterminate
  else trial_valid.

Definition VERDICT_BUSINESS_RULES : list string := ["BR-RUA-001"; "BR-RUA-002"; "BR-RUA-003"; "BR-RUA-004"; "BR-RUA-009"].

Definition isVerdictBusinessRule (ruleId : string) : bool := memb ruleId VERDICT_BUSINESS_RULES.

Definition has_result (o : RuleOutcome) (r : RuleResult) : bool := bool_decide (r_result r = o).

Definition derivePreservationVerdict (validity : TrialValidity) (rules : list RuleResult) : PreservationVerdict :=
  match validity with
  | trial_valid =>
      let business := List.filter (fun r => isVerdictBusinessRule (rule_id r) && negb (has_result rule_not_applicable r)) rules in
      if existsb (has_result fail) business then v_fail
      else if existsb (has_result indeterminate) business then v_indeterminate
      else v_pass
  | _ => v_indeterminate
  end.

Definition deriveCorrectCompletion (verdict : PreservationVerdict) (terminal : option TerminalReason) : option bool :=
  match verdict with
  | v_indeterminate => None
  | v_fail => Some false
  | v_pass => match terminal with None => None | Some t => Some (bool_decide (t = "SUCCEEDED")) end
  end.

Record VerdictOutcome := MkVerdictOutcome {
  preservation_verdict : PreservationVerdict;
  correct_completion : option bool;
  processing_terminal_reason : option TerminalReason;
}.

Definition verdictOutcome (verdict : PreservationVerdict) (terminal : option TerminalReason) : VerdictOutcome :=
  match terminal, deriveCorrectCompletion verdict terminal with
  | Some t, Some _ =>
      match verdict with
      | v_fail => MkVerdictOutcome v_fail (Some false) terminal
      | _ => if bool_decide (t = "SUCCEEDED") then MkVerdictOutcome v_pass (Some true) terminal
             else MkVerdictOutcome v_pass (Some false) terminal
      end
  | _, _ => MkVerdictOutcome v_indeterminate None terminal
  end.

(** ** Assembling the result *)

Inductive TreatmentAssessment :=
| control_scenario
| treatment_scenario (conditions : list ConditionResult) (fidelity : FidelityAssessment).

Definition assessTreatment (e : IngestedEvidence) : TreatmentAssessment :=
  match buildTreatmentView e with
  | Err _ => control_scenario
  | Ok view =>
      let conditions := evaluateTreatmentConditions view in
      treatment_scenario conditions (deriveTreatmentFidelity conditions view)
  end.

Definition treatmentGate (t : TreatmentAssessment) : GateAssessment :=
  match t with
  | control_scenario => MkGate treatment_fidelity not_applicable [] []
  | treatment_scenario _ f => MkGate treatment_fidelity (fa_value f) (fa_reasons f) (fa_refs f)
  end.

Definition assessValidityGates (e : IngestedEvidence) (t : TreatmentAssessment) : NineGates * TerminalReasonDerivation :=
  let s := readTrialSettlement e in
  let terminal := deriveProcessingTerminalReason e in
  (MkGates (assessIndependentOracle e s) (assessTraceability e) (assessIdentityIntegrity e) (deriveControlIntegrity e)
     (treatmentGate t) (assessLedgerAccess e) (assessSettlementGate s terminal) (assessRuleEvidence e) (assessEvidenceIntegrity e),
   terminal).

Definition applicableGateValue (v : GateValue) : GateValue := match v with not_applicable => unverified | _ => v end.

Record ScenarioAssessment := MkScenario {
  sa_scenario : Scenario;
  sa_control_integrity : GateValue;
  sa_treatment_fidelity : GateValue;
  sa_fidelity_basis : string;
  sa_clock_assumption_refs : list string;
  sa_conditions : list ConditionResult;
}.

Definition scenarioAssessment (t : TreatmentAssessment) (controlIntegrity : GateAssessment) : ScenarioAssessment :=
  match t with
  | control_scenario => MkScenario CONTROL (applicableGateValue (value controlIntegrity)) not_applicable "not_applicable" [] []
  | treatment_scenario conditions f =>
      MkScenario COMMIT_THEN_TIMEOUT not_applicable (fa_value f) (fa_basis f) (fa_clock_assumption_refs f) conditions
  end.

Definition sortKey (r : StructuredReason) : string :=
  str_join NUL [subject r; code r; nullish (artifact_path r) ""; nullish (event_id r) ""; detail r].

(** [map.set(key, value)]: an existing key keeps its position. *)
Fixpoint map_set {V} (key : string) (v : V) (m : list (string * V)) : list (string * V) :=
  match m with
  | [] => [(key, v)]
  | (k, w) :: m' => if bool_decide (k = key) then (k, v) :: m' else (k, w) :: map_set key v m'
  end.

Definition indeterminateReasons (gates : list GateAssessment) (rules : list RuleResult) : list StructuredReason :=
  let rs := flat_map reasons (List.filter (fun g => has_value invalid g || has_value unverified g) gates)
            ++ flat_map r_reasons (List.filter (has_result indeterminate) rules) in
  let unique := fold_left (fun m r => map_set (sortKey r) r m) rs [] in
  map snd (isort (fun a b => String.leb a.1 b.1) unique).

(** SHA-256 of no bytes. *)
Definition EMPTY_SHA256 : string := "e3b0c44298fc1c149afbf4c8996fb92427ae41e4649b934ca495991b7852b855".

Definition ledgerSnapshotRef (e : IngestedEvidence) : string * string :=
  let state := subjectArtifactState e "ledger_snapshot" in
  match as_ref state with
  | None => (as_path state, EMPTY_SHA256)
  | Some r => (ref_path r, ref_sha256 r)
  end.

Record OracleResult := MkOracleResult {
  or_execution : Journal.ExecutionIdentity;
  or_execution_manifest_sha256 : string;
  or_trial : SubjectTrial;
  or_outcome : VerdictOutcome;
  or_trial_validity : TrialValidity;
  or_gates : list GateAssessment;
  or_identity_integrity : GateValue;
  or_scenario : ScenarioAssessment;
  or_rules : list RuleResult;
  or_indeterminate_reasons : list StructuredReason;
  or_ledger_snapshot_ref : string * string;
  or_monetary_observations : MonetaryObservations;
  or_checked_at : string;
}.

(** ** The attempt projection *)

Record ProjectedInvocation := MkProjectedInvocation {
  pi_source : option string;
  pi_source_instance_id : option string;
  pi_message_id : option json;
  pi_receive_count : option json;
  pi_durable_execution_arn : option json;
  pi_step_attempt : option json;
}.

Record ProjectedAttempt := MkProjectedAttempt {
  pa_attempt_id : option string;
  pa_provider_request_id : option string;
  pa_refund_request_id : option string;
  pa_registered_event_id : string;
  pa_invocation : ProjectedInvocation;
  pa_dispatch_state : DispatchState;
  pa_outcome : option string;
  pa_outcome_class : OutcomeClass;
  pa_provider_call_id : option string;
  pa_provider_transaction_id : option string;
  pa_late_settlement : option (option string * option string);
  pa_knowledge_derived : EffectKnowledge;
  pa_knowledge_recorded : option string;
}.

Inductive ProviderCallDisposition :=
| call_accepted (attempt_id provider_request_id : option string)
| call_rejected (reason : option string)
| call_unresolved.

Record ProjectedProviderCall := MkProjectedCall {
  pc_provider_call_id : option string;
  pc_received_event_id : string;
  pc_disposition : ProviderCallDisposition;
}.

Record ProjectedTransaction := MkProjectedTransaction {
  pt_transaction_id : string;
  pt_commit_id : string;
  pt_call_id : string;
  pt_ledger_ref : EvidenceRef;
}.

Record AttemptProjection := MkProjection {
  ap_attempts : list ProjectedAttempt;
  ap_provider_calls : list ProjectedProviderCall;
  ap_transactions : list ProjectedTransaction;
  ap_durable_executions : list DurableExecution;
  ap_derived_at : string;
}.

Definition invocationOf (a : AttemptFacts) : ProjectedInvocation :=
  let source := eventString (registered a) "source" in
  let instance := eventString (registered a) "source_instance_id" in
  match invocation a with
  | None => MkProjectedInvocation source instance None None None None
  | Some started =>
      let m name := member name (ev_record started) in
      if bool_decide (eventString started "source" = Some "probe_caller") then MkProjectedInvocation source instance None None None None
      else if bool_decide (eventString started "source" = Some "conventional_caller") then
        MkProjectedInvocation source instance (m "message_id") (m "approximate_receive_count") None None
      else MkProjectedInvocation source instance (m "message_id") (m "approximate_receive_count") (m "durable_execution_arn") (m "step_attempt")
  end.

(** [events.find((event) => event.record[field] === value)] over one record type. *)
Definition find_by (evs : list IndexedEvent) (type field : string) (v : option string) : option IndexedEvent :=
  find_first (fun ev => bool_decide (eventString ev field = v)) (eventsOfType evs type).

Definition acceptedCallOf (evs : list IndexedEvent) (attemptId : option string) : option string :=
  find_by evs "provider_call_accepted" "attempt_id" attemptId ≫= fun ev => eventString ev "provider_call_id".

Definition recordedKnowledge (evs : list IndexedEvent) (attemptId : option string) : option string :=
  last (sort_on version_of
          (List.filter (fun s => bool_decide (last (eventStrings s "attempt_ids") = attemptId))
             (List.filter isCallerEvent (eventsOfType evs "request_state_recorded"))))
    ≫= fun s => eventString s "effect_knowledge".

Definition projectedAttempt (evs : list IndexedEvent) (upToHere : list AttemptFacts) (a : AttemptFacts) : ProjectedAttempt :=
  let attemptId := attempt_id_of a in
  let o := match contradiction a with None => attempt_outcome a | Some _ => None end in
  let callId := match o ≫= (fun ev => eventString ev "provider_call_id") with
                | Some c => Some c
                | None => acceptedCallOf evs attemptId
                end in
  MkProjectedAttempt attemptId (eventString (registered a) "provider_request_id") (attempt_refund a) (event_id_of (registered a))
    (invocationOf a) (dispatch_state a) (o ≫= fun ev => eventString ev "outcome") (outcome_class a) callId
    (find_by evs "provider_transaction_committed" "attempt_id" attemptId ≫= fun ev => eventString ev "provider_transaction_id")
    (option_map (fun late => (eventString late "settlement_kind", eventString late "observed_after_elapsed_ns"))
       (find_by evs "transport_settled_after_timeout" "attempt_id" attemptId))
    (foldEffectKnowledge (map outcome_class upToHere)) (recordedKnowledge evs attemptId).

Definition providerCall (evs : list IndexedEvent) (received : IndexedEvent) : ProjectedProviderCall :=
  let callId := eventString received "provider_call_id" in
  MkProjectedCall callId (event_id_of received)
    match find_by evs "provider_call_accepted" "provider_call_id" callId with
    | Some ev => call_accepted (eventString ev "attempt_id") (eventString ev "provider_request_id")
    | None =>
        match find_by evs "provider_call_rejected" "provider_call_id" callId with
        | Some ev => call_rejected (eventString ev "reason")
        | None => call_unresolved
        end
    end.

Definition projectedTransactions (e : IngestedEvidence) : list ProjectedTransaction :=
  match lv_snapshot (ledger e) with
  | None => []
  | Some l =>
      imap (fun i t => MkProjectedTransaction (tx_provider_transaction_id t) (tx_provider_commit_id t) (tx_provider_call_id t)
                         (MkRef (l_path l) (l_sha256 l) None (Some ("/transactions/" +:+ string_of_Z (Z.of_nat i))) None))
        (ls_transactions (l_record l))
  end.

Definition buildAttemptProjection (e : IngestedEvidence) (attempts : list AttemptFacts) (derivedAt : string) : AttemptProjection :=
  let evs := partitionEvents e in
  MkProjection (imap (fun i a => projectedAttempt evs (take (S i) attempts) a) attempts)
    (map (providerCall evs) (isort compareOccurrence (eventsOfType evs "provider_call_received")))
    (projectedTransactions e)
    (match o_durable_executions (observations e) with Some l => l_record l | None => [] end) derivedAt.

(** ** [evaluateTrial] *)

(** The refusal reasons, or the result; [js_error] is a throw. *)
Definition evaluateTrial (e : IngestedEvidence) (checked_at : string) :
  Result (Result (OracleResult * AttemptProjection) (list StructuredReason)) js_error :=
  let s := scope e in
  let unknown_execution kind :=
    Ok (Err [reason "TRIAL_EXECUTION_UNKNOWN" "CTR-RUA-001"
      ("the evidence names execution kind " +:+ kind +:+ "; expected a RUN or VARIANT_VALIDATION execution manifest")]) in
  match sc_execution s, sc_execution_manifest_sha256 s with
  | None, _ => unknown_execution "(none)"
  | Some (Journal.id_transport_probe _), _ => unknown_execution "TRANSPORT_PROBE"
  | Some (Journal.id_run _), None => unknown_execution "RUN"
  | Some (Journal.id_variant_validation _), None => unknown_execution "VARIANT_VALIDATION"
  | Some execution, Some manifestDigest =>
      match sc_trial s with
      | None => Ok (Err [reason "TRIAL_UNKNOWN" "CTR-RUA-001"
                  "the evidence names no trial (its trial manifest is missing or unusable); expected one trial manifest"])
      | Some trial =>
          let treatment := assessTreatment e in
          let '(g, terminal) := assessValidityGates e treatment in
          let gates := gate_list g in
          let validity := deriveTrialValidity gates in
          let inputs := businessInputs e in
          let attempts := readAttempts e in
          let basis := deriveMonetaryBasis gates (monetaryInputs e inputs) in
          let! (rules, observed) := evaluateBusinessRules e basis g inputs attempts in
          let verdict := derivePreservationVerdict validity rules in
          Ok (Ok (MkOracleResult execution manifestDigest trial (verdictOutcome verdict (tr_reason terminal)) validity gates
                    (applicableGateValue (value (g_identity g))) (scenarioAssessment treatment (g_control g)) rules
                    (indeterminateReasons gates rules) (ledgerSnapshotRef e) observed checked_at,
                  buildAttemptProjection e attempts checked_at))
      end
  end.

End Oracle.
