(* ===== verification/OracleCorrect.v ===== *)
(** * Correctness of the trial oracle

    What a verdict of [evaluateTrial] says about the recorded history: a conclusive
    verdict is given on valid trials only, and on those it is decided by the ledger, the
    payment, the approved decision, the attempts and the recorded knowledge, compared
    with the authorized effect. *)

From S2P Require Import Prelude AttemptLifecycle Timestamps Settlement Decimals Store JsonText.
From S2P Require Import Journal Money ControlItems Evidence Fidelity IngestionGates Oracle.
Import Json JsonText ControlItems Evidence Fidelity IngestionGates Oracle.
Open Scope Z_scope.
#[local] Set Warnings "-register-all".

Module OracleCorrect.

(** ** What ingestion guarantees

    The ledger view holds the snapshot's own transactions and the snapshot is the
    record of the subject's ledger artifact; amounts are the nonnegative safe integers
    their schemas declare. *)

Definition amount_ok (a : Z) : Prop := 0 <= a /\ is_safe_integer a = true.

Record well_ingested (e : IngestedEvidence) : Prop := WellIngested {
  wi_snapshot : forall l, lv_snapshot (ledger e) = Some l ->
    lv_transactions (ledger e) = ls_transactions (l_record l)
    /\ exists a, find_first (is_subject_class "ledger_snapshot") (artifact_values e) = Some a;
  wi_no_snapshot : lv_snapshot (ledger e) = None -> lv_transactions (ledger e) = [];
  wi_amounts : forall t, t ∈ lv_transactions (ledger e) -> amount_ok (tx_amount_minor t);
  wi_payment : forall l, o_payment (observations e) = Some l -> 0 <= pay_captured_amount_minor (l_record l);
}.

(** ** The authorized effect *)

Definition authorized (pay : Payment) (dec : ApprovedDecision) (t : LedgerTransaction) : Prop :=
  tx_refund_request_id t = dec_refund_request_id dec /\ tx_payment_id t = pay_payment_id pay
  /\ tx_amount_minor t = dec_approved_amount_minor dec /\ tx_currency t = dec_currency dec /\ tx_status t = "SUCCEEDED".

(** The ledger holds exactly one transaction, the authorized one. *)
Definition one_authorized_effect (pay : Payment) (dec : ApprovedDecision) (txs : list LedgerTransaction) : Prop :=
  exists t, txs = [t] /\ authorized pay dec t.

Definition total_for (p : string) (txs : list LedgerTransaction) : Z :=
  foldr Z.add 0 (map tx_amount_minor (List.filter (fun t => bool_decide (tx_payment_id t = p)) txs)).

(** ** Sums and comparisons *)

Lemma sum_minor_total amounts acc : Forall amount_ok amounts ->
  Money.sum_minor acc amounts = Ok (acc + foldr Z.add 0 amounts).
Proof.
  intros H. revert acc. induction H as [|a l [Ha Hs] _ IH]; intros acc; simpl; [f_equal; lia|].
  rewrite Hs. rewrite (proj2 (Z.ltb_ge a 0)) by lia. simpl. rewrite IH. f_equal. lia.
Qed.

Lemma sum_minor_units amounts : Forall amount_ok amounts ->
  Money.sumMinorUnits amounts = Ok (string_of_Z (foldr Z.add 0 amounts)).
Proof. intros H. unfold Money.sumMinorUnits. by rewrite (sum_minor_total _ _ H). Qed.

Lemma total_nonneg amounts : Forall amount_ok amounts -> 0 <= foldr Z.add 0 amounts.
Proof. induction 1 as [|a l [Ha _] _ IH]; simpl; lia. Qed.

Lemma compare_decimal a b : 0 <= a -> 0 <= b ->
  exists o, Money.compareDecimal (string_of_Z a) (string_of_Z b) = Ok o /\ (o <=? 0) = (a <=? b).
Proof.
  intros Ha Hb. destruct (spelling a Ha) as [Ca Va], (spelling b Hb) as [Cb Vb].
  unfold Money.compareDecimal, Money.toBigInt, Money.isDecimalString. rewrite Ca, Cb, Va, Vb. simpl.
  eexists. split; [done|]. destruct (a =? b) eqn:E1; [apply Z.eqb_eq in E1; subst; by rewrite !Z.leb_refl|].
  apply Z.eqb_neq in E1. destruct (a <? b) eqn:E2.
  - apply Z.ltb_lt in E2. symmetry. by apply Z.leb_le, Z.lt_le_incl.
  - apply Z.ltb_ge in E2. symmetry. apply Z.leb_gt. lia.
Qed.

(** ** Cited transactions *)

Lemma cited_transactions txs r : map transaction (citedTransactions txs (Some r)) = txs.
Proof.
  unfold citedTransactions. change (map ?f) with (fmap (M:=list) f). rewrite fmap_imap.
  etrans; [|apply list_fmap_id]. rewrite <- (imap_const id). done.
Qed.

Lemma filter_cited (p : LedgerTransaction -> bool) cs :
  map transaction (List.filter (fun c => p (transaction c)) cs) = List.filter p (map transaction cs).
Proof. induction cs as [|c cs IH]; simpl; [done|]. destruct (p (transaction c)); simpl; congruence. Qed.

Lemma filter_cited_length (p : LedgerTransaction -> bool) cs :
  length (List.filter (fun c => p (transaction c)) cs) = length (List.filter p (map transaction cs)).
Proof. rewrite <- filter_cited. symmetry. apply length_map. Qed.

Lemma mismatches_nil pay dec t effect :
  effect = MkEffect (Some (dec_refund_request_id dec)) (Some (pay_payment_id pay)) (Some (dec_approved_amount_minor dec)) (Some (dec_currency dec)) ->
  mismatchesOf t effect = [] <-> authorized pay dec t.
Proof.
  intros ->. unfold mismatchesOf, TUPLE_FIELDS, authorized. rewrite filter_bool_nil. cbn -[bool_decide mismatch_of].
  rewrite !orb_false_iff.
  change (mismatch_of t _ "refund_request_id") with (negb (bool_decide (tx_refund_request_id t = dec_refund_request_id dec))).
  change (mismatch_of t _ "payment_id") with (negb (bool_decide (tx_payment_id t = pay_payment_id pay))).
  change (mismatch_of t _ "amount_minor") with (negb (bool_decide (tx_amount_minor t = dec_approved_amount_minor dec))).
  change (mismatch_of t _ "currency") with (negb (bool_decide (tx_currency t = dec_currency dec))).
  change (mismatch_of t _ "status") with (negb (bool_decide (tx_status t = "SUCCEEDED"))).
  rewrite !negb_false_iff, !bool_decide_eq_true. naive_solver.
Qed.

(** ** The monetary rules *)

Definition judged (basis : MonetaryBasis) (holds : bool) : RuleOutcome :=
  match basis with Some _ => indeterminate | None => if holds then pass else fail end.

Lemma ruleResult_judged id basis holds x o refs :
  rule_id (ruleResult id basis holds x o refs) = id /\ r_result (ruleResult id basis holds x o refs) = judged basis holds.
Proof. by destruct basis. Qed.

Section Monetary.
Context (e : IngestedEvidence) (W : well_ingested e).

Definition cited_list : list CitedTransaction :=
  citedTransactions (match ledger_record e with Some s => ls_transactions s | None => [] end)
    (as_ref (subjectArtifactState e "ledger_snapshot")).

Lemma ledger_ref_given l : lv_snapshot (ledger e) = Some l ->
  exists r, as_ref (subjectArtifactState e "ledger_snapshot") = Some r.
Proof.
  intros H. destruct (wi_snapshot e W l H) as [_ [a Ha]]. unfold subjectArtifactState. rewrite Ha. simpl. eauto.
Qed.

Lemma cited_all : map transaction cited_list = lv_transactions (ledger e).
Proof.
  unfold cited_list, ledger_record. destruct (lv_snapshot (ledger e)) as [l|] eqn:Hl; simpl.
  - destruct (ledger_ref_given l Hl) as [r ->]. rewrite cited_transactions. symmetry. by apply (wi_snapshot e W).
  - rewrite (wi_no_snapshot e W Hl). by destruct (as_ref _).
Qed.

Lemma amounts_ok (p : LedgerTransaction -> bool) :
  Forall amount_ok (map tx_amount_minor (List.filter p (lv_transactions (ledger e)))).
Proof.
  apply Forall_forall. intros a (t & -> & Ht)%list_elem_of_fmap. apply elem_of_filter_bool in Ht as [Ht _].
  by apply (wi_amounts e W).
Qed.

Definition for_payment (p : option string) (t : LedgerTransaction) : bool :=
  match p with None => true | Some p => bool_decide (tx_payment_id t = p) end.

(** The monetary rules never throw, and each is judged by its own comparison. *)
Lemma monetary_rules basis :
  let inputs := businessInputs e in
  let txs := lv_transactions (ledger e) in
  exists m, evaluateMonetaryRules e inputs basis = Ok m
  /\ rule_id (one_effect m) = "BR-RUA-001" /\ rule_id (payment_limit m) = "BR-RUA-002"
  /\ rule_id (exact_effect m) = "BR-RUA-009"
  /\ r_result (one_effect m) =
       judged basis (Nat.eqb (length (List.filter (fun t => bool_decide (Some (tx_refund_request_id t)
          = eff_refund_request_id (effect_of inputs))) txs)) 1)
  /\ r_result (payment_limit m) =
       judged basis match in_record (in_payment inputs) with
                    | None => false
                    | Some p => foldr Z.add 0 (map tx_amount_minor (List.filter (for_payment (Some (pay_payment_id p))) txs))
                                <=? pay_captured_amount_minor p
                    end
  /\ r_result (exact_effect m) =
       judged basis (Nat.eqb (length txs) 1 && forallb (fun t => bool_decide (mismatchesOf t (effect_of inputs) = [])) txs).
Proof.
  intros inputs txs. unfold evaluateMonetaryRules. fold cited_list.
  set (pid := eff_payment_id (effect_of inputs)).
  assert (Hp : map (fun c => tx_amount_minor (transaction c)) (List.filter (fun c => for_payment pid (transaction c)) cited_list)
               = map tx_amount_minor (List.filter (for_payment pid) txs)).
  { rewrite <- (map_map transaction tx_amount_minor), filter_cited, cited_all. done. }
  unfold for_payment in Hp at 1. rewrite Hp, sum_minor_units by apply amounts_ok. cbn [bind_result].
  assert (Hw : exists w, match option_map pay_captured_amount_minor (in_record (in_payment inputs)) with
               | None => Ok false
               | Some c => let! order := Money.compareDecimal (string_of_Z (foldr Z.add 0 (map tx_amount_minor (List.filter (for_payment pid) txs))))
                                           (string_of_Z c) in Ok (order <=? 0)
               end = Ok w
             /\ w = match in_record (in_payment inputs) with
                    | None => false
                    | Some p => foldr Z.add 0 (map tx_amount_minor (List.filter (for_payment (Some (pay_payment_id p))) txs))
                                <=? pay_captured_amount_minor p
                    end).
  { unfold pid, effect_of. cbn [eff_payment_id]. destruct (in_record (in_payment inputs)) as [p|] eqn:Hrec; cbn [option_map]; [|by eexists].
    assert (Hcap : 0 <= pay_captured_amount_minor p).
    { unfold inputs, businessInputs in Hrec. cbn in Hrec. destruct (o_payment (observations e)) as [l|] eqn:Hl; [|done].
      injection Hrec as <-. by apply (wi_payment e W). }
    unfold txs. destruct (compare_decimal _ _ (total_nonneg _ (amounts_ok (for_payment (Some (pay_payment_id p))))) Hcap) as (o & -> & Ho).
    eexists. split; [done|]. exact Ho. }
  destruct Hw as (w & -> & Hw). cbn [bind_result]. unfold monetaryObservations.
  rewrite sum_minor_units.
  2:{ apply Forall_forall. intros a (t & -> & Ht)%list_elem_of_fmap. by apply (wi_amounts e W). }
  cbn [bind_result]. eexists. split; [done|]. cbn [one_effect payment_limit exact_effect].
  split_and!; try apply ruleResult_judged.
  - rewrite (proj2 (ruleResult_judged _ _ _ _ _ _)). f_equal. f_equal. unfold txs. rewrite <- cited_all.
    pose (q t := bool_decide (Some (tx_refund_request_id t) = eff_refund_request_id (effect_of inputs))).
    apply (filter_cited_length q).
  - by rewrite (proj2 (ruleResult_judged _ _ _ _ _ _)), Hw.
  - rewrite (proj2 (ruleResult_judged _ _ _ _ _ _)). f_equal. unfold txs. rewrite <- cited_all, !length_map. f_equal.
    clear. induction cited_list as [|c cs IH]; simpl; [done|]. by rewrite IH.
Qed.
End Monetary.

(** ** Verified gates *)

Lemma valid_iff gates : deriveTrialValidity gates = trial_valid <->
  forall g, g ∈ gates -> value g = verified \/ value g = not_applicable.
Proof.
  unfold deriveTrialValidity. split.
  - destruct (existsb (has_value invalid) _) eqn:E1; [done|].
    destruct (existsb (has_value unverified) _) eqn:E2; [done|]. intros _ g Hg.
    rewrite existsb_false in E1, E2. destruct (value g) eqn:Hv; auto; exfalso.
    + specialize (E1 g). rewrite elem_of_filter_bool in E1. unfold has_value in E1. rewrite Hv in E1. by discriminate E1.
    + specialize (E2 g). rewrite elem_of_filter_bool in E2. unfold has_value in E2. rewrite Hv in E2. by discriminate E2.
  - intros H.
    assert (Hno : forall v, v = invalid \/ v = unverified ->
      existsb (has_value v) (List.filter (fun g => negb (has_value not_applicable g)) gates) = false).
    { intros v Hv. apply existsb_false. intros g [Hg _]%elem_of_filter_bool. unfold has_value. apply bool_decide_eq_false.
      destruct (H g Hg) as [-> | ->], Hv as [-> | ->]; done. }
    by rewrite !Hno by auto.
Qed.

(** The ledger was read consistently and independently, whole and without repeats,
    between the establishment and the recheck of the settlement its samples show. *)
Record settled_ledger (e : IngestedEvidence) (snap : LedgerSnapshot) : Prop := SettledLedger {
  sl_snapshot : ledger_record e = Some snap;
  sl_consistent : ls_consistent_read snap = true;
  sl_independent : ls_writer snap = COLLECTOR;
  sl_unique : lv_duplicate_transaction_ids (ledger e) = [];
  sl_whole : lv_pagination_problems (ledger e) = [];
  sl_window : exists w est rech n, ts_derived (readTrialSettlement e) = Some (Settlement.established w est rech n)
              /\ est <= instant (ls_captured_at snap) <= rech;
}.

Lemma ledger_gates_verified e :
  value (assessIndependentOracle e (readTrialSettlement e)) = verified -> value (assessLedgerAccess e) = verified ->
  exists snap, settled_ledger e snap.
Proof.
  unfold assessIndependentOracle, assessLedgerAccess. destruct (ledger_record e) as [snap|] eqn:Hl;
    rewrite !assembleGate_verified; [|done].
  intros [H1 [H2 H3]%app_nil]%app_nil [H4 [H5 _]%app_nil]%app_nil. exists snap. split; [done|..].
  - by destruct (ls_consistent_read snap).
  - by case_bool_decide.
  - by destruct (lv_duplicate_transaction_ids _).
  - by destruct (lv_pagination_problems _).
  - unfold captureCauses in H3. destruct (ts_derived _) as [[w est rech n|]|]; [|done|done].
    exists w, est, rech, n. split; [done|]. destruct ((_ >=? _) && (_ <=? _)) eqn:E; [|done].
    apply andb_true_iff in E as [E1%Z.geb_le E2%Z.leb_le]. done.
Qed.

Lemma terminal_known e : tr_reasons (deriveProcessingTerminalReason e) = [] ->
  exists t, tr_reason (deriveProcessingTerminalReason e) = Some t.
Proof.
  unfold deriveProcessingTerminalReason. destruct (last _) as [l|]; [|destruct (dlqMessageRef _ _); [simpl; eauto|]].
  - unfold fromFinishedState. destruct (find_first _ _); [done|].
    destruct (dlqMessageRef _ _); destruct (bool_decide (nullish (terminal_of l) "" = "RETRIES_EXHAUSTED")); simpl; eauto; [done|].
    destruct (decidingInvocation _ _) as [i|]; simpl; [|done]. destruct (as_safe_integer _); simpl; [|done].
    destruct (_ >=? _); simpl; [eauto|done].
  - destruct (last (eventsOfType _ "trial_interrupted")); simpl; [eauto|]. unfold unknownTerminal. by destruct (as_ref _).
Qed.

Lemma settlement_gate_verified s terminal : value (assessSettlementGate s terminal) = verified -> tr_reasons terminal = [].
Proof.
  unfold assessSettlementGate.
  destruct (ts_derived s), (ts_published s), (ts_assessed s); rewrite assembleGate_verified;
    intros [_ H%map_eq_nil]%app_nil; done.
Qed.

Lemma rule_evidence_verified e : value (assessRuleEvidence e) = verified ->
  complete (subjectArtifactState e "caller_journal") = true
  /\ exists pay dec, in_record (in_payment (businessInputs e)) = Some pay /\ in_record (in_decision (businessInputs e)) = Some dec.
Proof.
  unfold assessRuleEvidence. rewrite assembleGate_verified. intros [H1 [_ [H2 H3]%app_nil]%app_nil]%app_nil.
  split; [by unfold artifactCauses in H1; destruct (complete _)|]. unfold inputCauses in H2, H3.
  destruct (in_record (in_payment _)) as [pay|]; [|done]. destruct (in_record (in_decision _)) as [dec|]; [|done]. eauto.
Qed.

(** ** The identity and unknown-outcome rules *)

Lemma logical_identity e attempts inputs dec :
  complete (subjectArtifactState e "caller_journal") = true -> in_record (in_decision inputs) = Some dec ->
  let r := evaluateLogicalIdentity e attempts inputs verified in
  rule_id r = "BR-RUA-003"
  /\ (r_result r = fail <-> exists a, a ∈ attempts /\ attempt_refund a <> Some (dec_refund_request_id dec))
  /\ r_result r <> indeterminate.
Proof.
  intros Hc Hd r. unfold r, evaluateLogicalIdentity. rewrite Hc, Hd. cbn [negb option_map].
  destruct attempts as [|a attempts]; [split_and!; [done| |done]; split; [done|set_solver]|].
  rewrite (bool_decide_eq_false_2 (verified = unverified)) by done.
  destruct (existsb _ (a :: attempts)) eqn:E; cbn [rule_id r_result].
  - split_and!; [done| |done]. split; [|done]. intros _. apply existsb_true in E as (x & Hx & Hn).
    exists x. split; [done|]. by apply negb_true_iff, bool_decide_eq_false in Hn.
  - split_and!; [done| |done]. split; [done|]. intros (x & Hx & Hn). rewrite existsb_false in E.
    specialize (E x Hx). apply negb_false_iff, bool_decide_eq_true in E. done.
Qed.

(** The states recorded from the first one that names an ambiguous attempt on. *)
Definition states_after_ambiguity (e : IngestedEvidence) : list IndexedEvent :=
  covered_states (request_states e) (List.filter is_ambiguous (readAttempts e)).

Definition knowledge_lost (s : IndexedEvent) : Prop := eventString s "effect_knowledge" <> Some "UNKNOWN".

(** Every ambiguous attempt has an outcome that fits its dispatch, the versions of the
    request's states are 1 to n, and some state follows the ambiguity. *)
Definition unknown_checkable (e : IngestedEvidence) : Prop :=
  List.filter is_ambiguous (readAttempts e) = []
  \/ ((forall a, a ∈ readAttempts e -> outcome_class a = Attempt.AMBIGUOUS -> contradiction a = None /\ attempt_outcome a <> None)
      /\ (forall i s, request_states e !! i = Some s -> version_of s = Z.of_nat i + 1)
      /\ states_after_ambiguity e <> []).

Lemma dense_versions_true states : dense_versions (map version_of states) = true <->
  forall i s, states !! i = Some s -> version_of s = Z.of_nat i + 1.
Proof.
  unfold dense_versions. rewrite bool_decide_eq_true. split.
  - intros H i s Hs. apply (f_equal (lookup i)) in H. rewrite list_lookup_imap in H.
    change (map version_of) with (fmap (M:=list) version_of) in H. rewrite list_lookup_fmap, Hs in H. by injection H.
  - intros H. apply list_eq. intros i. rewrite list_lookup_imap. change (map version_of) with (fmap (M:=list) version_of).
    rewrite list_lookup_fmap. destruct (states !! i) as [s|] eqn:Hs; simpl; [|done]. by rewrite (H i s Hs).
Qed.

Lemma uncheckable_nil attempts : uncheckableAttemptReasons (List.filter is_ambiguous attempts) = [] <->
  forall a, a ∈ attempts -> outcome_class a = Attempt.AMBIGUOUS -> contradiction a = None /\ attempt_outcome a <> None.
Proof.
  induction attempts as [|a attempts IH]; [split; [set_solver|done]|]. cbn [List.filter]. unfold is_ambiguous at 1.
  case_bool_decide as Ha.
  - unfold uncheckableAttemptReasons. cbn [flat_map]. fold (uncheckableAttemptReasons (List.filter is_ambiguous attempts)).
    split.
    + intros [H1 H2]%app_nil x [->|Hx]%elem_of_cons; [|by apply IH].
      intros _. destruct (contradiction a); [done|]. by destruct (attempt_outcome a).
    + intros H. destruct (H a ltac:(left) Ha) as [-> Ho]. destruct (attempt_outcome a); [|done]. simpl. apply IH. set_solver.
  - rewrite IH. split; intros H x; [|set_solver]. intros [->|Hx]%elem_of_cons; [done|by apply H].
Qed.

Lemma unknown_outcome e : complete (subjectArtifactState e "caller_journal") = true ->
  let r := evaluateUnknownOutcome e (readAttempts e) in
  rule_id r = "BR-RUA-004"
  /\ (r_result r = fail <-> exists s, s ∈ states_after_ambiguity e /\ knowledge_lost s)
  /\ (r_result r = indeterminate -> ~ unknown_checkable e)
  /\ (r_result r = fail \/ r_result r = indeterminate \/ unknown_checkable e).
Proof.
  intros Hc r. unfold r, evaluateUnknownOutcome. rewrite Hc. cbn [negb]. fold (states_after_ambiguity e).
  assert (Hlost : existsb (fun s => negb (says_unknown s)) (states_after_ambiguity e) = true
                  <-> exists s, s ∈ states_after_ambiguity e /\ knowledge_lost s).
  { rewrite existsb_true. unfold says_unknown, knowledge_lost. setoid_rewrite negb_true_iff.
    by setoid_rewrite bool_decide_eq_false. }
  unfold unknown_checkable. destruct (List.filter is_ambiguous (readAttempts e)) as [|a0 as_] eqn:Hamb.
  { split; [done|]. cbn [r_result].
    assert (Hnil : states_after_ambiguity e = []).
    { unfold states_after_ambiguity. rewrite Hamb. unfold covered_states.
      destruct (find_first _ _) eqn:Hf; [|done]. apply find_first_Some in Hf as [_ Hf]. unfold names_ambiguous in Hf.
      apply existsb_true in Hf as (x & _ & Hx%memb_true). set_solver. }
    rewrite Hnil. split_and!; [split; [done|set_solver]|done|]. right. right. by left. }
  rewrite <- Hamb. destruct (existsb _ _) eqn:E; cbn [rule_id r_result].
  { split; [done|]. rewrite <- Hlost. split_and!; [done|done|by left]. }
  pose proof (uncheckable_nil (readAttempts e)) as Hu.
  set (rs := uncheckableAttemptReasons _ ++ stateReasons _ _ _).
  assert (Hrs : rs = [] <->
    (forall a, a ∈ readAttempts e -> outcome_class a = Attempt.AMBIGUOUS -> contradiction a = None /\ attempt_outcome a <> None)
    /\ (forall i s, request_states e !! i = Some s -> version_of s = Z.of_nat i + 1)
    /\ states_after_ambiguity e <> []).
  { rewrite <- Hu, <- dense_versions_true. unfold rs, stateReasons. rewrite !app_nil.
    destruct (dense_versions _), (states_after_ambiguity e); naive_solver. }
  destruct rs as [|r0 rs]; cbn [rule_id r_result]; rewrite <- Hlost.
  - split_and!; [done|split; [done|congruence]|done|]. right. right. right. by apply Hrs.
  - split_and!; [done|split; [done|congruence]| |by right; left]. intros _ [Hn|Hn]; [congruence|]. by apply Hrs in Hn.
Qed.

(** ** The basis of a valid trial *)

Lemma oracle_gate_ids e s terminal :
  gate (assessIndependentOracle e s) = independent_oracle /\ gate (assessTraceability e) = traceability
  /\ gate (assessIdentityIntegrity e) = identity_integrity /\ gate (deriveControlIntegrity e) = control_integrity
  /\ gate (assessLedgerAccess e) = ledger_access /\ gate (assessSettlementGate s terminal) = settlement.
Proof.
  unfold assessIndependentOracle, assessTraceability, assessIdentityIntegrity, deriveControlIntegrity, assessLedgerAccess,
    assessSettlementGate.
  split_and!; repeat case_match; rewrite ?assembleGate_id; done.
Qed.

Lemma treatmentGate_id t : gate (treatmentGate t) = treatment_fidelity.
Proof. by destruct t. Qed.

Lemma basis_conclusive e t :
  let g := fst (assessValidityGates e t) in
  value (g_oracle g) = verified -> value (g_ledger g) = verified -> value (g_settlement g) = verified ->
  lv_snapshot (ledger e) <> None ->
  in_record (in_payment (businessInputs e)) <> None -> in_record (in_decision (businessInputs e)) <> None ->
  deriveMonetaryBasis (gate_list g) (monetaryInputs e (businessInputs e)) = None.
Proof.
  intros g H1 H5 H6 Hs Hp Hd. unfold deriveMonetaryBasis, monetaryInputs. cbn [mi_present mi_ledger mi_payment mi_decision].
  destruct (lv_snapshot (ledger e)); [|done]. destruct (in_record (in_payment _)); [|done].
  destruct (in_record (in_decision _)); [|done]. cbn [negb absent app].
  destruct (oracle_gate_ids e (readTrialSettlement e) (deriveProcessingTerminalReason e)) as (I1 & I2 & I3 & I4 & I5 & I6).
  pose proof (treatmentGate_id t) as I7.
  assert (G1 : gate_of (gate_list g) independent_oracle = Some verified).
  { unfold gate_of, g, gate_list, assessValidityGates. cbn -[bool_decide]. rewrite I1, bool_decide_eq_true_2 by done. simpl. by f_equal. }
  assert (G5 : gate_of (gate_list g) ledger_access = Some verified).
  { unfold gate_of, g, gate_list, assessValidityGates. cbn -[bool_decide]. rewrite I1, I2, I3, I4, I5, I7.
    rewrite !bool_decide_eq_false_2, bool_decide_eq_true_2 by done. simpl. by f_equal. }
  assert (G6 : gate_of (gate_list g) settlement = Some verified).
  { unfold gate_of, g, gate_list, assessValidityGates. cbn -[bool_decide]. rewrite I1, I2, I3, I4, I5, I6, I7.
    rewrite !bool_decide_eq_false_2, bool_decide_eq_true_2 by done. simpl. by f_equal. }
  unfold GATE_REASONS. cbn [List.filter]. rewrite G1, G5, G6. by rewrite !bool_decide_eq_true_2.
Qed.

(** ** The verdict of a valid trial *)

Lemma existsb_filter {A} (p q : A -> bool) l : existsb p (List.filter q l) = existsb (fun x => q x && p x) l.
Proof. induction l as [|x l IH]; simpl; [done|]. destruct (q x); simpl; by rewrite IH. Qed.

(** Only the five business rules decide, and a rule that does not apply decides nothing. *)
Lemma business_verdict a b c d i m5 m7 m8 mI m25 :
  map rule_id [a; b; c; d; i] = VERDICT_BUSINESS_RULES ->
  map rule_id [m5; m7; m8; mI; m25] = ["BR-RUA-005"; "BR-RUA-007"; "BR-RUA-008"; "INV-RUA-001"; "BR-RUA-025"] ->
  derivePreservationVerdict trial_valid [a; b; c; d; m5; m7; m8; i; mI; m25] =
    if existsb (has_result fail) [a; b; c; d; i] then v_fail
    else if existsb (has_result indeterminate) [a; b; c; d; i] then v_indeterminate else v_pass.
Proof.
  intros [= Ha Hb Hc Hd Hi] [= H5 H7 H8 HI H25]. unfold derivePreservationVerdict, isVerdictBusinessRule.
  assert (Hex : forall o, o <> rule_not_applicable ->
    existsb (has_result o) (List.filter (fun r => memb (rule_id r) VERDICT_BUSINESS_RULES && negb (has_result rule_not_applicable r))
      [a; b; c; d; m5; m7; m8; i; mI; m25]) = existsb (has_result o) [a; b; c; d; i]).
  { intros o Ho. rewrite existsb_filter. cbn [existsb]. rewrite Ha, Hb, Hc, Hd, Hi, H5, H7, H8, HI, H25.
    assert (Hr : forall r, negb (has_result rule_not_applicable r) && has_result o r = has_result o r).
    { intros r. unfold has_result. destruct (bool_decide (r_result r = o)) eqn:E; [|apply andb_false_r].
      apply bool_decide_eq_true in E. rewrite E, bool_decide_eq_false_2 by done. done. }
    repeat match goal with |- context [memb ?x VERDICT_BUSINESS_RULES] =>
      let v := eval vm_compute in (memb x VERDICT_BUSINESS_RULES) in change (memb x VERDICT_BUSINESS_RULES) with v end.
    cbn [andb orb]. rewrite !Hr. done. }
  by rewrite !Hex.
Qed.

(** What a failed verdict says: the ledger does not hold exactly the authorized effect, or
    exceeds the payment, or an attempt names another refund, or the recorded knowledge
    left UNKNOWN after an ambiguous outcome. *)
Definition effect_violated (e : IngestedEvidence) (snap : LedgerSnapshot) (pay : Payment) (dec : ApprovedDecision) : Prop :=
  ~ one_authorized_effect pay dec (ls_transactions snap)
  \/ pay_captured_amount_minor pay < total_for (pay_payment_id pay) (ls_transactions snap)
  \/ (exists a, a ∈ readAttempts e /\ attempt_refund a <> Some (dec_refund_request_id dec))
  \/ (exists s, s ∈ states_after_ambiguity e /\ knowledge_lost s).

Lemma exact_iff pay dec effect txs :
  effect = MkEffect (Some (dec_refund_request_id dec)) (Some (pay_payment_id pay)) (Some (dec_approved_amount_minor dec)) (Some (dec_currency dec)) ->
  Nat.eqb (length txs) 1 && forallb (fun t => bool_decide (mismatchesOf t effect = [])) txs = true
  <-> one_authorized_effect pay dec txs.
Proof.
  intros He. unfold one_authorized_effect. rewrite andb_true_iff, Nat.eqb_eq. split.
  - intros [Hl Hf]. destruct txs as [|t [|? ?]]; try done. exists t. split; [done|]. cbn [forallb] in Hf.
    rewrite andb_true_r, bool_decide_eq_true in Hf. by apply (mismatches_nil pay dec t effect).
  - intros (t & -> & Ht). split; [done|]. cbn [forallb]. rewrite andb_true_r, bool_decide_eq_true.
    by apply (mismatches_nil pay dec t effect).
Qed.

Lemma exact_counts_one pay dec txs : one_authorized_effect pay dec txs ->
  Nat.eqb (length (List.filter (fun t => bool_decide (Some (tx_refund_request_id t) = Some (dec_refund_request_id dec))) txs)) 1 = true.
Proof. intros (t & -> & Ht & _). cbn [List.filter]. by rewrite Ht, bool_decide_eq_true_2. Qed.

Lemma applicable_gates e s terminal :
  value (assessIndependentOracle e s) <> not_applicable /\ value (assessIdentityIntegrity e) <> not_applicable
  /\ value (assessLedgerAccess e) <> not_applicable /\ value (assessSettlementGate s terminal) <> not_applicable
  /\ value (assessRuleEvidence e) <> not_applicable.
Proof.
  unfold assessIndependentOracle, assessIdentityIntegrity, assessLedgerAccess, assessSettlementGate, assessRuleEvidence.
  split_and!; repeat case_match; apply assembleGate_applicable.
Qed.

Lemma mirrorRule_id id g : rule_id (mirrorRule id g) = id.
Proof. unfold mirrorRule. by destruct (value g). Qed.

Lemma ok_pair_inv {A B E} (a c : A) (b d : B) : @Ok (A * B) E (a, b) = Ok (c, d) -> a = c /\ b = d.
Proof. naive_solver. Qed.

Lemma verdict_table r1 r2 r3 r4 r9 (b1 b2 b9 : bool) (One Over Other Lost Checkable : Prop) :
  r_result r1 = (if b1 then pass else fail) -> r_result r2 = (if b2 then pass else fail) ->
  r_result r9 = (if b9 then pass else fail) ->
  (b9 = true <-> One) -> (One -> b1 = true) -> (b2 = false <-> Over) ->
  (r_result r3 = fail <-> Other) -> r_result r3 <> indeterminate ->
  (r_result r4 = fail <-> Lost) -> (r_result r4 = indeterminate -> ~ Checkable) ->
  (r_result r4 = fail \/ r_result r4 = indeterminate \/ Checkable) ->
  let v := if existsb (has_result fail) [r1; r2; r3; r4; r9] then v_fail
           else if existsb (has_result indeterminate) [r1; r2; r3; r4; r9] then v_indeterminate else v_pass in
  (v = v_fail <-> ~ One \/ Over \/ Other \/ Lost)
  /\ (v = v_pass <-> ~ (~ One \/ Over \/ Other \/ Lost) /\ Checkable).
Proof.
  intros R1 R2 R9 H9 H1 H2 F3 N3 F4 N4 C4 v. unfold v. cbn [existsb]. unfold has_result. rewrite R1, R2, R9.
  destruct b9; [|assert (Hn : ~ One) by (intros H; by apply H9 in H)].
  - rewrite (H1 (proj1 H9 eq_refl)). destruct b2; cbn -[bool_decide].
    + destruct (r_result r3), (r_result r4); simpl; naive_solver.
    + rewrite orb_true_l, orb_true_r. naive_solver.
  - rewrite (bool_decide_eq_true_2 (fail = fail)) by done. rewrite orb_true_l, !orb_true_r. naive_solver.
Qed.

Section Valid.
Context (e : IngestedEvidence) (W : well_ingested e) (t : TreatmentAssessment).
Let g := fst (assessValidityGates e t).
Let inputs := businessInputs e.
Let basis := deriveMonetaryBasis (gate_list g) (monetaryInputs e inputs).

Lemma rules_total : exists rules observed,
  evaluateBusinessRules e basis g inputs (readAttempts e) = Ok (rules, observed).
Proof.
  unfold evaluateBusinessRules. destruct (monetary_rules e W basis) as (m & Hm & _). fold inputs in Hm. rewrite Hm. cbn. eauto.
Qed.

Lemma valid_verdict rules observed :
  deriveTrialValidity (gate_list g) = trial_valid ->
  evaluateBusinessRules e basis g inputs (readAttempts e) = Ok (rules, observed) ->
  exists snap pay dec,
    settled_ledger e snap /\ in_record (in_payment inputs) = Some pay /\ in_record (in_decision inputs) = Some dec
    /\ (derivePreservationVerdict trial_valid rules = v_fail <-> effect_violated e snap pay dec)
    /\ (derivePreservationVerdict trial_valid rules = v_pass <-> ~ effect_violated e snap pay dec /\ unknown_checkable e)
    /\ (exists term, tr_reason (deriveProcessingTerminalReason e) = Some term).
Proof.
  intros Hv Hrules.
  destruct (applicable_gates e (readTrialSettlement e) (deriveProcessingTerminalReason e)) as (A1 & A3 & A5 & A6 & A7).
  assert (Hg : forall x, x ∈ gate_list g -> value x <> not_applicable -> value x = verified).
  { intros x Hx Hn. by destruct (proj1 (valid_iff _) Hv x Hx). }
  assert (V1 : value (g_oracle g) = verified) by (apply Hg; [set_solver|exact A1]).
  assert (V3 : value (g_identity g) = verified) by (apply Hg; [set_solver|exact A3]).
  assert (V5 : value (g_ledger g) = verified) by (apply Hg; [set_solver|exact A5]).
  assert (V6 : value (g_settlement g) = verified) by (apply Hg; [set_solver|exact A6]).
  assert (V7 : value (g_evidence g) = verified) by (apply Hg; [set_solver|exact A7]).
  destruct (ledger_gates_verified e V1 V5) as [snap Hsnap].
  destruct (rule_evidence_verified e V7) as (Hcaller & pay & dec & Hpay & Hdec).
  fold inputs in Hpay, Hdec. pose proof (sl_snapshot e snap Hsnap) as Hl. unfold ledger_record in Hl.
  destruct (lv_snapshot (ledger e)) as [l|] eqn:Hlv; [|done]. injection Hl as Hl.
  assert (Htx : lv_transactions (ledger e) = ls_transactions snap) by (rewrite <- Hl; by apply (wi_snapshot e W)).
  assert (Hb : basis = None).
  { apply basis_conclusive; try done; fold inputs; [by rewrite Hlv|by rewrite Hpay|by rewrite Hdec]. }
  exists snap, pay, dec. split; [done|]. split; [done|]. split; [done|].
  unfold evaluateBusinessRules in Hrules. destruct (monetary_rules e W basis) as (m & Hm & I1 & I2 & I9 & R1 & R2 & R9).
  fold inputs in Hm, R1, R2, R9. rewrite Hm in Hrules. cbn [bind_result] in Hrules. 
  apply ok_pair_inv in Hrules as [<- _].
  rewrite V3. destruct (logical_identity e (readAttempts e) inputs dec Hcaller Hdec) as (I3 & F3 & N3).
  destruct (unknown_outcome e Hcaller) as (I4 & F4 & N4 & C4).
  assert (He : effect_of inputs = MkEffect (Some (dec_refund_request_id dec)) (Some (pay_payment_id pay))
                 (Some (dec_approved_amount_minor dec)) (Some (dec_currency dec))).
  { unfold effect_of. by rewrite Hpay, Hdec. }
  rewrite Hb in R1, R2, R9. rewrite Hpay, Htx in R2. rewrite Htx in R1, R9. rewrite He in R1. cbn [judged eff_refund_request_id] in R1, R2, R9.
  rewrite business_verdict; [|cbn [map]; by rewrite I1, I2, I3, I4, I9|].
  2:{ cbn [map]. by rewrite !mirrorRule_id. }
  pose proof (exact_iff pay dec _ (ls_transactions snap) He) as Hexact. pose proof (exact_counts_one pay dec (ls_transactions snap)) as Hone.
  assert (Hlimit : (foldr Z.add 0 (map tx_amount_minor (List.filter (for_payment (Some (pay_payment_id pay))) (ls_transactions snap)))
                    <=? pay_captured_amount_minor pay) = false
                   <-> pay_captured_amount_minor pay < total_for (pay_payment_id pay) (ls_transactions snap)) by apply Z.leb_gt.
  destruct (verdict_table _ _ _ _ _ _ _ _ _ _ _ _ _ R1 R2 R9 Hexact Hone Hlimit F3 N3 F4 N4 C4) as [Hf Hp].
  split; [exact Hf|]. split; [exact Hp|]. apply terminal_known. by apply settlement_gate_verified in V6.
Qed.
End Valid.

Lemma outcome_indeterminate terminal :
  preservation_verdict (verdictOutcome v_indeterminate terminal) = v_indeterminate
  /\ correct_completion (verdictOutcome v_indeterminate terminal) = None.
Proof. by destruct terminal. Qed.

Lemma outcome_known v term :
  preservation_verdict (verdictOutcome v (Some term)) = v
  /\ (correct_completion (verdictOutcome v (Some term)) = Some true
      <-> v = v_pass /\ processing_terminal_reason (verdictOutcome v (Some term)) = Some "SUCCEEDED").
Proof.
  unfold verdictOutcome, deriveCorrectCompletion. destruct v; cbn -[bool_decide]; [|naive_solver|naive_solver].
  case_bool_decide; naive_solver.
Qed.

Lemma evaluate_trial_inv e checked_at r p : evaluateTrial e checked_at = Ok (Ok (r, p)) ->
  exists t rules observed,
    let g := fst (assessValidityGates e t) in
    evaluateBusinessRules e (deriveMonetaryBasis (gate_list g) (monetaryInputs e (businessInputs e))) g (businessInputs e) (readAttempts e)
      = Ok (rules, observed)
    /\ or_trial_validity r = deriveTrialValidity (gate_list g)
    /\ or_outcome r = verdictOutcome (derivePreservationVerdict (deriveTrialValidity (gate_list g)) rules)
                        (tr_reason (deriveProcessingTerminalReason e)).
Proof.
  unfold evaluateTrial. destruct (sc_execution (scope e)) as [x|]; [|done].
  destruct (sc_execution_manifest_sha256 (scope e)) as [d|]; [|by destruct x].
  destruct (sc_trial (scope e)) as [trial|]; [|by destruct x].
  intros H. exists (assessTreatment e).
  assert (H' : let (g, terminal) := assessValidityGates e (assessTreatment e) in
    (let! (rules, observed) := evaluateBusinessRules e (deriveMonetaryBasis (gate_list g) (monetaryInputs e (businessInputs e))) g
        (businessInputs e) (readAttempts e) in Ok (rules, observed)) = Ok (or_rules r, or_monetary_observations r)
    /\ or_trial_validity r = deriveTrialValidity (gate_list g)
    /\ or_outcome r = verdictOutcome (derivePreservationVerdict (deriveTrialValidity (gate_list g)) (or_rules r)) (tr_reason terminal)).
  { destruct x; [|done|]; cbn beta iota in H; destruct (assessValidityGates e (assessTreatment e)) as [g terminal];
      apply bind_result_ok in H as ([rules observed] & -> & H); injection H as <- _; by split_and!. }
  exists (or_rules r), (or_monetary_observations r). destruct (assessValidityGates e (assessTreatment e)) as [g terminal] eqn:Hg.
  destruct H' as (H1 & H2 & H3). cbn [fst]. assert (Ht : terminal = deriveProcessingTerminalReason e) by (by injection Hg).
  split_and!; [|done|by rewrite H3, Ht]. by destruct (evaluateBusinessRules _ _ _ _ _) as [[? ?]|].
Qed.

(** ** The oracle *)

(** C9: The oracle's verdict. On a trial that is not valid the verdict is indeterminate and
    completion is unknown. On a valid trial the ledger was read consistently by the
    collector, whole, without repeated transactions and inside the settled window, the
    payment and the decision are known, and the verdict is: fail exactly when the ledger
    is not exactly the one authorized transaction, or the payment's transactions exceed
    what was captured, or an attempt names another refund, or a state recorded from the
    first mention of an ambiguous attempt on claims anything but UNKNOWN; pass exactly
    when none of this holds and the unknown-outcome rule is checkable. Completion is
    correct exactly when the verdict is pass and processing ended SUCCEEDED. *)
Theorem oracle_verdict_correct e checked_at r p :
  well_ingested e -> evaluateTrial e checked_at = Ok (Ok (r, p)) ->
  let v := preservation_verdict (or_outcome r) in
  (or_trial_validity r <> trial_valid -> v = v_indeterminate /\ correct_completion (or_outcome r) = None)
  /\ (or_trial_validity r = trial_valid -> exists snap pay dec,
       settled_ledger e snap
       /\ option_map l_record (o_payment (observations e)) = Some pay
       /\ option_map l_record (o_approved_decision (observations e)) = Some dec
       /\ (v = v_fail <-> effect_violated e snap pay dec)
       /\ (v = v_pass <-> ~ effect_violated e snap pay dec /\ unknown_checkable e)
       /\ (correct_completion (or_outcome r) = Some true
           <-> v = v_pass /\ processing_terminal_reason (or_outcome r) = Some "SUCCEEDED")).
Proof.
  intros W H v. destruct (evaluate_trial_inv _ _ _ _ H) as (t & rules & observed & Hrules & Hval & Hout).
  unfold v. rewrite Hval, Hout. set (g := fst (assessValidityGates e t)) in *. split.
  - intros Hn. unfold derivePreservationVerdict. destruct (deriveTrialValidity _); [done| |]; apply outcome_indeterminate.
  - intros Hv. rewrite Hv. destruct (valid_verdict e W t rules observed Hv Hrules) as (snap & pay & dec & H1 & H2 & H3 & H4 & H5 & term & H6).
    destruct (outcome_known (derivePreservationVerdict trial_valid rules) term) as [Ho Hc].
    exists snap, pay, dec. rewrite H6, Ho. by split_and!.
Qed.

Definition at_ms (n : Z) : string := Utc.toISOString (1767225600000 + n * 1000).

Definition quiet_sample (n : Z) (ph : Settlement.SamplePhase) : Settlement.SettlementSample :=
  Settlement.MkSample (1767225600000 + n * 1000) ph true true None 0 0 0 None true
    (Settlement.QueueCounters 0 0 0) (Settlement.QueueCounters 0 0 0) [] [] 5 1.

Definition event (path : string) (n : Z) (id type source : string) (members : list (string * json)) : IndexedEvent :=
  MkEvent ([("event_id", JStr id); ("record_type", JStr type); ("source", JStr source); ("occurred_at", JStr (at_ms n));
            ("source_instance_id", JStr "inst")] ++ members) path "sha" None subject_origin "t1" 1.

Definition file (class : string) : string * IngestedArtifact :=
  (class, MkArtifact class "sha" subject_origin (Some class) (Some required) parsed []).

(** A control trial that was refunded once: registered, dispatched, accepted, succeeded. *)
Definition refunded_once (amount : Z) : IngestedEvidence :=
  MkEvidence
    (MkEvidenceScope trial_subject (Some (Journal.id_run "run")) (Some "manifest") (Some (MkSubjectTrial "t1" "m" "v1" CONTROL)) false)
    []
    (map file ["execution_manifest"; "trial_manifest"; "caller_journal"; "provider_journal"; "runner_journal"; "settlement_samples";
               "provider_trial_configuration"; "treatment_state_snapshot"; "ledger_snapshot"; "payment"; "approved_decision"])
    (MkIndex [] [] []
       [event "runner_journal" 0 "e0" "trial_message_published" "runner" [("message_id", JStr "msg"); ("message_body_sha256", JStr "b")];
        event "caller_journal" 1 "e1" "attempt_registered" "conventional_caller" [("attempt_id", JStr "a1"); ("refund_request_id", JStr "rr")];
        event "caller_journal" 2 "e2" "dispatch_started" "conventional_caller" [("attempt_id", JStr "a1")];
        event "provider_journal" 3 "e3" "provider_call_accepted" "refund_provider" [("attempt_id", JStr "a1"); ("provider_call_id", JStr "c1")];
        event "caller_journal" 4 "e4" "attempt_outcome_recorded" "conventional_caller" [("attempt_id", JStr "a1"); ("outcome", JStr "SUCCEEDED")];
        event "caller_journal" 5 "e5" "request_state_recorded" "conventional_caller"
          [("version", JNum (JSInt 1)); ("attempt_ids", JArr [JStr "a1"]); ("effect_knowledge", JStr "KNOWN");
           ("processing_state", JStr "FINISHED"); ("processing_terminal_reason", JStr "SUCCEEDED")];
        event "runner_journal" 170 "e6" "settlement_assessed" "runner"
          [("status", JStr "established"); ("window_start", JStr (at_ms 10)); ("established_at", JStr (at_ms 130)); ("rechecked_at", JStr (at_ms 160))]]
       [])
    (let snap := MkSnapshot COLLECTOR true (at_ms 150) true [MkPage 1 None None 1]
                   [MkTransaction "tx1" "k1" "c1" "a1" "pr1" "rr" "pay" amount "BRL" "SUCCEEDED"] in
     MkLedgerView ledger_present (Some (MkLocated snap "ledger_snapshot" "sha")) (ls_transactions snap) [] true [])
    (MkObservations (Some (MkLocated (MkPaymentDocument "pay" 5000 "BRL") "payment" "sha"))
       (Some (MkLocated (MkDecision "rr" "pay" 1250 "BRL") "approved_decision" "sha"))
       (Some (MkLocated CONTROL "provider_trial_configuration" "sha"))
       (Some (MkLocated (MkTreatmentSnapshot true None) "treatment_state_snapshot" "sha")) None None
       (map (fun s => MkLocated s "settlement_samples" "sha")
          [quiet_sample 10 Settlement.observation; quiet_sample 40 Settlement.observation; quiet_sample 70 Settlement.observation;
           quiet_sample 100 Settlement.observation; quiet_sample 130 Settlement.observation; quiet_sample 160 Settlement.pre_freeze_recheck]))
    (MkRegistry [] [] []) [] None.

Lemma refunded_once_ingested amount : amount_ok amount -> well_ingested (refunded_once amount).
Proof.
  intros Ha. split; cbn.
  - intros l [= <-]. split; [done|]. eexists. vm_compute. reflexivity.
  - done.
  - intros t ->%list_elem_of_singleton. exact Ha.
  - by intros l [= <-].
Qed.

Definition verdict_of (e : IngestedEvidence) : option (TrialValidity * VerdictOutcome) :=
  match evaluateTrial e (at_ms 200) with Ok (Ok (r, _)) => Some (or_trial_validity r, or_outcome r) | _ => None end.


Lemma verdict_of_inv e v o : verdict_of e = Some (v, o) ->
  exists r p, evaluateTrial e (at_ms 200) = Ok (Ok (r, p)) /\ or_trial_validity r = v /\ or_outcome r = o.
Proof. unfold verdict_of. destruct (evaluateTrial _ _) as [[[r p]|]|]; intros [=]; eauto. Qed.

(** The exact refund passes and is a correct completion; one minor unit more fails. *)
Lemma oracle_verdict_correct_witness :
  (exists snap pay dec, settled_ledger (refunded_once 1250) snap /\ ~ effect_violated (refunded_once 1250) snap pay dec
    /\ unknown_checkable (refunded_once 1250))
  /\ (exists snap pay dec, settled_ledger (refunded_once 1251) snap /\ effect_violated (refunded_once 1251) snap pay dec).
Proof.
  split.
  - destruct (verdict_of_inv (refunded_once 1250) trial_valid (MkVerdictOutcome v_pass (Some true) (Some "SUCCEEDED")))
      as (r & p & H & Hv & Ho); [vm_compute; reflexivity|].
    destruct (oracle_verdict_correct _ _ r p (refunded_once_ingested 1250 ltac:(by vm_compute)) H) as [_ Hc].
    destruct (Hc Hv) as (snap & pay & dec & H1 & _ & _ & _ & H5 & _). rewrite Ho in H5. exists snap, pay, dec.
    split; [exact H1|]. by apply H5.
  - destruct (verdict_of_inv (refunded_once 1251) trial_valid (MkVerdictOutcome v_fail (Some false) (Some "SUCCEEDED")))
      as (r & p & H & Hv & Ho); [vm_compute; reflexivity|].
    destruct (oracle_verdict_correct _ _ r p (refunded_once_ingested 1251 ltac:(by vm_compute)) H) as [_ Hc].
    destruct (Hc Hv) as (snap & pay & dec & H1 & _ & _ & H4 & _). rewrite Ho in H4. exists snap, pay, dec.
    split; [exact H1|]. by apply H4.
Defined.

(** The evidence names a run or a variant validation, and its manifest. *)
Definition execution_known (s : EvidenceScope) : Prop :=
  exists x d, sc_execution s = Some x /\ (forall i, x <> Journal.id_transport_probe i) /\ sc_execution_manifest_sha256 s = Some d.

(** The oracle is total. On ingested evidence [evaluateTrial] never throws: it gives a
    result exactly when the evidence names a run or a variant validation with its
    manifest and a trial, and otherwise refuses with one reason, TRIAL_EXECUTION_UNKNOWN
    when the execution or its manifest is missing and TRIAL_UNKNOWN when only the trial
    is. *)
Theorem oracle_total e checked_at : well_ingested e ->
  let s := scope e in
  exists res, evaluateTrial e checked_at = Ok res
  /\ match res with
     | Ok _ => execution_known s /\ sc_trial s <> None
     | Err rs => exists r, rs = [r] /\ ((code r = "TRIAL_EXECUTION_UNKNOWN" /\ ~ execution_known s)
                                        \/ (code r = "TRIAL_UNKNOWN" /\ execution_known s /\ sc_trial s = None))
     end.
Proof.
  intros W s.
  assert (Hres : forall x d trial, sc_execution s = Some x -> (forall i, x <> Journal.id_transport_probe i) ->
    sc_execution_manifest_sha256 s = Some d -> sc_trial s = Some trial -> exists rp, evaluateTrial e checked_at = Ok (Ok rp)).
  { intros x d trial Hx Hp Hd Ht. unfold evaluateTrial. fold s. rewrite Hx, Hd, Ht.
    destruct (rules_total e W (assessTreatment e)) as (rules & observed & Hr).
    destruct x as [i|i|i]; [|by destruct (Hp i)|]; destruct (assessValidityGates e (assessTreatment e)) as [g terminal] eqn:Hg;
      cbn [fst] in Hr; rewrite Hr; cbn; eauto. }
  destruct (sc_execution s) as [x|] eqn:Hx.
  2:{ exists (Err [reason "TRIAL_EXECUTION_UNKNOWN" "CTR-RUA-001"
        ("the evidence names execution kind " +:+ "(none)" +:+ "; expected a RUN or VARIANT_VALIDATION execution manifest")]).
      unfold evaluateTrial. fold s. rewrite Hx. split; [done|]. eexists. split; [done|]. left. split; [done|].
      unfold execution_known. rewrite Hx. naive_solver. }
  destruct (sc_execution_manifest_sha256 s) as [d|] eqn:Hd.
  2:{ unfold evaluateTrial. fold s. rewrite Hx, Hd. destruct x; eexists; (split; [done|]); eexists; (split; [done|]); left;
        (split; [done|]); unfold execution_known; rewrite Hd; naive_solver. }
  destruct (sc_trial s) as [trial|] eqn:Ht.
  - destruct x as [i|i|i].
    2:{ unfold evaluateTrial. fold s. rewrite Hx. eexists. split; [done|]. eexists. split; [done|]. left. split; [done|].
        unfold execution_known. rewrite Hx. naive_solver. }
    all: edestruct Hres as [rp Hrp]; [done| |done|done|]; [done|]; exists (Ok rp); (split; [exact Hrp|]);
      (split; [|done]); unfold execution_known; eexists _, _; rewrite Hx, Hd; by split_and!.
  - unfold evaluateTrial. fold s. rewrite Hx, Hd, Ht. destruct x as [i|i|i]; eexists; (split; [done|]); eexists; (split; [done|]).
    2:{ left. split; [done|]. unfold execution_known. rewrite Hx. naive_solver. }
    all: right; (split; [done|]); (split; [|done]); unfold execution_known; eexists _, _; rewrite Hx, Hd; by split_and!.
Qed.

Lemma oracle_total_witness : exists res, evaluateTrial (refunded_once 1250) (at_ms 200) = Ok res.
Proof.
  destruct (oracle_total (refunded_once 1250) (at_ms 200) (refunded_once_ingested 1250 ltac:(by vm_compute))) as (res & H & _).
  exists res. exact H.
Defined.

End OracleCorrect.
