(* ===== verification/Ingestion.v ===== *)
(** * Evidence ingestion (src/study-1/src/evidence-ingestion/)

    Steps I2 to I8 of the pipeline and their composition: the classification of parsed
    records (artifact-roles.ts, record-classification.ts), the subject of the evaluation
    (scope-resolution.ts), the event index with duplicate collapse (event-indexing.ts),
    sequence density (sequence-density.ts), causation (causation-resolution.ts), the
    ledger (ledger-view.ts), the observations (located-records.ts, observation-view.ts),
    the identity registry (identity-registry.ts), the merging of findings
    (ingestion-findings.ts) and [ingestEvidence] (ingest-evidence.ts) from the artifacts
    step I1 has parsed.

    The record validator is the third-party Ajv behind an interface; it is an argument.
    A typed read of a usable record reads the members its type declares. *)

From S2P Require Import Prelude Timestamps Settlement Decimals Store JsonText Parsing Journal ControlItems Evidence IngestionGates.
Import Json JsonText ControlItems Evidence IngestionGates.
Open Scope Z_scope.
#[local] Set Warnings "-register-all".

Module Ingestion.

(** ** Record types *)

Definition RECORD_TYPES : list string :=
  ["environment_input"; "payment"; "approved_decision"; "trial_message"; "provider_refund_call"; "provider_refund_response";
   "probe_workload_request"; "admission_rejection"; "preflight_check_recorded"; "source_provenance";
   "deployment_assembly_inventory"; "transport_scope_policy"; "transport_scope_snapshot"; "execution_manifest";
   "resource_manifest"; "trial_manifest"; "provider_trial_configuration"; "provider_execution_configuration";
   "trial_registration"; "caller_invocation_started"; "trial_message_rejected"; "attempt_registered";
   "attempt_not_dispatched"; "dispatch_started"; "caller_timeout_recorded"; "transport_settled_after_timeout";
   "attempt_outcome_recorded"; "request_state_recorded"; "inner_execution_exhausted"; "provider_call_received";
   "provider_call_rejected"; "provider_call_accepted"; "provider_transaction_committed"; "provider_commit_confirmed";
   "provider_commit_failed"; "treatment_timeout_observed"; "treatment_response_released"; "treatment_safety_released";
   "provider_response_returned"; "timeout_signal_recorded"; "timeout_signal_duplicate_observed";
   "timeout_signal_conflict_recorded"; "late_timeout_signal_rejected"; "caller_timeout_rejected";
   "controller_canary_acknowledged"; "phase_transition_recorded"; "provisioning_event_recorded";
   "trial_partitions_verified_absent"; "treatment_armed"; "trial_message_published"; "probe_workload_invoked";
   "settlement_assessed"; "trial_evidence_frozen"; "trial_interrupted"; "safety_check_recorded"; "lease_event_recorded";
   "cleanup_action_recorded"; "queue_observation"; "settlement_sample"; "dlq_snapshot"; "ledger_snapshot";
   "treatment_state_snapshot"; "durable_execution_metadata"; "telemetry_availability"; "pre_cleanup_snapshot";
   "coordination_prefix_checkpoint"; "provider_warmup_request"; "provider_warmup_completed"; "attempt_projection";
   "oracle_result"; "evidence_index"; "transport_probe_result"; "transport_probe_summary"; "validation_summary";
   "run_summary"; "comparison_assessment"; "safety_assessment"; "cleanup_result"; "leak_audit_result";
   "late_evidence_record"; "late_evidence_assessment"; "package_index"; "package_verification";
   "probe_usability_assessment"; "variant_validation_verification"; "study_completion_assessment"; "amendment_index";
   "operational_recovery_record"; "billing_import"; "oracle_revision_check"; "cli_result"].

Definition EVENT_RECORD_TYPES : list string :=
  ["caller_invocation_started"; "trial_message_rejected"; "attempt_registered"; "attempt_not_dispatched";
   "dispatch_started"; "caller_timeout_recorded"; "transport_settled_after_timeout"; "attempt_outcome_recorded";
   "request_state_recorded"; "inner_execution_exhausted"; "provider_call_received"; "provider_call_rejected";
   "provider_call_accepted"; "provider_transaction_committed"; "provider_commit_confirmed"; "provider_commit_failed";
   "treatment_timeout_observed"; "treatment_response_released"; "treatment_safety_released"; "provider_response_returned";
   "timeout_signal_recorded"; "timeout_signal_duplicate_observed"; "timeout_signal_conflict_recorded";
   "late_timeout_signal_rejected"; "caller_timeout_rejected"; "controller_canary_acknowledged"; "phase_transition_recorded";
   "provisioning_event_recorded"; "trial_partitions_verified_absent"; "treatment_armed"; "trial_message_published";
   "probe_workload_invoked"; "settlement_assessed"; "trial_evidence_frozen"; "trial_interrupted"; "safety_check_recorded";
   "lease_event_recorded"; "cleanup_action_recorded"; "provider_warmup_completed"].

Definition isRecordType (v : option string) : bool := match v with Some s => memb s RECORD_TYPES | None => false end.
Definition isEventRecordType (s : string) : bool := memb s EVENT_RECORD_TYPES.

Definition ANY_EVENT : string := "any_event".

Definition RECORD_SHAPE_BY_CLASS : list (string * string) :=
  [("execution_manifest", "execution_manifest"); ("resource_manifest", "resource_manifest"); ("runner_journal", ANY_EVENT);
   ("trial_manifest", "trial_manifest"); ("payment", "payment"); ("approved_decision", "approved_decision");
   ("published_message", "trial_message"); ("provider_trial_configuration", "provider_trial_configuration");
   ("treatment_state_snapshot", "treatment_state_snapshot"); ("trial_registration", "trial_registration");
   ("caller_journal", ANY_EVENT); ("provider_journal", ANY_EVENT); ("controller_journal", ANY_EVENT);
   ("ledger_snapshot", "ledger_snapshot"); ("source_observations", "queue_observation");
   ("dlq_observations", "queue_observation"); ("dlq_snapshot", "dlq_snapshot"); ("settlement_samples", "settlement_sample");
   ("durable_execution_metadata", "durable_execution_metadata"); ("telemetry_availability", "telemetry_availability")].

(** ** Parsed artifacts (the result of step I1) *)

Record ParsedValue := MkParsedValue { v_line : option Z; v_value : json }.

Record ParsedArtifact := MkParsed {
  p_path : string;
  p_sha256 : string;
  p_origin : ArtifactOrigin;
  p_class : option string;
  p_requirement : option ArtifactRequirement;
  p_parse_status : ParseStatus;
  p_values : list ParsedValue;
}.

Record ArtifactReading := MkReading { rd_artifacts : list ParsedArtifact; rd_findings : list IngestionFinding }.

Definition missingArtifactFinding (x : ExpectedArtifact) : IngestionFinding :=
  ingestionFinding ARTIFACT_MISSING
    (x_path x +:+ " (" +:+ x_class x +:+ ") is absent; expected the "
     +:+ match x_requirement x with required => "required" | conditional => "conditional" | optional_artifact => "optional" end
     +:+ " artifact to be present") (Some (x_path x)) None None 1.

(** ** The record validator *)

Record SchemaViolation := MkViolation { instance_path : string; keyword : string; v_detail : string }.

(** [{ valid: true; record }] carries the value itself. *)
Inductive RecordValidation :=
| record_valid
| record_invalid (violations : list SchemaViolation).

Record RecordValidator := MkValidator {
  validate : json -> RecordValidation;
  validateAs : string -> json -> RecordValidation;
}.

Definition is_valid (v : RecordValidation) : bool := match v with record_valid => true | record_invalid _ => false end.

(** ** Step I2: classification *)

Definition expectedRecordShape (class : option string) : option string :=
  match class with None => None | Some c => map_get c RECORD_SHAPE_BY_CLASS end.

(** [isUnitFile] of a parsed artifact. *)
Definition parsed_unit_file (p : ParsedArtifact) : bool :=
  bool_decide (p_origin p = subject_origin)
  && match p_class p with Some c => negb (memb c EXECUTION_LEVEL_CLASSES) | None => false end.

Definition hasExecutionId (members : list (string * json)) : bool :=
  existsb (fun f => negb (bool_decide (member f members = None))) EXECUTION_ID_FIELDS.

Definition DIGEST_BOUND_INPUT_TYPES : list string := ["payment"; "approved_decision"].

Definition PLACEHOLDER_UUID : string := "00000000-0000-4000-8000-000000000000".
Definition PLACEHOLDER_SHA256 : string := "0000000000000000000000000000000000000000000000000000000000000000".
Definition QUOTED_VIOLATIONS : nat := 3.

Record ValueOutcome := MkOutcome { vo_validity : RecordValidity; vo_problems : list string }.

Record Judge := MkJudge {
  jd_shape : option string;
  jd_trial_unit : bool;
  jd_scope : EvidenceScope;
  jd_validator : RecordValidator;
}.

Definition checkShape (v : json) (judge : Judge) : RecordValidation :=
  match jd_shape judge with
  | None => validate (jd_validator judge) v
  | Some shape =>
      if negb (bool_decide (shape = ANY_EVENT)) then validateAs (jd_validator judge) shape v
      else
        let checked := validate (jd_validator judge) v in
        let type := nullish (ownString v "record_type") "" in
        if negb (is_valid checked) || isEventRecordType type then checked
        else record_invalid [MkViolation "/record_type" "record_type"
               ("record_type " +:+ boundedJsonText (JStr type) QUOTED_JSON_LIMIT +:+ " is not a journal event; expected an event record type")]
  end.

Definition lacksTrialIdentity (v : json) (judge : Judge) : bool :=
  jd_trial_unit judge
  && negb (match ownString v "record_type" with Some t => memb t DIGEST_BOUND_INPUT_TYPES | None => false end)
  && bool_decide (ownString v "trial_id" = None).

(** An absent correlation unit: the members that would fill it. *)
Abbreviation Unit := (list (string * json)).

Definition lacks (name : string) (members : list (string * json)) : bool := bool_decide (member name members = None).

Definition absentTrialMembers (members : list (string * json)) : Unit :=
  (if lacks "trial_id" members then [("trial_id", JStr PLACEHOLDER_UUID)] else [])
  ++ (if lacks "trial_manifest_sha256" members then [("trial_manifest_sha256", JStr PLACEHOLDER_SHA256)] else []).

Definition absentCorrelation (members : list (string * json)) (judge : Judge) : list Unit :=
  let executionField := match sc_execution (jd_scope judge) with None => "run_id" | Some x => executionIdField x end in
  let trialFill := if jd_trial_unit judge then absentTrialMembers members else [] in
  (if hasExecutionId members then [] else [[(executionField, JStr PLACEHOLDER_UUID)]])
  ++ (if lacks "execution_manifest_sha256" members then [[("execution_manifest_sha256", JStr PLACEHOLDER_SHA256)]] else [])
  ++ match trialFill with [] => [] | _ => [trialFill] end.

(** Spread over the members: a repeated name keeps its position. *)
Definition withMembers (members : list (string * json)) (units : list Unit) : list (string * json) :=
  fold_left (fun filled unit => set_members unit filled) units members.

(** [absent.filter((_, index) => (mask & (2 ** index)) !== 0)] *)
Definition masked (mask : nat) (units : list Unit) : list Unit :=
  omap id (imap (fun i u => if Nat.testbit mask i then Some u else None) units).

(** [mask] runs from 1 to [2 ** absent.length - 1]. *)
Definition someFillValidates (members : list (string * json)) (absent : list Unit) (judge : Judge) : bool :=
  existsb (fun mask => is_valid (checkShape (JObj (withMembers members (masked mask absent))) judge))
    (seq 1 (2 ^ length absent - 1)).

Definition describeViolation (v : SchemaViolation) : string :=
  (if bool_decide (instance_path v = "") then "/" else instance_path v) +:+ " " +:+ keyword v +:+ ": " +:+ v_detail v.

Definition correlation_only (v : json) (judge : Judge) : option (list Unit) :=
  match v with
  | JObj members =>
      match absentCorrelation members judge with
      | [] => None
      | absent => if someFillValidates members absent judge then Some absent else None
      end
  | _ => None
  end.

Definition classifyValue (v : json) (judge : Judge) : ValueOutcome :=
  match checkShape v judge with
  | record_valid =>
      if lacksTrialIdentity v judge then MkOutcome correlation_missing ["trial_id absent"] else MkOutcome valid_record []
  | record_invalid violations =>
      match correlation_only v judge with
      | Some absent => MkOutcome correlation_missing [str_join ", " (map fst (concat absent)) +:+ " absent"]
      | None => MkOutcome schema_invalid (map describeViolation violations)
      end
  end.

Definition where_text (line : option Z) : string := match line with None => "document" | Some n => "line " +:+ string_of_Z n end.

Definition aggregate (c : IngestionFindingCode) (path : string) (entries : list (ParsedValue * ValueOutcome)) (expectation : string) :
  list IngestionFinding :=
  match entries with
  | [] => []
  | (pv, outcome) :: _ =>
      let n := Z.of_nat (length entries) in
      [ingestionFinding c
         (aggregatedDetail (expectation +:+ "; " +:+ where_text (v_line pv) +:+ ": "
            +:+ str_join "; " (take QUOTED_VIOLATIONS (vo_problems outcome))) n)
         (Some path) None None n]
  end.

Definition has_validity (v : RecordValidity) (e : ParsedValue * ValueOutcome) : bool := bool_decide (vo_validity e.2 = v).

Definition classifyArtifact (s : EvidenceScope) (validator : RecordValidator) (p : ParsedArtifact) :
  IngestedArtifact * list IngestionFinding :=
  let judge := MkJudge (expectedRecordShape (p_class p))
                 (bool_decide (sc_subject_kind s = trial_subject) && parsed_unit_file p) s validator in
  let outcomes := map (fun v => (v, classifyValue (v_value v) judge)) (p_values p) in
  let expectation := match jd_shape judge with
                     | None => "catalogued"
                     | Some shape => if bool_decide (shape = ANY_EVENT) then "journal event" else shape
                     end in
  (MkArtifact (p_path p) (p_sha256 p) (p_origin p) (p_class p) (p_requirement p) (p_parse_status p)
     (map (fun '(v, o) => MkIngestedRecord (v_line v) (v_value v) (vo_validity o)) outcomes),
   aggregate RECORD_SCHEMA_INVALID (p_path p) (List.filter (has_validity schema_invalid) outcomes)
     ("expected a valid " +:+ expectation +:+ " record")
   ++ aggregate CORRELATION_MISSING (p_path p) (List.filter (has_validity correlation_missing) outcomes)
        "expected execution and trial correlation members").

Definition classifyRecords (parsed : list ParsedArtifact) (s : EvidenceScope) (validator : RecordValidator) :
  list IngestedArtifact * list IngestionFinding :=
  let classified := map (classifyArtifact s validator) parsed in
  (map fst classified, flat_map snd classified).

(** ** The subject of the evaluation *)

Definition validManifest (artifacts : list ParsedArtifact) (recordType : string) (validator : RecordValidator) :
  option (json * ParsedArtifact) :=
  match find_first (fun p => bool_decide (p_origin p = subject_origin) && bool_decide (p_class p = Some recordType)) artifacts with
  | None => None
  | Some p =>
      match p_values p with
      | [] => None
      | document :: _ => if is_valid (validateAs validator recordType (v_value document)) then Some (v_value document, p) else None
      end
  end.

(** A string member the record type declares. *)
Definition textOf (v : json) (field : string) : string := nullish (ownString v field) "".

Definition executionIdentityOf (manifest : json) : option Journal.ExecutionIdentity :=
  map_get (textOf manifest "execution_kind")
    [("RUN", Journal.id_run (textOf manifest "run_id"));
     ("TRANSPORT_PROBE", Journal.id_transport_probe (textOf manifest "transport_probe_id"));
     ("VARIANT_VALIDATION", Journal.id_variant_validation (textOf manifest "variant_validation_id"))].

Definition scenarioOf (v : json) : Scenario :=
  if bool_decide (ownString v "scenario" = Some "COMMIT_THEN_TIMEOUT") then COMMIT_THEN_TIMEOUT else CONTROL.

Definition subjectTrialOf (m : json * ParsedArtifact) : SubjectTrial :=
  MkSubjectTrial (textOf m.1 "trial_id") (p_sha256 m.2) (textOf m.1 "variant_id") (scenarioOf m.1).

Definition resolveScope (artifacts : list ParsedArtifact) (xs : list ExpectedArtifact) (reevaluation : bool) (validator : RecordValidator) :
  EvidenceScope :=
  let subjectKind := if existsb (fun x => bool_decide (x_class x = "trial_manifest")) xs then trial_subject else probe_subject in
  let execution := validManifest artifacts "execution_manifest" validator in
  let trial := match subjectKind with trial_subject => validManifest artifacts "trial_manifest" validator | probe_subject => None end in
  MkEvidenceScope subjectKind (execution ≫= fun m => executionIdentityOf m.1) (option_map (fun m => p_sha256 m.2) execution)
    (option_map subjectTrialOf trial) reevaluation.

(** ** Usable records *)

Definition usable (r : IngestedRecord) : bool := negb (bool_decide (ir_validity r = schema_invalid)).

Definition subjectArtifact (artifacts : list IngestedArtifact) (class : string) : option IngestedArtifact :=
  find_first (is_subject_class class) artifacts.

Definition locateRecord {T} (read : json -> T) (a : IngestedArtifact) (r : IngestedRecord) : LocatedRecord T :=
  MkLocated (read (ir_value r)) (a_path a) (a_sha256 a).

Definition soleRecord {T} (read : json -> T) (artifacts : list IngestedArtifact) (class : string) : option (LocatedRecord T) :=
  match subjectArtifact artifacts class with
  | None => None
  | Some a =>
      match a_records a with
      | [] => None
      | r :: _ => if usable r then Some (locateRecord read a r) else None
      end
  end.

Definition streamRecords {T} (read : json -> T) (artifacts : list IngestedArtifact) (class : string) : list (LocatedRecord T) :=
  match subjectArtifact artifacts class with
  | None => []
  | Some a => map (locateRecord read a) (List.filter usable (a_records a))
  end.

(** *** Members of typed records *)

Definition fieldOf (v : json) (field : string) : option json := match v with JObj m => member field m | _ => None end.
Definition intOf (v : json) (field : string) : Z := nullish (as_safe_integer (fieldOf v field)) 0.
Definition boolOf (v : json) (field : string) : bool := match fieldOf v field with Some (JBool b) => b | _ => false end.
Definition itemsOf (v : json) (field : string) : list json := match fieldOf v field with Some (JArr l) => l | _ => [] end.
Definition textsOf (v : json) (field : string) : list string := omap (fun x => as_string (Some x)) (itemsOf v field).

Definition pageOf (v : json) : LedgerPage :=
  MkPage (intOf v "page_number") (ownString v "start_cursor") (ownString v "next_cursor") (intOf v "item_count").

Definition transactionOf (v : json) : LedgerTransaction :=
  MkTransaction (textOf v "provider_transaction_id") (textOf v "provider_commit_id") (textOf v "provider_call_id") (textOf v "attempt_id")
    (textOf v "provider_request_id") (textOf v "refund_request_id") (textOf v "payment_id") (intOf v "amount_minor") (textOf v "currency")
    (textOf v "status").

Definition snapshotOf (v : json) : LedgerSnapshot :=
  MkSnapshot (textOf v "writer") (boolOf v "consistent_read") (textOf v "captured_at") (boolOf v "complete") (map pageOf (itemsOf v "pages"))
    (map transactionOf (itemsOf v "transactions")).

Definition paymentOf (v : json) : Payment := MkPaymentDocument (textOf v "payment_id") (intOf v "captured_amount_minor") (textOf v "currency").

Definition decisionOf (v : json) : ApprovedDecision :=
  MkDecision (textOf v "refund_request_id") (textOf v "payment_id") (intOf v "approved_amount_minor") (textOf v "currency").

Definition treatment_item (v : json) : TreatmentItem :=
  MkTreatment (nullish (isOneOf TREATMENT_STATES state_text (fieldOf v "state")) ARMED) (intOf v "version") (ownString v "targeted_attempt_id")
    (ownString v "provider_request_id") (ownString v "provider_call_id") (ownString v "provider_commit_id")
    (ownString v "provider_transaction_id") (ownString v "commit_event_id") (ownString v "signal_event_id")
    (ownString v "signal_caller_event_id") (ownString v "observed_event_id") (ownString v "release_event_id")
    (isOneOf SAFETY_RELEASE_CAUSES cause_text (fieldOf v "safety_release_cause")).

Definition treatmentSnapshotOf (v : json) : TreatmentStateSnapshot :=
  MkTreatmentSnapshot (boolOf v "consistent_read") (if boolOf v "item_present" then option_map treatment_item (fieldOf v "treatment") else None).

Definition dlqMessagesOf (v : json) : list DlqMessage :=
  map (fun m => MkDlqMessage (textOf m "message_id") (textOf m "body_sha256")) (itemsOf v "messages").

Definition durableExecutionsOf (v : json) : list DurableExecution :=
  map (fun m => MkDurableExecution (textOf m "durable_execution_arn") (textOf m "status")) (itemsOf v "executions").

Definition countersOf (v : option json) : Settlement.Counters :=
  match v with
  | Some (JObj m) => Settlement.QueueCounters (intOf (JObj m) "visible") (intOf (JObj m) "in_flight") (intOf (JObj m) "delayed")
  | Some (JStr "unavailable") => Settlement.unavailable
  | _ => Settlement.not_applicable
  end.

Definition maybeBool (v : option json) : option bool := match v with Some (JBool b) => Some b | _ => None end.

Definition sampleOf (v : json) : Settlement.SettlementSample :=
  Settlement.MkSample (nullish (Utc.Date_parse (textOf v "observed_at")) 0)
    (if bool_decide (ownString v "phase" = Some "pre_freeze_recheck") then Settlement.pre_freeze_recheck else Settlement.observation)
    (boolOf v "publication_stopped") (boolOf v "processing_terminal") (maybeBool (fieldOf v "inner_executions_terminal"))
    (intOf v "provider_active_calls") (intOf v "provider_held_barriers") (intOf v "provider_pending_releases")
    (maybeBool (fieldOf v "treatment_terminal")) (boolOf v "ledger_snapshot_possible") (countersOf (fieldOf v "source_queue"))
    (countersOf (fieldOf v "dlq")) (textsOf v "correlated_dlq_message_ids") (textsOf v "dlq_captured_message_ids")
    (intOf v "correlated_event_watermark") (intOf v "ledger_item_count").

(** ** Structural equality *)

(** [left === right] for values that are not objects; [None] on two objects of one kind,
    whose members are compared next. *)
Definition compare_heads (l r : json) : option bool :=
  match l, r with
  | JNull, JNull => Some true
  | JBool a, JBool b => Some (bool_decide (a = b))
  | JNum a, JNum b => Some (bool_decide (a = b))
  | JStr a, JStr b => Some (bool_decide (a = b))
  | JArr _, JArr _ | JObj _, JObj _ => None
  | _, _ => Some false
  end.

(** The pairs pushed for two containers, or [None] when their keys differ. *)
Definition member_pairs (l r : json) : option (list (json * json)) :=
  match l, r with
  | JArr xs, JArr ys => if bool_decide (length xs = length ys) then Some (zip xs ys) else None
  | JObj ms, JObj ns =>
      if bool_decide (length ms = length ns) && forallb (fun kv => negb (lacks kv.1 ns)) ms
      then Some (omap (fun kv => option_map (pair kv.2) (member kv.1 ns)) ms) else None
  | _, _ => None
  end.

Fixpoint same_loop (fuel : nat) (pending : list (json * json)) : option bool :=
  match fuel with
  | O => None
  | S fuel =>
      match last pending with
      | None => Some true
      | Some (l, r) =>
          let rest := removelast pending in
          match compare_heads l r with
          | Some true => same_loop fuel rest
          | Some false => Some false
          | None =>
              match member_pairs l r with
              | None => Some false
              | Some pairs => same_loop fuel (rest ++ pairs)
              end
          end
      end
  end.

(** A value's size bounds the turns of the loop. *)
Definition sameJsonValue (a b : json) : bool := nullish (same_loop (S (Parsing.json_size a)) [(a, b)]) false.

(** ** Step I4: the event index *)

Definition ORIGIN_RANK (o : ArtifactOrigin) : Z := match o with subject_origin => 0 | supplementary => 1 | execution_scope => 2 end.

Record EventGroup := MkGroup { eg_kept : IndexedEvent; eg_copies : list IndexedEvent; eg_equivalent : Z; eg_conflicting : Z }.

Definition isIndexable (r : IngestedRecord) : bool :=
  let recordType := ownString (ir_value r) "record_type" in
  usable r && isRecordType recordType && isEventRecordType (nullish recordType "").

Definition indexedEvent (a : IngestedArtifact) (r : IngestedRecord) : IndexedEvent :=
  MkEvent (match ir_value r with JObj m => m | _ => [] end) (a_path a) (a_sha256 a) (ir_line r) (a_origin a) (partitionOf (ir_value r)) 1.

Definition artifactEvents (a : IngestedArtifact) : list IndexedEvent := map (indexedEvent a) (List.filter isIndexable (a_records a)).

Definition add_copy (g : EventGroup) (ev : IndexedEvent) : EventGroup :=
  if sameJsonValue (JObj (ev_record (eg_kept g))) (JObj (ev_record ev))
  then MkGroup (eg_kept g) (eg_copies g ++ [ev]) (eg_equivalent g + 1) (eg_conflicting g)
  else MkGroup (eg_kept g) (eg_copies g ++ [ev]) (eg_equivalent g) (eg_conflicting g + 1).

Fixpoint addToGroup (groups : list (string * EventGroup)) (ev : IndexedEvent) : list (string * EventGroup) :=
  match groups with
  | [] => [(event_id_of ev, MkGroup ev [ev] 0 0)]
  | (id, g) :: rest => if bool_decide (id = event_id_of ev) then (id, add_copy g ev) :: rest else (id, g) :: addToGroup rest ev
  end.

Definition ordered_events (artifacts : list IngestedArtifact) : list IndexedEvent :=
  flat_map artifactEvents (sort_on (fun a => ORIGIN_RANK (a_origin a)) artifacts).

Definition event_groups (artifacts : list IngestedArtifact) : list (string * EventGroup) :=
  fold_left addToGroup (ordered_events artifacts) [].

Definition locationOf (ev : IndexedEvent) : string :=
  match ev_line ev with None => ev_path ev | Some n => ev_path ev +:+ ":" +:+ string_of_Z n end.

Definition groupFindings (g : EventGroup) : list IngestionFinding :=
  let eventId := event_id_of (eg_kept g) in
  let where_ := str_join ", " (map locationOf (eg_copies g)) in
  (if eg_conflicting g >? 0 then
     [ingestionFinding CONFLICTING_EVENT_CONTENT
        ("expected one content per event_id; " +:+ eventId +:+ " has " +:+ string_of_Z (Z.of_nat (length (eg_copies g)))
         +:+ " copies that differ: " +:+ where_)
        (Some (ev_path (eg_kept g))) (Some eventId) None (eg_conflicting g)]
   else [])
  ++ (if eg_equivalent g >? 0 then
        [ingestionFinding EQUIVALENT_DUPLICATE_COLLAPSED
           (eventId +:+ " read " +:+ string_of_Z (eg_equivalent g + 1)
            +:+ " times with structurally equivalent content, collapsed to one: " +:+ where_)
           (Some (ev_path (eg_kept g))) (Some eventId) None (eg_equivalent g)]
      else []).

Definition beyond_scope (ev : IndexedEvent) : bool := negb (bool_decide (ev_origin ev = execution_scope)).

Record EventCollapse := MkCollapse {
  ec_by_id : list (string * IndexedEvent);
  ec_conflicting_event_ids : list string;
  ec_findings : list IngestionFinding;
}.

Definition set_copies (n : Z) (ev : IndexedEvent) : IndexedEvent :=
  MkEvent (ev_record ev) (ev_path ev) (ev_sha256 ev) (ev_line ev) (ev_origin ev) (ev_partition ev) n.

Definition indexEvents (artifacts : list IngestedArtifact) : EventCollapse :=
  let groups := event_groups artifacts in
  let examined := List.filter (fun g => existsb beyond_scope (eg_copies g)) (map snd groups) in
  MkCollapse (map (fun '(id, g) => (id, set_copies (Z.of_nat (length (eg_copies g))) (eg_kept g))) groups)
    (Journal.unique (map (fun g => event_id_of (eg_kept g)) (List.filter (fun g => eg_conflicting g >? 0) examined)))
    (flat_map groupFindings examined).

(** ** Step I5: sequence density *)

Definition instanceKey (ev : IndexedEvent) : string :=
  nullish (eventString ev "source") "undefined" +:+ "#" +:+ nullish (eventString ev "source_instance_id") "undefined".

Definition sequenceOf (ev : IndexedEvent) : Z := eventInt ev "source_sequence".

Record InstanceEvents := MkInstanceEvents { ie_first : IndexedEvent; ie_by_sequence : list (Z * list string) }.

Fixpoint push_id (sequence : Z) (id : string) (m : list (Z * list string)) : list (Z * list string) :=
  match m with
  | [] => [(sequence, [id])]
  | (n, ids) :: rest => if n =? sequence then (n, ids ++ [id]) :: rest else (n, ids) :: push_id sequence id rest
  end.

Definition push_event (ev : IndexedEvent) (i : InstanceEvents) : InstanceEvents :=
  MkInstanceEvents (ie_first i) (push_id (sequenceOf ev) (event_id_of ev) (ie_by_sequence i)).

Fixpoint add_to_instance (grouped : list (string * InstanceEvents)) (ev : IndexedEvent) : list (string * InstanceEvents) :=
  match grouped with
  | [] => [(instanceKey ev, push_event ev (MkInstanceEvents ev []))]
  | (key, i) :: rest => if bool_decide (key = instanceKey ev) then (key, push_event ev i) :: rest else (key, i) :: add_to_instance rest ev
  end.

Definition firstMissing (sequences : list Z) : Z :=
  nullish ((fix go i l := match l with
                          | [] => None
                          | x :: l' => if x =? i + 1 then go (i + 1) l' else Some i
                          end) 0 sequences) (-1) + 1.

Definition sequences_of (i : InstanceEvents) : list Z := sort_on id (map fst (ie_by_sequence i)).
Definition max_sequence (i : InstanceEvents) : Z := fold_left Z.max (sequences_of i) 0.
Definition missing_sequences (i : InstanceEvents) : Z := max_sequence i - Z.of_nat (length (sequences_of i)).
Definition conflicting_sequences (i : InstanceEvents) : list (Z * list string) :=
  List.filter (fun e => (1 <? length e.2)%nat) (ie_by_sequence i).

Definition judgeInstance (key : string) (i : InstanceEvents) : SourceInstanceView * list IngestionFinding :=
  let missing := missing_sequences i in
  let conflicts := conflicting_sequences i in
  let n := Z.of_nat (length conflicts) in
  (MkInstance key (nullish (eventString (ie_first i) "source") "") (nullish (eventString (ie_first i) "source_instance_id") "")
     (max_sequence i) missing n (missing >? 0),
   match conflicts with
   | [] => []
   | (sequence, ids) :: _ =>
       [ingestionFinding CONFLICTING_SOURCE_SEQUENCE
          ("expected one event_id per sequence; " +:+ key +:+ " sequence " +:+ string_of_Z sequence +:+ " has " +:+ str_join ", " ids)
          (Some (ev_path (ie_first i))) None (Some key) n]
   end
   ++ (if missing >? 0 then
         [ingestionFinding SOURCE_SEQUENCE_GAP
            ("expected dense sequences 1.." +:+ string_of_Z (max_sequence i) +:+ "; " +:+ key +:+ " lacks " +:+ string_of_Z missing
             +:+ ", first " +:+ string_of_Z (firstMissing (sequences_of i)))
            (Some (ev_path (ie_first i))) None (Some key) missing]
       else [])).

Definition grouped_instances (evs : list IndexedEvent) : list (string * InstanceEvents) :=
  fold_left add_to_instance (List.filter beyond_scope evs) [].

Definition checkSequenceDensity (evs : list IndexedEvent) : list (string * SourceInstanceView) * list IngestionFinding :=
  let judged := map (fun '(key, i) => judgeInstance key i) (grouped_instances evs) in
  (map (fun '(view, _) => (si_key view, view)) judged, flat_map snd judged).

(** ** Step I6: causation *)

Definition predecessorsOf (ev : IndexedEvent) : list string := eventStrings ev "causation_event_ids".

Definition missing_predecessors (byId : list (string * IndexedEvent)) (ev : IndexedEvent) : list string :=
  List.filter (fun id => negb (memb id (map fst byId))) (predecessorsOf ev).

Definition dependents (byId : list (string * IndexedEvent)) : list IndexedEvent :=
  List.filter (fun ev => beyond_scope ev && negb (bool_decide (missing_predecessors byId ev = []))) (map snd byId).

Definition resolveCausation (byId : list (string * IndexedEvent)) : list (string * list string) * list IngestionFinding :=
  (map (fun ev => (event_id_of ev, missing_predecessors byId ev)) (dependents byId),
   map (fun ev =>
     let missing := missing_predecessors byId ev in
     ingestionFinding CAUSAL_PREDECESSOR_MISSING
       ("expected every causal predecessor in the execution scope; " +:+ nullish (eventString ev "record_type") "undefined" +:+ " "
        +:+ event_id_of ev +:+ " names absent " +:+ str_join ", " missing)
       (Some (ev_path ev)) (Some (event_id_of ev)) None (Z.of_nat (length missing))) (dependents byId)).

(** ** Step I7: the ledger *)

Definition EXPECTED_TRANSACTION_COUNT : Z := 1.

(** [seen] and [repeated] are sets in insertion order. *)
Fixpoint repeated_ids (seen repeated : list string) (ids : list string) : list string :=
  match ids with
  | [] => repeated
  | id :: rest =>
      if memb id seen then repeated_ids seen (if memb id repeated then repeated else repeated ++ [id]) rest
      else repeated_ids (seen ++ [id]) repeated rest
  end.

Definition duplicateTransactionIds (snap : LedgerSnapshot) : list string :=
  isort String.leb (repeated_ids [] [] (map tx_provider_transaction_id (ls_transactions snap))).

Definition page_label (index : Z) : string := "page " +:+ string_of_Z (index + 1).

Definition pageProblems (page : LedgerPage) (index : nat) (pages : list LedgerPage) : list string :=
  let n := Z.of_nat index in
  let numbering :=
    if pg_number page =? n + 1 then []
    else [page_label n +:+ " is numbered " +:+ string_of_Z (pg_number page) +:+ "; expected " +:+ string_of_Z (n + 1)] in
  match pages !! S index with
  | None => match pg_next_cursor page with None => numbering | Some c => numbering ++ ["the last page has next_cursor " +:+ c] end
  | Some next =>
      match pg_next_cursor page with
      | None => numbering ++ [page_label n +:+ " has no next_cursor although page " +:+ string_of_Z (n + 2) +:+ " follows"]
      | Some c =>
          if bool_decide (pg_start_cursor next = Some c) then numbering
          else numbering ++ ["page " +:+ string_of_Z (n + 2) +:+ " does not start at " +:+ page_label n +:+ "'s next_cursor " +:+ c]
      end
  end.

Definition declared_items (pages : list LedgerPage) : Z := fold_left (fun total page => total + pg_item_count page) pages 0.

Definition paginationProblems (snap : LedgerSnapshot) : list string :=
  let pages := ls_pages snap in
  let declared := declared_items pages in
  let held := Z.of_nat (length (ls_transactions snap)) in
  (if ls_complete snap then [] else ["complete is false"])
  ++ (match pages with [] => ["no page is recorded"] | _ => [] end)
  ++ concat (imap (fun index page => pageProblems page index pages) pages)
  ++ (if declared =? held then []
      else ["page item counts sum to " +:+ string_of_Z declared +:+ "; the snapshot holds " +:+ string_of_Z held]).

Definition duplicateFindings (l : LocatedRecord LedgerSnapshot) (duplicates : list string) : list IngestionFinding :=
  match duplicates with
  | [] => []
  | first :: _ =>
      let n := Z.of_nat (length duplicates) in
      [ingestionFinding DUPLICATE_LEDGER_TRANSACTION_ID
         (aggregatedDetail ("expected one transaction per provider_transaction_id; " +:+ first +:+ " appears more than once") n)
         (Some (l_path l)) None None n]
  end.

Definition paginationFindings (l : LocatedRecord LedgerSnapshot) (problems : list string) : list IngestionFinding :=
  match problems with
  | [] => []
  | first :: _ =>
      let n := Z.of_nat (length problems) in
      [ingestionFinding LEDGER_PAGINATION_INCOMPLETE (aggregatedDetail ("expected complete pagination; " +:+ first) n) (Some (l_path l)) None None n]
  end.

Definition sizeFindings (l : LocatedRecord LedgerSnapshot) : list IngestionFinding :=
  let count := Z.of_nat (length (ls_transactions (l_record l))) in
  if count <=? EXPECTED_TRANSACTION_COUNT then []
  else [ingestionFinding LEDGER_LARGER_THAN_EXPECTED
          ("expected at most " +:+ string_of_Z EXPECTED_TRANSACTION_COUNT +:+ " transaction; the snapshot holds " +:+ string_of_Z count
           +:+ ", every one kept") (Some (l_path l)) None None 1].

Definition readLedger (artifacts : list IngestedArtifact) : LedgerView * list IngestionFinding :=
  match soleRecord snapshotOf artifacts "ledger_snapshot" with
  | None =>
      let absent := match subjectArtifact artifacts "ledger_snapshot" with None => true | Some _ => false end in
      (MkLedgerView (if absent then ledger_missing else ledger_unusable) None [] [] false
         ["ledger snapshot is " +:+ (if absent then "missing" else "unusable")], [])
  | Some l =>
      let duplicates := duplicateTransactionIds (l_record l) in
      let problems := paginationProblems (l_record l) in
      (MkLedgerView ledger_present (Some l) (ls_transactions (l_record l)) duplicates (bool_decide (problems = [])) problems,
       duplicateFindings l duplicates ++ paginationFindings l problems ++ sizeFindings l)
  end.

(** ** Observations *)

Definition conditionalDlqSnapshot (samples : list (LocatedRecord Settlement.SettlementSample)) (artifacts : list IngestedArtifact)
    (xs : list ExpectedArtifact) : list IngestionFinding :=
  let correlated := existsb (fun l => (0 <? length (Settlement.correlated_dlq_message_ids (l_record l)))%nat) samples in
  match find_first (fun x => bool_decide (x_class x = "dlq_snapshot")) xs with
  | None => []
  | Some declared =>
      if negb correlated || match subjectArtifact artifacts "dlq_snapshot" with None => false | Some _ => true end then []
      else [missingArtifactFinding (MkExpected (x_path declared) (x_class declared) required)]
  end.

Definition readObservations (artifacts : list IngestedArtifact) (xs : list ExpectedArtifact) : ObservationView * list IngestionFinding :=
  let samples := streamRecords sampleOf artifacts "settlement_samples" in
  (MkObservations (soleRecord paymentOf artifacts "payment") (soleRecord decisionOf artifacts "approved_decision")
     (soleRecord scenarioOf artifacts "provider_trial_configuration")
     (soleRecord treatmentSnapshotOf artifacts "treatment_state_snapshot") (soleRecord dlqMessagesOf artifacts "dlq_snapshot")
     (soleRecord durableExecutionsOf artifacts "durable_execution_metadata") samples,
   conditionalDlqSnapshot samples artifacts xs).

(** ** Step I8: identities *)

Record IdentityOccurrence := MkOccurrence {
  io_kind : string;
  io_id : string;
  io_origin_event_id : option string;
  io_partition : string;
  io_paired_attempt : option string;
  io_ledger_item : option string;
  io_examined : bool;
  io_ref : EvidenceRef;
}.

Definition CALLER_KINDS : list string := ["attempt_id"; "provider_request_id"].
Definition COMMIT_KINDS : list string := ["provider_transaction_id"; "provider_commit_id"].
Definition CALL_KINDS : list string := ["provider_call_id"].

Definition ORIGIN_KINDS : list (string * list string) :=
  [("attempt_registered", CALLER_KINDS); ("provider_call_received", CALL_KINDS); ("provider_warmup_completed", CALL_KINDS);
   ("provider_call_rejected", CALL_KINDS); ("provider_transaction_committed", COMMIT_KINDS); ("provider_commit_failed", COMMIT_KINDS)].

Definition APPEARANCE_KINDS : list (string * list string) :=
  [("dispatch_started", CALLER_KINDS); ("attempt_not_dispatched", CALLER_KINDS); ("attempt_outcome_recorded", CALLER_KINDS);
   ("transport_settled_after_timeout", CALLER_KINDS); ("provider_call_accepted", CALLER_KINDS ++ CALL_KINDS);
   ("provider_transaction_committed", CALLER_KINDS ++ CALL_KINDS); ("provider_commit_failed", CALL_KINDS)].

Definition LEDGER_KINDS : list string := CALLER_KINDS ++ CALL_KINDS ++ COMMIT_KINDS.

Definition ATTEMPT_REFERENCES : list string :=
  ["dispatch_started"; "attempt_not_dispatched"; "attempt_outcome_recorded"; "caller_timeout_recorded"; "transport_settled_after_timeout";
   "provider_call_accepted"; "provider_transaction_committed"].

Definition occurrence (v : json) (partition : string) (examined : bool) (ref : EvidenceRef) (origin item : option string) (kind : string) :
  list IdentityOccurrence :=
  match ownString v kind with
  | None => []
  | Some id => [MkOccurrence kind id origin partition (if bool_decide (kind = "provider_request_id") then ownString v "attempt_id" else None)
                  item examined ref]
  end.

Definition createsIdentities (ev : IndexedEvent) : bool :=
  negb (bool_decide (eventString ev "record_type" = Some "provider_call_rejected")) || bool_decide (ev_partition ev = EXECUTION_PARTITION).

Definition eventOccurrences (ev : IndexedEvent) : list IdentityOccurrence :=
  let recordType := nullish (eventString ev "record_type") "" in
  let origin := if createsIdentities ev then nullish (map_get recordType ORIGIN_KINDS) [] else [] in
  let appearance := List.filter (fun kind => negb (memb kind origin)) (nullish (map_get recordType APPEARANCE_KINDS) []) in
  let located := occurrence (JObj (ev_record ev)) (ev_partition ev) (bool_decide (ev_origin ev = subject_origin)) (eventRef ev) in
  flat_map (located (Some (event_id_of ev)) None) origin ++ flat_map (located None None) appearance.

Definition ledger_records (a : IngestedArtifact) : list (IngestedArtifact * json) :=
  map (fun r => (a, ir_value r))
    (List.filter (fun r => usable r && bool_decide (ownString (ir_value r) "record_type" = Some "ledger_snapshot")) (a_records a)).

Definition ledgerSnapshots (artifacts : list IngestedArtifact) : list (IngestedArtifact * json) := flat_map ledger_records artifacts.

Definition ledgerOccurrences (snapshot : IngestedArtifact * json) : list IdentityOccurrence :=
  let '(a, v) := snapshot in
  concat (imap (fun i t =>
    let index := string_of_Z (Z.of_nat i) in
    flat_map (occurrence t (partitionOf v) (bool_decide (a_origin a = subject_origin))
                (MkRef (a_path a) (a_sha256 a) None (Some ("/transactions/" +:+ index)) None) None (Some (a_path a +:+ "#" +:+ index)))
      LEDGER_KINDS) (itemsOf v "transactions")).

(** The groups of the map keyed by [kind#id]. *)
Definition identity_key (o : IdentityOccurrence) : string := io_kind o +:+ "#" +:+ io_id o.

Fixpoint add_occurrence (m : list (string * list IdentityOccurrence)) (o : IdentityOccurrence) : list (string * list IdentityOccurrence) :=
  match m with
  | [] => [(identity_key o, [o])]
  | (k, l) :: rest => if bool_decide (k = identity_key o) then (k, l ++ [o]) :: rest else (k, l) :: add_occurrence rest o
  end.

Definition by_identity (os : list IdentityOccurrence) : list (string * list IdentityOccurrence) := fold_left add_occurrence os [].

(** [new Set(values).size > 1] *)
Definition several (l : list string) : bool := (1 <? length (Journal.unique l))%nat.

Definition isJudgedCollision (group : list IdentityOccurrence) : bool :=
  existsb io_examined group
  && (several (omap io_origin_event_id group) || several (map io_partition group) || several (omap io_paired_attempt group)
      || several (omap (fun o => if memb (io_kind o) COMMIT_KINDS then io_ledger_item o else None) group)).

Definition toCollision (group : list IdentityOccurrence) : IdentityCollision :=
  MkCollision (nullish (option_map io_kind (head group)) "") (nullish (option_map io_id (head group)) "")
    (isort String.leb (Journal.unique (omap io_origin_event_id group))) (isort String.leb (Journal.unique (map io_partition group)))
    (sortEvidenceRefs (map io_ref group)).

Definition referencesAttempt (ev : IndexedEvent) : bool :=
  memb (nullish (eventString ev "record_type") "") ATTEMPT_REFERENCES && negb (bool_decide (eventString ev "source" = Some "runner")).

Definition registered_attempt (byIdentity : list (string * list IdentityOccurrence)) (attemptId : string) : bool :=
  existsb (fun o => negb (bool_decide (io_origin_event_id o = None))) (nullish (map_get ("attempt_id#" +:+ attemptId) byIdentity) []).

Definition unregisteredAttempts (evs : list IndexedEvent) (byIdentity : list (string * list IdentityOccurrence)) :
  list (string * EvidenceRef) :=
  omap (fun ev =>
    match eventString ev "attempt_id" with
    | Some a => if bool_decide (ev_origin ev = subject_origin) && referencesAttempt ev && negb (registered_attempt byIdentity a)
                then Some (a, eventRef ev) else None
    | None => None
    end) evs.

Definition buildIdentityRegistry (evs : list IndexedEvent) (artifacts : list IngestedArtifact) : IdentityRegistry :=
  let occurrences := flat_map eventOccurrences evs ++ flat_map ledgerOccurrences (ledgerSnapshots artifacts) in
  let byIdentity := by_identity occurrences in
  let collisions := map toCollision (List.filter isJudgedCollision (map snd byIdentity)) in
  MkRegistry (List.filter (fun c => memb (ic_kind c) CALLER_KINDS) collisions)
    (List.filter (fun c => negb (memb (ic_kind c) CALLER_KINDS)) collisions) (unregisteredAttempts evs byIdentity).

(** ** Merged findings *)

(** The parts of the key [JSON.stringify([code, path ?? '', instance ?? ''])]. *)
Definition finding_key (f : IngestionFinding) : IngestionFindingCode * string * string :=
  (f_code f, nullish (f_path f) "", nullish (f_instance f) "").

Fixpoint add_finding (groups : list (list IngestionFinding)) (f : IngestionFinding) : list (list IngestionFinding) :=
  match groups with
  | [] => [[f]]
  | g :: rest => if bool_decide (option_map finding_key (head g) = Some (finding_key f)) then (g ++ [f]) :: rest else g :: add_finding rest f
  end.

Definition mergeGroup (group : list IngestionFinding) : option IngestionFinding :=
  match group with
  | [] => None
  | [f] => Some f
  | first :: _ =>
      Some (MkFinding (f_code first) (f_subject first) (f_path first) (f_event first) (f_instance first)
              (aggregatedDetail (f_detail first) (Z.of_nat (length group)))
              (fold_left (fun total f => total + f_occurrences f) group 0))
  end.

Definition mergeFindings (fs : list IngestionFinding) : list IngestionFinding := omap mergeGroup (fold_left add_finding fs []).

Fixpoint keys_le (a b : list string) : bool :=
  match a, b with
  | x :: a', y :: b' => if bool_decide (x = y) then keys_le a' b' else String.ltb x y
  | _, _ => true
  end.

(** [compareFindings(a, b) <= 0] *)
Definition compareFindings (a b : IngestionFinding) : bool :=
  let keys f := [finding_code_text (f_code f); nullish (f_path f) ""; nullish (f_instance f) ""; nullish (f_event f) ""; f_detail f] in
  keys_le (keys a) (keys b).

Definition sortFindings (fs : list IngestionFinding) : list IngestionFinding := isort compareFindings fs.

(** ** Composition *)

Record IngestionInput := MkIngestionInput {
  ii_reading : ArtifactReading;
  ii_expected : list ExpectedArtifact;
  ii_indexed_digests : option (list (string * string));
}.

(** [new Map(artifacts.map((artifact) => [artifact.path, artifact]))]; step I1 keeps one
    artifact per path. *)
Definition by_path (artifacts : list IngestedArtifact) : list (string * IngestedArtifact) := map (fun a => (a_path a, a)) artifacts.

Definition ingestEvidence (input : IngestionInput) (validator : RecordValidator) : IngestedEvidence :=
  let reading := ii_reading input in
  let xs := ii_expected input in
  let s := resolveScope (rd_artifacts reading) xs (match ii_indexed_digests input with Some _ => true | None => false end) validator in
  let '(artifacts, classified) := classifyRecords (rd_artifacts reading) s validator in
  let collapse := indexEvents artifacts in
  let indexed := map snd (ec_by_id collapse) in
  let '(instances, density) := checkSequenceDensity indexed in
  let '(unresolved, causation) := resolveCausation (ec_by_id collapse) in
  let '(view, ledgerFindings) := readLedger artifacts in
  let '(observed, observationFindings) := readObservations artifacts xs in
  MkEvidence s xs (by_path artifacts)
    (MkIndex (ec_by_id collapse) instances (ec_conflicting_event_ids collapse)
       (List.filter (fun ev => bool_decide (ev_origin ev = subject_origin)) indexed) unresolved)
    view observed (buildIdentityRegistry indexed artifacts)
    (sortFindings (mergeFindings (rd_findings reading ++ classified ++ checkCoreDigests artifacts s (ii_indexed_digests input)
       ++ ec_findings collapse ++ density ++ causation ++ ledgerFindings ++ observationFindings)))
    (ii_indexed_digests input).

End Ingestion.
