(* ===== verification/IngestionCorrect.v ===== *)
(** * Correctness of evidence ingestion

    What the ingested evidence says about the artifacts it was read from: structural
    equality of records, the event index, sequence density, the ledger, and the
    well-formedness the oracle relies on. *)

From S2P Require Import Prelude Timestamps Settlement Decimals Store JsonText Parsing Journal.
From S2P Require Import Money ControlItems Evidence Fidelity IngestionGates Oracle OracleCorrect Ingestion.
Import Json JsonText ControlItems Evidence IngestionGates OracleCorrect Ingestion.
Open Scope Z_scope.
#[local] Set Warnings "-register-all".

Module IngestionCorrect.

(** ** Structural equality *)

(** Equality of JSON values up to the order of members. *)
Fixpoint json_same (a b : json) {struct a} : bool :=
  match a, b with
  | JNull, JNull => true
  | JBool x, JBool y => bool_decide (x = y)
  | JNum x, JNum y => bool_decide (x = y)
  | JStr x, JStr y => bool_decide (x = y)
  | JArr xs, JArr ys =>
      (fix items xs ys := match xs, ys with
                          | [], [] => true
                          | x :: xs', y :: ys' => json_same x y && items xs' ys'
                          | _, _ => false
                          end) xs ys
  | JObj ms, JObj ns =>
      bool_decide (length ms = length ns)
      && (fix members ms := match ms with
                            | [] => true
                            | (k, v) :: ms' => match member k ns with Some w => json_same v w | None => false end && members ms'
                            end) ms
  | _, _ => false
  end.

Definition pair_same (p : json * json) : bool := json_same p.1 p.2.
Definition pending_size (pending : list (json * json)) : nat := sum_list_with (fun p => Parsing.json_size p.1) pending.

Lemma items_same xs ys : json_same (JArr xs) (JArr ys) = bool_decide (length xs = length ys) && forallb pair_same (zip xs ys).
Proof.
  revert ys. induction xs as [|x xs IH]; intros [|y ys]; try done. specialize (IH ys).
  change (json_same (JArr (x :: xs)) (JArr (y :: ys))) with (json_same x y && json_same (JArr xs) (JArr ys)).
  rewrite IH. change (zip (x :: xs) (y :: ys)) with ((x, y) :: zip xs ys). cbn [length forallb]. unfold pair_same at 2. cbn [fst snd].
  destruct (bool_decide (length xs = length ys)) eqn:E.
  - apply bool_decide_eq_true in E. rewrite (bool_decide_eq_true_2 (S _ = S _)) by congruence. done.
  - apply bool_decide_eq_false in E. rewrite (bool_decide_eq_false_2 (S _ = S _)) by congruence. cbn. apply andb_false_r.
Qed.

Definition value_pairs (ms ns : list (string * json)) : list (json * json) :=
  omap (fun kv => option_map (pair kv.2) (member kv.1 ns)) ms.

Lemma members_same ms ns : json_same (JObj ms) (JObj ns) =
  bool_decide (length ms = length ns) && (forallb (fun kv => negb (lacks kv.1 ns)) ms && forallb pair_same (value_pairs ms ns)).
Proof.
  cbn [json_same]. f_equal. induction ms as [|[k v] ms IH]; [done|]. cbn [forallb fst]. rewrite IH. unfold value_pairs. cbn [omap list_omap].
  unfold lacks at 2. destruct (member k ns) as [w|] eqn:E; cbn [snd fst].
  - rewrite bool_decide_eq_false_2 by done. cbn [negb andb]. rewrite E. cbn [option_map forallb]. unfold pair_same at 2. cbn [fst snd].
    by rewrite !andb_assoc, (andb_comm (json_same v w)).
  - by rewrite bool_decide_eq_true_2.
Qed.

Lemma pending_size_app a b : pending_size (a ++ b) = (pending_size a + pending_size b)%nat.
Proof. unfold pending_size. apply sum_list_with_app. Qed.

Lemma zip_size xs : forall ys, length xs = length ys -> pending_size (zip xs ys) = sum_list_with Parsing.json_size xs.
Proof. induction xs as [|x xs IH]; intros [|y ys] [=]; [done|]. cbn. unfold pending_size in *. cbn. by rewrite IH. Qed.

Lemma value_pairs_size ms ns : (pending_size (value_pairs ms ns) <= sum_list_with (fun kv => Parsing.json_size kv.2) ms)%nat.
Proof.
  unfold value_pairs. induction ms as [|[k v] ms IH]; [done|]. cbn. destruct (member k ns); cbn; unfold pending_size in *; cbn; lia.
Qed.

Lemma heads_compared l r b : compare_heads l r = Some b -> json_same l r = b.
Proof. destruct l, r; cbn [compare_heads json_same]; by intros [=]. Qed.

(** The work list compares what it holds. *)
Lemma same_loop_correct fuel : forall pending, (pending_size pending < fuel)%nat ->
  same_loop fuel pending = Some (forallb pair_same pending).
Proof.
  induction fuel as [|fuel IH]; intros pending Hf; [lia|]. cbn [same_loop].
  destruct pending as [|p pending _] using rev_ind; [done|]. rewrite last_snoc, removelast_last. destruct p as [l r].
  rewrite forallb_app. cbn [forallb]. rewrite andb_true_r. unfold pair_same at 2. cbn [fst snd].
  rewrite pending_size_app in Hf.
  assert (Hpos : (1 <= Parsing.json_size l)%nat) by (destruct l; cbn; lia).
  assert (Hhead : pending_size [(l, r)] = Parsing.json_size l) by (cbn; lia). rewrite Hhead in Hf.
  assert (Hrest : same_loop fuel pending = Some (forallb pair_same pending)) by (apply IH; lia).
  destruct (compare_heads l r) as [[]|] eqn:Hc.
  - rewrite Hrest, (heads_compared _ _ _ Hc). by rewrite andb_true_r.
  - rewrite (heads_compared _ _ _ Hc). by rewrite andb_false_r.
  - destruct l as [| | | |xs|ms], r as [| | | |ys|ns]; try discriminate Hc; cbn [member_pairs].
    + rewrite items_same. case_bool_decide as Hl; [|by rewrite andb_false_r]. cbn [Parsing.json_size] in Hf.
      rewrite IH by (rewrite pending_size_app, zip_size by done; lia). by rewrite forallb_app.
    + rewrite members_same. case_bool_decide as Hl; cbn [andb]; [|by rewrite andb_false_r].
      destruct (forallb (fun kv => negb (lacks kv.1 ns)) ms); cbn [andb]; [|by rewrite andb_false_r]. cbn [Parsing.json_size] in Hf.
      fold (value_pairs ms ns). pose proof (value_pairs_size ms ns).
      rewrite IH by (rewrite pending_size_app; lia). by rewrite forallb_app.
Qed.

Lemma same_value a b : sameJsonValue a b = json_same a b.
Proof.
  unfold sameJsonValue. rewrite same_loop_correct; [cbn; by rewrite andb_true_r|]. unfold pending_size. cbn. lia.
Qed.

(** The work list of [sameJsonValue] ends within as many turns as its left value has
    parts and computes structural equality: equal leaves, arrays of equal length item by
    item, objects of the same number of members name by name, whatever the order. *)
Theorem same_json_value_correct a b :
  same_loop (S (Parsing.json_size a)) [(a, b)] = Some (json_same a b) /\ sameJsonValue a b = json_same a b.
Proof.
  assert (H : same_loop (S (Parsing.json_size a)) [(a, b)] = Some (json_same a b)).
  { rewrite same_loop_correct; [cbn; by rewrite andb_true_r|]. unfold pending_size. cbn. lia. }
  split; [done|apply same_value].
Qed.

(** ** The ledger *)

(** The pages are numbered from 1, each cursor starts the next page, the last page has
    none, and they declare as many items as the snapshot holds. *)
Record whole_ledger (snap : LedgerSnapshot) : Prop := WholeLedger {
  wl_complete : ls_complete snap = true;
  wl_paged : ls_pages snap <> [];
  wl_numbered : forall i p, ls_pages snap !! i = Some p -> pg_number p = Z.of_nat i + 1;
  wl_chained : forall i p q, ls_pages snap !! i = Some p -> ls_pages snap !! S i = Some q ->
    exists c, pg_next_cursor p = Some c /\ pg_start_cursor q = Some c;
  wl_last : forall p, last (ls_pages snap) = Some p -> pg_next_cursor p = None;
  wl_counted : foldr Z.add 0 (map pg_item_count (ls_pages snap)) = Z.of_nat (length (ls_transactions snap));
}.

Lemma page_problems_nil page i pages : pageProblems page i pages = [] <->
  pg_number page = Z.of_nat i + 1
  /\ match pages !! S i with
     | None => pg_next_cursor page = None
     | Some q => exists c, pg_next_cursor page = Some c /\ pg_start_cursor q = Some c
     end.
Proof.
  unfold pageProblems.
  assert (Hn : (if pg_number page =? Z.of_nat i + 1 then @nil string
    else [page_label (Z.of_nat i) +:+ " is numbered " +:+ string_of_Z (pg_number page) +:+ "; expected " +:+ string_of_Z (Z.of_nat i + 1)]) = []
    <-> pg_number page = Z.of_nat i + 1).
  { rewrite <- Z.eqb_eq. by destruct (_ =? _). }
  destruct (pages !! S i) as [q|].
  - destruct (pg_next_cursor page) as [c|]; [|rewrite app_nil; naive_solver].
    case_bool_decide; [rewrite Hn; naive_solver|]. rewrite app_nil. naive_solver.
  - destruct (pg_next_cursor page) as [c|]; [rewrite app_nil; naive_solver|]. rewrite Hn. naive_solver.
Qed.

Lemma concat_imap_nil {A B} (f : nat -> A -> list B) l : concat (imap f l) = [] <-> forall i x, l !! i = Some x -> f i x = [].
Proof.
  revert f. induction l as [|x l IH]; intros f; [split; [intros _ i x H; by rewrite lookup_nil in H|done]|].
  rewrite imap_cons. cbn [concat]. rewrite app_nil, IH. split.
  - intros [H0 H1] [|i] y; cbn; [by intros [= <-]|apply H1].
  - intros H. split; [by apply (H 0%nat)|]. intros i y Hy. by apply (H (S i)).
Qed.

Lemma declared_total pages acc : fold_left (fun total page => total + pg_item_count page) pages acc = acc + foldr Z.add 0 (map pg_item_count pages).
Proof. revert acc. induction pages as [|p pages IH]; intros acc; cbn; [lia|]. rewrite IH. lia. Qed.

Lemma pagination_problems_nil snap : paginationProblems snap = [] <-> whole_ledger snap.
Proof.
  unfold paginationProblems, declared_items. rewrite !app_nil, concat_imap_nil, declared_total, Z.add_0_l.
  setoid_rewrite page_problems_nil. split.
  - intros (H1 & H2 & H3 & H4). split.
    + by destruct (ls_complete snap).
    + by destruct (ls_pages snap).
    + intros i p Hp. by apply H3.
    + intros i p q Hp Hq. destruct (H3 i p Hp) as [_ H]. by rewrite Hq in H.
    + intros p Hl. rewrite last_lookup in Hl. destruct (H3 _ p Hl) as [_ H].
      rewrite lookup_ge_None_2 in H; [done|]. destruct (ls_pages snap); [done|]. cbn. lia.
    + apply Z.eqb_eq. by destruct (_ =? _).
  - intros [H1 H2 H3 H4 H5 H6]. rewrite H1, H6, Z.eqb_refl. split_and!; [done|by destruct (ls_pages snap)| |done].
    intros i p Hp. split; [by apply H3|]. destruct (ls_pages snap !! S i) as [q|] eqn:Hq; [by apply (H4 i)|].
    apply H5. rewrite last_lookup. apply lookup_ge_None in Hq. pose proof (lookup_lt_Some _ _ _ Hp).
    replace (pred (length (ls_pages snap))) with i by lia. done.
Qed.

Lemma repeated_ids_elem ids : forall seen repeated id,
  id ∈ repeated_ids seen repeated ids <-> id ∈ repeated \/ (exists i, ids !! i = Some id /\ (id ∈ seen \/ exists j, (j < i)%nat /\ ids !! j = Some id)).
Proof.
  induction ids as [|x ids IH]; intros seen repeated id; cbn [repeated_ids].
  { split; [by left|]. intros [H|(i & H & _)]; [done|by rewrite lookup_nil in H]. }
  destruct (memb x seen) eqn:Hx; [apply memb_true in Hx|apply memb_false in Hx]; rewrite IH.
  - assert (Hr : id ∈ (if memb x repeated then repeated else repeated ++ [x]) <-> id ∈ repeated \/ id = x).
    { destruct (memb x repeated) eqn:E; [apply memb_true in E; set_solver|set_solver]. }
    rewrite Hr. split.
    + intros [[H| ->]|(i & Hi & H)]; [by left|right; exists 0%nat; split; [done|by left]|right].
      exists (S i). split; [done|]. destruct H as [H|(j & Hj & H)]; [by left|right; exists (S j); split; [lia|done]].
    + intros [H|([|i] & Hi & H)]; [auto| |].
      * injection Hi as ->. destruct H as [H|(j & Hj & _)]; [auto|lia].
      * destruct H as [H|([|j] & Hj & H)]; [right; exists i; auto|injection H as ->; auto|].
        right. exists i. split; [done|]. right. exists j. split; [lia|done].
  - split.
    + intros [H|(i & Hi & H)]; [by left|right]. exists (S i). split; [done|]. rewrite elem_of_app in H.
      destruct H as [[H| ->%list_elem_of_singleton]|(j & Hj & H)]; [by left|right; exists 0%nat; split; [lia|done]|].
      right. exists (S j). split; [lia|done].
    + intros [H|([|i] & Hi & H)]; [by left| |].
      * injection Hi as ->. destruct H as [H|(j & Hj & _)]; [done|lia].
      * right. exists i. split; [done|]. rewrite elem_of_app.
        destruct H as [H|([|j] & Hj & H)]; [auto| |].
        -- injection H as ->. left. right. by apply list_elem_of_singleton.
        -- right. exists j. split; [lia|done].
Qed.

Definition transaction_ids (snap : LedgerSnapshot) : list string := map tx_provider_transaction_id (ls_transactions snap).

Lemma duplicate_ids snap id : id ∈ duplicateTransactionIds snap <->
  exists i j, (j < i)%nat /\ transaction_ids snap !! i = Some id /\ transaction_ids snap !! j = Some id.
Proof.
  unfold duplicateTransactionIds. rewrite isort_elem, repeated_ids_elem. fold (transaction_ids snap). split.
  - intros [H|(i & Hi & [H|(j & Hj & H)])]; [set_solver|set_solver|]. by exists i, j.
  - intros (i & j & Hj & Hi & H). right. exists i. split; [done|]. right. by exists j.
Qed.

(** The ledger view. Without a usable snapshot the view holds nothing and says whether
    the artifact is missing or unusable. With one, it keeps every transaction; pagination
    is complete exactly when the snapshot declares completion, its pages are numbered 1 to
    n, every cursor starts the next page, the last has none and the item counts sum to the
    transactions held; and the duplicate ids are exactly those two transactions share. *)
Theorem ledger_reading_correct artifacts :
  let view := fst (readLedger artifacts) in
  match soleRecord snapshotOf artifacts "ledger_snapshot" with
  | None => lv_snapshot view = None /\ lv_transactions view = [] /\ lv_pagination_complete view = false
      /\ (lv_status view = ledger_missing <-> subjectArtifact artifacts "ledger_snapshot" = None)
  | Some l => lv_status view = ledger_present /\ lv_snapshot view = Some l /\ lv_transactions view = ls_transactions (l_record l)
      /\ (lv_pagination_complete view = true <-> whole_ledger (l_record l))
      /\ (lv_pagination_problems view = [] <-> whole_ledger (l_record l))
      /\ (forall id, id ∈ lv_duplicate_transaction_ids view <->
            exists i j, (j < i)%nat /\ transaction_ids (l_record l) !! i = Some id /\ transaction_ids (l_record l) !! j = Some id)
  end.
Proof.
  unfold readLedger. destruct (soleRecord _ _ _) as [l|]; cbn.
  - rewrite bool_decide_eq_true, pagination_problems_nil. split_and!; try done. apply duplicate_ids.
  - split_and!; try done. by destruct (subjectArtifact _ _).
Qed.

(** ** What ingestion guarantees the oracle *)

Definition CORRELATION_FIELDS : list string :=
  ["run_id"; "variant_validation_id"; "transport_probe_id"; "execution_manifest_sha256"; "trial_id"; "trial_manifest_sha256"].

Lemma set_members_other set_ : forall m f, f ∉ map fst set_ -> member f (set_members set_ m) = member f m.
Proof.
  unfold set_members. induction set_ as [|[n v] set_ IH]; intros m f Hf; [done|]. cbn [map fst] in Hf. apply not_elem_of_cons in Hf as [Hn Hf].
  cbn [fold_left]. rewrite (IH _ _ Hf), member_set_member, bool_decide_eq_false_2 by done. done.
Qed.

Lemma with_members_other units : forall m f, (forall u, u ∈ units -> f ∉ map fst u) -> member f (withMembers m units) = member f m.
Proof.
  unfold withMembers. induction units as [|u units IH]; intros m f H; [done|]. cbn [fold_left].
  rewrite IH by (intros v Hv; apply H; by right). apply set_members_other, H. left.
Qed.

Lemma absent_units_correlation members judge u : u ∈ absentCorrelation members judge -> forall f, f ∈ map fst u -> f ∈ CORRELATION_FIELDS.
Proof.
  unfold absentCorrelation. intros Hu f Hf. rewrite !elem_of_app in Hu. unfold CORRELATION_FIELDS. destruct Hu as [Hu|[Hu|Hu]].
  - destruct (hasExecutionId members); [set_solver|]. apply list_elem_of_singleton in Hu as ->. cbn in Hf. apply list_elem_of_singleton in Hf as ->.
    destruct (sc_execution _) as [[]|]; cbn; set_solver.
  - destruct (lacks _ _); [|set_solver]. apply list_elem_of_singleton in Hu as ->. cbn in Hf. set_solver.
  - assert (Hu' : u = absentTrialMembers members).
    { destruct (jd_trial_unit judge); [|set_solver]. destruct (absentTrialMembers members); set_solver. }
    rewrite Hu' in Hf. unfold absentTrialMembers in Hf. destruct (lacks "trial_id" members), (lacks "trial_manifest_sha256" members); cbn in Hf; set_solver.
Qed.

Lemma masked_sub mask units u : u ∈ masked mask units -> u ∈ units.
Proof.
  unfold masked. rewrite list_elem_of_omap. intros (o & Ho & Hi). apply list_elem_of_lookup in Ho as [i Ho].
  rewrite list_lookup_imap in Ho. destruct (units !! i) as [w|] eqn:Hw; [|done]. cbn in Ho.
  destruct (Nat.testbit mask i); injection Ho as <-; [|done]. injection Hi as <-. by eapply list_elem_of_lookup_2.
Qed.

(** A usable record of a class with one record type is valid as that type once absent
    correlation members are filled in, and every other member is its own. *)
Lemma usable_is_valid judge shape v :
  jd_shape judge = Some shape -> shape <> ANY_EVENT -> vo_validity (classifyValue v judge) <> schema_invalid ->
  exists w, is_valid (validateAs (jd_validator judge) shape w) = true
  /\ forall f, f ∉ CORRELATION_FIELDS -> fieldOf w f = fieldOf v f.
Proof.
  intros Hs Ha Hu. assert (Hcheck : forall x, checkShape x judge = validateAs (jd_validator judge) shape x).
  { intros x. unfold checkShape. by rewrite Hs, bool_decide_eq_false_2. }
  unfold classifyValue in Hu. rewrite Hcheck in Hu. destruct (validateAs _ _ v) eqn:Hv.
  { exists v. by rewrite Hv. }
  destruct (correlation_only v judge) as [absent|] eqn:Hc; [|done]. unfold correlation_only in Hc.
  destruct v as [| | | | |members]; try done. destruct (absentCorrelation members judge) as [|u0 us] eqn:Hab; [done|].
  destruct (someFillValidates _ _ _) eqn:Hf; [|done]. apply existsb_true in Hf as (mask & _ & Hok). rewrite Hcheck in Hok.
  eexists. split; [exact Hok|]. intros f Hn. cbn [fieldOf]. apply with_members_other. intros u Hu'%masked_sub Hin.
  apply Hn. eapply absent_units_correlation; [|exact Hin]. by rewrite Hab.
Qed.

(** What the schemas of the ledger snapshot and the payment declare of amounts, as a
    promise of the validator. *)
Record declares_amounts (validator : RecordValidator) : Prop := DeclaresAmounts {
  transaction_amounts : forall v t, is_valid (validateAs validator "ledger_snapshot" v) = true ->
    t ∈ itemsOf v "transactions" -> 0 <= intOf t "amount_minor";
  captured_amount : forall v, is_valid (validateAs validator "payment" v) = true -> 0 <= intOf v "captured_amount_minor";
}.

Section Ingested.
Context (validator : RecordValidator) (input : IngestionInput).

Let s := resolveScope (rd_artifacts (ii_reading input)) (ii_expected input)
           (match ii_indexed_digests input with Some _ => true | None => false end) validator.
Let artifacts := fst (classifyRecords (rd_artifacts (ii_reading input)) s validator).

Lemma ingest_parts :
  Evidence.artifacts (ingestEvidence input validator) = by_path artifacts
  /\ ledger (ingestEvidence input validator) = fst (readLedger artifacts)
  /\ observations (ingestEvidence input validator) = fst (readObservations artifacts (ii_expected input)).
Proof.
  unfold ingestEvidence, artifacts, s. destruct (classifyRecords _ _ _) as [arts fs]. cbn [fst].
  destruct (checkSequenceDensity _). destruct (resolveCausation _). by destruct (readLedger arts), (readObservations arts _).
Qed.

Lemma ingested_values : artifact_values (ingestEvidence input validator) = artifacts.
Proof.
  unfold artifact_values. rewrite (proj1 ingest_parts). unfold by_path. rewrite map_map. apply map_id.
Qed.

(** A usable sole record of a class is valid as the class's record type. *)
Lemma sole_record_valid {T} (read : json -> T) class l :
  map_get class RECORD_SHAPE_BY_CLASS = Some class -> class <> ANY_EVENT ->
  soleRecord read artifacts class = Some l ->
  exists v w, l_record l = read v /\ is_valid (validateAs validator class w) = true
  /\ forall f, f ∉ CORRELATION_FIELDS -> fieldOf w f = fieldOf v f.
Proof.
  intros Hshape Hany. unfold soleRecord, subjectArtifact. destruct (find_first _ _) as [a|] eqn:Ha; [|done].
  apply find_first_Some in Ha as [Hin Hc]. destruct (a_records a) as [|r rs] eqn:Hr; [done|]. destruct (usable r) eqn:Hu; [|done].
  intros [= <-]. unfold artifacts, classifyRecords in Hin. cbn [fst] in Hin. rewrite map_map in Hin.
  apply list_elem_of_fmap in Hin as (p & -> & _). unfold is_subject_class in Hc. cbn in Hc, Hr.
  apply andb_true_iff in Hc as [_ Hc%bool_decide_eq_true]. destruct (p_values p) as [|v vs]; [done|]. cbn in Hr. injection Hr as <- _.
  unfold usable in Hu. cbn in Hu. apply negb_true_iff, bool_decide_eq_false in Hu.
  assert (Hs : expectedRecordShape (p_class p) = Some class) by (by rewrite Hc).
  match type of Hu with vo_validity (classifyValue _ ?j) <> _ => destruct (usable_is_valid j class (v_value v) Hs Hany Hu) as (w & Hw & Hf) end.
  exists (v_value v), w. cbn. by split_and!.
Qed.

Hypothesis schemas : declares_amounts validator.

Lemma intOf_safe v f : is_safe_integer (intOf v f) = true.
Proof. unfold intOf, as_safe_integer. destruct (fieldOf v f) as [[| |[z|]| | |]|]; try done. destruct (is_safe_integer z) eqn:E; done. Qed.

Lemma ingested_well_formed : well_ingested (ingestEvidence input validator).
Proof.
  destruct ingest_parts as (_ & Hl & Ho).
  assert (Hsnap : forall l, lv_snapshot (ledger (ingestEvidence input validator)) = Some l ->
    soleRecord snapshotOf artifacts "ledger_snapshot" = Some l
    /\ lv_transactions (ledger (ingestEvidence input validator)) = ls_transactions (l_record l)).
  { intros l. rewrite Hl. unfold readLedger. destruct (soleRecord _ _ _) as [l'|]; cbn; [by intros [= ->]|done]. }
  split.
  - intros l H. destruct (Hsnap l H) as [Hs Ht]. split; [exact Ht|]. rewrite ingested_values. unfold soleRecord in Hs.
    unfold subjectArtifact in Hs. destruct (find_first _ _) as [a|]; [eauto|done].
  - rewrite Hl. unfold readLedger. by destruct (soleRecord _ _ _).
  - intros t Ht. destruct (lv_snapshot (ledger (ingestEvidence input validator))) as [l|] eqn:H.
    + destruct (Hsnap l eq_refl) as [Hs Htx]. rewrite Htx in Ht.
      destruct (sole_record_valid snapshotOf "ledger_snapshot" l eq_refl ltac:(done) Hs) as (v & w & Hv & Hw & Hf).
      rewrite Hv in Ht. cbn [snapshotOf ls_transactions] in Ht. apply list_elem_of_fmap in Ht as (x & -> & Hx).
      split; [|apply intOf_safe]. apply (transaction_amounts _ schemas w x Hw). unfold itemsOf in *. rewrite Hf; [done|]. by vm_compute; set_solver.
    + exfalso. rewrite Hl in H, Ht. unfold readLedger in H, Ht. destruct (soleRecord _ _ _); [done|]. cbn in Ht. set_solver.
  - intros l. rewrite Ho. unfold readObservations. cbn. intros H.
    destruct (sole_record_valid paymentOf "payment" l eq_refl ltac:(done) H) as (v & w & -> & Hw & Hf). cbn.
    pose proof (captured_amount _ schemas w Hw) as Hc. unfold intOf in *. rewrite Hf in Hc; [done|]. by vm_compute; set_solver.
Qed.
End Ingested.

(** C28: Ingestion delivers what the oracle relies on. Whatever artifacts were read, if the
    validator accepts ledger snapshots and payments only with nonnegative amounts, as
    their schemas declare, then the ledger view holds exactly the transactions of the
    subject's ledger artifact, the artifact is there when the snapshot is, every amount is
    a nonnegative safe integer and the captured amount is not negative; records that only
    lacked correlation members included. *)
Theorem ingestion_well_formed validator input :
  declares_amounts validator -> well_ingested (ingestEvidence input validator).
Proof. apply ingested_well_formed. Qed.

(** A validator that checks the amounts and that a ledger snapshot names its execution. *)
Definition amounts_validator : RecordValidator :=
  MkValidator (fun _ => record_valid)
    (fun shape v =>
       if bool_decide (shape = "ledger_snapshot") && negb (forallb (fun t => 0 <=? intOf t "amount_minor") (itemsOf v "transactions")
                                                           && negb (bool_decide (fieldOf v "run_id" = None)))
          || bool_decide (shape = "payment") && negb (0 <=? intOf v "captured_amount_minor")
       then record_invalid [] else record_valid).

Definition ledger_file (members : list (string * json)) : ParsedArtifact :=
  MkParsed "ledger.json" "sha" subject_origin (Some "ledger_snapshot") (Some required) parsed
    [MkParsedValue None (JObj (("transactions", JArr [JObj [("provider_transaction_id", JStr "tx1"); ("amount_minor", JNum (JSInt 1250))]]) :: members))].

Definition one_ledger : IngestionInput := MkIngestionInput (MkReading [ledger_file []] []) [] None.

(** The snapshot without an execution identity is read, and its correlation reported. *)
Lemma ingestion_well_formed_witness :
  well_ingested (ingestEvidence one_ledger amounts_validator)
  /\ map tx_amount_minor (lv_transactions (ledger (ingestEvidence one_ledger amounts_validator))) = [1250]
  /\ map f_code (findings (ingestEvidence one_ledger amounts_validator)) = [CORRELATION_MISSING; LEDGER_PAGINATION_INCOMPLETE].
Proof.
  split; [|by vm_compute]. apply ingestion_well_formed. split.
  - intros v t H Ht. cbn -[intOf itemsOf] in H. destruct (forallb _ _) eqn:E; [|done].
    rewrite forallb_forall in E. apply Z.leb_le, E. by apply list_elem_of_In.
  - intros v H. cbn -[intOf itemsOf] in H. destruct (0 <=? _) eqn:E; [|done]. by apply Z.leb_le.
Defined.

(** ** Sequence density *)

Definition in_instance (key : string) (ev : IndexedEvent) : bool := beyond_scope ev && bool_decide (instanceKey ev = key).

Definition instance_events (key : string) (evs : list IndexedEvent) : list IndexedEvent := List.filter (in_instance key) evs.

Definition by_sequence (evs : list IndexedEvent) : list (Z * list string) :=
  fold_left (fun m ev => push_id (sequenceOf ev) (event_id_of ev) m) evs [].

Lemma fold_left_snoc {A B} (f : A -> B -> A) l x a : fold_left f (l ++ [x]) a = f (fold_left f l a) x.
Proof. by rewrite fold_left_app. Qed.

Lemma filter_snoc {A} (p : A -> bool) l x : List.filter p (l ++ [x]) = List.filter p l ++ (if p x then [x] else []).
Proof. rewrite List.filter_app. cbn. by destruct (p x). Qed.

Lemma push_id_keys n id m k : k ∈ map fst (push_id n id m) <-> k = n \/ k ∈ map fst m.
Proof.
  induction m as [|[x ids] m IH]; cbn [push_id map fst]; [set_solver|]. destruct (x =? n) eqn:E; cbn [map fst].
  - apply Z.eqb_eq in E as ->. set_solver.
  - rewrite !elem_of_cons, IH. tauto.
Qed.

Lemma push_id_NoDup n id m : NoDup (map fst m) -> NoDup (map fst (push_id n id m)).
Proof.
  induction m as [|[x ids] m IH]; cbn [push_id map fst]; [intros _; apply NoDup_singleton|].
  intros [Hx Hn]%NoDup_cons. destruct (x =? n) eqn:E; cbn [map fst]; apply NoDup_cons; [done|]. split; [|auto].
  rewrite push_id_keys. apply Z.eqb_neq in E. intros [?|?]; congruence.
Qed.

Lemma push_id_entries n id m k ids : NoDup (map fst m) -> (k, ids) ∈ push_id n id m <->
  (k <> n /\ (k, ids) ∈ m) \/ (k = n /\ ((exists old, (n, old) ∈ m /\ ids = old ++ [id]) \/ ((n ∉ map fst m) /\ ids = [id]))).
Proof.
  induction m as [|[x old] m IH]; cbn [push_id map fst].
  { intros _. rewrite list_elem_of_singleton. set_solver. }
  intros [Hx Hn]%NoDup_cons. destruct (x =? n) eqn:E.
  - apply Z.eqb_eq in E as ->. rewrite !elem_of_cons. split.
    + intros [[= -> ->]|H]; [right; split; [done|]; left; exists old; split; [by left|done]|]. left. split; [|by right].
      intros ->. apply Hx. apply list_elem_of_fmap. by exists (n, ids).
    + intros [[Hk [[= ? ?]|H]]|[-> [(o & Ho & ->)|[Hk _]]]]; [done|by right| |by destruct Hk; left].
      apply elem_of_cons in Ho as [[= ->]|Ho]; [by left|]. destruct Hx. apply list_elem_of_fmap. by exists (n, o).
  - apply Z.eqb_neq in E. rewrite !elem_of_cons, (IH Hn). split.
    + intros [[= -> ->]|[[? ?]|[-> [(o & Ho & ->)|[Hk ->]]]]]; [left; auto|left; auto| |].
      * right. split; [done|]. left. exists o. split; [by right|done].
      * right. split; [done|]. right. split; [|done]. intros [?|?]; [congruence|done].
    + intros [[Hk [[= -> ->]|H]]|[-> [(o & Ho & ->)|[Hk ->]]]]; [by left|auto| |].
      * apply elem_of_cons in Ho as [[= ? ?]|Ho]; [congruence|]. right. right. split; [done|]. left. by exists o.
      * right. right. split; [done|]. right. split; [|done]. intros ?. apply Hk. by right.
Qed.

Definition ids_at (n : Z) (evs : list IndexedEvent) : list string := map event_id_of (List.filter (fun ev => sequenceOf ev =? n) evs).

(** The map of an instance holds, for each sequence read, the ids read at it. *)
Lemma by_sequence_spec evs :
  NoDup (map fst (by_sequence evs))
  /\ (forall n, n ∈ map fst (by_sequence evs) <-> exists ev, ev ∈ evs /\ sequenceOf ev = n)
  /\ (forall n ids, (n, ids) ∈ by_sequence evs <-> ids <> [] /\ ids = ids_at n evs).
Proof.
  induction evs as [|ev evs IH] using rev_ind.
  { cbn. split_and!; [apply NoDup_nil_2|set_solver|]. intros n ids. split; [set_solver|]. cbn. naive_solver. }
  destruct IH as (Hn & Hk & He). unfold by_sequence. rewrite fold_left_snoc. fold (by_sequence evs). split_and!.
  - by apply push_id_NoDup.
  - intros n. rewrite push_id_keys, Hk. setoid_rewrite elem_of_app. setoid_rewrite list_elem_of_singleton. naive_solver.
  - intros n ids. rewrite (push_id_entries _ _ _ _ _ Hn). unfold ids_at. rewrite filter_snoc, map_app. fold (ids_at n evs).
    assert (Hnone : forall m, m ∉ map fst (by_sequence evs) <-> ids_at m evs = []).
    { intros m. rewrite Hk. unfold ids_at. split.
      - intros H. destruct (List.filter _ evs) as [|x l] eqn:E; [done|]. destruct H. exists x.
        assert (Hx : x ∈ List.filter (fun ev => sequenceOf ev =? m) evs) by (rewrite E; left).
        apply elem_of_filter_bool in Hx as [Hx Hs]. split; [done|]. by apply Z.eqb_eq.
      - intros H (x & Hx & Hs). apply map_eq_nil in H. rewrite filter_bool_nil, existsb_false in H. specialize (H x Hx).
        by apply Z.eqb_neq in H. }
    destruct (sequenceOf ev =? n) eqn:E; cbn [map].
    + apply Z.eqb_eq in E. rewrite E. split.
      * intros [[? _]|[_ [(old & Ho & ->)|[H ->]]]]; [done| |].
        -- apply He in Ho as [_ ->]. split; [by destruct (ids_at n evs)|done].
        -- apply Hnone in H. by rewrite H.
      * intros [_ ->]. right. split; [done|]. destruct (ids_at n evs) as [|i0 il] eqn:Hi.
        -- right. split; [by apply Hnone|done].
        -- left. exists (i0 :: il). split; [|done]. apply He. by rewrite Hi.
    + apply Z.eqb_neq in E. rewrite app_nil_r, He. naive_solver.
Qed.

Lemma add_instance_get grouped ev key : map_get key (add_to_instance grouped ev) =
  if bool_decide (instanceKey ev = key) then Some (push_event ev (nullish (map_get key grouped) (MkInstanceEvents ev [])))
  else map_get key grouped.
Proof.
  induction grouped as [|[k i] grouped IH]; cbn [add_to_instance map_get].
  - by case_bool_decide.
  - destruct (bool_decide (k = instanceKey ev)) eqn:E; [apply bool_decide_eq_true in E as ->|apply bool_decide_eq_false in E]; cbn [map_get].
    + by case_bool_decide.
    + rewrite IH. case_bool_decide as Hk; case_bool_decide as He; try done. congruence.
Qed.

Lemma map_get_elem {V} key (m : list (string * V)) v : map_get key m = Some v -> (key, v) ∈ m.
Proof.
  induction m as [|[k w] m IH]; cbn; [done|]. case_bool_decide as E; [intros [= ->]; subst; left|]. intros H. right. auto.
Qed.

(** Each instance groups its own events, in order. *)
Lemma grouped_spec evs key : map_get key (grouped_instances evs) =
  match instance_events key evs with
  | [] => None
  | first :: _ => Some (MkInstanceEvents first (by_sequence (instance_events key evs)))
  end.
Proof.
  unfold grouped_instances. induction evs as [|ev evs IH] using rev_ind; [done|].
  unfold instance_events. rewrite !filter_snoc. unfold in_instance at 2 4. fold (instance_events key evs).
  destruct (beyond_scope ev); cbn [andb]; [|by rewrite !app_nil_r].
  rewrite fold_left_snoc, add_instance_get, IH. case_bool_decide; [|by rewrite app_nil_r].
  unfold by_sequence. rewrite fold_left_snoc. destruct (instance_events key evs) as [|f l]; [done|]. done.
Qed.

Lemma grouped_keys_NoDup evs : NoDup (map fst (grouped_instances evs)).
Proof.
  unfold grouped_instances. induction (List.filter beyond_scope evs) as [|ev l IH] using rev_ind; [apply NoDup_nil_2|].
  rewrite fold_left_snoc. revert IH. generalize (fold_left add_to_instance l []). clear. intros g.
  assert (Hk : forall g k, k ∈ map fst (add_to_instance g ev) <-> k = instanceKey ev \/ k ∈ map fst g).
  { clear. induction g as [|[x i] g IH]; intros k; cbn [add_to_instance map fst]; [set_solver|].
    case_bool_decide as E; cbn [map fst]; rewrite !elem_of_cons; [subst; tauto|]. rewrite IH. tauto. }
  induction g as [|[x i] g IH]; cbn [add_to_instance map fst]; [intros _; apply NoDup_singleton|].
  intros [Hx Hn]%NoDup_cons. case_bool_decide as E; cbn [map fst]; apply NoDup_cons; [done|]. split; [|auto].
  rewrite Hk. intros [?|?]; congruence.
Qed.

Lemma elem_map_get {V} key (m : list (string * V)) v : NoDup (map fst m) -> (key, v) ∈ m -> map_get key m = Some v.
Proof.
  induction m as [|[k w] m IH]; cbn [map fst map_get]; [set_solver|]. intros [Hk Hn]%NoDup_cons [[= -> ->]|H]%elem_of_cons.
  - by rewrite bool_decide_eq_true_2.
  - rewrite bool_decide_eq_false_2; [auto|]. intros ->. apply Hk. apply list_elem_of_fmap. by exists (key, v).
Qed.

(** *** Counting *)

Lemma fold_max_bound l : forall acc, acc <= fold_left Z.max l acc /\ forall x, x ∈ l -> x <= fold_left Z.max l acc.
Proof.
  induction l as [|y l IH]; intros acc; cbn [fold_left]; [split; [lia|set_solver]|]. destruct (IH (Z.max acc y)) as [H1 H2].
  split; [lia|]. intros x [->|Hx]%elem_of_cons; [lia|auto].
Qed.

Lemma fold_max_attained l : forall acc, fold_left Z.max l acc = acc \/ fold_left Z.max l acc ∈ l.
Proof.
  induction l as [|y l IH]; intros acc; cbn [fold_left]; [by left|]. destruct (IH (Z.max acc y)) as [H|H]; [|right; by right].
  rewrite H. destruct (Z.max_spec acc y) as [[_ ->]|[_ ->]]; [right; left|by left].
Qed.

(** Distinct positive numbers fill 1 to their maximum exactly when there are as many. *)
Lemma dense_iff l m : NoDup l -> (forall x, x ∈ l -> 1 <= x <= m) -> 0 <= m ->
  (m - Z.of_nat (length l) <= 0 <-> forall n, 1 <= n <= m -> n ∈ l) /\ 0 <= m - Z.of_nat (length l).
Proof.
  intros Hn Hb Hm. assert (Hlen : length (seqZ 1 m) = Z.to_nat m) by apply length_seqZ.
  assert (Hs : l ⊆+ seqZ 1 m) by (apply NoDup_submseteq; [done|]; intros x Hx%Hb; apply elem_of_seqZ; lia).
  assert (Hle : (length l <= Z.to_nat m)%nat) by (rewrite <- Hlen; by apply submseteq_length).
  split; [|lia]. split.
  - intros H n Hn'. assert (Hp : l ≡ₚ seqZ 1 m) by (apply submseteq_length_Permutation; [done|lia]).
    rewrite Hp. apply elem_of_seqZ. lia.
  - intros H. assert (Hs' : seqZ 1 m ⊆+ l) by (apply NoDup_submseteq; [apply NoDup_seqZ|]; intros x Hx%elem_of_seqZ; apply H; lia).
    apply submseteq_length in Hs'. lia.
Qed.

(** *** Judged instances *)

Section Instance.
Context (key : string) (evs : list IndexedEvent).
Context (Hids : NoDup (map event_id_of evs)) (Hpos : forall ev, ev ∈ evs -> 1 <= sequenceOf ev).
Let own := instance_events key evs.

Definition gap_below (l : list IndexedEvent) : Prop :=
  exists n ev, ev ∈ l /\ 1 <= n < sequenceOf ev /\ forall x, x ∈ l -> sequenceOf x <> n.

Definition sequence_shared (l : list IndexedEvent) : Prop :=
  exists a b, a ∈ l /\ b ∈ l /\ event_id_of a <> event_id_of b /\ sequenceOf a = sequenceOf b.

Lemma own_elem ev : ev ∈ own -> ev ∈ evs.
Proof. by intros [? _]%elem_of_filter_bool. Qed.

Lemma gapped_iff first : 0 < missing_sequences (MkInstanceEvents first (by_sequence own)) <-> gap_below own.
Proof.
  destruct (by_sequence_spec own) as (Hn & Hk & _). unfold missing_sequences, max_sequence, sequences_of. cbn [ie_by_sequence].
  set (l := sort_on id (map fst (by_sequence own))).
  assert (Hl : forall n, n ∈ l <-> exists ev, ev ∈ own /\ sequenceOf ev = n) by (intros n; unfold l; by rewrite sort_on_elem).
  assert (Hd : NoDup l) by (unfold l, sort_on; by rewrite isort_perm).
  set (m := fold_left Z.max l 0). destruct (fold_max_bound l 0) as [Hm Hb]. fold m in Hm, Hb.
  assert (Hrange : forall x, x ∈ l -> 1 <= x <= m).
  { intros x Hx. split; [|auto]. apply Hl in Hx as (ev & He%own_elem & <-). auto. }
  destruct (dense_iff l m Hd Hrange Hm) as [Hiff Hge]. split.
  - intros Hgap. assert (Hin : m ∈ l) by (destruct (fold_max_attained l 0) as [H0|Hin]; [fold m in H0; lia|done]).
    destruct (decide (Forall (fun n => n ∈ l) (seqZ 1 m))) as [Hall|Hnot].
    { rewrite Forall_forall in Hall.
      assert (m - Z.of_nat (length l) <= 0) by (apply Hiff; intros n Hn'; apply Hall, elem_of_seqZ; lia). lia. }
    apply not_Forall_Exists, Exists_exists in Hnot as (n & Hns & Hnl); [|apply _]. apply elem_of_seqZ in Hns.
    apply Hl in Hin as (ev & He & Hs). exists n, ev. split; [done|]. split.
    + assert (n <> m) by (intros ->; apply Hnl, Hl; eauto). lia.
    + intros x Hx Heq. apply Hnl, Hl. eauto.
  - intros (n & ev & He & Hr & Hno). destruct (Z.le_gt_cases (m - Z.of_nat (length l)) 0) as [Hle|]; [|lia].
    assert (Hm' : sequenceOf ev <= m) by (apply Hb, Hl; eauto). apply Hiff with (n := n) in Hle; [|lia].
    apply Hl in Hle as (x & Hx & Hs). by destruct (Hno x Hx).
Qed.

Lemma own_ids : NoDup (map event_id_of own).
Proof.
  unfold own, instance_events. clear Hpos. induction evs as [|ev l IH]; cbn; [apply NoDup_nil_2|].
  cbn in Hids. apply NoDup_cons in Hids as [H1 H2]. destruct (in_instance key ev); [|auto]. cbn. apply NoDup_cons. split; [|auto].
  intros (x & Hx & Hin)%list_elem_of_fmap. apply H1, list_elem_of_fmap. exists x. split; [done|].
  by apply elem_of_filter_bool in Hin as [? _].
Qed.

Lemma conflicting_iff first : 0 < Z.of_nat (length (conflicting_sequences (MkInstanceEvents first (by_sequence own)))) <-> sequence_shared own.
Proof.
  destruct (by_sequence_spec own) as (_ & _ & He). unfold conflicting_sequences. cbn [ie_by_sequence].
  assert (Hsome : 0 < Z.of_nat (length (List.filter (fun e => (1 <? length e.2)%nat) (by_sequence own)))
                  <-> exists n, (1 < length (ids_at n own))%nat).
  { split.
    - intros H. destruct (List.filter _ _) as [|[n ids] l] eqn:E; [cbn in H; lia|].
      assert (Hx : (n, ids) ∈ List.filter (fun e : Z * list string => (1 <? length e.2)%nat) (by_sequence own)) by (rewrite E; left).
      apply elem_of_filter_bool in Hx as [Hx Hl%Nat.ltb_lt]. apply He in Hx as [_ ->]. by exists n.
    - intros (n & Hn). assert (Hx : (n, ids_at n own) ∈ by_sequence own) by (apply He; split; [by destruct (ids_at n own); [cbn in Hn; lia|]|done]).
      assert (Hf : (n, ids_at n own) ∈ List.filter (fun e : Z * list string => (1 <? length e.2)%nat) (by_sequence own)).
      { apply elem_of_filter_bool. split; [done|]. by apply Nat.ltb_lt. }
      destruct (List.filter _ _); [set_solver|cbn; lia]. }
  rewrite Hsome. split.
  - intros (n & Hn). unfold ids_at in Hn. rewrite length_map in Hn.
    assert (Hin : forall x, x ∈ List.filter (fun ev => sequenceOf ev =? n) own -> x ∈ own /\ sequenceOf x = n).
    { intros x [Hx Hs%Z.eqb_eq]%elem_of_filter_bool. done. }
    pose proof own_ids as Hnd.
    assert (Hnd' : NoDup (map event_id_of (List.filter (fun ev => sequenceOf ev =? n) own))).
    { clear Hn Hin. revert Hnd. generalize own. intros l. induction l as [|ev l IH]; cbn; [done|]. intros [H1 H2]%NoDup_cons.
      destruct (sequenceOf ev =? n); [|auto]. cbn. apply NoDup_cons. split; [|auto]. intros (x & Hx & Hi)%list_elem_of_fmap.
      apply H1, list_elem_of_fmap. exists x. split; [done|]. by apply elem_of_filter_bool in Hi as [? _]. }
    destruct (List.filter _ own) as [|a [|b l]]; [cbn in Hn; lia|cbn in Hn; lia|].
    destruct (Hin a ltac:(left)) as [Ha Sa]. destruct (Hin b ltac:(right; left)) as [Hb Sb]. exists a, b. split_and!; [done|done| |congruence].
    cbn in Hnd'. apply NoDup_cons in Hnd' as [H1 _]. intros Heq. apply H1. rewrite Heq. left.
  - intros (a & b & Ha & Hb & Hne & Hs). exists (sequenceOf a). unfold ids_at. rewrite length_map.
    assert (Ia : a ∈ List.filter (fun ev => sequenceOf ev =? sequenceOf a) own) by (apply elem_of_filter_bool; split; [done|by apply Z.eqb_eq]).
    assert (Ib : b ∈ List.filter (fun ev => sequenceOf ev =? sequenceOf a) own) by (apply elem_of_filter_bool; split; [done|by apply Z.eqb_eq]).
    destruct (List.filter _ own) as [|x [|y l]]; [set_solver| |cbn; lia].
    apply list_elem_of_singleton in Ia, Ib. congruence.
Qed.
End Instance.

Lemma map_get_map {V W} (f : string -> V -> W) (m : list (string * V)) key :
  map_get key (map (fun '(k, v) => (k, f k v)) m) = option_map (f key) (map_get key m).
Proof. induction m as [|[k v] m IH]; cbn; [done|]. case_bool_decide as E; [by rewrite E|done]. Qed.

Lemma judged_instances evs key : map_get key (fst (checkSequenceDensity evs)) =
  option_map (fun i => fst (judgeInstance key i)) (map_get key (grouped_instances evs)).
Proof.
  unfold checkSequenceDensity. cbn [fst]. rewrite <- (map_get_map (fun k i => fst (judgeInstance k i))). f_equal.
  rewrite map_map. apply map_ext. by intros [k i].
Qed.

Lemma judged_findings evs f key c : c = SOURCE_SEQUENCE_GAP \/ c = CONFLICTING_SOURCE_SEQUENCE ->
  f_code f = c -> f_instance f = Some key ->
  f ∈ snd (checkSequenceDensity evs) <-> exists i, map_get key (grouped_instances evs) = Some i /\ f ∈ snd (judgeInstance key i).
Proof.
  intros Hc Hf Hk. unfold checkSequenceDensity. cbn [snd]. rewrite list_elem_of_In, in_flat_map. setoid_rewrite <- list_elem_of_In. split.
  - intros (x & Hx & Hin). apply list_elem_of_fmap in Hx as ([k i] & -> & Hki).
    assert (Hkey : k = key).
    { unfold judgeInstance in Hin. cbn [snd] in Hin. apply elem_of_app in Hin as [Hin|Hin].
      - destruct (conflicting_sequences i) as [|[n ids] l]; [set_solver|]. apply list_elem_of_singleton in Hin as ->. cbn in Hk. congruence.
      - destruct (_ >? _); [|set_solver]. apply list_elem_of_singleton in Hin as ->. cbn in Hk. congruence. }
    subst k. exists i. split; [|done]. apply elem_map_get; [apply grouped_keys_NoDup|done].
  - intros (i & Hi & Hin). exists (judgeInstance key i). split; [|done]. apply list_elem_of_fmap. exists (key, i). split; [done|].
    by apply map_get_elem.
Qed.

(** Sequence density. Over indexed events with distinct ids and positive sequences, every
    source instance of the subject and its supplements is judged, and only these. An
    instance is gapped exactly when some sequence below one it recorded is recorded by none
    of its events, and has conflicting sequences exactly when two of its events share one;
    a gap or conflict finding names the instance exactly then. *)
Theorem sequence_density_correct evs :
  NoDup (map event_id_of evs) -> (forall ev, ev ∈ evs -> 1 <= sequenceOf ev) ->
  let instances := fst (checkSequenceDensity evs) in
  let found c key := exists f, f ∈ snd (checkSequenceDensity evs) /\ f_code f = c /\ f_instance f = Some key in
  forall key,
    (map_get key instances = None <-> instance_events key evs = [])
    /\ forall view, map_get key instances = Some view ->
       (si_gapped view = true <-> gap_below (instance_events key evs))
       /\ (0 < si_conflicting_sequences view <-> sequence_shared (instance_events key evs))
       /\ (found SOURCE_SEQUENCE_GAP key <-> si_gapped view = true)
       /\ (found CONFLICTING_SOURCE_SEQUENCE key <-> 0 < si_conflicting_sequences view).
Proof.
  intros Hids Hpos instances found key. unfold instances. rewrite judged_instances.
  assert (Hf : forall c, c = SOURCE_SEQUENCE_GAP \/ c = CONFLICTING_SOURCE_SEQUENCE -> found c key <->
    exists i f, map_get key (grouped_instances evs) = Some i /\ f ∈ snd (judgeInstance key i) /\ f_code f = c /\ f_instance f = Some key).
  { intros c Hc. unfold found. split.
    - intros (f & Hin & Hfc & Hk). apply (judged_findings evs f key c Hc Hfc Hk) in Hin as (i & Hi & Hin). eauto 10.
    - intros (i & f & Hi & Hin & Hfc & Hk). exists f. split; [|done]. apply (judged_findings evs f key c Hc Hfc Hk). eauto. }
  pose proof (grouped_spec evs key) as Hget. rewrite Hget.
  destruct (instance_events key evs) as [|first l] eqn:Hown; [split; [done|by intros view [=]]|].
  split; [done|]. rewrite <- Hown in *. intros view [= <-]. cbn [judgeInstance fst si_gapped si_conflicting_sequences].
  set (i := MkInstanceEvents first (by_sequence (instance_events key evs))) in *.
  rewrite (Hf _ (or_introl eq_refl)), (Hf _ (or_intror eq_refl)). clear Hf.
  pose proof (gapped_iff key evs Hpos first) as Hg. pose proof (conflicting_iff key evs Hids Hpos first) as Hc. fold i in Hg, Hc.
  assert (Hgb : (missing_sequences i >? 0) = true <-> 0 < missing_sequences i) by (rewrite Z.gtb_ltb; apply Z.ltb_lt).
  split_and!.
  - by rewrite Hgb.
  - done.
  - split.
    + intros (i' & f & Hi' & Hin & Hfc & _). rewrite Hget in Hi'. injection Hi' as <-. cbn [judgeInstance snd] in Hin. apply elem_of_app in Hin as [Hin|Hin].
      * destruct (conflicting_sequences i) as [|[n ids] cs]; [set_solver|]. apply list_elem_of_singleton in Hin as ->. done.
      * destruct (missing_sequences i >? 0); [done|set_solver].
    + intros Hgap. eexists i, _. split; [done|]. cbn [judgeInstance snd]. rewrite Hgap. split; [apply elem_of_app; right; left|done].
  - split.
    + intros (i' & f & Hi' & Hin & Hfc & _). rewrite Hget in Hi'. injection Hi' as <-. cbn [judgeInstance snd] in Hin. apply elem_of_app in Hin as [Hin|Hin].
      * destruct (conflicting_sequences i) as [|[n ids] cs]; [set_solver|cbn; lia].
      * destruct (missing_sequences i >? 0); [|set_solver]. apply list_elem_of_singleton in Hin as ->. done.
    + intros H. destruct (conflicting_sequences i) as [|[n ids] cs] eqn:E; [cbn in H; lia|].
      eexists i, _. split; [done|]. cbn [judgeInstance snd]. rewrite E. split; [apply elem_of_app; left; left|done].
Qed.

Definition sequenced (id : string) (n : Z) : IndexedEvent :=
  MkEvent [("event_id", JStr id); ("source", JStr "refund_provider"); ("source_instance_id", JStr "i"); ("source_sequence", JNum (JSInt n))]
    "provider.jsonl" "sha" None subject_origin "t1" 1.

(** Sequences 1, 3, 3: the instance lacks 2 and shares 3. *)
Lemma sequence_density_correct_witness :
  gap_below (instance_events "refund_provider#i" [sequenced "a" 1; sequenced "b" 3; sequenced "c" 3])
  /\ sequence_shared (instance_events "refund_provider#i" [sequenced "a" 1; sequenced "b" 3; sequenced "c" 3]).
Proof.
  destruct (sequence_density_correct [sequenced "a" 1; sequenced "b" 3; sequenced "c" 3]
    ltac:(apply (bool_decide_unpack _); vm_compute; exact I)
    ltac:(intros ev H; repeat (apply elem_of_cons in H as [->|H]; [vm_compute; discriminate|]); by apply elem_of_nil in H) "refund_provider#i") as [_ H].
  edestruct H as (H1 & H2 & _); [vm_compute; reflexivity|]. split; [by apply H1|by apply H2].
Defined.

(** ** The event index *)

Definition has_id (id : string) (ev : IndexedEvent) : bool := bool_decide (event_id_of ev = id).

Definition copies_of (id : string) (evs : list IndexedEvent) : list IndexedEvent := List.filter (has_id id) evs.

Definition group_of (kept : IndexedEvent) (rest : list IndexedEvent) : EventGroup := fold_left add_copy rest (MkGroup kept [kept] 0 0).

Lemma add_group_get groups ev id : map_get id (addToGroup groups ev) =
  if has_id id ev then Some (match map_get id groups with None => MkGroup ev [ev] 0 0 | Some g => add_copy g ev end) else map_get id groups.
Proof.
  unfold has_id. induction groups as [|[k g] groups IH]; cbn [addToGroup map_get].
  - by case_bool_decide.
  - destruct (bool_decide (k = event_id_of ev)) eqn:E; [apply bool_decide_eq_true in E as ->|apply bool_decide_eq_false in E]; cbn [map_get].
    + by case_bool_decide.
    + rewrite IH. case_bool_decide as Hk; case_bool_decide as He; try done. congruence.
Qed.

Lemma groups_spec evs id : map_get id (fold_left addToGroup evs []) =
  match copies_of id evs with [] => None | kept :: rest => Some (group_of kept rest) end.
Proof.
  induction evs as [|ev evs IH] using rev_ind; [done|]. unfold copies_of. rewrite filter_snoc, fold_left_snoc, add_group_get, IH.
  fold (copies_of id evs). destruct (has_id id ev); [|by rewrite app_nil_r].
  destruct (copies_of id evs) as [|kept rest]; [done|]. cbn [app]. unfold group_of. by rewrite fold_left_snoc.
Qed.

Lemma group_of_parts kept rest :
  eg_kept (group_of kept rest) = kept /\ eg_copies (group_of kept rest) = kept :: rest
  /\ eg_conflicting (group_of kept rest)
     = Z.of_nat (length (List.filter (fun ev => negb (sameJsonValue (JObj (ev_record kept)) (JObj (ev_record ev)))) rest)).
Proof.
  induction rest as [|ev rest IH] using rev_ind; [done|]. unfold group_of. rewrite fold_left_snoc. fold (group_of kept rest).
  destruct IH as (Hk & Hc & Hn). rewrite filter_snoc. unfold add_copy. rewrite Hk, Hc, Hn.
  destruct (sameJsonValue _ _); cbn [eg_kept eg_copies eg_conflicting negb]; rewrite ?app_nil_r, ?length_app; cbn [length];
    (split_and!; [done|done|lia]).
Qed.

Lemma groups_NoDup evs : NoDup (map fst (fold_left addToGroup evs [])).
Proof.
  induction evs as [|ev evs IH] using rev_ind; [apply NoDup_nil_2|]. rewrite fold_left_snoc. revert IH.
  generalize (fold_left addToGroup evs []). clear. intros g.
  assert (Hk : forall g k, k ∈ map fst (addToGroup g ev) <-> k = event_id_of ev \/ k ∈ map fst g).
  { clear. induction g as [|[x i] g IH]; intros k; cbn [addToGroup map fst]; [set_solver|].
    case_bool_decide as E; cbn [map fst]; rewrite !elem_of_cons; [subst; tauto|]. rewrite IH. tauto. }
  induction g as [|[x i] g IH]; cbn [addToGroup map fst]; [intros _; apply NoDup_singleton|].
  intros [Hx Hn]%NoDup_cons. case_bool_decide as E; cbn [map fst]; apply NoDup_cons; [done|]. split; [|auto].
  rewrite Hk. intros [?|?]; congruence.
Qed.

(** Subject copies come first. *)
Lemma ordered_by_rank artifacts : StronglySorted (fun a b => ORIGIN_RANK (ev_origin a) <= ORIGIN_RANK (ev_origin b)) (ordered_events artifacts).
Proof.
  unfold ordered_events. pose proof (sort_on_sorted (fun a => ORIGIN_RANK (a_origin a)) artifacts) as Hs.
  induction Hs as [|a l Hs IH Ha]; cbn [flat_map]; [constructor|].
  assert (Hev : forall b ev, ev ∈ artifactEvents b -> ev_origin ev = a_origin b).
  { intros b ev (r & -> & _)%list_elem_of_fmap. done. }
  assert (Hown : forall x, x ∈ artifactEvents a -> forall y, y ∈ artifactEvents a ++ flat_map artifactEvents l ->
    ORIGIN_RANK (ev_origin x) <= ORIGIN_RANK (ev_origin y)).
  { intros x Hx y [Hy|Hy]%elem_of_app; rewrite (Hev _ _ Hx); [by rewrite (Hev _ _ Hy)|].
    apply list_elem_of_In, in_flat_map in Hy as (b & Hb & Hy). apply list_elem_of_In in Hb, Hy. rewrite (Hev _ _ Hy).
    rewrite Forall_forall in Ha. by apply Ha. }
  clear Hev. revert Hown. generalize (artifactEvents a). intros evs Hown. induction evs as [|e evs IHe]; [done|]. cbn [app].
  constructor.
  - apply IHe. intros x Hx y Hy. apply Hown; by right.
  - apply Forall_forall. intros y Hy. apply Hown; [left|by right].
Qed.

Lemma sorted_filter_head {A} (R : A -> A -> Prop) (p : A -> bool) l x rest :
  StronglySorted R l -> List.filter p l = x :: rest -> forall y, y ∈ rest -> R x y.
Proof.
  induction 1 as [|a l Hs IH Ha]; cbn; [done|]. destruct (p a); [|exact IH]. intros [= -> <-] y [Hy _]%elem_of_filter_bool.
  rewrite Forall_forall in Ha. auto.
Qed.

Definition differs_from (kept ev : IndexedEvent) : Prop := json_same (JObj (ev_record kept)) (JObj (ev_record ev)) = false.

Lemma group_kept_id artifacts id g : map_get id (event_groups artifacts) = Some g -> event_id_of (eg_kept g) = id.
Proof.
  unfold event_groups. rewrite groups_spec. destruct (copies_of id _) as [|kept rest] eqn:Hco; [done|]. intros [= <-].
  rewrite (proj1 (group_of_parts kept rest)). assert (Hin : kept ∈ copies_of id (ordered_events artifacts)) by (rewrite Hco; left).
  apply elem_of_filter_bool in Hin as [_ Hh]. by apply bool_decide_eq_true in Hh.
Qed.

Lemma indexed_get artifacts id : map_get id (ec_by_id (indexEvents artifacts)) =
  option_map (fun g => set_copies (Z.of_nat (length (eg_copies g))) (eg_kept g)) (map_get id (event_groups artifacts)).
Proof.
  unfold indexEvents. cbn [ec_by_id]. apply (map_get_map (fun _ g => set_copies (Z.of_nat (length (eg_copies g))) (eg_kept g))).
Qed.

Lemma conflicting_ids artifacts id : id ∈ ec_conflicting_event_ids (indexEvents artifacts) <->
  exists g, map_get id (event_groups artifacts) = Some g /\ existsb beyond_scope (eg_copies g) = true /\ 0 < eg_conflicting g.
Proof.
  unfold indexEvents. cbn [ec_conflicting_event_ids]. rewrite Journal.unique_elem, list_elem_of_fmap.
  setoid_rewrite elem_of_filter_bool. setoid_rewrite elem_of_filter_bool. split.
  - intros (g & -> & ((Hg & Hs) & Hc)). apply list_elem_of_fmap in Hg as ([k g'] & -> & Hin). cbn [snd] in *.
    assert (Hget : map_get k (event_groups artifacts) = Some g') by (apply elem_map_get; [apply groups_NoDup|done]).
    exists g'. rewrite (group_kept_id _ _ _ Hget). split; [done|]. split; [done|by rewrite Z.gtb_ltb in Hc; apply Z.ltb_lt in Hc].
  - intros (g & Hget & Hs & Hc). exists g. split; [by rewrite (group_kept_id _ _ _ Hget)|].
    split; [split; [|done]|rewrite Z.gtb_ltb; by apply Z.ltb_lt]. apply list_elem_of_fmap. exists (id, g). split; [done|].
    by apply map_get_elem.
Qed.

Lemma group_conflicts kept rest : 0 < eg_conflicting (group_of kept rest) <-> exists ev, ev ∈ rest /\ differs_from kept ev.
Proof.
  rewrite (proj2 (proj2 (group_of_parts kept rest))). unfold differs_from. setoid_rewrite <- same_value. split.
  - intros H. destruct (List.filter _ rest) as [|x l] eqn:E; [cbn in H; lia|]. exists x.
    assert (Hx : x ∈ List.filter (fun ev => negb (sameJsonValue (JObj (ev_record kept)) (JObj (ev_record ev)))) rest) by (rewrite E; left).
    apply elem_of_filter_bool in Hx as [Hx Hd]. split; [done|]. by apply negb_true_iff.
  - intros (x & Hx & Hd). assert (Hin : x ∈ List.filter (fun ev => negb (sameJsonValue (JObj (ev_record kept)) (JObj (ev_record ev)))) rest).
    { apply elem_of_filter_bool. split; [done|]. by apply negb_true_iff. }
    destruct (List.filter _ rest); [set_solver|cbn; lia].
Qed.

(** C26: The event index. It holds one entry per event id read from the usable event records
    of all artifacts. The entry is the first copy in reading order and counts its copies:
    a subject's copy is never displaced by a supplementary one or one of an earlier
    trial, nor a supplementary one by one of an earlier trial. An id conflicts exactly when a copy outside the earlier trials
    was read and some copy is not structurally equal to the one kept. *)
Theorem event_index_correct artifacts :
  let c := indexEvents artifacts in
  let all := ordered_events artifacts in
  NoDup (map fst (ec_by_id c))
  /\ forall id,
     match copies_of id all with
     | [] => map_get id (ec_by_id c) = None /\ (id ∉ ec_conflicting_event_ids c)
     | kept :: rest =>
         map_get id (ec_by_id c) = Some (set_copies (Z.of_nat (S (length rest))) kept)
         /\ (ev_origin kept <> subject_origin -> forall ev, ev ∈ rest -> ev_origin ev <> subject_origin)
         /\ (ev_origin kept = execution_scope -> forall ev, ev ∈ rest -> ev_origin ev = execution_scope)
         /\ (id ∈ ec_conflicting_event_ids c <->
              (exists ev, ev ∈ kept :: rest /\ ev_origin ev <> execution_scope) /\ exists ev, ev ∈ rest /\ differs_from kept ev)
     end.
Proof.
  intros c all. split.
  { unfold c, indexEvents. cbn [ec_by_id]. rewrite map_map.
    rewrite (map_ext _ fst) by (by intros [k g]). apply groups_NoDup. }
  intros id. pose proof (indexed_get artifacts id) as Hby. pose proof (conflicting_ids artifacts id) as Hconf.
  unfold event_groups in Hby, Hconf. rewrite groups_spec in Hby, Hconf. fold c all in Hby, Hconf.
  destruct (copies_of id all) as [|kept rest] eqn:Hco; rewrite Hby, Hconf; [split; [done|]; by intros (g & ? & _)|].
  destruct (group_of_parts kept rest) as (Hk & Hc & _). cbn [option_map]. rewrite Hk, Hc.
  pose proof (sorted_filter_head _ _ _ _ _ (ordered_by_rank artifacts) Hco) as Hrank. cbn beta in Hrank.
  split; [done|]. split_and!.
  - intros Hsub ev Hev E. specialize (Hrank ev Hev). rewrite E in Hrank. by destruct (ev_origin kept).
  - intros Hscope ev Hev. specialize (Hrank ev Hev). rewrite Hscope in Hrank. by destruct (ev_origin ev).
  - assert (Hbeyond : existsb beyond_scope (kept :: rest) = true <-> exists ev, ev ∈ kept :: rest /\ ev_origin ev <> execution_scope).
    { rewrite existsb_true. unfold beyond_scope. setoid_rewrite negb_true_iff. by setoid_rewrite bool_decide_eq_false. }
    rewrite <- Hbeyond, <- group_conflicts. split.
    + intros (g & [= <-] & H1 & H2). by rewrite Hc in H1.
    + intros [H1 H2]. exists (group_of kept rest). by rewrite Hc.
Qed.

End IngestionCorrect.
