(* ===== verification/Canonical.v ===== *)
(** * The canonical form decides structure (src/study-1/src/record-contract/canonical-json.ts)

    The canonical text of a value exists exactly when its numbers are finite, and two values have one canonical text exactly
    when they are structurally equal, whatever the order of their members. So the comparison by texts that the journal and
    the study comparison use agrees with the work list evidence ingestion uses. *)

From S2P Require Import Prelude AttemptLifecycle Timestamps Decimals Utf16 Store JsonText Parsing Journal Evidence Ingestion IngestionCorrect.
Import Json JsonText Journal.
Import (notations) Stdlib.Strings.Ascii.
Import IngestionCorrect(json_same, items_same, members_same, same_value).
Import Ingestion(sameJsonValue, lacks).

Module Canonical.

(** ** The canonical text exists *)

Lemma option_all_some {A} (l : list (option A)) : Forall is_Some l -> is_Some (option_all l).
Proof. induction 1 as [|o l [a ->] _ [r IH]]; simpl; [by eexists|]. rewrite IH. by eexists. Qed.

Lemma option_all_map {A B} (f : A -> option B) (g : A -> B) l : (forall x, x ∈ l -> f x = Some (g x)) -> option_all (map f l) = Some (map g l).
Proof. induction l as [|x l IH]; intros H; [done|]. simpl. rewrite (H x) by left. rewrite IH; [done|]. intros y Hy. apply H. by right. Qed.

Lemma member_text_sorted ms :
  (if sortKeys CANONICAL_STYLE then isort pair_le (map (fun '(k, x) => (k, json_text CANONICAL_STYLE x)) ms) else map (fun '(k, x) => (k, json_text CANONICAL_STYLE x)) ms)
  = map (fun '(k, x) => (k, json_text CANONICAL_STYLE x)) (isort key_le ms).
Proof. cbn [sortKeys CANONICAL_STYLE]. apply isort_map. by intros [k x] [k' x']. Qed.

(** Every number finite, the canonical text exists. *)
Lemma canonical_text_exists v : Parsing.all_finite v = true -> is_Some (json_text CANONICAL_STYLE v).
Proof.
  induction v as [|b|n|t|items IH|ms IH] using json_ind'; intros Hf; simpl in Hf; try by eexists.
  - destruct n as [z|spelling]; simpl in *; [by eexists|]. apply negb_true_iff in Hf. cbn. rewrite Hf. by eexists.
  - cbn [json_text]. destruct (option_all_some (map (json_text CANONICAL_STYLE) items)) as [ts ->]; [|by eexists].
    rewrite forallb_forall in Hf. rewrite Forall_forall in IH. apply Forall_forall. intros o Ho. apply list_elem_of_fmap in Ho as (x & -> & Hx).
    apply IH; [done|]. apply Hf. by apply list_elem_of_In.
  - cbn [json_text]. rewrite member_text_sorted, map_map.
    match goal with |- is_Some (match option_all ?l with _ => _ end) => destruct (option_all_some l) as [ts ->]; [|by eexists] end.
    rewrite forallb_forall in Hf. rewrite Forall_forall in IH. apply Forall_forall. intros o Ho. apply list_elem_of_fmap in Ho as ([k x] & -> & Hx).
    rewrite isort_elem in Hx. destruct (IH (k, x) Hx) as [t Ht]; [by apply (Hf (k, x)), list_elem_of_In|]. simpl in Ht. rewrite Ht. by eexists.
Qed.

Lemma canonicalJson_text v t : json_text CANONICAL_STYLE v = Some t -> canonicalJson v = Ok t.
Proof.
  intros Ht. destruct (json_writer_correct CANONICAL_STYLE v) as [_ Hc]. rewrite Ht in Hc.
  unfold canonicalJsonIfRepresentable in Hc. unfold canonicalJson. destruct (canonicalPieces v) as [u|]; [|done]. by injection Hc as ->.
Qed.

Lemma canonicalJson_finite v : Parsing.all_finite v = true -> exists t, canonicalJson v = Ok t.
Proof. intros [t Ht]%canonical_text_exists. exists t. by apply canonicalJson_text. Qed.

(** ** Well-formed values *)

(** The characters of a number's decimal spelling. *)
Definition number_char (c : Ascii.ascii) : bool := memb c (chars "0123456789+-.eE").

(** A number that is no integral one below 1e21 is spelled with these characters and not as an integer. *)
Definition well_spelled (n : jsnum) : Prop :=
  match n with
  | JSInt _ => True
  | JSOther s => s <> "" /\ Forall (fun c => number_char c = true) (chars s) /\ forall z, s <> string_of_Z z
  end.

(** Every number is well spelled and the names of every object are distinct, as in any parsed value of finite numbers. *)
Fixpoint well_formed (v : json) : Prop :=
  match v with
  | JNum n => well_spelled n
  | JArr items => foldr (fun x P => well_formed x /\ P) True items
  | JObj ms => NoDup (map fst ms) /\ foldr (fun m P => well_formed m.2 /\ P) True ms
  | _ => True
  end.

Lemma foldr_and {A} (P : A -> Prop) l : foldr (fun x Q => P x /\ Q) True l <-> forall x, x ∈ l -> P x.
Proof.
  induction l as [|x l IH]; simpl; [split; [by intros _ x ?%not_elem_of_nil|done]|]. rewrite IH. setoid_rewrite elem_of_cons. split.
  - intros [Hx Hl] y [->|Hy]; [done|by apply Hl].
  - intros H. split; [apply H; by left|intros y Hy; apply H; by right].
Qed.

Lemma well_formed_items items : well_formed (JArr items) <-> forall x, x ∈ items -> well_formed x.
Proof. apply foldr_and. Qed.
Lemma well_formed_members ms : well_formed (JObj ms) <-> NoDup (map fst ms) /\ forall m, m ∈ ms -> well_formed m.2.
Proof. cbn [well_formed]. by rewrite foldr_and. Qed.

Lemma well_formed_finite v : well_formed v -> Parsing.all_finite v = true.
Proof.
  induction v as [|b|n|t|items IH|ms IH] using json_ind'; try done.
  - destruct n as [z|s]; [done|]. intros (_ & Hc & _). cbn. apply negb_true_iff, memb_false. intros Hs.
    assert (Hb : forallb number_char (chars s) = true) by (apply forallb_forall; intros c Hx%list_elem_of_In; by apply (proj1 (Forall_forall _ _) Hc)).
    clear Hc. repeat (apply elem_of_cons in Hs as [->|Hs]; [by vm_compute in Hb|]). by apply not_elem_of_nil in Hs.
  - rewrite well_formed_items. intros H. cbn. apply forallb_forall. intros x Hx%list_elem_of_In. rewrite Forall_forall in IH. by apply IH; [|apply H].
  - rewrite well_formed_members. intros [_ H]. cbn. apply forallb_forall. intros x Hx%list_elem_of_In. rewrite Forall_forall in IH. by apply IH; [|apply H].
Qed.

(** ** The text as characters *)

Definition w (v : json) : list Ascii.ascii := match json_text CANONICAL_STYLE v with Some t => chars t | None => [] end.

Lemma json_text_w v : well_formed v -> json_text CANONICAL_STYLE v = Some (text (w v)).
Proof. intros Hv%well_formed_finite%canonical_text_exists. unfold w. destruct Hv as [t ->]. by rewrite text_chars. Qed.

Lemma canonicalJson_w v : well_formed v -> canonicalJson v = Ok (text (w v)).
Proof. intros Hv. by apply canonicalJson_text, json_text_w. Qed.

(** Texts separated by commas. *)
Definition commas (l : list (list Ascii.ascii)) : list Ascii.ascii :=
  match l with [] => [] | x :: l' => x ++ flat_map (cons ","%char) l' end.

Lemma chars_join ts : chars (str_join "," ts) = commas (map chars ts).
Proof.
  destruct ts as [|t ts]; [done|]. rewrite str_join_cons, chars_app. cbn [map commas]. f_equal.
  induction ts as [|u ts IH]; [done|]. cbn [map str_concat flat_map]. by rewrite !chars_app, IH.
Qed.

Definition wm (m : string * json) : list Ascii.ascii := chars (quote_json m.1) ++ ":"%char :: w m.2.

Lemma w_items items : well_formed (JArr items) -> w (JArr items) = "["%char :: commas (map w items) ++ ["]"%char].
Proof.
  rewrite well_formed_items. intros H. unfold w at 1. cbn [json_text].
  rewrite (option_all_map _ (fun x => text (w x))) by (intros x Hx; by apply json_text_w, H).
  rewrite !chars_app, chars_join, map_map. cbn. do 2 f_equal. f_equal. apply map_ext. intros x. by rewrite chars_text.
Qed.

Lemma w_members ms : well_formed (JObj ms) -> w (JObj ms) = "{"%char :: commas (map wm (isort key_le ms)) ++ ["}"%char].
Proof.
  rewrite well_formed_members. intros [_ H]. unfold w at 1. cbn [json_text]. rewrite member_text_sorted, map_map.
  rewrite (option_all_map _ (fun m => text (wm m))).
  - rewrite !chars_app, chars_join, map_map. cbn. do 2 f_equal. f_equal. apply map_ext. intros x. by rewrite chars_text.
  - intros [k x] Hx%isort_elem. rewrite json_text_w by by apply (H (k, x)). f_equal. unfold wm. cbn [keyText CANONICAL_STYLE fst snd].
    by rewrite text_app, text_chars.
Qed.

(** ** Reading a text back *)

Definition hex_value (c : Ascii.ascii) : nat := let n := Ascii.nat_of_ascii c in if (n <? 58)%nat then (n - 48)%nat else (n - 87)%nat.

(** The bytes an escape stands for: one, or the three of a surrogate. *)
Definition unescape_one (l : list Ascii.ascii) : option (list Ascii.ascii * list Ascii.ascii) :=
  match l with
  | [] => None
  | c :: rest =>
      if negb (bool_decide (c = backslash)) then Some ([c], rest)
      else match rest with
           | "b"%char :: r => Some ([Ascii.ascii_of_nat 8], r)
           | "t"%char :: r => Some ([Ascii.ascii_of_nat 9], r)
           | "n"%char :: r => Some ([Ascii.ascii_of_nat 10], r)
           | "f"%char :: r => Some ([Ascii.ascii_of_nat 12], r)
           | "r"%char :: r => Some ([Ascii.ascii_of_nat 13], r)
           | "u"%char :: "d"%char :: x :: h :: d :: r =>
               let n := (256 * hex_value x + 16 * hex_value h + hex_value d)%nat in
               Some ([Ascii.ascii_of_nat 237; Ascii.ascii_of_nat (128 + n / 64); Ascii.ascii_of_nat (128 + n mod 64)], r)
           | "u"%char :: _ :: _ :: h :: d :: r => Some ([Ascii.ascii_of_nat (16 * hex_value h + hex_value d)], r)
           | d :: r => Some ([d], r)
           | [] => None
           end
  end.

Lemma unescape_escape c rest : unescape_one (escape_char c ++ rest) = Some ([c], rest).
Proof. by destruct c as [[] [] [] [] [] [] [] []]. Qed.

Lemma hex_value_digit n : (n < 16)%nat -> hex_value (hex_digit n) = n.
Proof. intros H. do 16 (destruct n as [|n]; [reflexivity|]). lia. Qed.

Lemma unescape_surrogate a b c rest : surrogate_bytes a b c = true -> unescape_one (escape_surrogate b c ++ rest) = Some ([a; b; c], rest).
Proof.
  intros H. unfold surrogate_bytes in H. rewrite !andb_true_iff, Nat.eqb_eq, !Nat.leb_le in H. unfold escape_surrogate.
  set (n := ((Ascii.nat_of_ascii b - 128) * 64 + (Ascii.nat_of_ascii c - 128))%nat). cbn [app unescape_one].
  change (negb (bool_decide (backslash = backslash))) with false. cbn iota.
  rewrite !hex_value_digit; [|by apply Nat.mod_upper_bound|by apply Nat.mod_upper_bound|apply Nat.Div0.div_lt_upper_bound; unfold n; lia].
  assert (En : (256 * (n / 256) + 16 * (n / 16 mod 16) + n mod 16 = n)%nat).
  { change 256%nat with (16 * 16)%nat. rewrite <- Nat.Div0.div_div. pose proof (Nat.div_mod_eq n 16). pose proof (Nat.div_mod_eq (n / 16) 16). lia. }
  rewrite En. assert (Hd : (n / 64 = Ascii.nat_of_ascii b - 128 /\ n mod 64 = Ascii.nat_of_ascii c - 128)%nat).
  { unfold n. rewrite Nat.add_comm, Nat.div_add, Nat.Div0.mod_add, Nat.div_small, Nat.mod_small by lia. lia. }
  destruct Hd as [Hdb Hdc]. assert (Eb : (128 + n / 64 = Ascii.nat_of_ascii b)%nat) by lia.
  assert (Ec : (128 + n mod 64 = Ascii.nat_of_ascii c)%nat) by lia.
  rewrite Eb, Ec, !Ascii.ascii_nat_embedding. do 3 f_equal. rewrite <- (Ascii.ascii_nat_embedding a). f_equal. lia.
Qed.

(** A nonempty text is escaped token by token, and no token begins with a quote. *)
Lemma escape_token l : l <> [] -> exists x e l', l = x ++ l' /\ x <> [] /\ escape_text l = e ++ escape_text l'
  /\ (forall rest, unescape_one (e ++ rest) = Some (x, rest)) /\ exists d k, e = d :: k /\ d <> dquote.
Proof.
  assert (Hone : forall a l, escape_text (a :: l) = escape_char a ++ escape_text l -> exists x e l', a :: l = x ++ l' /\ x <> [] /\ escape_text (a :: l) = e ++ escape_text l'
    /\ (forall rest, unescape_one (e ++ rest) = Some (x, rest)) /\ exists d k, e = d :: k /\ d <> dquote).
  { intros a r E. exists [a], (escape_char a), r. split_and!; [done..|apply unescape_escape|].
    destruct a as [[] [] [] [] [] [] [] []]; by do 2 eexists. }
  destruct l as [|a l]; [done|]. intros _. destruct l as [|b [|c l]]; [by apply Hone..|].
  destruct (surrogate_bytes a b c) eqn:E; [|apply Hone; cbn [escape_text]; by rewrite E].
  exists [a; b; c], (escape_surrogate b c), l. split_and!; [done|done|cbn [escape_text]; by rewrite E|intros rest; by apply unescape_surrogate|].
  by do 2 eexists.
Qed.

Lemma escaped_inj l l' r r' :
  escape_text l ++ dquote :: r = escape_text l' ++ dquote :: r' -> l = l' /\ r = r'.
Proof.
  remember (length l) as n eqn:Hn. revert l l' Hn. induction (lt_wf n) as [n _ IH]. intros l l' ->.
  destruct (decide (l = [])) as [->|Hl], (decide (l' = [])) as [->|Hl'].
  - by intros [= ->].
  - destruct (escape_token l' Hl') as (x & e & k & -> & _ & -> & _ & d & k' & -> & Hd). by intros [= <- _].
  - destruct (escape_token l Hl) as (x & e & k & -> & _ & -> & _ & d & k' & -> & Hd). by intros [= -> _].
  - destruct (escape_token l Hl) as (x & e & k & -> & Hx & -> & Hu & _), (escape_token l' Hl') as (y & f & k' & -> & _ & -> & Hu' & _).
    rewrite <- !(assoc_L (++)). intros H. pose proof (f_equal unescape_one H) as E. rewrite Hu, Hu' in E. injection E as -> E.
    destruct (IH (length k)) with (l := k) (l' := k') as [-> ->]; [|done..]. destruct y; [done|]. simpl. rewrite length_app. lia.
Qed.

Lemma quote_inj s s' r r' : chars (quote_json s) ++ r = chars (quote_json s') ++ r' -> s = s' /\ r = r'.
Proof.
  unfold quote_json. rewrite !chars_text. cbn [app]. rewrite <- !(assoc_L (++)). intros [= [H ->]%escaped_inj]. split; [by apply chars_inj|done].
Qed.

(** What may follow a value inside a text. *)
Definition closers : list Ascii.ascii := [","%char; "]"%char; "}"%char].
Definition delimited (r : list Ascii.ascii) : Prop := match r with [] => True | c :: _ => c ∈ closers end.

Lemma closers_no_number c : c ∈ closers -> number_char c = false.
Proof. intros H. repeat (apply elem_of_cons in H as [->|H]; [reflexivity|]). by apply not_elem_of_nil in H. Qed.

Lemma span_inj (a b r r' : list Ascii.ascii) :
  Forall (fun c => number_char c = true) a -> Forall (fun c => number_char c = true) b -> delimited r -> delimited r' ->
  a ++ r = b ++ r' -> a = b /\ r = r'.
Proof.
  intros Ha. revert b. induction Ha as [|c a Hc Ha IH]; intros [|d b] Hb Hr Hr'; cbn [app]; intros H.
  - done.
  - subst r. apply closers_no_number in Hr. apply Forall_cons in Hb as [Hd _]. congruence.
  - subst r'. apply closers_no_number in Hr'. congruence.
  - injection H as <- H. apply Forall_cons in Hb as [_ Hb]. by apply IH in H as [-> ->].
Qed.

Lemma digits_are_numeric x : Forall (fun c => number_char c = true) (chars (pretty_N_go x "")).
Proof.
  induction (N.lt_wf_0 x) as [x _ IH]. destruct (decide (x = 0%N)) as [->|Hx]; [by rewrite pretty_N_go_0|].
  rewrite pretty_go_step by lia. apply Forall_app. split; [apply IH, N.div_lt; lia|]. apply Forall_singleton.
  pose proof (Z.mod_pos_bound (Z.of_N x) 10 ltac:(lia)) as Hm. destruct (_ `mod` 10)%Z as [|p|p]; [reflexivity| |lia].
  do 9 (destruct p as [p|p|]; try lia; try reflexivity).
Qed.

Lemma pretty_numeric z : Forall (fun c => number_char c = true) (chars (string_of_Z z)) /\ string_of_Z z <> "".
Proof.
  destruct z as [|p|p]; [by split; [repeat constructor|]| |].
  - change (string_of_Z (Z.pos p)) with (pretty_N_go (N.pos p) ""). split; [apply digits_are_numeric|].
    rewrite pretty_N_go_step, pretty_go_app by lia. intros H%(f_equal chars). rewrite chars_app in H. by apply app_nil in H as [_ H].
  - change (string_of_Z (Z.neg p)) with ("-" +:+ pretty_N_go (N.pos p) ""). split; [|done].
    rewrite chars_app. apply Forall_app. split; [by repeat constructor|apply digits_are_numeric].
Qed.

Lemma number_text n : well_spelled n ->
  w (JNum n) = chars (nonStringLeafText (JNum n)) /\ Forall (fun c => number_char c = true) (w (JNum n)) /\ w (JNum n) <> [].
Proof.
  intros Hn. assert (E : w (JNum n) = chars (nonStringLeafText (JNum n))).
  { unfold w. pose proof (well_formed_finite (JNum n) Hn) as Hf. destruct n as [z|s]; [done|]. cbn in *. by destruct (memb s _). }
  rewrite E. split; [done|]. destruct n as [z|s]; cbn [nonStringLeafText].
  - destruct (pretty_numeric z) as [Ha Hb]. split; [done|]. intros H. apply Hb. by apply chars_inj.
  - destruct Hn as (Hs & Hc & _). split; [done|]. intros H. apply Hs. by apply chars_inj.
Qed.

Lemma number_text_inj n m : well_spelled n -> well_spelled m -> nonStringLeafText (JNum n) = nonStringLeafText (JNum m) -> n = m.
Proof.
  destruct n as [z|s], m as [z'|s']; cbn; [|by intros _ (_ & _ & H) Hz; symmetry in Hz; apply H in Hz|by intros (_ & _ & H) _ Hz; apply H in Hz|by intros _ _ ->].
  intros _ _ H. f_equal. by apply (inj pretty).
Qed.

(** ** The kind of a value shows in its first character *)

Definition kind (v : json) : nat :=
  match v with JNull => 0 | JBool _ => 1 | JNum _ => 2 | JStr _ => 3 | JArr _ => 4 | JObj _ => 5 end.

Definition char_kind (c : Ascii.ascii) : nat :=
  if number_char c then 2
  else if bool_decide (c = "n"%char) then 0
  else if bool_decide (c = "t"%char) || bool_decide (c = "f"%char) then 1
  else if bool_decide (c = dquote) then 3
  else if bool_decide (c = "["%char) then 4
  else if bool_decide (c = "{"%char) then 5 else 6.

Lemma text_head v : well_formed v -> exists c rest, w v = c :: rest /\ char_kind c = kind v.
Proof.
  intros Hv. destruct v as [|[]|n|s|items|ms].
  - by do 2 eexists.
  - by do 2 eexists.
  - by do 2 eexists.
  - destruct (number_text n Hv) as (_ & Hc & Hne). destruct (w (JNum n)) as [|c rest]; [done|]. exists c, rest. split; [done|].
    apply Forall_cons in Hc as [Hc _]. unfold char_kind. by rewrite Hc.
  - by do 2 eexists.
  - rewrite w_items by done. by do 2 eexists.
  - rewrite w_members by done. by do 2 eexists.
Qed.

Lemma same_kind a b r r' : well_formed a -> well_formed b -> w a ++ r = w b ++ r' -> kind a = kind b.
Proof.
  intros (c & rest & Ha & <-)%text_head (d & rest' & Hb & <-)%text_head. rewrite Ha, Hb. by intros [= -> _].
Qed.

(** ** Lists of texts *)

Section lists.
Context {A : Type} (f : A -> list Ascii.ascii) (R : A -> A -> Prop) (close : Ascii.ascii).
Context (close_ok : close ∈ closers) (close_comma : close <> ","%char).

Definition open_text (x : A) : Prop := exists c rest, f x = c :: rest /\ c ∉ closers.
Definition read_apart (x y : A) : Prop := forall r r', delimited r -> delimited r' -> f x ++ r = f y ++ r' -> R x y /\ r = r'.

Definition more (xs : list A) (r : list Ascii.ascii) : list Ascii.ascii := flat_map (cons ","%char) (map f xs) ++ close :: r.

Lemma more_delimited xs r : delimited (more xs r).
Proof. destruct xs as [|x xs]; cbn; [done|]. left. Qed.

Lemma more_inj xs ys r r' :
  (forall x y, x ∈ xs -> y ∈ ys -> read_apart x y) -> more xs r = more ys r' -> Forall2 R xs ys /\ r = r'.
Proof.
  revert ys. induction xs as [|x xs IH]; intros [|y ys] Hxy; unfold more; cbn [map flat_map app].
  - by intros [= ->].
  - by intros [= ? _].
  - by intros [= ? _].
  - rewrite <- !(assoc_L (++)). intros [= H]. apply (Hxy x y) in H as [Hr H]; [|left|left|apply more_delimited..].
    apply IH in H as [H ->]; [by split; [constructor|]|]. intros x' y' ??. apply Hxy; by right.
Qed.

Lemma commas_inj xs ys r r' :
  (forall x, x ∈ xs ++ ys -> open_text x) -> (forall x y, x ∈ xs -> y ∈ ys -> read_apart x y) ->
  commas (map f xs) ++ close :: r = commas (map f ys) ++ close :: r' -> Forall2 R xs ys /\ r = r'.
Proof.
  intros Ho Hxy. destruct xs as [|x xs], ys as [|y ys]; cbn [map commas app].
  - by intros [= ->].
  - destruct (Ho y) as (c & rest & -> & Hc); [left|]. by intros [= <- _].
  - destruct (Ho x) as (c & rest & -> & Hc); [left|]. by intros [= -> _].
  - rewrite <- !(assoc_L (++)). intros H. apply (Hxy x y) in H as [Hr H]; [|left|left|apply more_delimited..].
    apply more_inj in H as [H ->]; [by split; [constructor|]|]. intros x' y' ??. apply Hxy; by right.
Qed.
End lists.

(** ** Members *)

Lemma member_elem k v (ms : list (string * json)) : member k ms = Some v -> (k, v) ∈ ms.
Proof.
  induction ms as [|[k' x] ms IH]; simpl; [done|]. case_bool_decide as E; [intros [= ->]; subst; left|]. intros H. right. by apply IH.
Qed.

Lemma elem_member k v (ms : list (string * json)) : NoDup (map fst ms) -> (k, v) ∈ ms -> member k ms = Some v.
Proof.
  induction ms as [|[k' x] ms IH]; intros Hn Hm; [by apply not_elem_of_nil in Hm|]. cbn [map fst] in Hn. apply NoDup_cons in Hn as [Hk Hn]. simpl.
  apply elem_of_cons in Hm as [[= -> ->]|Hm]; [by rewrite bool_decide_eq_true_2|].
  case_bool_decide as E; [|by apply IH]. destruct Hk. subst. by apply (list_elem_of_fmap_2 fst _ (k, v)).
Qed.

Lemma items_same_iff xs ys : json_same (JArr xs) (JArr ys) = true <-> Forall2 (fun x y => json_same x y = true) xs ys.
Proof.
  rewrite items_same. revert ys. induction xs as [|x xs IH]; intros [|y ys]; cbn; try (split; [done|by inversion 1]).
  unfold IngestionCorrect.pair_same at 1. cbn [fst snd]. rewrite Forall2_cons, <- IH, !andb_true_iff, !bool_decide_eq_true. intuition lia.
Qed.

Lemma members_same_iff ms ns : json_same (JObj ms) (JObj ns) = true <->
  length ms = length ns /\ forall k v, (k, v) ∈ ms -> exists u, member k ns = Some u /\ json_same v u = true.
Proof.
  rewrite members_same, !andb_true_iff, bool_decide_eq_true. apply and_iff_compat_l. induction ms as [|[k v] ms IH].
  - split; [by intros _ ?? ?%not_elem_of_nil|done].
  - cbn [forallb fst]. unfold IngestionCorrect.value_pairs in *. cbn [omap list_omap fst snd]. rewrite andb_true_iff. unfold lacks at 1. split.
    + intros [[Hk Hl] Hp] k' v' [[= -> ->]|Hm]%elem_of_cons.
      * destruct (member k ns) as [u|]; [|done]. exists u. split; [done|]. cbn [option_map forallb] in Hp. by apply andb_prop in Hp as [Hp _].
      * apply IH; [|done]. split; [done|]. destruct (member k ns) as [u|]; [|done]. cbn [option_map forallb] in Hp. by apply andb_prop in Hp as [_ Hp].
    + intros H. destruct (H k v) as (u & Hu & Hs); [left|]. destruct (proj2 IH) as [Hl Hp]; [intros k' v' Hm; apply H; by right|].
      rewrite Hu. cbn [option_map forallb]. unfold IngestionCorrect.pair_same at 1. cbn [fst snd]. by rewrite Hs, Hl, Hp.
Qed.

(** Members with distinct names have one sorted order. *)
Lemma sorted_members ms ns : NoDup (map fst ms) -> ms ≡ₚ ns -> isort key_le ms = isort key_le ns.
Proof.
  intros Hn Hp. apply (StronglySorted_unique_strong (fun a b => key_le a b = true)).
  - intros [k v] [k' v'] Hx Hy. rewrite !isort_elem in Hx, Hy. rewrite <- Hp in Hy. unfold key_le. cbn [fst]. intros H1 H2.
    pose proof (Utf16.text_le_antisym _ _ H1 H2) as <-. f_equal. apply (elem_member _ _ _ Hn) in Hx. apply (elem_member _ _ _ Hn) in Hy. congruence.
  - apply isort_sorted; [intros ???; apply Utf16.text_le_trans|intros ??; apply Utf16.text_le_total].
  - apply isort_sorted; [intros ???; apply Utf16.text_le_trans|intros ??; apply Utf16.text_le_total].
  - by rewrite !isort_perm.
Qed.

(** ** The text decides the structure *)

Abbreviation same := (fun x y : json => json_same x y = true).
Definition same_member (m n : string * json) : Prop := m.1 = n.1 /\ json_same m.2 n.2 = true.

Lemma wm_open m : open_text wm m.
Proof. unfold wm, open_text, quote_json. rewrite chars_text. do 2 eexists. split; [done|]. apply memb_false. reflexivity. Qed.

Lemma w_open v : well_formed v -> open_text w v.
Proof.
  intros (c & rest & E & Hk)%text_head. exists c, rest. split; [done|]. intros Hc.
  assert (char_kind c = 6%nat) by (repeat (apply elem_of_cons in Hc as [->|Hc]; [reflexivity|]); by apply not_elem_of_nil in Hc).
  destruct v; cbn in Hk; lia.
Qed.

Lemma wm_apart m n : read_apart w same m.2 n.2 -> read_apart wm same_member m n.
Proof.
  intros H r r' Hr Hr'. unfold wm. rewrite <- !(assoc_L (++)). intros [Hk E]%quote_inj. injection E as E. apply H in E as [Hs ->]; [|done..]. by split.
Qed.

Lemma same_members_of_sorted ms ns : NoDup (map fst ns) ->
  Forall2 same_member (isort key_le ms) (isort key_le ns) -> json_same (JObj ms) (JObj ns) = true.
Proof.
  intros Hn H. apply members_same_iff. split.
  - apply Forall2_length in H. by rewrite !(Permutation_length (isort_perm _ _)) in H.
  - intros k v Hm. rewrite <- (isort_elem key_le) in Hm. apply list_elem_of_lookup in Hm as [i Hi].
    destruct (Forall2_lookup_l _ _ _ _ _ H Hi) as ([k' u] & Hu & Hk & Hs). cbn [fst snd] in *. subst k'. exists u. split; [|done].
    apply elem_member; [done|]. rewrite <- (isort_elem key_le). by eapply list_elem_of_lookup_2.
Qed.

Lemma texts_apart a : forall b, well_formed a -> well_formed b -> read_apart w same a b.
Proof.
  induction a as [|x|n|s|xs IH|ms IH] using json_ind'; intros b Ha Hb r r' Hr Hr' E;
    pose proof (same_kind _ _ _ _ Ha Hb E) as Hk; destruct b as [|y|m|t|ys|ns]; try discriminate Hk; clear Hk.
  - by injection E as ->.
  - destruct x, y; try discriminate E; by injection E as ->.
  - destruct (number_text n Ha) as (Hn & Hcn & _), (number_text m Hb) as (Hm & Hcm & _).
    apply span_inj in E as [E ->]; [|done..]. rewrite Hn, Hm in E. apply chars_inj, number_text_inj in E as ->; [|done..].
    cbn. by rewrite bool_decide_eq_true_2.
  - apply quote_inj in E as [-> ->]. cbn. by rewrite bool_decide_eq_true_2.
  - rewrite !w_items in E by done. cbn [app] in E. rewrite <- !(assoc_L (++)) in E. injection E as E.
    rewrite well_formed_items in Ha, Hb. rewrite Forall_forall in IH.
    apply (commas_inj w same "]"%char) in E as [E ->]; [by split; [apply items_same_iff|]|by repeat constructor|done| |].
    + intros x [Hx|Hx]%elem_of_app; apply w_open; auto.
    + intros x y Hx Hy. apply IH; auto.
  - rewrite !w_members in E by done. cbn [app] in E. rewrite <- !(assoc_L (++)) in E. injection E as E.
    rewrite well_formed_members in Ha, Hb. destruct Ha as [_ Ha], Hb as [Hn Hb]. rewrite Forall_forall in IH.
    apply (commas_inj wm same_member "}"%char) in E as [E ->]; [by split; [apply same_members_of_sorted|]|by repeat constructor|done| |].
    + intros x _. apply wm_open.
    + intros x y Hx Hy. rewrite isort_elem in Hx, Hy. apply wm_apart, IH; auto.
Qed.

(** ** The structure decides the text *)

(** The members of the second object in the order of the first. *)
Lemma members_matched ms ns : NoDup (map fst ms) -> json_same (JObj ms) (JObj ns) = true ->
  exists u : string * json -> json, (forall m, m ∈ ms -> json_same m.2 (u m) = true) /\ map (fun m => (m.1, u m)) ms ≡ₚ ns.
Proof.
  intros Hn [Hl H]%members_same_iff. exists (fun m => nullish (member m.1 ns) JNull). split.
  - intros [k v] Hm. destruct (H k v Hm) as (x & Hx & Hs). cbn [fst snd]. by rewrite Hx.
  - apply submseteq_length_Permutation; [|by rewrite length_map, Hl]. apply NoDup_submseteq.
    + apply (NoDup_fmap_1 fst). change (NoDup (map fst (map (fun m => (m.1, nullish (member m.1 ns) JNull)) ms))). rewrite map_map. by apply Hn.
    + intros [k v] ([k' v'] & [= -> ->] & Hm)%list_elem_of_fmap. destruct (H k' v' Hm) as (x & Hx & _). cbn [fst]. rewrite Hx. cbn. by apply member_elem.
Qed.

Lemma texts_agree a : forall b, well_formed a -> well_formed b -> json_same a b = true -> w a = w b.
Proof.
  induction a as [|x|n|s|xs IH|ms IH] using json_ind'; intros [|y|m|t|ys|ns] Ha Hb E; try discriminate E.
  - done.
  - cbn in E. by apply bool_decide_eq_true in E as ->.
  - cbn in E. by apply bool_decide_eq_true in E as ->.
  - cbn in E. by apply bool_decide_eq_true in E as ->.
  - rewrite !w_items by done. rewrite well_formed_items in Ha, Hb. apply items_same_iff in E. rewrite Forall_forall in IH. do 2 f_equal. f_equal.
    induction E as [|x y xs ys Hs E IHE]; [done|]. cbn [map]. f_equal.
    + apply IH; [left|apply Ha; left|apply Hb; left|done].
    + apply IHE; [intros z Hz; apply IH; by right|intros z Hz; apply Ha; by right|intros z Hz; apply Hb; by right].
  - rewrite !w_members by done. rewrite well_formed_members in Ha, Hb. destruct Ha as [Hn Ha], Hb as [Hn' Hb]. rewrite Forall_forall in IH.
    destruct (members_matched ms ns Hn E) as (u & Hu & Hp). do 2 f_equal. f_equal.
    assert (Hd : NoDup (map fst (map (fun m => (m.1, u m)) ms))) by by rewrite map_map.
    rewrite <- (sorted_members _ _ Hd Hp), (isort_map key_le key_le) by done. rewrite map_map. apply map_ext_in.
    intros [k v] Hm%list_elem_of_In. rewrite isort_elem in Hm. unfold wm. cbn [fst snd]. do 2 f_equal.
    apply (IH (k, v)); [done|by apply (Ha (k, v))| |by apply (Hu (k, v))].
    apply (Hb (k, u (k, v))). rewrite <- Hp. by apply (list_elem_of_fmap_2 (fun m => (m.1, u m)) _ (k, v)).
Qed.

(** Two well-formed values have canonical texts, equal exactly when the values are structurally equal. *)
Lemma canonical_texts (a b : json) : well_formed a -> well_formed b ->
  exists ta tb, canonicalJson a = Ok ta /\ canonicalJson b = Ok tb /\ (ta = tb <-> json_same a b = true).
Proof.
  intros Ha Hb. exists (text (w a)), (text (w b)). rewrite !canonicalJson_w by done. split; [done|]. split; [done|].
  split; [|intros E; by rewrite (texts_agree a b)].
  intros E%text_inj. apply (texts_apart a b Ha Hb [] []); [done|done|]. by rewrite E.
Qed.

Lemma structurallyEqual_exact (a b : json) : well_formed a -> well_formed b -> structurallyEqual a b = Ok (sameJsonValue a b).
Proof.
  intros Ha Hb. destruct (canonical_texts a b Ha Hb) as (ta & tb & Hta & Htb & H).
  unfold structurallyEqual. rewrite Hta, Htb. cbn [bind_result]. rewrite same_value. f_equal. rewrite (bool_decide_ext _ _ H). by destruct (json_same a b).
Qed.

(** C30: the canonical form decides structure. Whenever two values are well formed (distinct member names, finite
    numbers), both have a canonical text, and the texts are equal iff the values are structurally equal: equal leaves, arrays
    item by item, objects name by name whatever the order. So [structurallyEqual], which compares the texts, and [sameJsonValue], the
    work list of evidence ingestion, always agree. *)
Theorem canonical_form_decides_structure (a b : json) : well_formed a -> well_formed b ->
  exists ta tb, canonicalJson a = Ok ta /\ canonicalJson b = Ok tb /\ (ta = tb <-> json_same a b = true)
  /\ structurallyEqual a b = Ok (sameJsonValue a b).
Proof.
  intros Ha Hb. destruct (canonical_texts a b Ha Hb) as (ta & tb & Hta & Htb & H). exists ta, tb. do 3 (split; [done|]).
  by apply structurallyEqual_exact.
Qed.

(** One object written in two orders. *)
Definition demo_left : json := JObj [("b", JNum (JSInt 1)); ("a", JArr [JStr "x"; JNum (JSInt (-2))])].
Definition demo_right : json := JObj [("a", JArr [JStr "x"; JNum (JSInt (-2))]); ("b", JNum (JSInt 1))].

Lemma canonical_form_decides_structure_witness :
  (exists ta tb, canonicalJson demo_left = Ok ta /\ canonicalJson demo_right = Ok tb /\ (ta = tb <-> json_same demo_left demo_right = true)
    /\ structurallyEqual demo_left demo_right = Ok (sameJsonValue demo_left demo_right))
  /\ structurallyEqual demo_left demo_right = Ok true.
Proof.
  split; [|vm_compute; reflexivity].
  apply (canonical_form_decides_structure demo_left demo_right); (split; [by repeat (constructor; [set_solver|]); constructor|done]).
Defined.
End Canonical.
