(* ===== verification/ArtifactReading.v ===== *)
(** * Step I1 of evidence ingestion (src/study-1/src/evidence-ingestion/artifact-reading.ts)

    The bytes of every artifact are read as strict UTF-8 JSON or JSONL into the parsed
    artifacts the later steps classify. SHA-256 and [JSON.parse] are arguments. *)

From S2P Require Import Prelude Timestamps Store JsonText Parsing Evidence IngestionGates Ingestion.
Import Json JsonText Evidence IngestionGates Ingestion.
Import Parsing(JsonParseFailure, invalid_utf8, invalid_json, parseJsonl, parseJsonDocument, lines, line_number, line_parsed).
Open Scope Z_scope.
#[local] Set Warnings "-register-all".

Module ArtifactReading.

Record RawArtifact := MkRaw { raw_path : string; raw_bytes : list Z }.

(** The input of step I1; the other members of [IngestionInput] pass it by. *)
Record RawInput := MkRawInput {
  in_artifacts : list RawArtifact;
  in_execution_scope : list RawArtifact;
  in_expected : list ExpectedArtifact;
  in_indexed_digests : option (list (string * string));
}.

Definition JSONL_SUFFIX : string := ".jsonl".

(** [expectedByPath.get(path)] of [new Map(expected.map(...))]: the last entry of a path wins. *)
Definition expectedFor (expected : list ExpectedArtifact) (path : string) : option ExpectedArtifact :=
  find_first (fun x => bool_decide (x_path x = path)) (rev expected).

Definition originOf (path : string) (expected : list ExpectedArtifact) : ArtifactOrigin :=
  match expectedFor expected path with Some _ => subject_origin | None => supplementary end.

Definition path_violation_text (v : PathViolation) : string :=
  match v with
  | ABSOLUTE_PATH => "ABSOLUTE_PATH"
  | PARENT_TRAVERSAL => "PARENT_TRAVERSAL"
  | NON_NORMALIZED_PATH => "NON_NORMALIZED_PATH"
  end.

(** The violation of a path, by its text; the empty path has one of its own. *)
Definition path_problem (path : string) : option string :=
  if bool_decide (path = "") then Some "EMPTY_PATH" else option_map path_violation_text (classifyArtifactPath path).

Definition path_end (suffix path : string) : bool :=
  bool_decide (drop (length (chars path) - length (chars suffix)) (chars path) = chars suffix).

Definition requirement_text (r : ArtifactRequirement) : string :=
  match r with required => "required" | conditional => "conditional" | optional_artifact => "optional" end.

Record PositionedParse := MkPositioned { position : option Z; pp_parsed : Result json JsonParseFailure }.

Definition describeFailure (position : option Z) (failure : JsonParseFailure) : string :=
  let where_ := match position with None => "document" | Some n => "line " +:+ string_of_Z n end in
  let what := match failure with
              | invalid_utf8 offset => "invalid UTF-8 at byte " +:+ string_of_Z offset
              | invalid_json d => d
              end in
  where_ +:+ ": " +:+ what.

Definition missingRequired (expected : list ExpectedArtifact) (artifacts : list ParsedArtifact) : list IngestionFinding :=
  map missingArtifactFinding
    (List.filter (fun x => bool_decide (x_requirement x = required) && negb (memb (x_path x) (map p_path artifacts))) expected).

Section reading.
Context (sha256Hex : list Z -> string) (JSON_parse : string -> Result json string).

(** [Err] holds the findings of a path that is not read. *)
Definition acceptPath (raw : RawArtifact) (seen : list ParsedArtifact) : Result unit (list IngestionFinding) :=
  match path_problem (raw_path raw) with
  | Some violation =>
      Err [ingestionFinding ARTIFACT_UNPARSEABLE
             ("artifact path " +:+ boundedJsonText (JStr (raw_path raw)) QUOTED_JSON_LIMIT +:+ " is " +:+ violation
              +:+ "; expected a normalized package-relative POSIX path") None None None 1]
  | None =>
      match find_first (fun a => bool_decide (p_path a = raw_path raw)) seen with
      | None => Ok tt
      | Some earlier =>
          if bool_decide (p_sha256 earlier = sha256Hex (raw_bytes raw)) then Err []
          else Err [ingestionFinding ARTIFACT_UNPARSEABLE
                      (raw_path raw +:+ " is given twice with different bytes; expected one byte sequence per path (the first is kept)")
                      (Some (raw_path raw)) None None 1]
      end
  end.

Definition jsonlValues (bytes : list Z) : list PositionedParse :=
  map (fun line => MkPositioned (Some (line_number line)) (line_parsed line)) (lines (parseJsonl JSON_parse bytes)).

Definition documentValue (bytes : list Z) : PositionedParse := MkPositioned None (parseJsonDocument JSON_parse bytes).

(** The lines of an artifact, before they are judged. *)
Definition artifact_lines (raw : RawArtifact) : list PositionedParse :=
  if path_end JSONL_SUFFIX (raw_path raw) then jsonlValues (raw_bytes raw) else [documentValue (raw_bytes raw)].

Definition line_values (ls : list PositionedParse) : list ParsedValue :=
  omap (fun l => match pp_parsed l with Ok v => Some (MkParsedValue (position l) v) | Err _ => None end) ls.

Definition line_failures (ls : list PositionedParse) : list string :=
  omap (fun l => match pp_parsed l with Ok _ => None | Err e => Some (describeFailure (position l) e) end) ls.

Definition parseArtifact (raw : RawArtifact) (origin : ArtifactOrigin) (expected : option ExpectedArtifact) :
  ParsedArtifact * list IngestionFinding :=
  let ls := artifact_lines raw in
  let failures := line_failures ls in
  (MkParsed (raw_path raw) (sha256Hex (raw_bytes raw)) origin (option_map x_class expected) (option_map x_requirement expected)
     (match failures with [] => parsed | _ => unparseable end) (line_values ls),
   match failures with
   | [] => []
   | first :: _ =>
       [ingestionFinding ARTIFACT_UNPARSEABLE (aggregatedDetail ("expected strict UTF-8 JSON; " +:+ first) (Z.of_nat (length failures)))
          (Some (raw_path raw)) None None (Z.of_nat (length failures))]
   end).

(** One turn of the loop over the sources. *)
Definition read_source (expected : list ExpectedArtifact) (reading : ArtifactReading) (source : RawArtifact * bool) : ArtifactReading :=
  let '(raw, scope) := source in
  let origin := if scope : bool then execution_scope else originOf (raw_path raw) expected in
  match acceptPath raw (rd_artifacts reading) with
  | Err found => MkReading (rd_artifacts reading) (rd_findings reading ++ found)
  | Ok _ =>
      let '(artifact, found) := parseArtifact raw origin (expectedFor expected (raw_path raw)) in
      MkReading (rd_artifacts reading ++ [artifact]) (rd_findings reading ++ found)
  end.

Definition sources (input : RawInput) : list (RawArtifact * bool) :=
  map (fun raw => (raw, false)) (in_artifacts input) ++ map (fun raw => (raw, true)) (in_execution_scope input).

Definition readArtifacts (input : RawInput) : ArtifactReading :=
  let reading := fold_left (read_source (in_expected input)) (sources input) (MkReading [] []) in
  MkReading (rd_artifacts reading) (rd_findings reading ++ missingRequired (in_expected input) (rd_artifacts reading)).

(** [ingestEvidence] from the bytes. *)
Definition ingest_bytes (input : RawInput) (validator : RecordValidator) : IngestedEvidence :=
  ingestEvidence (MkIngestionInput (readArtifacts input) (in_expected input) (in_indexed_digests input)) validator.

(** ** The reading is exact *)

(** The artifact a source becomes when it is kept. *)
Definition artifact_of (expected : list ExpectedArtifact) (source : RawArtifact * bool) : ParsedArtifact :=
  (parseArtifact source.1 (if source.2 : bool then execution_scope else originOf (raw_path source.1) expected)
     (expectedFor expected (raw_path source.1))).1.

(** A source is kept: its path is normalized and no earlier source has it. *)
Definition kept_after (before : list (RawArtifact * bool)) (source : RawArtifact * bool) : Prop :=
  path_problem (raw_path source.1) = None /\ raw_path source.1 ∉ map (fun s => raw_path s.1) before.

Definition read_all (expected : list ExpectedArtifact) (srcs : list (RawArtifact * bool)) : ArtifactReading :=
  fold_left (read_source expected) srcs (MkReading [] []).

Lemma artifact_of_path expected source : p_path (artifact_of expected source) = raw_path source.1.
Proof. done. Qed.

(** An accepted path is new and normalized. *)
Lemma acceptPath_ok raw seen : acceptPath raw seen = Ok tt <-> path_problem (raw_path raw) = None /\ raw_path raw ∉ map p_path seen.
Proof.
  unfold acceptPath. destruct (path_problem _); [naive_solver|].
  destruct (find_first _ seen) as [e|] eqn:Ef.
  - apply find_first_Some in Ef as [He Hp]. apply bool_decide_eq_true in Hp.
    assert (raw_path raw ∈ map p_path seen) by (rewrite <-Hp; by apply list_elem_of_fmap_2). case_bool_decide; naive_solver.
  - split; [|done]. intros _. split; [done|]. intros (e & E & He)%list_elem_of_fmap.
    pose proof (proj1 (find_first_None _ _) Ef e He) as Hn. by apply bool_decide_eq_false in Hn.
Qed.

Lemma read_source_kept expected reading source :
  (acceptPath source.1 (rd_artifacts reading) = Ok tt
   /\ rd_artifacts (read_source expected reading source) = rd_artifacts reading ++ [artifact_of expected source])
  \/ (acceptPath source.1 (rd_artifacts reading) <> Ok tt /\ rd_artifacts (read_source expected reading source) = rd_artifacts reading).
Proof.
  destruct source as [raw scope]. unfold read_source, artifact_of. cbn [fst snd].
  destruct (acceptPath _ _) as [[]|found]; [left|by right]. by destruct (parseArtifact _ _ _).
Qed.

Lemma read_source_findings expected reading source f :
  f ∈ rd_findings reading -> f ∈ rd_findings (read_source expected reading source).
Proof.
  destruct source as [raw scope]. unfold read_source. intros Hf.
  destruct (acceptPath _ _) as [u|found]; [destruct (parseArtifact _ _ _)|]; cbn; set_solver.
Qed.

(** A kept path is one a finding may name. *)
Lemma kept_path_named path c d i n : path_problem path = None -> f_path (ingestionFinding c d (Some path) i None n) = Some path.
Proof.
  unfold path_problem. case_bool_decide as E; [done|]. destruct (classifyArtifactPath path) eqn:Ec; [done|]. intros _.
  unfold ingestionFinding. cbn. by rewrite (bool_decide_eq_false_2 _ E), Ec.
Qed.

(** The artifacts come from the kept sources, in order, and each one that does not parse is
    reported under its path. *)
Lemma read_all_correct expected srcs :
  let r := read_all expected srcs in
  NoDup (map p_path (rd_artifacts r))
  /\ (forall path, path ∈ map p_path (rd_artifacts r) <-> path_problem path = None /\ path ∈ map (fun s => raw_path s.1) srcs)
  /\ (forall a, a ∈ rd_artifacts r <-> exists before source after, srcs = before ++ source :: after /\ kept_after before source
                                        /\ a = artifact_of expected source)
  /\ (forall a, a ∈ rd_artifacts r -> p_parse_status a = unparseable ->
        exists f, f ∈ rd_findings r /\ f_code f = ARTIFACT_UNPARSEABLE /\ f_path f = Some (p_path a)).
Proof.
  induction srcs as [|source srcs IH] using rev_ind; cbv zeta in *.
  { unfold read_all. cbn. split_and!; [constructor|set_solver| |set_solver].
    intros a. split; [set_solver|]. by intros (before & source & after & E%app_cons_not_nil & _). }
  unfold read_all in *. rewrite fold_left_app. cbn [fold_left]. set (r := fold_left _ srcs _) in *.
  destruct IH as (Hnd & Hpath & Hin & Hrep).
  assert (Hold : forall a, (exists before s after, srcs = before ++ s :: after /\ kept_after before s /\ a = artifact_of expected s) ->
    exists before s after, srcs ++ [source] = before ++ s :: after /\ kept_after before s /\ a = artifact_of expected s).
  { intros a (before & s & after & -> & H). exists before, s, (after ++ [source]). by rewrite <-app_assoc. }
  assert (Hsplit : forall a, (exists before s after, srcs ++ [source] = before ++ s :: after /\ kept_after before s /\ a = artifact_of expected s) ->
    (exists before s after, srcs = before ++ s :: after /\ kept_after before s /\ a = artifact_of expected s)
    \/ (kept_after srcs source /\ a = artifact_of expected source)).
  { intros a (before & s & after & E & H). destruct after as [|x after _] using rev_ind.
    - apply app_inj_tail in E as [-> ->]. by right.
    - left. rewrite app_comm_cons, app_assoc in E. apply app_inj_tail in E as [-> _]. eauto 10. }
  destruct (read_source_kept expected r source) as [[Ha Er]|[Ha Er]]; rewrite Er; pose proof (acceptPath_ok source.1 (rd_artifacts r)) as Hok.
  - pose proof (proj1 Hok Ha) as [Hp Hnew]. rewrite map_app. cbn [map]. rewrite artifact_of_path. split_and!.
    + apply NoDup_app. split_and!; [done|set_solver|apply NoDup_singleton].
    + intros path. rewrite map_app, !elem_of_app, Hpath. cbn [map]. rewrite !list_elem_of_singleton. naive_solver.
    + intros a. rewrite elem_of_app, list_elem_of_singleton, Hin. split.
      * intros [H| ->]; [by apply Hold|]. exists srcs, source, []. split; [done|]. split; [|done]. split; [done|].
        intros H. apply Hnew, Hpath. done.
      * intros [H|[_ H]]%Hsplit; auto.
    + intros a. rewrite elem_of_app, list_elem_of_singleton. intros [H| ->] Hs.
      { destruct (Hrep a H Hs) as (f & Hf & ?). exists f. split; [by apply read_source_findings|done]. }
      destruct source as [raw scope]. unfold artifact_of in *. cbn [fst snd] in *. unfold read_source. rewrite Ha.
      unfold parseArtifact in *. cbn [fst p_parse_status p_path] in *. destruct (line_failures _) as [|first more]; [done|].
      eexists. cbn [rd_findings]. split; [apply elem_of_app; right; by left|]. split; [done|]. by apply kept_path_named.
  - assert (Hno : ~ kept_after srcs source).
    { intros [Hp Hnew]. apply Ha, Hok. split; [done|]. by rewrite Hpath; naive_solver. }
    split_and!; [done| | |].
    + intros path. rewrite map_app, elem_of_app, Hpath. cbn [map]. rewrite list_elem_of_singleton. split; [naive_solver|].
      intros [Hp [H| ->]]; [done|]. split; [done|]. apply dec_stable. intros Hn. by apply Hno.
    + intros a. rewrite Hin. split; [apply Hold|]. by intros [H|[H _]]%Hsplit.
    + intros a H Hs. destruct (Hrep a H Hs) as (f & Hf & ?). exists f. split; [by apply read_source_findings|done].
Qed.

(** Step I1 is exact. Each path is read once: an artifact is in the reading iff it comes from
    the first source of a normalized path. Its values are exactly the lines that parse, with
    their numbers, so a torn line hides no other; an artifact with a line that does not parse
    is marked and reported under its path, and so is every required artifact that is absent. *)
Theorem artifact_reading_exact (input : RawInput) :
  let r := readArtifacts input in
  NoDup (map p_path (rd_artifacts r))
  /\ (forall a, a ∈ rd_artifacts r <-> exists before source after, sources input = before ++ source :: after
                                        /\ kept_after before source /\ a = artifact_of (in_expected input) source)
  /\ (forall source l v, MkParsedValue l v ∈ p_values (artifact_of (in_expected input) source)
                          <-> exists x, x ∈ artifact_lines source.1 /\ position x = l /\ pp_parsed x = Ok v)
  /\ (forall a, a ∈ rd_artifacts r -> p_parse_status a = unparseable ->
        exists f, f ∈ rd_findings r /\ f_code f = ARTIFACT_UNPARSEABLE /\ f_path f = Some (p_path a))
  /\ (forall x, x ∈ in_expected input -> x_requirement x = required -> x_path x ∉ map p_path (rd_artifacts r) ->
        missingArtifactFinding x ∈ rd_findings r).
Proof.
  destruct (read_all_correct (in_expected input) (sources input)) as (Hnd & _ & Hin & Hrep).
  cbv zeta. unfold readArtifacts. fold (read_all (in_expected input) (sources input)). cbn [rd_artifacts rd_findings].
  split_and!; [done|done| | |].
  - intros source l v. unfold artifact_of, parseArtifact, line_values. cbn [fst p_values]. rewrite list_elem_of_omap.
    split; intros (x & Hx & H); exists x; split; try done; [destruct (pp_parsed x) as [w|]; naive_solver|]. destruct H as [<- ->]. done.
  - intros a H Hs. destruct (Hrep a H Hs) as (f & Hf & ?). exists f. split; [apply elem_of_app; by left|done].
  - intros x Hx Hr Hp. apply elem_of_app. right. unfold missingRequired. apply list_elem_of_fmap. exists x. split; [done|].
    apply elem_of_filter_bool. split; [done|]. rewrite bool_decide_eq_true_2 by done. unfold memb.
    by rewrite bool_decide_eq_false_2.
Qed.

End reading.
End ArtifactReading.
