(* ===== verification/TrialMessage.v ===== *)
(** * The message of one trial (src/study-1/src/trial-message/)

    The fields a trial-scoped record carries (trial-message-fields.ts), the approved refund
    (approved-refund.ts), the message the runner publishes (trial-message-publication.ts), the
    check of a delivered message by its consumer (delivered-message.ts) and the registry item
    that names the active trial of a variant (trial-registry.ts).

    A trial-scoped execution identity is a reference: the field that carries it and its value.
    A record of the code is the record of its fields; the JSON it stands for is given by
    [registration_json] and [message_json]. *)

From S2P Require Import Prelude Timestamps Utf16 Effects Store JsonText Parsing LeaseItem Journal ControlItems Acceptance.
From S2P Require Import Ingestion ProviderExchange.
Import Json Store Utc Identifiers JsonText Parsing.
Import ControlItems(isOneOf).
Open Scope Z_scope.

Module TrialMessage.

(** ** Fields *)

Inductive TrialExecutionField := f_run_id | f_variant_validation_id.
#[export] Instance TrialExecutionField_eq_dec : EqDecision TrialExecutionField.
Proof. solve_decision. Defined.
Definition field_text (f : TrialExecutionField) : string :=
  match f with f_run_id => "run_id" | f_variant_validation_id => "variant_validation_id" end.
Definition TRIAL_EXECUTION_FIELDS : list TrialExecutionField := [f_run_id; f_variant_validation_id].

Record TrialExecutionRef := MkRef { ref_field : TrialExecutionField; ref_id : string }.
#[export] Instance TrialExecutionRef_eq_dec : EqDecision TrialExecutionRef.
Proof. solve_decision. Defined.

Definition unexpectedField (object : list (string * json)) (allowed : list string) : option string :=
  find_first (fun name => negb (memb name allowed)) (map fst object).

Definition isNonemptyTrimmed (value : option json) : bool :=
  match value with Some (JStr s) => Acceptance.NONEMPTY_TRIMMED_PATTERN s | _ => false end.

(** [isUuid4] and [isSha256Hex] of a member, with the text. *)
Definition uuid4_text (value : option json) : option string :=
  match value with Some (JStr s) => if isUuid4 s then Some s else None | _ => None end.
Definition sha256_text (value : option json) : option string :=
  match value with Some (JStr s) => if isSha256Hex s then Some s else None | _ => None end.

Definition trialExecutionOf (object : list (string * json)) : option TrialExecutionRef :=
  match member "run_id" object, member "variant_validation_id" object with
  | Some _, Some _ => None
  | run, validation =>
      match uuid4_text run with
      | Some id => Some (MkRef f_run_id id)
      | None => option_map (MkRef f_variant_validation_id) (uuid4_text validation)
      end
  end.

Definition executionIdentityOfTrial (r : TrialExecutionRef) : list (string * json) := [(field_text (ref_field r), JStr (ref_id r))].

Definition describeParseFailure (failure : JsonParseFailure) : string :=
  match failure with
  | invalid_json d => boundedText d QUOTED_JSON_LIMIT
  | invalid_utf8 offset => "invalid UTF-8 at byte " +:+ string_of_Z offset
  end.

Record ApprovedRefund := MkRefund { payment_id : string; refund_request_id : string; amount_minor : Z; currency : string }.
Definition OR_RUA_001_REFUND : ApprovedRefund := MkRefund "pay-poc-001" "ref-poc-001" 10000 "BRL".

(** ** The registry *)

Inductive VariantId := v_conventional | v_durable.
#[export] Instance VariantId_eq_dec : EqDecision VariantId.
Proof. solve_decision. Defined.
Definition variant_text (v : VariantId) : string := match v with v_conventional => "conventional" | v_durable => "durable" end.
Definition VARIANT_IDS : list VariantId := [v_conventional; v_durable].

Record TrialRegistration := MkRegistration {
  variant_id : VariantId;
  tr_execution : TrialExecutionRef;
  execution_manifest_sha256 : string;
  tr_trial_id : string;
  tr_trial_manifest_sha256 : string;
  registry_version : Z;
  registered_at : string;
}.

Definition TRIAL_REGISTRY_ACTIVE_SK : string := "active".
Definition trialRegistryItemKey (variant : VariantId) : ItemKey := MkKey ("registry#" +:+ variant_text variant) TRIAL_REGISTRY_ACTIVE_SK.

Definition registration_json (r : TrialRegistration) : list (string * json) :=
  [("schema_version", JNum (JSInt 1)); ("record_type", JStr "trial_registration"); ("variant_id", JStr (variant_text (variant_id r)));
   ("execution_manifest_sha256", JStr (execution_manifest_sha256 r)); ("trial_id", JStr (tr_trial_id r));
   ("trial_manifest_sha256", JStr (tr_trial_manifest_sha256 r)); ("registry_version", JNum (JSInt (registry_version r)));
   ("registered_at", JStr (registered_at r))] ++ executionIdentityOfTrial (tr_execution r).

Definition toTrialRegistryItem (r : TrialRegistration) : StoredItem :=
  registration_json r ++ [("pk", JStr (pk (trialRegistryItemKey (variant_id r)))); ("sk", JStr (sk (trialRegistryItemKey (variant_id r))))].

Definition REGISTRATION_FIELDS : list string :=
  ["schema_version"; "record_type"; "variant_id"; "run_id"; "variant_validation_id"; "execution_manifest_sha256"; "trial_id";
   "trial_manifest_sha256"; "registry_version"; "registered_at"].

Definition variantOf (value : option json) : option VariantId :=
  isOneOf VARIANT_IDS variant_text value.
Definition isVariantId (value : option json) : bool := bool_decide (is_Some (variantOf value)).
Definition isRegistryVersion (value : option json) : bool :=
  match as_safe_integer value with Some z => z >=? 1 | None => false end.

Definition REGISTRATION_RULES : list (string * (option json -> bool) * string) :=
  [("schema_version", fun v => scalar_matches v (SNum 1), "1");
   ("record_type", fun v => scalar_matches v (SStr "trial_registration"), quote_json "trial_registration");
   ("variant_id", isVariantId, quote_json "conventional" +:+ " or " +:+ quote_json "durable");
   ("execution_manifest_sha256", fun v => bool_decide (is_Some (sha256_text v)), "64 lowercase hex characters");
   ("trial_id", fun v => bool_decide (is_Some (uuid4_text v)), "a lowercase UUIDv4");
   ("trial_manifest_sha256", fun v => bool_decide (is_Some (sha256_text v)), "64 lowercase hex characters");
   ("registry_version", isRegistryVersion, "an integer from 1 to 9007199254740991");
   ("registered_at", fun v => match v with Some (JStr s) => isUtcMillis s | _ => false end, "a UTC timestamp with milliseconds")].

Definition firstRegistrationViolation (object : list (string * json)) : option string :=
  match find_first (fun rule => negb (rule.1.2 (member rule.1.1 object))) REGISTRATION_RULES with
  | None => None
  | Some (name, _, shape) => Some ("trial registration " +:+ name +:+ " " +:+ describeJson (member name object) +:+ "; expected " +:+ shape)
  end.

Definition text_at (name : string) (object : list (string * json)) : string := nullish (as_string (member name object)) "".

Definition parseTrialRegistration (value : json) : Result TrialRegistration string :=
  match value with
  | JObj object =>
      match unexpectedField object REGISTRATION_FIELDS with
      | Some extra =>
          Err ("trial registration has the unexpected property " +:+ boundedJsonText (JStr extra) QUOTED_JSON_LIMIT
               +:+ "; expected only trial_registration fields")
      | None =>
          match trialExecutionOf object with
          | None =>
              Err ("trial registration run_id " +:+ describeJson (member "run_id" object) +:+ ", variant_validation_id "
                   +:+ describeJson (member "variant_validation_id" object) +:+ "; expected exactly one lowercase UUIDv4")
          | Some execution =>
              match firstRegistrationViolation object with
              | Some problem => Err problem
              | None =>
                  Ok (MkRegistration (nullish (variantOf (member "variant_id" object)) v_conventional) execution
                        (text_at "execution_manifest_sha256" object) (text_at "trial_id" object) (text_at "trial_manifest_sha256" object)
                        (nullish (as_safe_integer (member "registry_version" object)) 0) (text_at "registered_at" object))
              end
          end
      end
  | _ => Err ("trial registration is " +:+ describeJson (Some value) +:+ "; expected a JSON object")
  end.

Inductive TrialRegistryFailureCode := REGISTRY_UNREADABLE | REGISTRATION_INVALID.
Record TrialRegistryFailure := MkRegistryFailure { rf_code : TrialRegistryFailureCode; rf_detail : string }.
Definition registry_code_text (c : TrialRegistryFailureCode) : string :=
  match c with REGISTRY_UNREADABLE => "REGISTRY_UNREADABLE" | REGISTRATION_INVALID => "REGISTRATION_INVALID" end.

Definition without_keys (item : StoredItem) : list (string * json) :=
  List.filter (fun kv => negb (memb kv.1 ["pk"; "sk"])) item.

Definition registrationOfItem (item : StoredItem) (variant : VariantId) : Result TrialRegistration TrialRegistryFailure :=
  match parseTrialRegistration (JObj (without_keys item)) with
  | Err e => Err (MkRegistryFailure REGISTRATION_INVALID e)
  | Ok r =>
      if negb (bool_decide (variant_id r = variant))
      then Err (MkRegistryFailure REGISTRATION_INVALID
                  ("registry item of " +:+ variant_text variant +:+ " names variant_id " +:+ variant_text (variant_id r)
                   +:+ "; expected " +:+ variant_text variant))
      else Ok r
  end.

(** [activeTrial] of the answer to its read of [trialRegistryItemKey variant]. *)
Definition activeTrialOf (variant : VariantId) (read : Result (option StoredItem) string) :
  Result (option TrialRegistration) TrialRegistryFailure :=
  match read with
  | Err code => Err (MkRegistryFailure REGISTRY_UNREADABLE
                       ("trial registry read for " +:+ variant_text variant +:+ " failed: " +:+ boundedJsonText (JStr code) QUOTED_JSON_LIMIT))
  | Ok None => Ok None
  | Ok (Some item) => match registrationOfItem item variant with Ok r => Ok (Some r) | Err f => Err f end
  end.

(** ** The message *)

Record Message := MkMessage {
  m_execution : TrialExecutionRef;
  m_trial_id : string;
  m_trial_manifest_sha256 : string;
  m_payment_id : string;
  m_refund_request_id : string;
}.

Definition message_json (m : Message) : list (string * json) :=
  executionIdentityOfTrial (m_execution m)
  ++ [("schema_version", JNum (JSInt 1)); ("record_type", JStr "trial_message"); ("trial_id", JStr (m_trial_id m));
      ("trial_manifest_sha256", JStr (m_trial_manifest_sha256 m)); ("payment_id", JStr (m_payment_id m));
      ("refund_request_id", JStr (m_refund_request_id m))].

Definition TRIAL_MESSAGE_FIELDS : list string :=
  ["schema_version"; "record_type"; "run_id"; "variant_validation_id"; "trial_id"; "trial_manifest_sha256"; "payment_id";
   "refund_request_id"].

(** ** The check of a delivered message *)

Inductive TrialMessageRejectionReason :=
| NO_ACTIVE_TRIAL | SCHEMA_INVALID | CORRELATION_MISSING | EXECUTION_IDENTITY_MISMATCH | TRIAL_MANIFEST_DIGEST_MISMATCH.
Definition rejection_reason_text (r : TrialMessageRejectionReason) : string :=
  match r with
  | NO_ACTIVE_TRIAL => "NO_ACTIVE_TRIAL" | SCHEMA_INVALID => "SCHEMA_INVALID" | CORRELATION_MISSING => "CORRELATION_MISSING"
  | EXECUTION_IDENTITY_MISMATCH => "EXECUTION_IDENTITY_MISMATCH" | TRIAL_MANIFEST_DIGEST_MISMATCH => "TRIAL_MANIFEST_DIGEST_MISMATCH"
  end.

Record BusinessIdentity := MkBusiness { carried_refund : option string; carried_payment : option string }.
Definition no_identity : BusinessIdentity := MkBusiness None None.

Record ConsumerRejection := MkRejection {
  rj_reason : TrialMessageRejectionReason;
  rj_detail : string;
  rj_offending : option (string * string);
  rj_identity : BusinessIdentity;
}.

Inductive ConsumerValidation := accepted (message : Message) | rejected (rejection : ConsumerRejection).

Definition CARRIED_IDENTIFIER_LIMIT : nat := 200.

Definition carriedIdentifier (object : list (string * json)) (name : string) : option string :=
  match member name object with
  | Some (JStr s) => if isNonemptyTrimmed (Some (JStr s)) && (Utf16.js_length s <=? CARRIED_IDENTIFIER_LIMIT)%nat then Some s else None
  | _ => None
  end.

Definition readableBusinessIdentity (object : list (string * json)) : BusinessIdentity :=
  MkBusiness (carriedIdentifier object "refund_request_id") (carriedIdentifier object "payment_id").

Definition foreignExecution (object : list (string * json)) (expected : TrialExecutionRef) : option TrialExecutionRef :=
  head (omap (fun field =>
    match uuid4_text (member (field_text field) object) with
    | Some id => if negb (bool_decide (field = ref_field expected)) || negb (bool_decide (id = ref_id expected)) then Some (MkRef field id) else None
    | None => None
    end) TRIAL_EXECUTION_FIELDS).

Definition registrationMismatch (object : list (string * json)) (registration : TrialRegistration) (identity : BusinessIdentity) :
  option ConsumerRejection :=
  let expected := tr_execution registration in
  match foreignExecution object expected with
  | Some offered =>
      Some (MkRejection EXECUTION_IDENTITY_MISMATCH
              ("message " +:+ field_text (ref_field offered) +:+ " " +:+ ref_id offered +:+ "; expected " +:+ field_text (ref_field expected)
               +:+ " " +:+ ref_id expected +:+ " of the active trial registration") (Some (ref_id offered, ref_id expected)) identity)
  | None =>
      let digestMismatch :=
      match sha256_text (member "trial_manifest_sha256" object) with
      | Some digest =>
          if negb (bool_decide (digest = tr_trial_manifest_sha256 registration))
          then Some (MkRejection TRIAL_MANIFEST_DIGEST_MISMATCH
                       ("message trial_manifest_sha256 " +:+ digest +:+ "; expected " +:+ tr_trial_manifest_sha256 registration
                        +:+ " of the active trial") (Some (digest, tr_trial_manifest_sha256 registration)) identity)
          else None
      | None => None
      end in
      if bool_decide (is_Some digestMismatch) then digestMismatch else
      match uuid4_text (member "trial_id" object) with
      | Some trialId =>
          if negb (bool_decide (trialId = tr_trial_id registration))
          then Some (MkRejection TRIAL_MANIFEST_DIGEST_MISMATCH
                       ("message trial_id " +:+ trialId +:+ "; expected trial_id " +:+ tr_trial_id registration
                        +:+ ", which the frozen trial manifest " +:+ tr_trial_manifest_sha256 registration +:+ " of the active trial names")
                       (Some (trialId, tr_trial_id registration)) identity)
          else None
      | None => None
      end
  end.

Definition missingCorrelationField (object : list (string * json)) : option string :=
  if bool_decide (member "run_id" object = None) && bool_decide (member "variant_validation_id" object = None)
  then Some "run_id or variant_validation_id"
  else find_first (fun name => bool_decide (member name object = None)) ["trial_id"; "trial_manifest_sha256"].

Definition constantViolation (object : list (string * json)) : option string :=
  if negb (scalar_matches (member "schema_version" object) (SNum 1))
  then Some ("message schema_version " +:+ describeJson (member "schema_version" object) +:+ "; expected 1")
  else if scalar_matches (member "record_type" object) (SStr "trial_message") then None
  else Some ("message record_type " +:+ describeJson (member "record_type" object) +:+ "; expected " +:+ quote_json "trial_message").

Definition identifierViolation (object : list (string * json)) : option string :=
  if bool_decide (uuid4_text (member "trial_id" object) = None)
  then Some ("message trial_id " +:+ describeJson (member "trial_id" object) +:+ "; expected a lowercase UUIDv4")
  else if bool_decide (sha256_text (member "trial_manifest_sha256" object) = None)
  then Some ("message trial_manifest_sha256 " +:+ describeJson (member "trial_manifest_sha256" object) +:+ "; expected 64 lowercase hex characters")
  else match find_first (fun name => negb (isNonemptyTrimmed (member name object))) ["payment_id"; "refund_request_id"] with
       | None => None
       | Some bad => Some ("message " +:+ bad +:+ " " +:+ describeJson (member bad object)
                           +:+ "; expected a string without leading or trailing whitespace and at least one character")
       end.

Definition toTrialMessage (object : list (string * json)) (execution : TrialExecutionRef) : Message :=
  MkMessage execution (text_at "trial_id" object) (text_at "trial_manifest_sha256" object) (text_at "payment_id" object)
    (text_at "refund_request_id" object).

Definition checkTrialMessage (object : list (string * json)) : Result Message string :=
  match unexpectedField object TRIAL_MESSAGE_FIELDS with
  | Some extra => Err ("message has the unexpected property " +:+ boundedJsonText (JStr extra) QUOTED_JSON_LIMIT
                       +:+ "; expected only the BR-RUA-036 fields")
  | None =>
      match constantViolation object with
      | Some problem => Err problem
      | None =>
          match trialExecutionOf object with
          | None => Err ("message execution identity run_id " +:+ describeJson (member "run_id" object) +:+ ", variant_validation_id "
                         +:+ describeJson (member "variant_validation_id" object) +:+ "; expected exactly one lowercase UUIDv4")
          | Some execution =>
              match identifierViolation object with Some problem => Err problem | None => Ok (toTrialMessage object execution) end
          end
      end
  end.

Definition validateMessageObject (object : list (string * json)) (registration : TrialRegistration) (identity : BusinessIdentity) :
  ConsumerValidation :=
  match registrationMismatch object registration identity with
  | Some mismatch => rejected mismatch
  | None =>
      match missingCorrelationField object with
      | Some missing => rejected (MkRejection CORRELATION_MISSING
                                    ("message has no " +:+ missing +:+ "; expected the BR-RUA-036 correlation fields") None identity)
      | None =>
          match checkTrialMessage object with
          | Ok m => accepted m
          | Err e => rejected (MkRejection SCHEMA_INVALID e None identity)
          end
      end
  end.

Section parser.
Context (JSON_parse : string -> Result json string).

Definition validateDeliveredMessage (body : string) (registration : option TrialRegistration) : ConsumerValidation :=
  let parsed := parseJsonDocument JSON_parse (bytes_of body) in
  let identity := match parsed with Ok (JObj object) => readableBusinessIdentity object | _ => no_identity end in
  match registration with
  | None => rejected (MkRejection NO_ACTIVE_TRIAL
      "no active trial registration for the consuming variant; expected the runner to register the trial before publishing its message"
      None identity)
  | Some r =>
      match parsed with
      | Err e => rejected (MkRejection SCHEMA_INVALID
                   ("message body is not JSON (" +:+ describeParseFailure e +:+ "); expected a trial_message") None no_identity)
      | Ok (JObj object) => validateMessageObject object r identity
      | Ok v => rejected (MkRejection SCHEMA_INVALID ("message body is " +:+ describeJson (Some v) +:+ "; expected a JSON object") None no_identity)
      end
  end.

(** ** Publication *)

(** The trial a message is published for: its frozen manifest's identity, and the request. *)
Record TrialPublication := MkPublication {
  pb_execution : TrialExecutionRef;
  pb_trial_id : string;
  pb_trial_manifest_sha256 : string;
  pb_payment_id : string;
  pb_refund_request_id : string;
}.

Definition serializeRecordFile (value : json) : Result string js_error :=
  let! t := Journal.canonicalJson value in Ok (t +:+ text [Ascii.ascii_of_nat 10]).

Definition built_record (p : TrialPublication) : Message :=
  MkMessage (pb_execution p) (pb_trial_id p) (pb_trial_manifest_sha256 p) (pb_payment_id p) (pb_refund_request_id p).

Definition buildTrialMessage (p : TrialPublication) : Result (Message * string) js_error :=
  let! bytes := serializeRecordFile (JObj (message_json (built_record p))) in Ok (built_record p, bytes).

Inductive PublicationMismatchCode :=
| MESSAGE_UNPARSEABLE | PM_SCHEMA_INVALID | NON_CANONICAL_BYTES | PM_EXECUTION_IDENTITY_MISMATCH | TRIAL_ID_MISMATCH
| PM_TRIAL_MANIFEST_DIGEST_MISMATCH | BUSINESS_IDENTITY_MISMATCH.
Definition mismatch_code_text (c : PublicationMismatchCode) : string :=
  match c with
  | MESSAGE_UNPARSEABLE => "MESSAGE_UNPARSEABLE" | PM_SCHEMA_INVALID => "SCHEMA_INVALID" | NON_CANONICAL_BYTES => "NON_CANONICAL_BYTES"
  | PM_EXECUTION_IDENTITY_MISMATCH => "EXECUTION_IDENTITY_MISMATCH" | TRIAL_ID_MISMATCH => "TRIAL_ID_MISMATCH"
  | PM_TRIAL_MANIFEST_DIGEST_MISMATCH => "TRIAL_MANIFEST_DIGEST_MISMATCH" | BUSINESS_IDENTITY_MISMATCH => "BUSINESS_IDENTITY_MISMATCH"
  end.

Definition SUBJECT : string := "BR-RUA-036".
Definition mismatch (c : PublicationMismatchCode) (d : string) : StructuredReason := reason (mismatch_code_text c) SUBJECT d.

(** [executionRefOf] of a record read from JSON. *)
Definition executionRefOf (object : list (string * json)) : TrialExecutionRef :=
  if bool_decide (is_Some (member "run_id" object)) then MkRef f_run_id (text_at "run_id" object)
  else MkRef f_variant_validation_id (text_at "variant_validation_id" object).

Definition ref_text (r : TrialExecutionRef) : string := field_text (ref_field r) +:+ " " +:+ ref_id r.

(** The members of an accepted message, as the code reads them. *)
Definition message_of (object : list (string * json)) : Message := toTrialMessage object (executionRefOf object).

Definition fieldMismatches (message expected : Message) : list StructuredReason :=
  omap (fun '(c, field, got, want) =>
      if bool_decide (got = want) then None
      else Some (mismatch c ("message " +:+ field +:+ " " +:+ boundedText got QUOTED_JSON_LIMIT +:+ "; expected "
                             +:+ boundedText want QUOTED_JSON_LIMIT +:+ " of the frozen trial")))
    [(PM_EXECUTION_IDENTITY_MISMATCH, "execution identity", ref_text (m_execution message), ref_text (m_execution expected));
     (TRIAL_ID_MISMATCH, "trial_id", m_trial_id message, m_trial_id expected);
     (PM_TRIAL_MANIFEST_DIGEST_MISMATCH, "trial_manifest_sha256", m_trial_manifest_sha256 message, m_trial_manifest_sha256 expected);
     (BUSINESS_IDENTITY_MISMATCH, "payment_id", m_payment_id message, m_payment_id expected);
     (BUSINESS_IDENTITY_MISMATCH, "refund_request_id", m_refund_request_id message, m_refund_request_id expected)].

(** The value is an object when the validator accepts it as a message. *)
Definition members_of (v : json) : list (string * json) := match v with JObj ms => ms | _ => [] end.

Definition validateBeforePublication (bytes : list Z) (publication : TrialPublication) (validator : Ingestion.RecordValidator) :
  Result (list StructuredReason) js_error :=
  match parseJsonDocument JSON_parse bytes with
  | Err e => Ok [mismatch MESSAGE_UNPARSEABLE
                   ("message bytes are not one JSON document (" +:+ describeParseFailure e +:+ "); expected the canonical trial_message")]
  | Ok value =>
      match Ingestion.validateAs validator "trial_message" value with
      | Ingestion.record_invalid violations =>
          Ok (map (fun v => mismatch PM_SCHEMA_INVALID ("trial_message " +:+ Ingestion.instance_path v +:+ " " +:+ Ingestion.keyword v +:+ ": "
                                                        +:+ Ingestion.v_detail v)) violations)
      | Ingestion.record_valid =>
          let! expected := buildTrialMessage publication in
          let! canonical := serializeRecordFile value in
          Ok ((if bool_decide (bytes = bytes_of canonical) then []
               else [mismatch NON_CANONICAL_BYTES
                       "message bytes are not canonical JSON followed by one newline; expected serializeRecordFile of the message"])
              ++ fieldMismatches (message_of (members_of value)) expected.1)
      end
  end.
End parser.

(** ** Readings *)

Lemma uuid4_text_iff v s : uuid4_text v = Some s <-> v = Some (JStr s) /\ isUuid4 s = true.
Proof.
  unfold uuid4_text. destruct v as [[| | |t| |]|]; try (split; [done|by intros [? _]]).
  destruct (isUuid4 t) eqn:E; (split; [intros [= <-]|intros [[= ->] ?]]); (done || congruence).
Qed.
Lemma sha256_text_iff v s : sha256_text v = Some s <-> v = Some (JStr s) /\ isSha256Hex s = true.
Proof.
  unfold sha256_text. destruct v as [[| | |t| |]|]; try (split; [done|by intros [? _]]).
  destruct (isSha256Hex t) eqn:E; (split; [intros [= <-]|intros [[= ->] ?]]); (done || congruence).
Qed.
Lemma trimmed_iff v : isNonemptyTrimmed v = true <-> exists s, v = Some (JStr s) /\ Acceptance.NONEMPTY_TRIMMED_PATTERN s = true.
Proof. unfold isNonemptyTrimmed. destruct v as [[]|]; try (split; [done|by intros (? & ? & _)]). split; [eauto|by intros (? & [= ->] & ?)]. Qed.

Lemma unexpectedField_None object allowed : unexpectedField object allowed = None <-> forall n, n ∈ map fst object -> n ∈ allowed.
Proof.
  unfold unexpectedField. rewrite find_first_None. split; intros H n Hn; specialize (H n Hn).
  - apply negb_false_iff in H. by apply memb_true.
  - apply negb_false_iff. by apply memb_true.
Qed.

(** The object carries exactly this execution identity. *)
Definition carries_execution (object : list (string * json)) (r : TrialExecutionRef) : Prop :=
  isUuid4 (ref_id r) = true
  /\ forall f, member (field_text f) object = if bool_decide (f = ref_field r) then Some (JStr (ref_id r)) else None.

Lemma trialExecutionOf_iff object r : trialExecutionOf object = Some r <-> carries_execution object r.
Proof.
  unfold trialExecutionOf, carries_execution. split.
  - destruct (member "run_id" object) as [x|] eqn:Er, (member "variant_validation_id" object) as [y|] eqn:Ev; try done.
    + destruct (uuid4_text (Some x)) as [id|] eqn:E; [|done]. intros [= <-]. apply uuid4_text_iff in E as [E Hu]. injection E as ->.
      split; [done|]. by intros [].
    + change (uuid4_text None) with (@None string). cbn [option_map]. destruct (uuid4_text (Some y)) as [id|] eqn:E; [|done]. intros [= <-]. apply uuid4_text_iff in E as [E Hu].
      injection E as ->. split; [done|]. by intros [].
  - intros [Hu H]. pose proof (H f_run_id) as H1. pose proof (H f_variant_validation_id) as H2. destruct r as [[] id]; cbn [ref_field ref_id field_text] in *.
    + rewrite bool_decide_eq_true_2 in H1 by done. rewrite bool_decide_eq_false_2 in H2 by done. rewrite H1, H2. cbn. by rewrite Hu.
    + rewrite bool_decide_eq_false_2 in H1 by done. rewrite bool_decide_eq_true_2 in H2 by done. rewrite H1, H2. cbn. by rewrite Hu.
Qed.

Lemma variantOf_iff value v : variantOf value = Some v <-> value = Some (JStr (variant_text v)).
Proof.
  apply ControlItems.isOneOf_iff; [|by intros [] []]. intros []; unfold VARIANT_IDS; set_solver.
Qed.
Lemma version_is_one v : scalar_matches v (SNum 1) = true <-> v = Some (JNum (JSInt 1)).
Proof. destruct v as [[| |[z|x]| | |]|]; cbn; try (split; done). rewrite bool_decide_eq_true. split; congruence. Qed.
Lemma type_is s v : scalar_matches v (SStr s) = true <-> v = Some (JStr s).
Proof. destruct v as [[| |[z|x]| | |]|]; cbn; try (split; done). rewrite bool_decide_eq_true. split; congruence. Qed.

Lemma text_at_str name object s : member name object = Some (JStr s) -> text_at name object = s.
Proof. unfold text_at. by intros ->. Qed.

(** Two objects read alike under every name. *)
Definition reads_as (a b : list (string * json)) : Prop := forall n, member n a = member n b.

Lemma reads_as_names a b n : reads_as a b -> n ∈ map fst a <-> n ∈ map fst b.
Proof.
  intros H. specialize (H n). destruct (member n a) eqn:Ea.
  - assert (~ (n ∉ map fst a)) as ?%dec_stable by (rewrite <-LeaseItem.member_None; congruence).
    assert (~ (n ∉ map fst b)) as ?%dec_stable by (rewrite <-LeaseItem.member_None; congruence). done.
  - symmetry in H. apply LeaseItem.member_None in Ea. apply LeaseItem.member_None in H. done.
Qed.

Lemma unexpectedField_reads a b allowed : reads_as a b -> unexpectedField a allowed = None <-> unexpectedField b allowed = None.
Proof.
  intros H. rewrite !unexpectedField_None. by setoid_rewrite (reads_as_names a b _ H).
Qed.

Lemma reads_as_by_names object b allowed :
  unexpectedField object allowed = None -> Forall (fun n => member n object = member n b) allowed ->
  (forall n, n ∈ map fst b -> n ∈ allowed) -> reads_as object b.
Proof.
  rewrite unexpectedField_None, Forall_forall. intros Ho H Hb n. destruct (decide (n ∈ allowed)) as [Hn|Hn]; [auto|].
  transitivity (@None json); [|symmetry]; apply LeaseItem.member_None; auto.
Qed.

(** ** The registration codec *)

Definition registration_wf (r : TrialRegistration) : Prop :=
  isUuid4 (ref_id (tr_execution r)) = true /\ isSha256Hex (execution_manifest_sha256 r) = true /\ isUuid4 (tr_trial_id r) = true
  /\ isSha256Hex (tr_trial_manifest_sha256 r) = true /\ is_safe_integer (registry_version r) = true /\ 1 <= registry_version r
  /\ isUtcMillis (registered_at r) = true.

Lemma firstRegistrationViolation_None object : firstRegistrationViolation object = None <->
  member "schema_version" object = Some (JNum (JSInt 1)) /\ member "record_type" object = Some (JStr "trial_registration")
  /\ is_Some (variantOf (member "variant_id" object)) /\ is_Some (sha256_text (member "execution_manifest_sha256" object))
  /\ is_Some (uuid4_text (member "trial_id" object)) /\ is_Some (sha256_text (member "trial_manifest_sha256" object))
  /\ isRegistryVersion (member "registry_version" object) = true
  /\ exists s, member "registered_at" object = Some (JStr s) /\ isUtcMillis s = true.
Proof.
  unfold firstRegistrationViolation.
  transitivity (Forall (fun rule => rule.1.2 (member rule.1.1 object) = true) REGISTRATION_RULES).
  { destruct (find_first _ REGISTRATION_RULES) as [[[name f] shape]|] eqn:E.
    - apply find_first_Some in E as [E1 E2]. split; [done|]. rewrite Forall_forall. intros H. specialize (H _ E1). cbn in *. by rewrite H in E2.
    - rewrite find_first_None in E. split; [|done]. intros _. apply Forall_forall. intros x Hx. specialize (E x Hx).
      by apply negb_false_iff in E. }
  unfold REGISTRATION_RULES. rewrite !Forall_cons, Forall_nil. cbn [fst snd].
  rewrite version_is_one, type_is. unfold isVariantId. rewrite !bool_decide_eq_true.
  assert (forall v : option json, match v with Some (JStr s) => isUtcMillis s | _ => false end = true
                    <-> exists s, v = Some (JStr s) /\ isUtcMillis s = true) as ->.
  { intros [[]|]; try (split; [done|by intros (? & ? & ?)]). split; [eauto|by intros (? & [= ->] & ?)]. }
  tauto.
Qed.

Lemma isRegistryVersion_iff v : isRegistryVersion v = true <->
  exists z, v = Some (JNum (JSInt z)) /\ is_safe_integer z = true /\ 1 <= z.
Proof.
  unfold isRegistryVersion. destruct (as_safe_integer v) as [z|] eqn:E.
  - apply ControlItems.as_safe_integer_iff in E as [-> E]. rewrite Z.geb_le. split; [eauto|]. by intros (? & [= ->] & ? & ?).
  - split; [done|]. intros (z & Hz & ? & ?). assert (as_safe_integer v = Some z) by by apply ControlItems.as_safe_integer_iff. congruence.
Qed.

Lemma registration_member r n : n ∈ REGISTRATION_FIELDS -> n ∉ ["run_id"; "variant_validation_id"] ->
  is_Some (member n (registration_json r)).
Proof. unfold REGISTRATION_FIELDS. intros H Hn. repeat (apply elem_of_cons in H as [->|H]; [try (by eexists); set_solver|]). set_solver. Qed.

Lemma carries_registration r : isUuid4 (ref_id (tr_execution r)) = true -> carries_execution (registration_json r) (tr_execution r).
Proof. intros H. split; [done|]. destruct r as [v [[] id] ? ? ? ? ?]; intros []; reflexivity. Qed.

Lemma carries_reads a b r : reads_as a b -> carries_execution a r -> carries_execution b r.
Proof. intros H [Hu Hc]. split; [done|]. intros f. by rewrite <-H. Qed.

Lemma parse_registration_sound object r :
  parseTrialRegistration (JObj object) = Ok r -> registration_wf r /\ reads_as object (registration_json r).
Proof.
  cbn [parseTrialRegistration]. destruct (unexpectedField object _) eqn:Hx; [done|]. destruct (trialExecutionOf object) as [x|] eqn:He; [|done].
  destruct (firstRegistrationViolation object) eqn:Hf; [done|]. intros [= <-]. apply trialExecutionOf_iff in He as [Hu Hc].
  apply firstRegistrationViolation_None in Hf as (H1 & H2 & [v H3] & [d H4] & [t H5] & [m H6] & H7 & (at_ & H8 & H9)).
  apply isRegistryVersion_iff in H7 as (z & H7 & Hz & Hz1).
  rewrite H3. apply variantOf_iff in H3. apply sha256_text_iff in H4 as [H4 Hd]. apply uuid4_text_iff in H5 as [H5 Ht]. apply sha256_text_iff in H6 as [H6 Hm].
  rewrite (text_at_str _ _ _ H4), (text_at_str _ _ _ H5), (text_at_str _ _ _ H6), (text_at_str _ _ _ H8), H7.
  cbn [as_safe_integer nullish]. rewrite Hz. cbn [nullish]. split; [by repeat split|].
  pose proof (Hc f_run_id) as Hr. pose proof (Hc f_variant_validation_id) as Hv. cbn [field_text] in Hr, Hv.
  apply (reads_as_by_names _ _ REGISTRATION_FIELDS Hx).
  - unfold REGISTRATION_FIELDS. rewrite !Forall_cons, Hr, Hv, H1, H2, H3, H4, H5, H6, H7, H8. destruct x as [[] id]; repeat (split; [reflexivity|]); constructor.
  - destruct x as [[] id]; cbn; unfold REGISTRATION_FIELDS; set_solver.
Qed.

Lemma parse_registration_complete object r :
  registration_wf r -> reads_as object (registration_json r) -> parseTrialRegistration (JObj object) = Ok r.
Proof.
  intros (Hu & Hd & Ht & Hm & Hz & Hz1 & Hat) H. cbn [parseTrialRegistration].
  assert (Hnone : unexpectedField object REGISTRATION_FIELDS = None).
  { rewrite (unexpectedField_reads _ _ _ H), unexpectedField_None. destruct r as [? [[] ?] ? ? ? ? ?]; cbn; unfold REGISTRATION_FIELDS; set_solver. }
  rewrite Hnone. assert (trialExecutionOf object = Some (tr_execution r)) as ->.
  { apply trialExecutionOf_iff. apply (carries_reads (registration_json r)); [intros n; symmetry; apply H|by apply carries_registration]. }
  assert (forall n s, member n (registration_json r) = Some s -> member n object = Some s) as Hmem by (intros n s <-; apply H).
  pose proof (Hmem "schema_version" _ eq_refl) as H1. pose proof (Hmem "record_type" _ eq_refl) as H2.
  pose proof (Hmem "variant_id" _ eq_refl) as H3. pose proof (Hmem "execution_manifest_sha256" _ eq_refl) as H4.
  pose proof (Hmem "trial_id" _ eq_refl) as H5. pose proof (Hmem "trial_manifest_sha256" _ eq_refl) as H6.
  pose proof (Hmem "registry_version" _ eq_refl) as H7. pose proof (Hmem "registered_at" _ eq_refl) as H8.
  pose proof (proj2 (variantOf_iff _ (variant_id r)) H3) as Hv.
  pose proof (proj2 (ControlItems.as_safe_integer_iff _ (registry_version r)) (conj H7 Hz)) as Hver.
  assert (firstRegistrationViolation object = None) as ->.
  { apply firstRegistrationViolation_None. rewrite Hv, H4, H5, H6, H7. cbn. rewrite Hd, Ht, Hm.
    split_and!; eauto. apply isRegistryVersion_iff. eauto. }
  rewrite Hv, Hver. unfold text_at. rewrite H4, H5, H6, H8. by destruct r.
Qed.

(** ** Delivered messages *)

Definition message_wf (m : Message) : Prop :=
  isUuid4 (ref_id (m_execution m)) = true /\ isUuid4 (m_trial_id m) = true /\ isSha256Hex (m_trial_manifest_sha256 m) = true
  /\ Acceptance.NONEMPTY_TRIMMED_PATTERN (m_payment_id m) = true /\ Acceptance.NONEMPTY_TRIMMED_PATTERN (m_refund_request_id m) = true.

(** The message belongs to the registered trial. *)
Definition registered_for (m : Message) (r : TrialRegistration) : Prop :=
  m_execution m = tr_execution r /\ m_trial_id m = tr_trial_id r /\ m_trial_manifest_sha256 m = tr_trial_manifest_sha256 r.

Lemma constantViolation_None object : constantViolation object = None <->
  member "schema_version" object = Some (JNum (JSInt 1)) /\ member "record_type" object = Some (JStr "trial_message").
Proof.
  unfold constantViolation. rewrite <-version_is_one, <-type_is.
  destruct (scalar_matches _ (SNum 1)), (scalar_matches _ (SStr _)); cbn [negb]; naive_solver.
Qed.

Lemma identifierViolation_None object : identifierViolation object = None <->
  is_Some (uuid4_text (member "trial_id" object)) /\ is_Some (sha256_text (member "trial_manifest_sha256" object))
  /\ isNonemptyTrimmed (member "payment_id" object) = true /\ isNonemptyTrimmed (member "refund_request_id" object) = true.
Proof.
  unfold identifierViolation. rewrite <-!not_eq_None_Some. repeat case_bool_decide; try naive_solver.
  cbn [find_first]. destruct (isNonemptyTrimmed _), (isNonemptyTrimmed _); cbn [negb]; naive_solver.
Qed.

Lemma carries_message m : isUuid4 (ref_id (m_execution m)) = true -> carries_execution (message_json m) (m_execution m).
Proof. intros H. split; [done|]. destruct m as [[[] id] ? ? ? ?]; intros []; reflexivity. Qed.

Lemma check_message_iff object m :
  checkTrialMessage object = Ok m <-> message_wf m /\ reads_as object (message_json m).
Proof.
  unfold checkTrialMessage. split.
  - destruct (unexpectedField object _) eqn:Hx; [done|]. destruct (constantViolation object) eqn:Hk; [done|].
    destruct (trialExecutionOf object) as [x|] eqn:He; [|done]. destruct (identifierViolation object) eqn:Hi; [done|]. intros [= <-].
    apply constantViolation_None in Hk as [H1 H2]. apply trialExecutionOf_iff in He as [Hu Hc].
    apply identifierViolation_None in Hi as ([t H3] & [d H4] & H5 & H6).
    apply uuid4_text_iff in H3 as [H3 Ht]. apply sha256_text_iff in H4 as [H4 Hd]. apply trimmed_iff in H5 as (pay & H5 & Hp). apply trimmed_iff in H6 as (ref & H6 & Hr).
    unfold toTrialMessage. rewrite (text_at_str _ _ _ H3), (text_at_str _ _ _ H4), (text_at_str _ _ _ H5), (text_at_str _ _ _ H6).
    split; [by repeat split|]. pose proof (Hc f_run_id) as Hr1. pose proof (Hc f_variant_validation_id) as Hv. cbn [field_text] in Hr1, Hv.
    apply (reads_as_by_names _ _ TRIAL_MESSAGE_FIELDS Hx).
    + unfold TRIAL_MESSAGE_FIELDS. rewrite !Forall_cons, Hr1, Hv, H1, H2, H3, H4, H5, H6. destruct x as [[] id]; repeat (split; [reflexivity|]); constructor.
    + destruct x as [[] id]; cbn; unfold TRIAL_MESSAGE_FIELDS; set_solver.
  - intros [(Hu & Ht & Hd & Hp & Hr) H].
    assert (unexpectedField object TRIAL_MESSAGE_FIELDS = None) as ->.
    { rewrite (unexpectedField_reads _ _ _ H), unexpectedField_None. destruct m as [[[] ?] ? ? ? ?]; cbn; unfold TRIAL_MESSAGE_FIELDS; set_solver. }
    assert (trialExecutionOf object = Some (m_execution m)) as ->.
    { apply trialExecutionOf_iff. apply (carries_reads (message_json m)); [intros n; symmetry; apply H|by apply carries_message]. }
    assert (forall n s, member n (message_json m) = Some s -> member n object = Some s) as Hm by (intros n s <-; apply H).
    destruct m as [[[] id] t d p r]; cbn [m_execution m_trial_id m_trial_manifest_sha256 m_payment_id m_refund_request_id ref_id] in *.
    all: assert (constantViolation object = None) as -> by (apply constantViolation_None; split; by apply Hm).
    all: assert (identifierViolation object = None) as -> by (apply identifierViolation_None;
      rewrite (Hm "trial_id" (JStr t) eq_refl), (Hm "trial_manifest_sha256" (JStr d) eq_refl), (Hm "payment_id" (JStr p) eq_refl),
        (Hm "refund_request_id" (JStr r) eq_refl); cbn; rewrite Ht, Hd; split_and!; eauto).
    all: unfold toTrialMessage, text_at; by rewrite (Hm "trial_id" (JStr t) eq_refl), (Hm "trial_manifest_sha256" (JStr d) eq_refl), (Hm "payment_id" (JStr p) eq_refl),
        (Hm "refund_request_id" (JStr r) eq_refl).
Qed.

Lemma uuid4_text_if (b : bool) id :
  isUuid4 id = true -> uuid4_text (if b then Some (JStr id) else None) = if b then Some id else None.
Proof. destruct b; [|done]. intros H. by apply uuid4_text_iff. Qed.

Lemma foreignExecution_carried object x expected :
  carries_execution object x -> foreignExecution object expected = if decide (x = expected) then None else Some x.
Proof.
  intros [Hu Hc]. unfold foreignExecution, TRIAL_EXECUTION_FIELDS. cbn [omap list_omap]. rewrite !Hc, !(uuid4_text_if _ _ Hu). destruct x as [f id], expected as [g id'].
  cbn [ref_field ref_id] in *.
  destruct (decide (MkRef f id = MkRef g id')) as [[= -> ->]|E].
  - destruct g; cbn; repeat case_bool_decide; done.
  - destruct f, g; cbn; repeat case_bool_decide; simplify_eq; done.
Qed.

Lemma registrationMismatch_message object m r identity : message_wf m -> reads_as object (message_json m) ->
  registrationMismatch object r identity = None <-> registered_for m r.
Proof.
  intros (Hu & Ht & Hd & _) H. unfold registrationMismatch, registered_for.
  rewrite (foreignExecution_carried object (m_execution m)) by (apply (carries_reads (message_json m)); [intros n; symmetry; apply H|by apply carries_message]).
  assert (member "trial_manifest_sha256" object = Some (JStr (m_trial_manifest_sha256 m))) as -> by (rewrite H; by destruct m as [[[] ?] ? ? ? ?]).
  assert (member "trial_id" object = Some (JStr (m_trial_id m))) as -> by (rewrite H; by destruct m as [[[] ?] ? ? ? ?]).
  cbn [sha256_text uuid4_text]. rewrite Hd, Ht. case_decide as E; [|naive_solver].
  destruct (decide (m_trial_manifest_sha256 m = tr_trial_manifest_sha256 r)) as [E1|E1];
    [rewrite (bool_decide_eq_true_2 _ E1)|rewrite (bool_decide_eq_false_2 _ E1)]; cbn; [|naive_solver].
  case_bool_decide; cbn; naive_solver.
Qed.

Lemma present_in_message object m n : reads_as object (message_json m) -> n ∈ map fst (message_json m) -> member n object <> None.
Proof. intros H Hn. rewrite H, LeaseItem.member_None. tauto. Qed.

Lemma missing_correlation_message object m : reads_as object (message_json m) -> missingCorrelationField object = None.
Proof.
  intros H. unfold missingCorrelationField. pose proof (present_in_message object m) as Hp.
  assert (bool_decide (member "run_id" object = None) && bool_decide (member "variant_validation_id" object = None) = false) as ->.
  { apply andb_false_iff. rewrite !bool_decide_eq_false. destruct m as [[[] ?] ? ? ? ?]; [left|right]; apply Hp; (done || (cbn; set_solver)). }
  apply find_first_None. intros n Hn. apply bool_decide_eq_false, Hp; [done|]. destruct m as [[[] ?] ? ? ? ?]; cbn; set_solver.
Qed.

Lemma validate_object_iff object r identity m :
  validateMessageObject object r identity = accepted m <-> message_wf m /\ reads_as object (message_json m) /\ registered_for m r.
Proof.
  unfold validateMessageObject. split.
  - destruct (registrationMismatch _ _ _) eqn:E; [done|]. destruct (missingCorrelationField _); [done|].
    destruct (checkTrialMessage object) as [m'|] eqn:Em; [|done]. intros [= ->]. apply check_message_iff in Em as [Hw Hm].
    split_and!; try done. by apply (registrationMismatch_message object m r identity).
  - intros (Hw & Hm & Hr). rewrite (proj2 (registrationMismatch_message object m r identity Hw Hm) Hr), (missing_correlation_message _ _ Hm).
    by rewrite (proj2 (check_message_iff object m) (conj Hw Hm)).
Qed.

(** A consumer accepts exactly the messages of its active trial. For any delivered body and any registration, the
    check accepts the message [m] iff the body is well-formed UTF-8 that [JSON.parse] reads as an object of finite
    numbers holding the members of the well-formed message [m] and nothing else, a trial is registered, and [m] names
    its execution, its trial and its frozen manifest. *)
Theorem delivered_message_accepted_iff JSON_parse body registration m :
  validateDeliveredMessage JSON_parse body registration = accepted m <->
  exists r object, registration = Some r /\ well_formed (bytes_of body) /\ JSON_parse body = Ok (JObj object)
    /\ all_finite (JObj object) = true
    /\ message_wf m /\ reads_as object (message_json m) /\ registered_for m r.
Proof.
  unfold validateDeliveredMessage. split.
  - destruct registration as [r|]; [|done]. destruct (parseJsonDocument _ _) as [[| | | | |object]|] eqn:E; try done.
    intros H%validate_object_iff. apply parseJsonDocument_ok in E. naive_solver.
  - intros (r & object & -> & Hw & Hp & Hf & H). rewrite (proj2 (parseJsonDocument_ok _ _ _)) by done. by apply validate_object_iff.
Qed.

(** The registry hands out exactly what was registered. The active registration read for a variant is [r] iff the stored
    item, without its keys, holds exactly the members of the well-formed registration [r] of that variant; so the item
    written for a well-formed registration is read back as it, and by no other variant. *)
Theorem registration_read_back item variant r :
  (registrationOfItem item variant = Ok r <->
     registration_wf r /\ variant_id r = variant /\ reads_as (without_keys item) (registration_json r))
  /\ (registration_wf r -> registrationOfItem (toTrialRegistryItem r) (variant_id r) = Ok r).
Proof.
  assert (H : forall item variant, registrationOfItem item variant = Ok r <->
     registration_wf r /\ variant_id r = variant /\ reads_as (without_keys item) (registration_json r)).
  { intros i v. unfold registrationOfItem. split.
    - destruct (parseTrialRegistration _) as [r'|] eqn:E; [|done]. case_bool_decide; [|done]. intros [= ->].
      apply parse_registration_sound in E as [? ?]. done.
    - intros (Hw & <- & H). rewrite (parse_registration_complete _ r Hw H). by rewrite bool_decide_eq_true_2. }
  split; [apply H|]. intros Hw. apply H. split_and!; try done. intros n. f_equal. by destruct r as [? [[] ?] ? ? ? ? ?].
Qed.

(** ** Publication *)

Lemma ref_text_inj a b : ref_text a = ref_text b -> a = b.
Proof.
  destruct a as [[] a], b as [[] b]; unfold ref_text, field_text; cbn [ref_field ref_id]; intros H; cbn in H; try discriminate H.
  all: by simplify_eq.
Qed.

Lemma fieldMismatches_nil m e : fieldMismatches m e = [] -> m = e.
Proof.
  unfold fieldMismatches. cbn [omap list_omap]. repeat case_bool_decide; try done. intros _.
  destruct m, e; cbn in *. f_equal; [by apply ref_text_inj|done..].
Qed.

Lemma message_of_reads object m : reads_as object (message_json m) -> message_of object = m.
Proof.
  intros H. unfold message_of, executionRefOf, toTrialMessage, text_at. rewrite !H. by destruct m as [[[] id] t d p r].
Qed.

(** What the JSON Schema of a trial message accepts, and that a refusal names a violation. *)
Definition accepts_only_messages (validator : Ingestion.RecordValidator) : Prop :=
  forall v, match Ingestion.validateAs validator "trial_message" v with
            | Ingestion.record_valid => exists object m, v = JObj object /\ message_wf m /\ reads_as object (message_json m)
            | Ingestion.record_invalid violations => violations <> []
            end.

(** The registration of the trial a publication is for. *)
Definition registers (p : TrialPublication) (r : TrialRegistration) : Prop :=
  tr_execution r = pb_execution p /\ tr_trial_id r = pb_trial_id p /\ tr_trial_manifest_sha256 r = pb_trial_manifest_sha256 p.

(** A message that passes the check before publication is accepted on delivery. Take a validator that accepts as a trial
    message only the objects holding the members of a well-formed message and nothing else, and let the trial be
    registered. When [validateBeforePublication] of the bytes of a text finds no mismatch, the consumer accepts that text,
    as the very message built for the publication, and the text is the canonical file of the value it holds. *)
Theorem publication_check_suffices JSON_parse body p validator r :
  accepts_only_messages validator -> registers p r ->
  validateBeforePublication JSON_parse (bytes_of body) p validator = Ok [] ->
  validateDeliveredMessage JSON_parse body (Some r) = accepted (built_record p)
  /\ exists object, JSON_parse body = Ok (JObj object) /\ serializeRecordFile (JObj object) = Ok body.
Proof.
  intros Hv (Hr1 & Hr2 & Hr3). unfold validateBeforePublication.
  destruct (parseJsonDocument _ _) as [v|] eqn:Ep; [|done].
  specialize (Hv v). destruct (Ingestion.validateAs _ _ _) as [|vs] eqn:Ev; [|destruct vs; done].
  destruct Hv as (object & m & -> & Hw & Hm). cbn [members_of]. rewrite (message_of_reads _ _ Hm).
  unfold buildTrialMessage. destruct (serializeRecordFile (JObj (message_json _))) as [own|]; cbn [bind_result]; [|done].
  destruct (serializeRecordFile (JObj object)) as [canonical|] eqn:Ec; cbn [bind_result]; [|done]. cbn [fst].
  intros [= [Hb Hf]%app_eq_nil]. apply fieldMismatches_nil in Hf as ->. case_bool_decide as Hbytes; [|done]. split.
  - unfold validateDeliveredMessage. rewrite Ep. apply validate_object_iff. split_and!; [done..|]. by split_and!; cbn.
  - apply parseJsonDocument_ok in Ep as (_ & Ep & _). exists object. split; [done|].
    by rewrite Ec, <-(text_of_bytes_of body), Hbytes, text_of_bytes_of.
Qed.

(** ** Instances *)

Definition sample_trial_id : string := "22222222-2222-4222-8222-222222222222".
Definition sample_digest : string := "00000000000000000000000000000000000000000000000000000000000000ab".
Definition sample_ref : TrialExecutionRef := MkRef f_run_id "11111111-1111-4111-8111-111111111111".
Definition sample_registration : TrialRegistration :=
  MkRegistration v_durable sample_ref sample_digest sample_trial_id sample_digest 3 "2026-01-02T03:04:05.678Z".
Definition sample_publication : TrialPublication :=
  MkPublication sample_ref sample_trial_id sample_digest (payment_id OR_RUA_001_REFUND) (refund_request_id OR_RUA_001_REFUND).
Definition sample_body : string :=
  match buildTrialMessage sample_publication with Ok (_, body) => body | Err _ => "" end.
Definition sample_parse (t : string) : Result json string :=
  if bool_decide (t = sample_body) then Ok (JObj (message_json (built_record sample_publication))) else Err "unexpected token".
Definition sample_validate (v : json) : Ingestion.RecordValidation :=
  match v with
  | JObj object =>
      match checkTrialMessage object with
      | Ok _ => Ingestion.record_valid
      | Err e => Ingestion.record_invalid [Ingestion.MkViolation "" "trial_message" e]
      end
  | _ => Ingestion.record_invalid [Ingestion.MkViolation "" "type" "not an object"]
  end.

Lemma registration_read_back_witness :
  registrationOfItem (toTrialRegistryItem sample_registration) v_durable = Ok sample_registration
  /\ registrationOfItem (toTrialRegistryItem sample_registration) v_conventional <> Ok sample_registration.
Proof.
  split.
  - apply (proj2 (registration_read_back [] v_durable sample_registration)). by vm_compute.
  - intros H. by apply (proj1 (registration_read_back _ _ _)) in H as (_ & H & _).
Defined.

Lemma publication_check_suffices_witness :
  validateDeliveredMessage sample_parse sample_body (Some sample_registration) = accepted (built_record sample_publication)
  /\ exists object, sample_parse sample_body = Ok (JObj object) /\ serializeRecordFile (JObj object) = Ok sample_body.
Proof.
  apply (publication_check_suffices sample_parse sample_body sample_publication
           (Ingestion.MkValidator sample_validate (fun _ => sample_validate)) sample_registration).
  - intros [| | | | |object]; cbn; try done. destruct (checkTrialMessage object) as [m|] eqn:E; [|done].
    exists object, m. split; [done|]. by apply check_message_iff.
  - by split_and!.
  - by vm_compute.
Defined.
End TrialMessage.
