(* ===== verification/RequestState.v ===== *)
(** * The request state of a variant (src/study-1/src/conventional-variant/request-state/)

    The state item (request-state-item.ts), the attempts the state does not account for yet
    (orphan-attempts.ts) and the recorder (request-state-recorder.ts), which writes each new
    version in one transaction with its event. The recorder shares the journal writer of its
    invocation with the provider client, so it runs on the client's state; the store's reads are
    the effects [GetItem] and [QueryPartitionPage]. Reading a partition takes a number of
    pages; [None] means that it has not ended within them. *)

From S2P Require Import Prelude AttemptLifecycle Timestamps Effects Store JsonText LeaseItem Journal Money ControlItems Acceptance.
From S2P Require Import Provider ProviderExchange ProviderClient Ingestion TrialMessage.
Import Attempt Json Store Utc Identifiers JsonText Journal ProviderExchange ProviderClient TrialMessage.
Import Provider(eventId) ControlItems(isOneOf).
Open Scope Z_scope.

Module RequestState.

(** ** Effects *)

Record QueryPage := MkPage { page_items : list StoredItem; next_cursor : option string }.

Inductive ReadEff : Type -> Type :=
| GetItem (table : TableRole) (k : ItemKey) : ReadEff (Result (option StoredItem) string)
| QueryPartitionPage (table : TableRole) (pk : string) (cursor : option string) : ReadEff (Result QueryPage string).

Definition VariantEff (R : Type) : Type := (ClientEff R + ReadEff R)%type.

Abbreviation VM := (SE VariantEff ClientState thrown).

Definition reading {R} (e : ReadEff R) : VM R := se_perform (inr e : VariantEff R).

Fixpoint client_tree {A} (p : proc ClientEff A) : proc VariantEff A :=
  match p with
  | Ret a => Ret a
  | Vis e k => Vis (inl e : VariantEff _) (fun r => client_tree (k r))
  end.
Definition on_client {A} (m : CM A) : VM A := fun s => client_tree (m s).

(** ** The state item *)

Definition REQUEST_STATE_SK_PREFIX : string := "state#request#".
Definition REJECTED_MESSAGE_STATE_SK_PREFIX : string := "state#rejected-message#".

Inductive ProcessingState := NOT_STARTED | RUNNING | FINISHED.
#[export] Instance ProcessingState_eq_dec : EqDecision ProcessingState.
Proof. solve_decision. Defined.
Definition processing_text (p : ProcessingState) : string :=
  match p with NOT_STARTED => "NOT_STARTED" | RUNNING => "RUNNING" | FINISHED => "FINISHED" end.
Definition PROCESSING_STATES : list ProcessingState := [NOT_STARTED; RUNNING; FINISHED].

Inductive ProcessingTerminalReason :=
| t_succeeded | t_retries_exhausted | t_message_rejected | t_provider_rejected | t_interrupted | t_safety_deadline.
Definition terminal_text (t : ProcessingTerminalReason) : string :=
  match t with
  | t_succeeded => "SUCCEEDED" | t_retries_exhausted => "RETRIES_EXHAUSTED" | t_message_rejected => "MESSAGE_REJECTED"
  | t_provider_rejected => "PROVIDER_REJECTED" | t_interrupted => "INTERRUPTED" | t_safety_deadline => "SAFETY_DEADLINE"
  end.

Definition knowledge_text (k : EffectKnowledge) : string :=
  match k with
  | NOT_ATTEMPTED => "NOT_ATTEMPTED" | NO_EFFECT_CONFIRMED => "NO_EFFECT_CONFIRMED" | ONE_EFFECT_CONFIRMED => "ONE_EFFECT_CONFIRMED"
  | MULTIPLE_EFFECTS_CONFIRMED => "MULTIPLE_EFFECTS_CONFIRMED" | UNKNOWN => "UNKNOWN"
  end.
Definition EFFECT_KNOWLEDGE_STATES : list EffectKnowledge :=
  [NOT_ATTEMPTED; NO_EFFECT_CONFIRMED; ONE_EFFECT_CONFIRMED; MULTIPLE_EFFECTS_CONFIRMED; UNKNOWN].

Record RequestStateSnapshot := MkSnapshot {
  version : Z;
  effect_knowledge : EffectKnowledge;
  attempt_ids : list string;
  processing_state : ProcessingState;
}.

Definition ITEM_FIELDS : list string := ["pk"; "sk"; "version"; "effect_knowledge"; "attempt_ids"; "processing_state"].

Definition requestStateKey (partitionKey refund_request_id : string) : ItemKey :=
  MkKey partitionKey (REQUEST_STATE_SK_PREFIX +:+ refund_request_id).
Definition rejectedMessageStateKey (partitionKey messageId : string) : ItemKey :=
  MkKey partitionKey (REJECTED_MESSAGE_STATE_SK_PREFIX +:+ messageId).

Definition attempts_json (ids : list string) : json := JArr (map JStr ids).

Definition toRequestStateItem (k : ItemKey) (s : RequestStateSnapshot) : StoredItem :=
  [("pk", JStr (pk k)); ("sk", JStr (sk k)); ("version", JNum (JSInt (version s)));
   ("effect_knowledge", JStr (knowledge_text (effect_knowledge s))); ("attempt_ids", attempts_json (attempt_ids s));
   ("processing_state", JStr (processing_text (processing_state s)))].

(** [item.sk] *)
Definition item_sk (item : StoredItem) : string := text_at "sk" item.

(** The last index of [key] before [later], and [findDuplicateItems] over canonical texts. *)
Fixpoint last_index (key : string) (keys : list string) (i : nat) : option nat :=
  match keys with
  | [] => None
  | k :: r => match last_index key r (S i) with Some j => Some j | None => if bool_decide (k = key) then Some i else None end
  end.
Definition last_duplicate (keys : list string) : option (nat * nat) :=
  snd (fold_left (fun '(seen, found) key =>
    (seen ++ [key], match last_index key seen 0 with Some earlier => Some (earlier, length seen) | None => found end)) keys ([], None)).

(** [isAttemptIdList]: a list of UUIDs, whose canonical texts exist. *)
Definition isAttemptIdList (value : option json) : option (list string) :=
  match value with
  | Some (JArr items) =>
      match mapM (fun v => uuid4_text (Some v)) items with
      | None => None
      | Some ids =>
          match mapM canonicalJsonIfRepresentable items with
          | Some keys => if bool_decide (last_duplicate keys = None) then Some ids else None
          | None => None
          end
      end
  | _ => None
  end.

Definition parseRequestStateItem (item : StoredItem) : Result RequestStateSnapshot string :=
  let at_ name := describeJson (member name item) in
  let where_ := "request-state item " +:+ item_sk item in
  match unexpectedField item ITEM_FIELDS with
  | Some extra => Err (where_ +:+ " has the unexpected attribute " +:+ describeJson (Some (JStr extra)) +:+ "; expected only "
                       +:+ String.concat ", " ITEM_FIELDS)
  | None =>
      match as_safe_integer (member "version" item) with
      | None => Err (where_ +:+ " version " +:+ at_ "version" +:+ "; expected a positive safe integer")
      | Some v =>
          if v <? 1 then Err (where_ +:+ " version " +:+ at_ "version" +:+ "; expected a positive safe integer") else
          match isOneOf EFFECT_KNOWLEDGE_STATES knowledge_text (member "effect_knowledge" item) with
          | None => Err (where_ +:+ " effect_knowledge " +:+ at_ "effect_knowledge" +:+ "; expected one of "
                         +:+ String.concat ", " (map knowledge_text EFFECT_KNOWLEDGE_STATES))
          | Some k =>
              match isOneOf PROCESSING_STATES processing_text (member "processing_state" item) with
              | None => Err (where_ +:+ " processing_state " +:+ at_ "processing_state" +:+ "; expected one of "
                             +:+ String.concat ", " (map processing_text PROCESSING_STATES))
              | Some p =>
                  match isAttemptIdList (member "attempt_ids" item) with
                  | None => Err (where_ +:+ " attempt_ids " +:+ at_ "attempt_ids" +:+ "; expected unique lowercase UUIDv4 values")
                  | Some ids => Ok (MkSnapshot v k ids p)
                  end
              end
          end
      end
  end.

(** ** Orphan attempts *)

Record AccountedAttempt := MkAccounted { aa_attempt_id : string; aa_outcome_class : OutcomeClass }.

Definition ATTEMPT_PHASES : list AttemptPhase := [PRE_DISPATCH; PHASE_NOT_DISPATCHED; PHASE_DISPATCHED].
Definition ATTEMPT_OUTCOMES : list AttemptOutcome := [SUCCEEDED; REJECTED; TIMED_OUT; FAILED].
Definition DISPATCH_STATES : list DispatchState := [NOT_DISPATCHED; DISPATCHED; DISPATCH_UNKNOWN].

Record AttemptStateItem := MkStateItem { as_attempt_id : string; as_refund_request_id : string; as_phase : AttemptPhase }.

Definition parseAttemptStateItem (item : StoredItem) : Result AttemptStateItem string :=
  match uuid4_text (member "attempt_id" item), as_string (member "refund_request_id" item),
        isOneOf ATTEMPT_PHASES phase_text (member "phase" item) with
  | Some a, Some r, Some p => Ok (MkStateItem a r p)
  | _, _, _ => Err ("attempt-state item " +:+ item_sk item +:+ ": attempt_id " +:+ describeJson (member "attempt_id" item)
                    +:+ ", refund_request_id " +:+ describeJson (member "refund_request_id" item) +:+ ", phase "
                    +:+ describeJson (member "phase" item) +:+ "; expected a UUIDv4, a string and one of "
                    +:+ String.concat ", " (map phase_text ATTEMPT_PHASES))
  end.

(** The class an outcome event gives its attempt. *)
Definition outcome_entry (item : StoredItem) : option (string * OutcomeClass) :=
  match as_string (member "attempt_id" item), isOneOf ATTEMPT_OUTCOMES outcome_text (member "outcome" item),
        isOneOf DISPATCH_STATES dispatch_text (member "dispatch_state" item) with
  | Some a, Some o, Some d => match classifyOutcome o d with Ok c => Some (a, c) | Err _ => None end
  | _, _, _ => None
  end.

(** The map, with the latest entry first. *)
Definition recordedOutcomeClasses (items : list StoredItem) : list (string * OutcomeClass) :=
  reverse (omap outcome_entry (List.filter (fun i => scalar_matches (member "record_type" i) (SStr "attempt_outcome_recorded")) items)).
Definition class_of (classes : list (string * OutcomeClass)) (attempt : string) : option OutcomeClass :=
  option_map snd (find_first (fun e => bool_decide (e.1 = attempt)) classes).

Definition classOfPhase (p : AttemptPhase) : OutcomeClass :=
  match p with PHASE_NOT_DISPATCHED => PRE_DISPATCH_FAILURE | _ => AMBIGUOUS end.

Fixpoint mapR {A B E} (f : A -> Result B E) (l : list A) : Result (list B) E :=
  match l with
  | [] => Ok []
  | a :: r => let! b := f a in let! bs := mapR f r in Ok (b :: bs)
  end.

Definition findOrphanAttempts (items : list StoredItem) (refundRequestId : string) (accounted : list string) :
  Result (list AccountedAttempt) string :=
  let! states := mapR parseAttemptStateItem (List.filter (fun i => String.prefix ATTEMPT_STATE_SK_PREFIX (item_sk i)) items) in
  let outcomes := recordedOutcomeClasses items in
  Ok (map (fun s => MkAccounted (as_attempt_id s) (nullish (class_of outcomes (as_attempt_id s)) (classOfPhase (as_phase s))))
        (List.filter (fun s => bool_decide (as_refund_request_id s = refundRequestId) && negb (memb (as_attempt_id s) accounted)) states)).

(** ** Planning a state *)

Inductive ProcessingUpdate := pu_running | pu_finished (terminal_reason : ProcessingTerminalReason).
Definition update_state (p : ProcessingUpdate) : ProcessingState := match p with pu_running => RUNNING | pu_finished _ => FINISHED end.

Record PlannedState := MkPlanned { snapshot : RequestStateSnapshot; body : list (string * json) }.

Definition version_of (current : option RequestStateSnapshot) : Z := match current with Some s => version s | None => 0 end.
Definition knowledge_of (current : option RequestStateSnapshot) : EffectKnowledge :=
  match current with Some s => effect_knowledge s | None => INITIAL_EFFECT_KNOWLEDGE end.
Definition attempts_of (current : option RequestStateSnapshot) : list string :=
  match current with Some s => attempt_ids s | None => [] end.

(** [baseOf] with the processing state. *)
Definition baseOf (current : option RequestStateSnapshot) (attempts : list AccountedAttempt) (p : ProcessingState) : RequestStateSnapshot :=
  MkSnapshot (version_of current + 1)
    (fold_left (fun k a => nextEffectKnowledge k (aa_outcome_class a)) attempts (knowledge_of current))
    (attempts_of current ++ map aa_attempt_id attempts) p.

Definition state_body (s : RequestStateSnapshot) (terminal : option ProcessingTerminalReason) (request : option string) : list (string * json) :=
  [("version", JNum (JSInt (version s))); ("effect_knowledge", JStr (knowledge_text (effect_knowledge s)));
   ("attempt_ids", attempts_json (attempt_ids s)); ("processing_state", JStr (processing_text (processing_state s)))]
  ++ match terminal with Some t => [("processing_terminal_reason", JStr (terminal_text t))] | None => [] end
  ++ match request with Some r => [("refund_request_id", JStr r)] | None => [] end.

Definition planState (current : option RequestStateSnapshot) (attempts : list AccountedAttempt) (processing : ProcessingUpdate)
    (request : string) : PlannedState :=
  let s := baseOf current attempts (update_state processing) in
  MkPlanned s (state_body s (match processing with pu_running => None | pu_finished t => Some t end) (Some request)).

(** ** The recorder *)

Definition STATE_TABLE : TableRole := caller_journal.
Definition REQUEST_STATE_JOURNAL_ACTION_INDEX : Z := 0.

Inductive RequestStateFailureCode := STATE_UNREADABLE | VERSION_CONFLICT | STATE_REJECTED | STATE_JOURNAL_STOPPED.
Definition state_failure_text (c : RequestStateFailureCode) : string :=
  match c with
  | STATE_UNREADABLE => "STATE_UNREADABLE" | VERSION_CONFLICT => "VERSION_CONFLICT" | STATE_REJECTED => "REJECTED"
  | STATE_JOURNAL_STOPPED => "JOURNAL_STOPPED"
  end.

Record RequestStateNotRecorded := MkNotRecorded { nr_code : RequestStateFailureCode; nr_detail : string }.
Inductive RequestStateRecordResult :=
| recorded (event : JournalEvent) (state : RequestStateSnapshot)
| unchanged
| not_recorded_state (failure : RequestStateNotRecorded).

Definition stateActions (p : PreparedJournalPut) (k : ItemKey) (current : option RequestStateSnapshot) (next : RequestStateSnapshot) :
  list WriteAction :=
  [journalPutAction STATE_TABLE (put_entry p);
   put STATE_TABLE (toRequestStateItem k next)
     (Some (match current with None => item_absent | Some s => attribute_equals "version" (SNum (version s)) end))].

(** A store call that rejects throws in its caller. *)
Definition thrown_by_store (t : Thrown) : thrown := other (ForeignError (error_name (transportErrorFromThrown t))).

Definition transact (actions : list WriteAction) (token : string) : CM WriteOutcome :=
  (answer <- own (TransactWrite actions token) ;;
   match answer with Ok outcome => se_ret outcome | Err t => se_throw (thrown_by_store t) end)%se.

Section recorder.
Context (scope : JournalScope) (maxDefinitiveRetries : Z) (pages : nat).

Definition partitionKey : string := journalPartitionKey scope.

(** The loop of [#record], with the retries left and the ones made. *)
Fixpoint record_loop (retries : nat) (retry : Z) (k : ItemKey) (current : option RequestStateSnapshot) (planned : PlannedState)
    (prepared : PreparedJournalPut + JournalStopped) : CM RequestStateRecordResult :=
  let v := string_of_Z (version (snapshot planned)) in
  let stopped s := not_recorded_state (MkNotRecorded STATE_JOURNAL_STOPPED
    ("request_state_recorded v" +:+ v +:+ " not written: " +:+ stop_text (stop_reason s) +:+ ": " +:+ stop_detail s)) in
  match prepared with
  | inr s => se_ret (stopped s)
  | inl p =>
      (outcome <- transact (stateActions p k current (snapshot planned)) (eventId (event (put_entry p))) ;;
       confirmed <- journal_confirm p outcome REQUEST_STATE_JOURNAL_ACTION_INDEX ;;
       match confirmed with
       | cf_result (ap_appended e) => se_ret (recorded e (snapshot planned))
       | cf_result (ap_stopped s) => se_ret (stopped s)
       | cf_not_applied _ (definitive_failure code) =>
           match retries with
           | O => se_ret (not_recorded_state (MkNotRecorded STATE_REJECTED
                    (sk k +:+ " v" +:+ v +:+ ": " +:+ string_of_Z (retry + 1) +:+ " identical transaction(s) refused definitively; last "
                     +:+ boundedJsonText (JStr code) QUOTED_JSON_LIMIT)))
           | S n => next <- journal_prepare_retry p ;; record_loop n (retry + 1) k current planned next
           end
       | cf_not_applied _ _ =>
           se_ret (not_recorded_state (MkNotRecorded VERSION_CONFLICT
             (sk k +:+ " changed since version " +:+ string_of_Z (version_of current)
              +:+ " was read; expected it unchanged until version " +:+ v +:+ " is written")))
       end)%se
  end.

Definition record (k : ItemKey) (current : option RequestStateSnapshot) (planned : PlannedState) (causation : list string) :
  CM RequestStateRecordResult :=
  (prepared <- journal_prepare "request_state_recorded" (body planned) causation ;;
   record_loop (Z.to_nat maxDefinitiveRetries) 0 k current planned prepared)%se.

(** [#read], of the store's answer. *)
Definition read_state (k : ItemKey) (read : Result (option StoredItem) string) :
  Result (option RequestStateSnapshot) RequestStateNotRecorded :=
  match read with
  | Err code => Err (MkNotRecorded STATE_UNREADABLE
                       ("request-state read of " +:+ sk k +:+ " failed: " +:+ boundedJsonText (JStr code) QUOTED_JSON_LIMIT))
  | Ok None => Ok None
  | Ok (Some item) =>
      match parseRequestStateItem item with Ok s => Ok (Some s) | Err e => Err (MkNotRecorded STATE_UNREADABLE e) end
  end.

Definition readState (k : ItemKey) : VM (Result (option RequestStateSnapshot) RequestStateNotRecorded) :=
  (read <- reading (GetItem STATE_TABLE k) ;; se_ret (read_state k read))%se.

(** [#partitionItems], with the pages left. *)
Fixpoint items_loop (pages : nat) (cursor : option string) (items : list StoredItem) :
  VM (option (Result (list StoredItem) RequestStateNotRecorded)) :=
  match pages with
  | O => se_ret None
  | S n =>
      (page <- reading (QueryPartitionPage STATE_TABLE partitionKey cursor) ;;
       match page with
       | Err code => se_ret (Some (Err (MkNotRecorded STATE_UNREADABLE
                       ("partition query of " +:+ partitionKey +:+ " failed: " +:+ boundedJsonText (JStr code) QUOTED_JSON_LIMIT))))
       | Ok p =>
           match next_cursor p with
           | None => se_ret (Some (Ok (items ++ page_items p)))
           | Some c => items_loop n (Some c) (items ++ page_items p)
           end
       end)%se
  end.
Definition partitionItems : VM (option (Result (list StoredItem) RequestStateNotRecorded)) := items_loop pages None [].

Definition recordAttemptResult (request : string) (attempt : AccountedAttempt) (processing : ProcessingUpdate) (causation : list string) :
  VM RequestStateRecordResult :=
  let k := requestStateKey partitionKey request in
  (current <- readState k ;;
   match current with
   | Err f => se_ret (not_recorded_state f)
   | Ok c => on_client (record k c (planState c [attempt] processing request) causation)
   end)%se.

Definition reconcileOrphans (request : string) (causation : list string) : VM (option RequestStateRecordResult) :=
  let k := requestStateKey partitionKey request in
  (current <- readState k ;;
   match current with
   | Err f => se_ret (Some (not_recorded_state f))
   | Ok c =>
       items <- partitionItems ;;
       match items with
       | None => se_ret None
       | Some (Err f) => se_ret (Some (not_recorded_state f))
       | Some (Ok items) =>
           match findOrphanAttempts items request (attempts_of c) with
           | Err e => se_ret (Some (not_recorded_state (MkNotRecorded STATE_UNREADABLE e)))
           | Ok [] => se_ret (Some unchanged)
           | Ok orphans =>
               r <- on_client (record k c (planState c orphans pu_running request) causation) ;;
               se_ret (Some r)
           end
       end
   end)%se.

Definition recordMessageRejected (request : option string) (message_id : string) (causation : list string) : VM RequestStateRecordResult :=
  let k := match request with None => rejectedMessageStateKey partitionKey message_id | Some r => requestStateKey partitionKey r end in
  (current <- readState k ;;
   match current with
   | Err f => se_ret (not_recorded_state f)
   | Ok c =>
       let s := baseOf c [] FINISHED in
       on_client (record k c (MkPlanned s (state_body s (Some t_message_rejected) request)) causation)
   end)%se.
End recorder.
(** A program of the client or the recorder; what it throws passes through [on_throw]. *)
Definition calling {X A} (on_throw : thrown -> X) (m : VM A) : SE VariantEff ClientState X A :=
  fun s => pbind (m s) (fun '(s', r) => Ret (s', match r with Ok a => Ok a | Err x => Err (on_throw x) end)).
End RequestState.
