(* ===== verification/RequestSafety.v ===== *)
(** * Safety of the request state

    The recorder beside any other parties, over a store that may refuse, fail or answer
    ambiguously. Others leave the rows of this invocation's journal instance and attempts alone;
    they change a request-state row only by recording next versions ([row_step]), keep every
    attempt row and every journal row, and keep the rows backed by events ([rely2]). The recorder guarantees the same
    ([guar2]), so any number of recorders run beside each other.

    A row is [backed] when it is the state after a list of batches of attempts and every version
    up to it is recorded by an event. [continues c s] bounds a cursor of a partition read: the
    sort keys the pages from [c] on still cover. *)

From S2P Require Import Prelude AttemptLifecycle Timestamps Utf16 Effects Store JsonText Parsing LeaseItem Journal JournalSafety JournalTx.
From S2P Require Import Money ControlItems Acceptance Provider ProviderExchange ExchangeCorrect ProviderClient ClientSafety.
From S2P Require Import Ingestion TrialMessage RequestState.
Import Attempt Json Store Utc Identifiers JsonText Journal JournalSafety ProviderExchange ProviderClient ClientSafety TrialMessage RequestState.
Import Utf16(byte_of).
Import Provider(eventId).
Import (notations) Stdlib.Strings.Ascii.
Open Scope Z_scope.

Module RequestSafety.

(** ** The state item *)

Lemma knowledge_text_inj a b : knowledge_text a = knowledge_text b -> a = b.
Proof. by destruct a, b. Qed.
Lemma processing_text_inj a b : processing_text a = processing_text b -> a = b.
Proof. by destruct a, b. Qed.

Lemma knowledge_iff v k : ControlItems.isOneOf EFFECT_KNOWLEDGE_STATES knowledge_text v = Some k <-> v = Some (JStr (knowledge_text k)).
Proof. apply ControlItems.isOneOf_iff; [|apply knowledge_text_inj]. intros []; unfold EFFECT_KNOWLEDGE_STATES; set_solver. Qed.
Lemma processing_iff v p : ControlItems.isOneOf PROCESSING_STATES processing_text v = Some p <-> v = Some (JStr (processing_text p)).
Proof. apply ControlItems.isOneOf_iff; [|apply processing_text_inj]. intros []; unfold PROCESSING_STATES; set_solver. Qed.
Lemma phase_iff v p : ControlItems.isOneOf ATTEMPT_PHASES phase_text v = Some p <-> v = Some (JStr (phase_text p)).
Proof. apply ControlItems.isOneOf_iff; [|apply phase_text_inj]. intros []; unfold ATTEMPT_PHASES; set_solver. Qed.

Lemma uuids_of_items items ids :
  mapM (fun v => uuid4_text (Some v)) items = Some ids <-> items = map JStr ids /\ Forall (fun i => isUuid4 i = true) ids.
Proof.
  rewrite mapM_Some. split.
  - induction 1 as [|v i items ids H _ [-> IH]]; [done|]. apply uuid4_text_iff in H as [[= ->] H]. by split; [|constructor].
  - intros [-> H]. induction H as [|i ids H _ IH]; constructor; [|done]. by apply uuid4_text_iff.
Qed.

Lemma canonical_string s : canonicalJsonIfRepresentable (JStr s) = Some (quote_json s).
Proof.
  unfold canonicalJsonIfRepresentable, canonicalPieces.
  pose proof (jsonTextPieces_text CANONICAL_STYLE (JStr s)) as H. change (json_text CANONICAL_STYLE (JStr s)) with (Some (quote_json s)) in H.
  by destruct H as (ps & -> & <-).
Qed.

Lemma canonical_of_strings ids : mapM canonicalJsonIfRepresentable (map JStr ids) = Some (map quote_json ids).
Proof. apply mapM_Some. induction ids as [|i ids IH]; constructor; [apply canonical_string|done]. Qed.

(** A UUID is quoted as it is. *)
Lemma uuid_char_plain c : is_lower_hex c || bool_decide (c = "-"%char) = true -> escape_char c = [c] /\ byte_of c <> 0xed.
Proof. destruct c as [[] [] [] [] [] [] [] []]; vm_compute; intuition congruence. Qed.

Lemma uuid_chars s : isUuid4 s = true -> Forall (fun c => is_lower_hex c || bool_decide (c = "-"%char) = true) (chars s).
Proof.
  unfold isUuid4. intros [_ H]%andb_prop. rewrite forallb_forall in H. apply Forall_lookup. intros i c Hi.
  assert (Hu : uuid4_char_ok i c = true).
  { apply H. apply list_elem_of_In, list_elem_of_lookup. exists i. by rewrite list_lookup_imap, Hi. }
  unfold uuid4_char_ok in Hu. destruct (memb i _); [by rewrite Hu, orb_true_r|].
  destruct (Nat.eqb i 14); [apply bool_decide_eq_true in Hu as ->; by vm_compute|].
  destruct (Nat.eqb i 19); [|by rewrite Hu]. clear -Hu. by destruct c as [[] [] [] [] [] [] [] []].
Qed.

Lemma quote_uuid s : isUuid4 s = true -> quote_json s = text (dquote :: chars s ++ [dquote]).
Proof.
  intros H%uuid_chars. unfold quote_json. do 3 f_equal. induction H as [|c l Hc _ IH]; [done|].
  destruct (uuid_char_plain c Hc) as [Ec Hne]. by rewrite escape_plain, Ec, IH.
Qed.

Lemma quote_uuid_inj a b : isUuid4 a = true -> isUuid4 b = true -> quote_json a = quote_json b -> a = b.
Proof.
  intros Ha Hb. rewrite !quote_uuid by done. intros [= H]%text_inj. by apply app_inj_tail in H as [H%chars_inj _].
Qed.

(** *** Duplicates *)

Lemma last_index_None key keys i : last_index key keys i = None <-> key ∉ keys.
Proof.
  revert i. induction keys as [|k r IH]; intros i; cbn [last_index]; [split; [intros _; apply not_elem_of_nil|done]|].
  rewrite not_elem_of_cons. specialize (IH (S i)). destruct (last_index key r (S i)); [naive_solver|]. case_bool_decide; naive_solver.
Qed.

Lemma last_duplicate_from keys : forall seen found,
  snd (fold_left (fun '(seen, found) key =>
    (seen ++ [key], match last_index key seen 0 with Some earlier => Some (earlier, length seen) | None => found end)) keys (seen, found)) = None
  <-> found = None /\ NoDup keys /\ forall k, k ∈ keys -> k ∉ seen.
Proof.
  induction keys as [|k r IH]; intros seen found; cbn [fold_left].
  - cbn. split; [intros ->; split_and!; [done|constructor|]; set_solver|tauto].
  - rewrite IH, NoDup_cons. pose proof (last_index_None k seen 0) as Hi. destruct (last_index k seen 0).
    + split; [by intros [? _]|]. intros (_ & _ & H). specialize (H k). set_solver.
    + split; intros (-> & H1 & H2); (split; [done|]); set_solver.
Qed.

Lemma last_duplicate_None keys : last_duplicate keys = None <-> NoDup keys.
Proof. unfold last_duplicate. rewrite last_duplicate_from. set_solver. Qed.

Lemma quoted_duplicates ids : Forall (fun i => isUuid4 i = true) ids -> NoDup (map quote_json ids) <-> NoDup ids.
Proof.
  intros H. split; [apply NoDup_fmap_1|]. induction H as [|i ids Hi HF IH]; [constructor|]. rewrite NoDup_cons. intros [Hn Hd].
  cbn [map]. apply NoDup_cons. split; [|by apply IH]. intros (j & E & Hj)%list_elem_of_fmap. rewrite Forall_forall in HF.
  apply quote_uuid_inj in E as ->; auto.
Qed.

Lemma isAttemptIdList_iff v ids : isAttemptIdList v = Some ids <->
  v = Some (attempts_json ids) /\ Forall (fun i => isUuid4 i = true) ids /\ NoDup ids.
Proof.
  unfold isAttemptIdList, attempts_json. split.
  - destruct v as [[| | | |items|]|]; try done. destruct (mapM _ items) as [l|] eqn:E; [|done]. apply uuids_of_items in E as [-> HF].
    rewrite canonical_of_strings. case_bool_decide as Hd; [|done]. intros [= ->].
    apply last_duplicate_None in Hd. by rewrite <-quoted_duplicates.
  - intros (-> & HF & Hd). rewrite (proj2 (uuids_of_items (map JStr ids) ids)) by done. rewrite canonical_of_strings.
    by rewrite bool_decide_eq_true_2 by apply last_duplicate_None, (proj2 (quoted_duplicates ids HF) Hd).
Qed.

Definition snapshot_wf (s : RequestStateSnapshot) : Prop :=
  is_safe_integer (version s) = true /\ 1 <= version s /\ Forall (fun i => isUuid4 i = true) (attempt_ids s) /\ NoDup (attempt_ids s).

(** The attributes of a state row, under its key or any other. *)
Definition holds_snapshot (item : StoredItem) (s : RequestStateSnapshot) : Prop :=
  (forall n, n ∈ map fst item -> n ∈ ITEM_FIELDS)
  /\ member "version" item = Some (JNum (JSInt (version s))) /\ member "effect_knowledge" item = Some (JStr (knowledge_text (effect_knowledge s)))
  /\ member "processing_state" item = Some (JStr (processing_text (processing_state s)))
  /\ member "attempt_ids" item = Some (attempts_json (attempt_ids s)).

Lemma parse_state_iff item s : parseRequestStateItem item = Ok s <-> snapshot_wf s /\ holds_snapshot item s.
Proof.
  unfold parseRequestStateItem, snapshot_wf, holds_snapshot. rewrite <-unexpectedField_None. cbn zeta. split.
  - destruct (unexpectedField item ITEM_FIELDS); [done|]. destruct (as_safe_integer _) as [v|] eqn:Ev; [|done].
    apply ControlItems.as_safe_integer_iff in Ev as [Ev Hs]. destruct (Z.ltb_spec v 1); [done|].
    destruct (ControlItems.isOneOf EFFECT_KNOWLEDGE_STATES _ _) as [k|] eqn:Ek; [|done]. apply knowledge_iff in Ek.
    destruct (ControlItems.isOneOf PROCESSING_STATES _ _) as [q|] eqn:Eq; [|done]. apply processing_iff in Eq.
    destruct (isAttemptIdList _) as [ids|] eqn:Ei; [|done]. apply isAttemptIdList_iff in Ei as (Ei & HF & Hd). intros [= <-]. by split_and!.
  - intros ((Hs & Hv & HF & Hd) & -> & E1 & E2 & E3 & E4).
    rewrite (proj2 (ControlItems.as_safe_integer_iff _ (version s))) by done. rewrite (proj2 (Z.ltb_ge _ _)) by done.
    rewrite (proj2 (knowledge_iff _ (effect_knowledge s))) by done. rewrite (proj2 (processing_iff _ (processing_state s))) by done.
    rewrite (proj2 (isAttemptIdList_iff _ (attempt_ids s))) by done. by destruct s.
Qed.

Lemma item_holds k s : holds_snapshot (toRequestStateItem k s) s.
Proof. by split_and!. Qed.

Lemma map_JStr_inj a b : map JStr a = map JStr b -> a = b.
Proof. revert b. induction a as [|x a IH]; intros [|y b] [=]; [done|]. f_equal; auto. Qed.

Lemma holds_snapshot_inj item s t : holds_snapshot item s -> holds_snapshot item t -> s = t.
Proof.
  intros (_ & V1 & K1 & P1 & A1) (_ & V2 & K2 & P2 & A2). rewrite V1 in V2. rewrite K1 in K2. rewrite P1 in P2. rewrite A1 in A2.
  injection V2 as V. injection K2 as K%knowledge_text_inj. injection P2 as P%processing_text_inj. injection A2 as A%map_JStr_inj.
  destruct s, t; cbn in *. by subst.
Qed.

(** Request states are read back as they were written, and nothing else is read as one. The reader gives the snapshot [s] iff [s]
    is well formed (a positive safe version, distinct UUIDs) and the item holds exactly its attributes; in particular it
    reads a written snapshot back iff that is well formed, and never as another. *)
Theorem request_state_codec item s k t :
  (parseRequestStateItem item = Ok s <-> snapshot_wf s /\ holds_snapshot item s)
  /\ (parseRequestStateItem (toRequestStateItem k t) = Ok s <-> snapshot_wf t /\ s = t).
Proof.
  split; [apply parse_state_iff|]. rewrite parse_state_iff. split.
  - intros [Hw Hh]. pose proof (holds_snapshot_inj _ _ _ Hh (item_holds k t)) as ->. done.
  - intros [Hw ->]. split; [done|apply item_holds].
Qed.

(** ** Histories *)

(** The state after batches of attempts. *)
Definition state_of (batches : list (list AccountedAttempt)) (p : ProcessingState) : RequestStateSnapshot :=
  MkSnapshot (Z.of_nat (length batches)) (foldEffectKnowledge (map aa_outcome_class (concat batches)))
    (map aa_attempt_id (concat batches)) p.
Definition current_of (batches : list (list AccountedAttempt)) (p : ProcessingState) : option RequestStateSnapshot :=
  match batches with [] => None | _ => Some (state_of batches p) end.

Lemma fold_left_fmap {A B C} (f : A -> B) (g : C -> B -> C) l c : fold_left g (map f l) c = fold_left (fun c a => g c (f a)) l c.
Proof. revert c. induction l as [|a l IH]; intros c; [done|apply IH]. Qed.

Lemma baseOf_state_of batches q attempts p : baseOf (current_of batches q) attempts p = state_of (batches ++ [attempts]) p.
Proof.
  unfold baseOf, state_of, foldEffectKnowledge. rewrite concat_app, !map_app, fold_left_app, length_app. cbn [concat length].
  rewrite app_nil_r, fold_left_fmap. destruct batches as [|b bs]; [done|]. cbn [current_of version_of version]. f_equal.
  unfold state_of. cbn [version length]. lia.
Qed.

Definition row_of (k : ItemKey) (c : option RequestStateSnapshot) : option StoredItem := option_map (toRequestStateItem k) c.

(** A row is replaced by the next version of the state it holds. *)
Definition row_step (k : ItemKey) (v v' : option StoredItem) : Prop :=
  exists c attempts p, v = row_of k c /\ v' = Some (toRequestStateItem k (baseOf c attempts p)).

Definition version_at (v : option StoredItem) : Z :=
  match v with Some m => match member "version" m with Some (JNum (JSInt z)) => z | _ => 0 end | None => 0 end.

Lemma version_row k c : version_at (row_of k c) = version_of c.
Proof. by destruct c. Qed.

Lemma evolves_version k v v' : rtc (row_step k) v v' -> v = v' \/ version_at v < version_at v'.
Proof.
  induction 1 as [|v v1 v2 (c & a & p & -> & ->) _ IH]; [by left|]. right. rewrite version_row.
  assert (E : version_at (Some (toRequestStateItem k (baseOf c a p))) = version_of c + 1) by done.
  destruct IH as [<-|IH]; lia.
Qed.

(** The row holds the state or a later version of it. *)
Definition reaches (k : ItemKey) (s : RequestStateSnapshot) (v : option StoredItem) : Prop :=
  rtc (row_step k) (Some (toRequestStateItem k s)) v.

Lemma reaches_keeps k s v : reaches k s v ->
  exists t, v = Some (toRequestStateItem k t) /\ version s <= version t /\ attempt_ids s `prefix_of` attempt_ids t.
Proof.
  unfold reaches. intros H. remember (Some (toRequestStateItem k s)) as v0 eqn:E. revert s E.
  induction H as [v|v v1 v2 (c & a & p & E1 & ->) _ IH]; intros s ->; [by exists s|].
  destruct c as [c|]; [|done]. apply (inj Some) in E1.
  assert (s = c) as -> by (apply (holds_snapshot_inj (toRequestStateItem k s)); [|rewrite E1]; apply item_holds).
  destruct (IH _ eq_refl) as (t & -> & Hv & Ha). exists t. split; [done|]. cbn in Hv. split; [lia|].
  etrans; [|exact Ha]. cbn. by eexists.
Qed.

(** ** Rows of request states *)

Definition names_request (k : ItemKey) (request : option string) : Prop :=
  match request with
  | Some r => sk k = REQUEST_STATE_SK_PREFIX +:+ r
  | None => exists m, sk k = REJECTED_MESSAGE_STATE_SK_PREFIX +:+ m
  end.

(** A request state's key; no journal row of any instance has the same key. *)
Definition request_row (k : ItemKey) : Prop :=
  (exists request, names_request k request)
  /\ forall d n, isUuid4 (d_instanceId d) = true -> isSourceSequence n = true -> jkey d n <> k.

Lemma request_not_attempt k p a : request_row k -> k <> state_key p a.
Proof.
  intros [[[r|] H] _] ->; [|destruct H as [m H]]; unfold state_key, attemptStateSortKey, ATTEMPT_STATE_SK_PREFIX, REQUEST_STATE_SK_PREFIX, REJECTED_MESSAGE_STATE_SK_PREFIX in H;
    cbn in H; discriminate H.
Qed.

(** The version is recorded by an event of the row's partition. *)
Definition recorded_event (k : ItemKey) (s : RequestStateSnapshot) (w : tables) : Prop :=
  exists d n entry terminal request, isUuid4 (d_instanceId d) = true /\ isSourceSequence n = true
    /\ built "request_state_recorded" (state_body s terminal request) entry /\ names_request k request
    /\ journalPartitionKey (d_scope d) = pk k /\ jrow caller_journal d w n = Some (item entry).

Definition backed (w : tables) : Prop := forall k, request_row k ->
  exists batches p, w caller_journal k = row_of k (current_of batches p)
    /\ forall n, (0 < n <= length batches)%nat -> exists q, (n = length batches -> q = p) /\ recorded_event k (state_of (take n batches) q) w.

(** Events stay where they are. *)
Definition events_kept (w w' : tables) : Prop :=
  forall d n m, isUuid4 (d_instanceId d) = true -> isSourceSequence n = true -> jrow caller_journal d w n = Some m ->
    jrow caller_journal d w' n = Some m.

Record later (w w' : tables) : Prop := {
  later_rows k : request_row k -> rtc (row_step k) (w caller_journal k) (w' caller_journal k);
  later_attempts p a m : w caller_journal (state_key p a) = Some m ->
    exists m', w' caller_journal (state_key p a) = Some m' /\ forall n, n <> "phase" -> member n m' = member n m;
  later_events : events_kept w w';
  later_backed : backed w -> backed w';
}.

#[export] Instance later_preorder : PreOrder later.
Proof.
  split.
  - intros w. split; [done|eauto|by intros ????|done].
  - intros w1 w2 w3 H1 H2. split.
    + intros k Hk. etrans; [by apply (later_rows _ _ H1)|by apply (later_rows _ _ H2)].
    + intros p a m Hm. destruct (later_attempts _ _ H1 _ _ _ Hm) as (m2 & Hm2 & E2).
      destruct (later_attempts _ _ H2 _ _ _ Hm2) as (m3 & Hm3 & E3). exists m3. split; [done|]. intros n Hn. by rewrite E3, E2.
    + intros d n m Hd Hn Hm. by apply (later_events _ _ H2), (later_events _ _ H1).
    + intros H. by apply (later_backed _ _ H2), (later_backed _ _ H1).
Qed.

Lemma reaches_later k s w w' : request_row k -> later w w' -> reaches k s (w caller_journal k) -> reaches k s (w' caller_journal k).
Proof. intros Hk Hl H. unfold reaches. etrans; [exact H|by apply (later_rows _ _ Hl)]. Qed.

Lemma recorded_event_kept k s w w' : events_kept w w' -> recorded_event k s w -> recorded_event k s w'.
Proof. intros Hk (d & n & e & t & r & H1 & H2 & H3 & H4 & H5 & H6). exists d, n, e, t, r. split_and!; try done. by apply Hk. Qed.

Lemma stored_later d ty body e w w' : isUuid4 (d_instanceId d) = true -> later w w' ->
  stored caller_journal d ty body e w -> stored caller_journal d ty body e w'.
Proof.
  intros Hd Hl (n & entry & Hn & Hb & He & Hrow). exists n, entry. split_and!; try done. by apply (later_events _ _ Hl).
Qed.

Lemma backed_kept w w' :
  (forall k, request_row k -> w' caller_journal k = w caller_journal k) -> events_kept w w' -> backed w -> backed w'.
Proof.
  intros Hrow Hev Hb k Hk. destruct (Hb k Hk) as (bs & p & E & H). exists bs, p. split; [by rewrite Hrow|].
  intros n Hn. destruct (H n Hn) as (q & Hq & He). exists q. split; [done|]. by eapply recorded_event_kept.
Qed.

Section recorder.
Context (mine requests : string -> Prop) (home : string) (delivered : ProviderTransportResult -> Prop) (continues : string -> string -> Prop).
Hypothesis mine_uuids : forall x, mine x -> isUuid4 x = true.

(** ** Rely and guarantee *)

Definition rely2 (w w' : world) : Prop := rely mine w w' /\ later (store w) (store w').

Definition changes2 (s s' : tables) : Prop := forall t k,
  own_change mine mine requests t k (s t k) (s' t k) \/ (t = caller_journal /\ request_row k /\ row_step k (s t k) (s' t k)).
Definition guar2 (w w' : world) : Prop := changes2 (store w) (store w') /\ calls_own mine home w w' /\ later (store w) (store w').
Definition kept (w : world) : Prop := backed (store w).

#[export] Instance rely2_preorder : PreOrder rely2.
Proof. split; [done|]. intros w1 w2 w3 [? ?] [? ?]. by split; etrans. Qed.

Lemma own_changes_later s s' : changes_own mine mine requests s s' -> later s s'.
Proof.
  intros H. assert (Hrow : forall k, request_row k -> s' caller_journal k = s caller_journal k).
  { intros k Hk. destruct (H caller_journal k) as [E|d n _ _ Hd Hn E|q b m _ E|q b m m' to _ E]; [done| | |].
    - destruct Hk as [_ Hk]. destruct (Hk d n); auto.
    - by apply request_not_attempt in E.
    - by apply request_not_attempt in E. }
  assert (Hev : events_kept s s').
  { intros d n m Hd Hn Hm. unfold jrow in *.
    destruct (H caller_journal (jkey d n)) as [E|d' n' _ E|q b m1 _ _ _ E|q b m1 m' to _ E Hb]; [by rewrite E|congruence..|].
    destruct (journal_key_not_state d n q b); auto. }
  split.
  - intros k Hk. by rewrite Hrow.
  - intros p a m Hm. destruct (H caller_journal (state_key p a)) as [E|d n _ E|q b m1 _ _ _ E|q b m1 m' to _ _ _ E E' _ _ _ Hn];
      [exists m; by rewrite E|congruence..|]. exists m'. rewrite Hm in E. injection E as ->. done.
  - exact Hev.
  - by apply backed_kept.
Qed.

Lemma guar_guar2 w w' : guar mine mine requests home w w' -> guar2 w w'.
Proof. intros [H1 H2]. split; [intros t k; by left|]. split; [done|by apply own_changes_later]. Qed.

(** What holds of the client's programs holds beside recorders too. *)
Lemma frame_rg {A} (p : proc ClientEff A) (Q : A -> world -> Prop) w0 w :
  later (store w0) (store w) -> kept w -> rg (client_step mine delivered) (rely mine) (guar mine mine requests home) always p Q w ->
  rg (client_step mine delivered) rely2 guar2 kept p (fun a w' => Q a w' /\ later (store w0) (store w') /\ kept w') w.
Proof.
  revert w. induction p as [a|R e k IH]; intros w Hl Hb H; [done|]. cbn [rg] in *. intros w1 [Hr Hl1] r w2 Hs.
  destruct (H w1 Hr r w2 Hs) as (Hg & _ & Hk). pose proof (guar_guar2 _ _ Hg) as Hg2. pose proof Hg2 as (_ & _ & Hl2).
  assert (Hb2 : kept w2) by by apply (later_backed _ _ Hl2), (later_backed _ _ Hl1).
  split; [done|]. split; [done|]. apply IH; [|done..]. etrans; [exact Hl|]. by etrans.
Qed.

(** *** Effects of a variant *)

Definition read_step (R : Type) (e : ReadEff R) : world -> R -> world -> Prop :=
  match e in ReadEff R return world -> R -> world -> Prop with
  | GetItem t k => fun w r w' => w' = w /\ (r = Ok (store w t k) \/ exists code, r = Err code)
  | QueryPartitionPage t p c => fun w r w' => w' = w /\
      match r with
      | Err _ => True
      | Ok page =>
          (forall s m, store w t (MkKey p s) = Some m -> match c with Some c => continues c s | None => True end ->
             m ∈ page_items page \/ exists c', next_cursor page = Some c' /\ continues c' s)
          /\ Forall (fun m => exists s, store w t (MkKey p s) = Some m) (page_items page)
      end
  end.

Definition variant_step (R : Type) (e : VariantEff R) : world -> R -> world -> Prop :=
  match e with inl c => client_step mine delivered R c | inr r => read_step R r end.

Lemma client_tree_rg {A} (p : proc ClientEff A) (Q : A -> world -> Prop) w :
  rg (client_step mine delivered) rely2 guar2 kept p Q w -> rg variant_step rely2 guar2 kept (client_tree p) Q w.
Proof.
  revert w. induction p as [a|R e k IH]; intros w H; [done|]. cbn [client_tree rg] in *. intros w1 Hr r w2 Hs.
  destruct (H w1 Hr r w2 Hs) as (? & ? & ?). auto.
Qed.

Abbreviation cspec := (rgs (client_step mine delivered) rely2 guar2 kept).
Abbreviation vspec := (rgs variant_step rely2 guar2 kept).

Lemma frame_spec {A} (m : CM A) (Q : ClientState -> Result A thrown -> world -> Prop) s w0 w :
  later (store w0) (store w) -> kept w -> rgs (client_step mine delivered) (rely mine) (guar mine mine requests home) always m Q s w ->
  cspec m (fun s' r w' => Q s' r w' /\ later (store w0) (store w') /\ kept w') s w.
Proof. intros Hl Hb H. exact (frame_rg _ _ w0 w Hl Hb H). Qed.

Lemma on_client_spec {A} (m : CM A) Q s w : cspec m Q s w -> vspec (on_client m) Q s w.
Proof. apply client_tree_rg. Qed.

Lemma reading_spec {R} (e : ReadEff R) (Q : ClientState -> Result R thrown -> world -> Prop) s w :
  kept w -> (forall w1 r, rely2 w w1 -> kept w1 -> read_step R e w1 r w1 -> Q s (Ok r) w1) -> vspec (reading e) Q s w.
Proof.
  intros Hb HQ. apply rgs_perform. intros w1 Hr r w2 Hs. assert (w2 = w1) as -> by by destruct e, Hs.
  assert (Hb1 : kept w1) by by apply (later_backed _ _ (proj2 Hr)).
  split; [apply guar_guar2, client_guar_refl|]. split; [done|]. by apply HQ.
Qed.

(** ** Recording a state *)

Lemma changes2_events s s' : changes2 s s' -> events_kept s s'.
Proof.
  intros H d n m Hd Hn Hm. unfold jrow in *. destruct (H caller_journal (jkey d n)) as [Ho|(_ & [_ Hk] & _)]; [|by destruct (Hk d n)].
  destruct Ho as [E|d' n' _ E|q b m1 _ _ _ E|q b m1 m' to _ E Hb]; [by rewrite E|congruence..|].
  destruct (journal_key_not_state d n q b); auto.
Qed.

Lemma changes2_attempts s s' p a m : changes2 s s' -> s caller_journal (state_key p a) = Some m ->
  exists m', s' caller_journal (state_key p a) = Some m' /\ forall n, n <> "phase" -> member n m' = member n m.
Proof.
  intros H Hm. destruct (H caller_journal (state_key p a)) as [Ho|(_ & Hk & _)]; [|by apply (request_not_attempt _ p a) in Hk].
  destruct Ho as [E|d n _ E|q b m1 _ _ _ E|q b m1 m' to _ _ _ E E' _ _ _ Hn]; [exists m; by rewrite E|congruence..|].
  exists m'. rewrite Hm in E. injection E as ->. done.
Qed.

Lemma row_of_inj k c c' : row_of k c = row_of k c' -> c = c'.
Proof.
  destruct c as [s|], c' as [t|]; try done. intros E%(inj Some). f_equal.
  apply (holds_snapshot_inj (toRequestStateItem k s)); [|rewrite E]; apply item_holds.
Qed.

Section recording.
Context (s : ClientState) (k : ItemKey) (request : option string) (terminal : option ProcessingTerminalReason).
Context (c : option RequestStateSnapshot) (attempts : list AccountedAttempt) (q : ProcessingState) (w0 : world).
Hypothesis Hmine : mine (d_instanceId (deps s)).
Hypothesis Hpk : journalPartitionKey (d_scope (deps s)) = pk k.
Hypothesis Hk : request_row k.
Hypothesis Hname : names_request k request.
Hypothesis Hread : store w0 caller_journal k = row_of k c.

Let next := baseOf c attempts q.
Let state_put := put STATE_TABLE (toRequestStateItem k next)
  (Some (match c with None => item_absent | Some s => attribute_equals "version" (SNum (version s)) end)).

Lemma state_put_target : action_target state_put = Some (caller_journal, k).
Proof. by destruct k. Qed.

Lemma state_put_own p : JournalTx.own_journal_put caller_journal (deps s) (stateActions p k c next) (put_entry p).
Proof.
  apply Forall_cons. split; [done|]. apply Forall_singleton. intros n Hn E. fold state_put in E. rewrite state_put_target in E. injection E as E.
  destruct Hk as [_ Hj]. destruct (Hj (deps s) n); auto.
Qed.

(** The version condition holds only of the row that was read. *)
Lemma version_guards w1 : later (store w0) (store w1) -> row_holds (store w1) state_put = true -> store w1 caller_journal k = row_of k c.
Proof.
  intros Hl Hh. pose proof (later_rows _ _ Hl k Hk) as Hr. rewrite Hread in Hr. apply evolves_version in Hr as [<-|Hr]; [done|].
  exfalso. rewrite version_row in Hr. unfold row_holds in Hh. rewrite state_put_target in Hh.
  destruct c as [c'|]; cbn in Hh.
  - destruct (store w1 caller_journal k) as [m|]; [|done]. cbn in Hh, Hr. destruct (member "version" m) as [[| |[z|]| | |]|]; try done.
    apply bool_decide_eq_true in Hh. lia.
  - apply bool_decide_eq_true in Hh. rewrite Hh in Hr. cbn in Hr. lia.
Qed.

Lemma state_recorded p w1 w2 n :
  later (store w0) (store w1) -> kept w1 -> built "request_state_recorded" (state_body next terminal request) (put_entry p) ->
  entry_at (deps s) n (put_entry p) -> jrow caller_journal (deps s) (store w1) n = None ->
  distinct_targets (stateActions p k c next) -> forallb (row_holds (store w1)) (stateActions p k c next) = true ->
  store w2 = apply_all (store w1) (stateActions p k c next) ->
  changes2 (store w1) (store w2) /\ later (store w1) (store w2) /\ store w2 caller_journal k = Some (toRequestStateItem k next).
Proof.
  intros Hl Hb Hbuilt He Hfree Hd Hh E2. pose proof (put_target caller_journal (deps s) n (put_entry p) He) as Hput.
  assert (Hst : row_holds (store w1) state_put = true).
  { rewrite forallb_forall in Hh. apply Hh. right. by left. }
  pose proof (version_guards w1 Hl Hst) as Hrow. assert (Hstep : row_step k (store w1 caller_journal k) (Some (toRequestStateItem k next))) by by exists c, attempts, q.
  assert (Hnew : store w2 caller_journal k = Some (toRequestStateItem k next)).
  { rewrite E2, (JournalTx.apply_all_row _ _ state_put caller_journal k); [done|done|right; left|by apply state_put_target]. }
  assert (Hch : changes2 (store w1) (store w2)).
  { rewrite E2. intros t k'. apply (JournalTx.apply_all_each (fun t k v v' =>
      own_change mine mine requests t k v v' \/ (t = caller_journal /\ request_row k /\ row_step k v v'))); [intros ???; left; by apply change_none|done..|].
    apply Forall_cons; split; [|apply Forall_singleton]; intros t' k2 Ht Hr.
    - unfold STATE_TABLE in Ht. rewrite Hput in Ht. injection Ht as <- <-. left. eapply change_event; [done|exact Hfree|done|apply He|done].
    - fold state_put in Ht. rewrite state_put_target in Ht. injection Ht as <- <-. right. done. }
  split; [done|]. split; [|done].
  assert (Hother : forall k', request_row k' -> k' <> k -> store w2 caller_journal k' = store w1 caller_journal k').
  { intros k' Hk' Hne. rewrite E2. apply JournalTx.apply_all_other. apply Forall_cons; split; [|apply Forall_singleton].
    - unfold STATE_TABLE. rewrite Hput. intros [= E]. destruct Hk' as [_ Hk']. apply (Hk' (deps s) n); [auto|apply He|done].
    - fold state_put. rewrite state_put_target. intros [= E]. by destruct Hne. }
  pose proof (changes2_events _ _ Hch) as Hev. split.
  - intros k' Hk'. destruct (decide (k' = k)) as [->|Hne]; [|by rewrite Hother]. rewrite Hnew. by apply rtc_once.
  - intros p' a m. by apply changes2_attempts.
  - exact Hev.
  - intros _ k' Hk'. destruct (Hb k' Hk') as (bs & q0 & Eb & Hbs).
    assert (Hold : forall m, (0 < m <= length bs)%nat -> exists q, recorded_event k' (state_of (take m bs) q) (store w2)).
    { intros m Hm. destruct (Hbs m Hm) as (q' & _ & Hq). exists q'. by eapply recorded_event_kept. }
    destruct (decide (k' = k)) as [->|Hne].
    + rewrite Hrow in Eb. apply row_of_inj in Eb as ->. exists (bs ++ [attempts]), q. unfold next in *.
      rewrite baseOf_state_of in Hnew, Hbuilt. split; [rewrite Hnew; by destruct bs|]. intros m Hm. rewrite length_app in Hm. cbn [length] in Hm.
      destruct (decide (m = length bs + 1)%nat) as [->|Hm'].
      * exists q. split; [done|]. rewrite firstn_all2 by (rewrite length_app; cbn; lia).
        exists (deps s), n, (put_entry p), terminal, request. split_and!; try done; [auto|apply He|].
        unfold jrow. rewrite E2. rewrite (JournalTx.apply_all_row _ _ (journalPutAction STATE_TABLE (put_entry p)) caller_journal (jkey (deps s) n)); [done|done|by left|done].
      * destruct (Hold m) as [q' Hq]; [lia|]. exists q'. split; [rewrite length_app; cbn; lia|]. by rewrite take_app_le by lia.
    + exists bs, q0. split; [by rewrite Hother|]. intros m Hm. destruct (Hbs m Hm) as (q' & E & Hq). exists q'. split; [done|]. by eapply recorded_event_kept.
Qed.

(** One transaction of the recorder, seen from the reserved put. *)
Lemma transact_spec j p w :
  later (store w0) (store w) -> kept w -> built "request_state_recorded" (state_body next terminal request) (put_entry p) ->
  JournalTx.pending caller_journal (deps s) j p false (store w) ->
  cspec (transact (stateActions p k c next) (eventId (event (put_entry p))))
    (fun s' r w' => s' = set_journal j s /\ later (store w0) (store w') /\ kept w' /\
       match r with
       | Ok out => exists landed cl, JournalTx.pending caller_journal (deps s) j p landed (store w')
           /\ classifyJournalOutcome out (put_entry p) REQUEST_STATE_JOURNAL_ACTION_INDEX = Ok cl /\ class_view cl landed
           /\ (landed = true -> reaches k next (store w' caller_journal k))
       | Err x => exists e, x = other e
       end) (set_journal j s) w.
Proof.
  intros Hl Hb Hbuilt Hp. apply rgs_bind, rgs_perform. intros w1 [Hr Hl1] answer w2 [(out & Ht & Ha) Hc].
  pose proof (JournalTx.pending_stable _ _ _ _ _ _ _ Hp (client_rely_jrely mine _ _ _ Hmine Hr)) as Hp1.
  assert (Hb1 : kept w1) by by apply (later_backed _ _ Hl1). assert (Hl01 : later (store w0) (store w1)) by (by etrans).
  destruct (JournalTx.transact_pending caller_journal (deps s) j p _ 0%nat _ _ _ Hp1 Ht eq_refl (state_put_own p))
    as (landed & cl & Hv & Hp2 & Hcl & Hcv).
  assert (Hch : guar2 w1 w2 /\ kept w2 /\ (landed = true -> store w2 caller_journal k = Some (toRequestStateItem k next))).
  { destruct landed.
    - destruct Hv as (Ew & Hd & Hh). destruct Hp1 as (_ & _ & _ & _ & He & _ & Hfree).
      destruct (state_recorded p w1 w2 _ Hl01 Hb1 Hbuilt He Hfree Hd Hh Ew) as (H1 & H2 & H3).
      split; [split; [done|]; split; [by apply calls_same|done]|]. split; [by apply (later_backed _ _ H2)|done].
    - destruct Hv as [Ew _]. assert (later (store w1) (store w2)) as Hl2 by by rewrite Ew.
      split; [split; [intros t k'; left; rewrite Ew; by apply change_none|]; split; [by apply calls_same|done]|].
      split; [by apply (later_backed _ _ Hl2)|done]. }
  destruct Hch as (Hg & Hb2 & Hrow). split; [done|]. split; [done|].
  assert (Hl02 : later (store w0) (store w2)) by (etrans; [exact Hl01|apply Hg]).
  destruct Ha as [->|[t ->]]; (split; [done|]; split; [done|]; split; [done|]); [|by eexists].
  exists landed, cl. split_and!; try done. intros E. unfold reaches. by rewrite Hrow.
Qed.

(** Reserving a put, first or again. *)
Definition prepared_post (F : PreparedJournalPut -> Prop) : ClientState -> Result (PreparedJournalPut + JournalStopped) thrown -> world -> Prop :=
  fun s' r w' => exists j, s' = set_journal j s /\ writer_ok mine s' w' /\
    match r with Ok (inl p) => reservation j = Some p /\ F p | Ok (inr _) => True | Err x => exists e, x = other e end.

Lemma prepared_spec (m : JournalWriterDeps -> JM (PreparedJournalPut + JournalStopped)) F j w n :
  later (store w0) (store w) -> kept w -> writer_ok mine (set_journal j s) w ->
  rgs (journal_step caller_journal) (jrely caller_journal (deps s)) (jguar caller_journal (deps s)) (dense caller_journal (deps s) n)
    (m (deps s)) (fun j' r w' => jinv caller_journal (deps s) j' w' /\ forall p, r = Ok (inl p) -> reservation j' = Some p /\ F p) j (store w) ->
  cspec (on_journal m) (fun s' r w' => prepared_post F s' r w' /\ later (store w0) (store w') /\ kept w') (set_journal j s) w.
Proof.
  intros Hl Hb Hs H. apply frame_spec; [done..|].
  apply (client_journal_spec mine mine requests home delivered m (fun _ => True) (fun j' r _ => forall p, r = Ok (inl p) -> reservation j' = Some p /\ F p) _ _ _ n);
    [done|by split|done|exact H|].
  intros j' r w' Hs' _ Hq. exists j'. split; [done|]. split; [done|]. destruct r as [[p|x]|x]; cbn; [by apply Hq|done|by eexists].
Qed.

(** What recording the next state leaves. *)
Definition record_post : ClientState -> Result RequestStateRecordResult thrown -> world -> Prop :=
  fun s' r w' => exists j, s' = set_journal j s /\ later (store w0) (store w') /\ kept w' /\
    match r with
    | Ok (recorded e st) => st = next /\ writer_ok mine s' w' /\ reaches k next (store w' caller_journal k)
        /\ stored caller_journal (deps s) "request_state_recorded" (state_body next terminal request) e (store w')
    | Ok unchanged => False
    | Ok (not_recorded_state _) => writer_ok mine s' w'
    | Err x => exists e, x = other e
    end.

Lemma record_loop_spec retries retry prepared j w :
  later (store w0) (store w) -> kept w -> writer_ok mine (set_journal j s) w ->
  (forall p, prepared = inl p -> reservation j = Some p /\ built "request_state_recorded" (state_body next terminal request) (put_entry p)) ->
  cspec (record_loop retries retry k c (MkPlanned next (state_body next terminal request)) prepared) record_post (set_journal j s) w.
Proof.
  revert retry prepared j w. induction retries as [|m IH]; intros retry prepared j w Hl Hb Hs Hres; cbn [record_loop].
  all: destruct prepared as [p|x]; [|by exists j].
  all: destruct (Hres p eq_refl) as [Hp Hbuilt].
  all: apply rgs_bind; (eapply rgs_mono; [|apply (transact_spec j p w Hl Hb Hbuilt), JournalTx.reserved_pending; [apply Hs|done]]).
  all: intros s1 [out|x] w1 (-> & Hl1 & Hb1 & H1); [|by exists j]; destruct H1 as (landed & cl & Hpend & Hcl & Hcv & Hreach).
  all: destruct (JournalTx.confirm_pending _ _ _ _ _ _ _ _ _ Hpend Hcl Hcv) as (j2 & r & E & Hj2 & Hr).
  all: pose proof (JournalTx.confirm_event _ _ _ _ _ _ E) as Hev; apply rgs_bind.
  all: unfold rgs at 1, journal_confirm, on_journal; cbn [set_journal journal deps]; rewrite E; cbn [lift pbind rg fst snd].
  all: assert (Hs2 : writer_ok mine (set_journal j2 s) w1) by by split.
  all: destruct r as [[e|x]|e o]; cbn in Hr, Hev |- *.
  1,4: subst landed e; exists j2; split; [done|]; split; [done|]; split; [done|]; split; [done|]; split; [done|]; split; [auto|];
       by eapply JournalTx.pending_stored.
  1,3: by exists j2.
  1: by destruct o; exists j2.
  destruct o as [|i ex|code|code]; try (by exists j2).
  apply rgs_bind. eapply rgs_mono; [|apply (prepared_spec (fun _ => prepareRetry p) (fun p' => p' = p) j2 w1 (nextSequence j2)); [done..|]].
  - intros s' r w' ((j' & -> & Hs' & Hq) & Hl' & Hb'). destruct r as [nx|x]; [|by exists j'].
    apply IH; [done|done|done|]. intros p' ->. destruct Hq as [Hq ->]. by split.
  - eapply rgs_mono; [|by apply JournalTx.retry_reserves]. intros j' r w' [Hj' Hq]. split; [done|]. intros p' E'. by destruct (Hq p' E') as [-> ?].
Qed.

Lemma record_spec maxRetries causation w :
  later (store w0) (store w) -> kept w -> writer_ok mine s w ->
  cspec (record maxRetries k c (MkPlanned next (state_body next terminal request)) causation) record_post s w.
Proof.
  intros Hl Hb Hs. unfold record. cbn [body]. apply rgs_bind.
  eapply rgs_mono; [|apply (prepared_spec (fun d => prepare d "request_state_recorded" (state_body next terminal request) causation)
    (fun p => built "request_state_recorded" (state_body next terminal request) (put_entry p)) (journal s) w (nextSequence (journal s)));
    [done|done|by destruct s|apply JournalTx.prepare_reserves, Hs]].
  intros s' r w' ((j' & -> & Hs' & Hq) & Hl' & Hb'). destruct r as [prepared|x]; [|by exists j'].
  apply record_loop_spec; [done..|]. by intros p ->.
Qed.
End recording.

(** ** The operations *)

(** The recorded state is the next one after a state that the row had reached since [w], it is
    in the row or was succeeded there, and its event is stored. *)
Definition recorded_view (s : ClientState) (k : ItemKey) (request : option string) (terminal : option ProcessingTerminalReason)
    (attempts : list AccountedAttempt) (q : ProcessingState) (w : world) (e : JournalEvent) (st : RequestStateSnapshot) (w' : world) : Prop :=
  exists batches p, rtc (row_step k) (store w caller_journal k) (row_of k (current_of batches p))
    /\ st = state_of (batches ++ [attempts]) q /\ reaches k st (store w' caller_journal k)
    /\ stored caller_journal (deps s) "request_state_recorded" (state_body st terminal request) e (store w').

Definition op_post (s : ClientState) (w : world) (V : JournalEvent -> RequestStateSnapshot -> world -> Prop) (U : world -> Prop) :
  ClientState -> Result (option RequestStateRecordResult) thrown -> world -> Prop :=
  fun s' r w' => exists j, s' = set_journal j s /\ later (store w) (store w') /\ kept w' /\
    match r with
    | Ok (Some (recorded e st)) => writer_ok mine s' w' /\ V e st w'
    | Ok (Some unchanged) => writer_ok mine s' w' /\ U w'
    | Ok _ => writer_ok mine s' w'
    | Err x => exists e, x = other e
    end.

Definition option_result {A X} (r : Result A X) : Result (option A) X := match r with Ok a => Ok (Some a) | Err x => Err x end.

Lemma readState_spec k s w :
  kept w -> writer_ok mine s w -> request_row k ->
  vspec (readState k) (fun s' r w' => s' = s /\ kept w' /\ writer_ok mine s w' /\ later (store w) (store w') /\
    match r with
    | Ok (Ok c) => store w' caller_journal k = row_of k c /\ exists batches p, c = current_of batches p
    | Ok (Err _) => True
    | Err _ => False
    end) s w.
Proof.
  intros Hb Hs Hk. apply rgs_bind, reading_spec; [done|]. intros w1 r [Hr Hl] Hb1 [_ Hread]. unfold rgs. cbn [se_ret rg fst snd].
  split; [done|]. split; [done|]. split; [by eapply client_writer_stable|]. split; [done|].
  destruct Hread as [->|[code ->]]; [|done]. destruct (Hb1 k Hk) as (bs & p & E & _). unfold read_state, STATE_TABLE. rewrite E.
  destruct (current_of bs p) as [st|] eqn:Ec; cbn [row_of option_map]; [|split; [done|by exists [], p]].
  destruct (parseRequestStateItem _) as [st'|] eqn:Ep; [|done].
  apply parse_state_iff in Ep as [_ Hh]. pose proof (holds_snapshot_inj _ _ _ Hh (item_holds k st)) as ->. split; [done|]. by exists bs, p.
Qed.

(** Recording after a read. *)
Lemma record_after_read k request terminal c attempts q maxRetries causation s w w1 w2 :
  kept w2 -> writer_ok mine s w2 -> request_row k -> names_request k request -> journalPartitionKey (d_scope (deps s)) = pk k ->
  later (store w) (store w1) -> later (store w1) (store w2) -> store w1 caller_journal k = row_of k c ->
  (exists batches p, c = current_of batches p) ->
  vspec (on_client (record maxRetries k c (MkPlanned (baseOf c attempts q) (state_body (baseOf c attempts q) terminal request)) causation))
    (fun s' r w' => op_post s w (fun e st w' => st = baseOf c attempts q /\ recorded_view s k request terminal attempts q w e st w') (fun _ => False)
       s' (option_result r) w') s w2.
Proof.
  intros Hb Hs Hk Hn Hpk Hl Hl2 Hrow (bs & p & ->). apply on_client_spec.
  eapply rgs_mono; [|apply (record_spec s k request terminal (current_of bs p) attempts q w1 (proj1 Hs) Hpk Hk Hn Hrow maxRetries causation w2 Hl2 Hb Hs)].
  intros s' r w' (j & -> & Hl' & Hb' & H). exists j. split; [done|]. split; [by etrans|]. split; [done|].
  destruct r as [[e st| |f]|x]; [|done..]. destruct H as (-> & Hs' & Hr & Hst). split; [done|]. split; [done|]. exists bs, p. rewrite baseOf_state_of in *.
  split_and!; try done. rewrite <-Hrow. by apply (later_rows _ _ Hl).
Qed.

Lemma op_post_mono s w (V V' : JournalEvent -> RequestStateSnapshot -> world -> Prop) U s' r w' :
  (forall e st w', V e st w' -> V' e st w') -> op_post s w V (fun _ => False) s' r w' -> op_post s w V' U s' r w'.
Proof.
  intros HV (j & -> & H1 & H2 & H3). exists j. split; [done|]. split; [done|]. split; [done|].
  destruct r as [[[e st| |f]|]|x]; try done; [|by destruct H3]. destruct H3. auto.
Qed.

(** A row of an attempt of the request, in any phase. *)
Definition attempt_members (a request : string) (m : StoredItem) : Prop :=
  member "sk" m = Some (JStr (attemptStateSortKey a)) /\ member "attempt_id" m = Some (JStr a)
  /\ member "refund_request_id" m = Some (JStr request).
Definition attempt_row (p a request : string) (t : tables) : Prop :=
  exists m, t caller_journal (state_key p a) = Some m /\ attempt_members a request m.

(** An operation of the recorder. *)
Inductive recorder_op :=
| op_attempt (request : string) (attempt : AccountedAttempt) (processing : ProcessingUpdate) (causation : list string)
| op_reconcile (request : string) (causation : list string)
| op_rejected (request : option string) (message_id : string) (causation : list string).

Definition some_result {A} (m : VM A) : VM (option A) := se_bind m (fun a => se_ret (Some a)).

Definition op_program (scope : JournalScope) (maxRetries : Z) (pages : nat) (op : recorder_op) : VM (option RequestStateRecordResult) :=
  match op with
  | op_attempt r a p ca => some_result (recordAttemptResult scope maxRetries r a p ca)
  | op_reconcile r ca => reconcileOrphans scope maxRetries pages r ca
  | op_rejected r m ca => some_result (recordMessageRejected scope maxRetries r m ca)
  end.

Definition op_key (scope : JournalScope) (op : recorder_op) : ItemKey :=
  match op with
  | op_attempt r _ _ _ | op_reconcile r _ => requestStateKey (partitionKey scope) r
  | op_rejected None m _ => rejectedMessageStateKey (partitionKey scope) m
  | op_rejected (Some r) _ _ => requestStateKey (partitionKey scope) r
  end.

Definition op_view (scope : JournalScope) (s : ClientState) (w : world) (op : recorder_op) (e : JournalEvent) (st : RequestStateSnapshot) (w' : world) : Prop :=
  let k := op_key scope op in
  match op with
  | op_attempt r a p _ =>
      recorded_view s k (Some r) (match p with pu_running => None | pu_finished t => Some t end) [a] (update_state p) w e st w'
  | op_reconcile r _ => exists orphans, recorded_view s k (Some r) None orphans RUNNING w e st w'
      /\ forall a, isUuid4 a = true -> attempt_row (partitionKey scope) a r (store w) -> a ∈ attempt_ids st
  | op_rejected r _ _ => recorded_view s k r (Some t_message_rejected) [] FINISHED w e st w'
  end.

Definition op_unchanged (scope : JournalScope) (w : world) (op : recorder_op) (w' : world) : Prop :=
  match op with
  | op_reconcile r _ => forall a, isUuid4 a = true -> attempt_row (partitionKey scope) a r (store w) ->
      exists st, reaches (op_key scope op) st (store w' caller_journal (op_key scope op)) /\ a ∈ attempt_ids st
  | _ => False
  end.

Section operations.
Context (scope : JournalScope) (maxRetries : Z) (pages : nat) (s : ClientState) (w : world).
Hypothesis Hscope : d_scope (deps s) = scope.
Hypothesis Hs : writer_ok mine s w.
Hypothesis Hb : kept w.

Lemma some_result_spec {A} (m : VM A) (Q : ClientState -> Result (option A) thrown -> world -> Prop) s0 w' :
  vspec m (fun s' r w2 => Q s' (option_result r) w2) s0 w' -> vspec (some_result m) Q s0 w'.
Proof. intros H. apply rgs_bind. eapply rgs_mono; [|exact H]. by intros s' [a|x] w2 HQ. Qed.

Lemma failed_post V U f w1 : later (store w) (store w1) -> kept w1 -> writer_ok mine s w1 ->
  op_post s w V U s (Ok (Some (not_recorded_state f))) w1.
Proof. intros H1 H2 H3. exists (journal s). rewrite <-set_journal_same. done. Qed.

Lemma pk_of_scope k : pk k = journalPartitionKey scope -> journalPartitionKey (d_scope (deps s)) = pk k.
Proof. intros ->. by rewrite Hscope. Qed.

Lemma recordAttemptResult_spec request attempt processing causation :
  let k := requestStateKey (partitionKey scope) request in request_row k ->
  vspec (recordAttemptResult scope maxRetries request attempt processing causation)
    (fun s' r w' => op_post s w (recorded_view s k (Some request) (match processing with pu_running => None | pu_finished t => Some t end) [attempt]
       (update_state processing) w) (fun _ => False) s' (option_result r) w') s w.
Proof.
  intros k Hk. apply rgs_bind. eapply rgs_mono; [|by apply readState_spec].
  intros s1 [[c|f]|x] w1 (-> & Hb1 & Hs1 & Hl1 & H); [|by apply failed_post|done]. destruct H as [Hrow Hc]. unfold planState.
  eapply rgs_mono; [|by eapply (record_after_read _ _ _ _ _ _ _ _ s w w1 w1); [..|by apply pk_of_scope| | | |]].
  intros s' r w'. apply op_post_mono. by intros e st w3 [_ ?].
Qed.

Lemma recordMessageRejected_spec request message_id causation :
  let k := match request with None => rejectedMessageStateKey (partitionKey scope) message_id | Some r => requestStateKey (partitionKey scope) r end in
  request_row k ->
  vspec (recordMessageRejected scope maxRetries request message_id causation)
    (fun s' r w' => op_post s w (recorded_view s k request (Some t_message_rejected) [] FINISHED w) (fun _ => False) s' (option_result r) w') s w.
Proof.
  intros k Hk. apply rgs_bind. eapply rgs_mono; [|by apply readState_spec].
  intros s1 [[c|f]|x] w1 (-> & Hb1 & Hs1 & Hl1 & H); [|by apply failed_post|done]. destruct H as [Hrow Hc].
  assert (names_request k request) by (destruct request; [done|by exists message_id]). eapply rgs_mono; [|by eapply (record_after_read _ _ _ _ _ _ _ _ s w w1 w1); [..|apply pk_of_scope; destruct request| | | |]].
  intros s' r w'. apply op_post_mono. by intros e st w3 [_ ?].
Qed.

(** *** Orphans *)

Lemma attempt_row_later p a request t t' : later t t' -> attempt_row p a request t -> attempt_row p a request t'.
Proof.
  intros Hl (m & Hm & H1 & H2 & H3). destruct (later_attempts _ _ Hl _ _ _ Hm) as (m' & Hm' & E). exists m'. split; [done|].
  by split_and!; rewrite E.
Qed.

Lemma prefix_app p t : String.prefix p (p +:+ t) = true.
Proof. induction p as [|c p IH]; [by destruct t|]. change (String c p +:+ t) with (String c (p +:+ t)). cbn [String.prefix]. destruct (Ascii.ascii_dec c c); [apply IH|done]. Qed.

Lemma mapR_each {A B E} (f : A -> Result B E) l bs x : mapR f l = Ok bs -> x ∈ l -> exists b, b ∈ bs /\ f x = Ok b.
Proof.
  revert bs. induction l as [|y l IH]; intros bs H Hx; [by apply elem_of_nil in Hx|]. cbn [mapR] in H.
  destruct (f y) as [b|] eqn:Ey; [|done]. cbn [bind_result] in H. destruct (mapR f l) as [r|]; [|done]. cbn in H. injection H as <-.
  apply elem_of_cons in Hx as [->|Hx]; [exists b; split; [left|done]|]. destruct (IH r eq_refl Hx) as (b' & Hb' & E'). exists b'. split; [by right|done].
Qed.

Lemma orphans_found items request acc orphans a m :
  findOrphanAttempts items request acc = Ok orphans -> m ∈ items -> attempt_members a request m -> isUuid4 a = true ->
  a ∈ acc \/ a ∈ map aa_attempt_id orphans.
Proof.
  unfold findOrphanAttempts. intros H Hm (H1 & H2 & H3) Hu. destruct (mapR parseAttemptStateItem _) as [states|] eqn:E; [|done].
  cbn in H. injection H as <-.
  destruct (mapR_each _ _ _ m E) as (st & Hst & Ep).
  { apply list_elem_of_In, filter_In. split; [by apply list_elem_of_In|]. unfold item_sk. rewrite (text_at_str _ _ _ H1). apply prefix_app. }
  unfold parseAttemptStateItem in Ep. rewrite H2, H3 in Ep. rewrite (proj2 (uuid4_text_iff _ a)) in Ep by done. cbn [as_string] in Ep.
  destruct (ControlItems.isOneOf _ _ _) as [ph|]; [|done]. injection Ep as <-.
  destruct (decide (a ∈ acc)) as [Hin|Hin]; [by left|]. right. rewrite map_map. apply list_elem_of_In, in_map_iff. exists (MkStateItem a request ph).
  split; [done|]. apply filter_In. split; [by apply list_elem_of_In|]. cbn. rewrite bool_decide_eq_true_2 by done. cbn.
  apply negb_true_iff. destruct (memb a acc) eqn:Em; [|done]. by apply memb_true in Em.
Qed.

(** The pages hold every attempt row there was when the reading began. *)
Lemma items_spec request n cursor items t w1 :
  later t (store w1) -> kept w1 -> writer_ok mine s w1 ->
  (forall a, attempt_row (partitionKey scope) a request t ->
     (exists m, m ∈ items /\ attempt_members a request m)
     \/ match cursor with Some c => continues c (attemptStateSortKey a) | None => True end) ->
  vspec (items_loop scope n cursor items) (fun s' r w' => s' = s /\ kept w' /\ writer_ok mine s w' /\ later (store w1) (store w') /\
    match r with
    | Ok (Some (Ok items')) => forall a, attempt_row (partitionKey scope) a request t -> exists m, m ∈ items' /\ attempt_members a request m
    | Ok _ => True
    | Err _ => False
    end) s w1.
Proof.
  revert cursor items w1. induction n as [|n IH]; intros cursor items w1 Hl Hk1 Hs1 Hinv; cbn [items_loop]; [done|].
  apply rgs_bind, reading_spec; [done|]. intros w2 r [Hr Hl2] Hk2 [_ Hpage]. pose proof (client_writer_stable mine _ _ _ Hs1 Hr) as Hs2.
  destruct r as [page|code]; [|done]. destruct Hpage as [Hcover _].
  assert (Hnext : forall a, attempt_row (partitionKey scope) a request t ->
     (exists m, m ∈ items ++ page_items page /\ attempt_members a request m)
     \/ exists c', next_cursor page = Some c' /\ continues c' (attemptStateSortKey a)).
  { intros a Ha. destruct (Hinv a Ha) as [(m & Hm & Hf)|Hc]; [left; exists m; split; [apply elem_of_app; by left|done]|].
    assert (Hl12 : later t (store w2)) by (by etrans). destruct (attempt_row_later _ _ _ _ _ Hl12 Ha) as (m & Hm & Hf).
    destruct (Hcover _ _ Hm Hc) as [Hin|Hin]; [left; exists m; split; [apply elem_of_app; by right|done]|by right]. }
  destruct (next_cursor page) as [c|] eqn:Ec.
  - eapply rgs_mono; [|apply IH; [by etrans|done|done|]].
    + intros s' r w' (-> & H1 & H2 & H3 & H4). split; [done|]. split; [done|]. split; [done|]. split; [by etrans|done].
    + intros a Ha. destruct (Hnext a Ha) as [?|(c' & [= <-] & ?)]; [by left|by right].
  - unfold rgs. cbn [se_ret rg fst snd]. split_and!; try done. intros a Ha. destruct (Hnext a Ha) as [?|(c' & ? & _)]; [done|congruence].
Qed.

Lemma reconcile_spec request causation :
  let k := requestStateKey (partitionKey scope) request in request_row k ->
  vspec (reconcileOrphans scope maxRetries pages request causation)
    (op_post s w (fun e st w' => exists orphans, recorded_view s k (Some request) None orphans RUNNING w e st w'
         /\ forall a, isUuid4 a = true -> attempt_row (partitionKey scope) a request (store w) -> a ∈ attempt_ids st)
       (fun w' => forall a, isUuid4 a = true -> attempt_row (partitionKey scope) a request (store w) ->
         exists st, reaches k st (store w' caller_journal k) /\ a ∈ attempt_ids st)) s w.
Proof.
  intros k Hk. apply rgs_bind. eapply rgs_mono; [|by apply readState_spec].
  intros s1 [[c|f]|x] w1 (-> & Hb1 & Hs1 & Hl1 & H); [|by apply failed_post|done]. destruct H as [Hrow Hc].
  apply rgs_bind. eapply rgs_mono; [|apply (items_spec request pages None [] (store w) w1); [done..|by right]].
  intros s2 r w2 (-> & Hb2 & Hs2 & Hl2 & Hitems). assert (Hl02 : later (store w) (store w2)) by (by etrans).
  destruct r as [[[items|f]|]|x]; [|by apply failed_post|by exists (journal s); rewrite <-set_journal_same|done].
  destruct (findOrphanAttempts items request (attempts_of c)) as [orphans|e] eqn:Eo; [|by apply failed_post].
  assert (Hall : forall a, isUuid4 a = true -> attempt_row (partitionKey scope) a request (store w) ->
    a ∈ attempts_of c \/ a ∈ map aa_attempt_id orphans).
  { intros a Hu Ha. destruct (Hitems a Ha) as (m & Hm & Hf). by eapply orphans_found. }
  assert (Hrec : vspec (some_result (on_client (record maxRetries k c (planState c orphans pu_running request) causation)))
    (op_post s w (fun e st w' => exists orphans, recorded_view s k (Some request) None orphans RUNNING w e st w'
         /\ forall a, isUuid4 a = true -> attempt_row (partitionKey scope) a request (store w) -> a ∈ attempt_ids st)
       (fun w' => forall a, isUuid4 a = true -> attempt_row (partitionKey scope) a request (store w) ->
         exists st, reaches k st (store w' caller_journal k) /\ a ∈ attempt_ids st)) s w2).
  { apply some_result_spec. eapply rgs_mono; [|apply (record_after_read k (Some request) None c orphans RUNNING maxRetries causation s w w1 w2);
      [done|done|done|done|by apply pk_of_scope|done|done|done|done]].
    intros s' r w'. apply op_post_mono. intros e st w3 [-> H]. exists orphans. split; [exact H|].
    intros a Hu Ha. cbn. apply elem_of_app. by apply Hall. }
  destruct orphans as [|o os]; [|exact Hrec].
  exists (journal s). rewrite <-set_journal_same. split; [done|]. split; [done|]. split; [done|]. split; [done|]. intros a Hu Ha.
  destruct (Hall a Hu Ha) as [Hin|Hin%elem_of_nil]; [|done]. destruct c as [st|]; [|by apply elem_of_nil in Hin]. exists st. split; [|done].
  apply (reaches_later _ _ (store w1) (store w2)); [done|done|]. change (store w1 caller_journal k = row_of k (Some st)) in Hrow. rewrite Hrow. apply rtc_refl.
Qed.

(** *** Any of them *)

Lemma recorder_op_spec op : request_row (op_key scope op) ->
  vspec (op_program scope maxRetries pages op) (op_post s w (op_view scope s w op) (op_unchanged scope w op)) s w.
Proof.
  intros Hk. destruct op as [request attempt processing causation|request causation|request message_id causation].
  - apply some_result_spec. eapply rgs_mono; [|by apply recordAttemptResult_spec]. intros s' r w'. by apply op_post_mono.
  - by apply reconcile_spec.
  - apply some_result_spec. eapply rgs_mono; [|by apply recordMessageRejected_spec]. intros s' r w'. by apply op_post_mono.
Qed.
End operations.
End recorder.

(** ** Recorders beside each other *)

Lemma guar2_rely2 (mine others requests : string -> Prop) home w w' :
  (forall x, mine x -> others x -> False) -> (forall x, mine x \/ others x -> isUuid4 x = true) ->
  guar2 mine requests home w w' -> rely2 others w w'.
Proof.
  intros Hdis Hu (Hch & Hc & Hl). split; [|done].
  split.
  - intros d k Hd Hk. unfold jrow. destruct (Hch caller_journal (jkey d k)) as [Ho|(_ & [_ Hr] & _)]; [|destruct (Hr d k); auto].
    destruct Ho as [E|d' n _ E Hd' Hn Hkey|p a m _ Hkey Ha|p a m m' to _ Hkey Ha]; [done| | |].
    + destruct (Hdis (d_instanceId d')); [done|]. rewrite <-(jkey_instances d d' k n); auto.
    + destruct (journal_key_not_state d k p a); auto.
    + destruct (journal_key_not_state d k p a); auto.
  - intros p a Ho. destruct (Hch caller_journal (state_key p a)) as [Hown|(_ & Hr & _)]; [|by apply (request_not_attempt _ p a) in Hr].
    destruct Hown as [E|d' n _ E Hd' Hn Hkey|q b m _ Hkey Hb|q b m m' to _ Hkey Hb]; [done| | |].
    + symmetry in Hkey. destruct (journal_key_not_state d' n p a); auto.
    + apply state_key_inj in Hkey as <-. by destruct (Hdis a).
    + apply state_key_inj in Hkey as <-. by destruct (Hdis a).
  - destruct Hc as [E|c a E Hid Ha Hp]; [exists []; by rewrite E, app_nil_r|].
    exists [(c, store w)]. split; [done|]. apply Forall_singleton. intros (b & Hb & Ho). cbn in Hb. rewrite Hid in Hb. injection Hb as <-.
    by apply (Hdis a).
Qed.

(** ** Theorems *)

(** C8: Request states are the recorded history of their request. Run any operation of the recorder beside other parties that
    leave this invocation's rows alone and change request states only by next versions, over a store that may refuse, fail,
    throw or answer ambiguously. Then every state row stays backed: it is the state after some batches of attempts, with
    their knowledge folded and their ids in order, and an event records each of its versions from 1 on. A state reported as
    recorded is the next one after a state the row reached since the operation began, holds exactly the attempts the
    operation adds, is in the row or was succeeded there, and its event is stored. Each effect is one that recorders with
    other identities tolerate, so any number of them run in any interleaving. *)
Theorem request_states_are_recorded_history (mine others requests : string -> Prop) home delivered continues scope maxRetries pages op s0 w0 steps s r w :
  (forall x, mine x -> others x -> False) -> (forall x, mine x \/ others x -> isUuid4 x = true) ->
  d_scope (deps s0) = scope -> writer_ok mine s0 w0 -> backed (store w0) -> request_row (op_key scope op) ->
  iexec (variant_step mine delivered continues) (rely2 mine) (op_program scope maxRetries pages op s0) w0 steps (s, r) w ->
  backed (store w) /\ Forall (fun p => guar2 mine requests home p.1 p.2 /\ rely2 others p.1 p.2) steps
  /\ forall e st, r = Ok (Some (recorded e st)) -> op_view scope s0 w0 op e st w.
Proof.
  intros Hdis Huuid Hscope Hs Hb Hk Hx. assert (Hu : forall x, mine x -> isUuid4 x = true) by auto.
  destruct (rg_iexec _ _ _ _ _ _ _ _ _ _ (recorder_op_spec mine requests home delivered continues Hu scope maxRetries pages s0 w0 Hscope Hs Hb op Hk) Hx)
    as [(j & _ & _ & Hb' & Hr) HF].
  split; [done|]. split; [|intros e st ->; apply Hr].
  eapply Forall_impl; [exact HF|]. intros [w1 w2] Hg. split; [done|]. cbn in *. by eapply guar2_rely2.
Qed.

(** C26: No attempt is forgotten. Whatever other parties do meanwhile, when the orphan reconciliation of a request ends without
    a refusal, every attempt of the request whose row was in the partition when it began is accounted for: its id is in a
    state that the request's row holds, or that it held and succeeded. The pages may split the partition anywhere, as long
    as each one covers the rows up to its cursor. *)
Theorem reconciliation_accounts_for_every_attempt (mine : string -> Prop) delivered continues scope maxRetries pages request causation s0 w0 steps s r w a :
  (forall x, mine x -> isUuid4 x = true) -> d_scope (deps s0) = scope -> writer_ok mine s0 w0 -> backed (store w0) ->
  request_row (requestStateKey (partitionKey scope) request) ->
  iexec (variant_step mine delivered continues) (rely2 mine) (reconcileOrphans scope maxRetries pages request causation s0) w0 steps (s, Ok (Some r)) w ->
  (forall f, r <> not_recorded_state f) -> isUuid4 a = true -> attempt_row (partitionKey scope) a request (store w0) ->
  exists st, reaches (requestStateKey (partitionKey scope) request) st (store w caller_journal (requestStateKey (partitionKey scope) request))
    /\ a ∈ attempt_ids st.
Proof.
  intros Hu Hscope Hs Hb Hk Hx Hr Ha Hrow.
  destruct (rg_iexec _ _ _ _ _ _ _ _ _ _ (reconcile_spec mine (fun _ => True) "" delivered continues Hu scope maxRetries pages s0 w0 Hscope Hs Hb request causation Hk) Hx)
    as [(j & _ & _ & _ & H) _]. cbn in H. destruct r as [e st| |f]; [|by apply H|by destruct (Hr f)].
  destruct H as [_ (orphans & (bs & p & _ & _ & Hreach & _) & Hall)]. exists st. split; [done|]. by apply Hall.
Qed.

(** ** A run *)

(** A handler that answers only worlds of an invariant. *)
Lemma run_iexec_inv {E : Type -> Type} {W A} (estep : forall R, E R -> W -> R -> W -> Prop) (rely : W -> W -> Prop) (Inv : W -> Prop)
    (h : forall R, E R -> W -> R * W) (p : proc E A) w :
  (forall w, rely w w) -> (forall R (e : E R) w, Inv w -> estep R e w (h R e w).1 (h R e w).2 /\ Inv (h R e w).2) -> Inv w ->
  exists steps, iexec estep rely p w steps (run h p w).1 (run h p w).2.
Proof.
  intros Hr Hh. revert w. induction p as [a|R e k IH]; intros w Hi; simpl; [by exists []|].
  destruct (Hh R e w Hi) as [Hs Hi']. destruct (h R e w) as [r w'] eqn:Eh. cbn in Hs, Hi'.
  destruct (IH r w' Hi') as [steps Hx]. exists ((w, w') :: steps). by eauto 10.
Qed.

Lemma journal_key_long d n : isUuid4 (d_instanceId d) = true -> (36 <= String.length (sk (jkey d n)))%nat.
Proof.
  intros [Hl _]%andb_prop. apply Nat.eqb_eq in Hl. cbn. unfold sort_key. rewrite <-length_chars, !chars_app, !length_app, !length_chars, Hl. lia.
Qed.

Lemma short_request_row p r : (String.length (REQUEST_STATE_SK_PREFIX +:+ r) < 36)%nat -> request_row (requestStateKey p r).
Proof.
  intros Hl. split; [by exists (Some r)|]. intros d n Hu _ E. pose proof (journal_key_long d n Hu) as H. rewrite E in H. cbn [requestStateKey sk] in H. lia.
Qed.

Section demo.
Let part : string := journalPartitionKey ExchangeCorrect.demo_scope.
Definition demo_orphan : string := "3f1c2a9e-8b4d-4c1e-9f00-000000000000".
(** The keys the demonstration's tables take. *)
Definition demo_sks : list string :=
  [attemptStateSortKey demo_orphan; REQUEST_STATE_SK_PREFIX +:+ "ref-poc-001"; sort_key "conventional" demo_id 1].

Definition listed (sks : list string) (a : WriteAction) : bool :=
  match action_target a with
  | Some (t, k) => bool_decide (t = caller_journal) && bool_decide (pk k = part) && memb (sk k) sks
  | None => false
  end.

(** The calm store, refusing writes elsewhere; a partition is one page. *)
Definition calm2 (sks : list string) (R : Type) (e : VariantEff R) : world -> R * world :=
  match e with
  | inl c => fun w =>
      let allowed := match c with
        | inl (PortAppend entry) => listed sks (createDurableJournalPort caller_journal entry)
        | inr (TransactWrite actions _) => forallb (listed sks) actions
        | _ => true
        end in
      if allowed then calm R c w else
      match c with
      | inl j => match j in JournalEff R return R * world with
                 | PortAppend _ => (Err (ForeignError "AccessDenied"), w)
                 | ClockNow => (None, w)
                 | NextId => ("", w)
                 | CallerTransact _ _ => (definitive_failure "AccessDenied", w)
                 end
      | inr o => match o in CallerEff R return R * world with
                 | TransactWrite _ _ => (Ok (definitive_failure "AccessDenied"), w)
                 | x => calm _ (inr x) w
                 end
      end
  | inr r =>
      match r in ReadEff R return world -> R * world with
      | GetItem t k => fun w => (Ok (store w t k), w)
      | QueryPartitionPage t p c => fun w =>
          if bool_decide (t = caller_journal) && bool_decide (p = part) && bool_decide (c = None)
          then (Ok (MkPage (omap (fun s => store w t (MkKey p s)) sks) None), w) else (Err "AccessDenied", w)
      end
  end.

Definition only_listed (sks : list string) (w : world) : Prop := forall s m, store w caller_journal (MkKey part s) = Some m -> s ∈ sks.

Lemma listed_row sks w w' actions : only_listed sks w -> forallb (listed sks) actions = true -> store w' = apply_all (store w) actions -> only_listed sks w'.
Proof.
  intros Hi Hl E s m Hm. rewrite E in Hm. destruct (decide (s ∈ sks)) as [|Hn]; [done|]. exfalso.
  rewrite JournalTx.apply_all_other in Hm; [by apply Hn, (Hi s m)|]. apply Forall_forall. intros a Ha Et.
  rewrite forallb_forall in Hl. specialize (Hl a (proj1 (list_elem_of_In _ _) Ha)). unfold listed in Hl. rewrite Et in Hl. cbn [sk pk] in Hl.
  apply andb_prop in Hl as [_ Hl]. by apply memb_true in Hl.
Qed.

Lemma calm2_step sks R (e : VariantEff R) w : only_listed sks w ->
  variant_step demo_mine demo_delivered (fun _ _ => False) R e w (calm2 sks R e w).1 (calm2 sks R e w).2 /\ only_listed sks (calm2 sks R e w).2.
Proof.
  intros Hi. destruct e as [[j|o]|r].
  - pose proof (client_calm_step R (inl j) w) as H. destruct j as [entry| | |entry index]; try (split; [exact H|done]). cbn [calm2].
    destruct (listed sks (createDurableJournalPort caller_journal entry)) eqn:El; [|by split; [split; [constructor|]|]].
    split; [exact H|]. cbn [calm snd fst]. destruct (row_holds (store w) _) eqn:Eh; [|done]. cbn [snd].
    apply (listed_row sks w _ [createDurableJournalPort caller_journal entry]); [done|cbn [forallb]; by rewrite El|done].
  - pose proof (client_calm_step R (inr o) w) as H. destruct o as [actions token| | | |ms| |c| |]; try (split; [exact H|done]). cbn [calm2].
    destruct (forallb (listed sks) actions) eqn:El.
    + split; [exact H|]. cbn [calm snd fst]. destruct (bool_decide _ && forallb _ _); [|done]. by eapply listed_row.
    + split; [|done]. split; [|done]. exists (definitive_failure "AccessDenied"). split; [constructor|by left].
  - destruct r as [t k|t p c]; cbn [calm2]; [split; [split; [done|by left]|done]|].
    destruct (bool_decide (t = caller_journal) && bool_decide (p = part) && bool_decide (c = None)) eqn:Eb; [|by split].
    apply andb_prop in Eb as [Eb ->%bool_decide_eq_true]. apply andb_prop in Eb as [->%bool_decide_eq_true ->%bool_decide_eq_true].
    cbn [fst snd]. split; [|done]. split; [done|]. cbn [page_items next_cursor]. split.
    + intros s m Hm _. left. apply list_elem_of_omap. exists s. split; [by eapply Hi|done].
    + apply Forall_forall. intros m (s & _ & Hs)%list_elem_of_omap. by exists s.
Qed.

(** An earlier invocation dispatched an attempt and was lost before its state was recorded. *)
Definition orphan_row : StoredItem :=
  [("pk", JStr part); ("sk", JStr (attemptStateSortKey demo_orphan)); ("attempt_id", JStr demo_orphan);
   ("provider_request_id", JStr demo_orphan); ("refund_request_id", JStr "ref-poc-001"); ("phase", JStr "DISPATCHED")].
Definition orphan_world : world :=
  MkWorld (fun t k => if bool_decide (t = caller_journal) && bool_decide (k = state_key part demo_orphan) then Some orphan_row else None) [].
Definition demo_reconcile := run (calm2 demo_sks) (reconcileOrphans ExchangeCorrect.demo_scope 2 1 "ref-poc-001" [demo_id] demo_client) orphan_world.

Lemma orphan_ready : writer_ok demo_mine demo_client orphan_world /\ backed (store orphan_world) /\ only_listed demo_sks orphan_world.
Proof.
  assert (Hno : forall k, k <> state_key part demo_orphan -> store orphan_world caller_journal k = None).
  { intros k Hk. cbn. by rewrite (bool_decide_eq_false_2 _ Hk). }
  split_and!.
  - split; [done|]. assert (forall n, isSourceSequence n = true -> jrow caller_journal (deps demo_client) (store orphan_world) n = None) as Hj.
    { intros n Hn. apply Hno. by apply journal_key_not_state. }
    unfold jinv. cbn. split_and!; [done| |auto|done|done|naive_solver].
    intros k Hk. apply isSourceSequence_range in Hk as ?. split; [lia|]. intros _. by apply Hj.
  - intros k Hk. exists [], RUNNING. split; [apply Hno; by apply request_not_attempt|]. cbn. lia.
  - intros s m Hm. destruct (decide (MkKey part s = state_key part demo_orphan)) as [E|E]; [|rewrite Hno in Hm; done]. apply (f_equal sk) in E. cbn [sk state_key] in E. subst s. by left.
Qed.

Lemma request_states_are_recorded_history_witness :
  exists e st, demo_reconcile.1.2 = Ok (Some (recorded e st)) /\ effect_knowledge st = UNKNOWN
    /\ op_view ExchangeCorrect.demo_scope demo_client orphan_world (op_reconcile "ref-poc-001" [demo_id]) e st demo_reconcile.2.
Proof.
  destruct (run_iexec_inv (variant_step demo_mine demo_delivered (fun _ _ => False)) (rely2 demo_mine) (only_listed demo_sks) (calm2 demo_sks)
    (op_program ExchangeCorrect.demo_scope 2 1 (op_reconcile "ref-poc-001" [demo_id]) demo_client) orphan_world) as [steps Hx];
    [intros w; reflexivity|apply calm2_step|apply orphan_ready|].
  change (run (calm2 demo_sks) (op_program ExchangeCorrect.demo_scope 2 1 (op_reconcile "ref-poc-001" [demo_id]) demo_client) orphan_world) with demo_reconcile in Hx.
  destruct demo_reconcile.1 as [s r] eqn:E. cbn [snd].
  assert (Er : exists e st, r = Ok (Some (recorded e st)) /\ effect_knowledge st = UNKNOWN).
  { assert (E2 : r = demo_reconcile.1.2) by (rewrite E; reflexivity). rewrite E2. eexists _, _. split; [vm_compute; reflexivity|reflexivity]. }
  destruct Er as (e & st & -> & Hk). exists e, st. split; [reflexivity|]. split; [exact Hk|].
  refine (proj2 (proj2 (request_states_are_recorded_history demo_mine (fun x => x = demo_orphan) (fun _ => True) part demo_delivered (fun _ _ => False)
    ExchangeCorrect.demo_scope 2 1 (op_reconcile "ref-poc-001" [demo_id]) demo_client orphan_world steps s _ _ _ _ _ _ _ _ Hx)) e st _);
    [intros x -> E'; discriminate E'|intros x [->| ->]; vm_compute; reflexivity|reflexivity|apply orphan_ready|apply orphan_ready
    |apply short_request_row; vm_compute; lia|reflexivity].
Defined.

Lemma reconciliation_accounts_for_every_attempt_witness :
  exists st, reaches (requestStateKey part "ref-poc-001") st (store demo_reconcile.2 caller_journal (requestStateKey part "ref-poc-001"))
    /\ demo_orphan ∈ attempt_ids st.
Proof.
  destruct (run_iexec_inv (variant_step demo_mine demo_delivered (fun _ _ => False)) (rely2 demo_mine) (only_listed demo_sks) (calm2 demo_sks)
    (reconcileOrphans ExchangeCorrect.demo_scope 2 1 "ref-poc-001" [demo_id] demo_client) orphan_world) as [steps Hx];
    [intros w; reflexivity|apply calm2_step|apply orphan_ready|].
  fold demo_reconcile in Hx. destruct demo_reconcile.1 as [s r] eqn:E.
  assert (Er : exists e st, r = Ok (Some (recorded e st))).
  { assert (E2 : r = demo_reconcile.1.2) by (rewrite E; reflexivity). rewrite E2. eexists _, _. vm_compute; reflexivity. }
  destruct Er as (e & st & ->).
  apply (reconciliation_accounts_for_every_attempt demo_mine demo_delivered (fun _ _ => False) ExchangeCorrect.demo_scope 2 1 "ref-poc-001" [demo_id]
    demo_client orphan_world steps s (recorded e st) demo_reconcile.2 demo_orphan);
    [intros x ->; vm_compute; reflexivity|reflexivity|apply orphan_ready|apply orphan_ready|apply short_request_row; vm_compute; lia|exact Hx
    |intros f Ef; discriminate Ef|vm_compute; reflexivity|].
  exists orphan_row. split; [vm_compute; reflexivity|]. split_and!; reflexivity.
Defined.
End demo.
End RequestSafety.
