(* ===== verification/VariantSafety.v ===== *)
(** * What the two variants share

    The proofs of an invocation of either variant, over the parties of [RequestSafety]: programs
    that call no provider, the attempt row of every call, and one lemma per step an invocation
    takes (append, reconcile, attempt, record), with the runs the demonstrations use.
    [requests] are the requests an invocation acts for, [home] is its trial partition. *)

From S2P Require Import Prelude AttemptLifecycle Timestamps Effects Store JsonText Parsing LeaseItem Journal JournalSafety JournalTx.
From S2P Require Import Money ControlItems Acceptance Provider ProviderExchange ExchangeCorrect ProviderClient ClientSafety.
From S2P Require Import RequestState RequestSafety.
Import Attempt Json Store Utc Identifiers JsonText Journal JournalSafety ProviderExchange ProviderClient ClientSafety RequestState RequestSafety.
Import Provider(eventId).
Open Scope Z_scope.

Module VariantSafety.

(** ** Programs that call no provider *)

Definition no_call {R} (e : ClientEff R) : Prop :=
  match e with inr o => match o with Invoke _ => False | _ => True end | inl _ => True end.

Fixpoint client_silent {A} (p : proc ClientEff A) : Prop :=
  match p with Ret _ => True | Vis e k => no_call e /\ forall r, client_silent (k r) end.
Fixpoint silent {A} (p : proc VariantEff A) : Prop :=
  match p with Ret _ => True | Vis e k => match e with inl c => no_call c | inr _ => True end /\ forall r, silent (k r) end.

Lemma client_silent_bind {A B} (p : proc ClientEff A) (f : A -> proc ClientEff B) :
  client_silent p -> (forall a, client_silent (f a)) -> client_silent (pbind p f).
Proof. induction p as [a|R e k IH]; cbn; [auto|]. intros [? ?] ?. auto. Qed.
Lemma silent_bind {A B} (p : proc VariantEff A) (f : A -> proc VariantEff B) : silent p -> (forall a, silent (f a)) -> silent (pbind p f).
Proof. induction p as [a|R e k IH]; cbn; [auto|]. intros [? ?] ?. auto. Qed.
Lemma silent_tree {A} (p : proc ClientEff A) : client_silent p -> silent (client_tree p).
Proof. induction p as [a|R e k IH]; cbn; [done|]. intros [? ?]. auto. Qed.
Lemma lift_silent {A} (p : proc JournalEff A) : client_silent (lift p).
Proof. induction p as [a|R e k IH]; cbn; auto. Qed.

Lemma client_silent_se {A B} (m : CM A) (f : A -> CM B) s :
  client_silent (m s) -> (forall a s', client_silent (f a s')) -> client_silent (se_bind m f s).
Proof. intros Hm Hf. apply client_silent_bind; [done|]. intros [s' [a|x]]; [apply Hf|done]. Qed.
Lemma silent_se {X A B} (m : SE VariantEff ClientState X A) (f : A -> SE VariantEff ClientState X B) s :
  silent (m s) -> (forall a s', silent (f a s')) -> silent (se_bind m f s).
Proof. intros Hm Hf. apply silent_bind; [done|]. intros [s' [a|x]]; [apply Hf|done]. Qed.

Lemma journal_silent {A} (m : JournalWriterDeps -> JM A) s : client_silent (on_journal m s).
Proof. apply client_silent_bind; [apply lift_silent|]. by intros [j [a|x]]. Qed.

Lemma record_silent retries retry k c planned prepared s : client_silent (record_loop retries retry k c planned prepared s).
Proof.
  revert retry prepared s. induction retries as [|n IH]; intros retry [p|x] s; try done.
  all: apply client_silent_se; [apply client_silent_se; [done|by intros [o|t]]|intros out s1].
  all: apply client_silent_se; [apply journal_silent|]; intros [r|e o] s2; [by destruct r|].
  - by destruct o.
  - destruct o; try done. apply client_silent_se; [apply journal_silent|]. intros; apply IH.
Qed.

Lemma on_client_record_silent maxRetries k c planned causation s : silent (on_client (record maxRetries k c planned causation) s).
Proof.
  apply silent_tree, client_silent_se; [apply journal_silent|]. intros; apply record_silent.
Qed.

Lemma readState_silent k s : silent (readState k s).
Proof. apply silent_se; [done|]. done. Qed.

Lemma items_silent scope n c items s : silent (items_loop scope n c items s).
Proof.
  revert c items s. induction n as [|n IH]; intros c items s; [done|]. apply silent_se; [done|].
  intros [page|code] s1; [|done]. destruct (next_cursor page); [apply IH|done].
Qed.

Lemma op_silent scope maxRetries pages op s : silent (op_program scope maxRetries pages op s).
Proof.
  destruct op as [request attempt processing causation|request causation|request message_id causation].
  - apply silent_se; [|done]. apply silent_se; [apply readState_silent|]. intros [c|f] s1; [apply on_client_record_silent|done].
  - apply silent_se; [apply readState_silent|]. intros [c|f] s1; [|done]. apply silent_se; [apply items_silent|].
    intros [[items|f]|] s2; [|done..]. destruct (findOrphanAttempts _ _ _) as [[|o os]|e]; try done.
    apply silent_se; [apply on_client_record_silent|done].
  - apply silent_se; [|done]. apply silent_se; [apply readState_silent|]. intros [c|f] s1; [apply on_client_record_silent|done].
Qed.

Section delivery.
Context (mine requests : string -> Prop) (home : string) (delivered : ProviderTransportResult -> Prop) (continues : string -> string -> Prop).
Hypothesis mine_uuids : forall x, mine x -> isUuid4 x = true.

Abbreviation vstep := (variant_step mine delivered continues).
Abbreviation vspec := (rgs vstep (rely2 mine) (guar2 mine requests home) kept).

(** What was sent since is not this invocation's. *)
Definition calls_kept (w w' : world) : Prop := exists more, calls w' = calls w ++ more /\ Forall (fun c => ~ own_call mine c.1) more.
(** The invocation sent the provider one call at most. *)
Definition one_call (w : world) : Prop := uncalled mine w \/ exists call sent_over, called_once mine call sent_over w.

#[export] Instance calls_kept_refl : Reflexive calls_kept.
Proof. intros w. exists []. by rewrite app_nil_r. Qed.
#[export] Instance calls_kept_trans : Transitive calls_kept.
Proof. intros w w1 w2 (m & E & Hm) (m' & E' & Hm'). exists (m ++ m'). rewrite E', E, (assoc_L (++)). split; [done|]. by apply Forall_app. Qed.

Lemma calls_kept_rely w w' : rely2 mine w w' -> calls_kept w w'.
Proof. intros [Hr _]. exact (rely_calls _ _ _ Hr). Qed.
Lemma calls_kept_same w w' : calls w' = calls w -> calls_kept w w'.
Proof. intros E. exists []. by rewrite app_nil_r. Qed.
Lemma calls_kept_stable w : stable mine mine requests (calls_kept w).
Proof. split; intros w1 w2 H; [intros Hr; etrans; [exact H|exact (rely_calls _ _ _ Hr)]|]. intros _ E. etrans; [exact H|by apply calls_kept_same]. Qed.

Lemma uncalled_kept w w' : calls_kept w w' -> uncalled mine w -> uncalled mine w'.
Proof. unfold uncalled. intros (more & -> & Hm) H. by apply Forall_app. Qed.
Lemma one_call_kept w w' : calls_kept w w' -> one_call w -> one_call w'.
Proof.
  intros H [Hu|(c & t & Ho & before & after & E & Hb & Ha)]; [left; by eapply uncalled_kept|right]. destruct H as (more & E' & Hm).
  exists c, t. split; [done|]. exists before, (after ++ more). rewrite E', E, <-(assoc_L (++)). split; [done|]. split; [done|]. by apply Forall_app.
Qed.

Lemma silent_effect_step R (e : VariantEff R) w r w' :
  match e with inl c => no_call c | inr _ => True end -> vstep R e w r w' -> calls_kept w w'.
Proof.
  intros H Hs. apply calls_kept_same. revert H Hs. destruct e as [[j|o]|rd]; cbn.
  - by intros _ [_ ->].
  - destruct o; cbn; try done; [by intros _ [_ ->]|by intros _ [_ ->]|by intros _ ->..|by intros _ [-> _]].
  - destruct rd; cbn; by intros _ [-> _].
Qed.

Lemma silent_kept {A} (p : proc VariantEff A) w : silent p -> wpr vstep (rely2 mine) p (fun _ w' => calls_kept w w') w.
Proof.
  intros Hp. enough (H : forall w0, calls_kept w0 w -> wpr vstep (rely2 mine) p (fun _ w' => calls_kept w0 w') w) by by apply H.
  intros w0. revert w Hp. induction p as [a|R e k IH]; intros w; cbn; [done|]. intros [He Hk] Hw w1 Hr r w2 Hs. apply IH; [apply Hk|].
  etrans; [exact Hw|]. etrans; [by apply calls_kept_rely|by eapply silent_effect_step].
Qed.

(** A program whose calls are those of its attempt sends one at most. *)
Lemma silent_one_call {A} (p : proc VariantEff A) w : silent p -> one_call w -> wpr vstep (rely2 mine) p (fun _ w' => one_call w') w.
Proof. intros Hp Hw. eapply wpr_mono; [|by apply silent_kept]. intros a w' Hk. exact (one_call_kept _ _ Hk Hw). Qed.

Lemma silent_then {X A B} (m : SE VariantEff ClientState X A) (f : A -> SE VariantEff ClientState X B) s w :
  silent (m s) -> uncalled mine w ->
  (forall a s' w', uncalled mine w' -> wpr vstep (rely2 mine) (f a s') (fun _ w' => one_call w') w') ->
  wpr vstep (rely2 mine) (se_bind m f s) (fun _ w' => one_call w') w.
Proof.
  intros Hm Hw Hf. apply wprs_bind. eapply wpr_mono; [|by apply silent_kept]. intros [s' [a|x]] w' Hk; cbn.
  - apply Hf. exact (uncalled_kept _ _ Hk Hw).
  - left. exact (uncalled_kept _ _ Hk Hw).
Qed.

(** ** Calls and attempt rows *)

(** The rows of this invocation's attempts name them, and every call it made has its attempt's row. *)
Definition calls_have_rows (w : world) : Prop :=
  (forall a m, mine a -> store w caller_journal (state_key home a) = Some m -> registered_members requests a m)
  /\ Forall (fun c => own_call mine c.1 -> exists a r, member "attempt_id" c.1 = Some (JStr a) /\ mine a /\ requests r
                /\ attempt_row home a r (store w)) (calls w).

Lemma logged_later w w' l : later (store w) (store w') ->
  Forall (fun c : ClientSafety.call * tables => own_call mine c.1 -> exists a r, member "attempt_id" c.1 = Some (JStr a) /\ mine a /\ requests r /\ attempt_row home a r (store w)) l ->
  Forall (fun c : ClientSafety.call * tables => own_call mine c.1 -> exists a r, member "attempt_id" c.1 = Some (JStr a) /\ mine a /\ requests r /\ attempt_row home a r (store w')) l.
Proof.
  intros Hl HF. eapply Forall_impl; [exact HF|]. intros c H Ho. destruct (H Ho) as (a & r & H1 & H2 & H3 & H4). exists a, r. split_and!; try done.
  by eapply attempt_row_later.
Qed.

Lemma calls_have_rows_rely w w' : calls_have_rows w -> rely2 mine w w' -> calls_have_rows w'.
Proof.
  intros [H1 H2] [Hr Hl]. split.
  - intros a m Ha. rewrite (rely_state _ _ _ Hr home a Ha). by apply H1.
  - destruct (rely_calls _ _ _ Hr) as (more & -> & Hm). apply Forall_app. split; [by eapply logged_later|].
    eapply Forall_impl; [exact Hm|]. intros c Hc Ho. by destruct Hc.
Qed.

Lemma calls_have_rows_guar w w' : calls_have_rows w -> guar2 mine requests home w w' -> calls_have_rows w'.
Proof.
  intros [H1 H2] (Hch & Hc & Hl).
  assert (Hn : forall a m, mine a -> store w' caller_journal (state_key home a) = Some m -> registered_members requests a m).
  { intros a m Ha Hm. destruct (Hch caller_journal (state_key home a)) as [Ho|(_ & Hk & _)]; [|by apply (request_not_attempt _ home a) in Hk].
    destruct Ho as [E|d n _ _ Hd Hn E|q b m1 _ E Hb _ E2 _ Hreg|q b m1 m2 to _ E Hb E1 E2 _ _ _ Hsame].
    - rewrite E in Hm. by apply H1.
    - symmetry in E. destruct (journal_key_not_state d n home a); auto.
    - apply state_key_inj in E as <-. by simplify_eq.
    - apply state_key_inj in E as <-. simplify_eq. destruct (H1 a m1 Ha E1) as (R1 & R2 & r & R3 & R4).
      unfold registered_members. rewrite !Hsame by done. eauto. }
  split; [done|]. destruct Hc as [E|c a E Hid Ha (m & Hm & _)]; rewrite E; [by eapply logged_later|].
  apply Forall_app. split; [by eapply logged_later|]. apply Forall_singleton. intros _.
  destruct (H1 a m Ha Hm) as (R1 & R2 & r & R3 & R4). exists a, r. split_and!; try done. apply (attempt_row_later _ _ _ _ _ Hl). by exists m.
Qed.

(** An invariant of the rely and the guarantee holds at the end. *)
Lemma rg_invariant {A} (J : world -> Prop) (p : proc VariantEff A) (Q : A -> world -> Prop) w :
  (forall w w', J w -> rely2 mine w w' -> J w') -> (forall w w', J w -> guar2 mine requests home w w' -> J w') -> J w ->
  rg vstep (rely2 mine) (guar2 mine requests home) kept p Q w ->
  rg vstep (rely2 mine) (guar2 mine requests home) kept p (fun a w' => Q a w' /\ J w') w.
Proof.
  intros HR HG. revert w. induction p as [a|R e k IH]; intros w Hj H; [done|]. cbn [rg] in *. intros w1 Hr r w2 Hs.
  destruct (H w1 Hr r w2 Hs) as (Hg & Hk & Hn). split; [done|]. split; [done|]. eauto.
Qed.

(** What every execution of the client's own program ends in, it ends in beside recorders too. *)
Lemma on_client_wpr {A} (m : CM A) (Q : ClientState * Result A thrown -> world -> Prop) s w :
  wpr (client_step mine delivered) (rely mine) (m s) Q w -> wpr vstep (rely2 mine) (on_client m s) Q w.
Proof.
  unfold on_client. revert w. induction (m s) as [a|R e k IH]; intros w H; [exact H|]. cbn [client_tree wpr] in *.
  intros w1 [Hr _] r w2 Hs. apply IH. by apply (H w1 Hr).
Qed.

(** ** Steps of an invocation *)

Lemma calling_silent {X A} (f : thrown -> X) (m : VM A) s : silent (m s) -> silent (calling f m s).
Proof. intros H. apply silent_bind; [done|]. by intros [s' r]. Qed.

(** A silent program sends no call. *)
Lemma silent_spec {X A} (m : SE VariantEff ClientState X A) (Q : ClientState -> Result A X -> world -> Prop) s w :
  silent (m s) -> vspec m Q s w -> vspec m (fun s' r w' => Q s' r w' /\ calls_kept w w') s w.
Proof. intros Hs H. apply (rg_conj _ _ _ _ _ _ _ _ H). by apply silent_kept. Qed.

Lemma result_silent scope maxRetries request attempt processing causation s :
  silent (recordAttemptResult scope maxRetries request attempt processing causation s).
Proof. apply silent_se; [apply readState_silent|]. intros [c|f] s1; [apply on_client_record_silent|done]. Qed.
Lemma rejected_silent scope maxRetries request message_id causation s :
  silent (recordMessageRejected scope maxRetries request message_id causation s).
Proof. apply silent_se; [apply readState_silent|]. intros [c|f] s1; [apply on_client_record_silent|done]. Qed.
Lemma reconcile_silent scope maxRetries pages request causation s : silent (reconcileOrphans scope maxRetries pages request causation s).
Proof. exact (op_silent scope maxRetries pages (op_reconcile request causation) s). Qed.
Lemma append_silent type body causation s : silent (on_client (journal_append type body causation) s).
Proof. apply silent_tree, journal_silent. Qed.

Section steps.
Context (scope : JournalScope) (maxRetries : Z) (s0 : ClientState) (w0 : world).
Hypothesis scope_eq : d_scope (deps s0) = scope.
Hypothesis home_eq : journalPartitionKey scope = home.

(** What holds however the invocation goes on from [w]. *)
Definition settled (w : world) : Prop := kept w /\ later (store w0) (store w).
(** The writer between steps, [w0] being where the invocation began. *)
Definition ready (s : ClientState) (w : world) : Prop := (exists j, s = set_journal j s0) /\ writer_ok mine s w /\ settled w.
Definition step_post {A} (V : A -> ClientState -> world -> Prop) (s : ClientState) (r : Result A thrown) (w : world) : Prop :=
  settled w /\ match r with Ok a => V a s w | Err _ => True end.

Lemma step_bind {X A B} (f : thrown -> X) (m : VM A) (g : A -> SE VariantEff ClientState X B) V (Q : ClientState -> Result B X -> world -> Prop) s w :
  vspec m (step_post V) s w -> (forall s' e w', settled w' -> Q s' (Err (f e)) w') ->
  (forall a s' w', settled w' -> V a s' w' -> vspec (g a) Q s' w') ->
  vspec (se_bind (calling f m) g) Q s w.
Proof.
  intros Hm He Hg. apply rgs_bind, rg_bind. eapply rg_mono; [|exact Hm]. intros [s' [a|e]] w' [Hs Hv]; cbn; auto.
Qed.

Lemma recorded_view_before s w k request terminal attempts q e st w' :
  later (store w0) (store w) -> request_row k -> deps s = deps s0 ->
  recorded_view s k request terminal attempts q w e st w' -> recorded_view s0 k request terminal attempts q w0 e st w'.
Proof.
  intros Hl Hk Hd (bs & p & H1 & H2 & H3 & H4). exists bs, p. rewrite <-Hd. split_and!; try done. etrans; [by apply (later_rows _ _ Hl)|done].
Qed.

Definition append_view (P : world -> Prop) (type : string) (body : list (string * json)) : ClientState -> Result AppendResult thrown -> world -> Prop :=
  fun s' r w' => match r with
    | Ok a => (exists j, s' = set_journal j s0) /\ writer_ok mine s' w' /\ P w'
         /\ forall e, a = ap_appended e -> stored caller_journal (deps s0) type body e (store w')
    | Err _ => True
    end.

Lemma append_step (P : world -> Prop) type body causation s w :
  stable mine mine requests P -> ready s w -> P w ->
  vspec (on_client (journal_append type body causation)) (step_post (fun a s' w' => later (store w) (store w') /\ ready s' w' /\ P w'
    /\ forall e, a = ap_appended e -> stored caller_journal (deps s0) type body e (store w'))) s w.
Proof.
  intros HP ((j & ->) & Hs & Hb & Hl) Hu. apply on_client_spec.
  eapply rgs_mono; [|apply (frame_spec mine requests home delivered mine_uuids _ (append_view P type body) _ w w),
    (client_append_spec mine mine requests home delivered P type body causation _ _ _ Hs)].
  - intros s' [a|x] w' (H & Hl' & Hb'); assert (Hl0 : later (store w0) (store w')) by (by etrans); (split; [done|]); [|done].
    destruct H as (Hj & Hs' & Hu' & He). by split_and!.
  - reflexivity.
  - done.
  - done.
  - done.
  - intros j' [a|x] w' Hs' Hu' He; [|done]. cbn. split; [by exists j'|]. split; [done|]. split; [done|]. intros e ->. by apply He.
Qed.

Lemma rejected_step request message_id causation s w :
  let k := op_key scope (op_rejected request message_id causation) in
  request_row k -> ready s w -> uncalled mine w ->
  vspec (recordMessageRejected scope maxRetries request message_id causation) (step_post (fun res s' w' => later (store w) (store w') /\ ready s' w' /\ uncalled mine w'
    /\ match res with recorded e st => recorded_view s0 k request (Some t_message_rejected) [] FINISHED w0 e st w' | unchanged => False | _ => True end)) s w.
Proof.
  intros k Hk ((j & ->) & Hs & Hb & Hl) Hu. eapply rgs_mono; [|apply silent_spec; [apply rejected_silent|
    apply (recordMessageRejected_spec mine requests home delivered continues mine_uuids scope maxRetries (set_journal j s0) w scope_eq Hs Hb
      request message_id causation); by destruct request]].
  intros s' r w' ((j' & -> & Hl' & Hb' & H) & Hk'). pose proof (uncalled_kept _ _ Hk' Hu) as Hu'. assert (Hl0 : later (store w0) (store w')) by (by etrans). split; [done|].
  destruct r as [[e st| |f]|x]; cbn in H; [|by destruct H| |done].
  - destruct H as [Hs' H]. split; [done|]. split; [by split_and!; [exists j'|..]|]. split; [done|]. eapply recorded_view_before; [exact Hl| |reflexivity|]; by destruct request.
  - split; [done|]. by split; [split_and!; [exists j'|..]|].
Qed.

Lemma reconcile_step pages request causation s w :
  request_row (requestStateKey (partitionKey scope) request) -> ready s w -> uncalled mine w ->
  vspec (reconcileOrphans scope maxRetries pages request causation)
    (step_post (fun o s' w' => match o with Some _ => ready s' w' /\ uncalled mine w' | None => True end)) s w.
Proof.
  intros Hk ((j & ->) & Hs & Hb & Hl) Hu. eapply rgs_mono; [|apply silent_spec; [apply reconcile_silent|
    apply (reconcile_spec mine requests home delivered continues mine_uuids scope maxRetries pages (set_journal j s0) w scope_eq Hs Hb request causation Hk)]].
  intros s' r w' ((j' & -> & Hl' & Hb' & H) & Hk'). pose proof (uncalled_kept _ _ Hk' Hu) as Hu'. assert (Hl0 : later (store w0) (store w')) by (by etrans). split; [done|].
  destruct r as [[res|]|x]; [|done..]. split; [|done]. split; [by exists j'|]. split; [|done]. destruct res; [apply H|apply H|exact H].
Qed.

Lemma attempt_step JSON_parse callbacks input s w :
  requests (in_refund_request_id input) -> ready s w -> uncalled mine w ->
  vspec (on_client (performAttempt JSON_parse scope maxRetries callbacks input)) (step_post (fun o s' w' => match o with
    | Some rep => later (store w) (store w') /\ attempt_view mine delivered JSON_parse scope input (deps s0) (Ok (Some rep)) w' /\ ready s' w'
    | None => True
    end)) s w.
Proof.
  intros Hreq ((j & ->) & Hs & Hb & Hl) Hu. apply on_client_spec.
  assert (Hhome : journalPartitionKey (d_scope (deps s0)) = home) by by rewrite scope_eq.
  pose proof (performAttempt_spec mine mine requests home delivered mine_uuids (fun x H => H) JSON_parse scope maxRetries callbacks
    input (deps s0) Hhome (set_journal j s0) w (fun x H => H) (proj1 Hs) Hreq eq_refl Hs Hu) as HA.
  eapply rgs_mono; [|apply (frame_spec mine requests home delivered mine_uuids (performAttempt JSON_parse scope maxRetries callbacks input)
    (attempt_end mine delivered JSON_parse scope input (deps s0) (set_journal j s0)) _ w w); [reflexivity|exact Hb|exact HA]].
  intros s' r w' ([Hview Hend] & Hl' & Hb'). assert (Hl0 : later (store w0) (store w')) by (by etrans). split; [done|].
  destruct r as [[rep|]|x]; [|done..]. split; [done|]. split; [exact Hview|]. destruct Hend as (j' & -> & Hs'). by split_and!; [exists j'|..].
Qed.

Lemma result_step request attempt processing causation s w :
  request_row (requestStateKey (partitionKey scope) request) -> ready s w ->
  vspec (recordAttemptResult scope maxRetries request attempt processing causation) (step_post (fun res s' w' => later (store w) (store w') /\ calls_kept w w' /\ ready s' w'
    /\ match res with
       | recorded e st => recorded_view s0 (requestStateKey (partitionKey scope) request) (Some request)
           (match processing with pu_running => None | pu_finished t => Some t end) [attempt] (update_state processing) w0 e st w'
       | unchanged => False
       | _ => True
       end)) s w.
Proof.
  intros Hk ((j & ->) & Hs & Hb & Hl). eapply rgs_mono; [|apply silent_spec; [apply result_silent|];
    apply (recordAttemptResult_spec mine requests home delivered continues mine_uuids scope maxRetries (set_journal j s0) w scope_eq Hs Hb
      request attempt processing causation Hk)].
  intros s' r w' ((j' & -> & Hl' & Hb' & H) & Hkept). assert (Hl0 : later (store w0) (store w')) by (by etrans). split; [done|].
  destruct r as [[e st| |f]|x]; cbn in H; [|by destruct H| |done].
  - destruct H as [Hs' H]. split; [done|]. split; [done|]. split; [by split_and!; [exists j'|..]|]. exact (recorded_view_before _ w _ _ _ _ _ _ _ _ Hl Hk eq_refl H).
  - split; [done|]. split; [done|]. by split; [split_and!; [exists j'|..]|].
Qed.

(** The attempt sends one call at most. *)
Lemma attempt_one_call JSON_parse callbacks input s w :
  requests (in_refund_request_id input) -> ready s w -> uncalled mine w ->
  wpr vstep (rely2 mine) (on_client (performAttempt JSON_parse scope maxRetries callbacks input) s) (fun _ w' => one_call w') w.
Proof.
  intros Hreq ((j & ->) & Hs & _) Hu. apply on_client_wpr. eapply wpr_mono; [|apply (performAttempt_once mine requests home delivered mine_uuids
    JSON_parse scope maxRetries callbacks input (deps s0)); [by rewrite scope_eq|apply Hs|exact Hreq|done|exact Hs|exact Hu]].
  by intros a w' [_ H].
Qed.

Abbreviation vwpr p w := (wpr vstep (rely2 mine) p (fun _ w' => one_call w') w).

Lemma calling_then {X A B} (f : thrown -> X) (m : VM A) (g : A -> SE VariantEff ClientState X B) V s w :
  vspec m (step_post V) s w -> silent (m s) -> uncalled mine w ->
  (forall a s' w', V a s' w' -> uncalled mine w' -> vwpr (g a s') w') -> vwpr (se_bind (calling f m) g s) w.
Proof.
  intros Hm Hs Hu Hg. apply wprs_bind, wpr_bind. apply (rg_wpr _ _ _ _ _ _ (fun _ => True)) in Hm; [|done..].
  eapply wpr_mono; [|eapply wpr_conj; [exact Hm|by apply silent_kept]].
  intros [s' [a|x]] w' [[[_ Hv] _] Hk]; cbn [fst snd] in *; [|left; exact (uncalled_kept _ _ Hk Hu)].
  apply Hg; [exact Hv|exact (uncalled_kept _ _ Hk Hu)].
Qed.

Lemma attempt_then {X B} (f : thrown -> X) JSON_parse callbacks input (g : option AttemptReport -> SE VariantEff ClientState X B) s w :
  requests (in_refund_request_id input) -> ready s w -> uncalled mine w -> (forall o s', silent (g o s')) ->
  vwpr (se_bind (calling f (on_client (performAttempt JSON_parse scope maxRetries callbacks input))) g s) w.
Proof.
  intros Hreq Hr Hu Hg. apply wprs_bind, wpr_bind. eapply wpr_mono; [|by apply attempt_one_call].
  intros [s' [o|x]] w' H; [|exact H]. by apply silent_one_call.
Qed.

Lemma writer_uuid s w : ready s w -> isUuid4 (d_instanceId (deps s0)) = true.
Proof. intros ((j & ->) & [Hm _] & _). by apply mine_uuids. Qed.

Lemma ready_at_start : writer_ok mine s0 w0 -> kept w0 -> ready s0 w0.
Proof. intros Hs Hb. split_and!; try done. exists (journal s0). by destruct s0. Qed.
End steps.
End delivery.

(** ** Where an invocation begins *)

(** Where an invocation may begin: a fresh writer, no call and no attempt row of its own yet. *)
Definition fresh_start (mine : string -> Prop) (home : string) (s : ClientState) (w : world) : Prop :=
  writer_ok mine s w /\ backed (store w) /\ uncalled mine w
  /\ forall a, mine a -> store w caller_journal (state_key home a) = None.

Lemma fresh_rows mine requests home s w : fresh_start mine home s w -> calls_have_rows mine requests home w.
Proof.
  intros (_ & _ & Hu & Hn). split; [intros a m Ha; by rewrite (Hn a Ha)|]. eapply Forall_impl; [exact Hu|]. intros c Hc Ho. by destruct Hc.
Qed.

(** ** Runs *)

Lemma fresh_writer_ok mine d w :
  mine (d_instanceId d) -> (forall n, isSourceSequence n = true -> store w caller_journal (jkey d n) = None) ->
  writer_ok mine (MkClient d (MkWriter 1 None None None 0 0)) w.
Proof.
  intros Hm Hn. split; [done|]. unfold jinv. cbn. split_and!; [done| |auto|done|done|naive_solver].
  - intros n Hs. apply isSourceSequence_range in Hs as ?. split; [lia|]. intros _. by apply Hn.
  - intros _ _. by apply Hn.
Qed.

Lemma variant_step_more mine mine' delivered continues R (e : VariantEff R) w r w' : (forall x, mine x -> mine' x) ->
  variant_step mine delivered continues R e w r w' -> variant_step mine' delivered continues R e w r w'.
Proof. intros Hm. destruct e as [[j|o]|rd]; cbn; [done| |done]. destruct o; cbn; naive_solver. Qed.

Lemma calm2_iexec {A} mine sks (p : proc VariantEff A) w : (forall x, demo_mine x -> mine x) -> only_listed sks w ->
  exists steps, iexec (variant_step mine demo_delivered (fun _ _ => False)) (rely2 mine) p w steps (run (calm2 sks) p w).1 (run (calm2 sks) p w).2.
Proof.
  intros Hm Hw. eapply run_iexec_inv; [intros w'; reflexivity| |exact Hw].
  intros R e w' Hi. destruct (calm2_step sks R e w' Hi) as [H1 H2]. split; [|exact H2]. by eapply variant_step_more.
Qed.

Lemma calm2_listed {A} sks (p : proc VariantEff A) w : only_listed sks w -> only_listed sks (run (calm2 sks) p w).2.
Proof.
  revert w. induction p as [a|R e q IH]; intros w Hw; [exact Hw|]. cbn [run]. destruct (calm2_step sks R e w Hw) as [_ H].
  destruct (calm2 sks R e w) as [r w']. by apply IH.
Qed.
End VariantSafety.
