(* ===== verification/Conventional.v ===== *)
(** * The conventional variant (src/study-1/src/conventional-variant/)

    The SQS delivery (sqs-delivery.ts), the disposition of an attempt
    (conventional-disposition.ts), the faults (conventional-fault.ts), the consumer
    (conventional-consumer.ts) as conventional-composition.ts wires it, one event through it
    (sqs-event-consumption.ts), the Lambda entry (conventional-lambda-entry.ts) and the
    environment (conventional-environment.ts).

    One invocation opens one journal writer and runs the client and the recorder over it, so a
    delivery is a program on the client's state. *)

From S2P Require Import Prelude AttemptLifecycle Timestamps Decimals Utf16 Effects Store JsonText Parsing LeaseItem Journal Money ControlItems Acceptance.
From S2P Require Import Provider ProviderExchange ProviderClient Controller Ingestion TrialMessage RequestState.
Import Attempt Json Store Utc Identifiers JsonText Journal ProviderExchange ProviderClient TrialMessage RequestState.
Import Provider(eventId).
Import (notations) Stdlib.Strings.Ascii.
Open Scope Z_scope.

Module Conventional.

(** ** One delivery *)

Record DeliveryContext := MkDelivery { message_id : string; approximate_receive_count : Z; dl_body : string }.

Definition MESSAGE_ID_LIMIT : nat := 128.

(** [/^[1-9][0-9]{0,14}$/u] *)
Definition RECEIVE_COUNT_PATTERN (s : string) : bool :=
  match chars s with
  | [] => false
  | first :: rest => Decimals.is_digit first && negb (bool_decide (first = "0"%char)) && forallb Decimals.is_digit rest && (length rest <=? 14)%nat
  end.

Definition deliveryOfRecord (record : list (string * json)) : Result DeliveryContext string :=
  match member "messageId" record with
  | Some (JStr id) =>
      if bool_decide (id = "") || (MESSAGE_ID_LIMIT <? Utf16.js_length id)%nat then
        Err ("SQS record messageId " +:+ describeJson (Some (JStr id)) +:+ "; expected a string of 1 to "
             +:+ string_of_Z (Z.of_nat MESSAGE_ID_LIMIT) +:+ " characters")
      else
      match member "body" record with
      | Some (JStr body) =>
          let count := match member "attributes" record with Some (JObj a) => member "ApproximateReceiveCount" a | _ => None end in
          match count with
          | Some (JStr c) =>
              if RECEIVE_COUNT_PATTERN c then Ok (MkDelivery id (Decimals.digits_value (chars c)) body)
              else Err ("SQS record attributes.ApproximateReceiveCount " +:+ describeJson count +:+ "; expected a positive decimal integer string")
          | _ => Err ("SQS record attributes.ApproximateReceiveCount " +:+ describeJson count +:+ "; expected a positive decimal integer string")
          end
      | v => Err ("SQS record body " +:+ describeJson v +:+ "; expected a string")
      end
  | v => Err ("SQS record messageId " +:+ describeJson v +:+ "; expected a string of 1 to "
              +:+ string_of_Z (Z.of_nat MESSAGE_ID_LIMIT) +:+ " characters")
  end.

Definition parseSqsDelivery (event : json) : Result DeliveryContext string :=
  let records := match event with JObj e => member "Records" e | _ => None end in
  match records with
  | Some (JArr [JObj record]) => deliveryOfRecord record
  | Some (JArr [record]) => Err ("SQS record " +:+ describeJson (Some record) +:+ "; expected a JSON object")
  | _ => Err ("SQS event Records " +:+ describeJson records +:+ "; expected an array of exactly one record (BatchSize 1)")
  end.

(** ** Disposition *)

Definition CONVENTIONAL_MAX_RECEIVE_COUNT : Z := 2.
Definition DELIVERY_FAILURE_ERROR_NAME : string := "DeliveryFailurePropagated".

Inductive ConventionalDisposition := complete | propagate_failure.
Inductive ConventionalTerminality := layer (d : TerminalityDecision) | definitive (terminal_reason : ProcessingTerminalReason).

Definition decideConventionalDisposition (cls : OutcomeClass) (receiveCount maxReceiveCount : Z) :
  Result (ConventionalDisposition * ConventionalTerminality) js_error :=
  match cls with
  | SUCCESS => Ok (complete, definitive t_succeeded)
  | REJECTION => Ok (complete, definitive t_provider_rejected)
  | _ =>
      let! t := decideTerminality (Attempt.Conventional (Z.min receiveCount maxReceiveCount) maxReceiveCount true) in
      Ok (propagate_failure, layer t)
  end.

Definition processingUpdateOf (t : ConventionalTerminality) : ProcessingUpdate :=
  match t with
  | layer STILL_RUNNING => pu_running
  | layer RETRIES_EXHAUSTED => pu_finished t_retries_exhausted
  | definitive reason => pu_finished reason
  end.

(** ** Faults *)

Inductive ConventionalFaultCode :=
| DELIVERY_INVALID | F_REGISTRY_UNREADABLE | F_NO_ACTIVE_TRIAL | REGISTRATION_MISMATCH | JOURNAL_STOPPED | ATTEMPT_NOT_REGISTERED
| STATE_NOT_RECORDED.
Definition fault_text (c : ConventionalFaultCode) : string :=
  match c with
  | DELIVERY_INVALID => "DELIVERY_INVALID" | F_REGISTRY_UNREADABLE => "REGISTRY_UNREADABLE" | F_NO_ACTIVE_TRIAL => "NO_ACTIVE_TRIAL"
  | REGISTRATION_MISMATCH => "REGISTRATION_MISMATCH" | JOURNAL_STOPPED => "JOURNAL_STOPPED"
  | ATTEMPT_NOT_REGISTERED => "ATTEMPT_NOT_REGISTERED" | STATE_NOT_RECORDED => "STATE_NOT_RECORDED"
  end.

(** What a delivery throws: [ConventionalCallerFault], [DeliveryFailurePropagated], or an error
    of the code it calls. *)
Inductive ConventionalThrow :=
| caller_fault (code : ConventionalFaultCode) (lambda_request_id detail : string)
| delivery_failed (lambda_request_id message_id : string) (receive_count : Z)
| unexpected (e : thrown).

Definition fault_message (code : ConventionalFaultCode) (detail : string) : string := fault_text code +:+ ": " +:+ detail.

(** ** The consumer *)

Abbreviation CVM := (SE VariantEff ClientState ConventionalThrow).

Definition variant_append (type : string) (body : list (string * json)) (causation : list string) : CVM AppendResult :=
  calling unexpected (on_client (journal_append type body causation)).

Definition deployedExecutionRef (deployment : ExecutionIdentity) : TrialExecutionRef :=
  match deployment with
  | id_run i => MkRef f_run_id i
  | id_variant_validation i | id_transport_probe i => MkRef f_variant_validation_id i
  end.

Definition CONVENTIONAL_JOURNAL_DEFINITIVE_RETRIES : Z := 2.

Definition not_registered_text (attempt_id : string) (k : TransitionFailure) : string :=
  "attempt " +:+ attempt_id +:+ " registration "
  +:+ match k with tf_rejected => "rejected" | tf_condition_failed => "condition_failed" | tf_ambiguous => "ambiguous" end
  +:+ "; expected the PRE_DISPATCH registration to apply".

Definition scope_of (deployment : ExecutionIdentity) (r : TrialRegistration) : JournalScope :=
  MkScope deployment (TrialMessage.execution_manifest_sha256 r) (pt_trial (tr_trial_id r) (tr_trial_manifest_sha256 r)).

(** The fields of a rejection, without its kind. *)
Definition rejection_members (r : ConsumerRejection) : list (string * json) :=
  [("reason", JStr (rejection_reason_text (rj_reason r))); ("detail", JStr (rj_detail r))]
  ++ match rj_offending r with Some (got, want) => [("offending_value", JStr got); ("expected_value", JStr want)] | None => [] end
  ++ match carried_refund (rj_identity r) with Some x => [("refund_request_id", JStr x)] | None => [] end
  ++ match carried_payment (rj_identity r) with Some x => [("payment_id", JStr x)] | None => [] end.

Section consumer.
Context (sha256Hex : list Z -> string) (JSON_parse : string -> Result json string).
Context (deployment : ExecutionIdentity) (provider_qualifier : string) (callbacks pages : nat).

Definition activeRegistration (lambdaRequestId : string) (read : Result (option StoredItem) string) : Result TrialRegistration ConventionalThrow :=
  match activeTrialOf v_conventional read with
  | Err f => Err (caller_fault F_REGISTRY_UNREADABLE lambdaRequestId (registry_code_text (rf_code f) +:+ ": " +:+ rf_detail f))
  | Ok None => Err (caller_fault F_NO_ACTIVE_TRIAL lambdaRequestId
      "the trial registry holds no active conventional trial; expected the runner to register the trial before publishing its message")
  | Ok (Some r) =>
      let deployed := deployedExecutionRef deployment in
      if bool_decide (tr_execution r = deployed) then Ok r
      else Err (caller_fault REGISTRATION_MISMATCH lambdaRequestId
             ("the active conventional registration names " +:+ ref_text (tr_execution r) +:+ "; expected the deployed " +:+ ref_text deployed))
  end.

Definition journalFault (lambdaRequestId eventType : string) (s : JournalStopped) : ConventionalThrow :=
  caller_fault JOURNAL_STOPPED lambdaRequestId (eventType +:+ " not written: " +:+ stop_text (stop_reason s)).

Definition assertRecorded (result : RequestStateRecordResult) (lambdaRequestId what : string) : CVM unit :=
  match result with
  | not_recorded_state f =>
      se_throw (caller_fault STATE_NOT_RECORDED lambdaRequestId
        (what +:+ " not recorded: " +:+ state_failure_text (nr_code f) +:+ ": " +:+ nr_detail f))
  | _ => se_ret tt
  end.

Definition reject (scope : JournalScope) (lambdaRequestId : string) (delivery : DeliveryContext) (started : string) (rejection : ConsumerRejection) :
  CVM ConventionalDisposition :=
  (rejected <- variant_append "trial_message_rejected"
     (rejection_members rejection ++ [("message_id", JStr (message_id delivery));
        ("message_body_sha256", JStr (sha256Hex (Parsing.bytes_of (dl_body delivery))))]) [started] ;;
   match rejected with
   | ap_stopped x => se_throw (journalFault lambdaRequestId "trial_message_rejected" x)
   | ap_appended e =>
       recorded <- calling unexpected (recordMessageRejected scope CONVENTIONAL_JOURNAL_DEFINITIVE_RETRIES
                     (carried_refund (rj_identity rejection)) (message_id delivery) [eventId e]) ;;
       assertRecorded recorded lambdaRequestId "MESSAGE_REJECTED" ;;;
       se_ret complete
   end)%se.

Definition attempt_input (message : Message) (started : string) : AttemptInput :=
  MkInput ControlItems.conventional (m_refund_request_id message) (m_payment_id message) (JSInt (amount_minor OR_RUA_001_REFUND))
    (currency OR_RUA_001_REFUND) provider_qualifier [started].

Definition attempt_throw (lambdaRequestId : string) (x : thrown) : ConventionalThrow :=
  match x with
  | not_registered a k => caller_fault ATTEMPT_NOT_REGISTERED lambdaRequestId (not_registered_text a k)
  | other _ => unexpected x
  end.

(** [None] when a wait of the attempt, or the reading of the partition, has not ended. *)
Definition attempt (scope : JournalScope) (lambdaRequestId : string) (delivery : DeliveryContext) (started : string) (message : Message) :
  CVM (option ConventionalDisposition) :=
  let request := m_refund_request_id message in
  (reconciled <- calling unexpected (reconcileOrphans scope CONVENTIONAL_JOURNAL_DEFINITIVE_RETRIES pages request [started]) ;;
   match reconciled with
   | None => se_ret None
   | Some reconciled =>
   assertRecorded reconciled lambdaRequestId "the orphan reconciliation" ;;;
   report <- calling (attempt_throw lambdaRequestId) (on_client
               (performAttempt JSON_parse scope CONVENTIONAL_JOURNAL_DEFINITIVE_RETRIES callbacks (attempt_input message started))) ;;
   match report with
   | None => se_ret None
   | Some rep =>
       let attempt_id := ai_attempt_id (rp_ids rep) in
       match rp_outcome_event_id rep with
       | None =>
           se_throw (caller_fault JOURNAL_STOPPED lambdaRequestId
             ("attempt " +:+ attempt_id +:+ " ended " +:+ outcome_text (rp_outcome rep)
              +:+ " without its attempt_outcome_recorded event; the next delivery reconciles it"))
       | Some outcome =>
           decision <- se_of (match decideConventionalDisposition (rp_outcome_class rep) (approximate_receive_count delivery) CONVENTIONAL_MAX_RECEIVE_COUNT with
                              | Ok d => Ok d | Err e => Err (unexpected (other e)) end) ;;
           recorded <- calling unexpected (recordAttemptResult scope CONVENTIONAL_JOURNAL_DEFINITIVE_RETRIES request
                         (MkAccounted attempt_id (rp_outcome_class rep)) (processingUpdateOf decision.2) [outcome]) ;;
           assertRecorded recorded lambdaRequestId ("the state after attempt " +:+ attempt_id) ;;;
           se_ret (Some decision.1)
       end
   end
   end)%se.

(** The invocation, from its journal on. *)
Definition invocation (registration : TrialRegistration) (delivery : DeliveryContext) (lambdaRequestId : string) :
  CVM (option ConventionalDisposition) :=
  let scope := scope_of deployment registration in
  (started <- variant_append "caller_invocation_started"
     [("lambda_request_id", JStr lambdaRequestId); ("message_id", JStr (message_id delivery));
      ("approximate_receive_count", JNum (JSInt (approximate_receive_count delivery)))] [] ;;
   match started with
   | ap_stopped x => se_throw (journalFault lambdaRequestId "caller_invocation_started" x)
   | ap_appended e =>
       match validateDeliveredMessage JSON_parse (dl_body delivery) (Some registration) with
       | rejected rejection => d <- reject scope lambdaRequestId delivery (eventId e) rejection ;; se_ret (Some d)
       | accepted message => attempt scope lambdaRequestId delivery (eventId e) message
       end
   end)%se.

(** [openJournal]: a new writer of a new source instance. *)
Definition openJournal (scope : JournalScope) (instance : string) : ClientState :=
  MkClient (MkDeps "conventional_caller" instance scope CONVENTIONAL_JOURNAL_DEFINITIVE_RETRIES) (MkWriter 1 None None None 0 0).

Definition consume (delivery : DeliveryContext) (lambdaRequestId : string) : proc VariantEff (Result (option ConventionalDisposition) ConventionalThrow) :=
  pbind (perform (inr (GetItem trial_registry (trialRegistryItemKey v_conventional)) : VariantEff _)) (fun read =>
  match activeRegistration lambdaRequestId read with
  | Err x => Ret (Err x)
  | Ok registration =>
      pbind (perform (inl (inr NextUuid) : VariantEff _)) (fun instance =>
      pbind (invocation registration delivery lambdaRequestId (openJournal (scope_of deployment registration) instance)) (fun '(_, r) => Ret r))
  end).

(** One event through the consumer: resolved when the delivery completed. *)
Definition consumeSqsEvent (event : json) (lambdaRequestId : string) : proc VariantEff (Result (option unit) ConventionalThrow) :=
  match parseSqsDelivery event with
  | Err e => Ret (Err (caller_fault DELIVERY_INVALID lambdaRequestId e))
  | Ok delivery =>
      pbind (consume delivery lambdaRequestId) (fun r =>
      Ret match r with
          | Err x => Err x
          | Ok None => Ok None
          | Ok (Some complete) => Ok (Some tt)
          | Ok (Some propagate_failure) => Err (delivery_failed lambdaRequestId (message_id delivery) (approximate_receive_count delivery))
          end)
  end.

(** ** The Lambda entry *)

Inductive ConventionalLogLine :=
| fault_log (code : ConventionalFaultCode) (lambda_request_id detail : string)
| delivery_failure_log (lambda_request_id message_id : string) (receive_count : Z)
| error_log (lambda_request_id error_name detail : string).

Definition error_texts (e : thrown) : string * string :=
  match e with
  | not_registered a k => ("AttemptNotRegisteredError", not_registered_text a k)
  | other (RangeError m) => ("RangeError", m)
  | other (TypeError m) => ("TypeError", m)
  | other (PlainError m) => ("Error", m)
  | other (ForeignError n) => (n, "")
  end.

Definition conventionalLogLine (error : ConventionalThrow) (lambdaRequestId : string) : ConventionalLogLine :=
  match error with
  | caller_fault code id detail => fault_log code id (fault_message code detail)
  | delivery_failed id m n => delivery_failure_log id m n
  | unexpected e => error_log lambdaRequestId (boundedText (error_texts e).1 QUOTED_JSON_LIMIT) (boundedText (error_texts e).2 QUOTED_JSON_LIMIT)
  end.

(** The handler with its log: one line when the delivery did not complete, which it then throws. *)
Definition lambdaEntry (event : json) (awsRequestId : string) :
  proc VariantEff (list ConventionalLogLine * Result (option unit) ConventionalThrow) :=
  pbind (consumeSqsEvent event awsRequestId) (fun r =>
  Ret (match r with Err x => [conventionalLogLine x awsRequestId] | Ok _ => [] end, r)).
End consumer.

(** ** The environment *)

Record ConventionalEnvironment := MkEnvironment {
  ce_deployment : ExecutionIdentity;
  ce_caller_journal_table : string;
  ce_trial_registry_table : string;
  ce_provider_function_name : string;
  ce_provider_qualifier : string;
}.

Definition readVariable (env : string -> option string) (name : string) (accepts : string -> bool) (shape : string) : Result string string :=
  match env name with
  | Some value => if accepts value then Ok value else Err (name +:+ " " +:+ describeJson (Some (JStr value)) +:+ "; expected " +:+ shape)
  | None => Err (name +:+ " " +:+ describeJson None +:+ "; expected " +:+ shape)
  end.

Definition isVariantExecutionKind (value : string) : bool := memb value ["RUN"; "VARIANT_VALIDATION"].

Definition isConventional (value : string) : bool := bool_decide (value = "conventional").

Definition parseConventionalEnvironment (env : string -> option string) : Result ConventionalEnvironment string :=
  let kind := readVariable env "SUC_EXECUTION_KIND" isVariantExecutionKind "RUN or VARIANT_VALIDATION" in
  let id := readVariable env "SUC_EXECUTION_ID" isUuid4 "a lowercase RFC 4122 version-4 UUID" in
  let journal := readVariable env "SUC_TABLE_CALLER_JOURNAL" Controller.isTableName "a non-empty table name" in
  let registry := readVariable env "SUC_TABLE_TRIAL_REGISTRY" Controller.isTableName "a non-empty table name" in
  let functionName := readVariable env "SUC_PROVIDER_FUNCTION_NAME" Controller.isTableName "a non-empty function name" in
  let qualifier := readVariable env "SUC_PROVIDER_QUALIFIER" PROVIDER_VERSION_PATTERN "a published version number" in
  let variant := readVariable env "SUC_VARIANT_ID" isConventional "conventional" in
  match kind, id, journal, registry, functionName, qualifier, variant with
  | Ok kind, Ok id, Ok journal, Ok registry, Ok fn, Ok qualifier, Ok _ =>
      Ok (MkEnvironment (if bool_decide (kind = "RUN") then id_run id else id_variant_validation id) journal registry fn qualifier)
  | _, _, _, _, _, _, _ =>
      Err ("conventional caller environment invalid: "
           +:+ str_join "; " (flat_map Controller.error_of [kind; id; journal; registry; functionName; qualifier; variant]))
  end.
End Conventional.
