(* ===== verification/ConventionalSafety.v ===== *)
(** * Safety of a conventional delivery

    One invocation of the consumer, from its journal on, beside the parties of [RequestSafety]:
    what its disposition says of the request's state and of the provider, and that no call of it
    can be forgotten. [requests] are the requests it acts for, [home] is its trial partition. *)

From S2P Require Import Prelude AttemptLifecycle Timestamps Effects Store JsonText Parsing LeaseItem Journal JournalSafety JournalTx.
From S2P Require Import Money ControlItems Acceptance Provider ProviderExchange ExchangeCorrect ProviderClient ClientSafety.
From S2P Require Import Ingestion TrialMessage RequestState RequestSafety VariantSafety Conventional.
Import Attempt Json Store Utc Identifiers JsonText Journal JournalSafety ProviderExchange ProviderClient ClientSafety TrialMessage RequestState
  RequestSafety VariantSafety Conventional.
Import Provider(eventId).
Open Scope Z_scope.

Module ConventionalSafety.

(** ** The decision *)

(** What follows from an outcome's class at a receive count: the delivery's fate and the request's terminal reason. *)
Definition decided (cls : OutcomeClass) (receives : Z) : ConventionalDisposition * option ProcessingTerminalReason :=
  match cls with
  | SUCCESS => (complete, Some t_succeeded)
  | REJECTION => (complete, Some t_provider_rejected)
  | _ => (propagate_failure, if 2 <=? receives then Some t_retries_exhausted else None)
  end.

Lemma decided_correct cls receives d t : decideConventionalDisposition cls receives CONVENTIONAL_MAX_RECEIVE_COUNT = Ok (d, t) ->
  decided cls receives = (d, match processingUpdateOf t with pu_running => None | pu_finished r => Some r end).
Proof.
  unfold decideConventionalDisposition, CONVENTIONAL_MAX_RECEIVE_COUNT. destruct cls; try by intros [= <- <-].
  all: unfold decideTerminality, assertReceiveCounts; destruct (_ || _); [done|]; cbn [bind_result].
  all: destruct (_ >? _); [done|]; cbn [bind_result assertFailure negb]; intros [= <- <-]; cbn; unfold by_receive_count.
  all: destruct (Z.leb_spec 2 receives); [rewrite (proj2 (Z.ltb_ge _ _)) by lia|rewrite (proj2 (Z.ltb_lt _ _)) by lia]; done.
Qed.

Lemma update_of_terminal u : update_state u = match match u with pu_running => None | pu_finished r => Some r end with None => RUNNING | Some _ => FINISHED end.
Proof. by destruct u. Qed.

Section delivery.
Context (mine requests : string -> Prop) (home : string) (delivered : ProviderTransportResult -> Prop) (continues : string -> string -> Prop).
Hypothesis mine_uuids : forall x, mine x -> isUuid4 x = true.

Abbreviation vspec := (rgs (variant_step mine delivered continues) (rely2 mine) (guar2 mine requests home) kept).

(** ** One invocation *)

Section invocation.
Context (sha256Hex : list Z -> string) (JSON_parse : string -> Result json string).
Context (deployment : ExecutionIdentity) (provider_qualifier : string) (callbacks pages : nat).
Context (registration : TrialRegistration) (delivery : DeliveryContext) (lambdaRequestId : string) (s0 : ClientState) (w0 : world).

Let scope := scope_of deployment registration.
Definition validation : ConsumerValidation := validateDeliveredMessage JSON_parse (dl_body delivery) (Some registration).

(** The row of the state the delivery is about. *)
Definition delivery_key : ItemKey :=
  match validation with
  | accepted m => requestStateKey (partitionKey scope) (m_refund_request_id m)
  | rejected rej => op_key scope (op_rejected (carried_refund (rj_identity rej)) (message_id delivery) [])
  end.

Hypothesis scope_eq : d_scope (deps s0) = scope.
Hypothesis home_eq : journalPartitionKey scope = home.
Hypothesis key_ok : request_row delivery_key.
Hypothesis acts_for : forall m, validation = accepted m -> requests (m_refund_request_id m).

Definition rejected_body (rej : ConsumerRejection) : list (string * json) :=
  rejection_members rej ++ [("message_id", JStr (message_id delivery));
    ("message_body_sha256", JStr (sha256Hex (Parsing.bytes_of (dl_body delivery))))].

(** What a disposition says. *)
Definition delivery_view (d : ConventionalDisposition) (w' : world) : Prop :=
  match validation with
  | rejected rej =>
      d = complete /\ uncalled mine w'
      /\ (exists e, stored caller_journal (deps s0) "trial_message_rejected" (rejected_body rej) e (store w'))
      /\ exists e st, recorded_view s0 delivery_key (carried_refund (rj_identity rej)) (Some t_message_rejected) [] FINISHED w0 e st w'
  | accepted m =>
      exists rep started w1 e st terminal,
        attempt_view mine delivered JSON_parse scope (attempt_input provider_qualifier m started) (deps s0) (Ok (Some rep)) w1
        /\ later (store w1) (store w') /\ calls_kept mine w1 w'
        /\ decided (rp_outcome_class rep) (approximate_receive_count delivery) = (d, terminal)
        /\ recorded_view s0 delivery_key (Some (m_refund_request_id m)) terminal
             [MkAccounted (ai_attempt_id (rp_ids rep)) (rp_outcome_class rep)] (match terminal with None => RUNNING | Some _ => FINISHED end) w0 e st w'
  end.

Definition delivery_post (s' : ClientState) (r : Result (option ConventionalDisposition) ConventionalThrow) (w' : world) : Prop :=
  kept w' /\ later (store w0) (store w') /\ match r with Ok (Some d) => delivery_view d w' | _ => True end.

Abbreviation wready := (ready mine s0 w0).

Lemma assertRecorded_spec result what s w (Q : ClientState -> Result unit ConventionalThrow -> world -> Prop) :
  (forall x, Q s (Err x) w) -> ((forall f, result <> not_recorded_state f) -> Q s (Ok tt) w) ->
  vspec (assertRecorded result lambdaRequestId what) Q s w.
Proof. intros H1 H2. destruct result; [apply H2; by intros ?|apply H2; by intros ?|apply H1]. Qed.

Lemma settled_post (x : ConventionalThrow) s' w' : settled w0 w' -> delivery_post s' (Err x) w'.
Proof. intros [? ?]. by split. Qed.

Lemma reject_spec started rej s w :
  validation = rejected rej -> wready s w -> uncalled mine w ->
  vspec (reject sha256Hex scope lambdaRequestId delivery started rej) (fun s' r w' => delivery_post s' (option_result r) w') s w.
Proof.
  intros Hv Hr Hu. pose proof key_ok as Hk. unfold delivery_key in Hk. rewrite Hv in Hk.
  eapply step_bind; [by apply (append_step mine requests home delivered continues mine_uuids s0 w0 _ _ _ _ _ _ (uncalled_stable mine mine requests))
    |intros ???; apply settled_post|].
  intros [e|x] s1 w1 Hst (_ & Hr1 & Hu1 & He); [|by apply settled_post]. specialize (He e eq_refl).
  eapply step_bind; [by apply (rejected_step mine requests home delivered continues mine_uuids scope _ s0 w0 scope_eq)
    |intros ???; apply settled_post|].
  intros res s2 w2 Hst2 (Hl12 & Hr2 & Hu2 & H). apply rgs_bind, assertRecorded_spec; [by intros x; apply settled_post|]. intros Hrec.
  destruct Hst2 as [Hb2 Hl2]. split; [done|]. split; [done|]. unfold delivery_view. rewrite Hv. split; [done|]. split; [done|].
  split; [exists e; apply (stored_later _ _ _ _ _ _ (writer_uuid mine mine_uuids _ _ _ _ Hr1) Hl12 He)|].
  destruct res as [e' st| |f]; [|done|by destruct (Hrec f)]. exists e', st. unfold delivery_key. by rewrite Hv.
Qed.

Lemma attempt_spec started m s w :
  validation = accepted m -> wready s w -> uncalled mine w ->
  vspec (attempt JSON_parse provider_qualifier callbacks pages scope lambdaRequestId delivery started m) delivery_post s w.
Proof.
  intros Hv Hr Hu. pose proof key_ok as Hk. unfold delivery_key in Hk. rewrite Hv in Hk.
  eapply step_bind; [by apply (reconcile_step mine requests home delivered continues mine_uuids scope _ s0 w0 scope_eq)
    |intros ???; apply settled_post|].
  intros [res|] s1 w1 Hst1 H1; [|by destruct Hst1; split_and!]. destruct H1 as [Hr1 Hu1].
  apply rgs_bind, assertRecorded_spec; [by intros x; apply settled_post|]. intros _.
  eapply step_bind; [apply (attempt_step mine requests home delivered continues mine_uuids scope _ s0 w0 scope_eq home_eq); [exact (acts_for m Hv)|done..]
    |intros ???; apply settled_post|].
  intros [rep|] s2 w2 Hst2 H2; [|by destruct Hst2; split_and!]. destruct H2 as (_ & Hview & Hr2).
  destruct (rp_outcome_event_id rep) as [outcome|]; [|by apply settled_post].
  apply rgs_bind. unfold rgs at 1, se_of. cbn [rg fst snd].
  destruct (decideConventionalDisposition _ _ _) as [[d t]|x] eqn:Ed; [|by apply settled_post].
  eapply step_bind; [by apply (result_step mine requests home delivered continues mine_uuids scope _ s0 w0 scope_eq)|intros ???; apply settled_post|].
  intros final s3 w3 Hst3 (Hl23 & Hk23 & _ & H). apply rgs_bind, assertRecorded_spec; [by intros x; apply settled_post|]. intros Hrec.
  destruct Hst3 as [Hb3 Hl3]. split; [done|]. split; [done|]. unfold delivery_view. rewrite Hv.
  destruct final as [e st| |f]; [|done|by destruct (Hrec f)]. apply decided_correct in Ed. rewrite update_of_terminal in H.
  exists rep, started, w2, e, st, (match processingUpdateOf t with pu_running => None | pu_finished r => Some r end).
  split_and!; try done. unfold delivery_key. by rewrite Hv.
Qed.

Lemma invocation_spec :
  writer_ok mine s0 w0 -> kept w0 -> uncalled mine w0 ->
  vspec (invocation sha256Hex JSON_parse deployment provider_qualifier callbacks pages registration delivery lambdaRequestId) delivery_post s0 w0.
Proof.
  intros Hs Hb Hu. eapply step_bind; [apply (append_step mine requests home delivered continues mine_uuids s0 w0 _ _ _ _ _ _ (uncalled_stable mine mine requests));
    [by eapply ready_at_start|done]|intros ???; apply settled_post|].
  intros [e|x] s1 w1 Hst (_ & Hr1 & Hu1 & _); [|by apply settled_post]. fold validation. case_eq validation; intros v Hv.
  - by apply attempt_spec.
  - apply rgs_bind. eapply rgs_mono; [|by apply reject_spec]. intros s2 [d|x] w2 H; [exact H|]. destruct H as (? & ? & _). by split_and!.
Qed.

(** *** One call *)

Abbreviation vwpr p w := (wpr (variant_step mine delivered continues) (rely2 mine) p (fun _ w' => one_call mine w') w).

Lemma reject_silent started rej s : silent (reject sha256Hex scope lambdaRequestId delivery started rej s).
Proof.
  apply silent_se; [apply calling_silent, append_silent|]. intros [e|x] s1; [|done].
  apply silent_se; [apply calling_silent, rejected_silent|]. intros [] s2; done.
Qed.

Lemma attempt_calls_once started m s w :
  validation = accepted m -> wready s w -> uncalled mine w ->
  vwpr (attempt JSON_parse provider_qualifier callbacks pages scope lambdaRequestId delivery started m s) w.
Proof.
  intros Hv Hr Hu. pose proof key_ok as Hk. unfold delivery_key in Hk. rewrite Hv in Hk.
  eapply calling_then; [by apply (reconcile_step mine requests home delivered continues mine_uuids scope _ s0 w0 scope_eq)|apply reconcile_silent|done|].
  intros [res|] s1 w1 H1 Hu1; [|by left]. destruct H1 as [Hr1 _].
  enough (H : vwpr (se_bind (calling (attempt_throw lambdaRequestId) (on_client (performAttempt JSON_parse scope CONVENTIONAL_JOURNAL_DEFINITIVE_RETRIES callbacks
    (attempt_input provider_qualifier m started)))) _ s1) w1) by (destruct res; [exact H|exact H|by left]).
  eapply attempt_then; [done|done|done|exact (acts_for m Hv)|exact Hr1|exact Hu1|]. intros [rep|] s2; [|done].
  destruct (rp_outcome_event_id rep); [|done]. apply silent_se; [by destruct (decideConventionalDisposition _ _ _)|]. intros d s9.
  apply silent_se; [apply calling_silent, result_silent|]. intros [] s4; done.
Qed.

Lemma invocation_calls_once :
  writer_ok mine s0 w0 -> kept w0 -> uncalled mine w0 ->
  vwpr (invocation sha256Hex JSON_parse deployment provider_qualifier callbacks pages registration delivery lambdaRequestId s0) w0.
Proof.
  intros Hs Hb Hu. eapply calling_then; [apply (append_step mine requests home delivered continues mine_uuids s0 w0 _ _ _ _ _ _ (uncalled_stable mine mine requests));
    [by eapply ready_at_start|done]|apply append_silent|done|].
  intros [e|x] s1 w1 (_ & Hr1 & _ & _) Hu1; [|by left]. fold validation. case_eq validation; intros v Hv.
  - by apply attempt_calls_once.
  - apply silent_one_call; [|by left]. apply silent_se; [apply reject_silent|done].
Qed.
End invocation.
End delivery.

(** ** Theorems *)

(** C6: A delivery does what its disposition says. Run one invocation of the conventional consumer beside other invocations, over a
    store that may refuse, fail, throw or answer ambiguously and a provider that answers anything. If it completes a rejected
    message, the provider was never called, the rejection is journaled and the request's next state is recorded as
    MESSAGE_REJECTED; if it ends an accepted one, its one attempt's report was true when made, the invocation has called the provider
    no more since, and the request's next state, holding exactly that attempt with its class, is recorded with its event: finished with the delivery completed after a
    success or a rejection, and otherwise with the failure propagated and processing running, or finished as
    RETRIES_EXHAUSTED from the second receive on. However it ends, it has sent the provider one call at most, request
    states stay backed by their events, it writes only its own rows, and every call it sent has the row of its attempt in the
    trial's partition. *)
Theorem conventional_delivery_truthful (mine requests : string -> Prop) delivered continues sha256Hex JSON_parse deployment qualifier callbacks pages
    registration delivery id s0 w0 steps s r w :
  (forall x, mine x -> isUuid4 x = true) ->
  let scope := scope_of deployment registration in
  d_scope (deps s0) = scope -> request_row (delivery_key JSON_parse deployment registration delivery) ->
  (forall m, validation JSON_parse registration delivery = accepted m -> requests (m_refund_request_id m)) ->
  fresh_start mine (journalPartitionKey scope) s0 w0 ->
  iexec (variant_step mine delivered continues) (rely2 mine)
    (invocation sha256Hex JSON_parse deployment qualifier callbacks pages registration delivery id s0) w0 steps (s, r) w ->
  backed (store w) /\ Forall (fun p => guar2 mine requests (journalPartitionKey scope) p.1 p.2) steps
  /\ calls_have_rows mine requests (journalPartitionKey scope) w /\ one_call mine w
  /\ forall d, r = Ok (Some d) -> delivery_view mine delivered sha256Hex JSON_parse deployment qualifier registration delivery s0 w0 d w.
Proof.
  intros Hu scope Hscope Hkey Hreq Hf Hx. pose proof Hf as (Hs & Hb & Hun & _).
  pose proof (invocation_spec mine requests (journalPartitionKey scope) delivered continues Hu sha256Hex JSON_parse deployment qualifier callbacks pages
    registration delivery id s0 w0 Hscope eq_refl Hkey Hreq Hs Hb Hun) as Hspec.
  apply (rg_invariant mine requests (journalPartitionKey scope) delivered continues (calls_have_rows mine requests (journalPartitionKey scope))) in Hspec;
    [|apply calls_have_rows_rely|by apply calls_have_rows_guar|by eapply fresh_rows].
  destruct (rg_iexec _ _ _ _ _ _ _ _ _ _ Hspec Hx) as [[(H1 & _ & H2) H3] HF].
  pose proof (wpr_iexec _ _ _ _ _ _ _ _ (invocation_calls_once mine requests (journalPartitionKey scope) delivered continues Hu sha256Hex JSON_parse deployment qualifier
    callbacks pages registration delivery id s0 w0 Hscope eq_refl Hkey Hreq Hs Hb Hun) Hx) as H1c.
  split; [done|]. split; [done|]. split; [done|]. split; [exact H1c|]. intros d Hd. cbn in H2. by rewrite Hd in H2.
Qed.

(** C5: No call to the provider is ever forgotten. Let an invocation end in any way at all, by a disposition, a fault or a wait that
    never ended, after it had sent the provider a call. Whatever happens next, when a later invocation's orphan
    reconciliation of that request ends without a refusal, the call's attempt is accounted for: its id is in a state the
    request's row holds, or held and succeeded. *)
Theorem provider_call_never_forgotten (mine mine2 : string -> Prop) delivered delivered2 continues continues2 sha256Hex JSON_parse deployment qualifier
    callbacks pages registration delivery id s0 w0 steps s r w1 m c t a maxRetries pages2 causation s2 w2 steps2 s3 result w3 :
  (forall x, mine x \/ mine2 x -> isUuid4 x = true) ->
  let scope := scope_of deployment registration in
  let k := requestStateKey (partitionKey scope) (m_refund_request_id m) in
  d_scope (deps s0) = scope -> d_scope (deps s2) = scope -> request_row k ->
  validation JSON_parse registration delivery = accepted m ->
  fresh_start mine (journalPartitionKey scope) s0 w0 ->
  iexec (variant_step mine delivered continues) (rely2 mine)
    (invocation sha256Hex JSON_parse deployment qualifier callbacks pages registration delivery id s0) w0 steps (s, r) w1 ->
  (c, t) ∈ calls w1 -> member "attempt_id" c = Some (JStr a) -> mine a ->
  later (store w1) (store w2) -> writer_ok mine2 s2 w2 ->
  iexec (variant_step mine2 delivered2 continues2) (rely2 mine2) (reconcileOrphans scope maxRetries pages2 (m_refund_request_id m) causation s2)
    w2 steps2 (s3, Ok (Some result)) w3 ->
  (forall f, result <> not_recorded_state f) ->
  exists st, reaches k st (store w3 caller_journal k) /\ a ∈ attempt_ids st.
Proof.
  intros Hu scope k Hscope Hscope2 Hkey Hv Hf Hx Hc Hid Ha Hl Hs2 Hx2 Hres. pose proof Hf as (Hs & Hb & Hun & _).
  assert (Hu1 : forall x, mine x -> isUuid4 x = true) by auto. assert (Hu2 : forall x, mine2 x -> isUuid4 x = true) by auto.
  pose (requests := fun q => q = m_refund_request_id m).
  assert (Hdk : request_row (delivery_key JSON_parse deployment registration delivery)) by (unfold delivery_key; by rewrite Hv).
  assert (Hreq : forall m', validation JSON_parse registration delivery = accepted m' -> requests (m_refund_request_id m')).
  { intros m' E. rewrite Hv in E. by injection E as <-. }
  pose proof (invocation_spec mine requests (journalPartitionKey scope) delivered continues Hu1 sha256Hex JSON_parse deployment qualifier callbacks pages
    registration delivery id s0 w0 Hscope eq_refl Hdk Hreq Hs Hb Hun) as Hspec.
  apply (rg_invariant mine requests (journalPartitionKey scope) delivered continues (calls_have_rows mine requests (journalPartitionKey scope))) in Hspec;
    [|apply calls_have_rows_rely|by apply calls_have_rows_guar|by eapply fresh_rows].
  destruct (rg_iexec _ _ _ _ _ _ _ _ _ _ Hspec Hx) as [[(Hk1 & _ & _) [_ Hcalls]] _].
  rewrite Forall_forall in Hcalls. destruct (Hcalls _ Hc) as (b & q & Hb' & _ & -> & Hrow); [by exists a|]. cbn [fst] in Hb'.
  rewrite Hid in Hb'. injection Hb' as <-.
  destruct (rg_iexec _ _ _ _ _ _ _ _ _ _ (reconcile_spec mine2 requests "" delivered2 continues2 Hu2 scope maxRetries pages2 s2 w2 Hscope2 Hs2
    (later_backed _ _ Hl Hk1) (m_refund_request_id m) causation Hkey) Hx2) as [(j & _ & _ & _ & H) _]. cbn in H.
  pose proof (attempt_row_later _ _ _ _ _ Hl Hrow) as Hrow2.
  destruct result as [e st| |f]; [|by apply H; [apply Hu1|]|by destruct (Hres f)].
  destruct H as [_ (orphans & (bs & p & _ & _ & Hreach & _) & Hall)]. exists st. split; [done|]. apply Hall; auto.
Qed.

(** ** A lost invocation and the next one *)

Section demo.
Let part : string := journalPartitionKey ExchangeCorrect.demo_scope.
Let k : ItemKey := requestStateKey part "ref-poc-001".

Definition demo_registration : TrialRegistration :=
  MkRegistration v_conventional (MkRef f_run_id demo_id) ExchangeCorrect.demo_sha demo_id ExchangeCorrect.demo_sha 1 "2026-10-05T11:00:00.000Z".
Definition demo_message : Message := MkMessage (MkRef f_run_id demo_id) demo_id ExchangeCorrect.demo_sha "pay-poc-001" "ref-poc-001".
(** A runtime that parses the message and the provider's answer. *)
Definition demo_parse (t : string) : Result json string :=
  if bool_decide (t = "message") then Ok (JObj (message_json demo_message)) else ExchangeCorrect.parses "{...}" (JObj ExchangeCorrect.demo_answer) t.
Definition demo_delivery : DeliveryContext := MkDelivery "m-1" 1 "message".
Definition demo_source (instance : string) : ClientState := openJournal ExchangeCorrect.demo_scope instance.
(** The keys of the invocation's journal and attempt; the table refuses the request's state. *)
Definition own_sks : list string := attemptStateSortKey demo_id :: map (sort_key "conventional_caller" demo_id) (seqZ 1 10).
(** The keys the table takes then. *)
Definition later_sks : list string := sk k :: sort_key "conventional_caller" demo_orphan 1 :: own_sks.
Definition full_sks : list string := sk k :: own_sks.

Definition demo_invocation (sks : list string) :=
  run (calm2 sks) (invocation (fun _ => ExchangeCorrect.demo_sha) demo_parse (id_run demo_id) "7" 1 1 demo_registration demo_delivery "request-1"
    (demo_source demo_id)) demo_world.

Lemma demo_fresh : fresh_start demo_mine part (demo_source demo_id) demo_world.
Proof.
  split; [by apply fresh_writer_ok|]. split; [|split; [constructor|done]]. intros q Hq. exists [], RUNNING. split; [done|]. cbn. lia.
Qed.

Lemma trial_uuids x : demo_mine x -> isUuid4 x = true.
Proof. intros ->. by vm_compute. Qed.

Lemma demo_key : request_row k.
Proof. apply short_request_row. vm_compute. lia. Qed.

Lemma conventional_delivery_truthful_witness :
  (demo_invocation full_sks).1.2 = Ok (Some complete)
  /\ delivery_view demo_mine demo_delivered (fun _ => ExchangeCorrect.demo_sha) demo_parse (id_run demo_id) "7" demo_registration demo_delivery
       (demo_source demo_id) demo_world complete (demo_invocation full_sks).2.
Proof.
  assert (Er : (demo_invocation full_sks).1.2 = Ok (Some complete)) by (vm_compute; reflexivity). split; [exact Er|].
  destruct (calm2_iexec demo_mine full_sks (invocation (fun _ => ExchangeCorrect.demo_sha) demo_parse (id_run demo_id) "7" 1 1 demo_registration demo_delivery "request-1"
    (demo_source demo_id)) demo_world) as [steps Hx]; [done|intros s m H; discriminate H|].
  fold (demo_invocation full_sks) in Hx. destruct (demo_invocation full_sks) as [[s r] w]. cbn [fst snd] in *. subst r.
  refine (proj2 (proj2 (proj2 (proj2 (conventional_delivery_truthful demo_mine (eq "ref-poc-001") demo_delivered (fun _ _ => False) _ _ _ _ _ _ _ _ _ _ _ _ _ _ _
    trial_uuids _ _ _ _ Hx)))) complete _); [reflexivity|exact demo_key| |exact demo_fresh|reflexivity].
  intros m Hm. vm_compute in Hm. injection Hm as <-. reflexivity.
Defined.

(** The first invocation's call is sent, but the state after it is not recorded; the next reconciles. *)
Definition lost_world : world := (demo_invocation own_sks).2.
Definition next_reconcile := run (calm2 later_sks) (reconcileOrphans ExchangeCorrect.demo_scope 2 1 "ref-poc-001" [demo_orphan] (demo_source demo_orphan)) lost_world.
Definition both (x : string) : Prop := x = demo_id \/ x = demo_orphan.

Lemma lost_listed : only_listed own_sks lost_world.
Proof. unfold lost_world, demo_invocation. apply calm2_listed. intros s m H. discriminate H. Qed.

Lemma next_ready : writer_ok both (demo_source demo_orphan) lost_world.
Proof.
  apply fresh_writer_ok; [by right|]. intros n Hn. destruct (store lost_world caller_journal _) as [m|] eqn:E; [|done]. exfalso.
  apply lost_listed in E. unfold own_sks in E. apply elem_of_cons in E as [E|E].
  - apply (f_equal (String.substring 0 1)) in E. vm_compute in E. discriminate E.
  - apply list_elem_of_fmap in E as (i & E & _). unfold sort_key, demo_orphan, demo_id, ExchangeCorrect.demo_uuid in E. cbn in E. discriminate E.
Qed.

Lemma provider_call_never_forgotten_witness :
  (exists f, (demo_invocation own_sks).1.2 = Err f) /\ map fst (calls lost_world) = [ExchangeCorrect.demo_call]
  /\ exists st, reaches k st (store next_reconcile.2 caller_journal k) /\ demo_id ∈ attempt_ids st.
Proof.
  split; [eexists; vm_compute; reflexivity|]. assert (Hcalls : map fst (calls lost_world) = [ExchangeCorrect.demo_call]) by (vm_compute; reflexivity).
  split; [exact Hcalls|]. destruct (calls lost_world) as [|[c t] l] eqn:Ec; [discriminate Hcalls|]. injection Hcalls as -> _.
  destruct (calm2_iexec demo_mine own_sks (invocation (fun _ => ExchangeCorrect.demo_sha) demo_parse (id_run demo_id) "7" 1 1 demo_registration demo_delivery
    "request-1" (demo_source demo_id)) demo_world) as [steps Hx]; [done|intros s m H; discriminate H|].
  fold (demo_invocation own_sks) in Hx. fold lost_world in Hx. destruct (demo_invocation own_sks).1 as [s r].
  destruct (calm2_iexec both later_sks (reconcileOrphans ExchangeCorrect.demo_scope 2 1 "ref-poc-001" [demo_orphan] (demo_source demo_orphan)) lost_world)
    as [steps2 Hx2]; [by left|intros q m H; by do 2 right; apply (lost_listed q m)|].
  fold next_reconcile in Hx2. destruct next_reconcile.1 as [s2 r2] eqn:E2.
  assert (Er : exists e st, r2 = Ok (Some (recorded e st))).
  { assert (E3 : r2 = next_reconcile.1.2) by (rewrite E2; reflexivity). rewrite E3. eexists _, _. vm_compute; reflexivity. }
  destruct Er as (e & st & ->).
  apply (provider_call_never_forgotten demo_mine both demo_delivered demo_delivered (fun _ _ => False) (fun _ _ => False)
    (fun _ => ExchangeCorrect.demo_sha) demo_parse (id_run demo_id) "7" 1 1 demo_registration demo_delivery "request-1" (demo_source demo_id) demo_world steps s r lost_world
    demo_message ExchangeCorrect.demo_call t demo_id 2 1 [demo_orphan] (demo_source demo_orphan) lost_world steps2 s2 (recorded e st) next_reconcile.2);
    [|reflexivity|reflexivity|exact demo_key|vm_compute; reflexivity|exact demo_fresh|exact Hx| |vm_compute; reflexivity|reflexivity|reflexivity
    |exact next_ready|exact Hx2|intros f Ef; discriminate Ef].
  - intros x [->|[->| ->]]; vm_compute; reflexivity.
  - rewrite Ec. by left.
Defined.
End demo.
End ConventionalSafety.
