(* ===== verification/Durable.v ===== *)
(** * The Durable variant (src/study-1/src/durable-variant/)

    The SQS delivery (durable-sqs-delivery.ts), the step's disposition (durable-disposition.ts)
    and retry strategy (durable-retry.ts), what a step attempt throws (durable-fault.ts), the
    step attempt (durable-refund-caller.ts) as durable-composition.ts wires it, the handler
    (durable-refund-handler.ts) over the SDK's [context.step], and the environment
    (durable-environment.ts).

    The SDK is a parameter: it runs the step attempts, each in its own Lambda invocation, and asks
    the strategy after each that threw. *)

From S2P Require Import Prelude AttemptLifecycle Timestamps Decimals Utf16 Effects Store JsonText Parsing LeaseItem Journal Money ControlItems Acceptance.
From S2P Require Import Provider ProviderExchange ProviderClient Controller Ingestion TrialMessage RequestState Conventional.
Import Attempt Json Store Utc Identifiers JsonText Journal ProviderExchange ProviderClient TrialMessage RequestState.
Import Provider(eventId).
Import Conventional(rejection_members, not_registered_text, scope_of, error_texts).
Import (notations) Stdlib.Strings.Ascii.
Open Scope Z_scope.

Module Durable.

(** ** One delivery *)

Record DurableDelivery := MkDurableDelivery { message_id : string; approximate_receive_count : Z; dl_body : string }.

Definition DURABLE_MESSAGE_ID_LIMIT : nat := 128.

(** [/^[1-9][0-9]{0,14}$/u] *)
Definition RECEIVE_COUNT_PATTERN (s : string) : bool :=
  match chars s with
  | [] => false
  | first :: rest => Decimals.is_digit first && negb (bool_decide (first = "0"%char)) && forallb Decimals.is_digit rest && (length rest <=? 14)%nat
  end.

Definition messageIdViolation (v : option json) : string :=
  "SQS record messageId " +:+ describeJson v +:+ "; expected a string of 1 to "
  +:+ string_of_Z (Z.of_nat DURABLE_MESSAGE_ID_LIMIT) +:+ " characters".

Definition deliveryOfRecord (record : list (string * json)) : Result DurableDelivery string :=
  match member "messageId" record with
  | Some (JStr id) =>
      if bool_decide (id = "") || (DURABLE_MESSAGE_ID_LIMIT <? Utf16.js_length id)%nat then Err (messageIdViolation (Some (JStr id)))
      else
      match member "body" record with
      | Some (JStr body) =>
          let count := match member "attributes" record with Some (JObj a) => member "ApproximateReceiveCount" a | _ => None end in
          let violation := "SQS record attributes.ApproximateReceiveCount " +:+ describeJson count +:+ "; expected a positive decimal integer string" in
          match count with
          | Some (JStr c) =>
              if RECEIVE_COUNT_PATTERN c then Ok (MkDurableDelivery id (Decimals.digits_value (chars c)) body) else Err violation
          | _ => Err violation
          end
      | v => Err ("SQS record body " +:+ describeJson v +:+ "; expected a string")
      end
  | v => Err (messageIdViolation v)
  end.

Definition parseDurableSqsDelivery (event : json) : Result DurableDelivery string :=
  let records := match event with JObj e => member "Records" e | _ => None end in
  match records with
  | Some (JArr [JObj record]) => deliveryOfRecord record
  | Some (JArr [record]) => Err ("SQS record " +:+ describeJson (Some record) +:+ "; expected a JSON object")
  | _ => Err ("SQS event Records " +:+ describeJson records +:+ "; expected an array of exactly one record (BatchSize 1)")
  end.

(** ** The retry strategy *)

Definition DURABLE_STEP_ATTEMPTS : Z := 2.
Definition DURABLE_RETRY_DELAY_SECONDS : Z := 60.

Record DurableRetryConfig := MkRetry { attempts : Z; delay_seconds : Z }.
Definition DEPLOYED_DURABLE_RETRY : DurableRetryConfig := MkRetry DURABLE_STEP_ATTEMPTS DURABLE_RETRY_DELAY_SECONDS.

(** The SDK's [RetryDecision]: the delay of a retry. *)
Inductive StepRetryDecision := should_retry (seconds : Z) | stop_retrying.

(** The strategy reads the number of attempts made and not the error. *)
Definition createStepRetryStrategy (cfg : DurableRetryConfig) : Result (Z -> StepRetryDecision) js_error :=
  if negb (isPositiveSafeInteger (delay_seconds cfg)) then
    Err (RangeError ("Durable retry delay_seconds " +:+ string_of_Z (delay_seconds cfg) +:+ "; expected a positive safe integer number of seconds"))
  else Ok (fun attemptsMade => if attemptsMade <? attempts cfg then should_retry (delay_seconds cfg) else stop_retrying).

(** ** The disposition of a step attempt *)

Definition DURABLE_MAX_RECEIVE_COUNT : Z := 2.

(** [complete] holds the terminal reason of a definitive finish, the others the failed class. *)
Inductive DurableStepDisposition :=
| complete (terminal_reason : ProcessingTerminalReason)
| retry_step (failed_class : OutcomeClass) (terminality : TerminalityDecision)
| inner_exhausted (failed_class : OutcomeClass) (terminality : TerminalityDecision).

Record DurableStepFacts := MkFacts { fc_outcome_class : OutcomeClass; fc_step_attempt : Z; fc_receive_count : Z }.

Definition DEFINITIVE_FINISHES (cls : OutcomeClass) : option ProcessingTerminalReason :=
  match cls with SUCCESS => Some t_succeeded | REJECTION => Some t_provider_rejected | _ => None end.

Definition assertPositiveSafeInteger (name : string) (value : Z) : Result unit js_error :=
  if isPositiveSafeInteger value then Ok tt
  else Err (RangeError (name +:+ " " +:+ string_of_Z value +:+ "; expected a positive safe integer")).

Definition decideDurableExhaustion (receiveCount maxReceiveCount : Z) : Result TerminalityDecision js_error :=
  let! _ := assertPositiveSafeInteger "receive_count" receiveCount in
  decideTerminality (Attempt.Durable (Z.min receiveCount maxReceiveCount) maxReceiveCount true).

Definition decideDurableStep (facts : DurableStepFacts) : Result DurableStepDisposition js_error :=
  let! _ := assertPositiveSafeInteger "step_attempt" (fc_step_attempt facts) in
  let! _ := assertPositiveSafeInteger "receive_count" (fc_receive_count facts) in
  let cls := fc_outcome_class facts in
  match DEFINITIVE_FINISHES cls with
  | Some reason => Ok (complete reason)
  | None =>
      if DURABLE_STEP_ATTEMPTS <=? fc_step_attempt facts then
        let! t := decideDurableExhaustion (fc_receive_count facts) DURABLE_MAX_RECEIVE_COUNT in
        Ok (inner_exhausted cls t)
      else
        let! t := decideTerminality (Attempt.Durable (Z.min (fc_receive_count facts) DURABLE_MAX_RECEIVE_COUNT) DURABLE_MAX_RECEIVE_COUNT false) in
        Ok (retry_step cls t)
  end.

Definition processingUpdateOf (d : DurableStepDisposition) : ProcessingUpdate :=
  match d with
  | complete reason => pu_finished reason
  | retry_step _ STILL_RUNNING | inner_exhausted _ STILL_RUNNING => pu_running
  | retry_step _ RETRIES_EXHAUSTED | inner_exhausted _ RETRIES_EXHAUSTED => pu_finished t_retries_exhausted
  end.

(** ** Faults *)

Inductive DurableFaultCode :=
| DELIVERY_INVALID | F_REGISTRY_UNREADABLE | F_NO_ACTIVE_TRIAL | REGISTRATION_MISMATCH | JOURNAL_STOPPED | ATTEMPT_NOT_REGISTERED
| STATE_NOT_RECORDED.
Definition fault_text (c : DurableFaultCode) : string :=
  match c with
  | DELIVERY_INVALID => "DELIVERY_INVALID" | F_REGISTRY_UNREADABLE => "REGISTRY_UNREADABLE" | F_NO_ACTIVE_TRIAL => "NO_ACTIVE_TRIAL"
  | REGISTRATION_MISMATCH => "REGISTRATION_MISMATCH" | JOURNAL_STOPPED => "JOURNAL_STOPPED"
  | ATTEMPT_NOT_REGISTERED => "ATTEMPT_NOT_REGISTERED" | STATE_NOT_RECORDED => "STATE_NOT_RECORDED"
  end.

Definition class_text (c : OutcomeClass) : string :=
  match c with PRE_DISPATCH_FAILURE => "PRE_DISPATCH_FAILURE" | REJECTION => "REJECTION" | SUCCESS => "SUCCESS" | AMBIGUOUS => "AMBIGUOUS" end.

Record FailedStepAttempt := MkFailed {
  fs_lambda_request_id : string;
  fs_durable_execution_arn : string;
  fs_step_attempt : Z;
  fs_attempt_id : string;
  fs_outcome_class : OutcomeClass;
}.

(** What a step attempt throws: [DurableCallerFault], [StepAttemptFailed] or an error of the code
    it calls; the handler also sees what the SDK throws for an exhausted step, by name and message. *)
Inductive DurableThrow :=
| caller_fault (code : DurableFaultCode) (lambda_request_id detail : string)
| step_failed (failed : FailedStepAttempt)
| unexpected (e : thrown)
| sdk_error (name message : string)
| no_error_thrown.

Definition fault_message (code : DurableFaultCode) (detail : string) : string := fault_text code +:+ ": " +:+ detail.

(** ** The step attempt *)

Record DurableInvocation := MkInvocation { lambda_request_id : string; durable_execution_arn : string; step_attempt : Z }.

Abbreviation DVM := (SE VariantEff ClientState DurableThrow).

(** The terminal reason a completed step checkpoints. *)
Abbreviation DurableStepResult := ProcessingTerminalReason.

Definition durable_append (type : string) (body : list (string * json)) (causation : list string) : DVM AppendResult :=
  calling unexpected (on_client (journal_append type body causation)).

Definition deployedExecutionRef (deployment : ExecutionIdentity) : TrialExecutionRef :=
  match deployment with
  | id_run i => MkRef f_run_id i
  | id_variant_validation i | id_transport_probe i => MkRef f_variant_validation_id i
  end.

Definition DURABLE_JOURNAL_DEFINITIVE_RETRIES : Z := 2.

Definition journalFault (invocation : DurableInvocation) (eventType : string) (s : JournalStopped) : DurableThrow :=
  caller_fault JOURNAL_STOPPED (lambda_request_id invocation) (eventType +:+ " not written: " +:+ stop_text (stop_reason s)).

Definition assertRecorded (result : RequestStateRecordResult) (invocation : DurableInvocation) (what : string) : DVM unit :=
  match result with
  | not_recorded_state f =>
      se_throw (caller_fault STATE_NOT_RECORDED (lambda_request_id invocation)
        (what +:+ " not recorded: " +:+ state_failure_text (nr_code f) +:+ ": " +:+ nr_detail f))
  | _ => se_ret tt
  end.

Definition attempt_throw (invocation : DurableInvocation) (x : thrown) : DurableThrow :=
  match x with
  | not_registered a k => caller_fault ATTEMPT_NOT_REGISTERED (lambda_request_id invocation) (not_registered_text a k)
  | other _ => unexpected x
  end.

Section caller.
Context (sha256Hex : list Z -> string) (JSON_parse : string -> Result json string).
Context (deployment : ExecutionIdentity) (provider_qualifier : string) (callbacks pages : nat).

Definition activeRegistration (lambdaRequestId : string) (read : Result (option StoredItem) string) : Result TrialRegistration DurableThrow :=
  match activeTrialOf v_durable read with
  | Err f => Err (caller_fault F_REGISTRY_UNREADABLE lambdaRequestId (registry_code_text (rf_code f) +:+ ": " +:+ rf_detail f))
  | Ok None => Err (caller_fault F_NO_ACTIVE_TRIAL lambdaRequestId
      "the trial registry holds no active durable trial; expected the runner to register the trial before publishing its message")
  | Ok (Some r) =>
      let deployed := deployedExecutionRef deployment in
      if bool_decide (tr_execution r = deployed) then Ok r
      else Err (caller_fault REGISTRATION_MISMATCH lambdaRequestId
             ("the active durable registration names " +:+ ref_text (tr_execution r) +:+ "; expected the deployed " +:+ ref_text deployed))
  end.

Definition reject (scope : JournalScope) (invocation : DurableInvocation) (delivery : DurableDelivery) (started : string) (rejection : ConsumerRejection) :
  DVM DurableStepResult :=
  (rejected <- durable_append "trial_message_rejected"
     (rejection_members rejection ++ [("message_id", JStr (message_id delivery));
        ("message_body_sha256", JStr (sha256Hex (Parsing.bytes_of (dl_body delivery))))]) [started] ;;
   match rejected with
   | ap_stopped x => se_throw (journalFault invocation "trial_message_rejected" x)
   | ap_appended e =>
       recorded <- calling unexpected (recordMessageRejected scope DURABLE_JOURNAL_DEFINITIVE_RETRIES
                     (carried_refund (rj_identity rejection)) (message_id delivery) [eventId e]) ;;
       assertRecorded recorded invocation "MESSAGE_REJECTED" ;;;
       se_ret t_message_rejected
   end)%se.

Definition attempt_input (message : Message) (started : string) : AttemptInput :=
  MkInput ControlItems.durable (m_refund_request_id message) (m_payment_id message) (JSInt (amount_minor OR_RUA_001_REFUND))
    (currency OR_RUA_001_REFUND) provider_qualifier [started].

Definition exhausted_body (invocation : DurableInvocation) (delivery : DurableDelivery) (request attempt_id : string) : list (string * json) :=
  [("refund_request_id", JStr request); ("durable_execution_arn", JStr (durable_execution_arn invocation));
   ("step_attempts", JNum (JSInt (step_attempt invocation))); ("approximate_receive_count", JNum (JSInt (approximate_receive_count delivery)));
   ("last_attempt_id", JStr attempt_id)].

Definition conclude (invocation : DurableInvocation) (delivery : DurableDelivery) (request attempt_id : string) (disposition : DurableStepDisposition)
  (outcome : string) : DVM DurableStepResult :=
  let failure cls := se_throw (step_failed (MkFailed (lambda_request_id invocation) (durable_execution_arn invocation) (step_attempt invocation) attempt_id cls)) in
  match disposition with
  | complete reason => se_ret reason
  | retry_step cls _ => failure cls
  | inner_exhausted cls _ =>
      (exhausted <- durable_append "inner_execution_exhausted" (exhausted_body invocation delivery request attempt_id) [outcome] ;;
       match exhausted with
       | ap_stopped x => se_throw (journalFault invocation "inner_execution_exhausted" x)
       | ap_appended _ => failure cls
       end)%se
  end.

(** [None] when a wait of the attempt, or the reading of the partition, has not ended. *)
Definition attempt (scope : JournalScope) (invocation : DurableInvocation) (delivery : DurableDelivery) (started : string) (message : Message) :
  DVM (option DurableStepResult) :=
  let request := m_refund_request_id message in
  (reconciled <- calling unexpected (reconcileOrphans scope DURABLE_JOURNAL_DEFINITIVE_RETRIES pages request [started]) ;;
   match reconciled with
   | None => se_ret None
   | Some reconciled =>
   assertRecorded reconciled invocation "the orphan reconciliation" ;;;
   report <- calling (attempt_throw invocation) (on_client
               (performAttempt JSON_parse scope DURABLE_JOURNAL_DEFINITIVE_RETRIES callbacks (attempt_input message started))) ;;
   match report with
   | None => se_ret None
   | Some rep =>
       let attempt_id := ai_attempt_id (rp_ids rep) in
       match rp_outcome_event_id rep with
       | None =>
           se_throw (caller_fault JOURNAL_STOPPED (lambda_request_id invocation)
             ("attempt " +:+ attempt_id +:+ " ended " +:+ outcome_text (rp_outcome rep)
              +:+ " without its attempt_outcome_recorded event; the next step attempt reconciles it"))
       | Some outcome =>
           disposition <- se_of (match decideDurableStep (MkFacts (rp_outcome_class rep) (step_attempt invocation) (approximate_receive_count delivery)) with
                                 | Ok d => Ok d | Err e => Err (unexpected (other e)) end) ;;
           recorded <- calling unexpected (recordAttemptResult scope DURABLE_JOURNAL_DEFINITIVE_RETRIES request
                         (MkAccounted attempt_id (rp_outcome_class rep)) (processingUpdateOf disposition) [outcome]) ;;
           assertRecorded recorded invocation ("the state after attempt " +:+ attempt_id) ;;;
           result <- conclude invocation delivery request attempt_id disposition outcome ;;
           se_ret (Some result)
       end
   end
   end)%se.

(** The step attempt, from its journal on. *)
Definition stepAttempt (registration : TrialRegistration) (delivery : DurableDelivery) (invocation : DurableInvocation) : DVM (option DurableStepResult) :=
  let scope := scope_of deployment registration in
  (started <- durable_append "caller_invocation_started"
     [("lambda_request_id", JStr (lambda_request_id invocation)); ("message_id", JStr (message_id delivery));
      ("approximate_receive_count", JNum (JSInt (approximate_receive_count delivery)));
      ("durable_execution_arn", JStr (durable_execution_arn invocation)); ("step_attempt", JNum (JSInt (step_attempt invocation)))] [] ;;
   match started with
   | ap_stopped x => se_throw (journalFault invocation "caller_invocation_started" x)
   | ap_appended e =>
       match validateDeliveredMessage JSON_parse (dl_body delivery) (Some registration) with
       | rejected rejection => r <- reject scope invocation delivery (eventId e) rejection ;; se_ret (Some r)
       | accepted message => attempt scope invocation delivery (eventId e) message
       end
   end)%se.

(** [openJournal]: a new writer of a new source instance. *)
Definition openJournal (scope : JournalScope) (instance : string) : ClientState :=
  MkClient (MkDeps "durable_caller" instance scope DURABLE_JOURNAL_DEFINITIVE_RETRIES) (MkWriter 1 None None None 0 0).

Definition runStepAttempt (delivery : DurableDelivery) (invocation : DurableInvocation) : proc VariantEff (Result (option DurableStepResult) DurableThrow) :=
  pbind (perform (inr (GetItem trial_registry (trialRegistryItemKey v_durable)) : VariantEff _)) (fun read =>
  match activeRegistration (lambda_request_id invocation) read with
  | Err x => Ret (Err x)
  | Ok registration =>
      pbind (perform (inl (inr NextUuid) : VariantEff _)) (fun instance =>
      pbind (stepAttempt registration delivery invocation (openJournal (scope_of deployment registration) instance)) (fun '(_, r) => Ret r))
  end).

(** ** The handler *)

Inductive DurableLogLine :=
| fault_log (code : DurableFaultCode) (request detail : string)
| step_failed_log (failed : FailedStepAttempt)
| execution_failed_log (request arn error_name detail : string)
| step_error_log (invocation : DurableInvocation) (error_name detail : string).

(** The name and message of what was thrown; [no_error_thrown] is no [Error]. *)
Definition describeThrown (x : DurableThrow) : string * string :=
  let bounded p := (boundedText p.1 QUOTED_JSON_LIMIT, boundedText p.2 QUOTED_JSON_LIMIT) in
  match x with
  | caller_fault code _ detail => bounded ("DurableCallerFault", fault_message code detail)
  | step_failed f => bounded ("StepAttemptFailed",
      "step attempt " +:+ string_of_Z (fs_step_attempt f) +:+ " of " +:+ fs_durable_execution_arn f +:+ " ended " +:+ class_text (fs_outcome_class f)
      +:+ " (attempt " +:+ fs_attempt_id f +:+ "); the step retry strategy decides what follows")
  | unexpected e => bounded (error_texts e)
  | sdk_error name message => bounded (name, message)
  | no_error_thrown => ("NonErrorThrown", "a thrown value that is not an Error instance")
  end.

Definition stepFailureLog (invocation : DurableInvocation) (x : DurableThrow) : DurableLogLine :=
  match x with
  | caller_fault code id detail => fault_log code id (fault_message code detail)
  | step_failed f => step_failed_log f
  | _ => step_error_log invocation (describeThrown x).1 (describeThrown x).2
  end.

Definition executionFailureLog (request arn : string) (x : DurableThrow) : DurableLogLine :=
  match x with
  | caller_fault code id detail => fault_log code id (fault_message code detail)
  | _ => execution_failed_log request arn (describeThrown x).1 (describeThrown x).2
  end.

(** What ran so far has logged, and ended so. *)
Definition Logged (A : Type) : Type := list DurableLogLine * Result A DurableThrow.

Definition runLoggedStep (delivery : DurableDelivery) (invocation : DurableInvocation) : proc VariantEff (Logged (option DurableStepResult)) :=
  pbind (runStepAttempt delivery invocation) (fun r =>
  Ret (match r with Err x => [stepFailureLog invocation x] | Ok _ => [] end, r)).

Definition deliveryOf (event : json) (request : string) : Result DurableDelivery DurableThrow :=
  match parseDurableSqsDelivery event with
  | Ok delivery => Ok delivery
  | Err e => Err (caller_fault DELIVERY_INVALID request e)
  end.

(** [context_step] is the SDK's step: it runs the program of an attempt number as its own rules and the strategy say. *)
Definition refundHandler
  (context_step : (Z -> proc VariantEff (Logged (option DurableStepResult))) -> (Z -> StepRetryDecision) -> proc VariantEff (Logged (option DurableStepResult)))
  (retryStrategy : Z -> StepRetryDecision) (event : json) (request arn : string) : proc VariantEff (Logged (option DurableStepResult)) :=
  pbind (match deliveryOf event request with
         | Err x => Ret ([], Err x)
         | Ok delivery => context_step (fun n => runLoggedStep delivery (MkInvocation request arn n)) retryStrategy
         end) (fun '(lines, r) =>
  Ret (match r with Err x => lines ++ [executionFailureLog request arn x] | Ok _ => lines end, r)).

Definition createDurableRefundHandler
  (context_step : (Z -> proc VariantEff (Logged (option DurableStepResult))) -> (Z -> StepRetryDecision) -> proc VariantEff (Logged (option DurableStepResult)))
  (cfg : DurableRetryConfig) : Result (json -> string -> string -> proc VariantEff (Logged (option DurableStepResult))) js_error :=
  let! strategy := createStepRetryStrategy cfg in Ok (refundHandler context_step strategy).
End caller.

(** ** The environment *)

Record DurableEnvironment := MkEnvironment {
  de_deployment : ExecutionIdentity;
  de_caller_journal_table : string;
  de_trial_registry_table : string;
  de_provider_function_name : string;
  de_provider_qualifier : string;
}.

Definition readVariable (env : string -> option string) (name : string) (accepts : string -> bool) (shape : string) : Result string string :=
  match env name with
  | Some value => if accepts value then Ok value else Err (name +:+ " " +:+ describeJson (Some (JStr value)) +:+ "; expected " +:+ shape)
  | None => Err (name +:+ " " +:+ describeJson None +:+ "; expected " +:+ shape)
  end.

Definition isDurableExecutionKind (value : string) : bool := memb value ["RUN"; "VARIANT_VALIDATION"].
Definition isDurable (value : string) : bool := bool_decide (value = "durable").

Definition parseDurableEnvironment (env : string -> option string) : Result DurableEnvironment string :=
  let kind := readVariable env "SUC_EXECUTION_KIND" isDurableExecutionKind "RUN or VARIANT_VALIDATION" in
  let id := readVariable env "SUC_EXECUTION_ID" isUuid4 "a lowercase RFC 4122 version-4 UUID" in
  let journal := readVariable env "SUC_TABLE_CALLER_JOURNAL" Controller.isTableName "a non-empty table name" in
  let registry := readVariable env "SUC_TABLE_TRIAL_REGISTRY" Controller.isTableName "a non-empty table name" in
  let functionName := readVariable env "SUC_PROVIDER_FUNCTION_NAME" Controller.isTableName "a non-empty function name" in
  let qualifier := readVariable env "SUC_PROVIDER_QUALIFIER" PROVIDER_VERSION_PATTERN "a published version number" in
  let variant := readVariable env "SUC_VARIANT_ID" isDurable "durable" in
  match kind, id, journal, registry, functionName, qualifier, variant with
  | Ok kind, Ok id, Ok journal, Ok registry, Ok fn, Ok qualifier, Ok _ =>
      Ok (MkEnvironment (if bool_decide (kind = "RUN") then id_run id else id_variant_validation id) journal registry fn qualifier)
  | _, _, _, _, _, _, _ =>
      Err ("durable caller environment invalid: "
           +:+ str_join "; " (flat_map Controller.error_of [kind; id; journal; registry; functionName; qualifier; variant]))
  end.
End Durable.
