(* ===== verification/DurableSafety.v ===== *)
(** * Safety of a Durable step attempt

    One step attempt, from its journal on, beside the parties of [RequestSafety]; the agreement
    of the step's disposition with the retry strategy; and what the strategy does with the SDK. *)

From S2P Require Import Prelude AttemptLifecycle Timestamps Effects Store JsonText Parsing LeaseItem Journal JournalSafety JournalTx.
From S2P Require Import Money ControlItems Acceptance Provider ProviderExchange ExchangeCorrect ProviderClient ClientSafety.
From S2P Require Import Ingestion TrialMessage RequestState RequestSafety VariantSafety Conventional Durable.
Import Attempt Json Store Utc Identifiers JsonText Journal JournalSafety ProviderExchange ProviderClient ClientSafety TrialMessage RequestState
  RequestSafety VariantSafety Durable.
Import Provider(eventId).
Import Conventional(rejection_members, scope_of).
Open Scope Z_scope.

Module DurableSafety.

(** ** The layers agree *)

Definition fails (cls : OutcomeClass) : Prop := DEFINITIVE_FINISHES cls = None.

Lemma durable_terminality n exhausted : isPositiveSafeInteger n = true ->
  decideTerminality (Attempt.Durable (Z.min n DURABLE_MAX_RECEIVE_COUNT) DURABLE_MAX_RECEIVE_COUNT exhausted)
  = Ok (if exhausted then if DURABLE_MAX_RECEIVE_COUNT <=? n then RETRIES_EXHAUSTED else STILL_RUNNING else STILL_RUNNING).
Proof.
  intros Hn. assert (Hn1 : 1 <= n) by (by apply andb_prop in Hn as [_ Hn%Z.geb_le]).
  destruct (decide (n = 1)) as [->|]; [by destruct exhausted|].
  rewrite Z.min_r by (unfold DURABLE_MAX_RECEIVE_COUNT; lia). rewrite (proj2 (Z.leb_le _ _)) by (unfold DURABLE_MAX_RECEIVE_COUNT; lia).
  by destruct exhausted.
Qed.

(** The Durable retry layers agree. On a positive step attempt and receive count the disposition never throws: a success or
    a rejection completes the step with its reason, and any other outcome fails it as [retry_step] exactly when the deployed
    strategy tells the SDK to retry (60 s later), and as [inner_exhausted] exactly when it tells it to stop. The request
    finishes as RETRIES_EXHAUSTED only when no layer is left, the last step attempt of the last receive, and otherwise keeps
    running. Other counts throw. *)
Theorem durable_layers_agree (cls : OutcomeClass) (n receives : Z) :
  exists strategy, createStepRetryStrategy DEPLOYED_DURABLE_RETRY = Ok strategy /\
  ((isPositiveSafeInteger n = true /\ isPositiveSafeInteger receives = true ->
    exists d, decideDurableStep (MkFacts cls n receives) = Ok d /\
      match d with
      | complete reason => DEFINITIVE_FINISHES cls = Some reason
      | retry_step c t => c = cls /\ fails cls /\ strategy n = should_retry 60 /\ processingUpdateOf d = pu_running
      | inner_exhausted c t => c = cls /\ fails cls /\ strategy n = stop_retrying
          /\ processingUpdateOf d = (if 2 <=? receives then pu_finished t_retries_exhausted else pu_running)
      end)
   /\ (~ (isPositiveSafeInteger n = true /\ isPositiveSafeInteger receives = true) ->
       exists message, decideDurableStep (MkFacts cls n receives) = Err (RangeError message))).
Proof.
  eexists. split; [reflexivity|]. unfold decideDurableStep, assertPositiveSafeInteger. cbn [fc_step_attempt fc_receive_count fc_outcome_class]. split.
  - intros [Hn Hr]. rewrite Hn, Hr. cbn [bind_result]. unfold fails. destruct (DEFINITIVE_FINISHES cls) as [reason|] eqn:Ec; [by eexists|].
    unfold decideDurableExhaustion, assertPositiveSafeInteger. rewrite Hr. cbn [bind_result]. rewrite !durable_terminality by done. cbn [bind_result attempts DEPLOYED_DURABLE_RETRY delay_seconds].
    destruct (Z.leb_spec DURABLE_STEP_ATTEMPTS n) as [E|E]; cbn [bind_result]; eexists; (split; [reflexivity|]); cbn beta iota.
    + rewrite (proj2 (Z.ltb_ge _ _)) by done. split_and!; try done. by destruct (_ <=? _).
    + rewrite (proj2 (Z.ltb_lt _ _)) by done. by split_and!.
  - intros H. destruct (isPositiveSafeInteger n), (isPositiveSafeInteger receives); cbn [bind_result]; [naive_solver|eauto..].
Qed.

(** ** The decision, as a table *)

(** How a step attempt ends: it completes the step, or fails, as the last one or not. *)
Inductive StepFate := step_completes (reason : ProcessingTerminalReason) | step_fails (last : bool).

(** What follows from an outcome's class at a step attempt and a receive count: the step's fate and the request's terminal reason. *)
Definition decided (cls : OutcomeClass) (attempt receives : Z) : StepFate * option ProcessingTerminalReason :=
  match cls with
  | SUCCESS => (step_completes t_succeeded, Some t_succeeded)
  | REJECTION => (step_completes t_provider_rejected, Some t_provider_rejected)
  | PRE_DISPATCH_FAILURE | AMBIGUOUS =>
      if attempt <? 2 then (step_fails false, None) else (step_fails true, if 2 <=? receives then Some t_retries_exhausted else None)
  end.

Definition fate_of (d : DurableStepDisposition) : StepFate :=
  match d with complete reason => step_completes reason | retry_step _ _ => step_fails false | inner_exhausted _ _ => step_fails true end.
Definition terminal_of (u : ProcessingUpdate) : option ProcessingTerminalReason := match u with pu_running => None | pu_finished r => Some r end.

Lemma step_decided cls n receives d : decideDurableStep (MkFacts cls n receives) = Ok d ->
  decided cls n receives = (fate_of d, terminal_of (processingUpdateOf d)).
Proof.
  unfold decideDurableStep, decideDurableExhaustion, assertPositiveSafeInteger. cbn [fc_outcome_class fc_step_attempt fc_receive_count].
  destruct (isPositiveSafeInteger n); [|done]. destruct (isPositiveSafeInteger receives) eqn:Hr; [|done]. cbn [bind_result].
  destruct cls; cbn [DEFINITIVE_FINISHES]; try by intros [= <-].
  all: rewrite !durable_terminality by done; cbn [bind_result decided]; unfold DURABLE_STEP_ATTEMPTS.
  all: destruct (Z.leb_spec 2 n); [rewrite (proj2 (Z.ltb_ge _ _)) by done|rewrite (proj2 (Z.ltb_lt _ _)) by done]; intros [= <-]; [|done].
  all: cbn; unfold DURABLE_MAX_RECEIVE_COUNT; by destruct (2 <=? receives).
Qed.

Lemma terminal_update u : update_state u = match terminal_of u with None => RUNNING | Some _ => FINISHED end.
Proof. by destruct u. Qed.

(** ** One step attempt *)

Section delivery.
Context (mine requests : string -> Prop) (home : string) (delivered : ProviderTransportResult -> Prop) (continues : string -> string -> Prop).
Hypothesis mine_uuids : forall x, mine x -> isUuid4 x = true.

Abbreviation vspec := (rgs (variant_step mine delivered continues) (rely2 mine) (guar2 mine requests home) kept).

Section step.
Context (sha256Hex : list Z -> string) (JSON_parse : string -> Result json string).
Context (deployment : ExecutionIdentity) (provider_qualifier : string) (callbacks pages : nat).
Context (registration : TrialRegistration) (delivery : DurableDelivery) (place : DurableInvocation) (s0 : ClientState) (w0 : world).

Let scope := scope_of deployment registration.
Definition validation : ConsumerValidation := validateDeliveredMessage JSON_parse (dl_body delivery) (Some registration).

(** The row of the state the delivery is about. *)
Definition delivery_key : ItemKey :=
  match validation with
  | accepted m => requestStateKey (partitionKey scope) (m_refund_request_id m)
  | rejected rej => op_key scope (op_rejected (carried_refund (rj_identity rej)) (message_id delivery) [])
  end.

Hypothesis scope_eq : d_scope (deps s0) = scope.
Hypothesis home_eq : journalPartitionKey scope = home.
Hypothesis key_ok : request_row delivery_key.
Hypothesis acts_for : forall m, validation = accepted m -> requests (m_refund_request_id m).

Definition rejected_body (rej : ConsumerRejection) : list (string * json) :=
  rejection_members rej ++ [("message_id", JStr (message_id delivery));
    ("message_body_sha256", JStr (sha256Hex (Parsing.bytes_of (dl_body delivery))))].

(** The one attempt on message [m] ended with the report [rep], its class decides [fate] and [terminal], and the state after it is recorded. *)
Definition attempted (m : Message) (rep : AttemptReport) (fate : StepFate) (terminal : option ProcessingTerminalReason) (w' : world) : Prop :=
  exists started w1 e st,
    attempt_view mine delivered JSON_parse scope (attempt_input provider_qualifier m started) (deps s0) (Ok (Some rep)) w1
    /\ later (store w1) (store w') /\ calls_kept mine w1 w'
    /\ decided (rp_outcome_class rep) (step_attempt place) (approximate_receive_count delivery) = (fate, terminal)
    /\ recorded_view s0 (requestStateKey (partitionKey scope) (m_refund_request_id m)) (Some (m_refund_request_id m)) terminal
         [MkAccounted (ai_attempt_id (rp_ids rep)) (rp_outcome_class rep)] (match terminal with None => RUNNING | Some _ => FINISHED end) w0 e st w'.

(** What a completed step says. *)
Definition result_view (reason : ProcessingTerminalReason) (w' : world) : Prop :=
  match validation with
  | rejected rej =>
      reason = t_message_rejected /\ uncalled mine w'
      /\ (exists e, stored caller_journal (deps s0) "trial_message_rejected" (rejected_body rej) e (store w'))
      /\ exists e st, recorded_view s0 delivery_key (carried_refund (rj_identity rej)) (Some t_message_rejected) [] FINISHED w0 e st w'
  | accepted m => exists rep terminal, attempted m rep (step_completes reason) terminal w'
  end.

(** What a failed step says. *)
Definition failure_view (f : FailedStepAttempt) (w' : world) : Prop :=
  exists m rep last terminal, validation = accepted m /\ attempted m rep (step_fails last) terminal w'
    /\ f = MkFailed (lambda_request_id place) (durable_execution_arn place) (step_attempt place) (ai_attempt_id (rp_ids rep)) (rp_outcome_class rep)
    /\ (last = true -> exists e,
           stored caller_journal (deps s0) "inner_execution_exhausted"
             (exhausted_body place delivery (m_refund_request_id m) (ai_attempt_id (rp_ids rep))) e (store w')).

Definition step_view (s' : ClientState) (r : Result (option ProcessingTerminalReason) DurableThrow) (w' : world) : Prop :=
  kept w' /\ later (store w0) (store w') /\
  match r with Ok (Some reason) => result_view reason w' | Err (step_failed f) => failure_view f w' | _ => True end.

Abbreviation wready := (ready mine s0 w0).

Lemma durable_recorded_spec result what s w (Q : ClientState -> Result unit DurableThrow -> world -> Prop) :
  (forall code id detail, Q s (Err (caller_fault code id detail)) w) -> ((forall f, result <> not_recorded_state f) -> Q s (Ok tt) w) ->
  vspec (assertRecorded result place what) Q s w.
Proof. intros H1 H2. destruct result; [apply H2; by intros ?|apply H2; by intros ?|apply H1]. Qed.

Lemma settled_view (x : DurableThrow) s' w' : (forall f, x <> step_failed f) -> settled w0 w' -> step_view s' (Err x) w'.
Proof. intros Hx [? ?]. split_and!; try done. destruct x as [| f| | |]; try done. by destruct (Hx f). Qed.

Lemma settled_unexpected e s' w' : settled w0 w' -> step_view s' (Err (unexpected e)) w'.
Proof. by apply settled_view. Qed.

Lemma step_reject_spec started rej s w :
  validation = rejected rej -> wready s w -> uncalled mine w ->
  vspec (reject sha256Hex scope place delivery started rej) (fun s' r w' => step_view s' (option_result r) w') s w.
Proof.
  intros Hv Hr Hu. pose proof key_ok as Hk. unfold delivery_key in Hk. rewrite Hv in Hk.
  eapply step_bind; [by apply (append_step mine requests home delivered continues mine_uuids s0 w0 _ _ _ _ _ _ (uncalled_stable mine mine requests))
    |intros ???; apply settled_unexpected|].
  intros [e|x] s1 w1 Hst (_ & Hr1 & Hu1 & He); [|by apply settled_view]. specialize (He e eq_refl).
  eapply step_bind; [by apply (rejected_step mine requests home delivered continues mine_uuids scope _ s0 w0 scope_eq)
    |intros ???; apply settled_unexpected|].
  intros res s2 w2 Hst2 (Hl12 & Hr2 & Hu2 & H). apply rgs_bind, durable_recorded_spec; [by intros; apply settled_view|]. intros Hrec.
  destruct Hst2 as [Hb2 Hl2]. split; [done|]. split; [done|]. cbn. unfold result_view. rewrite Hv. split; [done|]. split; [done|].
  split; [exists e; apply (stored_later _ _ _ _ _ _ (writer_uuid mine mine_uuids _ _ _ _ Hr1) Hl12 He)|].
  destruct res as [e' st| |f]; [|done|by destruct (Hrec f)]. exists e', st. unfold delivery_key. by rewrite Hv.
Qed.

Lemma recorded_view_later k request terminal attempts q e st w w' : isUuid4 (d_instanceId (deps s0)) = true -> request_row k -> later (store w) (store w') ->
  recorded_view s0 k request terminal attempts q w0 e st w -> recorded_view s0 k request terminal attempts q w0 e st w'.
Proof.
  intros Hi Hk Hl (bs & p & H1 & H2 & H3 & H4). exists bs, p. split_and!; try done; [by apply (reaches_later _ _ (store w))|by eapply stored_later].
Qed.

Lemma decided_class cls n receives d : decideDurableStep (MkFacts cls n receives) = Ok d ->
  match d with complete _ => True | retry_step c _ | inner_exhausted c _ => c = cls end.
Proof.
  unfold decideDurableStep, assertPositiveSafeInteger. cbn [fc_outcome_class fc_step_attempt fc_receive_count].
  destruct (isPositiveSafeInteger n); [|done]. destruct (isPositiveSafeInteger receives); [|done]. cbn [bind_result].
  destruct (DEFINITIVE_FINISHES cls); [by intros [= <-]|]. destruct (_ <=? _); [destruct (decideDurableExhaustion _ _)|destruct (decideTerminality _)]; cbn [bind_result]; by intros [= <-].
Qed.

Lemma attempted_later m rep fate t w w' : validation = accepted m -> isUuid4 (d_instanceId (deps s0)) = true -> later (store w) (store w') ->
  calls_kept mine w w' -> attempted m rep fate t w -> attempted m rep fate t w'.
Proof.
  intros Hv Hi Hl Hc (started & w1 & e & st & H1 & H2 & Hc1 & H3 & H4). exists started, w1, e, st. split_and!; try done; [by etrans|by etrans|].
  eapply recorded_view_later; [done| |done..]. pose proof key_ok as Hk. unfold delivery_key in Hk. by rewrite Hv in Hk.
Qed.

Lemma conclude_spec m rep d t outcome s w :
  validation = accepted m -> wready s w -> attempted m rep (fate_of d) t w ->
  match d with complete _ => True | retry_step c _ | inner_exhausted c _ => c = rp_outcome_class rep end ->
  vspec (conclude place delivery (m_refund_request_id m) (ai_attempt_id (rp_ids rep)) d outcome)
    (fun s' r w' => step_view s' (option_result r) w') s w.
Proof.
  intros Hv Hr Ha Hc. pose proof Hr as (_ & _ & Hb & Hl). pose proof (writer_uuid mine mine_uuids _ _ _ _ Hr) as Hi.
  destruct d as [reason|c k|c k]; cbn [conclude fate_of] in *.
  - split_and!; try done. cbn. unfold result_view. rewrite Hv. by exists rep, t.
  - split_and!; try done. exists m, rep, false, t. subst c. by split_and!.
  - eapply step_bind; [apply (append_step mine requests home delivered continues mine_uuids s0 w0 (calls_kept mine w)); [apply calls_kept_stable|done..]
      |intros ???; apply settled_unexpected|].
    intros [e|x] s1 w1 [Hb1 Hl1] (Hl01 & Hr1 & Hk1 & He); [|by apply settled_view]. split_and!; try done.
    exists m, rep, true, t. subst c. split_and!; eauto. by apply (attempted_later _ _ _ _ w).
Qed.

Lemma step_attempt_spec started m s w :
  validation = accepted m -> wready s w -> uncalled mine w ->
  vspec (attempt JSON_parse provider_qualifier callbacks pages scope place delivery started m) step_view s w.
Proof.
  intros Hv Hr Hu. pose proof key_ok as Hk. unfold delivery_key in Hk. rewrite Hv in Hk.
  eapply step_bind; [by apply (reconcile_step mine requests home delivered continues mine_uuids scope _ s0 w0 scope_eq)
    |intros ???; apply settled_unexpected|].
  intros [res|] s1 w1 Hst1 H1; [|by destruct Hst1; split_and!]. destruct H1 as [Hr1 Hu1].
  apply rgs_bind, durable_recorded_spec; [by intros; apply settled_view|]. intros _.
  eapply step_bind; [apply (attempt_step mine requests home delivered continues mine_uuids scope _ s0 w0 scope_eq home_eq); [exact (acts_for m Hv)|done..]
    |by intros s' [a k|e] w'; apply settled_view|].
  intros [rep|] s2 w2 Hst2 H2; [|by destruct Hst2; split_and!]. destruct H2 as (_ & Hview & Hr2).
  destruct (rp_outcome_event_id rep) as [outcome|]; [|by apply settled_view].
  apply rgs_bind. unfold rgs at 1, se_of. cbn [rg fst snd].
  destruct (decideDurableStep _) as [d|x] eqn:Ed; [|by apply settled_view].
  eapply step_bind; [by apply (result_step mine requests home delivered continues mine_uuids scope _ s0 w0 scope_eq)|intros ???; apply settled_unexpected|].
  intros final s3 w3 Hst3 (Hl23 & Hk23 & Hr3 & H). apply rgs_bind, durable_recorded_spec; [by intros; apply settled_view|]. intros Hrec.
  destruct final as [e st| |f]; [|done|by destruct (Hrec f)]. clear Hrec.
  pose proof (decided_class _ _ _ _ Ed) as Hc. apply step_decided in Ed. rewrite terminal_update in H.
  apply rgs_bind. eapply rgs_mono; [|apply (conclude_spec m rep d (terminal_of (processingUpdateOf d)) outcome s3 w3 Hv Hr3); [|exact Hc]].
  - intros s4 [reason|x] w4 H4; exact H4.
  - exists started, w2, e, st. split_and!; [exact Hview|exact Hl23|exact Hk23|exact Ed|exact H].
Qed.

Lemma stepAttempt_spec :
  writer_ok mine s0 w0 -> kept w0 -> uncalled mine w0 ->
  vspec (stepAttempt sha256Hex JSON_parse deployment provider_qualifier callbacks pages registration delivery place) step_view s0 w0.
Proof.
  intros Hs Hb Hu. eapply step_bind; [apply (append_step mine requests home delivered continues mine_uuids s0 w0 _ _ _ _ _ _ (uncalled_stable mine mine requests));
    [by eapply ready_at_start|done]|intros ???; apply settled_unexpected|].
  intros [e|x] s1 w1 Hst (_ & Hr1 & Hu1 & _); [|by apply settled_view]. fold validation. case_eq validation; intros v Hv.
  - by apply step_attempt_spec.
  - apply rgs_bind. eapply rgs_mono; [|by apply step_reject_spec]. intros s2 [d|x] w2 H; exact H.
Qed.

(** *** One call *)

Abbreviation vwpr p w := (wpr (variant_step mine delivered continues) (rely2 mine) p (fun _ w' => one_call mine w') w).

Lemma durable_reject_silent started rej s : silent (reject sha256Hex scope place delivery started rej s).
Proof.
  apply silent_se; [apply calling_silent, append_silent|]. intros [e|x] s1; [|done].
  apply silent_se; [apply calling_silent, rejected_silent|]. intros [] s2; done.
Qed.

Lemma conclude_silent request id d outcome s : silent (conclude place delivery request id d outcome s).
Proof. destruct d; [done|done|]. apply silent_se; [apply calling_silent, append_silent|]. by intros []. Qed.

Lemma step_calls_once started m s w :
  validation = accepted m -> wready s w -> uncalled mine w ->
  vwpr (attempt JSON_parse provider_qualifier callbacks pages scope place delivery started m s) w.
Proof.
  intros Hv Hr Hu. pose proof key_ok as Hk. unfold delivery_key in Hk. rewrite Hv in Hk.
  eapply calling_then; [by apply (reconcile_step mine requests home delivered continues mine_uuids scope _ s0 w0 scope_eq)|apply reconcile_silent|done|].
  intros [res|] s1 w1 H1 Hu1; [|by left]. destruct H1 as [Hr1 _].
  enough (H : vwpr (se_bind (calling (attempt_throw place) (on_client (performAttempt JSON_parse scope DURABLE_JOURNAL_DEFINITIVE_RETRIES callbacks
    (attempt_input provider_qualifier m started)))) _ s1) w1) by (destruct res; [exact H|exact H|by left]).
  eapply attempt_then; [done|done|done|exact (acts_for m Hv)|exact Hr1|exact Hu1|]. intros [rep|] s2; [|done].
  destruct (rp_outcome_event_id rep); [|done]. apply silent_se; [by destruct (decideDurableStep _)|]. intros d s5.
  apply silent_se; [apply calling_silent, result_silent|]. intros res' s6.
  apply silent_se; [by destruct res'|]. intros u s7. by apply silent_se; [apply conclude_silent|].
Qed.

Lemma stepAttempt_calls_once :
  writer_ok mine s0 w0 -> kept w0 -> uncalled mine w0 ->
  vwpr (stepAttempt sha256Hex JSON_parse deployment provider_qualifier callbacks pages registration delivery place s0) w0.
Proof.
  intros Hs Hb Hu. eapply calling_then; [apply (append_step mine requests home delivered continues mine_uuids s0 w0 _ _ _ _ _ _ (uncalled_stable mine mine requests));
    [by eapply ready_at_start|done]|apply append_silent|done|].
  intros [e|x] s1 w1 (_ & Hr1 & _ & _) Hu1; [|by left]. fold validation. case_eq validation; intros v Hv.
  - by apply step_calls_once.
  - apply silent_one_call; [|by left]. apply silent_se; [apply durable_reject_silent|done].
Qed.
End step.
End delivery.
(** C7: A Durable step attempt does what it returns or throws. Run one step attempt beside other invocations, over a store that may
    refuse, fail, throw or answer ambiguously and a provider that answers anything. A step completed as MESSAGE_REJECTED called no
    provider and recorded that rejection; one completed otherwise made one attempt whose report was true, with no call of the
    provider after it, and that was a success (the step completes as SUCCEEDED) or a rejection (PROVIDER_REJECTED); one that fails as StepAttemptFailed names its attempt
    and its outcome's class, which is neither, and when this was the second step attempt, the last, it has first journaled
    inner_execution_exhausted. In each case the request's next state, holding exactly that attempt, is recorded: finished with
    that reason after a success or a rejection, finished as RETRIES_EXHAUSTED after a failed second step attempt from the
    second receive on, and otherwise still running. However it ends, it has sent the provider one call at most, request states
    stay backed by their events, it writes only its own rows, and every call it sent has the row of its attempt. *)
Theorem durable_step_truthful (mine requests : string -> Prop) delivered continues sha256Hex JSON_parse deployment qualifier callbacks pages
    registration delivery place s0 w0 steps s r w :
  (forall x, mine x -> isUuid4 x = true) ->
  let scope := scope_of deployment registration in
  d_scope (deps s0) = scope -> request_row (delivery_key JSON_parse deployment registration delivery) ->
  (forall m, validation JSON_parse registration delivery = accepted m -> requests (m_refund_request_id m)) ->
  fresh_start mine (journalPartitionKey scope) s0 w0 ->
  iexec (variant_step mine delivered continues) (rely2 mine)
    (stepAttempt sha256Hex JSON_parse deployment qualifier callbacks pages registration delivery place s0) w0 steps (s, r) w ->
  backed (store w) /\ Forall (fun p => guar2 mine requests (journalPartitionKey scope) p.1 p.2) steps
  /\ calls_have_rows mine requests (journalPartitionKey scope) w /\ one_call mine w
  /\ match r with
     | Ok (Some reason) => result_view mine delivered sha256Hex JSON_parse deployment qualifier registration delivery place s0 w0 reason w
     | Err (step_failed f) => failure_view mine delivered JSON_parse deployment qualifier registration delivery place s0 w0 f w
     | _ => True
     end.
Proof.
  intros Hu scope Hscope Hkey Hreq Hf Hx. pose proof Hf as (Hs & Hb & Hun & _).
  pose proof (stepAttempt_spec mine requests (journalPartitionKey scope) delivered continues Hu sha256Hex JSON_parse deployment qualifier callbacks pages
    registration delivery place s0 w0 Hscope eq_refl Hkey Hreq Hs Hb Hun) as Hspec.
  apply (rg_invariant mine requests (journalPartitionKey scope) delivered continues (calls_have_rows mine requests (journalPartitionKey scope))) in Hspec;
    [|apply calls_have_rows_rely|by apply calls_have_rows_guar|by eapply fresh_rows].
  destruct (rg_iexec _ _ _ _ _ _ _ _ _ _ Hspec Hx) as [[(H1 & _ & H2) H3] HF].
  pose proof (wpr_iexec _ _ _ _ _ _ _ _ (stepAttempt_calls_once mine requests (journalPartitionKey scope) delivered continues Hu sha256Hex JSON_parse deployment
    qualifier callbacks pages registration delivery place s0 w0 Hscope eq_refl Hkey Hreq Hs Hb Hun) Hx) as H1c. by split_and!.
Qed.

(** ** A run *)

Section demo.
Let part : string := journalPartitionKey ExchangeCorrect.demo_scope.

Definition demo_registration : TrialRegistration :=
  MkRegistration v_durable (MkRef f_run_id demo_id) ExchangeCorrect.demo_sha demo_id ExchangeCorrect.demo_sha 1 "2026-10-05T11:00:00.000Z".
Definition demo_message : Message := MkMessage (MkRef f_run_id demo_id) demo_id ExchangeCorrect.demo_sha "pay-poc-001" "ref-poc-001".
(** A runtime that parses the message, and no provider's answer. *)
Definition demo_parse (t : string) : Result json string :=
  if bool_decide (t = "message") then Ok (JObj (message_json demo_message)) else Err "Unexpected token".
(** The last step attempt of the last receive. *)
Definition demo_delivery : DurableDelivery := MkDurableDelivery "m-1" 2 "message".
Definition demo_place : DurableInvocation := MkInvocation "request-1" "arn-1" 2.
Definition demo_source : ClientState := openJournal ExchangeCorrect.demo_scope demo_id.
Definition demo_sks : list string :=
  (REQUEST_STATE_SK_PREFIX +:+ "ref-poc-001") :: attemptStateSortKey demo_id :: map (sort_key "durable_caller" demo_id) (seqZ 1 10).
Definition demo_step := run (calm2 demo_sks)
  (stepAttempt (fun _ => ExchangeCorrect.demo_sha) demo_parse (id_run demo_id) "7" 1 1 demo_registration demo_delivery demo_place demo_source) demo_world.

(** The provider's answer cannot be read, so the attempt is ambiguous and every layer is spent. *)
Lemma durable_step_truthful_witness :
  exists f, demo_step.1.2 = Err (step_failed f) /\ fs_outcome_class f = AMBIGUOUS
  /\ failure_view demo_mine demo_delivered demo_parse (id_run demo_id) "7" demo_registration demo_delivery demo_place demo_source demo_world f demo_step.2.
Proof.
  destruct (calm2_iexec demo_mine demo_sks (stepAttempt (fun _ => ExchangeCorrect.demo_sha) demo_parse (id_run demo_id) "7" 1 1 demo_registration demo_delivery
    demo_place demo_source) demo_world) as [steps Hx]; [done|intros s m H; discriminate H|].
  fold demo_step in Hx. assert (Er : exists f, demo_step.1.2 = Err (step_failed f) /\ fs_outcome_class f = AMBIGUOUS).
  { eexists. split; [vm_compute; reflexivity|reflexivity]. }
  destruct Er as (f & Er & Ef). exists f. split; [exact Er|]. split; [exact Ef|]. destruct demo_step as [[s r] w]. cbn [fst snd] in *. subst r.
  refine (proj2 (proj2 (proj2 (proj2 (durable_step_truthful demo_mine (eq "ref-poc-001") demo_delivered (fun _ _ => False) _ _ _ _ _ _ _ _ _ _ _ _ _ _ _
    _ _ _ _ _ Hx))))); [intros x ->; vm_compute; reflexivity|reflexivity| | |].
  - apply short_request_row. vm_compute. lia.
  - intros m Hm. vm_compute in Hm. injection Hm as <-. reflexivity.
  - split; [by apply fresh_writer_ok|]. split; [|split; [constructor|done]]. intros q Hq. exists [], RUNNING. split; [done|]. cbn. lia.
Defined.
End demo.
End DurableSafety.
