(* ===== verification/Probe.v ===== *)
(** * The transport probe's caller (src/study-1/src/transport-probe-caller/)

    The guard of the workload request (probe-workload-request.ts) and its JSON Schema
    (record-contract/schemas/group-a/probe_workload_request.schema.json), the caller
    (probe-caller.ts) as probe-caller-composition.ts wires it, its faults
    (probe-caller-fault.ts) and its environment (probe-caller-environment.ts), with the
    equivalence of the guard and the schema and the truth of a run. *)

From S2P Require Import Prelude AttemptLifecycle Timestamps Effects Store JsonText Parsing LeaseItem Journal JournalSafety JournalTx.
From S2P Require Import Money ControlItems Acceptance Provider ProviderExchange ExchangeCorrect ProviderClient ClientSafety Controller.
From S2P Require Import RequestState RequestSafety VariantSafety.
Import Json Store Utc Identifiers JsonText Journal JournalSafety ProviderExchange ProviderClient ClientSafety RequestState RequestSafety VariantSafety.
Import Acceptance(NONEMPTY_TRIMMED_PATTERN).
Import ControlItems(hasOwn).
Import Provider(eventId).
Open Scope Z_scope.

Module Probe.

(** ** The request *)

Record ProbeWorkloadRequest := MkRequest {
  pw_transport_probe_id : string;
  pw_execution_manifest_sha256 : string;
  pw_payment_id : string;
  pw_refund_request_id : string;
  pw_amount_minor : Z;
  pw_currency : string;
}.

Definition RECORD_TYPE : string := "probe_workload_request".
Definition FIELDS : list string :=
  ["schema_version"; "record_type"; "transport_probe_id"; "execution_manifest_sha256"; "payment_id"; "refund_request_id"; "amount_minor"; "currency"].

Definition shapeProblem (payload : list (string * json)) : option string :=
  let extra := List.filter (fun key => negb (memb key FIELDS)) (map fst payload) in
  if negb (bool_decide (extra = [])) then
    Some ("unexpected properties " +:+ boundedJsonText (JArr (map JStr extra)) QUOTED_JSON_LIMIT +:+ "; expected only " +:+ str_join ", " FIELDS)
  else
    let missing := List.filter (fun field => negb (hasOwn payload field)) FIELDS in
    if bool_decide (missing = []) then None
    else Some ("missing properties [" +:+ str_join "," (map quote_json missing) +:+ "]").

Definition isNonEmptyTrimmed (value : option json) : bool := match value with Some (JStr s) => NONEMPTY_TRIMMED_PATTERN s | _ => false end.
Definition isAmountMinor (value : option json) : bool :=
  match value with Some (JNum (JSInt z)) => is_safe_integer z && (1 <=? z) | _ => false end.
Definition holds_text (p : string -> bool) (value : option json) : bool := match value with Some (JStr s) => p s | _ => false end.

(** The members in order, with what each must be. *)
Definition checks : list (string * (option json -> bool) * string) :=
  [("schema_version", fun v => scalar_matches v (SNum 1), "1");
   ("record_type", fun v => scalar_matches v (SStr RECORD_TYPE), RECORD_TYPE);
   ("transport_probe_id", holds_text isUuid4, "a lowercase RFC 4122 version-4 UUID");
   ("execution_manifest_sha256", holds_text isSha256Hex, "64 lowercase hex digits");
   ("payment_id", isNonEmptyTrimmed, "a non-empty string without edge whitespace");
   ("refund_request_id", isNonEmptyTrimmed, "a non-empty string without edge whitespace");
   ("amount_minor", isAmountMinor, "a safe integer >= 1");
   ("currency", fun v => scalar_matches v (SStr "BRL"), "BRL")].

Definition valueProblem (payload : list (string * json)) : option string :=
  match find_first (fun c => negb (c.1.2 (member c.1.1 payload))) checks with
  | None => None
  | Some (name, _, expected) => Some (name +:+ " " +:+ describeJson (member name payload) +:+ "; expected " +:+ expected)
  end.

Definition refuse {A} (problem : string) : Result A string := Err ("probe workload request invalid: " +:+ problem).

Definition text_of (name : string) (payload : list (string * json)) : string := match member name payload with Some (JStr s) => s | _ => "" end.
Definition request_of (payload : list (string * json)) : ProbeWorkloadRequest :=
  MkRequest (text_of "transport_probe_id" payload) (text_of "execution_manifest_sha256" payload) (text_of "payment_id" payload)
    (text_of "refund_request_id" payload) (match member "amount_minor" payload with Some (JNum (JSInt z)) => z | _ => 0 end) (text_of "currency" payload).

Definition deployment_probe (deployment : ExecutionIdentity) : option string :=
  match deployment with id_transport_probe i => Some i | _ => None end.
Definition kind_text (deployment : ExecutionIdentity) : string :=
  match deployment with id_run _ => "RUN" | id_variant_validation _ => "VARIANT_VALIDATION" | id_transport_probe _ => "TRANSPORT_PROBE" end.

Definition parseProbeWorkloadRequest (payload : json) (deployment : ExecutionIdentity) : Result ProbeWorkloadRequest string :=
  match payload with
  | JObj m =>
      match (match shapeProblem m with Some p => Some p | None => valueProblem m end) with
      | Some problem => refuse problem
      | None =>
          let request := request_of m in
          match deployment_probe deployment with
          | Some probeId =>
              if bool_decide (pw_transport_probe_id request = probeId) then Ok request
              else refuse ("transport_probe_id " +:+ describeJson (member "transport_probe_id" m) +:+ "; expected this deployment's probe " +:+ probeId)
          | None => refuse ("transport_probe_id " +:+ describeJson (member "transport_probe_id" m) +:+ "; expected this deployment's probe (none: "
                            +:+ kind_text deployment +:+ " deployment)")
          end
      end
  | _ => refuse ("payload is " +:+ describeJson (Some payload) +:+ "; expected a " +:+ RECORD_TYPE +:+ " object")
  end.

(** ** Faults *)

Inductive ProbeCallerFaultCode := REQUEST_INVALID | JOURNAL_STOPPED.
Definition fault_text (c : ProbeCallerFaultCode) : string := match c with REQUEST_INVALID => "REQUEST_INVALID" | JOURNAL_STOPPED => "JOURNAL_STOPPED" end.

(** [ProbeCallerFault], or an error of the code the caller calls. *)
Inductive ProbeThrow := probe_fault (code : ProbeCallerFaultCode) (lambda_request_id detail : string) | unexpected (e : thrown).
Definition fault_message (code : ProbeCallerFaultCode) (detail : string) : string := fault_text code +:+ ": " +:+ detail.

(** ** The run *)

Record ProbeWorkloadReport := MkProbeReport {
  pr_transport_probe_id : string;
  pr_lambda_request_id : string;
  pr_invocation_event_id : string;
  pr_attempt : AttemptReport;
}.

Definition PROBE_CALLER_JOURNAL_DEFINITIVE_RETRIES : Z := 2.
Abbreviation PVM := (SE VariantEff ClientState ProbeThrow).

Section caller.
Context (JSON_parse : string -> Result json string) (deployment : ExecutionIdentity) (provider_qualifier : string) (callbacks : nat).

Definition scope_of (workload : ProbeWorkloadRequest) : JournalScope := MkScope deployment (pw_execution_manifest_sha256 workload) pt_probe.

Definition attempt_input (workload : ProbeWorkloadRequest) (started : string) : AttemptInput :=
  MkInput ControlItems.probe (pw_refund_request_id workload) (pw_payment_id workload) (JSInt (pw_amount_minor workload)) (pw_currency workload)
    provider_qualifier [started].

(** The run of a parsed request, from its journal on; [None] when a wait of the attempt has not ended. *)
Definition run_workload (workload : ProbeWorkloadRequest) (lambda_request_id : string) : PVM (option ProbeWorkloadReport) :=
  (started <- calling unexpected (on_client (journal_append "caller_invocation_started" [("lambda_request_id", JStr lambda_request_id)] [])) ;;
   match started with
   | ap_stopped x => se_throw (probe_fault JOURNAL_STOPPED lambda_request_id ("caller_invocation_started not written: " +:+ stop_text (stop_reason x)))
   | ap_appended e =>
       attempt <- calling unexpected (on_client (performAttempt JSON_parse (scope_of workload) PROBE_CALLER_JOURNAL_DEFINITIVE_RETRIES callbacks
                    (attempt_input workload (eventId e)))) ;;
       match attempt with
       | None => se_ret None
       | Some rep => se_ret (Some (MkProbeReport (pw_transport_probe_id workload) lambda_request_id (eventId e) rep))
       end
   end)%se.

(** [openJournal]: a new writer of a new source instance. *)
Definition openJournal (scope : JournalScope) (instance : string) : ClientState :=
  MkClient (MkDeps "probe_caller" instance scope PROBE_CALLER_JOURNAL_DEFINITIVE_RETRIES) (MkWriter 1 None None None 0 0).

Definition run_probe (payload : json) (lambda_request_id : string) : proc VariantEff (Result (option ProbeWorkloadReport) ProbeThrow) :=
  match parseProbeWorkloadRequest payload deployment with
  | Err e => Ret (Err (probe_fault REQUEST_INVALID lambda_request_id e))
  | Ok workload =>
      pbind (perform (inl (inr NextUuid) : VariantEff _)) (fun instance =>
      pbind (run_workload workload lambda_request_id (openJournal (scope_of workload) instance)) (fun '(_, r) => Ret r))
  end.
End caller.

(** ** The environment *)

Record ProbeCallerEnvironment := MkEnvironment {
  pe_deployment : ExecutionIdentity;
  pe_caller_journal_table : string;
  pe_provider_function_name : string;
  pe_provider_qualifier : string;
}.

Definition readProbeVariable (env : string -> option string) (name : string) (accepts : string -> bool) (shape : string) : Result string string :=
  match env name with
  | Some value => if accepts value then Ok value else Err (name +:+ "=" +:+ quote_json value +:+ "; expected " +:+ shape)
  | None => Err (name +:+ "=undefined; expected " +:+ shape)
  end.

Definition isTransportProbeKind (value : string) : bool := bool_decide (value = "TRANSPORT_PROBE").

Definition parseProbeCallerEnvironment (env : string -> option string) : Result ProbeCallerEnvironment string :=
  let kind := readProbeVariable env "SUC_EXECUTION_KIND" isTransportProbeKind "TRANSPORT_PROBE" in
  let id := readProbeVariable env "SUC_EXECUTION_ID" isUuid4 "a lowercase RFC 4122 version-4 UUID" in
  let table := readProbeVariable env "SUC_TABLE_CALLER_JOURNAL" Controller.isTableName "a non-empty table name" in
  let functionName := readProbeVariable env "SUC_PROVIDER_FUNCTION_NAME" Controller.isTableName "a non-empty function name" in
  let qualifier := readProbeVariable env "SUC_PROVIDER_QUALIFIER" PROVIDER_VERSION_PATTERN "a published version number" in
  match kind, id, table, functionName, qualifier with
  | Ok _, Ok id, Ok table, Ok fn, Ok qualifier => Ok (MkEnvironment (id_transport_probe id) table fn qualifier)
  | _, _, _, _, _ =>
      Err ("probe caller environment invalid: " +:+ str_join "; " (flat_map Controller.error_of [kind; id; table; functionName; qualifier]))
  end.

(** ** The schema of the request *)

Definition probe_workload_request_schema : Acceptance.schema :=
  Acceptance.sc_all
    [ Acceptance.sc_object;
      Acceptance.sc_properties
        [("schema_version", Acceptance.sc_const (SNum 1)); ("record_type", Acceptance.sc_const (SStr RECORD_TYPE));
         ("transport_probe_id", Acceptance.sc_uuid4); ("execution_manifest_sha256", Acceptance.sc_sha256);
         ("payment_id", Acceptance.sc_nonempty_trimmed); ("refund_request_id", Acceptance.sc_nonempty_trimmed);
         ("amount_minor", Acceptance.sc_integer 1 9007199254740991); ("currency", Acceptance.sc_const (SStr "BRL"))];
      Acceptance.sc_required FIELDS;
      Acceptance.sc_closed FIELDS ].

Lemma filter_negb_empty {A} `{EqDecision A} (p : A -> bool) l : bool_decide (List.filter (fun x => negb (p x)) l = []) = forallb p l.
Proof. induction l as [|x l IH]; cbn; [done|]. by destruct (p x). Qed.

Lemma find_negb_None {A} (p : A -> bool) l : find_first (fun x => negb (p x)) l = None <-> forallb p l = true.
Proof.
  rewrite find_first_None, forallb_forall. setoid_rewrite list_elem_of_In. split; intros H x Hx; specialize (H x Hx); by destruct (p x).
Qed.

Lemma amount_in_range x : isAmountMinor (Some x) = Acceptance.valid (Acceptance.sc_integer 1 9007199254740991) x.
Proof.
  destruct x as [|b|n|s|l|m]; try done. destruct n as [z|]; [|done]. cbn. unfold is_safe_integer, MAX_SAFE_INTEGER.
  destruct (Z.leb_spec 1 z); [|by rewrite andb_false_r]. rewrite (proj2 (Z.leb_le _ z)) by lia. by rewrite andb_true_r.
Qed.

Lemma probe_schema_members m : Acceptance.valid probe_workload_request_schema (JObj m) = true <-> shapeProblem m = None /\ valueProblem m = None.
Proof.
  unfold shapeProblem, valueProblem. rewrite !filter_negb_empty.
  assert (Hv : forall (o : option (string * (option json -> bool) * string)) f, match o with None => None | Some (name, _, e) => Some (f name e) end = @None string <-> o = None).
  { intros [[[n c] e]|] f; naive_solver. }
  rewrite Hv, find_negb_None. unfold probe_workload_request_schema. rewrite Acceptance.valid_all. cbn [forallb].
  change (Acceptance.valid (Acceptance.sc_closed FIELDS) (JObj m)) with (forallb (fun k => memb k FIELDS) (map fst m)).
  change (Acceptance.valid (Acceptance.sc_required FIELDS) (JObj m)) with (forallb (hasOwn m) FIELDS).
  destruct (forallb (fun k => memb k FIELDS) (map fst m)); [|rewrite !andb_false_r; naive_solver]. cbn [negb].
  destruct (forallb (hasOwn m) FIELDS) eqn:Hr; [|rewrite !andb_false_r; cbn; naive_solver].
  rewrite !andb_true_r. change (Acceptance.valid Acceptance.sc_object (JObj m)) with true. cbn [andb].
  unfold FIELDS in Hr. cbn [forallb] in Hr. repeat (apply andb_prop in Hr as [?Hm Hr]).
  rewrite Acceptance.valid_properties. cbn [forallb checks fst snd]. unfold hasOwn, Acceptance.optional in *.
  repeat match goal with H : bool_decide (is_Some (member ?n m)) = true |- _ => apply bool_decide_eq_true in H; destruct (member n m) as [?v|]; [clear H|by destruct H] end.
  rewrite amount_in_range. split; [intros H; split; [done|exact H]|intros [_ H]; exact H].
Qed.

(** The guard of the probe's workload request is its JSON Schema plus the deployment's identity. For any payload and any
    deployment, [parseProbeWorkloadRequest] accepts the payload as the request [r] iff it is an object valid against the schema, the
    deployment is a transport probe's, the payload names that probe, and [r] holds the payload's members. *)
Theorem probe_request_guard_is_schema (payload : json) (deployment : ExecutionIdentity) (r : ProbeWorkloadRequest) :
  parseProbeWorkloadRequest payload deployment = Ok r <->
  exists m, payload = JObj m /\ Acceptance.valid probe_workload_request_schema (JObj m) = true
    /\ deployment = id_transport_probe (pw_transport_probe_id r) /\ r = request_of m.
Proof.
  unfold parseProbeWorkloadRequest. destruct payload as [|b|n|s|l|m]; try (split; [done|by intros (? & ? & _)]). split.
  - destruct (shapeProblem m) eqn:Es; [done|]. destruct (valueProblem m) eqn:Ev; [done|].
    destruct deployment as [i|i|i]; cbn [deployment_probe]; try done. case_bool_decide as Hi; [|done]. intros [= <-]. exists m.
    split; [done|]. split; [by apply probe_schema_members|]. by rewrite Hi.
  - intros (m' & [= <-] & Hv & -> & ->). apply probe_schema_members in Hv as [-> ->]. cbn [deployment_probe]. by rewrite bool_decide_eq_true_2.
Qed.
(** ** A run *)

Section run.
Context (mine requests : string -> Prop) (delivered : ProviderTransportResult -> Prop) (continues : string -> string -> Prop).
Hypothesis mine_uuids : forall x, mine x -> isUuid4 x = true.
Context (JSON_parse : string -> Result json string) (deployment : ExecutionIdentity) (provider_qualifier : string) (callbacks : nat).
Context (workload : ProbeWorkloadRequest) (lambda_request_id : string) (s0 : ClientState) (w0 : world).

Let scope := scope_of deployment workload.
Hypothesis scope_eq : d_scope (deps s0) = scope.
Hypothesis acts_for : requests (pw_refund_request_id workload).

(** What a run returns or throws says. *)
Definition probe_view (r : Result (option ProbeWorkloadReport) ProbeThrow) (w' : world) : Prop :=
  match r with
  | Ok (Some rep) => pr_transport_probe_id rep = pw_transport_probe_id workload /\ pr_lambda_request_id rep = lambda_request_id
      /\ (exists e, eventId e = pr_invocation_event_id rep
           /\ stored caller_journal (deps s0) "caller_invocation_started" [("lambda_request_id", JStr lambda_request_id)] e (store w'))
      /\ attempt_view mine delivered JSON_parse scope (attempt_input provider_qualifier workload (pr_invocation_event_id rep)) (deps s0)
           (Ok (Some (pr_attempt rep))) w'
  | Ok None => True
  | Err (probe_fault code _ _) => code = JOURNAL_STOPPED /\ uncalled mine w'
  | Err (unexpected _) => True
  end.

Definition probe_post (s' : ClientState) (r : Result (option ProbeWorkloadReport) ProbeThrow) (w' : world) : Prop :=
  settled w0 w' /\ probe_view r w'.

Lemma run_workload_spec :
  writer_ok mine s0 w0 -> kept w0 -> uncalled mine w0 ->
  rgs (variant_step mine delivered continues) (rely2 mine) (guar2 mine requests (journalPartitionKey scope)) kept
    (run_workload JSON_parse deployment provider_qualifier callbacks workload lambda_request_id) probe_post s0 w0.
Proof.
  intros Hs Hb Hu. eapply step_bind; [apply (append_step mine requests (journalPartitionKey scope) delivered continues mine_uuids s0 w0 _ _ _ _ _ _ (uncalled_stable mine mine requests));
    [by eapply ready_at_start|done]|by intros|].
  intros [e|x] s1 w1 Hst (_ & Hr1 & Hu1 & He); [|done]. specialize (He e eq_refl).
  eapply step_bind; [by apply (attempt_step mine requests (journalPartitionKey scope) delivered continues mine_uuids scope _ s0 w0 scope_eq eq_refl)|by intros|].
  intros [rep|] s2 w2 Hst2 H2; [|done]. destruct H2 as (Hl2 & Hview & Hr2). split; [done|]. split; [done|]. split; [done|]. split.
  - exists e. split; [done|]. apply (stored_later _ _ _ _ _ _ (writer_uuid mine mine_uuids _ _ _ _ Hr1) Hl2 He).
  - exact Hview.
Qed.

(** *** One attempt *)

(** No row of an attempt of the caller's own is there or has changed, and no call of its own was sent. *)
Definition nothing_yet (w : world) : Prop :=
  uncalled mine w /\ forall p a, mine a -> store w caller_journal (state_key p a) = store w0 caller_journal (state_key p a).

Lemma nothing_yet_stable : stable mine (fun _ => False) requests nothing_yet.
Proof.
  apply client_stable_and; [apply uncalled_stable|]. split.
  - intros w w' H Hr p a Ha. rewrite (rely_state _ _ _ Hr p a Ha). by apply H.
  - intros w w' H Hc _ p a Ha. rewrite <- (H p a Ha).
    apply (only_row_changes mine requests mine_uuids "" (fun _ => False) w w w'); [done|by intros ? ? ? ?|exact Hc|done|].
    intros ->. by apply mine_uuids in Ha.
Qed.

(** Whatever the world answers, the run registers one attempt at most and sends one call at most. *)
Lemma run_workload_once : writer_ok mine s0 w0 -> uncalled mine w0 ->
  wpr (variant_step mine delivered continues) (rely2 mine) (run_workload JSON_parse deployment provider_qualifier callbacks workload lambda_request_id s0)
    (fun _ w' => at_most_one mine w0 w') w0.
Proof.
  intros Hs Hu. pose (home := journalPartitionKey scope). apply wprs_bind, wpr_bind, on_client_wpr.
  assert (Hdone : forall w, nothing_yet w -> at_most_one mine w0 w).
  { intros w [Hw Hrow]. split; [exists ""; intros p b Hb _; by apply Hrow|by left]. }
  pose (J := fun _ : world => True). assert (Hstart : nothing_yet w0) by done.
  pose proof (client_append_spec mine (fun _ => False) requests home delivered nothing_yet "caller_invocation_started" [("lambda_request_id", JStr lambda_request_id)] [] s0 w0
    (fun s' r w' => (exists j, s' = set_journal j s0) /\ writer_ok mine s' w' /\ nothing_yet w') Hs nothing_yet_stable Hstart) as Happend.
  assert (H1 := Happend ltac:(intros j r w' Hs' Hn _; by split; [exists j|])). clear Happend.
  apply (rg_wpr _ _ _ _ _ _ J) in H1; [|done..]. eapply wpr_mono; [|exact H1]. intros [s1 [[e|x]|x]] w1 [(Hj & Hs1 & Hn1) _]; cbn [fst snd] in *; [|by apply Hdone..].
  destruct Hj as [j ->]. destruct Hn1 as [Hu1 Hrow1]. apply wprs_bind, wpr_bind, on_client_wpr.
  eapply wpr_mono; [|apply (performAttempt_once mine requests home delivered mine_uuids JSON_parse (scope_of deployment workload) PROBE_CALLER_JOURNAL_DEFINITIVE_RETRIES callbacks
    (attempt_input provider_qualifier workload (eventId e)) (deps s0)); [by rewrite scope_eq|apply Hs|exact acts_for|done|done|done]].
  intros [s2 r] w2 [[a Hrow2] Hc2]. assert (Hall : at_most_one mine w0 w2).
  { split; [|exact Hc2]. exists a. intros p b Hb Hne. rewrite (Hrow2 p b Hb Hne). by apply Hrow1. }
  destruct r as [[rep|]|x]; cbn; exact Hall.
Qed.
End run.

(** C40: A run of the probe caller makes one attempt and reports it truthfully. Run the workload of an accepted request, from its journal
    on, beside other invocations, over a store and a provider that may answer anything. However it ends, by a report, a
    fault or a wait that never ended, it has registered one attempt at most and sent the provider one call at most: it never
    retries. If it returns a report, the report names the request's probe and the invocation's recorded start, and what
    the attempt it holds says of the calls sent, the attempt's row and the journal is true of the world the run ended in: a success
    or a rejection answers the one call of the run, and a report of no dispatch means no call. If it faults, the provider was not called. It
    writes only its own rows in the probe's partition, and every call it sent has the row of its attempt. *)
Theorem probe_run_truthful (mine requests : string -> Prop) delivered continues JSON_parse deployment qualifier callbacks workload id s0 w0 steps s r w :
  (forall x, mine x -> isUuid4 x = true) ->
  let scope := scope_of deployment workload in
  d_scope (deps s0) = scope -> requests (pw_refund_request_id workload) -> fresh_start mine (journalPartitionKey scope) s0 w0 ->
  iexec (variant_step mine delivered continues) (rely2 mine) (run_workload JSON_parse deployment qualifier callbacks workload id s0) w0 steps (s, r) w ->
  probe_view mine delivered JSON_parse deployment qualifier workload id s0 r w
  /\ (forall a b, mine a -> mine b -> store w caller_journal (state_key (journalPartitionKey scope) a) <> None ->
        store w caller_journal (state_key (journalPartitionKey scope) b) <> None -> a = b)
  /\ (uncalled mine w \/ exists call sent_over, called_once mine call sent_over w)
  /\ Forall (fun p => guar2 mine requests (journalPartitionKey scope) p.1 p.2) steps
  /\ calls_have_rows mine requests (journalPartitionKey scope) w.
Proof.
  intros Hu scope Hscope Hreq Hf Hx. pose proof Hf as (Hs & Hb & Hun & Hnone).
  pose proof (run_workload_spec mine requests delivered continues Hu JSON_parse deployment qualifier callbacks workload id s0 w0 Hscope Hreq Hs Hb Hun) as Hspec.
  apply (rg_invariant mine requests (journalPartitionKey scope) delivered continues (calls_have_rows mine requests (journalPartitionKey scope))) in Hspec;
    [|apply calls_have_rows_rely|by apply calls_have_rows_guar|by eapply fresh_rows].
  destruct (rg_iexec _ _ _ _ _ _ _ _ _ _ Hspec Hx) as [[[_ H1] H2] HF].
  destruct (wpr_iexec _ _ _ _ _ _ _ _ (run_workload_once mine requests delivered continues Hu JSON_parse deployment qualifier callbacks workload id s0 w0 Hscope Hreq Hs Hun) Hx)
    as [[a0 Hrow] Hcalls].
  split; [done|]. split; [|done]. assert (Ha : forall a, mine a -> store w caller_journal (state_key (journalPartitionKey scope) a) <> None -> a = a0).
  { intros a Hm Hrow1. destruct (decide (a = a0)) as [|Hne]; [done|]. by rewrite (Hrow _ a Hm Hne), Hnone in Hrow1. }
  intros a b Hma Hmb H3 H4. by rewrite (Ha a), (Ha b).
Qed.

(** ** An instance *)

Definition demo_request : ProbeWorkloadRequest := MkRequest demo_id ExchangeCorrect.demo_sha "pay-poc-001" "ref-poc-001" 10000 "BRL".
Definition demo_source : ClientState := openJournal (scope_of (id_transport_probe demo_id) demo_request) demo_id.

(** The calm store for a caller that reads no partition. *)
Definition calm_reads (R : Type) (e : VariantEff R) : world -> R * world :=
  match e with
  | inl c => calm R c
  | inr r => match r in ReadEff R return world -> R * world with
             | GetItem t k => fun w => (Ok (store w t k), w)
             | QueryPartitionPage _ _ _ => fun w => (Err "AccessDenied", w)
             end
  end.

Lemma calm_reads_step R (e : VariantEff R) w : variant_step demo_mine demo_delivered (fun _ _ => False) R e w (calm_reads R e w).1 (calm_reads R e w).2.
Proof. destruct e as [c|[t k|t p c]]; [apply client_calm_step|by split; [|left]|by split]. Qed.

Definition demo_run := run calm_reads (run_workload (ExchangeCorrect.parses "{...}" (JObj ExchangeCorrect.demo_answer)) (id_transport_probe demo_id) "7" 1
  demo_request "request-1" demo_source) demo_world.

Lemma probe_run_truthful_witness :
  exists rep, demo_run.1.2 = Ok (Some rep) /\ rp_outcome (pr_attempt rep) = Attempt.REJECTED
  /\ probe_view demo_mine demo_delivered (ExchangeCorrect.parses "{...}" (JObj ExchangeCorrect.demo_answer)) (id_transport_probe demo_id) "7" demo_request "request-1"
       demo_source (Ok (Some rep)) demo_run.2.
Proof.
  destruct (run_iexec (variant_step demo_mine demo_delivered (fun _ _ => False)) (rely2 demo_mine) calm_reads
    (run_workload (ExchangeCorrect.parses "{...}" (JObj ExchangeCorrect.demo_answer)) (id_transport_probe demo_id) "7" 1 demo_request "request-1" demo_source)
    demo_world) as [steps Hx]; [intros w; reflexivity|apply calm_reads_step|].
  fold demo_run in Hx. assert (Er : exists rep, demo_run.1.2 = Ok (Some rep) /\ rp_outcome (pr_attempt rep) = Attempt.REJECTED).
  { eexists. split; [vm_compute; reflexivity|reflexivity]. }
  destruct Er as (rep & Er & Eo). exists rep. split; [exact Er|]. split; [exact Eo|]. destruct demo_run as [[s r] w]. cbn [fst snd] in *. subst r.
  refine (proj1 (probe_run_truthful demo_mine (eq "ref-poc-001") demo_delivered (fun _ _ => False) _ _ _ _ _ _ _ _ _ _ _ _ _ _ _ _ Hx));
    [intros x ->; vm_compute; reflexivity|reflexivity|reflexivity|].
  split; [by apply fresh_writer_ok|]. split; [|split; [constructor|done]]. intros q Hq. exists [], RUNNING. split; [done|]. cbn. lia.
Defined.
End Probe.
