(* ===== verification/Package.v ===== *)
(** * Evidence packages (src/study-1/src/evidence-package/)

    The layout of a package (package-layout.ts), the classification of its files
    (artifact-classification.ts), its indexes (index-entries.ts, package-index.ts,
    evidence-index.ts) and the byte integrity of an indexed file set (package-integrity.ts), with
    the theorem that an index is evidence of tampering. SHA-256 is an argument. *)

From S2P Require Import Prelude AttemptLifecycle Timestamps Decimals Utf16 Store JsonText Parsing Journal Controller Evidence ArtifactReading.
Import Json Store Utc Identifiers JsonText Journal.
Import (notations) Stdlib.Strings.Ascii.
Import Evidence(map_get).
Open Scope Z_scope.

Module Package.

(** ** Layout *)

Definition EXECUTION_PATHS : list (string * string) :=
  [("executionManifest", "admission/execution-manifest.json"); ("environmentInput", "admission/environment-input.json");
   ("preflightJournal", "admission/preflight-journal.jsonl"); ("sourceProvenance", "admission/source-provenance.json");
   ("oracleRevisionCheck", "admission/oracle-revision-check.json"); ("transportScopeSnapshot", "admission/transport-scope-snapshot.json");
   ("deploymentAssemblyInventory", "admission/deployment-assembly.inventory.json");
   ("coordinationJournal", "coordination/coordination-journal.jsonl");
   ("coordinationPrefixCheckpoint", "coordination/coordination-prefix-checkpoint.json");
   ("provisioningJournal", "provisioning/provisioning-journal.jsonl"); ("resourceManifest", "provisioning/resource-manifest.json");
   ("runnerJournal", "runner/runner-journal.jsonl"); ("canaryCallerJournal", "readiness/canary-caller-journal.jsonl");
   ("canaryControllerJournal", "readiness/canary-controller-journal.jsonl"); ("warmupProviderJournal", "readiness/warmup-provider-journal.jsonl");
   ("executionProviderJournal", "provider/provider-journal.jsonl"); ("lateEvidenceStream", "late-evidence/late-evidence-stream.jsonl");
   ("lateEvidenceAssessment", "late-evidence/late-evidence-assessment.json"); ("preCleanupSnapshot", "cleanup/pre-cleanup-snapshot.json");
   ("cleanupJournal", "cleanup/cleanup-journal.jsonl"); ("cleanupResult", "cleanup/cleanup-result.json");
   ("leakAuditResult", "cleanup/leak-audit-result.json"); ("comparisonAssessment", "summary/comparison-assessment.json");
   ("safetyAssessment", "summary/safety-assessment.json"); ("runSummary", "summary/run-summary.json");
   ("validationSummary", "summary/validation-summary.json"); ("transportProbeSummary", "summary/transport-probe-summary.json");
   ("packageIndex", "package-index.json")].

Definition path_of (key : string) : string := nullish (map_get key EXECUTION_PATHS) "".

Definition SCHEMAS_DIRECTORY : string := "admission/schemas/".
Definition DEPLOYMENT_ASSEMBLY_DIRECTORY : string := "admission/deployment-assembly/".

Definition UNIT_PATHS : list (string * string) :=
  [("trialManifest", "trial-manifest.json"); ("payment", "inputs/payment.json"); ("approvedDecision", "inputs/approved-decision.json");
   ("publishedMessage", "inputs/published-message.json"); ("providerTrialConfiguration", "state/provider-trial-configuration.json");
   ("treatmentStateSnapshot", "state/treatment-state-snapshot.json"); ("trialRegistration", "state/trial-registration.json");
   ("callerJournal", "journals/caller-journal.jsonl"); ("providerJournal", "journals/provider-journal.jsonl");
   ("controllerJournal", "journals/controller-journal.jsonl"); ("ledgerSnapshot", "ledger/ledger-snapshot.json");
   ("sourceObservations", "queues/source-observations.jsonl"); ("dlqObservations", "queues/dlq-observations.jsonl");
   ("dlqSnapshot", "queues/dlq-snapshot.json"); ("settlementSamples", "settlement/settlement-samples.jsonl");
   ("durableExecutions", "execution-metadata/durable-executions.json"); ("telemetryAvailability", "telemetry/telemetry-availability.json");
   ("attemptProjection", "derived/attempt-projection.json"); ("oracleResult", "derived/oracle-result.json");
   ("transportProbeResult", "derived/transport-probe-result.json"); ("evidenceIndex", "evidence-index.json")].

(** A trial's directory, or the probe's. *)
Inductive EvidenceUnit := unit_trial (trial_id : string) | unit_probe.

Definition unitDirectory (u : EvidenceUnit) : string := match u with unit_trial t => "trials/" +:+ t | unit_probe => "probe" end.
Definition unitFile (u : EvidenceUnit) (key : string) : string := unitDirectory u +:+ "/" +:+ nullish (map_get key UNIT_PATHS) "".

(** ** Files and entries *)

Record PackageFile := MkFile { f_path : string; f_bytes : list Z }.

(** [lstat]'s type of an entry that is no file and no directory does not matter here. *)
Record FsEntry := MkFsEntry { fs_path : string; fs_type : string }.

Record ArtifactClassification := MkClass { artifact_class : string; derivation : string }.

Record IndexEntry := MkEntry {
  ix_artifact_path : string;
  ix_classification : ArtifactClassification;
  ix_bytes : Z;
  ix_sha256 : string;
}.

Definition fileAt (files : list PackageFile) (path : string) : option PackageFile :=
  find_first (fun f => bool_decide (f_path f = path)) files.

Definition quoted_path (path : string) : string := boundedJsonText (JStr path) QUOTED_JSON_LIMIT.

Definition invalidPathReason (path : string) : option StructuredReason :=
  option_map (fun violation => reason "INVALID_ARTIFACT_PATH" "BR-RUA-035"
      ("path " +:+ quoted_path path +:+ " is " +:+ violation +:+ "; expected a normalized package-relative POSIX path"))
    (ArtifactReading.path_problem path).

(** ** Classification *)

Definition primary (c : string) : ArtifactClassification := MkClass c "primary".
Definition derived (c : string) : ArtifactClassification := MkClass c "derived".

Definition EXECUTION_FILE_CLASSES : list (string * ArtifactClassification) :=
  [("executionManifest", primary "execution_manifest"); ("environmentInput", primary "environment_input");
   ("preflightJournal", primary "preflight_journal"); ("sourceProvenance", primary "source_provenance");
   ("oracleRevisionCheck", primary "oracle_revision_check"); ("transportScopeSnapshot", primary "transport_scope_snapshot");
   ("deploymentAssemblyInventory", primary "deployment_assembly_inventory"); ("coordinationJournal", primary "coordination_journal");
   ("coordinationPrefixCheckpoint", primary "coordination_prefix_checkpoint"); ("provisioningJournal", primary "provisioning_journal");
   ("resourceManifest", primary "resource_manifest"); ("runnerJournal", primary "runner_journal");
   ("canaryCallerJournal", primary "caller_canary_journal"); ("canaryControllerJournal", primary "controller_canary_journal");
   ("warmupProviderJournal", primary "provider_warmup_journal"); ("executionProviderJournal", primary "provider_journal");
   ("lateEvidenceStream", primary "late_evidence_stream"); ("lateEvidenceAssessment", derived "late_evidence_assessment");
   ("preCleanupSnapshot", primary "pre_cleanup_snapshot"); ("cleanupJournal", primary "cleanup_journal");
   ("cleanupResult", derived "cleanup_result"); ("leakAuditResult", derived "leak_audit_result");
   ("comparisonAssessment", derived "comparison_assessment"); ("safetyAssessment", derived "safety_assessment");
   ("runSummary", derived "run_summary"); ("validationSummary", derived "validation_summary");
   ("transportProbeSummary", derived "transport_probe_summary")].

Inductive UnitKind := in_trial | in_probe.
#[export] Instance UnitKind_eq_dec : EqDecision UnitKind.
Proof. solve_decision. Defined.

Definition UNIT_FILE_CLASSES : list (string * (ArtifactClassification * list UnitKind)) :=
  let both := [in_trial; in_probe] in let trial := [in_trial] in let probe := [in_probe] in
  [("trialManifest", (primary "trial_manifest", trial)); ("payment", (primary "payment", both));
   ("approvedDecision", (primary "approved_decision", both)); ("publishedMessage", (primary "published_message", trial));
   ("providerTrialConfiguration", (primary "provider_trial_configuration", both));
   ("treatmentStateSnapshot", (primary "treatment_state_snapshot", both)); ("trialRegistration", (primary "trial_registration", trial));
   ("callerJournal", (primary "caller_journal", both)); ("providerJournal", (primary "provider_journal", both));
   ("controllerJournal", (primary "controller_journal", both)); ("ledgerSnapshot", (primary "ledger_snapshot", both));
   ("sourceObservations", (primary "source_observations", trial)); ("dlqObservations", (primary "dlq_observations", trial));
   ("dlqSnapshot", (primary "dlq_snapshot", trial)); ("settlementSamples", (primary "settlement_samples", both));
   ("durableExecutions", (primary "durable_execution_metadata", trial)); ("telemetryAvailability", (primary "telemetry_availability", both));
   ("attemptProjection", (derived "attempt_projection", both)); ("oracleResult", (derived "oracle_result", trial));
   ("transportProbeResult", (derived "transport_probe_result", probe)); ("evidenceIndex", (derived "evidence_index", both))].

Definition EXECUTION_FILE_RULES : list (string * ArtifactClassification) := map (fun c => (path_of c.1, c.2)) EXECUTION_FILE_CLASSES.
Definition UNIT_FILE_RULES : list (string * (ArtifactClassification * list UnitKind)) :=
  map (fun c => (nullish (map_get c.1 UNIT_PATHS) "", c.2)) UNIT_FILE_CLASSES.

Definition is_lower (c : Ascii.ascii) : bool := let n := Ascii.nat_of_ascii c in (97 <=? n)%nat && (n <=? 122)%nat.
Definition is_name_char (c : Ascii.ascii) : bool := is_lower c || Decimals.is_digit c || bool_decide (c = "_"%char).
(** [/^group-[abc]\/[a-z][a-z0-9_]*\.schema\.json$/] *)
Definition SCHEMA_FILE_PATTERN (s : string) : bool :=
  match Controller.after_prefix "group-" s with
  | Some rest =>
      match chars rest with
      | g :: slash :: first :: more =>
          let name := take (length more - 12) more in
          memb g ["a"%char; "b"%char; "c"%char] && bool_decide (slash = "/"%char) && is_lower first
          && bool_decide (drop (length more - 12) more = chars ".schema.json") && forallb is_name_char name
      | _ => false
      end
  | None => false
  end.

Definition directoryRule (path : string) : option ArtifactClassification :=
  match Controller.after_prefix SCHEMAS_DIRECTORY path with
  | Some rest => if SCHEMA_FILE_PATTERN rest then Some (primary "schema_file") else None
  | None =>
      if bool_decide (is_Some (Controller.after_prefix DEPLOYMENT_ASSEMBLY_DIRECTORY path)) then Some (primary "deployment_assembly_file") else None
  end.

(** The trial or probe directory of a path and the path inside it. *)
Definition locateUnit (path : string) : option (UnitKind * string) :=
  match Controller.after_prefix "probe/" path with
  | Some rest => Some (in_probe, rest)
  | None =>
      match Controller.after_prefix "trials/" path with
      | None => None
      | Some rest =>
          match String.index 0 "/" rest with
          | None => None
          | Some slash => if isUuid4 (str_take slash rest) then Some (in_trial, text (drop (S slash) (chars rest))) else None
          end
      end
  end.

Definition unitRule (path : string) : option ArtifactClassification :=
  match locateUnit path with
  | None => None
  | Some (u, relative) =>
      match map_get relative UNIT_FILE_RULES with
      | Some (c, units) => if memb u units then Some c else None
      | None => None
      end
  end.

Definition unclassifiable (path layout : string) : StructuredReason :=
  MkReason "UNCLASSIFIABLE_ARTIFACT_PATH" "BR-RUA-037" (Some path) None
    ("path " +:+ quoted_path path +:+ " names no artifact class; expected a file of " +:+ layout).

Definition classifyPackageArtifact (path : string) : Result ArtifactClassification StructuredReason :=
  match invalidPathReason path with
  | Some invalid => Err invalid
  | None =>
      match map_get path EXECUTION_FILE_RULES with
      | Some c => Ok c
      | None =>
          match directoryRule path with
          | Some c => Ok c
          | None => match unitRule path with Some c => Ok c | None => Err (unclassifiable path "the design §7 package layout") end
          end
      end
  end.

(** *** Amendment payloads *)

Inductive AmendmentKind := LATE_EVIDENCE | OPERATIONAL_RECOVERY | BILLING | REASSESSMENT.
#[export] Instance AmendmentKind_eq_dec : EqDecision AmendmentKind.
Proof. solve_decision. Defined.
Definition amendment_kind_text (k : AmendmentKind) : string :=
  match k with LATE_EVIDENCE => "LATE_EVIDENCE" | OPERATIONAL_RECOVERY => "OPERATIONAL_RECOVERY" | BILLING => "BILLING" | REASSESSMENT => "REASSESSMENT" end.

Definition AMENDMENT_INDEX : string := "amendment-index.json".
Definition LATE_EVIDENCE_ASSESSMENT : string := "payload/late-evidence-assessment.json".
Definition OPERATIONAL_RECOVERY_RECORD : string := "payload/operational-recovery-record.json".
Definition BILLING_IMPORT : string := "payload/billing-import.json".
Definition BILLING_EXPORT_DIRECTORY : string := "payload/billing-export/".

Definition PAYLOAD_RULES : list (string * (ArtifactClassification * list AmendmentKind)) :=
  [("payload/late-evidence-stream.jsonl", (primary "late_evidence_stream", [LATE_EVIDENCE]));
   (LATE_EVIDENCE_ASSESSMENT, (derived "late_evidence_assessment", [LATE_EVIDENCE; REASSESSMENT]));
   (OPERATIONAL_RECOVERY_RECORD, (derived "operational_recovery_record", [OPERATIONAL_RECOVERY]));
   ("payload/pre-cleanup-snapshot.json", (primary "pre_cleanup_snapshot", [OPERATIONAL_RECOVERY]));
   ("payload/cleanup-journal.jsonl", (primary "cleanup_journal", [OPERATIONAL_RECOVERY]));
   ("payload/cleanup-result.json", (derived "cleanup_result", [OPERATIONAL_RECOVERY]));
   ("payload/leak-audit-result.json", (derived "leak_audit_result", [OPERATIONAL_RECOVERY]));
   (BILLING_IMPORT, (derived "billing_import", [BILLING]))].

Definition billingExportRule (path : string) : option (ArtifactClassification * list AmendmentKind) :=
  if bool_decide (is_Some (Controller.after_prefix BILLING_EXPORT_DIRECTORY path)) then Some (primary "billing_export_file", [BILLING]) else None.

Definition classifyAmendmentPayload (path : string) (kind : AmendmentKind) : Result ArtifactClassification StructuredReason :=
  match invalidPathReason path with
  | Some invalid => Err invalid
  | None =>
      match (match map_get path PAYLOAD_RULES with Some r => Some r | None => billingExportRule path end) with
      | None => Err (unclassifiable path "the design §7 amendment payload layout")
      | Some (c, kinds) =>
          if memb kind kinds then Ok c
          else Err (MkReason "PAYLOAD_NOT_ALLOWED_FOR_KIND" "BR-RUA-043" (Some path) None
                 (quoted_path path +:+ " is a " +:+ str_join " or " (map amendment_kind_text kinds) +:+ " payload; got amendment kind "
                  +:+ amendment_kind_text kind))
      end
  end.

(** ** Index entries *)

(** The language's [<] on strings, which compares code units in order. *)
Fixpoint units_lt (a b : list Z) : bool :=
  match a, b with
  | _, [] => false
  | [], _ :: _ => true
  | x :: a', y :: b' => (x <? y) || ((x =? y) && units_lt a' b')
  end.
(** [a < b] *)
Definition string_lt (a b : string) : bool := units_lt (Utf16.units a) (Utf16.units b).

Definition compareEntryPaths (a b : IndexEntry) : comparison :=
  if bool_decide (ix_artifact_path a = ix_artifact_path b) then Eq
  else if string_lt (ix_artifact_path a) (ix_artifact_path b) then Lt else Gt.
Definition entry_le (a b : IndexEntry) : bool := match compareEntryPaths a b with Gt => false | _ => true end.

Definition duplicateReason (path : string) : StructuredReason :=
  MkReason "DUPLICATE_ARTIFACT_PATH" "BR-RUA-044" (match invalidPathReason path with None => Some path | Some _ => None end) None
    ("path " +:+ quoted_path path +:+ " occurs more than once; expected each file once").

Fixpoint duplicate_loop (seen reported : list string) (files : list PackageFile) : list StructuredReason :=
  match files with
  | [] => []
  | f :: rest =>
      let path := f_path f in
      if memb path seen && negb (memb path reported) then duplicateReason path :: duplicate_loop (path :: seen) (path :: reported) rest
      else duplicate_loop (path :: seen) reported rest
  end.
Definition duplicatePathReasons (files : list PackageFile) : list StructuredReason := duplicate_loop [] [] files.

Definition coreFileMissing (path : string) : StructuredReason :=
  MkReason "CORE_FILE_MISSING" "BR-RUA-044" (Some path) None (quoted_path path +:+ " is absent; expected it among the indexed files").

(** ** Byte integrity *)

Definition SUBJECT : string := "BR-RUA-044".

Definition ineligibility (code detail location : string) (path : option string) : StructuredReason :=
  match path with
  | Some p =>
      if negb (bool_decide (location = "")) || bool_decide (is_Some (invalidPathReason p)) then reason code SUBJECT detail
      else MkReason code SUBJECT (Some p) None detail
  | None => reason code SUBJECT detail
  end.

Definition shown (location path : string) : string := quoted_path (location +:+ path).

Record IndexedFileSet := MkSet {
  st_location : string;
  st_entries : list IndexEntry;
  st_files : list PackageFile;
  st_special_entries : list FsEntry;
  st_unlisted : list string;
}.

(** [new Map(files.map(...)).get(path)]: the last file of a path. *)
Definition file_by_path (files : list PackageFile) (path : string) : option PackageFile :=
  find_first (fun f => bool_decide (f_path f = path)) (rev files).

Section digest.
Context (sha256Hex : list Z -> string).

Definition alteredEntryReason (location : string) (e : IndexEntry) (file : option PackageFile) : list StructuredReason :=
  let path := ix_artifact_path e in
  match file with
  | None => [ineligibility "ALTERED_BYTES" (shown location path +:+ " is indexed but absent; expected the indexed file") location (Some path)]
  | Some f =>
      let actual := sha256Hex (f_bytes f) in
      let size := Z.of_nat (length (f_bytes f)) in
      if bool_decide (size = ix_bytes e) && bool_decide (actual = ix_sha256 e) then []
      else [ineligibility "ALTERED_BYTES"
              (shown location path +:+ " has " +:+ string_of_Z size +:+ " bytes with sha256 " +:+ actual +:+ "; expected " +:+ string_of_Z (ix_bytes e)
               +:+ " bytes with sha256 " +:+ ix_sha256 e) location (Some path)]
  end.

Definition fileSetIntegrityReasons (set : IndexedFileSet) : list StructuredReason :=
  let listed := map ix_artifact_path (st_entries set) ++ st_unlisted set in
  let altered := flat_map (fun e => alteredEntryReason (st_location set) e (file_by_path (st_files set) (ix_artifact_path e))) (st_entries set) in
  let unindexedFiles := map f_path (List.filter (fun f => negb (memb (f_path f) listed)) (st_files set)) in
  altered ++ map (fun path => ineligibility "UNINDEXED_FILE"
      (shown (st_location set) path +:+ " is not listed by the index; expected every stored entry to be an indexed regular file") (st_location set) (Some path))
    (unindexedFiles ++ map fs_path (st_special_entries set)).

(** ** Building an index *)

Fixpoint classify_loop (classify : string -> Result ArtifactClassification StructuredReason) (files : list PackageFile) :
  list StructuredReason * list IndexEntry :=
  match files with
  | [] => ([], [])
  | f :: rest =>
      let (reasons, entries) := classify_loop classify rest in
      match classify (f_path f) with
      | Err r => (r :: reasons, entries)
      | Ok c => (reasons, MkEntry (f_path f) c (Z.of_nat (length (f_bytes f))) (sha256Hex (f_bytes f)) :: entries)
      end
  end.

Definition buildIndexEntries (files : list PackageFile) (classify : string -> Result ArtifactClassification StructuredReason) :
  Result (list IndexEntry) (list StructuredReason) :=
  let (reasons, entries) := classify_loop classify files in
  let reasons := duplicatePathReasons files ++ reasons in
  if bool_decide (reasons = []) then Ok (isort entry_le entries) else Err reasons.

Record PackageIndex := MkPackageIndex {
  pi_identity : ExecutionIdentity;
  pi_execution_manifest_sha256 : string;
  pi_entries : list IndexEntry;
  pi_created_at : string;
}.

Definition path_reasons (files : list PackageFile) : list StructuredReason :=
  duplicatePathReasons files ++ omap (fun f => invalidPathReason (f_path f)) files.
Definition errors_of {A} (r : Result A (list StructuredReason)) : list StructuredReason := match r with Ok _ => [] | Err e => e end.

Definition buildPackageIndex (files : list PackageFile) (identity : ExecutionIdentity) (created_at : string) :
  Result PackageIndex (list StructuredReason) :=
  let indexed := List.filter (fun f => negb (bool_decide (f_path f = path_of "packageIndex"))) files in
  let pathReasons := path_reasons indexed in
  if negb (bool_decide (pathReasons = [])) then Err pathReasons
  else
    let manifest := fileAt indexed (path_of "executionManifest") in
    let entries := buildIndexEntries indexed classifyPackageArtifact in
    match manifest, entries with
    | Some m, Ok entries => Ok (MkPackageIndex identity (sha256Hex (f_bytes m)) entries created_at)
    | _, _ => Err (match manifest with None => [coreFileMissing (path_of "executionManifest")] | Some _ => [] end ++ errors_of entries)
    end.

(** *** The index of one trial, or of the probe *)

Inductive EvidenceIndexTarget :=
| target_trial (execution : ExecutionIdentity) (trial_id : string)
| target_probe (transport_probe_id : string).

Definition TRIAL_CORE_PATHS : list string :=
  map path_of ["executionManifest"; "environmentInput"; "sourceProvenance"; "oracleRevisionCheck"; "deploymentAssemblyInventory"; "resourceManifest"].
Definition PROBE_CORE_PATHS : list string := TRIAL_CORE_PATHS ++ [path_of "coordinationPrefixCheckpoint"].

Definition unitOf (target : EvidenceIndexTarget) : EvidenceUnit :=
  match target with target_trial _ t => unit_trial t | target_probe _ => unit_probe end.

Definition isInScope (path : string) (u : EvidenceUnit) (core : list string) : bool :=
  if bool_decide (is_Some (Controller.after_prefix (unitDirectory u +:+ "/") path)) then negb (bool_decide (path = unitFile u "evidenceIndex"))
  else memb path core.

(** The trial's manifest digest is recorded for a trial only. *)
Record EvidenceIndex := MkEvidenceIndex {
  ei_target : EvidenceIndexTarget;
  ei_execution_manifest_sha256 : string;
  ei_trial_manifest_sha256 : option string;
  ei_entries : list IndexEntry;
  ei_created_at : string;
}.

(** The digest of a file the index records, or the reason it is missing. *)
Definition requiredDigest (files : list PackageFile) (path : string) : list StructuredReason * string :=
  match fileAt files path with
  | None => ([coreFileMissing path], "")
  | Some f => ([], sha256Hex (f_bytes f))
  end.

Definition buildEvidenceIndex (files : list PackageFile) (target : EvidenceIndexTarget) (created_at : string) :
  Result EvidenceIndex (list StructuredReason) :=
  let pathReasons := path_reasons files in
  if negb (bool_decide (pathReasons = [])) then Err pathReasons
  else
    let u := unitOf target in
    let core := match target with target_trial _ _ => TRIAL_CORE_PATHS | target_probe _ => PROBE_CORE_PATHS end in
    let inScope := List.filter (fun f => isInScope (f_path f) u core) files in
    let missing := map coreFileMissing (List.filter (fun path => negb (bool_decide (path = path_of "executionManifest"))
                                                                   && bool_decide (fileAt inScope path = None)) core) in
    let '(r1, manifest) := requiredDigest inScope (path_of "executionManifest") in
    let '(r2, trial) := match u with
                        | unit_trial _ => let '(r, d) := requiredDigest inScope (unitFile u "trialManifest") in (r, Some d)
                        | unit_probe => ([], None)
                        end in
    let reasons := missing ++ r1 ++ r2 in
    match buildIndexEntries inScope classifyPackageArtifact with
    | Ok entries =>
        if bool_decide (reasons = []) then Ok (MkEvidenceIndex target manifest trial entries created_at) else Err reasons
    | Err e => Err (reasons ++ e)
    end.
End digest.

(** ** Lemmas *)

Lemma duplicate_loop_nil (files : list PackageFile) (seen : list string) :
  duplicate_loop seen [] files = [] <-> NoDup (map f_path files) /\ forall p, p ∈ map f_path files -> p ∉ seen.
Proof.
  revert seen. induction files as [|f rest IH]; intros seen.
  { split; [|done]. intros _. split; [constructor|]. set_solver. }
  assert (Hr : memb (f_path f) [] = false) by (apply memb_false; set_solver).
  cbn [duplicate_loop map]. rewrite Hr, andb_true_r, NoDup_cons. destruct (memb (f_path f) seen) eqn:Hs.
  - apply memb_true in Hs. split; [done|]. intros [_ H]. exfalso. apply (H (f_path f)); set_solver.
  - apply memb_false in Hs. rewrite IH. set_solver.
Qed.

Lemma duplicatePathReasons_nil (files : list PackageFile) : duplicatePathReasons files = [] <-> NoDup (map f_path files).
Proof. unfold duplicatePathReasons. rewrite duplicate_loop_nil. set_solver. Qed.

(** What an index says of one file: its class and derivation, its exact size and its digest. *)
Definition entry_of (sha256Hex : list Z -> string) (f : PackageFile) (c : ArtifactClassification) : IndexEntry :=
  MkEntry (f_path f) c (Z.of_nat (length (f_bytes f))) (sha256Hex (f_bytes f)).

(** The two lists have the same length, and related members at every position. *)
Definition indexes (sha256Hex : list Z -> string) (classify : string -> Result ArtifactClassification StructuredReason)
  (e : IndexEntry) (f : PackageFile) : Prop := exists c, classify (f_path f) = Ok c /\ e = entry_of sha256Hex f c.

Section index.
Context (sha256Hex : list Z -> string).

Lemma classify_loop_ok (classify : string -> Result ArtifactClassification StructuredReason) (files : list PackageFile) entries :
  classify_loop sha256Hex classify files = ([], entries) <-> Forall2 (indexes sha256Hex classify) entries files.
Proof.
  revert entries. induction files as [|f rest IH]; intros entries; simpl.
  { split; [intros [= <-]; constructor|]. intros H. by inversion H. }
  destruct (classify_loop sha256Hex classify rest) as [rs es] eqn:Hrest. split.
  - destruct (classify (f_path f)) as [c|r] eqn:Hc; intros [= -> <-]. constructor; [by exists c|]. by apply IH.
  - intros H. inversion H as [|e f' es' fs' (c & Hc & ->) Ht]; subst. rewrite Hc. apply IH in Ht. by simplify_eq.
Qed.

Lemma buildIndexEntries_ok (classify : string -> Result ArtifactClassification StructuredReason) (files : list PackageFile) entries :
  buildIndexEntries sha256Hex files classify = Ok entries <->
  NoDup (map f_path files) /\ exists es, Forall2 (indexes sha256Hex classify) es files /\ entries = isort entry_le es.
Proof.
  unfold buildIndexEntries. destruct (classify_loop sha256Hex classify files) as [rs es] eqn:Hl.
  rewrite <- duplicatePathReasons_nil. case_bool_decide as Hd.
  - apply app_nil in Hd as [Hd ->]. split.
    + intros [= <-]. split; [done|]. exists es. by rewrite <- classify_loop_ok.
    + intros (_ & es' & Hes & ->). apply classify_loop_ok in Hes. rewrite Hl in Hes. by simplify_eq.
  - split; [done|]. intros (Hn & es' & Hes & ->). apply classify_loop_ok in Hes. rewrite Hl in Hes. simplify_eq.
    by rewrite Hn in Hd.
Qed.

Lemma elem_of_rev_list {A} (x : A) (l : list A) : x ∈ rev l <-> x ∈ l.
Proof. by rewrite !list_elem_of_In, <- in_rev. Qed.

Lemma file_by_path_Some (files : list PackageFile) (path : string) f :
  file_by_path files path = Some f -> f ∈ files /\ f_path f = path.
Proof.
  unfold file_by_path. intros H. apply find_first_Some in H as [H1 H2]. cbv beta in H2. boolp. split; [|done]. by rewrite elem_of_rev_list in H1.
Qed.

Lemma file_by_path_None (files : list PackageFile) (path : string) :
  file_by_path files path = None <-> path ∉ map f_path files.
Proof.
  unfold file_by_path. rewrite find_first_None. split.
  - intros H Hin. apply list_elem_of_fmap in Hin as (f & -> & Hf). specialize (H f). rewrite elem_of_rev_list in H. specialize (H Hf). cbv beta in H. by boolp.
  - intros H f Hf. rewrite elem_of_rev_list in Hf. apply bool_decide_eq_false. intros <-. apply H. by apply list_elem_of_fmap_2.
Qed.

(** A path stored once is found. *)
Lemma file_by_path_unique (files : list PackageFile) f :
  f ∈ files -> (forall g, g ∈ files -> f_path g = f_path f -> g = f) -> file_by_path files (f_path f) = Some f.
Proof.
  intros Hf Hu. destruct (file_by_path files (f_path f)) as [g|] eqn:H.
  - apply file_by_path_Some in H as [Hg Hp]. by rewrite (Hu g).
  - apply file_by_path_None in H. set_solver.
Qed.

Lemma NoDup_paths_unique (files : list PackageFile) f g :
  NoDup (map f_path files) -> f ∈ files -> g ∈ files -> f_path g = f_path f -> g = f.
Proof.
  intros Hn Hf Hg Hp. apply list_elem_of_lookup in Hf as [i Hi]. apply list_elem_of_lookup in Hg as [j Hj].
  assert (i = j) as ->; [|congruence].
  apply (NoDup_lookup (map f_path files) _ _ (f_path f)); [done| |]; rewrite list_lookup_fmap; [by rewrite Hi|]. rewrite Hj. simpl. congruence.
Qed.

Lemma fileAt_None (files : list PackageFile) (path : string) : fileAt files path = None <-> path ∉ map f_path files.
Proof.
  unfold fileAt. rewrite find_first_None. split.
  - intros H Hin. apply list_elem_of_fmap in Hin as (f & -> & Hf). specialize (H f Hf). cbv beta in H. by boolp.
  - intros H f Hf. apply bool_decide_eq_false. intros <-. apply H. by apply list_elem_of_fmap_2.
Qed.

(** The file of a path the index lists, when the listed paths are distinct. *)
Lemma fileAt_indexed (files : list PackageFile) f :
  let indexed := List.filter (fun f => negb (bool_decide (f_path f = path_of "packageIndex"))) files in
  NoDup (map f_path indexed) -> f ∈ indexed -> fileAt files (f_path f) = Some f.
Proof.
  intros indexed Hn Hf. destruct (fileAt files (f_path f)) as [g|] eqn:Hg.
  - apply find_first_Some in Hg as [Hg Hp]. cbv beta in Hp. boolp. f_equal. apply (NoDup_paths_unique indexed); [done|done| |done].
    unfold indexed in *. rewrite elem_of_filter_bool in *. rewrite Hp. set_solver.
  - rewrite fileAt_None in Hg. unfold indexed in Hf. rewrite elem_of_filter_bool in Hf. destruct Hf as [Hf _].
    destruct Hg. by apply list_elem_of_fmap_2.
Qed.

(** *** The byte integrity of a file set *)

Lemma alteredEntryReason_nil (location : string) (e : IndexEntry) (file : option PackageFile) :
  alteredEntryReason sha256Hex location e file = [] <->
  exists f, file = Some f /\ Z.of_nat (length (f_bytes f)) = ix_bytes e /\ sha256Hex (f_bytes f) = ix_sha256 e.
Proof.
  unfold alteredEntryReason. destruct file as [f|]; [|split; [done|intros (? & [=] & _)]].
  destruct (bool_decide _ && bool_decide _) eqn:Ht.
  - boolp. split; [|done]. intros _. by exists f.
  - split; [done|]. intros (g & [= <-] & H1 & H2). by rewrite !bool_decide_eq_true_2 in Ht.
Qed.

Lemma map_nil_iff {A B} (f : A -> B) (l : list A) : map f l = [] <-> l = [].
Proof. by destruct l. Qed.

Lemma flat_map_nil {A B} (f : A -> list B) (l : list A) : flat_map f l = [] <-> forall x, x ∈ l -> f x = [].
Proof.
  induction l as [|a l IH]; simpl; [split; [set_solver|done]|]. split.
  - intros H. apply app_nil in H as [H1 H2]. intros x Hx. apply elem_of_cons in Hx as [->|Hx]; [done|]. by apply IH.
  - intros H. rewrite (H a) by set_solver. apply IH. set_solver.
Qed.

(** The files of a set are exactly what its index says. *)
Lemma fileSetIntegrityReasons_nil (set : IndexedFileSet) :
  fileSetIntegrityReasons sha256Hex set = [] <->
  (forall e, e ∈ st_entries set -> exists f, file_by_path (st_files set) (ix_artifact_path e) = Some f
    /\ Z.of_nat (length (f_bytes f)) = ix_bytes e /\ sha256Hex (f_bytes f) = ix_sha256 e)
  /\ (forall f, f ∈ st_files set -> f_path f ∈ map ix_artifact_path (st_entries set) \/ f_path f ∈ st_unlisted set)
  /\ st_special_entries set = [].
Proof.
  unfold fileSetIntegrityReasons. rewrite app_nil, map_nil_iff, app_nil, !map_nil_iff, flat_map_nil.
  assert (Hf : forall (P : PackageFile -> bool) l, List.filter P l = [] <-> forall x, x ∈ l -> P x = false).
  { intros P l. induction l as [|a l IH]; simpl; [split; [set_solver|done]|]. destruct (P a) eqn:Ha.
    - split; [done|]. intros H. rewrite (H a) in Ha; [done|set_solver].
    - rewrite IH. set_solver. }
  rewrite Hf. setoid_rewrite alteredEntryReason_nil. setoid_rewrite negb_false_iff. setoid_rewrite memb_true.
  by setoid_rewrite elem_of_app.
Qed.

(** *** The package index *)

(** The entries of a built package index are those of the files, its own excepted. *)
Lemma buildPackageIndex_entries (files : list PackageFile) identity at_ ix :
  buildPackageIndex sha256Hex files identity at_ = Ok ix ->
  let indexed := List.filter (fun f => negb (bool_decide (f_path f = path_of "packageIndex"))) files in
  NoDup (map f_path indexed)
  /\ (forall e, e ∈ pi_entries ix -> exists f c, f ∈ indexed /\ e = entry_of sha256Hex f c)
  /\ (forall f, f ∈ indexed -> exists c, classifyPackageArtifact (f_path f) = Ok c /\ entry_of sha256Hex f c ∈ pi_entries ix).
Proof.
  unfold buildPackageIndex. set (indexed := List.filter _ files). case_bool_decide; simpl; [|done].
  destruct (buildIndexEntries _ _ _) as [entries|] eqn:He; [|by destruct (fileAt _ _)].
  destruct (fileAt _ _) as [m|]; [|done]. intros [= <-]. simpl.
  apply buildIndexEntries_ok in He as (Hn & es & Hes & ->). split; [done|]. split.
  - intros e Hin. rewrite isort_elem in Hin. apply list_elem_of_lookup in Hin as [i Hi].
    destruct (Forall2_lookup_l _ _ _ _ _ Hes Hi) as (f & Hf & c & _ & ->). exists f, c. split; [|done]. by eapply list_elem_of_lookup_2.
  - intros f Hin. apply list_elem_of_lookup in Hin as [i Hi]. destruct (Forall2_lookup_r _ _ _ _ _ Hes Hi) as (e & He & c & Hc & ->).
    exists c. split; [done|]. rewrite isort_elem. by eapply list_elem_of_lookup_2.
Qed.

(** Both paths are absent, or both hold as many bytes with the same digest. *)
Definition same_content (a b : option PackageFile) : Prop :=
  match a, b with
  | None, None => True
  | Some f, Some g => length (f_bytes f) = length (f_bytes g) /\ sha256Hex (f_bytes f) = sha256Hex (f_bytes g)
  | _, _ => False
  end.

(** The verification of a stored package against the index of the package that was finalized. *)
Definition stored_reasons (ix : PackageIndex) (stored : list PackageFile) (special : list FsEntry) : list StructuredReason :=
  fileSetIntegrityReasons sha256Hex (MkSet "" (pi_entries ix) stored special [path_of "packageIndex"]).
End index.

(** The package index is evidence of tampering. Whatever the index of a finalized package was built from, the
    verifier finds nothing wrong with a stored package exactly when it holds, at every path but the index's own, a file
    with the finalized file's length and digest, and nothing that is no regular file: a file altered, added, removed or
    replaced by a link is reported. *)
Theorem package_index_detects_tampering (sha256Hex : list Z -> string) (finalized stored : list PackageFile)
  (special : list FsEntry) (identity : ExecutionIdentity) (created_at : string) (ix : PackageIndex) :
  buildPackageIndex sha256Hex finalized identity created_at = Ok ix ->
  stored_reasons sha256Hex ix stored special = [] <->
  special = []
  /\ forall path, path <> path_of "packageIndex" -> same_content sha256Hex (fileAt finalized path) (file_by_path stored path).
Proof.
  intros Hb. apply buildPackageIndex_entries in Hb as (Hn & Hof & Hall). unfold stored_reasons. rewrite fileSetIntegrityReasons_nil. simpl.
  set (indexed := List.filter _ finalized) in *.
  assert (Hin : forall f, f ∈ indexed <-> f ∈ finalized /\ f_path f <> path_of "packageIndex").
  { intros f. unfold indexed. rewrite elem_of_filter_bool. split; intros [H1 H2]; (split; [done|]); [by boolp|].
    by rewrite bool_decide_eq_false_2. }
  split.
  - intros (He & Hf & ->). split; [done|]. intros path Hp. destruct (fileAt finalized path) as [f|] eqn:Hfa.
    + apply find_first_Some in Hfa as [Hff Hpath]. cbv beta in Hpath. boolp. subst path.
      destruct (Hall f) as (c & _ & Hent); [by apply Hin|]. destruct (He _ Hent) as (g & Hg & H1 & H2). simpl in *.
      rewrite Hg. simpl. split; [lia|done].
    + destruct (file_by_path stored path) as [g|] eqn:Hg; [|done]. apply file_by_path_Some in Hg as [Hg <-].
      rewrite fileAt_None in Hfa. apply Hfa. destruct (Hf g Hg) as [H|H]; [|set_solver].
      apply list_elem_of_fmap in H as (e & Hpe & Hee). apply Hof in Hee as (f & c & Hf' & ->). simpl in Hpe. rewrite Hpe.
      apply list_elem_of_fmap_2. by apply Hin.
  - intros [-> Hsame]. split; [|split; [|done]].
    + intros e Hee. apply Hof in Hee as (f & c & Hf & ->). simpl. apply Hin in Hf as Hf'. destruct Hf' as [Hff Hp].
      specialize (Hsame _ Hp). rewrite (fileAt_indexed finalized f) in Hsame by done.
      destruct (file_by_path stored (f_path f)) as [g|]; [|done]. destruct Hsame as [H1 H2]. exists g. by rewrite H1, H2.
    + intros g Hg. destruct (decide (f_path g = path_of "packageIndex")) as [Hp|Hp]; [right; set_solver|left].
      specialize (Hsame _ Hp). destruct (file_by_path stored (f_path g)) as [g'|] eqn:Hg'; [|apply file_by_path_None in Hg'; set_solver].
      destruct (fileAt finalized (f_path g)) as [f|] eqn:Hfa; [|done]. apply find_first_Some in Hfa as [Hff Hpath]. cbv beta in Hpath. boolp.
      destruct (Hall f) as (c & _ & Hent); [apply Hin; by rewrite Hpath|]. rewrite <- Hpath. by apply (list_elem_of_fmap_2 ix_artifact_path) in Hent.
Qed.

(** A digest for the examples: the size and a polynomial of the bytes. *)
Definition demo_digest (bytes : list Z) : string :=
  string_of_Z (Z.of_nat (length bytes)) +:+ "-" +:+ string_of_Z (fold_left (fun h b => (h * 257 + b) mod 1000003) bytes 7).

Definition demo_package : list PackageFile :=
  [MkFile "admission/execution-manifest.json" [123; 125; 10]; MkFile "runner/runner-journal.jsonl" [91; 93; 10]].
Definition demo_stored : list PackageFile := demo_package ++ [MkFile "package-index.json" [48]].
Definition demo_altered : list PackageFile := [MkFile "admission/execution-manifest.json" [123; 125; 10]; MkFile "runner/runner-journal.jsonl" [91; 91; 10]].

Lemma package_index_detects_tampering_witness :
  exists ix, buildPackageIndex demo_digest demo_package (id_run "r") "t" = Ok ix
    /\ (stored_reasons demo_digest ix demo_stored [] = [] <-> [] = ([] : list FsEntry)
        /\ forall path, path <> path_of "packageIndex" -> same_content demo_digest (fileAt demo_package path) (file_by_path demo_stored path))
    /\ map code (stored_reasons demo_digest ix demo_stored []) = []
    /\ map code (stored_reasons demo_digest ix demo_altered [MkFsEntry "link" "symlink"]) = ["ALTERED_BYTES"; "UNINDEXED_FILE"].
Proof.
  eexists. split; [vm_compute; reflexivity|]. split; [apply (package_index_detects_tampering demo_digest demo_package demo_stored [] (id_run "r") "t"); vm_compute; reflexivity|].
  split; vm_compute; reflexivity.
Defined.
End Package.
