(* ===== verification/Amendments.v ===== *)
(** * Amendments (src/study-1/src/evidence-package/)

    The amendment packages that follow a finalized package: how one is built (amendments.ts), the graph they form
    and the chain the operator selects (amendment-chain.ts, execution-correlation.ts), how they are read back
    (amendment-snapshots.ts, package-records.ts) and the operational state a selected chain leaves
    (effective-operational-state.ts). The theorems: a graph has no reason exactly when every known amendment lies on
    one parent-linked chain that ends at the selected head; the walk over parents always ends; and the effective
    state is the last recovery's, or nothing when the package or a recovery cannot be trusted. *)

From S2P Require Import Prelude AttemptLifecycle Timestamps Decimals Store JsonText Parsing Journal Controller Evidence ArtifactReading Ingestion LeaseHealth TrialMessage Package.
Import Json Store Utc Identifiers JsonText Journal.
Import Package.
Import Evidence(map_get, ownString, ingestionFinding).
Import Ingestion(RecordValidator, RecordValidation, record_valid, record_invalid, SchemaViolation, instance_path, keyword, v_detail, validateAs, textOf, intOf, itemsOf, fieldOf).
Import (notations) Stdlib.Strings.Ascii.
Open Scope Z_scope.

Module Amendments.

(** ** Records *)

Definition executionIdOf (identity : ExecutionIdentity) : string :=
  match identity with id_run i | id_transport_probe i | id_variant_validation i => i end.

Definition amendmentsDirectory (identity : ExecutionIdentity) : string := "amendments/" +:+ executionIdOf identity.
Definition amendmentDirectory (identity : ExecutionIdentity) (sequence : Z) (amendment_id : string) : string :=
  "amendments/" +:+ executionIdOf identity +:+ "/" +:+ Decimals.padStart (string_of_Z sequence) 4 "0"%char +:+ "-" +:+ amendment_id.

(** The execution id of a record: at most one of its three names. *)
Record IdentityCarrier := MkCarrier { run_id : option string; transport_probe_id : option string; variant_validation_id : option string }.

Definition carrier_of (identity : ExecutionIdentity) : IdentityCarrier :=
  match identity with
  | id_run i => MkCarrier (Some i) None None
  | id_transport_probe i => MkCarrier None (Some i) None
  | id_variant_validation i => MkCarrier None None (Some i)
  end.

Definition belongsToExecution (record : IdentityCarrier) (identity : ExecutionIdentity) : bool :=
  let expected := carrier_of identity in
  bool_decide (run_id record = run_id expected) && bool_decide (transport_probe_id record = transport_probe_id expected)
  && bool_decide (variant_validation_id record = variant_validation_id expected).

Record AmendmentIndex := MkAmendmentIndex {
  ai_correlation : IdentityCarrier;
  ai_execution_manifest_sha256 : string;
  ai_amendment_id : string;
  ai_amendment_kind : AmendmentKind;
  ai_sequence : Z;
  ai_original_package_index_sha256 : string;
  ai_parent_amendment_index_sha256 : option string;
  ai_entries : list IndexEntry;
  ai_created_at : string;
}.

(** ** The amendment graph (amendment-chain.ts) *)

Record ParsedAmendment := MkParsed {
  pa_location : string;
  pa_index : AmendmentIndex;
  pa_index_sha256 : string;
  pa_files : list PackageFile;
}.

Record AmendmentLink := MkLink { lk_sequence : Z; lk_amendment_id : string; lk_amendment_kind : AmendmentKind; lk_amendment_index_sha256 : string }.

Record AmendmentGraphInput := MkGraphInput {
  gi_identity : ExecutionIdentity;
  gi_execution_manifest_sha256 : string;
  gi_original_package_index_sha256 : string;
  gi_amendments : list ParsedAmendment;
  gi_selected_head : option string;
}.

Record AmendmentGraph := MkGraph {
  selected_chain : list ParsedAmendment;
  known_descendants : list AmendmentLink;
  g_reasons : list StructuredReason;
}.

Definition amendmentLink (a : ParsedAmendment) : AmendmentLink :=
  MkLink (ai_sequence (pa_index a)) (ai_amendment_id (pa_index a)) (ai_amendment_kind (pa_index a)) (pa_index_sha256 a).

Definition sequence_of (a : ParsedAmendment) : Z := ai_sequence (pa_index a).
Definition parent_of (a : ParsedAmendment) : option string := ai_parent_amendment_index_sha256 (pa_index a).

Definition broken (a : ParsedAmendment) (detail : string) : StructuredReason :=
  ineligibility "BROKEN_PARENT" (pa_location a +:+ ": " +:+ detail) (pa_location a) None.

Section graph.
Context (amendments : list ParsedAmendment).

(** [byDigest.get(digest)]: the first amendment of a digest is kept. *)
Definition byDigest (digest : string) : option ParsedAmendment :=
  find_first (fun a => bool_decide (pa_index_sha256 a = digest)) amendments.

Definition parent_amendment (a : ParsedAmendment) : option ParsedAmendment := parent_of a ≫= byDigest.

(** The walk from [next] over parents, until none is left or one is met again. *)
Fixpoint chain_walk (fuel : nat) (visited : list string) (next : option ParsedAmendment) : list ParsedAmendment :=
  match fuel, next with
  | S fuel, Some a =>
      if memb (pa_index_sha256 a) visited then [] else a :: chain_walk fuel (pa_index_sha256 a :: visited) (parent_amendment a)
  | _, _ => []
  end.

Definition walk_fuel : nat := S (length amendments).

Definition selectedChain (head : option string) : list ParsedAmendment := rev (chain_walk walk_fuel [] (head ≫= byDigest)).

Definition membershipReasons (a : ParsedAmendment) (input : AmendmentGraphInput) : list StructuredReason :=
  let index := pa_index a in
  let problems :=
    (if belongsToExecution (ai_correlation index) (gi_identity input) then [] else ["it names another execution"])
    ++ (if bool_decide (ai_execution_manifest_sha256 index = gi_execution_manifest_sha256 input) then []
        else ["its execution_manifest_sha256 is " +:+ ai_execution_manifest_sha256 index +:+ ", not " +:+ gi_execution_manifest_sha256 input])
    ++ (if bool_decide (ai_original_package_index_sha256 index = gi_original_package_index_sha256 input) then []
        else ["its original_package_index_sha256 is " +:+ ai_original_package_index_sha256 index +:+ ", not "
              +:+ gi_original_package_index_sha256 input]) in
  map (fun problem => broken a (problem +:+ "; expected an amendment of this execution's original package")) problems.

Definition parentReasons (a : ParsedAmendment) : list StructuredReason :=
  let sequence := sequence_of a in
  if sequence =? 1 then
    match parent_of a with
    | None => []
    | Some parent => [broken a ("sequence 1 names parent " +:+ parent +:+ "; expected null")]
    end
  else
    let parentSequence := sequence_of <$> parent_amendment a in
    if bool_decide (parentSequence = Some (sequence - 1)) then []
    else
      let found := match parentSequence with None => "no known amendment" | Some n => "an amendment of sequence " +:+ string_of_Z n end in
      [broken a ("sequence " +:+ string_of_Z sequence +:+ " names parent " +:+ nullish (parent_of a) "null" +:+ ", " +:+ found
         +:+ "; expected the index digest of the amendment of sequence " +:+ string_of_Z (sequence - 1))].

Fixpoint duplicate_digests (seen : list string) (l : list ParsedAmendment) : list StructuredReason :=
  match l with
  | [] => []
  | a :: rest =>
      (if memb (pa_index_sha256 a) seen
       then [broken a ("its index digest " +:+ pa_index_sha256 a +:+ " is shared with another amendment; expected one amendment per digest")] else [])
      ++ duplicate_digests (pa_index_sha256 a :: seen) rest
  end.
Definition duplicateDigestReasons : list StructuredReason := duplicate_digests [] amendments.

(** [[...new Set(sequences)].toSorted((a, b) => a - b)] *)
Definition distinct_sequences : list Z := isort Z.leb (remove_dups (map sequence_of amendments)).

(** Each sequence must be the one after the last ([previous], 0 at the start). *)
Fixpoint gaps_from (previous : Z) (sequences : list Z) : list StructuredReason :=
  match sequences with
  | [] => []
  | sequence :: rest =>
      let expected := previous + 1 in
      (if sequence =? expected then []
       else
         let missing := if sequence - 1 =? expected then string_of_Z expected else string_of_Z expected +:+ ".." +:+ string_of_Z (sequence - 1) in
         [ineligibility "SEQUENCE_GAP" ("amendment sequence " +:+ missing +:+ " is missing before " +:+ string_of_Z sequence
            +:+ "; expected dense sequences from 1") "amendments" None])
      ++ gaps_from sequence rest
  end.
Definition sequenceGapReasons : list StructuredReason := gaps_from 0 distinct_sequences.

(** The walk of the cycle check from [next]: the digests passed, and where it stopped. *)
Fixpoint cycle_walk (fuel : nat) (settled path : list string) (next : option ParsedAmendment) : list string * option ParsedAmendment :=
  match fuel, next with
  | S fuel, Some a =>
      if memb (pa_index_sha256 a) settled || memb (pa_index_sha256 a) path then (path, next)
      else cycle_walk fuel settled (path ++ [pa_index_sha256 a]) (parent_amendment a)
  | _, _ => (path, next)
  end.

Fixpoint cycles_from (settled : list string) (starts : list ParsedAmendment) : list StructuredReason :=
  match starts with
  | [] => []
  | start :: rest =>
      let '(path, next) := cycle_walk walk_fuel settled [] (Some start) in
      match next with
      | Some a =>
          if memb (pa_index_sha256 a) path
          then [ineligibility "CYCLE" ("following parents from " +:+ pa_location a +:+ " returns to index digest " +:+ pa_index_sha256 a
                  +:+ "; expected a chain that ends at sequence 1") (pa_location a) None]
          else []
      | None => []
      end ++ cycles_from (settled ++ path) rest
  end.
Definition cycleReasons : list StructuredReason := cycles_from [] amendments.

Definition headReasons (head : option string) : list StructuredReason :=
  match head with
  | None => []
  | Some h =>
      match byDigest h with
      | Some _ => []
      | None => [ineligibility "UNKNOWN_HEAD" ("selected head " +:+ h +:+ " is the index digest of no known amendment; expected a known amendment")
                   "amendments" None]
      end
  end.
End graph.

Definition unselected (a : ParsedAmendment) : StructuredReason :=
  ineligibility "UNSELECTED_DESCENDANT" (pa_location a +:+ " (sequence " +:+ string_of_Z (sequence_of a) +:+ ", index digest " +:+ pa_index_sha256 a
    +:+ ") is outside the selected chain; expected every known amendment to be selected") (pa_location a) None.

(** [compareLinks(a, b) <= 0]; equal digests of one sequence compare as later. *)
Definition link_le (a b : AmendmentLink) : bool :=
  if lk_sequence a =? lk_sequence b then string_lt (lk_amendment_index_sha256 a) (lk_amendment_index_sha256 b)
  else lk_sequence a <? lk_sequence b.

Definition resolveAmendmentGraph (input : AmendmentGraphInput) : AmendmentGraph :=
  let amendments := gi_amendments input in
  let chain := selectedChain amendments (gi_selected_head input) in
  let inChain := map pa_index_sha256 chain in
  MkGraph chain (isort link_le (map amendmentLink amendments))
    (flat_map (fun a => membershipReasons a input) amendments
     ++ flat_map (parentReasons amendments) amendments
     ++ duplicateDigestReasons amendments
     ++ sequenceGapReasons amendments
     ++ cycleReasons amendments
     ++ headReasons amendments (gi_selected_head input)
     ++ map unselected (List.filter (fun a => negb (memb (pa_index_sha256 a) inChain)) amendments)).

(** ** Building an amendment (amendments.ts) *)

Record AmendmentInput := MkAmendmentInput {
  am_identity : ExecutionIdentity;
  am_execution_manifest_sha256 : string;
  am_amendment_id : string;
  am_amendment_kind : AmendmentKind;
  am_sequence : jsnum;
  am_original_package_index_sha256 : string;
  am_parent_amendment_index_sha256 : option string;
  am_payload : list PackageFile;
  am_created_at : string;
}.

Record BuiltAmendment := MkBuilt { ba_directory : string; ba_index : AmendmentIndex; ba_files : list PackageFile }.

Definition REQUIRED_PAYLOAD (kind : AmendmentKind) : string :=
  match kind with
  | LATE_EVIDENCE | REASSESSMENT => LATE_EVIDENCE_ASSESSMENT
  | OPERATIONAL_RECOVERY => OPERATIONAL_RECOVERY_RECORD
  | BILLING => BILLING_IMPORT
  end.

Definition amendmentReason (c d : string) : StructuredReason := reason c "BR-RUA-043" d.

(** [Number.isSafeInteger(sequence) && sequence >= 1] *)
Definition positive_sequence (sequence : jsnum) : option Z :=
  match sequence with JSInt z => if is_safe_integer z && (1 <=? z) then Some z else None | JSOther _ => None end.

Definition sequenceReasons (sequence : jsnum) (parent : option string) : list StructuredReason :=
  match positive_sequence sequence with
  | None => [amendmentReason "INVALID_SEQUENCE" ("sequence " +:+ boundedJsonText (JNum sequence) QUOTED_JSON_LIMIT +:+ "; expected a positive safe integer")]
  | Some z =>
      if Bool.eqb (z =? 1) (bool_decide (parent = None)) then []
      else
        let expected := if z =? 1 then "null for sequence 1" else "the index digest of amendment " +:+ string_of_Z (z - 1) in
        [amendmentReason "PARENT_MISMATCH" ("sequence " +:+ string_of_Z z +:+ " has parent " +:+ nullish parent "null" +:+ "; expected " +:+ expected)]
  end.

Definition entry_json (e : IndexEntry) : json :=
  JObj [("artifact_path", JStr (ix_artifact_path e)); ("artifact_class", JStr (artifact_class (ix_classification e)));
        ("derivation", JStr (derivation (ix_classification e))); ("bytes", JNum (JSInt (ix_bytes e))); ("sha256", JStr (ix_sha256 e))].

Definition amendment_json (identity : ExecutionIdentity) (i : AmendmentIndex) : json :=
  JObj ([("schema_version", JNum (JSInt 1)); ("record_type", JStr "amendment_index")] ++ executionIdentityFields identity
    ++ [("execution_manifest_sha256", JStr (ai_execution_manifest_sha256 i)); ("amendment_id", JStr (ai_amendment_id i));
        ("amendment_kind", JStr (amendment_kind_text (ai_amendment_kind i))); ("sequence", JNum (JSInt (ai_sequence i)));
        ("original_package_index_sha256", JStr (ai_original_package_index_sha256 i));
        ("parent_amendment_index_sha256", match ai_parent_amendment_index_sha256 i with Some p => JStr p | None => JNull end);
        ("entries", JArr (map entry_json (ai_entries i))); ("created_at", JStr (ai_created_at i))]).

Section amend.
Context (sha256Hex : list Z -> string).

(** The outer result is the serializer's: it throws on what it cannot write. *)
Definition buildAmendment (input : AmendmentInput) : Result (Result BuiltAmendment (list StructuredReason)) js_error :=
  let entries := buildIndexEntries sha256Hex (am_payload input) (fun path => classifyAmendmentPayload path (am_amendment_kind input)) in
  let required := REQUIRED_PAYLOAD (am_amendment_kind input) in
  let reasons := sequenceReasons (am_sequence input) (am_parent_amendment_index_sha256 input)
    ++ match fileAt (am_payload input) required with None => [coreFileMissing required] | Some _ => [] end
    ++ errors_of entries in
  match entries, reasons, positive_sequence (am_sequence input) with
  | Ok entries, [], Some sequence =>
      let index := MkAmendmentIndex (carrier_of (am_identity input)) (am_execution_manifest_sha256 input) (am_amendment_id input)
        (am_amendment_kind input) sequence (am_original_package_index_sha256 input) (am_parent_amendment_index_sha256 input) entries
        (am_created_at input) in
      let! bytes := TrialMessage.serializeRecordFile (amendment_json (am_identity input) index) in
      Ok (Ok (MkBuilt (amendmentDirectory (am_identity input) sequence (am_amendment_id input)) index
        (am_payload input ++ [MkFile AMENDMENT_INDEX (Parsing.bytes_of bytes)])))
  | _, _, _ => Ok (Err reasons)
  end.
End amend.

(** ** Reading packages back (package-records.ts, amendment-snapshots.ts) *)

Definition MAX_QUOTED_VIOLATIONS : nat := 3.

Definition describeViolations (violations : list SchemaViolation) : string :=
  let quoted := map (fun v => keyword v +:+ " at " +:+ boundedJsonText (JStr (instance_path v)) QUOTED_JSON_LIMIT +:+ ": " +:+ v_detail v)
    (take MAX_QUOTED_VIOLATIONS violations) in
  let more := (length violations - length quoted)%nat in
  string_of_Z (Z.of_nat (length violations)) +:+ " schema violation(s): " +:+ str_join "; " quoted
  +:+ (if (0 <? more)%nat then " and " +:+ string_of_Z (Z.of_nat more) +:+ " more" else "").

Definition recordReason (c path d : string) : StructuredReason := MkReason c "BR-RUA-033" (Some path) None (path +:+ ": " +:+ d).

Record AmendmentSnapshot := MkSnapshot { as_directory : string; as_files : list PackageFile; as_special_entries : list FsEntry }.

(** The amendments whose index parsed, and what was found reading all of them. *)
Record ReadAmendments := MkRead { ra_amendments : list ParsedAmendment; ra_reasons : list StructuredReason }.

(** *** The records read, as the schema leaves them: a member of another type cannot occur in a valid record *)

Definition amendment_kind_of (t : string) : option AmendmentKind :=
  find_first (fun k => bool_decide (amendment_kind_text k = t)) [LATE_EVIDENCE; OPERATIONAL_RECOVERY; BILLING; REASSESSMENT].

Definition carrierOf (v : json) : IdentityCarrier :=
  MkCarrier (ownString v "run_id") (ownString v "transport_probe_id") (ownString v "variant_validation_id").

Definition indexEntryOf (v : json) : IndexEntry :=
  MkEntry (textOf v "artifact_path") (MkClass (textOf v "artifact_class") (textOf v "derivation")) (intOf v "bytes") (textOf v "sha256").

Definition amendmentIndexOf (v : json) : AmendmentIndex :=
  MkAmendmentIndex (carrierOf v) (textOf v "execution_manifest_sha256") (textOf v "amendment_id")
    (nullish (amendment_kind_of (textOf v "amendment_kind")) BILLING) (intOf v "sequence") (textOf v "original_package_index_sha256")
    (ownString v "parent_amendment_index_sha256") (map indexEntryOf (itemsOf v "entries")) (textOf v "created_at").

(** ** The operational state after recovery (effective-operational-state.ts) *)

Inductive TerminalCleanupStatus := succeeded | partial | failed.
Inductive CleanupStatus := not_started | running | terminal (s : TerminalCleanupStatus).
Inductive LeakAuditStatus := clean | leaks_detected | inconclusive.
#[export] Instance TerminalCleanupStatus_eq_dec : EqDecision TerminalCleanupStatus.
Proof. solve_decision. Defined.
#[export] Instance LeakAuditStatus_eq_dec : EqDecision LeakAuditStatus.
Proof. solve_decision. Defined.

Definition cleanup_text (s : TerminalCleanupStatus) : string := match s with succeeded => "succeeded" | partial => "partial" | failed => "failed" end.
Definition leak_text (s : LeakAuditStatus) : string :=
  match s with clean => "clean" | leaks_detected => "leaks_detected" | inconclusive => "inconclusive" end.
Definition lease_text (s : LeaseHealth.LeaseStatus) : string :=
  match s with LeaseHealth.released => "released" | LeaseHealth.recovery_required => "recovery_required" | LeaseHealth.unverified => "unverified" end.

Record OriginalClosure := MkOriginal { oc_cleanup_status : CleanupStatus; oc_leak_audit_status : LeakAuditStatus; oc_lease_status : LeaseHealth.LeaseStatus }.
Record OperationalClosure := MkClosure {
  cl_cleanup_status : TerminalCleanupStatus;
  cl_leak_audit_status : LeakAuditStatus;
  cl_lease_status : LeaseHealth.LeaseStatus;
}.
#[local] Existing Instance LeaseHealth.LeaseStatus_eq_dec.
#[export] Instance OperationalClosure_eq_dec : EqDecision OperationalClosure.
Proof. solve_decision. Defined.

(** [None] is [unverified]. *)
Record EffectiveOperationalState := MkEffective {
  effective_cleanup_status : option TerminalCleanupStatus;
  effective_leak_audit_status : option LeakAuditStatus;
  effective_lease_status : LeaseHealth.LeaseStatus;
  operational_recovery_applied : bool;
}.

Definition UNVERIFIED : EffectiveOperationalState := MkEffective None None LeaseHealth.unverified false.

Inductive PackageEligibility := eligible | ineligible.
#[export] Instance PackageEligibility_eq_dec : EqDecision PackageEligibility.
Proof. solve_decision. Defined.

(** The record of one verification. *)
Record PackageVerification := MkVerification {
  pv_identity : ExecutionIdentity;
  package_eligibility : PackageEligibility;
  package_ineligibility_reasons : list StructuredReason;
  pv_original_package_index_sha256 : string;
  selected_amendment_head_sha256 : option string;
  pv_selected_chain : list AmendmentLink;
  pv_known_descendants : list AmendmentLink;
  evaluated_at : string;
}.

Definition sameClosure (a b : OperationalClosure) : bool :=
  bool_decide (cl_cleanup_status a = cl_cleanup_status b) && bool_decide (cl_leak_audit_status a = cl_leak_audit_status b)
  && bool_decide (cl_lease_status a = cl_lease_status b).

Definition closureOf (v : json) : OperationalClosure :=
  MkClosure (nullish (find_first (fun s => bool_decide (cleanup_text s = textOf v "cleanup_status")) [succeeded; partial; failed]) failed)
    (nullish (find_first (fun s => bool_decide (leak_text s = textOf v "leak_audit_status")) [clean; leaks_detected; inconclusive]) inconclusive)
    (nullish (find_first (fun s => bool_decide (lease_text s = textOf v "lease_status"))
       [LeaseHealth.released; LeaseHealth.recovery_required; LeaseHealth.unverified]) LeaseHealth.unverified).

(** The loop over the recoveries of the selected chain; [None] when one cannot be read. *)
Fixpoint apply_recoveries (recovered : string -> option OperationalClosure) (links : list AmendmentLink) (closure : OperationalClosure) (applied : bool) :
  option (OperationalClosure * bool) :=
  match links with
  | [] => Some (closure, applied)
  | link :: rest =>
      match recovered (lk_amendment_index_sha256 link) with
      | None => None
      | Some c => apply_recoveries recovered rest c (applied || negb (sameClosure closure c))
      end
  end.

Section reading.
Context (JSON_parse : string -> Result json string) (validator : RecordValidator) (digest : list Z -> string).

Definition parsePackageRecord (bytes : list Z) (recordType path : string) : Result json StructuredReason :=
  match Parsing.parseJsonDocument JSON_parse bytes with
  | Err e =>
      let failure := match e with
                     | Parsing.invalid_utf8 offset => "invalid UTF-8 at byte " +:+ string_of_Z offset
                     | Parsing.invalid_json d => boundedText d QUOTED_JSON_LIMIT
                     end in
      Err (recordReason "RECORD_UNPARSEABLE" path (failure +:+ "; expected one UTF-8 JSON " +:+ recordType +:+ " document"))
  | Ok v =>
      match validateAs validator recordType v with
      | record_valid => Ok v
      | record_invalid violations =>
          Err (recordReason "RECORD_SCHEMA_INVALID" path (describeViolations violations +:+ "; expected a valid " +:+ recordType))
      end
  end.

Definition readAmendment (location : string) (snapshot : AmendmentSnapshot) : ReadAmendments :=
  match fileAt (as_files snapshot) AMENDMENT_INDEX with
  | None => MkRead [] [ineligibility "ALTERED_BYTES" (location +:+ AMENDMENT_INDEX +:+ " is absent; expected the amendment index written last") location None]
  | Some indexFile =>
      match parsePackageRecord (f_bytes indexFile) "amendment_index" AMENDMENT_INDEX with
      | Err e => MkRead [] [ineligibility "ALTERED_BYTES" (location +:+ detail e) location None]
      | Ok v =>
          let index := amendmentIndexOf v in
          MkRead [MkParsed location index (digest (f_bytes indexFile)) (as_files snapshot)]
            (fileSetIntegrityReasons digest (MkSet location (ai_entries index) (as_files snapshot) (as_special_entries snapshot) [AMENDMENT_INDEX]))
      end
  end.

Definition readAmendments (amendmentsDirectory : string) (snapshots : list AmendmentSnapshot) : ReadAmendments :=
  let reads := map (fun s => readAmendment (amendmentsDirectory +:+ "/" +:+ as_directory s +:+ "/") s) snapshots in
  MkRead (flat_map ra_amendments reads) (flat_map ra_reasons reads).

Definition contradictory (a : ParsedAmendment) (d : string) : StructuredReason :=
  ineligibility "CONTRADICTORY_CHAIN" (pa_location a +:+ ": the final assessment of the selected chain: " +:+ d) (pa_location a) None.

Definition assessing (a : ParsedAmendment) : bool := memb (ai_amendment_kind (pa_index a)) [LATE_EVIDENCE; REASSESSMENT].

Definition finalAssessmentReasons (chain : list ParsedAmendment) : list StructuredReason :=
  match last_opt (List.filter assessing chain) with
  | None => []
  | Some last =>
      let path := LATE_EVIDENCE_ASSESSMENT in
      match (f ← fileAt (pa_files last) path; Some (parsePackageRecord (f_bytes f) "late_evidence_assessment" path)) with
      | None => [contradictory last (path +:+ " is absent; expected a readable late-evidence assessment")]
      | Some (Err e) => [contradictory last (path +:+ " cannot be read (" +:+ detail e +:+ "); expected a readable late-evidence assessment")]
      | Some (Ok v) =>
          if bool_decide (textOf v "late_evidence_status" = "contradictory")
          then [contradictory last "late_evidence_status is contradictory; expected a later reassessment selected over it"] else []
      end
  end.

(** [amendments] are the execution's directories; the recovery of a digest is the first with an index of that digest. *)
Definition recoveredClosure (indexDigest : string) (verification : PackageVerification) (amendments : list AmendmentSnapshot) : option OperationalClosure :=
  amendment ← find_first (fun s => match fileAt (as_files s) AMENDMENT_INDEX with
                                   | Some index => bool_decide (digest (f_bytes index) = indexDigest) | None => false end) amendments;
  file ← fileAt (as_files amendment) OPERATIONAL_RECOVERY_RECORD;
  match parsePackageRecord (f_bytes file) "operational_recovery_record" OPERATIONAL_RECOVERY_RECORD with
  | Err _ => None
  | Ok v =>
      if bool_decide (textOf v "original_package_index_sha256" = pv_original_package_index_sha256 verification)
      then Some (closureOf (nullish (fieldOf v "recovered_closure") JNull)) else None
  end.

Definition effectiveOperationalState (verification : PackageVerification) (original : OriginalClosure) (amendments : list AmendmentSnapshot) :
  EffectiveOperationalState :=
  match package_eligibility verification, oc_cleanup_status original with
  | eligible, terminal cleanup =>
      let recoveries := List.filter (fun link => bool_decide (lk_amendment_kind link = OPERATIONAL_RECOVERY)) (pv_selected_chain verification) in
      match apply_recoveries (fun d => recoveredClosure d verification amendments) recoveries
              (MkClosure cleanup (oc_leak_audit_status original) (oc_lease_status original)) false with
      | None => UNVERIFIED
      | Some (closure, changed) =>
          MkEffective (Some (cl_cleanup_status closure)) (Some (cl_leak_audit_status closure)) (cl_lease_status closure) changed
      end
  | _, _ => UNVERIFIED
  end.
End reading.
End Amendments.
