(* ===== verification/AmendmentsCorrect.v ===== *)
(** * The amendment graph and the recovered state (src/study-1/src/evidence-package/)

    What [resolveAmendmentGraph] accepts: exactly the sets of amendments that are one parent-linked chain ending at the
    selected head. And what [effectiveOperationalState] reports. *)

From S2P Require Import Prelude AttemptLifecycle Timestamps Decimals Store JsonText Parsing Journal Controller Evidence ArtifactReading Ingestion LeaseHealth TrialMessage Package Amendments.
Import Json Store Utc Identifiers JsonText Journal.
Import Package Amendments.
Open Scope Z_scope.

Module AmendmentsCorrect.

(** ** Linked chains *)

(** The chain starts at sequence [n] after [parent]: each amendment names the digest of the one before it. *)
Fixpoint links (parent : option string) (n : Z) (chain : list ParsedAmendment) : Prop :=
  match chain with
  | [] => True
  | a :: rest => parent_of a = parent /\ sequence_of a = n /\ links (Some (pa_index_sha256 a)) (n + 1) rest
  end.

(** The digest the amendment after [chain] names. *)
Definition tip (parent : option string) (chain : list ParsedAmendment) : option string :=
  match last chain with Some a => Some (pa_index_sha256 a) | None => parent end.

Lemma links_app p n c1 c2 : links p n (c1 ++ c2) <-> links p n c1 /\ links (tip p c1) (n + Z.of_nat (length c1)) c2.
Proof.
  revert p n. induction c1 as [|a c1 IH]; intros p n; simpl.
  { rewrite Z.add_0_r. tauto. }
  rewrite IH. replace (n + Z.of_nat (S (length c1))) with (n + 1 + Z.of_nat (length c1)) by lia.
  assert (tip (Some (pa_index_sha256 a)) c1 = tip p (a :: c1)) as ->; [|tauto].
  unfold tip. rewrite last_cons. by destruct (last c1).
Qed.

Lemma links_snoc p n c a :
  links p n (c ++ [a]) <-> links p n c /\ parent_of a = tip p c /\ sequence_of a = n + Z.of_nat (length c).
Proof. rewrite links_app. simpl. tauto. Qed.

Lemma tip_snoc p c a : tip p (c ++ [a]) = Some (pa_index_sha256 a).
Proof. unfold tip. by rewrite last_snoc. Qed.

Lemma links_sequences p n c : links p n c -> map sequence_of c = seqZ n (Z.of_nat (length c)).
Proof.
  revert p n. induction c as [|a c IH]; intros p n; [done|]. intros (_ & Hn & Hc). cbn [map length].
  rewrite seqZ_cons by lia. rewrite Hn. f_equal. rewrite (IH _ _ Hc). f_equal; lia.
Qed.

(** ** The amendments by digest *)

Section graph.
Context (l : list ParsedAmendment).

Lemma byDigest_Some d a : byDigest l d = Some a -> a ∈ l /\ pa_index_sha256 a = d.
Proof. intros H. apply find_first_Some in H as [H1 H2]. cbv beta in H2. by boolp. Qed.

Lemma byDigest_None d : byDigest l d = None <-> d ∉ map pa_index_sha256 l.
Proof.
  unfold byDigest. rewrite find_first_None. split.
  - intros H Hin. apply list_elem_of_fmap in Hin as (a & -> & Ha). specialize (H a Ha). cbv beta in H. by boolp.
  - intros H a Ha. apply bool_decide_eq_false. intros <-. apply H. by apply list_elem_of_fmap_2.
Qed.

Hypothesis distinct : NoDup (map pa_index_sha256 l).

Lemma digest_inj a b : a ∈ l -> b ∈ l -> pa_index_sha256 a = pa_index_sha256 b -> a = b.
Proof.
  intros Ha Hb H. apply list_elem_of_lookup in Ha as [i Hi]. apply list_elem_of_lookup in Hb as [j Hj].
  assert (i = j) as ->; [|congruence].
  apply (NoDup_lookup (map pa_index_sha256 l) _ _ (pa_index_sha256 a)); [done| |]; rewrite list_lookup_fmap; [by rewrite Hi|].
  rewrite Hj. simpl. congruence.
Qed.

Lemma byDigest_of a : a ∈ l -> byDigest l (pa_index_sha256 a) = Some a.
Proof.
  intros Ha. destruct (byDigest l (pa_index_sha256 a)) as [b|] eqn:Hb.
  - apply byDigest_Some in Hb as [Hb He]. f_equal. by apply digest_inj.
  - apply byDigest_None in Hb. destruct Hb. by apply list_elem_of_fmap_2.
Qed.
End graph.

(** ** The walk to the head of the chain *)

Section walk.
Context (l : list ParsedAmendment).

Lemma parent_in a p : parent_amendment l a = Some p -> p ∈ l /\ parent_of a = Some (pa_index_sha256 p).
Proof.
  unfold parent_amendment. destruct (parent_of a) as [d|]; simpl; [|done]. intros H. by apply byDigest_Some in H as [H <-].
Qed.

Lemma walk_in fuel visited next :
  (forall a, next = Some a -> a ∈ l) -> forall a, a ∈ chain_walk l fuel visited next -> a ∈ l.
Proof.
  revert visited next. induction fuel as [|fuel IH]; intros visited [b|] Hn a; simpl; try set_solver.
  destruct (memb _ _); [set_solver|]. intros Ha. apply elem_of_cons in Ha as [->|Ha]; [by apply Hn|].
  eapply IH; [|done]. intros p Hp. by apply parent_in in Hp as [? _].
Qed.

Lemma walk_NoDup fuel visited next :
  NoDup (map pa_index_sha256 (chain_walk l fuel visited next))
  /\ forall a, a ∈ chain_walk l fuel visited next -> pa_index_sha256 a ∉ visited.
Proof.
  revert visited next. induction fuel as [|fuel IH]; intros visited [b|]; simpl; try (split; [constructor|set_solver]).
  destruct (memb _ _) eqn:Hm; [split; [constructor|set_solver]|]. apply memb_false in Hm.
  destruct (IH (pa_index_sha256 b :: visited) (parent_amendment l b)) as [H1 H2]. cbn [map]. split.
  - apply NoDup_cons. split; [|done]. intros Hin. apply list_elem_of_fmap in Hin as (a & Hab & Ha). apply H2 in Ha. set_solver.
  - intros a Ha. apply elem_of_cons in Ha as [->|Ha]; [done|]. apply H2 in Ha. set_solver.
Qed.

(** A visited digest is one of the amendments'; the walk stops before it has visited more digests than there are. *)
Lemma visited_bound (visited : list string) d :
  NoDup visited -> d ∉ visited -> (forall x, x ∈ d :: visited -> x ∈ map pa_index_sha256 l) -> (length visited < length l)%nat.
Proof.
  intros Hn Hd Hs. assert (Hle : (length (d :: visited) <= length (map pa_index_sha256 l))%nat).
  { apply submseteq_length, NoDup_submseteq; [by apply NoDup_cons|]. intros x. apply Hs. }
  rewrite length_map in Hle. simpl in Hle. lia.
Qed.

Lemma walk_enough fuel visited next :
  NoDup visited -> (forall x, x ∈ visited -> x ∈ map pa_index_sha256 l) -> (forall a, next = Some a -> a ∈ l) ->
  (length l < length visited + fuel)%nat -> chain_walk l (S fuel) visited next = chain_walk l fuel visited next.
Proof.
  revert visited next. induction fuel as [|fuel IH]; intros visited [a|] Hn Hv Ha Hf; try done.
  - simpl. destruct (memb _ _) eqn:Hm; [done|]. apply memb_false in Hm.
    assert (length visited < length l)%nat; [|lia]. apply (visited_bound visited (pa_index_sha256 a)); [done|done|].
    intros x Hx. apply elem_of_cons in Hx as [->|Hx]; [|by apply Hv]. apply list_elem_of_fmap_2. by apply Ha.
  - cbn [chain_walk]. destruct (memb _ _) eqn:Hm; [done|]. apply memb_false in Hm. f_equal. apply IH.
    + by apply NoDup_cons.
    + intros x Hx. apply elem_of_cons in Hx as [->|Hx]; [|by apply Hv]. apply list_elem_of_fmap_2. by apply Ha.
    + intros p Hp. by apply parent_in in Hp as [? _].
    + simpl. lia.
Qed.
End walk.

(** ** When every parent is right *)

(** Sequence 1 has no parent and every other amendment names one of the sequence before it. *)
Definition parented (l : list ParsedAmendment) (a : ParsedAmendment) : Prop :=
  match parent_amendment l a with
  | None => parent_of a = None /\ sequence_of a = 1
  | Some p => sequence_of a <> 1 /\ sequence_of a = sequence_of p + 1
  end.

Lemma parentReasons_nil l a : parentReasons l a = [] <-> parented l a.
Proof.
  unfold parentReasons, parented. destruct (Z.eqb_spec (sequence_of a) 1) as [H1|H1].
  - destruct (parent_of a) as [d|] eqn:Hp.
    + split; [done|]. destruct (parent_amendment l a); [by intros [? _]|by intros [? _]].
    + assert (parent_amendment l a = None) as -> by (unfold parent_amendment; by rewrite Hp). done.
  - destruct (parent_amendment l a) as [p|]; simpl.
    + case_bool_decide as Hd.
      * split; [|done]. intros _. injection Hd as Hd. split; [done|lia].
      * split; [done|]. intros [_ H]. destruct Hd. f_equal. lia.
    + split; [done|]. by intros [_ ?].
Qed.

Section complete.
Context (l : list ParsedAmendment).
Hypothesis distinct : NoDup (map pa_index_sha256 l).
Hypothesis linked : forall a, a ∈ l -> parented l a.

(** The walk from an amendment is the chain that ends at it. *)
Lemma walk_links fuel visited a :
  a ∈ l -> NoDup visited -> (length l < length visited + fuel)%nat ->
  (forall x, x ∈ visited -> exists b, b ∈ l /\ pa_index_sha256 b = x /\ sequence_of a < sequence_of b) ->
  exists chain, rev (chain_walk l fuel visited (Some a)) = chain ++ [a] /\ links None 1 (chain ++ [a]).
Proof.
  revert visited a. induction fuel as [|fuel IH]; intros visited a Ha Hn Hf Hv.
  { exfalso. assert (Hd : pa_index_sha256 a ∉ visited).
    { intros Hin. apply Hv in Hin as (b & Hb & He & Hs). apply (digest_inj l distinct) in He; [subst; lia|done|done]. }
    assert (length visited < length l)%nat; [|lia]. apply (visited_bound l visited _ Hn Hd). intros x Hx.
    apply elem_of_cons in Hx as [->|Hx]; [by apply list_elem_of_fmap_2|]. apply Hv in Hx as (b & Hb & <- & _). by apply list_elem_of_fmap_2. }
  cbn [chain_walk]. destruct (memb (pa_index_sha256 a) visited) eqn:Hm.
  { exfalso. apply memb_true in Hm. apply Hv in Hm as (b & Hb & He & Hs). apply (digest_inj l distinct) in He; [subst; lia|done|done]. }
  apply memb_false in Hm. pose proof (linked a Ha) as Hp. unfold parented in Hp. cbn [rev].
  destruct (parent_amendment l a) as [p|] eqn:Hpa.
  - destruct Hp as [_ Hs]. apply parent_in in Hpa as [Hpl Hpo]. destruct (IH (pa_index_sha256 a :: visited) p) as (chain & Hrev & Hc).
    + done.
    + by apply NoDup_cons.
    + simpl. lia.
    + intros x Hx. apply elem_of_cons in Hx as [->|Hx]; [exists a; split_and!; [done|done|lia]|].
      apply Hv in Hx as (b & Hb & He & Hsb). exists b. split_and!; [done|done|lia].
    + rewrite Hrev. exists (chain ++ [p]). split; [done|]. rewrite links_snoc. split; [done|]. rewrite tip_snoc. split; [done|].
      apply links_snoc in Hc as (_ & _ & Hp). rewrite length_app. simpl. lia.
  - destruct Hp as [Hp1 Hp2]. destruct fuel; simpl; (exists []; split; [done|]; simpl; by split_and!).
Qed.
End complete.

(** The walk from the end of a chain passes the whole chain. *)
Lemma walk_chain l fuel visited c a :
  NoDup (map pa_index_sha256 l) -> links None 1 (c ++ [a]) -> (forall x, x ∈ c ++ [a] -> x ∈ l) -> NoDup (map pa_index_sha256 (c ++ [a])) ->
  (forall x, x ∈ c ++ [a] -> pa_index_sha256 x ∉ visited) -> (length c < fuel)%nat ->
  chain_walk l fuel visited (Some a) = rev (c ++ [a]).
Proof.
  intros Hd. revert fuel visited a. induction c as [|b c IH] using rev_ind; intros fuel visited a Hl Hin Hn Hv Hf; (destruct fuel as [|fuel]; [lia|]);
    rewrite rev_app_distr; cbn [chain_walk rev app]; rewrite (proj2 (memb_false _ _)) by (apply Hv; set_solver); f_equal.
  - simpl in Hl. unfold parent_amendment. rewrite (proj1 Hl). by destruct fuel.
  - apply links_snoc in Hl as (Hl & Hp & _). unfold parent_amendment. rewrite Hp, tip_snoc. simpl.
    rewrite (byDigest_of l Hd b) by (apply Hin; set_solver). rewrite map_app in Hn. simpl in Hn. apply NoDup_app in Hn as (Hn1 & Hn2 & _).
    apply IH.
    + done.
    + intros x Hx. apply Hin. set_solver.
    + done.
    + intros x Hx. assert (pa_index_sha256 x <> pa_index_sha256 a).
      { intros He. apply (Hn2 (pa_index_sha256 x)); [by apply list_elem_of_fmap_2|]. rewrite He. set_solver. }
      assert (pa_index_sha256 x ∉ visited) by (apply Hv; set_solver). set_solver.
    + rewrite length_app in Hf. simpl in Hf. lia.
Qed.

(** ** The other reasons *)

Lemma duplicate_digests_nil l seen :
  duplicate_digests seen l = [] <-> NoDup (map pa_index_sha256 l) /\ forall d, d ∈ map pa_index_sha256 l -> d ∉ seen.
Proof.
  revert seen. induction l as [|a l IH]; intros seen; simpl; [split; [intros _; split; [constructor|set_solver]|done]|].
  rewrite NoDup_cons. destruct (memb (pa_index_sha256 a) seen) eqn:Hm.
  - apply memb_true in Hm. split; [done|]. intros [_ H]. exfalso. apply (H (pa_index_sha256 a)); set_solver.
  - apply memb_false in Hm. simpl. rewrite IH. set_solver.
Qed.

Lemma gaps_dense p n : gaps_from p (seqZ (p + 1) (Z.of_nat n)) = [].
Proof.
  revert p. induction n as [|n IH]; intros p; [done|]. rewrite seqZ_cons by lia. cbn [gaps_from]. rewrite Z.eqb_refl. simpl.
  replace (Z.pred (Z.of_nat (S n))) with (Z.of_nat n) by lia. replace (Z.succ (p + 1)) with (p + 1 + 1) by lia. apply IH.
Qed.

Lemma sorted_distinct (xs : list Z) n : xs ≡ₚ seqZ 1 (Z.of_nat n) -> isort Z.leb (remove_dups xs) = seqZ 1 (Z.of_nat n).
Proof.
  intros Hp. assert (Hd : remove_dups xs ≡ₚ seqZ 1 (Z.of_nat n)).
  { apply NoDup_Permutation; [apply NoDup_remove_dups|apply NoDup_seqZ|]. intros x. by rewrite elem_of_remove_dups, Hp. }
  apply (StronglySorted_unique Z.le).
  - apply (sort_on_sorted (fun x => x)).
  - clear. generalize 1 as p. induction n as [|n IH]; intros p; [constructor|]. rewrite seqZ_cons by lia.
    replace (Z.pred (Z.of_nat (S n))) with (Z.of_nat n) by lia. constructor; [apply IH|]. apply Forall_forall. intros x.
    rewrite elem_of_seqZ. lia.
  - by rewrite isort_perm.
Qed.

Lemma cycle_walk_below l fuel settled path next path' next' :
  (forall a, a ∈ l -> parented l a) ->
  cycle_walk l fuel settled path next = (path', next') ->
  (forall a, next = Some a -> a ∈ l) ->
  (forall a d, next = Some a -> d ∈ path -> exists b, b ∈ l /\ pa_index_sha256 b = d /\ sequence_of a < sequence_of b) ->
  (forall a, next' = Some a -> a ∈ l)
  /\ forall a d, next' = Some a -> d ∈ path' -> exists b, b ∈ l /\ pa_index_sha256 b = d /\ sequence_of a < sequence_of b.
Proof.
  intros Hp. revert path next. induction fuel as [|fuel IH]; intros path [a|] Hw Hin Hb; simpl in Hw; try by simplify_eq.
  destruct (_ || _); [by simplify_eq|]. pose proof (Hin a eq_refl) as Ha. apply (IH _ _ Hw).
  - intros p Hpa. by apply parent_in in Hpa as [? _].
  - intros p d Hpa Hd. pose proof (Hp a Ha) as Hs. unfold parented in Hs. rewrite Hpa in Hs. destruct Hs as [_ Hs].
    apply elem_of_app in Hd as [Hd|Hd].
    + destruct (Hb a d eq_refl Hd) as (b & ? & ? & ?). exists b. split_and!; [done|done|lia].
    + apply list_elem_of_singleton in Hd as ->. exists a. split_and!; [done|done|lia].
Qed.

Lemma cycles_nil l settled starts :
  NoDup (map pa_index_sha256 l) -> (forall a, a ∈ l -> parented l a) -> (forall a, a ∈ starts -> a ∈ l) -> cycles_from l settled starts = [].
Proof.
  intros Hd Hp. revert settled. induction starts as [|a starts IH]; intros settled Hs; cbn [cycles_from]; [done|].
  destruct (cycle_walk l (walk_fuel l) settled [] (Some a)) as [path next] eqn:Hw.
  apply (cycle_walk_below l _ _ _ _ _ _ Hp) in Hw as [Hin Hb]; [|intros ? [= <-]; apply Hs; set_solver|intros ? ?; set_solver].
  assert (match next with
          | Some b => if memb (pa_index_sha256 b) path
              then [ineligibility "CYCLE" ("following parents from " +:+ pa_location b +:+ " returns to index digest " +:+ pa_index_sha256 b
                  +:+ "; expected a chain that ends at sequence 1") (pa_location b) None] else []
          | None => [] end = []) as ->.
  { destruct next as [b|]; [|done]. destruct (memb (pa_index_sha256 b) path) eqn:Hm; [|done]. apply memb_true in Hm.
    destruct (Hb b _ eq_refl Hm) as (c & Hc & He & Hlt). apply (digest_inj l Hd) in He; [subst; lia|done|by apply Hin]. }
  apply IH. set_solver.
Qed.

(** An amendment of this execution's original package. *)
Definition of_package (input : AmendmentGraphInput) (a : ParsedAmendment) : Prop :=
  ai_correlation (pa_index a) = carrier_of (gi_identity input)
  /\ ai_execution_manifest_sha256 (pa_index a) = gi_execution_manifest_sha256 input
  /\ ai_original_package_index_sha256 (pa_index a) = gi_original_package_index_sha256 input.

Lemma belongsToExecution_true record identity : belongsToExecution record identity = true <-> record = carrier_of identity.
Proof.
  unfold belongsToExecution. split.
  - intros H. boolp. destruct record, (carrier_of identity). simpl in *. by subst.
  - intros ->. by rewrite !bool_decide_eq_true_2.
Qed.

Lemma membershipReasons_nil input a : membershipReasons a input = [] <-> of_package input a.
Proof.
  unfold membershipReasons, of_package. rewrite map_nil_iff, <- belongsToExecution_true.
  destruct (belongsToExecution _ _); repeat case_bool_decide; simpl; naive_solver.
Qed.

(** What [resolveAmendmentGraph] asks for. *)
Definition complete_chain (input : AmendmentGraphInput) (chain : list ParsedAmendment) : Prop :=
  chain ≡ₚ gi_amendments input /\ NoDup (map pa_index_sha256 chain) /\ links None 1 chain /\ Forall (of_package input) chain
  /\ gi_selected_head input = tip None chain.

Lemma chain_parented l chain a :
  NoDup (map pa_index_sha256 l) -> (forall x, x ∈ chain -> x ∈ l) -> links None 1 chain -> a ∈ chain -> parented l a.
Proof.
  intros Hd Hs Hl Ha. apply list_elem_of_split in Ha as (c1 & c2 & ->).
  change (a :: c2) with ([a] ++ c2) in *. rewrite app_assoc in Hl. apply links_app in Hl as [Hl _].
  apply links_snoc in Hl as (Hl & Hp & Hn). unfold parented, parent_amendment. rewrite Hp.
  destruct c1 as [|b c1 _] using rev_ind; [done|]. rewrite tip_snoc. simpl. rewrite (byDigest_of l Hd b) by (apply Hs; set_solver).
  apply links_snoc in Hl as (_ & _ & Hb). rewrite length_app in Hn. simpl in Hn. lia.
Qed.

Lemma filter_nil {A} (p : A -> bool) (l : list A) : List.filter p l = [] <-> forall x, x ∈ l -> p x = false.
Proof.
  induction l as [|a l IH]; simpl; [split; [set_solver|done]|]. destruct (p a) eqn:Ha.
  - split; [done|]. intros H. rewrite (H a) in Ha; [done|set_solver].
  - rewrite IH. set_solver.
Qed.

(** The reasons of a graph, one condition each. *)
Lemma graph_reasons_nil input :
  let l := gi_amendments input in
  g_reasons (resolveAmendmentGraph input) = [] <->
  (forall a, a ∈ l -> of_package input a) /\ (forall a, a ∈ l -> parented l a) /\ NoDup (map pa_index_sha256 l)
  /\ sequenceGapReasons l = [] /\ cycleReasons l = [] /\ headReasons l (gi_selected_head input) = []
  /\ forall a, a ∈ l -> pa_index_sha256 a ∈ map pa_index_sha256 (selectedChain l (gi_selected_head input)).
Proof.
  intros l. unfold resolveAmendmentGraph. cbn [g_reasons]. rewrite !app_nil, !flat_map_nil, map_nil_iff, filter_nil. fold l.
  setoid_rewrite membershipReasons_nil. setoid_rewrite parentReasons_nil. setoid_rewrite negb_false_iff. setoid_rewrite memb_true.
  unfold duplicateDigestReasons. rewrite duplicate_digests_nil. set_solver.
Qed.

Lemma headReasons_nil l head : headReasons l head = [] <-> forall h, head = Some h -> is_Some (byDigest l h).
Proof.
  unfold headReasons. destruct head as [h|]; [|done]. destruct (byDigest l h) as [a|] eqn:Hb.
  - split; [|done]. intros _ ? [= <-]. by rewrite Hb.
  - split; [done|]. intros H. destruct (H h eq_refl) as [? ?]. congruence.
Qed.

(** The chain selected in a graph of parented amendments is linked and ends at the head. *)
Lemma selected_links l head :
  NoDup (map pa_index_sha256 l) -> (forall a, a ∈ l -> parented l a) -> (forall h, head = Some h -> is_Some (byDigest l h)) ->
  links None 1 (selectedChain l head) /\ tip None (selectedChain l head) = head
  /\ NoDup (map pa_index_sha256 (selectedChain l head)) /\ forall a, a ∈ selectedChain l head -> a ∈ l.
Proof.
  intros Hd Hp Hh. unfold selectedChain. rewrite map_rev. split_and!; [| |by rewrite <- Permutation_rev; apply walk_NoDup|].
  3:{ intros a Ha. rewrite elem_of_rev_list in Ha. eapply walk_in; [|done]. intros b Hb. destruct head; simpl in Hb; [|done].
      by apply byDigest_Some in Hb as [? _]. }
  all: destruct head as [h|]; [|done]; change (Some h ≫= byDigest l) with (byDigest l h); destruct (Hh h eq_refl) as [a Ha]; rewrite Ha; apply byDigest_Some in Ha as [Ha <-];
    destruct (walk_links l Hd Hp (walk_fuel l) [] a) as (c & -> & Hc); [done|constructor|unfold walk_fuel; simpl; lia|set_solver|].
  all: by rewrite ?tip_snoc.
Qed.

Lemma complete_selected input chain : complete_chain input chain -> selectedChain (gi_amendments input) (gi_selected_head input) = chain.
Proof.
  intros (Hperm & Hn & Hl & _ & Hh). unfold selectedChain. rewrite Hh. assert (Hd : NoDup (map pa_index_sha256 (gi_amendments input))) by (by rewrite <- Hperm).
  destruct chain as [|a c _] using rev_ind; [done|]. rewrite tip_snoc.
  change (Some (pa_index_sha256 a) ≫= byDigest (gi_amendments input)) with (byDigest (gi_amendments input) (pa_index_sha256 a)).
  rewrite (byDigest_of _ Hd) by (rewrite <- Hperm; set_solver).
  rewrite (walk_chain _ _ _ c a); [by rewrite rev_involutive|done|done| |done|set_solver|].
  - intros x. by rewrite Hperm.
  - unfold walk_fuel. apply Permutation_length in Hperm. rewrite length_app in Hperm. simpl in Hperm. lia.
Qed.

Lemma graph_accepted (input : AmendmentGraphInput) :
  g_reasons (resolveAmendmentGraph input) = [] <->
  exists chain, complete_chain input chain /\ selected_chain (resolveAmendmentGraph input) = chain.
Proof.
  set (l := gi_amendments input). split.
  - intros H. apply graph_reasons_nil in H as (Hof & Hp & Hd & _ & _ & Hh & Hall). pose proof (proj1 (headReasons_nil _ _) Hh) as Hhead.
    destruct (selected_links l (gi_selected_head input) Hd Hp Hhead) as (Hlinks & Htip & Hn & Hin).
    exists (selectedChain l (gi_selected_head input)). split; [|done].
    assert (Hperm : selectedChain l (gi_selected_head input) ≡ₚ l).
    { apply NoDup_Permutation; [by apply (NoDup_fmap_1 pa_index_sha256)|by apply (NoDup_fmap_1 pa_index_sha256)|]. intros a.
      split; [apply Hin|]. intros Ha. pose proof (Hall a Ha) as Hsel. apply list_elem_of_fmap in Hsel as (b & He & Hb).
      by rewrite (digest_inj l Hd a b Ha (Hin b Hb) He). }
    split_and!; [done|done|done| |done]. apply Forall_forall. intros a Ha. apply Hof. by apply Hin.
  - intros (chain & Hc & _). pose proof (complete_selected input chain Hc) as Hsel. destruct Hc as (Hperm & Hn & Hl & Hof & Hh).
    assert (Hd : NoDup (map pa_index_sha256 l)) by (unfold l; by rewrite <- Hperm).
    assert (Hin : forall a, a ∈ chain <-> a ∈ l) by (intros a; unfold l; by rewrite Hperm).
    assert (Hp : forall a, a ∈ l -> parented l a).
    { intros a Ha. apply (chain_parented l chain); [done|intros x; apply Hin|done|by apply Hin]. }
    apply graph_reasons_nil. fold l. rewrite Forall_forall in Hof. split_and!.
    + intros a Ha. by apply Hof, Hin.
    + done.
    + done.
    + unfold sequenceGapReasons, distinct_sequences. rewrite (sorted_distinct _ (length chain)); [apply (gaps_dense 0)|].
      rewrite <- (links_sequences None 1 chain Hl). unfold l. by rewrite Hperm.
    + by apply cycles_nil.
    + apply headReasons_nil. intros h Hh'. rewrite Hh in Hh'. destruct chain as [|a c _] using rev_ind; [done|].
      rewrite tip_snoc in Hh'. simplify_eq. rewrite (byDigest_of l Hd a); [by eexists|]. apply Hin. set_solver.
    + intros a Ha. fold l in Hsel. rewrite Hsel. apply list_elem_of_fmap_2. by apply Hin.
Qed.

(** C37: an amendment graph is accepted exactly when it is one chain. Whatever amendments were found and whatever head the
    operator selected, [resolveAmendmentGraph] gives no reason iff the amendments, in some order, have distinct index digests,
    belong to this execution's original package, have the sequences 1, 2, and so on, each names the index digest of
    the one before it and the first none, and the selected head is the last one's digest (or nothing, when there
    are none); the selected chain is then that order. *)
Theorem amendment_graph_is_chain (input : AmendmentGraphInput) :
  g_reasons (resolveAmendmentGraph input) = [] <->
  exists chain, complete_chain input chain /\ selected_chain (resolveAmendmentGraph input) = chain.
Proof. apply graph_accepted. Qed.

(** ** The walks end *)

Lemma cycle_walk_enough l fuel settled path next :
  NoDup path -> (forall x, x ∈ path -> x ∈ map pa_index_sha256 l) -> (forall a, next = Some a -> a ∈ l) ->
  (length l < length path + fuel)%nat -> cycle_walk l (S fuel) settled path next = cycle_walk l fuel settled path next.
Proof.
  revert path next. induction fuel as [|fuel IH]; intros path [a|] Hn Hv Ha Hf; try done.
  - simpl. destruct (memb _ settled); [done|]. destruct (memb _ path) eqn:Hm; [done|]. apply memb_false in Hm.
    assert (length path < length l)%nat; [|lia]. apply (visited_bound l path (pa_index_sha256 a)); [done|done|].
    intros x Hx. apply elem_of_cons in Hx as [->|Hx]; [|by apply Hv]. apply list_elem_of_fmap_2. by apply Ha.
  - cbn [cycle_walk]. destruct (memb _ settled); [done|]. destruct (memb _ path) eqn:Hm; [done|]. apply memb_false in Hm. cbn [orb]. apply IH.
    + apply NoDup_app. split; [done|]. split; [set_solver|apply NoDup_singleton].
    + intros x Hx. apply elem_of_app in Hx as [Hx|Hx]; [by apply Hv|]. apply list_elem_of_singleton in Hx as ->. apply list_elem_of_fmap_2. by apply Ha.
    + intros p Hp. by apply parent_in in Hp as [? _].
    + rewrite length_app. simpl. lia.
Qed.

(** The walks over parents end. However the amendments name each other, cycles and aliased digests included, neither
    the walk from the head nor the walk of the cycle check is cut short by its fuel: any more fuel than one step beyond
    the number of amendments gives the same result. *)
Theorem amendment_walks_end (l : list ParsedAmendment) (head : option string) (settled : list string) (start : ParsedAmendment) (more : nat) :
  chain_walk l (more + walk_fuel l) [] (head ≫= byDigest l) = chain_walk l (walk_fuel l) [] (head ≫= byDigest l)
  /\ (start ∈ l -> cycle_walk l (more + walk_fuel l) settled [] (Some start) = cycle_walk l (walk_fuel l) settled [] (Some start)).
Proof.
  split.
  - induction more as [|n IH]; [done|]. rewrite <- IH. apply walk_enough; [constructor|set_solver| |unfold walk_fuel; simpl; lia].
    intros a Ha. destruct head as [h|]; [|done]. by apply byDigest_Some in Ha as [? _].
  - intros Hs. induction more as [|n IH]; [done|]. rewrite <- IH. apply cycle_walk_enough; [constructor|set_solver| |unfold walk_fuel; simpl; lia].
    by intros a [= <-].
Qed.

(** ** The recovered state *)

(** Some closure differs from the one before it. *)
Fixpoint changes (closure : OperationalClosure) (later : list OperationalClosure) : Prop :=
  match later with [] => False | c :: rest => closure <> c \/ changes c rest end.

Lemma sameClosure_true a b : sameClosure a b = true <-> a = b.
Proof.
  unfold sameClosure. split.
  - intros H. boolp. destruct a, b. simpl in *. by subst.
  - intros ->. by rewrite !bool_decide_eq_true_2.
Qed.

Lemma last_default {A} (c d : A) cs : List.last (c :: cs) d = List.last cs c.
Proof. revert c d. induction cs as [|o cs IH]; intros c d; [done|]. change (List.last (o :: cs) d = List.last (o :: cs) c). by rewrite !IH. Qed.

Lemma apply_recoveries_spec recovered links closure applied :
  apply_recoveries recovered links closure applied
  = match mapM (fun link => recovered (lk_amendment_index_sha256 link)) links with
    | None => None
    | Some cs => Some (List.last cs closure, applied || negb (forallb (fun p => sameClosure p.1 p.2) (zip (closure :: cs) cs)))
    end.
Proof.
  revert closure applied. induction links as [|link links IH]; intros closure applied; simpl; [by rewrite orb_false_r|].
  destruct (recovered (lk_amendment_index_sha256 link)) as [c|]; simpl; [|done]. rewrite IH.
  destruct (mapM _ links) as [cs|]; simpl; [|done]. f_equal. f_equal.
  - symmetry. apply last_default.
  - destruct (sameClosure closure c); simpl; by rewrite ?orb_false_r, ?orb_true_r.
Qed.

Lemma changes_zip closure cs : negb (forallb (fun p => sameClosure p.1 p.2) (zip (closure :: cs) cs)) = true <-> changes closure cs.
Proof.
  revert closure. induction cs as [|c cs IH]; intros closure; simpl; [done|]. rewrite <- IH, negb_andb, orb_true_iff, negb_true_iff.
  destruct (sameClosure closure c) eqn:E.
  - apply sameClosure_true in E. naive_solver.
  - split; [|tauto]. intros [_|?]; [|tauto]. left. intros ->. by rewrite (proj2 (sameClosure_true c c)) in E.
Qed.

(** The recoveries of the selected chain, in its order. *)
Definition recovery_links (v : PackageVerification) : list AmendmentLink :=
  List.filter (fun link => bool_decide (lk_amendment_kind link = OPERATIONAL_RECOVERY)) (pv_selected_chain v).

(** C38: the effective operational state is never guessed. It holds values exactly when the package is eligible, the original
    cleanup ended and every selected recovery amendment is found, read and bound to this package; the values are then
    those of the last selected recovery, or the original ones when there is none, and a recovery counts as
    applied iff some recovery's closure differs from the one in force before it. Otherwise every value is unverified. *)
Theorem effective_state_correct JSON_parse validator digest (v : PackageVerification) (original : OriginalClosure) (amendments : list AmendmentSnapshot) :
  let read link := recoveredClosure JSON_parse validator digest (lk_amendment_index_sha256 link) v amendments in
  match effectiveOperationalState JSON_parse validator digest v original amendments with
  | MkEffective (Some cleanup) (Some leaks) lease changed =>
      package_eligibility v = eligible
      /\ exists first cs, oc_cleanup_status original = terminal first /\ mapM read (recovery_links v) = Some cs
          /\ let closure := MkClosure first (oc_leak_audit_status original) (oc_lease_status original) in
             MkClosure cleanup leaks lease = List.last cs closure /\ (changed = true <-> changes closure cs)
  | s => s = UNVERIFIED
         /\ (package_eligibility v = ineligible \/ (forall c, oc_cleanup_status original <> terminal c)
             \/ exists link, link ∈ recovery_links v /\ read link = None)
  end.
Proof.
  intros read. unfold effectiveOperationalState.
  destruct (package_eligibility v); [|by split; [|left]].
  destruct (oc_cleanup_status original) as [| |first]; [by split; [|right; left]|by split; [|right; left]|].
  fold (recovery_links v). rewrite apply_recoveries_spec. fold read. destruct (mapM read (recovery_links v)) as [cs|] eqn:Hm.
  - cbn [UNVERIFIED]. split; [done|]. exists first, cs. split; [done|]. split; [done|]. simpl. rewrite <- changes_zip. split; [by destruct (List.last _ _)|done].
  - split; [done|]. right; right. rewrite eq_None_not_Some in Hm.
    destruct (Exists_exists (fun link => read link = None) (recovery_links v)) as [Hex _].
    destruct (decide (Exists (fun link => read link = None) (recovery_links v))) as [He|Hn]; [by apply Hex in He|]. exfalso. apply Hm.
    apply mapM_is_Some_2. apply Forall_forall. intros link Hl. change (is_Some (read link)). apply not_eq_None_Some. intros Hnone. apply Hn. apply Exists_exists. by exists link.
Qed.

(** ** A built amendment reads back *)

Lemma built_entries_intact sha256Hex files classify entries location extra unlisted :
  buildIndexEntries sha256Hex files classify = Ok entries ->
  (forall f, f ∈ extra -> f_path f ∉ map f_path files /\ f_path f ∈ unlisted) ->
  fileSetIntegrityReasons sha256Hex (MkSet location entries (files ++ extra) [] unlisted) = [].
Proof.
  intros H Hx. apply buildIndexEntries_ok in H as (Hn & es & Hes & ->). apply fileSetIntegrityReasons_nil. simpl. split_and!; [| |done].
  - intros e He. rewrite isort_elem in He. apply list_elem_of_lookup in He as [i Hi].
    destruct (Forall2_lookup_l _ _ _ _ _ Hes Hi) as (f & Hf & c & _ & ->). apply list_elem_of_lookup_2 in Hf. exists f. split; [|done].
    apply file_by_path_unique; [set_solver|]. intros g Hg Hp. apply elem_of_app in Hg as [Hg|Hg].
    + by apply (NoDup_paths_unique files).
    + simpl in Hp. destruct (Hx g Hg) as [Hnot _]. destruct Hnot. rewrite Hp. by apply list_elem_of_fmap_2.
  - intros f Hf. apply elem_of_app in Hf as [Hf|Hf]; [left|right; by apply Hx].
    apply list_elem_of_lookup in Hf as [i Hi]. destruct (Forall2_lookup_r _ _ _ _ _ Hes Hi) as (e & He & c & Hc & ->).
    apply list_elem_of_fmap. exists (entry_of sha256Hex f c). split; [done|]. rewrite isort_elem. by eapply list_elem_of_lookup_2.
Qed.

(** No payload is named as the index is. *)
Lemma index_is_no_payload kind c : classifyAmendmentPayload AMENDMENT_INDEX kind <> Ok c.
Proof. destruct kind; vm_compute; discriminate. Qed.

Lemma built_payload_paths sha256Hex input entries :
  buildIndexEntries sha256Hex (am_payload input) (fun path => classifyAmendmentPayload path (am_amendment_kind input)) = Ok entries ->
  AMENDMENT_INDEX ∉ map f_path (am_payload input).
Proof.
  intros H Hin. apply buildIndexEntries_ok in H as (_ & es & Hes & _). apply list_elem_of_fmap in Hin as (f & Hp & Hf).
  apply list_elem_of_lookup in Hf as [i Hi]. destruct (Forall2_lookup_r _ _ _ _ _ Hes Hi) as (e & _ & c & Hc & _).
  rewrite <- Hp in Hc. by apply index_is_no_payload in Hc.
Qed.

Lemma fileAt_appended files path bytes : path ∉ map f_path files -> fileAt (files ++ [MkFile path bytes]) path = Some (MkFile path bytes).
Proof.
  unfold fileAt. intros H. induction files as [|f files IH]; cbn [app find_first map] in *.
  - by rewrite bool_decide_eq_true_2.
  - rewrite bool_decide_eq_false_2 by set_solver. apply IH. set_solver.
Qed.

Lemma as_safe_integer_safe z : is_safe_integer z = true -> as_safe_integer (Some (JNum (JSInt z))) = Some z.
Proof. simpl. by intros ->. Qed.

Lemma indexEntryOf_json e : is_safe_integer (ix_bytes e) = true -> indexEntryOf (entry_json e) = e.
Proof.
  intros H. destruct e as [p [c d] b s]. unfold indexEntryOf, Ingestion.textOf, Ingestion.intOf, Ingestion.fieldOf, Evidence.ownString, entry_json.
  simpl in *. by rewrite H.
Qed.

Lemma amendmentIndexOf_json identity i :
  ai_correlation i = carrier_of identity -> is_safe_integer (ai_sequence i) = true ->
  Forall (fun e => is_safe_integer (ix_bytes e) = true) (ai_entries i) -> amendmentIndexOf (amendment_json identity i) = i.
Proof.
  destruct i as [corr man id kind seq orig parent entries at_]. simpl. intros -> Hs He.
  assert (Hent : map indexEntryOf (map entry_json entries) = entries).
  { induction He as [|e es He _ IH]; [done|]. simpl. by rewrite IH, indexEntryOf_json. }
  unfold amendmentIndexOf, carrierOf, Ingestion.textOf, Ingestion.intOf, Ingestion.itemsOf, Ingestion.fieldOf, Evidence.ownString, amendment_json.
  destruct identity, kind, parent; simpl; by rewrite Hs, Hent.
Qed.

Lemma sequenceReasons_nil s parent : sequenceReasons s parent = [] ->
  exists z, positive_sequence s = Some z /\ is_safe_integer z = true /\ 1 <= z /\ (z = 1 <-> parent = None).
Proof.
  unfold sequenceReasons. destruct (positive_sequence s) as [z|] eqn:Hp; [|done]. intros H. exists z. split; [done|].
  unfold positive_sequence in Hp. destruct s as [y|]; [|done]. destruct (is_safe_integer y && (1 <=? y)) eqn:Hs; [|done]. simplify_eq. boolp.
  split; [done|]. split; [done|]. destruct (Z.eqb_spec z 1), (bool_decide_reflect (parent = None)); simpl in H; naive_solver.
Qed.

(** What a successful build wrote. *)
Lemma buildAmendment_ok sha256Hex input b :
  buildAmendment sha256Hex input = Ok (Ok b) ->
  exists entries bytes z,
    buildIndexEntries sha256Hex (am_payload input) (fun path => classifyAmendmentPayload path (am_amendment_kind input)) = Ok entries
    /\ sequenceReasons (am_sequence input) (am_parent_amendment_index_sha256 input) = []
    /\ positive_sequence (am_sequence input) = Some z
    /\ ba_index b = MkAmendmentIndex (carrier_of (am_identity input)) (am_execution_manifest_sha256 input) (am_amendment_id input)
         (am_amendment_kind input) z (am_original_package_index_sha256 input) (am_parent_amendment_index_sha256 input) entries (am_created_at input)
    /\ TrialMessage.serializeRecordFile (amendment_json (am_identity input) (ba_index b)) = Ok bytes
    /\ ba_files b = am_payload input ++ [MkFile AMENDMENT_INDEX (Parsing.bytes_of bytes)].
Proof.
  unfold buildAmendment. destruct (buildIndexEntries _ _ _) as [entries|]; [|done].
  destruct (sequenceReasons _ _ ++ _) as [|r rs] eqn:Hr; [|done]. apply app_nil in Hr as [Hr _].
  destruct (positive_sequence _) as [z|] eqn:Hz; [|done]. intros H. apply bind_result_ok in H as (bytes & Hb & [= <-]).
  by exists entries, bytes, z.
Qed.

(** A built amendment verifies. When [buildAmendment] writes an amendment, its index names sequence 1 exactly when it
    names no parent, and reading its directory back, the index bytes parsing to the record that was
    serialized, gives that index, identified by the digest of its bytes, and no integrity reason at all. *)
Theorem built_amendment_reads_back JSON_parse validator sha256Hex input b location directory :
  buildAmendment sha256Hex input = Ok (Ok b) ->
  Forall (fun f => is_safe_integer (Z.of_nat (length (f_bytes f))) = true) (am_payload input) ->
  (forall t, TrialMessage.serializeRecordFile (amendment_json (am_identity input) (ba_index b)) = Ok t ->
     parsePackageRecord JSON_parse validator (Parsing.bytes_of t) "amendment_index" AMENDMENT_INDEX = Ok (amendment_json (am_identity input) (ba_index b))) ->
  (ai_sequence (ba_index b) = 1 <-> ai_parent_amendment_index_sha256 (ba_index b) = None)
  /\ exists bytes, last (ba_files b) = Some (MkFile AMENDMENT_INDEX bytes)
      /\ readAmendment JSON_parse validator sha256Hex location (MkSnapshot directory (ba_files b) [])
         = MkRead [MkParsed location (ba_index b) (sha256Hex bytes) (ba_files b)] [].
Proof.
  intros Hb Hsize Hparse. apply buildAmendment_ok in Hb as (entries & t & z & Hent & Hseq & Hz & Hi & Ht & Hfiles).
  apply sequenceReasons_nil in Hseq as (z' & Hz' & Hsafe & Hpos & Hiff). assert (z' = z) as -> by congruence.
  split; [by rewrite Hi|]. exists (Parsing.bytes_of t). rewrite Hfiles, last_snoc. split; [done|].
  unfold readAmendment. cbn [as_files as_special_entries].
  rewrite fileAt_appended by (by eapply built_payload_paths). cbn [f_bytes]. rewrite (Hparse t Ht).
  assert (Hview : amendmentIndexOf (amendment_json (am_identity input) (ba_index b)) = ba_index b).
  { apply amendmentIndexOf_json; rewrite Hi; [done|done|]. simpl. apply buildIndexEntries_ok in Hent as (_ & es & Hes & ->).
    apply Forall_forall. intros e He. rewrite isort_elem in He. apply list_elem_of_lookup in He as [i He].
    destruct (Forall2_lookup_l _ _ _ _ _ Hes He) as (f & Hf & c & _ & ->). simpl. rewrite Forall_forall in Hsize. apply Hsize. by eapply list_elem_of_lookup_2. }
  rewrite Hview. f_equal. rewrite Hi. cbn [ai_entries]. eapply built_entries_intact; [done|].
  intros f Hf. apply list_elem_of_singleton in Hf as ->. simpl. split; [by eapply built_payload_paths|set_solver].
Qed.

Definition demo_input : AmendmentInput :=
  MkAmendmentInput (id_run "r") "m" "a" BILLING (JSInt 1) "p" None [MkFile BILLING_IMPORT [123; 125]] "t".
Definition demo_built : BuiltAmendment :=
  match buildAmendment demo_digest demo_input with Ok (Ok b) => b | _ => MkBuilt "" (MkAmendmentIndex (MkCarrier None None None) "" "" BILLING 0 "" None [] "") [] end.
Definition demo_parse (t : string) : Result json string := Ok (amendment_json (am_identity demo_input) (ba_index demo_built)).
Definition demo_validator : Ingestion.RecordValidator := Ingestion.MkValidator (fun _ => Ingestion.record_valid) (fun _ _ => Ingestion.record_valid).

Lemma built_amendment_reads_back_witness :
  (ai_sequence (ba_index demo_built) = 1 <-> ai_parent_amendment_index_sha256 (ba_index demo_built) = None)
  /\ exists bytes, last (ba_files demo_built) = Some (MkFile AMENDMENT_INDEX bytes)
      /\ readAmendment demo_parse demo_validator demo_digest "amendments/r/0001-a/" (MkSnapshot "0001-a" (ba_files demo_built) [])
         = MkRead [MkParsed "amendments/r/0001-a/" (ba_index demo_built) (demo_digest bytes) (ba_files demo_built)] [].
Proof.
  apply (built_amendment_reads_back demo_parse demo_validator demo_digest demo_input).
  - vm_compute. reflexivity.
  - repeat constructor.
  - intros t Ht. assert (t = match TrialMessage.serializeRecordFile (amendment_json (am_identity demo_input) (ba_index demo_built)) with Ok t => t | _ => "" end) as ->
      by (by rewrite Ht). vm_compute. reflexivity.
Defined.
End AmendmentsCorrect.
