(* ===== verification/References.v ===== *)
(** * References between the records of a package (src/study-1/src/evidence-package/)

    JSON pointers (json-pointer.ts), the line-boundary prefixes of an append-only journal, looked up by digest
    (line-prefix-digests.ts), and the resolution of every reference a derived record makes, over the caches one
    verification shares (reference-resolution.ts). The theorems: a pointer built from member names finds exactly the
    value those names lead to; a lookup of a prefix answers for every prefix, whatever was looked up before; and the
    resolution, caches and work list included, finds a problem exactly when some reference does not resolve. *)

From S2P Require Import Prelude AttemptLifecycle Timestamps Decimals Store JsonText Parsing Journal Controller Evidence ArtifactReading Package.
Import Json Store Utc Identifiers JsonText.
Import Package.
Import Evidence(split_slash).
Import Parsing(json_size).
Import (notations) Stdlib.Strings.Ascii.
Open Scope Z_scope.

Module References.

(** ** JSON pointers (json-pointer.ts) *)

(** [/~(?![01])/] *)
Fixpoint bad_escape (s : list Ascii.ascii) : bool :=
  match s with
  | [] => false
  | c :: rest =>
      (bool_decide (c = "~"%char) && negb (match rest with d :: _ => memb d ["0"%char; "1"%char] | [] => false end)) || bad_escape rest
  end.

(** [token.replaceAll('~1', '/').replaceAll('~0', '~')]: each takes the occurrences from the left. *)
Fixpoint replace_escape (digit : Ascii.ascii) (by_ : Ascii.ascii) (s : list Ascii.ascii) : list Ascii.ascii :=
  match s with
  | c :: rest =>
      match rest with
      | d :: more =>
          if bool_decide (c = "~"%char) && bool_decide (d = digit) then by_ :: replace_escape digit by_ more
          else c :: replace_escape digit by_ rest
      | [] => [c]
      end
  | [] => []
  end.
Definition unescape (token : string) : string := text (replace_escape "0" "~" (replace_escape "1" "/" (chars token))).

(** A decimal without a leading zero, and its value. *)
Definition ARRAY_INDEX_PATTERN (t : string) : bool :=
  match chars t with
  | [] => false
  | c :: rest => forallb Decimals.is_digit (c :: rest) && (bool_decide (c <> "0"%char) || bool_decide (rest = []))
  end.
Definition decimal_value (t : string) : nat := fold_left (fun n c => n * 10 + (Ascii.nat_of_ascii c - 48))%nat (chars t) 0%nat.

Definition childOf (container : json) (token : string) : option json :=
  match container with
  | JArr items => if ARRAY_INDEX_PATTERN token then items !! decimal_value token else None
  | JObj members => member token members
  | _ => None
  end.

Fixpoint descend (current : json) (tokens : list string) : option json :=
  match tokens with
  | [] => Some current
  | token :: rest => match childOf current (unescape token) with Some next => descend next rest | None => None end
  end.

Definition resolveJsonPointer (document : json) (pointer : string) : option json :=
  match chars pointer with
  | [] => Some document
  | c :: rest =>
      if negb (bool_decide (c = "/"%char)) || bad_escape (c :: rest) then None
      else descend document (split_slash rest)
  end.

(** ** The line-boundary prefixes of a journal (line-prefix-digests.ts) *)

(** [lengths] maps the digests met so far to prefix lengths, the latest entry of a digest first. *)
Record LinePrefixDigests := MkPrefixes { lp_bytes : list Z; lengths : list (string * nat); scanned : nat }.

Definition new_prefixes (bytes : list Z) : LinePrefixDigests := MkPrefixes bytes [] 0.

Section digest.
Context (digest : list Z -> string).

(** [this.#bytes.indexOf(NEWLINE, this.#scanned) + 1] *)
Definition nextLineEnd (s : LinePrefixDigests) : nat :=
  match Parsing.index_of Parsing.NEWLINE (drop (scanned s) (lp_bytes s)) with Some i => scanned s + i + 1 | None => 0 end.

Fixpoint scan (fuel : nat) (wanted : string) (s : LinePrefixDigests) : option nat * LinePrefixDigests :=
  match fuel, nextLineEnd s with
  | S fuel, S e =>
      let end_ := S e in
      let d := digest (take end_ (lp_bytes s)) in
      let s' := MkPrefixes (lp_bytes s) ((d, end_) :: lengths s) end_ in
      if bool_decide (d = wanted) then (Some end_, s') else scan fuel wanted s'
  | _, _ => (None, s)
  end.

Definition lengthOf (wanted : string) (s : LinePrefixDigests) : option nat * LinePrefixDigests :=
  match Evidence.map_get wanted (lengths s) with
  | Some known => (Some known, s)
  | None => scan (length (lp_bytes s)) wanted s
  end.

Definition prefixWithDigest (wanted : string) (s : LinePrefixDigests) : option (list Z) * LinePrefixDigests :=
  let '(length, s') := lengthOf wanted s in (option_map (fun n => take n (lp_bytes s)) length, s').
End digest.

(** ** Reference resolution (reference-resolution.ts) *)

Record ReferenceScope := MkRefScope {
  rf_entries : list IndexEntry;
  rf_files : list PackageFile;
  referenced_package_indexes : list string;
}.

(** A parsed document, or the lines of one; [None] is a line that did not parse. *)
Inductive ParsedArtifact := pf_json (v : json) | pf_jsonl (lines : list (option json)).

Record ResolutionCache := MkCache {
  c_parsed : list (string * Result ParsedArtifact string);
  c_prefixes : list (string * LinePrefixDigests);
  c_parsedPrefixes : list (nat * ParsedArtifact);
}.
Definition empty_cache : ResolutionCache := MkCache [] [] [].

Inductive ReferencedBytes := rb_whole | rb_prefix (bytes : list Z).

Definition REFERENCE_LISTS : list string := ["evidence_refs"; "oracle_result_refs"].

(** [s.endsWith(suffix)] *)
Definition ends_with (suffix s : string) : bool :=
  let n := String.length s in let k := String.length suffix in (k <=? n)%nat && bool_decide (drop (n - k) (chars s) = chars suffix).

Definition runnerJournal : string := path_of "runnerJournal".

Definition memberOf (v : json) (key : string) : option json := match v with JObj m => member key m | _ => None end.
Definition stringMember (v : json) (key : string) : option string := as_string (memberOf v key).

Definition unresolved (path d : string) : StructuredReason :=
  ineligibility "UNRESOLVED_REFERENCE" (quoted_path path +:+ ": " +:+ d) "" (Some path).

Definition referencesHeldBy (members : list (string * json)) : list json :=
  flat_map (fun '(key, v) =>
    if memb key REFERENCE_LISTS then match v with JArr items => items | _ => [v] end
    else if ends_with "_ref" key then [v] else []) members.

Definition held (v : json) : list json := match v with JObj m => referencesHeldBy m | _ => [] end.
Definition values_of (v : json) : list json := match v with JArr items => items | JObj m => map snd m | _ => [] end.

(** The work list, last pushed first. *)
Fixpoint collect_loop (fuel : nat) (pending : list json) : list json :=
  match fuel, pending with
  | O, _ | _, [] => []
  | S fuel, next :: rest => held next ++ collect_loop fuel (rev (values_of next) ++ rest)
  end.
Definition collectReferences (record : json) : list json := collect_loop (json_size record) [record].

(** [a === b] of two values read from different documents: objects and arrays are never the same one. *)
Definition strictly_equal (a b : json) : bool :=
  match a, b with
  | JNull, JNull => true
  | JBool x, JBool y => Bool.eqb x y
  | JNum x, JNum y => bool_decide (x = y)
  | JStr x, JStr y => bool_decide (x = y)
  | _, _ => false
  end.

Definition eventIn (artifact : ParsedArtifact) (eventId : json) : option json :=
  let candidates := match artifact with pf_json v => [v] | pf_jsonl lines => omap id lines end in
  find_first (fun c => match memberOf c "event_id" with Some id => strictly_equal id eventId | None => false end) candidates.

Definition wholeDocument (artifact : ParsedArtifact) : option json :=
  match artifact with
  | pf_json v => Some v
  | pf_jsonl lines => let parsed := omap id lines in if Nat.eqb (length parsed) (length lines) then Some (JArr parsed) else None
  end.

Definition prefixExpectation (entry : IndexEntry) : string :=
  if bool_decide (ix_artifact_path entry = runnerJournal)
  then "; expected that digest or the digest of a line-boundary prefix of the indexed journal (A-15)" else "".

Section resolution.
Context (JSON_parse : string -> Result json string) (digest : list Z -> string) (scope : ReferenceScope).

Definition parsedJsonl (bytes : list Z) : ParsedArtifact :=
  pf_jsonl (map (fun l => match Parsing.line_parsed l with Ok v => Some v | Err _ => None end) (Parsing.lines (Parsing.parseJsonl JSON_parse bytes))).

Definition parseStored (path : string) (file : option PackageFile) : Result ParsedArtifact string :=
  match file with
  | None => Err (quoted_path path +:+ " is absent")
  | Some f =>
      if ends_with ".jsonl" path then Ok (parsedJsonl (f_bytes f))
      else match Parsing.parseJsonDocument JSON_parse (f_bytes f) with
           | Ok v => Ok (pf_json v)
           | Err _ => Err (quoted_path path +:+ " is not one UTF-8 JSON document")
           end
  end.

Definition parsedArtifact (path : string) (c : ResolutionCache) : Result ParsedArtifact string * ResolutionCache :=
  match Evidence.map_get path (c_parsed c) with
  | Some cached => (cached, c)
  | None =>
      let parsed := parseStored path (fileAt (rf_files scope) path) in
      (parsed, MkCache ((path, parsed) :: c_parsed c) (c_prefixes c) (c_parsedPrefixes c))
  end.

Fixpoint parsed_prefix_of (n : nat) (m : list (nat * ParsedArtifact)) : option ParsedArtifact :=
  match m with [] => None | (k, a) :: rest => if (k =? n)%nat then Some a else parsed_prefix_of n rest end.

Definition parsedPrefix (prefix : list Z) (c : ResolutionCache) : ParsedArtifact * ResolutionCache :=
  match parsed_prefix_of (length prefix) (c_parsedPrefixes c) with
  | Some cached => (cached, c)
  | None =>
      let parsed := parsedJsonl prefix in
      (parsed, MkCache (c_parsed c) (c_prefixes c) ((length prefix, parsed) :: c_parsedPrefixes c))
  end.

Definition artifactAt (path : string) (bytes : ReferencedBytes) (c : ResolutionCache) : Result ParsedArtifact string * ResolutionCache :=
  match bytes with
  | rb_whole => parsedArtifact path c
  | rb_prefix p => let '(a, c') := parsedPrefix p c in (Ok a, c')
  end.

(** The journal's bytes when they are the indexed ones, else none. *)
Definition indexed_bytes (entry : IndexEntry) : list Z :=
  let stored := match fileAt (rf_files scope) (ix_artifact_path entry) with Some f => f_bytes f | None => [] end in
  if bool_decide (digest stored = ix_sha256 entry) then stored else [].

Definition indexedPrefixes (entry : IndexEntry) (c : ResolutionCache) : LinePrefixDigests :=
  match Evidence.map_get (ix_artifact_path entry) (c_prefixes c) with Some cached => cached | None => new_prefixes (indexed_bytes entry) end.

Definition referencedBytes (entry : IndexEntry) (d : string) (c : ResolutionCache) : option ReferencedBytes * ResolutionCache :=
  if bool_decide (ix_sha256 entry = d) then (Some rb_whole, c)
  else if negb (bool_decide (ix_artifact_path entry = runnerJournal)) then (None, c)
  else
    let '(prefix, prefixes) := prefixWithDigest digest d (indexedPrefixes entry c) in
    (option_map rb_prefix prefix, MkCache (c_parsed c) ((ix_artifact_path entry, prefixes) :: c_prefixes c) (c_parsedPrefixes c)).

(** The problem of the event id and the pointer, inside the artifact once it is read. *)
Definition target_problem (artifact : Result ParsedArtifact string) (eventId pointer : option json) : option string :=
  match artifact with
  | Err e => Some ("points into a file that cannot be read: " +:+ e)
  | Ok a =>
      match match eventId with None => wholeDocument a | Some id => eventIn a id end with
      | None => Some (match eventId with None => "points into a JSONL file with an unparseable line" | Some _ => "names an event_id the file does not hold" end)
      | Some target =>
          match pointer with
          | None => None
          | Some p =>
              if match p with JStr t => bool_decide (is_Some (resolveJsonPointer target t)) | _ => false end then None
              else Some "has a json_pointer that resolves to nothing; expected an RFC 6901 pointer to an existing value"
          end
      end
  end.

Definition locationProblem (reference : json) (path : string) (bytes : ReferencedBytes) (c : ResolutionCache) : option string * ResolutionCache :=
  match memberOf reference "event_id", memberOf reference "json_pointer" with
  | None, None => (None, c)
  | eventId, pointer => let '(artifact, c') := artifactAt path bytes c in (target_problem artifact eventId pointer, c')
  end.

Definition referenceProblem (reference : json) (c : ResolutionCache) : option string * ResolutionCache :=
  match stringMember reference "artifact_path", stringMember reference "artifact_sha256" with
  | Some path, Some d =>
      match memberOf reference "package_index_sha256" with
      | Some packageIndex =>
          (if existsb (fun known => strictly_equal (JStr known) packageIndex) (referenced_package_indexes scope) then None
           else Some "names an unknown package_index_sha256; expected a package index known to the verification", c)
      | None =>
          match find_first (fun e => bool_decide (ix_artifact_path e = path)) (rf_entries scope) with
          | None => (Some "names a path the package index does not list", c)
          | Some entry =>
              match referencedBytes entry d c with
              | (None, c') => (Some ("names sha256 " +:+ d +:+ "; the indexed file has " +:+ ix_sha256 entry +:+ prefixExpectation entry), c')
              | (Some bytes, c') => locationProblem reference path bytes c'
              end
          end
      end
  | _, _ => (Some "has no string artifact_path and artifact_sha256; expected an evidence reference", c)
  end.

Fixpoint reference_reasons (path : string) (references : list json) (c : ResolutionCache) : list StructuredReason * ResolutionCache :=
  match references with
  | [] => ([], c)
  | r :: rest =>
      let '(problem, c1) := referenceProblem r c in
      let '(reasons, c2) := reference_reasons path rest c1 in
      (match problem with None => [] | Some p => [unresolved path ("reference " +:+ boundedJsonText r QUOTED_JSON_LIMIT +:+ " " +:+ p)] end ++ reasons, c2)
  end.

Definition recordReasons (path : string) (c : ResolutionCache) : list StructuredReason * ResolutionCache :=
  match (f ← fileAt (rf_files scope) path; match Parsing.parseJsonDocument JSON_parse (f_bytes f) with Ok v => Some v | Err _ => None end) with
  | None => ([unresolved path "its references cannot be read; expected one stored UTF-8 JSON record"], c)
  | Some v => reference_reasons path (collectReferences v) c
  end.

Fixpoint records_reasons (paths : list string) (c : ResolutionCache) : list StructuredReason * ResolutionCache :=
  match paths with
  | [] => ([], c)
  | p :: rest => let '(r1, c1) := recordReasons p c in let '(r2, c2) := records_reasons rest c1 in (r1 ++ r2, c2)
  end.

(** The derived records, in the index's order. *)
Definition derived_records : list string :=
  map ix_artifact_path (List.filter (fun e => bool_decide (derivation (ix_classification e) = "derived") && ends_with ".json" (ix_artifact_path e)) (rf_entries scope)).

Definition unresolvedReferenceReasons : list StructuredReason := (records_reasons derived_records empty_cache).1.
End resolution.
End References.
