(* ===== verification/ReferencesCorrect.v ===== *)
(** * Reference resolution is exact (src/study-1/src/evidence-package/)

    Pointers, prefix lookups and the work list, each against what it promises, and the whole resolution against the
    declarative [resolves]. *)

From S2P Require Import Prelude AttemptLifecycle Timestamps Decimals Store JsonText Parsing Journal Controller Evidence ArtifactReading Package References.
Import Json Store Utc Identifiers JsonText.
Import Package References.
Import Evidence(split_slash, map_get).
Import Parsing(json_size, escape_pointer, index_of, NEWLINE).
Import (notations) Stdlib.Strings.Ascii.
Open Scope Z_scope.

Module ReferencesCorrect.

(** ** Pointers *)

Definition escape_char (c : Ascii.ascii) : list Ascii.ascii :=
  match Ascii.nat_of_ascii c with 126 => chars "~0" | 47 => chars "~1" | _ => [c] end%nat.

Lemma escape_pointer_chars t : chars (escape_pointer t) = flat_map escape_char (chars t).
Proof. unfold escape_pointer. by rewrite chars_text. Qed.

(** The three shapes of an escaped character. *)
Lemma escape_char_cases c :
  (c = "~"%char /\ escape_char c = ["~"%char; "0"%char]) \/ (c = "/"%char /\ escape_char c = ["~"%char; "1"%char])
  \/ (c <> "~"%char /\ c <> "/"%char /\ escape_char c = [c]).
Proof.
  destruct c as [[] [] [] [] [] [] [] []];
    first [by left|by right; left|right; right; split; [discriminate|split; [discriminate|reflexivity]]].
Qed.

Lemma replace_other digit by_ c l : c <> "~"%char -> replace_escape digit by_ (c :: l) = c :: replace_escape digit by_ l.
Proof. intros H. destruct l as [|d l]; [done|]. cbn [replace_escape]. by rewrite (bool_decide_eq_false_2 (c = "~"%char)) by done. Qed.

Lemma replace_hit digit by_ l : replace_escape digit by_ ("~"%char :: digit :: l) = by_ :: replace_escape digit by_ l.
Proof. cbn [replace_escape]. rewrite (bool_decide_eq_true_2 ("~"%char = "~"%char)) by done. by rewrite (bool_decide_eq_true_2 (digit = digit)) by done. Qed.

Lemma replace_miss digit by_ d l : d <> digit -> d <> "~"%char ->
  replace_escape digit by_ ("~"%char :: d :: l) = "~"%char :: d :: replace_escape digit by_ l.
Proof.
  intros H1 H2. change (replace_escape digit by_ ("~"%char :: d :: l)) with
    (if bool_decide ("~"%char = "~"%char) && bool_decide (d = digit) then by_ :: replace_escape digit by_ l else "~"%char :: replace_escape digit by_ (d :: l)).
  by rewrite (bool_decide_eq_false_2 (d = digit)), andb_false_r, replace_other.
Qed.

(** Replacing the escape of one character leaves the others. *)
Lemma unescape_escaped t : unescape (escape_pointer t) = t.
Proof.
  unfold unescape. rewrite escape_pointer_chars.
  set (tilde := fun c => if bool_decide (c = "~"%char) then ["~"%char; "0"%char] else [c]).
  assert (H1 : forall l, replace_escape "1" "/" (flat_map escape_char l) = flat_map tilde l).
  { intros l. induction l as [|c l IH]; [done|]. cbn [flat_map]. rewrite <- IH. unfold tilde at 1.
    destruct (escape_char_cases c) as [[-> ->]|[[-> ->]|(Hc & Hs & ->)]]; cbn [app].
    - by rewrite replace_miss.
    - by rewrite replace_hit.
    - by rewrite replace_other, bool_decide_eq_false_2. }
  assert (H2 : forall l, replace_escape "0" "~" (flat_map tilde l) = l).
  { intros l. induction l as [|c l IH]; [done|]. cbn [flat_map]. unfold tilde at 1. case_bool_decide as Hc; subst; cbn [app].
    - by rewrite replace_hit, IH.
    - by rewrite replace_other, IH. }
  by rewrite H1, H2, text_chars.
Qed.

Lemma bad_escape_app a b : bad_escape (flat_map escape_char a ++ b) = bad_escape b.
Proof.
  induction a as [|c a IH]; [done|]. cbn [flat_map]. rewrite <- app_assoc. destruct (escape_char_cases c) as [[-> ->]|[[-> ->]|(Hc & Hs & ->)]]; cbn [app bad_escape].
  1,2: by rewrite IH.
  rewrite bool_decide_eq_false_2 by done. by rewrite IH.
Qed.

Lemma split_slash_escaped a b : split_slash (flat_map escape_char a ++ "/"%char :: b) = text (flat_map escape_char a) :: split_slash b.
Proof.
  assert (H : forall l, "/"%char ∉ l -> split_slash (l ++ "/"%char :: b) = text l :: split_slash b).
  { intros l. induction l as [|c l IH]; intros Hl; [done|]. cbn [app split_slash]. rewrite bool_decide_eq_false_2 by set_solver.
    by rewrite IH by set_solver. }
  apply H. intros Hin. apply list_elem_of_In, in_flat_map in Hin as (c & _ & Hin). apply list_elem_of_In in Hin.
  destruct (escape_char_cases c) as [[-> He]|[[-> He]|(Hc & Hs & He)]]; rewrite He in Hin; set_solver.
Qed.

Lemma split_slash_last a : split_slash (flat_map escape_char a) = [text (flat_map escape_char a)].
Proof.
  assert (H : forall l, "/"%char ∉ l -> split_slash l = [text l]).
  { intros l. induction l as [|c l IH]; intros Hl; [done|]. cbn [split_slash]. rewrite bool_decide_eq_false_2 by set_solver.
    by rewrite IH by set_solver. }
  apply H. intros Hin. apply list_elem_of_In, in_flat_map in Hin as (c & _ & Hin). apply list_elem_of_In in Hin.
  destruct (escape_char_cases c) as [[-> He]|[[-> He]|(Hc & Hs & He)]]; rewrite He in Hin; set_solver.
Qed.

(** The pointer of a path of member names and array indexes, as [findNonFiniteNumber] writes them. *)
Definition pointer_of (path : list string) : string := str_concat (map (fun t => "/" +:+ escape_pointer t) path).

(** Following the names. *)
Fixpoint walk (v : json) (path : list string) : option json :=
  match path with [] => Some v | t :: rest => match childOf v t with Some c => walk c rest | None => None end end.

Lemma pointer_chars t path :
  chars (pointer_of (t :: path)) = "/"%char :: flat_map escape_char (chars t) ++ chars (pointer_of path).
Proof. unfold pointer_of. cbn [map str_concat]. by rewrite !chars_app, escape_pointer_chars. Qed.

Lemma split_pointer t path :
  split_slash (flat_map escape_char (chars t) ++ chars (pointer_of path)) = map escape_pointer (t :: path).
Proof.
  revert t. induction path as [|u path IH]; intros t.
  - change (chars (pointer_of [])) with (@nil Ascii.ascii). by rewrite app_nil_r, split_slash_last, <- escape_pointer_chars, text_chars.
  - rewrite pointer_chars, split_slash_escaped, IH, <- escape_pointer_chars, text_chars. done.
Qed.

Lemma descend_walk v path : descend v (map escape_pointer path) = walk v path.
Proof. revert v. induction path as [|t path IH]; intros v; [done|]. simpl. rewrite unescape_escaped. by destruct (childOf v t). Qed.

(** A JSON pointer finds what its names lead to. For any document and any path of names, whatever characters the names
    hold, resolving the pointer written for the path gives the value reached by following the names, and nothing when some
    name leads nowhere. *)
Theorem pointer_resolves_path (document : json) (path : list string) : resolveJsonPointer document (pointer_of path) = walk document path.
Proof.
  destruct path as [|t path]; [done|]. unfold resolveJsonPointer. rewrite pointer_chars.
  assert (Hb : forall p, bad_escape (chars (pointer_of p)) = false).
  { intros p. induction p as [|u p IH]; [done|]. rewrite pointer_chars. cbn [bad_escape]. rewrite bad_escape_app. by rewrite IH. }
  rewrite <- pointer_chars, Hb. simpl. rewrite split_pointer. apply descend_walk.
Qed.

(** ** The references of a record *)

(** [v] makes the reference [r], at some depth. *)
Inductive refers : json -> json -> Prop :=
| refers_held v r : r ∈ held v -> refers v r
| refers_below v c r : c ∈ values_of v -> refers c r -> refers v r.

Lemma size_values v : json_size v = S (sum_list_with json_size (values_of v)).
Proof. destruct v; try done. simpl. by rewrite sum_list_with_map. Qed.

Lemma collect_loop_spec fuel pending r :
  (sum_list_with json_size pending <= fuel)%nat -> r ∈ collect_loop fuel pending <-> exists v, v ∈ pending /\ refers v r.
Proof.
  revert pending. induction fuel as [|fuel IH]; intros [|v pending] Hf; cbn [collect_loop].
  1,3: by split; [set_solver|intros (? & ? & _); set_solver].
  { exfalso. simpl in Hf. rewrite size_values in Hf. lia. }
  simpl in Hf. rewrite size_values in Hf. rewrite elem_of_app, IH.
  - split.
    + intros [H|(c & Hc & Hr)]; [exists v; split; [set_solver|by constructor]|]. apply elem_of_app in Hc as [Hc|Hc].
      * rewrite elem_of_rev_list in Hc. exists v. split; [set_solver|]. by apply refers_below with c.
      * exists c. split; [set_solver|done].
    + intros (c & Hc & Hr). apply elem_of_cons in Hc as [->|Hc]; [|right; exists c; set_solver].
      inversion Hr as [? ? Hh|? d ? Hd Hr']; subst; [by left|]. right. exists d. split; [|done]. apply elem_of_app. left. by rewrite elem_of_rev_list.
  - rewrite sum_list_with_app. assert (Hrev : forall l, sum_list_with json_size (rev l) = sum_list_with json_size l).
    { intros l. induction l as [|x l IHl]; [done|]. cbn [rev]. rewrite sum_list_with_app, IHl. simpl. lia. }
    rewrite Hrev. lia.
Qed.

Lemma collectReferences_spec record r : r ∈ collectReferences record <-> refers record r.
Proof.
  unfold collectReferences. rewrite collect_loop_spec by (simpl; lia). split; [intros (v & Hv & Hr)|by exists record; set_solver].
  apply list_elem_of_singleton in Hv. by subst.
Qed.

(** ** Prefixes *)

(** [n] bytes of the journal end right after a newline. *)
Definition line_end (bytes : list Z) (n : nat) : Prop := (0 < n)%nat /\ bytes !! (n - 1)%nat = Some NEWLINE.
Definition line_prefix (bytes p : list Z) : Prop := exists n, line_end bytes n /\ p = take n bytes.

Lemma line_end_bound bytes n : line_end bytes n -> (n <= length bytes)%nat.
Proof. intros [H1 H2]. apply lookup_lt_Some in H2. lia. Qed.

Lemma nextLineEnd_spec s :
  match nextLineEnd s with
  | O => forall n, line_end (lp_bytes s) n -> (n <= scanned s)%nat
  | S e => (scanned s < S e)%nat /\ line_end (lp_bytes s) (S e) /\ forall n, line_end (lp_bytes s) n -> (scanned s < n)%nat -> (S e <= n)%nat
  end.
Proof.
  unfold nextLineEnd. pose proof (Parsing.index_of_correct NEWLINE (drop (scanned s) (lp_bytes s))) as Hi.
  destruct (index_of NEWLINE _) as [i|].
  - replace (scanned s + i + 1)%nat with (S (scanned s + i)) by lia. destruct Hi as (rest & He & _ & H2 & Hi).
    assert (H1 : lp_bytes s !! (scanned s + i)%nat = Some NEWLINE).
    { rewrite <- lookup_drop, He, lookup_app_r by (rewrite length_take; lia). rewrite length_take.
      by replace (i - _)%nat with 0%nat by lia. }
    split_and!; [lia| |].
    + split; [lia|]. by replace (S (scanned s + i) - 1)%nat with (scanned s + i)%nat by lia.
    + intros n [Hn1 Hn2] Hs. destruct (decide (S (scanned s + i) <= n)%nat) as [|Hlt]; [done|]. exfalso. apply H2.
      apply list_elem_of_lookup. exists (n - 1 - scanned s)%nat. rewrite lookup_take_lt by lia. rewrite lookup_drop.
      by replace (scanned s + (n - 1 - scanned s))%nat with (n - 1)%nat by lia.
  - intros n [Hn1 Hn2]. destruct (decide (n <= scanned s)%nat) as [|Hlt]; [done|]. exfalso. apply Hi.
    apply list_elem_of_lookup. exists (n - 1 - scanned s)%nat. rewrite lookup_drop.
    by replace (scanned s + (n - 1 - scanned s))%nat with (n - 1)%nat by lia.
Qed.

Section lookups.
Context (digest : list Z -> string) (bytes : list Z).

(** What the object knows is true, and it knows every prefix up to where it scanned. *)
Record prefixes_ok (s : LinePrefixDigests) : Prop := {
  po_bytes : lp_bytes s = bytes;
  po_known d n : map_get d (lengths s) = Some n -> line_end bytes n /\ digest (take n bytes) = d;
  po_all n : line_end bytes n -> (n <= scanned s)%nat -> is_Some (map_get (digest (take n bytes)) (lengths s));
  po_scanned : (scanned s <= length bytes)%nat;
}.

Lemma new_prefixes_ok : prefixes_ok (new_prefixes bytes).
Proof. split; simpl; [done|done| |lia]. intros n [Hn _] H. lia. Qed.

Definition found (wanted : string) (r : option nat) : Prop :=
  match r with
  | Some n => line_end bytes n /\ digest (take n bytes) = wanted
  | None => forall n, line_end bytes n -> digest (take n bytes) <> wanted
  end.

Lemma scan_ok fuel wanted s :
  prefixes_ok s -> map_get wanted (lengths s) = None -> (length bytes - scanned s <= fuel)%nat ->
  found wanted (scan digest fuel wanted s).1 /\ prefixes_ok (scan digest fuel wanted s).2.
Proof.
  assert (Hnone : forall s, prefixes_ok s -> map_get wanted (lengths s) = None -> (forall n, line_end bytes n -> (n <= scanned s)%nat) ->
    found wanted None /\ prefixes_ok s).
  { intros s' Hs' Hw Hn. split; [|done]. intros n Hl He. destruct (po_all s' Hs' n Hl (Hn n Hl)) as [m Hm]. rewrite He in Hm. congruence. }
  revert s. induction fuel as [|fuel IH]; intros s Hs Hw Hf; cbn [scan].
  - apply Hnone; [done|done|]. intros n Hn. apply line_end_bound in Hn. simpl. lia.
  - pose proof (nextLineEnd_spec s) as Hnext. rewrite (po_bytes s Hs) in Hnext. destruct (nextLineEnd s) as [|e]; [by apply Hnone|].
    destruct Hnext as (Hlt & Hend & Hmin). rewrite (po_bytes s Hs).
    assert (Hs' : prefixes_ok (MkPrefixes bytes ((digest (take (S e) bytes), S e) :: lengths s) (S e))).
    { split; simpl; [done| | |by apply line_end_bound].
      - intros d n. case_bool_decide as Hd; [intros [= <-]; by split|]. apply (po_known s Hs).
      - intros n Hn Hle. case_bool_decide as Hd; [by eexists|]. destruct (decide (scanned s < n)%nat) as [Hsn|Hsn].
        + assert (n = S e) as -> by (pose proof (Hmin n Hn Hsn); lia). done.
        + apply (po_all s Hs); [done|lia]. }
    case_bool_decide as Hd; [by split|]. apply IH; [done| |simpl; lia]. simpl. by rewrite bool_decide_eq_false_2.
Qed.

Lemma prefixWithDigest_ok wanted s :
  prefixes_ok s ->
  prefixes_ok (prefixWithDigest digest wanted s).2
  /\ match (prefixWithDigest digest wanted s).1 with
     | Some p => line_prefix bytes p /\ digest p = wanted
     | None => forall p, line_prefix bytes p -> digest p <> wanted
     end.
Proof.
  intros Hs. unfold prefixWithDigest, lengthOf. destruct (map_get wanted (lengths s)) as [n|] eqn:Hw.
  - simpl. split; [done|]. apply (po_known s Hs) in Hw as [Hn Hd]. rewrite (po_bytes s Hs). split; [by exists n|done].
  - assert (Hle : (length bytes - scanned s <= length bytes)%nat) by lia.
    destruct (scan_ok (length bytes) wanted s Hs Hw Hle) as [Hfound Hs']. rewrite (po_bytes s Hs).
    destruct (scan digest (length bytes) wanted s) as [[n|] s']; simpl in *; (split; [done|]).
    + destruct Hfound as [Hn Hd]. split; [by exists n|done].
    + intros p (n & Hn & ->). by apply Hfound.
Qed.
End lookups.

(** A prefix lookup answers for the whole journal, whatever was looked up before. After any sequence of lookups in a
    journal's bytes, a lookup returns a prefix exactly when some newline-terminated prefix has the digest, and what it returns is
    one; the prefixes digested so far and the place the scan resumes at do not show. *)
Theorem prefix_lookup_complete (digest : list Z -> string) (bytes : list Z) (history : list string) (wanted : string) :
  let s := fold_left (fun s w => (prefixWithDigest digest w s).2) history (new_prefixes bytes) in
  match (prefixWithDigest digest wanted s).1 with
  | Some p => line_prefix bytes p /\ digest p = wanted
  | None => forall p, line_prefix bytes p -> digest p <> wanted
  end.
Proof.
  intros s. apply prefixWithDigest_ok. subst s. generalize (new_prefixes_ok digest bytes). generalize (new_prefixes bytes).
  induction history as [|w history IH]; intros s Hs; [done|]. apply IH. by apply prefixWithDigest_ok.
Qed.

(** ** What it means to resolve *)

Section resolves.
Context (JSON_parse : string -> Result json string) (digest : list Z -> string) (scope : ReferenceScope).

(** The bytes a digest names: the indexed file, or a prefix of the runner journal when its stored bytes are the indexed ones. *)
Inductive names_bytes (entry : IndexEntry) (d : string) : ReferencedBytes -> Prop :=
| names_whole : ix_sha256 entry = d -> names_bytes entry d rb_whole
| names_prefix p : ix_sha256 entry <> d -> ix_artifact_path entry = runnerJournal -> line_prefix (indexed_bytes digest scope entry) p ->
    digest p = d -> names_bytes entry d (rb_prefix p).

Definition artifact_of (path : string) (bytes : ReferencedBytes) : Result ParsedArtifact string :=
  match bytes with
  | rb_whole => parseStored JSON_parse path (fileAt (rf_files scope) path)
  | rb_prefix p => Ok (parsedJsonl JSON_parse p)
  end.

(** The event, or the document, that a pointer starts from. *)
Definition start_of (a : ParsedArtifact) (eventId : option json) : option json :=
  match eventId with None => wholeDocument a | Some id => eventIn a id end.

(** The event id and the pointer, where present, name something in the artifact. *)
Definition located (reference : json) (path : string) (bytes : ReferencedBytes) : Prop :=
  (memberOf reference "event_id" = None /\ memberOf reference "json_pointer" = None)
  \/ exists a target, artifact_of path bytes = Ok a /\ start_of a (memberOf reference "event_id") = Some target
       /\ forall p, memberOf reference "json_pointer" = Some p -> exists t v, p = JStr t /\ resolveJsonPointer target t = Some v.

Definition resolves (reference : json) : Prop :=
  exists path d, stringMember reference "artifact_path" = Some path /\ stringMember reference "artifact_sha256" = Some d
    /\ match memberOf reference "package_index_sha256" with
       | Some p => exists known, known ∈ referenced_package_indexes scope /\ p = JStr known
       | None => exists entry bytes, find_first (fun e => bool_decide (ix_artifact_path e = path)) (rf_entries scope) = Some entry
           /\ names_bytes entry d bytes /\ located reference path bytes
       end.

Lemma target_problem_None a eventId pointer :
  target_problem a eventId pointer = None <->
  exists art target, a = Ok art /\ start_of art eventId = Some target
    /\ forall p, pointer = Some p -> exists t v, p = JStr t /\ resolveJsonPointer target t = Some v.
Proof.
  unfold target_problem, start_of. destruct a as [art|e]; [|split; [done|by intros (? & ? & [=] & _)]].
  destruct (match eventId with Some _ => _ | None => _ end) as [target|] eqn:Ht.
  2: { split; [by destruct eventId|]. intros (? & ? & [= <-] & H & _). congruence. }
  destruct pointer as [p|]; [|split; [intros _; by exists art, target|done]]. split.
  - intros H. exists art, target. split; [done|]. split; [done|]. intros ? [= <-]. destruct p as [| | |t| |]; try done.
    destruct (resolveJsonPointer target t) as [v|] eqn:Hv; [|done]. by exists t, v.
  - intros (? & ? & [= <-] & Ht' & H). rewrite Ht in Ht'. simplify_eq. destruct (H p eq_refl) as (t & v & -> & Hv). rewrite Hv. done.
Qed.

(** ** The caches do not show *)

(** The entry of the runner journal, and its bytes. *)
Definition journal_entry : option IndexEntry := find_first (fun e => bool_decide (ix_artifact_path e = runnerJournal)) (rf_entries scope).
Definition journal_bytes : list Z := match journal_entry with Some e => indexed_bytes digest scope e | None => [] end.

Record cache_ok (c : ResolutionCache) : Prop := {
  co_parsed path r : map_get path (c_parsed c) = Some r -> r = parseStored JSON_parse path (fileAt (rf_files scope) path);
  co_prefixes path s : map_get path (c_prefixes c) = Some s -> path = runnerJournal /\ prefixes_ok digest journal_bytes s;
  co_parsedPrefixes n a : parsed_prefix_of n (c_parsedPrefixes c) = Some a -> (n <= length journal_bytes)%nat /\ a = parsedJsonl JSON_parse (take n journal_bytes);
}.

Lemma empty_cache_ok : cache_ok empty_cache.
Proof. by split. Qed.

Definition in_journal (bytes : ReferencedBytes) : Prop :=
  match bytes with rb_whole => True | rb_prefix p => line_prefix journal_bytes p end.

Lemma artifactAt_ok path bytes c :
  cache_ok c -> in_journal bytes ->
  (artifactAt JSON_parse scope path bytes c).1 = artifact_of path bytes /\ cache_ok (artifactAt JSON_parse scope path bytes c).2.
Proof.
  intros Hc Hb. destruct bytes as [|p]; simpl.
  - unfold parsedArtifact. destruct (map_get path (c_parsed c)) as [r|] eqn:Hr; [by apply (co_parsed c Hc) in Hr as ->|]. split; [done|].
    split; simpl; [|apply (co_prefixes c Hc)|apply (co_parsedPrefixes c Hc)].
    intros path' r. case_bool_decide as Hp; [intros [= <-]; by subst|apply (co_parsed c Hc)].
  - destruct Hb as (n & Hn & ->). apply line_end_bound in Hn. unfold parsedPrefix.
    assert (Hlen : length (take n journal_bytes) = n) by (rewrite length_take; lia). rewrite Hlen.
    destruct (parsed_prefix_of n (c_parsedPrefixes c)) as [a|] eqn:Ha; simpl; [apply (co_parsedPrefixes c Hc) in Ha as [_ ->]; done|].
    split; [done|]. split; simpl; [apply (co_parsed c Hc)|apply (co_prefixes c Hc)|].
    intros k a. destruct (Nat.eqb_spec n k) as [->|Hk]; [intros [= <-]; done|apply (co_parsedPrefixes c Hc)].
Qed.

(** No two prefixes of the runner journal share a digest. *)
Hypothesis no_collision : forall p q, line_prefix journal_bytes p -> line_prefix journal_bytes q -> digest p = digest q -> p = q.

Lemma journal_of entry path :
  find_first (fun e => bool_decide (ix_artifact_path e = path)) (rf_entries scope) = Some entry -> ix_artifact_path entry = runnerJournal ->
  path = runnerJournal /\ indexed_bytes digest scope entry = journal_bytes.
Proof.
  intros Hf He. pose proof Hf as Hf'. apply find_first_Some in Hf' as [_ Hp]. cbv beta in Hp. boolp. subst path. split; [done|].
  unfold journal_bytes, journal_entry. by rewrite <- He, Hf.
Qed.

Lemma referencedBytes_ok entry path d c :
  find_first (fun e => bool_decide (ix_artifact_path e = path)) (rf_entries scope) = Some entry -> cache_ok c ->
  cache_ok (referencedBytes digest scope entry d c).2
  /\ match (referencedBytes digest scope entry d c).1 with
     | Some bytes => names_bytes entry d bytes /\ in_journal bytes /\ (forall b, names_bytes entry d b -> b = bytes)
     | None => forall b, ~ names_bytes entry d b
     end.
Proof.
  intros Hf Hc. unfold referencedBytes. case_bool_decide as Hd.
  { simpl. split; [done|]. split; [by constructor|]. split; [done|]. intros b Hb. by inversion Hb. }
  destruct (bool_decide (ix_artifact_path entry = runnerJournal)) eqn:Hr; simpl; boolp.
  2: { split; [done|]. intros b Hb. by inversion Hb. }
  destruct (journal_of entry path Hf Hr) as [-> Hj].
  assert (Hs : prefixes_ok digest journal_bytes (indexedPrefixes digest scope entry c)).
  { unfold indexedPrefixes. destruct (map_get (ix_artifact_path entry) (c_prefixes c)) as [s|] eqn:Hg; [by apply (co_prefixes c Hc) in Hg as [_ ?]|].
    rewrite Hj. apply new_prefixes_ok. }
  destruct (prefixWithDigest_ok digest journal_bytes d _ Hs) as [Hs' Hp].
  destruct (prefixWithDigest digest d (indexedPrefixes digest scope entry c)) as [[p|] s']; simpl in *.
  - split; [|split_and!].
    + split; simpl; [apply (co_parsed c Hc)| |apply (co_parsedPrefixes c Hc)]. intros q s. case_bool_decide as Hq; [intros [= <-]; by subst|apply (co_prefixes c Hc)].
    + destruct Hp as [Hp1 Hp2]. constructor; [done|done|by rewrite Hj|done].
    + by destruct Hp.
    + intros b Hb. inversion Hb as [|q _ _ Hq Hqd]; subst; [done|]. f_equal. rewrite Hj in Hq. destruct Hp as [Hp1 Hp2]. apply no_collision; [done|done|congruence].
  - split.
    + split; simpl; [apply (co_parsed c Hc)| |apply (co_parsedPrefixes c Hc)]. intros q s. case_bool_decide as Hq; [intros [= <-]; by subst|apply (co_prefixes c Hc)].
    + intros b Hb. inversion Hb as [|q _ _ Hq Hqd]; subst; [done|]. rewrite Hj in Hq. by apply (Hp q).
Qed.

Lemma locationProblem_ok reference path bytes c :
  cache_ok c -> in_journal bytes ->
  cache_ok (locationProblem JSON_parse scope reference path bytes c).2
  /\ ((locationProblem JSON_parse scope reference path bytes c).1 = None <-> located reference path bytes).
Proof.
  intros Hc Hb. unfold locationProblem, located. destruct (artifactAt_ok path bytes c Hc Hb) as [Ha Hc'].
  destruct (artifactAt JSON_parse scope path bytes c) as [artifact c']. simpl in Ha, Hc'. subst artifact.
  destruct (memberOf reference "event_id") as [id|]; [|destruct (memberOf reference "json_pointer") as [p|]]; cbn [fst snd].
  1,2: split; [done|]; rewrite target_problem_None; split; [intros H; by right|by intros [[? ?]|H]].
  split; [done|]. split; [by left|done].
Qed.

Lemma referenceProblem_ok reference c :
  cache_ok c ->
  cache_ok (referenceProblem JSON_parse digest scope reference c).2
  /\ ((referenceProblem JSON_parse digest scope reference c).1 = None <-> resolves reference).
Proof.
  intros Hc. unfold referenceProblem, resolves.
  destruct (stringMember reference "artifact_path") as [path|]; [|split; [done|]; split; [done|by intros (? & ? & [=] & _)]].
  destruct (stringMember reference "artifact_sha256") as [d|]; [|split; [done|]; split; [done|by intros (? & ? & _ & [=] & _)]].
  destruct (memberOf reference "package_index_sha256") as [pi|].
  { cbn [fst snd]. split; [done|]. destruct (existsb _ _) eqn:Hk.
    - split; [|done]. intros _. exists path, d. split; [done|]. split; [done|]. apply existsb_true in Hk as (known & Hk & He). exists known. split; [done|].
      destruct pi; simpl in He; try done. boolp. by subst.
    - split; [done|]. intros (? & ? & _ & _ & known & Hin & ->). rewrite existsb_false in Hk. specialize (Hk known Hin). simpl in Hk. by boolp. }
  destruct (find_first _ (rf_entries scope)) as [entry|] eqn:Hf.
  2: { split; [done|]. split; [done|]. intros (? & ? & [= <-] & _ & entry & ? & Hf' & _). congruence. }
  destruct (referencedBytes_ok entry path d c Hf Hc) as [Hc1 Hb]. destruct (referencedBytes digest scope entry d c) as [[bytes|] c1]; cbn [fst snd] in *.
  - destruct Hb as (Hn & Hj & Hu). destruct (locationProblem_ok reference path bytes c1 Hc1 Hj) as [Hc2 Hl]. split; [done|]. rewrite Hl. split.
    + intros H. exists path, d. split_and!; [done|done|]. exists entry, bytes. by split_and!.
    + intros (? & ? & [= <-] & [= <-] & entry' & b & Hf' & Hb & H). rewrite Hf in Hf'. simplify_eq. by rewrite (Hu b Hb) in H.
  - split; [done|]. split; [done|]. intros (? & ? & [= <-] & [= <-] & entry' & b & Hf' & Hb' & _). rewrite Hf in Hf'. simplify_eq. by apply Hb in Hb'.
Qed.

Lemma reference_reasons_ok path references c :
  cache_ok c ->
  cache_ok (reference_reasons JSON_parse digest scope path references c).2
  /\ ((reference_reasons JSON_parse digest scope path references c).1 = [] <-> forall r, r ∈ references -> resolves r).
Proof.
  revert c. induction references as [|r references IH]; intros c Hc; cbn [reference_reasons]; [by split; [|split; [set_solver|]]|].
  destruct (referenceProblem_ok r c Hc) as [Hc1 Hr]. destruct (referenceProblem JSON_parse digest scope r c) as [problem c1]. cbn [fst snd] in *.
  destruct (IH c1 Hc1) as [Hc2 Hrest]. destruct (reference_reasons JSON_parse digest scope path references c1) as [reasons c2]. cbn [fst snd] in *.
  split; [done|]. rewrite app_nil, Hrest. destruct problem as [p|]; (split; [|]).
  - by intros [? _].
  - intros H. assert (resolves r) as Hres by (apply H; set_solver). by apply Hr in Hres.
  - intros [_ H] x Hx. apply elem_of_cons in Hx as [->|Hx]; [by apply Hr|by apply H].
  - intros H. split; [done|]. intros x Hx. apply H. set_solver.
Qed.

(** The record stored at [path] parses and every reference it makes resolves. *)
Definition record_resolves (path : string) : Prop :=
  exists f v, fileAt (rf_files scope) path = Some f /\ Parsing.parseJsonDocument JSON_parse (f_bytes f) = Ok v
    /\ forall r, refers v r -> resolves r.

Lemma recordReasons_ok path c :
  cache_ok c ->
  cache_ok (recordReasons JSON_parse digest scope path c).2
  /\ ((recordReasons JSON_parse digest scope path c).1 = [] <-> record_resolves path).
Proof.
  intros Hc. unfold recordReasons, record_resolves. destruct (fileAt (rf_files scope) path) as [f|]; simpl;
    [|split; [done|]; split; [done|by intros (? & ? & [=] & _)]].
  destruct (Parsing.parseJsonDocument JSON_parse (f_bytes f)) as [v|e] eqn:Hp.
  2: { simpl. split; [done|]. split; [done|]. intros (? & ? & [= <-] & Hp' & _). congruence. }
  destruct (reference_reasons_ok path (collectReferences v) c Hc) as [Hc1 Hr]. split; [done|]. rewrite Hr. setoid_rewrite collectReferences_spec. split.
  - intros H. by exists f, v.
  - intros (? & ? & [= <-] & Hp' & H). rewrite Hp in Hp'. by simplify_eq.
Qed.

Lemma records_reasons_ok paths c :
  cache_ok c ->
  cache_ok (records_reasons JSON_parse digest scope paths c).2
  /\ ((records_reasons JSON_parse digest scope paths c).1 = [] <-> forall p, p ∈ paths -> record_resolves p).
Proof.
  revert c. induction paths as [|p paths IH]; intros c Hc; cbn [records_reasons]; [by split; [|split; [set_solver|]]|].
  destruct (recordReasons_ok p c Hc) as [Hc1 Hr]. destruct (recordReasons JSON_parse digest scope p c) as [r1 c1]. cbn [fst snd] in *.
  destruct (IH c1 Hc1) as [Hc2 Hrest]. destruct (records_reasons JSON_parse digest scope paths c1) as [r2 c2]. cbn [fst snd] in *.
  split; [done|]. rewrite app_nil, Hr, Hrest. set_solver.
Qed.
End resolves.

(** C38: reference resolution is exact. For any package whose runner journal has no two prefixes of one digest,
    [unresolvedReferenceReasons] finds nothing iff every derived JSON record the index lists is stored, parses, and every
    reference it makes at any depth resolves: it names a known package index, or an indexed file by its digest (or the
    runner journal by the digest of a line-boundary prefix), and its event id and pointer, if any, name something in those bytes. The
    parse caches, the prefix scan and the order of the references do not show. *)
Theorem reference_resolution_exact JSON_parse digest (scope : ReferenceScope) :
  (forall p q, line_prefix (journal_bytes digest scope) p -> line_prefix (journal_bytes digest scope) q -> digest p = digest q -> p = q) ->
  unresolvedReferenceReasons JSON_parse digest scope = [] <->
  forall path, path ∈ derived_records scope -> record_resolves JSON_parse digest scope path.
Proof.
  intros Hd. unfold unresolvedReferenceReasons. apply (records_reasons_ok JSON_parse digest scope Hd (derived_records scope) empty_cache). by split.
Qed.

(** A summary that cites the runner journal as it stood after its first line. *)
Definition demo_journal : list Z := [69; 10; 69; 10].
Definition demo_files : list PackageFile := [MkFile "summary/run-summary.json" [83]; MkFile runnerJournal demo_journal].
Definition demo_refs : ReferenceScope :=
  MkRefScope (map (fun f => entry_of demo_digest f (if bool_decide (f_path f = runnerJournal) then primary "runner_journal" else derived "run_summary")) demo_files) demo_files [].
Definition demo_reads (t : string) : Result json string :=
  if bool_decide (t = "S")
  then Ok (JObj [("preserved", JBool true);
        ("runner_ref", JObj [("artifact_path", JStr runnerJournal); ("artifact_sha256", JStr (demo_digest [69; 10])); ("event_id", JStr "e"); ("json_pointer", JStr "/a~1b/0")])])
  else Ok (JObj [("event_id", JStr "e"); ("a/b", JArr [JNull])]).

Lemma reference_resolution_exact_witness :
  (unresolvedReferenceReasons demo_reads demo_digest demo_refs = [] <->
   forall path, path ∈ derived_records demo_refs -> record_resolves demo_reads demo_digest demo_refs path)
  /\ unresolvedReferenceReasons demo_reads demo_digest demo_refs = [] /\ derived_records demo_refs = ["summary/run-summary.json"].
Proof.
  split; [|split; vm_compute; reflexivity].
  apply reference_resolution_exact. assert (Hj : journal_bytes demo_digest demo_refs = demo_journal) by (vm_compute; reflexivity). rewrite Hj.
  assert (Hn : forall p, line_prefix demo_journal p -> p = [69; 10] \/ p = demo_journal).
  { intros p (n & Hn & ->). pose proof (line_end_bound _ _ Hn) as Hb. destruct Hn as [H0 H1].
    destruct n as [|[|[|[|[|n]]]]]; simpl in *; try lia; try done; [by left|by right]. }
  intros p q Hp Hq. destruct (Hn p Hp) as [->| ->], (Hn q Hq) as [->| ->]; [done|vm_compute; discriminate|vm_compute; discriminate|done].
Defined.
End ReferencesCorrect.
