(* ===== verification/PackageVerifier.v ===== *)
(** * The package verifier (src/study-1/src/evidence-package/)

    The checkpoint of an open journal (prefix-checkpoint.ts), the digests a package records about itself below its index
    (nested-indexes.ts, and the digest and order of assembly-inventory.ts), the artifacts an evaluation expects
    (expected-artifacts.ts) and the verdict on a package and its amendments (package-verifier.ts). [sha256Hex] is the
    kernel's digest, [digest] the verifier's own argument.

    A record's members are read ([textOf], [intOf], [itemsOf]) only after the validator accepted
    the record. The schemas require each of them with its type, so behind a validator that enforces
    the schemas the defaults of the readers are never taken; the code's own reads are casts, which would
    throw where a laxer validator let a member be missing. *)

From S2P Require Import Prelude AttemptLifecycle Timestamps Decimals Utf16 Store JsonText Parsing Journal Controller Evidence ArtifactReading Ingestion Package Amendments References.
Import Json Store Utc Identifiers JsonText Journal.
Import Package Amendments References.
Import Ingestion(RecordValidator, textOf, intOf, itemsOf).
Open Scope Z_scope.

Module PackageVerifier.

(** ** The prefix checkpoint (prefix-checkpoint.ts) *)

Record CoordinationPrefixCheckpoint := MkCheckpoint {
  cp_transport_probe_id : string;
  cp_execution_manifest_sha256 : string;
  cp_journal_path : string;
  cp_prefix_byte_count : Z;
  cp_prefix_sha256 : string;
  cp_last_event_id : string;
  cp_last_source_sequence : Z;
  cp_checkpointed_at : string;
}.

Record PrefixLastEvent := MkLastEvent { le_event_id : string; le_source_sequence : Z }.

(** [bytes.lastIndexOf(NEWLINE) + 1]: the length of the prefix that ends with the last newline, 0 without one. *)
Fixpoint last_newline_end (bytes : list Z) : nat :=
  match bytes with
  | [] => 0
  | b :: rest =>
      match last_newline_end rest with
      | O => if b =? Parsing.NEWLINE then 1 else 0
      | n => S n
      end
  end.

Definition isSourceSequence (v : option json) : option Z :=
  match as_safe_integer v with Some z => if 1 <=? z then Some z else None | None => None end.

Definition read_uuid4 (v : option json) : option string := match as_string v with Some s => if isUuid4 s then Some s else None | None => None end.

Section verifier.
Context (JSON_parse : string -> Result json string) (sha256Hex : list Z -> string).

(** [prefix.lastIndexOf(NEWLINE, prefix.length - 2)] counts a negative index from the end, which only a one-byte prefix has. *)
Definition line_start (prefix : list Z) : nat :=
  last_newline_end (take (if (2 <=? length prefix)%nat then length prefix - 1 else 1) prefix).

Definition lastPrefixEvent (prefix : list Z) : Result PrefixLastEvent string :=
  match prefix with
  | [] => Err "the journal has no complete line; expected at least one newline-terminated event"
  | _ =>
      let lineStart := line_start prefix in
      let line := match Parsing.parseJsonDocument JSON_parse (take (length prefix - 1 - lineStart) (drop lineStart prefix)) with Ok v => Some v | Err _ => None end in
      let member_of key := v ← line; memberOf v key in
      match read_uuid4 (member_of "event_id"), isSourceSequence (member_of "source_sequence") with
      | Some id, Some sequence => Ok (MkLastEvent id sequence)
      | _, _ =>
          let shown := match line with None => "not one UTF-8 JSON document" | Some v => boundedJsonText v QUOTED_JSON_LIMIT end in
          Err ("the last complete line is " +:+ shown +:+ "; expected an event with a lowercase UUIDv4 event_id and a positive safe-integer source_sequence")
      end
  end.

Definition buildPrefixCheckpoint (journal : list Z) (transport_probe_id execution_manifest_sha256 checkpointed_at : string) :
  Result CoordinationPrefixCheckpoint StructuredReason :=
  let prefixLength := last_newline_end journal in
  let prefix := take prefixLength journal in
  match lastPrefixEvent prefix with
  | Err e => Err (MkReason "PREFIX_LAST_EVENT_UNREADABLE" "BR-RUA-044" (Some (path_of "coordinationJournal")) None e)
  | Ok last =>
      Ok (MkCheckpoint transport_probe_id execution_manifest_sha256 (path_of "coordinationJournal") (Z.of_nat prefixLength) (sha256Hex prefix)
            (le_event_id last) (le_source_sequence last) checkpointed_at)
  end.

Definition checkPrefixCheckpoint (c : CoordinationPrefixCheckpoint) (journal : list Z) : option string :=
  if Z.of_nat (length journal) <? cp_prefix_byte_count c
  then Some ("prefix_byte_count " +:+ string_of_Z (cp_prefix_byte_count c) +:+ " exceeds the " +:+ string_of_Z (Z.of_nat (length journal))
         +:+ "-byte journal; expected the journal to extend its prefix")
  else
    let prefix := take (Z.to_nat (cp_prefix_byte_count c)) journal in
    if negb (bool_decide (sha256Hex prefix = cp_prefix_sha256 c))
    then Some ("the first " +:+ string_of_Z (cp_prefix_byte_count c) +:+ " journal bytes hash to " +:+ sha256Hex prefix +:+ "; expected prefix_sha256 "
           +:+ cp_prefix_sha256 c)
    else
      let matches := match lastPrefixEvent prefix with
                     | Ok last => bool_decide (le_event_id last = cp_last_event_id c) && (le_source_sequence last =? cp_last_source_sequence c)
                     | Err _ => false end in
      if matches then None
      else Some ("the prefix does not end with event " +:+ cp_last_event_id c +:+ " at sequence " +:+ string_of_Z (cp_last_source_sequence c)
             +:+ "; expected the checkpointed last event").

Definition checkpointOf (v : json) : CoordinationPrefixCheckpoint :=
  MkCheckpoint (textOf v "transport_probe_id") (textOf v "execution_manifest_sha256") (textOf v "journal_path") (intOf v "prefix_byte_count")
    (textOf v "prefix_sha256") (textOf v "last_event_id") (intOf v "last_source_sequence") (textOf v "checkpointed_at").

(** ** The assembly inventory's digest and order (assembly-inventory.ts) *)

(** The listed entries as the record holds them; [canonicalJson] throws on a number that is not finite. *)
Definition inventoryDigest (files : list json) : Result string js_error :=
  let! t := canonicalJson (JArr files) in Ok (sha256Hex (Parsing.bytes_of t)).

Definition SURROGATE_START : Z := 0xd800.
Definition PRIVATE_USE_START : Z := 0xe000.

Definition codePointRank (unit other : Z) : Z :=
  if (unit <? SURROGATE_START) || (other <? SURROGATE_START) then unit
  else if PRIVATE_USE_START <=? unit then unit - 0x800 else unit + 0x2000.

Fixpoint compare_units (a b : list Z) : Z :=
  match a, b with
  | x :: a', y :: b' => if x =? y then compare_units a' b' else codePointRank x y - codePointRank y x
  | _, _ => Z.of_nat (length a) - Z.of_nat (length b)
  end.
Definition compareCodePoints (a b : string) : Z := compare_units (Utf16.units a) (Utf16.units b).

(** ** Nested indexes (nested-indexes.ts) *)

Context (validator : RecordValidator) (digest : list Z -> string).

Definition unreadable (path d : string) : StructuredReason :=
  ineligibility "ALTERED_BYTES" (quoted_path path +:+ " cannot vouch for the bytes it froze: " +:+ d) "" (Some path).

Definition isEvidenceIndex (f : PackageFile) : bool :=
  match classifyPackageArtifact (f_path f) with Ok c => bool_decide (artifact_class c = "evidence_index") | Err _ => false end.

Definition parse_record (bytes : list Z) (recordType path : string) : Result json StructuredReason :=
  parsePackageRecord JSON_parse validator bytes recordType path.

Definition evidenceIndexReasons (f : PackageFile) (files : list PackageFile) : list StructuredReason :=
  match parse_record (f_bytes f) "evidence_index" (f_path f) with
  | Err e => [unreadable (f_path f) (detail e)]
  | Ok v =>
      flat_map (fun entry =>
        map (fun r => MkReason (code r) (subject r) (artifact_path r) (event_id r) ("evidence index " +:+ quoted_path (f_path f) +:+ ": " +:+ detail r))
          (alteredEntryReason digest "" entry (fileAt files (ix_artifact_path entry))))
        (map indexEntryOf (itemsOf v "entries"))
  end.

Definition prefixCheckpointReasons (files : list PackageFile) : list StructuredReason :=
  let path := path_of "coordinationPrefixCheckpoint" in
  match fileAt files path with
  | None => []
  | Some f =>
      match parse_record (f_bytes f) "coordination_prefix_checkpoint" path with
      | Err e => [unreadable path (detail e)]
      | Ok v =>
          let checkpoint := checkpointOf v in
          let journalPath := cp_journal_path checkpoint in
          match fileAt files journalPath with
          | None => [ineligibility "ALTERED_BYTES" ("checkpointed journal " +:+ quoted_path journalPath +:+ " is absent; expected the complete journal") "" (Some journalPath)]
          | Some journal =>
              match checkPrefixCheckpoint checkpoint (f_bytes journal) with
              | None => []
              | Some problem => [ineligibility "ALTERED_BYTES" (quoted_path journalPath +:+ ": " +:+ problem) "" (Some journalPath)]
              end
          end
      end
  end.

(** The position of an entry, and the path before it. *)
Fixpoint order_from (path : string) (index : Z) (previous : option string) (listed : list string) : list StructuredReason :=
  match listed with
  | [] => []
  | p :: rest =>
      match previous with
      | Some q =>
          if 0 <=? compareCodePoints q p
          then [unreadable path ("files[" +:+ string_of_Z index +:+ "].path " +:+ quoted_path p +:+ " follows " +:+ quoted_path q
                  +:+ "; expected each path once, in strictly ascending code-point order")]
          else []
      | None => []
      end ++ order_from path (index + 1) (Some p) rest
  end.
Definition inventoryOrderReasons (path : string) (listed : list string) : list StructuredReason := order_from path 0 None listed.

(** [EXECUTION_DIRECTORIES.deploymentAssembly.slice(0, -1)] *)
Definition ASSEMBLY_PATH : string := "admission/deployment-assembly".

Definition inventoryReasons (files : list PackageFile) : Result (list StructuredReason) js_error :=
  let path := path_of "deploymentAssemblyInventory" in
  match fileAt files path with
  | None => Ok []
  | Some f =>
      match parse_record (f_bytes f) "deployment_assembly_inventory" path with
      | Err e => Ok [unreadable path (detail e)]
      | Ok v =>
          let assemblyPath := textOf v "assembly_path" in
          let listed := itemsOf v "files" in
          let recorded := textOf v "inventory_sha256" in
          if negb (bool_decide (assemblyPath = ASSEMBLY_PATH))
          then Ok [unreadable path ("assembly_path is " +:+ quoted_path assemblyPath +:+ "; expected " +:+ quoted_path ASSEMBLY_PATH)]
          else
            let! recomputed := inventoryDigest listed in
            let digestReasons := if bool_decide (recomputed = recorded) then []
              else [unreadable path ("inventory_sha256 is " +:+ recorded +:+ "; expected " +:+ recomputed +:+ ", the digest of its files")] in
            let orderReasons := inventoryOrderReasons path (map (fun e => textOf e "path") listed) in
            let packagePath e := assemblyPath +:+ "/" +:+ textOf e "path" in
            let fileReasons := flat_map (fun e =>
              alteredEntryReason digest "" (MkEntry (packagePath e) (MkClass "" "") (intOf e "bytes") (textOf e "sha256")) (fileAt files (packagePath e))) listed in
            let inventoried := map packagePath listed in
            let extraReasons := map (fun f => ineligibility "ALTERED_BYTES"
                (quoted_path (f_path f) +:+ " is not in the deployment-assembly inventory; expected the frozen assembly only") "" (Some (f_path f)))
              (List.filter (fun f => bool_decide (is_Some (Controller.after_prefix DEPLOYMENT_ASSEMBLY_DIRECTORY (f_path f)))
                                     && negb (memb (f_path f) inventoried)) files) in
            Ok (digestReasons ++ orderReasons ++ fileReasons ++ extraReasons)
      end
  end.

Definition nestedIndexReasons (files : list PackageFile) : Result (list StructuredReason) js_error :=
  let! inventory := inventoryReasons files in
  Ok (flat_map (fun f => evidenceIndexReasons f files) (List.filter isEvidenceIndex files) ++ prefixCheckpointReasons files ++ inventory).

(** ** The verdict (package-verifier.ts) *)

Record PackageSnapshot := MkPackage { ps_files : list PackageFile; ps_special_entries : list FsEntry }.

Record PackageVerificationInput := MkVerificationInput {
  vi_identity : ExecutionIdentity;
  vi_original : PackageSnapshot;
  vi_amendments : list AmendmentSnapshot;
  vi_selected_head : option string;
  vi_referenced_package_indexes : list string;
  vi_evaluated_at : string;
}.

Definition execution_kind_text (identity : ExecutionIdentity) : string :=
  match identity with id_run _ => "RUN" | id_transport_probe _ => "TRANSPORT_PROBE" | id_variant_validation _ => "VARIANT_VALIDATION" end.

Definition SUMMARY_RECORD_TYPES (identity : ExecutionIdentity) : string :=
  match identity with id_run _ => "run_summary" | id_transport_probe _ => "transport_probe_summary" | id_variant_validation _ => "validation_summary" end.
Definition summaryPath (identity : ExecutionIdentity) : string :=
  match identity with
  | id_run _ => path_of "runSummary" | id_transport_probe _ => path_of "transportProbeSummary" | id_variant_validation _ => path_of "validationSummary"
  end.

Definition NON_TERMINAL_CLEANUP : list string := ["not_started"; "running"].

(** The record of a package index, as read back. *)
Record ParsedPackageIndex := MkParsedIndex { px_kind : string; px_correlation : IdentityCarrier; px_execution_manifest_sha256 : string; px_entries : list IndexEntry }.
Definition packageIndexOf (v : json) : ParsedPackageIndex :=
  MkParsedIndex (textOf v "execution_kind") (carrierOf v) (textOf v "execution_manifest_sha256") (map indexEntryOf (itemsOf v "entries")).

Definition index_missing (d : string) : StructuredReason := ineligibility "INDEX_MISSING" (path_of "packageIndex" +:+ " " +:+ d) "" (Some (path_of "packageIndex")).

Definition readPackageIndex (input : PackageVerificationInput) : Result ParsedPackageIndex StructuredReason :=
  match fileAt (ps_files (vi_original input)) (path_of "packageIndex") with
  | None => Err (index_missing "is absent; expected the final package index")
  | Some f =>
      match parse_record (f_bytes f) "package_index" (path_of "packageIndex") with
      | Err e => Err (index_missing ("cannot be read: " +:+ detail e +:+ "; expected the final package index"))
      | Ok v =>
          let index := packageIndexOf v in
          if negb (bool_decide (px_kind index = execution_kind_text (vi_identity input))) || negb (belongsToExecution (px_correlation index) (vi_identity input))
          then Err (index_missing ("indexes execution " +:+ quoted_path (px_kind index) +:+ " of another id; expected the index of this execution"))
          else Ok index
      end
  end.

Definition reference_scope (index : ParsedPackageIndex) (input : PackageVerificationInput) : ReferenceScope :=
  MkRefScope (px_entries index) (ps_files (vi_original input)) (vi_referenced_package_indexes input).

Definition indexed_set (index : ParsedPackageIndex) (input : PackageVerificationInput) : IndexedFileSet :=
  MkSet "" (px_entries index) (ps_files (vi_original input)) (ps_special_entries (vi_original input)) [path_of "packageIndex"].

Definition indexedPackageReasons (index : ParsedPackageIndex) (manifestDigest : string) (input : PackageVerificationInput) :
  Result (list StructuredReason) js_error :=
  let manifestPath := path_of "executionManifest" in
  let manifestReasons := if bool_decide (px_execution_manifest_sha256 index = manifestDigest) then []
    else [ineligibility "ALTERED_BYTES" ("package index names execution_manifest_sha256 " +:+ px_execution_manifest_sha256 index +:+ "; the stored "
            +:+ manifestPath +:+ " hashes to " +:+ manifestDigest) "" (Some manifestPath)] in
  let! nested := nestedIndexReasons (ps_files (vi_original input)) in
  Ok (manifestReasons ++ fileSetIntegrityReasons digest (indexed_set index input) ++ nested
      ++ unresolvedReferenceReasons JSON_parse digest (reference_scope index input)).

Definition nonTerminal (path d : string) : StructuredReason := ineligibility "NON_TERMINAL_STATUS" (path +:+ " " +:+ d) "" (Some path).

Definition summaryReasons (identity : ExecutionIdentity) (files : list PackageFile) : list StructuredReason :=
  let path := summaryPath identity in
  let unusable problem := [nonTerminal path (problem +:+ "; expected the " +:+ SUMMARY_RECORD_TYPES identity +:+ " of this execution")] in
  match fileAt files path with
  | None => unusable "is absent"
  | Some f =>
      match parse_record (f_bytes f) (SUMMARY_RECORD_TYPES identity) path with
      | Err e => unusable ("cannot be read: " +:+ detail e)
      | Ok v =>
          if negb (belongsToExecution (carrierOf v) identity) then [nonTerminal path "names another execution; expected the summary of this execution"]
          else
            let status := textOf v "cleanup_status" in
            if memb status NON_TERMINAL_CLEANUP then [nonTerminal path ("has cleanup_status " +:+ status +:+ "; expected succeeded, partial or failed")] else []
      end
  end.

Definition eligibilityOutcome (reasons : list StructuredReason) : PackageEligibility := match reasons with [] => eligible | _ => ineligible end.

Definition digest_of (files : list PackageFile) (path : string) : string :=
  digest (match fileAt files path with Some f => f_bytes f | None => [] end).

Definition graph_input (input : PackageVerificationInput) : AmendmentGraphInput :=
  let files := ps_files (vi_original input) in
  MkGraphInput (vi_identity input) (digest_of files (path_of "executionManifest")) (digest_of files (path_of "packageIndex"))
    (ra_amendments (readAmendments JSON_parse validator digest (amendmentsDirectory (vi_identity input)) (vi_amendments input))) (vi_selected_head input).

Definition verifyPackage (input : PackageVerificationInput) : Result PackageVerification js_error :=
  let files := ps_files (vi_original input) in
  let originalDigest := digest_of files (path_of "packageIndex") in
  let manifestDigest := digest_of files (path_of "executionManifest") in
  let read := readAmendments JSON_parse validator digest (amendmentsDirectory (vi_identity input)) (vi_amendments input) in
  let graph := resolveAmendmentGraph (graph_input input) in
  let! indexed := match readPackageIndex input with
                  | Ok index => indexedPackageReasons index manifestDigest input
                  | Err e => Ok [e]
                  end in
  let reasons := indexed ++ summaryReasons (vi_identity input) files ++ ra_reasons read ++ g_reasons graph
                 ++ finalAssessmentReasons JSON_parse validator (selected_chain graph) in
  let chain := match vi_selected_head input with None => [] | Some _ => map amendmentLink (selected_chain graph) end in
  Ok (MkVerification (vi_identity input) (eligibilityOutcome reasons) reasons originalDigest (vi_selected_head input) chain (known_descendants graph)
        (vi_evaluated_at input)).
End verifier.
End PackageVerifier.
