(* ===== verification/PackageVerifierCorrect.v ===== *)
(** * What an eligible package is (src/study-1/src/evidence-package/)

    The checkpoint of an open journal holds exactly on the journals that extend its prefix; the inventory's order is code-point
    order; and [verifyPackage] is total and finds a package eligible exactly when every part of it is intact. *)

From S2P Require Import Prelude AttemptLifecycle Timestamps Decimals Utf16 Store JsonText Parsing Journal Controller Evidence ArtifactReading Ingestion Package Amendments AmendmentsCorrect References ReferencesCorrect PackageVerifier Canonical.
Import Json Store Utc Identifiers JsonText Journal.
Import Package Amendments AmendmentsCorrect References ReferencesCorrect PackageVerifier.
Import Ingestion(RecordValidator, textOf, intOf, itemsOf).
Open Scope Z_scope.

Module PackageVerifierCorrect.

(** ** The checkpoint *)

Lemma last_newline_end_bound bytes : (last_newline_end bytes <= length bytes)%nat.
Proof. induction bytes as [|b bytes IH]; simpl; [lia|]. destruct (last_newline_end bytes); [destruct (b =? Parsing.NEWLINE); lia|lia]. Qed.

(** The checkpointed prefix: the journal up to and including its last newline. *)
Definition frozen_prefix (journal : list Z) : list Z := take (last_newline_end journal) journal.

Lemma length_frozen journal : length (frozen_prefix journal) = last_newline_end journal.
Proof. unfold frozen_prefix. rewrite length_take. pose proof (last_newline_end_bound journal). lia. Qed.

(** C36: a prefix checkpoint holds exactly on the journals that extend its prefix. Build the checkpoint of an open journal with a
    digest no other bytes share; then the check of any later journal finds no problem iff that journal starts with
    the frozen prefix, the lines up to the last newline, whatever follows it, a half-written line included. *)
Theorem checkpoint_holds_iff_extended JSON_parse (sha256Hex : list Z -> string) journal probe manifest at_ cp (later : list Z) :
  buildPrefixCheckpoint JSON_parse sha256Hex journal probe manifest at_ = Ok cp ->
  (forall other, sha256Hex other = sha256Hex (frozen_prefix journal) -> other = frozen_prefix journal) ->
  checkPrefixCheckpoint JSON_parse sha256Hex cp later = None <-> frozen_prefix journal `prefix_of` later.
Proof.
  unfold buildPrefixCheckpoint. fold (frozen_prefix journal). destruct (lastPrefixEvent JSON_parse (frozen_prefix journal)) as [last|] eqn:Hl; [|done].
  intros [= <-] Hc. unfold checkPrefixCheckpoint. cbn [cp_prefix_byte_count cp_prefix_sha256 cp_last_event_id cp_last_source_sequence].
  rewrite Nat2Z.id. pose proof (length_frozen journal) as Hlen.
  destruct (Z.ltb_spec (Z.of_nat (length later)) (Z.of_nat (last_newline_end journal))) as [Hlt|Hge].
  { split; [done|]. intros [ext ->]. rewrite length_app in Hlt. lia. }
  case_bool_decide as Hd; cbn [negb].
  - apply Hc in Hd. rewrite Hd, Hl, bool_decide_eq_true_2, Z.eqb_refl by done. split; [|done]. intros _.
    exists (drop (last_newline_end journal) later). by rewrite <- Hd, take_drop.
  - split; [done|]. intros [ext ->]. destruct Hd. f_equal. rewrite <- Hlen. by rewrite take_app_length.
Qed.

(** A journal of one event line and the start of another. *)
Definition demo_open_journal : list Z := [69; 10; 70].
Definition demo_event (t : string) : Result json string :=
  Ok (JObj [("event_id", JStr "0a1b2c3d-0000-4000-8000-000000000001"); ("source_sequence", JNum (JSInt 1))]).

Lemma checkpoint_holds_iff_extended_witness :
  exists cp, buildPrefixCheckpoint demo_event (fun b => if bool_decide (b = [69; 10]) then "p" else "other") demo_open_journal "probe" "m" "t" = Ok cp
    /\ (checkPrefixCheckpoint demo_event (fun b => if bool_decide (b = [69; 10]) then "p" else "other") cp [69; 10; 71; 10] = None
        <-> frozen_prefix demo_open_journal `prefix_of` [69; 10; 71; 10]).
Proof.
  eexists. split; [vm_compute; reflexivity|].
  apply (checkpoint_holds_iff_extended demo_event (fun b => if bool_decide (b = [69; 10]) then "p" else "other") demo_open_journal "probe" "m" "t"); [vm_compute; reflexivity|].
  intros other. change (frozen_prefix demo_open_journal) with [69; 10]. rewrite (bool_decide_eq_true_2 ([69; 10] = [69; 10])) by done.
  by case_bool_decide.
Defined.

(** ** The inventory's order *)

(** The UTF-16 code units of a code point. *)
Definition utf16 (cp : Z) : list Z := if cp <? 0x10000 then [cp] else [0xd800 + (cp - 0x10000) / 1024; 0xdc00 + (cp - 0x10000) mod 1024].

Lemma code_units_encoded cps : Forall Parsing.scalar_value cps -> Utf16.code_units (flat_map Parsing.utf8_encode cps) = flat_map utf16 cps.
Proof.
  induction 1 as [|cp cps [Hr Hs] _ IH]; [done|]. cbn [flat_map]. rewrite <- IH. unfold Parsing.utf8_encode, utf16.
  destruct (Z.ltb_spec cp 0x80); [|destruct (Z.ltb_spec cp 0x800); [|destruct (Z.ltb_spec cp 0x10000)]];
    cbn [app Utf16.code_units]; repeat (match goal with |- context [?a <? ?b] => destruct (Z.ltb_spec a b); try (exfalso; dlia) end); cbn [app].
  - done.
  - f_equal. dlia.
  - f_equal. dlia.
  - assert ((0xf0 + cp / 0x40000 - 0xf0) * 262144 + (0x80 + cp / 0x1000 mod 0x40 - 0x80) * 4096 + (0x80 + cp / 0x40 mod 0x40 - 0x80) * 64
            + (0x80 + cp mod 0x40 - 0x80) - 0x10000 = cp - 0x10000) as -> by dlia. done.
Qed.

(** The order of code points, a prefix first. *)
Fixpoint points_compare (a b : list Z) : comparison :=
  match a, b with
  | [], [] => Eq
  | [], _ => Lt
  | _, [] => Gt
  | x :: a', y :: b' => match x ?= y with Eq => points_compare a' b' | c => c end
  end.

Lemma utf16_differ x y a b :
  Parsing.scalar_value x -> Parsing.scalar_value y -> x <> y ->
  compare_units (utf16 x ++ a) (utf16 y ++ b) ?= 0 = (x ?= y).
Proof.
  intros [Hx Hxs] [Hy Hys] Hne. unfold utf16, codePointRank.
  destruct (Z.ltb_spec x 0x10000), (Z.ltb_spec y 0x10000); cbn [app compare_units];
    repeat (match goal with |- context [?p =? ?q] => destruct (Z.eqb_spec p q); try (exfalso; dlia) end);
    unfold codePointRank, SURROGATE_START, PRIVATE_USE_START;
    repeat (match goal with |- context [?p <? ?q] => destruct (Z.ltb_spec p q); try (exfalso; dlia) end; cbn [orb]);
    repeat (match goal with |- context [?p <=? ?q] => destruct (Z.leb_spec p q); try (exfalso; dlia) end);
    destruct (Z.compare_spec x y); try (exfalso; dlia); first [apply Z.compare_lt_iff|apply Z.compare_gt_iff]; dlia.
Qed.

Lemma compare_units_common p a b : compare_units (p ++ a) (p ++ b) = compare_units a b.
Proof. induction p as [|x p IH]; [done|]. cbn [app compare_units]. by rewrite Z.eqb_refl. Qed.

Lemma utf16_nonempty x : (0 < length (utf16 x))%nat.
Proof. unfold utf16. destruct (x <? 0x10000); simpl; lia. Qed.

(** The inventory is ordered by code points. For any two paths of well-formed text, [compareCodePoints], which reads UTF-16 code
    units and shifts surrogates, is negative, zero or positive as the first path's code points come before, equal or
    come after the second's, a prefix first. *)
Theorem compare_code_points_correct (a b : string) (ca cb : list Z) :
  Forall Parsing.scalar_value ca -> Forall Parsing.scalar_value cb ->
  Parsing.bytes_of a = flat_map Parsing.utf8_encode ca -> Parsing.bytes_of b = flat_map Parsing.utf8_encode cb ->
  (compareCodePoints a b ?= 0) = points_compare ca cb.
Proof.
  intros Ha Hb Ea Eb. unfold compareCodePoints, Utf16.units. rewrite Ea, Eb, !code_units_encoded by done. clear a b Ea Eb.
  revert cb Hb. induction Ha as [|x ca Hx Ha IH]; intros [|y cb] Hb; cbn [flat_map points_compare]; [done| | |].
  - pose proof (utf16_nonempty y). destruct (utf16 y) eqn:E; [simpl in *; lia|]. cbn [app compare_units length]. apply Z.compare_lt_iff. lia.
  - pose proof (utf16_nonempty x). destruct (utf16 x) eqn:E; [simpl in *; lia|]. cbn [app compare_units length]. apply Z.compare_gt_iff. lia.
  - inversion Hb as [|? ? Hy Hb']; subst. destruct (Z.compare_spec x y) as [->|Hlt|Hgt].
    + rewrite compare_units_common. by apply IH.
    + rewrite utf16_differ by (done || lia). by apply Z.compare_lt_iff.
    + rewrite utf16_differ by (done || lia). by apply Z.compare_gt_iff.
Qed.

(** A private-use character and an emoji: their code units are in the opposite order. *)
Lemma compare_code_points_correct_witness :
  (compareCodePoints (Parsing.text_of_bytes (flat_map Parsing.utf8_encode [0xe000])) (Parsing.text_of_bytes (flat_map Parsing.utf8_encode [0x1f600])) ?= 0) = Lt.
Proof.
  apply (compare_code_points_correct _ _ [0xe000] [0x1f600]); [..|vm_compute; reflexivity|vm_compute; reflexivity];
    (apply Forall_singleton; unfold Parsing.scalar_value; lia).
Defined.

(** ** The verifier never throws *)

Import Canonical(canonicalJson_finite).

Lemma parsed_finite JSON_parse bytes v : Parsing.parseJsonDocument JSON_parse bytes = Ok v -> Parsing.all_finite v = true.
Proof.
  unfold Parsing.parseJsonDocument, Parsing.parseJsonText, Parsing.findNonFiniteNumber. destruct (Parsing.decodeUtf8Strict bytes); [|done].
  destruct (JSON_parse _) as [x|]; [|done]. pose proof (Parsing.non_finite_loop_correct (Parsing.json_size x) [(x, "")]) as Hn. cbn in Hn. rewrite andb_true_r in Hn.
  destruct (Parsing.non_finite_loop _ _); [done|]. intros [= <-]. apply Hn; [lia|done].
Qed.

Lemma items_finite v field : Parsing.all_finite v = true -> Parsing.all_finite (JArr (itemsOf v field)) = true.
Proof.
  intros Hf. unfold itemsOf, Ingestion.fieldOf. destruct v as [| | | | |ms]; try done. simpl in Hf.
  assert (Hm : forall x, member field ms = Some x -> Parsing.all_finite x = true).
  { induction ms as [|[k y] ms IH]; [done|]. simpl in *. apply andb_prop in Hf as [Hy Hf]. case_bool_decide; [intros x [= <-]; done|]. by apply IH. }
  destruct (member field ms) as [x|]; [|done]. specialize (Hm x eq_refl). destruct x; try done.
Qed.

Lemma parse_record_Ok JSON_parse validator bytes recordType path v :
  parse_record JSON_parse validator bytes recordType path = Ok v -> Parsing.parseJsonDocument JSON_parse bytes = Ok v.
Proof.
  unfold parse_record, parsePackageRecord. destruct (Parsing.parseJsonDocument JSON_parse bytes); [|done]. destruct (Ingestion.validateAs _ _ _); [|done]. by intros [= <-].
Qed.

Section total.
Context (JSON_parse : string -> Result json string) (sha256Hex : list Z -> string) (validator : RecordValidator) (digest : list Z -> string).

Lemma inventoryDigest_parsed bytes v field :
  Parsing.parseJsonDocument JSON_parse bytes = Ok v -> exists d, inventoryDigest sha256Hex (itemsOf v field) = Ok d.
Proof.
  intros Hp. apply parsed_finite in Hp. destruct (canonicalJson_finite _ (items_finite v field Hp)) as [t Ht]. unfold inventoryDigest. rewrite Ht. by eexists.
Qed.

Lemma nestedIndexReasons_total files : exists r, nestedIndexReasons JSON_parse sha256Hex validator digest files = Ok r.
Proof.
  unfold nestedIndexReasons, inventoryReasons. destruct (fileAt files _) as [f|]; [|by eexists].
  destruct (parse_record _ _ _ _ _) as [v|e] eqn:Hp; [|by eexists]. destruct (negb _); [by eexists|].
  apply parse_record_Ok in Hp. destruct (inventoryDigest_parsed _ _ "files" Hp) as [d Hd]. rewrite Hd. by eexists.
Qed.

(** C35: the verifier is total. Whatever bytes a package and its amendments hold, [verifyPackage] returns a verification: no
    input makes the canonical writer, the only part that can, throw. *)
Theorem verify_package_total (input : PackageVerificationInput) :
  exists v, verifyPackage JSON_parse sha256Hex validator digest input = Ok v.
Proof.
  unfold verifyPackage. destruct (readPackageIndex _ _ _) as [index|e]; [|by eexists]. unfold indexedPackageReasons.
  destruct (nestedIndexReasons_total (ps_files (vi_original input))) as [r ->]. by eexists.
Qed.
End total.

(** ** What eligibility means *)

Section meaning.
Context (JSON_parse : string -> Result json string) (sha256Hex : list Z -> string) (validator : RecordValidator) (digest : list Z -> string).

Definition holds_entry (files : list PackageFile) (e : IndexEntry) : Prop :=
  exists f, fileAt files (ix_artifact_path e) = Some f /\ Z.of_nat (length (f_bytes f)) = ix_bytes e /\ digest (f_bytes f) = ix_sha256 e.

(** The stored files are exactly what the index says, and nothing else is stored. *)
Definition files_intact (set : IndexedFileSet) : Prop :=
  (forall e, e ∈ st_entries set -> exists f, file_by_path (st_files set) (ix_artifact_path e) = Some f
     /\ Z.of_nat (length (f_bytes f)) = ix_bytes e /\ digest (f_bytes f) = ix_sha256 e)
  /\ (forall f, f ∈ st_files set -> f_path f ∈ map ix_artifact_path (st_entries set) \/ f_path f ∈ st_unlisted set)
  /\ st_special_entries set = [].

(** An evidence index still describes the files it froze. *)
Definition evidence_index_intact (files : list PackageFile) (f : PackageFile) : Prop :=
  exists v, parse_record JSON_parse validator (f_bytes f) "evidence_index" (f_path f) = Ok v
    /\ forall e, e ∈ map indexEntryOf (itemsOf v "entries") -> holds_entry files e.

(** The probe's checkpoint, where the package has one, holds of its journal. *)
Definition checkpoint_intact (files : list PackageFile) : Prop :=
  forall f, fileAt files (path_of "coordinationPrefixCheckpoint") = Some f ->
  exists v journal, parse_record JSON_parse validator (f_bytes f) "coordination_prefix_checkpoint" (path_of "coordinationPrefixCheckpoint") = Ok v
    /\ fileAt files (cp_journal_path (checkpointOf v)) = Some journal
    /\ checkPrefixCheckpoint JSON_parse sha256Hex (checkpointOf v) (f_bytes journal) = None.

Definition assembly_entry (e : json) : IndexEntry :=
  MkEntry (ASSEMBLY_PATH +:+ "/" +:+ textOf e "path") (MkClass "" "") (intOf e "bytes") (textOf e "sha256").

(** The assembly inventory, where the package has one, lists the assembly's files, once each, in order, and no others are stored. *)
Definition inventory_intact (files : list PackageFile) : Prop :=
  forall f, fileAt files (path_of "deploymentAssemblyInventory") = Some f ->
  exists v, parse_record JSON_parse validator (f_bytes f) "deployment_assembly_inventory" (path_of "deploymentAssemblyInventory") = Ok v
    /\ textOf v "assembly_path" = ASSEMBLY_PATH
    /\ inventoryDigest sha256Hex (itemsOf v "files") = Ok (textOf v "inventory_sha256")
    /\ (forall i p q, map (fun e => textOf e "path") (itemsOf v "files") !! i = Some p -> map (fun e => textOf e "path") (itemsOf v "files") !! S i = Some q ->
          compareCodePoints p q < 0)
    /\ (forall e, e ∈ itemsOf v "files" -> holds_entry files (assembly_entry e))
    /\ (forall f, f ∈ files -> is_Some (Controller.after_prefix DEPLOYMENT_ASSEMBLY_DIRECTORY (f_path f)) ->
          f_path f ∈ map (fun e => ASSEMBLY_PATH +:+ "/" +:+ textOf e "path") (itemsOf v "files")).

(** The summary of the execution is stored, is its own, and its cleanup ended. *)
Definition summary_terminal (identity : ExecutionIdentity) (files : list PackageFile) : Prop :=
  exists f v, fileAt files (summaryPath identity) = Some f
    /\ parse_record JSON_parse validator (f_bytes f) (SUMMARY_RECORD_TYPES identity) (summaryPath identity) = Ok v
    /\ carrierOf v = carrier_of identity /\ textOf v "cleanup_status" ∉ NON_TERMINAL_CLEANUP.

(** The amendment's index parses and its payload is exactly what the index says. *)
Definition amendment_intact (location : string) (s : AmendmentSnapshot) : Prop :=
  exists f v, fileAt (as_files s) AMENDMENT_INDEX = Some f /\ parse_record JSON_parse validator (f_bytes f) "amendment_index" AMENDMENT_INDEX = Ok v
    /\ files_intact (MkSet location (ai_entries (amendmentIndexOf v)) (as_files s) (as_special_entries s) [AMENDMENT_INDEX]).

(** The last assessing amendment of the chain, if any, holds a readable assessment that is not contradictory. *)
Definition noncontradictory (chain : list ParsedAmendment) : Prop :=
  forall last, last_opt (List.filter assessing chain) = Some last ->
  exists f v, fileAt (pa_files last) LATE_EVIDENCE_ASSESSMENT = Some f
    /\ parse_record JSON_parse validator (f_bytes f) "late_evidence_assessment" LATE_EVIDENCE_ASSESSMENT = Ok v
    /\ textOf v "late_evidence_status" <> "contradictory".

(** *** Each group of reasons *)

Lemma alteredEntry_nil location e files : alteredEntryReason digest location e (fileAt files (ix_artifact_path e)) = [] <-> holds_entry files e.
Proof. apply alteredEntryReason_nil. Qed.

Lemma evidenceIndexReasons_nil f files : evidenceIndexReasons JSON_parse validator digest f files = [] <-> evidence_index_intact files f.
Proof.
  unfold evidenceIndexReasons, evidence_index_intact. destruct (parse_record _ _ _ _ _) as [v|e]; [|split; [done|by intros (? & [=] & _)]].
  rewrite flat_map_nil. setoid_rewrite map_nil_iff. setoid_rewrite alteredEntry_nil. split; [intros H; by exists v|by intros (? & [= <-] & H)].
Qed.

Lemma prefixCheckpointReasons_nil files : prefixCheckpointReasons JSON_parse sha256Hex validator files = [] <-> checkpoint_intact files.
Proof.
  unfold prefixCheckpointReasons, checkpoint_intact. destruct (fileAt files _) as [f|]; [|done].
  destruct (parse_record _ _ _ _ _) as [v|e] eqn:Hp; [|split; [done|intros H; destruct (H f eq_refl) as (? & ? & ? & _); congruence]].
  destruct (fileAt files (cp_journal_path (checkpointOf v))) as [j|] eqn:Hj.
  - destruct (checkPrefixCheckpoint _ _ _ _) eqn:Hc; (split; [try done|]).
    + intros H. destruct (H f eq_refl) as (? & ? & Hp' & Hj' & Hc'). rewrite Hp in Hp'. simplify_eq.
    + intros _ ? [= <-]. by exists v, j.
    + done.
  - split; [done|]. intros H. destruct (H f eq_refl) as (? & ? & Hp' & Hj' & _). rewrite Hp in Hp'. by simplify_eq.
Qed.

Lemma order_from_nil path index previous listed :
  order_from path index previous listed = [] <->
  (forall q p, previous = Some q -> head listed = Some p -> compareCodePoints q p < 0)
  /\ forall i p q, listed !! i = Some p -> listed !! S i = Some q -> compareCodePoints p q < 0.
Proof.
  revert index previous. induction listed as [|x listed IH]; intros index previous; cbn [order_from]; [by split|].
  rewrite app_nil, IH. assert (Hstep : (forall i p q, (x :: listed) !! i = Some p -> (x :: listed) !! S i = Some q -> compareCodePoints p q < 0)
    <-> (forall q p, Some x = Some q -> head listed = Some p -> compareCodePoints q p < 0)
        /\ forall i p q, listed !! i = Some p -> listed !! S i = Some q -> compareCodePoints p q < 0).
  { split.
    - intros H. split; [|intros i p q Hp Hq; by apply (H (S i))]. intros q p [= <-] Hp. apply (H 0%nat); [done|]. simpl. by rewrite <- head_lookup.
    - intros [H1 H2] [|i] p q Hp Hq; [|by apply (H2 i)]. simpl in Hp, Hq. apply (H1 p q Hp). by rewrite head_lookup. }
  rewrite <- Hstep. destruct previous as [q|]; [|naive_solver]. destruct (Z.leb_spec 0 (compareCodePoints q x)).
  - split; [by intros [? _]|]. intros [H' _]. specialize (H' q x eq_refl eq_refl). lia.
  - split; [intros [_ ?]; split; [|done]|tauto]. intros ? ? [= <-] [= <-]. done.
Qed.

Lemma inventoryReasons_nil files : inventoryReasons JSON_parse sha256Hex validator digest files = Ok [] <-> inventory_intact files.
Proof.
  unfold inventoryReasons, inventory_intact. destruct (fileAt files _) as [f|]; [|done].
  destruct (parse_record _ _ _ _ _) as [v|e] eqn:Hp; [|split; [done|intros H; destruct (H f eq_refl) as (? & ? & _); congruence]].
  case_bool_decide as Ha; cbn [negb]; [|split; [done|intros H; destruct (H f eq_refl) as (? & ? & ? & _); congruence]].
  destruct (inventoryDigest_parsed JSON_parse sha256Hex _ _ "files" (parse_record_Ok _ _ _ _ _ _ Hp)) as [d Hd]. rewrite Hd. cbn [bind_result].
  rewrite Ha.
  transitivity (d = textOf v "inventory_sha256" /\ inventoryOrderReasons (path_of "deploymentAssemblyInventory") (map (fun e => textOf e "path") (itemsOf v "files")) = []
    /\ (forall e, e ∈ itemsOf v "files" -> holds_entry files (assembly_entry e))
    /\ (forall f, f ∈ files -> is_Some (Controller.after_prefix DEPLOYMENT_ASSEMBLY_DIRECTORY (f_path f)) ->
          f_path f ∈ map (fun e => ASSEMBLY_PATH +:+ "/" +:+ textOf e "path") (itemsOf v "files"))).
  - setoid_rewrite <- alteredEntry_nil.
    transitivity ((if bool_decide (d = textOf v "inventory_sha256") then [] else [unreadable (path_of "deploymentAssemblyInventory") ("inventory_sha256 is " +:+ textOf v "inventory_sha256" +:+ "; expected " +:+ d +:+ ", the digest of its files")]) = []
      /\ inventoryOrderReasons (path_of "deploymentAssemblyInventory") (map (fun e => textOf e "path") (itemsOf v "files")) = []
      /\ flat_map (fun e => alteredEntryReason digest "" (assembly_entry e) (fileAt files (ix_artifact_path (assembly_entry e)))) (itemsOf v "files") = []
      /\ List.filter (fun f => bool_decide (is_Some (Controller.after_prefix DEPLOYMENT_ASSEMBLY_DIRECTORY (f_path f)))
           && negb (memb (f_path f) (map (fun e => ASSEMBLY_PATH +:+ "/" +:+ textOf e "path") (itemsOf v "files")))) files = []).
    + split.
      * intros [= H]. rewrite !app_nil, map_nil_iff in H. exact H.
      * intros H. f_equal. rewrite !app_nil, map_nil_iff. exact H.
    + rewrite flat_map_nil, filter_nil. setoid_rewrite andb_false_iff. setoid_rewrite negb_false_iff. setoid_rewrite memb_true. setoid_rewrite bool_decide_eq_false.
      case_bool_decide; split; [| |by intros [[=] _]|by intros [? _]]; intros (H1 & H2 & H3 & H4); (split_and!; [done|done|done|]).
      * intros g Hg Hs. by destruct (H4 g Hg).
      * intros g Hg. destruct (decide (is_Some (Controller.after_prefix DEPLOYMENT_ASSEMBLY_DIRECTORY (f_path g)))) as [Hs|Hs]; [right; by apply H4|by left].
  - unfold inventoryOrderReasons. rewrite order_from_nil. split.
    + intros (-> & [_ Ho] & He & Hx) ? [= <-]. exists v. by split_and!.
    + intros H. destruct (H f eq_refl) as (? & Hp' & _ & Hd' & Ho & He & Hx). rewrite Hp in Hp'. simplify_eq. rewrite Hd in Hd'. simplify_eq. by split_and!.
Qed.

Lemma nestedIndexReasons_nil files r :
  nestedIndexReasons JSON_parse sha256Hex validator digest files = Ok r ->
  r = [] <-> (forall f, f ∈ files -> isEvidenceIndex f = true -> evidence_index_intact files f) /\ checkpoint_intact files /\ inventory_intact files.
Proof.
  unfold nestedIndexReasons. destruct (inventoryReasons _ _ _ _ files) as [inv|] eqn:Hi; [|done]. intros [= <-].
  rewrite !app_nil, flat_map_nil, prefixCheckpointReasons_nil, <- inventoryReasons_nil, Hi. setoid_rewrite evidenceIndexReasons_nil.
  setoid_rewrite elem_of_filter_bool. split.
  - intros (H1 & H2 & ->). split_and!; [|done|done]. intros f Hf He. by apply H1.
  - intros (H1 & H2 & [= ->]). split_and!; [|done|done]. intros f [Hf He]. by apply H1.
Qed.

Lemma summaryReasons_nil identity files : summaryReasons JSON_parse validator identity files = [] <-> summary_terminal identity files.
Proof.
  unfold summaryReasons, summary_terminal. destruct (fileAt files (summaryPath identity)) as [f|]; [|split; [done|by intros (? & ? & [=] & _)]].
  destruct (parse_record _ _ _ _ _) as [v|e] eqn:Hp; [|split; [done|intros (? & ? & [= <-] & ? & _); congruence]].
  setoid_rewrite <- memb_false. destruct (belongsToExecution (carrierOf v) identity) eqn:Hb; cbn [negb].
  - apply belongsToExecution_true in Hb. destruct (memb _ _) eqn:Hm; split; try done.
    + intros (? & ? & [= <-] & Hp' & _ & Hm'). rewrite Hp in Hp'. simplify_eq. congruence.
    + intros _. by exists f, v.
  - split; [done|]. intros (? & ? & [= <-] & Hp' & Hb' & _). rewrite Hp in Hp'. simplify_eq. apply belongsToExecution_true in Hb'. congruence.
Qed.

Lemma readAmendments_nil directory snapshots :
  ra_reasons (readAmendments JSON_parse validator digest directory snapshots) = [] <->
  forall s, s ∈ snapshots -> amendment_intact (directory +:+ "/" +:+ as_directory s +:+ "/") s.
Proof.
  unfold readAmendments. cbn [ra_reasons]. rewrite flat_map_nil.
  assert (Hone : forall location s, ra_reasons (readAmendment JSON_parse validator digest location s) = [] <-> amendment_intact location s).
  { intros location s. unfold readAmendment, amendment_intact. destruct (fileAt (as_files s) AMENDMENT_INDEX) as [f|]; [|split; [done|by intros (? & ? & [=] & _)]].
    fold (parse_record JSON_parse validator (f_bytes f) "amendment_index" AMENDMENT_INDEX).
    destruct (parse_record _ _ _ _ _) as [v|e] eqn:Hp; [|split; [done|intros (? & ? & [= <-] & ? & _); congruence]].
    cbn [ra_reasons]. rewrite fileSetIntegrityReasons_nil. split.
    - intros H. by exists f, v.
    - intros (? & ? & [= <-] & Hp' & H). rewrite Hp in Hp'. by simplify_eq. }
  split.
  - intros H s Hs. apply Hone. apply H. by apply (list_elem_of_fmap_2 (fun s => readAmendment JSON_parse validator digest (directory +:+ "/" +:+ as_directory s +:+ "/") s)).
  - intros H r Hr. apply list_elem_of_fmap in Hr as (s & -> & Hs). apply Hone. by apply H.
Qed.

Lemma finalAssessmentReasons_nil chain : finalAssessmentReasons JSON_parse validator chain = [] <-> noncontradictory chain.
Proof.
  unfold finalAssessmentReasons, noncontradictory. destruct (last_opt _) as [a|]; [|done].
  destruct (fileAt (pa_files a) LATE_EVIDENCE_ASSESSMENT) as [f|] eqn:Hf; cbn [mbind option_bind].
  2: { split; [done|]. intros H. destruct (H a eq_refl) as (? & ? & ? & _). congruence. }
  fold (parse_record JSON_parse validator (f_bytes f) "late_evidence_assessment" LATE_EVIDENCE_ASSESSMENT).
  destruct (parse_record _ _ _ _ _) as [v|e] eqn:Hp.
  2: { split; [done|]. intros H. destruct (H a eq_refl) as (? & ? & Hf' & Hp' & _). rewrite Hf in Hf'. simplify_eq. congruence. }
  case_bool_decide as Hc; split; try done.
  - intros H. destruct (H a eq_refl) as (? & ? & Hf' & Hp' & Hn). rewrite Hf in Hf'. simplify_eq. rewrite Hp in Hp'. by simplify_eq.
  - intros _ ? [= <-]. by exists f, v.
Qed.

(** The original package is intact: its index is its own, and every stored byte and every reference is as indexed. *)
Definition original_intact (input : PackageVerificationInput) (index : ParsedPackageIndex) : Prop :=
  let files := ps_files (vi_original input) in
  readPackageIndex JSON_parse validator input = Ok index
  /\ px_execution_manifest_sha256 index = digest_of digest files (path_of "executionManifest")
  /\ files_intact (indexed_set index input)
  /\ (forall f, f ∈ files -> isEvidenceIndex f = true -> evidence_index_intact files f) /\ checkpoint_intact files /\ inventory_intact files
  /\ (forall path, path ∈ derived_records (reference_scope index input) -> record_resolves JSON_parse digest (reference_scope index input) path).

End meaning.

(** C34: eligibility means every part is intact. Whatever the package and amendments hold, and where no two
    prefixes of the indexed runner journal share a digest, [verifyPackage] finds the package eligible iff: its index is this
    execution's and names the stored manifest; the stored files are exactly the indexed ones; the evidence indexes, the
    prefix checkpoint and the assembly inventory inside it still describe the files they froze; every reference of a derived record
    resolves; the summary is the execution's and its cleanup ended; every amendment directory holds a valid index and exactly its
    payload; the amendments form one linked chain that ends at the selected head; and the chain's last assessment is
    readable and not contradictory. *)
Theorem package_eligible_iff_intact JSON_parse sha256Hex validator digest (input : PackageVerificationInput) v :
  verifyPackage JSON_parse sha256Hex validator digest input = Ok v ->
  (forall index, readPackageIndex JSON_parse validator input = Ok index ->
     forall p q, line_prefix (journal_bytes digest (reference_scope index input)) p -> line_prefix (journal_bytes digest (reference_scope index input)) q ->
     digest p = digest q -> p = q) ->
  package_eligibility v = eligible <->
  (exists index, original_intact JSON_parse sha256Hex validator digest input index)
  /\ summary_terminal JSON_parse validator (vi_identity input) (ps_files (vi_original input))
  /\ (forall s, s ∈ vi_amendments input -> amendment_intact JSON_parse validator digest (amendmentsDirectory (vi_identity input) +:+ "/" +:+ as_directory s +:+ "/") s)
  /\ exists chain, complete_chain (graph_input JSON_parse validator digest input) chain /\ noncontradictory JSON_parse validator chain.
Proof.
  unfold verifyPackage. intros Hv Hd. apply bind_result_ok in Hv as (indexed & Hi & [= <-]). cbn [package_eligibility].
  transitivity (indexed = [] /\ summaryReasons JSON_parse validator (vi_identity input) (ps_files (vi_original input)) = []
    /\ ra_reasons (readAmendments JSON_parse validator digest (amendmentsDirectory (vi_identity input)) (vi_amendments input)) = []
    /\ g_reasons (resolveAmendmentGraph (graph_input JSON_parse validator digest input)) = []
    /\ finalAssessmentReasons JSON_parse validator (selected_chain (resolveAmendmentGraph (graph_input JSON_parse validator digest input))) = []).
  { rewrite <- !app_nil. unfold eligibilityOutcome. by destruct (indexed ++ _). }
  rewrite summaryReasons_nil, readAmendments_nil, finalAssessmentReasons_nil, graph_accepted.
  assert (Horig : indexed = [] <-> exists index, original_intact JSON_parse sha256Hex validator digest input index).
  { unfold original_intact. destruct (readPackageIndex JSON_parse validator input) as [index|e] eqn:Hx.
    2: { injection Hi as <-. split; [done|by intros (? & [=] & _)]. }
    specialize (Hd index eq_refl). unfold indexedPackageReasons in Hi. apply bind_result_ok in Hi as (nested & Hn & [= <-]).
    rewrite !app_nil, (nestedIndexReasons_nil _ _ _ _ _ _ Hn). rewrite fileSetIntegrityReasons_nil.
    pose proof (proj2 (records_reasons_ok JSON_parse digest (reference_scope index input) Hd (derived_records (reference_scope index input)) empty_cache (empty_cache_ok _ _ _))) as Hrefs.
    fold (unresolvedReferenceReasons JSON_parse digest (reference_scope index input)) in Hrefs. rewrite Hrefs.
    split.
    - intros (Hm & Hf & (H1 & H2 & H3) & Hr). exists index. split; [done|]. case_bool_decide as He; [|done]. exact (conj He (conj Hf (conj H1 (conj H2 (conj H3 Hr))))).
    - intros (? & [= <-] & Hm & Hf & H1 & H2 & H3 & Hr). rewrite bool_decide_eq_true_2 by done. exact (conj eq_refl (conj Hf (conj (conj H1 (conj H2 H3)) Hr))). }
  rewrite Horig. split; intros (Ho & Hs & Ha & H); (split; [exact Ho|]); (split; [exact Hs|]); (split; [exact Ha|]).
  - destruct H as [(chain & Hc & He) Hnc]. exists chain. by rewrite He in Hnc.
  - destruct H as (chain & Hc & Hnc). assert (He : selected_chain (resolveAmendmentGraph (graph_input JSON_parse validator digest input)) = chain).
    { by apply complete_selected in Hc. }
    split; [by exists chain|by rewrite He].
Qed.

(** A small package: a manifest, a terminal summary that refers to the manifest, and their index. *)
Definition demo_run_files : list PackageFile := [MkFile "admission/execution-manifest.json" [77]; MkFile "summary/run-summary.json" [83]].
Definition demo_run_reads (t : string) : Result json string :=
  if bool_decide (t = "I")
  then Ok (JObj [("execution_kind", JStr "RUN"); ("run_id", JStr "r"); ("execution_manifest_sha256", JStr (demo_digest [77]));
                 ("entries", JArr (map (fun f => entry_json (entry_of demo_digest f (if bool_decide (f_bytes f = [77]) then primary "execution_manifest" else derived "run_summary"))) demo_run_files))])
  else Ok (JObj [("run_id", JStr "r"); ("cleanup_status", JStr "succeeded");
                 ("execution_manifest_ref", JObj [("artifact_path", JStr "admission/execution-manifest.json"); ("artifact_sha256", JStr (demo_digest [77]))])]).
Definition demo_run : PackageVerificationInput :=
  MkVerificationInput (id_run "r") (MkPackage (demo_run_files ++ [MkFile "package-index.json" [73]]) []) [] None [] "t".

Lemma package_eligible_iff_intact_witness :
  exists v, verifyPackage demo_run_reads demo_digest demo_validator demo_digest demo_run = Ok v /\ package_eligibility v = eligible
    /\ (package_eligibility v = eligible <->
        (exists index, original_intact demo_run_reads demo_digest demo_validator demo_digest demo_run index)
        /\ summary_terminal demo_run_reads demo_validator (id_run "r") (ps_files (vi_original demo_run))
        /\ (forall s, s ∈ vi_amendments demo_run -> amendment_intact demo_run_reads demo_validator demo_digest (amendmentsDirectory (id_run "r") +:+ "/" +:+ as_directory s +:+ "/") s)
        /\ exists chain, complete_chain (graph_input demo_run_reads demo_validator demo_digest demo_run) chain /\ noncontradictory demo_run_reads demo_validator chain).
Proof.
  eexists. split; [vm_compute; reflexivity|]. split; [reflexivity|].
  apply (package_eligible_iff_intact demo_run_reads demo_digest demo_validator demo_digest demo_run); [vm_compute; reflexivity|].
  intros index Hi. assert (Hj : journal_bytes demo_digest (reference_scope index demo_run) = []).
  { assert (index = match readPackageIndex demo_run_reads demo_validator demo_run with Ok i => i | Err _ => index end) as -> by (by rewrite Hi). vm_compute. reflexivity. }
  rewrite Hj. intros p q (n & Hn & _). pose proof (line_end_bound _ _ Hn) as Hb. destruct Hn as [Hn _]. simpl in Hb. lia.
Defined.
End PackageVerifierCorrect.
