(* ===== verification/Comparison.v ===== *)
(** * The comparison of a run (src/study-1/src/study-comparison/)

    The reasons of the study comparison (comparison-reasons.ts), the terminal reason and the lease status of a run
    (run-terminal-reason.ts), its evidence integrity (run-evidence-integrity.ts), the equality of its trials (equality-sheets.ts,
    equality-evaluation.ts), the eligibility of the comparison (comparison-eligibility.ts) with the leak capability
    it reads (cleanup/leak-capability.ts), the comparison record (comparison-assessment.ts) and the run summary
    (run-summary.ts). A tuple of four trials is a [Four]; a map by trial is a list in insertion order. *)

From S2P Require Import Prelude AttemptLifecycle Timestamps Decimals Store JsonText Parsing LeaseHealth Journal ControlItems RequestState Safety TrialMessage Evidence Oracle Package Amendments.
Import Json Store JsonText Journal.
Import ControlItems(Scenario, CONTROL, COMMIT_THEN_TIMEOUT, scenario_text).
Import TrialMessage(VariantId, v_conventional, v_durable, variant_text).
Import Evidence(EvidenceRef, MkRef, ref_path, ref_sha256, sortEvidenceRefs, compareEvidenceRefs, PreservationVerdict, v_pass, v_fail, v_indeterminate,
  CauseValue, cause_invalid, cause_unverified, GateValue, value_text).
Import Package(path_of, unitFile, unit_trial).
Import Amendments(TerminalCleanupStatus, CleanupStatus, not_started, running, terminal, LeakAuditStatus, clean, leaks_detected, inconclusive,
  PackageEligibility, eligible, ineligible).
Open Scope Z_scope.

Module Comparison.

#[local] Existing Instance LeaseHealth.LeaseEvent_eq_dec.
#[local] Existing Instance LeaseHealth.LeaseStatus_eq_dec.
#[local] Existing Instance Amendments.TerminalCleanupStatus_eq_dec.
#[local] Existing Instance Amendments.LeakAuditStatus_eq_dec.
#[local] Existing Instance TrialMessage.VariantId_eq_dec.
#[local] Existing Instance ControlItems.Scenario_eq_dec.
#[local] Existing Instance Evidence.CauseValue_eq_dec.
#[local] Existing Instance Evidence.GateValue_eq_dec.
#[local] Existing Instance Oracle.TrialValidity_eq_dec.
#[export] Instance js_error_eq_dec : EqDecision js_error.
Proof. solve_decision. Defined.
#[export] Instance Result_eq_dec {T E} `{EqDecision T} `{EqDecision E} : EqDecision (Result T E).
Proof. solve_decision. Defined.
#[export] Instance CleanupStatus_eq_dec : EqDecision CleanupStatus.
Proof. solve_decision. Defined.

(** ** Reasons and references (comparison-reasons.ts) *)

Definition comparisonReason (c s d : string) (artifactPath : option string) : StructuredReason := MkReason c s artifactPath None d.

Definition text_or_null (o : option string) : json := match o with Some s => JStr s | None => JNull end.

(** The key of a reason; [canonicalJson] could throw, and does not on texts. *)
Definition reason_key (r : StructuredReason) : Result string js_error :=
  canonicalJson (JObj [("code", JStr (code r)); ("subject", JStr (subject r)); ("artifact_path", text_or_null (artifact_path r));
                       ("event_id", text_or_null (event_id r)); ("detail", JStr (detail r))]).

Fixpoint unseen (seen : list (Result string js_error)) (rs : list StructuredReason) : list StructuredReason :=
  match rs with
  | [] => []
  | r :: rs' => let k := reason_key r in if bool_decide (k ∈ seen) then unseen seen rs' else r :: unseen (k :: seen) rs'
  end.

Definition uniqueReasons (rs : list StructuredReason) : list StructuredReason := unseen [] rs.

(** One turn of the loop that keeps a reference unless it repeats the last one kept. *)
Definition keep_ref (kept : list EvidenceRef) (ref : EvidenceRef) : list EvidenceRef :=
  match last kept with
  | Some last => match compareEvidenceRefs last ref with Eq => kept | _ => kept ++ [ref] end
  | None => kept ++ [ref]
  end.

Definition uniqueSortedRefs (refs : list EvidenceRef) : list EvidenceRef := fold_left keep_ref (sortEvidenceRefs refs) [].

(** ** Records *)

(** A package-relative path with the digest of the bytes stored there. *)
Record ArtifactRef := MkArtifactRef { ar_path : string; ar_sha256 : string }.

Definition evidence_ref (r : ArtifactRef) : EvidenceRef := MkRef (ar_path r) (ar_sha256 r) None None None.

Record FrozenRecord (T : Type) := MkFrozen { record : T; ref : ArtifactRef }.
Arguments MkFrozen {T} record ref.
Arguments record {T}.
Arguments ref {T}.

(** A tuple of four. *)
Record Four (T : Type) := MkFour { first : T; second : T; third : T; fourth : T }.
Arguments MkFour {T}.
Arguments first {T}.
Arguments second {T}.
Arguments third {T}.
Arguments fourth {T}.
Definition of_four {T} (f : Four T) : list T := [first f; second f; third f; fourth f].
Definition map_four {T U} (g : T -> U) (f : Four T) : Four U := MkFour (g (first f)) (g (second f)) (g (third f)) (g (fourth f)).

Record DeclaredTrial := MkDeclared { sequence : Z; trial_id : string; variant_id : VariantId; scenario : Scenario }.

(** A map by trial id. *)
Definition OracleResultsByTrial : Type := list (string * FrozenRecord Oracle.OracleResult).
Definition result_of (results : OracleResultsByTrial) (id : string) : option (FrozenRecord Oracle.OracleResult) := Evidence.map_get id results.

(** ** The terminal reason of a run (run-terminal-reason.ts) *)

Inductive ExecutionPhase :=
| LEASE_ACQUISITION | PROVISIONING | READINESS | TRIALS | PROBE_FREEZE | LATE_MONITORING | CLEANUP | LEASE_FINALIZATION | SUMMARY.
#[export] Instance ExecutionPhase_eq_dec : EqDecision ExecutionPhase.
Proof. solve_decision. Defined.

Inductive StepStatus := started | step_succeeded | step_failed | skipped.
#[export] Instance StepStatus_eq_dec : EqDecision StepStatus.
Proof. solve_decision. Defined.

Inductive InterruptionCause := cause_LEASE_LOST | cause_OPERATOR_ABORT | cause_SAFETY_DEADLINE | cause_INTERRUPTED.

Inductive RunTerminalReason :=
| COMPLETED | LEASE_ACQUISITION_FAILED | LEASE_LOST | PROVISIONING_FAILED | TRIAL_INCOMPLETE | SAFETY_DEADLINE | OPERATOR_ABORT | INTERRUPTED
| CLEANUP_INCOMPLETE | LEAK_AUDIT_NOT_CLEAN | EVIDENCE_FINALIZATION_FAILED.
#[export] Instance RunTerminalReason_eq_dec : EqDecision RunTerminalReason.
Proof. solve_decision. Defined.

(** What a journal event says, besides when it occurred. *)
Inductive RunnerFact :=
| phase_transition_recorded (phase : ExecutionPhase) (status : StepStatus)
| trial_interrupted (cause : InterruptionCause)
| lease_event_recorded (event : LeaseHealth.LeaseEvent).

Record Timed (T : Type) := MkTimed { occurred_at : string; fact : T }.
Arguments MkTimed {T}.
Arguments occurred_at {T}.
Arguments fact {T}.

Definition RunnerEvent : Type := Timed RunnerFact.

Record RunTerminalInput := MkTerminalInput {
  events : list RunnerEvent;
  all_trials_frozen : bool;
  ti_cleanup_status : option CleanupStatus;
  ti_leak_audit_status : option LeakAuditStatus;
}.

Definition FAILED_PHASE_REASONS (p : ExecutionPhase) : option RunTerminalReason :=
  match p with
  | LEASE_ACQUISITION => Some LEASE_ACQUISITION_FAILED
  | PROVISIONING => Some PROVISIONING_FAILED
  | READINESS | TRIALS => Some TRIAL_INCOMPLETE
  | _ => None
  end.

Definition LEASE_EVENT_REASONS (e : LeaseHealth.LeaseEvent) : option RunTerminalReason :=
  match e with
  | LeaseHealth.EvACQUISITION_FAILED => Some LEASE_ACQUISITION_FAILED
  | LeaseHealth.EvLOST_OWNERSHIP_MISMATCH | LeaseHealth.EvLOST_STALE => Some LEASE_LOST
  | _ => None
  end.

Definition FINAL_LEASE_EVENTS (e : LeaseHealth.LeaseEvent) : option LeaseHealth.LeaseStatus :=
  match e with
  | LeaseHealth.EvRELEASED => Some LeaseHealth.released
  | LeaseHealth.EvRECOVERY_REQUIRED => Some LeaseHealth.recovery_required
  | LeaseHealth.EvRELEASE_FAILED | LeaseHealth.EvSTATE_UNVERIFIED => Some LeaseHealth.unverified
  | _ => None
  end.

(** The cause of an interruption is the terminal reason of the same name. *)
Definition reason_of_cause (c : InterruptionCause) : RunTerminalReason :=
  match c with
  | cause_LEASE_LOST => LEASE_LOST
  | cause_OPERATOR_ABORT => OPERATOR_ABORT
  | cause_SAFETY_DEADLINE => SAFETY_DEADLINE
  | cause_INTERRUPTED => INTERRUPTED
  end.

Definition stoppingReason (f : RunnerFact) : option RunTerminalReason :=
  match f with
  | phase_transition_recorded phase status => if bool_decide (status = step_failed) then FAILED_PHASE_REASONS phase else None
  | trial_interrupted cause => Some (reason_of_cause cause)
  | lease_event_recorded event => LEASE_EVENT_REASONS event
  end.

(** The comparator of two texts: [a <= b]. *)
Definition inTimeOrder {T} (evs : list (Timed T)) : list (Timed T) := isort (fun a b => String.leb (occurred_at a) (occurred_at b)) evs.

Definition summary_failed (f : RunnerFact) : bool :=
  match f with phase_transition_recorded phase status => bool_decide (phase = SUMMARY) && bool_decide (status = step_failed) | _ => false end.

Definition deriveRunTerminalReason (input : RunTerminalInput) : RunTerminalReason :=
  match head (omap (fun e => stoppingReason (fact e)) (inTimeOrder (events input))) with
  | Some reason => reason
  | None =>
      if negb (all_trials_frozen input) then TRIAL_INCOMPLETE
      else if negb (bool_decide (ti_cleanup_status input = Some (terminal Amendments.succeeded))) then CLEANUP_INCOMPLETE
      else if negb (bool_decide (ti_leak_audit_status input = Some clean)) then LEAK_AUDIT_NOT_CLEAN
      else if existsb (fun e => summary_failed (fact e)) (events input) then EVIDENCE_FINALIZATION_FAILED else COMPLETED
  end.

Definition finalLeaseStatus (evs : list (Timed LeaseHealth.LeaseEvent)) : LeaseHealth.LeaseStatus :=
  nullish (last (omap (fun e => FINAL_LEASE_EVENTS (fact e)) (inTimeOrder evs))) LeaseHealth.unverified.

(** ** The evidence integrity of a run (run-evidence-integrity.ts) *)

Inductive RunEvidenceIntegrity := integrity_verified | integrity_lower (status : CauseValue) (reasons : list StructuredReason).

Definition integrity_reasons (i : RunEvidenceIntegrity) : list StructuredReason := match i with integrity_verified => [] | integrity_lower _ rs => rs end.
Definition integrity_status (i : RunEvidenceIntegrity) : GateValue :=
  match i with
  | integrity_verified => Evidence.verified
  | integrity_lower cause_invalid _ => Evidence.invalid
  | integrity_lower cause_unverified _ => Evidence.unverified
  end.

Record Finding := MkFinding { f_value : CauseValue; f_reason : StructuredReason }.

Definition oracleResultPath (id : string) : string := unitFile (unit_trial id) "oracleResult".

Definition missingOracleResultReason (id : string) : StructuredReason :=
  let path := oracleResultPath id in
  comparisonReason "ORACLE_RESULT_MISSING" id (path +:+ " is absent; expected the frozen oracle result of trial " +:+ id) (Some path).

Definition gateFinding (trial : DeclaredTrial) (path name : string) (value : GateValue) : list Finding :=
  if bool_decide (value = Evidence.verified) then []
  else
    [MkFinding (if bool_decide (value = Evidence.invalid) then cause_invalid else cause_unverified)
       (comparisonReason "EVIDENCE_INTEGRITY_NOT_VERIFIED" (trial_id trial)
          ("trial " +:+ trial_id trial +:+ " has " +:+ name +:+ " " +:+ value_text value +:+ "; expected verified") (Some path))].

(** [validity_gates[8].value]: the schema fixes the nine gates. *)
Definition evidence_gate (r : Oracle.OracleResult) : GateValue :=
  match Oracle.or_gates r !! 8%nat with Some g => Evidence.value g | None => Evidence.unverified end.

Definition trialFindings (trial : DeclaredTrial) (result : option (FrozenRecord Oracle.OracleResult)) : list Finding :=
  let path := oracleResultPath (trial_id trial) in
  match result with
  | None => [MkFinding cause_unverified (missingOracleResultReason (trial_id trial))]
  | Some r =>
      gateFinding trial path "evidence_integrity gate" (evidence_gate (record r))
      ++ gateFinding trial path "identity_integrity" (Oracle.or_identity_integrity (record r))
  end.

(** [owners.set(id, [...(owners.get(id) ?? []), trial_id])] on a map in insertion order. *)
Fixpoint add_owner (id trial : string) (owners : list (string * list string)) : list (string * list string) :=
  match owners with
  | [] => [(id, [trial])]
  | (k, ts) :: rest => if bool_decide (k = id) then (k, ts ++ [trial]) :: rest else (k, ts) :: add_owner id trial rest
  end.

(** The distinct transaction ids a trial's result reports. *)
Definition reported_ids (results : OracleResultsByTrial) (trial : DeclaredTrial) : list string :=
  unique (match result_of results (trial_id trial) with Some r => Oracle.mo_ids (Oracle.or_monetary_observations (record r)) | None => [] end).

Definition transaction_owners (trials : list DeclaredTrial) (results : OracleResultsByTrial) : list (string * list string) :=
  fold_left (fun owners trial => fold_left (fun o id => add_owner id (trial_id trial) o) (reported_ids results trial) owners) trials [].

Definition crossTrialFindings (trials : list DeclaredTrial) (results : OracleResultsByTrial) : list Finding :=
  map (fun '(transactionId, trialIds) =>
      MkFinding cause_invalid (comparisonReason "CROSS_TRIAL_IDENTITY_REUSE" transactionId
        ("provider_transaction_id " +:+ transactionId +:+ " is reported by trials " +:+ str_join ", " trialIds
         +:+ "; expected each provider transaction id in one trial only (INV-RUA-001)") None))
    (List.filter (fun o => (1 <? length o.2)%nat) (transaction_owners trials results)).

Definition deriveRunEvidenceIntegrity (trials : list DeclaredTrial) (results : OracleResultsByTrial) : RunEvidenceIntegrity :=
  let findings := flat_map (fun trial => trialFindings trial (result_of results (trial_id trial))) trials ++ crossTrialFindings trials results in
  match findings with
  | [] => integrity_verified
  | _ =>
      integrity_lower (if existsb (fun f => bool_decide (f_value f = cause_invalid)) findings then cause_invalid else cause_unverified) (map f_reason findings)
  end.

(** ** Equality sheets (equality-sheets.ts) *)

Inductive EqualityProjectionId :=
| financial_inputs | control_parameters | treatment_parameters | message_source_protocol | provider_configuration | controller_configuration
| caller_timing | observation_window.
#[export] Instance EqualityProjectionId_eq_dec : EqDecision EqualityProjectionId.
Proof. solve_decision. Defined.

Definition EQUALITY_PROJECTION_IDS : list EqualityProjectionId :=
  [financial_inputs; control_parameters; treatment_parameters; message_source_protocol; provider_configuration; controller_configuration; caller_timing;
   observation_window].

Definition projection_text (id : EqualityProjectionId) : string :=
  match id with
  | financial_inputs => "financial_inputs" | control_parameters => "control_parameters" | treatment_parameters => "treatment_parameters"
  | message_source_protocol => "message_source_protocol" | provider_configuration => "provider_configuration"
  | controller_configuration => "controller_configuration" | caller_timing => "caller_timing" | observation_window => "observation_window"
  end.

(** The members of a JSON object, in insertion order. *)
Definition JsonObject : Type := list (string * json).

Record ProjectionSheet := MkSheet { common : JsonObject; within_variant : JsonObject; evidence_refs : list EvidenceRef }.

(** A sheet, or the reasons, at least one, it could not be built. *)
Inductive ProjectionInput := with_sheet (s : ProjectionSheet) | missing (first : StructuredReason) (rest : list StructuredReason).

Record ComparisonTrialInputs := MkTrialInputs {
  ct_trial_id : string;
  ct_variant_id : VariantId;
  ct_scenario : Scenario;
  projections : EqualityProjectionId -> ProjectionInput;
}.

Record VariantDeploymentSheet := MkVariantDeployment {
  vd_message_source_protocol : JsonObject;
  vd_provider_configuration : JsonObject;
  vd_controller_configuration : JsonObject;
  vd_caller_timing : JsonObject;
  vd_caller_strategy : JsonObject;
}.

Record DeploymentProjection := MkDeployment { variants : VariantId -> VariantDeploymentSheet; dp_evidence_refs : list EvidenceRef }.

Record DeclaredTiming := MkTiming {
  provider_client_deadline_ms : jsnum;
  provider_execution_timeout_ms : jsnum;
  conventional_invocation_timeout_ms : jsnum;
  durable_invocation_timeout_ms : jsnum;
  conventional_visibility_timeout_ms : jsnum;
  durable_visibility_timeout_ms : jsnum;
  durable_retry_delay_ms : jsnum;
  durable_total_step_attempts : jsnum;
  durable_execution_timeout_ms : jsnum;
  max_receive_count : jsnum;
  observation_deadline_ms : jsnum;
  stabilization_interval_ms : jsnum;
  queue_poll_interval_ms : jsnum;
  retry_jitter : string;
}.

Record SelectedQualification := MkQualification {
  q_transport_probe_id : string;
  q_original_package_index_sha256 : string;
  q_amendment_head_sha256 : option string;
}.

Record DeclaredSource := MkSource { commit_sha : string; tree_sha : string; source_provenance_sha256 : string }.

(** A declared value is a string, a number or a boolean. *)
Record DeclaredVariantDifference := MkDifference { parameter : string; declared_value : VariantId -> json }.

(** The execution manifest, as far as the comparison reads it. *)
Record ExecutionManifest := MkManifest {
  em_run_id : string;
  em_trials : Four DeclaredTrial;
  timing : DeclaredTiming;
  invocations_per_trial : jsnum;
  template_path : string;
  source : DeclaredSource;
  qualification : option SelectedQualification;
  em_transport_scope_snapshot_sha256 : string;
  declared_variant_differences : list DeclaredVariantDifference;
}.

Record ResourceManifest := MkResources { provider_version : option string }.

Record ProviderTrialConfiguration := MkConfiguration { pc_scenario : Scenario; safety_release_ms : jsnum; treatment_poll_interval_ms : jsnum }.

Record TrialSheetSources := MkSources {
  ts_trial : DeclaredTrial;
  ts_execution_manifest : FrozenRecord ExecutionManifest;
  ts_resource_manifest : option (FrozenRecord ResourceManifest);
  ts_provider_configuration : option (FrozenRecord ProviderTrialConfiguration);
  payment : option ArtifactRef;
  approved_decision : option ArtifactRef;
  deployment : option DeploymentProjection;
}.

Definition NO_FIELDS : JsonObject := [].

Definition sheet (c within : JsonObject) (refs : list EvidenceRef) : ProjectionInput := with_sheet (MkSheet c within refs).

Definition manifestRef (sources : TrialSheetSources) (pointer : string) : EvidenceRef :=
  let r := ref (ts_execution_manifest sources) in MkRef (ar_path r) (ar_sha256 r) None (Some pointer) None.

Definition missingFile (trial : DeclaredTrial) (projection : EqualityProjectionId) (absent : string) : StructuredReason :=
  let path := unitFile (unit_trial (trial_id trial)) absent in
  comparisonReason "ARTIFACT_MISSING" (projection_text projection) (path +:+ " is absent; expected the frozen file of trial " +:+ trial_id trial) (Some path).

Definition missingFiles (trial : DeclaredTrial) (projection : EqualityProjectionId) (file : string) (more : list string) : ProjectionInput :=
  missing (missingFile trial projection file) (map (missingFile trial projection) more).

Definition missingDeployment (sources : TrialSheetSources) (projection : EqualityProjectionId) : ProjectionInput :=
  let template := template_path (record (ts_execution_manifest sources)) in
  missing (comparisonReason "ARTIFACT_MISSING" (projection_text projection)
    ("no projection of the inventoried template " +:+ template +:+ " was supplied; expected the deployment projection the comparison reads") (Some template)) [].

Definition financialSheet (sources : TrialSheetSources) : ProjectionInput :=
  match payment sources, approved_decision sources with
  | None, None => missingFiles (ts_trial sources) financial_inputs "payment" ["approvedDecision"]
  | None, Some _ => missingFiles (ts_trial sources) financial_inputs "payment" []
  | Some _, None => missingFiles (ts_trial sources) financial_inputs "approvedDecision" []
  | Some p, Some d =>
      sheet [("payment_sha256", JStr (ar_sha256 p)); ("approved_decision_sha256", JStr (ar_sha256 d))] NO_FIELDS [evidence_ref p; evidence_ref d]
  end.

Definition controlSheet (sources : TrialSheetSources) : ProjectionInput :=
  match ts_provider_configuration sources with
  | None => missingFiles (ts_trial sources) control_parameters "providerTrialConfiguration" []
  | Some configuration =>
      let r := record configuration in
      sheet [("scenario", JStr (scenario_text (pc_scenario r))); ("safety_release_ms", JNum (safety_release_ms r));
             ("treatment_poll_interval_ms", JNum (treatment_poll_interval_ms r))] NO_FIELDS [evidence_ref (ref configuration)]
  end.

Definition treatmentSheet (sources : TrialSheetSources) : ProjectionInput :=
  match ts_provider_configuration sources with
  | None => missingFiles (ts_trial sources) treatment_parameters "providerTrialConfiguration" []
  | Some configuration =>
      let t := timing (record (ts_execution_manifest sources)) in
      let r := record configuration in
      sheet [("provider_client_deadline_ms", JNum (provider_client_deadline_ms t)); ("provider_safety_release_ms", JNum (safety_release_ms r));
             ("provider_execution_timeout_ms", JNum (provider_execution_timeout_ms t)); ("treatment_poll_interval_ms", JNum (treatment_poll_interval_ms r));
             ("arming_scenario", JStr (scenario_text (pc_scenario r)))] NO_FIELDS [manifestRef sources "/timing"; evidence_ref (ref configuration)]
  end.

Definition is_durable (v : VariantId) : bool := bool_decide (v = v_durable).

Definition messageSourceSheet (sources : TrialSheetSources) : ProjectionInput :=
  match deployment sources with
  | None => missingDeployment sources message_source_protocol
  | Some d =>
      let t := timing (record (ts_execution_manifest sources)) in
      let v := variant_id (ts_trial sources) in
      sheet (set_members
               [("source_visibility_timeout_ms", JNum (if is_durable v then durable_visibility_timeout_ms t else conventional_visibility_timeout_ms t));
                ("max_receive_count", JNum (max_receive_count t)); ("retry_jitter", JStr (retry_jitter t))]
               (vd_message_source_protocol (variants d v)))
        NO_FIELDS (dp_evidence_refs d ++ [manifestRef sources "/timing"])
  end.

Definition providerSheet (sources : TrialSheetSources) : ProjectionInput :=
  match deployment sources with
  | None => missingDeployment sources provider_configuration
  | Some d =>
      match ts_resource_manifest sources with
      | Some resources =>
          match provider_version (record resources) with
          | Some version =>
              sheet (set_members
                       [("provider_version", JStr version);
                        ("provider_warmup", JObj [("invocations_per_trial", JNum (invocations_per_trial (record (ts_execution_manifest sources))))])]
                       (vd_provider_configuration (variants d (variant_id (ts_trial sources)))))
                NO_FIELDS (dp_evidence_refs d ++ [evidence_ref (ref resources); manifestRef sources "/provider_warmup"])
          | None =>
              missing (comparisonReason "ARTIFACT_MISSING" "provider_configuration"
                "the resource manifest names no provider version; expected the immutable provider version of a succeeded provisioning" (Some (ar_path (ref resources)))) []
          end
      | None =>
          missing (comparisonReason "ARTIFACT_MISSING" "provider_configuration"
            "the resource manifest is absent; expected the immutable provider version of a succeeded provisioning" (Some (path_of "resourceManifest"))) []
      end
  end.

Definition controllerSheet (sources : TrialSheetSources) : ProjectionInput :=
  match deployment sources with
  | None => missingDeployment sources controller_configuration
  | Some d => sheet (vd_controller_configuration (variants d (variant_id (ts_trial sources)))) NO_FIELDS (dp_evidence_refs d)
  end.

Definition callerTimingSheet (sources : TrialSheetSources) : ProjectionInput :=
  match deployment sources with
  | None => missingDeployment sources caller_timing
  | Some d =>
      let t := timing (record (ts_execution_manifest sources)) in
      let v := variant_id (ts_trial sources) in
      let variant := variants d v in
      sheet (set_members
               [("provider_client_deadline_ms", JNum (provider_client_deadline_ms t));
                ("invocation_timeout_ms", JNum (if is_durable v then durable_invocation_timeout_ms t else conventional_invocation_timeout_ms t))]
               (vd_caller_timing variant))
        (if is_durable v
         then set_members
                [("durable_total_step_attempts", JNum (durable_total_step_attempts t)); ("durable_retry_delay_ms", JNum (durable_retry_delay_ms t));
                 ("durable_execution_timeout_ms", JNum (durable_execution_timeout_ms t))]
                (vd_caller_strategy variant)
         else vd_caller_strategy variant)
        (dp_evidence_refs d ++ [manifestRef sources "/timing"])
  end.

Definition observationSheet (sources : TrialSheetSources) : ProjectionInput :=
  let t := timing (record (ts_execution_manifest sources)) in
  sheet [("observation_deadline_ms", JNum (observation_deadline_ms t)); ("stabilization_interval_ms", JNum (stabilization_interval_ms t));
         ("queue_poll_interval_ms", JNum (queue_poll_interval_ms t))] NO_FIELDS [manifestRef sources "/timing"].

Definition buildTrialSheets (sources : TrialSheetSources) : ComparisonTrialInputs :=
  let trial := ts_trial sources in
  MkTrialInputs (trial_id trial) (variant_id trial) (scenario trial) (fun id =>
    match id with
    | financial_inputs => financialSheet sources
    | control_parameters => controlSheet sources
    | treatment_parameters => treatmentSheet sources
    | message_source_protocol => messageSourceSheet sources
    | provider_configuration => providerSheet sources
    | controller_configuration => controllerSheet sources
    | caller_timing => callerTimingSheet sources
    | observation_window => observationSheet sources
    end).

(** ** Equality (equality-evaluation.ts) *)

Record ProjectedFieldValue := MkFieldValue { pf_trial_id : string; pf_value : json }.
Record ProjectionDifference := MkProjectionDifference { field : string; declared : bool; values : list ProjectedFieldValue }.

Record EqualityProjection := MkProjection {
  projection_id : EqualityProjectionId;
  ep_result : PreservationVerdict;
  compared_fields : list string;
  differences : list ProjectionDifference;
  ep_evidence_refs : list EvidenceRef;
}.

Record EqualityAssessment := MkEquality {
  ea_projections : list EqualityProjection;
  equality_result : PreservationVerdict;
  ea_reasons : list StructuredReason;
}.

Definition PROJECTION_SCENARIO (id : EqualityProjectionId) : option Scenario :=
  match id with control_parameters => Some CONTROL | treatment_parameters => Some COMMIT_THEN_TIMEOUT | _ => None end.

Definition DECLARABLE_PROJECTIONS : list EqualityProjectionId := [message_source_protocol; caller_timing].

Definition RUN_TRIAL_ORDER : list (Z * VariantId * Scenario) :=
  [(1, v_conventional, CONTROL); (2, v_durable, CONTROL); (3, v_conventional, COMMIT_THEN_TIMEOUT); (4, v_durable, COMMIT_THEN_TIMEOUT)].

Definition ABSENT_VALUE : string := "<absent>".
Definition NULL_VALUE : string := "<null>".

Record CoveredSheet := MkCovered { cs_trial : ComparisonTrialInputs; cs_sheet : ProjectionSheet }.
Record ProjectionOutcome := MkOutcome { projection : EqualityProjection; po_reasons : list StructuredReason }.

(** [ownValue]: members of the object itself. *)
Definition ownValue (fields : JsonObject) (f : string) : option json := member f fields.

Definition reported (value : option json) : json :=
  match value with None => JStr ABSENT_VALUE | Some JNull => JStr NULL_VALUE | Some v => v end.

(** The values of one field, by trial. *)
Definition FieldValues : Type := list (ComparisonTrialInputs * option json).

Definition value_key (value : option json) : Result string js_error := match value with None => Ok ABSENT_VALUE | Some v => canonicalJson v end.

(** [values.every(...)], which stops at the first that fails. *)
Fixpoint every_declared (declaration : DeclaredVariantDifference) (vs : FieldValues) : Result bool js_error :=
  match vs with
  | [] => Ok true
  | (trial, value) :: rest =>
      match value with
      | None => Ok false
      | Some v =>
          let! equal := structurallyEqual v (declared_value declaration (ct_variant_id trial)) in
          if equal then every_declared declaration rest else Ok false
      end
  end.

Definition isDeclaredDifference (id : EqualityProjectionId) (f : string) (vs : FieldValues) (declarations : list DeclaredVariantDifference) :
  Result bool js_error :=
  let declaration := find_first (fun d => bool_decide (parameter d = f)) declarations in
  if negb (memb id DECLARABLE_PROJECTIONS) then Ok false
  else match declaration with None => Ok false | Some d => every_declared d vs end.

Section evaluation.
Context (declarations : list DeclaredVariantDifference).

Definition field_values (part : ProjectionSheet -> JsonObject) (f : string) (sheets : list CoveredSheet) : FieldValues :=
  map (fun c => (cs_trial c, ownValue (part (cs_sheet c)) f)) sheets.

(** The difference of one field, if its values are not all equal. *)
Definition fieldDifference (id : EqualityProjectionId) (sheets : list CoveredSheet) (part : ProjectionSheet -> JsonObject) (f : string) :
  Result (list ProjectionDifference) js_error :=
  let vs := field_values part f sheets in
  let! keys := RequestState.mapR (fun v => value_key v.2) vs in
  if (length (unique keys) <=? 1)%nat then Ok []
  else
    let! is_declared := isDeclaredDifference id f vs declarations in
    Ok [MkProjectionDifference f is_declared (map (fun v => MkFieldValue (ct_trial_id v.1) (reported v.2)) vs)].

Definition field_names (part : ProjectionSheet -> JsonObject) (sheets : list CoveredSheet) : list string :=
  unique (flat_map (fun c => map fst (part (cs_sheet c))) sheets).

Definition fieldDifferences (id : EqualityProjectionId) (sheets : list CoveredSheet) (part : ProjectionSheet -> JsonObject) :
  Result (list ProjectionDifference) js_error :=
  let! found := RequestState.mapR (fieldDifference id sheets part) (field_names part sheets) in Ok (concat found).

Definition variantGroups (sheets : list CoveredSheet) : list (list CoveredSheet) :=
  map (fun v => List.filter (fun c => bool_decide (ct_variant_id (cs_trial c) = v)) sheets) [v_conventional; v_durable].

Definition undeclaredReason (id : EqualityProjectionId) (d : ProjectionDifference) : StructuredReason :=
  let shown := str_join ", " (map (fun v => pf_trial_id v +:+ "=" +:+ boundedJsonText (pf_value v) QUOTED_JSON_LIMIT) (values d)) in
  let name := projection_text id +:+ "." +:+ field d in
  comparisonReason "UNDECLARED_DIFFERENCE" name
    ("UNDECLARED_DIFFERENCE: " +:+ name +:+ " has values " +:+ shown +:+ "; expected one value across the compared trials or a declared variant difference") None.

Definition coverageGap (id : EqualityProjectionId) (covered expected : nat) : StructuredReason :=
  comparisonReason "EQUALITY_INDETERMINATE" (projection_text id)
    (string_of_Z (Z.of_nat covered) +:+ " trial input(s) cover " +:+ projection_text id +:+ "; expected the " +:+ string_of_Z (Z.of_nat expected)
     +:+ " declared trial(s) it compares") None.

Definition in_scenario (id : EqualityProjectionId) (s : Scenario) : bool :=
  match PROJECTION_SCENARIO id with None => true | Some x => bool_decide (s = x) end.

Definition covered_trials (id : EqualityProjectionId) (trials : list ComparisonTrialInputs) : list ComparisonTrialInputs :=
  List.filter (fun t => in_scenario id (ct_scenario t)) trials.
Definition expected_count (id : EqualityProjectionId) : nat := length (List.filter (fun slot => in_scenario id slot.2) RUN_TRIAL_ORDER).

Definition covered_sheets (id : EqualityProjectionId) (covered : list ComparisonTrialInputs) : list CoveredSheet :=
  omap (fun t => match projections t id with with_sheet s => Some (MkCovered t s) | missing _ _ => None end) covered.
Definition sheet_gaps (id : EqualityProjectionId) (covered : list ComparisonTrialInputs) : list StructuredReason :=
  flat_map (fun t => match projections t id with with_sheet _ => [] | missing r rs => r :: rs end) covered.

Definition evaluateProjection (id : EqualityProjectionId) (trials : list ComparisonTrialInputs) : Result ProjectionOutcome js_error :=
  let covered := covered_trials id trials in
  let sheets := covered_sheets id covered in
  let gaps := (if bool_decide (length covered = expected_count id) then [] else [coverageGap id (length covered) (expected_count id)]) ++ sheet_gaps id covered in
  let! all_fields := fieldDifferences id sheets common in
  let! grouped := RequestState.mapR (fun group => fieldDifferences id group within_variant) (variantGroups sheets) in
  let found := all_fields ++ concat grouped in
  let undeclared := map (undeclaredReason id) (List.filter (fun d => negb (declared d)) found) in
  let result := match undeclared, gaps with _ :: _, _ => v_fail | [], _ :: _ => v_indeterminate | [], [] => v_pass end in
  let compared := unique (flat_map (fun c => map fst (common (cs_sheet c)) ++ map fst (within_variant (cs_sheet c))) sheets) in
  Ok (MkOutcome (MkProjection id result (match compared with [] => [projection_text id] | _ => compared end) found
        (uniqueSortedRefs (flat_map (fun c => evidence_refs (cs_sheet c)) sheets))) (undeclared ++ gaps)).

Definition is_fail (v : PreservationVerdict) : bool := match v with v_fail => true | _ => false end.

Definition failedResult (ps : list EqualityProjection) : PreservationVerdict := if existsb (fun p => is_fail (ep_result p)) ps then v_fail else v_indeterminate.

Definition evaluateEquality (trials : list ComparisonTrialInputs) : Result EqualityAssessment js_error :=
  let! outcomes := RequestState.mapR (fun id => evaluateProjection id trials) EQUALITY_PROJECTION_IDS in
  let ps := map projection outcomes in
  match flat_map po_reasons outcomes with
  | [] => Ok (MkEquality ps v_pass [])
  | rs => Ok (MkEquality ps (failedResult ps) rs)
  end.
End evaluation.

(** ** What a leak can still do (cleanup/leak-capability.ts) *)

Inductive LeakCapabilityClass := processing_capable | storage_only | identity | unknown_capability.
#[export] Instance LeakCapabilityClass_eq_dec : EqDecision LeakCapabilityClass.
Proof. solve_decision. Defined.

Definition capability_text (c : LeakCapabilityClass) : string :=
  match c with processing_capable => "processing_capable" | storage_only => "storage_only" | identity => "identity" | unknown_capability => "unknown" end.

Definition CAPABILITY_BY_TYPE : list (string * LeakCapabilityClass) :=
  [("AWS::CloudFormation::Stack", processing_capable); ("AWS::Lambda::Function", processing_capable); ("AWS::Lambda::Version", processing_capable);
   ("AWS::Lambda::Alias", processing_capable); ("AWS::Lambda::EventSourceMapping", processing_capable);
   ("AWS::Lambda::DurableExecution", processing_capable); ("AWS::SQS::Queue", storage_only); ("AWS::DynamoDB::Table", storage_only);
   ("AWS::Logs::LogGroup", storage_only); ("AWS::IAM::Role", identity); ("AWS::IAM::Policy", identity); ("AWS::IAM::ManagedPolicy", identity);
   ("AWS::Lambda::Permission", identity); ("AWS::SQS::QueuePolicy", identity)].

Definition classifyLeakCapability (resource_type : string) : LeakCapabilityClass :=
  nullish (Evidence.map_get resource_type CAPABILITY_BY_TYPE) unknown_capability.

Definition leakCompromisesIsolation (c : LeakCapabilityClass) : bool := bool_decide (c = processing_capable) || bool_decide (c = unknown_capability).

(** ** Comparison eligibility (comparison-eligibility.ts) *)

Record LeakedResource := MkLeak { resource_type : string; identifier : string; capability_class : LeakCapabilityClass }.
Record LeakAuditResult := MkAudit { leak_audit_status : LeakAuditStatus; leaks : list LeakedResource }.

Inductive LateEvidenceStatus := late_none | late_consistent | late_contradictory | late_unverified.
#[export] Instance LateEvidenceStatus_eq_dec : EqDecision LateEvidenceStatus.
Proof. solve_decision. Defined.
Definition late_text (s : LateEvidenceStatus) : string :=
  match s with late_none => "none" | late_consistent => "consistent" | late_contradictory => "contradictory" | late_unverified => "unverified" end.
Record LateEvidenceAssessment := MkLate { late_evidence_status : LateEvidenceStatus }.

Inductive ComparisonCheckId :=
| FOUR_ORACLE_RESULTS | ALL_TRIALS_VALID | CONTROLS_VERIFIED | TREATMENTS_VERIFIED | EQUALITY_PASSES | EVIDENCE_INTEGRITY_VERIFIED
| LATE_EVIDENCE_ACCEPTABLE | NO_CONTRADICTORY_AMENDMENT | NO_ISOLATION_COMPROMISING_LEAK.
Definition check_text (c : ComparisonCheckId) : string :=
  match c with
  | FOUR_ORACLE_RESULTS => "FOUR_ORACLE_RESULTS" | ALL_TRIALS_VALID => "ALL_TRIALS_VALID" | CONTROLS_VERIFIED => "CONTROLS_VERIFIED"
  | TREATMENTS_VERIFIED => "TREATMENTS_VERIFIED" | EQUALITY_PASSES => "EQUALITY_PASSES"
  | EVIDENCE_INTEGRITY_VERIFIED => "EVIDENCE_INTEGRITY_VERIFIED" | LATE_EVIDENCE_ACCEPTABLE => "LATE_EVIDENCE_ACCEPTABLE"
  | NO_CONTRADICTORY_AMENDMENT => "NO_CONTRADICTORY_AMENDMENT" | NO_ISOLATION_COMPROMISING_LEAK => "NO_ISOLATION_COMPROMISING_LEAK"
  end.

Record ComparisonCheck := MkCheck { check_id : ComparisonCheckId; holds : bool; reasons : list StructuredReason }.

(** Eligible without reasons, or ineligible with them. *)
Record ComparisonEligibilityOutcome := MkEligibility {
  comparison_eligibility : PackageEligibility;
  comparison_ineligibility_reasons : list StructuredReason;
}.

Record ComparisonEligibilityInput := MkEligibilityInput {
  ce_trials : list DeclaredTrial;
  ce_oracle_results : OracleResultsByTrial;
  ce_equality : EqualityAssessment;
  ce_evidence_integrity : RunEvidenceIntegrity;
  ce_late_evidence : option (FrozenRecord LateEvidenceAssessment);
  ce_contradictory_amendments : list StructuredReason;
  ce_leak_audit : option (FrozenRecord LeakAuditResult);
}.

Definition check (id : ComparisonCheckId) (rs : list StructuredReason) : ComparisonCheck := MkCheck id (match rs with [] => true | _ => false end) rs.

Definition missingResult (trial : DeclaredTrial) (results : OracleResultsByTrial) : list StructuredReason :=
  match result_of results (trial_id trial) with Some _ => [] | None => [missingOracleResultReason (trial_id trial)] end.

Definition perTrial (input : ComparisonEligibilityInput) (covers : DeclaredTrial -> bool)
    (reasonOf : DeclaredTrial -> FrozenRecord Oracle.OracleResult -> option StructuredReason) : list StructuredReason :=
  flat_map (fun trial =>
    match result_of (ce_oracle_results input) (trial_id trial) with
    | None => missingResult trial (ce_oracle_results input)
    | Some result => option_list (reasonOf trial result)
    end) (List.filter covers (ce_trials input)).

Definition validity_text (v : Oracle.TrialValidity) : string :=
  match v with Oracle.trial_valid => "valid" | Oracle.trial_invalid => "invalid" | Oracle.trial_indeterminate => "indeterminate" end.

Definition validityReason (trial : DeclaredTrial) (result : FrozenRecord Oracle.OracleResult) : option StructuredReason :=
  let validity := Oracle.or_trial_validity (record result) in
  if bool_decide (validity = Oracle.trial_valid) then None
  else Some (comparisonReason "TRIAL_NOT_VALID" (trial_id trial)
         ("trial " +:+ trial_id trial +:+ " has trial_validity " +:+ validity_text validity +:+ "; expected valid") (Some (ar_path (ref result)))).

Definition controlReason (trial : DeclaredTrial) (result : FrozenRecord Oracle.OracleResult) : option StructuredReason :=
  let integrity := Oracle.sa_control_integrity (Oracle.or_scenario (record result)) in
  if bool_decide (integrity = Evidence.verified) then None
  else Some (comparisonReason "CONTROL_INTEGRITY_NOT_VERIFIED" (trial_id trial)
         ("control trial " +:+ trial_id trial +:+ " has control_integrity " +:+ value_text integrity +:+ "; expected verified") (Some (ar_path (ref result)))).

Definition treatmentReason (trial : DeclaredTrial) (result : FrozenRecord Oracle.OracleResult) : option StructuredReason :=
  let fidelity := Oracle.sa_treatment_fidelity (Oracle.or_scenario (record result)) in
  if bool_decide (fidelity = Evidence.verified) then None
  else Some (comparisonReason "TREATMENT_FIDELITY_NOT_VERIFIED" (trial_id trial)
         ("treatment trial " +:+ trial_id trial +:+ " has treatment_fidelity " +:+ value_text fidelity +:+ "; expected verified") (Some (ar_path (ref result)))).

Definition lateEvidenceReasons (late : option (FrozenRecord LateEvidenceAssessment)) : list StructuredReason :=
  let path := path_of "lateEvidenceAssessment" in
  match late with
  | None => [comparisonReason "ARTIFACT_MISSING" "late_evidence_status" (path +:+ " is absent; expected the run's late-evidence assessment") (Some path)]
  | Some l =>
      let status := late_evidence_status (record l) in
      if bool_decide (status = late_none) || bool_decide (status = late_consistent) then []
      else [comparisonReason "LATE_EVIDENCE_NOT_ACCEPTABLE" "late_evidence_status"
              ("late_evidence_status is " +:+ late_text status +:+ "; expected none or consistent") (Some path)]
  end.

Definition contradictoryReason (r : StructuredReason) : StructuredReason :=
  comparisonReason "CONTRADICTORY_AMENDMENT" (subject r) (detail r) (artifact_path r).

Definition leakReasons (audit : option (FrozenRecord LeakAuditResult)) : list StructuredReason :=
  let path := path_of "leakAuditResult" in
  match audit with
  | None => [comparisonReason "ARTIFACT_MISSING" "leak_audit" (path +:+ " is absent; expected the run's leak-audit result") (Some path)]
  | Some a =>
      map (fun leak => comparisonReason "ISOLATION_COMPROMISING_LEAK" (identifier leak)
             ("leaked " +:+ resource_type leak +:+ " " +:+ identifier leak +:+ " is " +:+ capability_text (capability_class leak)
              +:+ "; expected no processing_capable or unknown leak (D-30)") (Some path))
        (List.filter (fun l => leakCompromisesIsolation (capability_class l)) (leaks (record a)))
  end.

Definition has_scenario (s : Scenario) (trial : DeclaredTrial) : bool := bool_decide (scenario trial = s).

Definition comparison_checks (input : ComparisonEligibilityInput) : list ComparisonCheck :=
  [check FOUR_ORACLE_RESULTS (flat_map (fun trial => missingResult trial (ce_oracle_results input)) (ce_trials input));
   check ALL_TRIALS_VALID (perTrial input (fun _ => true) validityReason);
   check CONTROLS_VERIFIED (perTrial input (has_scenario CONTROL) controlReason);
   check TREATMENTS_VERIFIED (perTrial input (has_scenario COMMIT_THEN_TIMEOUT) treatmentReason);
   check EQUALITY_PASSES (ea_reasons (ce_equality input));
   check EVIDENCE_INTEGRITY_VERIFIED (integrity_reasons (ce_evidence_integrity input));
   check LATE_EVIDENCE_ACCEPTABLE (lateEvidenceReasons (ce_late_evidence input));
   check NO_CONTRADICTORY_AMENDMENT (map contradictoryReason (ce_contradictory_amendments input));
   check NO_ISOLATION_COMPROMISING_LEAK (leakReasons (ce_leak_audit input))].

Record ComparisonEligibility := MkComparisonEligibility { ce_outcome : ComparisonEligibilityOutcome; checks : list ComparisonCheck }.

Definition deriveComparisonEligibility (input : ComparisonEligibilityInput) : ComparisonEligibility :=
  let cs := comparison_checks input in
  match uniqueReasons (flat_map reasons cs) with
  | [] => MkComparisonEligibility (MkEligibility eligible []) cs
  | rs => MkComparisonEligibility (MkEligibility ineligible rs) cs
  end.

(** ** The comparison record (comparison-assessment.ts) *)

Record RunComparisonInput := MkComparisonInput {
  rc_run_id : string;
  rc_execution_manifest_sha256 : string;
  rc_trials : list DeclaredTrial;
  rc_declared_variant_differences : list DeclaredVariantDifference;
  rc_trial_inputs : list ComparisonTrialInputs;
  rc_oracle_results : OracleResultsByTrial;
  rc_late_evidence : option (FrozenRecord LateEvidenceAssessment);
  rc_leak_audit : option (FrozenRecord LeakAuditResult);
  rc_contradictory_amendments : list StructuredReason;
  assessed_at : string;
}.

Record ComparisonAssessment := MkAssessment {
  ca_run_id : string;
  ca_execution_manifest_sha256 : string;
  oracle_result_refs : list ArtifactRef;
  equality_projections : list EqualityProjection;
  ca_equality_result : PreservationVerdict;
  eligibility_checks : list ComparisonCheck;
  ca_eligibility : ComparisonEligibilityOutcome;
  ca_assessed_at : string;
}.

Record RunComparison := MkRunComparison { assessment : ComparisonAssessment; evidence_integrity : RunEvidenceIntegrity }.

Definition eligibilityOutcome (e : ComparisonEligibilityOutcome) : ComparisonEligibilityOutcome :=
  match comparison_eligibility e with
  | eligible => MkEligibility eligible []
  | ineligible => MkEligibility ineligible (comparison_ineligibility_reasons e)
  end.

Definition assessRunComparison (input : RunComparisonInput) : Result RunComparison js_error :=
  let! equality := evaluateEquality (rc_declared_variant_differences input) (rc_trial_inputs input) in
  let integrity := deriveRunEvidenceIntegrity (rc_trials input) (rc_oracle_results input) in
  let eligibility := deriveComparisonEligibility (MkEligibilityInput (rc_trials input) (rc_oracle_results input) equality integrity
    (rc_late_evidence input) (rc_contradictory_amendments input) (rc_leak_audit input)) in
  let oracleResultRefs := omap (fun trial => option_map ref (result_of (rc_oracle_results input) (trial_id trial))) (rc_trials input) in
  Ok (MkRunComparison (MkAssessment (rc_run_id input) (rc_execution_manifest_sha256 input) oracleResultRefs (ea_projections equality)
        (equality_result equality) (checks eligibility) (eligibilityOutcome (ce_outcome eligibility)) (assessed_at input)) integrity).

(** ** The run summary (run-summary.ts) *)

Record TrialResultHead := MkHead { h_sequence : Z; h_trial_id : string; h_variant_id : VariantId; h_scenario : Scenario }.

(** An entry with an oracle result is completed; one without is incomplete or was not started. *)
Inductive SummaryTrialResult :=
| completed_trial (head : TrialResultHead) (oracle_result_ref : ArtifactRef) (preservation_verdict : PreservationVerdict) (correct_completion : option bool)
| incomplete_trial (head : TrialResultHead) (incompletion_reasons : list StructuredReason)
| not_started_trial (head : TrialResultHead) (incompletion_reasons : list StructuredReason).

Definition entry_head (e : SummaryTrialResult) : TrialResultHead :=
  match e with completed_trial h _ _ _ | incomplete_trial h _ | not_started_trial h _ => h end.
Definition is_completed (e : SummaryTrialResult) : bool := match e with completed_trial _ _ _ _ => true | _ => false end.

Record CleanupResult := MkCleanup { cleanup_status : CleanupStatus }.
Record SafetyAssessment := MkSafety { sf_safety_status : Safety.SafetyResult }.

Record RunSummaryInput := MkSummaryInput {
  rs_run_id : string;
  rs_execution_manifest_sha256 : string;
  rs_trials : Four DeclaredTrial;
  started_trials : list string;
  rs_oracle_results : OracleResultsByTrial;
  rs_run_terminal_reason : RunTerminalReason;
  comparison : ComparisonEligibilityOutcome;
  rs_comparison_assessment_ref : ArtifactRef;
  rs_cleanup : FrozenRecord CleanupResult;
  rs_leak_audit_status : LeakAuditStatus;
  rs_lease_status : LeaseHealth.LeaseStatus;
  rs_safety_status : Safety.SafetyResult;
  rs_evidence_integrity_status : GateValue;
  rs_late_evidence_assessment_ref : ArtifactRef;
  created_at : string;
}.

Record RunSummary := MkSummary {
  run_id : string;
  execution_manifest_sha256 : string;
  trial_results : Four SummaryTrialResult;
  execution_completed : bool;
  run_terminal_reason : RunTerminalReason;
  sm_eligibility : ComparisonEligibilityOutcome;
  sm_cleanup_status : CleanupStatus;
  sm_leak_audit_status : LeakAuditStatus;
  lease_status : LeaseHealth.LeaseStatus;
  safety_status : Safety.SafetyResult;
  evidence_integrity_status : GateValue;
  cleanup_result_ref : ArtifactRef;
  late_evidence_assessment_ref : ArtifactRef;
  comparison_assessment_ref : ArtifactRef;
  sm_created_at : string;
}.

Definition notFrozen (trial : DeclaredTrial) : StructuredReason :=
  let path := unitFile (unit_trial (trial_id trial)) "oracleResult" in
  comparisonReason "TRIAL_NOT_FROZEN" (trial_id trial)
    ("trial " +:+ trial_id trial +:+ " started but " +:+ path +:+ " is absent; expected a frozen oracle result") (Some path).

Definition notStarted (trial : DeclaredTrial) : StructuredReason :=
  let path := unitFile (unit_trial (trial_id trial)) "trialManifest" in
  comparisonReason "TRIAL_NOT_STARTED" (trial_id trial)
    ("trial " +:+ trial_id trial +:+ " has no frozen " +:+ path +:+ "; expected the trial to have started") (Some path).

Definition trialEntry (input : RunSummaryInput) (trial : DeclaredTrial) : SummaryTrialResult :=
  let head := MkHead (sequence trial) (trial_id trial) (variant_id trial) (scenario trial) in
  match result_of (rs_oracle_results input) (trial_id trial) with
  | Some result =>
      let outcome := Oracle.or_outcome (record result) in
      completed_trial head (ref result) (Oracle.preservation_verdict outcome) (Oracle.correct_completion outcome)
  | None =>
      if memb (trial_id trial) (started_trials input) then incomplete_trial head [notFrozen trial] else not_started_trial head [notStarted trial]
  end.

Definition buildRunSummary (input : RunSummaryInput) : RunSummary :=
  let trialResults := map_four (trialEntry input) (rs_trials input) in
  MkSummary (rs_run_id input) (rs_execution_manifest_sha256 input) trialResults (forallb is_completed (of_four trialResults))
    (rs_run_terminal_reason input) (eligibilityOutcome (comparison input)) (cleanup_status (record (rs_cleanup input))) (rs_leak_audit_status input)
    (rs_lease_status input) (rs_safety_status input) (rs_evidence_integrity_status input) (ref (rs_cleanup input)) (rs_late_evidence_assessment_ref input)
    (rs_comparison_assessment_ref input) (created_at input).
End Comparison.
