(* ===== verification/ComparisonCorrect.v ===== *)
(** * The comparison of a run, proved (src/study-1/src/study-comparison/)

    Reasons are listed once each, the terminal reason is the first stopping event's, evidence integrity and equality hold exactly when
    the evidence shows them, and a comparison is eligible exactly under its nine conditions. *)

From S2P Require Import Prelude AttemptLifecycle Timestamps Decimals Store JsonText Parsing LeaseHealth Journal ControlItems RequestState RequestSafety Safety TrialMessage Evidence Oracle Ingestion IngestionCorrect Package Amendments AmendmentsCorrect Canonical Comparison.
Import Json Store JsonText Journal Comparison.
Import Package(flat_map_nil).
Import AmendmentsCorrect(filter_nil).
Import Canonical(well_formed).
Import RequestState(mapR).
Open Scope Z_scope.

Module ComparisonCorrect.

#[local] Existing Instance Amendments.TerminalCleanupStatus_eq_dec.
#[local] Existing Instance Amendments.LeakAuditStatus_eq_dec.
#[local] Existing Instance TrialMessage.VariantId_eq_dec.
#[local] Existing Instance Evidence.CauseValue_eq_dec.
#[local] Existing Instance Evidence.GateValue_eq_dec.
#[local] Existing Instance Oracle.TrialValidity_eq_dec.

(** ** Reasons are listed once each *)

Definition reason_json (r : StructuredReason) : json :=
  JObj [("code", JStr (code r)); ("subject", JStr (subject r)); ("artifact_path", text_or_null (artifact_path r));
        ("event_id", text_or_null (event_id r)); ("detail", JStr (detail r))].

Lemma reason_json_formed r : well_formed (reason_json r).
Proof.
  split; [by repeat (constructor; [set_solver|]); constructor|]. destruct r as [c s [p|] [e|] d]; done.
Qed.

Definition textual (v : json) : Prop := v = JNull \/ exists t, v = JStr t.

Lemma text_member (ms ns : list (string * json)) v v' :
  (forall k v, (k, v) ∈ ms -> exists u, member k ns = Some u /\ IngestionCorrect.json_same v u = true) ->
  forall k, (k, v) ∈ ms -> textual v -> member k ns = Some v' -> v = v'.
Proof.
  intros H k (u & Hu & Hs)%H Ht Hv. rewrite Hu in Hv. injection Hv as <-. destruct Ht as [->|[t ->]]; destruct u; cbn in Hs; try done.
  by apply bool_decide_eq_true in Hs as ->.
Qed.

Lemma text_or_null_textual o : textual (text_or_null o).
Proof. destruct o; [right; by eexists|by left]. Qed.

(** The key of a reason always exists and tells it from every other reason. *)
Lemma reason_key_inj r r' : reason_key r = reason_key r' -> r = r'.
Proof.
  unfold reason_key. fold (reason_json r) (reason_json r'). intros E.
  destruct (Canonical.canonical_texts (reason_json r) (reason_json r') (reason_json_formed r) (reason_json_formed r')) as (t & t' & Ht & Ht' & H).
  rewrite Ht, Ht' in E. injection E as E. apply H in E. clear H Ht Ht'. destruct r as [c s p e d], r' as [c' s' p' e' d'].
  apply Canonical.members_same_iff in E as [_ E]. cbn [code subject artifact_path event_id detail] in E.
  assert (Ec : JStr c = JStr c') by (apply (text_member _ _ _ _ E "code"); [set_solver|by (apply text_or_null_textual || (right; eexists))|reflexivity]).
  assert (Es : JStr s = JStr s') by (apply (text_member _ _ _ _ E "subject"); [set_solver|by (apply text_or_null_textual || (right; eexists))|reflexivity]).
  assert (Ep : text_or_null p = text_or_null p') by (apply (text_member _ _ _ _ E "artifact_path"); [set_solver|by (apply text_or_null_textual || (right; eexists))|reflexivity]).
  assert (Ee : text_or_null e = text_or_null e') by (apply (text_member _ _ _ _ E "event_id"); [set_solver|by (apply text_or_null_textual || (right; eexists))|reflexivity]).
  assert (Ed : JStr d = JStr d') by (apply (text_member _ _ _ _ E "detail"); [set_solver|by (apply text_or_null_textual || (right; eexists))|reflexivity]).
  destruct p, p', e, e'; naive_solver.
Qed.

Lemma unseen_spec rs : forall seen, NoDup (unseen seen rs) /\ forall r, r ∈ unseen seen rs <-> r ∈ rs /\ reason_key r ∉ seen.
Proof.
  induction rs as [|x rs IH]; intros seen; cbn [unseen]; [split; [constructor|]; intros r; split; [by intros ?%not_elem_of_nil|by intros [?%not_elem_of_nil _]]|].
  case_bool_decide as Hx.
  - destruct (IH seen) as [Hn H]. split; [done|]. intros r. rewrite H. split; [intros [? ?]; by split; [right|]|].
    intros [[->|?]%elem_of_cons ?]; [done|by split].
  - destruct (IH (reason_key x :: seen)) as [Hn H]. split.
    + constructor; [|done]. rewrite H. intros [_ Hk]. apply Hk. left.
    + intros r. rewrite !elem_of_cons, H, not_elem_of_cons. split; [intros [->|(? & ? & ?)]; [by split; [left|]|by split; [right|]]|].
      intros [[->|Hr] Hk]; [by left|]. destruct (decide (r = x)) as [->|Hne]; [by left|]. right. split; [done|]. split; [|done].
      intros E. by apply Hne, reason_key_inj.
Qed.

Lemma uniqueReasons_spec rs : NoDup (uniqueReasons rs) /\ forall r, r ∈ uniqueReasons rs <-> r ∈ rs.
Proof.
  destruct (unseen_spec rs []) as [Hn H]. split; [exact Hn|]. intros r. unfold uniqueReasons. rewrite H. split; [by intros []|]. intros Hr. split; [done|]. apply not_elem_of_nil.
Qed.

Lemma uniqueReasons_nil rs : uniqueReasons rs = [] <-> rs = [].
Proof.
  split; [|by intros ->]. intros E. destruct rs as [|r rs]; [done|]. assert (H : r ∈ uniqueReasons (r :: rs)) by (apply uniqueReasons_spec; left).
  rewrite E in H. by apply not_elem_of_nil in H.
Qed.

(** ** The first stopping event *)

Section first_stop.
Context {A B : Type} (le : A -> A -> bool) (f : A -> option B).
Context (Htrans : forall x y z, le x y = true -> le y z = true -> le x z = true) (Htotal : forall x y, le x y = true \/ le y x = true).

Definition stops (x : A) : Prop := is_Some (f x).

(** The first of the stopping elements in the order of [le], the earliest in the list among equals. *)
Definition first_stop (l : list A) (y : B) : Prop :=
  exists before e after, l = before ++ e :: after /\ f e = Some y
    /\ (forall x, x ∈ before -> stops x -> le x e = false) /\ (forall x, x ∈ after -> stops x -> le e x = true).

Lemma omap_head_none l : head (omap f l) = None <-> forall x, x ∈ l -> f x = None.
Proof.
  induction l as [|x l IH]; [by split; [intros _ ? ?%not_elem_of_nil|]|]. cbn [omap list_omap]. setoid_rewrite elem_of_cons.
  destruct (f x) as [y|] eqn:E; [split; [done|]; intros H; rewrite (H x) in E by (by left); done|].
  rewrite IH. split; [intros H z [->|Hz]; [done|by apply H]|intros H z Hz; apply H; by right].
Qed.

Lemma insert_head_none x l : f x = None -> head (omap f (insert_by le x l)) = head (omap f l).
Proof.
  intros Hx. induction l as [|y l IH]; cbn [insert_by omap list_omap]; [by rewrite Hx|]. destruct (le x y); cbn [omap list_omap]; [by rewrite Hx|]. by destruct (f y).
Qed.

Lemma insert_head_before x z l : f x = Some z -> (forall y, y ∈ l -> stops y -> le x y = true) -> head (omap f (insert_by le x l)) = Some z.
Proof.
  intros Hx. induction l as [|y l IH]; intros H; cbn [insert_by omap list_omap]; [by rewrite Hx|]. destruct (le x y) eqn:E; cbn [omap list_omap]; [by rewrite Hx|].
  destruct (f y) as [u|] eqn:Ey; [|apply IH; intros w Hw; apply H; by right]. rewrite (H y) in E; [done|left|by exists u].
Qed.

Lemma insert_head_after x l e u : StronglySorted (fun a b => le a b = true) l -> head (omap f l) = Some u -> e ∈ l -> f e = Some u ->
  (forall y, y ∈ l -> stops y -> le e y = true) -> le x e = false -> head (omap f (insert_by le x l)) = Some u.
Proof.
  intros Hs Hh He Hu Hmin Hx. induction Hs as [|y l Hs IH Hy]; [done|]. cbn [insert_by].
  assert (Hxy : le x y = false).
  { destruct (le x y) eqn:E; [|done]. apply elem_of_cons in He as [->|He]; [congruence|]. rewrite (Htrans x y e) in Hx; [done|done|].
    by apply (proj1 (Forall_forall _ _) Hy). }
  rewrite Hxy. cbn [omap list_omap] in *. destruct (f y) as [z|] eqn:Ey; [done|]. apply IH; [done| |intros w Hw; apply Hmin; by right].
  apply elem_of_cons in He as [->|He]; [congruence|done].
Qed.

Lemma first_stop_least l y : first_stop l y -> exists e, e ∈ l /\ f e = Some y /\ forall x, x ∈ l -> stops x -> le e x = true.
Proof.
  intros (before & e & after & -> & He & Hb & Ha). exists e. split; [set_solver|]. split; [done|]. intros x [Hx|[->|Hx]%elem_of_cons]%elem_of_app Hs.
  - specialize (Hb x Hx Hs). destruct (Htotal x e); congruence.
  - by destruct (Htotal e e).
  - by apply Ha.
Qed.

Lemma isort_first l y : head (omap f (isort le l)) = Some y -> first_stop l y.
Proof.
  revert y. induction l as [|x l IH]; [done|]. intros y. cbn [isort foldr]. fold (isort le l). destruct (f x) as [z|] eqn:Ex.
  2: { rewrite insert_head_none by done. intros (before & e & after & -> & He & Hb & Ha)%IH. exists (x :: before), e, after. split; [done|]. split; [done|].
       split; [|done]. intros u [->|Hu]%elem_of_cons [v Hv]; [congruence|]. apply Hb; [done|by exists v]. }
  assert (Hbefore : (forall u, u ∈ l -> stops u -> le x u = true) -> head (omap f (insert_by le x (isort le l))) = Some y -> first_stop (x :: l) y).
  { intros Hl. rewrite (insert_head_before x z) by (done || (intros u Hu; apply Hl; by rewrite <- (isort_elem le))).
    intros [= <-]. exists [], x, l. split; [done|]. split; [done|]. split; [|done]. by intros ? ?%not_elem_of_nil. }
  destruct (head (omap f (isort le l))) as [u|] eqn:Hu.
  2: { apply Hbefore. rewrite omap_head_none in Hu. intros v Hv [t Ht]. rewrite Hu in Ht; [done|]. by rewrite isort_elem. }
  pose proof (IH u eq_refl) as Hf. pose proof (first_stop_least _ _ Hf) as (e & He & Hfe & Hmin). destruct (le x e) eqn:Ele.
  { apply Hbefore. intros v Hv Hs. by apply Htrans with e; [|apply Hmin]. }
  destruct Hf as (before & e' & after & -> & He' & Hb & Ha).
  assert (Hxe : le x e' = false).
  { destruct (le x e') eqn:E; [|done]. rewrite (Htrans x e' e) in Ele; [done|done|]. apply elem_of_app in He as [He|[->|He]%elem_of_cons].
    - assert (Hc : le e e' = true) by (apply Hmin; [set_solver|by exists u]). rewrite (Hb e He) in Hc; [done|by exists u].
    - by destruct (Htotal e' e').
    - apply Ha; [done|by exists u]. }
  rewrite (insert_head_after x _ e' u); [|by apply isort_sorted|done|rewrite isort_elem; set_solver|done| |done].
  - intros [= <-]. exists (x :: before), e', after. split; [done|]. split; [done|]. split; [|done]. intros v [->|Hv]%elem_of_cons Hs; [done|by apply Hb].
  - intros v Hv Hs. rewrite isort_elem in Hv. apply elem_of_app in Hv as [Hv|[->|Hv]%elem_of_cons]; [|by destruct (Htotal e' e')|by apply Ha].
    specialize (Hb v Hv Hs). destruct (Htotal v e'); congruence.
Qed.
End first_stop.

(** ** The terminal reason *)

Definition event_stop (e : RunnerEvent) : option RunTerminalReason := stoppingReason (fact e).
Definition time_le {T} (a b : Timed T) : bool := String.leb (occurred_at a) (occurred_at b).

Lemma time_le_trans {T} (a b c : Timed T) : time_le a b = true -> time_le b c = true -> time_le a c = true.
Proof. apply leb_trans. Qed.
Lemma time_le_total {T} (a b : Timed T) : time_le a b = true \/ time_le b a = true.
Proof. apply leb_total. Qed.

(** The reason of a run that no event stopped. *)
Definition closure_reason (input : RunTerminalInput) : RunTerminalReason :=
  if negb (all_trials_frozen input) then TRIAL_INCOMPLETE
  else if negb (bool_decide (ti_cleanup_status input = Some (Amendments.terminal Amendments.succeeded))) then CLEANUP_INCOMPLETE
  else if negb (bool_decide (ti_leak_audit_status input = Some Amendments.clean)) then LEAK_AUDIT_NOT_CLEAN
  else if existsb (fun e => summary_failed (fact e)) (events input) then EVIDENCE_FINALIZATION_FAILED else COMPLETED.

Lemma terminal_reason_cases input :
  first_stop time_le event_stop (events input) (deriveRunTerminalReason input)
  \/ (forall e, e ∈ events input -> event_stop e = None) /\ deriveRunTerminalReason input = closure_reason input.
Proof.
  unfold deriveRunTerminalReason. fold (closure_reason input).
  destruct (head _) as [r|] eqn:E.
  - left. apply (isort_first time_le event_stop time_le_trans time_le_total). exact E.
  - right. split; [|done]. intros e He. apply (proj1 (omap_head_none event_stop (inTimeOrder (events input))) E). by apply isort_elem.
Qed.

Lemma stop_not_completed e : event_stop e <> Some COMPLETED.
Proof. unfold event_stop, stoppingReason. destruct (fact e) as [p s|[]|ev]; [|done..|]; [case_bool_decide; [by destruct p|done]|by destruct ev]. Qed.

Lemma completed_iff input : deriveRunTerminalReason input = COMPLETED <->
  (forall e, e ∈ events input -> event_stop e = None) /\ all_trials_frozen input = true
  /\ ti_cleanup_status input = Some (Amendments.terminal Amendments.succeeded) /\ ti_leak_audit_status input = Some Amendments.clean
  /\ forall e, e ∈ events input -> summary_failed (fact e) = false.
Proof.
  assert (Hc : closure_reason input = COMPLETED <-> all_trials_frozen input = true
    /\ ti_cleanup_status input = Some (Amendments.terminal Amendments.succeeded) /\ ti_leak_audit_status input = Some Amendments.clean
    /\ forall e, e ∈ events input -> summary_failed (fact e) = false).
  { unfold closure_reason. rewrite <- existsb_false. destruct (all_trials_frozen input); [|by split; [|intros [? _]]]. cbn [negb].
    case_bool_decide; [|by split; [|intros (_ & ? & _)]]. cbn [negb]. case_bool_decide; [|by split; [|intros (_ & _ & ? & _)]]. cbn [negb].
    destruct (existsb _ _); [by split; [|intros (_ & _ & _ & ?)]|by split]. }
  rewrite <- Hc. destruct (terminal_reason_cases input) as [(before & e & after & He & Hs & _)|[Hn ->]].
  - split; [intros E; rewrite E in Hs; by apply stop_not_completed in Hs|]. intros [Hn _]. rewrite Hn in Hs; [done|]. rewrite He. set_solver.
  - by split; [|intros []].
Qed.

(** A run's terminal reason is its first cause. If some journal event stops the lifecycle (a failed phase before closure, an
    interruption, a lease failure), the reason is that of the earliest such event, the first in journal order among those of one instant;
    otherwise it is the first closure condition that fails, in the order trials, cleanup, leak audit, summary. It is [COMPLETED] iff no
    event stopped the run, every trial froze, cleanup succeeded, the audit was clean and the summary phase did not fail. *)
Theorem terminal_reason_is_first_cause (input : RunTerminalInput) :
  (first_stop time_le event_stop (events input) (deriveRunTerminalReason input)
   \/ (forall e, e ∈ events input -> event_stop e = None) /\ deriveRunTerminalReason input = closure_reason input)
  /\ (deriveRunTerminalReason input = COMPLETED <->
      (forall e, e ∈ events input -> event_stop e = None) /\ all_trials_frozen input = true
      /\ ti_cleanup_status input = Some (Amendments.terminal Amendments.succeeded) /\ ti_leak_audit_status input = Some Amendments.clean
      /\ forall e, e ∈ events input -> summary_failed (fact e) = false).
Proof. split; [apply terminal_reason_cases|apply completed_iff]. Qed.

(** The final status is the one the lease's own session derives from the events in time order. *)
Lemma final_status_agrees (evs : list (Timed LeaseHealth.LeaseEvent)) :
  finalLeaseStatus evs = LeaseHealth.deriveFinalLeaseStatus (map fact (inTimeOrder evs)).
Proof.
  unfold finalLeaseStatus, LeaseHealth.deriveFinalLeaseStatus.
  assert (H : omap (fun e => FINAL_LEASE_EVENTS (fact e)) (inTimeOrder evs) = omap LeaseHealth.FINAL_STATUS_OF_EVENT (map fact (inTimeOrder evs))).
  { induction (inTimeOrder evs) as [|e l IH]; [done|]. cbn [omap list_omap map]. change (FINAL_LEASE_EVENTS (fact e)) with (LeaseHealth.FINAL_STATUS_OF_EVENT (fact e)).
    by rewrite IH. }
  rewrite H. by destruct (last _).
Qed.

(** ** Evidence integrity *)

Lemma gateFinding_nil trial path name v : gateFinding trial path name v = [] <-> v = Evidence.verified.
Proof. unfold gateFinding. by case_bool_decide. Qed.

Lemma trialFindings_nil trial result : trialFindings trial result = [] <->
  exists r, result = Some r /\ evidence_gate (record r) = Evidence.verified /\ Oracle.or_identity_integrity (record r) = Evidence.verified.
Proof.
  unfold trialFindings. destruct result as [r|]; [|by split; [|intros (? & [=] & _)]].
  rewrite app_nil, !gateFinding_nil. split; [intros []; by exists r|by intros (? & [= <-] & ? & ?)].
Qed.

Lemma add_owner_get id trial owners key : Evidence.map_get key (add_owner id trial owners) =
  if bool_decide (key = id) then Some (nullish (Evidence.map_get key owners) [] ++ [trial]) else Evidence.map_get key owners.
Proof.
  induction owners as [|[k ts] owners IH]; cbn [add_owner Evidence.map_get].
  - repeat case_bool_decide; subst; done.
  - destruct (decide (k = id)) as [->|Hk]; [rewrite (bool_decide_eq_true_2 (id = id)) by done|rewrite (bool_decide_eq_false_2 (k = id)) by done];
      cbn [Evidence.map_get]; [|rewrite IH]; repeat case_bool_decide; subst; done.
Qed.

Lemma add_owner_keys id trial owners : map fst (add_owner id trial owners) = if memb id (map fst owners) then map fst owners else map fst owners ++ [id].
Proof.
  induction owners as [|[k ts] owners IH]; [done|]. cbn [add_owner map fst]. destruct (bool_decide (k = id)) eqn:Hk.
  - apply bool_decide_eq_true in Hk as ->. cbn [map fst]. by rewrite (proj2 (memb_true _ _)) by left.
  - apply bool_decide_eq_false in Hk. cbn [map fst]. rewrite IH. unfold memb. repeat case_bool_decide; set_solver.
Qed.

Lemma add_owner_NoDup id trial owners : NoDup (map fst owners) -> NoDup (map fst (add_owner id trial owners)).
Proof.
  intros H. rewrite add_owner_keys. destruct (memb _ _) eqn:E; [done|]. apply memb_false in E. apply NoDup_app. split; [done|]. split; [set_solver|apply NoDup_singleton].
Qed.

Section owners.
Context (ids : DeclaredTrial -> list string) (ids_once : forall t, NoDup (ids t)).

Definition own (owners : list (string * list string)) (t : DeclaredTrial) : list (string * list string) :=
  fold_left (fun o id => add_owner id (trial_id t) o) (ids t) owners.

Lemma own_get owners t key : Evidence.map_get key (own owners t) =
  if memb key (ids t) then Some (nullish (Evidence.map_get key owners) [] ++ [trial_id t]) else Evidence.map_get key owners.
Proof.
  unfold own. specialize (ids_once t). revert owners ids_once. induction (ids t) as [|id l IH]; intros owners Hn; [done|]. cbn [fold_left].
  apply NoDup_cons in Hn as [Hid Hn]. rewrite IH, add_owner_get by done. unfold memb. repeat case_bool_decide; subst; set_solver.
Qed.

Lemma own_NoDup owners t : NoDup (map fst owners) -> NoDup (map fst (own owners t)).
Proof. unfold own. revert owners. induction (ids t) as [|id l IH]; intros owners H; [done|]. cbn [fold_left]. by apply IH, add_owner_NoDup. Qed.

Definition naming (key : string) (trials : list DeclaredTrial) : list DeclaredTrial := List.filter (fun t => memb key (ids t)) trials.

Lemma owners_get trials owners key : Evidence.map_get key (fold_left own trials owners) =
  match naming key trials with [] => Evidence.map_get key owners | l => Some (nullish (Evidence.map_get key owners) [] ++ map trial_id l) end.
Proof.
  revert owners. induction trials as [|t trials IH]; intros owners; [done|]. cbn [fold_left]. rewrite IH, own_get. unfold naming. cbn [List.filter].
  destruct (memb key (ids t)); [|done]. fold (naming key trials). cbn [nullish map]. destruct (naming key trials); [done|]. by rewrite <- (assoc_L (++)).
Qed.

Lemma owners_NoDup trials owners : NoDup (map fst owners) -> NoDup (map fst (fold_left own trials owners)).
Proof. revert owners. induction trials as [|t trials IH]; intros owners H; [done|]. cbn [fold_left]. by apply IH, own_NoDup. Qed.

Lemma filter_once {A} (p : A -> bool) (l : list A) : (length (List.filter p l) <= 1)%nat <->
  forall i j x y, l !! i = Some x -> l !! j = Some y -> p x = true -> p y = true -> i = j.
Proof.
  induction l as [|a l IH]; [by split; [|cbn; lia]|]. cbn [List.filter]. destruct (p a) eqn:Ea.
  - cbn [length]. split.
    + intros Hl. assert (Hn : List.filter p l = []) by (destruct (List.filter p l); [done|cbn in Hl; lia]). rewrite filter_nil in Hn.
      intros [|i] [|j] x y Hi Hj Hx Hy; [done| | |]; cbn in Hi, Hj; exfalso.
      * rewrite Hn in Hy; [done|by eapply list_elem_of_lookup_2].
      * rewrite Hn in Hx; [done|by eapply list_elem_of_lookup_2].
      * rewrite Hn in Hx; [done|by eapply list_elem_of_lookup_2].
    + intros H. assert (Hn : List.filter p l = []).
      { apply filter_nil. intros x Hx. destruct (p x) eqn:Ex; [|done]. apply list_elem_of_lookup in Hx as [i Hi]. by specialize (H 0%nat (S i) a x eq_refl Hi Ea Ex). }
      rewrite Hn. cbn. lia.
  - rewrite IH. split; [intros H [|i] [|j] x y Hi Hj Hx Hy; cbn in Hi, Hj; [congruence..|]; f_equal; by apply (H i j x y)|].
    intros H i j x y Hi Hj Hx Hy. specialize (H (S i) (S j) x y Hi Hj Hx Hy). lia.
Qed.

Lemma shared_nil trials : List.filter (fun o => (1 <? length o.2)%nat) (fold_left own trials []) = [] <->
  forall i j t u id, trials !! i = Some t -> trials !! j = Some u -> id ∈ ids t -> id ∈ ids u -> i = j.
Proof.
  rewrite filter_nil. transitivity (forall id, (length (naming id trials) <= 1)%nat).
  - split.
    + intros H id. pose proof (owners_get trials [] id) as Hg. destruct (naming id trials) as [|t l] eqn:En; [cbn; lia|].
      cbn [Evidence.map_get nullish app] in Hg. apply IngestionCorrect.map_get_elem, H in Hg. cbn [snd] in Hg. apply Nat.ltb_ge in Hg. cbn [map length] in Hg |- *. rewrite length_map in Hg. lia.
    + intros H [id ts] Ho. cbn [snd]. apply Nat.ltb_ge.
      apply (IngestionCorrect.elem_map_get id _ ts) in Ho; [|apply owners_NoDup; constructor]. rewrite owners_get in Ho. specialize (H id).
      destruct (naming id trials); [done|]. cbn [Evidence.map_get nullish app] in Ho. injection Ho as <-. cbn [length] in H |- *. rewrite length_map. lia.
  - setoid_rewrite filter_once. setoid_rewrite memb_true. split; [intros H i j t u id; apply H|intros H id i j t u; apply H].
Qed.
End owners.

(** No transaction id is reported by two of the trials. *)
Definition transactions_apart (trials : list DeclaredTrial) (results : OracleResultsByTrial) : Prop :=
  forall i j t u id, trials !! i = Some t -> trials !! j = Some u -> id ∈ reported_ids results t -> id ∈ reported_ids results u -> i = j.

Definition trial_sound (results : OracleResultsByTrial) (t : DeclaredTrial) : Prop :=
  exists r, result_of results (trial_id t) = Some r /\ evidence_gate (record r) = Evidence.verified /\ Oracle.or_identity_integrity (record r) = Evidence.verified.

Lemma integrity_reasons_nil trials results : integrity_reasons (deriveRunEvidenceIntegrity trials results) = [] <->
  (forall t, t ∈ trials -> trial_sound results t) /\ transactions_apart trials results.
Proof.
  transitivity (flat_map (fun trial => trialFindings trial (result_of results (trial_id trial))) trials ++ crossTrialFindings trials results = []).
  { unfold deriveRunEvidenceIntegrity. destruct (_ ++ _); by split. }
  rewrite app_nil, flat_map_nil. unfold crossTrialFindings. rewrite (fun l => conj (map_eq_nil _ l) (fun H : l = [] => f_equal (map _) H) : map _ l = [] <-> l = []).
  unfold transaction_owners. rewrite (shared_nil (reported_ids results) (fun t => unique_NoDup _)). setoid_rewrite trialFindings_nil. done.
Qed.

Definition is_invalid (f : Finding) : bool := bool_decide (f_value f = Evidence.cause_invalid).

Lemma gateFinding_invalid trial path name v : existsb is_invalid (gateFinding trial path name v) = true <-> v = Evidence.invalid.
Proof. unfold gateFinding. destruct v; cbn; by split. Qed.

Lemma cross_invalid trials results : existsb is_invalid (crossTrialFindings trials results) = true <-> crossTrialFindings trials results <> [].
Proof. unfold crossTrialFindings. destruct (List.filter _ _) as [|[id ts] l]; by split. Qed.

Lemma cross_nil trials results : crossTrialFindings trials results = [] <-> transactions_apart trials results.
Proof.
  unfold crossTrialFindings. rewrite (fun l => conj (map_eq_nil _ l) (fun H : l = [] => f_equal (map _) H) : map _ l = [] <-> l = []).
  apply (shared_nil (reported_ids results) (fun t => unique_NoDup _)).
Qed.

Definition trial_invalid_evidence (results : OracleResultsByTrial) (t : DeclaredTrial) : Prop :=
  exists r, result_of results (trial_id t) = Some r
    /\ (evidence_gate (record r) = Evidence.invalid \/ Oracle.or_identity_integrity (record r) = Evidence.invalid).

Lemma trialFindings_invalid trial result : existsb is_invalid (trialFindings trial result) = true <->
  exists r, result = Some r /\ (evidence_gate (record r) = Evidence.invalid \/ Oracle.or_identity_integrity (record r) = Evidence.invalid).
Proof.
  unfold trialFindings. destruct result as [r|]; [|by split; [|intros (? & [=] & _)]].
  rewrite existsb_app, orb_true_iff, !gateFinding_invalid. split; [intros H; by exists r|by intros (? & [= <-] & H)].
Qed.

(** A run's evidence is verified exactly when every trial shows it and no transaction is shared. Evidence integrity
    is verified iff every declared trial has a frozen oracle result whose evidence gate and identity integrity are verified and no
    provider transaction id is reported by two of the trials; otherwise it is invalid iff some result is invalid in one of the two
    or a transaction is shared, and unverified in the remaining cases. *)
Theorem evidence_integrity_exact (trials : list DeclaredTrial) (results : OracleResultsByTrial) :
  (integrity_status (deriveRunEvidenceIntegrity trials results) = Evidence.verified <->
   (forall t, t ∈ trials -> trial_sound results t) /\ transactions_apart trials results)
  /\ (integrity_status (deriveRunEvidenceIntegrity trials results) = Evidence.invalid <->
      (exists t, t ∈ trials /\ trial_invalid_evidence results t) \/ ~ transactions_apart trials results)
  /\ integrity_status (deriveRunEvidenceIntegrity trials results) <> Evidence.not_applicable.
Proof.
  rewrite <- integrity_reasons_nil, <- cross_nil, <- cross_invalid.
  assert (Hi : (exists t, t ∈ trials /\ trial_invalid_evidence results t) <->
    existsb is_invalid (flat_map (fun trial => trialFindings trial (result_of results (trial_id trial))) trials) = true).
  { rewrite existsb_true. unfold trial_invalid_evidence. split.
    - intros (t & Ht & H). apply (trialFindings_invalid t), existsb_true in H as (f & Hf & Hv). exists f. split; [|done].
      rewrite list_elem_of_In, in_flat_map. exists t. by rewrite <- !list_elem_of_In.
    - intros (f & Hf & Hv). rewrite list_elem_of_In, in_flat_map in Hf. destruct Hf as (t & Ht & Hf). apply list_elem_of_In in Ht, Hf. exists t. split; [done|].
      apply (trialFindings_invalid t), existsb_true. by exists f. }
  rewrite Hi, <- orb_true_iff, <- existsb_app. unfold deriveRunEvidenceIntegrity.
  change (fun f => bool_decide (f_value f = Evidence.cause_invalid)) with is_invalid.
  destruct (_ ++ crossTrialFindings trials results) as [|f l]; [by split_and!|]. cbn [integrity_reasons map]. by destruct (existsb is_invalid (f :: l)).
Qed.

(** ** Equality *)

Lemma mapR_total {A B E} (f : A -> Result B E) (P : A -> B -> Prop) l :
  (forall x, x ∈ l -> exists y, f x = Ok y /\ P x y) -> exists ys, mapR f l = Ok ys /\ Forall2 P l ys.
Proof.
  induction l as [|x l IH]; intros H; [by exists []|]. destruct (H x) as (y & Hy & HP); [left|]. destruct IH as (ys & Hys & HPs); [intros z Hz; apply H; by right|].
  exists (y :: ys). cbn [mapR]. rewrite Hy. cbn [bind_result]. rewrite Hys. by split; [|constructor].
Qed.

Lemma unique_at_most_one (l : list string) : (length (unique l) <= 1)%nat <-> forall a b, a ∈ l -> b ∈ l -> a = b.
Proof.
  setoid_rewrite <- unique_elem. pose proof (unique_NoDup l) as Hn. destruct (unique l) as [|x [|y u]]; cbn [length].
  - split; [by intros _ ? ? ?%not_elem_of_nil|lia].
  - split; [|lia]. by intros _ ? ? ->%list_elem_of_singleton ->%list_elem_of_singleton.
  - split; [lia|]. intros H. apply NoDup_cons in Hn as [Hx _]. rewrite (H x y) in Hx; [|left|right; left]. exfalso. apply Hx. left.
Qed.

(** Both absent, or structurally equal. *)
Definition same_value (a b : option json) : Prop :=
  match a, b with None, None => True | Some x, Some y => IngestionCorrect.json_same x y = true | _, _ => False end.

Definition formed_value (v : option json) : Prop := forall x, v = Some x -> well_formed x.

(** No value is written like an absent one. *)
Lemma key_not_absent v : well_formed v -> canonicalJson v <> Ok ABSENT_VALUE.
Proof.
  intros Hv. rewrite Canonical.canonicalJson_w by done. intros [= H]. apply (f_equal chars) in H. rewrite chars_text in H.
  destruct (Canonical.text_head v Hv) as (c & rest & E & Hk). rewrite E in H. injection H as -> _. destruct v; done.
Qed.

Lemma value_key_exact a b : formed_value a -> formed_value b ->
  exists ka kb, value_key a = Ok ka /\ value_key b = Ok kb /\ (ka = kb <-> same_value a b).
Proof.
  intros Ha Hb. destruct a as [x|], b as [y|]; cbn [value_key same_value].
  - apply Canonical.canonical_texts; [by apply Ha|by apply Hb].
  - destruct (Canonical.canonical_texts x x (Ha x eq_refl) (Ha x eq_refl)) as (k & _ & Hk & _ & _). exists k, ABSENT_VALUE. split; [done|]. split; [done|].
    split; [|done]. intros ->. by apply (key_not_absent x); [apply Ha|].
  - destruct (Canonical.canonical_texts y y (Hb y eq_refl) (Hb y eq_refl)) as (k & _ & Hk & _ & _). exists ABSENT_VALUE, k. split; [done|]. split; [done|].
    split; [|done]. intros <-. by apply (key_not_absent y); [apply Hb|].
  - by exists ABSENT_VALUE, ABSENT_VALUE.
Qed.

Section equality.
Context (declarations : list DeclaredVariantDifference).
Context (declarations_formed : forall d v, d ∈ declarations -> well_formed (declared_value d v)).

Definition formed_values (vs : FieldValues) : Prop := forall x, x ∈ vs -> formed_value x.2.

(** Two of the values differ. *)
Definition differs (vs : FieldValues) : Prop := exists x y, x ∈ vs /\ y ∈ vs /\ ~ same_value x.2 y.2.

#[local] Instance same_value_dec a b : Decision (same_value a b).
Proof. destruct a, b; cbn; apply _. Defined.

Lemma differs_dec vs : differs vs \/ ~ differs vs.
Proof.
  destruct (decide (Exists (fun x => Exists (fun y => ~ same_value x.2 y.2) vs) vs)) as [H|H].
  - left. apply Exists_exists in H as (x & Hx & H). apply Exists_exists in H as (y & Hy & H). by exists x, y.
  - right. intros (x & y & Hx & Hy & Hn). apply H, Exists_exists. exists x. split; [done|]. apply Exists_exists. by exists y.
Qed.

(** The manifest declares the field, the projection admits declarations, and every trial shows its variant's declared value. *)
Definition declared_as (id : EqualityProjectionId) (f : string) (vs : FieldValues) : Prop :=
  id ∈ DECLARABLE_PROJECTIONS /\ exists d, find_first (fun d => bool_decide (parameter d = f)) declarations = Some d
  /\ forall x, x ∈ vs -> exists v, x.2 = Some v /\ IngestionCorrect.json_same v (declared_value d (ct_variant_id x.1)) = true.

Lemma keys_exact vs : formed_values vs -> exists ks, mapR (fun v => value_key v.2) vs = Ok ks /\ ((length (unique ks) <= 1)%nat <-> ~ differs vs).
Proof.
  intros Hf. destruct (mapR_total (fun v : ComparisonTrialInputs * option json => value_key v.2) (fun v k => value_key v.2 = Ok k) vs) as (ks & Hks & H).
  { intros x Hx. destruct (value_key_exact x.2 x.2 (Hf x Hx) (Hf x Hx)) as (k & _ & Hk & _ & _). by exists k. }
  exists ks. split; [done|]. rewrite unique_at_most_one. split.
  - intros Hu (x & y & Hx & Hy & Hn). apply Hn. destruct (value_key_exact x.2 y.2 (Hf x Hx) (Hf y Hy)) as (kx & ky & Ex & Ey & Hxy). apply Hxy.
    apply list_elem_of_lookup in Hx as [i Hi], Hy as [j Hj].
    destruct (Forall2_lookup_l _ _ _ _ _ H Hi) as (a & Ha & Ea), (Forall2_lookup_l _ _ _ _ _ H Hj) as (b & Hb & Eb).
    assert (a = b) by (apply Hu; by eapply list_elem_of_lookup_2). congruence.
  - intros Hn a b Ha Hb. apply list_elem_of_lookup in Ha as [i Hi], Hb as [j Hj].
    destruct (Forall2_lookup_r _ _ _ _ _ H Hi) as (x & Hx & Ex), (Forall2_lookup_r _ _ _ _ _ H Hj) as (y & Hy & Ey).
    apply list_elem_of_lookup_2 in Hx, Hy. destruct (value_key_exact x.2 y.2 (Hf x Hx) (Hf y Hy)) as (kx & ky & Kx & Ky & Hxy).
    assert (Hk : kx = ky); [|congruence]. apply Hxy. destruct (decide (kx = ky)) as [E|E]; [by apply Hxy|]. destruct Hn. exists x, y. split; [done|]. split; [done|].
    intros Hs. by apply E, Hxy.
Qed.

Lemma every_declared_exact d vs : d ∈ declarations -> formed_values vs ->
  exists b, every_declared d vs = Ok b /\ (b = true <-> forall x, x ∈ vs -> exists v, x.2 = Some v /\ IngestionCorrect.json_same v (declared_value d (ct_variant_id x.1)) = true).
Proof.
  intros Hd. induction vs as [|[t v] vs IH]; intros Hf; cbn [every_declared].
  - exists true. split; [done|]. split; [by intros _ ? ?%not_elem_of_nil|done].
  - destruct v as [v|].
    2: { exists false. split; [done|]. split; [done|]. intros H. destruct (H (t, None)) as (? & [=] & _). left. }
    assert (Hv : well_formed v) by (by apply (Hf (t, Some v)); [left|]).
    rewrite (Canonical.structurallyEqual_exact v (declared_value d (ct_variant_id t)) Hv (declarations_formed d _ Hd)). cbn [bind_result]. rewrite IngestionCorrect.same_value. destruct (IngestionCorrect.json_same v _) eqn:E.
    + destruct IH as (b & Hb & H); [intros x Hx; apply Hf; by right|]. exists b. split; [done|]. rewrite H. split.
      * intros Hall x [->|Hx]%elem_of_cons; [by exists v|by apply Hall].
      * intros Hall x Hx. apply Hall. by right.
    + exists false. split; [done|]. split; [done|]. intros H. destruct (H (t, Some v)) as (u & [= <-] & Hu); [left|]. cbn [fst] in Hu. congruence.
Qed.

Lemma isDeclared_exact id f vs : formed_values vs -> exists b, isDeclaredDifference id f vs declarations = Ok b /\ (b = true <-> declared_as id f vs).
Proof.
  intros Hf. unfold isDeclaredDifference, declared_as. destruct (memb id DECLARABLE_PROJECTIONS) eqn:Em; cbn [negb].
  2: { apply memb_false in Em. exists false. split; [done|]. by split; [|intros [? _]]. }
  apply memb_true in Em. destruct (find_first _ declarations) as [d|] eqn:Ed.
  2: { exists false. split; [done|]. split; [done|]. by intros (_ & ? & [=] & _). }
  assert (Hd : d ∈ declarations) by (by apply find_first_Some in Ed as [? _]).
  destruct (every_declared_exact d vs Hd Hf) as (b & Hb & H). exists b. split; [done|]. rewrite H. split; [intros Hall; split; [done|]; by exists d|].
  by intros (_ & ? & [= <-] & ?).
Qed.

Definition undeclared_in (ds : list ProjectionDifference) : Prop := exists d, d ∈ ds /\ declared d = false.

Lemma undeclared_filter ds :
  List.filter (fun d => negb (declared d)) ds = [] /\ ~ undeclared_in ds
  \/ exists d l, List.filter (fun d => negb (declared d)) ds = d :: l /\ undeclared_in ds.
Proof.
  destruct (List.filter _ ds) as [|d l] eqn:E.
  - left. split; [done|]. rewrite filter_nil in E. intros (d & Hd & H). apply E in Hd. by rewrite H in Hd.
  - right. exists d, l. split; [done|]. assert (Hd : d ∈ List.filter (fun d => negb (declared d)) ds) by (rewrite E; left).
    apply elem_of_filter_bool in Hd as [Hd H]. exists d. split; [done|]. by destruct (declared d).
Qed.

Lemma undeclared_app a b : undeclared_in (a ++ b) <-> undeclared_in a \/ undeclared_in b.
Proof. unfold undeclared_in. setoid_rewrite elem_of_app. naive_solver. Qed.

Lemma undeclared_concat l : undeclared_in (concat l) <-> exists ds, ds ∈ l /\ undeclared_in ds.
Proof.
  induction l as [|ds l IH]; cbn [concat]; [split; [by intros (d & ?%not_elem_of_nil & _)|by intros (? & ?%not_elem_of_nil & _)]|].
  rewrite undeclared_app, IH. setoid_rewrite elem_of_cons. naive_solver.
Qed.

(** Whether a group of sheets has an undeclared difference in one part. *)
Definition field_undeclared (id : EqualityProjectionId) (part : ProjectionSheet -> JsonObject) (group : list CoveredSheet) (f : string) : Prop :=
  differs (field_values part f group) /\ ~ declared_as id f (field_values part f group).

Definition formed_group (part : ProjectionSheet -> JsonObject) (group : list CoveredSheet) : Prop := forall f, formed_values (field_values part f group).

Lemma fieldDifference_exact id group part f : formed_group part group ->
  exists ds, fieldDifference declarations id group part f = Ok ds /\ (undeclared_in ds <-> field_undeclared id part group f).
Proof.
  intros Hf. unfold fieldDifference. destruct (keys_exact _ (Hf f)) as (ks & -> & Hk). cbn [bind_result].
  destruct (length (unique ks) <=? 1)%nat eqn:E.
  { apply Nat.leb_le, Hk in E. exists []. split; [done|]. split; [by intros (d & ?%not_elem_of_nil & _)|by intros [? _]]. }
  destruct (isDeclared_exact id f _ (Hf f)) as (b & -> & Hb). cbn [bind_result]. eexists. split; [done|].
  unfold undeclared_in, field_undeclared. setoid_rewrite list_elem_of_singleton. split.
  - intros (d & -> & Hd). cbn [declared] in Hd. subst b. split; [|by rewrite <- Hb]. apply Nat.leb_gt in E.
    destruct (differs_dec (field_values part f group)) as [|Hn]; [done|]. apply Hk in Hn. lia.
  - intros [_ Hn]. eexists. split; [done|]. cbn [declared]. destruct b; [|done]. by destruct Hn; apply Hb.
Qed.

Lemma differs_named part f group : differs (field_values part f group) -> f ∈ field_names part group.
Proof.
  intros (x & y & Hx & Hy & Hn). unfold field_names. apply unique_elem.
  assert (H : exists z, z ∈ field_values part f group /\ z.2 <> None).
  { destruct (x.2) eqn:E; [exists x; by rewrite E|]. destruct (y.2) eqn:E'; [exists y; by rewrite E'|]. by destruct Hn. }
  destruct H as (z & Hz & Hv). apply list_elem_of_fmap in Hz as (c & -> & Hc). apply list_elem_of_In, in_flat_map. exists c. split; [by apply list_elem_of_In|].
  cbn [snd] in Hv. unfold ownValue in Hv. apply list_elem_of_In. destruct (member f (part (cs_sheet c))) as [v|] eqn:E; [|done].
  by apply Canonical.member_elem, (list_elem_of_fmap_2 fst) in E.
Qed.

Lemma Forall2_undeclared {A} (P : A -> Prop) (l : list A) (dss : list (list ProjectionDifference)) :
  Forall2 (fun x ds => undeclared_in ds <-> P x) l dss -> undeclared_in (concat dss) <-> exists x, x ∈ l /\ P x.
Proof.
  intros H. rewrite undeclared_concat. induction H as [|x ds l dss Hx H IH].
  - split; [by intros (? & ?%not_elem_of_nil & _)|by intros (? & ?%not_elem_of_nil & _)].
  - setoid_rewrite elem_of_cons. naive_solver.
Qed.

Lemma fieldDifferences_exact id group part : formed_group part group ->
  exists ds, fieldDifferences declarations id group part = Ok ds /\ (undeclared_in ds <-> exists f, field_undeclared id part group f).
Proof.
  intros Hf. unfold fieldDifferences.
  destruct (mapR_total (fieldDifference declarations id group part) (fun f ds => undeclared_in ds <-> field_undeclared id part group f) (field_names part group)) as (dss & -> & H).
  { intros f _. by apply fieldDifference_exact. }
  cbn [bind_result]. eexists. split; [done|]. rewrite (Forall2_undeclared _ _ _ H). split; [intros (f & _ & ?); by exists f|].
  intros (f & Hd). exists f. split; [|done]. by apply differs_named, Hd.
Qed.

(** *** One projection *)

Definition sheets_of (id : EqualityProjectionId) (trials : list ComparisonTrialInputs) : list CoveredSheet := covered_sheets id (covered_trials id trials).

(** The projection covers every declared trial of its scenario, and each has a sheet. *)
Definition inputs_complete (id : EqualityProjectionId) (trials : list ComparisonTrialInputs) : Prop :=
  length (covered_trials id trials) = expected_count id /\ forall t, t ∈ covered_trials id trials -> exists s, projections t id = with_sheet s.

(** Some field differs undeclared: a common one across the covered trials, or a strategy's own within the trials of one variant. *)
Definition undeclared_difference (id : EqualityProjectionId) (trials : list ComparisonTrialInputs) : Prop :=
  (exists f, field_undeclared id common (sheets_of id trials) f)
  \/ exists v f, field_undeclared id within_variant (List.filter (fun c => bool_decide (ct_variant_id (cs_trial c) = v)) (sheets_of id trials)) f.

Definition formed_trials (trials : list ComparisonTrialInputs) : Prop :=
  forall t id s f v, t ∈ trials -> projections t id = with_sheet s -> member f (common s) = Some v \/ member f (within_variant s) = Some v -> well_formed v.

Lemma formed_sheets id trials c : formed_trials trials -> c ∈ sheets_of id trials ->
  forall f v, member f (common (cs_sheet c)) = Some v \/ member f (within_variant (cs_sheet c)) = Some v -> well_formed v.
Proof.
  intros Hf Hc f v Hv. apply list_elem_of_omap in Hc as (t & Ht & Hc). destruct (projections t id) as [s|] eqn:E; [|done]. injection Hc as <-.
  apply (Hf t id s f v); [by apply elem_of_filter_bool in Ht as [? _]|done|done].
Qed.

Lemma gaps_nil id trials :
  (if bool_decide (length (covered_trials id trials) = expected_count id) then [] else [coverageGap id (length (covered_trials id trials)) (expected_count id)])
    ++ sheet_gaps id (covered_trials id trials) = [] <-> inputs_complete id trials.
Proof.
  rewrite app_nil. unfold inputs_complete, sheet_gaps. rewrite flat_map_nil. case_bool_decide as Hl; [|by split; intros []]. split.
  - intros [_ H]. split; [done|]. intros t Ht. specialize (H t Ht). destruct (projections t id) as [s|]; [by exists s|done].
  - intros [_ H]. split; [done|]. intros t Ht. by destruct (H t Ht) as [s ->].
Qed.

Lemma evaluateProjection_exact id trials : formed_trials trials ->
  exists o, evaluateProjection declarations id trials = Ok o
  /\ (ep_result (projection o) = Evidence.v_pass <-> inputs_complete id trials /\ ~ undeclared_difference id trials)
  /\ (ep_result (projection o) = Evidence.v_fail <-> undeclared_difference id trials)
  /\ (po_reasons o = [] <-> ep_result (projection o) = Evidence.v_pass).
Proof.
  intros Hf. unfold evaluateProjection. fold (sheets_of id trials).
  destruct (fieldDifferences_exact id (sheets_of id trials) common) as (ds & -> & Hds).
  { intros f x Hx v Hv. apply list_elem_of_fmap in Hx as (c & -> & Hc). apply (formed_sheets id trials c Hf Hc f). by left. }
  cbn [bind_result].
  destruct (mapR_total (fun group => fieldDifferences declarations id group within_variant)
    (fun group ds => undeclared_in ds <-> exists f, field_undeclared id within_variant group f) (variantGroups (sheets_of id trials))) as (grouped & -> & Hg).
  { intros group Hgroup. apply fieldDifferences_exact. intros f x Hx v Hv. apply list_elem_of_fmap in Hx as (c & -> & Hc).
    apply list_elem_of_fmap in Hgroup as (variant & -> & _). apply elem_of_filter_bool in Hc as [Hc _]. apply (formed_sheets id trials c Hf Hc f). by right. }
  cbn [bind_result]. eexists. split; [done|]. cbn [projection ep_result po_reasons].
  assert (Hu : undeclared_in (ds ++ concat grouped) <-> undeclared_difference id trials).
  { rewrite undeclared_app, Hds, (Forall2_undeclared _ _ _ Hg). unfold undeclared_difference. apply or_iff_compat_l. split.
    - intros (group & (v & -> & _)%list_elem_of_fmap & f & Hfv). by exists v, f.
    - intros (v & f & Hfv). eexists. split; [|by exists f]. unfold variantGroups. cbn [map]. destruct v; [left|right; left]. }
  rewrite <- gaps_nil, <- Hu. set (gaps := _ ++ sheet_gaps _ _). clearbody gaps. clear Hu.
  destruct (undeclared_filter (ds ++ concat grouped)) as [[-> Hn]|(d & l & -> & Hy)]; cbn [map app]; destruct gaps; split_and!; split; intros H;
    (done || by destruct H).
Qed.

(** *** The whole evaluation *)

Lemma projection_ids id : id ∈ EQUALITY_PROJECTION_IDS.
Proof. unfold EQUALITY_PROJECTION_IDS. destruct id; set_solver. Qed.

(** The equality verdict. *)
Lemma evaluateEquality_exact trials : formed_trials trials ->
  exists a, evaluateEquality declarations trials = Ok a
  /\ (equality_result a = Evidence.v_pass <-> forall id, inputs_complete id trials /\ ~ undeclared_difference id trials)
  /\ (equality_result a = Evidence.v_fail <-> exists id, undeclared_difference id trials)
  /\ (ea_reasons a = [] <-> equality_result a = Evidence.v_pass).
Proof.
  intros Hf. unfold evaluateEquality.
  destruct (mapR_total (fun id => evaluateProjection declarations id trials) (fun id o =>
    (ep_result (projection o) = Evidence.v_pass <-> inputs_complete id trials /\ ~ undeclared_difference id trials)
    /\ (ep_result (projection o) = Evidence.v_fail <-> undeclared_difference id trials)
    /\ (po_reasons o = [] <-> ep_result (projection o) = Evidence.v_pass)) EQUALITY_PROJECTION_IDS) as (os & -> & H).
  { intros id _. by apply evaluateProjection_exact. }
  cbn [bind_result].
  assert (Hnil : flat_map po_reasons os = [] <-> forall id, inputs_complete id trials /\ ~ undeclared_difference id trials).
  { rewrite flat_map_nil. split.
    - intros Ho id. pose proof (projection_ids id) as Hid. apply list_elem_of_lookup in Hid as [i Hi]. destruct (Forall2_lookup_l _ _ _ _ _ H Hi) as (o & Hl & Hp & _ & Hr).
      apply Hp, Hr, Ho. by eapply list_elem_of_lookup_2.
    - intros Hall o Ho. apply list_elem_of_lookup in Ho as [i Hi]. destruct (Forall2_lookup_r _ _ _ _ _ H Hi) as (id & _ & Hp & _ & Hr). apply Hr, Hp, Hall. }
  assert (Hfail : existsb (fun p => is_fail (ep_result p)) (map projection os) = true <-> exists id, undeclared_difference id trials).
  { rewrite existsb_true. split.
    - intros (p & (o & -> & Ho)%list_elem_of_fmap & Hp). apply list_elem_of_lookup in Ho as [i Hi]. destruct (Forall2_lookup_r _ _ _ _ _ H Hi) as (id & _ & _ & Hx & _).
      exists id. apply Hx. by destruct (ep_result (projection o)).
    - intros [id Hu]. pose proof (projection_ids id) as Hid. apply list_elem_of_lookup in Hid as [i Hi]. destruct (Forall2_lookup_l _ _ _ _ _ H Hi) as (o & Hl & _ & Hx & _).
      exists (projection o). split; [apply list_elem_of_fmap_2; by eapply list_elem_of_lookup_2|]. apply Hx in Hu. by rewrite Hu. }
  destruct (flat_map po_reasons os) as [|r rs]; eexists; (split; [done|]); cbn [equality_result ea_reasons]; rewrite <- Hnil.
  - split; [done|]. split; [|done]. split; [done|]. intros [id Hu]. destruct (proj1 Hnil eq_refl id) as [_ Hn]. by apply Hn in Hu.
  - rewrite <- Hfail. unfold failedResult. by destruct (existsb _ _); split_and!.
Qed.
End equality.

(** C14: equality is decided by the fields. For trials whose values are well formed and a manifest whose declared values are, the
    evaluation never throws, and its result is pass iff every projection covers all the trials it compares with a sheet each and no
    field differs undeclared, fail iff some field does, and indeterminate otherwise. A field differs when two trials show structurally different
    values, or one lacks it; it is declared only in a projection that admits declarations, when the manifest declares it and every
    trial shows its variant's declared value; a strategy's own fields are compared within one variant. *)
Theorem equality_decided_by_fields declarations trials :
  (forall d v, d ∈ declarations -> well_formed (declared_value d v)) -> formed_trials trials ->
  exists a, evaluateEquality declarations trials = Ok a
  /\ (equality_result a = Evidence.v_pass <-> forall id, inputs_complete id trials /\ ~ undeclared_difference declarations id trials)
  /\ (equality_result a = Evidence.v_fail <-> exists id, undeclared_difference declarations id trials)
  /\ (ea_reasons a = [] <-> equality_result a = Evidence.v_pass).
Proof. intros Hd Hf. by apply evaluateEquality_exact. Qed.

(** Four trials whose visibility timeout differs by variant, as the manifest declares. *)
Definition demo_difference : DeclaredVariantDifference :=
  MkDifference "source_visibility_timeout_ms" (fun v => JNum (JSInt (if is_durable v then 720000 else 36000))).
Definition demo_trial (n : Z) (v : TrialMessage.VariantId) (s : ControlItems.Scenario) : ComparisonTrialInputs :=
  MkTrialInputs (string_of_Z n) v s (fun id =>
    match id with
    | message_source_protocol => sheet [("source_visibility_timeout_ms", declared_value demo_difference v)] [] []
    | caller_timing => sheet [("provider_client_deadline_ms", JNum (JSInt 3000))] (match v with TrialMessage.v_durable => [("durable_retry_delay_ms", JNum (JSInt 1000))] | _ => [] end) []
    | _ => sheet [("value", JStr "same")] [] []
    end).
Definition demo_trials : list ComparisonTrialInputs := map (fun '(n, v, s) => demo_trial n v s) RUN_TRIAL_ORDER.

Lemma demo_formed : formed_trials demo_trials.
Proof.
  intros t id s f v Ht Hs Hv. unfold demo_trials in Ht. apply list_elem_of_fmap in Ht as ([[n variant] sc] & -> & _).
  destruct id; cbn in Hs; injection Hs as <-; cbn in Hv; destruct variant; cbn in Hv; repeat case_bool_decide; destruct Hv as [Hv|Hv]; try discriminate Hv; injection Hv as <-; exact I.
Qed.

Lemma equality_decided_by_fields_witness :
  exists a, evaluateEquality [demo_difference] demo_trials = Ok a /\ equality_result a = Evidence.v_pass
  /\ forall id, inputs_complete id demo_trials /\ ~ undeclared_difference [demo_difference] id demo_trials.
Proof.
  destruct (equality_decided_by_fields [demo_difference] demo_trials) as (a & Ha & Hp & _).
  - intros d v ->%list_elem_of_singleton. exact I.
  - exact demo_formed.
  - exists a. split; [exact Ha|]. assert (E : equality_result a = Evidence.v_pass) by (vm_compute in Ha; injection Ha as <-; reflexivity).
    split; [exact E|]. by apply Hp.
Defined.

(** ** Eligibility *)

Lemma perTrial_nil input covers reasonOf : perTrial input covers reasonOf = [] <->
  forall t, t ∈ ce_trials input -> covers t = true -> exists r, result_of (ce_oracle_results input) (trial_id t) = Some r /\ reasonOf t r = None.
Proof.
  unfold perTrial. rewrite flat_map_nil. setoid_rewrite elem_of_filter_bool. unfold missingResult. split.
  - intros H t Ht Hc. specialize (H t (conj Ht Hc)). destruct (result_of _ _) as [r|]; [|done]. exists r. split; [done|]. by destruct (reasonOf t r).
  - intros H t [Ht Hc]. destruct (H t Ht Hc) as (r & -> & ->). done.
Qed.

Definition late_acceptable (late : option (FrozenRecord LateEvidenceAssessment)) : Prop :=
  exists l, late = Some l /\ (late_evidence_status (record l) = late_none \/ late_evidence_status (record l) = late_consistent).

Lemma lateEvidenceReasons_nil late : lateEvidenceReasons late = [] <-> late_acceptable late.
Proof.
  unfold lateEvidenceReasons, late_acceptable. destruct late as [l|]; [|by split; [|intros (? & [=] & _)]].
  transitivity (late_evidence_status (record l) = late_none \/ late_evidence_status (record l) = late_consistent); [|naive_solver].
  destruct (late_evidence_status (record l)); cbn; naive_solver.
Qed.

(** No leak that can process, or may. *)
Definition isolated (audit : option (FrozenRecord LeakAuditResult)) : Prop :=
  exists a, audit = Some a /\ forall l, l ∈ leaks (record a) -> capability_class l = storage_only \/ capability_class l = identity.

Lemma leakReasons_nil audit : leakReasons audit = [] <-> isolated audit.
Proof.
  unfold leakReasons, isolated. destruct audit as [a|]; [|by split; [|intros (? & [=] & _)]].
  transitivity (List.filter (fun l => leakCompromisesIsolation (capability_class l)) (leaks (record a)) = []).
  { split; [apply map_eq_nil|by intros ->]. }
  rewrite filter_nil.
  assert (H : forall l, leakCompromisesIsolation (capability_class l) = false <-> capability_class l = storage_only \/ capability_class l = identity).
  { intros l. destruct (capability_class l); cbn; naive_solver. }
  setoid_rewrite H. naive_solver.
Qed.

(** What a trial's result must show for the comparison. *)
Definition trial_comparable (results : OracleResultsByTrial) (t : DeclaredTrial) : Prop :=
  exists r, result_of results (trial_id t) = Some r
    /\ Oracle.or_trial_validity (record r) = Oracle.trial_valid
    /\ (scenario t = ControlItems.CONTROL -> Oracle.sa_control_integrity (Oracle.or_scenario (record r)) = Evidence.verified)
    /\ (scenario t = ControlItems.COMMIT_THEN_TIMEOUT -> Oracle.sa_treatment_fidelity (Oracle.or_scenario (record r)) = Evidence.verified).

Lemma result_checks_nil input :
  flat_map (fun trial => missingResult trial (ce_oracle_results input)) (ce_trials input) = []
  /\ perTrial input (fun _ => true) validityReason = [] /\ perTrial input (has_scenario ControlItems.CONTROL) controlReason = []
  /\ perTrial input (has_scenario ControlItems.COMMIT_THEN_TIMEOUT) treatmentReason = []
  <-> forall t, t ∈ ce_trials input -> trial_comparable (ce_oracle_results input) t.
Proof.
  rewrite !perTrial_nil. unfold has_scenario, validityReason, controlReason, treatmentReason, trial_comparable. split.
  - intros (_ & Hv & Hc & Ht) t Hin. destruct (Hv t Hin eq_refl) as (r & Hr & H). exists r. split; [done|]. split; [by case_bool_decide|]. split.
    + intros Hs. destruct (Hc t Hin) as (r' & Hr' & H'); [by apply bool_decide_eq_true|]. assert (r' = r) as -> by congruence. by case_bool_decide.
    + intros Hs. destruct (Ht t Hin) as (r' & Hr' & H'); [by apply bool_decide_eq_true|]. assert (r' = r) as -> by congruence. by case_bool_decide.
  - intros H. split_and!.
    + apply flat_map_nil. intros t Hin. destruct (H t Hin) as (r & Hr & _). unfold missingResult. by rewrite Hr.
    + intros t Hin _. destruct (H t Hin) as (r & Hr & Hv & _). exists r. split; [done|]. by rewrite bool_decide_eq_true_2.
    + intros t Hin Hs%bool_decide_eq_true. destruct (H t Hin) as (r & Hr & _ & Hc & _). exists r. split; [done|]. by rewrite bool_decide_eq_true_2 by auto.
    + intros t Hin Hs%bool_decide_eq_true. destruct (H t Hin) as (r & Hr & _ & _ & Hc). exists r. split; [done|]. by rewrite bool_decide_eq_true_2 by auto.
Qed.

Lemma checks_nil input : flat_map reasons (comparison_checks input) = [] <->
  (forall t, t ∈ ce_trials input -> trial_comparable (ce_oracle_results input) t)
  /\ ea_reasons (ce_equality input) = [] /\ integrity_reasons (ce_evidence_integrity input) = []
  /\ late_acceptable (ce_late_evidence input) /\ ce_contradictory_amendments input = [] /\ isolated (ce_leak_audit input).
Proof.
  unfold comparison_checks, check. cbn [flat_map reasons]. rewrite app_nil_r, !app_nil, lateEvidenceReasons_nil, leakReasons_nil, <- result_checks_nil.
  assert (Hm : map contradictoryReason (ce_contradictory_amendments input) = [] <-> ce_contradictory_amendments input = []) by (split; [apply map_eq_nil|by intros ->]).
  rewrite Hm. tauto.
Qed.

Lemma eligible_iff input : comparison_eligibility (ce_outcome (deriveComparisonEligibility input)) = Amendments.eligible <-> flat_map reasons (comparison_checks input) = [].
Proof. rewrite <- uniqueReasons_nil. unfold deriveComparisonEligibility. by destruct (uniqueReasons _). Qed.

Lemma outcome_reasons input : comparison_ineligibility_reasons (ce_outcome (deriveComparisonEligibility input)) = uniqueReasons (flat_map reasons (comparison_checks input)).
Proof. unfold deriveComparisonEligibility. by destruct (uniqueReasons _). Qed.

Lemma outcome_same input : eligibilityOutcome (ce_outcome (deriveComparisonEligibility input)) = ce_outcome (deriveComparisonEligibility input).
Proof. unfold deriveComparisonEligibility. by destruct (uniqueReasons _). Qed.

(** The condition of the comparison over the run's frozen evidence. *)
Definition comparable (input : RunComparisonInput) : Prop :=
  (forall t, t ∈ rc_trials input -> trial_comparable (rc_oracle_results input) t /\ trial_sound (rc_oracle_results input) t)
  /\ transactions_apart (rc_trials input) (rc_oracle_results input)
  /\ (forall id, inputs_complete id (rc_trial_inputs input) /\ ~ undeclared_difference (rc_declared_variant_differences input) id (rc_trial_inputs input))
  /\ late_acceptable (rc_late_evidence input) /\ rc_contradictory_amendments input = [] /\ isolated (rc_leak_audit input).

Definition formed_comparison (input : RunComparisonInput) : Prop :=
  (forall d v, d ∈ rc_declared_variant_differences input -> well_formed (declared_value d v)) /\ formed_trials (rc_trial_inputs input).

Lemma assess_exact (input : RunComparisonInput) : formed_comparison input ->
  exists c, assessRunComparison input = Ok c
  /\ (comparison_eligibility (ca_eligibility (assessment c)) = Amendments.eligible <-> comparable input)
  /\ (comparison_ineligibility_reasons (ca_eligibility (assessment c)) = [] <-> comparison_eligibility (ca_eligibility (assessment c)) = Amendments.eligible)
  /\ NoDup (comparison_ineligibility_reasons (ca_eligibility (assessment c)))
  /\ (forall r, r ∈ comparison_ineligibility_reasons (ca_eligibility (assessment c)) <-> exists k, k ∈ eligibility_checks (assessment c) /\ r ∈ reasons k).
Proof.
  intros [Hd Hf]. unfold assessRunComparison. destruct (evaluateEquality_exact _ Hd _ Hf) as (a & -> & Hp & _ & Hr). cbn [bind_result].
  eexists. split; [done|]. cbn [assessment ca_eligibility eligibility_checks]. set (ei := MkEligibilityInput _ _ _ _ _ _ _). rewrite outcome_same, outcome_reasons.
  pose proof (uniqueReasons_spec (flat_map reasons (comparison_checks ei))) as [Hn Hu]. split_and!; [|by rewrite uniqueReasons_nil, eligible_iff|done|].
  - rewrite eligible_iff, checks_nil. subst ei. cbn [ce_trials ce_oracle_results ce_equality ce_evidence_integrity ce_late_evidence ce_contradictory_amendments ce_leak_audit].
    rewrite Hr, Hp, integrity_reasons_nil. unfold comparable. split; [intros (? & ? & [? ?] & ? & ? & ?); split_and!; auto|].
    intros (H & ? & ? & ? & ? & ?). split_and!; auto; intros t Ht; by destruct (H t Ht).
  - intros r. rewrite Hu, list_elem_of_In, in_flat_map. setoid_rewrite <- list_elem_of_In.
    assert (Hc : checks (deriveComparisonEligibility ei) = comparison_checks ei) by (unfold deriveComparisonEligibility; by destruct (uniqueReasons _)). by rewrite Hc.
Qed.

(** C13: a comparison is eligible exactly when the evidence allows it. For a run whose values are well formed, the assessment
    never throws, and it finds the comparison eligible iff every declared trial has a frozen oracle result that is valid, with its control
    integrity or treatment fidelity, its evidence gate and its identity integrity verified; no transaction id is reported by two trials; the
    trials are equal but for declared differences; late evidence is none or consistent; no amendment is contradictory; and the leak audit
    exists and names no resource that can or may process. It is never the verdicts that decide. The reasons are those of the nine checks,
    each once, and an eligible comparison has none. *)
Theorem comparison_eligible_iff (input : RunComparisonInput) : formed_comparison input ->
  exists c, assessRunComparison input = Ok c
  /\ (comparison_eligibility (ca_eligibility (assessment c)) = Amendments.eligible <-> comparable input)
  /\ (comparison_ineligibility_reasons (ca_eligibility (assessment c)) = [] <-> comparison_eligibility (ca_eligibility (assessment c)) = Amendments.eligible)
  /\ NoDup (comparison_ineligibility_reasons (ca_eligibility (assessment c)))
  /\ (forall r, r ∈ comparison_ineligibility_reasons (ca_eligibility (assessment c)) <-> exists k, k ∈ eligibility_checks (assessment c) /\ r ∈ reasons k).
Proof. apply assess_exact. Qed.

(** An eligible run: four valid trials, each with its own transaction. *)
Definition demo_ref : ArtifactRef := MkArtifactRef "f" "d".
Definition demo_gate (g : Evidence.GateId) : Evidence.GateAssessment := Evidence.MkGate g Evidence.verified [] [].
Definition demo_oracle (n : Z) (s : ControlItems.Scenario) : Oracle.OracleResult :=
  Oracle.MkOracleResult (Journal.id_run "run") "m" (Evidence.MkSubjectTrial (string_of_Z n) "tm" "conventional" s)
    (Oracle.MkVerdictOutcome Evidence.v_pass (Some true) (Some "SUCCEEDED")) Oracle.trial_valid
    (map demo_gate [Evidence.independent_oracle; Evidence.traceability; Evidence.identity_integrity; Evidence.control_integrity; Evidence.treatment_fidelity;
       Evidence.ledger_access; Evidence.settlement; Evidence.rule_evidence; Evidence.evidence_integrity])
    Evidence.verified (Oracle.MkScenario s Evidence.verified Evidence.verified "causal" [] []) [] [] ("l", "d")
    (Oracle.MkMonetaryObservations 1 "10000" [string_of_Z (100 + n)] true) "t".
Definition demo_declared : list DeclaredTrial := map (fun '(n, v, s) => MkDeclared n (string_of_Z n) v s) RUN_TRIAL_ORDER.
Definition demo_input : RunComparisonInput :=
  MkComparisonInput "run" "m" demo_declared [demo_difference] demo_trials
    (map (fun '(n, v, s) => (string_of_Z n, MkFrozen (demo_oracle n s) demo_ref)) RUN_TRIAL_ORDER)
    (Some (MkFrozen (MkLate late_none) demo_ref)) (Some (MkFrozen (MkAudit Amendments.leaks_detected [MkLeak "AWS::SQS::Queue" "q" storage_only]) demo_ref)) [] "t".

Lemma comparison_eligible_iff_witness :
  exists c, assessRunComparison demo_input = Ok c /\ comparison_eligibility (ca_eligibility (assessment c)) = Amendments.eligible /\ comparable demo_input.
Proof.
  destruct (comparison_eligible_iff demo_input) as (c & Hc & He & _).
  - split; [intros d v ->%list_elem_of_singleton; exact I|exact demo_formed].
  - exists c. split; [exact Hc|].
    assert (E : comparison_eligibility (ca_eligibility (assessment c)) = Amendments.eligible) by (vm_compute in Hc; injection Hc as <-; reflexivity).
    split; [exact E|]. by apply He.
Defined.

(** ** The run summary *)

(** The run summary reports each trial as it is. It has the four declared trials in declared order; a trial with a frozen
    oracle result is reported completed with that result's verdict and completion, whatever they are, and any other as incomplete or not
    started by whether its trial manifest was frozen, with one reason; the execution is completed iff every trial is. The six
    operational statuses are those given, and the eligibility is the comparison's. *)
Theorem summary_reports_each_trial (input : RunSummaryInput) :
  let s := buildRunSummary input in
  Forall2 (fun t e =>
    entry_head e = MkHead (sequence t) (trial_id t) (variant_id t) (scenario t)
    /\ match result_of (rs_oracle_results input) (trial_id t) with
       | Some r => e = completed_trial (entry_head e) (ref r) (Oracle.preservation_verdict (Oracle.or_outcome (record r)))
                         (Oracle.correct_completion (Oracle.or_outcome (record r)))
       | None => if memb (trial_id t) (started_trials input) then e = incomplete_trial (entry_head e) [notFrozen t]
                 else e = not_started_trial (entry_head e) [notStarted t]
       end) (of_four (rs_trials input)) (of_four (trial_results s))
  /\ (execution_completed s = true <-> forall t, t ∈ of_four (rs_trials input) -> is_Some (result_of (rs_oracle_results input) (trial_id t))).
Proof.
  assert (H : forall t, entry_head (trialEntry input t) = MkHead (sequence t) (trial_id t) (variant_id t) (scenario t)
    /\ match result_of (rs_oracle_results input) (trial_id t) with
       | Some r => trialEntry input t = completed_trial (entry_head (trialEntry input t)) (ref r) (Oracle.preservation_verdict (Oracle.or_outcome (record r)))
                         (Oracle.correct_completion (Oracle.or_outcome (record r)))
       | None => if memb (trial_id t) (started_trials input) then trialEntry input t = incomplete_trial (entry_head (trialEntry input t)) [notFrozen t]
                 else trialEntry input t = not_started_trial (entry_head (trialEntry input t)) [notStarted t]
       end).
  { intros t. unfold trialEntry. destruct (result_of _ _); [done|]. by destruct (memb _ _). }
  split; [cbn; by repeat constructor; apply H|].
  change (execution_completed (buildRunSummary input)) with (forallb is_completed (map (trialEntry input) (of_four (rs_trials input)))).
  rewrite forallb_forall. setoid_rewrite <- list_elem_of_In. split.
  - intros Hc t Ht. specialize (Hc (trialEntry input t)). destruct (H t) as [_ Hm]. destruct (result_of _ _); [by eexists|].
    assert (Hin : trialEntry input t ∈ map (trialEntry input) (of_four (rs_trials input))) by by apply list_elem_of_fmap_2.
    destruct (memb _ _); rewrite Hm in Hc at 2; by apply Hc in Hin.
  - intros Hc e (t & -> & Ht)%list_elem_of_fmap. destruct (H t) as [_ Hm]. destruct (Hc t Ht) as [r Hr]. rewrite Hr in Hm. by rewrite Hm.
Qed.

End ComparisonCorrect.
