(* ===== verification/StudyCompletion.v ===== *)
(** * Study completion (src/study-1/src/study-comparison/)

    The provenance of the source (study-provenance.ts), the completion verdict over the original package (study-completion.ts),
    the reading of a run package (record-files.ts, run-package-reader.ts) and the two compositions over it
    (run-package-assessment.ts). A record read back is the validated JSON value; the typed view the code casts it to is an
    argument ([RecordViews]), as are [JSON.parse], the validator and the digest. *)

From S2P Require Import Prelude AttemptLifecycle Timestamps Decimals Store JsonText Parsing LeaseHealth Journal ControlItems RequestState Safety TrialMessage Evidence Oracle Ingestion Package Amendments Comparison.
Import Json Store JsonText Journal Comparison.
Import Ingestion(RecordValidator, record_valid, record_invalid, SchemaViolation, instance_path, keyword, v_detail, validateAs, textOf).
Import Evidence(EvidenceRef, MkRef, map_get, ownString).
Import Package(path_of, unitDirectory, UNIT_PATHS, unit_trial).
Import Amendments(PackageVerification, package_eligibility, package_ineligibility_reasons, pv_original_package_index_sha256, leak_text, lease_text, cleanup_text).
Open Scope Z_scope.

Module StudyCompletion.
#[local] Existing Instance Amendments.PackageEligibility_eq_dec.
#[local] Existing Instance Amendments.LeakAuditStatus_eq_dec.
#[local] Existing Instance Safety.SafetyResult_eq_dec.
#[local] Existing Instance Evidence.GateValue_eq_dec.

(** ** Provenance (study-provenance.ts) *)

Record SelectedRunQualification := MkSelected { sq_qualification : SelectedQualification; transport_scope_snapshot_sha256 : string }.
Record SourceProvenance := MkProvenance { sp_commit_sha : string; sp_tree_sha : string }.

Definition manifestMissing : StructuredReason :=
  let path := path_of "executionManifest" in
  comparisonReason "ARTIFACT_MISSING" "execution_manifest" (path +:+ " is absent or unreadable; expected the frozen execution manifest") (Some path).

Definition mismatch (s d : string) : StructuredReason := comparisonReason "QUALIFICATION_MISMATCH" s d (Some (path_of "executionManifest")).

Definition sourceReasons (manifest : option (FrozenRecord ExecutionManifest)) (provenance : option (FrozenRecord SourceProvenance)) : list StructuredReason :=
  match manifest with
  | None => [manifestMissing]
  | Some m =>
      let path := path_of "sourceProvenance" in
      match provenance with
      | None => [comparisonReason "ARTIFACT_MISSING" "source_provenance" (path +:+ " is absent or unreadable; expected the frozen source provenance") (Some path)]
      | Some p =>
          let declared := source (record m) in
          map (fun '(field, stored, frozen) => comparisonReason "SOURCE_NOT_CLEAN" field
                 (path +:+ " gives " +:+ field +:+ " " +:+ stored +:+ "; the execution manifest froze " +:+ frozen) (Some path))
            (List.filter (fun '(_, stored, frozen) => negb (bool_decide (stored = frozen)))
               [("source_provenance_sha256", ar_sha256 (ref p), source_provenance_sha256 declared); ("commit_sha", sp_commit_sha (record p), commit_sha declared);
                ("tree_sha", sp_tree_sha (record p), tree_sha declared)])
      end
  end.

Definition qualificationReasons (manifest : option (FrozenRecord ExecutionManifest)) (selected : option SelectedRunQualification) : list StructuredReason :=
  match manifest with
  | None => [manifestMissing]
  | Some m =>
      match selected, qualification (record m) with
      | Some s, Some frozen =>
          let wanted := sq_qualification s in
          map (fun '(field, run, chosen) => mismatch field
                 ("the execution manifest froze " +:+ field +:+ " " +:+ nullish run "null" +:+ "; the selected qualification has " +:+ nullish chosen "null"))
            (List.filter (fun '(_, run, chosen) => negb (bool_decide (run = chosen)))
               [("transport_probe_id", Some (q_transport_probe_id frozen), Some (q_transport_probe_id wanted));
                ("original_package_index_sha256", Some (q_original_package_index_sha256 frozen), Some (q_original_package_index_sha256 wanted));
                ("amendment_head_sha256", q_amendment_head_sha256 frozen, q_amendment_head_sha256 wanted);
                ("transport_scope_snapshot_sha256", Some (em_transport_scope_snapshot_sha256 (record m)), Some (transport_scope_snapshot_sha256 s))])
      | None, _ => [mismatch "qualification" "no transport qualification was selected; expected the run's qualification to be the selected probe"]
      | Some _, None => [mismatch "qualification" "the execution manifest names no qualification; expected the run's qualification to be the selected probe"]
      end
  end.

(** ** Completion (study-completion.ts) *)

Inductive BilledCostCheck := billed_within_limit | billed_breached | billed_unverified.
#[export] Instance BilledCostCheck_eq_dec : EqDecision BilledCostCheck.
Proof. solve_decision. Defined.

Record StudyCompletionInput := MkCompletionInput {
  sc_run_id : string;
  original_package_index_sha256 : string;
  package_verification : PackageVerification;
  sc_execution_manifest : option (FrozenRecord ExecutionManifest);
  run_summary : option (FrozenRecord RunSummary);
  comparison_assessment : option (FrozenRecord ComparisonAssessment);
  sc_leak_audit : option (FrozenRecord LeakAuditResult);
  source_provenance : option (FrozenRecord SourceProvenance);
  billed_cost_checks : list BilledCostCheck;
  selected_qualification : option SelectedRunQualification;
  sc_assessed_at : string;
}.

Inductive StudyCompletionCheckId :=
| check_FOUR_ORACLE_RESULTS | check_EQUALITY_EVALUATED | check_EVIDENCE_INTEGRITY_VERIFIED | check_NO_CONTRADICTORY_AMENDMENT | check_NO_KNOWN_SAFETY_BREACH
| check_NO_REMAINING_OWNED_RESOURCE | check_CLEAN_SOURCE_AND_MATCHING_QUALIFICATION.

Record StudyCompletionCheck := MkCompletionCheck { sc_check_id : StudyCompletionCheckId; sc_holds : bool }.

Record StatusValues := MkStatus {
  sv_comparison_eligibility : Amendments.PackageEligibility;
  sv_package_eligibility : Amendments.PackageEligibility;
  sv_cleanup_status : Amendments.CleanupStatus;
  sv_leak_audit_status : Amendments.LeakAuditStatus;
  sv_lease_status : LeaseHealth.LeaseStatus;
  sv_run_terminal_reason : RunTerminalReason;
}.

(** [study_completion] with its status values and reasons. *)
Record StudyCompletionAssessment := MkCompletion {
  as_run_id : string;
  as_original_package_index_sha256 : string;
  completion_checks : list StudyCompletionCheck;
  as_evidence_refs : list EvidenceRef;
  as_assessed_at : string;
  study_complete : bool;
  status_values : StatusValues;
  incompletion_reasons : list StructuredReason;
}.

Definition completionCheck (id : StudyCompletionCheckId) (rs : list StructuredReason) : StudyCompletionCheck :=
  MkCompletionCheck id (match rs with [] => true | _ => false end).

Definition eligibility_text (e : Amendments.PackageEligibility) : string := match e with Amendments.eligible => "eligible" | Amendments.ineligible => "ineligible" end.
Definition cleanup_status_text (s : Amendments.CleanupStatus) : string :=
  match s with Amendments.not_started => "not_started" | Amendments.running => "running" | Amendments.terminal t => cleanup_text t end.
Definition terminal_reason_text (r : RunTerminalReason) : string :=
  match r with
  | COMPLETED => "COMPLETED" | LEASE_ACQUISITION_FAILED => "LEASE_ACQUISITION_FAILED" | LEASE_LOST => "LEASE_LOST" | PROVISIONING_FAILED => "PROVISIONING_FAILED"
  | TRIAL_INCOMPLETE => "TRIAL_INCOMPLETE" | SAFETY_DEADLINE => "SAFETY_DEADLINE" | OPERATOR_ABORT => "OPERATOR_ABORT" | INTERRUPTED => "INTERRUPTED"
  | CLEANUP_INCOMPLETE => "CLEANUP_INCOMPLETE" | LEAK_AUDIT_NOT_CLEAN => "LEAK_AUDIT_NOT_CLEAN" | EVIDENCE_FINALIZATION_FAILED => "EVIDENCE_FINALIZATION_FAILED"
  end.

(** [values[field]], [want] and the code of each status value the study asks for. *)
Definition expected_values (v : StatusValues) : list (string * string * string * string) :=
  [("comparison_eligibility", eligibility_text (sv_comparison_eligibility v), "eligible", "COMPARISON_NOT_ELIGIBLE");
   ("cleanup_status", cleanup_status_text (sv_cleanup_status v), "succeeded", "CLOSURE_NOT_CLEAN");
   ("leak_audit_status", leak_text (sv_leak_audit_status v), "clean", "CLOSURE_NOT_CLEAN");
   ("lease_status", lease_text (sv_lease_status v), "released", "CLOSURE_NOT_CLEAN");
   ("run_terminal_reason", terminal_reason_text (sv_run_terminal_reason v), "COMPLETED", "RUN_NOT_COMPLETED")].

Definition valueReasons (v : StatusValues) : list StructuredReason :=
  let path := path_of "runSummary" in
  map (fun '(field, actual, want, c) =>
      comparisonReason c field ("the original " +:+ path +:+ " has " +:+ field +:+ " " +:+ actual +:+ "; expected " +:+ want) (Some path))
    (List.filter (fun '(_, actual, want, _) => negb (bool_decide (actual = want))) (expected_values v)).

Definition summaryMissing : StructuredReason :=
  let path := path_of "runSummary" in
  comparisonReason "ARTIFACT_MISSING" "run_summary" (path +:+ " is absent or unreadable; expected the original run summary") (Some path).

Definition packageReason (input : StudyCompletionInput) : StructuredReason :=
  let v := package_verification input in
  let scope :=
    if bool_decide (pv_original_package_index_sha256 v = original_package_index_sha256 input)
    then "ineligible with " +:+ str_join ", " (map code (package_ineligibility_reasons v))
    else "of package index " +:+ pv_original_package_index_sha256 v +:+ ", not " +:+ original_package_index_sha256 input in
  comparisonReason "PACKAGE_NOT_ELIGIBLE" "package_eligibility"
    ("the package verification is " +:+ scope +:+ "; expected an eligible verification of the original package") (Some (path_of "packageIndex")).

Definition package_eligible (input : StudyCompletionInput) : bool :=
  bool_decide (package_eligibility (package_verification input) = Amendments.eligible)
  && bool_decide (pv_original_package_index_sha256 (package_verification input) = original_package_index_sha256 input).

Definition originalStatus (input : StudyCompletionInput) : StatusValues * list StructuredReason :=
  let packageEligible := package_eligible input in
  let values :=
    match run_summary input with
    | Some s =>
        MkStatus (comparison_eligibility (sm_eligibility (record s))) (if packageEligible then Amendments.eligible else Amendments.ineligible)
          (sm_cleanup_status (record s)) (sm_leak_audit_status (record s)) (lease_status (record s)) (run_terminal_reason (record s))
    | None =>
        MkStatus Amendments.ineligible (if packageEligible then Amendments.eligible else Amendments.ineligible) Amendments.not_started
          Amendments.inconclusive LeaseHealth.unverified EVIDENCE_FINALIZATION_FAILED
    end in
  (values, (match run_summary input with None => [summaryMissing] | Some _ => [] end) ++ (if packageEligible then [] else [packageReason input]) ++ valueReasons values).

Definition oracleResultReasons (summary : option (FrozenRecord RunSummary)) : list StructuredReason :=
  match summary with
  | None => [summaryMissing]
  | Some s => map (fun e => missingOracleResultReason (h_trial_id (entry_head e))) (List.filter (fun e => negb (is_completed e)) (of_four (trial_results (record s))))
  end.

Definition equalityReasons (comparison : option (FrozenRecord ComparisonAssessment)) : list StructuredReason :=
  let path := path_of "comparisonAssessment" in
  match comparison with
  | None => [comparisonReason "ARTIFACT_MISSING" "equality_result" (path +:+ " is absent or unreadable; expected the original comparison assessment") (Some path)]
  | Some c =>
      match ca_equality_result (record c) with
      | Evidence.v_indeterminate =>
          [comparisonReason "EQUALITY_NOT_EVALUATED" "equality_result" "BR-RUA-007 equality is indeterminate; expected a completed evaluation (pass or fail)" (Some path)]
      | _ => []
      end
  end.

Definition integrityReasons (summary : option (FrozenRecord RunSummary)) : list StructuredReason :=
  match summary with
  | None => [summaryMissing]
  | Some s =>
      let status := evidence_integrity_status (record s) in
      if bool_decide (status = Evidence.verified) then []
      else [comparisonReason "EVIDENCE_INTEGRITY_NOT_VERIFIED" "evidence_integrity_status"
              ("evidence_integrity_status is " +:+ Evidence.value_text status +:+ "; expected verified") (Some (ar_path (ref s)))]
  end.

Definition contradictoryReasons (v : PackageVerification) : list StructuredReason :=
  map contradictoryReason (List.filter (fun r => bool_decide (code r = "CONTRADICTORY_CHAIN")) (package_ineligibility_reasons v)).

Definition safetyReasons (summary : option (FrozenRecord RunSummary)) (billed : list BilledCostCheck) : list StructuredReason :=
  let breaches :=
    match summary with
    | Some s =>
        if bool_decide (safety_status (record s) = Safety.breached)
        then [comparisonReason "KNOWN_SAFETY_BREACH" "safety_status" "the original run summary has safety_status breached; expected no known breach" (Some (ar_path (ref s)))]
        else []
    | None => []
    end
    ++ (if memb billed_breached billed
        then [comparisonReason "KNOWN_SAFETY_BREACH" "billed_cost_check" "a billed-cost check is breached; expected no known breach (BR-RUA-047)" None] else []) in
  match summary with None => summaryMissing :: breaches | Some _ => breaches end.

Definition remainingResourceReasons (audit : option (FrozenRecord LeakAuditResult)) : list StructuredReason :=
  let path := path_of "leakAuditResult" in
  match audit with
  | None => [comparisonReason "ARTIFACT_MISSING" "leak_audit" (path +:+ " is absent or unreadable; expected the original leak-audit result") (Some path)]
  | Some a =>
      map (fun leak => comparisonReason "OWNED_RESOURCE_REMAINS" (identifier leak)
        ("owned " +:+ resource_type leak +:+ " " +:+ identifier leak +:+ " was still observed after cleanup; expected none") (Some path)) (leaks (record a))
  end.

Definition crossPackageRefs (input : StudyCompletionInput) : list EvidenceRef :=
  let pinned (r : ArtifactRef) := MkRef (ar_path r) (ar_sha256 r) None None (Some (original_package_index_sha256 input)) in
  uniqueSortedRefs (map pinned (option_list (option_map ref (sc_execution_manifest input)) ++ option_list (option_map ref (run_summary input))
    ++ option_list (option_map ref (comparison_assessment input)) ++ option_list (option_map ref (sc_leak_audit input))
    ++ option_list (option_map ref (source_provenance input)))).

(** The values of a complete study. *)
Definition COMPLETE : StatusValues :=
  MkStatus Amendments.eligible Amendments.eligible (Amendments.terminal Amendments.succeeded) Amendments.clean LeaseHealth.released COMPLETED.

Definition assessStudyCompletion (input : StudyCompletionInput) : StudyCompletionAssessment :=
  let oracleResults := oracleResultReasons (run_summary input) in
  let equality := equalityReasons (comparison_assessment input) in
  let integrity := integrityReasons (run_summary input) in
  let contradictory := contradictoryReasons (package_verification input) in
  let safety := safetyReasons (run_summary input) (billed_cost_checks input) in
  let remaining := remainingResourceReasons (sc_leak_audit input) in
  let provenance := sourceReasons (sc_execution_manifest input) (source_provenance input)
    ++ qualificationReasons (sc_execution_manifest input) (selected_qualification input) in
  let checks := [completionCheck check_FOUR_ORACLE_RESULTS oracleResults; completionCheck check_EQUALITY_EVALUATED equality;
    completionCheck check_EVIDENCE_INTEGRITY_VERIFIED integrity; completionCheck check_NO_CONTRADICTORY_AMENDMENT contradictory;
    completionCheck check_NO_KNOWN_SAFETY_BREACH safety; completionCheck check_NO_REMAINING_OWNED_RESOURCE remaining;
    completionCheck check_CLEAN_SOURCE_AND_MATCHING_QUALIFICATION provenance] in
  let '(values, statusReasons) := originalStatus input in
  let head := MkCompletion (sc_run_id input) (original_package_index_sha256 input) checks (crossPackageRefs input) (sc_assessed_at input) in
  match uniqueReasons (statusReasons ++ oracleResults ++ equality ++ integrity ++ contradictory ++ safety ++ remaining ++ provenance) with
  | [] => head true COMPLETE []
  | rs => head false values rs
  end.

(** ** Record files (record-files.ts) *)

Definition PackageFiles : Type := list (string * list Z).
Definition file_at (files : PackageFiles) (path : string) : option (list Z) := map_get path files.

Inductive RecordFileRead := record_absent | record_unreadable (r : StructuredReason) | record_read (frozen : FrozenRecord json).
Record JournalRead := MkJournalRead { jr_records : list json; jr_reasons : list StructuredReason }.

Definition unreadable (path d : string) : StructuredReason := comparisonReason "ARTIFACT_UNREADABLE" "BR-RUA-033" (path +:+ ": " +:+ d) (Some path).

Definition parseFailureText (e : Parsing.JsonParseFailure) : string :=
  match e with
  | Parsing.invalid_utf8 offset => "invalid UTF-8 at byte " +:+ string_of_Z offset
  | Parsing.invalid_json d => boundedText d QUOTED_JSON_LIMIT
  end.

Definition describeViolations (violations : list SchemaViolation) : string :=
  let firstText := str_concat (map (fun first => ", first " +:+ keyword first +:+ " at " +:+ boundedJsonText (JStr (instance_path first)) QUOTED_JSON_LIMIT
    +:+ ": " +:+ boundedText (v_detail first) QUOTED_JSON_LIMIT) (take 1 violations)) in
  string_of_Z (Z.of_nat (length violations)) +:+ " schema violation(s)" +:+ firstText.

(** The requested record type a line declares, read from an own member only. *)
Definition requestedType (v : json) (recordTypes : list string) : option string :=
  match v with
  | JObj ms => match member "record_type" ms with Some (JStr declared) => find_first (fun t => bool_decide (t = declared)) recordTypes | _ => None end
  | _ => None
  end.

Section reading.
Context (JSON_parse : string -> Result json string) (validator : RecordValidator) (digest : list Z -> string).

Definition checkRecord (v : json) (recordType : string) : Result json string :=
  match validateAs validator recordType v with
  | record_valid => Ok v
  | record_invalid violations => Err (describeViolations violations +:+ "; expected a valid " +:+ recordType)
  end.

Definition readRecordFile (files : PackageFiles) (path recordType : string) : RecordFileRead :=
  match file_at files path with
  | None => record_absent
  | Some bytes =>
      match Parsing.parseJsonDocument JSON_parse bytes with
      | Err e => record_unreadable (unreadable path (parseFailureText e +:+ "; expected one UTF-8 JSON " +:+ recordType +:+ " document"))
      | Ok v =>
          match checkRecord v recordType with
          | Err e => record_unreadable (unreadable path e)
          | Ok r => record_read (MkFrozen r (MkArtifactRef path (digest bytes)))
          end
      end
  end.

Definition bytesRef (files : PackageFiles) (path : string) : option ArtifactRef :=
  option_map (fun bytes => MkArtifactRef path (digest bytes)) (file_at files path).

(** One line: a record of a requested type, a reason, or a line of another type, skipped unread. *)
Definition journal_line (path : string) (recordTypes : list string) (line : Parsing.JsonlLine) : list json * list StructuredReason :=
  let at_ := path +:+ " line " +:+ string_of_Z (Parsing.line_number line) in
  match Parsing.line_parsed line with
  | Err e => ([], [unreadable path (at_ +:+ ": " +:+ parseFailureText e +:+ "; expected one JSON record per line")])
  | Ok v =>
      match requestedType v recordTypes with
      | None => ([], [])
      | Some recordType => match checkRecord v recordType with Err e => ([], [unreadable path (at_ +:+ ": " +:+ e)]) | Ok r => ([r], []) end
      end
  end.

Definition readJournalRecords (files : PackageFiles) (path : string) (recordTypes : list string) : JournalRead :=
  match file_at files path with
  | None => MkJournalRead [] []
  | Some bytes =>
      let read := map (journal_line path recordTypes) (Parsing.lines (Parsing.parseJsonl JSON_parse bytes)) in
      MkJournalRead (flat_map fst read) (flat_map snd read)
  end.

(** ** The correlated reader (run-package-reader.ts)

    [reader.reasons] is the state. *)

Definition Reading (A : Type) : Type := list StructuredReason -> A * list StructuredReason.
Definition rd_ret {A} (a : A) : Reading A := fun rs => (a, rs).
Definition rd_bind {A B} (m : Reading A) (k : A -> Reading B) : Reading B := fun rs => let '(a, rs') := m rs in k a rs'.
Definition rd_report (r : StructuredReason) : Reading unit := fun rs => (tt, rs ++ [r]).
Local Notation "x <~ m ; k" := (rd_bind m (fun x => k)) (at level 100, m at next level, right associativity).

Definition foreign (path problem : string) : StructuredReason :=
  comparisonReason "ARTIFACT_UNREADABLE" "BR-RUA-033" (path +:+ " " +:+ problem) (Some path).

Section reader.
Context (files : PackageFiles) (manifestDigest : string).

Definition correlationProblem (r : json) (trialId : option string) : option string :=
  if negb (bool_decide (ownString r "execution_manifest_sha256" = Some manifestDigest))
  then Some ("names execution_manifest_sha256 " +:+ nullish (ownString r "execution_manifest_sha256") "undefined" +:+ "; expected " +:+ manifestDigest)
  else
    match trialId with
    | Some t =>
        if bool_decide (ownString r "trial_id" = Some t) then None
        else Some ("names trial " +:+ nullish (ownString r "trial_id") "undefined" +:+ "; expected " +:+ t)
    | None => None
    end.

Definition readUncorrelated (path recordType : string) : Reading (option (FrozenRecord json)) :=
  match readRecordFile files path recordType with
  | record_unreadable r => _ <~ rd_report r; rd_ret None
  | record_read frozen => rd_ret (Some frozen)
  | record_absent => rd_ret None
  end.

Definition read (path recordType : string) (trialId : option string) : Reading (option (FrozenRecord json)) :=
  frozen <~ readUncorrelated path recordType;
  match frozen with
  | None => rd_ret None
  | Some f =>
      match correlationProblem (record f) trialId with
      | Some problem => _ <~ rd_report (foreign path problem); rd_ret None
      | None => rd_ret (Some f)
      end
  end.

Fixpoint keepCorrelated (path : string) (records : list json) : Reading (list json) :=
  match records with
  | [] => rd_ret []
  | r :: rest =>
      match correlationProblem r None with
      | Some problem => _ <~ rd_report (foreign path problem); keepCorrelated path rest
      | None => kept <~ keepCorrelated path rest; rd_ret (r :: kept)
      end
  end.
End reader.

(** A record as the type its name declares. *)
Record RecordViews := MkViews {
  as_execution_manifest : json -> ExecutionManifest;
  as_resource_manifest : json -> ResourceManifest;
  as_provider_configuration : json -> ProviderTrialConfiguration;
  as_source_provenance : json -> SourceProvenance;
  as_oracle_result : json -> Oracle.OracleResult;
  as_late_evidence : json -> LateEvidenceAssessment;
  as_cleanup : json -> CleanupResult;
  as_leak_audit : json -> LeakAuditResult;
  as_safety : json -> SafetyAssessment;
  as_comparison_assessment : json -> ComparisonAssessment;
  as_run_summary : json -> RunSummary;
  as_runner_event : json -> RunnerEvent;
  as_lease_event : json -> Timed LeaseHealth.LeaseEvent;
}.

Definition view {T} (f : json -> T) (r : FrozenRecord json) : FrozenRecord T := MkFrozen (f (record r)) (ref r).

Record RunTrialRecords := MkTrialRecords {
  rt_trial : DeclaredTrial;
  trial_manifest : option (FrozenRecord json);
  rt_provider_configuration : option (FrozenRecord ProviderTrialConfiguration);
  rt_payment : option ArtifactRef;
  rt_approved_decision : option ArtifactRef;
  oracle_result : option (FrozenRecord Oracle.OracleResult);
}.

Record RunPackageRecords := MkRecords {
  rp_run_id : string;
  execution_manifest : FrozenRecord ExecutionManifest;
  trial_records : Four RunTrialRecords;
  resource_manifest : option (FrozenRecord ResourceManifest);
  rp_source_provenance : option (FrozenRecord SourceProvenance);
  late_evidence : option (FrozenRecord LateEvidenceAssessment);
  cleanup : option (FrozenRecord CleanupResult);
  leak_audit : option (FrozenRecord LeakAuditResult);
  safety : option (FrozenRecord SafetyAssessment);
  rp_comparison_assessment : option (FrozenRecord ComparisonAssessment);
  rp_run_summary : option (FrozenRecord RunSummary);
  runner_events : list RunnerEvent;
  lease_events : list (Timed LeaseHealth.LeaseEvent);
  rp_reasons : list StructuredReason;
}.

Context (views : RecordViews).

Definition readRunManifest (files : PackageFiles) : Result (FrozenRecord json) (list StructuredReason) :=
  let path := path_of "executionManifest" in
  match readRecordFile files path "execution_manifest" with
  | record_unreadable r => Err [r]
  | record_absent => Err [comparisonReason "ARTIFACT_MISSING" "execution_manifest" (path +:+ " is absent; expected the run's execution manifest") (Some path)]
  | record_read frozen =>
      let kind := textOf (record frozen) "execution_kind" in
      if bool_decide (kind = "RUN") then Ok frozen
      else Err [comparisonReason "ARTIFACT_UNREADABLE" "execution_manifest" (path +:+ " has execution_kind " +:+ kind +:+ "; expected RUN") (Some path)]
  end.

Definition readTrial (files : PackageFiles) (manifestDigest : string) (trial : DeclaredTrial) : Reading RunTrialRecords :=
  let file key := Package.unitFile (unit_trial (trial_id trial)) key in
  manifest <~ read files manifestDigest (file "trialManifest") "trial_manifest" (Some (trial_id trial));
  configuration <~ read files manifestDigest (file "providerTrialConfiguration") "provider_trial_configuration" (Some (trial_id trial));
  oracle <~ read files manifestDigest (file "oracleResult") "oracle_result" (Some (trial_id trial));
  rd_ret (MkTrialRecords trial manifest (option_map (view (as_provider_configuration views)) configuration) (bytesRef files (file "payment"))
    (bytesRef files (file "approvedDecision")) (option_map (view (as_oracle_result views)) oracle)).

Definition read_records (files : PackageFiles) (manifest : FrozenRecord json) (runner lease : JournalRead) : Reading RunPackageRecords :=
  let d := ar_sha256 (ref manifest) in
  let m := view (as_execution_manifest views) manifest in
  let trials := em_trials (record m) in
  t1 <~ readTrial files d (first trials);
  t2 <~ readTrial files d (second trials);
  t3 <~ readTrial files d (third trials);
  t4 <~ readTrial files d (fourth trials);
  resources <~ read files d (path_of "resourceManifest") "resource_manifest" None;
  provenance <~ readUncorrelated files (path_of "sourceProvenance") "source_provenance";
  late <~ read files d (path_of "lateEvidenceAssessment") "late_evidence_assessment" None;
  cleaned <~ read files d (path_of "cleanupResult") "cleanup_result" None;
  audited <~ read files d (path_of "leakAuditResult") "leak_audit_result" None;
  safe <~ read files d (path_of "safetyAssessment") "safety_assessment" None;
  compared <~ read files d (path_of "comparisonAssessment") "comparison_assessment" None;
  summary <~ read files d (path_of "runSummary") "run_summary" None;
  runner_kept <~ keepCorrelated d (path_of "runnerJournal") (jr_records runner);
  lease_kept <~ keepCorrelated d (path_of "coordinationJournal") (jr_records lease);
  rd_ret (MkRecords (em_run_id (record m)) m (MkFour t1 t2 t3 t4) (option_map (view (as_resource_manifest views)) resources)
    (option_map (view (as_source_provenance views)) provenance) (option_map (view (as_late_evidence views)) late) (option_map (view (as_cleanup views)) cleaned)
    (option_map (view (as_leak_audit views)) audited) (option_map (view (as_safety views)) safe) (option_map (view (as_comparison_assessment views)) compared)
    (option_map (view (as_run_summary views)) summary) (map (as_runner_event views) runner_kept) (map (as_lease_event views) lease_kept) []).

Definition readRunPackage (files : PackageFiles) : Result RunPackageRecords (list StructuredReason) :=
  match readRunManifest files with
  | Err rs => Err rs
  | Ok manifest =>
      let runner := readJournalRecords files (path_of "runnerJournal") ["phase_transition_recorded"; "trial_interrupted"] in
      let lease := readJournalRecords files (path_of "coordinationJournal") ["lease_event_recorded"] in
      let '(records, rs) := read_records files manifest runner lease [] in
      Ok (MkRecords (rp_run_id records) (execution_manifest records) (trial_records records) (resource_manifest records) (rp_source_provenance records)
        (late_evidence records) (cleanup records) (leak_audit records) (safety records) (rp_comparison_assessment records) (rp_run_summary records)
        (runner_events records) (lease_events records) (rs ++ jr_reasons runner ++ jr_reasons lease))
  end.
End reading.

(** ** The two records as JSON *)

Definition opt_member (name : string) (o : option string) : list (string * json) := match o with Some s => [(name, JStr s)] | None => [] end.

Definition reason_json (r : StructuredReason) : json :=
  JObj ([("code", JStr (code r)); ("subject", JStr (subject r))] ++ opt_member "artifact_path" (artifact_path r) ++ opt_member "event_id" (event_id r)
        ++ [("detail", JStr (detail r))]).
Definition reasons_json (rs : list StructuredReason) : json := JArr (map reason_json rs).

Definition artifact_json (r : ArtifactRef) : json := JObj [("artifact_path", JStr (ar_path r)); ("artifact_sha256", JStr (ar_sha256 r))].
Definition evidence_json (r : EvidenceRef) : json :=
  JObj ([("artifact_path", JStr (Evidence.ref_path r)); ("artifact_sha256", JStr (Evidence.ref_sha256 r))] ++ opt_member "event_id" (Evidence.ref_event r)
        ++ opt_member "json_pointer" (Evidence.ref_pointer r) ++ opt_member "package_index_sha256" (Evidence.ref_index r)).

Definition verdict_json (v : Evidence.PreservationVerdict) : json :=
  JStr (match v with Evidence.v_pass => "pass" | Evidence.v_fail => "fail" | Evidence.v_indeterminate => "indeterminate" end).

Definition eligibility_members (e : ComparisonEligibilityOutcome) : list (string * json) :=
  [("comparison_eligibility", JStr (eligibility_text (comparison_eligibility e))); ("comparison_ineligibility_reasons", reasons_json (comparison_ineligibility_reasons e))].

Definition projection_json (p : EqualityProjection) : json :=
  JObj [("projection_id", JStr (projection_text (projection_id p))); ("result", verdict_json (ep_result p));
        ("compared_fields", JArr (map JStr (compared_fields p)));
        ("differences", JArr (map (fun d => JObj [("field", JStr (field d)); ("declared", JBool (declared d));
            ("values", JArr (map (fun v => JObj [("trial_id", JStr (pf_trial_id v)); ("value", pf_value v)]) (values d)))]) (differences p)));
        ("evidence_refs", JArr (map evidence_json (ep_evidence_refs p)))].

Definition assessment_json (a : ComparisonAssessment) : json :=
  JObj ([("schema_version", JNum (JSInt 1)); ("record_type", JStr "comparison_assessment"); ("run_id", JStr (ca_run_id a));
         ("execution_manifest_sha256", JStr (ca_execution_manifest_sha256 a)); ("oracle_result_refs", JArr (map artifact_json (oracle_result_refs a)));
         ("equality_projections", JArr (map projection_json (equality_projections a))); ("equality_result", verdict_json (ca_equality_result a));
         ("eligibility_checks", JArr (map (fun c => JObj [("check_id", JStr (check_text (check_id c))); ("holds", JBool (holds c)); ("reasons", reasons_json (reasons c))])
            (eligibility_checks a)))] ++ eligibility_members (ca_eligibility a) ++ [("assessed_at", JStr (ca_assessed_at a))]).

Definition head_members (h : TrialResultHead) (status : string) : list (string * json) :=
  [("sequence", JNum (JSInt (h_sequence h))); ("trial_id", JStr (h_trial_id h)); ("variant_id", JStr (TrialMessage.variant_text (h_variant_id h)));
   ("scenario", JStr (ControlItems.scenario_text (h_scenario h))); ("execution_status", JStr status)].

Definition entry_json (e : SummaryTrialResult) : json :=
  match e with
  | completed_trial h r verdict completion =>
      JObj (head_members h "completed" ++ [("oracle_result_ref", artifact_json r); ("preservation_verdict", verdict_json verdict);
        ("correct_completion", match completion with Some b => JBool b | None => JNull end); ("incompletion_reasons", JArr [])])
  | incomplete_trial h rs => JObj (head_members h "incomplete" ++ [("incompletion_reasons", reasons_json rs)])
  | not_started_trial h rs => JObj (head_members h "not_started" ++ [("incompletion_reasons", reasons_json rs)])
  end.

Definition safety_text (s : Safety.SafetyResult) : string :=
  match s with Safety.within_limits => "within_limits" | Safety.breached => "breached" | Safety.unverified => "unverified" end.

Definition summary_json (s : RunSummary) : json :=
  JObj ([("schema_version", JNum (JSInt 1)); ("record_type", JStr "run_summary"); ("run_id", JStr (run_id s));
         ("execution_manifest_sha256", JStr (execution_manifest_sha256 s)); ("trial_results", JArr (map entry_json (of_four (trial_results s))));
         ("execution_status", JStr (if execution_completed s then "completed" else "incomplete"));
         ("run_terminal_reason", JStr (terminal_reason_text (run_terminal_reason s)))] ++ eligibility_members (sm_eligibility s)
        ++ [("cleanup_status", JStr (cleanup_status_text (sm_cleanup_status s))); ("leak_audit_status", JStr (leak_text (sm_leak_audit_status s)));
            ("lease_status", JStr (lease_text (lease_status s))); ("safety_status", JStr (safety_text (safety_status s)));
            ("evidence_integrity_status", JStr (Evidence.value_text (evidence_integrity_status s))); ("cleanup_result_ref", artifact_json (cleanup_result_ref s));
            ("late_evidence_assessment_ref", artifact_json (late_evidence_assessment_ref s));
            ("comparison_assessment_ref", artifact_json (comparison_assessment_ref s)); ("created_at", JStr (sm_created_at s))]).

(** ** Finalization and completion (run-package-assessment.ts) *)

Record RunFinalizationContext := MkContext {
  cx_deployment : option DeploymentProjection;
  contradictory_amendments : list StructuredReason;
  finalized_at : string;
}.

Record FinalizedRecordFile (T : Type) := MkFinalized { fz_path : string; fz_record : T; fz_bytes : list Z }.
Arguments MkFinalized {T}.
Arguments fz_path {T}.
Arguments fz_record {T}.
Arguments fz_bytes {T}.

Record FinalizedRunFiles := MkFinalizedRun {
  fr_comparison_assessment : FinalizedRecordFile ComparisonAssessment;
  fr_run_summary : FinalizedRecordFile RunSummary;
}.

Definition summaryInputMissing (path : string) : StructuredReason :=
  comparisonReason "ARTIFACT_MISSING" "run_summary" (path +:+ " is absent or unreadable; expected it frozen before the run summary") (Some path).

Definition recordFile {T} (path : string) (r : T) (v : json) : Result (FinalizedRecordFile T) js_error :=
  let! t := TrialMessage.serializeRecordFile v in Ok (MkFinalized path r (Parsing.bytes_of t)).

(** A later entry of one trial id replaces an earlier one. *)
Definition oracleResultsOf (records : RunPackageRecords) : OracleResultsByTrial :=
  fold_left (fun m t => match oracle_result t with Some r => Oracle.map_set (trial_id (rt_trial t)) r m | None => m end) (of_four (trial_records records)) [].

Definition sheet_sources (records : RunPackageRecords) (context : RunFinalizationContext) (t : RunTrialRecords) : TrialSheetSources :=
  MkSources (rt_trial t) (execution_manifest records) (resource_manifest records) (rt_provider_configuration t) (rt_payment t) (rt_approved_decision t)
    (cx_deployment context).

Definition comparison_input (records : RunPackageRecords) (context : RunFinalizationContext) (late : FrozenRecord LateEvidenceAssessment) : RunComparisonInput :=
  let m := execution_manifest records in
  MkComparisonInput (rp_run_id records) (ar_sha256 (ref m)) (of_four (em_trials (record m))) (declared_variant_differences (record m))
    (map (fun t => buildTrialSheets (sheet_sources records context t)) (of_four (trial_records records))) (oracleResultsOf records)
    (Some late) (leak_audit records) (contradictory_amendments context) (finalized_at context).

Definition terminal_input (records : RunPackageRecords) (cleaned : FrozenRecord CleanupResult) : RunTerminalInput :=
  MkTerminalInput (runner_events records ++ map (fun e => MkTimed (occurred_at e) (lease_event_recorded (fact e))) (lease_events records))
    (Nat.eqb (length (oracleResultsOf records)) 4) (Some (cleanup_status (record cleaned))) (option_map (fun a => leak_audit_status (record a)) (leak_audit records)).

Definition finalizeRunAssessments (records : RunPackageRecords) (context : RunFinalizationContext) (digest : list Z -> string) :
  Result (Result FinalizedRunFiles (list StructuredReason)) js_error :=
  match cleanup records, late_evidence records with
  | Some cleaned, Some late =>
      let m := execution_manifest records in
      let oracleResults := oracleResultsOf records in
      let! comparison := assessRunComparison (comparison_input records context late) in
      let! comparisonFile := recordFile (path_of "comparisonAssessment") (assessment comparison) (assessment_json (assessment comparison)) in
      let summary := buildRunSummary (MkSummaryInput (rp_run_id records) (ar_sha256 (ref m)) (em_trials (record m))
        (omap (fun t => option_map (fun _ => trial_id (rt_trial t)) (trial_manifest t)) (of_four (trial_records records))) oracleResults
        (deriveRunTerminalReason (terminal_input records cleaned)) (ca_eligibility (assessment comparison))
        (MkArtifactRef (fz_path comparisonFile) (digest (fz_bytes comparisonFile))) cleaned
        (match leak_audit records with Some a => leak_audit_status (record a) | None => Amendments.inconclusive end) (finalLeaseStatus (lease_events records))
        (match safety records with Some s => sf_safety_status (record s) | None => Safety.unverified end) (integrity_status (evidence_integrity comparison))
        (ref late) (finalized_at context)) in
      let! summaryFile := recordFile (path_of "runSummary") summary (summary_json summary) in
      Ok (Ok (MkFinalizedRun comparisonFile summaryFile))
  | cleaned, late =>
      Ok (Err ((match cleaned with None => [summaryInputMissing (path_of "cleanupResult")] | Some _ => [] end)
            ++ (match late with None => [summaryInputMissing (path_of "lateEvidenceAssessment")] | Some _ => [] end)))
  end.

Record CompletionContext := MkCompletionContext {
  cc_original_package_index_sha256 : string;
  cc_package_verification : PackageVerification;
  cc_billed_cost_checks : list BilledCostCheck;
  cc_selected_qualification : option SelectedRunQualification;
  cc_assessed_at : string;
}.

Definition completion_input (records : RunPackageRecords) (context : CompletionContext) : StudyCompletionInput :=
  MkCompletionInput (rp_run_id records) (cc_original_package_index_sha256 context) (cc_package_verification context) (Some (execution_manifest records))
    (rp_run_summary records) (rp_comparison_assessment records) (leak_audit records) (rp_source_provenance records) (cc_billed_cost_checks context)
    (cc_selected_qualification context) (cc_assessed_at context).

Definition assessPackageCompletion (records : RunPackageRecords) (context : CompletionContext) : StudyCompletionAssessment :=
  assessStudyCompletion (completion_input records context).
End StudyCompletion.
