(* ===== verification/StudyCompletionCorrect.v ===== *)
(** * Study completion, proved (src/study-1/src/study-comparison/)

    A study is complete exactly when every original status, gate and reference says so; the run reader keeps exactly the correlated,
    valid records of the package; and a complete study over a run it finalized is a run nothing stopped, of four comparable trials. *)

From S2P Require Import Prelude AttemptLifecycle Timestamps Decimals Store JsonText Parsing LeaseHealth Journal ControlItems RequestState Safety TrialMessage Evidence Oracle Ingestion IngestionCorrect Package Amendments AmendmentsCorrect Canonical Comparison ComparisonCorrect StudyCompletion.
Import Json Store JsonText Journal Comparison StudyCompletion.
Import Canonical(well_formed).
Import Package(flat_map_nil, path_of).
Import AmendmentsCorrect(filter_nil).
Import Ingestion(RecordValidator, record_valid, record_invalid, validateAs, textOf).
Import Evidence(ownString).
Import ComparisonCorrect(uniqueReasons_nil, uniqueReasons_spec, completed_iff, event_stop, comparable, formed_comparison).
Import Amendments(package_eligibility, package_ineligibility_reasons, pv_original_package_index_sha256).
Open Scope Z_scope.

Module StudyCompletionCorrect.

Lemma map_nil {A B} (f : A -> B) l : map f l = [] <-> l = [].
Proof. split; [apply map_eq_nil|by intros ->]. Qed.

Lemma if_nil {A} (b : bool) (x : A) : (if b then [] else [x]) = [] <-> b = true.
Proof. by destruct b. Qed.

Lemma if_nil_negative {A} (b : bool) (x : A) : (if b then [x] else []) = [] <-> b = false.
Proof. by destruct b. Qed.

(** ** The checks of completion *)

Definition status_reached (input : StudyCompletionInput) : Prop :=
  exists s, run_summary input = Some s
  /\ comparison_eligibility (sm_eligibility (record s)) = Amendments.eligible
  /\ sm_cleanup_status (record s) = Amendments.terminal Amendments.succeeded
  /\ sm_leak_audit_status (record s) = Amendments.clean
  /\ lease_status (record s) = LeaseHealth.released
  /\ run_terminal_reason (record s) = COMPLETED
  /\ package_eligibility (package_verification input) = Amendments.eligible
  /\ pv_original_package_index_sha256 (package_verification input) = original_package_index_sha256 input.

Lemma package_eligible_iff input : package_eligible input = true <->
  package_eligibility (package_verification input) = Amendments.eligible
  /\ pv_original_package_index_sha256 (package_verification input) = original_package_index_sha256 input.
Proof. unfold package_eligible. by rewrite andb_true_iff, !bool_decide_eq_true. Qed.

Lemma valueReasons_nil v : valueReasons v = [] <->
  sv_comparison_eligibility v = Amendments.eligible /\ sv_cleanup_status v = Amendments.terminal Amendments.succeeded
  /\ sv_leak_audit_status v = Amendments.clean /\ sv_lease_status v = LeaseHealth.released /\ sv_run_terminal_reason v = COMPLETED.
Proof.
  unfold valueReasons. rewrite map_nil, filter_nil. unfold expected_values. split.
  - intros H. assert (H5 : forall f a w c, In (f, a, w, c) (expected_values v) -> a = w).
    { intros f a w c Hin%list_elem_of_In. specialize (H _ Hin). cbn in H. apply negb_false_iff, bool_decide_eq_true in H. exact H. }
    split_and!; [specialize (H5 "comparison_eligibility")|specialize (H5 "cleanup_status")|specialize (H5 "leak_audit_status")|specialize (H5 "lease_status")
      |specialize (H5 "run_terminal_reason")]; specialize (H5 _ _ _ ltac:(cbn; tauto)).
    all: destruct v as [[] p [| |[]] [] [] []]; cbn in H5 |- *; first [reflexivity|discriminate H5].
  - intros (H1 & H2 & H3 & H4 & H5). rewrite H1, H2, H3, H4, H5. intros x Hx. repeat (apply elem_of_cons in Hx as [->|Hx]; [reflexivity|]). by apply not_elem_of_nil in Hx.
Qed.

Lemma statusReasons_nil input : (originalStatus input).2 = [] <-> status_reached input.
Proof.
  unfold originalStatus, status_reached. cbn [snd]. rewrite !app_nil, valueReasons_nil. destruct (run_summary input) as [s|]; cbn.
  - pose proof (package_eligible_iff input). destruct (package_eligible input); naive_solver.
  - naive_solver.
Qed.

Lemma status_reached_values input : status_reached input -> (originalStatus input).1 = COMPLETE.
Proof. intros (s & Hs & H1 & H2 & H3 & H4 & H5 & Hp%package_eligible_iff). unfold originalStatus, COMPLETE. by rewrite Hs, Hp; cbn; rewrite H1, H2, H3, H4, H5. Qed.

Definition summary_sound (input : StudyCompletionInput) : Prop :=
  exists s, run_summary input = Some s
  /\ (forall e, e ∈ of_four (trial_results (record s)) -> is_completed e = true)
  /\ evidence_integrity_status (record s) = Evidence.verified
  /\ safety_status (record s) <> Safety.breached.

Lemma summary_checks_nil input :
  oracleResultReasons (run_summary input) = [] /\ integrityReasons (run_summary input) = []
  /\ safetyReasons (run_summary input) (billed_cost_checks input) = []
  <-> summary_sound input /\ billed_breached ∉ billed_cost_checks input.
Proof.
  unfold oracleResultReasons, integrityReasons, safetyReasons, summary_sound. destruct (run_summary input) as [s|]; [|naive_solver].
  cbv zeta. rewrite map_nil, filter_nil, if_nil, app_nil, !if_nil_negative, bool_decide_eq_true, bool_decide_eq_false, memb_false.
  setoid_rewrite negb_false_iff. naive_solver.
Qed.

Definition equality_evaluated (input : StudyCompletionInput) : Prop :=
  exists c, comparison_assessment input = Some c /\ ca_equality_result (record c) <> Evidence.v_indeterminate.

Lemma equalityReasons_nil input : equalityReasons (comparison_assessment input) = [] <-> equality_evaluated input.
Proof.
  unfold equalityReasons, equality_evaluated. destruct (comparison_assessment input) as [c|]; [|naive_solver].
  transitivity (ca_equality_result (record c) <> Evidence.v_indeterminate); [by destruct (ca_equality_result (record c))|naive_solver].
Qed.

Lemma contradictoryReasons_nil v : contradictoryReasons v = [] <-> forall r, r ∈ package_ineligibility_reasons v -> code r <> "CONTRADICTORY_CHAIN".
Proof. unfold contradictoryReasons. rewrite map_nil, filter_nil. by setoid_rewrite bool_decide_eq_false. Qed.

Definition nothing_remains (input : StudyCompletionInput) : Prop := exists a, sc_leak_audit input = Some a /\ leaks (record a) = [].

Lemma remainingResourceReasons_nil input : remainingResourceReasons (sc_leak_audit input) = [] <-> nothing_remains input.
Proof. unfold remainingResourceReasons, nothing_remains. destruct (sc_leak_audit input); [rewrite map_nil|]; naive_solver. Qed.

(** The stored provenance file is the one the manifest froze: its digest, its commit and its tree. *)
Definition source_matches (input : StudyCompletionInput) : Prop :=
  exists m p, sc_execution_manifest input = Some m /\ source_provenance input = Some p
  /\ source (record m) = MkSource (sp_commit_sha (record p)) (sp_tree_sha (record p)) (ar_sha256 (ref p)).

Lemma sourceReasons_nil input : sourceReasons (sc_execution_manifest input) (source_provenance input) = [] <-> source_matches input.
Proof.
  unfold sourceReasons, source_matches. destruct (sc_execution_manifest input) as [m|]; [|naive_solver]. destruct (source_provenance input) as [p|]; [|naive_solver].
  cbv zeta. rewrite map_nil.
  transitivity (source (record m) = MkSource (sp_commit_sha (record p)) (sp_tree_sha (record p)) (ar_sha256 (ref p))); [|naive_solver].
  destruct (source (record m)) as [c t s]. cbn. repeat case_bool_decide; cbn; (split; [intros [=]|intros [= ? ? ?]]); congruence.
Qed.

(** The run was made under the selected qualification. *)
Definition qualification_matches (input : StudyCompletionInput) : Prop :=
  exists m s, sc_execution_manifest input = Some m /\ selected_qualification input = Some s
  /\ qualification (record m) = Some (sq_qualification s) /\ em_transport_scope_snapshot_sha256 (record m) = transport_scope_snapshot_sha256 s.

Lemma qualificationReasons_nil input : qualificationReasons (sc_execution_manifest input) (selected_qualification input) = [] <-> qualification_matches input.
Proof.
  unfold qualificationReasons, qualification_matches. destruct (sc_execution_manifest input) as [m|]; [|naive_solver].
  destruct (selected_qualification input) as [s|]; [|naive_solver].
  transitivity (qualification (record m) = Some (sq_qualification s) /\ em_transport_scope_snapshot_sha256 (record m) = transport_scope_snapshot_sha256 s); [|naive_solver].
  destruct s as [[a b c] t], (qualification (record m)) as [[a' b' c']|]; [|by split; [|intros [[=] _]]]. cbv zeta. rewrite map_nil. cbn.
  repeat case_bool_decide; cbn; (split; [intros [=]|intros [[= ? ? ?] ?]]); first [congruence|split; congruence].
Qed.

Definition study_holds (input : StudyCompletionInput) : Prop :=
  status_reached input /\ summary_sound input /\ (billed_breached ∉ billed_cost_checks input) /\ equality_evaluated input
  /\ (forall r, r ∈ package_ineligibility_reasons (package_verification input) -> code r <> "CONTRADICTORY_CHAIN")
  /\ nothing_remains input /\ source_matches input /\ qualification_matches input.

(** Every reason the assessment gathers, in order. *)
Definition completion_reasons (input : StudyCompletionInput) : list StructuredReason :=
  (originalStatus input).2 ++ oracleResultReasons (run_summary input) ++ equalityReasons (comparison_assessment input) ++ integrityReasons (run_summary input)
  ++ contradictoryReasons (package_verification input) ++ safetyReasons (run_summary input) (billed_cost_checks input)
  ++ remainingResourceReasons (sc_leak_audit input) ++ sourceReasons (sc_execution_manifest input) (source_provenance input)
  ++ qualificationReasons (sc_execution_manifest input) (selected_qualification input).

Lemma completion_reasons_nil input : completion_reasons input = [] <-> study_holds input.
Proof.
  unfold completion_reasons, study_holds.
  rewrite !app_nil, statusReasons_nil, equalityReasons_nil, contradictoryReasons_nil, remainingResourceReasons_nil, sourceReasons_nil, qualificationReasons_nil.
  pose proof (summary_checks_nil input). tauto.
Qed.

Lemma assess_cases input : let a := assessStudyCompletion input in
  incompletion_reasons a = uniqueReasons (completion_reasons input)
  /\ (study_complete a = true <-> completion_reasons input = [])
  /\ status_values a = (if study_complete a then COMPLETE else (originalStatus input).1).
Proof.
  unfold assessStudyCompletion, completion_reasons. destruct (originalStatus input) as [values rs]. cbn [fst snd].
  rewrite <- uniqueReasons_nil. by destruct (uniqueReasons _) eqn:E.
Qed.

Lemma study_complete_holds input : study_complete (assessStudyCompletion input) = true <-> study_holds input.
Proof. rewrite <- completion_reasons_nil. apply assess_cases. Qed.

Lemma completionCheck_holds input k : k ∈ completion_checks (assessStudyCompletion input) -> completion_reasons input = [] -> sc_holds k = true.
Proof.
  unfold completion_reasons. rewrite !app_nil. intros Hk (_ & H1 & H2 & H3 & H4 & H5 & H6 & H7 & H8).
  unfold assessStudyCompletion in Hk. destruct (originalStatus input) as [values rs].
  rewrite H1, H2, H3, H4, H5, H6, H7, H8 in Hk. destruct (uniqueReasons _) in Hk; cbn in Hk; repeat (apply elem_of_cons in Hk as [->|Hk]; [reflexivity|]); by apply not_elem_of_nil in Hk.
Qed.

(** C16: a study is complete exactly when everything original says so. [assessStudyCompletion] calls a study complete iff the
    original run summary has an eligible comparison, a clean and released closure, a completed terminal reason, four completed trials,
    verified evidence and no breach; the verification is an eligible one of this very package index, without a contradictory chain; no
    billed-cost check is breached; equality was evaluated; the leak audit names nothing; the stored source is the one the manifest
    froze and the selected qualification the one it ran under. It is complete iff it has no reason, each reason is given once, a
    complete study has every check, and the status values reported are always those of the originals. *)
Theorem study_complete_iff (input : StudyCompletionInput) :
  let a := assessStudyCompletion input in
  (study_complete a = true <-> study_holds input)
  /\ (study_complete a = true <-> incompletion_reasons a = [])
  /\ NoDup (incompletion_reasons a)
  /\ (study_complete a = true -> forall k, k ∈ completion_checks a -> sc_holds k = true)
  /\ status_values a = (originalStatus input).1.
Proof.
  cbv zeta. destruct (assess_cases input) as (Hr & Hc & Hv). rewrite Hr, uniqueReasons_nil, Hv, study_complete_holds, <- completion_reasons_nil. split_and!; [done|done| | |].
  - apply uniqueReasons_spec.
  - intros Hn k Hk. by apply (completionCheck_holds input).
  - destruct (study_complete _); [|done]. symmetry. apply status_reached_values, statusReasons_nil. destruct Hc as [Hc _].
    specialize (Hc eq_refl). unfold completion_reasons in Hc. by apply app_nil in Hc as [? _].
Qed.

(** ** The run reader *)

Section reader.
Context (JSON_parse : string -> Result json string) (validator : RecordValidator) (digest : list Z -> string) (files : PackageFiles).
Abbreviation readRecordFile := (StudyCompletion.readRecordFile JSON_parse validator digest files).
Abbreviation read := (StudyCompletion.read JSON_parse validator digest files).
Abbreviation readUncorrelated := (StudyCompletion.readUncorrelated JSON_parse validator digest files).

(** The package has this record at [path]: its bytes parse to it, it is a valid [ty] and the reference names the bytes. *)
Definition stored (path ty : string) (f : FrozenRecord json) : Prop :=
  exists bytes, file_at files path = Some bytes /\ Parsing.parseJsonDocument JSON_parse bytes = Ok (record f)
  /\ validateAs validator ty (record f) = record_valid /\ ref f = MkArtifactRef path (digest bytes).

(** The record names this manifest and, where one is asked for, this trial. *)
Definition correlated (d : string) (v : json) (trial : option string) : Prop :=
  ownString v "execution_manifest_sha256" = Some d /\ forall t, trial = Some t -> ownString v "trial_id" = Some t.

Definition told (path : string) (rs : list StructuredReason) : Prop := exists r, r ∈ rs /\ artifact_path r = Some path.

(** What a read may return: a stored record that meets [ok], or none, for an absent file or with a reason that names the path. *)
Definition read_right (path ty : string) (ok : json -> Prop) (o : option (FrozenRecord json)) (rs : list StructuredReason) : Prop :=
  match o with
  | Some f => stored path ty f /\ ok (record f)
  | None => file_at files path = None \/ told path rs
  end.

Lemma told_mono path rs rs' : (forall r, r ∈ rs -> r ∈ rs') -> told path rs -> told path rs'.
Proof. intros H (r & Hr & Hp). exists r. auto. Qed.

Lemma read_right_mono path ty ok o rs rs' : (forall r, r ∈ rs -> r ∈ rs') -> read_right path ty ok o rs -> read_right path ty ok o rs'.
Proof. intros H. destruct o; [done|]. intros [Hf|Ht]; [by left|right]. by apply told_mono with rs. Qed.

Lemma correlationProblem_none d v trial : correlationProblem d v trial = None <-> correlated d v trial.
Proof.
  unfold correlationProblem, correlated. case_bool_decide as H; cbn [negb]; [|naive_solver].
  destruct trial as [t|]; [|naive_solver]. case_bool_decide; naive_solver.
Qed.

Lemma checkRecord_ok v ty r : checkRecord validator v ty = Ok r <-> r = v /\ validateAs validator ty v = record_valid.
Proof. unfold checkRecord. destruct (validateAs validator ty v); split; [by intros [= <-]|by intros [-> _]|done|by intros [_ ?]]. Qed.

Lemma readRecordFile_exact path ty :
  match readRecordFile path ty with
  | record_absent => file_at files path = None
  | record_unreadable r => artifact_path r = Some path /\ forall f, ~ stored path ty f
  | record_read f => stored path ty f
  end.
Proof.
  unfold StudyCompletion.readRecordFile, stored. destruct (file_at files path) as [bytes|]; [|done].
  destruct (Parsing.parseJsonDocument JSON_parse bytes) as [v|e] eqn:Ep; [|split; [done|intros f (b & [= <-] & Hp & _); congruence]].
  destruct (checkRecord validator v ty) as [r|e] eqn:Ec.
  - apply checkRecord_ok in Ec as [-> Hv]. by exists bytes.
  - split; [done|]. intros f (b & [= <-] & Hp & Hv & _). assert (Hr : checkRecord validator v ty = Ok v) by (apply checkRecord_ok; split; [done|congruence]). congruence.
Qed.

(** A reading appends to the reasons and returns what [P] says of the reasons it leaves. *)
Definition reads {A} (m : Reading A) (P : A -> list StructuredReason -> Prop) : Prop :=
  forall rs, exists a new, m rs = (a, rs ++ new) /\ P a (rs ++ new).

(** A property that more reasons keep. *)
Definition kept_by_reasons {A} (P : A -> list StructuredReason -> Prop) : Prop :=
  forall a rs rs', (forall r, r ∈ rs -> r ∈ rs') -> P a rs -> P a rs'.

Lemma reads_ret {A} (a : A) (P : A -> list StructuredReason -> Prop) : (forall rs, P a rs) -> reads (rd_ret a) P.
Proof. intros H rs. exists a, []. by rewrite app_nil_r. Qed.

Lemma reads_bind {A B} (m : Reading A) (k : A -> Reading B) P Q : kept_by_reasons P -> reads m P ->
  (forall a, reads (k a) (fun b rs => P a rs -> Q b rs)) -> reads (rd_bind m k) Q.
Proof.
  intros Hk Hm Hq rs. destruct (Hm rs) as (a & n1 & Ha & Hp). destruct (Hq a (rs ++ n1)) as (b & n2 & Hb & Hi).
  exists b, (n1 ++ n2). unfold rd_bind. rewrite Ha, Hb, app_assoc. split; [done|]. apply Hi. eapply Hk; [|exact Hp]. set_solver.
Qed.

Lemma reads_impl {A} (m : Reading A) (P Q : A -> list StructuredReason -> Prop) : (forall a rs, P a rs -> Q a rs) -> reads m P -> reads m Q.
Proof. intros H Hm rs. destruct (Hm rs) as (a & n & Ha & Hp). exists a, n. auto. Qed.

Lemma read_right_kept path ty ok : kept_by_reasons (read_right path ty ok).
Proof. intros o rs rs'. apply read_right_mono. Qed.

Lemma readUncorrelated_right path ty : reads (readUncorrelated path ty) (read_right path ty (fun _ => True)).
Proof.
  unfold StudyCompletion.readUncorrelated. pose proof (readRecordFile_exact path ty) as H. destruct (readRecordFile path ty) as [|r|f].
  - apply reads_ret. by left.
  - intros rs. exists None, [r]. split; [done|]. right. exists r. split; [set_solver|apply H].
  - by apply reads_ret.
Qed.

Lemma read_is_right d path ty trial : reads (read d path ty trial) (read_right path ty (fun v => correlated d v trial)).
Proof.
  eapply reads_bind; [apply read_right_kept|apply readUncorrelated_right|].
  intros [f|]; [|apply reads_ret; intros rs H; exact H]. destruct (correlationProblem d (record f) trial) as [problem|] eqn:E.
  - intros rs. exists None, [foreign path problem]. split; [done|]. intros _. right. exists (foreign path problem). split; [set_solver|done].
  - apply reads_ret. intros rs [Hs _]. split; [done|]. by apply correlationProblem_none.
Qed.

(** The record of one line that a journal keeps: of a requested type, valid and of this manifest. *)
Definition kept_line (d : string) (types : list string) (line : Parsing.JsonlLine) : option json :=
  match Parsing.line_parsed line with
  | Err _ => None
  | Ok v =>
      match requestedType v types with
      | None => None
      | Some ty => match validateAs validator ty v with record_valid => if bool_decide (ownString v "execution_manifest_sha256" = Some d) then Some v else None | _ => None end
      end
  end.

Definition journal_lines (path : string) : list Parsing.JsonlLine :=
  match file_at files path with Some bytes => Parsing.lines (Parsing.parseJsonl JSON_parse bytes) | None => [] end.

Definition correlated_only (d : string) (v : json) : option json := match correlationProblem d v None with None => Some v | Some _ => None end.

(** A line of another type: not the reader's. *)
Definition skipped (types : list string) (line : Parsing.JsonlLine) : Prop := exists v, Parsing.line_parsed line = Ok v /\ requestedType v types = None.

(** The kept records are those of the lines, in order; a line left out was another type's or has a reason. *)
Definition journal_right (path : string) (types : list string) (d : string) (kept : list json) (rs : list StructuredReason) : Prop :=
  kept = omap (kept_line d types) (journal_lines path)
  /\ forall line, line ∈ journal_lines path -> kept_line d types line = None -> skipped types line \/ told path rs.

Abbreviation readJournal := (readJournalRecords JSON_parse validator files).

Lemma keepCorrelated_right d path records : reads (keepCorrelated d path records) (fun kept rs =>
  kept = omap (correlated_only d) records
  /\ forall v, v ∈ records -> correlationProblem d v None <> None -> told path rs).
Proof.
  induction records as [|v records IH]; [apply reads_ret; intros rs; split; [done|by intros ? ?%not_elem_of_nil]|].
  cbn [keepCorrelated omap list_omap]. unfold correlated_only at 1. destruct (correlationProblem d v None) as [problem|] eqn:E.
  - intros rs. destruct (IH (rs ++ [foreign path problem])) as (a & n & Ha & Hk & _). exists a, ([foreign path problem] ++ n).
    unfold rd_bind, rd_report. rewrite Ha, app_assoc. split; [done|]. split; [done|]. intros _ _ _. exists (foreign path problem). split; [set_solver|done].
  - intros rs. destruct (IH rs) as (a & n & Ha & Hk & Ht). exists (v :: a), n. unfold rd_bind. rewrite Ha. split; [done|].
    split; [by rewrite Hk|]. intros w [->|Hw]%elem_of_cons Hc; [done|]. by apply (Ht w).
Qed.

Lemma journal_line_cases path types line :
  match journal_line validator path types line with
  | ([v], []) => Parsing.line_parsed line = Ok v /\ exists ty, requestedType v types = Some ty /\ validateAs validator ty v = record_valid
  | ([], [r]) => artifact_path r = Some path /\ forall d, kept_line d types line = None
  | ([], []) => skipped types line
  | _ => False
  end.
Proof.
  unfold journal_line, kept_line, skipped. destruct (Parsing.line_parsed line) as [v|e]; [|done]. destruct (requestedType v types) as [ty|] eqn:Er; [|by exists v].
  destruct (checkRecord validator v ty) as [r|e] eqn:E.
  - apply checkRecord_ok in E as [-> Hv]. split; [done|]. by exists ty.
  - split; [done|]. intros d. destruct (validateAs validator ty v) eqn:Ev; [|done].
    assert (checkRecord validator v ty = Ok v) by by apply checkRecord_ok. congruence.
Qed.

Lemma kept_line_skipped d types line : skipped types line -> kept_line d types line = None.
Proof. intros (v & Hv & Hr). unfold kept_line. by rewrite Hv, Hr. Qed.

Lemma kept_line_valid d types line v ty : Parsing.line_parsed line = Ok v -> requestedType v types = Some ty -> validateAs validator ty v = record_valid ->
  kept_line d types line = correlated_only d v.
Proof. intros Hv Hr Hc. unfold kept_line, correlated_only, correlationProblem. rewrite Hv, Hr, Hc. by case_bool_decide. Qed.

Lemma journal_kept d path types ls :
  omap (correlated_only d) (flat_map fst (map (journal_line validator path types) ls))
  = omap (kept_line d types) ls.
Proof.
  induction ls as [|line ls IH]; [done|]. cbn [map flat_map]. rewrite omap_app, IH. cbn [omap list_omap].
  pose proof (journal_line_cases path types line) as H.
  destruct (journal_line validator path types line) as [[|v [|]] [|r [|]]]; try done; cbn [fst omap list_omap app].
  - by rewrite (kept_line_skipped _ _ _ H).
  - destruct H as [_ H]. by rewrite H.
  - destruct H as (Hv & ty & Hr & Hc). rewrite (kept_line_valid d _ _ _ _ Hv Hr Hc). by destruct (correlated_only d v).
Qed.

Lemma journal_is_right d path types :
  reads (keepCorrelated d path (jr_records (readJournal path types))) (fun kept rs => forall rs',
    (forall r, r ∈ rs -> r ∈ rs') -> (forall r, r ∈ jr_reasons (readJournal path types) -> r ∈ rs') -> journal_right path types d kept rs').
Proof.
  eapply reads_impl; [|apply keepCorrelated_right]. intros kept rs [Hk Ht] rs' Hrs Hjr.
  unfold journal_right, journal_lines, readJournalRecords in *. destruct (file_at files path) as [bytes|]; [|by split; [|intros ? ?%not_elem_of_nil]].
  cbn [jr_records jr_reasons] in *. set (ls := Parsing.lines _) in *. split; [by rewrite Hk, journal_kept|].
  intros line Hl Hn. pose proof (journal_line_cases path types line) as H. destruct (journal_line validator path types line) as [[|v [|]] [|r [|]]] eqn:E; try done.
  - by left.
  - right. exists r. split; [|apply H]. apply Hjr. rewrite list_elem_of_In, in_flat_map. exists (journal_line validator path types line).
    rewrite E, <- !list_elem_of_In. split; [rewrite <- E; by apply list_elem_of_fmap_2|set_solver].
  - destruct H as (Hv & ty & Hr & Hc). rewrite (kept_line_valid d _ _ _ _ Hv Hr Hc) in Hn. right. apply told_mono with rs; [done|]. apply (Ht v).
    + rewrite list_elem_of_In, in_flat_map. exists (journal_line validator path types line).
      rewrite E, <- !list_elem_of_In. split; [rewrite <- E; by apply list_elem_of_fmap_2|set_solver].
    + unfold correlated_only in Hn. by destruct (correlationProblem d v None).
Qed.

(** ** The package *)

Context (views : RecordViews).

Definition viewed {T} (path ty : string) (ok : json -> Prop) (f : json -> T) (o : option (FrozenRecord T)) (rs : list StructuredReason) : Prop :=
  exists x, o = option_map (view f) x /\ read_right path ty ok x rs.

Definition trial_right (d : string) (trial : DeclaredTrial) (t : RunTrialRecords) (rs : list StructuredReason) : Prop :=
  let file key := Package.unitFile (Package.unit_trial (trial_id trial)) key in
  let ok v := correlated d v (Some (trial_id trial)) in
  rt_trial t = trial /\ rt_payment t = bytesRef digest files (file "payment") /\ rt_approved_decision t = bytesRef digest files (file "approvedDecision")
  /\ read_right (file "trialManifest") "trial_manifest" ok (trial_manifest t) rs
  /\ viewed (file "providerTrialConfiguration") "provider_trial_configuration" ok (as_provider_configuration views) (rt_provider_configuration t) rs
  /\ viewed (file "oracleResult") "oracle_result" ok (as_oracle_result views) (oracle_result t) rs.

Lemma viewed_mono {T} path ty ok (f : json -> T) o rs rs' : (forall r, r ∈ rs -> r ∈ rs') -> viewed path ty ok f o rs -> viewed path ty ok f o rs'.
Proof. intros H (x & Hx & Hr). exists x. split; [done|]. by apply (read_right_mono path ty ok x rs). Qed.

Lemma trial_right_kept d trial : kept_by_reasons (trial_right d trial).
Proof.
  intros t rs rs' H (H1 & H2 & H3 & H4 & H5 & H6). split_and!; [done..| | |]; [by apply (read_right_mono _ _ _ _ rs)|by apply (viewed_mono _ _ _ _ _ rs)..].
Qed.

Lemma readTrial_right d trial : reads (readTrial JSON_parse validator digest views files d trial) (trial_right d trial).
Proof.
  unfold readTrial. eapply reads_bind; [apply read_right_kept|apply read_is_right|]. intros manifest.
  eapply reads_bind; [|eapply read_is_right|]; [apply read_right_kept|]. intros configuration.
  eapply reads_bind; [|eapply read_is_right|]; [apply read_right_kept|]. intros oracle.
  apply reads_ret. intros rs Ho Hc Hm. split_and!; [done..| |]; by eexists.
Qed.

Definition RUNNER_RECORDS : list string := ["phase_transition_recorded"; "trial_interrupted"].

(** What the records of a run are, over the files: each singleton stored, valid and of this manifest (the source provenance names
    none), each trial's under its own id, each journal's lines. *)
Definition records_right (m : FrozenRecord json) (records : RunPackageRecords) (rs : list StructuredReason) : Prop :=
  let d := ar_sha256 (ref m) in
  let run v := correlated d v None in
  execution_manifest records = view (as_execution_manifest views) m
  /\ rp_run_id records = em_run_id (as_execution_manifest views (record m))
  /\ Forall2 (fun trial t => trial_right d trial t rs) (of_four (em_trials (as_execution_manifest views (record m)))) (of_four (trial_records records))
  /\ viewed (path_of "resourceManifest") "resource_manifest" run (as_resource_manifest views) (resource_manifest records) rs
  /\ viewed (path_of "sourceProvenance") "source_provenance" (fun _ => True) (as_source_provenance views) (rp_source_provenance records) rs
  /\ viewed (path_of "lateEvidenceAssessment") "late_evidence_assessment" run (as_late_evidence views) (late_evidence records) rs
  /\ viewed (path_of "cleanupResult") "cleanup_result" run (as_cleanup views) (cleanup records) rs
  /\ viewed (path_of "leakAuditResult") "leak_audit_result" run (as_leak_audit views) (leak_audit records) rs
  /\ viewed (path_of "safetyAssessment") "safety_assessment" run (as_safety views) (safety records) rs
  /\ viewed (path_of "comparisonAssessment") "comparison_assessment" run (as_comparison_assessment views) (rp_comparison_assessment records) rs
  /\ viewed (path_of "runSummary") "run_summary" run (as_run_summary views) (rp_run_summary records) rs
  /\ (exists kept, runner_events records = map (as_runner_event views) kept /\ journal_right (path_of "runnerJournal") RUNNER_RECORDS d kept rs)
  /\ (exists kept, lease_events records = map (as_lease_event views) kept /\ journal_right (path_of "coordinationJournal") ["lease_event_recorded"] d kept rs).

Definition included (rs rs' : list StructuredReason) : Prop := forall r, r ∈ rs -> r ∈ rs'.

Lemma read_records_right m :
  let runner := readJournal (path_of "runnerJournal") RUNNER_RECORDS in
  let lease := readJournal (path_of "coordinationJournal") ["lease_event_recorded"] in
  reads (read_records JSON_parse validator digest views files m runner lease) (fun records rs => forall rs',
    included rs rs' -> included (jr_reasons runner) rs' -> included (jr_reasons lease) rs' -> records_right m records rs').
Proof.
  cbv zeta. unfold read_records.
  do 4 (eapply reads_bind; [apply trial_right_kept|apply readTrial_right|]; intros ?).
  eapply reads_bind; [apply read_right_kept|apply read_is_right|]. intros ?.
  eapply reads_bind; [apply read_right_kept|apply readUncorrelated_right|]. intros ?.
  do 6 (eapply reads_bind; [apply read_right_kept|apply read_is_right|]; intros ?).
  do 2 (eapply reads_bind; [|apply journal_is_right|]; [intros ? ? ? Hi Hp rs' Hs; apply Hp; intros r Hr; by apply Hs, Hi|]; intros ?).
  apply reads_ret. intros rs Hlease Hrunner Hsummary Hcomparison Hsafety Haudit Hcleanup Hlate Hsource Hresource Ht4 Ht3 Ht2 Ht1 rs' Hs Hjr Hjl.
  unfold records_right. cbn [execution_manifest rp_run_id trial_records resource_manifest rp_source_provenance late_evidence cleanup leak_audit safety
    rp_comparison_assessment rp_run_summary runner_events lease_events of_four].
  split_and!; [done|done| |eexists; split; [done|by apply (read_right_mono _ _ _ _ rs)]..| |].
  - unfold of_four. do 4 (apply Forall2_cons; split; [by apply (trial_right_kept _ _ _ rs)|]). by apply Forall2_nil.
  - eexists. split; [done|]. by apply Hrunner.
  - eexists. split; [done|]. by apply Hlease.
Qed.

Lemma readRunManifest_exact :
  let path := path_of "executionManifest" in
  match readRunManifest JSON_parse validator digest files with
  | Ok f => stored path "execution_manifest" f /\ textOf (record f) "execution_kind" = "RUN"
  | Err rs => told path rs /\ forall f, stored path "execution_manifest" f -> textOf (record f) "execution_kind" <> "RUN"
  end.
Proof.
  cbv zeta. unfold readRunManifest. pose proof (readRecordFile_exact (path_of "executionManifest") "execution_manifest") as H.
  destruct (readRecordFile _ _) as [|r|f].
  - split; [eexists; split; [by left|done]|]. intros f (b & Hb & _). congruence.
  - destruct H as [Hp Hn]. split; [exists r; split; [by left|done]|]. intros f Hf. by apply Hn in Hf.
  - cbv zeta. case_bool_decide as Hk; [done|]. split; [eexists; split; [by left|done]|].
    intros g (b & Hb & Hg & _). destruct H as (b' & Hb' & Hf & _). assert (record g = record f) as -> by congruence. done.
Qed.

(** The run reader keeps exactly the package's own records. [readRunPackage] fails only for a run manifest that is absent,
    unreadable, invalid or not a RUN, with a reason that names it. Otherwise each record it returns is stored at its path, parses, is
    valid for its type, is pinned by the digest of its bytes and, the source provenance apart, names this manifest (and its trial);
    one it leaves out is absent or has a reason that names its path; and each journal yields, in order, exactly its valid lines of the
    requested types that name this manifest, a line left out being another type's or told. It always returns. *)
Theorem run_package_read_exact :
  match readRunPackage JSON_parse validator digest views files with
  | Err rs => told (path_of "executionManifest") rs
      /\ forall f, stored (path_of "executionManifest") "execution_manifest" f -> textOf (record f) "execution_kind" <> "RUN"
  | Ok records => exists m, stored (path_of "executionManifest") "execution_manifest" m /\ textOf (record m) "execution_kind" = "RUN"
      /\ records_right m records (rp_reasons records)
  end.
Proof.
  unfold readRunPackage. pose proof readRunManifest_exact as Hm. cbv zeta in Hm |- *. destruct (readRunManifest _ _ _ _) as [m|rs]; [|done].
  destruct (read_records_right m []) as (records & rs & He & Hr). cbv zeta in He. fold RUNNER_RECORDS. rewrite He. cbn [app] in *.
  exists m. destruct Hm as [Hs Hk]. do 2 (split; [done|]). unfold records_right in *.
  cbn [execution_manifest rp_run_id trial_records resource_manifest rp_source_provenance late_evidence cleanup leak_audit safety
    rp_comparison_assessment rp_run_summary runner_events lease_events rp_reasons].
  apply Hr; intros r Hin; apply elem_of_app; [by left|right; apply elem_of_app; by left|right; apply elem_of_app; by right].
Qed.
End reader.

(** ** The sheets of a run are well formed *)

Definition formed_fields (o : JsonObject) : Prop := forall f v, member f o = Some v -> well_formed v.
Definition formed_members (o : JsonObject) : Prop := forall f v, (f, v) ∈ o -> well_formed v.

Definition formed_timing (t : DeclaredTiming) : Prop :=
  Forall Canonical.well_spelled [provider_client_deadline_ms t; provider_execution_timeout_ms t; conventional_invocation_timeout_ms t; durable_invocation_timeout_ms t;
    conventional_visibility_timeout_ms t; durable_visibility_timeout_ms t; durable_retry_delay_ms t; durable_total_step_attempts t;
    durable_execution_timeout_ms t; max_receive_count t; observation_deadline_ms t; stabilization_interval_ms t; queue_poll_interval_ms t].

Definition formed_variant (d : VariantDeploymentSheet) : Prop :=
  formed_members (vd_message_source_protocol d) /\ formed_members (vd_provider_configuration d) /\ formed_members (vd_controller_configuration d)
  /\ formed_members (vd_caller_timing d) /\ formed_members (vd_caller_strategy d).

(** The numbers of the sources are well spelled and the members of the deployment sheets well formed. *)
Definition formed_sources (s : TrialSheetSources) : Prop :=
  formed_timing (timing (record (ts_execution_manifest s))) /\ Canonical.well_spelled (invocations_per_trial (record (ts_execution_manifest s)))
  /\ (forall c, ts_provider_configuration s = Some c -> Canonical.well_spelled (safety_release_ms (record c)) /\ Canonical.well_spelled (treatment_poll_interval_ms (record c)))
  /\ (forall d v, deployment s = Some d -> formed_variant (variants d v)).

Lemma formed_nil : formed_fields [].
Proof. done. Qed.

Lemma formed_cons k v o : well_formed v -> formed_fields o -> formed_fields ((k, v) :: o).
Proof. intros Hv Ho f u. cbn [member]. case_bool_decide; [by intros [= <-]|apply Ho]. Qed.

Lemma formed_of_members o : formed_members o -> formed_fields o.
Proof.
  intros H. induction o as [|[k v] o IH]; [apply formed_nil|]. apply formed_cons; [apply (H k v); left|]. apply IH. intros f u Hu. apply (H f u). by right.
Qed.

Lemma formed_members_nil : formed_members [].
Proof. by intros f v ?%not_elem_of_nil. Qed.

Lemma formed_members_cons k v o : well_formed v -> formed_members o -> formed_members ((k, v) :: o).
Proof. intros Hv Ho f u [[= -> ->]|Hu]%elem_of_cons; [done|by apply (Ho f)]. Qed.

Lemma formed_set_members set o : formed_members set -> formed_fields o -> formed_fields (set_members set o).
Proof.
  unfold set_members. revert o. induction set as [|[k v] set IH]; intros o Hs Ho; [done|]. cbn [fold_left]. apply IH.
  - intros f u Hu. apply (Hs f u). by right.
  - intros f u. rewrite member_set_member. case_bool_decide; [intros [= <-]; apply (Hs k v); left|apply Ho].
Qed.

Lemma formed_sheet c w refs s : formed_fields c -> formed_fields w -> sheet c w refs = with_sheet s ->
  forall f v, member f (common s) = Some v \/ member f (within_variant s) = Some v -> well_formed v.
Proof. unfold sheet. intros Hc Hw [= <-] f v [H|H]; cbn in H; [by apply (Hc f)|by apply (Hw f)]. Qed.

Lemma formed_warmup n : Canonical.well_spelled n -> well_formed (JObj [("invocations_per_trial", JNum n)]).
Proof. intros H. split; [apply NoDup_singleton|done]. Qed.

#[local] Hint Resolve formed_nil formed_cons formed_members_nil formed_members_cons formed_of_members formed_set_members formed_warmup : core.
#[local] Hint Extern 1 (well_formed _) => exact I : core.
#[local] Hint Extern 1 (well_formed (JNum _)) => progress cbn [well_formed] : core.

Lemma built_sheets_formed sources : formed_sources sources -> forall id s f v,
  projections (buildTrialSheets sources) id = with_sheet s -> member f (common s) = Some v \/ member f (within_variant s) = Some v -> well_formed v.
Proof.
  intros (Ht & Hn & Hc & Hd) id s f v Hs. revert f v.
  unfold formed_timing in Ht. rewrite !Forall_cons in Ht. destruct Ht as (H1 & H2 & H3 & H4 & H5 & H6 & H7 & H8 & H9 & H10 & H11 & H12 & H13 & _).
  destruct id; cbn [buildTrialSheets projections] in Hs.
  - unfold financialSheet in Hs. destruct (payment sources), (approved_decision sources); try discriminate Hs. apply formed_sheet with (3 := Hs); auto.
  - unfold controlSheet in Hs. destruct (ts_provider_configuration sources) as [c|] eqn:E; [|discriminate Hs]. destruct (Hc c eq_refl). apply formed_sheet with (3 := Hs); auto 7.
  - unfold treatmentSheet in Hs. destruct (ts_provider_configuration sources) as [c|] eqn:E; [|discriminate Hs]. destruct (Hc c eq_refl). apply formed_sheet with (3 := Hs); auto 9.
  - unfold messageSourceSheet in Hs. destruct (deployment sources) as [d|] eqn:E; [|discriminate Hs]. destruct (Hd d (variant_id (ts_trial sources)) eq_refl) as (Hp & _).
    apply formed_sheet with (3 := Hs); [|auto]. destruct (is_durable _); auto 9.
  - unfold providerSheet in Hs. destruct (deployment sources) as [d|] eqn:E; [|discriminate Hs]. destruct (Hd d (variant_id (ts_trial sources)) eq_refl) as (_ & Hp & _).
    destruct (ts_resource_manifest sources) as [r|]; [|discriminate Hs]. destruct (provider_version _); [|discriminate Hs]. apply formed_sheet with (3 := Hs); auto 9.
  - unfold controllerSheet in Hs. destruct (deployment sources) as [d|] eqn:E; [|discriminate Hs]. destruct (Hd d (variant_id (ts_trial sources)) eq_refl) as (_ & _ & Hp & _).
    apply formed_sheet with (3 := Hs); auto.
  - unfold callerTimingSheet in Hs. destruct (deployment sources) as [d|] eqn:E; [|discriminate Hs]. destruct (Hd d (variant_id (ts_trial sources)) eq_refl) as (_ & _ & _ & Hp & Hq).
    destruct (is_durable _); apply formed_sheet with (3 := Hs); auto 9.
  - unfold observationSheet in Hs. apply formed_sheet with (3 := Hs); auto 9.
Qed.

(** ** A complete study over the run it finalized *)

Definition formed_run (records : RunPackageRecords) (context : RunFinalizationContext) : Prop :=
  (forall d v, d ∈ declared_variant_differences (record (execution_manifest records)) -> well_formed (declared_value d v))
  /\ forall t, t ∈ of_four (trial_records records) -> formed_sources (sheet_sources records context t).

Lemma formed_run_comparison records context late : formed_run records context -> formed_comparison (comparison_input records context late).
Proof.
  intros [Hd Hs]. split; [done|]. intros t id s f v (rt & -> & Hrt)%list_elem_of_fmap Hp Hv. exact (built_sheets_formed _ (Hs rt Hrt) id s f v Hp Hv).
Qed.

(** What finalization writes: the assessment of the run and the summary of that assessment. *)
Lemma finalized_parts records context digest files : finalizeRunAssessments records context digest = Ok (Ok files) ->
  exists cleaned late c, cleanup records = Some cleaned /\ late_evidence records = Some late
  /\ assessRunComparison (comparison_input records context late) = Ok c
  /\ fz_record (fr_comparison_assessment files) = assessment c
  /\ let s := fz_record (fr_run_summary files) in
     run_terminal_reason s = deriveRunTerminalReason (terminal_input records cleaned)
     /\ sm_eligibility s = eligibilityOutcome (ca_eligibility (assessment c))
     /\ lease_status s = finalLeaseStatus (lease_events records)
     /\ sm_cleanup_status s = cleanup_status (record cleaned)
     /\ sm_leak_audit_status s = match leak_audit records with Some a => leak_audit_status (record a) | None => Amendments.inconclusive end.
Proof.
  unfold finalizeRunAssessments. destruct (cleanup records) as [cleaned|]; [|discriminate]. destruct (late_evidence records) as [late|]; [|discriminate].
  destruct (assessRunComparison _) as [c|e] eqn:Ec; [|discriminate]. cbn [bind_result]. unfold recordFile.
  destruct (TrialMessage.serializeRecordFile _) as [t1|e]; [|discriminate]. cbn [bind_result].
  destruct (TrialMessage.serializeRecordFile _) as [t2|e]; [|discriminate]. cbn [bind_result]. intros [= <-]. by exists cleaned, late, c.
Qed.

(** C10: a complete study is a run nothing stopped, of four comparable trials. When [assessStudyCompletion] calls a study complete
    over the very summary that [finalizeRunAssessments] wrote for the run, then the run's evidence allowed the comparison (four valid
    results, controls and treatments verified, no shared transaction, equal but for declared differences, late evidence acceptable, no
    contradictory amendment, no resource that can still process), no journal event stopped the run and its summary phase did not fail,
    four results were frozen, the cleanup succeeded over a clean audit, and the last word of the lease is its release. *)
Theorem complete_study_is_sound_run (records : RunPackageRecords) (context : RunFinalizationContext) (digest : list Z -> string)
    (files : FinalizedRunFiles) (input : StudyCompletionInput) (s : FrozenRecord RunSummary) :
  formed_run records context -> finalizeRunAssessments records context digest = Ok (Ok files) ->
  run_summary input = Some s -> record s = fz_record (fr_run_summary files) -> study_complete (assessStudyCompletion input) = true ->
  exists cleaned late audit, cleanup records = Some cleaned /\ late_evidence records = Some late /\ leak_audit records = Some audit
  /\ cleanup_status (record cleaned) = Amendments.terminal Amendments.succeeded /\ leak_audit_status (record audit) = Amendments.clean
  /\ comparable (comparison_input records context late)
  /\ (forall e, e ∈ runner_events records -> stoppingReason (fact e) = None /\ summary_failed (fact e) = false)
  /\ (forall e, e ∈ lease_events records -> LEASE_EVENT_REASONS (fact e) = None)
  /\ length (oracleResultsOf records) = 4%nat /\ finalLeaseStatus (lease_events records) = LeaseHealth.released.
Proof.
  intros Hf Hfin Hs Hr [(s' & Hs' & Helig & Hclean & Haudit & Hlease & Hreason & _) _]%study_complete_holds.
  assert (s' = s) as -> by congruence. rewrite Hr in *.
  destruct (finalized_parts _ _ _ _ Hfin) as (cleaned & late & c & Hc & Hl & Ha & _ & Ht & He & Hle & Hcl & Hau).
  rewrite Ht in Hreason. rewrite He in Helig. rewrite Hle in Hlease. apply completed_iff in Hreason as (Hstop & Hfrozen & Hcs & Has & Hsum).
  cbn [terminal_input events all_trials_frozen ti_cleanup_status ti_leak_audit_status] in *.
  destruct (leak_audit records) as [audit|]; [|discriminate Has]. exists cleaned, late, audit.
  destruct (ComparisonCorrect.assess_exact _ (formed_run_comparison records context late Hf)) as (c' & Hc' & Hel & _). assert (c' = c) as -> by congruence.
  split_and!; [done|done|done|by injection Hcs|by injection Has| | | |by apply Nat.eqb_eq|done].
  - apply Hel. revert Helig. unfold eligibilityOutcome. by destruct (comparison_eligibility (ca_eligibility (assessment c))).
  - intros e He'. split; [apply Hstop|apply Hsum]; apply elem_of_app; by left.
  - intros e He'. apply (Hstop (MkTimed (occurred_at e) (lease_event_recorded (fact e)))), elem_of_app. right.
    apply list_elem_of_fmap. by exists e.
Qed.

(** A run of four comparable trials, its lease released. *)
Definition demo_ref (n : string) : ArtifactRef := MkArtifactRef n "d".
Definition demo_of (slot : Z * TrialMessage.VariantId * ControlItems.Scenario) : DeclaredTrial :=
  let '(n, v, s) := slot in MkDeclared n (string_of_Z n) v s.
Definition demo_four {T} (f : Z * TrialMessage.VariantId * ControlItems.Scenario -> T) : Four T :=
  MkFour (f (1, TrialMessage.v_conventional, ControlItems.CONTROL)) (f (2, TrialMessage.v_durable, ControlItems.CONTROL))
    (f (3, TrialMessage.v_conventional, ControlItems.COMMIT_THEN_TIMEOUT)) (f (4, TrialMessage.v_durable, ControlItems.COMMIT_THEN_TIMEOUT)).
Definition demo_timing : DeclaredTiming :=
  let n := JSInt in MkTiming (n 3000) (n 5000) (n 60000) (n 60000) (n 36000) (n 720000) (n 1000) (n 3) (n 60000) (n 3) (n 60000) (n 1000) (n 500) "NONE".
Definition demo_selected : SelectedQualification := MkQualification "probe" "p" None.
Definition demo_manifest : ExecutionManifest :=
  MkManifest "run" (demo_four demo_of) demo_timing (JSInt 2) "template.json" (MkSource "c" "t" "d") (Some demo_selected) "scope" [ComparisonCorrect.demo_difference].
Definition demo_deployment : DeploymentProjection := MkDeployment (fun _ => MkVariantDeployment [] [] [("memory_mb", JNum (JSInt 512))] [] []) [].
Definition demo_trial_records (slot : Z * TrialMessage.VariantId * ControlItems.Scenario) : RunTrialRecords :=
  let s := slot.2 in
  MkTrialRecords (demo_of slot) (Some (MkFrozen JNull (demo_ref "trial"))) (Some (MkFrozen (MkConfiguration s (JSInt 9000) (JSInt 50)) (demo_ref "configuration")))
    (Some (demo_ref "payment")) (Some (demo_ref "decision")) (Some (MkFrozen (ComparisonCorrect.demo_oracle slot.1.1 s) (demo_ref "oracle"))).
Definition demo_audit : FrozenRecord LeakAuditResult := MkFrozen (MkAudit Amendments.clean []) (demo_ref "audit").
Definition demo_records : RunPackageRecords :=
  MkRecords "run" (MkFrozen demo_manifest (demo_ref "manifest")) (demo_four demo_trial_records)
    (Some (MkFrozen (MkResources (Some "7")) (demo_ref "resources"))) (Some (MkFrozen (MkProvenance "c" "t") (demo_ref "source")))
    (Some (MkFrozen (MkLate late_consistent) (demo_ref "late"))) (Some (MkFrozen (MkCleanup (Amendments.terminal Amendments.succeeded)) (demo_ref "cleanup")))
    (Some demo_audit) None None None [MkTimed "2026-01-01T00:00:01.000Z" (phase_transition_recorded TRIALS step_succeeded)]
    [MkTimed "2026-01-01T00:00:00.000Z" LeaseHealth.EvACQUIRED; MkTimed "2026-01-01T00:00:02.000Z" LeaseHealth.EvRELEASED] [].
Definition demo_context : RunFinalizationContext := MkContext (Some demo_deployment) [] "2026-01-01T00:00:03.000Z".
Definition demo_input (files : FinalizedRunFiles) : StudyCompletionInput :=
  MkCompletionInput "run" "index" (Amendments.MkVerification (id_run "run") Amendments.eligible [] "index" None [] [] "t") (Some (execution_manifest demo_records))
    (Some (MkFrozen (fz_record (fr_run_summary files)) (demo_ref "summary"))) (Some (MkFrozen (fz_record (fr_comparison_assessment files)) (demo_ref "comparison")))
    (Some demo_audit) (rp_source_provenance demo_records) [billed_within_limit] (Some (MkSelected demo_selected "scope")) "t".

Definition demo_digest (bytes : list Z) : string := string_of_Z (Z.of_nat (length bytes)).

Lemma demo_run_formed : formed_run demo_records demo_context.
Proof.
  split; [intros d v ->%list_elem_of_singleton; exact I|]. intros t Ht.
  assert (Hs : formed_sources (sheet_sources demo_records demo_context t)).
  2: exact Hs.
  unfold formed_sources, formed_timing, sheet_sources. cbn [ts_execution_manifest ts_provider_configuration deployment].
  split; [repeat (apply Forall_cons; split; [exact I|]); apply Forall_nil, I|]. split; [exact I|]. split.
  - intros c Hc. cbn in Ht. repeat (apply elem_of_cons in Ht as [->|Ht]; [injection Hc as <-; split; exact I|]). by apply not_elem_of_nil in Ht.
  - intros d v [= <-]. cbn. split_and!; repeat first [apply formed_members_nil|apply formed_members_cons; [exact I|]].
Qed.

Lemma complete_study_is_sound_run_witness :
  exists files, finalizeRunAssessments demo_records demo_context demo_digest = Ok (Ok files) /\ study_complete (assessStudyCompletion (demo_input files)) = true
  /\ exists late, late_evidence demo_records = Some late /\ comparable (comparison_input demo_records demo_context late).
Proof.
  assert (H : match finalizeRunAssessments demo_records demo_context demo_digest with Ok (Ok files) => study_complete (assessStudyCompletion (demo_input files)) | _ => false end = true) by (vm_compute; reflexivity).
  destruct (finalizeRunAssessments demo_records demo_context demo_digest) as [[files|]|] eqn:E; [|discriminate H..]. exists files. split; [reflexivity|]. split; [exact H|].
  destruct (complete_study_is_sound_run demo_records demo_context demo_digest files (demo_input files)
    (MkFrozen (fz_record (fr_run_summary files)) (demo_ref "summary")) demo_run_formed E eq_refl eq_refl H)
    as (cleaned & late & audit & _ & Hl & _ & _ & _ & Hc & _).
  exists late. split; [exact Hl|exact Hc].
Defined.
End StudyCompletionCorrect.
