(* ===== verification/Billing.v ===== *)
(** * The billing import (src/study-1/src/billing-amendment/)

    The billed cost of an execution from one billing export: the attribution context (attribution-context.ts), the lines and the
    billing period of the export (cur-export.ts), the exact correlation of each line (line-attribution.ts), the reasons of an
    unverified check (unverified-reasons.ts), the check (billed-cost-check.ts) and the record (billing-import.ts). Decompression is
    zlib's and an argument; an instant is its epoch millisecond, and the text of one is [toISOString]. *)

From S2P Require Import Prelude Timestamps Decimals Store JsonText Parsing Journal Acceptance Money CurCsv Safety Controller Evidence Oracle.
Import Json Utc Identifiers Decimals JsonText Journal.
Import Acceptance(NONEMPTY_TRIMMED_PATTERN).
Import Money(isMoneyDecimal, parseCurCost, sumMoney, compareMoney).
Import CurCsv(CurTable, columns, rows, parseCurText, malformed).
Import Safety(UsageInterval, MkInterval, start, end_, parseCurTimestamp, parseCurInterval, attributionWindow, isContained, isDisjoint).
Import Evidence(map_get).
Import Oracle(map_set).
Open Scope Z_scope.

Module Billing.

Definition BR : string := "BR-RUA-047".

(** [cell.trim() === ''] *)
Definition isBlank (cell : string) : bool :=
  let bytes := map Ascii.nat_of_ascii (chars cell) in Controller.all_whitespace (length bytes) bytes.

(** ** Reasons (unverified-reasons.ts) *)

Inductive BillingUnverifiedCode := INCOMPLETE_ATTRIBUTION | NON_USD_LINE | MIXED_CURRENCY | INCOMPLETE_PERIOD | SHARED_OR_UNOWNED_CHARGE.
#[export] Instance BillingUnverifiedCode_eq_dec : EqDecision BillingUnverifiedCode.
Proof. solve_decision. Defined.
Definition BILLING_UNVERIFIED_CODES : list BillingUnverifiedCode :=
  [INCOMPLETE_ATTRIBUTION; NON_USD_LINE; MIXED_CURRENCY; INCOMPLETE_PERIOD; SHARED_OR_UNOWNED_CHARGE].

Record BillingUnverifiedReason := MkUnverifiedReason { bu_code : BillingUnverifiedCode; bu_subject : string; bu_detail : string }.

Record UnattributableLine := MkUnattributable { ul_line_id : string; ul_code : BillingUnverifiedCode; cause : string }.

Definition REASON_SAMPLE_LIMIT : nat := 5.

Definition EXPECTATIONS (c : BillingUnverifiedCode) : string :=
  match c with
  | INCOMPLETE_ATTRIBUTION =>
      "expected exact account, resource-manifest identity, suc:run_id tag, run-owned operation, contained interval, currency and cost"
  | NON_USD_LINE => "expected every attributable line in USD; no exchange-rate conversion is made"
  | MIXED_CURRENCY => "expected one currency across attributable lines; no conversion is made"
  | INCOMPLETE_PERIOD => "expected a final billing period that contains the attribution window"
  | SHARED_OR_UNOWNED_CHARGE => "expected only run-owned usage; no proportional allocation is made"
  end.

Definition unverifiedReason (c : BillingUnverifiedCode) (problem : string) : BillingUnverifiedReason :=
  MkUnverifiedReason c BR (problem +:+ "; " +:+ EXPECTATIONS c).

Definition quoteCell (cell : string) : string := boundedJsonText (JStr cell) QUOTED_JSON_LIMIT.

Definition sampledList {T} (items : list T) (describe : T -> string) : string :=
  let listed := str_join ", " (map describe (take REASON_SAMPLE_LIMIT items)) in
  let unlisted := Z.of_nat (length items) - Z.of_nat REASON_SAMPLE_LIMIT in
  if unlisted >? 0 then listed +:+ ", and " +:+ string_of_Z unlisted +:+ " more" else listed.

Definition aggregatedReason (c : BillingUnverifiedCode) (lines : list UnattributableLine) : BillingUnverifiedReason :=
  let samples := sampledList lines (fun l => ul_line_id l +:+ " (" +:+ cause l +:+ ")") in
  unverifiedReason c (string_of_Z (Z.of_nat (length lines)) +:+ " line(s): " +:+ samples).

Definition unverifiedReasons (lines : list UnattributableLine) : list BillingUnverifiedReason :=
  flat_map (fun c =>
      let matching := List.filter (fun l => bool_decide (ul_code l = c)) lines in
      match matching with [] => [] | _ => [aggregatedReason c matching] end) BILLING_UNVERIFIED_CODES.

(** [BILLING_UNVERIFIED_CODES.indexOf] *)
Definition code_index (c : BillingUnverifiedCode) : nat :=
  match c with INCOMPLETE_ATTRIBUTION => 0 | NON_USD_LINE => 1 | MIXED_CURRENCY => 2 | INCOMPLETE_PERIOD => 3 | SHARED_OR_UNOWNED_CHARGE => 4 end.

Definition sortUnverifiedReasons (rs : list BillingUnverifiedReason) : list BillingUnverifiedReason :=
  isort (fun a b => (code_index (bu_code a) <=? code_index (bu_code b))%nat) rs.

(** ** The attribution context (attribution-context.ts) *)

Record ChargeAllowlistEntry := MkAllow { ca_product_code : string; operations : list string }.

Record AttributionContextInput := MkContextInput {
  ci_identity : ExecutionIdentity;
  ci_account_id : string;
  ci_resource_identities : list string;
  ci_charge_allowlist : list ChargeAllowlistEntry;
  first_mutation_at : string;
  cleanup_terminal_at : string;
}.

Record AttributionContext := MkAttribution {
  account_id : string;
  ownership_tag_value : string;
  resource_identities : list string;
  charge_allowlist : list (string * list string);
  window : UsageInterval;
}.

Definition matches_ACCOUNT_ID_PATTERN (s : string) : bool := Nat.eqb (String.length s) 12 && forallb is_digit (chars s).

(** [Date.parse('9999-12-31T23:00:00.000Z')] *)
Definition LATEST_CLEANUP_TERMINAL_AT : Z := 253402297200000.

Definition quote (s : string) : string := boundedJsonText (JStr s) QUOTED_JSON_LIMIT.

Definition nonEmptyProblems (field : string) (values : list string) : list string :=
  map (fun v => field +:+ " entry " +:+ quote v +:+ " is empty or has edge whitespace") (List.filter (fun v => negb (NONEMPTY_TRIMMED_PATTERN v)) values).

Definition allowlistProblems (entry : ChargeAllowlistEntry) : list string :=
  (if NONEMPTY_TRIMMED_PATTERN (ca_product_code entry) then []
   else ["charge_allowlist product_code " +:+ quote (ca_product_code entry) +:+ " is empty or has edge whitespace"])
  ++ (match operations entry with [] => ["charge_allowlist entry " +:+ quote (ca_product_code entry) +:+ " lists no operation"] | _ => [] end)
  ++ nonEmptyProblems "charge_allowlist operations" (operations entry).

(** The instant of a text that [isUtcMillis] accepts. *)
Definition instant_of (t : string) : option Z := if isUtcMillis t then Date_parse t else None.

Definition intervalProblems (firstMutationAt cleanupTerminalAt : string) : list string :=
  match instant_of firstMutationAt, instant_of cleanupTerminalAt with
  | Some f, Some t =>
      if (t <? f) || (t >? LATEST_CLEANUP_TERMINAL_AT)
      then ["cleanup_terminal_at " +:+ cleanupTerminalAt +:+ " precedes first_mutation_at " +:+ firstMutationAt +:+ " or is past 9999-12-31T23:00:00.000Z"]
      else []
  | _, _ =>
      ["first_mutation_at " +:+ quote firstMutationAt +:+ " or cleanup_terminal_at " +:+ quote cleanupTerminalAt +:+ " is not a UTC millis timestamp"]
  end.

(** [map.get(product) ?? new Set()], with the operations added. *)
Definition allowlistMap (entries : list ChargeAllowlistEntry) : list (string * list string) :=
  fold_left (fun m e => map_set (ca_product_code e) (unique (default [] (map_get (ca_product_code e) m) ++ operations e)) m) entries [].

Definition listedProblems (problems : list string) : list string :=
  let unlisted := Z.of_nat (length problems) - Z.of_nat REASON_SAMPLE_LIMIT in
  let listed := take REASON_SAMPLE_LIMIT problems in
  if unlisted >? 0 then listed ++ [string_of_Z unlisted +:+ " more problem(s) not listed"] else listed.

Definition contextReason (problem : string) : StructuredReason :=
  reason "INVALID_ATTRIBUTION_CONTEXT" BR
    (problem +:+ "; expected a 12-digit account, a UUIDv4 execution id, non-empty trimmed identities and operations, and first_mutation_at <= cleanup_terminal_at as YYYY-MM-DDTHH:mm:ss.SSSZ").

Definition context_problems (input : AttributionContextInput) : list string :=
  let tagValue := executionIdOf (ci_identity input) in
  (if matches_ACCOUNT_ID_PATTERN (ci_account_id input) then [] else ["account_id " +:+ quote (ci_account_id input) +:+ " is not a 12-digit account id"])
  ++ (if isUuid4 tagValue then [] else ["execution id " +:+ quote tagValue +:+ " is not a lowercase UUIDv4"])
  ++ nonEmptyProblems "resource_identities" (ci_resource_identities input)
  ++ flat_map allowlistProblems (ci_charge_allowlist input)
  ++ intervalProblems (first_mutation_at input) (cleanup_terminal_at input).

Definition parseAttributionContext (input : AttributionContextInput) : Result (Result AttributionContext (list StructuredReason)) js_error :=
  match context_problems input with
  | [] =>
      let! w := attributionWindow (default 0 (Date_parse (first_mutation_at input))) (default 0 (Date_parse (cleanup_terminal_at input))) in
      Ok (Ok (MkAttribution (ci_account_id input) (executionIdOf (ci_identity input)) (unique (ci_resource_identities input))
        (allowlistMap (ci_charge_allowlist input)) w))
  | problems => Ok (Err (map contextReason (listedProblems problems)))
  end.

(** ** The export's columns (cur-export.ts) *)

Definition CUR_LINE_COLUMNS : list (string * string) :=
  [("usage_account_id", "line_item_usage_account_id"); ("line_item_type", "line_item_line_item_type"); ("resource_id", "line_item_resource_id");
   ("product_code", "line_item_product_code"); ("operation", "line_item_operation"); ("usage_start", "line_item_usage_start_date");
   ("usage_end", "line_item_usage_end_date"); ("currency", "line_item_currency_code"); ("cost", "line_item_unblended_cost");
   ("run_tag", "resource_tag_suc_run_id")].

Definition PERIOD_START : string := "bill_billing_period_start_date".
Definition PERIOD_END : string := "bill_billing_period_end_date".
Definition PERIOD_INVOICE : string := "bill_invoice_id".

Record CurLine := MkCurLine {
  line_id : string;
  usage_account_id : string;
  line_item_type : string;
  resource_id : string;
  product_code : string;
  operation : string;
  usage_start : string;
  usage_end : string;
  currency : string;
  cost : string;
  run_tag : string;
}.

Record ExportBillingPeriod := MkPeriod { period_start : Z; period_end : Z; period_final : bool }.

Definition columnIndexes (cs : list string) : list (string * nat) := fold_left (fun m p => map_set p.2 p.1 m) (imap (fun i c => (i, c)) cs) [].

Definition cellAt (row : list string) (index : nat) : string := str_concat (take 1 (drop index row)).

(** [Object.fromEntries(cells)]: the cell of one field. *)
Definition cell_of (row : list string) (positions : list (string * nat)) (field : string) : string :=
  match map_get field positions with Some at_ => cellAt row at_ | None => "" end.

Definition lineOf (row : list string) (index : nat) (positions : list (string * nat)) : CurLine :=
  let cell := cell_of row positions in
  MkCurLine ("row:" +:+ string_of_Z (Z.of_nat index + 1)) (cell "usage_account_id") (cell "line_item_type") (cell "resource_id") (cell "product_code")
    (cell "operation") (cell "usage_start") (cell "usage_end") (cell "currency") (cell "cost") (cell "run_tag").

Definition line_positions (indexes : list (string * nat)) : list (string * nat) :=
  omap (fun '(field, column) => option_map (fun at_ => (field, at_)) (map_get column indexes)) CUR_LINE_COLUMNS.

Definition readCurLines (table : CurTable) : Result (list CurLine) BillingUnverifiedReason :=
  let indexes := columnIndexes (columns table) in
  let positions := line_positions indexes in
  if (length positions <? length CUR_LINE_COLUMNS)%nat then
    let missing := List.filter (fun column => negb (bool_decide (is_Some (map_get column indexes)))) (map snd CUR_LINE_COLUMNS) in
    Err (MkUnverifiedReason INCOMPLETE_ATTRIBUTION BR
      ("the export lacks column(s) " +:+ str_join ", " missing +:+ "; expected every line column of " +:+ str_join ", " (map snd CUR_LINE_COLUMNS)))
  else Ok (imap (fun i row => lineOf row i positions) (rows table)).

Definition periodReason (problem : string) : StructuredReason :=
  reason "CUR_EXPORT_PERIOD_UNREADABLE" BR
    (problem +:+ "; expected every record to name one billing period as " +:+ PERIOD_START +:+ " < " +:+ PERIOD_END +:+ " (YYYY-MM-DDTHH:mm:ssZ)").

Definition isFinal (table : CurTable) (invoiceIndex : option nat) : bool :=
  match invoiceIndex with None => false | Some i => forallb (fun row => negb (isBlank (cellAt row i))) (rows table) end.

Definition periodOf (startText endText : string) (final : bool) : Result ExportBillingPeriod StructuredReason :=
  match parseCurInterval startText endText with
  | Some i => Ok (MkPeriod (start i) (end_ i) final)
  | None => Err (periodReason ("the period " +:+ quote startText +:+ " to " +:+ quote endText +:+ " is unreadable"))
  end.

Definition readExportPeriod (table : CurTable) : Result ExportBillingPeriod StructuredReason :=
  let indexes := columnIndexes (columns table) in
  match map_get PERIOD_START indexes, map_get PERIOD_END indexes with
  | Some startIndex, Some endIndex =>
      let starts := unique (map (fun row => cellAt row startIndex) (rows table)) in
      let ends := unique (map (fun row => cellAt row endIndex) (rows table)) in
      if negb (Nat.eqb (length starts) 1) || negb (Nat.eqb (length ends) 1) then
        Err (periodReason ("the export names " +:+ string_of_Z (Z.of_nat (length starts)) +:+ " period start(s) and " +:+ string_of_Z (Z.of_nat (length ends))
          +:+ " end(s)"))
      else periodOf (str_concat starts) (str_concat ends) (isFinal table (map_get PERIOD_INVOICE indexes))
  | _, _ => Err (periodReason ("the export lacks " +:+ PERIOD_START +:+ " or " +:+ PERIOD_END))
  end.

(** ** The correlation of a line (line-attribution.ts) *)

Inductive BillingExclusionCode := TAX | CREDIT | REFUND | DISCOUNT | FEE | SAVINGS_PLAN | OTHER_ACCOUNT | NOT_RUN_OWNED | OUTSIDE_USAGE_WINDOW.

Record AttributedBillingLine := MkAttributedLine {
  al_line_id : string;
  al_product_code : string;
  al_operation : string;
  al_resource_id : string;
  al_usage_start : Z;
  al_usage_end : Z;
  al_currency : string;
  al_cost : string;
}.

Record ExcludedBillingLine := MkExcludedLine { el_line_id : string; exclusion : BillingExclusionCode; el_detail : string }.

Inductive LineDisposition :=
| attributed (l : AttributedBillingLine)
| excluded_line (l : ExcludedBillingLine)
| unattributable_line (l : UnattributableLine).

Record AttributionResult := MkResult {
  ar_window : UsageInterval;
  lines_used : list AttributedBillingLine;
  exclusions : list ExcludedBillingLine;
  ar_reasons : list BillingUnverifiedReason;
}.

Definition EXCLUDED_LINE_TYPES : list (string * BillingExclusionCode) :=
  [("Tax", TAX); ("Credit", CREDIT); ("Refund", REFUND); ("Discount", DISCOUNT); ("BundledDiscount", DISCOUNT); ("Fee", FEE); ("RIFee", FEE);
   ("SavingsPlanUpfrontFee", SAVINGS_PLAN); ("SavingsPlanRecurringFee", SAVINGS_PLAN); ("SavingsPlanNegation", SAVINGS_PLAN)].

Definition COMMITMENT_COVERED_LINE_TYPES : list string := ["SavingsPlanCoveredUsage"; "DiscountedUsage"].

Definition is_upper (c : Ascii.ascii) : bool := let n := Ascii.nat_of_ascii c in (65 <=? n)%nat && (n <=? 90)%nat.
Definition matches_CURRENCY_PATTERN (s : string) : bool := Nat.eqb (String.length s) 3 && forallb is_upper (chars s).

Definition excluded (line : CurLine) (x : BillingExclusionCode) (d : string) : LineDisposition := excluded_line (MkExcludedLine (line_id line) x d).
Definition unattributable (line : CurLine) (c : BillingUnverifiedCode) (why : string) : LineDisposition :=
  unattributable_line (MkUnattributable (line_id line) c why).

Definition isAllowlisted (line : CurLine) (ctx : AttributionContext) : bool :=
  match map_get (product_code line) (charge_allowlist ctx) with Some ops => memb (operation line) ops | None => false end.

Definition mayBeRunUsage (line : CurLine) (ctx : AttributionContext) : bool :=
  if bool_decide (run_tag line = ownership_tag_value ctx) || memb (resource_id line) (resource_identities ctx) then true
  else isBlank (resource_id line) && isAllowlisted line ctx.

Definition attributedLine (line : CurLine) (i : UsageInterval) (c : string) : AttributedBillingLine :=
  MkAttributedLine (line_id line) (product_code line) (operation line) (resource_id line) (start i) (end_ i) (currency line) c.

Definition attributedUsage (line : CurLine) (ctx : AttributionContext) (interval : option UsageInterval) : LineDisposition :=
  match interval with
  | None => unattributable line INCOMPLETE_ATTRIBUTION "unreadable usage interval"
  | Some i =>
      if negb (isContained i (window ctx)) then unattributable line INCOMPLETE_ATTRIBUTION "usage interval straddles the window"
      else
        let unreadable := unattributable line INCOMPLETE_ATTRIBUTION ("unreadable cost " +:+ quoteCell (cost line) +:+ " " +:+ quoteCell (currency line)) in
        match parseCurCost (cost line) with
        | None => unreadable
        | Some c => if negb (matches_CURRENCY_PATTERN (currency line)) then unreadable else attributed (attributedLine line i c)
        end
  end.

Definition classifyUsage (line : CurLine) (ctx : AttributionContext) (interval : option UsageInterval) : LineDisposition :=
  let tagged := bool_decide (run_tag line = ownership_tag_value ctx) in
  if isBlank (resource_id line) then
    if mayBeRunUsage line ctx then unattributable line INCOMPLETE_ATTRIBUTION "blank resource id"
    else excluded line NOT_RUN_OWNED "blank resource id, no run tag and no run-owned operation"
  else
    let owned := memb (resource_id line) (resource_identities ctx) in
    if negb owned && negb tagged then excluded line NOT_RUN_OWNED ("resource " +:+ quoteCell (resource_id line) +:+ " carries no run identity")
    else if negb owned || negb tagged then
      unattributable line INCOMPLETE_ATTRIBUTION (if owned then "no matching suc:run_id tag" else "resource not in the resource manifest")
    else if negb (isAllowlisted line ctx) then
      unattributable line SHARED_OR_UNOWNED_CHARGE (quoteCell (product_code line) +:+ "/" +:+ quoteCell (operation line) +:+ " is not a run-owned operation")
    else attributedUsage line ctx interval.

Definition classifyMissingAccount (line : CurLine) (ctx : AttributionContext) : LineDisposition :=
  if mayBeRunUsage line ctx then unattributable line INCOMPLETE_ATTRIBUTION "blank usage account"
  else excluded line NOT_RUN_OWNED "blank usage account and no run identity".

Definition classifyByLineType (line : CurLine) (ctx : AttributionContext) (interval : option UsageInterval) : LineDisposition :=
  let type := line_item_type line in
  if bool_decide (type = "Usage") then classifyUsage line ctx interval
  else if negb (memb type COMMITMENT_COVERED_LINE_TYPES) then
    unattributable line SHARED_OR_UNOWNED_CHARGE ("line type " +:+ quoteCell type +:+ " cannot be assigned")
  else if mayBeRunUsage line ctx then
    unattributable line SHARED_OR_UNOWNED_CHARGE ("line type " +:+ quoteCell type +:+ " is usage covered by a shared commitment")
  else excluded line NOT_RUN_OWNED (quoteCell type +:+ " line carries no run identity").

Definition classifyLine (line : CurLine) (ctx : AttributionContext) : LineDisposition :=
  match map_get (line_item_type line) EXCLUDED_LINE_TYPES with
  | Some x => excluded line x ("line type " +:+ quoteCell (line_item_type line) +:+ " is not attributable usage")
  | None =>
      let accountBlank := isBlank (usage_account_id line) in
      if negb accountBlank && negb (bool_decide (usage_account_id line = account_id ctx)) then
        excluded line OTHER_ACCOUNT ("usage account " +:+ quoteCell (usage_account_id line) +:+ " is not " +:+ account_id ctx)
      else
        let interval := parseCurInterval (usage_start line) (usage_end line) in
        let inside := if accountBlank then classifyMissingAccount line ctx else classifyByLineType line ctx interval in
        match interval with
        | Some i =>
            if isDisjoint i (window ctx)
            then excluded line OUTSIDE_USAGE_WINDOW ("usage " +:+ toISOString (start i) +:+ " to " +:+ toISOString (end_ i) +:+ " is outside the window")
            else inside
        | None => inside
        end
  end.

Definition correlateBillingLines (lines : list CurLine) (ctx : AttributionContext) : AttributionResult :=
  let dispositions := map (fun line => classifyLine line ctx) lines in
  MkResult (window ctx)
    (flat_map (fun d => match d with attributed l => [l] | _ => [] end) dispositions)
    (flat_map (fun d => match d with excluded_line l => [l] | _ => [] end) dispositions)
    (unverifiedReasons (flat_map (fun d => match d with unattributable_line l => [l] | _ => [] end) dispositions)).

(** ** The billed-cost check (billed-cost-check.ts) *)

Inductive BilledCostOutcome :=
| conclusive (breached : bool) (attributed_total_usd : string)
| unverified (reasons : list BillingUnverifiedReason).

Definition periodReasons (period : ExportBillingPeriod) (w : UsageInterval) : list BillingUnverifiedReason :=
  let range := toISOString (period_start period) +:+ " to " +:+ toISOString (period_end period) in
  let problems :=
    (if period_final period then [] else ["billing period " +:+ range +:+ " is not final (blank bill_invoice_id)"])
    ++ (if isContained w (MkInterval (period_start period) (period_end period)) then []
        else ["attribution window " +:+ toISOString (start w) +:+ " to " +:+ toISOString (end_ w) +:+ " is not inside billing period " +:+ range]) in
  match problems with [] => [] | _ => [unverifiedReason INCOMPLETE_PERIOD (str_join "; " problems)] end.

Definition currencyReasons (a : AttributionResult) : list BillingUnverifiedReason :=
  let nonUsd := map (fun l => MkUnattributable (al_line_id l) NON_USD_LINE ("currency " +:+ quoteCell (al_currency l)))
    (List.filter (fun l => negb (bool_decide (al_currency l = "USD"))) (lines_used a)) in
  let currencies := isort String.leb (unique (map al_currency (lines_used a))) in
  let mixed := if (1 <? length currencies)%nat then [unverifiedReason MIXED_CURRENCY ("attributable lines use " +:+ sampledList currencies id)] else [] in
  unverifiedReasons nonUsd ++ mixed.

Definition deriveBilledCostCheck (a : AttributionResult) (ceiling : string) : Result BilledCostOutcome js_error :=
  match sortUnverifiedReasons (ar_reasons a ++ currencyReasons a) with
  | [] =>
      let! total := sumMoney (map al_cost (lines_used a)) in
      let! order := compareMoney total ceiling in
      Ok (conclusive (negb (order <=? 0)) total)
  | rs => Ok (unverified rs)
  end.

(** ** The record (billing-import.ts) *)

Record BillingImportInput := MkImportInput {
  context : AttributionContextInput;
  bi_execution_manifest_sha256 : string;
  bi_original_package_index_sha256 : string;
  export_bytes : list Z;
  ceiling_usd : string;
  imported_at : string;
}.

Record BillingImport := MkImport {
  bi_identity : ExecutionIdentity;
  bm_execution_manifest_sha256 : string;
  bm_original_package_index_sha256 : string;
  export_sha256 : string;
  export_period : ExportBillingPeriod;
  attribution_window : UsageInterval;
  bm_lines_used : list AttributedBillingLine;
  bm_exclusions : list ExcludedBillingLine;
  bm_ceiling_usd : string;
  outcome : BilledCostOutcome;
  bm_imported_at : string;
}.

Definition inputReason (problem : string) : StructuredReason :=
  reason "INVALID_BILLING_IMPORT_INPUT" BR
    (problem +:+ "; expected lowercase sha256 digests, a money decimal ceiling (^(0|[1-9][0-9]*)(\.[0-9]+)?$) and imported_at as YYYY-MM-DDTHH:mm:ss.SSSZ").

Definition checked (value : string) (guard : string -> bool) (field shape : string) : Result string StructuredReason :=
  if guard value then Ok value else Err (inputReason (field +:+ " " +:+ quote value +:+ " is not " +:+ shape)).

Definition error_of {A} (r : Result A StructuredReason) : list StructuredReason := match r with Ok _ => [] | Err e => [e] end.

(** The reasons the four scalars are unusable; they are used as they are when there is none. *)
Definition checkScalars (input : BillingImportInput) : Result unit (list StructuredReason) :=
  let manifest := checked (bi_execution_manifest_sha256 input) isSha256Hex "execution_manifest_sha256" "a sha256" in
  let index := checked (bi_original_package_index_sha256 input) isSha256Hex "original_package_index_sha256" "a sha256" in
  let ceiling := checked (ceiling_usd input) isMoneyDecimal "ceiling_usd" "a money decimal" in
  let importedAt := checked (imported_at input) isUtcMillis "imported_at" "UTC millis" in
  match flat_map error_of [manifest; index; ceiling; importedAt] with [] => Ok tt | rs => Err rs end.

Section import.
(** [gunzipSync] with its limit, failing with the text of its error, and SHA-256. *)
Context (gunzip : list Z -> Result (list Z) string) (sha256Hex : list Z -> string).

Definition CUR_EXPORT_MAX_BYTES : Z := 64 * 1024 * 1024.

Definition decompressCurExport (bytes : list Z) : Result (list Z) StructuredReason :=
  match bytes with
  | a :: b :: _ =>
      if bool_decide (a = 0x1f) && bool_decide (b = 0x8b) then
        match gunzip bytes with
        | Ok plain => Ok plain
        | Err why =>
            Err (malformed ("gzip data cannot be decompressed (" +:+ boundedText why QUOTED_JSON_LIMIT +:+ "); expected a complete gzip stream of at most "
              +:+ string_of_Z CUR_EXPORT_MAX_BYTES +:+ " bytes"))
        end
      else Ok bytes
  | _ => Ok bytes
  end.

Definition parseCurCsv (bytes : list Z) : option (Result CurTable StructuredReason) :=
  match decompressCurExport bytes with
  | Err e => Some (Err e)
  | Ok plain =>
      match Parsing.decodeUtf8Strict plain with
      | Err (Parsing.invalid_utf8 at_) => Some (Err (malformed ("invalid UTF-8 at byte " +:+ string_of_Z at_ +:+ "; expected UTF-8 CSV text")))
      | Err (Parsing.invalid_json d) => Some (Err (malformed d))
      | Ok t => parseCurText (chars t)
      end
  end.

(** An export without the line columns attributes nothing. *)
Definition attributeExport (table : CurTable) (period : ExportBillingPeriod) (ctx : AttributionContext) : AttributionResult :=
  let attribution :=
    match readCurLines table with Ok lines => correlateBillingLines lines ctx | Err e => MkResult (window ctx) [] [] [e] end in
  MkResult (ar_window attribution) (lines_used attribution) (exclusions attribution) (ar_reasons attribution ++ periodReasons period (window ctx)).

(** [None] is a reader that has not ended. *)
Definition buildBillingImport (input : BillingImportInput) : option (Result (Result BillingImport (list StructuredReason)) js_error) :=
  match parseAttributionContext (context input) with
  | Err e => Some (Err e)
  | Ok ctx =>
      match ctx, checkScalars input with
      | Ok c, Ok _ =>
          match parseCurCsv (export_bytes input) with
          | None => None
          | Some (Err e) => Some (Ok (Err [e]))
          | Some (Ok table) =>
              match readExportPeriod table with
              | Err e => Some (Ok (Err [e]))
              | Ok period =>
                  let attribution := attributeExport table period c in
                  Some (let! check := deriveBilledCostCheck attribution (ceiling_usd input) in
                        Ok (Ok (MkImport (ci_identity (context input)) (bi_execution_manifest_sha256 input) (bi_original_package_index_sha256 input)
                          (sha256Hex (export_bytes input)) period (ar_window attribution) (lines_used attribution) (exclusions attribution)
                          (ceiling_usd input) check (imported_at input))))
              end
          end
      | _, _ => Some (Ok (Err ((match ctx with Ok _ => [] | Err rs => rs end) ++ (match checkScalars input with Ok _ => [] | Err rs => rs end))))
      end
  end.
End import.
End Billing.
