(* ===== verification/BillingCorrect.v ===== *)
(** * The billing import, proved (src/study-1/src/billing-amendment/)

    A line is attributed exactly on exact identity and excluded exactly when it cannot be the run's; the import always returns; and a
    conclusive check accounts for every line of the export with an exact total. *)

From S2P Require Import Prelude Timestamps Decimals Store JsonText Parsing Journal Money CurCsv Safety Evidence Oracle Package AmendmentsCorrect ComparisonCorrect Billing.
Import Json Utc Identifiers JsonText Journal Billing.
Import Money(isMoneyDecimal, parseCurCost, sumMoney, compareMoney, all_scaled, toScaled, rescale, widest, scale).
Import CurCsv(CurTable, columns, rows, parseCurText).
Import Safety(UsageInterval, MkInterval, start, end_, parseCurInterval, attributionWindow, isContained, isDisjoint).
Import Evidence(map_get).
Import AmendmentsCorrect(filter_nil).
Open Scope Z_scope.

Module BillingCorrect.

(** ** The place of a line *)

(** The line is usage of the run by exact identity, inside the window, with a readable amount. *)
Definition attributes (ctx : AttributionContext) (line : CurLine) (l : AttributedBillingLine) : Prop :=
  line_item_type line = "Usage" /\ isBlank (usage_account_id line) = false /\ usage_account_id line = account_id ctx
  /\ isBlank (resource_id line) = false /\ resource_id line ∈ resource_identities ctx /\ run_tag line = ownership_tag_value ctx
  /\ isAllowlisted line ctx = true
  /\ exists i c, parseCurInterval (usage_start line) (usage_end line) = Some i /\ isContained i (window ctx) = true /\ isDisjoint i (window ctx) = false
     /\ parseCurCost (cost line) = Some c /\ matches_CURRENCY_PATTERN (currency line) = true
     /\ l = MkAttributedLine (line_id line) (product_code line) (operation line) (resource_id line) (start i) (end_ i) (currency line) c.

(** Nothing about the line ties it to the run: it names no resource of the run, has no run tag and is no run-owned request. *)
Definition no_run_identity (ctx : AttributionContext) (line : CurLine) : Prop :=
  run_tag line <> ownership_tag_value ctx /\ (resource_id line ∉ resource_identities ctx)
  /\ (isBlank (resource_id line) = true -> isAllowlisted line ctx = false).

(** The line cannot be billed usage of the run. *)
Definition excludable (ctx : AttributionContext) (line : CurLine) : Prop :=
  is_Some (map_get (line_item_type line) EXCLUDED_LINE_TYPES)
  \/ (isBlank (usage_account_id line) = false /\ usage_account_id line <> account_id ctx)
  \/ (exists i, parseCurInterval (usage_start line) (usage_end line) = Some i /\ isDisjoint i (window ctx) = true)
  \/ (no_run_identity ctx line
      /\ (isBlank (usage_account_id line) = true \/ line_item_type line = "Usage" \/ line_item_type line ∈ COMMITMENT_COVERED_LINE_TYPES)).

Lemma mayBeRunUsage_false line ctx : mayBeRunUsage line ctx = false <-> no_run_identity ctx line.
Proof.
  unfold mayBeRunUsage, no_run_identity. case_bool_decide as H; cbn [orb]; [by split; [|intros []]|].
  destruct (memb _ _) eqn:E; [apply memb_true in E; by split; [|intros (_ & ? & _)]|]. apply memb_false in E.
  destruct (isBlank _); cbn [andb].
  - split; [intros Ha; split_and!; auto|intros (_ & _ & Ha); by apply Ha].
  - split; [intros _; split_and!; [done|done|by intros [=]]|done].
Qed.

Lemma usage_not_excluded t : t = "Usage" -> map_get t EXCLUDED_LINE_TYPES = None.
Proof. intros ->. reflexivity. Qed.

Lemma commitment_not_usage t : t ∈ COMMITMENT_COVERED_LINE_TYPES -> t <> "Usage" /\ map_get t EXCLUDED_LINE_TYPES = None.
Proof. intros H. repeat (apply elem_of_cons in H as [->|H]; [by split|]). by apply not_elem_of_nil in H. Qed.

Definition is_attributed (d : LineDisposition) : option AttributedBillingLine := match d with attributed l => Some l | _ => None end.
Definition is_excluded (d : LineDisposition) : bool := match d with excluded_line _ => true | _ => false end.

Lemma attributedUsage_cases line ctx interval : is_excluded (attributedUsage line ctx interval) = false
  /\ forall l, is_attributed (attributedUsage line ctx interval) = Some l <->
     exists i c, interval = Some i /\ isContained i (window ctx) = true /\ parseCurCost (cost line) = Some c /\ matches_CURRENCY_PATTERN (currency line) = true
       /\ l = attributedLine line i c.
Proof.
  unfold attributedUsage. destruct interval as [i|]; [|split; [done|intros l; split; [done|by intros (? & ? & [=] & _)]]].
  destruct (isContained i (window ctx)) eqn:Ec; cbn [negb]; [|split; [done|intros l; split; [done|intros (? & ? & [= <-] & ? & _); congruence]]].
  destruct (parseCurCost _) as [c|]; [|split; [done|intros l; split; [done|by intros (? & ? & _ & _ & [=] & _)]]].
  destruct (matches_CURRENCY_PATTERN _); cbn [negb]; (split; [done|]; intros l; split); [|intros (? & ? & [= <-] & _ & [= <-] & _ & ->); done|done|].
  - intros [= <-]. by exists i, c.
  - by intros (? & ? & _ & _ & _ & [=] & _).
Qed.

Lemma classifyUsage_cases line ctx interval :
  (is_excluded (classifyUsage line ctx interval) = true <-> no_run_identity ctx line)
  /\ forall l, is_attributed (classifyUsage line ctx interval) = Some l <->
     isBlank (resource_id line) = false /\ resource_id line ∈ resource_identities ctx /\ run_tag line = ownership_tag_value ctx
     /\ isAllowlisted line ctx = true /\ is_attributed (attributedUsage line ctx interval) = Some l.
Proof.
  unfold classifyUsage. destruct (isBlank (resource_id line)) eqn:Eb.
  { rewrite <- mayBeRunUsage_false. destruct (mayBeRunUsage line ctx); (split; [done|]; intros l; split; [done|by intros ([=] & _)]). }
  cbv zeta. rewrite <- mayBeRunUsage_false. unfold mayBeRunUsage. rewrite Eb. cbn [andb].
  destruct (memb (resource_id line) _) eqn:Em; [apply memb_true in Em|apply memb_false in Em]; case_bool_decide as Et; cbn [negb andb orb].
  - destruct (isAllowlisted line ctx); cbn [negb]; [|split; [done|]; intros l; split; [done|by intros (_ & _ & _ & [=] & _)]].
    pose proof (attributedUsage_cases line ctx interval) as [He Ha]. rewrite He. split; [done|]. intros l. tauto.
  - split; [done|]. intros l. split; [done|by intros (_ & _ & ? & _)].
  - split; [done|]. intros l. split; [done|by intros (_ & ? & _)].
  - split; [done|]. intros l. split; [done|by intros (_ & ? & _)].
Qed.

Lemma byLineType_cases line ctx interval :
  (is_excluded (classifyByLineType line ctx interval) = true <->
     no_run_identity ctx line /\ (line_item_type line = "Usage" \/ line_item_type line ∈ COMMITMENT_COVERED_LINE_TYPES))
  /\ forall l, is_attributed (classifyByLineType line ctx interval) = Some l <->
     line_item_type line = "Usage" /\ is_attributed (classifyUsage line ctx interval) = Some l.
Proof.
  unfold classifyByLineType. cbv zeta. case_bool_decide as Hu.
  { pose proof (classifyUsage_cases line ctx interval) as [-> _]. split; [tauto|]. intros l. tauto. }
  destruct (memb _ COMMITMENT_COVERED_LINE_TYPES) eqn:Ec; [apply memb_true in Ec|apply memb_false in Ec]; cbn [negb].
  - rewrite <- mayBeRunUsage_false. destruct (mayBeRunUsage line ctx); cbn; (split; [|intros l; by split; [|intros []]]); [by split; [|intros [? _]]|].
    split; [|done]. split; [done|by right].
  - split; [|intros l; by split; [|intros []]]. split; [done|]. by intros [_ [?|?]].
Qed.

Lemma classifyLine_cases line ctx :
  (is_excluded (classifyLine line ctx) = true <-> excludable ctx line)
  /\ forall l, is_attributed (classifyLine line ctx) = Some l <-> attributes ctx line l.
Proof.
  unfold classifyLine, excludable, attributes. destruct (map_get (line_item_type line) EXCLUDED_LINE_TYPES) as [x|] eqn:Ex.
  { split; [split; [by left|done]|]. intros l. split; [done|]. intros (Hu & _). by rewrite (usage_not_excluded _ Hu) in Ex. }
  assert (Hx : ~ is_Some (@None BillingExclusionCode)) by by intros [? [=]].
  cbv zeta. destruct (isBlank (usage_account_id line)) eqn:Eb; cbn [negb andb].
  - unfold classifyMissingAccount. rewrite <- mayBeRunUsage_false.
    destruct (parseCurInterval _ _) as [i|]; [destruct (isDisjoint i _) eqn:Ed|]; [| |].
    + split; [split; [|done]; intros _; right; right; left; by exists i|]. intros l. split; [done|]. by intros (_ & [=] & _).
    + destruct (mayBeRunUsage line ctx); cbn; (split; [|intros l; by split; [|intros (_ & [=] & _)]]).
      * split; [done|]. intros [?|[[[=] _]|[(? & [= <-] & ?)|[[=] _]]]]; [done|congruence].
      * split; [|done]. intros _. right; right; right. auto.
    + destruct (mayBeRunUsage line ctx); cbn; (split; [|intros l; by split; [|intros (_ & [=] & _)]]).
      * split; [done|]. by intros [?|[[[=] _]|[(? & [=] & _)|[[=] _]]]].
      * split; [|done]. intros _. right; right; right. auto.
  - case_bool_decide as Ha; cbn [negb].
    2: { split; [split; [|done]; intros _; right; left; auto|]. intros l. split; [done|]. by intros (_ & _ & ? & _). }
    destruct (parseCurInterval (usage_start line) (usage_end line)) as [i|]; [destruct (isDisjoint i _) eqn:Ed|].
    + split; [split; [|done]; intros _; right; right; left; by exists i|]. intros l. split; [done|].
      intros (_ & _ & _ & _ & _ & _ & _ & j & c & [= <-] & _ & Hd & _). congruence.
    + pose proof (byLineType_cases line ctx (Some i)) as [He Hl]. rewrite He. split.
      { split; [intros []; right; right; right; auto|]. intros [?|[[_ ?]|[(? & [= <-] & ?)|[? [[=]|?]]]]]; [done|done|congruence|done]. }
      intros l. rewrite Hl, (proj2 (classifyUsage_cases line ctx (Some i))), (proj2 (attributedUsage_cases line ctx (Some i))). unfold attributedLine. naive_solver.
    + pose proof (byLineType_cases line ctx None) as [He Hl]. rewrite He. split.
      { split; [intros []; right; right; right; auto|]. intros [?|[[_ ?]|[(? & [=] & _)|[? [[=]|?]]]]]; done. }
      intros l. rewrite Hl, (proj2 (classifyUsage_cases line ctx None)), (proj2 (attributedUsage_cases line ctx None)). naive_solver.
Qed.

(** ** The reasons *)

Lemma codes_complete c : c ∈ BILLING_UNVERIFIED_CODES.
Proof. unfold BILLING_UNVERIFIED_CODES. destruct c; set_solver. Qed.

Lemma unverifiedReasons_nil ls : unverifiedReasons ls = [] <-> ls = [].
Proof.
  unfold unverifiedReasons. rewrite Package.Package.flat_map_nil. split; [|by intros -> c _]. intros H. destruct ls as [|l ls]; [done|].
  specialize (H (ul_code l) (codes_complete _)). cbv zeta in H. cbn [List.filter] in H. by rewrite bool_decide_eq_true_2 in H.
Qed.

Lemma sortUnverifiedReasons_nil rs : sortUnverifiedReasons rs = [] <-> rs = [].
Proof.
  unfold sortUnverifiedReasons. split; [|by intros ->]. intros H. destruct rs as [|r rs]; [done|].
  assert (Hr : r ∈ isort (fun a b => (code_index (bu_code a) <=? code_index (bu_code b))%nat) (r :: rs)) by (rewrite isort_elem; by left).
  rewrite H in Hr. by apply not_elem_of_nil in Hr.
Qed.

Lemma length_isort {A} (le : A -> A -> bool) l : length (isort le l) = length l.
Proof. apply Permutation_length, isort_perm. Qed.

Lemma currencyReasons_nil a : currencyReasons a = [] <-> forall l, l ∈ lines_used a -> al_currency l = "USD".
Proof.
  unfold currencyReasons. rewrite app_nil, unverifiedReasons_nil. cbv zeta. rewrite length_isort. split.
  - intros [H _] l Hl. apply map_eq_nil in H. rewrite filter_nil in H. specialize (H l Hl). by apply negb_false_iff, bool_decide_eq_true in H.
  - intros H. split.
    + assert (E : List.filter (fun l => negb (bool_decide (al_currency l = "USD"))) (lines_used a) = []).
      { apply filter_nil. intros l Hl. by rewrite bool_decide_eq_true_2 by auto. }
      by rewrite E.
    + assert (Hl : (length (unique (map al_currency (lines_used a))) <= 1)%nat).
      { apply ComparisonCorrect.unique_at_most_one. intros x y (l & -> & Hx)%list_elem_of_fmap (m & -> & Hy)%list_elem_of_fmap. by rewrite !H. }
      destruct (1 <? length (unique (map al_currency (lines_used a))))%nat eqn:E; [apply Nat.ltb_lt in E; lia|done].
Qed.

Lemma periodReasons_nil p w : periodReasons p w = [] <-> period_final p = true /\ isContained w (MkInterval (period_start p) (period_end p)) = true.
Proof.
  unfold periodReasons. cbv zeta. destruct (period_final p), (isContained w _); cbn; by split; [|intros []].
Qed.

(** ** The sum *)

Lemma all_scaled_exists amounts : (forall a, a ∈ amounts -> isMoneyDecimal a = true) -> exists xs, all_scaled amounts = Ok xs.
Proof.
  induction amounts as [|a amounts IH]; intros H; [by eexists|]. destruct (proj1 (Money.toScaled_ok a)) as [x Hx]; [apply H; left|].
  destruct IH as [xs Hxs]; [intros b Hb; apply H; by right|]. exists (x :: xs). cbn [all_scaled]. by rewrite Hx, Hxs.
Qed.

Lemma parsed_cost_money t c : parseCurCost t = Some c -> isMoneyDecimal c = true.
Proof. intros H. pose proof (Money.parse_cur_cost_exact t) as Hp. rewrite H in Hp. by destruct Hp as (i & f & e & a & _ & _ & _ & _ & Hm & _). Qed.

(** The exact value of an amount at a scale. *)
Definition value_at (s : Z) (amount : string) : Z := match toScaled amount with Ok a => rescale a s | Err _ => 0 end.
Definition total_at (s : Z) (amounts : list string) : Z := foldr (fun a acc => value_at s a + acc) 0 amounts.

Lemma all_scaled_total amounts xs s : all_scaled amounts = Ok xs -> total_at s amounts = foldr (fun x acc => rescale x s + acc) 0 xs.
Proof.
  revert xs. induction amounts as [|a amounts IH]; intros xs H; cbn [all_scaled] in H; [by injection H as <-|].
  destruct (toScaled a) as [x|] eqn:Ex; [|done]. destruct (all_scaled amounts) as [ys|] eqn:Ey; [|done]. injection H as <-.
  cbn [total_at foldr]. unfold value_at at 1. rewrite Ex. f_equal. by apply IH.
Qed.

(** Every amount can be written at this scale. *)
Definition fine_scale (s : Z) (amounts : list string) : Prop := forall a x, a ∈ amounts -> toScaled a = Ok x -> scale x <= s.

Lemma all_scaled_widest amounts xs s : all_scaled amounts = Ok xs -> 0 <= s -> fine_scale s amounts -> widest xs <= s.
Proof.
  intros H Hs Hf. unfold widest. assert (Hx : forall x, x ∈ xs -> scale x <= s).
  { revert xs H Hf. induction amounts as [|a amounts IH]; intros xs H Hf; cbn [all_scaled] in H; [injection H as <-; by intros ? ?%not_elem_of_nil|].
    destruct (toScaled a) as [x|] eqn:Ex; [|done]. destruct (all_scaled amounts) as [ys|]; [|done]. injection H as <-.
    intros z [->|Hz]%elem_of_cons; [apply (Hf a); [left|done]|]. apply (IH ys); [done| |done]. intros b y Hb. apply Hf. by right. }
  clear H Hf. revert Hx Hs. generalize 0. induction xs as [|x xs IH]; intros w Hx Hw; [done|]. cbn [fold_left]. apply IH; [intros y Hy; apply Hx; by right|].
  apply Z.max_lub; [done|]. apply Hx. by left.
Qed.

(** What a conclusive check says of the amounts. *)
Definition total_exact (amounts : list string) (ceiling total : string) (breached : bool) : Prop :=
  isMoneyDecimal total = true
  /\ forall s, 0 <= s -> fine_scale s (ceiling :: total :: amounts) ->
     value_at s total = total_at s amounts /\ (breached = true <-> value_at s ceiling < total_at s amounts).

Lemma check_total amounts ceiling : (forall a, a ∈ amounts -> isMoneyDecimal a = true) -> isMoneyDecimal ceiling = true ->
  exists total order, sumMoney amounts = Ok total /\ compareMoney total ceiling = Ok order /\ total_exact amounts ceiling total (negb (order <=? 0)).
Proof.
  intros Ha Hc. destruct (all_scaled_exists amounts Ha) as [xs Hxs]. destruct (Money.sum_money_exact amounts xs Hxs) as (total & t & Ht & Hm & Hst & Hsum).
  destruct (proj1 (Money.toScaled_ok ceiling) Hc) as [c Hsc]. destruct (Money.compare_money_exact total ceiling t c Hst Hsc) as (order & Ho & Hord).
  exists total, order. split_and!; [done|done|]. split; [done|]. intros s Hs Hf.
  assert (Hts : scale t <= s) by (apply (Hf total); [set_solver|done]). assert (Hcs : scale c <= s) by (apply (Hf ceiling); [set_solver|done]).
  assert (Hw : widest xs <= s) by (apply (all_scaled_widest amounts); [done|done|]; intros a x Hin; apply Hf; set_solver).
  rewrite (all_scaled_total amounts xs s Hxs), <- (Hsum s Hw Hts). unfold value_at. rewrite Hst, Hsc. split; [done|]. rewrite (Hord s Hts Hcs).
  rewrite negb_true_iff, Z.leb_gt. destruct (Z.sgn_spec (rescale t s - rescale c s)) as [[? E]|[[? E]|[? E]]]; rewrite E; lia.
Qed.

(** ** The check *)

Lemma derived_check a ceiling : (forall l, l ∈ lines_used a -> isMoneyDecimal (al_cost l) = true) -> isMoneyDecimal ceiling = true ->
  match deriveBilledCostCheck a ceiling with
  | Ok (conclusive breached total) =>
      ar_reasons a = [] /\ (forall l, l ∈ lines_used a -> al_currency l = "USD") /\ total_exact (map al_cost (lines_used a)) ceiling total breached
  | Ok (unverified rs) => rs <> [] /\ (ar_reasons a <> [] \/ exists l, l ∈ lines_used a /\ al_currency l <> "USD")
  | Err _ => False
  end.
Proof.
  intros Hm Hc. unfold deriveBilledCostCheck. destruct (sortUnverifiedReasons (ar_reasons a ++ currencyReasons a)) as [|r rs] eqn:E.
  - apply sortUnverifiedReasons_nil, app_nil in E as [Er Ec]. rewrite currencyReasons_nil in Ec.
    destruct (check_total (map al_cost (lines_used a)) ceiling) as (total & order & -> & Ho & Ht); [|done|].
    { intros x (l & -> & Hl)%list_elem_of_fmap. by apply Hm. }
    cbn [bind_result]. by rewrite Ho.
  - split; [done|]. destruct (ar_reasons a) as [|q qs]; [right|by left]. cbn [app] in E.
    destruct (decide (Forall (fun l => al_currency l = "USD") (lines_used a))) as [H|H].
    + rewrite Forall_forall in H. assert (currencyReasons a = []) as Hn by (by apply currencyReasons_nil). by rewrite Hn in E.
    + apply not_Forall_Exists, Exists_exists in H as (l & Hl & Hne); [|intros l; apply _]. by exists l.
Qed.

(** ** The export *)

Definition accounted (ctx : AttributionContext) (line : CurLine) : Prop := excludable ctx line \/ exists l, attributes ctx line l.

Lemma correlated_reasons_nil lines ctx :
  ar_reasons (correlateBillingLines lines ctx) = [] <-> forall line, line ∈ lines -> accounted ctx line.
Proof.
  unfold correlateBillingLines. cbn [ar_reasons]. rewrite unverifiedReasons_nil, Package.Package.flat_map_nil. split.
  - intros H line Hl. specialize (H (classifyLine line ctx)). pose proof (classifyLine_cases line ctx) as [He Ha].
    destruct (classifyLine line ctx) as [l|x|u] eqn:Ec.
    + right. exists l. by apply Ha.
    + left. by apply He.
    + assert (Hin : unattributable_line u ∈ map (fun line => classifyLine line ctx) lines) by (apply list_elem_of_fmap; by exists line).
      by specialize (H Hin).
  - intros H d (line & -> & Hl)%list_elem_of_fmap. pose proof (classifyLine_cases line ctx) as [He Ha]. destruct (H line Hl) as [Hx|[l Hx]].
    + apply He in Hx. by destruct (classifyLine line ctx).
    + apply Ha in Hx. by destruct (classifyLine line ctx).
Qed.

Lemma correlated_lines lines ctx : lines_used (correlateBillingLines lines ctx) = omap (fun line => is_attributed (classifyLine line ctx)) lines.
Proof.
  unfold correlateBillingLines. cbn [lines_used]. induction lines as [|line lines IH]; [done|]. cbn [map flat_map omap list_omap]. rewrite IH.
  by destruct (classifyLine line ctx).
Qed.

Lemma used_lines_money lines ctx l : l ∈ lines_used (correlateBillingLines lines ctx) -> isMoneyDecimal (al_cost l) = true.
Proof.
  rewrite correlated_lines. intros (line & _ & Hl)%list_elem_of_omap. apply classifyLine_cases in Hl as (_ & _ & _ & _ & _ & _ & _ & i & c & _ & _ & _ & Hc & _ & ->).
  by apply parsed_cost_money in Hc.
Qed.

(** ** The inputs *)

Lemma instant_of_range t ms : instant_of t = Some ms -> Timestamps.Utc.in_utc_range ms /\ Date_parse t = Some ms.
Proof.
  unfold instant_of. destruct (isUtcMillis t) eqn:E; [|done]. intros H. split; [|done]. apply isUtcMillis_inv in E as (x & Hx & _ & Hd). congruence.
Qed.

Lemma window_exists f t : in_utc_range f -> f <= t -> t <= LATEST_CLEANUP_TERMINAL_AT -> exists w, attributionWindow f t = Ok w.
Proof.
  intros [H1 H2] Hft Ht. unfold attributionWindow, Safety.floor_hour, Safety.ceil_hour, Safety.HOUR_MS.
  assert (Hf : LeaseItem.LeaseItem.format_instant (f / 3600000 * 3600000) = Ok (f / 3600000 * 3600000)).
  { apply LeaseItem.LeaseItem.format_instant_ok. split; [done|]. unfold in_utc_range, MIN_UTC, MAX_UTC in *. dlia. }
  assert (He : LeaseItem.LeaseItem.format_instant (- (- t / 3600000) * 3600000) = Ok (- (- t / 3600000) * 3600000)).
  { apply LeaseItem.LeaseItem.format_instant_ok. split; [done|]. unfold in_utc_range, MIN_UTC, MAX_UTC, LATEST_CLEANUP_TERMINAL_AT in *. dlia. }
  rewrite Hf, He. by eexists.
Qed.

(** The window of a usable context covers the run from its first mutation to the end of its cleanup. *)
Definition context_sound (input : AttributionContextInput) (ctx : AttributionContext) : Prop :=
  account_id ctx = ci_account_id input /\ ownership_tag_value ctx = executionIdOf (ci_identity input)
  /\ exists f t, Date_parse (first_mutation_at input) = Some f /\ Date_parse (cleanup_terminal_at input) = Some t
     /\ start (window ctx) <= f <= t /\ t <= end_ (window ctx).

Lemma parse_context input :
  match parseAttributionContext input with
  | Ok (Ok ctx) => context_sound input ctx
  | Ok (Err rs) => rs <> []
  | Err _ => False
  end.
Proof.
  unfold parseAttributionContext. destruct (context_problems input) as [|p ps] eqn:E.
  - unfold context_problems in E. cbv zeta in E. rewrite !app_nil in E. destruct E as (_ & _ & _ & _ & E). unfold intervalProblems in E.
    destruct (instant_of (first_mutation_at input)) as [f|] eqn:Ef; [|done]. destruct (instant_of (cleanup_terminal_at input)) as [t|] eqn:Et; [|done].
    destruct ((t <? f) || (t >? LATEST_CLEANUP_TERMINAL_AT)) eqn:Eb; [done|]. apply orb_false_elim in Eb as [E1 E2]. boolp.
    apply instant_of_range in Ef as [Hrf Hf], Et as [_ Ht]. rewrite Hf, Ht. cbn [from_option id]. destruct (window_exists f t Hrf) as [w Hw]; [lia|lia|].
    rewrite Hw. cbn [bind_result]. split; [done|]. split; [done|]. exists f, t. destruct (Safety.attribution_window_least f t w Hw) as (_ & _ & H1 & H2 & _). cbn [window].
    split_and!; [done|done|done|lia|done].
  - cbn [listedProblems map]. unfold listedProblems, REASON_SAMPLE_LIMIT. cbn [take]. by destruct (_ >? 0).
Qed.

Lemma parse_csv_total gunzip bytes : is_Some (parseCurCsv gunzip bytes).
Proof.
  unfold parseCurCsv. destruct (decompressCurExport gunzip bytes) as [plain|e]; [|by eexists]. destruct (Parsing.decodeUtf8Strict plain) as [t|[]]; [|by eexists..].
  unfold parseCurText. set (body := match chars t with [] => _ | _ => _ end). unfold CurCsv.parseRecords.
  destruct (CurCsv.parse_loop_total (length body) (CurCsv.MkCursor 0 body [] [])) as [r Hr]; [done|]. rewrite Hr. destruct r; by eexists.
Qed.

Lemma checkScalars_money input u : checkScalars input = Ok u -> isMoneyDecimal (ceiling_usd input) = true.
Proof. unfold checkScalars, checked. cbv zeta. destruct (isMoneyDecimal _); [done|]. by destruct (isSha256Hex _), (isSha256Hex _), (isUtcMillis _). Qed.

Lemma checkScalars_reasons input rs : checkScalars input = Err rs -> rs <> [].
Proof. unfold checkScalars. cbv zeta. by destruct (flat_map _ _) as [|r l]; [|intros [= <-]]. Qed.

Lemma readCurLines_rows table ls : readCurLines table = Ok ls -> length ls = length (rows table).
Proof. unfold readCurLines. cbv zeta. destruct (_ <? _)%nat; [done|]. intros [= <-]. apply length_imap. Qed.

(** What a conclusive record says of the export. *)
Definition conclusive_sound (ctx : AttributionContext) (table : CurTable) (r : BillingImport) (breached : bool) (total : string) : Prop :=
  exists lines, readCurLines table = Ok lines /\ length lines = length (rows table)
  /\ (forall line, line ∈ lines -> accounted ctx line)
  /\ bm_lines_used r = omap (fun line => is_attributed (classifyLine line ctx)) lines
  /\ (forall line l, is_attributed (classifyLine line ctx) = Some l <-> attributes ctx line l)
  /\ (forall l, l ∈ bm_lines_used r -> al_currency l = "USD")
  /\ total_exact (map al_cost (bm_lines_used r)) (bm_ceiling_usd r) total breached
  /\ period_final (export_period r) = true
  /\ isContained (window ctx) (MkInterval (period_start (export_period r)) (period_end (export_period r))) = true.

Lemma attributed_export table period ctx ceiling : isMoneyDecimal ceiling = true ->
  let a := attributeExport table period ctx in
  match deriveBilledCostCheck a ceiling with
  | Ok (conclusive breached total) => forall r, bm_lines_used r = lines_used a -> bm_ceiling_usd r = ceiling -> export_period r = period ->
      conclusive_sound ctx table r breached total
  | Ok (unverified rs) => rs <> []
  | Err _ => False
  end.
Proof.
  intros Hc a. assert (Hm : forall l, l ∈ lines_used a -> isMoneyDecimal (al_cost l) = true).
  { unfold a, attributeExport. cbv zeta. cbn [lines_used]. destruct (readCurLines table) as [ls|e]; [apply used_lines_money|by intros l ?%not_elem_of_nil]. }
  pose proof (derived_check a ceiling Hm Hc) as H. destruct (deriveBilledCostCheck a ceiling) as [[breached total|rs]|]; [|apply H|done].
  destruct H as (Hr & Hu & Ht). intros r Hl Hce Hp. unfold conclusive_sound. rewrite Hl, Hce, Hp.
  unfold a, attributeExport in *. cbv zeta in *. cbn [ar_reasons lines_used] in *.
  apply app_nil in Hr as [Hr Hpr%periodReasons_nil]. destruct (readCurLines table) as [ls|e] eqn:El; [|done].
  exists ls. split; [done|]. split; [by apply readCurLines_rows|]. split; [by apply correlated_reasons_nil|]. split; [apply correlated_lines|].
  split; [intros line l; apply (proj2 (classifyLine_cases line ctx))|]. split; [done|]. split; [done|]. apply Hpr.
Qed.

(** C17: the billed-cost check never understates the bill. The import always returns: a record, or reasons. When the record's check is
    conclusive, every line of the export is either attributed, exactly when it is usage of the frozen account, of a resource of the run
    with the run's tag, for a run-owned operation, inside the window and with a readable amount, or is no usage of the run (an excluded
    type, another account, outside the window, or without any identity of the run); the total is the exact sum of the attributed
    amounts, all in dollars, and the check says breached iff that sum exceeds the ceiling; the billing period is final and covers the
    window, which covers the run from its first mutation to the end of its cleanup. *)
Theorem billing_check_accounts_for_every_line (gunzip : list Z -> Result (list Z) string) (sha256Hex : list Z -> string) (input : BillingImportInput) :
  exists r, buildBillingImport gunzip sha256Hex input = Some (Ok r)
  /\ match r with
     | Err rs => rs <> []
     | Ok record => exists table ctx, parseCurCsv gunzip (export_bytes input) = Some (Ok table) /\ context_sound (context input) ctx
         /\ readExportPeriod table = Ok (export_period record) /\ bm_ceiling_usd record = ceiling_usd input
         /\ match outcome record with
            | unverified rs => rs <> []
            | conclusive breached total => conclusive_sound ctx table record breached total
            end
     end.
Proof.
  unfold buildBillingImport. pose proof (parse_context (context input)) as Hctx. destruct (parseAttributionContext (context input)) as [[ctx|rs]|]; [| |done].
  2: { eexists. split; [done|]. intros [? _]%app_nil. done. }
  destruct (checkScalars input) as [u|rs] eqn:Es; [|eexists; split; [done|]; cbn; by apply (checkScalars_reasons input)].
  destruct (parse_csv_total gunzip (export_bytes input)) as [t Ht]. rewrite Ht. destruct t as [table|e]; [|by eexists].
  destruct (readExportPeriod table) as [period|e] eqn:Ep; [|by eexists]. cbv zeta.
  pose proof (attributed_export table period ctx (ceiling_usd input) (checkScalars_money input u Es)) as Ha. cbv zeta in Ha.
  destruct (deriveBilledCostCheck _ _) as [check|]; [|done]. cbn [bind_result]. eexists. split; [done|]. exists table, ctx.
  cbn [export_period bm_ceiling_usd outcome]. do 4 (split; [done|]). destruct check; [|done]. by apply Ha.
Qed.

(** One attributed line, one of another account, one without any identity: within the ceiling; without the run's tag on the first line,
    unverified. *)
Definition demo_header : string :=
  "line_item_usage_account_id,line_item_line_item_type,line_item_resource_id,line_item_product_code,line_item_operation,line_item_usage_start_date,line_item_usage_end_date,line_item_currency_code,line_item_unblended_cost,resource_tag_suc_run_id,bill_billing_period_start_date,bill_billing_period_end_date,bill_invoice_id".
Definition demo_uuid : string := "3b1f8a52-6c1e-4f0a-9d38-2f6f0f6f1a11".
Definition demo_period : string := ",2026-10-01T00:00:00Z,2026-11-01T00:00:00Z,INV".
Definition demo_csv (tag : string) : string :=
  let nl := String (Ascii.ascii_of_nat 10) "" in
  demo_header +:+ nl
  +:+ "123456789012,Usage,arn:provider,AWSLambda,Invoke,2026-10-05T10:00:00Z,2026-10-05T11:00:00Z,USD,1.25E-5," +:+ tag +:+ demo_period +:+ nl
  +:+ "999999999999,Usage,arn:other,AWSLambda,Invoke,2026-10-05T10:00:00Z,2026-10-05T11:00:00Z,USD,7," +:+ demo_period +:+ nl
  +:+ "123456789012,Usage,arn:other,AWSLambda,Invoke,2026-10-05T10:00:00Z,2026-10-05T11:00:00Z,USD,7," +:+ demo_period +:+ nl.
Definition demo_import (tag : string) : BillingImportInput :=
  let d := str_concat (replicate 64 "a") in
  MkImportInput (MkContextInput (id_run demo_uuid) "123456789012" ["arn:provider"] [MkAllow "AWSLambda" ["Invoke"]] "2026-10-05T10:17:03.120Z" "2026-10-05T11:02:00.000Z")
    d d (Parsing.bytes_of (demo_csv tag)) "5.00" "2026-11-04T09:00:00.000Z".
Definition demo_outcome (tag : string) : option (BilledCostOutcome * nat) :=
  match buildBillingImport (fun _ => Err "") (fun _ => "") (demo_import tag) with Some (Ok (Ok r)) => Some (outcome r, length (bm_exclusions r)) | _ => None end.

Example demo_within_limit : demo_outcome demo_uuid = Some (conclusive false "0.0000125", 2%nat).
Proof. vm_compute. reflexivity. Qed.

Example demo_untagged : option_map (fun '(o, n) => (match o with unverified rs => map bu_code rs | _ => [] end, n)) (demo_outcome "") = Some ([INCOMPLETE_ATTRIBUTION], 2%nat).
Proof. vm_compute. reflexivity. Qed.
End BillingCorrect.
