(* ===== verification/Qualification.v ===== *)
(** * Transport qualification (src/study-1/src/transport-qualification/verdict/)

    The cardinality and validity of a probe (probe-validity.ts), gate G5 over its ledger (probe-ledger-access.ts), its settlement
    re-derived from the frozen samples (probe-settlement.ts), its evidence integrity (probe-evidence-integrity.ts), the verdict
    (probe-verdict.ts) and the result (probe-result.ts); then the facts of a stored probe package and its selected amendments
    (probe-package-records.ts, probe-usability-reader.ts) and whether the probe may be selected (probe-usability.ts).
    [JSON.parse], SHA-256, the validator and the digest are arguments. *)

From S2P Require Import Prelude AttemptLifecycle Timestamps Decimals Store JsonText Parsing LeaseHealth Journal Settlement ControlItems Evidence Fidelity Oracle IngestionGates Ingestion Package Amendments PackageVerifier.
Import Json JsonText Journal Evidence.
Import Fidelity(ConditionResult, c_result, c_refs, c_reasons, affected_by, uniqueReasons, buildTreatmentView, evaluateTreatmentConditions,
  deriveTreatmentFidelity, fa_value, fa_basis, fa_clock_assumption_refs, fa_refs, assembleApplicableGate, verdict_text, text_in).
Import Oracle(TrialValidity, trial_valid, trial_invalid, trial_indeterminate, instant, ledger_record).
Open Scope Z_scope.

Module Qualification.

#[export] Instance TrialValidity_eq_dec : EqDecision TrialValidity.
Proof. solve_decision. Defined.
#[export] Instance PreservationVerdict_eq_dec : EqDecision PreservationVerdict.
Proof. solve_decision. Defined.

#[local] Existing Instance Amendments.PackageEligibility_eq_dec.
#[local] Existing Instance Package.AmendmentKind_eq_dec.

(** ** Cardinality and validity (probe-validity.ts) *)

Definition CARDINALITY_SUBJECT : string := "BR-RUA-027".

Record ProbeCardinality := MkCardinality { caller_invocations : Z; accepted_provider_calls : Z; committed_transactions : Z }.
#[export] Instance ProbeCardinality_eq_dec : EqDecision ProbeCardinality.
Proof. solve_decision. Defined.

Record ProbeValidityAssessment := MkValidity {
  probe_validity : TrialValidity;
  cardinality : ProbeCardinality;
  pv_reasons : list StructuredReason;
  pv_refs : list EvidenceRef;
}.

Record CountJudgement := MkJudgement { j_field : string; j_count : Z; j_unestablished : list StructuredReason }.

(** The size of a set of texts. *)
Definition set_size (l : list string) : Z := Z.of_nat (length (unique l)).

Definition pathOf (state : SubjectArtifactState) : option string := match as_ref state with None => None | Some _ => Some (as_path state) end.

Definition probe_starts (e : IngestedEvidence) : list IndexedEvent :=
  List.filter (fun ev => bool_decide (eventString ev "source" = Some "probe_caller")) (eventsOfType (partitionEvents e) "caller_invocation_started").
Definition runner_invocations (e : IngestedEvidence) : list IndexedEvent := eventsOfType (partitionEvents e) "probe_workload_invoked".
Definition request_ids (evs : list IndexedEvent) : list string := unique (map (fun ev => text_in ev "lambda_request_id") evs).

Definition crossChecked (startedIds invokedIds : list string) : bool :=
  Nat.eqb (length startedIds) (length invokedIds) && forallb (fun i => memb i invokedIds) startedIds.

Definition invocationCount (e : IngestedEvidence) (caller runner : SubjectArtifactState) : CountJudgement :=
  let started := probe_starts e in
  let startedIds := request_ids started in
  let invokedIds := request_ids (runner_invocations e) in
  let unestablished := map (fun s => incompleteArtifactReason s CARDINALITY_SUBJECT) (List.filter (fun s => negb (complete s)) [caller; runner]) in
  let cross := if crossChecked startedIds invokedIds then []
    else [MkReason "INVOCATION_CROSS_CHECK_FAILED" CARDINALITY_SUBJECT (pathOf caller) None
            ("caller journal starts Lambda requests [" +:+ str_join ", " startedIds +:+ "] and the runner invoked ["
             +:+ str_join ", " invokedIds +:+ "]; expected the same request ids")] in
  MkJudgement "caller_invocations" (Z.max (Z.of_nat (length started)) (Z.of_nat (length invokedIds))) (unestablished ++ cross).

Definition acceptedCallCount (e : IngestedEvidence) (provider : SubjectArtifactState) : CountJudgement :=
  MkJudgement "accepted_provider_calls" (Z.of_nat (length (eventsOfType (partitionEvents e) "provider_call_accepted")))
    (if complete provider then [] else [incompleteArtifactReason provider CARDINALITY_SUBJECT]).

Definition ledger_status_text (s : LedgerStatus) : string :=
  match s with ledger_present => "present" | ledger_missing => "missing" | ledger_unusable => "unusable" end.

Definition ledgerCountProblem (l : LedgerView) : option string :=
  if negb (bool_decide (lv_status l = ledger_present)) || negb (lv_pagination_complete l) then
    Some ("the ledger is " +:+ ledger_status_text (lv_status l) +:+ " with pagination "
          +:+ (if lv_pagination_complete l then "complete" else "incomplete") +:+ "; expected a complete ledger to count transactions")
  else match lv_duplicate_transaction_ids l with
       | [] => None
       | ids => Some ("the ledger repeats transaction ids [" +:+ str_join ", " ids +:+ "]; expected each transaction id once to count transactions")
       end.

Definition transactionCount (e : IngestedEvidence) (state : SubjectArtifactState) : CountJudgement :=
  let l := ledger e in
  let count := set_size (map tx_provider_transaction_id (lv_transactions l)) in
  match ledgerCountProblem l with
  | None => MkJudgement "committed_transactions" count []
  | Some problem =>
      MkJudgement "committed_transactions" count
        [match as_ref state with
         | None => incompleteArtifactReason state CARDINALITY_SUBJECT
         | Some _ => MkReason "LEDGER_NOT_USABLE" CARDINALITY_SUBJECT (Some (as_path state)) None problem
         end]
  end.

Definition exceededReason (j : CountJudgement) : StructuredReason :=
  reason "PROBE_CARDINALITY_EXCEEDED" CARDINALITY_SUBJECT (j_field j +:+ " is " +:+ string_of_Z (j_count j) +:+ "; expected exactly 1").

(** The three counts, in the order they are judged. *)
Definition judgements (e : IngestedEvidence) : list CountJudgement :=
  [invocationCount e (subjectArtifactState e "caller_journal") (subjectArtifactState e "runner_journal");
   acceptedCallCount e (subjectArtifactState e "provider_journal");
   transactionCount e (subjectArtifactState e "ledger_snapshot")].

Definition cardinality_of (e : IngestedEvidence) : ProbeCardinality :=
  MkCardinality (j_count (invocationCount e (subjectArtifactState e "caller_journal") (subjectArtifactState e "runner_journal")))
    (j_count (acceptedCallCount e (subjectArtifactState e "provider_journal")))
    (j_count (transactionCount e (subjectArtifactState e "ledger_snapshot"))).

Definition assessProbeValidity (e : IngestedEvidence) : ProbeValidityAssessment :=
  let exceeded := List.filter (fun j => 1 <? j_count j) (judgements e) in
  let refs := canonicalRefs (omap id (map (fun c => as_ref (subjectArtifactState e c))
                ["caller_journal"; "provider_journal"; "runner_journal"; "ledger_snapshot"])) in
  match exceeded with
  | _ :: _ => MkValidity trial_invalid (cardinality_of e) (map exceededReason exceeded) refs
  | [] =>
      let unestablished := flat_map j_unestablished (judgements e) in
      MkValidity (match unestablished with [] => trial_valid | _ => trial_indeterminate end) (cardinality_of e) unestablished refs
  end.

(** ** Gate G5 (probe-ledger-access.ts) *)

Definition LEDGER_SUBJECT : string := "BR-RUA-034".

Definition assessProbeLedgerAccess (e : IngestedEvidence) : GateAssessment :=
  let state := subjectArtifactState e "ledger_snapshot" in
  let l := ledger e in
  let at_ := as_ref state in
  let refs := opt_list at_ in
  if negb (bool_decide (lv_status l = ledger_present)) then
    assembleGate ledger_access [MkCause cause_unverified (incompleteArtifactReason state LEDGER_SUBJECT) refs] []
  else
    let causes :=
      map (fun i => MkCause cause_invalid (reasonAt LEDGER_SUBJECT "DUPLICATE_LEDGER_TRANSACTION_ID"
             ("provider_transaction_id " +:+ i +:+ " appears more than once; expected unique ids") at_) refs) (lv_duplicate_transaction_ids l)
      ++ (if lv_pagination_complete l then []
          else [MkCause cause_unverified (reasonAt LEDGER_SUBJECT "LEDGER_PAGINATION_INCOMPLETE"
                  ("pagination is incomplete (" +:+ str_join "; " (lv_pagination_problems l) +:+ "); expected every page read") at_) refs])
      ++ (if bool_decide (option_map ls_consistent_read (ledger_record e) = Some true) then []
          else [MkCause cause_unverified (reasonAt LEDGER_SUBJECT "LEDGER_READ_NOT_CONSISTENT"
                  "the ledger snapshot declares consistent_read false; expected a consistent read" at_) refs]) in
    assembleGate ledger_access causes refs.

(** ** Settlement (probe-settlement.ts) *)

Definition SETTLEMENT_SUBJECT : string := "BR-RUA-032".

Record ProbeSettlementFacts := MkFacts {
  pf_samples : SubjectArtifactState;
  pf_runner : SubjectArtifactState;
  invoked : option IndexedEvent;
  assessed : option IndexedEvent;
}.

Definition incompleteCause (state : SubjectArtifactState) : GateCause :=
  MkCause cause_unverified (incompleteArtifactReason state SETTLEMENT_SUBJECT) (opt_list (as_ref state)).

Definition runnerEventCause (runnerRef : EvidenceRef) (c recordType : string) : GateCause :=
  MkCause cause_unverified
    (reasonAt SETTLEMENT_SUBJECT c ("the runner journal has no " +:+ recordType +:+ " for the probe; expected the runner's record") (Some runnerRef))
    [runnerRef].

Definition missingCauses (f : ProbeSettlementFacts) : list GateCause :=
  (if complete (pf_samples f) then [] else [incompleteCause (pf_samples f)])
  ++ match as_ref (pf_runner f) with
     | None => [incompleteCause (pf_runner f)]
     | Some runnerRef =>
         (match invoked f with None => [runnerEventCause runnerRef "WORKLOAD_INVOCATION_NOT_RECORDED" "probe_workload_invoked"] | Some _ => [] end)
         ++ (match assessed f with None => [runnerEventCause runnerRef "SETTLEMENT_NOT_ASSESSED" "settlement_assessed"] | Some _ => [] end)
     end.

Definition rederivationCauses (derived : Settlement.SettlementAssessment) (runner : IndexedEvent) (at_ : EvidenceRef) (refs : list EvidenceRef) :
  list GateCause :=
  let mismatch rederived :=
    [MkCause cause_unverified
       (reasonAt SETTLEMENT_SUBJECT "SETTLEMENT_REDERIVATION_MISMATCH"
          ("the runner assessed established " +:+ text_in runner "window_start" +:+ ".." +:+ text_in runner "established_at" +:+ ", rechecked "
           +:+ text_in runner "rechecked_at" +:+ "; the frozen samples re-derive " +:+ rederived +:+ " under the probe policy; expected the same judgement")
          (Some at_)) refs] in
  match derived with
  | Settlement.established w est rech _ =>
      if Oracle.agrees runner w est rech then []
      else mismatch ("established " +:+ Utc.toISOString w +:+ ".." +:+ Utc.toISOString est +:+ ", rechecked " +:+ Utc.toISOString rech)
  | Settlement.not_established rs _ => mismatch ("not established (" +:+ str_join ", " (map code rs) +:+ ")")
  end.

Definition settlement_facts (e : IngestedEvidence) : ProbeSettlementFacts :=
  let evs := partitionEvents e in
  MkFacts (subjectArtifactState e "settlement_samples") (subjectArtifactState e "runner_journal")
    (head (eventsOfType evs "probe_workload_invoked")) (last (eventsOfType evs "settlement_assessed")).

Definition probeSettlementCauses (e : IngestedEvidence) : list GateCause :=
  let facts := settlement_facts e in
  let missing := missingCauses facts in
  match assessed facts with
  | None => missing
  | Some runner =>
      let ref := eventRef runner in
      if negb (bool_decide (eventString runner "status" = Some "established")) then
        missing ++ [MkCause cause_unverified
          (reasonAt SETTLEMENT_SUBJECT "SETTLEMENT_NOT_ESTABLISHED"
             ("settlement_assessed " +:+ event_id_of runner +:+ " is " +:+ text_in runner "status" +:+ "; expected established") (Some ref)) [ref]]
      else
        match missing, invoked facts with
        | [], Some published =>
            let samples := map l_record (o_settlement_samples (observations e)) in
            let derived := Settlement.evaluateSettlement samples Settlement.PROBE_SETTLEMENT_POLICY (instant (text_in published "occurred_at")) in
            rederivationCauses derived runner ref (opt_list (as_ref (pf_samples facts)) ++ [eventRef published; ref])
        | _, _ => missing
        end
  end.

(** ** Evidence integrity (probe-evidence-integrity.ts) *)

Definition gateCauses (g : GateAssessment) : list GateCause :=
  match value g with
  | invalid => map (fun r => MkCause cause_invalid r (gate_refs g)) (reasons g)
  | unverified => map (fun r => MkCause cause_unverified r (gate_refs g)) (reasons g)
  | _ => []
  end.

(** [Object.entries] of the cardinality. *)
Definition cardinality_entries (c : ProbeCardinality) : list (string * Z) :=
  [("caller_invocations", caller_invocations c); ("accepted_provider_calls", accepted_provider_calls c);
   ("committed_transactions", committed_transactions c)].

Definition workloadCauses (v : ProbeValidityAssessment) : list GateCause :=
  map (fun p => MkCause cause_unverified
         (reason "PROBE_WORKLOAD_NOT_EVIDENCED" CARDINALITY_SUBJECT
            (p.1 +:+ " is 0; expected exactly 1 evidenced by the probe's journals and ledger")) (pv_refs v))
    (List.filter (fun p => bool_decide (p.2 = 0)) (cardinality_entries (cardinality v))).

Definition integrity_gates (e : IngestedEvidence) : list GateAssessment :=
  [IngestionGates.assessEvidenceIntegrity e; IngestionGates.assessTraceability e; IngestionGates.assessIdentityIntegrity e; assessProbeLedgerAccess e].

Definition assessProbeEvidenceIntegrity (e : IngestedEvidence) (v : ProbeValidityAssessment) : GateAssessment :=
  let gates := integrity_gates e in
  assembleApplicableGate evidence_integrity (flat_map gateCauses gates ++ probeSettlementCauses e ++ workloadCauses v) (flat_map gate_refs gates).

(** ** The verdict (probe-verdict.ts) *)

Definition deriveProbeVerdict (v : TrialValidity) (conditions : list ConditionResult) (integrity : GateValue) : PreservationVerdict :=
  if bool_decide (v = trial_invalid) then v_indeterminate
  else if existsb (fun c => bool_decide (c_result c = v_fail) && bool_decide (affected_by c = [])) conditions then v_fail
  else if forallb (fun c => bool_decide (c_result c = v_pass)) conditions && bool_decide (integrity = verified) then v_pass
  else v_indeterminate.

(** ** The result (probe-result.ts) *)

(** [TransportProbeResult] without its fixed members. *)
Record TransportProbeResult := MkProbeResult {
  pr_transport_probe_id : string;
  pr_execution_manifest_sha256 : string;
  pr_evidence_integrity : GateValue;
  pr_treatment_fidelity : GateValue;
  fidelity_basis : string;
  clock_assumption_refs : list string;
  ordering_basis : string;
  condition_results : list ConditionResult;
  pr_evidence_refs : list EvidenceRef;
  indeterminate_reasons : list StructuredReason;
  pr_checked_at : string;
  transport_probe_verdict : PreservationVerdict;
  pr_probe_validity : TrialValidity;
  probe_cardinality : ProbeCardinality;
}.

Definition TREATMENT_ORDERING_BASIS : string := "cross_source_wall_clock".

Definition isExpectedCardinality (c : ProbeCardinality) : bool := bool_decide (c = MkCardinality 1 1 1).

(** The verdict the members of the outcome name. *)
Definition verdictOutcome (v : PreservationVerdict) (validity : TrialValidity) (c : ProbeCardinality) (integrity : GateValue) : PreservationVerdict :=
  if bool_decide (v = v_pass) && negb (bool_decide (validity = trial_invalid)) && bool_decide (integrity = verified) && isExpectedCardinality c
  then v_pass
  else if bool_decide (v = v_fail) && negb (bool_decide (validity = trial_invalid)) then v_fail
  else v_indeterminate.

Definition kind_text (execution : option ExecutionIdentity) : string :=
  match execution with Some i => PackageVerifier.execution_kind_text i | None => "(none)" end.

Definition unknown_execution (e : IngestedEvidence) : list StructuredReason :=
  [reason "PROBE_EXECUTION_UNKNOWN" "CTR-RUA-003"
     ("the evidence names execution kind " +:+ kind_text (sc_execution (scope e)) +:+ "; expected a TRANSPORT_PROBE execution manifest")].

Definition buildProbeResult (e : IngestedEvidence) (checked_at : string) : Result TransportProbeResult (list StructuredReason) :=
  match sc_execution (scope e), sc_execution_manifest_sha256 (scope e) with
  | Some (id_transport_probe probe), Some manifestDigest =>
      let! view := buildTreatmentView e in
      let conditions := evaluateTreatmentConditions view in
      let fidelity := deriveTreatmentFidelity conditions view in
      let validity := assessProbeValidity e in
      let integrity := assessProbeEvidenceIntegrity e validity in
      let verdict := deriveProbeVerdict (probe_validity validity) conditions (value integrity) in
      Ok (MkProbeResult probe manifestDigest (value integrity) (fa_value fidelity) (fa_basis fidelity) (fa_clock_assumption_refs fidelity)
        TREATMENT_ORDERING_BASIS conditions
        (canonicalRefs (flat_map c_refs conditions ++ fa_refs fidelity ++ gate_refs integrity ++ pv_refs validity))
        (uniqueReasons ((if bool_decide (probe_validity validity = trial_valid) then [] else pv_reasons validity)
           ++ (if bool_decide (value integrity = verified) then [] else reasons integrity) ++ flat_map c_reasons conditions))
        checked_at (verdictOutcome verdict (probe_validity validity) (cardinality validity) (value integrity))
        (probe_validity validity) (cardinality validity))
  | _, _ => Err (unknown_execution e)
  end.

(** ** The records of a probe package (probe-package-records.ts) *)

Record StoredProbeRecord := MkStored { stored_record : json; stored_sha256 : string }.

Section package.
Context (JSON_parse : string -> Result json string) (sha256Hex : list Z -> string) (validator : Ingestion.RecordValidator) (digest : list Z -> string).

Definition readProbeRecord (files : list Package.PackageFile) (path recordType : string) : option StoredProbeRecord :=
  file ← Package.fileAt files path;
  match Parsing.parseJsonDocument JSON_parse (Package.f_bytes file) with
  | Err _ => None
  | Ok v =>
      match Ingestion.validateAs validator recordType v with
      | Ingestion.record_valid => Some (MkStored v (digest (Package.f_bytes file)))
      | Ingestion.record_invalid _ => None
      end
  end.

Definition readAmendmentRecord (indexDigest : string) (amendments : list Amendments.AmendmentSnapshot) (path recordType : string) : option json :=
  amendment ← find_first (fun s => match Package.fileAt (Amendments.as_files s) Package.AMENDMENT_INDEX with
                                   | Some index => bool_decide (digest (Package.f_bytes index) = indexDigest) | None => false end) amendments;
  option_map stored_record (readProbeRecord (Amendments.as_files amendment) path recordType).

(** ** What usability judges (probe-usability.ts) *)

(** The members of a record read back, as the texts they carry. *)
Record ProbeOutcomeFacts := MkOutcomeFacts {
  of_transport_probe_verdict : string;
  of_probe_validity : string;
  of_treatment_fidelity : string;
  of_evidence_integrity : string;
}.

Record ProbeUsabilityInput := MkUsabilityInput {
  ui_transport_probe_id : string;
  ui_original_package_index_sha256 : string;
  ui_selected_amendment_head_sha256 : option string;
  ui_probe : ProbeOutcomeFacts;
  ui_late_evidence_status : string;
  ui_closure : Amendments.EffectiveOperationalState;
  ui_safety_status : string;
  ui_package_eligibility : Amendments.PackageEligibility;
  ui_transport_scope_snapshot_sha256 : option string;
  ui_evidence_refs : list EvidenceRef;
  ui_assessed_at : string;
}.

(** [ProbeUsabilityAssessment]: usable iff no reason; the other members are the input's. *)
Record ProbeUsabilityAssessment := MkUsability {
  probe_usable : bool;
  usability_reasons : list StructuredReason;
  us_input : ProbeUsabilityInput;
  us_evidence_refs : list EvidenceRef;
}.

Definition USABILITY_SUBJECT : string := "BR-RUA-026".

Definition unmet (holds : bool) (c d : string) : list StructuredReason := if holds then [] else [reason c USABILITY_SUBJECT d].

Definition lateEvidenceRow (status : string) : list StructuredReason :=
  if bool_decide (status = "none") || bool_decide (status = "consistent") then []
  else [reason (if bool_decide (status = "contradictory") then "LATE_EVIDENCE_CONTRADICTORY" else "LATE_EVIDENCE_UNVERIFIED") USABILITY_SUBJECT
          ("effective late_evidence_status is " +:+ status +:+ "; expected none or consistent")].

(** [None] is [unverified]. *)
Definition effective_cleanup_text (c : Amendments.EffectiveOperationalState) : string :=
  match Amendments.effective_cleanup_status c with Some s => Amendments.cleanup_text s | None => "unverified" end.
Definition effective_leak_text (c : Amendments.EffectiveOperationalState) : string :=
  match Amendments.effective_leak_audit_status c with Some s => Amendments.leak_text s | None => "unverified" end.
Definition effective_lease_text (c : Amendments.EffectiveOperationalState) : string := Amendments.lease_text (Amendments.effective_lease_status c).
Definition eligibility_text (e : Amendments.PackageEligibility) : string :=
  match e with Amendments.eligible => "eligible" | Amendments.ineligible => "ineligible" end.

Definition unmetRows (input : ProbeUsabilityInput) : list StructuredReason :=
  let probe := ui_probe input in
  let closure := ui_closure input in
  unmet (bool_decide (of_transport_probe_verdict probe = "pass")) "PROBE_NOT_PASSING"
    ("transport_probe_verdict is " +:+ of_transport_probe_verdict probe +:+ "; expected pass")
  ++ unmet (bool_decide (of_probe_validity probe = "valid") && bool_decide (of_treatment_fidelity probe = "verified")) "PROBE_INVALID_OR_UNFAITHFUL"
       ("probe_validity is " +:+ of_probe_validity probe +:+ " and treatment_fidelity is " +:+ of_treatment_fidelity probe +:+ "; expected valid and verified")
  ++ unmet (bool_decide (of_evidence_integrity probe = "verified")) "EVIDENCE_NOT_VERIFIED"
       ("evidence_integrity is " +:+ of_evidence_integrity probe +:+ "; expected verified")
  ++ lateEvidenceRow (ui_late_evidence_status input)
  ++ unmet (bool_decide (effective_cleanup_text closure = "succeeded") && bool_decide (effective_leak_text closure = "clean")
            && bool_decide (effective_lease_text closure = "released")) "OPERATIONAL_CLOSURE_NOT_CLEAN"
       ("effective cleanup " +:+ effective_cleanup_text closure +:+ ", leak audit " +:+ effective_leak_text closure +:+ ", lease "
        +:+ effective_lease_text closure +:+ "; expected succeeded, clean and released")
  ++ unmet (negb (bool_decide (ui_safety_status input = "breached"))) "KNOWN_SAFETY_BREACH" "safety_status is breached; expected no known safety breach"
  ++ unmet (bool_decide (ui_package_eligibility input = Amendments.eligible)) "PACKAGE_NOT_VERIFIED"
       ("package_eligibility is " +:+ eligibility_text (ui_package_eligibility input) +:+ "; expected eligible for the selected original index and head")
  ++ unmet (bool_decide (is_Some (ui_transport_scope_snapshot_sha256 input))) "NO_TRANSPORT_SCOPE_SNAPSHOT"
       "admission/transport-scope-snapshot.json is absent, unindexed or unreadable; expected an indexed transport-scope snapshot".

Definition assessProbeUsability (input : ProbeUsabilityInput) : ProbeUsabilityAssessment :=
  let rows := unmetRows input in
  MkUsability (match rows with [] => true | _ => false end) rows input (canonicalRefs (ui_evidence_refs input)).

(** ** Reading the facts (probe-usability-reader.ts) *)

Definition UNKNOWN_PROBE : ProbeOutcomeFacts := MkOutcomeFacts "indeterminate" "indeterminate" "unverified" "unverified".

Definition UNVERIFIED_CLOSURE : Amendments.EffectiveOperationalState := Amendments.MkEffective None None LeaseHealth.unverified false.

Definition PROBE_RESULT_PATH : string := Package.unitFile Package.unit_probe "transportProbeResult".
Definition SUMMARY_PATH : string := Package.path_of "transportProbeSummary".
Definition SCOPE_PATH : string := Package.path_of "transportScopeSnapshot".

Definition storedRef (path : string) (stored : option StoredProbeRecord) (packageIndexDigest : string) : option EvidenceRef :=
  option_map (fun s => MkRef path (stored_sha256 s) None None (Some packageIndexDigest)) stored.

Definition stored_files (input : PackageVerifier.PackageVerificationInput) : list Package.PackageFile :=
  PackageVerifier.ps_files (PackageVerifier.vi_original input).

Definition frozenResult (probe : string) (files : list Package.PackageFile) (summary : option json) : option StoredProbeRecord :=
  match readProbeRecord files PROBE_RESULT_PATH "transport_probe_result" with
  | None => None
  | Some result =>
      if bool_decide ((s ← summary; ownString s "probe_result_sha256") = Some (stored_sha256 result))
         && bool_decide (ownString (stored_record result) "transport_probe_id" = Some probe)
      then Some result else None
  end.

Definition outcomeFacts (result : json) : ProbeOutcomeFacts :=
  MkOutcomeFacts (Ingestion.textOf result "transport_probe_verdict") (Ingestion.textOf result "probe_validity")
    (Ingestion.textOf result "treatment_fidelity") (Ingestion.textOf result "evidence_integrity").

Definition indexedScopeSnapshot (files : list Package.PackageFile) : option StoredProbeRecord :=
  match readProbeRecord files (Package.path_of "packageIndex") "package_index" with
  | None => None
  | Some index =>
      if existsb (fun entry => bool_decide (ownString entry "artifact_path" = Some SCOPE_PATH)) (Ingestion.itemsOf (stored_record index) "entries")
      then readProbeRecord files SCOPE_PATH "transport_scope_snapshot" else None
  end.

Definition links_of (kinds : list Package.AmendmentKind) (chain : list Amendments.AmendmentLink) : list Amendments.AmendmentLink :=
  List.filter (fun link => memb (Amendments.lk_amendment_kind link) kinds) chain.

Definition lateEvidenceStatus (chain : list Amendments.AmendmentLink) (amendments : list Amendments.AmendmentSnapshot) (summary : option json) : string :=
  match last (links_of [Package.LATE_EVIDENCE; Package.REASSESSMENT] chain) with
  | None => nullish (option_map (fun s => Ingestion.textOf s "late_evidence_status") summary) "unverified"
  | Some link =>
      nullish (option_map (fun a => Ingestion.textOf a "late_evidence_status")
                 (readAmendmentRecord (Amendments.lk_amendment_index_sha256 link) amendments Package.LATE_EVIDENCE_ASSESSMENT "late_evidence_assessment"))
        "unverified"
  end.

(** The closure members of a summary; a text outside its vocabulary, which no valid summary has, is read as not started. *)
Definition summary_closure (summary : json) : Amendments.OriginalClosure :=
  let c := Amendments.closureOf summary in
  let status := Ingestion.textOf summary "cleanup_status" in
  Amendments.MkOriginal
    (if memb status ["succeeded"; "partial"; "failed"] then Amendments.terminal (Amendments.cl_cleanup_status c)
     else if bool_decide (status = "running") then Amendments.running else Amendments.not_started)
    (Amendments.cl_leak_audit_status c) (Amendments.cl_lease_status c).

Definition effectiveClosure (v : Amendments.PackageVerification) (amendments : list Amendments.AmendmentSnapshot) (summary : option json) :
  Amendments.EffectiveOperationalState :=
  match summary with
  | None => UNVERIFIED_CLOSURE
  | Some s => Amendments.effectiveOperationalState JSON_parse validator digest v (summary_closure s) amendments
  end.

Definition breached_import (amendments : list Amendments.AmendmentSnapshot) (link : Amendments.AmendmentLink) : bool :=
  bool_decide (option_map (fun r => Ingestion.textOf r "billed_cost_check")
    (readAmendmentRecord (Amendments.lk_amendment_index_sha256 link) amendments Package.BILLING_IMPORT "billing_import") = Some "breached").

Definition safetyStatus (chain : list Amendments.AmendmentLink) (amendments : list Amendments.AmendmentSnapshot) (summary : option json) : string :=
  if existsb (breached_import amendments) (links_of [Package.BILLING] chain) then "breached"
  else nullish (option_map (fun s => Ingestion.textOf s "safety_status") summary) "unverified".

(** The identity of [input] is the probe's, [probe] its id. *)
Definition readProbeUsabilityInput (probe : string) (input : PackageVerifier.PackageVerificationInput) : Result ProbeUsabilityInput js_error :=
  let! v := PackageVerifier.verifyPackage JSON_parse sha256Hex validator digest input in
  let files := stored_files input in
  let summary := readProbeRecord files SUMMARY_PATH "transport_probe_summary" in
  let summary_record := option_map stored_record summary in
  let result := frozenResult probe files summary_record in
  let scope_ := indexedScopeSnapshot files in
  let indexDigest := Amendments.pv_original_package_index_sha256 v in
  Ok (MkUsabilityInput probe indexDigest (Amendments.selected_amendment_head_sha256 v)
    (match result with None => UNKNOWN_PROBE | Some r => outcomeFacts (stored_record r) end)
    (lateEvidenceStatus (Amendments.pv_selected_chain v) (PackageVerifier.vi_amendments input) summary_record)
    (effectiveClosure v (PackageVerifier.vi_amendments input) summary_record)
    (safetyStatus (Amendments.pv_selected_chain v) (PackageVerifier.vi_amendments input) summary_record)
    (Amendments.package_eligibility v) (option_map stored_sha256 scope_)
    (omap id [storedRef SUMMARY_PATH summary indexDigest; storedRef PROBE_RESULT_PATH result indexDigest; storedRef SCOPE_PATH scope_ indexDigest])
    (PackageVerifier.vi_evaluated_at input)).
End package.
End Qualification.
