(* ===== verification/QualificationCorrect.v ===== *)
(** * Transport qualification is judged exactly

    The verdict of a probe holds exactly of the evidence BR-RUA-027 asks for, and a probe may be selected exactly when its
    stored package and its selected amendments say so. *)

From S2P Require Import Prelude AttemptLifecycle Timestamps Decimals Store JsonText Parsing LeaseHealth Journal Settlement ControlItems Evidence Fidelity FidelityCorrect Oracle IngestionGates Ingestion Package Amendments PackageVerifier PackageVerifierCorrect Qualification.
Import Json JsonText Journal Evidence Qualification.
Import Fidelity(ConditionResult, c_result, affected_by, buildTreatmentView, evaluateTreatmentConditions, assembleApplicableGate, text_in).
Import Oracle(TrialValidity, trial_valid, trial_invalid, trial_indeterminate, instant, ledger_record).
Open Scope Z_scope.

Module QualificationCorrect.
#[local] Existing Instance Package.AmendmentKind_eq_dec.
#[local] Existing Instance Amendments.PackageEligibility_eq_dec.

(** ** The workload *)

Definition transaction_ids (e : IngestedEvidence) : list string := map tx_provider_transaction_id (lv_transactions (ledger e)).
Definition accepted (e : IngestedEvidence) : list IndexedEvent := eventsOfType (partitionEvents e) "provider_call_accepted".

(** More than one caller invocation, accepted call or transaction is in evidence. *)
Definition exceeded_workload (e : IngestedEvidence) : Prop :=
  (1 < length (probe_starts e))%nat \/ (1 < length (request_ids (runner_invocations e)))%nat
  \/ (1 < length (accepted e))%nat \/ exists a b, a ∈ transaction_ids e /\ b ∈ transaction_ids e /\ a <> b.

(** Exactly one of each is. *)
Definition single_workload (e : IngestedEvidence) : Prop :=
  (length (probe_starts e) <= 1)%nat /\ (length (request_ids (runner_invocations e)) <= 1)%nat
  /\ (probe_starts e <> [] \/ runner_invocations e <> []) /\ length (accepted e) = 1%nat
  /\ (exists t, forall x, x ∈ transaction_ids e <-> x = t).

Definition complete_of (e : IngestedEvidence) (c : string) : Prop := complete (subjectArtifactState e c) = true.

Definition ledger_countable (l : LedgerView) : Prop :=
  lv_status l = ledger_present /\ lv_pagination_complete l = true /\ lv_duplicate_transaction_ids l = [].

(** Every count is established: the journals are complete, the caller started exactly the requests the runner invoked, and the
    ledger is complete and repeats no transaction. *)
Definition counts_established (e : IngestedEvidence) : Prop :=
  complete_of e "caller_journal" /\ complete_of e "runner_journal" /\ complete_of e "provider_journal"
  /\ (forall i, i ∈ request_ids (probe_starts e) <-> i ∈ request_ids (runner_invocations e)) /\ ledger_countable (ledger e).

Lemma unique_empty (l : list string) : unique l = [] <-> l = [].
Proof. by destruct l. Qed.

Lemma request_ids_nil evs : request_ids evs = [] <-> evs = [].
Proof. by destruct evs. Qed.

Lemma crossChecked_iff a b : NoDup a -> NoDup b -> crossChecked a b = true <-> forall i, i ∈ a <-> i ∈ b.
Proof.
  intros Ha Hb. unfold crossChecked. rewrite andb_true_iff, Nat.eqb_eq, forallb_forall. split.
  - intros [Hl Hsub] i. assert (Hm : a ⊆+ b).
    { apply NoDup_submseteq; [done|]. intros x Hx. apply memb_true, Hsub. by rewrite <- list_elem_of_In. }
    by rewrite (submseteq_length_Permutation _ _ Hm) by lia.
  - intros H. split; [by apply Permutation_length, NoDup_Permutation|]. intros x Hx. apply memb_true, H. by rewrite list_elem_of_In.
Qed.

(** The size of a set of texts tells none, one and many. *)
Lemma set_size_cases l :
  (set_size l = 0 <-> l = []) /\ (set_size l = 1 <-> exists t, forall x, x ∈ l <-> x = t)
  /\ (1 < set_size l <-> exists a b, a ∈ l /\ b ∈ l /\ a <> b) /\ 0 <= set_size l.
Proof.
  unfold set_size. pose proof (unique_NoDup l) as Hn.
  assert (He : forall x, x ∈ unique l <-> x ∈ l) by (intros; apply unique_elem).
  pose proof (unique_empty l) as H0. destruct (unique l) as [|a [|b u]]; cbn [length] in *.
  - assert (l = []) as -> by by apply H0. split_and!; try lia; split; try done; try lia.
    + intros [t Ht]. by pose proof (proj2 (Ht t) eq_refl) as ?%not_elem_of_nil.
    + intros (x & y & ?%not_elem_of_nil & _). done.
  - split_and!; try lia; split; try lia; [by intros ?%H0| | ].
    + intros _. exists a. intros x. rewrite <- He. apply list_elem_of_singleton.
    + intros (x & y & Hx & Hy & Hne). apply He, list_elem_of_singleton in Hx as ->, Hy as ->. done.
  - apply NoDup_cons in Hn as [Hab _]. split_and!; try lia; split; try lia; [by intros ?%H0| | ].
    + intros [t Ht]. destruct Hab. rewrite (proj1 (Ht a)), (proj1 (Ht b)) by (apply He; set_solver). set_solver.
    + intros _. exists a, b. rewrite <- !He. split_and!; [set_solver..|]. intros ->. set_solver.
Qed.

Lemma exceeded_iff e : List.filter (fun j => 1 <? j_count j) (judgements e) <> [] <-> exceeded_workload e.
Proof.
  unfold judgements, exceeded_workload. pose proof (set_size_cases (transaction_ids e)) as (_ & _ & Ht & _). rewrite <- Ht.
  unfold transactionCount. fold (transaction_ids e). unfold accepted.
  set (n := set_size (transaction_ids e)). clearbody n.
  assert (Hl : forall p, j_count (match p : option string with None => MkJudgement "committed_transactions" n [] | Some problem =>
      MkJudgement "committed_transactions" n [match as_ref (subjectArtifactState e "ledger_snapshot") with
         | None => incompleteArtifactReason (subjectArtifactState e "ledger_snapshot") CARDINALITY_SUBJECT
         | Some _ => MkReason "LEDGER_NOT_USABLE" CARDINALITY_SUBJECT (Some (as_path (subjectArtifactState e "ledger_snapshot"))) None problem end] end) = n)
    by (by intros []).
  cbn [List.filter]. rewrite Hl. cbn [j_count invocationCount acceptedCallCount].
  destruct (1 <? Z.max _ _) eqn:E1; destruct (1 <? Z.of_nat (length (eventsOfType _ "provider_call_accepted"))) eqn:E2; destruct (1 <? n) eqn:E3;
    (split; [intros H|intros H1 H]); try done; lia.
Qed.

Lemma ledgerCountProblem_None l : ledgerCountProblem l = None <-> ledger_countable l.
Proof.
  unfold ledgerCountProblem, ledger_countable. destruct (lv_duplicate_transaction_ids l); destruct (lv_pagination_complete l);
    destruct (bool_decide_reflect (lv_status l = ledger_present)); cbn; naive_solver.
Qed.

Lemma unestablished_nil e : flat_map j_unestablished (judgements e) = [] <-> counts_established e.
Proof.
  unfold judgements, counts_established, complete_of. cbn [flat_map]. rewrite app_nil_r, !app_nil.
  unfold invocationCount, acceptedCallCount, transactionCount. cbn [j_unestablished List.filter]. rewrite app_nil.
  rewrite <- (crossChecked_iff (request_ids (probe_starts e)) (request_ids (runner_invocations e))) by apply unique_NoDup.
  rewrite <- ledgerCountProblem_None.
  destruct (complete (subjectArtifactState e "caller_journal")), (complete (subjectArtifactState e "runner_journal")),
    (complete (subjectArtifactState e "provider_journal")), (crossChecked _ _), (ledgerCountProblem _); cbn; naive_solver.
Qed.

Lemma validity_exact e :
  (probe_validity (assessProbeValidity e) = trial_invalid <-> exceeded_workload e)
  /\ (probe_validity (assessProbeValidity e) = trial_valid <-> ~ exceeded_workload e /\ counts_established e).
Proof.
  rewrite <- exceeded_iff, <- unestablished_nil. unfold assessProbeValidity.
  destruct (List.filter _ _); destruct (flat_map j_unestablished _); cbn; naive_solver.
Qed.

Lemma cardinality_given e : cardinality (assessProbeValidity e) = cardinality_of e.
Proof. unfold assessProbeValidity. by destruct (List.filter _ _). Qed.

Lemma transaction_count e state : j_count (transactionCount e state) = set_size (transaction_ids e).
Proof. unfold transactionCount. by destruct (ledgerCountProblem _). Qed.

Lemma length_zero {A} (l : list A) : Z.of_nat (length l) = 0 <-> l = [].
Proof. destruct l; cbn; split; (done || lia). Qed.

Lemma cardinality_cases e :
  (workloadCauses (assessProbeValidity e) = [] <-> (probe_starts e <> [] \/ runner_invocations e <> []) /\ accepted e <> [] /\ transaction_ids e <> [])
  /\ (cardinality_of e = MkCardinality 1 1 1 <-> single_workload e).
Proof.
  pose proof (set_size_cases (transaction_ids e)) as (Ht0 & Ht1 & _ & _).
  assert (Hr : length (request_ids (runner_invocations e)) = 0%nat <-> runner_invocations e = []).
  { rewrite <- request_ids_nil. by destruct (request_ids _). }
  split.
  - unfold workloadCauses. rewrite cardinality_given. unfold cardinality_of, cardinality_entries. cbn [caller_invocations accepted_provider_calls committed_transactions].
    rewrite transaction_count. cbn [invocationCount acceptedCallCount j_count List.filter snd]. fold (accepted e).
    rewrite <- Ht0, <- (length_zero (accepted e)), <- Hr, <- (length_zero (probe_starts e)).
    repeat case_bool_decide; cbn; split; intros; try done; lia.
  - unfold cardinality_of, single_workload. rewrite transaction_count, <- Ht1. cbn [invocationCount acceptedCallCount j_count]. fold (accepted e).
    rewrite <- Hr, <- (length_zero (probe_starts e)). split; [intros [= H1 H2 H3]; lia|]. intros (H1 & H2 & H3 & H4 & H5). f_equal; lia.
Qed.

Lemma single_of_bounds e : ~ exceeded_workload e -> workloadCauses (assessProbeValidity e) = [] -> single_workload e.
Proof.
  intros Hx (Hs & Ha & Ht)%cardinality_cases. unfold exceeded_workload in Hx. unfold single_workload.
  assert (length (accepted e) <> 0%nat) by (by destruct (accepted e)). split_and!; try done; try lia.
  destruct (transaction_ids e) as [|t l] eqn:E; [done|]. exists t. intros x. split; [|intros ->; left].
  intros Hin. destruct (decide (x = t)); [done|]. destruct Hx. do 3 right. exists x, t. split_and!; [done|left|done].
Qed.

(** ** The evidence *)

(** The ledger is complete, repeats no transaction and was read consistently. *)
Definition ledger_sound (e : IngestedEvidence) : Prop :=
  ledger_countable (ledger e) /\ option_map ls_consistent_read (ledger_record e) = Some true.

(** The runner's last settlement judgement is the one its frozen samples give, counted from the first invocation of the workload. *)
Definition settlement_reproduced (e : IngestedEvidence) : Prop :=
  complete_of e "settlement_samples" /\ is_Some (as_ref (subjectArtifactState e "runner_journal"))
  /\ exists published runner w est rech restarts, head (runner_invocations e) = Some published
     /\ last (eventsOfType (partitionEvents e) "settlement_assessed") = Some runner
     /\ eventString runner "status" = Some "established"
     /\ Settlement.evaluateSettlement (map l_record (o_settlement_samples (observations e))) Settlement.PROBE_SETTLEMENT_POLICY
          (instant (text_in published "occurred_at")) = Settlement.established w est rech restarts
     /\ eventString runner "window_start" = Some (Utc.toISOString w) /\ eventString runner "established_at" = Some (Utc.toISOString est)
     /\ eventString runner "rechecked_at" = Some (Utc.toISOString rech).

Definition evidence_sound (e : IngestedEvidence) : Prop :=
  value (IngestionGates.assessEvidenceIntegrity e) = verified /\ value (IngestionGates.assessTraceability e) = verified
  /\ value (IngestionGates.assessIdentityIntegrity e) = verified /\ ledger_sound e /\ settlement_reproduced e.

Lemma gateCauses_nil g causes refs : gateCauses (assembleGate g causes refs) = [] <-> value (assembleGate g causes refs) = verified.
Proof.
  unfold assembleGate, gateCauses. set (deciding := match List.filter _ _ with [] => causes | _ => _ end). clearbody deciding.
  destruct deciding as [|c deciding]; [done|]. cbn [value reasons].
  by destruct (cause_value c); (split; [intros H%map_eq_nil; apply (proj1 (mergeReasons_nil _)) in H|]).
Qed.

Lemma ledger_gate e : value (assessProbeLedgerAccess e) = verified <-> ledger_sound e.
Proof.
  unfold assessProbeLedgerAccess, ledger_sound, ledger_countable. cbv zeta.
  destruct (bool_decide_reflect (lv_status (ledger e) = ledger_present)) as [Hs|Hs]; cbn [negb]; rewrite assembleGate_verified; [|naive_solver].
  rewrite !app_nil. destruct (lv_duplicate_transaction_ids (ledger e)), (lv_pagination_complete (ledger e));
    destruct (bool_decide_reflect (option_map ls_consistent_read (ledger_record e) = Some true)); cbn; naive_solver.
Qed.

Lemma missing_nil f : missingCauses f = [] <->
  complete (pf_samples f) = true /\ is_Some (as_ref (pf_runner f)) /\ is_Some (invoked f) /\ is_Some (assessed f).
Proof.
  unfold missingCauses. rewrite app_nil. destruct (complete _), (as_ref _), (invoked f), (assessed f); cbn; rewrite ?is_Some_alt; naive_solver.
Qed.

Lemma rederivation_nil derived runner at_ refs : rederivationCauses derived runner at_ refs = [] <->
  exists w est rech restarts, derived = Settlement.established w est rech restarts /\ Oracle.agrees runner w est rech = true.
Proof.
  unfold rederivationCauses. destruct derived as [w est rech restarts|rs restarts].
  - destruct (Oracle.agrees runner w est rech) eqn:E; (split; [intros H; try done|]); [by exists w, est, rech, restarts|done|].
    intros (w' & est' & rech' & rs' & [= -> -> -> ->] & H). congruence.
  - split; [done|]. by intros (? & ? & ? & ? & ? & _).
Qed.

Lemma settlement_nil e : probeSettlementCauses e = [] <-> settlement_reproduced e.
Proof.
  unfold probeSettlementCauses, settlement_reproduced, complete_of. cbv zeta.
  pose proof (missing_nil (settlement_facts e)) as Hm. cbn [pf_samples pf_runner invoked assessed settlement_facts] in Hm.
  fold (runner_invocations e) in Hm. change (assessed (settlement_facts e)) with (last (eventsOfType (partitionEvents e) "settlement_assessed")).
  change (invoked (settlement_facts e)) with (head (runner_invocations e)).
  destruct (last _) as [runner|].
  2: { rewrite Hm. split; [intros (_ & _ & _ & [? ?])|intros (_ & _ & ? & ? & ? & ? & ? & ? & _ & ? & _)]; done. }
  destruct (bool_decide_reflect (eventString runner "status" = Some "established")) as [Hst|Hst]; cbn [negb].
  2: { rewrite app_nil. naive_solver. }
  destruct (missingCauses _) as [|c cs] eqn:E.
  - destruct Hm as [Hm _]. destruct (Hm eq_refl) as (Hc & Hr & [published Hp] & _). rewrite Hp, rederivation_nil. unfold Oracle.agrees.
    setoid_rewrite andb_true_iff. setoid_rewrite andb_true_iff. setoid_rewrite bool_decide_eq_true. naive_solver.
  - split; [by destruct (head _)|]. intros (Hc & Hr & published & runner' & ? & ? & ? & ? & Hp & _). destruct Hm as [_ Hm].
    apply Hm. rewrite Hp. by split_and!.
Qed.

Lemma applicable_verified g causes refs : value (assembleApplicableGate g causes refs) = verified <-> causes = [].
Proof.
  unfold assembleApplicableGate. cbn [value]. destruct causes as [|c l]; [done|]. by destruct (existsb _ _).
Qed.

Lemma integrity_verified e : value (assessProbeEvidenceIntegrity e (assessProbeValidity e)) = verified <->
  evidence_sound e /\ workloadCauses (assessProbeValidity e) = [].
Proof.
  unfold assessProbeEvidenceIntegrity. rewrite applicable_verified. unfold integrity_gates, evidence_sound. cbn [flat_map].
  rewrite app_nil_r, !app_nil. unfold IngestionGates.assessEvidenceIntegrity, IngestionGates.assessTraceability, IngestionGates.assessIdentityIntegrity.
  cbv zeta. rewrite !gateCauses_nil, settlement_nil.
  assert (Hl : gateCauses (assessProbeLedgerAccess e) = [] <-> ledger_sound e).
  { rewrite <- ledger_gate. unfold assessProbeLedgerAccess. cbv zeta. destruct (negb _); apply gateCauses_nil. }
  rewrite Hl. tauto.
Qed.

(** ** The verdict *)

Definition fails_alone (c : ConditionResult) : Prop := c_result c = v_fail /\ affected_by c = [].

Lemma verdict_exact v conditions integrity :
  (deriveProbeVerdict v conditions integrity = v_fail <-> v <> trial_invalid /\ Exists fails_alone conditions)
  /\ (deriveProbeVerdict v conditions integrity = v_pass <->
        v <> trial_invalid /\ Forall (fun c => c_result c = v_pass) conditions /\ integrity = verified).
Proof.
  unfold deriveProbeVerdict. destruct (bool_decide_reflect (v = trial_invalid)) as [Hv|Hv]; [naive_solver|].
  destruct (existsb _ conditions) eqn:Ex.
  - apply existsb_true in Ex as (c & Hc & [H1%bool_decide_eq_true H2%bool_decide_eq_true]%andb_true_iff). split; [|split; [done|]].
    + split; [|done]. intros _. split; [done|]. apply Exists_exists. by exists c.
    + intros (_ & Hp & _). rewrite Forall_forall in Hp. specialize (Hp c Hc). congruence.
  - assert (Hn : ~ Exists fails_alone conditions).
    { intros (c & Hc & H1 & H2)%Exists_exists. rewrite existsb_false in Ex. specialize (Ex c Hc). cbn beta in Ex.
      by rewrite bool_decide_eq_true_2, bool_decide_eq_true_2 in Ex. }
    assert (Hf : forallb (fun c => bool_decide (c_result c = v_pass)) conditions = true <-> Forall (fun c => c_result c = v_pass) conditions).
    { rewrite forallb_forall, Forall_forall. setoid_rewrite <- list_elem_of_In. setoid_rewrite bool_decide_eq_true. done. }
    rewrite <- Hf. destruct (forallb _ _), (bool_decide_reflect (integrity = verified)); cbn; naive_solver.
Qed.

(** The outcome of the record is the verdict derived: a pass always carries the expected cardinality. *)
Lemma outcome_is_verdict e conditions :
  let v := assessProbeValidity e in let i := value (assessProbeEvidenceIntegrity e v) in
  verdictOutcome (deriveProbeVerdict (probe_validity v) conditions i) (probe_validity v) (cardinality v) i
  = deriveProbeVerdict (probe_validity v) conditions i.
Proof.
  cbv zeta. set (d := deriveProbeVerdict _ _ _). unfold verdictOutcome. pose proof (verdict_exact (probe_validity (assessProbeValidity e)) conditions
    (value (assessProbeEvidenceIntegrity e (assessProbeValidity e)))) as [Hf Hp]. fold d in Hf, Hp.
  destruct (bool_decide_reflect (d = v_pass)) as [E|E].
  - rewrite E. apply Hp in E as (Hv & _ & Hi). rewrite bool_decide_eq_false_2 by done. rewrite bool_decide_eq_true_2 by done.
    apply integrity_verified in Hi as [_ Hw]. rewrite (proj1 (validity_exact e)) in Hv. rewrite cardinality_given. unfold isExpectedCardinality.
    by rewrite bool_decide_eq_true_2 by (apply cardinality_cases, single_of_bounds; done).
  - cbn [andb]. destruct (bool_decide_reflect (d = v_fail)) as [E'|E'].
    + apply Hf in E' as Hv. destruct Hv as [Hv _]. by rewrite bool_decide_eq_false_2.
    + cbn [andb]. by destruct d.
Qed.

(** C11: the verdict of a transport probe is exactly the one its evidence supports. The result is refused exactly when the evidence
    names no transport probe with its manifest, or has no treatment view. Otherwise the verdict is pass iff each of the six
    conditions passes, the evidence holds exactly one caller invocation, one accepted call and one transaction, evidence
    integrity, traceability and identity integrity are verified, the ledger is complete, consistent and repeats nothing, and the
    frozen samples reproduce the settlement the runner judged; it is fail iff no count is above one and a condition fails on
    evidence no finding touches; the cardinality is 1/1/1 iff the workload ran once; and the probe is valid iff no count is above
    one and each is established, the caller having started exactly the requests the runner invoked. *)
Theorem probe_verdict_exact (e : IngestedEvidence) (checked_at : string) :
  match buildProbeResult e checked_at with
  | Err rs => rs <> [] /\ ((forall probe, sc_execution (scope e) <> Some (id_transport_probe probe)) \/ sc_execution_manifest_sha256 (scope e) = None
                          \/ buildTreatmentView e = Err rs)
  | Ok r => exists view, buildTreatmentView e = Ok view
     /\ sc_execution (scope e) = Some (id_transport_probe (pr_transport_probe_id r))
     /\ sc_execution_manifest_sha256 (scope e) = Some (pr_execution_manifest_sha256 r)
     /\ (transport_probe_verdict r = v_pass <->
           Forall (fun c => c_result c = v_pass) (evaluateTreatmentConditions view) /\ single_workload e /\ evidence_sound e)
     /\ (transport_probe_verdict r = v_fail <-> ~ exceeded_workload e /\ Exists fails_alone (evaluateTreatmentConditions view))
     /\ (probe_cardinality r = MkCardinality 1 1 1 <-> single_workload e)
     /\ (pr_probe_validity r = trial_valid <-> ~ exceeded_workload e /\ counts_established e)
  end.
Proof.
  unfold buildProbeResult. destruct (sc_execution (scope e)) as [[run|probe|vv]|]; try (split; [done|]; left; naive_solver).
  destruct (sc_execution_manifest_sha256 (scope e)) as [m|]; [|split; [done|]; right; by left].
  destruct (buildTreatmentView e) as [view|rs] eqn:Hv; cbn [bind_result].
  2: { split; [|by do 2 right]. unfold buildTreatmentView in Hv. destruct (Fidelity.scenarioRefusal e); [by injection Hv as <-|done]. }
  exists view. cbn [transport_probe_verdict pr_transport_probe_id pr_execution_manifest_sha256 probe_cardinality pr_probe_validity].
  rewrite outcome_is_verdict, cardinality_given. destruct (validity_exact e) as [Hi Hva].
  destruct (verdict_exact (probe_validity (assessProbeValidity e)) (evaluateTreatmentConditions view)
    (value (assessProbeEvidenceIntegrity e (assessProbeValidity e)))) as [Hf Hp].
  rewrite Hf, Hp, integrity_verified, Hi. do 3 (split; [done|]). split; [|split; [done|split; [apply cardinality_cases|done]]]. split.
  - intros (Hx & Hc & Hs & Hw). split; [done|]. split; [by apply single_of_bounds|done].
  - intros (Hc & Hw & Hs). split; [|split; [done|split; [done|]]].
    + destruct Hw as (H1 & H2 & _ & H4 & [t Ht]). intros [?|[?|[?|(a & b & Ha & Hb & Hne)]]]; [lia..|].
      apply Ht in Ha, Hb. congruence.
    + apply cardinality_cases. destruct Hw as (_ & _ & H3 & H4 & [t Ht]). split; [done|]. split; [by destruct (accepted e)|].
      intros E. pose proof (proj2 (Ht t) eq_refl) as Hin. rewrite E in Hin. by apply not_elem_of_nil in Hin.
Qed.

(** ** Usability *)

Section usability.
Context (JSON_parse : string -> Result json string) (sha256Hex : list Z -> string) (validator : Ingestion.RecordValidator) (digest : list Z -> string).

(** The file at [path] is a valid record [v] of [type], and [sha] the digest of its bytes. *)
Definition stored (files : list Package.PackageFile) (path type : string) (v : json) (sha : string) : Prop :=
  exists f, Package.fileAt files path = Some f /\ Parsing.parseJsonDocument JSON_parse (Package.f_bytes f) = Ok v
    /\ Ingestion.validateAs validator type v = Ingestion.record_valid /\ sha = digest (Package.f_bytes f).

(** The record [v] stored in the amendment known by the digest of its index. *)
Definition amended (link : Amendments.AmendmentLink) (amendments : list Amendments.AmendmentSnapshot) (path type : string) (v : json) : Prop :=
  exists s sha, find_first (fun s => match Package.fileAt (Amendments.as_files s) Package.AMENDMENT_INDEX with
                    | Some index => bool_decide (digest (Package.f_bytes index) = Amendments.lk_amendment_index_sha256 link) | None => false end) amendments = Some s
    /\ stored (Amendments.as_files s) path type v sha.

Definition late_kind (link : Amendments.AmendmentLink) : Prop :=
  Amendments.lk_amendment_kind link = Package.LATE_EVIDENCE \/ Amendments.lk_amendment_kind link = Package.REASSESSMENT.

(** The assessment of late evidence in force: the last selected one, else the summary's. *)
Definition late_in_force (chain : list Amendments.AmendmentLink) (amendments : list Amendments.AmendmentSnapshot) (summary : json) (status : string) : Prop :=
  (Forall (fun l => ~ late_kind l) chain /\ Ingestion.textOf summary "late_evidence_status" = status)
  \/ exists earlier link later assessment, chain = earlier ++ link :: later /\ late_kind link /\ Forall (fun l => ~ late_kind l) later
       /\ amended link amendments Package.LATE_EVIDENCE_ASSESSMENT "late_evidence_assessment" assessment
       /\ Ingestion.textOf assessment "late_evidence_status" = status.

Lemma read_stored files path type r : readProbeRecord JSON_parse validator digest files path type = Some r <->
  stored files path type (stored_record r) (stored_sha256 r).
Proof.
  unfold readProbeRecord, stored. destruct (Package.fileAt files path) as [f|]; cbn [mbind option_bind]; [|naive_solver].
  destruct (Parsing.parseJsonDocument JSON_parse _) as [v|] eqn:Ep; [destruct (Ingestion.validateAs validator type v) eqn:Ev|].
  2-3: split; [done|]; intros (f' & [= <-] & Hp & Hv & _); congruence.
  split; [intros [= <-]; by exists f|]. intros (f' & [= <-] & Hp & _ & Hsha). destruct r as [rec sha]. cbn in *. congruence.
Qed.

Lemma read_amended link amendments path type v :
  readAmendmentRecord JSON_parse validator digest (Amendments.lk_amendment_index_sha256 link) amendments path type = Some v <->
  amended link amendments path type v.
Proof.
  unfold readAmendmentRecord, amended. destruct (find_first _ amendments) as [s|]; cbn [mbind option_bind]; [|naive_solver].
  destruct (readProbeRecord _ _ _ _ _ _) as [r|] eqn:E; cbn [option_map].
  - split.
    + intros [= <-]. exists s, (stored_sha256 r). split; [done|]. by apply read_stored.
    + intros (s' & sha & [= <-] & H). apply (read_stored _ _ _ (MkStored v sha)) in H. rewrite E in H. by injection H as ->.
  - split; [done|]. intros (s' & sha & [= <-] & H). apply (read_stored _ _ _ (MkStored v sha)) in H. congruence.
Qed.

Lemma links_of_late link : memb (Amendments.lk_amendment_kind link) [Package.LATE_EVIDENCE; Package.REASSESSMENT] = true <-> late_kind link.
Proof. rewrite memb_true. unfold late_kind. set_solver. Qed.

Lemma last_late chain :
  match last (links_of [Package.LATE_EVIDENCE; Package.REASSESSMENT] chain) with
  | None => Forall (fun l => ~ late_kind l) chain
  | Some link => exists earlier later, chain = earlier ++ link :: later /\ late_kind link /\ Forall (fun l => ~ late_kind l) later
  end.
Proof.
  unfold links_of. induction chain as [|l chain IH] using rev_ind; [constructor|]. rewrite List.filter_app. cbn [List.filter].
  pose proof (links_of_late l) as Hl. destruct (memb _ _).
  - rewrite last_snoc. exists chain, []. split_and!; [done|by apply Hl|constructor].
  - rewrite app_nil_r. assert (~ late_kind l) by (intros H; apply Hl in H; discriminate H). destruct (last _) as [link|].
    + destruct IH as (earlier & later & -> & Hk & Hlater). exists earlier, (later ++ [l]). rewrite <- app_assoc. cbn.
      split_and!; [done..|]. by apply Forall_app; split; [|repeat constructor].
    + by apply Forall_app; split; [|repeat constructor].
Qed.

Lemma frozen_result probe files summary r :
  frozenResult JSON_parse validator digest probe files summary = Some r <->
  stored files PROBE_RESULT_PATH "transport_probe_result" (stored_record r) (stored_sha256 r)
  /\ (exists s, summary = Some s /\ ownString s "probe_result_sha256" = Some (stored_sha256 r))
  /\ ownString (stored_record r) "transport_probe_id" = Some probe.
Proof.
  unfold frozenResult. rewrite <- read_stored. destruct (readProbeRecord _ _ _ _ _ _) as [r'|]; [|naive_solver].
  destruct (bool_decide_reflect ((s ← summary; ownString s "probe_result_sha256") = Some (stored_sha256 r'))) as [Hs|Hs]; cbn [andb].
  - destruct (bool_decide_reflect (ownString (stored_record r') "transport_probe_id" = Some probe)) as [Hp|Hp].
    + split; [intros [= <-]|by intros [[= <-] _]]. split; [done|]. split; [|done]. destruct summary as [s|]; [by exists s|done].
    + split; [done|]. intros ([= <-] & _ & ?). done.
  - split; [done|]. intros ([= <-] & (s & -> & ?) & _). done.
Qed.

Lemma scope_snapshot files sc : indexedScopeSnapshot JSON_parse validator digest files = Some sc <->
  stored files SCOPE_PATH "transport_scope_snapshot" (stored_record sc) (stored_sha256 sc)
  /\ exists index sha entry, stored files (Package.path_of "packageIndex") "package_index" index sha
       /\ entry ∈ Ingestion.itemsOf index "entries" /\ ownString entry "artifact_path" = Some SCOPE_PATH.
Proof.
  unfold indexedScopeSnapshot. rewrite <- read_stored. destruct (readProbeRecord _ _ _ _ (Package.path_of _) _) as [index|] eqn:Ei.
  - apply read_stored in Ei as Hi. destruct (existsb _ _) eqn:Ee.
    + apply existsb_true in Ee as (entry & Hin & He%bool_decide_eq_true). split; [|by intros []]. intros H. split; [done|]. by exists (stored_record index), (stored_sha256 index), entry.
    + split; [done|]. intros [_ (v & sha & entry & Hv & Hin & He)]. apply (read_stored _ _ _ (MkStored v sha)) in Hv. rewrite Ei in Hv. injection Hv as ->.
      rewrite existsb_false in Ee. specialize (Ee entry Hin). by rewrite bool_decide_eq_true_2 in Ee.
  - split; [done|]. intros [_ (v & sha & _ & Hv & _)]. apply (read_stored _ _ _ (MkStored v sha)) in Hv. congruence.
Qed.

Lemma rows_nil (input : ProbeUsabilityInput) : unmetRows input = [] <->
  of_transport_probe_verdict (ui_probe input) = "pass" /\ of_probe_validity (ui_probe input) = "valid" /\ of_treatment_fidelity (ui_probe input) = "verified"
  /\ of_evidence_integrity (ui_probe input) = "verified"
  /\ (ui_late_evidence_status input = "none" \/ ui_late_evidence_status input = "consistent")
  /\ Amendments.effective_cleanup_status (ui_closure input) = Some Amendments.succeeded
  /\ Amendments.effective_leak_audit_status (ui_closure input) = Some Amendments.clean
  /\ Amendments.effective_lease_status (ui_closure input) = LeaseHealth.released
  /\ ui_safety_status input <> "breached" /\ ui_package_eligibility input = Amendments.eligible /\ is_Some (ui_transport_scope_snapshot_sha256 input).
Proof.
  unfold unmetRows, lateEvidenceRow. rewrite !app_nil.
  assert (Hu : forall b c d, unmet b c d = [] <-> b = true) by (by intros [] c d).
  rewrite !Hu, negb_true_iff, !andb_true_iff, bool_decide_eq_false, !bool_decide_eq_true.
  assert (Hc : effective_cleanup_text (ui_closure input) = "succeeded" <-> Amendments.effective_cleanup_status (ui_closure input) = Some Amendments.succeeded).
  { unfold effective_cleanup_text. by destruct (Amendments.effective_cleanup_status _) as [[]|]. }
  assert (Hk : effective_leak_text (ui_closure input) = "clean" <-> Amendments.effective_leak_audit_status (ui_closure input) = Some Amendments.clean).
  { unfold effective_leak_text. by destruct (Amendments.effective_leak_audit_status _) as [[]|]. }
  assert (Hl : effective_lease_text (ui_closure input) = "released" <-> Amendments.effective_lease_status (ui_closure input) = LeaseHealth.released).
  { unfold effective_lease_text. by destruct (Amendments.effective_lease_status _). }
  rewrite Hc, Hk, Hl. destruct (bool_decide_reflect (ui_late_evidence_status input = "none")), (bool_decide_reflect (ui_late_evidence_status input = "consistent"));
    cbn [orb]; naive_solver.
Qed.

(** What a probe must show to be selected. *)
Definition selectable (probe : string) (input : PackageVerifier.PackageVerificationInput) (v : Amendments.PackageVerification) : Prop :=
  let files := stored_files input in
  let chain := Amendments.pv_selected_chain v in
  let amendments := PackageVerifier.vi_amendments input in
  Amendments.package_eligibility v = Amendments.eligible
  /\ (exists summary summary_sha result result_sha,
        stored files SUMMARY_PATH "transport_probe_summary" summary summary_sha
        /\ stored files PROBE_RESULT_PATH "transport_probe_result" result result_sha
        /\ ownString summary "probe_result_sha256" = Some result_sha /\ ownString result "transport_probe_id" = Some probe
        /\ Ingestion.textOf result "transport_probe_verdict" = "pass" /\ Ingestion.textOf result "probe_validity" = "valid"
        /\ Ingestion.textOf result "treatment_fidelity" = "verified" /\ Ingestion.textOf result "evidence_integrity" = "verified"
        /\ (exists status, late_in_force chain amendments summary status /\ (status = "none" \/ status = "consistent"))
        /\ (exists changed, Amendments.effectiveOperationalState JSON_parse validator digest v (summary_closure summary) amendments
                            = Amendments.MkEffective (Some Amendments.succeeded) (Some Amendments.clean) LeaseHealth.released changed)
        /\ Ingestion.textOf summary "safety_status" <> "breached")
  /\ (forall link bill, link ∈ chain -> Amendments.lk_amendment_kind link = Package.BILLING ->
        amended link amendments Package.BILLING_IMPORT "billing_import" bill -> Ingestion.textOf bill "billed_cost_check" <> "breached")
  /\ (exists snapshot snapshot_sha index index_sha entry,
        stored files SCOPE_PATH "transport_scope_snapshot" snapshot snapshot_sha
        /\ stored files (Package.path_of "packageIndex") "package_index" index index_sha
        /\ entry ∈ Ingestion.itemsOf index "entries" /\ ownString entry "artifact_path" = Some SCOPE_PATH).

Lemma late_status chain amendments summary status : status = "none" \/ status = "consistent" ->
  lateEvidenceStatus JSON_parse validator digest chain amendments (Some summary) = status <-> late_in_force chain amendments summary status.
Proof.
  intros Hs. unfold lateEvidenceStatus, late_in_force. pose proof (last_late chain) as Hl. destruct (last _) as [link|]; cbn [option_map nullish].
  - destruct Hl as (earlier & later & -> & Hk & Hlater). split.
    + intros H. right. exists earlier, link, later. destruct (readAmendmentRecord _ _ _ _ _ _ _) as [a|] eqn:Ea; cbn in H; [|naive_solver].
      apply read_amended in Ea. by exists a.
    + intros [[Hn _]|(earlier' & link' & later' & a & Heq & Hk' & Hlater' & Ha & Hst)].
      { apply Forall_app in Hn as [_ Hn]. by apply Forall_cons in Hn as [Hn _]. }
      assert (link' = link) as ->; [|apply read_amended in Ha; by rewrite Ha].
      assert (He : forall later l1, Forall (fun l => ~ late_kind l) later -> late_kind l1 -> forall e1,
                last (links_of [Package.LATE_EVIDENCE; Package.REASSESSMENT] (e1 ++ l1 :: later)) = Some l1).
      { intros lt l1 Hf Hl1 e1. unfold links_of. rewrite List.filter_app. cbn [List.filter]. rewrite (proj2 (links_of_late l1)) by done.
        assert (List.filter (fun l => memb (Amendments.lk_amendment_kind l) [Package.LATE_EVIDENCE; Package.REASSESSMENT]) lt = []) as ->.
        { induction Hf as [|x lt Hx Hf IH]; [done|]. cbn [List.filter]. destruct (memb _ _) eqn:E; [|done]. by apply links_of_late in E. }
        by rewrite last_snoc. }
      pose proof (He later' link' Hlater' Hk' earlier') as H1. rewrite <- Heq, (He later link Hlater Hk earlier) in H1. by injection H1.
  - split; [intros H; by left|]. intros [[_ H]|(earlier & link & later & _ & -> & Hk & _)]; [done|].
    apply Forall_app in Hl as [_ Hl]. by apply Forall_cons in Hl as [Hl _].
Qed.

Lemma safety_known chain amendments summary : safetyStatus JSON_parse validator digest chain amendments (Some summary) <> "breached" <->
  Ingestion.textOf summary "safety_status" <> "breached"
  /\ forall link bill, link ∈ chain -> Amendments.lk_amendment_kind link = Package.BILLING ->
       amended link amendments Package.BILLING_IMPORT "billing_import" bill -> Ingestion.textOf bill "billed_cost_check" <> "breached".
Proof.
  unfold safetyStatus. destruct (existsb _ _) eqn:E; cbn [option_map nullish].
  - apply existsb_true in E as (link & Hin & Hb%bool_decide_eq_true). apply elem_of_filter_bool in Hin as [Hin Hk%memb_true%list_elem_of_singleton].
    split; [done|]. intros [_ H]. destruct (readAmendmentRecord _ _ _ _ _ _ _) as [bill|] eqn:Er; [|done]. injection Hb as Hb. apply read_amended in Er.
    by destruct (H link bill).
  - rewrite existsb_false in E. split; [intros H; split; [done|]|by intros [H _]]. intros link bill Hin Hk Ha Hb.
    assert (Hl : link ∈ links_of [Package.BILLING] chain) by (apply elem_of_filter_bool; split; [done|]; apply memb_true; rewrite Hk; left).
    specialize (E link Hl). apply read_amended in Ha. unfold breached_import in E. rewrite Ha in E. cbn in E. by rewrite Hb in E.
Qed.

Lemma verified_package input : exists v, PackageVerifier.verifyPackage JSON_parse sha256Hex validator digest input = Ok v.
Proof.
  unfold PackageVerifier.verifyPackage. destruct (PackageVerifier.readPackageIndex _ _ _) as [index|e]; [|by eexists].
  unfold PackageVerifier.indexedPackageReasons.
  destruct (PackageVerifierCorrect.nestedIndexReasons_total JSON_parse sha256Hex validator digest (stored_files input)) as [r Hr].
  unfold stored_files in Hr. rewrite Hr. by eexists.
Qed.

Lemma scope_known files : is_Some (option_map stored_sha256 (indexedScopeSnapshot JSON_parse validator digest files)) <->
  exists snapshot snapshot_sha index index_sha entry, stored files SCOPE_PATH "transport_scope_snapshot" snapshot snapshot_sha
    /\ stored files (Package.path_of "packageIndex") "package_index" index index_sha
    /\ entry ∈ Ingestion.itemsOf index "entries" /\ ownString entry "artifact_path" = Some SCOPE_PATH.
Proof.
  pose proof (scope_snapshot files) as Hs. destruct (indexedScopeSnapshot _ _ _ _) as [sc|]; cbn [option_map].
  - split; [|by eexists]. intros _. destruct (proj1 (Hs sc) eq_refl) as (H & index & sha & entry & Hi).
    by exists (stored_record sc), (stored_sha256 sc), index, sha, entry.
  - split; [by intros []|]. intros (v & sha & index & isha & entry & Hv & Hi & He). exfalso.
    enough (@None StoredProbeRecord = Some (MkStored v sha)) by done. apply Hs. split; [done|]. by exists index, isha, entry.
Qed.

Lemma closed_cleanly (c : Amendments.EffectiveOperationalState) :
  (Amendments.effective_cleanup_status c = Some Amendments.succeeded /\ Amendments.effective_leak_audit_status c = Some Amendments.clean
   /\ Amendments.effective_lease_status c = LeaseHealth.released)
  <-> exists changed, c = Amendments.MkEffective (Some Amendments.succeeded) (Some Amendments.clean) LeaseHealth.released changed.
Proof.
  destruct c as [cl lk ls ch]. cbn. split; [intros (-> & -> & ->); by exists ch|]. by intros [ch' [= -> -> -> ->]].
Qed.

(** The result is the frozen one, and what it says is the facts. *)
Lemma facts_of_frozen probe files sm : stored files SUMMARY_PATH "transport_probe_summary" (stored_record sm) (stored_sha256 sm) ->
  let facts := match frozenResult JSON_parse validator digest probe files (Some (stored_record sm)) with
               | None => UNKNOWN_PROBE | Some r => outcomeFacts (stored_record r) end in
  (of_transport_probe_verdict facts = "pass" /\ of_probe_validity facts = "valid" /\ of_treatment_fidelity facts = "verified"
   /\ of_evidence_integrity facts = "verified")
  <-> exists result result_sha, stored files PROBE_RESULT_PATH "transport_probe_result" result result_sha
        /\ ownString (stored_record sm) "probe_result_sha256" = Some result_sha /\ ownString result "transport_probe_id" = Some probe
        /\ Ingestion.textOf result "transport_probe_verdict" = "pass" /\ Ingestion.textOf result "probe_validity" = "valid"
        /\ Ingestion.textOf result "treatment_fidelity" = "verified" /\ Ingestion.textOf result "evidence_integrity" = "verified".
Proof.
  intros _. cbv zeta. pose proof (frozen_result probe files (Some (stored_record sm))) as Hr. destruct (frozenResult _ _ _ _ _ _) as [r|].
  - destruct (proj1 (Hr r) eq_refl) as (Hst & (s & [= <-] & Hs) & Hp). cbn [outcomeFacts of_transport_probe_verdict of_probe_validity of_treatment_fidelity of_evidence_integrity].
    split; [intros H; by exists (stored_record r), (stored_sha256 r)|]. intros (res & sha & Hst' & Hs' & Hp' & H).
    destruct Hst as (f & Hf & Hv & _), Hst' as (f' & Hf' & Hv' & _). rewrite Hf in Hf'. injection Hf' as <-. rewrite Hv in Hv'. by injection Hv' as <-.
  - cbn. split; [by intros [? _]|]. intros (res & sha & Hst & Hs & Hp & _). exfalso. enough (@None StoredProbeRecord = Some (MkStored res sha)) by done.
    apply Hr. split; [done|]. split; [|done]. by exists (stored_record sm).
Qed.

(** C12: a probe may be selected exactly when its stored package shows it. Reading the facts of a probe package and judging them
    always returns, and the answer is usable iff the package with the selected amendments is eligible; the result its summary
    names by digest is this probe's and is a valid, faithful, verified pass; the late evidence in force, the last selected
    assessment or else the summary's, is none or consistent; the closure after the selected recoveries is succeeded, clean and
    released; neither the summary nor any selected billing import says breached; and the transport-scope snapshot is stored,
    indexed and readable. The answer carries a reason exactly when it is not usable. *)
Theorem probe_usable_iff (probe : string) (input : PackageVerifier.PackageVerificationInput) :
  exists v facts, PackageVerifier.verifyPackage JSON_parse sha256Hex validator digest input = Ok v
  /\ readProbeUsabilityInput JSON_parse sha256Hex validator digest probe input = Ok facts
  /\ (probe_usable (assessProbeUsability facts) = true <-> selectable probe input v)
  /\ (probe_usable (assessProbeUsability facts) = true <-> usability_reasons (assessProbeUsability facts) = []).
Proof.
  destruct (verified_package input) as [v Hv]. unfold readProbeUsabilityInput. rewrite Hv. cbn [bind_result]. exists v. eexists.
  do 2 (split; [done|]).
  assert (Hu : forall facts, probe_usable (assessProbeUsability facts) = true <-> unmetRows facts = []).
  { intros facts. unfold assessProbeUsability. cbn [probe_usable]. by destruct (unmetRows facts). }
  split; [|apply Hu]. rewrite Hu, rows_nil. cbn [ui_probe ui_late_evidence_status ui_closure ui_safety_status ui_package_eligibility ui_transport_scope_snapshot_sha256].
  unfold selectable. cbv zeta. unfold effectiveClosure.
  pose proof (read_stored (stored_files input) SUMMARY_PATH "transport_probe_summary") as Hsum.
  destruct (readProbeRecord _ _ _ _ SUMMARY_PATH _) as [sm|]; cbn [option_map].
  - pose proof (proj1 (Hsum sm) eq_refl) as Hst. pose proof (facts_of_frozen probe (stored_files input) sm Hst) as Hf. cbv zeta in Hf.
    set (facts := match frozenResult _ _ _ _ _ _ with Some _ => _ | None => _ end) in *. clearbody facts.
    pose proof (closed_cleanly (Amendments.effectiveOperationalState JSON_parse validator digest v (summary_closure (stored_record sm)) (PackageVerifier.vi_amendments input))) as Hc.
    pose proof (safety_known (Amendments.pv_selected_chain v) (PackageVerifier.vi_amendments input) (stored_record sm)) as Hs.
    pose proof (scope_known (stored_files input)) as Hk.
    pose proof (late_status (Amendments.pv_selected_chain v) (PackageVerifier.vi_amendments input) (stored_record sm)) as Hl.
    split.
    + intros (H1 & H2 & H3 & H4 & H5 & H6 & H7 & H8 & H9 & H10 & H11). destruct (proj1 Hf) as (res & sha & Hres & Hrs & Hid & Ht); [done|].
      apply Hs in H9 as [Hss Hb]. split; [done|]. split; [|split; [done|by apply Hk]].
      exists (stored_record sm), (stored_sha256 sm), res, sha. repeat (split; [tauto|]). split; [|split; [by apply Hc|done]].
      eexists. split; [by apply Hl|done].
    + intros (H10 & (sum & sum_sha & res & sha & Hsm & Hres & Hrs & Hid & Ht1 & Ht2 & Ht3 & Ht4 & (status & Hla & Hok) & Hcl & Hss) & Hb & Hsc).
      assert (Some sm = Some (MkStored sum sum_sha)) as [= ->] by by apply Hsum. cbn [stored_record stored_sha256] in *.
      apply Hc in Hcl as (Hc1 & Hc2 & Hc3). assert (Hfa : of_transport_probe_verdict facts = "pass" /\ of_probe_validity facts = "valid"
        /\ of_treatment_fidelity facts = "verified" /\ of_evidence_integrity facts = "verified") by (apply Hf; by exists res, sha).
      destruct Hfa as (F1 & F2 & F3 & F4). repeat (split; [done|]). split; [apply Hl in Hla; [by rewrite Hla|done]|].
      repeat (split; [done|]). split; [by apply Hs|]. split; [done|by apply Hk].
  - split; [by intros (_ & _ & _ & _ & _ & ? & _)|]. intros (_ & (sum & sum_sha & _ & _ & Hsm & _) & _). exfalso.
    enough (@None StoredProbeRecord = Some (MkStored sum sum_sha)) by done. by apply Hsum.
Qed.
End usability.

(** ** A probe that passes *)

Definition probe_event (journal : string) (n : Z) (id type source : string) (members : list (string * json)) : IndexedEvent :=
  MkEvent ([("event_id", JStr id); ("record_type", JStr type); ("source", JStr source); ("occurred_at", JStr (FidelityCorrect.at_second n));
            ("source_instance_id", JStr source)] ++ members) journal "sha" None subject_origin EXECUTION_PARTITION 1.

Definition sample_at (n : Z) (ph : Settlement.SamplePhase) : LocatedRecord Settlement.SettlementSample :=
  MkLocated (Settlement.quiet_sample (instant (FidelityCorrect.at_second n)) ph) "settlement_samples" "sha".

(** The workload invoked at second 1, committed at 2, timed out at 4, signalled, observed and released, and settled from second 10 to
    second 130, rechecked at 160; [requests] are the requests the runner invoked. *)
Definition demo_probe (requests : list string) : IngestedEvidence :=
  let ids := [("attempt_id", JStr "a1"); ("provider_commit_id", JStr "k1"); ("provider_transaction_id", JStr "tx1"); ("provider_call_id", JStr "c1")] in
  let causes l := ("causation_event_ids", JArr (map JStr l)) in
  let base := FidelityCorrect.treated_trial in
  MkEvidence (MkEvidenceScope probe_subject (Some (Journal.id_transport_probe "probe")) (Some "manifest") None false) []
    (map FidelityCorrect.found ["caller_journal"; "provider_journal"; "controller_journal"; "runner_journal"; "settlement_samples";
       "provider_trial_configuration"; "treatment_state_snapshot"; "ledger_snapshot"])
    (MkIndex [] [] []
       (map (fun r => probe_event "runner_journal" 1 ("w" +:+ r) "probe_workload_invoked" "runner" [("lambda_request_id", JStr r)]) requests ++
       [probe_event "caller_journal" 1 "e0" "caller_invocation_started" "probe_caller" [("lambda_request_id", JStr "r1")];
        probe_event "caller_journal" 1 "e1" "dispatch_started" "probe_caller" [("attempt_id", JStr "a1")];
        probe_event "provider_journal" 1 "e2" "provider_call_accepted" "refund_provider" ids;
        probe_event "provider_journal" 2 "e3" "provider_transaction_committed" "refund_provider" (ids ++ [("targeted", JBool true)]);
        probe_event "provider_journal" 2 "e4" "provider_commit_confirmed" "refund_provider" (ids ++ [("committed_at", JStr (FidelityCorrect.at_second 2)); causes ["e3"]]);
        probe_event "caller_journal" 4 "e5" "caller_timeout_recorded" "probe_caller"
          [("attempt_id", JStr "a1"); ("timer_fired_at", JStr (FidelityCorrect.at_second 4)); ("elapsed_ns", JStr "3000000000"); ("arbiter_winner", JStr "TIMER");
           ("transport_settled_at_claim", JBool false); ("abort_requested_at", JStr (FidelityCorrect.at_second 4)); ("recorded_at", JStr (FidelityCorrect.at_second 4));
           ("monotonic_origin_event_id", JStr "e1"); causes ["e1"]];
        probe_event "caller_journal" 4 "e6" "attempt_outcome_recorded" "probe_caller" [("attempt_id", JStr "a1"); ("outcome", JStr "TIMED_OUT")];
        probe_event "controller_journal" 5 "e7" "timeout_signal_recorded" "treatment_controller"
          (ids ++ [("caller_timeout_event_id", JStr "e5"); ("provider_commit_event_id", JStr "e3"); causes ["e3"; "e5"]]);
        probe_event "provider_journal" 6 "e8" "treatment_timeout_observed" "refund_provider"
          (ids ++ [("signal_event_id", JStr "e7"); ("source_sequence", JNum (JSInt 4)); causes ["e7"]]);
        probe_event "provider_journal" 7 "e9" "treatment_response_released" "refund_provider" (ids ++ [("source_sequence", JNum (JSInt 5)); causes ["e8"]]);
        probe_event "runner_journal" 161 "e10" "settlement_assessed" "runner"
          [("status", JStr "established"); ("window_start", JStr (FidelityCorrect.at_second 10)); ("established_at", JStr (FidelityCorrect.at_second 130));
           ("rechecked_at", JStr (FidelityCorrect.at_second 160))]])
       [])
    (ledger base)
    (let o := observations base in
     MkObservations None None (o_provider_configuration o) (o_treatment_snapshot o) None None
       (map (fun n => sample_at n Settlement.observation) [10; 40; 70; 100; 130] ++ [sample_at 160 Settlement.pre_freeze_recheck]))
    (MkRegistry [] [] []) [] None.

Definition demo_result (requests : list string) : option (PreservationVerdict * TrialValidity * ProbeCardinality * GateValue * list string) :=
  match buildProbeResult (demo_probe requests) (FidelityCorrect.at_second 200) with
  | Ok r => Some (transport_probe_verdict r, pr_probe_validity r, probe_cardinality r, pr_evidence_integrity r, map code (indeterminate_reasons r))
  | Err _ => None
  end.

Example demo_probe_passes : demo_result ["r1"] = Some (v_pass, trial_valid, MkCardinality 1 1 1, verified, []).
Proof. vm_compute. reflexivity. Qed.

(** A second invocation makes the probe invalid; a request the caller did not start leaves a passing probe's validity open. *)
Example demo_probe_invoked_twice :
  demo_result ["r1"; "r2"] = Some (v_indeterminate, trial_invalid, MkCardinality 2 1 1, verified, ["PROBE_CARDINALITY_EXCEEDED"]).
Proof. vm_compute. reflexivity. Qed.

Example demo_probe_of_another_request :
  demo_result ["r9"] = Some (v_pass, trial_indeterminate, MkCardinality 1 1 1, verified, ["INVOCATION_CROSS_CHECK_FAILED"]).
Proof. vm_compute. reflexivity. Qed.
End QualificationCorrect.
