(* ===== verification/Scope.v ===== *)
(** * The parts of the transport scope (src/study-1/src/transport-qualification/scope/)

    The reasons (scope-reasons.ts), the inputs of a bundle (bundle-inputs.ts), the lockfile (package-lock.ts), the committed
    policy (scope-policy.ts), the template (cfn-template.ts), the normalization of its values with its own work list
    (cfn-value-normalization.ts) and the configuration projections (configuration-projection.ts). [JSON.parse], SHA-256 and the
    validator are arguments. *)

From Stdlib Require Strings.Ascii.
From S2P Require Import Prelude AttemptLifecycle Timestamps Decimals Store JsonText Parsing Controller Evidence Journal Oracle Ingestion Package.
Import (notations) Stdlib.Strings.Ascii.
Import Json JsonText.
Import Evidence(map_get, classifyArtifactPath, split_slash).
Import Oracle(map_set).
Open Scope Z_scope.

Module Scope.

(** ** Reasons (scope-reasons.ts) *)

Definition SCOPE_REASON_SUBJECT : string := "BR-RUA-028".
Definition scopeViolation (c d : string) : StructuredReason := reason c SCOPE_REASON_SUBJECT d.

(** [boundedJsonText] with its default limit. *)
Definition quoted (v : json) : string := boundedJsonText v QUOTED_JSON_LIMIT.
Definition isPackageRelativePath (path : string) : bool :=
  negb (bool_decide (path = "")) && match classifyArtifactPath path with None => true | Some _ => false end.

(** ** Bundle inputs (bundle-inputs.ts) *)

Record BundleInputs := MkBundle { entry_point : string; local_sources : list string; packages : list string }.

Definition NODE_MODULES : string := "node_modules".

(** [compareCodeUnits(a, b) <= 0] *)
Definition code_units_le (a b : string) : bool := bool_decide (a = b) || Package.string_lt a b.

(** [sortedCodeUnits(new Set(values))] *)
Definition sortedSet (values : list string) : list string := isort code_units_le (Journal.unique values).

(** [Array.prototype.lastIndexOf], searching back from an index. *)
Fixpoint last_index_from (x : string) (l : list string) (from : nat) : option nat :=
  if bool_decide (l !! from = Some x) then Some from
  else match from with O => None | S from' => last_index_from x l from' end.

(** A negative start of [lastIndexOf] counts from the end: the only segment of a path of one. *)
Definition packageInstallPath (path : string) : option string :=
  let segments := split_slash (chars path) in
  let n := length segments in
  match last_index_from NODE_MODULES segments (if (2 <=? n)%nat then n - 2 else n - 1)%nat with
  | None => None
  | Some marker =>
      let scoped := existsb (fun s => bool_decide (head (chars s) = Some "@"%char)) (take 1 (drop (marker + 1) segments)) in
      let nameEnd := (marker + (if scoped then 3 else 2))%nat in
      if (n - 1 <? nameEnd)%nat then None else Some (str_join "/" (take nameEnd segments))
  end.

Definition classifyBundleInputs (entryPoint : string) (inputPaths : list string) : BundleInputs :=
  MkBundle entryPoint (sortedSet (List.filter (fun p => bool_decide (packageInstallPath p = None)) inputPaths)) (sortedSet (omap packageInstallPath inputPaths)).

(** ** The lockfile (package-lock.ts) *)

Definition PACKAGE_LOCK_PATH : string := "package-lock.json".
Definition SUPPORTED_LOCKFILE_VERSIONS : list Z := [2; 3].
Definition NODE_MODULES_SEGMENT : string := "node_modules/".

Record LockedPackage := MkLocked {
  install_path : string;
  lk_name : string;
  lk_version : option string;
  lk_resolved : option string;
  lk_integrity : option string;
  dev : bool;
}.

Record PackageLock := MkLock { lockfile_version : Z; lock_packages : list (string * LockedPackage) }.

Definition invalidLockfile (problem : string) : StructuredReason := scopeViolation "LOCKFILE_INVALID" (PACKAGE_LOCK_PATH +:+ " " +:+ problem).

Definition stringField (entry : list (string * json)) (key : string) : option string :=
  match member key entry with Some (JStr s) => Some s | _ => None end.

(** The text after the last occurrence of [marker], [found] what follows the last one seen. *)
Fixpoint after_last (marker s : string) (found : string) : string :=
  match s with
  | EmptyString => found
  | String _ rest => after_last marker rest (match Controller.after_prefix marker s with Some t => t | None => found end)
  end.
Definition installDirectoryName (installPath : string) : string := after_last NODE_MODULES_SEGMENT installPath installPath.

Definition lockedPackage (installPath : string) (entry : list (string * json)) : LockedPackage :=
  MkLocked installPath (nullish (stringField entry "name") (installDirectoryName installPath)) (stringField entry "version")
    (stringField entry "resolved") (stringField entry "integrity") (match member "dev" entry with Some (JBool b) => b | _ => false end).

Definition lockedPackages (ps : list (string * json)) : list (string * LockedPackage) :=
  omap (fun '(installPath, entry) =>
    match entry with
    | JObj m => if bool_decide (installPath = "") then None else Some (installPath, lockedPackage installPath m)
    | _ => None
    end) ps.

Definition parse_error_kind (e : Parsing.JsonParseFailure) : string :=
  match e with Parsing.invalid_utf8 _ => "invalid_utf8" | Parsing.invalid_json _ => "invalid_json" end.

Definition parsePackageLock (JSON_parse : string -> Result json string) (bytes : list Z) : Result PackageLock StructuredReason :=
  match Parsing.parseJsonDocument JSON_parse bytes with
  | Err e => Err (invalidLockfile ("is not one JSON document (" +:+ parse_error_kind e +:+ ")"))
  | Ok (JObj document) =>
      match member "lockfileVersion" document with
      | Some (JNum (JSInt version)) =>
          if memb version SUPPORTED_LOCKFILE_VERSIONS then
            match member "packages" document with
            | Some (JObj ps) => Ok (MkLock version (lockedPackages ps))
            | other => Err (invalidLockfile ("has packages " +:+ describeJson other +:+ "; expected a JSON object"))
            end
          else Err (invalidLockfile ("has lockfileVersion " +:+ describeJson (Some (JNum (JSInt version))) +:+ "; expected 2 or 3"))
      | other => Err (invalidLockfile ("has lockfileVersion " +:+ describeJson other +:+ "; expected 2 or 3"))
      end
  | Ok document => Err (invalidLockfile ("is " +:+ describeJson (Some document) +:+ "; expected a JSON object"))
  end.

(** ** The policy (scope-policy.ts) *)

Record ConfigurationProjectionPolicy := MkProjectionPolicy { projection_id : string; resource_type : string; property_paths : list string }.

Record TransportScopePolicy := MkPolicy {
  entry_points : list string;
  source_roots : list string;
  configuration_projections : list ConfigurationProjectionPolicy;
  runtime_properties : list string;
  dependencies : list string;
}.

Record LoadedScopePolicy := MkLoaded { policy : TransportScopePolicy; policy_sha256 : string }.

Definition TRANSPORT_SCOPE_POLICY_PATH : string := "src/transport-qualification/transport-scope.policy.json".

Fixpoint duplicates_of (seen : list string) (l : list string) : list string :=
  match l with
  | [] => []
  | x :: rest => (if memb x seen then [x] else []) ++ duplicates_of (x :: seen) rest
  end.
Definition duplicateProjectionIds (p : TransportScopePolicy) : list string := Journal.unique (duplicates_of [] (map projection_id (configuration_projections p))).

(** [policyOf] is the typed view of a record the validator accepted. *)
Definition parseTransportScopePolicy (JSON_parse : string -> Result json string) (sha256Hex : list Z -> string) (validator : Ingestion.RecordValidator)
    (policyOf : json -> TransportScopePolicy) (bytes : list Z) : Result LoadedScopePolicy (list StructuredReason) :=
  match Parsing.parseJsonDocument JSON_parse bytes with
  | Err e =>
      let failure := match e with
                     | Parsing.invalid_utf8 offset => "invalid UTF-8 at byte " +:+ string_of_Z offset
                     | Parsing.invalid_json d => d
                     end in
      Err [scopeViolation "SCOPE_POLICY_UNREADABLE" (TRANSPORT_SCOPE_POLICY_PATH +:+ ": " +:+ failure +:+ "; expected one JSON document")]
  | Ok v =>
      match Ingestion.validateAs validator "transport_scope_policy" v with
      | Ingestion.record_invalid violations =>
          Err (map (fun x => scopeViolation "SCOPE_POLICY_INVALID"
                 (TRANSPORT_SCOPE_POLICY_PATH +:+ Ingestion.instance_path x +:+ " fails " +:+ Ingestion.keyword x +:+ ": " +:+ Ingestion.v_detail x)) violations)
      | Ingestion.record_valid =>
          match duplicateProjectionIds (policyOf v) with
          | [] => Ok (MkLoaded (policyOf v) (sha256Hex bytes))
          | duplicates =>
              Err (map (fun i => scopeViolation "SCOPE_POLICY_DUPLICATE_PROJECTION"
                     ("projection_id " +:+ quoted (JStr i) +:+ " is declared more than once; expected unique projection ids")) duplicates)
          end
      end
  end.

(** The text before the first [__], the whole text without one. *)
Fixpoint before_separator (l : list Ascii.ascii) : list Ascii.ascii :=
  match l with
  | [] => []
  | a :: rest => if bool_decide (a = "_"%char) && bool_decide (head rest = Some "_"%char) then [] else a :: before_separator rest
  end.
Definition projectionSelector (projectionId : string) : string := text (before_separator (chars projectionId)).

(** ** The template (cfn-template.ts) *)

(** [Object.entries] lists the members in the order the object holds them. *)
Abbreviation CfnTemplate := (list (string * json)).

Record TemplateResource := MkResource {
  logical_id : string;
  type : string;
  construct_path : option (list string);
  resource : list (string * json);
}.

Definition CDK_PATH_METADATA : string := "aws:cdk:path".
Definition CDK_PATH_METADATA_CONTEXT_KEY : string := "aws:cdk:enable-path-metadata".

Definition ownValue (object : list (string * json)) (key : string) : option json := member key object.

Definition constructPath (r : list (string * json)) : option (list string) :=
  match ownValue r "Metadata" with
  | Some (JObj metadata) => match ownValue metadata CDK_PATH_METADATA with Some (JStr path) => Some (drop 1 (split_slash (chars path))) | _ => None end
  | _ => None
  end.

Definition invalidTemplate (location : string) (value : option json) (expected : string) : StructuredReason :=
  scopeViolation "TEMPLATE_INVALID" ("template " +:+ location +:+ " is " +:+ describeJson value +:+ "; expected " +:+ expected).

Definition listed_resource (entry : string * json) : Result TemplateResource StructuredReason :=
  match entry.2 with
  | JObj r =>
      match ownValue r "Type" with
      | Some (JStr t) => Ok (MkResource entry.1 t (constructPath r) r)
      | _ => Err (invalidTemplate ("Resources." +:+ entry.1) (Some entry.2) "an object with a string Type")
      end
  | _ => Err (invalidTemplate ("Resources." +:+ entry.1) (Some entry.2) "an object with a string Type")
  end.

(** The loop over the entries, which returns at the first error. *)
Fixpoint list_resources (entries : list (string * json)) : Result (list TemplateResource) StructuredReason :=
  match entries with
  | [] => Ok []
  | entry :: rest => let! r := listed_resource entry in let! rs := list_resources rest in Ok (r :: rs)
  end.

Definition listTemplateResources (template : CfnTemplate) : Result (list TemplateResource) StructuredReason :=
  match ownValue template "Resources" with
  | Some (JObj entries) => list_resources entries
  | other => Err (invalidTemplate "Resources" other "an object of resources")
  end.

Definition resourceIdentity (r : TemplateResource) : string := match construct_path r with None => type r | Some path => str_join "/" path end.

(** [text.split('.')] *)
Fixpoint split_dot (l : list Ascii.ascii) : list string :=
  match l with
  | [] => [""]
  | c :: l' =>
      if bool_decide (c = "."%char) then "" :: split_dot l'
      else match split_dot l' with
           | s :: rest => String c s :: rest
           | [] => [String c ""]
           end
  end.

Definition valueAtPath (r : list (string * json)) (path : string) : option json :=
  fold_left (fun current segment => match current with Some (JObj m) => ownValue m segment | _ => None end) (split_dot (chars path)) (Some (JObj r)).

(** ** Normalization (cfn-value-normalization.ts) *)

Definition STRIPPED_PROPERTY_KEYS : list string :=
  ["Tags"; "FunctionName"; "TableName"; "RoleName"; "QueueName"; "LogGroupName"; "PolicyName"; "ManagedPolicyName"; "TopicName"; "BucketName"; "StreamName"].

(** [text.replace(pattern, ...)] with a global pattern: [m] reads a nonempty match at the head and what replaces it. *)
Fixpoint replace_all (m : list Ascii.ascii -> option (nat * list Ascii.ascii)) (skip : nat) (l : list Ascii.ascii) : list Ascii.ascii :=
  match l with
  | [] => []
  | c :: rest =>
      match skip with
      | S k => replace_all m k rest
      | O => match m l with
             | Some (len, replacement) => replacement ++ replace_all m (pred len) rest
             | None => c :: replace_all m O rest
             end
      end
  end.

Definition in_range (lo hi : nat) (c : Ascii.ascii) : bool := let n := Ascii.nat_of_ascii c in (lo <=? n)%nat && (n <=? hi)%nat.
Definition is_lower (c : Ascii.ascii) : bool := in_range 97 122 c.
Definition is_upper (c : Ascii.ascii) : bool := in_range 65 90 c.
Definition is_alnum (c : Ascii.ascii) : bool := is_lower c || is_upper c || Decimals.is_digit c.
Definition is_hex (c : Ascii.ascii) : bool := Decimals.is_digit c || in_range 97 102 c || in_range 65 70 c.

(** The rest of the text after [n] characters of a class, or after a literal. *)
Definition after_class (p : Ascii.ascii -> bool) (n : nat) (l : list Ascii.ascii) : option (list Ascii.ascii) :=
  if Nat.eqb (length (take n l)) n && forallb p (take n l) then Some (drop n l) else None.
Fixpoint after_literal (literal l : list Ascii.ascii) : option (list Ascii.ascii) :=
  match literal, l with
  | [], _ => Some l
  | a :: literal', b :: l' => if bool_decide (a = b) then after_literal literal' l' else None
  | _ :: _, [] => None
  end.

Definition match_UUID_PATTERN (l : list Ascii.ascii) : option (nat * list Ascii.ascii) :=
  let group (n : nat) (o : option (list Ascii.ascii)) : option (list Ascii.ascii) := (o ≫= after_literal (chars "-")) ≫= after_class is_hex n in
  match group 12%nat (group 4%nat (group 4%nat (group 4%nat (after_class is_hex 8 l)))) with
  | Some _ => Some (36%nat, chars "<uuid>")
  | None => None
  end.

Definition match_RESOURCE_PREFIX_PATTERN (l : list Ascii.ascii) : option (nat * list Ascii.ascii) :=
  match (after_literal (chars "suc1-") l ≫= after_class Identifiers.is_lower_hex 8) ≫= after_literal (chars "-") with
  | Some _ => Some (14%nat, chars "suc1-<p>-")
  | None => None
  end.

Definition match_STACK_NAME_PATTERN (l : list Ascii.ascii) : option (nat * list Ascii.ascii) :=
  match find_first (fun kind => bool_decide (is_Some (after_literal (chars ("SucRua-" +:+ kind +:+ "-")) l ≫= after_class Identifiers.is_lower_hex 8)))
          ["run"; "probe"; "validation"] with
  | Some kind => Some ((String.length kind + 16)%nat, chars ("SucRua-" +:+ kind +:+ "-<p>"))
  | None => None
  end.

Definition normalizeCfnString (t : string) : string :=
  match Controller.after_prefix "arn:" t with
  | Some _ => "<arn>"
  | None =>
      text (replace_all match_STACK_NAME_PATTERN 0 (replace_all match_RESOURCE_PREFIX_PATTERN 0 (replace_all match_UUID_PATTERN 0 (chars t))))
  end.

Section normalize.
Context (references : list (string * string)).

Definition referencedName (logicalId : string) : string :=
  match map_get logicalId references with None => logicalId | Some identity => "<" +:+ identity +:+ ">" end.

(** One value the walk still has to normalize, and the place of its normalized form in the value built so far. *)
Record PendingValue := MkPending { source : json; at_place : list nat; getAttOperand : bool }.

Fixpoint place (path : list nat) (v tree : json) : json :=
  match path with
  | [] => v
  | i :: path' =>
      match tree with
      | JArr l => JArr (alter (place path' v) i l)
      | JObj ms => JObj (alter (fun m => (m.1, place path' v m.2)) i ms)
      | _ => tree
      end
  end.

(** The operand that is a name stays out of the work list. *)
Definition is_reference (getAtt : bool) (index : nat) (m : json) : option string :=
  match m with JStr s => if getAtt && Nat.eqb index 0 then Some s else None | _ => None end.

Definition normalizeArray (items : list json) (getAtt : bool) (path : list nat) : json * list PendingValue :=
  (JArr (imap (fun i m => match is_reference getAtt i m with Some s => JStr (referencedName s) | None => JNull end) items),
   omap id (imap (fun i m => match is_reference getAtt i m with Some _ => None | None => Some (MkPending m (path ++ [i]) false) end) items)).

Definition kept_members (ms : list (string * json)) : list (string * json) := List.filter (fun m => negb (memb m.1 STRIPPED_PROPERTY_KEYS)) ms.
Definition only_key (ms : list (string * json)) : option string := match ms with [(k, _)] => Some k | _ => None end.

Definition normalizeObject (ms : list (string * json)) (path : list nat) : json * list PendingValue :=
  let kept := kept_members ms in
  match kept with
  | [("Ref", JStr ref)] => (JObj [("Ref", JStr (referencedName ref))], [])
  | _ =>
      (JObj (map (fun m => (m.1, JNull)) kept),
       imap (fun i m => MkPending m.2 (path ++ [i]) (bool_decide (only_key kept = Some "Fn::GetAtt"))) kept)
  end.

Definition normalizeShallow (item : PendingValue) : json * list PendingValue :=
  match source item with
  | JStr s => (JStr (normalizeCfnString s), [])
  | JArr items => normalizeArray items (getAttOperand item) (at_place item)
  | JObj ms => normalizeObject ms (at_place item)
  | other => (other, [])
  end.

(** The loop: the last value pushed is the next popped. [None] has not ended. *)
Fixpoint normalize_loop (fuel : nat) (pending : list PendingValue) (tree : json) : option json :=
  match pending with
  | [] => Some tree
  | next :: rest =>
      match fuel with
      | O => None
      | S fuel' => let '(normalized, scheduled) := normalizeShallow next in normalize_loop fuel' (rev scheduled ++ rest) (place (at_place next) normalized tree)
      end
  end.

(** One turn per value. *)
Fixpoint value_count (v : json) : nat :=
  match v with
  | JArr items => S (sum_list_with value_count items)
  | JObj ms => S (sum_list_with (fun m => value_count m.2) ms)
  | _ => 1
  end.

Definition normalizeCfnValue (value : json) : json := nullish (normalize_loop (value_count value) [MkPending value [] false] JNull) JNull.
End normalize.

(** ** Configuration projections (configuration-projection.ts) *)

Record ProjectedProperty := MkProperty { property_path : string; canonical_json : option string }.
Abbreviation ProjectedResource := (list ProjectedProperty).

Definition projectedPropertyJson (p : ProjectedProperty) : json :=
  JObj (("property_path", JStr (property_path p)) :: match canonical_json p with None => [] | Some c => [("canonical_json", JStr c)] end).
Definition projectedResourceJson (r : ProjectedResource) : json := JObj [("property_values", JArr (map projectedPropertyJson r))].

Definition projectProperty (r : TemplateResource) (references : list (string * string)) (path : string) : Result ProjectedProperty StructuredReason :=
  match valueAtPath (resource r) path with
  | None => Ok (MkProperty path None)
  | Some v =>
      match canonicalJsonIfRepresentable (normalizeCfnValue references v) with
      | None => Err (scopeViolation "TEMPLATE_INVALID" ("template Resources." +:+ logical_id r +:+ "." +:+ path
                  +:+ " holds a value JSON cannot represent exactly, such as a non-finite number; expected finite JSON values only"))
      | Some c => Ok (MkProperty path (Some c))
      end
  end.

Fixpoint projectResource (r : TemplateResource) (references : list (string * string)) (paths : list string) : Result ProjectedResource StructuredReason :=
  match paths with
  | [] => Ok []
  | path :: rest => let! p := projectProperty r references path in let! ps := projectResource r references rest in Ok (p :: ps)
  end.

(** The five replacements of [snakeCaseSegment]. *)
Definition match_word_end (l : list Ascii.ascii) : option (nat * list Ascii.ascii) :=
  match l with
  | a :: b :: _ => if (is_lower a || Decimals.is_digit a) && is_upper b then Some (2%nat, [a; "_"%char; b]) else None
  | _ => None
  end.
Fixpoint leading (p : Ascii.ascii -> bool) (l : list Ascii.ascii) : nat := match l with c :: rest => if p c then S (leading p rest) else O | [] => O end.
Definition match_acronym (l : list Ascii.ascii) : option (nat * list Ascii.ascii) :=
  let run := leading is_upper l in
  match drop run l with
  | c :: _ => if (2 <=? run)%nat && is_lower c then Some (S run, take (run - 1) l ++ "_"%char :: take 2 (drop (run - 1) l)) else None
  | [] => None
  end.
Definition match_other (l : list Ascii.ascii) : option (nat * list Ascii.ascii) :=
  match leading (fun c => negb (is_alnum c)) l with O => None | run => Some (run, ["_"%char]) end.
Definition is_underscore (c : Ascii.ascii) : bool := bool_decide (c = "_"%char).
Definition trim_underscores (l : list Ascii.ascii) : list Ascii.ascii :=
  let l := drop (leading is_underscore l) l in rev (drop (leading is_underscore (rev l)) (rev l)).
Definition to_lower (c : Ascii.ascii) : Ascii.ascii := if is_upper c then Ascii.ascii_of_nat (Ascii.nat_of_ascii c + 32) else c.

Definition snakeCaseSegment (segment : string) : string :=
  text (map to_lower (trim_underscores (replace_all match_other 0 (replace_all match_acronym 0 (replace_all match_word_end 0 (chars segment)))))).

(** The runs that start at the head, one per length. *)
Definition runs_from (snake : list string) : list string := map (fun n => str_join "_" (take n snake)) (seq 1 (length snake)).

Definition constructPathMatches (segments : list string) (selector : string) : bool :=
  let snake := map snakeCaseSegment segments in
  existsb (fun start => memb selector (runs_from (drop start snake))) (seq 0 (length snake)).

Definition withoutPathMetadata (p : ConfigurationProjectionPolicy) (unplaced : list TemplateResource) : StructuredReason :=
  scopeViolation "TEMPLATE_WITHOUT_PATH_METADATA"
    ("projection " +:+ projection_id p +:+ ": " +:+ resource_type p +:+ " resources " +:+ quoted (JArr (map (fun r => JStr (logical_id r)) unplaced))
     +:+ " carry no string Metadata[" +:+ quote_json CDK_PATH_METADATA +:+ "]; expected a template synthesized with construct path metadata (the cdk synth default, or context "
     +:+ CDK_PATH_METADATA_CONTEXT_KEY +:+ "=true)").

Record IdentifiedProjection := MkIdentified { identity : string; canonical : string; projected : ProjectedResource }.

Definition identified_le (a b : IdentifiedProjection) : bool :=
  if bool_decide (identity a = identity b) then code_units_le (canonical a) (canonical b) else code_units_le (identity a) (identity b).

Definition referencesOf (rs : list TemplateResource) : list (string * string) := map (fun r => (logical_id r, resourceIdentity r)) rs.

(** [canonicalJson] writes texts alone here, and does not throw. *)
Definition identify (r : TemplateResource) (references : list (string * string)) (paths : list string) : Result IdentifiedProjection StructuredReason :=
  let! entry := projectResource r references paths in
  Ok (MkIdentified (resourceIdentity r) (nullish (canonicalJsonIfRepresentable (projectedResourceJson entry)) "") entry).

Fixpoint identify_all (rs : list TemplateResource) (references : list (string * string)) (paths : list string) : Result (list IdentifiedProjection) StructuredReason :=
  match rs with
  | [] => Ok []
  | r :: rest => let! i := identify r references paths in let! others := identify_all rest references paths in Ok (i :: others)
  end.

Definition isPlaced (r : TemplateResource) : bool := bool_decide (is_Some (construct_path r)).

Definition selected (p : ConfigurationProjectionPolicy) (r : TemplateResource) : bool :=
  match construct_path r with Some path => constructPathMatches path (projectionSelector (projection_id p)) | None => false end.

Definition normalizeConfigurationProjection (template : CfnTemplate) (p : ConfigurationProjectionPolicy) : Result (list ProjectedResource) StructuredReason :=
  let! rs := listTemplateResources template in
  let ofType := List.filter (fun r => bool_decide (type r = resource_type p)) rs in
  match List.filter (fun r => negb (isPlaced r)) ofType with
  | u :: us => Err (withoutPathMetadata p (u :: us))
  | [] =>
      let! projections := identify_all (List.filter (selected p) ofType) (referencesOf rs) (property_paths p) in
      match isort identified_le projections with
      | [] => Err (scopeViolation "PROJECTION_SELECTS_NOTHING"
                ("projection " +:+ projection_id p +:+ " selects no " +:+ resource_type p +:+ " under a construct path matching "
                 +:+ quoted (JStr (projectionSelector (projection_id p))) +:+ "; expected at least one resource"))
      | sorted => Ok (map projected sorted)
      end
  end.
End Scope.
