(* ===== verification/ScopeSnapshot.v ===== *)
(** * The transport-scope snapshot and its drift (src/study-1/src/transport-qualification/scope/)

    The dependency closure (dependency-closure.ts), the snapshot (scope-snapshot.ts), the comparison of two snapshots
    (scope-drift.ts) and the recomputation over the committed source (scope-recomputation.ts). The ports of a recomputation read
    one tree that does not change while they do, as the source requires, so each is a function that answers or fails with a
    message. [JSON.parse], SHA-256, the validator and the typed view of the policy are arguments. *)

From S2P Require Import Prelude AttemptLifecycle Timestamps Decimals Store JsonText Parsing Controller Evidence Journal TrialMessage Oracle Ingestion Package Scope.
Import Json JsonText Scope.
Import Evidence(map_get).
Import Journal(unique, canonicalJson).
Import Oracle(map_set).
Open Scope Z_scope.

Module ScopeSnapshot.

(** ** The dependency closure (dependency-closure.ts) *)

Record DependencyClosure := MkClosure { dc_dependencies : list (string * string); lockfile_sha256 : string }.

Definition closureInstallPaths (bundled declared : list string) : list string :=
  sortedSet (bundled ++ map (fun name => "node_modules/" +:+ name) declared).

Definition lockedVersion (lock : PackageLock) (installPath : string) : Result (LockedPackage * string) StructuredReason :=
  let refused found := Err (scopeViolation "DEPENDENCY_NOT_LOCKED"
    (installPath +:+ " is " +:+ found +:+ " in " +:+ PACKAGE_LOCK_PATH +:+ "; expected a locked entry with a version")) in
  match map_get installPath (lock_packages lock) with
  | None => refused "absent"
  | Some locked => match lk_version locked with None => refused "present without a version" | Some v => Ok (locked, v) end
  end.

Definition installMismatch (installPath : string) (installed : option string) (locked : string) : StructuredReason :=
  scopeViolation "DEPENDENCY_INSTALL_MISMATCH"
    (installPath +:+ " is " +:+ match installed with None => "not installed" | Some v => "installed at " +:+ v end +:+ " but " +:+ PACKAGE_LOCK_PATH
     +:+ " locks " +:+ locked +:+ "; expected the locked version installed (npm ci at the admitted revision)").

(** One install path: its reasons, and the locked package when there is one. *)
Definition resolve_one (bundled : list string) (lock : PackageLock) (installed : list (string * string)) (installPath : string) :
  list StructuredReason * option (LockedPackage * string) :=
  match lockedVersion lock installPath with
  | Err e => ([e], None)
  | Ok (locked, version) =>
      ((if bool_decide (map_get installPath installed = Some version) then [] else [installMismatch installPath (map_get installPath installed) version])
       ++ (if memb installPath bundled && dev locked then
             [scopeViolation "BUNDLED_PACKAGE_NOT_PRODUCTION"
                ("bundled package " +:+ installPath +:+ " is marked dev in " +:+ PACKAGE_LOCK_PATH +:+ "; expected a production dependency")]
           else []), Some (locked, version))
  end.

Definition dependency_le (a b : string * string) : bool := if bool_decide (a.1 = b.1) then code_units_le a.2 b.2 else code_units_le a.1 b.1.

(** The [Map] keyed by [name@version]. *)
Definition byKey (ps : list (LockedPackage * string)) : list (string * (string * string)) :=
  fold_left (fun m p => map_set (lk_name p.1 +:+ "@" +:+ p.2) (lk_name p.1, p.2) m) ps [].
Definition uniqueDependencies (ps : list (LockedPackage * string)) : list (string * string) := isort dependency_le (map snd (byKey ps)).

Definition lock_entry_json (p : LockedPackage * string) : json :=
  JObj (("version", JStr p.2) :: match lk_resolved p.1 with None => [] | Some r => [("resolved", JStr r)] end
        ++ match lk_integrity p.1 with None => [] | Some i => [("integrity", JStr i)] end).

Section snapshot.
Context (sha256Hex : list Z -> string).

(** The object keyed by install path; [canonicalJson] writes texts alone here, and does not throw. *)
Definition lock_projection (ps : list (LockedPackage * string)) : json := JObj (map (fun p => (install_path p.1, lock_entry_json p)) ps).
Definition lockfileProjectionDigest (ps : list (LockedPackage * string)) : string :=
  sha256Hex (Parsing.bytes_of (nullish (canonicalJsonIfRepresentable (lock_projection ps)) "")).

Definition resolveDependencyClosure (bundled declared : list string) (lock : PackageLock) (installed : list (string * string)) :
  Result DependencyClosure (list StructuredReason) :=
  let turns := map (resolve_one bundled lock installed) (closureInstallPaths bundled declared) in
  match flat_map fst turns with
  | [] => let resolved := omap snd turns in Ok (MkClosure (uniqueDependencies resolved) (lockfileProjectionDigest resolved))
  | reasons => Err reasons
  end.

(** ** The snapshot (scope-snapshot.ts) *)

Record ScopeTimingValues := MkTiming {
  provider_client_deadline_ms : jsnum;
  provider_safety_release_ms : jsnum;
  provider_execution_timeout_ms : jsnum;
  treatment_poll_interval_ms : jsnum;
}.

(** [string | number | boolean] *)
Inductive RuntimePropertyValue := text_value (s : string) | number_value (n : jsnum) | boolean_value (b : bool).
Definition value_json (v : RuntimePropertyValue) : json :=
  match v with text_value s => JStr s | number_value n => JNum n | boolean_value b => JBool b end.

(** What the bundling of an entry point is bound to (bundle-inputs.ts). *)
Definition SCOPE_BUNDLE_RUNTIME_PROPERTIES : list (string * RuntimePropertyValue) :=
  [("bundle_aws_sdk", boolean_value true); ("bundle_format", text_value "esm"); ("bundle_main_fields", text_value "module,main");
   ("bundle_platform", text_value "node"); ("bundle_target", text_value "node24")].

Record ScopeSnapshotInput := MkInput {
  si_policy : LoadedScopePolicy;
  bundles : list BundleInputs;
  committed_files : list string;
  source_digests : list (string * string);
  lock : PackageLock;
  installed_versions : list (string * string);
  template : CfnTemplate;
  runtime : list (string * RuntimePropertyValue);
  timing : ScopeTimingValues;
  provider_warmup : Z;
}.

(** [TransportScopeSnapshot] without its fixed members. *)
Record TransportScopeSnapshot := MkSnapshot {
  ss_policy_sha256 : string;
  ss_entry_points : list string;
  source_files : list (string * string);
  dependency_closure : list (string * string);
  ss_lockfile_sha256 : string;
  ss_configuration_projections : list (string * list ProjectedResource);
  ss_runtime_properties : list (string * RuntimePropertyValue);
  timing_values : ScopeTimingValues;
  invocations_per_trial : Z;
}.

(** The timing values by name, in declaration order. *)
Definition timingByName (t : ScopeTimingValues) : list (string * jsnum) :=
  [("provider_client_deadline_ms", provider_client_deadline_ms t); ("provider_safety_release_ms", provider_safety_release_ms t);
   ("provider_execution_timeout_ms", provider_execution_timeout_ms t); ("treatment_poll_interval_ms", treatment_poll_interval_ms t)].

Definition isUnderSourceRoot (path root : string) : bool :=
  bool_decide (path = root) || bool_decide (is_Some (Controller.after_prefix (root +:+ "/") path)).

(** The bundles of an entry point, and the reason when they are not one. *)
Definition bundle_of (bundles : list BundleInputs) (entryPoint : string) : list BundleInputs * list StructuredReason :=
  match List.filter (fun b => bool_decide (entry_point b = entryPoint)) bundles with
  | [b] => ([b], [])
  | found => ([], [scopeViolation "BUNDLE_MISSING_ENTRY_POINT"
                ("entry point " +:+ entryPoint +:+ " has " +:+ string_of_Z (Z.of_nat (length found)) +:+ " resolved bundles; expected exactly one")])
  end.

Definition entryPointBundles (p : TransportScopePolicy) (bundles : list BundleInputs) : list BundleInputs * list StructuredReason :=
  let found := map (bundle_of bundles) (entry_points p) in (flat_map fst found, flat_map snd found).

Definition rooted_files (p : TransportScopePolicy) (committed : list string) : list string :=
  flat_map (fun root => List.filter (fun path => isUnderSourceRoot path root) committed) (source_roots p).

(** Every scoped path, in order. *)
Definition scoped_paths (p : TransportScopePolicy) (bs : list BundleInputs) (committed : list string) : list string :=
  List.filter isPackageRelativePath (sortedSet (flat_map local_sources bs ++ rooted_files p committed)).

Definition scopedSourceFiles (p : TransportScopePolicy) (bs : list BundleInputs) (committed : list string) (digests : list (string * string)) :
  list (string * string) * list StructuredReason :=
  let outside := map (fun path => scopeViolation "BUNDLE_INPUT_OUTSIDE_PROJECT"
        ("bundled input " +:+ quoted (JStr path) +:+ "; expected a normalized path inside the project"))
      (List.filter (fun path => negb (isPackageRelativePath path)) (unique (flat_map local_sources bs))) in
  let roots := map (fun root => scopeViolation "SOURCE_ROOT_EMPTY" ("source root " +:+ root +:+ " holds no committed file; expected at least one"))
      (List.filter (fun root => negb (existsb (fun path => isUnderSourceRoot path root) committed)) (source_roots p)) in
  let paths := scoped_paths p bs committed in
  (omap (fun path => option_map (fun d => (path, d)) (map_get path digests)) paths,
   outside ++ roots ++ map (fun path => scopeViolation "SCOPED_SOURCE_NOT_COMMITTED"
        ("scoped source " +:+ path +:+ " has no committed content; expected a committed file"))
      (List.filter (fun path => bool_decide (map_get path digests = None)) paths)).

(** The result of one projection: its entry or its reason. *)
Definition project (t : CfnTemplate) (p : ConfigurationProjectionPolicy) : list (string * list ProjectedResource) * list StructuredReason :=
  match normalizeConfigurationProjection t p with Ok rs => ([(projection_id p, rs)], []) | Err e => ([], [e]) end.

Definition configurationProjections (p : TransportScopePolicy) (t : CfnTemplate) : list (string * list ProjectedResource) * list StructuredReason :=
  match listTemplateResources t with
  | Err e => ([], [e])
  | Ok _ =>
      let turns := map (project t) (configuration_projections p) in
      (isort (fun a b => code_units_le a.1 b.1) (flat_map fst turns), flat_map snd turns)
  end.

(** [Number.isSafeInteger(value)] *)
Definition isSafeInteger (n : jsnum) : bool := match n with JSInt z => is_safe_integer z | JSOther _ => false end.

(** One turn of the loop over the names: the values so far, or the reason. *)
Definition runtime_turn (provided : list (string * RuntimePropertyValue)) (acc : list (string * RuntimePropertyValue) * list StructuredReason) (name : string) :
  list (string * RuntimePropertyValue) * list StructuredReason :=
  match map_get name provided with
  | None => (acc.1, acc.2 ++ [scopeViolation "RUNTIME_PROPERTY_MISSING" ("runtime property " +:+ name +:+ " is absent; expected a string, integer or boolean")])
  | Some (number_value n) =>
      if isSafeInteger n then (map_set name (number_value n) acc.1, acc.2)
      else (acc.1, acc.2 ++ [scopeViolation "RUNTIME_PROPERTY_INVALID" ("runtime property " +:+ name +:+ " is " +:+ nonStringLeafText (JNum n) +:+ "; expected a safe integer")])
  | Some v => (map_set name v acc.1, acc.2)
  end.
Definition runtimeProperties (p : TransportScopePolicy) (provided : list (string * RuntimePropertyValue)) :
  list (string * RuntimePropertyValue) * list StructuredReason :=
  fold_left (runtime_turn provided) (runtime_properties p) ([], []).

Definition positive_timing (n : jsnum) : bool := match n with JSInt z => is_safe_integer z && (1 <=? z) | JSOther _ => false end.
Definition timingViolations (t : ScopeTimingValues) : list StructuredReason :=
  map (fun e => scopeViolation "TIMING_VALUE_INVALID"
        ("timing value " +:+ e.1 +:+ " is " +:+ nonStringLeafText (JNum e.2) +:+ "; expected a positive safe integer of milliseconds"))
    (List.filter (fun e => negb (positive_timing e.2)) (timingByName t)).

Definition computeScopeSnapshot (input : ScopeSnapshotInput) : Result TransportScopeSnapshot (list StructuredReason) :=
  let p := policy (si_policy input) in
  let bs := entryPointBundles p (bundles input) in
  let sources := scopedSourceFiles p bs.1 (committed_files input) (source_digests input) in
  let closure := resolveDependencyClosure (flat_map packages bs.1) (dependencies p) (lock input) (installed_versions input) in
  let projections := configurationProjections p (template input) in
  let runtime_ := runtimeProperties p (runtime input) in
  let reasons := bs.2 ++ sources.2 ++ (match closure with Ok _ => [] | Err e => e end) ++ projections.2 ++ runtime_.2 ++ timingViolations (timing input) in
  match closure, reasons with
  | Ok c, [] =>
      Ok (MkSnapshot (policy_sha256 (si_policy input)) (isort code_units_le (entry_points p)) sources.1 (dc_dependencies c) (lockfile_sha256 c)
        projections.1 runtime_.1 (timing input) (provider_warmup input))
  | _, _ => Err reasons
  end.

(** The record of a snapshot. *)
Definition timing_json (t : ScopeTimingValues) : json := JObj (map (fun e => (e.1, JNum e.2)) (timingByName t)).
Definition warmup_json (s : TransportScopeSnapshot) : json := JObj [("invocations_per_trial", JNum (JSInt (invocations_per_trial s)))].
Definition runtime_json (r : list (string * RuntimePropertyValue)) : list (string * json) := map (fun e => (e.1, value_json e.2)) r.
Definition snapshot_json (s : TransportScopeSnapshot) : json :=
  JObj [("schema_version", JNum (JSInt 1)); ("record_type", JStr "transport_scope_snapshot"); ("policy_sha256", JStr (ss_policy_sha256 s));
        ("entry_points", JArr (map JStr (ss_entry_points s)));
        ("source_files", JArr (map (fun f => JObj [("path", JStr f.1); ("sha256", JStr f.2)]) (source_files s)));
        ("dependency_closure", JArr (map (fun d => JObj [("name", JStr d.1); ("version", JStr d.2)]) (dependency_closure s)));
        ("lockfile_sha256", JStr (ss_lockfile_sha256 s));
        ("configuration_projections", JArr (map (fun p => JObj [("projection_id", JStr p.1); ("resources", JArr (map projectedResourceJson p.2))])
           (ss_configuration_projections s)));
        ("runtime_properties", JObj (runtime_json (ss_runtime_properties s))); ("timing_values", timing_json (timing_values s));
        ("provider_warmup", warmup_json s)].

Definition scopeSnapshotSha256 (s : TransportScopeSnapshot) : Result string js_error :=
  let! t := TrialMessage.serializeRecordFile (snapshot_json s) in Ok (sha256Hex (Parsing.bytes_of t)).

(** ** Drift (scope-drift.ts) *)

Record ScopeDriftItem := MkItem { drift_code : string; drift_subject : string; d_selected : json; d_recomputed : json }.

Inductive ScopeDriftAssessment :=
| no_drift (snapshot_sha256 : string)
| drift (selected_sha256 recomputed_sha256 : string) (items : list ScopeDriftItem) (reasons : list StructuredReason).

Definition diffValue (c s : string) (selected recomputed : json) : Result (list ScopeDriftItem) js_error :=
  let! a := canonicalJson selected in
  let! b := canonicalJson recomputed in
  Ok (if bool_decide (a = b) then [] else [MkItem c s selected recomputed]).

(** [keys.flatMap], in order. *)
Fixpoint diff_keys (c : string) (selected recomputed : list (string * json)) (keys : list string) : Result (list ScopeDriftItem) js_error :=
  match keys with
  | [] => Ok []
  | key :: rest =>
      let! d := diffValue c key (nullish (map_get key selected) JNull) (nullish (map_get key recomputed) JNull) in
      let! ds := diff_keys c selected recomputed rest in
      Ok (d ++ ds)
  end.
Definition diffKeyed (c : string) (selected recomputed : list (string * json)) : Result (list ScopeDriftItem) js_error :=
  diff_keys c selected recomputed (sortedSet (map fst selected ++ map fst recomputed)).

(** [new Map(entries)]: a later entry of a key replaces an earlier one. *)
Definition map_of (entries : list (string * json)) : list (string * json) := fold_left (fun m e => map_set e.1 e.2 m) entries [].
Definition keyedBy {T} (items : list T) (entry : T -> string * json) : list (string * json) := map_of (map entry items).

(** The versions of each name, in the order of the first. *)
Definition versions_map (s : TransportScopeSnapshot) : list (string * list string) :=
  fold_left (fun m d => map_set d.1 (nullish (map_get d.1 m) [] ++ [d.2]) m) (dependency_closure s) [].
Definition versionsByName (s : TransportScopeSnapshot) : list (string * json) :=
  map (fun e => (e.1, JArr (map JStr (isort code_units_le e.2)))) (versions_map s).

Definition sources_keyed (s : TransportScopeSnapshot) : list (string * json) := keyedBy (source_files s) (fun f => (f.1, JStr f.2)).
Definition projections_keyed (s : TransportScopeSnapshot) : list (string * json) :=
  keyedBy (ss_configuration_projections s) (fun p => (p.1, JArr (map projectedResourceJson p.2))).
Definition timing_keyed (s : TransportScopeSnapshot) : list (string * json) := map (fun e => (e.1, JNum e.2)) (timingByName (timing_values s)).

Definition itemizeDrift (a b : TransportScopeSnapshot) : Result (list ScopeDriftItem) js_error :=
  let! i1 := diffValue "SCOPE_POLICY_CHANGED" "policy_sha256" (JStr (ss_policy_sha256 a)) (JStr (ss_policy_sha256 b)) in
  let! i2 := diffValue "SCOPE_ENTRY_POINTS_CHANGED" "entry_points" (JArr (map JStr (ss_entry_points a))) (JArr (map JStr (ss_entry_points b))) in
  let! i3 := diffKeyed "SCOPED_SOURCE_CHANGED" (sources_keyed a) (sources_keyed b) in
  let! i4 := diffKeyed "SCOPED_DEPENDENCY_CHANGED" (versionsByName a) (versionsByName b) in
  let! i5 := diffValue "SCOPED_LOCKFILE_CHANGED" "lockfile_sha256" (JStr (ss_lockfile_sha256 a)) (JStr (ss_lockfile_sha256 b)) in
  let! i6 := diffKeyed "SCOPED_CONFIGURATION_CHANGED" (projections_keyed a) (projections_keyed b) in
  let! i7 := diffKeyed "SCOPED_RUNTIME_PROPERTY_CHANGED" (map_of (runtime_json (ss_runtime_properties a))) (map_of (runtime_json (ss_runtime_properties b))) in
  let! i8 := diffKeyed "SCOPED_TIMING_CHANGED" (timing_keyed a) (timing_keyed b) in
  let! i9 := diffValue "SCOPED_WARMUP_POLICY_CHANGED" "provider_warmup" (warmup_json a) (warmup_json b) in
  Ok (i1 ++ i2 ++ i3 ++ i4 ++ i5 ++ i6 ++ i7 ++ i8 ++ i9).

Definition driftReason (i : ScopeDriftItem) : Result StructuredReason js_error :=
  let! a := canonicalJson (d_selected i) in
  let! b := canonicalJson (d_recomputed i) in
  Ok (reason (drift_code i) SCOPE_REASON_SUBJECT (drift_subject i +:+ ": selected probe scope has " +:+ a +:+ ", current committed source has " +:+ b
       +:+ "; expected identical scope, otherwise a new transport probe is required")).

Fixpoint drift_reasons (items : list ScopeDriftItem) : Result (list StructuredReason) js_error :=
  match items with
  | [] => Ok []
  | i :: rest => let! r := driftReason i in let! rs := drift_reasons rest in Ok (r :: rs)
  end.

Definition compareScopeSnapshots (selected recomputed : TransportScopeSnapshot) : Result ScopeDriftAssessment js_error :=
  let! selectedSha256 := scopeSnapshotSha256 selected in
  let! recomputedSha256 := scopeSnapshotSha256 recomputed in
  if bool_decide (selectedSha256 = recomputedSha256) then Ok (no_drift selectedSha256)
  else
    let! fieldItems := itemizeDrift selected recomputed in
    let items := match fieldItems with
                 | [] => [MkItem "SCOPE_SNAPSHOT_CHANGED" "transport_scope_snapshot" (JStr selectedSha256) (JStr recomputedSha256)]
                 | _ => fieldItems
                 end in
    let! rs := drift_reasons items in
    Ok (drift selectedSha256 recomputedSha256 items rs).

(** ** The recomputation (scope-recomputation.ts) *)

(** A port's call answers or fails with the message of what it threw. *)
Record ScopeRecomputationPorts := MkPorts {
  listFiles : list string -> Result (list string) string;
  read : string -> Result (option (list Z)) string;
  bundler_runtime_properties : list (string * RuntimePropertyValue);
  resolve : list string -> Result (list BundleInputs) string;
  installedVersion : string -> Result (option string) string;
  validator : Ingestion.RecordValidator;
}.

Record ScopeEnvironment := MkEnvironment {
  env_template : CfnTemplate;
  env_runtime : list (string * RuntimePropertyValue);
  env_timing : ScopeTimingValues;
  env_provider_warmup : Z;
}.

Definition attempt {T} (operation : Result T string) (c action expected : string) : Result T (list StructuredReason) :=
  match operation with
  | Ok v => Ok v
  | Err message => Err [scopeViolation c (action +:+ " failed: " +:+ message +:+ "; " +:+ expected)]
  end.

Section recompute.
Context (JSON_parse : string -> Result json string) (policyOf : json -> TransportScopePolicy) (ports : ScopeRecomputationPorts).

Definition readSource (path : string) : Result (option (list Z)) (list StructuredReason) :=
  attempt (read ports path) "SOURCE_READ_FAILED" ("reading committed " +:+ path) "expected the admitted revision to be readable".

Definition readCommitted (path absentCode : string) : Result (list Z) (list StructuredReason) :=
  let! bytes := readSource path in
  match bytes with
  | Some b => Ok b
  | None => Err [scopeViolation absentCode (path +:+ " is not committed at the admitted revision; expected a committed file")]
  end.

(** The loop over the paths, which returns at the first failure; the digest of each committed one. *)
Fixpoint digest_paths (paths : list string) : Result (list (string * string)) (list StructuredReason) :=
  match paths with
  | [] => Ok []
  | path :: rest =>
      let! bytes := readSource path in
      let! digests := digest_paths rest in
      Ok (match bytes with Some b => (path, sha256Hex b) :: digests | None => digests end)
  end.
Definition committedDigests (paths : list string) : Result (list (string * string)) (list StructuredReason) :=
  digest_paths (List.filter isPackageRelativePath (unique paths)).

Fixpoint version_paths (installPaths : list string) : Result (list (string * string)) (list StructuredReason) :=
  match installPaths with
  | [] => Ok []
  | path :: rest =>
      let! version := attempt (installedVersion ports path) "INSTALLED_PACKAGE_UNREADABLE" ("reading the installed " +:+ path +:+ "/package.json")
                        "expected the installed package manifest to be readable" in
      let! versions := version_paths rest in
      Ok (match version with Some v => (path, v) :: versions | None => versions end)
  end.
Definition installedVersions (installPaths : list string) : Result (list (string * string)) (list StructuredReason) :=
  version_paths (List.filter isPackageRelativePath installPaths).

(** [restated === value]: a number that is none equals nothing. *)
Definition same_primitive (a b : RuntimePropertyValue) : bool :=
  match a, b with
  | text_value x, text_value y => bool_decide (x = y)
  | boolean_value x, boolean_value y => Bool.eqb x y
  | number_value x, number_value y => bool_decide (x = y) && negb (bool_decide (x = JSOther "NaN"))
  | _, _ => false
  end.

Definition bundlerRuntime (environment bundler : list (string * RuntimePropertyValue)) :
  Result (list (string * RuntimePropertyValue)) (list StructuredReason) :=
  let conflicts := flat_map (fun '(name, value) =>
    match map_get name environment with
    | None => []
    | Some restated =>
        if same_primitive restated value then []
        else [scopeViolation "RUNTIME_PROPERTY_INVALID"
                ("runtime property " +:+ name +:+ " is " +:+ quoted (value_json restated) +:+ " in the admission environment but the bundler resolved with "
                 +:+ quoted (value_json value) +:+ "; expected the bundler's value")]
    end) bundler in
  match conflicts with
  | [] => Ok (fold_left (fun m e => map_set e.1 e.2 m) bundler environment)
  | _ => Err conflicts
  end.

Definition recomputeScopeSnapshot (environment : ScopeEnvironment) : Result TransportScopeSnapshot (list StructuredReason) :=
  let! policyBytes := readCommitted TRANSPORT_SCOPE_POLICY_PATH "SCOPE_POLICY_UNREADABLE" in
  let! loaded := parseTransportScopePolicy JSON_parse sha256Hex (validator ports) policyOf policyBytes in
  let! lockBytes := readCommitted PACKAGE_LOCK_PATH "LOCKFILE_UNREADABLE" in
  let! lock_ := match parsePackageLock JSON_parse lockBytes with Ok l => Ok l | Err e => Err [e] end in
  let! runtime_ := bundlerRuntime (env_runtime environment) (bundler_runtime_properties ports) in
  let entryPoints := entry_points (policy loaded) in
  let! bundles_ := attempt (resolve ports entryPoints) "BUNDLE_RESOLUTION_FAILED" ("bundling " +:+ quoted (JArr (map JStr entryPoints)))
                     "expected every entry point and import to resolve" in
  let roots := source_roots (policy loaded) in
  let! committedFiles := attempt (listFiles ports roots) "SOURCE_READ_FAILED" ("listing the committed files under " +:+ quoted (JArr (map JStr roots)))
                           "expected the admitted revision to be readable" in
  let! digests := committedDigests (committedFiles ++ flat_map local_sources bundles_) in
  let! installed := installedVersions (closureInstallPaths (flat_map packages bundles_) (dependencies (policy loaded))) in
  computeScopeSnapshot (MkInput loaded bundles_ committedFiles digests lock_ installed (env_template environment) runtime_ (env_timing environment)
    (env_provider_warmup environment)).
End recompute.
End snapshot.
End ScopeSnapshot.
