(* ===== verification/ScopeCorrect.v ===== *)
(** * The walk that normalizes a template value is its recursive reading *)

From S2P Require Import Prelude Store Scope.
Import Json Scope.

Module ScopeCorrect.

(** ** The walk of a value *)

Section walk.
Context (references : list (string * string)).

(** The recursive reading. *)
Fixpoint normal (getAtt : bool) (v : json) : json :=
  match v with
  | JStr s => JStr (normalizeCfnString s)
  | JArr items =>
      JArr ((fix go (i : nat) (l : list json) : list json :=
        match l with
        | [] => []
        | x :: rest => match is_reference getAtt i x with Some s => JStr (referencedName references s) | None => normal false x end :: go (S i) rest
        end) O items)
  | JObj ms =>
      match kept_members ms with
      | [("Ref", JStr ref)] => JObj [("Ref", JStr (referencedName references ref))]
      | _ =>
          let b := bool_decide (only_key (kept_members ms) = Some "Fn::GetAtt") in
          JObj ((fix go (l : list (string * json)) : list (string * json) :=
            match l with
            | [] => []
            | m :: rest => if negb (memb m.1 STRIPPED_PROPERTY_KEYS) then (m.1, normal b m.2) :: go rest else go rest
            end) ms)
      end
  | _ => v
  end.

Definition normal_item (getAtt : bool) (i : nat) (x : json) : json :=
  match is_reference getAtt i x with Some s => JStr (referencedName references s) | None => normal false x end.

Lemma normal_array getAtt items : normal getAtt (JArr items) = JArr (imap (normal_item getAtt) items).
Proof.
  cbn [normal]. f_equal. assert (H : forall k, (fix go (i : nat) (l : list json) : list json :=
        match l with
        | [] => []
        | x :: rest => match is_reference getAtt i x with Some s => JStr (referencedName references s) | None => normal false x end :: go (S i) rest
        end) k items = imap (fun i x => normal_item getAtt (k + i) x) items).
  { induction items as [|x items IH]; intros k; [done|]. rewrite IH. cbn [imap]. rewrite Nat.add_0_r. f_equal.
    apply imap_ext. intros i y _. unfold compose. by rewrite Nat.add_succ_comm. }
  apply H.
Qed.

Definition is_ref (ms : list (string * json)) : option string := match ms with [("Ref", JStr ref)] => Some ref | _ => None end.

Lemma normal_object getAtt ms : normal getAtt (JObj ms) =
  match is_ref (kept_members ms) with
  | Some ref => JObj [("Ref", JStr (referencedName references ref))]
  | None => JObj (map (fun m => (m.1, normal (bool_decide (only_key (kept_members ms) = Some "Fn::GetAtt")) m.2)) (kept_members ms))
  end.
Proof.
  cbn [normal]. set (b := bool_decide _). clearbody b.
  assert (H : (fix go (l : list (string * json)) : list (string * json) :=
            match l with
            | [] => []
            | m :: rest => if negb (memb m.1 STRIPPED_PROPERTY_KEYS) then (m.1, normal b m.2) :: go rest else go rest
            end) ms = map (fun m => (m.1, normal b m.2)) (kept_members ms)).
  { unfold kept_members. induction ms as [|m ms IH]; [done|]. cbn [List.filter]. rewrite IH. by destruct (negb _). }
  rewrite H. unfold is_ref. by repeat case_match.
Qed.

Lemma normalizeObject_eq ms path : normalizeObject references ms path =
  match is_ref (kept_members ms) with
  | Some ref => (JObj [("Ref", JStr (referencedName references ref))], [])
  | None => (JObj (map (fun m => (m.1, JNull)) (kept_members ms)),
             imap (fun i m => MkPending m.2 (path ++ [i]) (bool_decide (only_key (kept_members ms) = Some "Fn::GetAtt"))) (kept_members ms))
  end.
Proof. unfold normalizeObject, is_ref. by repeat case_match. Qed.

Lemma alter_imap {A} (v : A -> A) i l : alter v i l = imap (fun j x => if decide (j = i) then v x else x) l.
Proof.
  apply list_eq. intros j. rewrite list_lookup_imap. destruct (decide (j = i)) as [->|Hne].
  - by rewrite list_lookup_alter_eq.
  - rewrite list_lookup_alter_ne by done. by destruct (l !! j).
Qed.

Lemma imap_twice {A B C} (g : nat -> B -> C) (f : nat -> A -> B) l : imap g (imap f l) = imap (fun i x => g i (f i x)) l.
Proof. apply list_eq. intros i. rewrite !list_lookup_imap. by destruct (l !! i). Qed.

Lemma imap_same {A} (f : nat -> A -> A) l : (forall i x, f i x = x) -> imap f l = l.
Proof. intros H. apply list_eq. intros i. rewrite list_lookup_imap. destruct (l !! i); cbn; [by rewrite H|done]. Qed.

Lemma list_lookup_map {A B} (g : A -> B) l (i : nat) : map g l !! i = option_map g (l !! i).
Proof. apply list_lookup_fmap. Qed.

Lemma place_place path path' x v tree : place (path ++ path') v (place path x tree) = place path (place path' v x) tree.
Proof.
  revert tree. induction path as [|i path IH]; intros tree; [done|]. cbn [app place].
  destruct tree; try done; f_equal; rewrite list_alter_alter_eq; (apply list_alter_ext; [|done]); intros y _; unfold compose; cbn [fst snd]; by rewrite IH.
Qed.

(** A child scheduled: its index, its flag and its value. *)
Record child := MkChild { c_index : nat; c_flag : bool; c_value : json }.
Definition pend (path : list nat) (c : child) : PendingValue := MkPending (c_value c) (path ++ [c_index c]) (c_flag c).
Definition fill (x : json) (c : child) : json := place [c_index c] (normal (c_flag c) (c_value c)) x.
Definition indexes (cs : list child) : list nat := map c_index cs.

Lemma fill_array (f : nat -> json) cs l : (forall c, c ∈ cs -> normal (c_flag c) (c_value c) = f (c_index c)) ->
  fold_left fill cs (JArr l) = JArr (imap (fun i x => if decide (i ∈ indexes cs) then f i else x) l).
Proof.
  revert l. induction cs as [|c cs IH]; intros l Hf.
  - cbn [fold_left indexes map]. f_equal. symmetry. apply imap_same. intros i x. case_decide as H; [by apply not_elem_of_nil in H|done].
  - cbn [fold_left]. unfold fill at 2. cbn [place]. rewrite alter_imap, IH by (intros d Hd; apply Hf; by right). f_equal. rewrite imap_twice. apply imap_ext.
    intros i x _. rewrite (Hf c) by left. unfold indexes. cbn [map]. destruct (decide (i = c_index c)) as [->|Hne].
    + rewrite (decide_True (P := c_index c ∈ _ :: _)) by left. by case_decide.
    + destruct (decide (i ∈ map c_index cs)) as [Hi|Hi]; [by rewrite decide_True by by right|]. rewrite decide_False; [done|]. by intros [?|?]%elem_of_cons.
Qed.

Lemma fill_object (f : nat -> json) cs ms : (forall c, c ∈ cs -> normal (c_flag c) (c_value c) = f (c_index c)) ->
  fold_left fill cs (JObj ms) = JObj (imap (fun i m => (m.1, if decide (i ∈ indexes cs) then f i else m.2)) ms).
Proof.
  revert ms. induction cs as [|c cs IH]; intros ms Hf.
  - cbn [fold_left indexes map]. f_equal. symmetry. apply imap_same. intros i [k x]. case_decide as H; [by apply not_elem_of_nil in H|done].
  - cbn [fold_left]. unfold fill at 2. cbn [place]. rewrite alter_imap, IH by (intros d Hd; apply Hf; by right). f_equal. rewrite imap_twice. apply imap_ext.
    intros i [k x] _. rewrite (Hf c) by left. unfold indexes. cbn [map fst snd]. destruct (decide (i = c_index c)) as [->|Hne]; cbn [fst snd].
    + rewrite (decide_True (P := c_index c ∈ _ :: _)) by left. by case_decide.
    + destruct (decide (i ∈ map c_index cs)) as [Hi|Hi]; [by rewrite (decide_True (P := i ∈ _ :: _)) by by right|].
      rewrite (decide_False (P := i ∈ _ :: _)); [done|]. by intros [?|?]%elem_of_cons.
Qed.

(** The turns a value takes are at most its values, and leave its normal form at its place. *)
Definition walks (v : json) : Prop := forall getAtt, exists used, (used <= value_count v)%nat /\ forall path tree fuel rest,
  normalize_loop references (used + fuel) (MkPending v path getAtt :: rest) tree
  = normalize_loop references fuel rest (place path (normal getAtt v) tree).

Lemma run_children cs : (forall c, c ∈ cs -> walks (c_value c)) ->
  exists used, (used <= sum_list_with (fun c => value_count (c_value c)) cs)%nat /\ forall path x tree fuel rest,
    normalize_loop references (used + fuel) (map (pend path) cs ++ rest) (place path x tree)
    = normalize_loop references fuel rest (place path (fold_left fill cs x) tree).
Proof.
  induction cs as [|c cs IH]; intros H; [by exists O|]. destruct (H c ltac:(left) (c_flag c)) as (used & Hu & Hrun).
  destruct IH as (used' & Hu' & Hrun'); [intros d Hd; apply H; by right|]. exists (used + used')%nat. split; [cbn; lia|]. intros path x tree fuel rest.
  cbn [map app]. rewrite <- Nat.add_assoc. unfold pend at 1. rewrite Hrun, place_place. apply Hrun'.
Qed.

Lemma one_turn fuel v path getAtt rest tree normalized cs :
  normalizeShallow references (MkPending v path getAtt) = (normalized, map (pend path) cs) ->
  normalize_loop references (S fuel) (MkPending v path getAtt :: rest) tree
  = normalize_loop references fuel (map (pend path) (rev cs) ++ rest) (place path normalized tree).
Proof. intros E. cbn [normalize_loop]. rewrite E. by rewrite map_rev. Qed.

Lemma walks_of v : (forall getAtt, exists normalized cs, (forall path, normalizeShallow references (MkPending v path getAtt) = (normalized, map (pend path) cs))
    /\ (forall c, c ∈ cs -> walks (c_value c)) /\ (sum_list_with (fun c => value_count (c_value c)) (rev cs) < value_count v)%nat
    /\ fold_left fill (rev cs) normalized = normal getAtt v) -> walks v.
Proof.
  intros H getAtt. destruct (H getAtt) as (normalized & cs & Hs & Hc & Hn & Hf). destruct (run_children (rev cs)) as (used & Hu & Hrun).
  { intros c Hin. apply Hc. rewrite list_elem_of_In in Hin |- *. by apply in_rev. }
  exists (S used). split; [lia|]. intros path tree fuel rest. change (S used + fuel)%nat with (S (used + fuel)).
  rewrite (one_turn _ _ _ _ _ _ normalized cs) by apply Hs. rewrite Hrun. by rewrite Hf.
Qed.

Lemma walks_leaf v : (forall path getAtt, normalizeShallow references (MkPending v path getAtt) = (normal getAtt v, [])) -> (0 < value_count v)%nat -> walks v.
Proof. intros H Hn. apply walks_of. intros getAtt. exists (normal getAtt v), []. split; [by intros; apply H|]. split; [by intros c ?%not_elem_of_nil|done]. Qed.

(** The children a container schedules. *)
Definition children_of {A} (h : nat -> A -> option child) (l : list A) : list child := omap id (imap h l).

Lemma children_elem {A} (h : nat -> A -> option child) l c : c ∈ children_of h l <-> exists i x, l !! i = Some x /\ h i x = Some c.
Proof.
  unfold children_of. rewrite list_elem_of_omap. split.
  - intros (o & Ho & Hc). apply elem_of_lookup_imap in Ho as (i & x & -> & Hx). by exists i, x.
  - intros (i & x & Hx & Hc). exists (Some c). split; [|done]. rewrite <- Hc. by apply elem_of_lookup_imap_2.
Qed.

Lemma children_pend {A} (h : nat -> A -> option child) (g : nat -> A -> option PendingValue) path l :
  (forall i x, g i x = option_map (pend path) (h i x)) -> omap id (imap g l) = map (pend path) (children_of h l).
Proof.
  unfold children_of. revert h g. induction l as [|x l IH]; intros h g H; [done|]. cbn [imap omap list_omap].
  rewrite (IH (h ∘ S) (g ∘ S)) by (intros; apply H). rewrite H. by destruct (h 0%nat x).
Qed.

Lemma children_count {A} (h : nat -> A -> option child) (size : A -> nat) l :
  (forall i x c, h i x = Some c -> value_count (c_value c) = size x) ->
  (sum_list_with (fun c => value_count (c_value c)) (rev (children_of h l)) <= sum_list_with size l)%nat.
Proof.
  intros H. rewrite <- (Permutation_rev (children_of h l)). unfold children_of. revert h H. induction l as [|x l IH]; intros h H; [done|].
  cbn [imap omap list_omap]. specialize (IH (h ∘ S)). unfold id at 1. destruct (h 0%nat x) as [c|] eqn:E.
  - cbn. rewrite (H 0%nat x c E). apply Nat.add_le_mono_l, IH. intros i y d. apply H.
  - cbn. etrans; [apply IH; intros i y d; apply H|]. lia.
Qed.

Lemma in_indexes {A} (h : nat -> A -> option child) l i x : (forall i x c, h i x = Some c -> c_index c = i) -> l !! i = Some x ->
  i ∈ indexes (rev (children_of h l)) <-> is_Some (h i x).
Proof.
  intros Hi Hx. unfold indexes. rewrite list_elem_of_fmap. split.
  - intros (c & -> & Hc). rewrite list_elem_of_In, <- in_rev, <- list_elem_of_In in Hc. apply children_elem in Hc as (j & y & Hy & Hc).
    pose proof (Hi _ _ _ Hc) as <-. assert (y = x) as -> by congruence. by exists c.
  - intros [c Hc]. exists c. split; [symmetry; by eapply Hi|]. rewrite list_elem_of_In, <- in_rev, <- list_elem_of_In. apply children_elem. by exists i, x.
Qed.

Lemma imap_some {A B} (g : nat -> A -> B) l : imap g l = omap id (imap (fun i x => Some (g i x)) l).
Proof. revert g. induction l as [|x l IH]; intros g; [done|]. cbn [imap omap list_omap id]. by rewrite (IH (g ∘ S)). Qed.

Definition array_child (getAtt : bool) (i : nat) (x : json) : option child :=
  match is_reference getAtt i x with Some _ => None | None => Some (MkChild i false x) end.

Lemma walks_array items : Forall walks items -> walks (JArr items).
Proof.
  intros Hall. rewrite Forall_forall in Hall. apply walks_of. intros getAtt.
  exists (JArr (imap (fun i m => match is_reference getAtt i m with Some s => JStr (referencedName references s) | None => JNull end) items)),
    (children_of (array_child getAtt) items).
  assert (Hc : forall i x c, array_child getAtt i x = Some c -> c = MkChild i false x /\ is_reference getAtt i x = None).
  { intros i x c. unfold array_child. destruct (is_reference getAtt i x); [done|]. by intros [= <-]. }
  split; [|split; [|split]].
  - intros path. cbn [normalizeShallow source getAttOperand at_place]. unfold normalizeArray. f_equal. apply children_pend.
    intros i x. unfold array_child. by destruct (is_reference getAtt i x).
  - intros c (i & x & Hx & Hh)%children_elem. apply Hc in Hh as [-> _]. apply Hall. by eapply list_elem_of_lookup_2.
  - cbn [value_count]. apply Nat.lt_succ_r, children_count. by intros i x c [-> _]%Hc.
  - rewrite normal_array. set (f := fun i => match items !! i with Some x => normal_item getAtt i x | None => JNull end).
    rewrite (fill_array f).
    + f_equal. rewrite imap_twice. apply list_eq. intros i. rewrite !list_lookup_imap. destruct (items !! i) as [x|] eqn:Hx; [|done]. cbn [fmap option_fmap option_map]. f_equal.
      pose proof (in_indexes (array_child getAtt) items i x ltac:(by intros ? ? ? [-> _]%Hc) Hx) as Hin. unfold f, normal_item. rewrite Hx.
      unfold array_child in Hin. destruct (is_reference getAtt i x) eqn:Er; case_decide as Hd; try done.
      exfalso. apply Hd, Hin. by eexists.
    + intros c Hin. rewrite list_elem_of_In, <- in_rev, <- list_elem_of_In in Hin. apply children_elem in Hin as (i & x & Hx & Hh). apply Hc in Hh as [-> Hr].
      unfold f, normal_item. cbn [c_index c_flag c_value]. by rewrite Hx, Hr.
Qed.

Lemma walks_object ms : Forall (fun m => walks m.2) ms -> walks (JObj ms).
Proof.
  intros Hall. rewrite Forall_forall in Hall. apply walks_of. intros getAtt.
  destruct (is_ref (kept_members ms)) as [ref|] eqn:Er.
  { exists (JObj [("Ref", JStr (referencedName references ref))]), []. split; [|split; [by intros c ?%not_elem_of_nil|split; [cbn; lia|]]].
    - intros path. cbn [normalizeShallow source getAttOperand at_place]. by rewrite normalizeObject_eq, Er.
    - by rewrite normal_object, Er. }
  set (b := bool_decide (only_key (kept_members ms) = Some "Fn::GetAtt")).
  set (h := fun i (m : string * json) => Some (MkChild i b m.2)).
  exists (JObj (map (fun m => (m.1, JNull)) (kept_members ms))), (children_of h (kept_members ms)).
  split; [|split; [|split]].
  - intros path. cbn [normalizeShallow source getAttOperand at_place]. rewrite normalizeObject_eq, Er. f_equal. fold b.
    rewrite <- (children_pend h (fun i m => Some (MkPending m.2 (path ++ [i]) b))) by done. apply imap_some.
  - intros c (i & m & Hm & [= <-])%children_elem. apply list_elem_of_lookup_2, elem_of_filter_bool in Hm as [Hm _]. by apply (Hall m).
  - cbn [value_count]. apply Nat.lt_succ_r. etrans; [apply (children_count h (fun m => value_count m.2)); by intros i m c [= <-]|].
    unfold kept_members. clear. induction ms as [|m ms IH]; [done|]. cbn [List.filter]. destruct (negb _); cbn; lia.
  - rewrite normal_object, Er. fold b. set (f := fun i => match kept_members ms !! i with Some m => normal b m.2 | None => JNull end).
    rewrite (fill_object f).
    + f_equal. apply list_eq. intros i. rewrite list_lookup_imap, !list_lookup_map. destruct (kept_members ms !! i) as [m|] eqn:Hm; [|done].
      cbn [fmap option_fmap option_map fst snd]. unfold f. rewrite Hm, decide_True; [done|].
      apply (in_indexes h (kept_members ms) i m); [by intros ? ? ? [= <-]|done|by eexists].
    + intros c Hin. rewrite list_elem_of_In, <- in_rev, <- list_elem_of_In in Hin. apply children_elem in Hin as (i & m & Hm & [= <-]).
      unfold f. cbn [c_index c_flag c_value]. by rewrite Hm.
Qed.

Lemma every_walk v : walks v.
Proof.
  induction v as [| | | |items IH|ms IH] using json_ind'; try (apply walks_leaf; [done|cbn; lia]); [by apply walks_array|by apply walks_object].
Qed.

(** The walk of a value ends within one turn per value and gives its recursive reading. *)
Lemma normalize_walk v fuel : (value_count v <= fuel)%nat ->
  normalize_loop references fuel [MkPending v [] false] JNull = Some (normal false v) /\ normalizeCfnValue references v = normal false v.
Proof.
  intros Hf. destruct (every_walk v false) as (used & Hu & Hrun).
  assert (H : forall n, (used <= n)%nat -> normalize_loop references n [MkPending v [] false] JNull = Some (normal false v)).
  { intros n Hn. replace n with (used + (n - used))%nat by lia. rewrite Hrun. by destruct (n - used)%nat. }
  split; [apply H; lia|]. unfold normalizeCfnValue. by rewrite H.
Qed.
End walk.

(** C39: the walk that normalizes a selected template value always ends and loses nothing. Its work list, which takes the last value
    scheduled and writes each normalized value at its own place, ends within one turn per value, however deep the value is, and what
    it has built is the recursive reading: every string normalized, stripped members gone, a lone [Ref] and the name an
    [Fn::GetAtt] starts with replaced by what they name, and every other member and item normalized in its place. *)
Theorem normalize_walk_exact (references : list (string * string)) (v : json) (extra : nat) :
  normalize_loop references (value_count v + extra) [MkPending v [] false] JNull = Some (normal references false v)
  /\ normalizeCfnValue references v = normal references false v.
Proof. apply normalize_walk. lia. Qed.
End ScopeCorrect.
