(* ===== verification/ScopeSnapshotCorrect.v ===== *)
(** * A scope snapshot binds what a probe exercised

    A recomputed snapshot binds exactly the committed files, the locked and installed packages and the configuration its policy
    names; two snapshots drift exactly when they differ, and the items say where. *)

From S2P Require Import Prelude AttemptLifecycle Timestamps Decimals Store JsonText Parsing Controller Evidence Journal TrialMessage Oracle Ingestion IngestionCorrect Canonical Package Scope ScopeSnapshot.
Import Json JsonText Scope ScopeSnapshot.
Import Evidence(map_get).
Import Journal(unique, canonicalJson).
Import Oracle(map_set).
Import IngestionCorrect(json_same, map_get_elem).
Import Canonical(well_formed, well_spelled, well_formed_items, well_formed_members, items_same_iff, members_same_iff, canonical_texts).
Open Scope Z_scope.

Module ScopeSnapshotCorrect.

(** ** Maps *)

Lemma map_get_set {V} key key' (v : V) m : map_get key (map_set key' v m) = if bool_decide (key' = key) then Some v else map_get key m.
Proof.
  induction m as [|[k w] m IH]; cbn [map_set map_get]; [done|].
  destruct (bool_decide_reflect (k = key')) as [->|Hne]; cbn [map_get]; [by case_bool_decide|].
  rewrite IH. destruct (bool_decide_reflect (k = key)) as [->|]; [|done]. by rewrite bool_decide_eq_false_2.
Qed.

Lemma map_get_None {V} key (m : list (string * V)) : map_get key m = None <-> key ∉ map fst m.
Proof.
  induction m as [|[k w] m IH]; cbn [map_get map fst]; [split; [by intros _ ?%not_elem_of_nil|done]|]. case_bool_decide as E; set_solver.
Qed.

Lemma map_get_unique {V} key (v : V) m : NoDup (map fst m) -> (key, v) ∈ m -> map_get key m = Some v.
Proof.
  induction m as [|[k w] m IH]; [by intros _ ?%not_elem_of_nil|]. cbn [map fst map_get]. intros [Hk Hn]%NoDup_cons [[= -> ->]|Hin]%elem_of_cons.
  - by rewrite bool_decide_eq_true_2.
  - rewrite bool_decide_eq_false_2; [by apply IH|]. intros ->. apply Hk. by apply (list_elem_of_fmap_2 fst _ (key, v)).
Qed.

Lemma map_set_keys {V} key (v : V) m : NoDup (map fst m) -> NoDup (map fst (map_set key v m)) /\ forall k, k ∈ map fst (map_set key v m) <-> k = key \/ k ∈ map fst m.
Proof.
  induction m as [|[k w] m IH]; intros Hn; cbn [map_set]; [split; [repeat constructor; by intros ?%not_elem_of_nil|set_solver]|].
  cbn [map fst] in Hn. apply NoDup_cons in Hn as [Hk Hn]. destruct (IH Hn) as [IHn IHk]. case_bool_decide as E; cbn [map fst].
  - subst k. split; [by constructor|]. intros x. rewrite elem_of_cons. tauto.
  - split; [constructor; [rewrite IHk; by intros [->|?]|done]|]. intros x. rewrite !elem_of_cons, IHk. tauto.
Qed.

(** A map built from entries holds values of those entries. *)
Lemma map_of_elem entries key v : map_get key (map_of entries) = Some v -> (key, v) ∈ entries.
Proof.
  unfold map_of. assert (H : forall m, map_get key (fold_left (fun m e => map_set e.1 e.2 m) entries m) = Some v -> map_get key m = Some v \/ (key, v) ∈ entries).
  { induction entries as [|[k w] entries IH]; intros m; [by left|]. cbn [fold_left fst snd]. intros [H|H]%IH; [|right; by right].
    rewrite map_get_set in H. case_bool_decide as E; [injection H as ->; subst; right; left|by left]. }
  intros [?|?]%H; done.
Qed.

(** ** Differences *)

Definition member_json (m : list (string * json)) (key : string) : json := nullish (map_get key m) JNull.
Definition formed_map (m : list (string * json)) : Prop := forall key v, map_get key m = Some v -> well_formed v.

Lemma member_formed m key : formed_map m -> well_formed (member_json m key).
Proof. intros H. unfold member_json. destruct (map_get key m) as [v|] eqn:E; [by apply (H key)|done]. Qed.

(** One field that differs, and the keys of a map that differ. *)
Definition differs (c s : string) (va vb : json) (i : ScopeDriftItem) : Prop := i = MkItem c s va vb /\ json_same va vb = false.
Definition differs_by_key (c : string) (ma mb : list (string * json)) (i : ScopeDriftItem) : Prop :=
  exists key, differs c key (member_json ma key) (member_json mb key) i.

Lemma diffValue_exact c s va vb : well_formed va -> well_formed vb -> exists ds, diffValue c s va vb = Ok ds /\ forall i, i ∈ ds <-> differs c s va vb i.
Proof.
  intros Ha Hb. destruct (canonical_texts va vb Ha Hb) as (ta & tb & Hta & Htb & H). unfold diffValue. rewrite Hta, Htb. cbn [bind_result].
  eexists. split; [done|]. intros i. unfold differs. destruct (json_same va vb) eqn:E.
  - rewrite bool_decide_eq_true_2 by by apply H. split; [by intros ?%not_elem_of_nil|by intros []].
  - rewrite bool_decide_eq_false_2 by (intros Ht; apply H in Ht; congruence). rewrite list_elem_of_singleton. naive_solver.
Qed.

Lemma diff_keys_exact c ma mb keys : formed_map ma -> formed_map mb ->
  exists ds, diff_keys c ma mb keys = Ok ds /\ forall i, i ∈ ds <-> exists key, key ∈ keys /\ differs c key (member_json ma key) (member_json mb key) i.
Proof.
  intros Ha Hb. induction keys as [|key keys (ds & Hds & Hi)].
  - exists []. split; [done|]. intros i. split; [by intros ?%not_elem_of_nil|]. by intros (? & ?%not_elem_of_nil & _).
  - cbn [diff_keys]. destruct (diffValue_exact c key _ _ (member_formed ma key Ha) (member_formed mb key Hb)) as (d & Hd & Hdi).
    unfold member_json in Hd. rewrite Hd. cbn [bind_result]. rewrite Hds. cbn [bind_result]. eexists. split; [done|]. intros i.
    rewrite elem_of_app, Hdi, Hi. split.
    + intros [H|(k & Hk & H)]; [exists key; split; [left|done]|exists k; split; [by right|done]].
    + intros (k & [->|Hk]%elem_of_cons & H); [by left|right; by exists k].
Qed.

Lemma diffKeyed_exact c ma mb : formed_map ma -> formed_map mb -> exists ds, diffKeyed c ma mb = Ok ds /\ forall i, i ∈ ds <-> differs_by_key c ma mb i.
Proof.
  intros Ha Hb. unfold diffKeyed. destruct (diff_keys_exact c ma mb (sortedSet (map fst ma ++ map fst mb)) Ha Hb) as (ds & Hds & Hi).
  exists ds. split; [done|]. intros i. rewrite Hi. split; [intros (key & _ & H); by exists key|]. intros (key & H). exists key. split; [|done].
  unfold sortedSet. rewrite isort_elem, Journal.unique_elem, elem_of_app.
  destruct (decide (key ∈ map fst ma)) as [|Hna]; [by left|]. destruct (decide (key ∈ map fst mb)) as [|Hnb]; [by right|]. exfalso.
  apply map_get_None in Hna, Hnb. destruct H as [_ H]. unfold member_json in H. by rewrite Hna, Hnb in H.
Qed.

(** ** Snapshots *)

(** What every valid snapshot is: the runtime names are distinct and the numbers finite and well spelled. *)
Definition formed_snapshot (s : TransportScopeSnapshot) : Prop :=
  NoDup (map fst (ss_runtime_properties s)) /\ (forall e, e ∈ ss_runtime_properties s -> well_formed (value_json e.2))
  /\ (forall e, e ∈ timingByName (timing_values s) -> well_spelled e.2).

(** The nine comparisons of two snapshots, and what each item says. *)
Definition field_differs (a b : TransportScopeSnapshot) (i : ScopeDriftItem) : Prop :=
  differs "SCOPE_POLICY_CHANGED" "policy_sha256" (JStr (ss_policy_sha256 a)) (JStr (ss_policy_sha256 b)) i
  \/ differs "SCOPE_ENTRY_POINTS_CHANGED" "entry_points" (JArr (map JStr (ss_entry_points a))) (JArr (map JStr (ss_entry_points b))) i
  \/ differs_by_key "SCOPED_SOURCE_CHANGED" (sources_keyed a) (sources_keyed b) i
  \/ differs_by_key "SCOPED_DEPENDENCY_CHANGED" (versionsByName a) (versionsByName b) i
  \/ differs "SCOPED_LOCKFILE_CHANGED" "lockfile_sha256" (JStr (ss_lockfile_sha256 a)) (JStr (ss_lockfile_sha256 b)) i
  \/ differs_by_key "SCOPED_CONFIGURATION_CHANGED" (projections_keyed a) (projections_keyed b) i
  \/ differs_by_key "SCOPED_RUNTIME_PROPERTY_CHANGED" (map_of (runtime_json (ss_runtime_properties a))) (map_of (runtime_json (ss_runtime_properties b))) i
  \/ differs_by_key "SCOPED_TIMING_CHANGED" (timing_keyed a) (timing_keyed b) i
  \/ differs "SCOPED_WARMUP_POLICY_CHANGED" "provider_warmup" (warmup_json a) (warmup_json b) i.

Lemma strings_formed l : well_formed (JArr (map JStr l)).
Proof. apply well_formed_items. by intros x (s & -> & _)%list_elem_of_fmap. Qed.

Ltac distinct := apply (bool_decide_unpack _); vm_compute; exact I.

Lemma resource_formed r : well_formed (projectedResourceJson r).
Proof.
  unfold projectedResourceJson. apply well_formed_members. split; [distinct|]. intros m ->%list_elem_of_singleton. cbn [snd]. apply well_formed_items.
  intros x (p & -> & _)%list_elem_of_fmap. unfold projectedPropertyJson. destruct (canonical_json p); apply well_formed_members; (split; [distinct|]);
    intros m Hm; repeat (apply elem_of_cons in Hm as [->|Hm]; [done|]); by apply not_elem_of_nil in Hm.
Qed.

Lemma resources_formed rs : well_formed (JArr (map projectedResourceJson rs)).
Proof. apply well_formed_items. intros x (r & -> & _)%list_elem_of_fmap. apply resource_formed. Qed.

Lemma keyed_formed {T} (items : list T) entry : (forall x, x ∈ items -> well_formed (entry x).2) -> formed_map (keyedBy items entry).
Proof. intros H key v Hv. apply map_of_elem, list_elem_of_fmap in Hv as (x & Hx & Hin). specialize (H x Hin). by rewrite <- Hx in H. Qed.

Lemma listed_formed (m : list (string * json)) : (forall e, e ∈ m -> well_formed e.2) -> formed_map m.
Proof. intros H key v Hv%map_get_elem. by apply (H (key, v)). Qed.

Lemma itemize_exact a b : formed_snapshot a -> formed_snapshot b -> exists items, itemizeDrift a b = Ok items /\ forall i, i ∈ items <-> field_differs a b i.
Proof.
  intros (_ & Hra & Hta) (_ & Hrb & Htb). unfold itemizeDrift.
  assert (Hs : forall s, formed_map (sources_keyed s)) by (intros s; by apply keyed_formed).
  assert (Hv : forall s, formed_map (versionsByName s)).
  { intros s. apply listed_formed. intros e (x & -> & _)%list_elem_of_fmap. apply strings_formed. }
  assert (Hp : forall s, formed_map (projections_keyed s)) by (intros s; apply keyed_formed; intros; apply resources_formed).
  assert (Hr : forall s, (forall e, e ∈ ss_runtime_properties s -> well_formed (value_json e.2)) -> formed_map (map_of (runtime_json (ss_runtime_properties s)))).
  { intros s H key v Hkv. apply map_of_elem, list_elem_of_fmap in Hkv as (e & [= -> ->] & He). by apply H. }
  assert (Ht : forall s, (forall e, e ∈ timingByName (timing_values s) -> well_spelled e.2) -> formed_map (timing_keyed s)).
  { intros s H. apply listed_formed. intros e (x & -> & Hx)%list_elem_of_fmap. by apply H. }
  assert (Hw : forall s, well_formed (warmup_json s)).
  { intros s. apply well_formed_members. split; [distinct|]. by intros m ->%list_elem_of_singleton. }
  destruct (diffValue_exact "SCOPE_POLICY_CHANGED" "policy_sha256" (JStr (ss_policy_sha256 a)) (JStr (ss_policy_sha256 b)) I I) as (i1 & -> & H1).
  destruct (diffValue_exact "SCOPE_ENTRY_POINTS_CHANGED" "entry_points" _ _ (strings_formed (ss_entry_points a)) (strings_formed (ss_entry_points b))) as (i2 & -> & H2).
  destruct (diffKeyed_exact "SCOPED_SOURCE_CHANGED" _ _ (Hs a) (Hs b)) as (i3 & -> & H3).
  destruct (diffKeyed_exact "SCOPED_DEPENDENCY_CHANGED" _ _ (Hv a) (Hv b)) as (i4 & -> & H4).
  destruct (diffValue_exact "SCOPED_LOCKFILE_CHANGED" "lockfile_sha256" (JStr (ss_lockfile_sha256 a)) (JStr (ss_lockfile_sha256 b)) I I) as (i5 & -> & H5).
  destruct (diffKeyed_exact "SCOPED_CONFIGURATION_CHANGED" _ _ (Hp a) (Hp b)) as (i6 & -> & H6).
  destruct (diffKeyed_exact "SCOPED_RUNTIME_PROPERTY_CHANGED" _ _ (Hr a Hra) (Hr b Hrb)) as (i7 & -> & H7).
  destruct (diffKeyed_exact "SCOPED_TIMING_CHANGED" _ _ (Ht a Hta) (Ht b Htb)) as (i8 & -> & H8).
  destruct (diffValue_exact "SCOPED_WARMUP_POLICY_CHANGED" "provider_warmup" _ _ (Hw a) (Hw b)) as (i9 & -> & H9).
  cbn [bind_result]. eexists. split; [done|]. intros i. unfold field_differs.
  rewrite !elem_of_app, H1, H2, H3, H4, H5, H6, H7, H8, H9. tauto.
Qed.

(** Two snapshots of one scope: every field is equal, the runtime properties as a map. *)
Definition same_scope (a b : TransportScopeSnapshot) : Prop :=
  ss_policy_sha256 a = ss_policy_sha256 b /\ ss_entry_points a = ss_entry_points b /\ source_files a = source_files b
  /\ dependency_closure a = dependency_closure b /\ ss_lockfile_sha256 a = ss_lockfile_sha256 b
  /\ ss_configuration_projections a = ss_configuration_projections b
  /\ (forall name, map_get name (ss_runtime_properties a) = map_get name (ss_runtime_properties b))
  /\ timing_values a = timing_values b /\ invocations_per_trial a = invocations_per_trial b.

Lemma same_list {A} (f : A -> json) xs ys : (forall x y, json_same (f x) (f y) = true <-> x = y) ->
  json_same (JArr (map f xs)) (JArr (map f ys)) = true <-> xs = ys.
Proof.
  intros Hf. rewrite items_same_iff. split.
  - revert ys. induction xs as [|x xs IH]; intros [|y ys] H; cbn [map] in H; try done; try by inversion H.
    apply Forall2_cons in H as [H1%Hf H2]. subst. f_equal. by apply IH.
  - intros ->. induction ys; constructor; [by apply Hf|done].
Qed.

Lemma same_text (x y : string) : json_same (JStr x) (JStr y) = true <-> x = y.
Proof. cbn. apply bool_decide_eq_true. Qed.

Lemma same_pair n1 n2 (x y : string * string) : n1 <> n2 ->
  json_same (JObj [(n1, JStr x.1); (n2, JStr x.2)]) (JObj [(n1, JStr y.1); (n2, JStr y.2)]) = true <-> x = y.
Proof.
  intros Hn. destruct x as [x1 x2], y as [y1 y2]. cbn. rewrite (bool_decide_eq_true_2 (n1 = n1)), (bool_decide_eq_true_2 (n2 = n2)), (bool_decide_eq_false_2 (n1 = n2)) by done.
  cbn. rewrite !andb_true_r, !andb_true_iff, !bool_decide_eq_true. split; [by intros (_ & -> & ->)|by intros [= -> ->]].
Qed.

Ltac distinct_names := repeat match goal with
  | |- context [bool_decide (?a = ?a)] => change (bool_decide (a = a)) with true
  | |- context [bool_decide ("property_path" = "canonical_json")] => change (bool_decide ("property_path" = "canonical_json")) with false
  | |- context [bool_decide ("canonical_json" = "property_path")] => change (bool_decide ("canonical_json" = "property_path")) with false
  end; cbn match.

Lemma same_property p q : json_same (projectedPropertyJson p) (projectedPropertyJson q) = true <-> p = q.
Proof.
  destruct p as [p1 [p2|]], q as [q1 [q2|]]; unfold projectedPropertyJson; cbn; rewrite ?andb_true_r, ?andb_true_iff;
    distinct_names; rewrite ?bool_decide_eq_true; (split; [|by intros [=]; subst]); by intros; destruct_and?; subst.
Qed.

Lemma same_resource r r' : json_same (projectedResourceJson r) (projectedResourceJson r') = true <-> r = r'.
Proof.
  unfold projectedResourceJson. rewrite <- (same_list projectedPropertyJson r r' same_property).
  set (x := JArr _). set (y := JArr _). clearbody x y. cbn [json_same]. change (member "property_values" [("property_values", y)]) with (Some y).
  rewrite bool_decide_eq_true_2 by done. by rewrite andb_true_r.
Qed.

Lemma same_projection (p q : string * list ProjectedResource) :
  json_same (JObj [("projection_id", JStr p.1); ("resources", JArr (map projectedResourceJson p.2))])
    (JObj [("projection_id", JStr q.1); ("resources", JArr (map projectedResourceJson q.2))]) = true <-> p = q.
Proof.
  destruct p as [p1 p2], q as [q1 q2]. cbn [fst snd]. transitivity (p1 = q1 /\ p2 = q2); [|naive_solver].
  rewrite <- (same_list projectedResourceJson p2 q2 same_resource). set (x := JArr _). set (y := JArr _). clearbody x y. cbn [json_same].
  change (member "projection_id" [("projection_id", JStr q1); ("resources", y)]) with (Some (JStr q1)).
  change (member "resources" [("projection_id", JStr q1); ("resources", y)]) with (Some y). cbn [json_same].
  rewrite bool_decide_eq_true_2 by done. rewrite andb_true_r, !andb_true_l, andb_true_iff, bool_decide_eq_true. done.
Qed.

Lemma same_value_json v u : json_same (value_json v) (value_json u) = true <-> v = u.
Proof. destruct v, u; cbn; rewrite ?bool_decide_eq_true; naive_solver. Qed.

Lemma member_runtime name r : member name (runtime_json r) = option_map value_json (map_get name r).
Proof. induction r as [|[k v] r IH]; [done|]. cbn. by case_bool_decide. Qed.

Lemma runtime_keys r : map fst (runtime_json r) = map fst r.
Proof. unfold runtime_json. by rewrite map_map. Qed.

Lemma same_runtime ra rb : NoDup (map fst ra) -> NoDup (map fst rb) ->
  json_same (JObj (runtime_json ra)) (JObj (runtime_json rb)) = true <-> forall name, map_get name ra = map_get name rb.
Proof.
  intros Ha Hb. rewrite members_same_iff. unfold runtime_json at 1 2. rewrite !length_map. split.
  - intros [Hl Hm] name.
    assert (Hsub : forall k v, (k, v) ∈ ra -> map_get k rb = Some v).
    { intros k v Hkv. destruct (Hm k (value_json v)) as (u & Hu & Hs); [by apply (list_elem_of_fmap_2 (fun e => (e.1, value_json e.2)) _ (k, v))|].
      rewrite member_runtime in Hu. destruct (map_get k rb) as [u'|]; [|done]. injection Hu as <-. apply same_value_json in Hs as ->. done. }
    destruct (map_get name ra) as [v|] eqn:E; [symmetry; by apply Hsub, map_get_elem|]. symmetry. apply map_get_None. apply map_get_None in E. intros Hin. apply E.
    assert (Hk : map fst ra ⊆+ map fst rb).
    { apply NoDup_submseteq; [done|]. intros k ([k' v] & -> & Hkv)%list_elem_of_fmap. apply Hsub, map_get_elem in Hkv. by apply (list_elem_of_fmap_2 fst _ (k', v)). }
    by rewrite (submseteq_length_Permutation _ _ Hk) by (rewrite !length_map; lia).
  - intros H. split.
    + assert (Hk : map fst ra ≡ₚ map fst rb).
      { apply NoDup_Permutation; [done..|]. intros k. pose proof (map_get_None k ra). pose proof (map_get_None k rb). rewrite (H k) in *.
        destruct (decide (k ∈ map fst ra)), (decide (k ∈ map fst rb)); tauto. }
      apply Permutation_length in Hk. by rewrite !length_map in Hk.
    + intros k v ([k' v'] & [= -> ->] & Hin)%list_elem_of_fmap. exists (value_json v'). split; [|by apply same_value_json].
      by rewrite member_runtime, <- H, (map_get_unique _ _ _ Ha Hin).
Qed.

(** Objects with the same names in one order. *)
Lemma same_fields ms ns : map fst ms = map fst ns -> NoDup (map fst ms) ->
  json_same (JObj ms) (JObj ns) = true <-> Forall2 (fun m n => json_same m.2 n.2 = true) ms ns.
Proof.
  intros Hk Hn. assert (Hl : length ms = length ns) by (rewrite <- (length_map fst ms), Hk; apply length_map).
  assert (Hat : forall i m n, ms !! i = Some m -> ns !! i = Some n -> m.1 = n.1 /\ member n.1 ns = Some n.2).
  { intros i [k v] [k' u] Hi Hj. assert (E : map fst ms !! i = map fst ns !! i) by by rewrite Hk. rewrite !list_lookup_fmap, Hi, Hj in E. injection E as ->.
    split; [done|]. apply Canonical.elem_member; [by rewrite <- Hk|]. by apply (list_elem_of_lookup_2 _ i). }
  rewrite members_same_iff, Forall2_same_length_lookup. split.
  - intros [_ H]. split; [done|]. intros i m n Hi Hj. destruct (Hat i m n Hi Hj) as [E Hm].
    destruct (H m.1 m.2) as (u & Hu & Hs); [destruct m; by apply (list_elem_of_lookup_2 _ i)|]. congruence.
  - intros [_ H]. split; [done|]. intros k v (i & Hi)%list_elem_of_lookup_1. destruct (lookup_lt_is_Some_2 ns i) as [n Hj].
    { rewrite <- Hl. by apply (lookup_lt_Some _ _ (k, v)). }
    destruct (Hat i _ n Hi Hj) as [E Hm]. exists n.2. cbn [fst] in E. subst k. split; [done|]. by apply (H i _ n Hi Hj).
Qed.

Lemma same_number n m : json_same (JNum n) (JNum m) = true <-> n = m.
Proof. cbn. apply bool_decide_eq_true. Qed.

Lemma same_timing t u : json_same (timing_json t) (timing_json u) = true <-> t = u.
Proof.
  unfold timing_json. rewrite same_fields; [|done|distinct]. unfold timingByName. cbn [map fst snd]. rewrite !Forall2_cons. cbn [snd]. rewrite !same_number.
  destruct t as [t1 t2 t3 t4], u as [u1 u2 u3 u4]; cbn. split; [by intros (-> & -> & -> & -> & _)|by intros [= -> -> -> ->]].
Qed.

Lemma same_warmup a b : json_same (warmup_json a) (warmup_json b) = true <-> invocations_per_trial a = invocations_per_trial b.
Proof. unfold warmup_json. rewrite same_fields; [|done|distinct]. rewrite !Forall2_cons. cbn [snd]. rewrite same_number. split; [by intros [[= ->] _]|by intros ->]. Qed.

(** The records of two snapshots are one JSON value exactly when the snapshots bind the same scope. *)
Lemma same_snapshot_json a b : formed_snapshot a -> formed_snapshot b -> json_same (snapshot_json a) (snapshot_json b) = true <-> same_scope a b.
Proof.
  intros (Ha & _) (Hb & _). unfold snapshot_json. rewrite same_fields; [|done|distinct]. rewrite !Forall2_cons. cbn [snd].
  rewrite !same_text, !same_number, !(same_list JStr) by apply same_text.
  rewrite (same_list (fun f : string * string => JObj [("path", JStr f.1); ("sha256", JStr f.2)])) by (intros; by apply same_pair).
  rewrite (same_list (fun d : string * string => JObj [("name", JStr d.1); ("version", JStr d.2)])) by (intros; by apply same_pair).
  rewrite (same_list (fun p : string * list ProjectedResource => JObj [("projection_id", JStr p.1); ("resources", JArr (map projectedResourceJson p.2))]))
    by apply same_projection.
  rewrite (same_runtime _ _ Ha Hb), same_timing, same_warmup. unfold same_scope. split; [tauto|]. intros. destruct_and?. by repeat split.
Qed.

Lemma pairs_formed (n1 n2 : string) (l : list (string * string)) : n1 <> n2 -> well_formed (JArr (map (fun f => JObj [(n1, JStr f.1); (n2, JStr f.2)]) l)).
Proof.
  intros Hn. apply well_formed_items. intros x (f & -> & _)%list_elem_of_fmap. apply well_formed_members. split.
  - cbn. repeat constructor; set_solver.
  - intros m [->|[->|H%not_elem_of_nil]%elem_of_cons]%elem_of_cons; done.
Qed.

Lemma timing_formed s : formed_snapshot s -> well_formed (timing_json (timing_values s)).
Proof. intros (_ & _ & H). apply well_formed_members. split; [distinct|]. intros m (e & -> & He)%list_elem_of_fmap. by apply H. Qed.

Lemma snapshot_formed s : formed_snapshot s -> well_formed (snapshot_json s).
Proof.
  intros Hs. pose proof Hs as (Hn & Hr & _). apply well_formed_members. split; [distinct|]. intros m Hm.
  repeat (apply elem_of_cons in Hm as [->|Hm]; [cbn [snd]; try done|]); try by apply not_elem_of_nil in Hm.
  - apply strings_formed.
  - by apply pairs_formed.
  - by apply pairs_formed.
  - apply well_formed_items. intros x (p & -> & _)%list_elem_of_fmap. apply well_formed_members. split; [distinct|].
    intros m [->|[->|H%not_elem_of_nil]%elem_of_cons]%elem_of_cons; try done. apply resources_formed.
  - apply well_formed_members. rewrite runtime_keys. split; [done|]. intros m (e & -> & He)%list_elem_of_fmap. by apply Hr.
  - by apply timing_formed.
  - apply well_formed_members. split; [distinct|]. by intros m ->%list_elem_of_singleton.
Qed.

(** The canonical text of a well-formed value. *)
Lemma canonical_ok v : well_formed v -> exists t, canonicalJson v = Ok t.
Proof. intros H. eexists. by apply Canonical.canonicalJson_w. Qed.

Section drift.
Context (sha256Hex : list Z -> string).

(** What the file of a snapshot says, and the digest of two files being one only of one file. *)
Definition snapshot_file (s : TransportScopeSnapshot) (bytes : list Z) : Prop :=
  exists t, TrialMessage.serializeRecordFile (snapshot_json s) = Ok t /\ bytes = Parsing.bytes_of t.
Definition no_collision (a b : TransportScopeSnapshot) : Prop :=
  forall x y, snapshot_file a x -> snapshot_file b y -> sha256Hex x = sha256Hex y -> x = y.

Lemma snapshot_digests a b : formed_snapshot a -> formed_snapshot b -> no_collision a b ->
  exists x y, scopeSnapshotSha256 sha256Hex a = Ok x /\ scopeSnapshotSha256 sha256Hex b = Ok y /\ (x = y <-> same_scope a b).
Proof.
  intros Ha Hb Hc. destruct (canonical_texts _ _ (snapshot_formed a Ha) (snapshot_formed b Hb)) as (ta & tb & Hta & Htb & H).
  rewrite same_snapshot_json in H by done. unfold scopeSnapshotSha256, TrialMessage.serializeRecordFile. rewrite Hta, Htb. cbn [bind_result].
  eexists _, _. split; [done|]. split; [done|]. rewrite <- H. split; [|by intros ->]. intros E. apply Hc in E.
  - apply (f_equal Parsing.text_of_bytes) in E. rewrite !Parsing.text_of_bytes_of in E. apply (f_equal chars) in E. rewrite !chars_app in E.
    apply app_inv_tail in E. apply (f_equal text) in E. by rewrite !text_chars in E.
  - eexists. unfold TrialMessage.serializeRecordFile. rewrite Hta. by split.
  - eexists. unfold TrialMessage.serializeRecordFile. rewrite Htb. by split.
Qed.
End drift.

(** Every item was written in canonical form when it was found, so its reason can be. *)
Definition textual (i : ScopeDriftItem) : Prop := exists t u, canonicalJson (d_selected i) = Ok t /\ canonicalJson (d_recomputed i) = Ok u.

Lemma diffValue_textual c s va vb ds : diffValue c s va vb = Ok ds -> Forall textual ds.
Proof.
  unfold diffValue. destruct (canonicalJson va) as [t|] eqn:Ha; [|done]. cbn [bind_result]. destruct (canonicalJson vb) as [u|] eqn:Hb; [|done].
  intros [= <-]. case_bool_decide; [done|]. constructor; [by exists t, u|done].
Qed.

Lemma bind_textual (first second : Result (list ScopeDriftItem) js_error) ds :
  (let! d := first in let! ds := second in Ok (d ++ ds)) = Ok ds -> (forall d, first = Ok d -> Forall textual d) ->
  (forall d, second = Ok d -> Forall textual d) -> Forall textual ds.
Proof.
  destruct first as [d|]; [|done]. cbn [bind_result]. destruct second as [d'|]; [|done]. intros [= <-] H1 H2. apply Forall_app. by split; [apply H1|apply H2].
Qed.

Lemma diffKeyed_textual c ma mb ds : diffKeyed c ma mb = Ok ds -> Forall textual ds.
Proof.
  unfold diffKeyed. revert ds. induction (sortedSet _) as [|key keys IH]; intros ds; cbn [diff_keys]; [by intros [= <-]|].
  intros H. apply (bind_textual _ _ _ H); [apply diffValue_textual|apply IH].
Qed.

Lemma itemize_textual a b items : itemizeDrift a b = Ok items -> Forall textual items.
Proof.
  unfold itemizeDrift. intros H.
  repeat match type of H with
  | (let! x := diffValue ?c ?s ?va ?vb in _) = _ => let E := fresh "E" in destruct (diffValue c s va vb) eqn:E; [apply diffValue_textual in E|done]; cbn [bind_result] in H
  | (let! x := diffKeyed ?c ?ma ?mb in _) = _ => let E := fresh "E" in destruct (diffKeyed c ma mb) eqn:E; [apply diffKeyed_textual in E|done]; cbn [bind_result] in H
  end.
  injection H as <-. by rewrite !Forall_app.
Qed.

Lemma reasons_exist items : Forall textual items -> exists rs, drift_reasons items = Ok rs
  /\ Forall2 (fun i r => code r = drift_code i /\ subject r = SCOPE_REASON_SUBJECT) items rs.
Proof.
  induction 1 as [|i items (t & u & Ht & Hu) _ (rs & Hrs & Hall)]; [by exists []|]. cbn [drift_reasons]. unfold driftReason. rewrite Ht. cbn [bind_result].
  rewrite Hu. cbn [bind_result]. rewrite Hrs. cbn [bind_result]. eexists. split; [done|]. by constructor.
Qed.

(** C14: The comparison of a selected and a recomputed snapshot decides whether they bind the same scope: as long as SHA-256 does
    not give the two files one digest, it always answers, with no drift exactly when every field is equal (the runtime properties
    as a map, in any order), and otherwise with the drift: the two digests, one item for each difference of the policy, the entry
    points, a source, a dependency, the lockfile, a projection, a runtime property, a timing value and the warmup and no other
    item, or the one item of the whole snapshot when none of those differs, and one rejection reason with its code per item. *)
Theorem drift_exact (sha256Hex : list Z -> string) (a b : TransportScopeSnapshot) :
  formed_snapshot a -> formed_snapshot b -> no_collision sha256Hex a b ->
  exists r, compareScopeSnapshots sha256Hex a b = Ok r /\
  match r with
  | no_drift d => same_scope a b /\ scopeSnapshotSha256 sha256Hex a = Ok d
  | drift x y items rs => ~ same_scope a b /\ scopeSnapshotSha256 sha256Hex a = Ok x /\ scopeSnapshotSha256 sha256Hex b = Ok y
      /\ ((exists i, field_differs a b i) -> forall i, i ∈ items <-> field_differs a b i)
      /\ (~ (exists i, field_differs a b i) -> items = [MkItem "SCOPE_SNAPSHOT_CHANGED" "transport_scope_snapshot" (JStr x) (JStr y)])
      /\ Forall2 (fun i r => code r = drift_code i /\ subject r = SCOPE_REASON_SUBJECT) items rs
  end.
Proof.
  intros Ha Hb Hc. destruct (snapshot_digests sha256Hex a b Ha Hb Hc) as (x & y & Hx & Hy & Hsame). unfold compareScopeSnapshots. rewrite Hx, Hy. cbn [bind_result].
  destruct (bool_decide_reflect (x = y)) as [E|Hne]; [eexists; split; [done|]; split; [by apply Hsame|done]|].
  destruct (itemize_exact a b Ha Hb) as (items & Hi & Hex). pose proof (itemize_textual _ _ _ Hi) as Htext. rewrite Hi. cbn [bind_result].
  destruct items as [|i items].
  - destruct (reasons_exist [MkItem "SCOPE_SNAPSHOT_CHANGED" "transport_scope_snapshot" (JStr x) (JStr y)]) as (rs & Hrs & Hall).
    { constructor; [|done]. destruct (canonical_ok (JStr x) I) as [t Ht], (canonical_ok (JStr y) I) as [u Hu]. by exists t, u. }
    rewrite Hrs. cbn [bind_result]. eexists. split; [done|]. repeat split; try done; [by intros H%Hsame|..]; destruct H as [j Hj%Hex]; by apply not_elem_of_nil in Hj.
  - destruct (reasons_exist _ Htext) as (rs & Hrs & Hall). rewrite Hrs. cbn [bind_result]. eexists. split; [done|].
    repeat split; try done; [by intros H%Hsame|apply Hex|apply Hex|]. intros H. destruct H. exists i. apply Hex. left.
Qed.

(** ** Two snapshots *)

Definition demo_snapshot (digest : string) (limit : Z) : TransportScopeSnapshot :=
  MkSnapshot "p" ["src/probe.ts"] [("src/probe.ts", digest)] [("pg", "8.1.0"); ("pg", "8.0.0")] "l" [("queues", [[MkProperty "VisibilityTimeout" (Some "30")]])]
    [("bundle_format", text_value "esm"); ("memory_mb", number_value (JSInt limit))] (MkTiming (JSInt 1) (JSInt 2) (JSInt 3) (JSInt 4)) 2.

Lemma demo_snapshot_formed digest limit : formed_snapshot (demo_snapshot digest limit).
Proof.
  repeat split; [distinct| |]; intros e He; repeat (apply elem_of_cons in He as [->|He]; [exact I|]); by apply not_elem_of_nil in He.
Qed.

(** The text itself is a digest without collisions. *)
Lemma demo_no_collision a b : no_collision Parsing.text_of_bytes a b.
Proof. intros x y (t & _ & ->) (u & _ & ->). rewrite !Parsing.text_of_bytes_of. by intros ->. Qed.

Lemma drift_exact_witness :
  (exists d, compareScopeSnapshots Parsing.text_of_bytes (demo_snapshot "1" 128) (demo_snapshot "1" 128) = Ok (no_drift d))
  /\ exists r, compareScopeSnapshots Parsing.text_of_bytes (demo_snapshot "1" 128) (demo_snapshot "2" 256) = Ok r
     /\ match r with
        | no_drift _ => False
        | drift _ _ items rs => map drift_code items = ["SCOPED_SOURCE_CHANGED"; "SCOPED_RUNTIME_PROPERTY_CHANGED"]
            /\ map drift_subject items = ["src/probe.ts"; "memory_mb"] /\ length rs = 2%nat
            /\ ~ same_scope (demo_snapshot "1" 128) (demo_snapshot "2" 256)
        end.
Proof.
  split; [eexists; vm_compute; reflexivity|].
  destruct (drift_exact Parsing.text_of_bytes (demo_snapshot "1" 128) (demo_snapshot "2" 256) (demo_snapshot_formed _ _) (demo_snapshot_formed _ _) (demo_no_collision _ _))
    as (r & Hr & Hspec).
  exists r. split; [exact Hr|]. assert (E : Ok r = compareScopeSnapshots Parsing.text_of_bytes (demo_snapshot "1" 128) (demo_snapshot "2" 256)) by by symmetry.
  destruct r as [d|x y items rs]; [vm_compute in E; discriminate|]. destruct Hspec as (Hs & _). split; [|split; [|split; [|exact Hs]]].
  - transitivity (match compareScopeSnapshots Parsing.text_of_bytes (demo_snapshot "1" 128) (demo_snapshot "2" 256) with Ok (drift _ _ i _) => map drift_code i | _ => [] end); [by rewrite <- E|vm_compute; reflexivity].
  - transitivity (match compareScopeSnapshots Parsing.text_of_bytes (demo_snapshot "1" 128) (demo_snapshot "2" 256) with Ok (drift _ _ i _) => map drift_subject i | _ => [] end); [by rewrite <- E|vm_compute; reflexivity].
  - transitivity (match compareScopeSnapshots Parsing.text_of_bytes (demo_snapshot "1" 128) (demo_snapshot "2" 256) with Ok (drift _ _ _ rs) => length rs | _ => 0%nat end); [by rewrite <- E|vm_compute; reflexivity].
Defined.
End ScopeSnapshotCorrect.
