(* ===== verification/ScopeBindingCorrect.v ===== *)
(** * What a scope snapshot binds

    A snapshot that is computed binds every source, package, runtime property and timing value its policy puts in scope, as the
    committed files, the lockfile and the installation have them, and nothing else; otherwise there is a reason. *)

From S2P Require Import Prelude AttemptLifecycle Timestamps Decimals Store JsonText Parsing Controller Evidence Journal TrialMessage Oracle Ingestion IngestionCorrect Package Scope ScopeSnapshot ScopeSnapshotCorrect.
Import Json JsonText Scope ScopeSnapshot.
Import Evidence(map_get).
Import Journal(unique).
Import Package(flat_map_nil).
Import Oracle(map_set).
Import IngestionCorrect(map_get_elem).
Import ScopeSnapshotCorrect(map_get_set, map_get_unique, map_set_keys).
Open Scope Z_scope.

Module ScopeBindingCorrect.

(** ** Reasons that are none *)

Lemma map_filter_nil {A B} (f : A -> B) (t : A -> bool) l : map f (List.filter t l) = [] <-> forall x, x ∈ l -> t x = false.
Proof.
  induction l as [|x l IH]; cbn [List.filter]; [split; [by intros _ ? ?%not_elem_of_nil|done]|]. destruct (t x) eqn:E; cbn [map].
  - split; [done|]. intros H. rewrite (H x) in E by left. done.
  - rewrite IH. split; [intros H y [->|Hy]%elem_of_cons; [done|by apply H]|]. intros H y Hy. apply H. by right.
Qed.

Lemma elem_of_flat_map {A B} (f : A -> list B) l y : y ∈ flat_map f l <-> exists x, x ∈ l /\ y ∈ f x.
Proof. rewrite !list_elem_of_In, in_flat_map. split; intros (x & H1 & H2); exists x; by rewrite ?list_elem_of_In in *. Qed.

Lemma elem_of_filter_list {A} (t : A -> bool) l y : y ∈ List.filter t l <-> y ∈ l /\ t y = true.
Proof. by rewrite !list_elem_of_In, filter_In. Qed.

(** ** The entry points and the sources *)

Definition one_bundle (bundles : list BundleInputs) (e : string) : Prop := exists b, List.filter (fun b => bool_decide (entry_point b = e)) bundles = [b].

Lemma bundles_exact p bundles : (entryPointBundles p bundles).2 = [] ->
  (forall e, e ∈ entry_points p -> one_bundle bundles e)
  /\ forall b, b ∈ (entryPointBundles p bundles).1 <-> b ∈ bundles /\ entry_point b ∈ entry_points p.
Proof.
  unfold entryPointBundles. cbn [fst snd]. intros Hnil. rewrite flat_map_nil in Hnil.
  assert (H1 : forall e, e ∈ entry_points p -> exists b, List.filter (fun b => bool_decide (entry_point b = e)) bundles = [b]).
  { intros e He. pose proof (Hnil _ (list_elem_of_fmap_2 (bundle_of bundles) _ e He)) as E. unfold bundle_of in E.
    destruct (List.filter _ bundles) as [|b [|b' l]]; [discriminate E|by exists b|discriminate E]. }
  split; [done|]. intros b. rewrite elem_of_flat_map. split.
  - intros (x & (e & -> & He)%list_elem_of_fmap & Hb). destruct (H1 e He) as [b' Hb']. unfold bundle_of in Hb. rewrite Hb' in Hb. cbn in Hb.
    apply list_elem_of_singleton in Hb as ->. assert (Hin : b' ∈ List.filter (fun b => bool_decide (entry_point b = e)) bundles) by (rewrite Hb'; left).
    apply elem_of_filter_list in Hin as [? ->%bool_decide_eq_true]. done.
  - intros [Hb He]. exists (bundle_of bundles (entry_point b)). split; [by apply (list_elem_of_fmap_2 (bundle_of bundles))|].
    destruct (H1 _ He) as [b' Hb']. unfold bundle_of. rewrite Hb'. cbn. rewrite <- Hb'. apply elem_of_filter_list. split; [done|by apply bool_decide_eq_true].
Qed.

(** The paths a policy puts in scope: the bundled sources of its entry points, and the committed files under its roots. *)
Definition rooted (p : TransportScopePolicy) (committed : list string) (path : string) : Prop :=
  path ∈ committed /\ exists root, root ∈ source_roots p /\ isUnderSourceRoot path root = true.

Lemma rooted_exact p committed path : path ∈ rooted_files p committed <-> rooted p committed path.
Proof.
  unfold rooted_files, rooted. rewrite elem_of_flat_map. split.
  - intros (root & Hr & [Hp Hu]%elem_of_filter_list). split; [done|by exists root].
  - intros [Hp (root & Hr & Hu)]. exists root. by rewrite elem_of_filter_list.
Qed.

Lemma scoped_paths_exact p bs committed path : path ∈ scoped_paths p bs committed <->
  isPackageRelativePath path = true /\ ((exists b, b ∈ bs /\ path ∈ local_sources b) \/ rooted p committed path).
Proof.
  unfold scoped_paths, sortedSet. rewrite elem_of_filter_list, isort_elem, Journal.unique_elem, elem_of_app, elem_of_flat_map, rooted_exact. tauto.
Qed.

Lemma NoDup_filter_list {A} (t : A -> bool) l : NoDup l -> NoDup (List.filter t l).
Proof. rewrite !NoDup_ListNoDup. apply List.NoDup_filter. Qed.

Lemma scoped_paths_NoDup p bs committed : NoDup (scoped_paths p bs committed).
Proof. apply NoDup_filter_list. unfold sortedSet. rewrite isort_perm. apply Journal.unique_NoDup. Qed.

(** Looking every key up gives the entries of the keys that are found. *)
Lemma looked_up_elem {V} (m : list (string * V)) (keys : list string) key v :
  (key, v) ∈ omap (fun k => option_map (fun d => (k, d)) (map_get k m)) keys <-> key ∈ keys /\ map_get key m = Some v.
Proof.
  rewrite list_elem_of_omap. split.
  - intros (k & Hk & E). destruct (map_get k m) as [d|] eqn:Ed; [|done]. by injection E as -> ->.
  - intros [Hk E]. exists key. by rewrite E.
Qed.

Lemma looked_up_keys {V} (m : list (string * V)) (keys : list string) : (forall k, k ∈ keys -> is_Some (map_get k m)) ->
  map fst (omap (fun k => option_map (fun d => (k, d)) (map_get k m)) keys) = keys.
Proof.
  induction keys as [|k keys IH]; intros H; [done|]. destruct (H k) as [d Hd]; [left|]. cbn. rewrite Hd. cbn. f_equal. apply IH. intros k' Hk'. apply H. by right.
Qed.

Lemma sources_exact p bs committed digests : (scopedSourceFiles p bs committed digests).2 = [] ->
  (forall b path, b ∈ bs -> path ∈ local_sources b -> isPackageRelativePath path = true)
  /\ (forall root, root ∈ source_roots p -> exists path, path ∈ committed /\ isUnderSourceRoot path root = true)
  /\ map fst (scopedSourceFiles p bs committed digests).1 = scoped_paths p bs committed
  /\ forall path d, (path, d) ∈ (scopedSourceFiles p bs committed digests).1 <-> path ∈ scoped_paths p bs committed /\ map_get path digests = Some d.
Proof.
  unfold scopedSourceFiles. cbn [fst snd]. rewrite !app_nil, !map_filter_nil. intros (H1 & H2 & H3). split; [|split; [|split]].
  - intros b path Hb Hp. specialize (H1 path). rewrite Journal.unique_elem, elem_of_flat_map in H1. specialize (H1 (ex_intro _ b (conj Hb Hp))).
    by apply negb_false_iff in H1.
  - intros root Hr. specialize (H2 root Hr). apply negb_false_iff, existsb_exists in H2 as (path & Hp & Hu). exists path. by rewrite list_elem_of_In.
  - apply looked_up_keys. intros k Hk. specialize (H3 k Hk). apply bool_decide_eq_false in H3. by destruct (map_get k digests).
  - intros path d. apply looked_up_elem.
Qed.

(** ** The packages *)

(** A package that is locked with a version and installed at it, and a production dependency when it is bundled. *)
Definition bound_package (bundled : list string) (lock_ : PackageLock) (installed : list (string * string)) (path : string) (locked : LockedPackage) (version : string) : Prop :=
  map_get path (lock_packages lock_) = Some locked /\ lk_version locked = Some version /\ map_get path installed = Some version
  /\ (path ∈ bundled -> dev locked = false).

Lemma resolve_one_exact bundled lock_ installed path : (resolve_one bundled lock_ installed path).1 = [] ->
  exists locked version, (resolve_one bundled lock_ installed path).2 = Some (locked, version) /\ bound_package bundled lock_ installed path locked version.
Proof.
  unfold resolve_one, lockedVersion. destruct (map_get path (lock_packages lock_)) as [locked|] eqn:Hl; [|done].
  destruct (lk_version locked) as [v|] eqn:Hv; [|done]. cbn [fst snd]. rewrite app_nil. intros [H1 H2]. exists locked, v. split; [done|].
  unfold bound_package. rewrite Hl, Hv. case_bool_decide as Hi; [|done]. repeat split; try done. intros Hb.
  apply memb_true in Hb. rewrite Hb in H2. by destruct (dev locked).
Qed.

Definition package_key (d : string * string) : string := d.1 +:+ "@" +:+ d.2.

(** The [Map] holds the packages' own names and versions, under every package's key. *)
Lemma byKey_exact ps :
  (forall key d, map_get key (byKey ps) = Some d -> key = package_key d /\ exists p, p ∈ ps /\ d = (lk_name p.1, p.2))
  /\ (forall p, p ∈ ps -> is_Some (map_get (package_key (lk_name p.1, p.2)) (byKey ps))) /\ NoDup (map fst (byKey ps)).
Proof.
  unfold byKey. induction ps as [|p ps (IH1 & IH2 & IH3)] using rev_ind; [split; [done|split; [by intros p ?%not_elem_of_nil|constructor]]|].
  rewrite fold_left_app. cbn [fold_left]. split; [|split].
  - intros key d. rewrite map_get_set. case_bool_decide as E; [intros [= <-]; split; [by symmetry|exists p; split; [set_solver|done]]|].
    intros Hd%IH1. destruct Hd as [-> (q & Hq & ->)]. split; [done|]. exists q. split; [set_solver|done].
  - intros q [Hq| ->%list_elem_of_singleton]%elem_of_app; rewrite map_get_set; case_bool_decide; try done. by apply IH2.
  - by apply map_set_keys.
Qed.

Lemma closure_exact sha256Hex bundled declared lock_ installed c :
  resolveDependencyClosure sha256Hex bundled declared lock_ installed = Ok c ->
  (forall path, path ∈ closureInstallPaths bundled declared -> exists locked version, bound_package bundled lock_ installed path locked version
     /\ exists d, d ∈ dc_dependencies c /\ package_key d = package_key (lk_name locked, version))
  /\ forall d, d ∈ dc_dependencies c -> exists path locked version, path ∈ closureInstallPaths bundled declared
     /\ bound_package bundled lock_ installed path locked version /\ d = (lk_name locked, version).
Proof.
  unfold resolveDependencyClosure. set (turns := map _ _). destruct (flat_map fst turns) eqn:E; [|done]. intros [= <-]. cbn [dc_dependencies].
  rewrite flat_map_nil in E. set (ps := omap snd turns). destruct (byKey_exact ps) as (Hk1 & Hk2 & Hk3). unfold uniqueDependencies.
  assert (Hturn : forall path, path ∈ closureInstallPaths bundled declared -> exists locked version, (locked, version) ∈ ps /\ bound_package bundled lock_ installed path locked version).
  { intros path Hp. assert (Hin : resolve_one bundled lock_ installed path ∈ turns) by by apply list_elem_of_fmap_2.
    destruct (resolve_one_exact bundled lock_ installed path (E _ Hin)) as (l & v & Hs & Hb). exists l, v. split; [|done].
    apply list_elem_of_omap. by exists (resolve_one bundled lock_ installed path). }
  split.
  - intros path Hp. destruct (Hturn path Hp) as (l & v & Hin & Hb). exists l, v. split; [done|]. destruct (Hk2 _ Hin) as [d Hd]. exists d.
    rewrite isort_elem. split; [by apply (list_elem_of_fmap_2 snd _ (package_key (lk_name l, v), d)), map_get_elem|]. symmetry. by apply Hk1.
  - intros d. rewrite isort_elem. intros ([key d'] & -> & Hd)%list_elem_of_fmap. cbn [snd].
    destruct (Hk1 key d') as [_ ([l v] & Hp & ->)]; [by apply map_get_unique|].
    apply list_elem_of_omap in Hp as (t & (path & -> & Hpath)%list_elem_of_fmap & Ht).
    destruct (Hturn path Hpath) as (l' & v' & Hin & Hb). exists path, l, v. split; [done|]. split; [|done].
    destruct (resolve_one_exact bundled lock_ installed path) as (l2 & v2 & Hs & Hb2); [apply E; by apply list_elem_of_fmap_2|]. congruence.
Qed.

Lemma closure_reasons sha256Hex bundled declared lock_ installed rs : resolveDependencyClosure sha256Hex bundled declared lock_ installed = Err rs -> rs <> [].
Proof. unfold resolveDependencyClosure. destruct (flat_map _ _) as [|r l]; [done|]. by intros [= <-]. Qed.

Lemma install_paths_exact bundled declared path : path ∈ closureInstallPaths bundled declared <->
  path ∈ bundled \/ exists name, name ∈ declared /\ path = "node_modules/" +:+ name.
Proof.
  unfold closureInstallPaths, sortedSet. rewrite isort_elem, Journal.unique_elem, elem_of_app, list_elem_of_fmap.
  apply or_iff_compat_l. split; intros (name & H1 & H2); by exists name.
Qed.

(** ** The configuration projections *)

Lemma projections_exact p t : (configurationProjections p t).2 = [] ->
  forall id rs, (id, rs) ∈ (configurationProjections p t).1 <->
    exists cp, cp ∈ Scope.configuration_projections p /\ projection_id cp = id /\ normalizeConfigurationProjection t cp = Ok rs.
Proof.
  unfold configurationProjections. destruct (listTemplateResources t) as [l|e]; [|done]. cbn [fst snd]. intros _ id rs. rewrite isort_elem, elem_of_flat_map. split.
  - intros (x & (cp & -> & Hcp)%list_elem_of_fmap & Hin). exists cp. unfold project in Hin. destruct (normalizeConfigurationProjection t cp) as [rs'|e]; cbn in Hin.
    + by apply list_elem_of_singleton in Hin as [= -> ->].
    + by apply not_elem_of_nil in Hin.
  - intros (cp & Hcp & <- & Hrs). exists (project t cp). split; [by apply list_elem_of_fmap_2|]. unfold project. rewrite Hrs. left.
Qed.

(** ** The runtime properties and the timing *)

Definition safe_value (v : RuntimePropertyValue) : Prop := match v with number_value n => isSafeInteger n = true | _ => True end.

Lemma runtime_turn_exact provided acc name : exists more, (runtime_turn provided acc name).2 = acc.2 ++ more
  /\ (more = [] -> exists v, map_get name provided = Some v /\ safe_value v /\ (runtime_turn provided acc name).1 = map_set name v acc.1).
Proof.
  unfold runtime_turn. destruct (map_get name provided) as [[s|n|b]|].
  - exists []. rewrite app_nil_r. split; [done|]. by exists (text_value s).
  - destruct (isSafeInteger n) eqn:E; [|by eexists]. exists []. rewrite app_nil_r. split; [done|]. by exists (number_value n).
  - exists []. rewrite app_nil_r. split; [done|]. by exists (boolean_value b).
  - by eexists.
Qed.

Lemma runtime_exact p provided : (runtimeProperties p provided).2 = [] ->
  NoDup (map fst (runtimeProperties p provided).1)
  /\ (forall name, name ∈ runtime_properties p -> exists v, map_get name provided = Some v /\ safe_value v)
  /\ forall name v, map_get name (runtimeProperties p provided).1 = Some v <-> name ∈ runtime_properties p /\ map_get name provided = Some v.
Proof.
  unfold runtimeProperties. induction (runtime_properties p) as [|name names IH] using rev_ind.
  - intros _. split; [constructor|]. split; [by intros ? ?%not_elem_of_nil|]. intros name v. split; [done|by intros [?%not_elem_of_nil _]].
  - rewrite fold_left_app. cbn [fold_left]. destruct (runtime_turn_exact provided (fold_left (runtime_turn provided) names ([], [])) name) as (more & -> & Hm).
    rewrite app_nil. intros [Hnil Hmore]. destruct (Hm Hmore) as (w & Hw & Hs & ->). destruct (IH Hnil) as (Hn & Hv & Hg). split; [by apply map_set_keys|].
    split; [intros x [Hx| ->%list_elem_of_singleton]%elem_of_app; [by apply Hv|by exists w]|]. intros x v. rewrite map_get_set, elem_of_app, list_elem_of_singleton.
    case_bool_decide as E; [subst; rewrite Hw; naive_solver|]. rewrite Hg. naive_solver.
Qed.

Lemma timing_exact t : timingViolations t = [] <-> forall e, e ∈ timingByName t -> positive_timing e.2 = true.
Proof. unfold timingViolations. rewrite map_filter_nil. split; intros H e He; [apply negb_false_iff|apply negb_false_iff]; by apply H. Qed.

(** ** The snapshot *)

Section binding.
Context (input : ScopeSnapshotInput).
Let p : TransportScopePolicy := policy (si_policy input).

(** The bundles of the entry points, the paths in scope and the install paths of the closure. *)
Definition scope_bundle (b : BundleInputs) : Prop := b ∈ bundles input /\ entry_point b ∈ entry_points p.
Definition path_in_scope (path : string) : Prop :=
  isPackageRelativePath path = true /\ ((exists b, scope_bundle b /\ path ∈ local_sources b) \/ rooted p (committed_files input) path).
Definition bundled_package (path : string) : Prop := exists b, scope_bundle b /\ path ∈ packages b.
Definition install_in_scope (path : string) : Prop := bundled_package path \/ exists name, name ∈ dependencies p /\ path = "node_modules/" +:+ name.
Definition locked_at (path : string) (locked : LockedPackage) (version : string) : Prop :=
  map_get path (lock_packages (lock input)) = Some locked /\ lk_version locked = Some version
  /\ map_get path (installed_versions input) = Some version /\ (bundled_package path -> dev locked = false).
End binding.

(** C15: A computed snapshot binds the scope its policy names and nothing else: every entry point has one bundle; the source files
    are the bundled local sources and the committed files under the roots, each path once, each with the digest of its committed
    content, and none is left out; every bundled and every declared package is locked with a version, installed at that version,
    not a development dependency when it is bundled, and listed by its name and version, and every listed dependency is one; the
    projections are those of the template under each projection's policy; the runtime properties are those the policy names, with the values given, every number a safe integer; and the timing values are
    positive. Otherwise there is at least one reason. *)
Theorem snapshot_binds_scope (sha256Hex : list Z -> string) (input : ScopeSnapshotInput) :
  match computeScopeSnapshot sha256Hex input with
  | Err reasons => reasons <> []
  | Ok s =>
      (forall e, e ∈ entry_points (policy (si_policy input)) -> one_bundle (bundles input) e)
      /\ NoDup (map fst (source_files s))
      /\ (forall path d, (path, d) ∈ source_files s <-> path_in_scope input path /\ map_get path (source_digests input) = Some d)
      /\ (forall path, path_in_scope input path -> path ∈ map fst (source_files s))
      /\ (forall path, install_in_scope input path -> exists locked version, locked_at input path locked version
            /\ exists d, d ∈ dependency_closure s /\ package_key d = package_key (lk_name locked, version))
      /\ (forall d, d ∈ dependency_closure s -> exists path locked version, install_in_scope input path
            /\ locked_at input path locked version /\ d = (lk_name locked, version))
      /\ (forall id rs, (id, rs) ∈ ss_configuration_projections s <-> exists cp, cp ∈ Scope.configuration_projections (policy (si_policy input))
            /\ projection_id cp = id /\ normalizeConfigurationProjection (template input) cp = Ok rs)
      /\ (forall name v, map_get name (ss_runtime_properties s) = Some v <->
            name ∈ runtime_properties (policy (si_policy input)) /\ map_get name (runtime input) = Some v)
      /\ (forall name, name ∈ runtime_properties (policy (si_policy input)) -> exists v, map_get name (runtime input) = Some v /\ safe_value v)
      /\ (forall e, e ∈ timingByName (timing_values s) -> positive_timing e.2 = true)
  end.
Proof.
  unfold computeScopeSnapshot. set (p := policy (si_policy input)).
  destruct (resolveDependencyClosure _ _ _ _ _) as [c|rs] eqn:Hc.
  2: { intros H. apply closure_reasons in Hc. rewrite !app_nil in H. tauto. }
  destruct (_ ++ _) eqn:E; [|done]. rewrite !app_nil in E. destruct E as (Hb & Hs & _ & Hp & Hr & Ht).
  cbn [source_files dependency_closure ss_configuration_projections ss_runtime_properties timing_values].
  destruct (bundles_exact p (bundles input) Hb) as [Hone Hbs].
  destruct (sources_exact p _ _ _ Hs) as (_ & _ & Hkeys & Hsources). destruct (closure_exact _ _ _ _ _ _ Hc) as [Hall Honly].
  destruct (runtime_exact p (runtime input) Hr) as (_ & Hsafe & Hrun).
  assert (Hpath : forall path, path ∈ scoped_paths p (entryPointBundles p (bundles input)).1 (committed_files input) <-> path_in_scope input path).
  { intros path. rewrite scoped_paths_exact. by setoid_rewrite Hbs. }
  assert (Hbundled : forall path, path ∈ flat_map packages (entryPointBundles p (bundles input)).1 <-> bundled_package input path).
  { intros path. rewrite elem_of_flat_map. by setoid_rewrite Hbs. }
  assert (Hinstall : forall path, path ∈ closureInstallPaths (flat_map packages (entryPointBundles p (bundles input)).1) (dependencies p) <-> install_in_scope input path).
  { intros path. by rewrite install_paths_exact, Hbundled. }
  assert (Hlocked : forall path l v, bound_package (flat_map packages (entryPointBundles p (bundles input)).1) (lock input) (installed_versions input) path l v <-> locked_at input path l v).
  { intros path l v. unfold bound_package, locked_at. by rewrite Hbundled. }
  setoid_rewrite Hinstall in Hall. setoid_rewrite Hinstall in Honly. setoid_rewrite Hlocked in Hall. setoid_rewrite Hlocked in Honly.
  setoid_rewrite Hpath in Hsources.
  split; [exact Hone|]. split; [rewrite Hkeys; apply scoped_paths_NoDup|]. split; [exact Hsources|].
  split; [intros path Hin; rewrite Hkeys; by apply Hpath|]. split; [exact Hall|]. split; [exact Honly|]. split; [exact (projections_exact p _ Hp)|].
  split; [exact Hrun|]. split; [exact Hsafe|]. by apply timing_exact.
Qed.
End ScopeBindingCorrect.
